(* ===== verification/_CoqProject ===== *)
-Q . S2P
Prelude.v
Floats.v
Geometry.v
Text.v
Protocol.v
Errors.v
Policy.v
Validation.v
Driver.v
Session.v
Artifacts.v
Runtime.v
RuntimeInv.v
RuntimeSpecs.v
RuntimeCommands.v
RuntimeProps.v
ResultTypes.v
Frame.v
Dispatcher.v
Environment.v
Registry.v
Gateway.v
Wire.v
LocalWorker.v
Authority.v
ImageCache.v
Adapter.v
Tools.v
ToolProps.v
Runner.v
Serving.v
PrivateState.v
Provider.v
Fingerprint.v
CliStores.v
AuthorityCli.v
Files.v
Skill.v
Integration.v
IntegrationProps.v
HttpClient.v
Service.v
CliCommands.v
InputText.v
MacInput.v
WinInput.v
WinInputProps.v
Activity.v
ActivityProps.v
Clipboard.v
WinSemantic.v
WinSemanticProps.v
MacSemantic.v
MacSemanticProps.v
WinFrame.v
WinDiscovery.v
WinLaunch.v
WinLaunchProps.v
WinDriver.v
WinDriverProps.v
WinStart.v
WinDesktop.v
