(* ===== verification/Prelude.v ===== *)
(** Verification of Nexus CUA, a runtime that lets an agent observe and operate
    a desktop under explicit, revocable authority.

    * The program

    An agent's request travels: a local connection ([crates/transport]) carries
    length-prefixed frames; the dispatcher authenticates a request, checks its
    bounds and makes it idempotent by a ledger of request identities; the
    session runtime ([crates/runtime]) checks it against the host's policy and
    the capability manifest of its session, resolves public references to
    driver objects, and calls the platform driver; native input goes through an
    action guard that the user's own input interrupts.  [crates/protocol] holds
    the wire types and the coordinate mappings.

    Around this core, [crates/host] places requests on workers: a registry of
    workers and leases, environments with their snapshots and clones, and a
    gateway that authenticates remote requests and hands out tickets for
    screenshots.  [crates/mcp] offers the runtime to a model as tools: an
    authority policy from a file or from a provider's grant fixes what the
    adapter may do, every tool call is checked against it, mutations go through
    a dispatcher of their own, and the process that serves the tools watches
    the authority and closes the adapter when it ends.  [crates/provider] is
    the local provider of such grants: it keeps registrations in owner-private
    files that a protected secret authenticates, and issues a bounded grant to
    the host a registration names.  [crates/cli] is the owner's side: plans that
    a human applies at a terminal install or revoke registrations and integrate
    an MCP host, a service serves the tools to the agent commands, and every
    command ends with a report.  [crates/platform] holds the native drivers.

    * The files, in the order of their dependencies

    - [Prelude] (this file): [Result] with [let?] and [;?], machine sizes, the
      [Vec] combinators the code uses, the classes [HashOrder] (the unspecified
      iteration order of a hash map) and [UuidSource] (fresh identifiers),
      bounded loops, counting lemmas, and the tactics [zbool] and [res_inv].
    - [Floats], [Geometry]: IEEE binary64 on Rocq's [SpecFloat] with the error
      analysis the mappings need, and [protocol/src/geometry.rs].
    - [Text]: UTF-8 strings as bytes, [trim], control characters.
    - [Protocol], [Errors]: the wire types of [protocol/src/] and
      [runtime/src/error.rs].
    - [Policy], [Validation]: [runtime/src/policy.rs] and [validation.rs].
    - [Driver]: [runtime/src/driver.rs] and [activity.rs]: driver data, and the
      cells and leases of the action guard as a state machine [run_events].
    - [Session]: [runtime/src/session.rs]: reference tables, observations, the
      clipboard guard and the resolution of actions.
    - [Artifacts]: [runtime/src/artifact_store.rs]: screenshot files.
    - [Runtime]: [runtime/src/service.rs]: every command of [execute], the
      expiration scheduler, artifact reads and shutdown, in a monad over the
      shared state [World] that records driver calls.  [DesktopDriver] is the
      driver trait, [Executor] the asynchronous executor; both map a [World] to
      the [World] a command resumes in, so they also stand for the other tasks.
      [RuntimeInv] holds the invariant [Inv], the step relation [Step], what a
      driver and an executor must keep ([Lawful]) and the triple [spec];
      [RuntimeSpecs] the triples of the building blocks, [RuntimeCommands]
      those of the commands with the predicate [authorized] on driver calls,
      and [RuntimeProps] the theorems and a concrete desktop.  [ResultTypes]
      tells which result variant answers which command.
    - [Frame]: [transport/src/frame.rs], [endpoint.rs], [client.rs] and the
      connection loop of [server.rs].
    - [Dispatcher]: [transport/src/dispatcher.rs] and [auth.rs]: the request
      ledger as an event machine.
    - [Environment], [Registry], [Gateway], [Wire], [LocalWorker]: the files of
      [host/src/] of these names.  A manager call is split at the answer of
      the provider, so that calls interleave ([manager_step]); [DesktopWorker]
      is the worker interface the gateway's theorems are proved against, with
      [LawfulHost] for what it relies on; [LocalWorker] is its implementation
      over [Dispatcher].
    - [Authority]: [mcp/src/authority.rs].
    - [ImageCache]: the screenshot cache, zoom views and crops of
      [mcp/src/server.rs].
    - [Adapter], [Tools]: the state and methods of [NexusCuaMcp] and every tool
      of [mcp/src/server.rs], in a monad over [McpWorld] that records the calls
      of the runtime and the dispatcher; [McpHost] stands for these and for the
      other tasks.  [ToolProps] holds the adapter's invariant, the triple
      [tspec], the theorems and a small desktop.
    - [Runner], [Serving]: [mcp/src/runner.rs]: configurations, the HTTP guard,
      bounded connections, the authority watch; then the serve functions as
      process computations with their events.
    - [PrivateState], [Provider]: [provider/src/private_fs.rs], [secret.rs],
      [registration.rs] and [plan.rs] over a directory whose operations can
      fail anywhere ([Faults]); then [local.rs], whose grants [Authority]
      resolves.
    - [Fingerprint]: [platform/src/observation.rs] and the copy of
      [platform/src/macos/stream.rs].
    - [CliStores], [AuthorityCli]: the command line's computations over the two
      stores of [PrivateState], and [cli/src/authority.rs].
    - [Files], [Skill], [Integration], [IntegrationProps]: a file tree with
      symbolic links and failing operations, and [cli/src/integration.rs] over
      it: the Skill file, the plans and the Codex host, which the theorems see
      through the class [HostContract].
    - [HttpClient], [Service]: [cli/src/service.rs]: the HTTP client of a tool
      call; then the service's record, start, monitor and stop, in which other
      processes change the stores at every wait.
    - [CliCommands]: [cli/src/agent.rs], [outcome.rs], [error.rs], [main.rs] and
      parts of [commands.rs] and [paths.rs].
    - [InputText]: [platform/src/input_text.rs] and what both input actors use.
    - [MacInput]: [platform/src/macos/input.rs], with the program logic [runs]
      for what is held and what may be posted.
    - [WinInput], [WinInputProps]: [platform/src/windows/input.rs] over an
      oracle of Win32 and the action guard of [Driver], which others change at
      every call; and its program logics, [between] for what is admitted and
      held, [state] for what an error may say.
    - [Activity], [ActivityProps]: [platform/src/macos/activity.rs] and
      [windows/activity.rs]: the monitors that stop a session when the user
      takes over, against the guard cells of several sessions.
    - [Clipboard]: [platform/src/macos/clipboard.rs] and
      [windows/clipboard.rs], with UTF-8 and UTF-16.
    - [WinSemantic], [WinSemanticProps]: [platform/src/windows/semantic.rs]: the
      walk over the cached UI Automation tree and the semantic actions.
    - [MacSemantic], [MacSemanticProps]: [platform/src/macos/semantic.rs]: the
      accessibility actor, its snapshots, actions and window changes, with the
      logic [reads_only] for what touches nothing.
    - [WinDiscovery], [WinLaunch], [WinLaunchProps]:
      [platform/src/windows/discovery.rs] and [launch.rs].
    - [WinDriver]: [platform/src/windows/mod.rs]: the driver over its actors.
      [WinFrame] is a frame logic ([WinInvariant]) for what every native step
      keeps; [WinDriverProps] and [WinStart] hold the driver's theorems, and
      [WinDesktop] makes the driver an instance of [DesktopDriver].

    * What the theorems show

    Runtime: for every lawful driver and executor, commands keep the invariant,
    never panic and only step forward ([execute_preserves_invariant]); every
    driver call has the authority of its session ([driver_calls_authorized]);
    an observation is dispatched under once ([observation_dispatched_once]); a
    command dispatches at most once ([dispatch_at_most_once]); revoked or closed
    sessions stay without effect ([revoked_session_never_dispatches],
    [closed_session_unreachable]); an opened session has the scope its manifest
    names ([opened_session_scope]); the status of a failed action is true
    ([not_dispatched_truthful]), while that of a failed clipboard write is not
    ([clipboard_failure_misreported]); reaping, deadlines and shutdown do what
    they promise.  Dispatcher: at most one execution per identity and retained
    response, replay of the recorded response, a bounded ledger, truthful
    answers and reconciliation.  Guard: user input latches, the dispatch counter
    never underflows, waiting terminates.  Session: bijective references,
    oldest-first trimming, single-use clipboard guards, and resolution refines a
    declarative relation.  Policy and validation: what a loaded policy enforces,
    and exactly which manifests and actions are accepted.  Geometry: pixels
    survive the round trip through normalized coordinates, mapped pixels lie in
    the image.  Frames and artifacts: round trips, bounds and confinement.

    Host: descriptors promise only what their kind can do and manager calls
    stay within their bounds in every interleaving ([manager_invariant]); lease
    counts are exact ([registry_invariant]), placement is balanced, leases
    resolve to their own worker and epoch only and never again once revoked;
    the gateway calls workers only for authenticated requests on live leases
    ([gateway_calls_affine]), tickets round-trip, its statuses are true, and
    [gateway_paths] says which results still carry a path; the gateway's
    framing is the transport's ([wire_framing_agrees]).  Tool server: grants and
    policies are taken exactly when they are well-formed ([grant_resolved]), and
    give manifests the runtime accepts; the cache refines two bounded queues,
    a click in a zoom view lands on its pixel; every tool stays within the
    authority ([tool_calls_authorized]), answers ([tools_answer]), and does
    nothing after the authority has ended ([ended_adapter_quiet]).  Process:
    requests reach the tools only through the guard, connections move bytes
    only within their limits, the watch ends in time, and every way out of
    serving leaves the adapter closed and the runtime shut down
    ([serving_ends_closed]); an adapter that starts meets the hypotheses of the
    tools' theorems ([adapter_authority_bound]).  Provider: exactly which
    registrations load ([load_exact]); installing round-trips
    ([install_roundtrip]), fails without a trace and stays bounded, removal
    revokes, codes of different purpose are apart; issued grants are ones the
    adapter accepts ([acquired_grant_resolves]), stay good until they expire or
    their registration goes ([confirmation_exact]), and answer a challenge once
    ([challenge_answered_once]).

    Command line: an applied plan leaves exactly what it says
    ([authority_applied], [integration_applied]), a failed one leaves nothing of
    it ([authority_apply_failed], [integration_rolled_back]), removal revokes
    first ([integration_removed]) and a revocation that reports success leaves
    neither registration nor service ([revocation_effective],
    [revoke_ends_service]); a service ends when it is stopped, revoked or
    expired, and stopping returns ([service_ends], [service_stopped]); tool
    calls are framed so that they are answered ([tool_call_answered]) and only
    exact responses are taken ([accepted_response_exact]); exit status and
    report are truthful ([agent_failure_truthful]); tokens come from private
    files only ([token_private]).  Platform: sampling while copying keeps the
    visual guard ([signature_copy_equivalent]), which compares exactly what it
    says ([fingerprints_match_exact]); native input never leaves anything held
    and is admitted event by event ([input_safe], [win_input_safe]), text arrives
    whole and unsplit ([typed_text_exact], [win_typed_text_exact]), a press lasts
    as long as asked ([press_held]), and on Windows an error that says nothing
    was dispatched is true ([win_not_dispatched_truthful]).  A session that was
    told it is protected is watched or stopped for good, and the user's input
    stops it ([mac_activity_protects], [win_activity_protects]); the tracked
    input is exact ([tracked_input_exact]).  A clipboard write replaces exactly
    what was read before ([mac_clipboard_write_exact],
    [win_clipboard_write_exact]).  macOS accessibility: a snapshot is what was
    read, in order and within its budget ([ax_snapshot_exact]); an action on an
    element reaches that element, with the identity it was shown with, or
    nothing ([ax_element_acted_on]), and an element that did not change is
    never refused as stale ([steady_element_acted_on]); a window is moved only
    when it was identified, and success was seen ([ax_bounds_truthful]), as is
    that it is not minimized ([window_minimized_truthful]); three errors or
    fallbacks after a first call are not what they say ([half_raised],
    [half_moved], [selected_again]).  Windows driver: a snapshot is the true first
    part of the tree within its budget ([snapshot_exact]); an action on one of
    its elements reaches that element, unchanged, or nothing
    ([observed_element_acted_on]); a key never names another window
    ([window_identity]); a launch starts only what was reviewed
    ([win_launch_truthful]) and the scan for it is bounded
    ([launch_scan_bounded]); the answer to an action is true
    ([win_driver_truthful]), without the authority nothing reaches the
    foreground ([win_driver_foreground]), and the driver keeps the laws the
    runtime's theorems rely on ([windows_driver_lawful]).

    * Integers, time, fuel and interleaving

    Unsigned integers are [Z] with their checks and saturations written out;
    instants and durations are nanoseconds; binary64 operations round as in
    IEEE 754. The loops of the model are structural, except these:
    [wait_for_idle] polls at most [limit + 1] times, which suffices because
    each poll sleeps at least one nanosecond ([wait_for_idle_returns]); the
    connection loops are bounded by the input they consume; the authority watch
    has [watch_rounds] rounds, since a round takes 250 milliseconds or reaches
    the deadline ([authority_watch_ends]); evictions run over their queue;
    stopping a service polls [STOP_FUEL] times, more than its five seconds hold
    ([service_stopped]); the monitor of a service polls as long as its lease
    lasts ([service_ends]); a path resolves through at most [MAX_LINKS] links, as
    in Linux; a held press polls every frame of its duration ([press_held]); the
    waits of the Windows actor have the rounds their deadlines hold
    ([POLL_FUEL], [EXIT_FUEL] and one per frame), and more change nothing
    ([win_waits_end]); the walk over an element tree has its size
    ([snapshot_exact]), the scan of the Start Menu a directory per entry it may
    read ([SCAN_FUEL]), the wait for a launched window the rounds of its ten
    seconds ([LAUNCH_FUEL], [win_launch_truthful]), the wait for a changed
    window of macOS those of its 200 milliseconds ([CONFIRM_FUEL],
    [confirm_ends]), and the walk over its elements the nodes of the budget.
    Code between two [await] points runs as one step at one instant; lock guards
    held across awaits are flags of the state.
    Hash-map iteration is any order, identifiers are any injective source.

    * What is not modelled

    Serde and JSON, SHA-256, base64 and PNG are parameters, as are the
    directory of the artifact store, the processes the command line runs, what
    native calls answer, Unicode lower case, the path rules of the standard
    library and the printing of floats; the Windows driver takes captured
    frames and verified signatures as given.  Sockets, named pipes, the HTTP and MCP libraries
    and the assembly of the HTTP router are left out, as are the schemas of the
    tool catalogue, the parsing of arguments and the printing of output.  The
    keychains behind the provider's secrets, on macOS capture and the
    driver over its actors, on Windows capture and the verification of
    signatures, and the harnesses are not modelled.  The accessibility actor of
    macOS passes coordinates to hit testing as they are; their narrowing to
    binary32 belongs to the parameter that answers.

    * Plan

    Next come the capture and the driver of macOS, in the way of the Windows
    ones; then the composition of the dispatcher with the runtime. *)

From Stdlib Require Export ZArith Lia.
From stdpp Require Export base gmap strings list fin_maps fin_sets sorting.

#[export] Set Warnings "-clear-no-such-hyp".

#[global] Open Scope Z_scope.

(** * Rust's [Result] and the [?] operator *)

(** Rust's [Result<A, E>]. *)
Inductive Result (A E : Type) : Type :=
| Ok (a : A)
| Err (e : E).
Arguments Ok {A E} a.
Arguments Err {A E} e.

Definition rbind {A B E} (m : Result A E) (k : A -> Result B E) : Result B E :=
  match m with
  | Ok a => k a
  | Err e => Err e
  end.

(** [Result::map_err]. *)
Definition rmap_err {A E F} (f : E -> F) (m : Result A E) : Result A F :=
  match m with
  | Ok a => Ok a
  | Err e => Err (f e)
  end.

(** [Result::map]. *)
Definition rmap {A B E} (f : A -> B) (m : Result A E) : Result B E :=
  match m with
  | Ok a => Ok (f a)
  | Err e => Err e
  end.

(** [Option::ok_or]. *)
Definition ok_or {A E} (o : option A) (e : E) : Result A E :=
  match o with
  | Some a => Ok a
  | None => Err e
  end.

(** [if cond { return Err(e); }]. *)
Definition ensure_not {E} (cond : bool) (e : E) : Result unit E :=
  if cond then Err e else Ok tt.

Definition is_ok {A E} (m : Result A E) : bool :=
  match m with
  | Ok _ => true
  | Err _ => false
  end.

Declare Scope rust_scope.
Delimit Scope rust_scope with rust.
Notation "'let?' x ':=' m 'in' k" := (rbind m (fun x => k))
  (at level 10, x pattern, m at level 100, k at level 200) : rust_scope.
Notation "m ';?' k" := (rbind m (fun _ => k))
  (at level 199, k at level 200, right associativity) : rust_scope.
#[global] Open Scope rust_scope.

(** [iter().map(f).collect::<Result<Vec<_>, _>>()]: the first error wins. *)
Fixpoint rtraverse {A B E} (f : A -> Result B E) (l : list A) : Result (list B) E :=
  match l with
  | [] => Ok []
  | a :: l' => let? b := f a in let? bs := rtraverse f l' in Ok (b :: bs)
  end.

(** * Sizes as machine integers *)

(** [Vec::len], [str::len] and [HashMap::len]. *)
Definition zlen {A} (l : list A) : Z := Z.of_nat (length l).
Definition slen (s : string) : Z := Z.of_nat (String.length s).
Definition msize {K A} `{Countable K} (m : gmap K A) : Z := Z.of_nat (size m).

Definition U32_MAX : Z := 4294967295.
Definition U64_MAX : Z := 18446744073709551615.
Definition USIZE_MAX : Z := U64_MAX.

(** [u32::try_from(n).ok()] on a non-negative [n]. *)
Definition u32_try_from (n : Z) : option Z := if n <=? U32_MAX then Some n else None.

(** [usize::checked_add] and [u64::checked_mul]. *)
Definition checked_add (a b : Z) : option Z := if a + b <=? USIZE_MAX then Some (a + b) else None.
Definition checked_mul (a b : Z) : option Z := if a * b <=? U64_MAX then Some (a * b) else None.

(** [saturating_sub] and [saturating_add]. *)
Definition sat_sub (a b : Z) : Z := Z.max 0 (a - b).
Definition sat_add (a b : Z) : Z := Z.min USIZE_MAX (a + b).

(** * Vec combinators *)

(** A stable sort by a total preorder given as a boolean, [slice::sort_by]. *)
Fixpoint insert_by {A} (le : A -> A -> bool) (x : A) (l : list A) : list A :=
  match l with
  | [] => [x]
  | y :: l' => if le x y then x :: y :: l' else y :: insert_by le x l'
  end.

Definition sort_by {A} (le : A -> A -> bool) (l : list A) : list A :=
  foldr (insert_by le) [] l.

(** [Vec::dedup_by]: drops an element when it is [same] as the element kept
    just before it. *)
Fixpoint dedup_from {A} (same : A -> A -> bool) (prev : A) (l : list A) : list A :=
  match l with
  | [] => []
  | x :: l' => if same x prev then dedup_from same prev l' else x :: dedup_from same x l'
  end.

Definition dedup_by {A} (same : A -> A -> bool) (l : list A) : list A :=
  match l with
  | [] => []
  | x :: l' => x :: dedup_from same x l'
  end.

(** [Vec::truncate] and [iter().take(n)]. *)
Definition truncate {A} (n : Z) (l : list A) : list A := take (Z.to_nat n) l.

(** [values.iter().collect::<HashSet<_>>().len() == values.len()]. *)
Definition all_unique {A} `{Countable A} (l : list A) : bool :=
  msize (list_to_map ((fun a => (a, ())) <$> l) : gmap A ()) =? zlen l.

(** Lexicographic comparison of the bytes of two strings, [str::cmp]. *)
Definition str_le (a b : string) : bool :=
  match String.compare a b with
  | Gt => false
  | _ => true
  end.

Definition str_eqb (a b : string) : bool := String.eqb a b.

(** * HashMap iteration

    Rust iterates a [HashMap] in an unspecified order that enumerates every
    entry exactly once. *)
Class HashOrder := {
  hash_iter : forall {A}, gmap string A -> list (string * A);
  hash_iter_perm : forall {A} (m : gmap string A), hash_iter m ≡ₚ map_to_list m;
}.

(** One possible order. *)
Definition map_to_list_order : HashOrder :=
  {| hash_iter := fun A m => map_to_list m; hash_iter_perm := fun A m => Permutation_refl (map_to_list m) |}.

(** Fresh identifiers: the [n]-th [Uuid::new_v4().simple()] of the process;
    distinct draws are distinct. *)
Class UuidSource := {
  uuid : nat -> string;
  uuid_inj : forall i j, uuid i = uuid j -> i = j;
}.

Fixpoint unary (n : nat) : string :=
  match n with
  | O => EmptyString
  | S n' => String Ascii.zero (unary n')
  end.

Lemma unary_length n : String.length (unary n) = n.
Proof. induction n; simpl; congruence. Qed.

Lemma unary_inj i j : unary i = unary j -> i = j.
Proof. intros H. by rewrite <- (unary_length i), <- (unary_length j), H. Qed.

(** One possible source. *)
Definition unary_uuids : UuidSource := {| uuid := unary; uuid_inj := unary_inj |}.

Lemma string_app_inj_l p a b : (p +:+ a = p +:+ b -> a = b)%string.
Proof. induction p as [|c p IH]; simpl; [done|]. intros [= H]. auto. Qed.

(** * Bounded iteration

    A loop whose body either continues with a new state or returns.  The bound
    is binary, so a bound of several billion iterations costs nothing when the
    loop stops early. *)
Fixpoint bounded_loop {S R} (bound : positive) (body : S -> S + R) (s : S) : S + R :=
  match bound with
  | xH => body s
  | xO p =>
      match bounded_loop p body s with
      | inl s' => bounded_loop p body s'
      | inr r => inr r
      end
  | xI p =>
      match body s with
      | inl s' =>
          match bounded_loop p body s' with
          | inl s'' => bounded_loop p body s''
          | inr r => inr r
          end
      | inr r => inr r
      end
  end.

(** * Lemmas shared by the components *)

Create HintDb rust.

Lemma rbind_Ok {A B E} (m : Result A E) (k : A -> Result B E) b :
  rbind m k = Ok b <-> exists a, m = Ok a /\ k a = Ok b.
Proof. destruct m; simpl; naive_solver. Qed.

Lemma rbind_unit_Ok {B E} (m : Result unit E) (k : unit -> Result B E) b :
  rbind m k = Ok b <-> m = Ok tt /\ k tt = Ok b.
Proof. rewrite rbind_Ok. split; [intros [[] H]; done | naive_solver]. Qed.

Lemma rbind_Err {A B E} (m : Result A E) (k : A -> Result B E) e :
  rbind m k = Err e <-> m = Err e \/ exists a, m = Ok a /\ k a = Err e.
Proof. destruct m; simpl; naive_solver. Qed.

Lemma ensure_not_Ok {E} (c : bool) (e : E) : ensure_not c e = Ok tt <-> c = false.
Proof. destruct c; simpl; naive_solver. Qed.

Lemma ensure_not_Err {E} (c : bool) (e e' : E) : ensure_not c e = Err e' <-> c = true /\ e' = e.
Proof. destruct c; simpl; naive_solver. Qed.

Lemma ok_or_Ok {A E} (o : option A) (e : E) a : ok_or o e = Ok a <-> o = Some a.
Proof. destruct o; simpl; naive_solver. Qed.

Lemma ok_or_Err {A E} (o : option A) (e e' : E) : ok_or o e = Err e' <-> o = None /\ e' = e.
Proof. destruct o; simpl; naive_solver. Qed.

Lemma rmap_err_Ok {A E F} (f : E -> F) (m : Result A E) a : rmap_err f m = Ok a <-> m = Ok a.
Proof. destruct m; simpl; naive_solver. Qed.

Lemma rmap_err_Err {A E F} (f : E -> F) (m : Result A E) e' :
  rmap_err f m = Err e' <-> exists e, m = Err e /\ e' = f e.
Proof. destruct m; simpl; naive_solver. Qed.

Lemma rtraverse_Ok {A B E} (f : A -> Result B E) (l : list A) bs :
  rtraverse f l = Ok bs <-> Forall2 (fun a b => f a = Ok b) l bs.
Proof.
  revert bs; induction l as [|a l IH]; intros bs; simpl.
  - split; [by intros [= <-] | by inversion 1].
  - rewrite rbind_Ok. setoid_rewrite rbind_Ok. setoid_rewrite IH. split.
    + intros (b & Hb & bs' & Hbs & [= <-]). by constructor.
    + inversion 1; subst. eauto.
Qed.

Lemma orb_false_iff' (a b : bool) : a || b = false <-> a = false /\ b = false.
Proof. apply orb_false_iff. Qed.

(** Turns boolean integer tests in hypotheses and goal into propositions. *)
Ltac zbool :=
  rewrite ?orb_true_iff, ?orb_false_iff, ?andb_true_iff, ?andb_false_iff,
    ?negb_true_iff, ?negb_false_iff,
    ?Z.leb_le, ?Z.ltb_lt, ?Z.eqb_eq, ?Z.leb_gt, ?Z.ltb_ge, ?Z.eqb_neq in *.

(** Splits a [Result] computation known to have succeeded. *)
Ltac res_inv :=
  repeat match goal with
  | H : rbind _ _ = Ok _ |- _ => apply rbind_Ok in H as (? & ? & H); simpl in H
  | H : ensure_not _ _ = Ok _ |- _ => unfold ensure_not in H; case_match; [discriminate H | clear H]
  | H : ok_or _ _ = Ok _ |- _ => apply ok_or_Ok in H
  | H : rmap_err _ _ = Ok _ |- _ => apply rmap_err_Ok in H
  | H : Ok _ = Ok _ |- _ => injection H as H; try subst
  | H : Err _ = Ok _ |- _ => discriminate H
  | H : Ok _ = Err _ |- _ => discriminate H
  end.

Lemma zlen_nonneg {A} (l : list A) : 0 <= zlen l.
Proof. unfold zlen; lia. Qed.

Lemma msize_nonneg {K A} `{Countable K} (m : gmap K A) : 0 <= msize m.
Proof. unfold msize; lia. Qed.

Lemma zlen_app {A} (l k : list A) : zlen (l ++ k) = zlen l + zlen k.
Proof. unfold zlen. rewrite length_app. lia. Qed.

Lemma zlen_cons {A} (x : A) (l : list A) : zlen (x :: l) = 1 + zlen l.
Proof. unfold zlen. simpl. lia. Qed.

Lemma zlen_truncate {A} n (l : list A) : 0 <= n -> zlen (truncate n l) = Z.min n (zlen l).
Proof. intros. unfold zlen, truncate. rewrite length_take. lia. Qed.

Lemma msize_insert_le {K A} `{Countable K} (m : gmap K A) k a :
  msize (<[k:=a]> m) <= 1 + msize m.
Proof.
  unfold msize. destruct (m !! k) eqn:E.
  - rewrite map_size_insert_Some by eauto. lia.
  - rewrite map_size_insert_None by done. lia.
Qed.

Lemma msize_insert_Some {K A} `{Countable K} (m : gmap K A) k a :
  is_Some (m !! k) -> msize (<[k:=a]> m) = msize m.
Proof. intros [? E]. unfold msize. by rewrite map_size_insert_Some by eauto. Qed.

Lemma msize_insert_None {K A} `{Countable K} (m : gmap K A) k a :
  m !! k = None -> msize (<[k:=a]> m) = 1 + msize m.
Proof. intros E. unfold msize. rewrite map_size_insert_None by done. lia. Qed.

Lemma msize_mono {K A} `{Countable K} (m m' : gmap K A) :
  m ⊆ m' -> msize m <= msize m'.
Proof. intros. unfold msize. apply inj_le. by apply map_subseteq_size. Qed.

Lemma msize_filter_le {K A} `{Countable K} (P : K * A -> Prop) `{!forall x, Decision (P x)} (m : gmap K A) :
  msize (filter P m) <= msize m.
Proof. apply msize_mono, map_filter_subseteq. Qed.

Lemma msize_delete_le {K A} `{Countable K} (m : gmap K A) k : msize (delete k m) <= msize m.
Proof. apply msize_mono, delete_subseteq. Qed.

Lemma msize_delete_Some {K A} `{Countable K} (m : gmap K A) k :
  is_Some (m !! k) -> msize (delete k m) = msize m - 1.
Proof.
  intros Hs. unfold msize. rewrite map_size_delete_Some by done.
  assert (size m <> 0)%nat.
  { destruct Hs as [x Hx]. intros ->%map_size_empty_inv. by rewrite lookup_empty in Hx. }
  lia.
Qed.

(** ** Counting the entries of a map *)

Definition mcount {K A} `{Countable K} (f : A -> bool) (m : gmap K A) : Z :=
  msize (filter (fun p : K * A => f p.2 = true) m).

Definition b2z (b : bool) : Z := if b then 1 else 0.

Lemma mcount_nonneg {K A} `{Countable K} (f : A -> bool) (m : gmap K A) : 0 <= mcount f m.
Proof. apply msize_nonneg. Qed.

Lemma mcount_le {K A} `{Countable K} (f : A -> bool) (m : gmap K A) : mcount f m <= msize m.
Proof. apply msize_filter_le. Qed.

Lemma mcount_empty {K A} `{Countable K} (f : A -> bool) : mcount f (∅ : gmap K A) = 0.
Proof. unfold mcount. by rewrite map_filter_empty. Qed.

Lemma mcount_delete {K A} `{Countable K} (f : A -> bool) (m : gmap K A) k a :
  m !! k = Some a -> mcount f (delete k m) = mcount f m - b2z (f a).
Proof.
  intros Hk. unfold mcount. rewrite map_filter_delete. destruct (f a) eqn:E; simpl.
  - rewrite msize_delete_Some; [done|]. exists a. by apply map_lookup_filter_Some.
  - rewrite delete_id; [lia|]. apply map_lookup_filter_None. right. intros b Hb Hf. simpl in Hf. congruence.
Qed.

Lemma mcount_insert_new {K A} `{Countable K} (f : A -> bool) (m : gmap K A) k a :
  m !! k = None -> mcount f (<[k:=a]> m) = mcount f m + b2z (f a).
Proof.
  intros Hk. unfold mcount. destruct (f a) eqn:E; simpl.
  - rewrite map_filter_insert_True by done. rewrite msize_insert_None; [lia|].
    apply map_lookup_filter_None. by left.
  - rewrite map_filter_insert_False by (simpl; congruence). rewrite delete_id by done. lia.
Qed.

Lemma mcount_insert_over {K A} `{Countable K} (f : A -> bool) (m : gmap K A) k a b :
  m !! k = Some b -> mcount f (<[k:=a]> m) = mcount f m - b2z (f b) + b2z (f a).
Proof.
  intros Hk. rewrite <- insert_delete_eq. rewrite mcount_insert_new by apply lookup_delete_eq.
  by rewrite (mcount_delete _ _ _ _ Hk).
Qed.

Lemma mcount_positive {K A} `{Countable K} (f : A -> bool) (m : gmap K A) k a :
  m !! k = Some a -> f a = true -> 1 <= mcount f m.
Proof.
  intros Hk Hf. pose proof (mcount_delete f m k a Hk) as Hd. rewrite Hf in Hd. simpl in Hd.
  pose proof (mcount_nonneg f (delete k m)). lia.
Qed.

(** Removing only entries that are not counted leaves the count. *)
Lemma mcount_filter {K A} `{Countable K} (f : A -> bool) (P : K * A -> Prop)
    `{!forall x, Decision (P x)} (m : gmap K A) :
  (forall k a, m !! k = Some a -> f a = true -> P (k, a)) -> mcount f (filter P m) = mcount f m.
Proof.
  intros Hp. unfold mcount. f_equal. apply map_eq. intros k. apply option_eq. intros a.
  rewrite !map_lookup_filter_Some. naive_solver.
Qed.

(** ** Sorting and deduplication *)

Lemma insert_by_perm {A} (le : A -> A -> bool) x l : insert_by le x l ≡ₚ x :: l.
Proof.
  induction l as [|y l IH]; simpl; [done|].
  destruct (le x y); [done|]. rewrite IH. apply Permutation_swap.
Qed.

Lemma sort_by_perm {A} (le : A -> A -> bool) l : sort_by le l ≡ₚ l.
Proof. induction l as [|x l IH]; simpl; [done|]. by rewrite insert_by_perm, IH. Qed.

Lemma insert_by_sorted {A} (le : A -> A -> bool)
    (Htot : forall a b, le a b = false -> le b a = true) x l :
  Sorted (fun a b => le a b = true) l -> Sorted (fun a b => le a b = true) (insert_by le x l).
Proof.
  induction 1 as [|y l Hs IH Hhd]; simpl; [by repeat constructor|].
  destruct (le x y) eqn:E; [by repeat constructor|].
  constructor; [done|].
  destruct l as [|z l]; simpl; [constructor; by apply Htot|].
  inversion Hhd; subst. destruct (le x z) eqn:E'; constructor; auto.
Qed.

Lemma sort_by_sorted {A} (le : A -> A -> bool)
    (Htot : forall a b, le a b = false -> le b a = true) l :
  Sorted (fun a b => le a b = true) (sort_by le l).
Proof. induction l; simpl; [constructor|]. by apply insert_by_sorted. Qed.

Lemma dedup_by_sub {A} (same : A -> A -> bool) l x : x ∈ dedup_by same l -> x ∈ l.
Proof.
  assert (Hg : forall l' p, x ∈ dedup_from same p l' -> x ∈ l').
  { induction l' as [|y l' IH]; intros p; simpl; [done|].
    destruct (same y p); [set_solver|]. rewrite !elem_of_cons. naive_solver. }
  destruct l as [|y l]; simpl; [done|]. rewrite !elem_of_cons. naive_solver.
Qed.

Lemma dedup_by_length {A} (same : A -> A -> bool) l : (length (dedup_by same l) <= length l)%nat.
Proof.
  assert (Hg : forall l' p, (length (dedup_from same p l') <= length l')%nat).
  { induction l' as [|y l' IH]; intros p; simpl; [lia|].
    destruct (same y p); simpl; [specialize (IH p) | specialize (IH y)]; lia. }
  destruct l as [|y l]; simpl; [lia|]. specialize (Hg l y). lia.
Qed.

Lemma str_eqb_eq a b : str_eqb a b = true <-> a = b.
Proof. apply String.eqb_eq. Qed.

Lemma str_eqb_neq a b : str_eqb a b = false <-> a <> b.
Proof. apply String.eqb_neq. Qed.

(** [HashSet] deduplication keeps the length exactly on duplicate-free lists. *)
(** [str_le] is a total order. *)
Lemma str_le_cons a s b t :
  str_le (String a s) (String b t) =
  match N.compare (Ascii.N_of_ascii a) (Ascii.N_of_ascii b) with Eq => str_le s t | Lt => true | Gt => false end.
Proof. unfold str_le. cbn. unfold Ascii.compare. by destruct (N.compare _ _). Qed.

Lemma str_le_total a b : str_le a b = true \/ str_le b a = true.
Proof. unfold str_le. rewrite (String.compare_antisym a b). destruct (String.compare b a); cbn; auto. Qed.

Lemma str_le_refl a : str_le a a = true.
Proof. by destruct (str_le_total a a). Qed.

Lemma str_le_trans a b d : str_le a b = true -> str_le b d = true -> str_le a d = true.
Proof.
  revert b d; induction a as [|x a IH]; intros b d; [by destruct d|].
  destruct b as [|y b]; [done|]. destruct d as [|z d]; [done|]. rewrite !str_le_cons.
  destruct (N.compare_spec (Ascii.N_of_ascii x) (Ascii.N_of_ascii y)) as [E1|E1|E1]; [| |done];
  destruct (N.compare_spec (Ascii.N_of_ascii y) (Ascii.N_of_ascii z)) as [E2|E2|E2]; try done;
  destruct (N.compare_spec (Ascii.N_of_ascii x) (Ascii.N_of_ascii z)) as [E3|E3|E3]; try done; try lia.
  by apply IH.
Qed.

Lemma str_le_antisym a b : str_le a b = true -> str_le b a = true -> a = b.
Proof.
  unfold str_le. rewrite (String.compare_antisym b a). destruct (String.compare a b) eqn:E; cbn; try done.
  intros _ _. by apply String.compare_eq_iff.
Qed.

Lemma list_to_map_unit_size {A} `{Countable A} (l : list A) :
  (size (list_to_map ((fun a => (a, ())) <$> l) : gmap A ()) <= length l)%nat.
Proof.
  induction l as [|a l IH]; simpl; [by rewrite map_size_empty|].
  set (m := list_to_map _) in *. destruct (m !! a) eqn:E.
  - rewrite map_size_insert_Some by eauto. lia.
  - rewrite map_size_insert_None by done. lia.
Qed.

Lemma list_to_map_unit_None {A} `{Countable A} (l : list A) a :
  (list_to_map ((fun a => (a, ())) <$> l) : gmap A ()) !! a = None <-> a ∉ l.
Proof.
  rewrite <- not_elem_of_list_to_map. rewrite <- list_fmap_compose.
  assert ((fst ∘ (fun a0 : A => (a0, ()))) <$> l = l) as ->; [|done].
  rewrite <- (list_fmap_id l) at 2. by apply list_fmap_ext.
Qed.

Lemma all_unique_spec {A} `{Countable A} (l : list A) : all_unique l = true <-> NoDup l.
Proof.
  unfold all_unique, msize, zlen. rewrite Z.eqb_eq.
  induction l as [|a l IH]; simpl.
  { split; [constructor | by rewrite map_size_empty]. }
  pose proof (list_to_map_unit_size l) as Hle.
  pose proof (list_to_map_unit_None l a) as Hnone.
  rewrite NoDup_cons. set (m := list_to_map _) in *. destruct (m !! a) eqn:E.
  - rewrite map_size_insert_Some by eauto. split; [lia|]. intros [?%Hnone _]. congruence.
  - rewrite map_size_insert_None by done. rewrite <- IH, <- Hnone. split; [split; [done|lia] | lia].
Qed.

(** ** Termination of [bounded_loop] *)

(** A body that either returns or strictly decreases a non-negative measure
    returns within any bound above the measure. *)
Lemma bounded_loop_measure {S R} (body : S -> S + R) (mu : S -> Z) (bound : positive) s :
  (forall s s', body s = inl s' -> 0 <= mu s' < mu s) ->
  match bounded_loop bound body s with
  | inl s' => 0 <= mu s' /\ mu s' <= mu s - Z.pos bound
  | inr _ => True
  end.
Proof.
  intros Hb. revert s. induction bound as [p IH | p IH |]; intros s; simpl.
  - rewrite Pos2Z.inj_xI. destruct (body s) as [s1|] eqn:E1; [|intros; exact I].
    pose proof (Hb _ _ E1). generalize (IH s1).
    destruct (bounded_loop p body s1) as [s2|]; [|intros; exact I].
    generalize (IH s2). destruct (bounded_loop p body s2); [lia|intros; exact I].
  - rewrite (Pos2Z.inj_xO p). generalize (IH s). destruct (bounded_loop p body s) as [s2|]; [|intros; exact I].
    generalize (IH s2). destruct (bounded_loop p body s2); [lia|intros; exact I].
  - destruct (body s) eqn:E; [|intros; exact I]. pose proof (Hb _ _ E). lia.
Qed.

Lemma bounded_loop_returns {S R} (body : S -> S + R) (mu : S -> Z) (bound : positive) s :
  (forall s s', body s = inl s' -> 0 <= mu s' < mu s) ->
  mu s < Z.pos bound ->
  exists r, bounded_loop bound body s = inr r.
Proof.
  intros Hb Hlt. pose proof (bounded_loop_measure body mu bound s Hb) as H.
  destruct (bounded_loop bound body s); [lia | eauto].
Qed.

(** An invariant of the loop state holds of whatever the loop returns. *)
Lemma bounded_loop_inv {S R} (body : S -> S + R) (I : S -> Prop) (Q : R -> Prop) (bound : positive) s :
  (forall s, I s -> match body s with inl s' => I s' | inr r => Q r end) ->
  I s ->
  match bounded_loop bound body s with inl s' => I s' | inr r => Q r end.
Proof.
  intros Hb. revert s. induction bound as [p IH | p IH |]; intros s Hs; simpl.
  - generalize (Hb _ Hs). destruct (body s) as [s1|]; [|done]. intros Hs1.
    generalize (IH s1 Hs1). destruct (bounded_loop p body s1); [apply IH | done].
  - generalize (IH s Hs). destruct (bounded_loop p body s); [apply IH | done].
  - by apply Hb.
Qed.
