(* ===== verification/Floats.v ===== *)
(** IEEE 754 binary64 arithmetic, Rust's [f64].

    The values and operations are those of the standard library's
    [SpecFloat], instantiated at precision 53 and maximal exponent 1024, so
    every definition evaluates to the bit-exact result of the hardware.  The
    lemmas bound the result of a correctly rounded operation by a dyadic
    number: a rounding never crosses a representable number. *)

From Corelib Require Export SpecFloat.
From S2P Require Import Prelude.

(** * Values and operations *)

Abbreviation f64 := spec_float.

Definition f64_valid (x : f64) : bool := valid_binary 53 1024 x.

Definition f64_mul (x y : f64) : f64 := SFmul 53 1024 x y.
Definition f64_div (x y : f64) : f64 := SFdiv 53 1024 x y.
Definition f64_add (x y : f64) : f64 := SFadd 53 1024 x y.
Definition f64_abs (x : f64) : f64 := SFabs x.

Definition f64_eq (x y : f64) : bool := SFeqb x y.
Definition f64_lt (x y : f64) : bool := SFltb x y.
Definition f64_le (x y : f64) : bool := SFleb x y.
Definition f64_gt (x y : f64) : bool := SFltb y x.
Definition f64_ge (x y : f64) : bool := SFleb y x.

(** [f64::is_finite]. *)
Definition is_finite (x : f64) : bool :=
  match x with
  | S754_zero _ | S754_finite _ _ _ => true
  | _ => false
  end.

(** [f64::from(n)] and integer literals. *)
Definition f64_of_Z (n : Z) : f64 := binary_normalize 53 1024 n 0 false.

(** [(lo..=hi).contains(&x)]. *)
Definition f64_in_range (lo hi x : f64) : bool := f64_le lo x && f64_le x hi.

(** [f64::round]: to the nearest integer, ties away from zero. *)
Definition f64_round (x : f64) : f64 :=
  match x with
  | S754_finite s m e =>
      if 0 <=? e then x
      else
        let q := (Zpos m + 2 ^ (- e - 1)) / 2 ^ (- e) in
        if q =? 0 then S754_zero s else binary_normalize 53 1024 (cond_Zopp s q) 0 s
  | _ => x
  end.

(** [x as u32]: truncates towards zero and saturates; NaN becomes 0. *)
Definition f64_as_u32 (x : f64) : Z :=
  match x with
  | S754_nan | S754_zero _ | S754_infinity true | S754_finite true _ _ => 0
  | S754_infinity false => U32_MAX
  | S754_finite false m e => Z.min U32_MAX (Z.shiftl (Zpos m) e)
  end.

Example f64_third : f64_div (f64_of_Z 1) (f64_of_Z 3) = S754_finite false 6004799503160661 (-54).
Proof. reflexivity. Qed.

Example f64_round_half : f64_as_u32 (f64_round (f64_div (f64_of_Z 5) (f64_of_Z 2))) = 3.
Proof. reflexivity. Qed.

(** * Dyadic bounds

    [sc m e] is [m * 2^e] scaled by the fixed factor [2^K]; every exponent met
    below is above [-K], so comparing scaled integers compares the values. *)

Definition K : Z := 4000.
Definition sc (m e : Z) : Z := m * 2 ^ (e + K).

#[local] Opaque Z.pow.

Lemma pow2_pos n : 0 <= n -> 0 < 2 ^ n.
Proof. intros. apply Z.pow_pos_nonneg; lia. Qed.

Lemma sc_shift m e k : 0 <= k -> - K <= e -> sc (m * 2 ^ k) e = sc m (e + k).
Proof.
  intros. unfold sc. replace (e + k + K) with (k + (e + K)) by lia.
  rewrite (Z.pow_add_r 2 k (e + K)) by lia. ring.
Qed.

Lemma sc_le_mono m m' e : - K <= e -> m <= m' -> sc m e <= sc m' e.
Proof. intros. unfold sc. pose proof (pow2_pos (e + K)). nia. Qed.

Lemma sc_le_inv m m' e : - K <= e -> sc m e <= sc m' e -> m <= m'.
Proof. intros. unfold sc in *. pose proof (pow2_pos (e + K)). nia. Qed.

(** The number of binary digits brackets a positive integer. *)
Lemma digits2_pos_bounds p :
  2 ^ (Z.pos (digits2_pos p) - 1) <= Z.pos p < 2 ^ Z.pos (digits2_pos p).
Proof.
  induction p as [p IH | p IH |]; simpl digits2_pos.
  - rewrite Pos2Z.inj_succ, Pos2Z.inj_xI.
    replace (Z.succ (Z.pos (digits2_pos p)) - 1) with (Z.succ (Z.pos (digits2_pos p) - 1)) by lia.
    rewrite !Z.pow_succ_r by lia. lia.
  - rewrite Pos2Z.inj_succ, (Pos2Z.inj_xO p).
    replace (Z.succ (Z.pos (digits2_pos p)) - 1) with (Z.succ (Z.pos (digits2_pos p) - 1)) by lia.
    rewrite !Z.pow_succ_r by lia. lia.
  - by vm_compute.
Qed.

Lemma Zdigits2_bounds m : 0 < m -> 2 ^ (Zdigits2 m - 1) <= m < 2 ^ Zdigits2 m.
Proof. destruct m; [lia | intros; apply digits2_pos_bounds | lia]. Qed.

Lemma Zdigits2_nonneg m : 0 <= Zdigits2 m.
Proof. destruct m; simpl; lia. Qed.

(** ** Shifting right with sticky bits *)

Definition inexact (l : location) : Z := match l with loc_Exact => 0 | _ => 1 end.
Definition rs (r : shr_record) : bool := shr_r r || shr_s r.

Lemma rs_of_loc m l : shr_m (shr_record_of_loc m l) = m /\ Z.b2z (rs (shr_record_of_loc m l)) = inexact l.
Proof. destruct l as [|[]]; done. Qed.

Lemma loc_of_rs r : inexact (loc_of_shr_record r) = Z.b2z (rs r).
Proof. destruct r as [m [] []]; done. Qed.

Lemma shr_1_spec r : 0 <= shr_m r ->
  shr_m (shr_1 r) = shr_m r / 2 /\ rs (shr_1 r) = (negb (shr_m r mod 2 =? 0) || rs r).
Proof.
  destruct r as [m r s]; unfold rs; simpl. intros Hm.
  destruct m as [|[p|p|]|p]; simpl; [| | | |lia].
  - split; [done|]. by destruct r, s.
  - rewrite Pos2Z.inj_xI. split; [apply (Z.div_unique _ _ _ 1); lia|].
    assert ((2 * Z.pos p + 1) mod 2 = 1) as ->; [symmetry; apply (Z.mod_unique _ _ (Z.pos p)); lia|].
    by destruct r, s.
  - rewrite (Pos2Z.inj_xO p). split; [apply (Z.div_unique _ _ _ 0); lia|].
    assert ((2 * Z.pos p) mod 2 = 0) as ->; [symmetry; apply (Z.mod_unique _ _ (Z.pos p)); lia|].
    by destruct r, s.
  - split; [done|]. by destruct r, s.
Qed.

(** What a right shift by [k] keeps: a multiple of [2^k] above the ceiling
    stays above it, one below the floor stays below it. *)
Definition shifted (k : Z) (r r' : shr_record) : Prop :=
  0 <= shr_m r' /\ shr_m r' = shr_m r / 2 ^ k /\
  (forall N, shr_m r + Z.b2z (rs r) <= N * 2 ^ k -> shr_m r' + Z.b2z (rs r') <= N) /\
  (forall N, N * 2 ^ k <= shr_m r -> N <= shr_m r').

Lemma shifted_trans a b r1 r2 r3 :
  0 <= a -> 0 <= b -> shifted a r1 r2 -> shifted b r2 r3 -> shifted (a + b) r1 r3.
Proof.
  intros Ha Hb (H1 & E1 & U1 & L1) (H2 & E2 & U2 & L2). split; [done|].
  rewrite Z.pow_add_r by lia. split.
  { rewrite E2, E1. apply Z.div_div; [|apply pow2_pos; lia]. pose proof (pow2_pos a). lia. }
  split; intros N HN.
  - apply U2, U1. by rewrite <- Z.mul_assoc, (Z.mul_comm (2 ^ b)).
  - apply L2, L1. by rewrite <- Z.mul_assoc, (Z.mul_comm (2 ^ b)).
Qed.

Lemma shr_1_shifted r : 0 <= shr_m r -> shifted 1 r (shr_1 r).
Proof.
  intros Hm. destruct (shr_1_spec r Hm) as [E1 E2]. unfold shifted. rewrite E1, E2.
  change (2 ^ 1) with 2.
  pose proof (Z.div_mod (shr_m r) 2 ltac:(lia)). pose proof (Z.mod_pos_bound (shr_m r) 2 ltac:(lia)).
  destruct (Z.eqb_spec (shr_m r mod 2) 0); destruct (rs r); simpl; repeat split; intros; lia.
Qed.

Lemma iter_shr_shifted p r : 0 <= shr_m r -> shifted (Z.pos p) r (SpecFloat.iter_pos shr_1 p r).
Proof.
  revert r. induction p as [p IH | p IH |]; intros r Hr; simpl.
  - rewrite Pos2Z.inj_xI. pose proof (shr_1_shifted r Hr) as S1.
    pose proof (IH _ (proj1 S1)) as S2. pose proof (IH _ (proj1 S2)) as S3.
    replace (2 * Z.pos p + 1) with (1 + (Z.pos p + Z.pos p)) by lia.
    eapply shifted_trans; [lia | lia | done |]. eapply shifted_trans; eauto; lia.
  - rewrite (Pos2Z.inj_xO p). pose proof (IH _ Hr) as S2. pose proof (IH _ (proj1 S2)) as S3.
    replace (2 * Z.pos p) with (Z.pos p + Z.pos p) by lia. eapply shifted_trans; eauto; lia.
  - by apply shr_1_shifted.
Qed.

(** ** Rounding between two dyadic numbers *)

Section Between.
(** The bounds are [Ml / 2^f] and [Mu / 2^f]. *)
Context (f Ml Mu : Z).
Context (Hf : 0 <= f <= 1074) (HM : 0 <= Mu < 2 ^ 53).

Definition between (m e : Z) (l : location) : Prop :=
  0 <= m /\ - K <= e /\ sc Ml (- f) <= sc m e /\ sc (m + inexact l) e <= sc Mu (- f).

(** The result of an operation on non-negative operands is within the bounds. *)
Definition within (x : f64) : Prop :=
  match x with
  | S754_zero _ => Ml <= 0
  | S754_finite false m e => -1074 <= e /\ sc Ml (- f) <= sc (Z.pos m) e <= sc Mu (- f)
  | _ => False
  end.

Lemma lt_pow_K : 1074 < K.
Proof. done. Qed.

(** The position of the leading bit is bounded by the upper bound. *)
Lemma leading_bit m e : 0 < m -> - K <= e -> sc m e <= sc Mu (- f) -> Zdigits2 m + e - 53 <= - f.
Proof.
  intros Hm He Hle. pose proof lt_pow_K. pose proof (Zdigits2_bounds m Hm) as [Hd _].
  assert (1 <= Zdigits2 m) by (destruct m; simpl; lia).
  destruct (Z.le_gt_cases (Zdigits2 m + e - 53) (- f)) as [|Hgt]; [done|exfalso].
  assert (H1 : sc Mu (- f) < 2 ^ (53 - f + K)).
  { unfold sc. replace (53 - f + K) with (53 + (- f + K)) by lia.
    rewrite (Z.pow_add_r 2 53 (- f + K)) by lia. pose proof (pow2_pos (- f + K) ltac:(lia)). nia. }
  assert (H2 : 2 ^ (Zdigits2 m - 1 + (e + K)) <= sc m e).
  { unfold sc. rewrite (Z.pow_add_r 2 (Zdigits2 m - 1)) by lia.
    pose proof (pow2_pos (e + K) ltac:(lia)). nia. }
  assert (2 ^ (53 - f + K) <= 2 ^ (Zdigits2 m - 1 + (e + K))) by (apply Z.pow_le_mono_r; lia).
  lia.
Qed.

Lemma shr_fexp_between m e l : between m e l ->
  let '(r, e') := shr_fexp 53 1024 m e l in
  between (shr_m r) e' (loc_of_shr_record r) /\ -1074 <= e'.
Proof.
  intros (Hm & He & Hl & Hu). pose proof lt_pow_K. unfold shr_fexp, fexp, emin, shr.
  destruct (rs_of_loc m l) as [E1 E2].
  assert (Hfloor : sc m e <= sc Mu (- f)).
  { etrans; [|exact Hu]. apply sc_le_mono; [done|]. destruct l as [|[]]; simpl; lia. }
  set (k := Z.max _ _ - e). destruct k as [|p|p] eqn:Ek; subst k.
  - split; [|lia]. unfold between. rewrite loc_of_rs, E1, E2. done.
  - assert (He' : e + Z.pos p <= - f).
    { assert (Hcase : 0 < m \/ m = 0) by lia. destruct Hcase as [Hpos | ->].
      - pose proof (leading_bit m e Hpos He Hfloor). lia.
      - simpl Zdigits2 in Ek. lia. }
    set (r := shr_record_of_loc m l) in *.
    pose proof (iter_shr_shifted p r ltac:(lia)) as (S0 & _ & SU & SL).
    assert (Hscale : forall M, sc M (- f) = sc (M * 2 ^ (- f - (e + Z.pos p))) (e + Z.pos p)).
    { intros M. rewrite sc_shift by lia. f_equal. lia. }
    split; [|lia]. unfold between. rewrite loc_of_rs, !Hscale.
    rewrite Hscale, <- sc_shift in Hl by lia. rewrite Hscale, <- sc_shift in Hu by lia.
    repeat split; [done | lia | |].
    + apply sc_le_mono; [lia|]. apply SL. rewrite E1. by apply sc_le_inv in Hl.
    + apply sc_le_mono; [lia|]. apply SU. rewrite E1, E2. by apply sc_le_inv in Hu.
  - split; [|lia]. unfold between. rewrite loc_of_rs, E1, E2. done.
Qed.

Lemma nearest_between m e l : between m e l -> between (round_nearest_even m l) e loc_Exact.
Proof.
  intros (Hm & He & Hl & Hu).
  assert (m <= round_nearest_even m l <= m + inexact l)
    by (destruct l as [|[]]; simpl; [| destruct (Z.even m) | |]; lia).
  unfold between; simpl inexact. rewrite Z.add_0_r. repeat split; [lia | done | |].
  - etrans; [exact Hl|]. apply sc_le_mono; lia.
  - etrans; [|exact Hu]. apply sc_le_mono; lia.
Qed.

Lemma round_aux_within m e l : between m e l -> within (binary_round_aux 53 1024 false m e l).
Proof.
  intros Hb. pose proof lt_pow_K. unfold binary_round_aux.
  generalize (shr_fexp_between m e l Hb). destruct (shr_fexp 53 1024 m e l) as [r e'].
  intros [Hb1%nearest_between _].
  generalize (shr_fexp_between _ _ _ Hb1).
  destruct (shr_fexp 53 1024 (round_nearest_even _ _) e' loc_Exact) as [r' e''].
  intros [(H0 & H1 & H2 & H3) He].
  assert (Hu : sc (shr_m r') e'' <= sc Mu (- f)).
  { etrans; [|exact H3]. apply sc_le_mono; [lia|]. rewrite loc_of_rs. destruct (rs r'); simpl; lia. }
  destruct (shr_m r') as [|p|p] eqn:Em; [| |lia].
  - simpl. unfold sc in H2. pose proof (pow2_pos (- f + K) ltac:(lia)). nia.
  - pose proof (leading_bit (Z.pos p) e'' ltac:(lia) H1 Hu) as Hd. simpl Zdigits2 in Hd.
    destruct (Z.leb_spec e'' (1024 - 53)); [simpl; repeat split; done | lia].
Qed.
End Between.

(** ** The operations the geometry code uses *)

Lemma f64_mul_within f Ml Mu mx ex my ey :
  0 <= f <= 1074 -> 0 <= Mu < 2 ^ 53 -> -1074 <= ex -> -1074 <= ey ->
  sc Ml (- f) <= sc (Z.pos mx * Z.pos my) (ex + ey) <= sc Mu (- f) ->
  within f Ml Mu (f64_mul (S754_finite false mx ex) (S754_finite false my ey)).
Proof.
  intros Hf HM Hx Hy [Hl Hu]. pose proof lt_pow_K. apply round_aux_within; [done | done |].
  rewrite Pos2Z.inj_mul. repeat split; simpl inexact; rewrite ?Z.add_0_r; [lia | unfold K; lia | done | done].
Qed.

Lemma new_location_inexact n r : inexact (new_location n r) = if r =? 0 then 0 else 1.
Proof.
  unfold new_location, new_location_even, new_location_odd.
  by destruct (Z.even n), (r =? 0).
Qed.

(** The quotient computed by [SFdiv] keeps its leading bit below the bound. *)
Lemma div_leading_bit f Mu m1 e1 m2 e2 :
  0 <= f <= 1074 -> 0 <= Mu < 2 ^ 53 -> 0 < m1 -> 0 < m2 -> -1074 <= e1 -> -1074 <= e2 ->
  sc m1 e1 <= sc (Mu * m2) (e2 - f) ->
  Zdigits2 m1 + e1 - (Zdigits2 m2 + e2) - 53 <= - f.
Proof.
  intros Hf HM H1 H2 He1 He2 Hle. assert (HK : K = 4000) by done.
  destruct (Z.le_gt_cases (Zdigits2 m1 + e1 - (Zdigits2 m2 + e2) - 53) (- f)) as [|Hgt]; [done|exfalso].
  pose proof (Zdigits2_bounds m1 H1) as [D1 _]. pose proof (Zdigits2_bounds m2 H2) as [_ D2].
  assert (1 <= Zdigits2 m1) by (destruct m1; simpl; lia).
  assert (1 <= Zdigits2 m2) by (destruct m2; simpl; lia).
  assert (A : 2 ^ (Zdigits2 m1 - 1 + (e1 + K)) <= sc m1 e1).
  { unfold sc. rewrite (Z.pow_add_r 2 (Zdigits2 m1 - 1)) by lia.
    pose proof (pow2_pos (e1 + K) ltac:(lia)). nia. }
  assert (B : sc (Mu * m2) (e2 - f) < 2 ^ (53 + Zdigits2 m2 + (e2 - f + K))).
  { unfold sc. rewrite (Z.pow_add_r 2 (53 + Zdigits2 m2)), (Z.pow_add_r 2 53) by lia.
    pose proof (pow2_pos (e2 - f + K) ltac:(lia)).
    assert (Mu * m2 < 2 ^ 53 * 2 ^ Zdigits2 m2) by nia. nia. }
  assert (2 ^ (53 + Zdigits2 m2 + (e2 - f + K)) <= 2 ^ (Zdigits2 m1 - 1 + (e1 + K)))
    by (apply Z.pow_le_mono_r; lia).
  lia.
Qed.

Lemma f64_div_within f Ml Mu m1 e1 m2 e2 :
  0 <= f <= 1074 -> 0 <= Mu < 2 ^ 53 -> -1074 <= e1 -> -1074 <= e2 <= 1000 ->
  sc (Ml * Z.pos m2) (e2 - f) <= sc (Z.pos m1) e1 <= sc (Mu * Z.pos m2) (e2 - f) ->
  within f Ml Mu (f64_div (S754_finite false m1 e1) (S754_finite false m2 e2)).
Proof.
  intros Hf HM He1 He2 [Hl Hu]. assert (HK : K = 4000) by done.
  pose proof (div_leading_bit f Mu (Z.pos m1) e1 (Z.pos m2) e2 Hf HM
    ltac:(lia) ltac:(lia) He1 (proj1 He2) Hu) as Hlead.
  unfold f64_div, SFdiv, SFdiv_core_binary, fexp, emin.
  set (e' := Z.min _ (e1 - e2)). set (s := e1 - e2 - e').
  assert (Hs : 0 <= s) by lia. assert (He' : -2074 <= e' <= - f) by lia.
  assert (Em : match s with Z0 => Z.pos m1 | Z.pos _ => Z.shiftl (Z.pos m1) s | Z.neg _ => 0 end
    = Z.pos m1 * 2 ^ s).
  { destruct s as [|p|p] eqn:Es; [by rewrite Z.mul_1_r | by rewrite Z.shiftl_mul_pow2 | lia]. }
  rewrite Em. generalize (Z_div_mod (Z.pos m1 * 2 ^ s) (Z.pos m2) eq_refl).
  destruct (Z.div_eucl _ _) as [q r]. intros [Hq Hr].
  assert (S1 : sc (Z.pos m1) e1 = sc (Z.pos m1 * 2 ^ s) (e2 + e')).
  { rewrite sc_shift by lia. f_equal. lia. }
  assert (S2 : forall M, sc (M * Z.pos m2) (e2 - f) = sc (M * 2 ^ (- f - e') * Z.pos m2) (e2 + e')).
  { intros M. rewrite <- Z.mul_assoc, (Z.mul_comm (2 ^ _)), Z.mul_assoc, sc_shift by lia. f_equal. lia. }
  rewrite S1, S2, Hq in Hl, Hu. apply sc_le_inv in Hl; [|lia]. apply sc_le_inv in Hu; [|lia].
  assert (S3 : forall M, sc M (- f) = sc (M * 2 ^ (- f - e')) e').
  { intros M. rewrite sc_shift by lia. f_equal. lia. }
  assert (0 <= Z.pos m1 * 2 ^ s) by (pose proof (pow2_pos s Hs); lia).
  apply round_aux_within; [done | done |]. unfold between. rewrite !S3, new_location_inexact.
  repeat split; [nia | lia | apply sc_le_mono; [lia | nia] | apply sc_le_mono; [lia|]].
  destruct (Z.eqb_spec r 0); nia.
Qed.

Lemma iter_xO_mul p d : Z.pos (Pos.iter xO p d) = Z.pos p * 2 ^ Z.pos d.
Proof.
  revert p. induction d as [|d IH] using Pos.peano_ind; intros p; simpl.
  - rewrite (Pos2Z.inj_xO p). change (2 ^ 1) with 2. lia.
  - rewrite Pos.iter_succ, Pos2Z.inj_succ, Z.pow_succ_r, Pos2Z.inj_xO, IH by lia. lia.
Qed.

Lemma f64_of_pos_within p : Z.pos p < 2 ^ 53 -> within 0 (Z.pos p) (Z.pos p) (f64_of_Z (Z.pos p)).
Proof.
  intros Hp. assert (HK : K = 4000) by done. unfold f64_of_Z, binary_normalize, binary_round.
  assert (H : let '(mz, ez) := shl_align p 0 (fexp 53 1024 (Z.pos (digits2_pos p) + 0)) in
    sc (Z.pos mz) ez = sc (Z.pos p) 0 /\ - K <= ez).
  { unfold shl_align, fexp, emin. pose proof (digits2_pos_bounds p).
    set (d := Z.max _ _ - 0). destruct d as [|d'|d'] eqn:Ed; try (split; [done|lia]).
    rewrite iter_xO_mul. split; [|lia]. rewrite sc_shift by lia. f_equal. lia. }
  destruct (shl_align _ _ _) as [mz ez]. destruct H as [E Hez].
  apply round_aux_within; [lia | lia |]. unfold between. simpl inexact. rewrite Z.add_0_r, E.
  change (- 0) with 0. repeat split; [lia | done | lia | lia].
Qed.

(** The integer that [round] produces for a positive finite number. *)
Definition round_int (m e : Z) : Z :=
  if 0 <=? e then m * 2 ^ e else (m + 2 ^ (- e - 1)) / 2 ^ (- e).

Lemma shiftl_of_within q m e :
  -1074 <= e -> sc q 0 <= sc (Z.pos m) e <= sc q 0 -> Z.shiftl (Z.pos m) e = q.
Proof.
  intros He Hsc. assert (HK : K = 4000) by done.
  destruct (Z.le_gt_cases 0 e) as [Hp | Hn].
  - rewrite Z.shiftl_mul_pow2 by lia.
    rewrite <- (Z.add_0_l e), <- sc_shift in Hsc by lia.
    destruct Hsc as [H1%sc_le_inv H2%sc_le_inv]; lia.
  - rewrite Z.shiftl_div_pow2 by lia.
    assert (E : sc q 0 = sc (q * 2 ^ (- e)) e) by (rewrite sc_shift by lia; f_equal; lia).
    rewrite E in Hsc. destruct Hsc as [H1%sc_le_inv H2%sc_le_inv]; try lia.
    replace (Z.pos m) with (q * 2 ^ (- e)) by lia.
    apply Z.div_mul. pose proof (pow2_pos (- e)). lia.
Qed.

Lemma round_as_u32 m e :
  -1074 <= e -> (e < 0 -> round_int (Z.pos m) e < 2 ^ 53) ->
  f64_as_u32 (f64_round (S754_finite false m e)) = Z.min U32_MAX (round_int (Z.pos m) e).
Proof.
  intros He Hlt. unfold f64_round, round_int in *. destruct (Z.leb_spec 0 e) as [|Hneg].
  { simpl f64_as_u32. by rewrite Z.shiftl_mul_pow2. }
  specialize (Hlt Hneg). set (q := (_ + _) / _) in *.
  assert (0 <= q).
  { apply Z.div_pos; [|apply pow2_pos; lia]. pose proof (pow2_pos (- e - 1)). lia. }
  destruct (Z.eqb_spec q 0) as [->|Hq]; [done|]. simpl cond_Zopp.
  destruct q as [|p|p]; [done | | lia].
  generalize (f64_of_pos_within p Hlt). change (binary_normalize 53 1024 (Z.pos p) 0 false) with (f64_of_Z (Z.pos p)).
  destruct (f64_of_Z (Z.pos p)) as [?|?| |[] mm ee]; simpl; try lia; try done.
  intros [? Hsc]. by rewrite (shiftl_of_within (Z.pos p)).
Qed.

Lemma round_int_le m e N : -1074 <= e -> 0 <= N -> sc m e <= sc (4 * N + 1) (-2) -> round_int m e <= N.
Proof.
  intros He HN Hle. assert (HK : K = 4000) by done. unfold round_int.
  destruct (Z.leb_spec 0 e) as [|Hneg].
  - replace e with (-2 + (e + 2)) in Hle by lia. rewrite <- sc_shift in Hle by lia.
    apply sc_le_inv in Hle; [|lia]. rewrite Z.pow_add_r in Hle by lia. change (2 ^ 2) with 4 in Hle. lia.
  - pose proof (pow2_pos (- e - 1) ltac:(lia)) as Hp.
    assert (E : 2 ^ (- e) = 2 * 2 ^ (- e - 1))
      by (rewrite <- Z.pow_succ_r by lia; f_equal; lia).
    apply Z.lt_succ_r, Z.div_lt_upper_bound; [lia|].
    assert (A : sc (4 * m) e <= sc ((4 * N + 1) * 2 ^ (- e)) e).
    { replace (4 * m) with (m * 2 ^ 2) by (change (2 ^ 2) with 4; lia).
      rewrite !sc_shift by lia. replace (e + - e) with (-2 + 2) by lia.
      rewrite <- (sc_shift _ (-2)) by lia. rewrite <- (sc_shift m e) by lia.
      unfold sc in *. change (2 ^ 2) with 4. lia. }
    apply sc_le_inv in A; [|lia]. rewrite E in *. nia.
Qed.

Lemma round_int_ge m e N : -1074 <= e -> sc (4 * N - 1) (-2) <= sc m e -> N <= round_int m e.
Proof.
  intros He Hle. assert (HK : K = 4000) by done. unfold round_int.
  destruct (Z.leb_spec 0 e) as [|Hneg].
  - replace e with (-2 + (e + 2)) in Hle by lia. rewrite <- sc_shift in Hle by lia.
    apply sc_le_inv in Hle; [|lia]. rewrite Z.pow_add_r in Hle by lia. change (2 ^ 2) with 4 in Hle. lia.
  - pose proof (pow2_pos (- e - 1) ltac:(lia)) as Hp.
    assert (E : 2 ^ (- e) = 2 * 2 ^ (- e - 1))
      by (rewrite <- Z.pow_succ_r by lia; f_equal; lia).
    apply Z.div_le_lower_bound; [lia|].
    assert (A : sc ((4 * N - 1) * 2 ^ (- e)) e <= sc (4 * m) e).
    { replace (4 * m) with (m * 2 ^ 2) by (change (2 ^ 2) with 4; lia).
      rewrite !sc_shift by lia. replace (e + - e) with (-2 + 2) by lia.
      rewrite <- (sc_shift _ (-2)) by lia. rewrite <- (sc_shift m e) by lia.
      unfold sc in *. change (2 ^ 2) with 4. lia. }
    apply sc_le_inv in A; [|lia]. rewrite E in *. nia.
Qed.

(** A value within a quarter of the integer [v] rounds to [v]. *)
Lemma round_u32_exact x v :
  0 <= v <= U32_MAX -> within 2 (4 * v - 1) (4 * v + 1) x -> f64_as_u32 (f64_round x) = v.
Proof.
  unfold U32_MAX. intros Hv. destruct x as [s|s| |[] m e]; try done; [simpl; lia|].
  intros [He [Hl Hu]]. pose proof (round_int_le _ _ v He ltac:(lia) Hu).
  pose proof (round_int_ge _ _ v He Hl).
  assert (2 ^ 32 < 2 ^ 53) by (apply Z.pow_lt_mono_r; lia). change (2 ^ 32) with 4294967296 in *.
  rewrite round_as_u32 by lia. unfold U32_MAX. lia.
Qed.

(** A value at most the integer [N] rounds to at most [N]. *)
Lemma round_u32_le x Ml N :
  0 <= N <= U32_MAX -> within 0 Ml N x -> 0 <= f64_as_u32 (f64_round x) <= N.
Proof.
  unfold U32_MAX. intros HN. destruct x as [s|s| |[] m e]; try done; [simpl; lia|].
  intros [He [_ Hu]]. assert (HK : K = 4000) by done.
  assert (Hu' : sc (Z.pos m) e <= sc (4 * N + 1) (-2)).
  { etrans; [exact Hu|]. change (- 0) with (-2 + 2). rewrite <- sc_shift by lia.
    apply sc_le_mono; [lia|]. change (2 ^ 2) with 4. lia. }
  pose proof (round_int_le _ _ N He ltac:(lia) Hu').
  assert (0 <= round_int (Z.pos m) e).
  { unfold round_int. destruct (Z.leb_spec 0 e); [pose proof (pow2_pos e); lia|].
    apply Z.div_pos; [pose proof (pow2_pos (- e - 1)); lia | apply pow2_pos; lia]. }
  assert (2 ^ 32 < 2 ^ 53) by (apply Z.pow_lt_mono_r; lia). change (2 ^ 32) with 4294967296 in *.
  rewrite round_as_u32 by lia. unfold U32_MAX. lia.
Qed.

(** ** Comparison with a constant *)

Lemma valid_exponent s m e : f64_valid (S754_finite s m e) = true ->
  -1074 <= e <= 971 /\ Z.pos (digits2_pos m) <= 53.
Proof.
  unfold f64_valid, valid_binary, bounded, canonical_mantissa, fexp, emin.
  rewrite andb_true_iff, Z.eqb_eq, Z.leb_le. lia.
Qed.

(** Comparing a valid number with a normal one compares the values. *)
Lemma f64_le_sc m e mc ec :
  f64_valid (S754_finite false m e) = true -> Z.pos (digits2_pos mc) = 53 -> -1074 <= ec ->
  f64_le (S754_finite false m e) (S754_finite false mc ec) = true ->
  sc (Z.pos m) e <= sc (Z.pos mc) ec.
Proof.
  intros Hv Hd Hec Hle. apply valid_exponent in Hv as [He Hm]. assert (HK : K = 4000) by done.
  pose proof (digits2_pos_bounds m) as [_ Bm]. pose proof (digits2_pos_bounds mc) as [Bc _].
  rewrite Hd in Bc. unfold f64_le, SFleb, SFcompare in Hle.
  destruct (Z.compare_spec e ec) as [->|Hlt|Hgt]; [| |done].
  - apply sc_le_mono; [lia|]. change (Pos.compare_cont Eq m mc) with (Pos.compare m mc) in Hle.
    destruct (Pos.compare_spec m mc); [subst; lia | lia | done].
  - assert (2 ^ Z.pos (digits2_pos m) <= 2 ^ 53) by (apply Z.pow_le_mono_r; lia).
    replace ec with (e + (ec - e)) by lia. rewrite <- sc_shift by lia. apply sc_le_mono; [lia|].
    assert (2 ^ 53 <= 2 ^ (53 - 1) * 2 ^ (ec - e)).
    { rewrite <- Z.pow_add_r by lia. apply Z.pow_le_mono_r; lia. }
    pose proof (pow2_pos (ec - e) ltac:(lia)). nia.
Qed.

(** ** Products of bounds *)

Lemma sc_mul a e b e' : -2000 <= e -> -2000 <= e' -> sc a e * sc b e' = sc (a * b) (e + e') * 2 ^ K.
Proof.
  intros. assert (HK : K = 4000) by done. unfold sc.
  assert (E : 2 ^ (e + K) * 2 ^ (e' + K) = 2 ^ (e + e' + K) * 2 ^ K).
  { rewrite <- !Z.pow_add_r by lia. f_equal. lia. }
  rewrite <- Z.mul_assoc, (Z.mul_assoc (2 ^ _) b), (Z.mul_comm (2 ^ _) b), <- (Z.mul_assoc b), E. ring.
Qed.

Lemma sc_mul_le a e b e' A E B E' :
  -2000 <= e -> -2000 <= e' -> -2000 <= E -> -2000 <= E' -> 0 <= a -> 0 <= b ->
  sc a e <= sc A E -> sc b e' <= sc B E' -> sc (a * b) (e + e') <= sc (A * B) (E + E').
Proof.
  intros He He' HE HE' Ha Hb H1 H2. assert (HK : K = 4000) by done.
  assert (0 <= sc a e) by (unfold sc; pose proof (pow2_pos (e + K)); nia).
  assert (0 <= sc b e') by (unfold sc; pose proof (pow2_pos (e' + K)); nia).
  assert (M : sc a e * sc b e' <= sc A E * sc B E') by nia.
  rewrite !sc_mul in M by lia. pose proof (pow2_pos K). nia.
Qed.

(** ** Results are canonical *)

Lemma Zdigits2_unique m d : 0 < m -> 0 < d -> 2 ^ (d - 1) <= m < 2 ^ d -> Zdigits2 m = d.
Proof.
  intros Hm Hd [H1 H2]. pose proof (Zdigits2_bounds m Hm) as [D1 D2].
  pose proof (Zdigits2_nonneg m).
  assert (d - 1 < Zdigits2 m) by (apply (Z.pow_lt_mono_r_iff 2); lia).
  assert (Zdigits2 m - 1 < d) by (apply (Z.pow_lt_mono_r_iff 2); lia).
  lia.
Qed.

Lemma Zdigits2_shift m k : 0 < m -> 0 <= k -> 0 < m / 2 ^ k -> Zdigits2 (m / 2 ^ k) = Zdigits2 m - k.
Proof.
  intros Hm Hk Hq. pose proof (Zdigits2_bounds m Hm) as [D1 D2].
  pose proof (pow2_pos k Hk) as Pk.
  assert (k < Zdigits2 m).
  { destruct (Z.lt_ge_cases k (Zdigits2 m)) as [|Hge]; [done|exfalso].
    assert (2 ^ Zdigits2 m <= 2 ^ k) by (apply Z.pow_le_mono_r; lia).
    rewrite Z.div_small in Hq; lia. }
  apply Zdigits2_unique; [done | lia |]. split.
  - apply Z.div_le_lower_bound; [done|]. rewrite <- Z.pow_add_r by lia.
    replace (k + (Zdigits2 m - k - 1)) with (Zdigits2 m - 1) by lia. done.
  - apply Z.div_lt_upper_bound; [done|]. rewrite <- Z.pow_add_r by lia.
    replace (k + (Zdigits2 m - k)) with (Zdigits2 m) by lia. done.
Qed.


Lemma Zdigits2_mono m m' : 0 <= m <= m' -> Zdigits2 m <= Zdigits2 m'.
Proof.
  intros H. destruct (Z.eq_dec m 0) as [->|]; [apply Zdigits2_nonneg|].
  pose proof (Zdigits2_bounds m ltac:(lia)). pose proof (Zdigits2_bounds m' ltac:(lia)).
  assert (Zdigits2 m - 1 < Zdigits2 m'); [|lia].
  apply (Z.pow_lt_mono_r_iff 2); [lia | apply Zdigits2_nonneg | lia].
Qed.

(** A mantissa with enough digits for its exponent is canonical once shifted. *)
Lemma shr_fexp_canonical m e l :
  0 <= m -> e <= fexp 53 1024 (Zdigits2 m + e) ->
  let '(r, e') := shr_fexp 53 1024 m e l in
  0 <= shr_m r /\ (shr_m r = 0 /\ e' = -1074 \/ fexp 53 1024 (Zdigits2 (shr_m r) + e') = e').
Proof.
  intros Hm He. unfold shr_fexp. destruct (rs_of_loc m l) as [E1 _].
  set (r0 := shr_record_of_loc m l) in *. unfold shr.
  destruct (fexp 53 1024 (Zdigits2 m + e) - e) as [|p|p] eqn:Ek; [| |lia].
  - rewrite E1. split; [done|]. right. lia.
  - pose proof (iter_shr_shifted p r0 ltac:(lia)) as (S0 & Eq & _ & _). split; [done|].
    rewrite Eq, E1 in *. destruct (Z.eq_dec (m / 2 ^ Z.pos p) 0) as [Hz|Hnz].
    + left. split; [done|]. apply Z.div_small_iff in Hz; [|pose proof (pow2_pos (Z.pos p)); lia].
      unfold fexp, emin in Ek |- *. destruct (Z.eq_dec m 0) as [->|]; [simpl Zdigits2 in *; lia|].
      pose proof (Zdigits2_bounds m ltac:(lia)).
      assert (Zdigits2 m - 1 < Z.pos p) by (apply (Z.pow_lt_mono_r_iff 2); lia). lia.
    + right. destruct (Z.eq_dec m 0) as [->|]; [by rewrite Z.div_0_l in Hnz by (pose proof (pow2_pos (Z.pos p)); lia)|].
      pose proof (Z.div_pos m (2 ^ Z.pos p) ltac:(lia) (pow2_pos (Z.pos p) ltac:(lia))).
      rewrite Zdigits2_shift by lia.
      replace (Zdigits2 m - Z.pos p + (e + Z.pos p)) with (Zdigits2 m + e) by lia. lia.
Qed.

Lemma round_aux_valid s m e l :
  0 <= m -> e <= fexp 53 1024 (Zdigits2 m + e) ->
  f64_valid (binary_round_aux 53 1024 s m e l) = true.
Proof.
  intros Hm He. unfold binary_round_aux.
  generalize (shr_fexp_canonical m e l Hm He). destruct (shr_fexp 53 1024 m e l) as [r e'].
  intros [Hr Hc]. set (m1 := round_nearest_even _ _).
  assert (Hm1 : shr_m r <= m1).
  { subst m1. destruct (loc_of_shr_record r) as [|[]]; simpl; try lia. destruct (Z.even _); lia. }
  assert (He1 : e' <= fexp 53 1024 (Zdigits2 m1 + e')).
  { pose proof (Zdigits2_mono (shr_m r) m1 ltac:(lia)). unfold fexp, emin in *. lia. }
  generalize (shr_fexp_canonical m1 e' loc_Exact ltac:(lia) He1).
  destruct (shr_fexp 53 1024 m1 e' loc_Exact) as [r' e'']. intros [Hr' Hc'].
  destruct (shr_m r') as [|p|p] eqn:Em; [done | | done].
  destruct (Z.leb_spec e'' (1024 - 53)); [|done].
  unfold f64_valid, valid_binary, bounded, canonical_mantissa.
  rewrite andb_true_iff, Z.eqb_eq, Z.leb_le. split; [|done]. simpl Zdigits2 in Hc'.
  destruct Hc' as [[? _]|]; [lia|done].
Qed.

Lemma f64_div_valid s1 m1 e1 s2 m2 e2 :
  f64_valid (f64_div (S754_finite s1 m1 e1) (S754_finite s2 m2 e2)) = true.
Proof.
  unfold f64_div, SFdiv, SFdiv_core_binary.
  set (D := Zdigits2 (Z.pos m1) + e1 - (Zdigits2 (Z.pos m2) + e2)).
  set (e' := Z.min (fexp 53 1024 D) (e1 - e2)). set (s := e1 - e2 - e').
  assert (Hs : 0 <= s) by lia.
  assert (Em : match s with Z0 => Z.pos m1 | Z.pos _ => Z.shiftl (Z.pos m1) s | Z.neg _ => 0 end
    = Z.pos m1 * 2 ^ s).
  { destruct s as [|p|p] eqn:Es; [by rewrite Z.mul_1_r | by rewrite Z.shiftl_mul_pow2 | lia]. }
  rewrite Em. generalize (Z_div_mod (Z.pos m1 * 2 ^ s) (Z.pos m2) eq_refl).
  destruct (Z.div_eucl _ _) as [q r]. intros [Hq Hr].
  pose proof (digits2_pos_bounds m1) as [B1 _]. pose proof (digits2_pos_bounds m2) as [_ B2].
  pose proof (pow2_pos s Hs). simpl Zdigits2 in D.
  assert (Hq0 : 0 <= q) by nia.
  apply round_aux_valid; [done|]. destruct (Z.le_gt_cases 0 (D - 1 - e')) as [Hge|Hlt].
  - assert (Hlow : 2 ^ (D - 1 - e') <= q).
    { assert (A : 2 ^ (D - 1 - e') * 2 ^ Z.pos (digits2_pos m2) <= Z.pos m1 * 2 ^ s).
      { rewrite <- Z.pow_add_r by lia.
        replace (D - 1 - e' + Z.pos (digits2_pos m2)) with (Z.pos (digits2_pos m1) - 1 + s) by lia.
        rewrite Z.pow_add_r by lia. nia. }
      pose proof (pow2_pos (D - 1 - e') Hge). nia. }
    pose proof (pow2_pos (D - 1 - e') Hge). pose proof (Zdigits2_bounds q ltac:(lia)) as [_ B].
    assert (D - 1 - e' < Zdigits2 q)
      by (apply (Z.pow_lt_mono_r_iff 2); [lia | apply Zdigits2_nonneg | lia]).
    unfold fexp, emin in *. lia.
  - unfold fexp, emin in *. lia.
Qed.

(** The converse of [f64_le_sc]. *)
Lemma sc_f64_le m e mc ec :
  f64_valid (S754_finite false m e) = true -> Z.pos (digits2_pos mc) = 53 -> -1074 <= ec ->
  sc (Z.pos m) e <= sc (Z.pos mc) ec ->
  f64_le (S754_finite false m e) (S754_finite false mc ec) = true.
Proof.
  intros Hv Hd Hec Hle. assert (HK : K = 4000) by done.
  assert (Hcan : e = -1074 \/ Z.pos (digits2_pos m) = 53).
  { unfold f64_valid, valid_binary, bounded, canonical_mantissa, fexp, emin in Hv.
    rewrite andb_true_iff, Z.eqb_eq, Z.leb_le in Hv. lia. }
  apply valid_exponent in Hv as [He Hm].
  pose proof (digits2_pos_bounds m) as [Bm _]. pose proof (digits2_pos_bounds mc) as [_ Bc].
  rewrite Hd in Bc. unfold f64_le, SFleb, SFcompare.
  destruct (Z.compare_spec e ec) as [->|Hlt|Hgt]; [| done |exfalso].
  - apply sc_le_inv in Hle; [|lia]. change (Pos.compare_cont Eq m mc) with (Pos.compare m mc).
    destruct (Pos.compare_spec m mc); [done | done | lia].
  - destruct Hcan as [|Hm53]; [lia|]. rewrite Hm53 in Bm.
    replace e with (ec + (e - ec)) in Hle by lia. rewrite <- sc_shift in Hle by lia.
    apply sc_le_inv in Hle; [|lia].
    assert (2 ^ 53 <= 2 ^ (53 - 1) * 2 ^ (e - ec)).
    { rewrite <- Z.pow_add_r by lia. apply Z.pow_le_mono_r; lia. }
    pose proof (pow2_pos (e - ec) ltac:(lia)). nia.
Qed.
