(* ===== verification/Geometry.v ===== *)
(** Coordinate spaces of the protocol crate: [src/crates/protocol/src/geometry.rs].

    Normalized points (0..1000), screenshot pixels and logical screen points,
    the checked mappings between them, and the image budget.  The theorems
    show that a normalized point always lands on a pixel of the image, that
    every pixel survives the round trip through normalized coordinates, and
    that the image budget bounds both edges without upscaling. *)

From S2P Require Import Prelude Floats.

(** * Data *)

Record ScreenPoint := { sp_x : f64; sp_y : f64 }.

Record ScreenRect := { sr_x : f64; sr_y : f64; sr_width : f64; sr_height : f64 }.

(** Pixel coordinates and dimensions are [u32]. *)
Record ScreenshotPoint := { px_x : Z; px_y : Z }.

Record NormalizedPoint := { np_x : f64; np_y : f64 }.

Record PixelSize := { ps_width : Z; ps_height : Z }.

Record ScreenshotMapping := { sm_screen_bounds : ScreenRect; sm_pixel_size : PixelSize }.

(** [ScreenRect: PartialEq], field by field with IEEE equality. *)
Definition screen_rect_eq (a b : ScreenRect) : bool :=
  f64_eq (sr_x a) (sr_x b) && f64_eq (sr_y a) (sr_y b)
  && f64_eq (sr_width a) (sr_width b) && f64_eq (sr_height a) (sr_height b).

(** * Operations *)

Definition F0 : f64 := S754_zero false.
Definition F1000 : f64 := f64_of_Z 1000.

(** [ScreenRect::contains]. *)
Definition rect_contains (r : ScreenRect) (p : ScreenPoint) : bool :=
  f64_ge (sp_x p) (sr_x r) && f64_ge (sp_y p) (sr_y r)
  && f64_le (sp_x p) (f64_add (sr_x r) (sr_width r))
  && f64_le (sp_y p) (f64_add (sr_y r) (sr_height r)).

(** [PixelSize::contains]. *)
Definition size_contains (s : PixelSize) (p : ScreenshotPoint) : bool :=
  (px_x p <? ps_width s) && (px_y p <? ps_height s).

(** The closure [axis] of [NormalizedPoint::to_pixel]; [length - 1] cannot
    underflow because the caller rejected a zero size. *)
Definition to_pixel_axis (value : f64) (length : Z) : Z :=
  f64_as_u32 (f64_round (f64_div (f64_mul value (f64_of_Z (length - 1))) F1000)).

(** [NormalizedPoint::to_pixel]. *)
Definition to_pixel (p : NormalizedPoint) (size : PixelSize) : option ScreenshotPoint :=
  if negb (is_finite (np_x p)) || negb (is_finite (np_y p))
     || negb (f64_in_range F0 F1000 (np_x p)) || negb (f64_in_range F0 F1000 (np_y p))
     || (ps_width size =? 0) || (ps_height size =? 0)
  then None
  else Some {| px_x := to_pixel_axis (np_x p) (ps_width size);
               px_y := to_pixel_axis (np_y p) (ps_height size) |}.

(** The closure [axis] of [NormalizedPoint::from_pixel]. *)
Definition from_pixel_axis (value length : Z) : f64 :=
  f64_div (f64_mul (f64_of_Z value) F1000) (f64_of_Z (Z.max (sat_sub length 1) 1)).

(** [NormalizedPoint::from_pixel]. *)
Definition from_pixel (p : ScreenshotPoint) (size : PixelSize) : option NormalizedPoint :=
  if negb (size_contains size p) then None
  else Some {| np_x := from_pixel_axis (px_x p) (ps_width size);
               np_y := from_pixel_axis (px_y p) (ps_height size) |}.

(** [u64::div_ceil]. *)
Definition div_ceil (a b : Z) : Z := (a + b - 1) / b.

(** The closure [scale] of [fit_long_edge]: [u64] arithmetic, then a checked
    conversion to [u32]. *)
Definition fit_scale (edge longest value : Z) : option Z :=
  u32_try_from (div_ceil (value * edge) longest).

(** [PixelSize::fit_long_edge]. *)
Definition fit_long_edge (s : PixelSize) (edge : Z) : option PixelSize :=
  if (ps_width s =? 0) || (ps_height s =? 0) || (edge =? 0) then None
  else
    let longest := Z.max (ps_width s) (ps_height s) in
    if longest <=? edge then Some s
    else
      match fit_scale edge longest (ps_width s) with
      | None => None
      | Some w =>
          match fit_scale edge longest (ps_height s) with
          | None => None
          | Some h => Some {| ps_width := Z.max w 1; ps_height := Z.max h 1 |}
          end
      end.

(** [ScreenshotMapping::to_screen]. *)
Definition to_screen (m : ScreenshotMapping) (p : ScreenshotPoint) : option ScreenPoint :=
  let b := sm_screen_bounds m in
  let s := sm_pixel_size m in
  if negb (size_contains s p) || f64_le (sr_width b) F0 || f64_le (sr_height b) F0 then None
  else
    Some {| sp_x := f64_add (sr_x b)
                      (f64_div (f64_mul (f64_of_Z (px_x p)) (sr_width b)) (f64_of_Z (ps_width s)));
            sp_y := f64_add (sr_y b)
                      (f64_div (f64_mul (f64_of_Z (px_y p)) (sr_height b)) (f64_of_Z (ps_height s))) |}.

(** * Properties *)

Definition is_u32 (n : Z) : Prop := 0 <= n <= U32_MAX.
Definition size_ok (s : PixelSize) : Prop := is_u32 (ps_width s) /\ is_u32 (ps_height s).

Example to_pixel_retina :
  to_pixel {| np_x := f64_of_Z 1000; np_y := f64_of_Z 500 |} {| ps_width := 3840; ps_height := 2160 |}
  = Some {| px_x := 3839; px_y := 1080 |}.
Proof. reflexivity. Qed.

Example fit_portrait :
  fit_long_edge {| ps_width := 2160; ps_height := 3840 |} 1568
  = Some {| ps_width := 882; ps_height := 1568 |}.
Proof. reflexivity. Qed.

#[local] Opaque Z.pow.

Lemma F1000_eq : F1000 = S754_finite false 8796093022208000 (-43).
Proof. by vm_compute. Qed.

Lemma sc_F1000 n : sc (n * 8796093022208000) (-43) = sc (1000 * n) 0.
Proof.
  replace 8796093022208000 with (1000 * 2 ^ 43) by done.
  change (sc (1000 * n) 0) with (sc (1000 * n) (-43 + 43)).
  rewrite <- sc_shift by (unfold K; lia). f_equal. lia.
Qed.

Lemma u32_lt_pow53 n c : 0 <= n <= U32_MAX -> 0 <= c <= 2000 -> c * n + c < 2 ^ 53.
Proof.
  intros. assert (2000 * U32_MAX + 2000 < 2 ^ 53) by done. nia.
Qed.

(** The scaled coordinate never leaves [0, length - 1]. *)
Lemma to_pixel_axis_bounds v len :
  f64_valid v = true -> f64_in_range F0 F1000 v = true -> 1 <= len <= U32_MAX ->
  0 <= to_pixel_axis v len <= len - 1.
Proof.
  intros Hv Hr Hlen. assert (HK : K = 4000) by done. unfold to_pixel_axis.
  unfold f64_in_range in Hr. apply andb_true_iff in Hr as [Hr0 Hr1].
  destruct v as [s|s| |s m e]; [| by destruct s | done |].
  { destruct (len - 1) as [|p|p] eqn:EL; [by destruct s; vm_compute | | lia].
    generalize (f64_of_pos_within p ltac:(pose proof (u32_lt_pow53 (Z.pos p) 1); lia)).
    by destruct (f64_of_Z (Z.pos p)) as [?|?| |[] ml el]. }
  destruct s; [done|]. rewrite F1000_eq in *.
  apply f64_le_sc in Hr1 as Hsc; [|done|done|lia]. apply valid_exponent in Hv as [He _].
  rewrite <- (Z.mul_1_l 8796093022208000), sc_F1000, Z.mul_1_r in Hsc.
  destruct (len - 1) as [|p|p] eqn:EL; [by vm_compute | | lia].
  pose proof (u32_lt_pow53 (Z.pos p) 1000 ltac:(lia) ltac:(lia)) as Hlt.
  generalize (f64_of_pos_within p ltac:(lia)).
  destruct (f64_of_Z (Z.pos p)) as [?|?| |[] ml el]; cbn [within]; try done.
  change (- 0) with 0. intros [Hel [Hl1 Hl2]].
  eapply (round_u32_le _ 0); [lia|].
  assert (Hmul : within 0 0 (1000 * Z.pos p) (f64_mul (S754_finite false m e) (S754_finite false ml el))).
  { apply f64_mul_within; try lia. split; [unfold sc; pose proof (pow2_pos (e + el + K)); lia|].
    change (- 0) with (0 + 0). apply sc_mul_le; try lia. }
  destruct (f64_mul _ _) as [?|?| |[] m1 e1]; cbn [within] in Hmul; try done.
  destruct Hmul as [He1 [_ Hu]]. change (- 0) with 0 in Hu.
  apply f64_div_within; try lia. split.
  - unfold sc at 1. pose proof (pow2_pos (e1 + K)). unfold sc. lia.
  - change (-43 - 0) with (-43). by rewrite sc_F1000.
Qed.

Lemma in_range_finite v : f64_in_range F0 F1000 v = true -> is_finite v = true.
Proof. by destruct v as [s|[]| |s m e]. Qed.

(** ** The round trip of one axis *)

Lemma from_pixel_axis_zero len : 1 <= len <= U32_MAX ->
  f64_in_range F0 F1000 (from_pixel_axis 0 len) = true /\
  f64_valid (from_pixel_axis 0 len) = true /\ to_pixel_axis (from_pixel_axis 0 len) len = 0.
Proof.
  intros Hlen. unfold from_pixel_axis, sat_sub.
  assert (E : forall p, Z.pos p <= U32_MAX ->
    f64_div (f64_mul (f64_of_Z 0) F1000) (f64_of_Z (Z.pos p)) = S754_zero false).
  { intros p Hp. generalize (f64_of_pos_within p ltac:(pose proof (u32_lt_pow53 (Z.pos p) 1); lia)).
    by destruct (f64_of_Z (Z.pos p)) as [?|?| |[] ml el]. }
  destruct (Z.max (Z.max 0 (len - 1)) 1) as [|p|p] eqn:Ep; [lia | | lia].
  rewrite E by lia. split; [done|]. split; [done|].
  unfold to_pixel_axis. destruct (len - 1) as [|q|q] eqn:Eq; [done | | lia].
  generalize (f64_of_pos_within q ltac:(pose proof (u32_lt_pow53 (Z.pos q) 1); lia)).
  by destruct (f64_of_Z (Z.pos q)) as [?|?| |[] ml el].
Qed.

(** The normalized coordinate is within any dyadic interval that holds
    [1000 * v / (length - 1)]. *)
Lemma from_pixel_axis_within v p f Ml Mu :
  0 < v <= Z.pos p -> Z.pos p <= U32_MAX -> 0 <= f <= 100 -> 0 <= Ml -> 0 <= Mu < 2 ^ 53 ->
  Ml * Z.pos p <= 1000 * v * 2 ^ f <= Mu * Z.pos p ->
  within f Ml Mu (from_pixel_axis v (Z.pos p + 1)).
Proof.
  intros Hv Hp Hf HMl HMu HM. assert (HK : K = 4000) by done. unfold from_pixel_axis, sat_sub.
  replace (Z.max (Z.max 0 (Z.pos p + 1 - 1)) 1) with (Z.pos p) by lia.
  destruct v as [|v|v]; [lia | | lia].
  pose proof (u32_lt_pow53 (Z.pos v) 1000 ltac:(lia) ltac:(lia)).
  pose proof (u32_lt_pow53 (Z.pos p) 1 ltac:(lia) ltac:(lia)).
  generalize (f64_of_pos_within v ltac:(lia)).
  destruct (f64_of_Z (Z.pos v)) as [?|?| |[] mv ev]; cbn [within]; try done.
  change (- 0) with 0. intros [Hev [V1 V2]].
  assert (Hmul : within 0 (1000 * Z.pos v) (1000 * Z.pos v) (f64_mul (S754_finite false mv ev) F1000)).
  { rewrite F1000_eq. apply f64_mul_within; try lia.
    change (- 0) with 0. rewrite <- sc_F1000. change (-43) with (0 + -43) at 1.
    change (sc (Z.pos v * 8796093022208000) (-43)) with (sc (Z.pos v * 8796093022208000) (0 + -43)).
    split; apply sc_mul_le; lia. }
  destruct (f64_mul _ _) as [?|?| |[] m1 e1]; cbn [within] in Hmul; try done.
  destruct Hmul as [He1 [A1 A2]]. change (- 0) with 0 in *.
  generalize (f64_of_pos_within p ltac:(lia)).
  destruct (f64_of_Z (Z.pos p)) as [?|?| |[] mp ep]; cbn [within]; try done.
  change (- 0) with 0. intros [Hep [P1 P2]].
  assert (Hep2 : ep <= 1000).
  { destruct (Z.le_gt_cases ep 1000); [done|exfalso].
    assert (Hep1 : sc 1 ep <= sc (Z.pos p) 0)
      by (etrans; [apply (sc_le_mono 1 (Z.pos mp) ep); lia | exact P2]).
    assert (A : 2 ^ (53 + K) <= 2 ^ (ep + K)) by (apply Z.pow_le_mono_r; lia).
    assert (B : 2 ^ (53 + K) = 2 ^ 53 * 2 ^ K) by (apply Z.pow_add_r; lia).
    unfold sc in Hep1. rewrite Z.add_0_l in Hep1. pose proof (pow2_pos K ltac:(lia)). nia. }
  assert (S : forall M, sc (M * Z.pos p) (- f) = sc (M * Z.pos p) (- f + 0)) by (intros; by rewrite Z.add_0_r).
  assert (E : sc (1000 * Z.pos v * 2 ^ f) (- f) = sc (1000 * Z.pos v) 0)
    by (rewrite sc_shift by lia; f_equal; lia).
  apply f64_div_within; try lia. replace (ep - f) with (- f + ep) by lia. split.
  - etrans; [|exact A1]. rewrite <- E. etrans; [|apply (sc_le_mono (Ml * Z.pos p)); lia].
    rewrite S. apply sc_mul_le; lia.
  - etrans; [exact A2|]. rewrite <- E. etrans; [apply (sc_le_mono _ (Mu * Z.pos p)); lia|].
    rewrite S. apply sc_mul_le; lia.
Qed.

Lemma to_pixel_axis_back v p x : 0 < v <= Z.pos p -> Z.pos p <= U32_MAX ->
  let q := 1000 * v * 2 ^ 30 / Z.pos p in
  within 30 q (q + 1) x -> to_pixel_axis x (Z.pos p + 1) = v.
Proof.
  intros Hv Hp q Hx. assert (HK : K = 4000) by done. unfold to_pixel_axis.
  replace (Z.pos p + 1 - 1) with (Z.pos p) by lia.
  pose proof (u32_lt_pow53 v 1000 ltac:(lia) ltac:(lia)).
  pose proof (u32_lt_pow53 (Z.pos p) 1 ltac:(lia) ltac:(lia)).
  assert (H30 : 2 ^ 30 = 1073741824) by done. unfold U32_MAX in *.
  pose proof (Z.mul_div_le (1000 * v * 2 ^ 30) (Z.pos p) ltac:(lia)) as Q1.
  pose proof (Z.mul_succ_div_gt (1000 * v * 2 ^ 30) (Z.pos p) ltac:(lia)) as Q2.
  fold q in Q1, Q2.
  assert (Hq : 0 < q) by (apply Z.div_str_pos; lia).
  destruct x as [s|s| |[] m e]; cbn [within] in Hx; try done; [lia|]. destruct Hx as [He [X1 X2]].
  change (- (30)) with (-30) in *.
  generalize (f64_of_pos_within p ltac:(lia)).
  destruct (f64_of_Z (Z.pos p)) as [?|?| |[] mp ep]; cbn [within]; try done.
  change (- 0) with 0. intros [Hep [P1 P2]]. apply round_u32_exact; [unfold U32_MAX; lia|].
  assert (S : forall M, sc M 0 = sc (M * 2 ^ 30) (-30 + 0)).
  { intros M. change 0 with (-30 + 30) at 1. rewrite <- sc_shift by lia. done. }
  assert (Hmul : within 0 (1000 * v - 250) (1000 * v + 250)
    (f64_mul (S754_finite false m e) (S754_finite false mp ep))).
  { apply f64_mul_within; try lia. change (- 0) with 0. split.
    - rewrite S. etrans; [apply (sc_le_mono _ (q * Z.pos p)); lia|]. apply sc_mul_le; lia.
    - rewrite S. etrans; [|apply (sc_le_mono ((q + 1) * Z.pos p)); lia]. apply sc_mul_le; lia. }
  destruct (f64_mul _ _) as [?|?| |[] m1 e1]; cbn [within] in Hmul; try done; [lia|].
  destruct Hmul as [He1 [A1 A2]]. change (- 0) with 0 in *. rewrite F1000_eq.
  assert (S4 : forall M, sc (M * 8796093022208000) (-43 - 2) = sc (250 * M) 0).
  { intros M. replace 8796093022208000 with (250 * 2 ^ 45) by done.
    change 0 with (-43 - 2 + 45). rewrite <- sc_shift by lia. f_equal. lia. }
  apply f64_div_within; try lia. rewrite !S4.
  replace (250 * (4 * v - 1)) with (1000 * v - 250) by lia.
  replace (250 * (4 * v + 1)) with (1000 * v + 250) by lia. done.
Qed.

Lemma from_pixel_axis_valid v p : 0 < v <= Z.pos p -> Z.pos p <= U32_MAX ->
  f64_valid (from_pixel_axis v (Z.pos p + 1)) = true.
Proof.
  intros Hv Hp. unfold from_pixel_axis, sat_sub.
  replace (Z.max (Z.max 0 (Z.pos p + 1 - 1)) 1) with (Z.pos p) by lia.
  generalize (f64_of_pos_within p ltac:(pose proof (u32_lt_pow53 (Z.pos p) 1); lia)).
  destruct (f64_of_Z (Z.pos p)) as [?|?| |[] ml el]; cbn [within]; try done; intros _;
    (destruct (f64_mul _ _) as [[]|[]| |[] ? ?]; [done..| |]); apply f64_div_valid.
Qed.

Lemma axis_roundtrip v len : 0 <= v < len -> len <= U32_MAX ->
  f64_in_range F0 F1000 (from_pixel_axis v len) = true /\
  to_pixel_axis (from_pixel_axis v len) len = v.
Proof.
  intros Hv Hlen. assert (HK : K = 4000) by done.
  destruct (Z.eq_dec v 0) as [->|Hnz]; [pose proof (from_pixel_axis_zero len); naive_solver lia|].
  destruct (len - 1) as [|p|p] eqn:Ep; [lia | | lia].
  replace len with (Z.pos p + 1) by lia.
  assert (H30 : 2 ^ 30 = 1073741824) by done. assert (H53 : 2 ^ 53 = 9007199254740992) by done.
  set (q := 1000 * v * 2 ^ 30 / Z.pos p).
  pose proof (Z.mul_div_le (1000 * v * 2 ^ 30) (Z.pos p) ltac:(lia)) as Q1.
  pose proof (Z.mul_succ_div_gt (1000 * v * 2 ^ 30) (Z.pos p) ltac:(lia)) as Q2. fold q in Q1, Q2.
  assert (0 <= q) by (apply Z.div_pos; lia).
  assert (q <= 1000 * 2 ^ 30) by (apply Z.div_le_upper_bound; nia).
  split; [|apply to_pixel_axis_back; try lia; apply from_pixel_axis_within; fold q; lia].
  generalize (from_pixel_axis_within v p 0 0 1000 ltac:(lia) ltac:(lia) ltac:(lia) ltac:(lia) ltac:(lia)
    ltac:(change (2 ^ 0) with 1; lia)).
  unfold f64_in_range. rewrite F1000_eq.
  pose proof (from_pixel_axis_valid v p ltac:(lia) ltac:(lia)) as Hval. revert Hval.
  destruct (from_pixel_axis v (Z.pos p + 1)) as [[]|?| |[] m e]; cbn [within]; try done.
  change (- 0) with 0. intros Hval [He [_ Hu]]. change 1000 with (1000 * 1) in Hu.
  rewrite <- sc_F1000, Z.mul_1_l in Hu.
  apply andb_true_intro. split; [done|]. apply sc_f64_le; [done | done | lia | done].
Qed.

Lemma to_pixel_contained p s q :
  size_ok s -> f64_valid (np_x p) = true -> f64_valid (np_y p) = true ->
  to_pixel p s = Some q -> size_contains s q = true /\ 0 <= px_x q /\ 0 <= px_y q.
Proof.
  intros [Hw Hh] Vx Vy. unfold is_u32, to_pixel in *.
  destruct (f64_in_range F0 F1000 (np_x p)) eqn:Rx, (f64_in_range F0 F1000 (np_y p)) eqn:Ry;
    rewrite ?orb_true_r; simpl negb; rewrite ?orb_true_r; simpl orb; try done.
  destruct (_ || _) eqn:E; [done|]. intros [= <-]. zbool. unfold size_contains; simpl.
  pose proof (to_pixel_axis_bounds _ (ps_width s) Vx Rx ltac:(lia)).
  pose proof (to_pixel_axis_bounds _ (ps_height s) Vy Ry ltac:(lia)).
  zbool. lia.
Qed.

(** ** Main theorems *)

(** On every well-formed image and every pair of binary64 coordinates,
    [to_pixel] succeeds exactly when both coordinates lie in 0..1000 and the
    image is not empty, and then the pixel it returns addresses the image:
    the rounding of the scaled coordinate never reaches [length]. *)
Theorem to_pixel_addresses_image p s :
  size_ok s -> f64_valid (np_x p) = true -> f64_valid (np_y p) = true ->
  (is_Some (to_pixel p s) <->
     f64_in_range F0 F1000 (np_x p) = true /\ f64_in_range F0 F1000 (np_y p) = true /\
     0 < ps_width s /\ 0 < ps_height s) /\
  (forall q, to_pixel p s = Some q ->
     size_contains s q = true /\ 0 <= px_x q /\ 0 <= px_y q).
Proof.
  intros [Hw Hh] Vx Vy. split; [|intros q; by apply to_pixel_contained].
  unfold is_u32, to_pixel in *.
  destruct (f64_in_range F0 F1000 (np_x p)) eqn:Rx, (f64_in_range F0 F1000 (np_y p)) eqn:Ry;
    rewrite ?orb_true_r; simpl negb; rewrite ?orb_true_r; simpl orb;
    try (split; [by intros [? ?] | naive_solver]).
  rewrite (in_range_finite _ Rx), (in_range_finite _ Ry). simpl.
  destruct (Z.eqb_spec (ps_width s) 0), (Z.eqb_spec (ps_height s) 0); simpl;
    try (split; [by intros [? ?] | lia]).
  split; [intros _; repeat split; lia | by eexists].
Qed.

Lemma to_pixel_addresses_image_witness :
  size_contains {| ps_width := 3840; ps_height := 2160 |} {| px_x := 3839; px_y := 720 |} = true.
Proof.
  eapply (proj1 (proj2 (to_pixel_addresses_image
    {| np_x := F1000; np_y := f64_div F1000 (f64_of_Z 3) |} {| ps_width := 3840; ps_height := 2160 |}
    ltac:(unfold size_ok, is_u32, U32_MAX; simpl; lia) ltac:(reflexivity) ltac:(reflexivity)) _ _)).
  Unshelve. vm_compute. reflexivity.
Defined.


(** A pixel of the image comes back from its normalized point. *)
Lemma from_pixel_back p s :
  size_ok s -> 0 <= px_x p -> 0 <= px_y p -> size_contains s p = true ->
  exists n, from_pixel p s = Some n /\ to_pixel n s = Some p.
Proof.
  intros [Hw Hh] Hx Hy Hc. unfold is_u32, from_pixel in *. rewrite Hc. eexists. split; [done|].
  unfold size_contains in Hc. zbool.
  destruct (axis_roundtrip (px_x p) (ps_width s)) as [Rx Ex]; [lia..|].
  destruct (axis_roundtrip (px_y p) (ps_height s)) as [Ry Ey]; [lia..|].
  unfold to_pixel. cbn [np_x np_y]. rewrite (in_range_finite _ Rx), (in_range_finite _ Ry), Rx, Ry, Ex, Ey.
  simpl. destruct (Z.eqb_spec (ps_width s) 0), (Z.eqb_spec (ps_height s) 0); [lia..|]. by destruct p.
Qed.

(** Every pixel of an image, of any [u32] size, survives the round trip
    through normalized coordinates: [from_pixel] succeeds on exactly the
    pixels of the image, and [to_pixel] maps the normalized point back to the
    same pixel in spite of the three binary64 roundings of each direction. *)
Theorem pixel_roundtrip p s :
  size_ok s -> 0 <= px_x p -> 0 <= px_y p ->
  (size_contains s p = true <-> is_Some (from_pixel p s)) /\
  (forall n, from_pixel p s = Some n -> to_pixel n s = Some p).
Proof.
  intros Hs Hx Hy. destruct (size_contains s p) eqn:Hc.
  - destruct (from_pixel_back p s Hs Hx Hy Hc) as (n & -> & Hn). split; [by split; eauto | by intros ? [= <-]].
  - unfold from_pixel. rewrite Hc. split; [split; [done | by intros [? ?]] | done].
Qed.

Lemma pixel_roundtrip_witness :
  exists n, from_pixel {| px_x := 1919; px_y := 7 |} {| ps_width := 4294967295; ps_height := 8 |} = Some n /\
    to_pixel n {| ps_width := 4294967295; ps_height := 8 |} = Some {| px_x := 1919; px_y := 7 |}.
Proof.
  destruct (pixel_roundtrip {| px_x := 1919; px_y := 7 |} {| ps_width := 4294967295; ps_height := 8 |}
    ltac:(unfold size_ok, is_u32, U32_MAX; simpl; lia) ltac:(simpl; lia) ltac:(simpl; lia)) as [H1 H2].
  destruct (proj1 H1 eq_refl) as [n Hn]. exists n. split; [done | by apply H2].
Defined.

(** [div_ceil] is the ceiling of the quotient. *)
Lemma div_ceil_bounds a b : 0 <= a -> 0 < b ->
  a <= div_ceil a b * b < a + b.
Proof.
  intros Ha Hb. unfold div_ceil.
  pose proof (Z.mul_div_le (a + b - 1) b Hb). pose proof (Z.mul_succ_div_gt (a + b - 1) b Hb). lia.
Qed.

(** The image budget.  [fit_long_edge] fails exactly on an empty image or
    a zero budget; otherwise the longer edge of the result is the smaller of
    the budget and the original longer edge, nothing is upscaled, a size that
    already fits is kept, and each edge of a shrunk image is the exact ceiling
    of the proportional value (so the aspect ratio is kept to one pixel). *)
Theorem fit_long_edge_spec s edge :
  size_ok s -> is_u32 edge ->
  let longest := Z.max (ps_width s) (ps_height s) in
  match fit_long_edge s edge with
  | None => ps_width s = 0 \/ ps_height s = 0 \/ edge = 0
  | Some t =>
      0 < ps_width s /\ 0 < ps_height s /\ 0 < edge /\
      1 <= ps_width t <= ps_width s /\ 1 <= ps_height t <= ps_height s /\
      Z.max (ps_width t) (ps_height t) = Z.min edge longest /\
      (longest <= edge -> t = s) /\
      (edge < longest ->
         ps_width s * edge <= ps_width t * longest < ps_width s * edge + longest /\
         ps_height s * edge <= ps_height t * longest < ps_height s * edge + longest)
  end.
Proof.
  intros [Hw Hh] He longest. unfold is_u32, fit_long_edge in *.
  destruct (Z.eqb_spec (ps_width s) 0), (Z.eqb_spec (ps_height s) 0), (Z.eqb_spec edge 0);
    simpl; try lia. fold longest.
  destruct (Z.leb_spec longest edge); [repeat split; lia|].
  pose proof (div_ceil_bounds (ps_width s * edge) longest ltac:(nia) ltac:(lia)) as W.
  pose proof (div_ceil_bounds (ps_height s * edge) longest ltac:(nia) ltac:(lia)) as H1.
  unfold fit_scale, u32_try_from.
  set (w := div_ceil (ps_width s * edge) longest) in *.
  set (h := div_ceil (ps_height s * edge) longest) in *.
  assert (1 <= w <= ps_width s) by nia. assert (1 <= h <= ps_height s) by nia.
  assert (w <= edge) by nia. assert (h <= edge) by nia.
  assert (ps_width s = longest \/ ps_height s = longest) as Hmax by lia.
  assert (w = edge \/ h = edge) by (destruct Hmax as [E|E]; rewrite E in *; [left | right]; nia).
  destruct (Z.leb_spec w U32_MAX), (Z.leb_spec h U32_MAX); try lia. simpl.
  rewrite !Z.max_l by lia. repeat split; lia.
Qed.

Lemma fit_long_edge_spec_witness :
  match fit_long_edge {| ps_width := 3840; ps_height := 2160 |} 1568 with
  | Some t => Z.max (ps_width t) (ps_height t) = 1568
  | None => False
  end.
Proof.
  generalize (fit_long_edge_spec {| ps_width := 3840; ps_height := 2160 |} 1568
    ltac:(unfold size_ok, is_u32, U32_MAX; simpl; lia) ltac:(unfold is_u32, U32_MAX; lia)).
  destruct (fit_long_edge _ _) as [t|] eqn:E; simpl; [|intros; lia].
  intros (_ & _ & _ & _ & _ & H & _). exact H.
Defined.
