(* ===== verification/Text.v ===== *)
(** Rust's [str]: UTF-8 byte strings with the character-level operations the
    runtime and the host use ([trim], [chars().any(char::is_control)],
    [to_ascii_lowercase], [contains('\0')], [u8::is_ascii_punctuation]).

    A [string] holds the UTF-8 bytes; [chars] groups them into the encoded
    characters, a continuation byte belonging to the lead byte before it. *)

From S2P Require Import Prelude.
From Stdlib Require Import Ascii String.

Definition byte_of (c : ascii) : Z := Z.of_N (N_of_ascii c).

Definition is_continuation (c : ascii) : bool := (128 <=? byte_of c) && (byte_of c <? 192).

(** The pending continuation bytes at the front, and the characters after. *)
Fixpoint char_groups (s : string) : string * list string :=
  match s with
  | EmptyString => (EmptyString, [])
  | String c rest =>
      let '(pending, cs) := char_groups rest in
      if is_continuation c then (String c pending, cs) else (EmptyString, String c pending :: cs)
  end.

(** [str::chars], each character by its UTF-8 encoding. *)
Definition chars (s : string) : list string :=
  let '(pending, cs) := char_groups s in
  match pending with EmptyString => cs | _ => pending :: cs end.

(** The code point of one encoded character. *)
Definition code_point (c : string) : Z :=
  let low b := Z.land (byte_of b) 63 in
  match c with
  | String a EmptyString => byte_of a
  | String a (String b EmptyString) => Z.land (byte_of a) 31 * 64 + low b
  | String a (String b (String d EmptyString)) => Z.land (byte_of a) 15 * 4096 + low b * 64 + low d
  | String a (String b (String d (String e EmptyString))) =>
      Z.land (byte_of a) 7 * 262144 + low b * 4096 + low d * 64 + low e
  | _ => 65533
  end.

(** [char::is_whitespace]: the Unicode property White_Space. *)
Definition is_whitespace (c : string) : bool :=
  let p := code_point c in
  ((9 <=? p) && (p <=? 13)) || (p =? 32) || (p =? 133) || (p =? 160) || (p =? 5760)
  || ((8192 <=? p) && (p <=? 8202)) || (p =? 8232) || (p =? 8233) || (p =? 8239)
  || (p =? 8287) || (p =? 12288).

(** [char::is_control]: the Unicode category Cc. *)
Definition is_control (c : string) : bool :=
  let p := code_point c in ((0 <=? p) && (p <=? 31)) || ((127 <=? p) && (p <=? 159)).

Fixpoint skip_while (f : string -> bool) (l : list string) : list string :=
  match l with
  | [] => []
  | c :: l' => if f c then skip_while f l' else l
  end.

(** [str::trim]. *)
Definition trim (s : string) : string :=
  String.concat "" (rev (skip_while is_whitespace (rev (skip_while is_whitespace (chars s))))).

Definition is_blank (s : string) : bool := str_eqb (trim s) "".

(** [s == s.trim()]. *)
Definition is_trimmed (s : string) : bool := str_eqb s (trim s).

Fixpoint bytes_any (f : Z -> bool) (s : string) : bool :=
  match s with
  | EmptyString => false
  | String c rest => f (byte_of c) || bytes_any f rest
  end.

(** [contains('\0')]. *)
Definition contains_nul (s : string) : bool := bytes_any (Z.eqb 0) s.

Definition has_control (s : string) : bool := existsb is_control (chars s).

Definition ascii_lower (c : ascii) : ascii :=
  if (65 <=? byte_of c) && (byte_of c <=? 90) then ascii_of_N (Z.to_N (byte_of c + 32)) else c.

(** [str::to_ascii_lowercase]. *)
Fixpoint to_ascii_lowercase (s : string) : string :=
  match s with
  | EmptyString => EmptyString
  | String c rest => String (ascii_lower c) (to_ascii_lowercase rest)
  end.

(** [u8::is_ascii_punctuation]. *)
Definition is_ascii_punctuation (b : Z) : bool :=
  ((33 <=? b) && (b <=? 47)) || ((58 <=? b) && (b <=? 64))
  || ((91 <=? b) && (b <=? 96)) || ((123 <=? b) && (b <=? 126)).

(** [key.len() == 1 && key.as_bytes()[0].is_ascii_punctuation()]. *)
Definition is_punctuation_key (key : string) : bool :=
  match key with
  | String c EmptyString => is_ascii_punctuation (byte_of c)
  | _ => false
  end.

(** [bytes().all(f)]. *)
Fixpoint bytes_all (f : Z -> bool) (s : string) : bool :=
  match s with
  | EmptyString => true
  | String c rest => f (byte_of c) && bytes_all f rest
  end.

Definition is_ascii_lowercase (b : Z) : bool := (97 <=? b) && (b <=? 122).
Definition is_ascii_uppercase (b : Z) : bool := (65 <=? b) && (b <=? 90).
Definition is_ascii_digit (b : Z) : bool := (48 <=? b) && (b <=? 57).
Definition is_ascii_alphanumeric (b : Z) : bool :=
  is_ascii_digit b || is_ascii_uppercase b || is_ascii_lowercase b.

(** [starts_with(c)] and [ends_with(c)] of an ASCII character. *)
Definition starts_with_char (c : ascii) (s : string) : bool :=
  match s with
  | String x _ => (x =? c)%char
  | EmptyString => false
  end.

Fixpoint ends_with_char (c : ascii) (s : string) : bool :=
  match s with
  | EmptyString => false
  | String x EmptyString => (x =? c)%char
  | String _ rest => ends_with_char c rest
  end.

(** [split(c)]: the pieces between the occurrences of an ASCII character. *)
Fixpoint split_char (c : ascii) (s : string) : list string :=
  match s with
  | EmptyString => [EmptyString]
  | String x rest =>
      if (x =? c)%char then EmptyString :: split_char c rest
      else match split_char c rest with
           | piece :: pieces => String x piece :: pieces
           | [] => [String x EmptyString]
           end
  end.

(** [strip_prefix] and [starts_with] of a string. *)
Fixpoint strip_prefix (p s : string) : option string :=
  match p, s with
  | EmptyString, _ => Some s
  | String a p', String b s' => if (a =? b)%char then strip_prefix p' s' else None
  | String _ _, EmptyString => None
  end.

Definition starts_with (p s : string) : bool :=
  match strip_prefix p s with Some _ => true | None => false end.

(** [str::split_once]: at the first occurrence. *)
Fixpoint split_once (sep s : string) : option (string * string) :=
  match Text.strip_prefix sep s with
  | Some rest => Some (EmptyString, rest)
  | None =>
      match s with
      | EmptyString => None
      | String c s' => (fun p => (String c p.1, p.2)) <$> split_once sep s'
      end
  end.

(** [contains] of a string. *)
Fixpoint contains_str (p s : string) : bool :=
  starts_with p s || match s with EmptyString => false | String _ rest => contains_str p rest end.

(** * Lemmas *)

Lemma bytes_all_app f a b : bytes_all f (a +:+ b) = bytes_all f a && bytes_all f b.
Proof. induction a as [|c a IH]; simpl; [done|]. by rewrite IH, andb_assoc. Qed.

Lemma bytes_all_impl f g s :
  (forall b, f b = true -> g b = true) -> bytes_all f s = true -> bytes_all g s = true.
Proof. intros H. induction s as [|c s IH]; simpl; [done|]. rewrite !andb_true_iff. intros []. auto. Qed.

Lemma strip_prefix_Some p s rest : strip_prefix p s = Some rest <-> s = p +:+ rest.
Proof.
  revert s; induction p as [|a p IH]; intros s; simpl.
  { change (EmptyString +:+ rest) with rest. split; congruence. }
  change (String a p +:+ rest) with (String a (p +:+ rest)).
  destruct s as [|b s]; [by split|]. destruct (Ascii.eqb_spec a b) as [->|Hne].
  - rewrite IH. split; congruence.
  - split; congruence.
Qed.

Lemma split_char_nonempty c s : split_char c s <> [].
Proof. destruct s as [|x s]; simpl; [done|]. destruct (x =? c)%char; [done|]. by destruct (split_char c s). Qed.

(** The pieces of a string and the string determine each other. *)
Lemma split_char_concat c s : String.concat (String c EmptyString) (split_char c s) = s.
Proof.
  induction s as [|x s IH]; [done|]. cbn [split_char]. pose proof (split_char_nonempty c s) as Hne.
  destruct (Ascii.eqb_spec x c) as [->|]; (destruct (split_char c s) as [|p ps]; [done|]).
  - etrans; [|by rewrite <- IH]. done.
  - transitivity (String x (String.concat (String c EmptyString) (p :: ps))); [by destruct ps | by rewrite IH].
Qed.

Definition has_char (c : ascii) (s : string) : bool := bytes_any (Z.eqb (byte_of c)) s.

Lemma byte_of_inj a b : byte_of a = byte_of b -> a = b.
Proof.
  unfold byte_of. intros H%N2Z.inj. rewrite <- (ascii_N_embedding a), <- (ascii_N_embedding b). by rewrite H.
Qed.

Lemma split_char_none c s : has_char c s = false -> split_char c s = [s].
Proof.
  induction s as [|x s IH]; [done|]. unfold has_char in *. simpl. rewrite orb_false_iff. intros [Hx Hs].
  destruct (Ascii.eqb_spec x c) as [->|]; [by rewrite Z.eqb_refl in Hx|]. by rewrite IH.
Qed.

Lemma split_char_app c a s : has_char c a = false -> split_char c (a +:+ String c s) = a :: split_char c s.
Proof.
  induction a as [|x a IH]; simpl.
  - intros _. by rewrite Ascii.eqb_refl.
  - unfold has_char in *. simpl. rewrite orb_false_iff. intros [Hx Hs].
    destruct (Ascii.eqb_spec x c) as [->|]; [by rewrite Z.eqb_refl in Hx|]. by rewrite IH.
Qed.

Lemma concat_split_char c ls :
  ls <> [] -> Forall (fun l => has_char c l = false) ls ->
  split_char c (String.concat (String c EmptyString) ls) = ls.
Proof.
  induction ls as [|l ls IH]; [done|]. intros _ [Hl Hls]%Forall_cons. destruct ls as [|l' ls].
  - simpl. by apply split_char_none.
  - change (String.concat _ (l :: l' :: ls)) with
      (l +:+ String c (String.concat (String c EmptyString) (l' :: ls))).
    rewrite split_char_app by done. by rewrite IH.
Qed.

Lemma slen_nonneg s : 0 <= slen s.
Proof. unfold slen. lia. Qed.

Lemma string_app_nil (a : string) : a +:+ "" = a.
Proof. induction a as [|x a IH]; [done|]. change (String x (a +:+ "") = String x a). by rewrite IH. Qed.

Lemma string_app_assoc (a b c : string) : (a +:+ b) +:+ c = a +:+ (b +:+ c).
Proof. induction a as [|x a IH]; [done|]. change (String x ((a +:+ b) +:+ c) = String x (a +:+ (b +:+ c))). by rewrite IH. Qed.

Lemma slen_app a b : slen (a +:+ b) = slen a + slen b.
Proof.
  unfold slen. induction a as [|c a IH]; [done|].
  change (String c a +:+ b) with (String c (a +:+ b)). simpl String.length. lia.
Qed.

Lemma slen_positive s : str_eqb s "" = false <-> 1 <= slen s.
Proof.
  rewrite str_eqb_neq. destruct s as [|c s]; unfold slen; simpl; [split; [done | lia]|]. split; [lia | done].
Qed.

Lemma existsb_false_Forall {A} (f : A -> bool) l : existsb f l = false <-> Forall (fun x => f x = false) l.
Proof.
  induction l as [|x l IH]; simpl; [by split|]. by rewrite orb_false_iff, Forall_cons, IH.
Qed.

Lemma concat_cons sep l l' ls :
  String.concat sep (l :: l' :: ls) = (l +:+ sep +:+ String.concat sep (l' :: ls))%string.
Proof. done. Qed.

Lemma starts_with_app c a b : 1 <= slen a -> starts_with_char c (a +:+ b) = starts_with_char c a.
Proof. by destruct a; unfold slen; simpl; [lia|]. Qed.

Lemma ends_with_app c a b : 1 <= slen b -> ends_with_char c (a +:+ b) = ends_with_char c b.
Proof.
  intros Hb. induction a as [|x a IH]; [done|]. change (String x a +:+ b) with (String x (a +:+ b)). simpl. rewrite IH.
  destruct a, b; unfold slen in *; simpl in *; try lia; done.
Qed.

Example split_host : split_char "." "a.bc." = ["a"; "bc"; ""]%string.
Proof. reflexivity. Qed.

Example trim_ascii : trim "  a b " = "a b"%string.
Proof. reflexivity. Qed.

(** U+3000 (E3 80 80) and U+00A0 (C2 A0) are white space, U+00E9 is not. *)
Example trim_unicode :
  let ideographic := String "227" (String "128" (String "128" "")) in
  let nbsp := String "194" (String "160" "") in
  let eacute := String "195" (String "169" "") in
  trim (ideographic +:+ eacute +:+ nbsp) = eacute.
Proof. reflexivity. Qed.

Example lower_mixed : to_ascii_lowercase "CtRl" = "ctrl"%string.
Proof. reflexivity. Qed.
