(* ===== verification/Protocol.v ===== *)
(** The wire types of the protocol crate: [src/crates/protocol/src/].

    One inductive type per enum and one record per struct that the runtime,
    the transport and the host act on, with the pure functions the crate
    defines on them ([Action::kind], [Action::requires_foreground],
    [canonical_key], [ActionEffectStatus::is_supported_by],
    [CuaError::with_mutation_status]).  Opaque identifiers are strings. *)

From S2P Require Import Prelude Floats Geometry.

(** * Identifiers ([identifiers.rs]) *)

Abbreviation RequestId := string (only parsing).
Abbreviation SessionId := string (only parsing).
Abbreviation AppRef := string (only parsing).
Abbreviation DiscoveryRef := string (only parsing).
Abbreviation LaunchRef := string (only parsing).
Abbreviation WindowRef := string (only parsing).
Abbreviation DisplayRef := string (only parsing).
Abbreviation ClipboardRef := string (only parsing).
Abbreviation ObservationId := string (only parsing).
Abbreviation ElementRef := string (only parsing).
Abbreviation ArtifactRef := string (only parsing).
Abbreviation SensitiveText := string (only parsing).
Abbreviation AuthorizationToken := string (only parsing).

(** * Errors ([error.rs]) *)

Inductive ErrorCode :=
| UserActive | ProtocolMismatch | Unauthorized | InvalidRequest | Busy | DeadlineExceeded
| SessionUnavailable | StaleDiscovery | CapabilityDenied | ReferenceNotFound | StaleObservation
| StaleClipboard | PermissionRequired | Unsupported | ForegroundRequired | TargetUnavailable
| TargetUnresponsive | DriverFailure | Internal.

#[export] Instance ErrorCode_eq_dec : EqDecision ErrorCode.
Proof. solve_decision. Defined.

Inductive MutationStatus := NotApplicable | NotDispatched | Indeterminate.

#[export] Instance MutationStatus_eq_dec : EqDecision MutationStatus.
Proof. solve_decision. Defined.

Record CuaError := {
  code : ErrorCode;
  message : string;
  retryable : bool;
  recovery_action : option string;
  mutation_status : MutationStatus;
}.

Definition with_mutation_status (e : CuaError) (status : MutationStatus) : CuaError :=
  {| e with mutation_status := status |}.

(** * Actions ([action.rs]) *)

Definition canonical_key (key : string) : string :=
  if str_eqb key "cmd" then "command"
  else if str_eqb key "ctrl" then "control"
  else if str_eqb key "opt" then "option"
  else if str_eqb key "esc" then "escape"
  else if str_eqb key "return" then "enter"
  else if str_eqb key "pageup" then "page_up"
  else if str_eqb key "pagedown" then "page_down"
  else key.

Inductive ActionKind :=
| KFocusWindow | KSetWindowBounds | KSetWindowMinimized | KTerminateApplication | KFocusElement
| KInvokeElement | KClickPoint | KPressPoint | KSetValue | KSetRangeValue | KToggleElement
| KSelectElement | KSetExpanded | KMovePointer | KTypeText | KPressKeys | KScroll | KDrag.

#[export] Instance ActionKind_eq_dec : EqDecision ActionKind.
Proof. solve_decision. Defined.

(** The position of a kind in its enum, for the hash set of kinds. *)
Definition kind_index (k : ActionKind) : nat :=
  match k with
  | KFocusWindow => 0 | KSetWindowBounds => 1 | KSetWindowMinimized => 2
  | KTerminateApplication => 3 | KFocusElement => 4 | KInvokeElement => 5 | KClickPoint => 6
  | KPressPoint => 7 | KSetValue => 8 | KSetRangeValue => 9 | KToggleElement => 10
  | KSelectElement => 11 | KSetExpanded => 12 | KMovePointer => 13 | KTypeText => 14
  | KPressKeys => 15 | KScroll => 16 | KDrag => 17
  end%nat.

Definition all_kinds : list ActionKind :=
  [KFocusWindow; KSetWindowBounds; KSetWindowMinimized; KTerminateApplication; KFocusElement;
   KInvokeElement; KClickPoint; KPressPoint; KSetValue; KSetRangeValue; KToggleElement;
   KSelectElement; KSetExpanded; KMovePointer; KTypeText; KPressKeys; KScroll; KDrag].

#[export] Program Instance ActionKind_countable : Countable ActionKind :=
  inj_countable kind_index (fun n => all_kinds !! n) _.
Next Obligation. by intros []. Qed.

Inductive PointerButton := Left | Middle | Right.

Inductive DeliveryPreference := Prefer_Background | Prefer_Foreground.

(** [u8] and [u32] fields are [Z]. *)
Inductive Action :=
| FocusWindow
| SetWindowBounds (bounds : ScreenRect)
| SetWindowMinimized (minimized : bool)
| TerminateApplication
| FocusElement (element_ref : ElementRef)
| InvokeElement (element_ref : ElementRef)
| ClickPoint (point : NormalizedPoint) (button : PointerButton) (count : Z) (delivery : DeliveryPreference)
| PressPoint (point : NormalizedPoint) (button : PointerButton) (duration_ms : Z)
| SetValue (element_ref : ElementRef) (value : SensitiveText)
| SetRangeValue (element_ref : ElementRef) (value : f64)
| ToggleElement (element_ref : ElementRef)
| SelectElement (element_ref : ElementRef)
| SetExpanded (element_ref : ElementRef) (expanded : bool)
| MovePointer (point : NormalizedPoint) (duration_ms : Z)
| TypeText (text : SensitiveText)
| PressKeys (keys : list string)
| Scroll (point : NormalizedPoint) (delta_x delta_y : f64)
| Drag (from to : NormalizedPoint) (duration_ms : Z).

Definition action_kind (a : Action) : ActionKind :=
  match a with
  | FocusWindow => KFocusWindow
  | SetWindowBounds _ => KSetWindowBounds
  | SetWindowMinimized _ => KSetWindowMinimized
  | TerminateApplication => KTerminateApplication
  | FocusElement _ => KFocusElement
  | InvokeElement _ => KInvokeElement
  | ClickPoint _ _ _ _ => KClickPoint
  | PressPoint _ _ _ => KPressPoint
  | SetValue _ _ => KSetValue
  | SetRangeValue _ _ => KSetRangeValue
  | ToggleElement _ => KToggleElement
  | SelectElement _ => KSelectElement
  | SetExpanded _ _ => KSetExpanded
  | MovePointer _ _ => KMovePointer
  | TypeText _ => KTypeText
  | PressKeys _ => KPressKeys
  | Scroll _ _ _ => KScroll
  | Drag _ _ _ => KDrag
  end.

Definition requires_foreground (a : Action) : bool :=
  match a with
  | FocusWindow
  | MovePointer _ _
  | ClickPoint _ _ _ Prefer_Foreground
  | PressPoint _ _ _
  | TypeText _
  | PressKeys _
  | Scroll _ _ _
  | Drag _ _ _ => true
  | _ => false
  end.

Inductive ElementState := Enabled | Focused | Selected | Checked | Expanded.

Inductive StatePredicate :=
| WindowTitleContains (text : string)
| ElementExists (role name : option string)
| ElementStateIs (role name : option string) (state : ElementState) (value : bool)
| BoundsContained (inner outer : ScreenRect).

Inductive DeliveryMode := Semantic | System | Background | Foreground.

#[export] Instance DeliveryMode_eq_dec : EqDecision DeliveryMode.
Proof. solve_decision. Defined.

Inductive ActionEffectStatus := Confirmed | Unverified.

#[export] Instance ActionEffectStatus_eq_dec : EqDecision ActionEffectStatus.
Proof. solve_decision. Defined.

Inductive ActionEvidenceKind := NativeReadback | DispatchAcceptance.

#[export] Instance ActionEvidenceKind_eq_dec : EqDecision ActionEvidenceKind.
Proof. solve_decision. Defined.

(** [ActionEffectStatus::is_supported_by]. *)
Definition is_supported_by (status : ActionEffectStatus) (evidence : ActionEvidenceKind) : bool :=
  match status, evidence with
  | Confirmed, NativeReadback => true
  | Unverified, DispatchAcceptance => true
  | _, _ => false
  end.

Inductive ForegroundRestorationStatus :=
| NotRequested | NotNeeded | Restored | SkippedOwnerChanged | RestorationTargetUnavailable
| RestorationFailed.

#[export] Instance ForegroundRestorationStatus_eq_dec : EqDecision ForegroundRestorationStatus.
Proof. solve_decision. Defined.

(** * Driver capabilities ([capability.rs], [clipboard.rs]) *)

Inductive Platform := Macos | Windows | UnsupportedPlatform.

Inductive CaptureMode := CaptureApplicationScene | CaptureWindow | CaptureDisplay.

#[export] Instance CaptureMode_eq_dec : EqDecision CaptureMode.
Proof. solve_decision. Defined.

Inductive InputRoute := RouteSemantic | RouteSystem | RouteBackground | RouteForeground.

Inductive ApplicationLifecycleOperation := Launch.

#[export] Instance ApplicationLifecycleOperation_eq_dec : EqDecision ApplicationLifecycleOperation.
Proof. solve_decision. Defined.

Inductive ClipboardOperation := ReadText | WriteText.

#[export] Instance ClipboardOperation_eq_dec : EqDecision ClipboardOperation.
Proof. solve_decision. Defined.

Inductive PermissionState :=
| Granted | PermissionDenied | NotDetermined | PermissionNotApplicable | PermissionUnknown.

#[export] Instance PermissionState_eq_dec : EqDecision PermissionState.
Proof. solve_decision. Defined.

Record PermissionStatus := {
  screen_capture : PermissionState;
  accessibility : PermissionState;
  input_control : PermissionState;
}.

Record ActionLimits := {
  max_session_ttl_seconds : Z;
  max_text_bytes : Z;
  max_keys : Z;
  max_scroll_delta : Z;
  max_pointer_duration_ms : Z;
  max_window_coordinate : Z;
  max_window_dimension : Z;
  max_range_value : Z;
  max_click_count : Z;
}.

(** [ActionLimits::DEFAULT]. *)
Definition DEFAULT_LIMITS : ActionLimits := {|
  max_session_ttl_seconds := 3600;
  max_text_bytes := 65536;
  max_keys := 8;
  max_scroll_delta := 100000;
  max_pointer_duration_ms := 10000;
  max_window_coordinate := 1000000;
  max_window_dimension := 100000;
  max_range_value := 1000000000000;
  max_click_count := 3;
|}.

Record DriverCapabilities := {
  observe_after_supported : bool;
  action_limits : ActionLimits;
  cap_protocol_version : string;
  runtime_version : string;
  platform : Platform;
  primary_modifier : string;
  capture_modes : list CaptureMode;
  accessibility_tree : bool;
  input_routes : list InputRoute;
  application_lifecycle : list ApplicationLifecycleOperation;
  clipboard_operations : list ClipboardOperation;
  driver_actions : list ActionKind;
}.

(** * Sessions ([session.rs]) *)

Inductive PermissionMode := ReadOnly | Bounded.

#[export] Instance PermissionMode_eq_dec : EqDecision PermissionMode.
Proof. solve_decision. Defined.

Record CapabilityManifest := {
  mode : PermissionMode;
  application_refs : list DiscoveryRef;
  allowed_actions : list ActionKind;
  allow_foreground_input : bool;
  restore_foreground_after_input : bool;
  allow_display_capture : bool;
  allow_clipboard_read : bool;
  allow_clipboard_write : bool;
  ttl_seconds : Z;
}.

Record OpenSessionOutput := { os_session_id : SessionId; os_expires_at : string }.

(** * Discovery ([discovery.rs]) *)

Inductive SignatureStatus := SigVerified | SigInvalid | SigUnsigned | SigUnknown.

Inductive ApplicationProvenance :=
| ProvMacos (bundle_id executable_path signing_team_id designated_requirement : option string)
| ProvWindows (executable_path : string) (publisher : option string) (signature_status : SignatureStatus)
| ProvUnsupported (executable_path : option string).

#[export] Instance SignatureStatus_eq_dec : EqDecision SignatureStatus.
Proof. solve_decision. Defined.

#[export] Instance ApplicationProvenance_eq_dec : EqDecision ApplicationProvenance.
Proof. solve_decision. Defined.

Record DiscoveredApplication := {
  da_discovery_ref : DiscoveryRef;
  da_name : string;
  da_application_id : string;
  da_foreground : bool;
  da_provenance : ApplicationProvenance;
  da_expires_at : string;
}.

Record DiscoverApplicationsOutput := {
  dao_applications : list DiscoveredApplication;
  dao_complete : bool;
}.

Record LaunchableApplication := {
  la_launch_ref : LaunchRef;
  la_name : string;
  la_application_id : string;
  la_provenance : ApplicationProvenance;
  la_expires_at : string;
}.

Record DiscoverLaunchableApplicationsOutput := {
  dlo_applications : list LaunchableApplication;
  dlo_complete : bool;
}.

Record LaunchApplicationInput := {
  li_launch_ref : LaunchRef;
  li_allow_foreground_activation : bool;
}.

Record ApplicationLaunchOutput := {
  lo_application : DiscoveredApplication;
  lo_delivery_mode : DeliveryMode;
  lo_dispatched : bool;
}.

(** * Observations ([observation.rs]) *)

Record ApplicationSummary := {
  as_app_ref : AppRef;
  as_name : string;
  as_application_id : string;
  as_foreground : bool;
}.

Inductive WindowState := WNormal | WMinimized | WOffscreen | WUnknown.

Record WindowSummary := {
  ws_window_ref : WindowRef;
  ws_app_ref : AppRef;
  ws_title : string;
  ws_screen_bounds : ScreenRect;
  ws_state : WindowState;
  ws_visible : bool;
  ws_foreground : bool;
}.

Record ListWindowsInput := { lw_session_id : SessionId; lw_app_ref : option AppRef }.

Record DisplaySummary := {
  ds_display_ref : DisplayRef;
  ds_screen_bounds : ScreenRect;
  ds_primary : bool;
}.

Record ObserveDisplayInput := { od_session_id : SessionId; od_display_ref : DisplayRef }.

Inductive AccessibilityMode := AxDisabled | AxInteractive | AxFull.

#[export] Instance AccessibilityMode_eq_dec : EqDecision AccessibilityMode.
Proof. solve_decision. Defined.

Record ObserveWindowInput := {
  ow_session_id : SessionId;
  ow_window_ref : WindowRef;
  ow_include_screenshot : bool;
  ow_accessibility : AccessibilityMode;
}.

Record ScreenshotArtifact := {
  sa_artifact_ref : ArtifactRef;
  sa_path : string;
  sa_mime_type : string;
  sa_mapping : ScreenshotMapping;
  sa_byte_length : Z;
  sa_sha256 : string;
}.

Record AccessibilityRangeValue := {
  rv_value : f64;
  rv_minimum : f64;
  rv_maximum : f64;
  rv_small_change : option f64;
  rv_large_change : option f64;
  rv_read_only : bool;
}.

Record AccessibilityElement := {
  ae_element_ref : ElementRef;
  ae_parent_ref : option ElementRef;
  ae_role : string;
  ae_name : string;
  ae_value : option string;
  ae_range_value : option AccessibilityRangeValue;
  ae_screen_bounds : option ScreenRect;
  ae_enabled : bool;
  ae_focused : bool;
  ae_selected : option bool;
  ae_checked : option bool;
  ae_expanded : option bool;
  ae_actions : list string;
}.

Inductive TruncationReason := NodeLimit | DepthLimit | ByteLimit | Deadline | ProviderFailure.

Record ObservationTruncation := { ot_reason : TruncationReason; ot_emitted_elements : Z }.

Record WindowObservation := {
  wo_observation_id : ObservationId;
  wo_window_ref : WindowRef;
  wo_captured_at : string;
  wo_window_screen_bounds : ScreenRect;
  wo_screenshot : option ScreenshotArtifact;
  wo_elements : list AccessibilityElement;
  wo_elements_complete : bool;
  wo_elements_truncation : option ObservationTruncation;
}.

Record DisplayObservation := {
  do_observation_id : ObservationId;
  do_display_ref : DisplayRef;
  do_captured_at : string;
  do_display_screen_bounds : ScreenRect;
  do_screenshot : ScreenshotArtifact;
}.

(** * Clipboard ([clipboard.rs]) *)

Record ClipboardSnapshot := {
  cs_clipboard_ref : ClipboardRef;
  cs_text : option SensitiveText;
  cs_byte_length : Z;
}.

Record WriteClipboardInput := {
  wc_session_id : SessionId;
  wc_clipboard_ref : ClipboardRef;
  wc_text : SensitiveText;
}.

Record ClipboardWriteOutput := {
  cw_clipboard_ref : ClipboardRef;
  cw_delivery_mode : DeliveryMode;
  cw_dispatched : bool;
  cw_effect_status : ActionEffectStatus;
  cw_evidence_kind : ActionEvidenceKind;
}.

(** * Commands and envelopes ([command.rs]) *)

Record ObserveAfterOptions := {
  oa_include_screenshot : bool;
  oa_accessibility : AccessibilityMode;
  oa_application_scene : bool;
}.

Record PerformActionInput := {
  pa_observe_after : option ObserveAfterOptions;
  pa_session_id : SessionId;
  pa_window_ref : WindowRef;
  pa_observation_id : ObservationId;
  pa_action : Action;
}.

Record VerifyStateInput := {
  vs_session_id : SessionId;
  vs_window_ref : WindowRef;
  vs_predicate : StatePredicate;
}.

Record ReconcileMutationInput := { rm_request_id : RequestId; rm_wait_ms : Z }.

Inductive Command :=
| GetCapabilities
| GetPermissionStatus
| DiscoverApplications
| DiscoverLaunchableApplications
| LaunchApplication (input : LaunchApplicationInput)
| OpenSession (manifest : CapabilityManifest)
| CloseSession (session_id : SessionId)
| ListApps (session_id : SessionId)
| ListWindows (input : ListWindowsInput)
| ListDisplays (session_id : SessionId)
| ObserveWindow (input : ObserveWindowInput)
| ObserveApplicationScene (input : ObserveWindowInput)
| ObserveDisplay (input : ObserveDisplayInput)
| ReadClipboard (session_id : SessionId)
| WriteClipboard (input : WriteClipboardInput)
| PerformAction (input : PerformActionInput)
| ReconcileMutation (input : ReconcileMutationInput)
| VerifyState (input : VerifyStateInput).

Record RequestEnvelope := {
  re_protocol_version : string;
  re_request_id : RequestId;
  re_timeout_ms : Z;
  re_authorization : AuthorizationToken;
  re_command : Command;
}.

Record ActionOutput := {
  ao_observation : option WindowObservation;
  ao_observation_error : option CuaError;
  ao_delivery_mode : DeliveryMode;
  ao_dispatched : bool;
  ao_effect_status : ActionEffectStatus;
  ao_evidence_kind : ActionEvidenceKind;
  ao_foreground_restoration : ForegroundRestorationStatus;
  ao_observation_invalidated : bool;
}.

Record VerificationOutput := { vo_matched : bool; vo_evidence : string }.

Inductive MutationAdmission := AdmissionUnknown | MAdmitted.

Inductive MutationDisposition :=
| MDUnknown | MDNotMutation | MDPending | MDSucceeded | MDNotDispatched | MDIndeterminate.

Record MutationReconciliation := {
  mr_request_id : RequestId;
  mr_runtime_epoch : string;
  mr_worker_epoch : option string;
  mr_admission : MutationAdmission;
  mr_disposition : MutationDisposition;
  mr_dispatched : option bool;
  mr_effect_status : option ActionEffectStatus;
  mr_evidence_kind : option ActionEvidenceKind;
  mr_error_code : option ErrorCode;
  mr_fresh_observation_required : bool;
}.

Inductive CommandResult :=
| RCapabilities (c : DriverCapabilities)
| RPermissionStatus (s : PermissionStatus)
| RApplicationsDiscovered (o : DiscoverApplicationsOutput)
| RLaunchableApplicationsDiscovered (o : DiscoverLaunchableApplicationsOutput)
| RApplicationLaunched (o : ApplicationLaunchOutput)
| RSessionOpened (o : OpenSessionOutput)
| RAcknowledged
| RApps (l : list ApplicationSummary)
| RWindows (l : list WindowSummary)
| RDisplays (l : list DisplaySummary)
| RWindowObserved (o : WindowObservation)
| RDisplayObserved (o : DisplayObservation)
| RClipboardRead (s : ClipboardSnapshot)
| RClipboardWritten (o : ClipboardWriteOutput)
| RActionPerformed (o : ActionOutput)
| RMutationReconciled (r : MutationReconciliation)
| RStateVerified (o : VerificationOutput).

Inductive ResponseOutcome :=
| Success (result : CommandResult)
| Error (error : CuaError).

Record ResponseEnvelope := {
  rs_protocol_version : string;
  rs_request_id : RequestId;
  rs_outcome : ResponseOutcome;
}.

Definition PROTOCOL_VERSION : string := "nexus.cua.v1".
