(* ===== verification/Errors.v ===== *)
(** Errors of the runtime crate: [src/crates/runtime/src/error.rs].

    The driver's error type with its builders, its projection to the public
    error, and the constructor of public runtime errors. *)

From S2P Require Import Prelude Floats Geometry Protocol.

Inductive DriverErrorKind :=
| DUserActive | DSessionUnavailable | DBusy | DPermissionRequired | DUnsupported
| DTargetUnavailable | DTargetUnresponsive | DForegroundRequired | DStaleObservation
| DStaleClipboard | DPlatform.

#[export] Instance DriverErrorKind_eq_dec : EqDecision DriverErrorKind.
Proof. solve_decision. Defined.

Record DriverError := {
  de_kind : DriverErrorKind;
  de_message : string;
  de_retryable : bool;
  de_recovery_action : option string;
  de_mutation_status : MutationStatus;
}.

(** [DriverError::new]. *)
Definition driver_error (kind : DriverErrorKind) (message : string) : DriverError :=
  {| de_kind := kind; de_message := message; de_retryable := false;
     de_recovery_action := None; de_mutation_status := NotApplicable |}.

(** [DriverError::retryable]. *)
Definition de_with_retry (e : DriverError) (recovery : string) : DriverError :=
  {| e with de_retryable := true; de_recovery_action := Some recovery |}.

Definition mutation_not_dispatched (e : DriverError) : DriverError :=
  {| e with de_mutation_status := NotDispatched |}.

Definition mutation_indeterminate (e : DriverError) : DriverError :=
  {| e with de_mutation_status := Indeterminate |}.

Definition driver_error_code (k : DriverErrorKind) : ErrorCode :=
  match k with
  | DUserActive => UserActive
  | DSessionUnavailable => SessionUnavailable
  | DBusy => Busy
  | DPermissionRequired => PermissionRequired
  | DUnsupported => Unsupported
  | DTargetUnavailable => TargetUnavailable
  | DTargetUnresponsive => TargetUnresponsive
  | DForegroundRequired => ForegroundRequired
  | DStaleObservation => StaleObservation
  | DStaleClipboard => StaleClipboard
  | DPlatform => DriverFailure
  end.

(** [impl From<DriverError> for CuaError]. *)
Definition cua_error_from (e : DriverError) : CuaError :=
  {| code := driver_error_code (de_kind e);
     message := de_message e;
     retryable := de_retryable e;
     recovery_action := de_recovery_action e;
     mutation_status := de_mutation_status e |}.

Definition public_error (c : ErrorCode) (msg : string) (retry : bool) (recovery : option string) : CuaError :=
  {| code := c; message := msg; retryable := retry; recovery_action := recovery;
     mutation_status := NotApplicable |}.
