(* ===== verification/Policy.v ===== *)
(** Managed and user dispatch policy: [src/crates/runtime/src/policy.rs].

    Policy layers are validated when they are loaded and consulted before
    every command; both layers must authorize a command.  SHA-256, JSON and
    the file system are parameters ([PolicyEnv]).  The theorems show that the
    layers only narrow each other and deny wins, that every constraint a
    loaded rule carries is enforced on the actions it admits, and that a
    policy that admits an action also admits a session for its kind. *)

From S2P Require Import Prelude Floats Geometry Protocol Errors.

Definition POLICY_SCHEMA_VERSION : Z := 1.
Definition MAX_POLICY_BYTES : Z := 256 * 1024.
Definition MAX_POLICY_ENTRIES : Z := 128.

(** * Data *)

Inductive PolicyOperation :=
| PGetCapabilities | PGetPermissionStatus | PDiscoverApplications
| PDiscoverLaunchableApplications | PLaunchApplication | POpenSession | PCloseSession | PListApps
| PListWindows | PListDisplays | PObserveWindow | PObserveApplicationScene | PObserveDisplay
| PReadClipboard | PWriteClipboard | PPerformAction | PReconcileMutation | PVerifyState.

#[export] Instance PolicyOperation_eq_dec : EqDecision PolicyOperation.
Proof. solve_decision. Defined.

Definition all_operations : list PolicyOperation :=
  [PGetCapabilities; PGetPermissionStatus; PDiscoverApplications; PDiscoverLaunchableApplications;
   PLaunchApplication; POpenSession; PCloseSession; PListApps; PListWindows; PListDisplays;
   PObserveWindow; PObserveApplicationScene; PObserveDisplay; PReadClipboard; PWriteClipboard;
   PPerformAction; PReconcileMutation; PVerifyState].

Definition operation_index (o : PolicyOperation) : nat :=
  match o with
  | PGetCapabilities => 0 | PGetPermissionStatus => 1 | PDiscoverApplications => 2
  | PDiscoverLaunchableApplications => 3 | PLaunchApplication => 4 | POpenSession => 5
  | PCloseSession => 6 | PListApps => 7 | PListWindows => 8 | PListDisplays => 9
  | PObserveWindow => 10 | PObserveApplicationScene => 11 | PObserveDisplay => 12
  | PReadClipboard => 13 | PWriteClipboard => 14 | PPerformAction => 15
  | PReconcileMutation => 16 | PVerifyState => 17
  end%nat.

#[export] Program Instance PolicyOperation_countable : Countable PolicyOperation :=
  inj_countable operation_index (fun n => all_operations !! n) _.
Next Obligation. by intros []. Qed.

#[export] Instance DeliveryPreference_eq_dec : EqDecision DeliveryPreference.
Proof. solve_decision. Defined.

#[export] Program Instance DeliveryPreference_countable : Countable DeliveryPreference :=
  inj_countable (fun d => match d with Prefer_Background => true | Prefer_Foreground => false end)
    (fun b : bool => Some (if b then Prefer_Background else Prefer_Foreground)) _.
Next Obligation. by intros []. Qed.

(** [PolicyOperation::of]. *)
Definition operation_of (c : Command) : PolicyOperation :=
  match c with
  | GetCapabilities => PGetCapabilities
  | GetPermissionStatus => PGetPermissionStatus
  | DiscoverApplications => PDiscoverApplications
  | DiscoverLaunchableApplications => PDiscoverLaunchableApplications
  | LaunchApplication _ => PLaunchApplication
  | OpenSession _ => POpenSession
  | CloseSession _ => PCloseSession
  | ListApps _ => PListApps
  | ListWindows _ => PListWindows
  | ListDisplays _ => PListDisplays
  | ObserveWindow _ => PObserveWindow
  | ObserveApplicationScene _ => PObserveApplicationScene
  | ObserveDisplay _ => PObserveDisplay
  | ReadClipboard _ => PReadClipboard
  | WriteClipboard _ => PWriteClipboard
  | PerformAction _ => PPerformAction
  | ReconcileMutation _ => PReconcileMutation
  | VerifyState _ => PVerifyState
  end.

Record PolicyActionRule := {
  rule_action : ActionKind;
  rule_max_text_bytes : option Z;
  rule_max_keys : option Z;
  rule_max_click_count : option Z;
  rule_max_duration_ms : option Z;
  rule_max_abs_scroll_delta : option f64;
  rule_deliveries : list DeliveryPreference;
}.

Record PolicyAllow := {
  allow_operations : list PolicyOperation;
  allow_actions : list ActionKind;
  allow_action_rules : list PolicyActionRule;
}.

Record PolicyDeny := {
  deny_operations : list PolicyOperation;
  deny_actions : list ActionKind;
}.

Record RuntimePolicyLayer := {
  schema_version : Z;
  allow : PolicyAllow;
  deny : PolicyDeny;
}.

Record LoadedPolicy := { layer : RuntimePolicyLayer; sha256 : string }.

Record RuntimePolicyStack := { managed : option LoadedPolicy; user : option LoadedPolicy }.

Record RuntimePolicySummary := { managed_sha256 : option string; user_sha256 : option string }.

(** [PolicyLoadError]; I/O and JSON errors carry the library's message. *)
Inductive PolicyLoadError :=
| PolicyIo (path source : string)
| PolicyJson (source : string)
| PolicyInvalid (reason : string)
| PolicyUnsafeFile (reason : string).

(** * Rule validation and matching *)

Definition is_zero (o : option Z) : bool := match o with Some n => n =? 0 | None => false end.
Definition is_none {A} (o : option A) : bool := match o with None => true | Some _ => false end.
Definition is_nil {A} (l : list A) : bool := match l with [] => true | _ => false end.
Definition is_none_or {A} (o : option A) (f : A -> bool) : bool :=
  match o with None => true | Some a => f a end.

Definition fields_are_relevant (r : PolicyActionRule) : bool :=
  match rule_action r with
  | KClickPoint =>
      is_none (rule_max_text_bytes r) && is_none (rule_max_keys r)
      && is_none (rule_max_duration_ms r) && is_none (rule_max_abs_scroll_delta r)
  | KPressPoint | KMovePointer | KDrag =>
      is_none (rule_max_text_bytes r) && is_none (rule_max_keys r)
      && is_none (rule_max_click_count r) && is_none (rule_max_abs_scroll_delta r)
      && is_nil (rule_deliveries r)
  | KTypeText | KSetValue =>
      is_none (rule_max_keys r) && is_none (rule_max_click_count r)
      && is_none (rule_max_duration_ms r) && is_none (rule_max_abs_scroll_delta r)
      && is_nil (rule_deliveries r)
  | KPressKeys =>
      is_none (rule_max_text_bytes r) && is_none (rule_max_click_count r)
      && is_none (rule_max_duration_ms r) && is_none (rule_max_abs_scroll_delta r)
      && is_nil (rule_deliveries r)
  | KScroll =>
      is_none (rule_max_text_bytes r) && is_none (rule_max_keys r)
      && is_none (rule_max_click_count r) && is_none (rule_max_duration_ms r)
      && is_nil (rule_deliveries r)
  | _ =>
      is_none (rule_max_text_bytes r) && is_none (rule_max_keys r)
      && is_none (rule_max_click_count r) && is_none (rule_max_duration_ms r)
      && is_none (rule_max_abs_scroll_delta r) && is_nil (rule_deliveries r)
  end.

(** [PolicyActionRule::validate]. *)
Definition rule_validate (r : PolicyActionRule) : Result unit PolicyLoadError :=
  ensure_not
    (is_zero (rule_max_text_bytes r) || is_zero (rule_max_keys r)
     || is_zero (rule_max_click_count r) || is_zero (rule_max_duration_ms r)
     || match rule_max_abs_scroll_delta r with
        | Some v => negb (is_finite v) || f64_le v F0
        | None => false
        end)
    (PolicyInvalid "action-rule bounds must be finite and non-zero") ;?
  ensure_not (negb (all_unique (rule_deliveries r)))
    (PolicyInvalid "action rule contains duplicate delivery values") ;?
  ensure_not (negb (fields_are_relevant r))
    (PolicyInvalid "action rule contains a constraint that does not apply to its action") ;?
  Ok tt.

(** [PolicyActionRule::matches]. *)
Definition rule_matches (r : PolicyActionRule) (a : Action) : bool :=
  if bool_decide (action_kind a <> rule_action r) then false
  else
    match a with
    | ClickPoint _ _ count delivery =>
        is_none_or (rule_max_click_count r) (fun maximum => count <=? maximum)
        && (is_nil (rule_deliveries r) || bool_decide (delivery ∈ rule_deliveries r))
    | PressPoint _ _ duration_ms | MovePointer _ duration_ms | Drag _ _ duration_ms =>
        is_none_or (rule_max_duration_ms r) (fun maximum => duration_ms <=? maximum)
    | TypeText text =>
        is_none_or (rule_max_text_bytes r) (fun maximum => slen text <=? maximum)
    | SetValue _ value =>
        is_none_or (rule_max_text_bytes r) (fun maximum => slen value <=? maximum)
    | PressKeys keys => is_none_or (rule_max_keys r) (fun maximum => zlen keys <=? maximum)
    | Scroll _ delta_x delta_y =>
        is_none_or (rule_max_abs_scroll_delta r)
          (fun maximum => f64_le (f64_abs delta_x) maximum && f64_le (f64_abs delta_y) maximum)
    | _ => true
    end.

(** * Layers *)

Definition require_unique {A} `{Countable A} (values : list A) (label : string) : Result unit PolicyLoadError :=
  if all_unique values then Ok tt
  else Err (PolicyInvalid ("policy contains duplicate " +:+ label)).

(** [RuntimePolicyLayer::validate]. *)
Definition layer_validate (l : RuntimePolicyLayer) : Result unit PolicyLoadError :=
  ensure_not (negb (schema_version l =? POLICY_SCHEMA_VERSION))
    (PolicyInvalid "unsupported policy schema_version") ;?
  let total := zlen (allow_operations (allow l)) + zlen (allow_actions (allow l))
               + zlen (allow_action_rules (allow l)) + zlen (deny_operations (deny l))
               + zlen (deny_actions (deny l)) in
  ensure_not (MAX_POLICY_ENTRIES <? total) (PolicyInvalid "policy contains more than 128 entries") ;?
  require_unique (allow_operations (allow l)) "allow operations" ;?
  require_unique (allow_actions (allow l)) "allow actions" ;?
  require_unique (deny_operations (deny l)) "deny operations" ;?
  require_unique (deny_actions (deny l)) "deny actions" ;?
  rtraverse rule_validate (allow_action_rules (allow l)) ;?
  Ok tt.

Definition authorizes_operation (l : RuntimePolicyLayer) (o : PolicyOperation) : bool :=
  negb (bool_decide (o ∈ deny_operations (deny l))) && bool_decide (o ∈ allow_operations (allow l)).

Definition authorizes_action_kind (l : RuntimePolicyLayer) (k : ActionKind) : bool :=
  negb (bool_decide (k ∈ deny_actions (deny l)))
  && (bool_decide (k ∈ allow_actions (allow l))
      || existsb (fun r => bool_decide (rule_action r = k)) (allow_action_rules (allow l))).

Definition authorizes_action (l : RuntimePolicyLayer) (a : Action) : bool :=
  let kind := action_kind a in
  if bool_decide (kind ∈ deny_actions (deny l)) then false
  else bool_decide (kind ∈ allow_actions (allow l))
       || existsb (fun r => rule_matches r a) (allow_action_rules (allow l)).

(** [RuntimePolicyLayer::authorize]. *)
Definition layer_authorize (l : RuntimePolicyLayer) (c : Command) : bool :=
  let operation := operation_of c in
  if bool_decide (operation ∈ deny_operations (deny l))
     || negb (bool_decide (operation ∈ allow_operations (allow l)))
  then false
  else
    match c with
    | PerformAction input => authorizes_action l (pa_action input)
    | OpenSession m =>
        forallb (authorizes_action_kind l) (allowed_actions m)
        && (negb (allow_clipboard_read m) || authorizes_operation l PReadClipboard)
        && (negb (allow_clipboard_write m) || authorizes_operation l PWriteClipboard)
    | _ => true
    end.

(** * The stack *)

(** [managed.iter().chain(user.iter())]. *)
Definition stack_layers (s : RuntimePolicyStack) : list LoadedPolicy :=
  match managed s with Some p => [p] | None => [] end
  ++ match user s with Some p => [p] | None => [] end.

Definition is_policy_mutation (c : Command) : bool :=
  match c with
  | LaunchApplication _ | WriteClipboard _ | PerformAction _ => true
  | _ => false
  end.

(** [RuntimePolicyStack::authorize]. *)
Definition stack_authorize (s : RuntimePolicyStack) (c : Command) : Result unit CuaError :=
  if forallb (fun p => layer_authorize (layer p) c) (stack_layers s) then Ok tt
  else
    let error := public_error CapabilityDenied "runtime policy denied the requested operation"
                   false (Some "request_host_policy"%string) in
    Err (if is_policy_mutation c then with_mutation_status error NotDispatched else error).

Definition summary (s : RuntimePolicyStack) : RuntimePolicySummary :=
  {| managed_sha256 := sha256 <$> managed s; user_sha256 := sha256 <$> user s |}.

(** [Option<T>.map(f).transpose()]. *)
Definition opt_transpose {A B E} (f : A -> Result B E) (o : option A) : Result (option B) E :=
  match o with
  | None => Ok None
  | Some a => let? b := f a in Ok (Some b)
  end.

(** * Loading *)

(** What [symlink_metadata] reports: file kind, length and Unix mode. *)
Record FileMetadata := {
  fm_is_symlink : bool;
  fm_is_file : bool;
  fm_len : Z;
  fm_mode : Z;
}.

(** SHA-256 with hex encoding, serde_json and the file system; [on_unix] is
    [cfg(unix)]. *)
Record PolicyEnv := {
  sha256_hex : string -> string;
  layer_to_json : RuntimePolicyLayer -> Result string string;
  layer_from_json : string -> Result RuntimePolicyLayer string;
  symlink_metadata : string -> Result FileMetadata string;
  fs_read : string -> Result string string;
  on_unix : bool;
}.

Section Loading.
Context (env : PolicyEnv).

(** [LoadedPolicy::from_layer]. *)
Definition loaded_from_layer (l : RuntimePolicyLayer) : Result LoadedPolicy PolicyLoadError :=
  layer_validate l ;?
  let? canonical := rmap_err PolicyJson (layer_to_json env l) in
  Ok {| layer := l; sha256 := sha256_hex env canonical |}.

Definition load_policy (path : string) : Result LoadedPolicy PolicyLoadError :=
  let? metadata := rmap_err (PolicyIo path) (symlink_metadata env path) in
  ensure_not (fm_is_symlink metadata || negb (fm_is_file metadata))
    (PolicyUnsafeFile "configured path must be a regular file") ;?
  ensure_not ((fm_len metadata =? 0) || (MAX_POLICY_BYTES <? fm_len metadata))
    (PolicyUnsafeFile "configured file must contain between 1 byte and 256 KiB") ;?
  ensure_not (on_unix env && negb (Z.land (fm_mode metadata) 18 =? 0))
    (PolicyUnsafeFile "configured file must not be group- or world-writable") ;?
  let? bytes := rmap_err (PolicyIo path) (fs_read env path) in
  let? l := rmap_err PolicyJson (layer_from_json env bytes) in
  layer_validate l ;?
  Ok {| layer := l; sha256 := sha256_hex env bytes |}.

Definition from_layers (m u : option RuntimePolicyLayer) : Result RuntimePolicyStack PolicyLoadError :=
  let? m' := opt_transpose loaded_from_layer m in
  let? u' := opt_transpose loaded_from_layer u in
  Ok {| managed := m'; user := u' |}.

Definition from_files (m u : option string) : Result RuntimePolicyStack PolicyLoadError :=
  let? m' := opt_transpose load_policy m in
  let? u' := opt_transpose load_policy u in
  Ok {| managed := m'; user := u' |}.

End Loading.

(** * Specification *)

(** What an action carries that a rule can bound. *)
Definition action_text (a : Action) : option string :=
  match a with TypeText t => Some t | SetValue _ v => Some v | _ => None end.

Definition action_keys (a : Action) : option (list string) :=
  match a with PressKeys ks => Some ks | _ => None end.

Definition action_clicks (a : Action) : option (Z * DeliveryPreference) :=
  match a with ClickPoint _ _ n d => Some (n, d) | _ => None end.

Definition action_duration (a : Action) : option Z :=
  match a with
  | PressPoint _ _ d | MovePointer _ d | Drag _ _ d => Some d
  | _ => None
  end.

Definition action_scroll (a : Action) : option (f64 * f64) :=
  match a with Scroll _ x y => Some (x, y) | _ => None end.

(** Every constraint present on the rule constrains this very action. *)
Definition rule_enforced (r : PolicyActionRule) (a : Action) : Prop :=
  action_kind a = rule_action r /\
  (forall m, rule_max_text_bytes r = Some m -> exists t, action_text a = Some t /\ slen t <= m) /\
  (forall m, rule_max_keys r = Some m -> exists ks, action_keys a = Some ks /\ zlen ks <= m) /\
  (forall m, rule_max_click_count r = Some m ->
     exists n d, action_clicks a = Some (n, d) /\ n <= m) /\
  (forall m, rule_max_duration_ms r = Some m -> exists d, action_duration a = Some d /\ d <= m) /\
  (forall m, rule_max_abs_scroll_delta r = Some m ->
     exists x y, action_scroll a = Some (x, y) /\
       f64_le (f64_abs x) m = true /\ f64_le (f64_abs y) m = true) /\
  (rule_deliveries r <> [] ->
     exists n d, action_clicks a = Some (n, d) /\ d ∈ rule_deliveries r).

(** * Lemmas *)

Lemma is_none_or_true {A} (o : option A) f : is_none_or o f = true <-> forall a, o = Some a -> f a = true.
Proof. destruct o; simpl; naive_solver. Qed.

Lemma is_none_eq {A} (o : option A) : is_none o = true <-> o = None.
Proof. destruct o; simpl; naive_solver. Qed.

Lemma is_nil_eq {A} (l : list A) : is_nil l = true <-> l = [].
Proof. destruct l; simpl; naive_solver. Qed.

Lemma existsb_elem {A} (f : A -> bool) l : existsb f l = true <-> exists x, x ∈ l /\ f x = true.
Proof. rewrite existsb_exists. setoid_rewrite list_elem_of_In. done. Qed.

Lemma forallb_elem {A} (f : A -> bool) l : forallb f l = true <-> forall x, x ∈ l -> f x = true.
Proof. rewrite forallb_forall. setoid_rewrite list_elem_of_In. done. Qed.

Create Rewrite HintDb policy.
#[export] Hint Rewrite @is_none_eq @is_nil_eq @is_none_or_true @andb_true_iff @orb_true_iff
  @negb_true_iff @negb_false_iff @bool_decide_eq_true @bool_decide_eq_false @Z.leb_le
  @existsb_elem @forallb_elem : policy.

Lemma rule_matches_kind r a : rule_matches r a = true -> action_kind a = rule_action r.
Proof. unfold rule_matches. case_bool_decide as H; [done|]. intros _. by destruct (decide (action_kind a = rule_action r)). Qed.

Lemma rule_validate_relevant r : rule_validate r = Ok tt -> fields_are_relevant r = true.
Proof. unfold rule_validate. intros H. res_inv. by zbool. Qed.

Lemma rule_matches_enforced r a :
  rule_validate r = Ok tt -> rule_matches r a = true -> rule_enforced r a.
Proof.
  intros Hv%rule_validate_relevant Hm. pose proof (rule_matches_kind _ _ Hm) as Hk.
  unfold rule_matches in Hm. rewrite bool_decide_false in Hm by naive_solver.
  unfold rule_enforced, fields_are_relevant in *. rewrite <- Hk in Hv. split; [done|].
  destruct a; simpl in *; autorewrite with policy in *; destruct_and?;
    repeat (apply conj); intros; try congruence;
    try match goal with H : forall m, _ = Some m -> _ |- _ =>
      specialize (H _ ltac:(eassumption)); autorewrite with policy in H end;
    try by eauto 6.
  exists count, delivery. naive_solver.
Qed.

Lemma layer_validate_rules l r :
  layer_validate l = Ok tt -> r ∈ allow_action_rules (allow l) -> rule_validate r = Ok tt.
Proof.
  unfold layer_validate. intros H Hr. res_inv.
  match goal with Hus : rtraverse _ _ = Ok _ |- _ => apply rtraverse_Ok in Hus as Hall end.
  apply list_elem_of_lookup in Hr as [i Hi].
  destruct (Forall2_lookup_l _ _ _ _ _ Hall Hi) as ([] & _ & ?). done.
Qed.

Lemma authorizes_action_sound l a :
  layer_validate l = Ok tt -> authorizes_action l a = true ->
  (action_kind a ∉ deny_actions (deny l)) /\
  (action_kind a ∈ allow_actions (allow l) \/
   exists r, r ∈ allow_action_rules (allow l) /\ rule_enforced r a).
Proof.
  unfold authorizes_action. intros Hl. case_bool_decide; [done|]. autorewrite with policy.
  intros [?|(r & Hr & Hm)]; (split; [done|]); [by left | right].
  exists r. split; [done|]. apply rule_matches_enforced; [by eapply layer_validate_rules | done].
Qed.

Lemma authorizes_action_kind_of l a :
  authorizes_action l a = true -> authorizes_action_kind l (action_kind a) = true.
Proof.
  unfold authorizes_action, authorizes_action_kind. case_bool_decide; [done|].
  simpl. autorewrite with policy. intros [?|(r & Hr & Hm)]; [by left | right].
  exists r. autorewrite with policy. split; [done|]. symmetry. by apply rule_matches_kind.
Qed.

Lemma layer_authorize_operation l c :
  layer_authorize l c = true -> authorizes_operation l (operation_of c) = true.
Proof.
  unfold layer_authorize, authorizes_operation. case_bool_decide; [done|].
  case_bool_decide; [done|]. done.
Qed.

Lemma stack_authorize_ok s c :
  stack_authorize s c = Ok tt <-> forall p, p ∈ stack_layers s -> layer_authorize (layer p) c = true.
Proof.
  unfold stack_authorize. rewrite <- forallb_elem.
  destruct (forallb _ _); [done|]. split; [|done]. destruct (is_policy_mutation c); done.
Qed.

Lemma elem_of_stack_layers s p : p ∈ stack_layers s <-> managed s = Some p \/ user s = Some p.
Proof. unfold stack_layers. destruct (managed s), (user s); set_solver. Qed.

Lemma opt_transpose_Ok {A B E} (f : A -> Result B E) o o' :
  opt_transpose f o = Ok o' -> forall b, o' = Some b -> exists a, o = Some a /\ f a = Ok b.
Proof. destruct o as [a|]; simpl; [|naive_solver]. intros (b & Hb & [= <-])%rbind_Ok. naive_solver. Qed.

Definition stack_valid (s : RuntimePolicyStack) : Prop :=
  forall p, p ∈ stack_layers s -> layer_validate (layer p) = Ok tt.

Lemma loaded_from_layer_valid env l p : loaded_from_layer env l = Ok p -> layer_validate (layer p) = Ok tt.
Proof. unfold loaded_from_layer. intros H. res_inv. by match goal with u : () |- _ => destruct u end. Qed.

Lemma load_policy_valid env path p : load_policy env path = Ok p -> layer_validate (layer p) = Ok tt.
Proof.
  unfold load_policy. intros H. res_inv. by match goal with u : () |- _ => destruct u end.
Qed.

(** Both ways of building a stack validate every layer they keep. *)
Lemma stack_built_valid env s :
  (exists m u, from_layers env m u = Ok s) \/ (exists m u, from_files env m u = Ok s) -> stack_valid s.
Proof.
  intros H p Hp. apply elem_of_stack_layers in Hp.
  destruct H as [(m & u & H)|(m & u & H)]; unfold from_layers, from_files in H;
    apply rbind_Ok in H as (m' & Hm & H); apply rbind_Ok in H as (u' & Hu & [= <-]);
    simpl in Hp; destruct Hp as [-> | ->];
    [eapply opt_transpose_Ok in Hm as (? & _ & ?) | eapply opt_transpose_Ok in Hu as (? & _ & ?)
    |eapply opt_transpose_Ok in Hm as (? & _ & ?) | eapply opt_transpose_Ok in Hu as (? & _ & ?)];
    eauto using loaded_from_layer_valid, load_policy_valid.
Qed.

(** * Properties *)

(** C37: what a loaded policy stack lets through.  When a stack built from
    layers or from files authorizes an action, then for every layer of it the
    operation [perform_action] is allowed and not denied, the action's kind is
    not denied, and either the kind is allowed outright or some rule for this
    kind admits the action with every constraint written on the rule (text,
    keys, clicks, duration, scroll, delivery) enforced on it: a loaded rule
    has no constraint that silently does not apply. *)
Theorem loaded_policy_enforced env s input :
  (exists m u, from_layers env m u = Ok s) \/ (exists m u, from_files env m u = Ok s) ->
  stack_authorize s (PerformAction input) = Ok tt ->
  forall p, managed s = Some p \/ user s = Some p ->
  let l := layer p in
  let a := pa_action input in
  PPerformAction ∈ allow_operations (allow l) /\
  (PPerformAction ∉ deny_operations (deny l)) /\
  (action_kind a ∉ deny_actions (deny l)) /\
  (action_kind a ∈ allow_actions (allow l) \/
   exists r, r ∈ allow_action_rules (allow l) /\ rule_enforced r a).
Proof.
  intros Hb Hs p Hp l a. rewrite <- elem_of_stack_layers in Hp.
  assert (Hauth : layer_authorize l (PerformAction input) = true) by (eapply stack_authorize_ok; eauto).
  pose proof (layer_authorize_operation _ _ Hauth) as Hop. simpl in Hop.
  unfold authorizes_operation in Hop. autorewrite with policy in Hop. destruct Hop as [Hd Ha].
  split; [done|]. split; [done|]. apply authorizes_action_sound; [by eapply stack_built_valid|].
  unfold layer_authorize in Hauth. cbn [operation_of] in Hauth.
  rewrite bool_decide_false, bool_decide_true in Hauth by done. done.
Qed.

(** A policy that lets keyboard shortcuts of up to two keys through. *)
Definition shortcut_layer : RuntimePolicyLayer := {|
  schema_version := 1;
  allow := {| allow_operations := [POpenSession; PPerformAction]; allow_actions := [KFocusWindow];
    allow_action_rules := [{| rule_action := KPressKeys; rule_max_text_bytes := None;
      rule_max_keys := Some 2; rule_max_click_count := None; rule_max_duration_ms := None;
      rule_max_abs_scroll_delta := None; rule_deliveries := [] |}] |};
  deny := {| deny_operations := []; deny_actions := [] |} |}.

Definition shortcut_stack : RuntimePolicyStack :=
  {| managed := Some {| layer := shortcut_layer; sha256 := "" |}; user := None |}.

(** An environment whose digest and codec are constant functions. *)
Definition plain_env : PolicyEnv := {|
  sha256_hex := fun _ => ""%string; layer_to_json := fun _ => Ok ""%string;
  layer_from_json := fun _ => Ok shortcut_layer;
  symlink_metadata := fun _ => Ok {| fm_is_symlink := false; fm_is_file := true; fm_len := 64; fm_mode := 384 |};
  fs_read := fun _ => Ok "{}"%string; on_unix := true |}.

Definition shortcut_input : PerformActionInput := {|
  pa_observe_after := None; pa_session_id := "s"; pa_window_ref := "w"; pa_observation_id := "o";
  pa_action := PressKeys ["mod"; "c"] |}.

Lemma loaded_policy_enforced_witness :
  PPerformAction ∈ allow_operations (allow shortcut_layer) /\
  exists r, r ∈ allow_action_rules (allow shortcut_layer) /\ rule_enforced r (pa_action shortcut_input).
Proof.
  destruct (loaded_policy_enforced plain_env shortcut_stack shortcut_input
    (or_introl (ex_intro _ (Some shortcut_layer) (ex_intro _ None eq_refl))) eq_refl
    _ (or_introl eq_refl)) as (H1 & _ & _ & H2).
  split; [exact H1|]. destruct H2 as [H2|H2]; [|exact H2]. exfalso. set_solver.
Defined.

(** The layers only narrow, and the order of the layers is irrelevant: a
    stack authorizes a command exactly when each of its layers alone does, so
    adding or loading a second layer never authorizes anything new; the empty
    stack authorizes everything, and every refusal is a final
    [CapabilityDenied] that marks a mutation as not dispatched. *)
Theorem stack_layers_narrow m u c :
  (stack_authorize {| managed := m; user := u |} c = Ok tt <->
     stack_authorize {| managed := m; user := None |} c = Ok tt /\
     stack_authorize {| managed := None; user := u |} c = Ok tt) /\
  (stack_authorize {| managed := m; user := u |} c = stack_authorize {| managed := u; user := m |} c) /\
  stack_authorize {| managed := None; user := None |} c = Ok tt /\
  (forall e, stack_authorize {| managed := m; user := u |} c = Err e ->
     code e = CapabilityDenied /\ retryable e = false /\
     mutation_status e = if is_policy_mutation c then NotDispatched else NotApplicable).
Proof.
  split; [|split; [|split; [done|]]].
  - rewrite !stack_authorize_ok. setoid_rewrite elem_of_stack_layers. simpl. naive_solver.
  - unfold stack_authorize, stack_layers. simpl. destruct m, u; simpl; rewrite ?andb_true_r; try done.
    by rewrite andb_comm.
  - unfold stack_authorize. intros e. destruct (forallb _ _); [done|]. intros [= <-].
    by destruct (is_policy_mutation c).
Qed.

(** Policy is consistent between opening and acting.  If a stack
    authorizes an action and authorizes opening a session with some manifest,
    then it also authorizes opening the session that asks in addition for
    exactly the kind of that action: an admitted action is never of a kind a
    session could not have been granted. *)
Theorem admitted_action_kind_openable s input m :
  stack_authorize s (PerformAction input) = Ok tt ->
  stack_authorize s (OpenSession m) = Ok tt ->
  stack_authorize s (OpenSession {| m with
    allowed_actions := action_kind (pa_action input) :: allowed_actions m |}) = Ok tt.
Proof.
  rewrite !stack_authorize_ok. intros Ha Ho p Hp. specialize (Ha p Hp). specialize (Ho p Hp).
  unfold layer_authorize in *. simpl in *.
  destruct (bool_decide (PPerformAction ∈ _) || _); [done|].
  destruct (bool_decide (POpenSession ∈ _) || _); [done|].
  rewrite authorizes_action_kind_of by done. done.
Qed.

Definition read_only_manifest : CapabilityManifest := {|
  mode := Bounded; application_refs := ["app"]; allowed_actions := [];
  allow_foreground_input := false; restore_foreground_after_input := false;
  allow_display_capture := false; allow_clipboard_read := false; allow_clipboard_write := false;
  ttl_seconds := 60 |}.

Lemma admitted_action_kind_openable_witness :
  stack_authorize shortcut_stack (OpenSession {| read_only_manifest with
    allowed_actions := [KPressKeys] |}) = Ok tt.
Proof.
  exact (admitted_action_kind_openable shortcut_stack shortcut_input read_only_manifest eq_refl eq_refl).
Defined.
