(* ===== verification/Validation.v ===== *)
(** Closed input validation: [src/crates/runtime/src/validation.rs].

    Session manifests, clipboard text and actions are checked before any
    driver call.  The theorems characterize the accepted manifests exactly,
    and show what every accepted action guarantees to the driver. *)

From S2P Require Import Prelude Floats Geometry Text Protocol Errors.

Definition MAX_ALLOWED_APPLICATIONS : Z := 128.
Definition MAX_DISCOVERY_REF_BYTES : Z := 256.
Definition MAX_APPLICATION_ALLOWLIST_BYTES : Z := 32 * 1024.
Definition MAX_ACTIONS : Z := 32.
Definition MAX_TEXT_BYTES : Z := max_text_bytes DEFAULT_LIMITS.
Definition MAX_KEYS : Z := max_keys DEFAULT_LIMITS.
Definition MAX_CLICK_COUNT : Z := max_click_count DEFAULT_LIMITS.
Definition MAX_SCROLL_DELTA : f64 := f64_of_Z (max_scroll_delta DEFAULT_LIMITS).
Definition MAX_DRAG_DURATION_MS : Z := max_pointer_duration_ms DEFAULT_LIMITS.
Definition MAX_WINDOW_COORDINATE : f64 := f64_of_Z (max_window_coordinate DEFAULT_LIMITS).
Definition MAX_WINDOW_DIMENSION : f64 := f64_of_Z (max_window_dimension DEFAULT_LIMITS).
Definition MAX_RANGE_VALUE : f64 := f64_of_Z (max_range_value DEFAULT_LIMITS).

Definition invalid (message : string) : CuaError := public_error InvalidRequest message false None.

(** The [try_fold] of [checked_add] over the reference lengths. *)
Fixpoint sum_lengths (total : Z) (refs : list string) : option Z :=
  match refs with
  | [] => Some total
  | r :: rest =>
      match checked_add total (slen r) with
      | Some t => sum_lengths t rest
      | None => None
      end
  end.

Definition validate_manifest (m : CapabilityManifest) (max_ttl_seconds : Z) : Result unit CuaError :=
  ensure_not ((ttl_seconds m =? 0) || (max_ttl_seconds <? ttl_seconds m))
    (invalid "session ttl is outside the supported range") ;?
  ensure_not
    ((negb (allow_display_capture m) && negb (allow_clipboard_read m)
      && negb (allow_clipboard_write m) && bool_decide (application_refs m = []))
     || (MAX_ALLOWED_APPLICATIONS <? zlen (application_refs m)))
    (invalid "application reference allowlist is empty without display-capture or clipboard authority, or is too large") ;?
  let? allowlist_bytes :=
    ok_or (sum_lengths 0 (application_refs m)) (invalid "application allowlist is too large") in
  ensure_not
    ((MAX_APPLICATION_ALLOWLIST_BYTES <? allowlist_bytes)
     || existsb (fun r => MAX_DISCOVERY_REF_BYTES <? slen r) (application_refs m))
    (invalid "application allowlist is too large") ;?
  ensure_not (MAX_ACTIONS <? zlen (allowed_actions m)) (invalid "action allowlist is too large") ;?
  ensure_not (existsb (fun r => is_blank r || negb (is_trimmed r)) (application_refs m))
    (invalid "discovery references must be non-empty and normalized") ;?
  ensure_not (negb (all_unique (application_refs m)))
    (invalid "application allowlist contains duplicates") ;?
  ensure_not (negb (all_unique (allowed_actions m)))
    (invalid "action allowlist contains duplicates") ;?
  ensure_not
    (bool_decide (mode m = ReadOnly)
     && (negb (bool_decide (allowed_actions m = [])) || allow_foreground_input m
         || allow_clipboard_write m || restore_foreground_after_input m))
    (invalid "read-only sessions cannot authorize actions or foreground input") ;?
  ensure_not (restore_foreground_after_input m && negb (allow_foreground_input m))
    (invalid "foreground restoration requires foreground input authority") ;?
  ensure_not (allow_clipboard_write m && negb (allow_clipboard_read m))
    (invalid "clipboard writes require clipboard-read authority for a fresh change guard") ;?
  Ok tt.

Definition validate_clipboard_text (text : string) (max_text_bytes : Z) : Result unit CuaError :=
  ensure_not ((max_text_bytes <? slen text) || contains_nul text)
    (invalid "clipboard text is too large or contains an embedded NUL") ;?
  Ok tt.

Definition supported_keys : list string :=
  ["mod"; "win"; "meta"; "command"; "control"; "alt"; "option"; "shift"; "enter"; "return"; "tab";
   "space"; "backspace"; "delete"; "escape"; "left"; "right"; "up"; "down"; "home"; "end";
   "page_up"; "page_down"; "f1"; "f2"; "f3"; "f4"; "f5"; "f6"; "f7"; "f8"; "f9"; "f10"; "f11";
   "f12"; "a"; "b"; "c"; "d"; "e"; "f"; "g"; "h"; "i"; "j"; "k"; "l"; "m"; "n"; "o"; "p"; "q";
   "r"; "s"; "t"; "u"; "v"; "w"; "x"; "y"; "z"; "0"; "1"; "2"; "3"; "4"; "5"; "6"; "7"; "8"; "9"]%string.

Definition is_supported_key (key : string) : bool :=
  if is_punctuation_key key then true
  else bool_decide (canonical_key key ∈ supported_keys).

Definition validate_text (text : string) : Result unit CuaError :=
  ensure_not ((MAX_TEXT_BYTES <? slen text) || contains_nul text)
    (invalid "text input is too large or contains NUL") ;?
  Ok tt.

Definition validate_screenshot_point (p : NormalizedPoint) (mapping : option ScreenshotMapping)
    : Result unit CuaError :=
  let? m := ok_or mapping (invalid "pixel actions require a screenshot in the guarded observation") in
  ensure_not (bool_decide (to_pixel p (sm_pixel_size m) = None))
    (invalid "point lies outside the guarded screenshot") ;?
  Ok tt.

Definition validate_action (a : Action) (mapping : option ScreenshotMapping) : Result unit CuaError :=
  match a with
  | FocusWindow | SetWindowMinimized _ | TerminateApplication | FocusElement _ | InvokeElement _
  | ToggleElement _ | SelectElement _ | SetExpanded _ _ => Ok tt
  | SetWindowBounds b =>
      ensure_not
        (negb (is_finite (sr_x b)) || negb (is_finite (sr_y b))
         || negb (is_finite (sr_width b)) || negb (is_finite (sr_height b))
         || f64_gt (f64_abs (sr_x b)) MAX_WINDOW_COORDINATE
         || f64_gt (f64_abs (sr_y b)) MAX_WINDOW_COORDINATE
         || negb (f64_in_range (f64_of_Z 1) MAX_WINDOW_DIMENSION (sr_width b))
         || negb (f64_in_range (f64_of_Z 1) MAX_WINDOW_DIMENSION (sr_height b)))
        (invalid "window bounds are outside the supported range") ;?
      Ok tt
  | ClickPoint point _ count _ =>
      ensure_not (negb ((1 <=? count) && (count <=? MAX_CLICK_COUNT)))
        (invalid "click count must be between one and three") ;?
      validate_screenshot_point point mapping
  | PressPoint point _ duration_ms =>
      ensure_not (MAX_DRAG_DURATION_MS <? duration_ms)
        (invalid "pointer hold duration is outside the supported range") ;?
      validate_screenshot_point point mapping
  | SetValue _ value => validate_text value
  | SetRangeValue _ value =>
      ensure_not (negb (is_finite value) || f64_gt (f64_abs value) MAX_RANGE_VALUE)
        (invalid "numeric range value is outside the supported range") ;?
      Ok tt
  | TypeText text => validate_text text
  | PressKeys keys =>
      ensure_not
        (bool_decide (keys = []) || (MAX_KEYS <? zlen keys)
         || existsb (fun key => is_blank key || negb (is_trimmed key)
                                || negb (str_eqb key (to_ascii_lowercase key))
                                || negb (is_supported_key key)) keys)
        (invalid "key chord is empty, too large, unsupported, or not normalized") ;?
      Ok tt
  | MovePointer point duration_ms =>
      ensure_not (MAX_DRAG_DURATION_MS <? duration_ms)
        (invalid "pointer movement duration is outside the supported range") ;?
      validate_screenshot_point point mapping
  | Scroll point delta_x delta_y =>
      ensure_not
        (negb (is_finite delta_x) || negb (is_finite delta_y)
         || f64_gt (f64_abs delta_x) MAX_SCROLL_DELTA || f64_gt (f64_abs delta_y) MAX_SCROLL_DELTA)
        (invalid "scroll delta is outside the supported range") ;?
      validate_screenshot_point point mapping
  | Drag from to duration_ms =>
      ensure_not ((duration_ms =? 0) || (MAX_DRAG_DURATION_MS <? duration_ms))
        (invalid "drag duration is outside the supported range") ;?
      validate_screenshot_point from mapping ;?
      validate_screenshot_point to mapping
  end.

(** * Specification *)

Definition total_length (refs : list string) : Z := foldr (fun r n => slen r + n) 0 refs.

(** The manifests a runtime with lifetime bound [max_ttl] may accept. *)
Record manifest_ok (m : CapabilityManifest) (max_ttl : Z) : Prop := {
  mo_ttl : 1 <= ttl_seconds m <= max_ttl;
  mo_scope : application_refs m <> [] \/ allow_display_capture m = true \/
             allow_clipboard_read m = true \/ allow_clipboard_write m = true;
  mo_count : zlen (application_refs m) <= MAX_ALLOWED_APPLICATIONS;
  mo_bytes : total_length (application_refs m) <= MAX_APPLICATION_ALLOWLIST_BYTES;
  mo_refs : forall r, r ∈ application_refs m ->
            slen r <= MAX_DISCOVERY_REF_BYTES /\ trim r <> EmptyString /\ r = trim r;
  mo_refs_unique : NoDup (application_refs m);
  mo_actions_count : zlen (allowed_actions m) <= MAX_ACTIONS;
  mo_actions_unique : NoDup (allowed_actions m);
  mo_read_only : mode m = ReadOnly ->
                 allowed_actions m = [] /\ allow_foreground_input m = false /\
                 allow_clipboard_write m = false /\ restore_foreground_after_input m = false;
  mo_restore : restore_foreground_after_input m = true -> allow_foreground_input m = true;
  mo_clipboard : allow_clipboard_write m = true -> allow_clipboard_read m = true;
}.

(** * Lemmas *)

Lemma ensure_then {A E} (c : bool) (e : E) (k : Result A E) a :
  (ensure_not c e ;? k) = Ok a <-> c = false /\ k = Ok a.
Proof. destruct c; simpl; naive_solver. Qed.

Lemma total_length_nonneg refs : 0 <= total_length refs.
Proof. induction refs as [|r l IH]; [done|]. pose proof (slen_nonneg r). change (0 <= slen r + total_length l). lia. Qed.

Lemma sum_lengths_spec t refs : 0 <= t ->
  sum_lengths t refs = if t + total_length refs <=? USIZE_MAX then Some (t + total_length refs) else
                         sum_lengths t refs.
Proof.
  revert t. induction refs as [|r l IH]; intros t Ht; simpl.
  - rewrite Z.add_0_r. by destruct (t <=? USIZE_MAX).
  - unfold checked_add. pose proof (slen_nonneg r). pose proof (total_length_nonneg l).
    fold (total_length l). destruct (Z.leb_spec (t + (slen r + total_length l)) USIZE_MAX); [|done].
    destruct (Z.leb_spec (t + slen r) USIZE_MAX); [|lia].
    rewrite IH by lia. destruct (Z.leb_spec (t + slen r + total_length l) USIZE_MAX); [f_equal; lia | lia].
Qed.

Lemma sum_lengths_value t refs n : sum_lengths t refs = Some n -> n = t + total_length refs.
Proof.
  revert t. induction refs as [|r l IH]; intros t; simpl; [intros [= <-]; lia|].
  unfold checked_add. destruct (_ <=? _); [|done]. intros ->%IH. unfold total_length. lia.
Qed.

Lemma sum_lengths_bounded refs bound : bound <= USIZE_MAX ->
  (exists n, sum_lengths 0 refs = Some n /\ n <= bound) <-> total_length refs <= bound.
Proof.
  intros Hb. split.
  - intros (n & Hn%sum_lengths_value & ?). lia.
  - intros Hle. exists (total_length refs). split; [|done]. rewrite sum_lengths_spec by lia.
    destruct (Z.leb_spec (0 + total_length refs) USIZE_MAX); [done | lia].
Qed.

Lemma existsb_false_elem {A} (f : A -> bool) l : existsb f l = false <-> forall x, x ∈ l -> f x = false.
Proof.
  induction l as [|a l IH]; simpl; [set_solver|].
  rewrite orb_false_iff, IH. setoid_rewrite elem_of_cons. naive_solver.
Qed.

Lemma is_blank_false r : is_blank r = false <-> trim r <> EmptyString.
Proof. apply str_eqb_neq. Qed.

Lemma is_trimmed_true r : is_trimmed r = true <-> r = trim r.
Proof. apply str_eqb_eq. Qed.

Lemma manifest_scope_iff m :
  ((negb (allow_display_capture m) && negb (allow_clipboard_read m)
      && negb (allow_clipboard_write m) && bool_decide (application_refs m = []))
     || (MAX_ALLOWED_APPLICATIONS <? zlen (application_refs m))) = false <->
  (application_refs m <> [] \/ allow_display_capture m = true \/
   allow_clipboard_read m = true \/ allow_clipboard_write m = true) /\
  zlen (application_refs m) <= MAX_ALLOWED_APPLICATIONS.
Proof.
  rewrite orb_false_iff, Z.ltb_ge, !andb_false_iff, !negb_false_iff, bool_decide_eq_false. naive_solver.
Qed.

Lemma manifest_refs_iff refs n :
  ((MAX_APPLICATION_ALLOWLIST_BYTES <? n) || existsb (fun r => MAX_DISCOVERY_REF_BYTES <? slen r) refs) = false <->
  n <= MAX_APPLICATION_ALLOWLIST_BYTES /\ forall r, r ∈ refs -> slen r <= MAX_DISCOVERY_REF_BYTES.
Proof. rewrite orb_false_iff, Z.ltb_ge, existsb_false_elem. by setoid_rewrite Z.ltb_ge. Qed.

Lemma manifest_read_only_iff m :
  (bool_decide (mode m = ReadOnly)
     && (negb (bool_decide (allowed_actions m = [])) || allow_foreground_input m
         || allow_clipboard_write m || restore_foreground_after_input m)) = false <->
  (mode m = ReadOnly ->
   allowed_actions m = [] /\ allow_foreground_input m = false /\
   allow_clipboard_write m = false /\ restore_foreground_after_input m = false).
Proof.
  rewrite andb_false_iff, !orb_false_iff, negb_false_iff, bool_decide_eq_false, bool_decide_eq_true.
  destruct (decide (mode m = ReadOnly)); naive_solver.
Qed.

Lemma validate_manifest_iff m max_ttl :
  0 <= ttl_seconds m -> validate_manifest m max_ttl = Ok tt <-> manifest_ok m max_ttl.
Proof.
  intros Httl.
  unfold validate_manifest. rewrite !ensure_then, manifest_scope_iff, rbind_Ok.
  setoid_rewrite ok_or_Ok. do 8 setoid_rewrite ensure_then. setoid_rewrite manifest_refs_iff.
  setoid_rewrite existsb_false_elem. setoid_rewrite manifest_read_only_iff.
  setoid_rewrite orb_false_iff. setoid_rewrite andb_false_iff. setoid_rewrite negb_false_iff.
  setoid_rewrite all_unique_spec. setoid_rewrite is_blank_false. setoid_rewrite is_trimmed_true.
  setoid_rewrite Z.ltb_ge. rewrite Z.eqb_neq.
  pose proof (sum_lengths_bounded (application_refs m) MAX_APPLICATION_ALLOWLIST_BYTES ltac:(done)) as Hsum.
  split.
  + intros ([H1 H2] & [H3 H4] & n & H5 & [H6 H7] & H8 & H9 & H10 & H11 & H12 & H13 & H14 & _).
    constructor; try done; [lia | apply Hsum; eauto | naive_solver | |].
    * destruct (restore_foreground_after_input m); naive_solver.
    * destruct (allow_clipboard_write m); naive_solver.
  + intros [? ? ? Hbytes Hrefs ? ? ? ? Hrest Hclip].
    destruct (proj2 Hsum Hbytes) as (n & Hn & Hle). split; [lia|].
    split; [done|]. exists n. do 2 (split; [done || (split; [done | intros r Hr; by apply Hrefs in Hr as (? & _)])|]).
    split; [done|]. split; [intros r Hr; by apply Hrefs in Hr as (_ & ?)|]. do 3 (split; [done|]).
    split; [by destruct (restore_foreground_after_input m); [right; apply Hrest | left]|].
    split; [by destruct (allow_clipboard_write m); [right; apply Hclip | left]|]. done.
Qed.

(** * Properties *)

(** The manifests a runtime accepts are exactly the specified ones: a
    lifetime within the bound, at least one authority, bounded, normalized and
    duplicate-free references, a bounded duplicate-free action list, no
    mutation authority in read-only mode, and restoration and clipboard-write
    authority only together with the authority they depend on.  Every refusal
    is a non-retryable [InvalidRequest]. *)
Theorem validate_manifest_spec m max_ttl :
  0 <= ttl_seconds m ->
  (validate_manifest m max_ttl = Ok tt <-> manifest_ok m max_ttl) /\
  (forall e, validate_manifest m max_ttl = Err e ->
     code e = InvalidRequest /\ retryable e = false /\ mutation_status e = NotApplicable).
Proof.
  intros Httl. split.
  - by apply validate_manifest_iff.
  - intros e. unfold validate_manifest. intros H.
    repeat (apply rbind_Err in H as [H|(? & _ & H)];
      [first [apply ensure_not_Err in H as [_ ->] | apply ok_or_Err in H as [_ ->]]; done|]).
    done.
Qed.

Definition sample_manifest : CapabilityManifest := {|
  mode := Bounded; application_refs := ["app-1"; "app-2"]; allowed_actions := [KClickPoint; KTypeText];
  allow_foreground_input := true; restore_foreground_after_input := true;
  allow_display_capture := false; allow_clipboard_read := true; allow_clipboard_write := true;
  ttl_seconds := 600 |}.

Lemma validate_manifest_spec_witness : manifest_ok sample_manifest 3600.
Proof.
  apply (validate_manifest_spec sample_manifest 3600); [vm_compute; discriminate | vm_compute; reflexivity].
Defined.

(** The points of the screenshot an action addresses. *)
Definition action_points (a : Action) : list NormalizedPoint :=
  match a with
  | ClickPoint p _ _ _ | PressPoint p _ _ | MovePointer p _ | Scroll p _ _ => [p]
  | Drag p q _ => [p; q]
  | _ => []
  end.

(** Bounds of the scalar inputs of an action. *)
Definition action_bounded (a : Action) : Prop :=
  match a with
  | SetWindowBounds b =>
      is_finite (sr_x b) = true /\ is_finite (sr_y b) = true /\
      f64_in_range (f64_of_Z 1) MAX_WINDOW_DIMENSION (sr_width b) = true /\
      f64_in_range (f64_of_Z 1) MAX_WINDOW_DIMENSION (sr_height b) = true
  | ClickPoint _ _ n _ => 1 <= n <= 3
  | PressPoint _ _ d | MovePointer _ d => d <= 10000
  | Drag _ _ d => d <> 0 /\ d <= 10000
  | SetValue _ t | TypeText t => slen t <= 65536 /\ contains_nul t = false
  | SetRangeValue _ v => is_finite v = true /\ f64_gt (f64_abs v) MAX_RANGE_VALUE = false
  | PressKeys ks => 1 <= zlen ks <= 8
  | Scroll _ x y =>
      is_finite x = true /\ is_finite y = true /\
      f64_gt (f64_abs x) MAX_SCROLL_DELTA = false /\ f64_gt (f64_abs y) MAX_SCROLL_DELTA = false
  | _ => True
  end.

Lemma validate_point_Ok p mapping :
  validate_screenshot_point p mapping = Ok tt <->
  exists m q, mapping = Some m /\ to_pixel p (sm_pixel_size m) = Some q.
Proof.
  unfold validate_screenshot_point. rewrite rbind_Ok. setoid_rewrite ok_or_Ok.
  setoid_rewrite ensure_then. setoid_rewrite bool_decide_eq_false. split.
  - intros (m & -> & H & _). destruct (to_pixel _ _) as [q|] eqn:E; [eauto | done].
  - intros (m & q & -> & E). exists m. rewrite E. done.
Qed.

Lemma validate_points a mapping p :
  validate_action a mapping = Ok tt -> p ∈ action_points a ->
  exists m q, mapping = Some m /\ to_pixel p (sm_pixel_size m) = Some q.
Proof.
  rewrite <- validate_point_Ok.
  destruct a; simpl; rewrite ?ensure_then; intros H Hp; try (by inversion Hp);
    try (apply list_elem_of_singleton in Hp as ->; by destruct H).
  destruct H as [_ H]. apply rbind_unit_Ok in H as [? ?]. set_solver.
Qed.

Lemma validate_bounded a mapping : validate_action a mapping = Ok tt -> action_bounded a.
Proof.
  destruct a; unfold validate_action, validate_text, action_bounded; rewrite ?ensure_then; intros H;
    try done; destruct H as [H _]; zbool; unfold MAX_TEXT_BYTES, MAX_CLICK_COUNT, MAX_DRAG_DURATION_MS,
    MAX_KEYS in *; simpl in *; try tauto; try lia.
  destruct H as [[Hne Hle] _]. rewrite bool_decide_eq_false in Hne. destruct keys; [done|].
  rewrite zlen_cons in *. pose proof (zlen_nonneg keys). lia.
Qed.

Lemma canonical_key_idemp k : canonical_key (canonical_key k) = canonical_key k.
Proof.
  unfold canonical_key.
  repeat (match goal with |- context [str_eqb k ?s] => destruct (str_eqb k s) eqn:? end; [reflexivity|]).
  cbv iota. repeat match goal with H : str_eqb k _ = false |- _ => rewrite H; clear H end. done.
Qed.

Lemma canonical_punctuation k : is_punctuation_key k = true -> canonical_key k = k.
Proof.
  destruct k as [|c [|? ?]]; try done. intros _. unfold canonical_key, str_eqb.
  by destruct c as [[] [] [] [] [] [] [] []].
Qed.

Lemma supported_canonical k : is_supported_key k = true -> is_supported_key (canonical_key k) = true.
Proof.
  unfold is_supported_key. destruct (is_punctuation_key k) eqn:E.
  - rewrite canonical_punctuation by done. by rewrite E.
  - rewrite canonical_key_idemp. intros ->. by destruct (is_punctuation_key (canonical_key k)).
Qed.

Lemma validate_keys keys mapping k :
  validate_action (PressKeys keys) mapping = Ok tt -> k ∈ keys ->
  k = trim k /\ k = to_ascii_lowercase k /\ is_supported_key k = true.
Proof.
  unfold validate_action. rewrite ensure_then, !orb_false_iff, existsb_false_elem. intros [[_ H] _] Hk.
  specialize (H k Hk). zbool. unfold is_trimmed in H. rewrite !str_eqb_eq in H. tauto.
Qed.


Definition sample_mapping : ScreenshotMapping :=
  {| sm_screen_bounds := {| sr_x := F0; sr_y := F0; sr_width := f64_of_Z 640; sr_height := f64_of_Z 480 |};
     sm_pixel_size := {| ps_width := 640; ps_height := 480 |} |}.

