(* ===== verification/Driver.v ===== *)
(** The driver contract of the runtime crate: [src/crates/runtime/src/driver.rs]
    and [src/crates/runtime/src/activity.rs].

    The data a platform driver exchanges with the runtime, and the action
    guard: the cells a session shares with the native actors (interruption
    latch, closed flag, expiry, input activity) and the dispatch leases.  One
    definition per guard operation; [guard_event] and [run_events] are the
    state machine they form.  Instants and durations are nanoseconds. *)

From S2P Require Import Prelude Floats Geometry Protocol Errors.

(** * Driver data *)

Record DriverApplication := {
  dap_key : string;
  dap_process_generation : string;
  dap_identity : string;
  dap_name : string;
  dap_application_id : string;
  dap_foreground : bool;
  dap_provenance : ApplicationProvenance;
}.

(** [DriverApplication::matches_generation]. *)
Definition matches_generation (self current : DriverApplication) : bool :=
  str_eqb (dap_key self) (dap_key current)
  && str_eqb (dap_process_generation self) (dap_process_generation current)
  && str_eqb (dap_identity self) (dap_identity current)
  && str_eqb (dap_application_id self) (dap_application_id current).

Record DriverLaunchableApplication := {
  dla_key : string;
  dla_launch_target : string;
  dla_identity : string;
  dla_name : string;
  dla_application_id : string;
  dla_provenance : ApplicationProvenance;
}.

(** [DriverLaunchableApplication::matches_identity]. *)
Definition matches_identity (self current : DriverLaunchableApplication) : bool :=
  str_eqb (dla_key self) (dla_key current)
  && str_eqb (dla_launch_target self) (dla_launch_target current)
  && str_eqb (dla_identity self) (dla_identity current)
  && str_eqb (dla_application_id self) (dla_application_id current)
  && bool_decide (dla_provenance self = dla_provenance current).

Record DriverLaunchOutput := {
  dlo_application : DriverApplication;
  dlo_delivery_mode : DeliveryMode;
}.

Record DriverWindow := {
  dw_key : string;
  dw_application : DriverApplication;
  dw_title : string;
  dw_screen_bounds : ScreenRect;
  dw_state : WindowState;
  dw_visible : bool;
  dw_foreground : bool;
}.

Record DriverDisplay := {
  dd_key : string;
  dd_screen_bounds : ScreenRect;
  dd_primary : bool;
}.

(** [pixels] is row-major RGBA, one byte per [Z]. *)
Record RgbaImage := { img_width : Z; img_height : Z; img_pixels : list Z }.

Record DriverElement := {
  el_key : string;
  el_parent_key : option string;
  el_role : string;
  el_name : string;
  el_value : option string;
  el_range_value : option AccessibilityRangeValue;
  el_screen_bounds : option ScreenRect;
  el_enabled : bool;
  el_focused : bool;
  el_selected : option bool;
  el_checked : option bool;
  el_expanded : option bool;
  el_actions : list string;
}.

Record DriverObservation := {
  dob_window_key : string;
  dob_window_screen_bounds : ScreenRect;
  dob_screenshot : option RgbaImage;
  dob_screenshot_screen_bounds : option ScreenRect;
  dob_elements : list DriverElement;
  dob_elements_complete : bool;
  dob_elements_truncation : option ObservationTruncation;
  dob_fingerprint : string;
}.

Inductive DriverAction :=
| DAFocusWindow
| DASetWindowBounds (bounds : ScreenRect)
| DASetWindowMinimized (minimized : bool)
| DATerminateApplication
| DAFocusElement (element_key : string)
| DAInvokeElement (element_key : string)
| DAClickPoint (point : ScreenPoint) (button : PointerButton) (count : Z) (delivery : DeliveryPreference)
| DAPressPoint (point : ScreenPoint) (button : PointerButton) (duration_ms : Z)
| DASetValue (element_key : string) (value : SensitiveText)
| DASetRangeValue (element_key : string) (value : f64)
| DAToggleElement (element_key : string)
| DASelectElement (element_key : string)
| DASetExpanded (element_key : string) (expanded : bool)
| DAMovePointer (point : ScreenPoint) (duration_ms : Z)
| DATypeText (text : SensitiveText)
| DAPressKeys (keys : list string)
| DAScroll (point : ScreenPoint) (delta_x delta_y : f64)
| DADrag (from to : ScreenPoint) (duration_ms : Z).

(** [DriverAction::supports_foreground_restoration]. *)
Definition supports_foreground_restoration (a : DriverAction) : bool :=
  match a with
  | DAClickPoint _ _ _ Prefer_Foreground
  | DAPressPoint _ _ _
  | DAMovePointer _ _
  | DATypeText _
  | DAPressKeys _
  | DAScroll _ _ _
  | DADrag _ _ _ => true
  | _ => false
  end.

Record DriverActionOutput := {
  dao_delivery_mode : DeliveryMode;
  dao_effect_status : ActionEffectStatus;
  dao_evidence_kind : ActionEvidenceKind;
  dao_foreground_restoration : ForegroundRestorationStatus;
}.

Definition confirmed (m : DeliveryMode) : DriverActionOutput :=
  {| dao_delivery_mode := m; dao_effect_status := Confirmed; dao_evidence_kind := NativeReadback;
     dao_foreground_restoration := NotRequested |}.

Definition unverified (m : DeliveryMode) : DriverActionOutput :=
  {| dao_delivery_mode := m; dao_effect_status := Unverified; dao_evidence_kind := DispatchAcceptance;
     dao_foreground_restoration := NotRequested |}.

Definition with_foreground_restoration (o : DriverActionOutput) (s : ForegroundRestorationStatus)
    : DriverActionOutput := {| o with dao_foreground_restoration := s |}.

Definition evidence_is_coherent (o : DriverActionOutput) : bool :=
  is_supported_by (dao_effect_status o) (dao_evidence_kind o).

Record DriverVerification := { dv_matched : bool; dv_evidence : string }.

Record DriverClipboardSnapshot := { dcs_change_marker : string; dcs_text : option SensitiveText }.

Record DriverClipboardWriteOutput := {
  dcw_change_marker : string;
  dcw_effect_status : ActionEffectStatus;
  dcw_evidence_kind : ActionEvidenceKind;
}.

(** * Input activity ([activity.rs]) *)

Definition second : Z := 1000000000.
Definition INPUT_QUIET_PERIOD : Z := 2 * second.
Definition INPUT_WAIT_LIMIT : Z := 5 * second.

Record InputActivity := {
  last_input : option Z;
  input_held : bool;
  active_dispatches : Z;
}.

(** [InputActivity::remaining_quiet]; [elapsed] saturates at zero. *)
Definition remaining_quiet (a : InputActivity) (now quiet_period : Z) : Z :=
  if input_held a then quiet_period
  else match last_input a with
       | None => 0
       | Some last => sat_sub quiet_period (sat_sub now last)
       end.

(** [InputActivity::check_observation]. *)
Definition check_observation (a : InputActivity) (observed_at : option Z) : Result unit DriverError :=
  ensure_not
    (match observed_at, last_input a with
     | Some observed, Some last => observed <=? last
     | _, _ => false
     end)
    (mutation_not_dispatched (de_with_retry (driver_error DStaleObservation
      "user input changed the desktop after this observation; observe again within the existing session")
      "observe_window")) ;?
  Ok tt.

(** * The action guard ([DriverActionGuard], [DispatchLease]) *)

(** The cells shared by a session and every guard cloned from it.  A lease is
    an entry of [gs_leases] holding its [dispatched] flag; it is live until its
    last clone is dropped. *)
Record GuardState := {
  gs_interruption : Z;
  gs_closed : bool;
  gs_expires_at : Z;
  gs_activity : InputActivity;
  gs_leases : gmap nat bool;
  gs_next_lease : nat;
}.

(** [InputActivity::default], interruption 0, no lease. *)
Definition guard_init (closed : bool) (expires_at : Z) : GuardState :=
  {| gs_interruption := 0; gs_closed := closed; gs_expires_at := expires_at;
     gs_activity := {| last_input := None; input_held := false; active_dispatches := 0 |};
     gs_leases := ∅; gs_next_lease := 0 |}.

(** [DriverActionGuard::new]: a fresh lease that has not dispatched. *)
Definition guard_new (s : GuardState) : GuardState * nat :=
  ({| s with gs_leases := <[gs_next_lease s := false]> (gs_leases s);
             gs_next_lease := S (gs_next_lease s) |}, gs_next_lease s).

Definition was_dispatched (s : GuardState) (lease : nat) : bool :=
  default false (gs_leases s !! lease).

(** [compare_exchange(0, v)] on the interruption cell. *)
Definition interrupt (v : Z) (s : GuardState) : GuardState :=
  if gs_interruption s =? 0 then {| s with gs_interruption := v |} else s.

Definition user_took_over (s : GuardState) : GuardState := interrupt 1 s.
Definition activity_monitor_failed (s : GuardState) : GuardState := interrupt 2 s.

Definition record_user_input_state (s : GuardState) (now : Z) (held : bool) : GuardState :=
  let a := {| (gs_activity s) with last_input := Some now; input_held := held |} in
  let s' := {| s with gs_activity := a |} in
  if active_dispatches a =? 0 then s' else user_took_over s'.

Definition record_input_released (s : GuardState) : GuardState :=
  {| s with gs_activity := {| (gs_activity s) with input_held := false |} |}.

(** The disposition [check] attaches: indeterminate once dispatched. *)
Definition guard_disposition (s : GuardState) (lease : nat) (e : DriverError) : DriverError :=
  if was_dispatched s lease then mutation_indeterminate e else mutation_not_dispatched e.

(** [DriverActionGuard::check]. *)
Definition check (s : GuardState) (lease : nat) (now : Z) : Result unit DriverError :=
  if gs_closed s || (gs_expires_at s <=? now) then
    Err (guard_disposition s lease
           (driver_error DSessionUnavailable "action authority was closed or expired"))
  else if negb (gs_interruption s =? 0) then
    let error :=
      if gs_interruption s =? 1 then
        driver_error DUserActive
          "user input took over this session; host authorization is required to resume"
      else
        driver_error DPlatform "user activity monitoring lost coverage; this session cannot resume" in
    Err (guard_disposition s lease
           {| error with de_recovery_action := Some "request_new_bounded_session"%string |})
  else Ok tt.

Definition busy_error (message : string) : DriverError :=
  mutation_not_dispatched (de_with_retry (driver_error DBusy message) "wait_for_idle_then_observe").

(** [DriverActionGuard::begin_dispatch], under the activity lock. *)
Definition begin_dispatch (s : GuardState) (lease : nat) (observed_at : option Z) (now : Z)
    : GuardState * Result unit DriverError :=
  match check s lease now with
  | Err e => (s, Err e)
  | Ok _ =>
      if was_dispatched s lease then (s, Ok tt)
      else
        match check_observation (gs_activity s) observed_at with
        | Err e => (s, Err e)
        | Ok _ =>
            if negb (remaining_quiet (gs_activity s) now INPUT_QUIET_PERIOD =? 0) then
              (s, Err (busy_error "user input resumed before dispatch; wait for idle and observe again"))
            else
              ({| s with
                  gs_activity := {| (gs_activity s) with
                    active_dispatches := active_dispatches (gs_activity s) + 1 |};
                  gs_leases := <[lease := true]> (gs_leases s) |}, Ok tt)
        end
  end.

(** [Drop for DispatchLease]: [None] stands for the underflow of
    [active_dispatches -= 1]. *)
Definition drop_lease (s : GuardState) (lease : nat) : option GuardState :=
  let s' := {| s with gs_leases := delete lease (gs_leases s) |} in
  if was_dispatched s lease then
    if active_dispatches (gs_activity s) =? 0 then None
    else Some {| s' with gs_activity := {| (gs_activity s) with
                   active_dispatches := active_dispatches (gs_activity s) - 1 |} |}
  else Some s'.

(** [closed.swap(true)] of [Session::close] on the shared cell. *)
Definition close_cell (s : GuardState) : GuardState := {| s with gs_closed := true |}.

(** * The guard as a state machine *)

Inductive guard_event :=
| EvNew
| EvUserInput (now : Z) (held : bool)
| EvReleased
| EvTakeover
| EvMonitorFailed
| EvClose
| EvBegin (lease : nat) (observed_at : option Z) (now : Z)
| EvDrop (lease : nat).

(** Only a holder of a live lease can begin a dispatch with it or drop it;
    [None] is a step that cannot happen or that would underflow. *)
Definition apply_event (s : GuardState) (e : guard_event) : option GuardState :=
  match e with
  | EvNew => Some (fst (guard_new s))
  | EvUserInput now held => Some (record_user_input_state s now held)
  | EvReleased => Some (record_input_released s)
  | EvTakeover => Some (user_took_over s)
  | EvMonitorFailed => Some (activity_monitor_failed s)
  | EvClose => Some (close_cell s)
  | EvBegin lease observed now =>
      if gs_leases s !! lease is Some _ then Some (fst (begin_dispatch s lease observed now)) else None
  | EvDrop lease => if gs_leases s !! lease is Some _ then drop_lease s lease else None
  end.

Fixpoint run_events (s : GuardState) (es : list guard_event) : option GuardState :=
  match es with
  | [] => Some s
  | e :: es' => match apply_event s e with Some s' => run_events s' es' | None => None end
  end.

(** * Waiting for idle input

    [wait_for_idle] runs over any state that holds the guard cells and a
    clock; [sleep d] is [tokio::time::sleep(d)]: it lets at least [d]
    nanoseconds pass, during which other tasks may change the cells. *)

Definition poll_interval : Z := 25 * 1000000.

Section WaitForIdle.
Context {W : Type} (clock : W -> Z) (cells : W -> GuardState) (sleep : Z -> W -> W) (lease : nat).

Definition idle_poll (quiet_period deadline : Z) (w : W) : W + (W * Result unit DriverError) :=
  match check (cells w) lease (clock w) with
  | Err e => inr (w, Err e)
  | Ok _ =>
      let remaining := remaining_quiet (gs_activity (cells w)) (clock w) quiet_period in
      if remaining =? 0 then inr (w, Ok tt)
      else if deadline <=? clock w then
        inr (w, Err (busy_error "user input is still active; wait for idle and obtain a fresh observation"))
      else inl (sleep (Z.min remaining poll_interval) w)
  end.

(** [None] would be a wait that outlives its limit; each poll sleeps for at
    least one nanosecond, so [limit + 1] polls are enough. *)
Definition wait_for_idle (quiet_period limit : Z) (w : W) : option (W * Result unit DriverError) :=
  match bounded_loop (Z.to_pos (limit + 1)) (idle_poll quiet_period (clock w + limit)) w with
  | inr r => Some r
  | inl _ => None
  end.

End WaitForIdle.

(** * Lemmas *)

(** The number of live leases that have dispatched. *)
Definition dispatched_count (m : gmap nat bool) : Z := mcount (fun b => b) m.

Record guard_inv (s : GuardState) : Prop := {
  gi_active : active_dispatches (gs_activity s) = dispatched_count (gs_leases s);
  gi_fresh : forall l, is_Some (gs_leases s !! l) -> (l < gs_next_lease s)%nat;
  gi_cause : gs_interruption s = 0 \/ gs_interruption s = 1 \/ gs_interruption s = 2;
}.

Lemma was_dispatched_lookup s l b : gs_leases s !! l = Some b -> was_dispatched s l = b.
Proof. unfold was_dispatched. by intros ->. Qed.

Lemma interrupt_latched v s : gs_interruption s <> 0 -> interrupt v s = s.
Proof. unfold interrupt. by destruct (Z.eqb_spec (gs_interruption s) 0). Qed.

Lemma interrupt_nonzero v s : v <> 0 -> gs_interruption (interrupt v s) <> 0.
Proof. unfold interrupt. destruct (Z.eqb_spec (gs_interruption s) 0); simpl; lia. Qed.

Lemma interrupt_inv v s : v = 1 \/ v = 2 -> guard_inv s -> guard_inv (interrupt v s).
Proof. intros Hv []. unfold interrupt. case_match; [|done]. constructor; simpl; try done; lia. Qed.

Lemma begin_dispatch_cases s l ob now :
  (begin_dispatch s l ob now).1 = s \/
  was_dispatched s l = false /\
  (begin_dispatch s l ob now).1 =
    {| s with
       gs_activity := {| (gs_activity s) with
         active_dispatches := active_dispatches (gs_activity s) + 1 |};
       gs_leases := <[l := true]> (gs_leases s) |}.
Proof.
  unfold begin_dispatch. destruct (check s l now); [|by left].
  destruct (was_dispatched s l) eqn:E; [by left|].
  destruct (check_observation _ _); [|by left]. destruct (negb _); [by left | by right].
Qed.

Lemma begin_dispatch_inv s l ob now :
  is_Some (gs_leases s !! l) -> guard_inv s -> guard_inv (begin_dispatch s l ob now).1.
Proof.
  intros [b Hb] Hi. destruct (begin_dispatch_cases s l ob now) as [-> | [Hd ->]]; [done|].
  rewrite (was_dispatched_lookup _ _ _ Hb) in Hd. subst b. destruct Hi as [Ha Hf Hc].
  constructor; simpl; [| |done].
  - unfold dispatched_count in *. rewrite (mcount_insert_over _ _ _ _ _ Hb). simpl. lia.
  - intros k [->|Hk]%lookup_insert_is_Some'; [by apply Hf | by apply Hf].
Qed.

(** Dropping a live lease never underflows the dispatch counter. *)
Lemma drop_lease_inv s l :
  is_Some (gs_leases s !! l) -> guard_inv s -> exists s', drop_lease s l = Some s' /\ guard_inv s'.
Proof.
  intros [b Hb] [Ha Hf Hc]. unfold drop_lease. rewrite (was_dispatched_lookup _ _ _ Hb).
  pose proof (mcount_delete (fun b => b) _ _ _ Hb) as Hd. fold (dispatched_count (gs_leases s)) in Hd.
  fold (dispatched_count (delete l (gs_leases s))) in Hd.
  assert (Hf' : forall k, is_Some (delete l (gs_leases s) !! k) -> (k < gs_next_lease s)%nat).
  { intros k [? [_ Hk]%lookup_delete_Some]. apply Hf. eauto. }
  destruct b; cbn [b2z] in Hd; [|eexists; split; [done|]; constructor; simpl; [lia | done..]].
  pose proof (mcount_positive (fun b => b) _ _ _ Hb eq_refl) as Hpos.
  fold (dispatched_count (gs_leases s)) in Hpos.
  destruct (Z.eqb_spec (active_dispatches (gs_activity s)) 0); [lia|].
  eexists; split; [done|]; constructor; simpl; [lia | done..].
Qed.

Lemma apply_event_inv s e s' : guard_inv s -> apply_event s e = Some s' -> guard_inv s'.
Proof.
  intros Hi. destruct e; simpl; try (intros [= <-]).
  - destruct Hi as [Ha Hf Hc]. constructor; simpl; [| |done].
    + unfold dispatched_count in *. rewrite mcount_insert_new; [cbn [b2z]; lia|]. apply eq_None_not_Some. intros H%Hf. lia.
    + intros l [->|Hl]%lookup_insert_is_Some'; [lia|]. apply Hf in Hl. lia.
  - assert (guard_inv {| s with gs_activity :=
        {| (gs_activity s) with last_input := Some now; input_held := held |} |}) by (destruct Hi; by constructor).
    unfold record_user_input_state. simpl. case_match; [done|]. apply interrupt_inv; [by left | done].
  - destruct Hi; by constructor.
  - apply interrupt_inv; [by left | done].
  - apply interrupt_inv; [by right | done].
  - destruct Hi; by constructor.
  - destruct (gs_leases s !! lease) eqn:E; [|done]. intros [= <-]. apply begin_dispatch_inv; [by rewrite E | done].
  - destruct (gs_leases s !! lease) eqn:E; [|done]. intros Hd.
    destruct (drop_lease_inv s lease ltac:(by rewrite E) Hi) as (s1 & Hs1 & Hi1). naive_solver.
Qed.

Lemma run_events_inv es s s' : guard_inv s -> run_events s es = Some s' -> guard_inv s'.
Proof.
  revert s. induction es as [|e es IH]; intros s Hi; simpl; [by intros [= <-]|].
  destruct (apply_event s e) eqn:E; [|done]. apply IH. by eapply apply_event_inv.
Qed.

Lemma guard_init_inv closed exp : guard_inv (guard_init closed exp).
Proof.
  constructor; simpl; [| |by left].
  - apply eq_sym, mcount_empty.
  - intros l Hl. rewrite lookup_empty in Hl. by destruct Hl.
Qed.

(** A set interruption never changes again: the first cause wins. *)
Lemma apply_event_latched s e s' :
  gs_interruption s <> 0 -> apply_event s e = Some s' -> gs_interruption s' = gs_interruption s.
Proof.
  intros Hn. destruct e; simpl; try (intros [= <-]); try done.
  - unfold record_user_input_state. simpl. case_match; [done|].
    unfold user_took_over. by rewrite interrupt_latched.
  - unfold user_took_over. by rewrite interrupt_latched.
  - unfold activity_monitor_failed. by rewrite interrupt_latched.
  - destruct (gs_leases s !! lease); [|done]. intros [= <-].
    by destruct (begin_dispatch_cases s lease observed_at now) as [-> | [_ ->]].
  - destruct (gs_leases s !! lease); [|done]. unfold drop_lease.
    destruct (was_dispatched s lease); [|by intros [= <-]]. case_match; [done|]. by intros [= <-].
Qed.

Lemma run_events_latched es s s' :
  gs_interruption s <> 0 -> run_events s es = Some s' -> gs_interruption s' = gs_interruption s.
Proof.
  revert s. induction es as [|e es IH]; intros s Hn; simpl; [by intros [= <-]|].
  destruct (apply_event s e) as [s1|] eqn:E; [|done]. intros H.
  pose proof (apply_event_latched _ _ _ Hn E) as E1. rewrite <- E1. apply IH; [by rewrite E1 | done].
Qed.

(** A dispatched lease stays dispatched until it is dropped. *)
Lemma apply_event_dispatched s e s' l :
  gs_leases s !! l = Some true -> e <> EvDrop l -> apply_event s e = Some s' ->
  guard_inv s -> gs_leases s' !! l = Some true.
Proof.
  intros Hl He Ha Hi. destruct e; simpl in Ha; try injection Ha as <-; try done.
  - simpl. rewrite lookup_insert_ne; [done|]. intros Heq. pose proof (gi_fresh _ Hi l ltac:(eauto)). lia.
  - unfold record_user_input_state. simpl. case_match; [done|]. unfold user_took_over, interrupt. by case_match.
  - unfold user_took_over, interrupt. by case_match.
  - unfold activity_monitor_failed, interrupt. by case_match.
  - destruct (gs_leases s !! lease) eqn:E; [|done]. injection Ha as <-.
    destruct (begin_dispatch_cases s lease observed_at now) as [-> | [_ ->]]; [done|]. simpl.
    destruct (decide (lease = l)) as [->|]; [by rewrite lookup_insert_eq | by rewrite lookup_insert_ne].
  - destruct (gs_leases s !! lease) eqn:E; [|done]. assert (lease <> l) by naive_solver.
    unfold drop_lease in Ha. destruct (was_dispatched s lease); [case_match; [done|]|];
      injection Ha as <-; simpl; by rewrite lookup_delete_ne.
Qed.

Lemma run_events_dispatched es s s' l :
  gs_leases s !! l = Some true -> EvDrop l ∉ es -> run_events s es = Some s' ->
  guard_inv s -> gs_leases s' !! l = Some true.
Proof.
  revert s. induction es as [|e es IH]; intros s Hl He; simpl; [by intros [= <-]|].
  destruct (apply_event s e) as [s1|] eqn:E; [|done]. intros H Hi.
  apply not_elem_of_cons in He as [Hne He]. apply (IH s1); try done.
  - by eapply apply_event_dispatched.
  - by eapply apply_event_inv.
Qed.

Lemma run_events_app es1 es2 s :
  run_events s (es1 ++ es2) = match run_events s es1 with Some s' => run_events s' es2 | None => None end.
Proof. revert s. induction es1 as [|e es IH]; intros s; simpl; [done|]. by destruct (apply_event s e). Qed.

Lemma interrupted_check s l now : gs_interruption s <> 0 ->
  exists e, check s l now = Err e /\ de_retryable e = false /\
    de_mutation_status e = (if was_dispatched s l then Indeterminate else NotDispatched) /\
    (gs_closed s = false -> now < gs_expires_at s ->
     de_kind e = if gs_interruption s =? 1 then DUserActive else DPlatform).
Proof.
  intros Hn. unfold check, guard_disposition. destruct (gs_closed s); simpl.
  { eexists. split; [done|]. by destruct (was_dispatched s l). }
  destruct (Z.leb_spec (gs_expires_at s) now).
  { eexists. split; [done|]. destruct (was_dispatched s l); repeat split; intros; lia. }
  destruct (Z.eqb_spec (gs_interruption s) 0); [done|]. simpl.
  eexists. split; [done|]. by destruct (gs_interruption s =? 1), (was_dispatched s l).
Qed.

(** User input recorded while a dispatch is live latches an interruption. *)
Lemma user_input_interrupts s now held :
  guard_inv s -> (exists l, gs_leases s !! l = Some true) ->
  gs_interruption (record_user_input_state s now held) <> 0.
Proof.
  intros Hi [l Hl]. pose proof (mcount_positive (fun b => b) _ _ _ Hl eq_refl) as Hp. pose proof (gi_active _ Hi) as Ha. unfold dispatched_count in Ha.
  unfold record_user_input_state. simpl.
  destruct (Z.eqb_spec (active_dispatches (gs_activity s)) 0); [lia|]. by apply interrupt_nonzero.
Qed.

Lemma quiet_iff a now quiet : 0 < quiet ->
  remaining_quiet a now quiet = 0 <->
  input_held a = false /\ forall last, last_input a = Some last -> last + quiet <= now.
Proof.
  intros Hq. unfold remaining_quiet, sat_sub. destruct (input_held a); [naive_solver lia|].
  destruct (last_input a) as [last|]; [|naive_solver]. split.
  - intros H. split; [done|]. intros ? [= <-]. lia.
  - intros [_ H]. specialize (H _ eq_refl). lia.
Qed.

Lemma check_observation_Ok a ob :
  check_observation a ob = Ok tt <->
  forall last observed, last_input a = Some last -> ob = Some observed -> last < observed.
Proof.
  unfold check_observation. destruct ob as [o|], (last_input a) as [l|]; simpl; try (by split; naive_solver).
  destruct (Z.leb_spec o l); simpl; split; try done; intros H'; try naive_solver.
  specialize (H' _ _ eq_refl eq_refl). lia.
Qed.

Lemma check_observation_Err a ob e :
  check_observation a ob = Err e ->
  exists last observed, last_input a = Some last /\ ob = Some observed /\ observed <= last /\
    de_mutation_status e = NotDispatched.
Proof.
  unfold check_observation. destruct ob as [o|], (last_input a) as [l|]; simpl; try done.
  destruct (Z.leb_spec o l); simpl; [|done]. intros [= <-]. eauto 7.
Qed.

(** * Properties *)

(** In every reachable state of the guard cells the dispatch counter is
    the number of live leases that dispatched, lease ids are fresh, the
    interruption holds one of its three values, and dropping any live lease
    succeeds: the counter never underflows. *)
Theorem guard_invariant closed expires_at es s :
  run_events (guard_init closed expires_at) es = Some s ->
  guard_inv s /\ (forall l, is_Some (gs_leases s !! l) -> is_Some (drop_lease s l)).
Proof.
  intros H. assert (Hi : guard_inv s) by (eapply run_events_inv; [apply guard_init_inv | done]).
  split; [done|]. intros l Hl. destruct (drop_lease_inv s l Hl Hi) as (s' & -> & _). eauto.
Qed.

Lemma guard_invariant_witness :
  exists s, run_events (guard_init false 100) [EvNew; EvBegin 0 None 5; EvNew; EvUserInput 6 true; EvDrop 0] = Some s /\
    guard_inv s.
Proof.
  eexists. split; [reflexivity|].
  refine (proj1 (guard_invariant false 100 [EvNew; EvBegin 0 None 5; EvNew; EvUserInput 6 true; EvDrop 0] _ _)).
  reflexivity.
Defined.

(** User takeover.  Once a lease has dispatched, user input recorded at
    any later point while the lease is live permanently blocks the session:
    after any continuation, every guard check fails with a non-retryable
    error, indeterminate for a dispatched lease and not dispatched for the
    others, no further dispatch begins, and while the session is open and
    unexpired the error names the first cause (takeover, or lost monitoring
    if that came first). *)
Theorem user_takeover_latches closed expires_at es0 s0 l es1 now held es2 s :
  run_events (guard_init closed expires_at) es0 = Some s0 ->
  gs_leases s0 !! l = Some true -> EvDrop l ∉ es1 ->
  run_events s0 (es1 ++ EvUserInput now held :: es2) = Some s ->
  gs_interruption s <> 0 /\
  (gs_interruption s0 <> 0 -> gs_interruption s = gs_interruption s0) /\
  forall l' t ob,
    (begin_dispatch s l' ob t).1 = s /\
    exists e, check s l' t = Err e /\ (begin_dispatch s l' ob t).2 = Err e /\
      de_retryable e = false /\
      de_mutation_status e = (if was_dispatched s l' then Indeterminate else NotDispatched) /\
      (gs_closed s = false -> t < gs_expires_at s ->
       de_kind e = if gs_interruption s =? 1 then DUserActive else DPlatform).
Proof.
  intros H0 Hl Hd Hr.
  assert (Hi0 : guard_inv s0) by (eapply run_events_inv; [apply guard_init_inv | done]).
  assert (Hn : gs_interruption s <> 0).
  { rewrite run_events_app in Hr. destruct (run_events s0 es1) as [s1|] eqn:E1; [|done]. simpl in Hr.
    pose proof (run_events_inv _ _ _ Hi0 E1) as Hi1.
    pose proof (user_input_interrupts s1 now held Hi1 ltac:(eauto using run_events_dispatched)) as Hn.
    by rewrite (run_events_latched _ _ _ Hn Hr). }
  split; [done|]. split; [intros; by eapply run_events_latched|]. intros l' t ob.
  destruct (interrupted_check s l' t Hn) as (e & He & ? & ? & ?).
  unfold begin_dispatch. rewrite He. split; [done|]. by exists e.
Qed.

Lemma user_takeover_latches_witness :
  exists s, run_events (guard_init false 100)
    [EvNew; EvBegin 0 None 5; EvNew; EvUserInput 6 false; EvMonitorFailed] = Some s /\
    gs_interruption s <> 0 /\ exists e, check s 1 7 = Err e /\ de_mutation_status e = NotDispatched.
Proof.
  eexists. split; [reflexivity|].
  destruct (user_takeover_latches false 100 [EvNew; EvBegin 0 None 5]
    (fst (begin_dispatch (fst (guard_new (guard_init false 100))) 0 None 5)) 0 [EvNew] 6 false [EvMonitorFailed]
    _ ltac:(reflexivity) ltac:(reflexivity) ltac:(set_solver) ltac:(reflexivity)) as (H1 & _ & H2).
  split; [exact H1|]. destruct (H2 1%nat 7 None) as (_ & e & He & _ & _ & Hm & _).
  exists e. split; [exact He | exact Hm].
Defined.

(** When a dispatch may begin.  [begin_dispatch] succeeds exactly when the
    session is open, unexpired and not interrupted and the lease has already
    dispatched or no input is held, the last input is older than the
    observation and at least two seconds old; success marks the lease and
    counts it once; a refusal changes nothing and carries the disposition
    known for the lease. *)
Theorem begin_dispatch_spec s l ob now :
  let '(s', r) := begin_dispatch s l ob now in
  (r = Ok tt <->
     gs_closed s = false /\ now < gs_expires_at s /\ gs_interruption s = 0 /\
     (was_dispatched s l = true \/
      input_held (gs_activity s) = false /\
      forall last, last_input (gs_activity s) = Some last ->
        last + INPUT_QUIET_PERIOD <= now /\ forall observed, ob = Some observed -> last < observed)) /\
  (r = Ok tt ->
     was_dispatched s' l = true /\
     active_dispatches (gs_activity s') =
       active_dispatches (gs_activity s) + (if was_dispatched s l then 0 else 1)) /\
  (forall e, r = Err e ->
     s' = s /\ de_mutation_status e = if was_dispatched s l then Indeterminate else NotDispatched).
Proof.
  unfold begin_dispatch, check, guard_disposition.
  destruct (gs_closed s) eqn:Ec; simpl.
  { split; [naive_solver|]. split; [done|]. intros e [= <-]. by destruct (was_dispatched s l). }
  destruct (Z.leb_spec (gs_expires_at s) now).
  { split; [naive_solver lia|]. split; [done|]. intros e [= <-]. by destruct (was_dispatched s l). }
  destruct (Z.eqb_spec (gs_interruption s) 0); simpl.
  2:{ split; [naive_solver|]. split; [done|]. intros e [= <-].
      by destruct (was_dispatched s l), (gs_interruption s =? 1). }
  destruct (was_dispatched s l) eqn:Ed; simpl.
  { split; [naive_solver|]. split; [|done]. split; [done | lia]. }
  destruct (check_observation (gs_activity s) ob) as [[]|e0] eqn:Eo.
  2:{ destruct (check_observation_Err _ _ _ Eo) as (last & observed & El & -> & ? & Hs).
      split; [split; [done|] | split; [done | naive_solver]].
      intros (_ & _ & _ & [?|[_ H']]); [done|]. destruct (H' _ El) as [_ H'']. specialize (H'' _ eq_refl). lia. }
  pose proof (quiet_iff (gs_activity s) now INPUT_QUIET_PERIOD ltac:(done)) as Hq.
  destruct (Z.eqb_spec (remaining_quiet (gs_activity s) now INPUT_QUIET_PERIOD) 0) as [E|E]; simpl.
  - apply Hq in E as [Hh Hl]. rewrite check_observation_Ok in Eo. split; [|split; [|done]].
    + split; [|done]. intros _. repeat split; try done. right. split; [done|]. intros last El.
      split; [by apply Hl|]. intros observed ->. by apply Eo.
    + intros _. split; [|lia]. unfold was_dispatched. simpl. by rewrite lookup_insert_eq.
  - split; [split; [done|] | split; [done | naive_solver]].
    intros (_ & _ & _ & [?|[Hh Hl]]); [done|]. destruct E. apply Hq. split; [done|].
    intros last El. by apply Hl.
Qed.

Lemma idle_poll_decreases {W} (clock : W -> Z) cells sleep lease quiet deadline :
  (forall d w, clock w + d <= clock (sleep d w)) -> 0 < quiet ->
  forall w w', idle_poll clock cells sleep lease quiet deadline w = inl w' ->
  0 <= Z.max 0 (deadline - clock w') < Z.max 0 (deadline - clock w).
Proof.
  intros Hs Hq w w'. unfold idle_poll. destruct (check _ _ _); [|done].
  destruct (Z.eqb_spec (remaining_quiet (gs_activity (cells w)) (clock w) quiet) 0) as [|Hr]; [done|].
  destruct (Z.leb_spec deadline (clock w)); [done|]. intros [= <-].
  pose proof (Hs (Z.min (remaining_quiet (gs_activity (cells w)) (clock w) quiet) poll_interval) w).
  assert (0 < remaining_quiet (gs_activity (cells w)) (clock w) quiet).
  { unfold remaining_quiet, sat_sub in *. destruct (input_held _); [lia|]. destruct (last_input _); lia. }
  unfold poll_interval in *. lia.
Qed.

(** Waiting for idle input always ends, whatever other tasks do to the
    cells while it sleeps, provided a sleep lets the time it asks for pass.  It
    returns [Ok] only in a state where the guard check succeeds and the input
    has been quiet for the whole period; otherwise it returns the guard's own
    error, or, not before the limit has passed, a retryable [Busy] marked as
    not dispatched. *)
Theorem wait_for_idle_returns {W} (clock : W -> Z) cells sleep lease quiet limit w :
  (forall d w, clock w + d <= clock (sleep d w)) -> 0 < quiet -> 0 <= limit ->
  exists w' r, wait_for_idle clock cells sleep lease quiet limit w = Some (w', r) /\
    match r with
    | Ok _ =>
        check (cells w') lease (clock w') = Ok tt /\
        input_held (gs_activity (cells w')) = false /\
        (forall last, last_input (gs_activity (cells w')) = Some last -> last + quiet <= clock w')
    | Err e =>
        check (cells w') lease (clock w') = Err e \/
        clock w + limit <= clock w' /\ de_kind e = DBusy /\ de_retryable e = true /\
        de_mutation_status e = NotDispatched
    end.
Proof.
  intros Hs Hq Hl. unfold wait_for_idle.
  pose proof (bounded_loop_returns (idle_poll clock cells sleep lease quiet (clock w + limit))
    (fun v => Z.max 0 (clock w + limit - clock v)) (Z.to_pos (limit + 1)) w
    (idle_poll_decreases _ _ _ _ _ _ Hs Hq) ltac:(lia)) as [[w' r] Hr].
  rewrite Hr. exists w', r. split; [done|].
  pose proof (bounded_loop_inv (idle_poll clock cells sleep lease quiet (clock w + limit)) (fun _ => True)
    (fun p : W * Result unit DriverError => match p.2 with
     | Ok _ => check (cells p.1) lease (clock p.1) = Ok tt /\
         remaining_quiet (gs_activity (cells p.1)) (clock p.1) quiet = 0
     | Err e => check (cells p.1) lease (clock p.1) = Err e \/
         clock w + limit <= clock p.1 /\ de_kind e = DBusy /\ de_retryable e = true /\
         de_mutation_status e = NotDispatched end) (Z.to_pos (limit + 1)) w) as Hinv.
  rewrite Hr in Hinv. cbn [fst snd] in Hinv. destruct r as [[]|e]; [rewrite quiet_iff in Hinv by done|];
    apply Hinv; try done; clear; intros v _; unfold idle_poll;
    (destruct (check _ _ _) as [[]|] eqn:E; [|by left]);
    (destruct (Z.eqb_spec (remaining_quiet (gs_activity (cells v)) (clock v) quiet) 0); [done|]);
    (destruct (Z.leb_spec (clock w + limit) (clock v)); [by right | done]).
Qed.

(** A clock with one guard state, whose sleep advances the clock exactly. *)
Lemma wait_for_idle_returns_witness :
  let held := record_user_input_state (fst (guard_new (guard_init false (100 * second)))) 0 true in
  exists w' e, wait_for_idle fst snd (fun d (w : Z * GuardState) => (fst w + d, snd w)) 0
                 INPUT_QUIET_PERIOD INPUT_WAIT_LIMIT (0, held) = Some (w', Err e) /\ de_kind e = DBusy.
Proof.
  intros held.
  destruct (wait_for_idle_returns fst snd (fun d (w : Z * GuardState) => (fst w + d, snd w)) 0
    INPUT_QUIET_PERIOD INPUT_WAIT_LIMIT (0, held) ltac:(simpl; lia) ltac:(reflexivity) ltac:(discriminate))
    as (w' & r & Hr & H).
  assert (Hw : Some (w', r) = Some ((5 * second, held), Err (busy_error
    "user input is still active; wait for idle and obtain a fresh observation")))
    by (rewrite <- Hr; vm_compute; reflexivity).
  injection Hw as -> ->. eexists _, _. split; [exact Hr | reflexivity].
Defined.
