(* ===== verification/Session.v ===== *)
(** Session state and public-reference projection:
    [src/crates/runtime/src/session.rs].

    A session maps opaque public references to driver objects, keeps its
    observations with their validity status, and holds at most one clipboard
    guard.  UUIDs are drawn from [UuidSource] by a counter the operations
    thread; the iteration order of hash maps is a [HashOrder].  The theorems
    show that the reference tables stay bijective, that trimming drops the
    oldest observations first, that a clipboard guard is single use, and that
    a resolved action reaches only elements and points of its observation. *)

From S2P Require Import Prelude Floats Geometry Protocol Errors Driver Validation.

(** * Data *)

Inductive ObservationStatus := Valid | InFlight | Invalid.

#[export] Instance ObservationStatus_eq_dec : EqDecision ObservationStatus.
Proof. solve_decision. Defined.

Record ObservationRecord := {
  ob_application_scene : bool;
  ob_id : ObservationId;
  ob_window_ref : WindowRef;
  ob_screenshot_mapping : option ScreenshotMapping;
  ob_fingerprint : string;
  ob_created_at : Z;
  ob_status : ObservationStatus;
  ob_elements : gmap string DriverElement;
}.

Record ClipboardRecord := { cr_id : ClipboardRef; cr_change_marker : string }.

Record SessionState := {
  st_applications : gmap string DriverApplication;
  st_application_refs : gmap string string;
  st_windows : gmap string DriverWindow;
  st_window_refs : gmap string string;
  st_displays : gmap string DriverDisplay;
  st_display_refs : gmap string string;
  st_observations : gmap string ObservationRecord;
  st_clipboard : option ClipboardRecord;
}.

(** [SessionState::default]. *)
Definition session_state_default : SessionState :=
  {| st_applications := ∅; st_application_refs := ∅; st_windows := ∅; st_window_refs := ∅;
     st_displays := ∅; st_display_refs := ∅; st_observations := ∅; st_clipboard := None |}.

(** [Session] without its driver handle; [se_guard] holds the cells shared with
    the driver's guards: [activity], [interruption], [closed], [expires_at]. *)
Record Session := {
  se_id : SessionId;
  se_guard : GuardState;
  se_manifest : CapabilityManifest;
  se_allowed_applications : list DriverApplication;
  se_state : SessionState;
}.

Definition se_expires_at (s : Session) : Z := gs_expires_at (se_guard s).
Definition se_closed (s : Session) : bool := gs_closed (se_guard s).

(** [Session::allows_application]. *)
Definition allows_application (s : Session) (a : DriverApplication) : bool :=
  existsb (fun allowed => matches_generation allowed a) (se_allowed_applications s).

(** * Operations *)

Definition stale_observation : CuaError :=
  public_error StaleObservation "observation is expired, invalidated, or no longer current" true
    (Some "observe_window"%string).

Section Projection.
Context `{UuidSource}.

(** A reference drawn with the [n]-th UUID. *)
Definition fresh_ref (prefix : string) (n : nat) : string := prefix +:+ uuid n.

(** The common body of the three [project_*] methods: an object whose key is
    known keeps its reference and refreshes the entry, a new one gets a fresh
    reference.  Returns the two tables, the counter and the reference. *)
Definition project_ref {A} (prefix key : string) (a : A) (refs : gmap string string)
    (table : gmap string A) (n : nat) : gmap string string * gmap string A * nat * string :=
  match refs !! key with
  | Some existing => (refs, <[existing := a]> table, n, existing)
  | None =>
      let r := fresh_ref prefix n in
      (<[key := r]> refs, <[r := a]> table, S n, r)
  end.

Definition project_application (st : SessionState) (n : nat) (a : DriverApplication)
    : SessionState * nat * AppRef :=
  let '(refs, table, n', r) :=
    project_ref "app_" (dap_key a) a (st_application_refs st) (st_applications st) n in
  ({| st with st_applications := table; st_application_refs := refs |}, n', r).

Definition project_window (st : SessionState) (n : nat) (w : DriverWindow)
    : SessionState * nat * WindowRef :=
  let '(refs, table, n', r) :=
    project_ref "window_" (dw_key w) w (st_window_refs st) (st_windows st) n in
  ({| st with st_windows := table; st_window_refs := refs |}, n', r).

Definition project_display (st : SessionState) (n : nat) (d : DriverDisplay)
    : SessionState * nat * DisplayRef :=
  let '(refs, table, n', r) :=
    project_ref "display_" (dd_key d) d (st_display_refs st) (st_displays st) n in
  ({| st with st_displays := table; st_display_refs := refs |}, n', r).

Definition invalidate (o : ObservationRecord) : ObservationRecord := {| o with ob_status := Invalid |}.

Definition invalidate_if (f : ObservationRecord -> bool) (st : SessionState) : SessionState :=
  {| st with st_observations := (fun o => if f o then invalidate o else o) <$> st_observations st |}.

Definition invalidate_window_observations (st : SessionState) (window_ref : WindowRef) : SessionState :=
  invalidate_if (fun o => str_eqb (ob_window_ref o) window_ref) st.

Definition invalidate_application_observations (st : SessionState) (a : DriverApplication) : SessionState :=
  let affected := filter (fun p => matches_generation (dw_application p.2) a = true) (st_windows st) in
  invalidate_if (fun o => bool_decide (is_Some (affected !! ob_window_ref o))) st.

Definition created_le (a b : string * Z) : bool := a.2 <=? b.2.

Definition trim_observations `{HashOrder} (st : SessionState) (limit : Z) : SessionState :=
  if msize (st_observations st) <? limit then st
  else
    let remove_count := sat_sub (msize (st_observations st)) limit + 1 in
    let ordered := sort_by created_le ((fun p => (p.1, ob_created_at p.2)) <$> hash_iter (st_observations st)) in
    {| st with st_observations :=
         foldr (fun p m => delete p.1 m) (st_observations st) (truncate remove_count ordered) |}.

Definition project_clipboard (st : SessionState) (n : nat) (change_marker : string)
    : SessionState * nat * ClipboardRef :=
  let r := fresh_ref "clipboard_" n in
  ({| st with st_clipboard := Some {| cr_id := r; cr_change_marker := change_marker |} |}, S n, r).

Definition take_clipboard_marker (st : SessionState) (clipboard_ref : ClipboardRef)
    : SessionState * option string :=
  match st_clipboard st with
  | Some record =>
      if str_eqb (cr_id record) clipboard_ref
      then ({| st with st_clipboard := None |}, Some (cr_change_marker record))
      else (st, None)
  | None => (st, None)
  end.

(** The references of the selected elements, drawn in order; a later element
    with the same key replaces the reference of an earlier one. *)
Fixpoint element_refs (l : list DriverElement) (n : nat) (m : gmap string string) : gmap string string :=
  match l with
  | [] => m
  | e :: l' => element_refs l' (S n) (<[el_key e := fresh_ref "element_" n]> m)
  end.

Definition project_element (refs : gmap string string) (e : DriverElement) (r : ElementRef)
    : AccessibilityElement :=
  {| ae_element_ref := r;
     ae_parent_ref := match el_parent_key e with Some key => refs !! key | None => None end;
     ae_role := el_role e; ae_name := el_name e; ae_value := el_value e;
     ae_range_value := el_range_value e; ae_screen_bounds := el_screen_bounds e;
     ae_enabled := el_enabled e; ae_focused := el_focused e; ae_selected := el_selected e;
     ae_checked := el_checked e; ae_expanded := el_expanded e; ae_actions := el_actions e |}.

(** The loop over the selected elements; [None] is the panic of [expect]. *)
Fixpoint project_elements (refs : gmap string string) (l : list DriverElement)
    (internal : gmap string DriverElement) : option (gmap string DriverElement * list AccessibilityElement) :=
  match l with
  | [] => Some (internal, [])
  | e :: l' =>
      match refs !! el_key e with
      | None => None
      | Some r =>
          match project_elements refs l' (<[r := e]> internal) with
          | None => None
          | Some (internal', public) => Some (internal', project_element refs e r :: public)
          end
      end
  end.

Definition project_observation (o : DriverObservation) (window_ref : WindowRef)
    (mapping : option ScreenshotMapping) (max_elements : Z) (now : Z) (n : nat)
    : option (ObservationRecord * list AccessibilityElement * nat) :=
  let observation_id := fresh_ref "observation_" n in
  let selected := truncate max_elements (dob_elements o) in
  let refs_by_key := element_refs selected (S n) ∅ in
  match project_elements refs_by_key selected ∅ with
  | None => None
  | Some (internal, public) =>
      Some ({| ob_application_scene := false; ob_id := observation_id; ob_window_ref := window_ref;
               ob_screenshot_mapping := mapping; ob_fingerprint := dob_fingerprint o;
               ob_created_at := now; ob_status := Valid; ob_elements := internal |},
            public, (S n + length selected)%nat)
  end.

End Projection.

Definition validate_scene_delivery (a : Action) (o : ObservationRecord) : Result unit CuaError :=
  ensure_not
    (ob_application_scene o
     && match a with ClickPoint _ _ _ Prefer_Background => true | _ => false end)
    (public_error Unsupported
       "application scene clicks require the foreground route; use an exact-window observation for background delivery"
       false (Some "observe_window"%string)) ;?
  Ok tt.

Definition resolve_screenshot_point (p : NormalizedPoint) (o : ObservationRecord)
    : Result ScreenPoint CuaError :=
  ok_or
    (match ob_screenshot_mapping o with
     | Some mapping =>
         match to_pixel p (sm_pixel_size mapping) with
         | Some pixel => to_screen mapping pixel
         | None => None
         end
     | None => None
     end)
    (public_error InvalidRequest "point cannot be resolved through the guarded screenshot mapping"
       false None).

Definition resolve_range_value (r : ElementRef) (value : f64) (o : ObservationRecord)
    : Result DriverAction CuaError :=
  let? element := ok_or (ob_elements o !! r) stale_observation in
  let? range := ok_or (el_range_value element)
    (public_error InvalidRequest "element does not expose a numeric range value" false
       (Some "observe_window"%string)) in
  ensure_not
    (negb (el_enabled element) || rv_read_only range || f64_lt value (rv_minimum range)
     || f64_gt value (rv_maximum range))
    (public_error InvalidRequest
       "numeric range value is disabled, read-only, or outside the observed bounds" false
       (Some "fix_request"%string)) ;?
  Ok (DASetRangeValue (el_key element) value).

Definition resolve_action (a : Action) (o : ObservationRecord) : Result DriverAction CuaError :=
  validate_scene_delivery a o ;?
  let element_key r := rmap el_key (ok_or (ob_elements o !! r) stale_observation) in
  match a with
  | FocusWindow => Ok DAFocusWindow
  | SetWindowBounds bounds => Ok (DASetWindowBounds bounds)
  | SetWindowMinimized minimized => Ok (DASetWindowMinimized minimized)
  | TerminateApplication => Ok DATerminateApplication
  | FocusElement r => let? k := element_key r in Ok (DAFocusElement k)
  | InvokeElement r => let? k := element_key r in Ok (DAInvokeElement k)
  | ClickPoint point button count delivery =>
      let? p := resolve_screenshot_point point o in Ok (DAClickPoint p button count delivery)
  | PressPoint point button duration_ms =>
      let? p := resolve_screenshot_point point o in Ok (DAPressPoint p button duration_ms)
  | SetValue r value => let? k := element_key r in Ok (DASetValue k value)
  | SetRangeValue r value => resolve_range_value r value o
  | ToggleElement r => let? k := element_key r in Ok (DAToggleElement k)
  | SelectElement r => let? k := element_key r in Ok (DASelectElement k)
  | SetExpanded r expanded => let? k := element_key r in Ok (DASetExpanded k expanded)
  | MovePointer point duration_ms =>
      let? p := resolve_screenshot_point point o in Ok (DAMovePointer p duration_ms)
  | TypeText text => Ok (DATypeText text)
  | PressKeys keys => Ok (DAPressKeys keys)
  | Scroll point delta_x delta_y =>
      let? p := resolve_screenshot_point point o in Ok (DAScroll p delta_x delta_y)
  | Drag from to duration_ms =>
      let? p := resolve_screenshot_point from o in
      let? q := resolve_screenshot_point to o in
      Ok (DADrag p q duration_ms)
  end.

(** * Lemmas *)

Section Lemmas.
Context `{UuidSource}.

Lemma fresh_ref_inj p i j : fresh_ref p i = fresh_ref p j -> i = j.
Proof. unfold fresh_ref. intros Hp%string_app_inj_l. by apply uuid_inj. Qed.

(** A pair of tables in which keys and references determine each other, all
    references drawn before [n]. *)
Record refs_ok {A} (prefix : string) (key : A -> string) (n : nat)
    (refs : gmap string string) (table : gmap string A) : Prop := {
  ro_forward : forall k r, refs !! k = Some r -> exists a, table !! r = Some a /\ key a = k;
  ro_backward : forall r a, table !! r = Some a -> refs !! key a = Some r;
  ro_drawn : forall k r, refs !! k = Some r -> exists i, (i < n)%nat /\ r = fresh_ref prefix i;
}.

Lemma refs_ok_empty {A} prefix (key : A -> string) n : refs_ok prefix key n ∅ ∅.
Proof. constructor; intros ? ? Hl; by rewrite lookup_empty in Hl. Qed.

Lemma refs_ok_mono {A} prefix (key : A -> string) n n' refs table :
  (n <= n')%nat -> refs_ok prefix key n refs table -> refs_ok prefix key n' refs table.
Proof.
  intros Hn [Hf Hb Hd]. constructor; [done..|]. intros k r (i & ? & ->)%Hd. exists i. split; [lia | done].
Qed.

Lemma refs_ok_fresh {A} prefix (key : A -> string) n refs table :
  refs_ok prefix key n refs table -> table !! fresh_ref prefix n = None.
Proof.
  intros [Hf Hb Hd]. destruct (table !! _) as [a|] eqn:E; [|done]. exfalso.
  apply Hb, Hd in E as (i & ? & Hi%fresh_ref_inj). lia.
Qed.

Lemma project_ref_ok {A} prefix (key : A -> string) a refs table n refs' table' n' r :
  refs_ok prefix key n refs table ->
  project_ref prefix (key a) a refs table n = (refs', table', n', r) ->
  refs_ok prefix key n' refs' table' /\ table' !! r = Some a /\ refs' !! key a = Some r /\
  refs ⊆ refs' /\ (n <= n')%nat.
Proof.
  intros Hok. pose proof (refs_ok_fresh _ _ _ _ _ Hok) as Hfresh. destruct Hok as [Hf Hb Hd].
  unfold project_ref. destruct (refs !! key a) as [ex|] eqn:E; intros [= <- <- <- <-].
  - repeat split; try done; [|..|by rewrite lookup_insert_eq].
    + intros k r Hk. destruct (Hf _ _ Hk) as (b & Hr & Hkb). destruct (decide (r = ex)) as [->|Hne].
      * exists a. rewrite lookup_insert_eq. split; [done|]. destruct (Hf _ _ E) as (b' & Hb' & Hkey). naive_solver.
      * exists b. by rewrite lookup_insert_ne.
    + intros r b [[<- <-]|[_ Hr]]%lookup_insert_Some; [done | by apply Hb].
  - repeat split; try by rewrite lookup_insert_eq.
    + intros k r [[<- <-]|[Hne Hk]]%lookup_insert_Some; [exists a; by rewrite lookup_insert_eq|].
      destruct (Hf _ _ Hk) as (b & Hr & Hkb). exists b. split; [|done].
      rewrite lookup_insert_ne; [done|]. intros <-. by rewrite Hfresh in Hr.
    + intros r b [[<- <-]|[_ Hr]]%lookup_insert_Some; [by rewrite lookup_insert_eq|].
      rewrite lookup_insert_ne; [by apply Hb|]. intros Hk. apply Hb in Hr. rewrite <- Hk in Hr. by rewrite E in Hr.
    + intros k r [[<- <-]|[_ Hk]]%lookup_insert_Some; [eauto|].
      destruct (Hd _ _ Hk) as (i & ? & ->). exists i. split; [lia | done].
    + by apply insert_subseteq.
    + lia.
Qed.

(** The three reference tables of a session are bijective. *)
Record session_refs_ok (st : SessionState) (n : nat) : Prop := {
  sr_apps : refs_ok "app_" dap_key n (st_application_refs st) (st_applications st);
  sr_windows : refs_ok "window_" dw_key n (st_window_refs st) (st_windows st);
  sr_displays : refs_ok "display_" dd_key n (st_display_refs st) (st_displays st);
}.

Lemma session_refs_default n : session_refs_ok session_state_default n.
Proof. constructor; apply refs_ok_empty. Qed.

(** ** Removing observations *)

Lemma foldr_delete_lookup {A} (l : list (string * Z)) (m : gmap string A) k v :
  foldr (fun p m => delete p.1 m) m l !! k = Some v <-> m !! k = Some v /\ (k ∉ l.*1).
Proof.
  induction l as [|p l IH]; simpl; [set_solver|].
  rewrite lookup_delete_Some, IH. rewrite not_elem_of_cons. naive_solver.
Qed.

Lemma foldr_delete_size {A} (l : list (string * Z)) (m : gmap string A) :
  NoDup l.*1 -> (forall k, k ∈ l.*1 -> is_Some (m !! k)) ->
  msize (foldr (fun p m => delete p.1 m) m l) = msize m - zlen l.
Proof.
  induction l as [|p l IH]; simpl; intros Hnd Hin; [unfold zlen; simpl; lia|].
  apply NoDup_cons in Hnd as [Hp Hnd]. rewrite zlen_cons, msize_delete_Some.
  - rewrite IH by (set_solver || done). lia.
  - destruct (Hin p.1 ltac:(set_solver)) as [v Hv]. exists v. by apply foldr_delete_lookup.
Qed.

Lemma created_le_total a b : created_le a b = false -> created_le b a = true.
Proof. unfold created_le. zbool. lia. Qed.

#[local] Instance created_le_trans : Transitive (fun a b : string * Z => created_le a b = true).
Proof. intros a b c. unfold created_le. zbool. lia. Qed.

(** Every entry that trimming drops is at most as recent as every entry it
    keeps. *)
Lemma trim_drops_oldest `{HashOrder} st limit id o id' o' :
  st_observations st !! id = Some o ->
  st_observations (trim_observations st limit) !! id = None ->
  st_observations (trim_observations st limit) !! id' = Some o' ->
  ob_created_at o <= ob_created_at o'.
Proof.
  unfold trim_observations. destruct (_ <? _); [congruence|]. simpl.
  set (l := sort_by _ _). set (c := sat_sub _ _ + 1). intros Ho Hnone [Ho' Hkeep]%foldr_delete_lookup.
  assert (Hel : forall k v, st_observations st !! k = Some v -> (k, ob_created_at v) ∈ l).
  { intros k v Hk. unfold l. rewrite sort_by_perm. apply list_elem_of_fmap. exists (k, v).
    split; [done|]. rewrite hash_iter_perm. by apply elem_of_map_to_list. }
  assert (Hgone : id ∈ (truncate c l).*1).
  { destruct (decide (id ∈ (truncate c l).*1)); [done|]. exfalso.
    assert (Some o = None) as [=]. rewrite <- Hnone. symmetry. by apply foldr_delete_lookup. }
  assert (Hs : StronglySorted (fun a b => created_le a b = true) (take (Z.to_nat c) l ++ drop (Z.to_nat c) l)).
  { rewrite take_drop. apply Sorted_StronglySorted; [apply created_le_trans|].
    apply sort_by_sorted, created_le_total. }
  apply list_elem_of_fmap in Hgone as ([k t] & -> & Hk). simpl in *.
  assert (t = ob_created_at o) as ->.
  { assert ((k, t) ∈ l) as Hkt by (by apply subseteq_take in Hk).
    unfold l in Hkt. rewrite sort_by_perm in Hkt. apply list_elem_of_fmap in Hkt as ([k' v] & [= -> ->] & Hv).
    rewrite hash_iter_perm in Hv. apply elem_of_map_to_list in Hv. naive_solver. }
  assert (Hd : (id', ob_created_at o') ∈ drop (Z.to_nat c) l).
  { pose proof (Hel _ _ Ho') as Hl. rewrite <- (take_drop (Z.to_nat c) l) in Hl.
    apply elem_of_app in Hl as [Hl|Hl]; [|done]. destruct Hkeep.
    apply list_elem_of_fmap. by exists (id', ob_created_at o'). }
  pose proof (StronglySorted_app_1_elem_of _ _ _ _ _ Hs Hk Hd) as Hle. unfold created_le in Hle. simpl in Hle. lia.
Qed.

Lemma trim_size `{HashOrder} st limit : 1 <= limit ->
  msize (st_observations (trim_observations st limit)) = Z.min (msize (st_observations st)) (limit - 1).
Proof.
  intros Hl. unfold trim_observations. destruct (Z.ltb_spec (msize (st_observations st)) limit); [lia|].
  simpl. set (l := sort_by _ _). set (c := sat_sub _ _ + 1).
  assert (Hfst : l.*1 ≡ₚ (map_to_list (st_observations st)).*1).
  { unfold l. rewrite sort_by_perm, hash_iter_perm. rewrite <- list_fmap_compose. done. }
  assert (Hlen : zlen l = msize (st_observations st)).
  { unfold zlen, msize. rewrite <- (length_fmap fst l), Hfst, length_fmap, length_map_to_list. done. }
  rewrite foldr_delete_size.
  - rewrite zlen_truncate by (unfold c, sat_sub; lia). unfold c, sat_sub in *. lia.
  - unfold truncate. rewrite fmap_take. apply (sublist_NoDup _ l.*1); [|apply sublist_take].
    rewrite Hfst. apply NoDup_fst_map_to_list.
  - intros k Hk. unfold truncate in Hk. rewrite fmap_take in Hk. apply subseteq_take in Hk.
    rewrite Hfst in Hk. apply list_elem_of_fmap in Hk as ([k' v] & -> & Hv%elem_of_map_to_list). eauto.
Qed.

Lemma trim_sub `{HashOrder} st limit : st_observations (trim_observations st limit) ⊆ st_observations st.
Proof.
  unfold trim_observations. destruct (_ <? _); [done|]. simpl. apply map_subseteq_spec.
  by intros k v [? _]%foldr_delete_lookup.
Qed.

End Lemmas.

(** * Projection of observations *)

Section Observation.
Context `{UuidSource}.

Lemma element_refs_keep l n m k r :
  m !! k = Some r -> exists r', element_refs l n m !! k = Some r'.
Proof.
  revert n m r. induction l as [|e l IH]; intros n m r Hk; simpl; [eauto|].
  destruct (decide (el_key e = k)) as [<-|].
  - eapply IH. by rewrite lookup_insert_eq.
  - eapply IH. by rewrite lookup_insert_ne.
Qed.

Lemma element_refs_all l n m e : e ∈ l -> exists r, element_refs l n m !! el_key e = Some r.
Proof.
  revert n m. induction l as [|x l IH]; intros n m; [set_solver|]. simpl.
  intros [->|He]%elem_of_cons; [|by apply IH].
  eapply element_refs_keep. by rewrite lookup_insert_eq.
Qed.

(** Every reference is drawn from the counter, and keys share none. *)
Lemma element_refs_drawn l n m :
  (forall k r, m !! k = Some r -> exists i, (i < n)%nat /\ r = fresh_ref "element_" i) ->
  (forall k k' r, m !! k = Some r -> m !! k' = Some r -> k = k') ->
  let m' := element_refs l n m in
  (forall k r, m' !! k = Some r -> (exists i, (i < n + length l)%nat /\ r = fresh_ref "element_" i) /\
     (is_Some (m !! k) \/ exists e, e ∈ l /\ el_key e = k)) /\
  (forall k k' r, m' !! k = Some r -> m' !! k' = Some r -> k = k').
Proof.
  revert n m. induction l as [|e l IH]; intros n m Hd Hi; cbn [element_refs].
  { split; [|done]. intros k r Hk. split; [|eauto]. destruct (Hd _ _ Hk) as (i & ? & ?). exists i. simpl. split; [lia | done]. }
  destruct (IH (S n) (<[el_key e := fresh_ref "element_" n]> m)) as [H1 H2].
  - intros k r [[<- <-]|[_ Hk]]%lookup_insert_Some; [eauto|].
    destruct (Hd _ _ Hk) as (i & ? & ->). exists i. split; [lia | done].
  - intros k k' r [[<- <-]|[Hne Hk]]%lookup_insert_Some [[<- E]|[Hne' Hk']]%lookup_insert_Some; try done.
    + destruct (Hd _ _ Hk') as (i & ? & Hr%fresh_ref_inj). lia.
    + subst r. destruct (Hd _ _ Hk) as (i & ? & Hr%fresh_ref_inj). lia.
    + by eapply Hi.
  - split; [|done]. intros k r Hk. destruct (H1 _ _ Hk) as [(i & ? & ->) Ho].
    split; [exists i; simpl; split; [lia|done]|]. destruct Ho as [Ho|(e' & ? & <-)]; [|right; set_solver].
    apply lookup_insert_is_Some' in Ho as [<-|Ho]; [right; set_solver | by left].
Qed.

Lemma project_elements_spec refs l internal :
  (forall e, e ∈ l -> is_Some (refs !! el_key e)) ->
  exists internal' public, project_elements refs l internal = Some (internal', public) /\
    Forall2 (fun e p => exists r, refs !! el_key e = Some r /\ p = project_element refs e r) l public /\
    (forall r e, internal' !! r = Some e -> internal !! r = Some e \/ e ∈ l /\ refs !! el_key e = Some r) /\
    (forall r, is_Some (internal !! r) -> is_Some (internal' !! r)) /\
    (forall e r, e ∈ l -> refs !! el_key e = Some r -> is_Some (internal' !! r)).
Proof.
  revert internal. induction l as [|e l IH]; intros internal Hall; cbn [project_elements].
  { exists internal, []. split; [done|]. split; [constructor|]. split; [by left|]. split; [done|set_solver]. }
  destruct (Hall e ltac:(set_solver)) as [r Hr]. rewrite Hr.
  destruct (IH (<[r:=e]> internal) ltac:(set_solver)) as (i' & pub & -> & Hf & Hsrc & Hkeep & Hin).
  exists i', (project_element refs e r :: pub). split; [done|]. split; [constructor; eauto|].
  split; [|split].
  - intros r0 e0 Hr0. destruct (Hsrc _ _ Hr0) as [Hi|[? ?]]; [|right; set_solver].
    apply lookup_insert_Some in Hi as [[<- <-]|[_ ?]]; [right; set_solver | by left].
  - intros r0 Hr0. apply Hkeep. rewrite lookup_insert_is_Some'. by right.
  - intros e0 r0 [->|He0]%elem_of_cons Hr0; [|by eapply Hin].
    apply Hkeep. assert (r0 = r) as -> by congruence. rewrite lookup_insert_eq. eauto.
Qed.

(** Facts about one successful projection. *)
Lemma project_observation_facts o wref mapping max now n :
  exists rec public n', project_observation o wref mapping max now n = Some (rec, public, n') /\
    let selected := truncate max (dob_elements o) in
    let refs := element_refs selected (S n) ∅ in
    n' = (S n + length selected)%nat /\ ob_id rec = fresh_ref "observation_" n /\
    ob_status rec = Valid /\ ob_window_ref rec = wref /\ ob_screenshot_mapping rec = mapping /\
    Forall2 (fun e p => exists r, refs !! el_key e = Some r /\ p = project_element refs e r) selected public /\
    (forall r e, ob_elements rec !! r = Some e -> e ∈ selected /\ refs !! el_key e = Some r) /\
    (forall e r, e ∈ selected -> refs !! el_key e = Some r -> is_Some (ob_elements rec !! r)).
Proof.
  unfold project_observation. set (sel := truncate max (dob_elements o)).
  set (refs := element_refs sel (S n) ∅).
  destruct (project_elements_spec refs sel ∅) as (i' & pub & -> & Hf & Hsrc & _ & Hin).
  { intros e He. by apply element_refs_all. }
  eexists _, _, _. split; [done|]. cbn. repeat split; try done.
  - destruct (Hsrc _ _ H0) as [Hx|[? ?]]; [by rewrite lookup_empty in Hx | done].
  - destruct (Hsrc _ _ H0) as [Hx|[? ?]]; [by rewrite lookup_empty in Hx | done].
Qed.

End Observation.

(** * Specification of action resolution *)

(** A normalized point and the screen point the observation maps it to. *)
Definition point_at (o : ObservationRecord) (p : NormalizedPoint) (q : ScreenPoint) : Prop :=
  exists m px, ob_screenshot_mapping o = Some m /\ to_pixel p (sm_pixel_size m) = Some px /\
    to_screen m px = Some q.

(** An element reference of the observation and the driver's key for it. *)
Definition element_at (o : ObservationRecord) (r k : string) : Prop :=
  exists e, ob_elements o !! r = Some e /\ el_key e = k.

Definition range_settable (e : DriverElement) (value : f64) : Prop :=
  exists g, el_range_value e = Some g /\ el_enabled e = true /\ rv_read_only g = false /\
    f64_lt value (rv_minimum g) = false /\ f64_gt value (rv_maximum g) = false.

(** The driver actions an action may become under an observation: the same
    kind and inputs, references replaced by the keys and points observed. *)
Inductive resolves (o : ObservationRecord) : Action -> DriverAction -> Prop :=
| res_focus_window : resolves o FocusWindow DAFocusWindow
| res_bounds b : resolves o (SetWindowBounds b) (DASetWindowBounds b)
| res_minimized b : resolves o (SetWindowMinimized b) (DASetWindowMinimized b)
| res_terminate : resolves o TerminateApplication DATerminateApplication
| res_focus r k : element_at o r k -> resolves o (FocusElement r) (DAFocusElement k)
| res_invoke r k : element_at o r k -> resolves o (InvokeElement r) (DAInvokeElement k)
| res_click p q b n d : point_at o p q -> resolves o (ClickPoint p b n d) (DAClickPoint q b n d)
| res_press p q b t : point_at o p q -> resolves o (PressPoint p b t) (DAPressPoint q b t)
| res_value r k v : element_at o r k -> resolves o (SetValue r v) (DASetValue k v)
| res_range r e v : ob_elements o !! r = Some e -> range_settable e v ->
    resolves o (SetRangeValue r v) (DASetRangeValue (el_key e) v)
| res_toggle r k : element_at o r k -> resolves o (ToggleElement r) (DAToggleElement k)
| res_select r k : element_at o r k -> resolves o (SelectElement r) (DASelectElement k)
| res_expanded r k b : element_at o r k -> resolves o (SetExpanded r b) (DASetExpanded k b)
| res_move p q t : point_at o p q -> resolves o (MovePointer p t) (DAMovePointer q t)
| res_type t : resolves o (TypeText t) (DATypeText t)
| res_keys ks : resolves o (PressKeys ks) (DAPressKeys ks)
| res_scroll p q x y : point_at o p q -> resolves o (Scroll p x y) (DAScroll q x y)
| res_drag p p' q q' t : point_at o p p' -> point_at o q q' -> resolves o (Drag p q t) (DADrag p' q' t).

(** Background clicks are not delivered on application scenes. *)
Definition scene_deliverable (a : Action) (o : ObservationRecord) : Prop :=
  ob_application_scene o = true -> forall p b n, a <> ClickPoint p b n Prefer_Background.

Lemma scene_delivery_iff a o : validate_scene_delivery a o = Ok tt <-> scene_deliverable a o.
Proof.
  unfold validate_scene_delivery, scene_deliverable. rewrite ensure_then.
  destruct (ob_application_scene o); simpl; [|naive_solver].
  destruct a; try destruct delivery; naive_solver.
Qed.

Lemma point_resolves_iff p o q : resolve_screenshot_point p o = Ok q <-> point_at o p q.
Proof.
  unfold resolve_screenshot_point, point_at. rewrite ok_or_Ok.
  destruct (ob_screenshot_mapping o) as [m|]; [|naive_solver].
  destruct (to_pixel p (sm_pixel_size m)) eqn:E; naive_solver.
Qed.

Lemma element_key_iff o r k :
  rmap el_key (ok_or (ob_elements o !! r) stale_observation) = Ok k <-> element_at o r k.
Proof. unfold element_at. destruct (ob_elements o !! r); simpl; naive_solver. Qed.

Lemma range_resolves_iff o r v d :
  resolve_range_value r v o = Ok d <->
  exists e, ob_elements o !! r = Some e /\ range_settable e v /\ d = DASetRangeValue (el_key e) v.
Proof.
  unfold resolve_range_value, range_settable. rewrite rbind_Ok. setoid_rewrite ok_or_Ok.
  setoid_rewrite rbind_Ok. setoid_rewrite ok_or_Ok. setoid_rewrite ensure_then.
  setoid_rewrite orb_false_iff. setoid_rewrite orb_false_iff. setoid_rewrite orb_false_iff.
  setoid_rewrite negb_false_iff. split.
  - intros (e & He & g & Hg & (((? & ?) & ?) & ?) & [= <-]). eauto 10.
  - intros (e & He & (g & ? & ? & ? & ? & ?) & ->). exists e. split; [done|]. exists g. eauto 10.
Qed.

Lemma rbind_map_iff {A B E} (m : Result A E) (f : A -> B) d :
  (let? x := m in Ok (f x)) = Ok d <-> exists x, m = Ok x /\ d = f x.
Proof. rewrite rbind_Ok. naive_solver. Qed.

Lemma resolve_body_iff a o d :
  scene_deliverable a o -> resolve_action a o = Ok d <-> resolves o a d.
Proof.
  intros Hs%scene_delivery_iff. unfold resolve_action. rewrite Hs. cbn [rbind].
  destruct a; rewrite ?rbind_map_iff, ?range_resolves_iff; try setoid_rewrite element_key_iff;
    try setoid_rewrite point_resolves_iff;
    try (split; [naive_solver eauto using resolves | inversion 1; subst; naive_solver]).
  rewrite rbind_Ok. setoid_rewrite rbind_map_iff. setoid_rewrite point_resolves_iff.
  split; [naive_solver eauto using resolves | inversion 1; subst; naive_solver].
Qed.

(** The errors of resolution: stale element, invalid input or unsupported
    scene delivery, never a claim about dispatch. *)
Lemma resolve_action_err a o e : resolve_action a o = Err e ->
  mutation_status e = NotApplicable /\
  (code e = StaleObservation \/ code e = InvalidRequest \/ code e = Unsupported).
Proof.
  assert (Hp : forall p q e, resolve_screenshot_point p q = Err e ->
    mutation_status e = NotApplicable /\ code e = InvalidRequest).
  { intros p q e'. unfold resolve_screenshot_point. intros [_ ->]%ok_or_Err. done. }
  assert (He : forall r e, rmap el_key (ok_or (ob_elements o !! r) stale_observation) = Err e ->
    mutation_status e = NotApplicable /\ code e = StaleObservation).
  { intros r e'. destruct (ob_elements o !! r); simpl; naive_solver. }
  unfold resolve_action. intros H. apply rbind_Err in H as [H|(_ & _ & H)].
  { unfold validate_scene_delivery in H. apply rbind_Err in H as [[_ ->]%ensure_not_Err|(_ & _ & H)]; [|done].
    naive_solver. }
  destruct a; try done; try (apply rbind_Err in H as [H|(? & _ & H)]; [|done]);
    try (destruct (He _ _ H); by auto); try (destruct (Hp _ _ _ H); by auto).
  - unfold resolve_range_value in H. apply rbind_Err in H as [[_ ->]%ok_or_Err|(? & _ & H)]; [by auto|].
    apply rbind_Err in H as [[_ ->]%ok_or_Err|(? & _ & H)]; [by auto|].
    apply rbind_Err in H as [[_ ->]%ensure_not_Err|(? & _ & H)]; [by auto | done].
  - apply rbind_Err in H as [H|(? & _ & H)]; [destruct (Hp _ _ _ H); by auto|].
    apply rbind_Err in H as [H|(? & _ & H)]; [destruct (Hp _ _ _ H); by auto | done].
Qed.

(** * Properties *)

(** The reference tables of a session stay bijective under projection.
    Every projected application, window or display is found under the
    reference returned for it, its key maps back to that reference, objects
    already known keep their references, and no two keys share one. *)
Theorem projections_bijective `{UuidSource} st n :
  session_refs_ok st n ->
  (forall a, let '(st', n', r) := project_application st n a in
     session_refs_ok st' n' /\ st_applications st' !! r = Some a /\
     st_application_refs st' !! dap_key a = Some r /\ st_application_refs st ⊆ st_application_refs st') /\
  (forall w, let '(st', n', r) := project_window st n w in
     session_refs_ok st' n' /\ st_windows st' !! r = Some w /\
     st_window_refs st' !! dw_key w = Some r /\ st_window_refs st ⊆ st_window_refs st') /\
  (forall d, let '(st', n', r) := project_display st n d in
     session_refs_ok st' n' /\ st_displays st' !! r = Some d /\
     st_display_refs st' !! dd_key d = Some r /\ st_display_refs st ⊆ st_display_refs st') /\
  (forall k k' r, st_window_refs st !! k = Some r -> st_window_refs st !! k' = Some r -> k = k').
Proof.
  intros [Ha Hw Hd].
  split; [|split; [|split]]; [intros x; unfold project_application | intros x; unfold project_window
    | intros x; unfold project_display | intros k k' r (a & ? & ?)%(ro_forward _ _ _ _ _ Hw)
        (b & ? & ?)%(ro_forward _ _ _ _ _ Hw); congruence];
    destruct (project_ref _ _ _ _ _ _) as [[[refs table] n'] r] eqn:E;
    eapply project_ref_ok in E as (Hok & ? & ? & ? & ?); try done;
    (split; [constructor; simpl; eauto using refs_ok_mono | done]).
Qed.

Definition sample_application (key : string) : DriverApplication :=
  {| dap_key := key; dap_process_generation := "g"; dap_identity := "i"; dap_name := "n";
     dap_application_id := "id"; dap_foreground := false; dap_provenance := ProvUnsupported None |}.

Lemma projections_bijective_witness :
  let '(st', n', r) := @project_application unary_uuids session_state_default 4 (sample_application "k") in
  st_applications st' !! r = Some (sample_application "k").
Proof.
  exact (proj1 (proj2 (proj1 (@projections_bijective unary_uuids session_state_default 4
    (@session_refs_default unary_uuids 4)) (sample_application "k")))).
Defined.

(** Trimming observations.  For a positive limit it leaves room for one
    more entry, removes no more entries than needed, changes none of the
    entries it keeps, and removes the oldest first, whatever the iteration
    order of the table. *)
Theorem trim_observations_spec `{HashOrder} st limit :
  1 <= limit ->
  let st' := trim_observations st limit in
  msize (st_observations st') = Z.min (msize (st_observations st)) (limit - 1) /\
  st_observations st' ⊆ st_observations st /\
  (forall id o id' o', st_observations st !! id = Some o -> st_observations st' !! id = None ->
     st_observations st' !! id' = Some o' -> ob_created_at o <= ob_created_at o').
Proof.
  intros Hl st'. split; [by apply trim_size|]. split; [apply trim_sub|].
  intros. by eapply trim_drops_oldest.
Qed.

Definition sample_record (id : string) (created : Z) : ObservationRecord :=
  {| ob_application_scene := false; ob_id := id; ob_window_ref := "w"; ob_screenshot_mapping := None;
     ob_fingerprint := ""; ob_created_at := created; ob_status := Valid; ob_elements := ∅ |}.

Definition sample_state : SessionState :=
  {| session_state_default with st_observations :=
       <["a"%string := sample_record "a" 5]> (<["b"%string := sample_record "b" 3]> ∅) |}.

Lemma trim_observations_spec_witness :
  msize (st_observations (@trim_observations map_to_list_order sample_state 2)) = 1.
Proof.
  exact (eq_trans (proj1 (@trim_observations_spec map_to_list_order sample_state 2
    ltac:(discriminate))) ltac:(reflexivity)).
Defined.

(** A clipboard guard is single use and only the latest one counts.  The
    guard just issued yields its change marker exactly once; every other
    reference, in particular one issued earlier, is refused and consumes
    nothing. *)
Theorem clipboard_guard_single_use `{UuidSource} st n marker :
  let '(st1, n1, r) := project_clipboard st n marker in
  n1 = S n /\
  (exists st2, take_clipboard_marker st1 r = (st2, Some marker) /\
     forall r', take_clipboard_marker st2 r' = (st2, None)) /\
  (forall r', r' <> r -> take_clipboard_marker st1 r' = (st1, None)) /\
  (forall m marker', (m < n)%nat ->
     (project_clipboard st m marker').2 <> r).
Proof.
  unfold project_clipboard, take_clipboard_marker. cbn [st_clipboard cr_id cr_change_marker snd].
  split; [done|]. split; [|split].
  - rewrite (proj2 (str_eqb_eq _ _) eq_refl). eexists. split; [done|]. done.
  - intros r' Hne. by rewrite (proj2 (str_eqb_neq _ _)) by done.
  - intros m marker' Hm Heq%fresh_ref_inj. lia.
Qed.

(** Projecting an observation never panics on a missing reference.  It
    publishes exactly the first elements up to the bound, each under a
    reference that the record resolves to an observed element with the same
    driver key; a parent reference always names a published element; and every
    reference the record can resolve was published. *)
Theorem project_observation_spec `{UuidSource} o wref mapping max now n :
  0 <= max ->
  exists rec public n', project_observation o wref mapping max now n = Some (rec, public, n') /\
    zlen public = Z.min max (zlen (dob_elements o)) /\
    ob_status rec = Valid /\ ob_window_ref rec = wref /\ ob_screenshot_mapping rec = mapping /\
    ob_id rec = fresh_ref "observation_" n /\ (n < n')%nat /\
    (forall p, p ∈ public -> exists e e', e ∈ dob_elements o /\
       ob_elements rec !! ae_element_ref p = Some e' /\ el_key e' = el_key e /\ ae_role p = el_role e /\
       forall r, ae_parent_ref p = Some r -> exists p', p' ∈ public /\ ae_element_ref p' = r) /\
    (forall r, is_Some (ob_elements rec !! r) -> exists p, p ∈ public /\ ae_element_ref p = r).
Proof.
  intros Hmax.
  destruct (project_observation_facts o wref mapping max now n)
    as (rec & public & n' & -> & -> & ? & ? & ? & ? & Hf & Hsrc & Hin).
  set (sel := truncate max (dob_elements o)) in *. set (refs := element_refs sel (S n) ∅) in *.
  destruct (element_refs_drawn sel (S n) ∅) as [Hdrawn Hinj];
    [intros ? ? Hx; by rewrite lookup_empty in Hx | intros ? ? ? Hx; by rewrite lookup_empty in Hx |]. fold refs in Hdrawn, Hinj.
  assert (Hpub : forall e r, e ∈ sel -> refs !! el_key e = Some r ->
    exists p, p ∈ public /\ ae_element_ref p = r).
  { intros e r [i Hi]%list_elem_of_lookup Hr.
    destruct (Forall2_lookup_l _ _ _ _ _ Hf Hi) as (p & Hp & r' & Hr' & ->).
    exists (project_element refs e r'). split; [by eapply list_elem_of_lookup_2 | simpl; congruence]. }
  exists rec, public, (S n + length sel)%nat. split; [done|]. split.
  { unfold zlen. rewrite <- (Forall2_length _ _ _ Hf). apply (zlen_truncate max (dob_elements o) Hmax). }
  do 4 (split; [done|]). split; [lia|]. split.
  - intros p [i Hi]%list_elem_of_lookup.
    destruct (Forall2_lookup_r _ _ _ _ _ Hf Hi) as (e & He & r & Hr & ->).
    assert (Hes : e ∈ sel) by (by eapply list_elem_of_lookup_2).
    destruct (Hin e r Hes Hr) as [e' He']. destruct (Hsrc _ _ He') as [_ Hk].
    exists e, e'. simpl. split; [by eapply subseteq_take|]. split; [done|]. split; [by eapply Hinj|].
    split; [done|]. intros r' Hp. destruct (el_parent_key e) as [k|]; [|done].
    destruct (Hdrawn _ _ Hp) as [_ [Hx|(e0 & He0 & <-)]]; [rewrite lookup_empty in Hx; by destruct Hx|].
    by eapply Hpub.
  - intros r [e He]. destruct (Hsrc _ _ He) as [Hes Hr]. by eapply Hpub.
Qed.

Lemma project_observation_spec_witness :
  exists rec public n',
    @project_observation unary_uuids {| dob_window_key := "w"; dob_window_screen_bounds :=
        {| sr_x := F0; sr_y := F0; sr_width := F1000; sr_height := F1000 |};
      dob_screenshot := None; dob_screenshot_screen_bounds := None; dob_elements := [];
      dob_elements_complete := true; dob_elements_truncation := None; dob_fingerprint := "f" |}
      "window_x" None 10 0 3 = Some (rec, public, n') /\ ob_status rec = Valid.
Proof.
  destruct (@project_observation_spec unary_uuids {| dob_window_key := "w"; dob_window_screen_bounds :=
        {| sr_x := F0; sr_y := F0; sr_width := F1000; sr_height := F1000 |};
      dob_screenshot := None; dob_screenshot_screen_bounds := None; dob_elements := [];
      dob_elements_complete := true; dob_elements_truncation := None; dob_fingerprint := "f" |}
      "window_x" None 10 0 3 ltac:(discriminate)) as (rec & public & n' & H1 & _ & H2 & _).
  exists rec, public, n'. split; [exact H1 | exact H2].
Defined.


(** Validation is strong enough for resolution.  A validated action that
    names no element resolves under every observation whose screenshot covers
    a positive screen area, unless it is a background click on a scene: the
    driver is never handed a point it cannot place. *)
Theorem validated_action_resolves a o m :
  validate_action a (Some m) = Ok tt -> ob_screenshot_mapping o = Some m ->
  size_ok (sm_pixel_size m) ->
  f64_le (sr_width (sm_screen_bounds m)) F0 = false ->
  f64_le (sr_height (sm_screen_bounds m)) F0 = false ->
  (forall p, p ∈ action_points a -> f64_valid (np_x p) = true /\ f64_valid (np_y p) = true) ->
  scene_deliverable a o ->
  (forall r, a <> FocusElement r /\ a <> InvokeElement r /\ a <> ToggleElement r /\ a <> SelectElement r /\
     (forall v, a <> SetValue r v) /\ (forall v, a <> SetRangeValue r v) /\ forall b, a <> SetExpanded r b) ->
  exists d, resolve_action a o = Ok d.
Proof.
  intros Hv Hm Hs Hw Hh Hval Hd Hne.
  assert (Hpt : forall p, p ∈ action_points a -> exists q, point_at o p q).
  { intros p Hp. destruct (validate_points _ _ _ Hv Hp) as (m' & px & [= <-] & Hpx).
    destruct (Hval p Hp) as [Vx Vy]. pose proof (to_pixel_contained _ _ _ Hs Vx Vy Hpx) as [Hc _].
    unfold point_at. setoid_rewrite Hm. unfold to_screen.
    eexists _, m, px. split; [done|]. split; [done|]. by rewrite Hc, Hw, Hh. }
  setoid_rewrite (resolve_body_iff a o _ Hd).
  destruct a; try (by eexists; constructor); try (by destruct (Hne element_ref); naive_solver);
    try (destruct (Hpt point ltac:(set_solver)) as [q ?]; eexists; by constructor).
  destruct (Hpt from ltac:(set_solver)) as [q ?], (Hpt to ltac:(set_solver)) as [q' ?].
  eexists. by constructor.
Qed.

Lemma validated_action_resolves_witness :
  exists d, resolve_action (Scroll {| np_x := F1000; np_y := F0 |} F0 F1000)
    {| (sample_record "o" 1) with ob_screenshot_mapping := Some sample_mapping |} = Ok d.
Proof.
  apply (validated_action_resolves (Scroll {| np_x := F1000; np_y := F0 |} F0 F1000)
    {| (sample_record "o" 1) with ob_screenshot_mapping := Some sample_mapping |} sample_mapping);
    [vm_compute; reflexivity | reflexivity | split; vm_compute; split; discriminate
    | vm_compute; reflexivity | vm_compute; reflexivity
    | intros p Hp; apply list_elem_of_singleton in Hp as ->; split; vm_compute; reflexivity
    | intros Hx; discriminate Hx | intros r; repeat split; intros; discriminate].
Defined.
