(* ===== verification/Artifacts.v ===== *)
(** Transient screenshot storage: [src/crates/runtime/src/artifact_store.rs].

    The index of registered files per session, image conversion, and the
    write, read, take and remove operations.  The file system, PNG encoding
    and SHA-256 are parameters ([ArtifactEnv]); a path is a string.  The
    theorems show that the conversion never reads outside the image and
    composites over white, that the index stays bounded, and that reading
    returns only registered, unchanged bytes within the bound. *)

From S2P Require Import Prelude Floats Geometry Protocol Errors Driver.

(** What the store asks of the operating system, PNG and SHA-256; [E] is the
    state of the outside world.  [starts_with root path] is
    [Path::starts_with], [parent] is [Path::parent], [file_name] the last
    component as UTF-8. *)
Record FileInfo := { fi_is_symlink : bool; fi_is_file : bool; fi_len : Z }.

(** Where PNG encoding failed: [write_header] or [write_image_data]. *)
Inductive PngFailure := PngHeader | PngData.

Record ArtifactEnv (E : Type) := {
  create_session_dir : E -> string -> E * Result unit string;
  create_new_file : E -> string -> list Z -> E * Result unit string;
  file_info : E -> string -> Result FileInfo string;
  canonicalize : E -> string -> Result string string;
  read_file : E -> string -> Result (list Z) string;
  remove_file : E -> string -> E * Result unit string;
  remove_dir : E -> string -> E * Result unit string;
  remove_dir_all : E -> string -> E * Result unit string;
  join_path : string -> string -> string;
  path_parent : string -> option string;
  path_file_name : string -> option string;
  path_starts_with : string -> string -> bool;
  png_encode : PixelSize -> list Z -> Result (list Z) PngFailure;
  sha256_bytes : list Z -> string;
}.
Arguments create_session_dir {E}. Arguments create_new_file {E}. Arguments file_info {E}.
Arguments canonicalize {E}. Arguments read_file {E}. Arguments remove_file {E}.
Arguments remove_dir {E}. Arguments remove_dir_all {E}. Arguments join_path {E}.
Arguments path_parent {E}. Arguments path_file_name {E}. Arguments path_starts_with {E}.
Arguments png_encode {E}. Arguments sha256_bytes {E}.

(** [ArtifactStore] without the lease file; the deque of a session is oldest
    first, and [as_poisoned] is a poisoned index lock. *)
Record ArtifactStore := {
  as_root : string;
  as_max_image_pixels : Z;
  as_max_image_edge : Z;
  as_max_artifacts_per_session : Z;
  as_artifacts : gmap string (list string);
  as_poisoned : bool;
}.

Definition io_error : CuaError :=
  public_error Internal "transient artifact storage is unavailable" true
    (Some "retry_after_storage_recovery"%string).

Definition invalid_image (message : string) : CuaError := public_error DriverFailure message false None.

(** * Image conversion *)

(** One channel composited over white with rounding. *)
Definition composite (channel alpha : Z) : Z := (channel * alpha + 255 * (255 - alpha) + 127) / 255.

(** The three channels of one output pixel; [None] is an index out of range. *)
Definition rgb_pixel (img : RgbaImage) (size : PixelSize) (x y : Z) : option (list Z) :=
  let source_y := y * img_height img / ps_height size in
  let source_x := x * img_width img / ps_width size in
  let offset := Z.to_nat ((source_y * img_width img + source_x) * 4) in
  match take 4 (drop offset (img_pixels img)) with
  | [r; g; b; a] => Some [composite r a; composite g a; composite b a]
  | _ => None
  end.

Fixpoint collect {A} (l : list (option (list A))) : option (list A) :=
  match l with
  | [] => Some []
  | Some x :: l' => match collect l' with Some xs => Some (x ++ xs) | None => None end
  | None :: _ => None
  end.

Definition range (n : Z) : list Z := Z.of_nat <$> seq 0 (Z.to_nat n).

(** [rgb_pixels], row by row. *)
Definition rgb_pixels (img : RgbaImage) (size : PixelSize) : option (list Z) :=
  collect ((fun y => collect ((fun x => rgb_pixel img size x y) <$> range (ps_width size))) <$> range (ps_height size)).

(** * The store *)

Section Store.
Context {E : Type} (env : ArtifactEnv E) `{UuidSource}.

Definition register_artifact (s : ArtifactStore) (e : E) (session_id path : string)
    : ArtifactStore * E * Result unit CuaError :=
  if as_poisoned s then
    (s, e, Err (public_error Internal "artifact index is unavailable" true (Some "restart_runtime"%string)))
  else
    let pushed := default [] (as_artifacts s !! session_id) ++ [path] in
    let '(kept, evicted) :=
      if as_max_artifacts_per_session s <? zlen pushed
      then match pushed with p :: rest => (rest, Some p) | [] => ([], None) end
      else (pushed, None) in
    let s' := {| s with as_artifacts := <[session_id := kept]> (as_artifacts s) |} in
    match evicted with
    | None => (s', e, Ok tt)
    | Some p =>
        match remove_file env e p with
        | (e', Ok _) => (s', e', Ok tt)
        | (e', Err _) => (s', e', Err io_error)
        end
    end.

(** The checks of [write_image] on the source image. *)
Definition check_image (s : ArtifactStore) (img : RgbaImage) : Result unit CuaError :=
  let? pixel_count := ok_or (checked_mul (img_width img) (img_height img))
    (invalid_image "image dimensions overflow") in
  ensure_not ((img_width img =? 0) || (img_height img =? 0) || (as_max_image_pixels s <? pixel_count))
    (invalid_image "image dimensions are outside the supported range") ;?
  let? expected_bytes := ok_or (checked_mul pixel_count 4)
    (invalid_image "image buffer length overflows this platform") in
  ensure_not (negb (zlen (img_pixels img) =? expected_bytes))
    (invalid_image "image buffer length does not match RGBA dimensions") ;?
  Ok tt.

(** [ArtifactStore::write_image]; [n] is the next UUID, and a [None] from
    [rgb_pixels] would be a panic of the conversion. *)
Definition write_image (s : ArtifactStore) (e : E) (n : nat) (session_id : string) (img : RgbaImage)
    (bounds : ScreenRect) : ArtifactStore * E * nat * Result ScreenshotArtifact CuaError :=
  match check_image s img with
  | Err err => (s, e, n, Err err)
  | Ok _ =>
      let artifact_ref := ("artifact_" +:+ uuid n)%string in
      let n := S n in
      let directory := join_path env (as_root s) session_id in
      match create_session_dir env e directory with
      | (e, Err _) => (s, e, n, Err io_error)
      | (e, Ok _) =>
          let path := join_path env directory (artifact_ref +:+ ".png") in
          match fit_long_edge {| ps_width := img_width img; ps_height := img_height img |} (as_max_image_edge s) with
          | None => (s, e, n, Err (invalid_image "invalid image budget"))
          | Some output_size =>
              match rgb_pixels img output_size with
              | None => (s, e, n, Err (invalid_image "conversion read outside the image"))
              | Some rgb =>
                  match png_encode env output_size rgb with
                  | Err PngHeader => (s, e, n, Err (invalid_image "failed to initialize PNG encoder"))
                  | Err PngData => (s, e, n, Err (invalid_image "failed to encode PNG image"))
                  | Ok png =>
                      match create_new_file env e path png with
                      | (e, Err _) => (s, e, n, Err io_error)
                      | (e, Ok _) =>
                          match register_artifact s e session_id path with
                          | (s, e, Err err) => (s, e, n, Err err)
                          | (s, e, Ok _) =>
                              (s, e, n, Ok {| sa_artifact_ref := artifact_ref; sa_path := path;
                                 sa_mime_type := "image/png";
                                 sa_mapping := {| sm_screen_bounds := bounds; sm_pixel_size := output_size |};
                                 sa_byte_length := zlen png; sa_sha256 := sha256_bytes env png |})
                          end
                      end
                  end
              end
          end
      end
  end.

Definition remove_session (s : ArtifactStore) (e : E) (session_id : string) : ArtifactStore * E :=
  let s' := if as_poisoned s then s else {| s with as_artifacts := delete session_id (as_artifacts s) |} in
  let path := join_path env (as_root s) session_id in
  if bool_decide (path_parent env path = Some (as_root s))
  then (s', fst (remove_dir_all env e path)) else (s', e).

Definition is_registered (s : ArtifactStore) (path : string) : bool :=
  existsb (fun p => existsb (str_eqb path) p.2) (map_to_list (as_artifacts s)).

Definition read_artifact (s : ArtifactStore) (e : E) (a : ScreenshotArtifact) (max_bytes : Z)
    : Result (list Z) CuaError :=
  ensure_not ((max_bytes =? 0) || negb (str_eqb (sa_mime_type a) "image/png")
              || (sa_byte_length a =? 0) || (max_bytes <? sa_byte_length a))
    (invalid_image "screenshot artifact is outside the read bound") ;?
  let? metadata := rmap_err (fun _ => io_error) (file_info env e (sa_path a)) in
  ensure_not
    (fi_is_symlink metadata || negb (fi_is_file metadata) || negb (fi_len metadata =? sa_byte_length a)
     || negb (bool_decide (path_file_name env (sa_path a) = Some (sa_artifact_ref a +:+ ".png")%string)))
    (invalid_image "screenshot artifact identity changed") ;?
  let? canonical := rmap_err (fun _ => io_error) (canonicalize env e (sa_path a)) in
  ensure_not (negb (path_starts_with env canonical (as_root s)))
    (invalid_image "screenshot artifact is not runtime-owned") ;?
  ensure_not (as_poisoned s) io_error ;?
  ensure_not (negb (is_registered s canonical)) (invalid_image "screenshot artifact is not runtime-owned") ;?
  let? bytes := rmap_err (fun _ => io_error) (read_file env e canonical) in
  ensure_not
    (negb (zlen bytes =? sa_byte_length a) || negb (str_eqb (sha256_bytes env bytes) (sa_sha256 a)))
    (invalid_image "screenshot artifact digest changed") ;?
  Ok bytes.

(** [artifacts.retain(|_, paths| { paths.retain(..); !paths.is_empty() })]. *)
Definition forget_path (path : string) (m : gmap string (list string)) : gmap string (list string) :=
  filter (fun p => p.2 <> []) ((fun l => filter (fun c => c <> path) l) <$> m).

Definition take_artifact (s : ArtifactStore) (e : E) (a : ScreenshotArtifact) (max_bytes : Z)
    : ArtifactStore * E * Result (list Z) CuaError :=
  match read_artifact s e a max_bytes with
  | Err err => (s, e, Err err)
  | Ok bytes =>
      match canonicalize env e (sa_path a) with
      | Err _ => (s, e, Err io_error)
      | Ok path =>
          if negb (path_starts_with env path (as_root s))
          then (s, e, Err (invalid_image "screenshot artifact is not runtime-owned"))
          else
            match remove_file env e path with
            | (e, Err _) => (s, e, Err io_error)
            | (e, Ok _) =>
                let s' := if as_poisoned s then s
                          else {| s with as_artifacts := forget_path path (as_artifacts s) |} in
                let e' :=
                  match path_parent env path with
                  | Some parent =>
                      if bool_decide (path_parent env parent = Some (as_root s))
                      then fst (remove_dir env e parent) else e
                  | None => e
                  end in
                (s', e', Ok bytes)
            end
      end
  end.

End Store.

(** * Properties *)

(** A byte and an image buffer of the size its dimensions say. *)
Definition is_byte (b : Z) : Prop := 0 <= b <= 255.

Record image_ok (img : RgbaImage) : Prop := {
  io_width : 1 <= img_width img <= U32_MAX;
  io_height : 1 <= img_height img <= U32_MAX;
  io_len : zlen (img_pixels img) = img_width img * img_height img * 4;
}.

Lemma composite_byte c a : is_byte c -> is_byte a -> is_byte (composite c a).
Proof.
  unfold is_byte, composite. intros Hc Ha.
  assert (0 <= c * a <= 255 * a) by nia. split; [apply Z.div_pos; lia|].
  apply Z.lt_succ_r, Z.div_lt_upper_bound; lia.
Qed.

Lemma scaled_index x n m : 0 <= x < n -> 1 <= m -> 0 <= x * m / n < m.
Proof.
  intros Hx Hm. split; [apply Z.div_pos; nia|]. apply Z.div_lt_upper_bound; nia.
Qed.

Lemma take4_some {A} (l : list A) k : (k + 4 <= length l)%nat ->
  exists a b c d, take 4 (drop k l) = [a; b; c; d] /\ a ∈ l /\ b ∈ l /\ c ∈ l /\ d ∈ l.
Proof.
  intros Hl. assert (Hlen : length (take 4 (drop k l)) = 4%nat) by (rewrite length_take, length_drop; lia).
  assert (Hin : forall x, x ∈ take 4 (drop k l) -> x ∈ l).
  { intros x Hx. apply subseteq_take in Hx. by apply subseteq_drop in Hx. }
  destruct (take 4 (drop k l)) as [|a [|b [|c [|d [|? ?]]]]]; try done.
  exists a, b, c, d. split; [done|]. repeat split; apply Hin; set_solver.
Qed.

Lemma rgb_pixel_some img size x y :
  image_ok img -> 0 <= x < ps_width size -> 0 <= y < ps_height size -> Forall is_byte (img_pixels img) ->
  exists l, rgb_pixel img size x y = Some l /\ length l = 3%nat /\ Forall is_byte l.
Proof.
  intros [Hw Hh Hl] Hx Hy Hb. unfold rgb_pixel.
  pose proof (scaled_index y (ps_height size) (img_height img) Hy ltac:(lia)) as Sy.
  pose proof (scaled_index x (ps_width size) (img_width img) Hx ltac:(lia)) as Sx.
  set (sy := y * img_height img / ps_height size) in *. set (sx := x * img_width img / ps_width size) in *.
  destruct (take4_some (img_pixels img) (Z.to_nat ((sy * img_width img + sx) * 4))) as (r & g & b & a & -> & ? & ? & ? & ?).
  { unfold zlen in Hl. nia. }
  rewrite Forall_forall in Hb. exists [composite r a; composite g a; composite b a].
  split; [done|]. split; [done|]. repeat constructor; apply composite_byte; by apply Hb.
Qed.

Lemma collect_all {A} (P : A -> Prop) n (l : list (option (list A))) :
  Forall (fun o => exists x, o = Some x /\ length x = n /\ Forall P x) l ->
  exists xs, collect l = Some xs /\ length xs = (length l * n)%nat /\ Forall P xs.
Proof.
  induction 1 as [|o l (x & -> & Hx & Hp) _ (xs & Hc & Hlen & Hps)]; [by exists []|].
  exists (x ++ xs). simpl. rewrite Hc. split; [done|]. rewrite length_app, Forall_app. split; [lia | done].
Qed.

Lemma range_elem n x : x ∈ range n -> 0 <= x < n.
Proof. unfold range. intros (k & -> & Hk)%list_elem_of_fmap. apply elem_of_seq in Hk. lia. Qed.

Lemma range_length n : length (range n) = Z.to_nat n.
Proof. unfold range. by rewrite length_fmap, length_seq. Qed.

Lemma rgb_pixels_some img size :
  image_ok img -> 0 <= ps_width size -> 0 <= ps_height size -> Forall is_byte (img_pixels img) ->
  exists l, rgb_pixels img size = Some l /\ zlen l = ps_width size * ps_height size * 3 /\ Forall is_byte l.
Proof.
  intros Hi Hw Hh Hb. unfold rgb_pixels.
  destruct (collect_all is_byte (Z.to_nat (ps_width size) * 3)
    ((fun y => collect ((fun x => rgb_pixel img size x y) <$> range (ps_width size))) <$> range (ps_height size)))
    as (l & Hl & Hlen & Hp).
  - apply Forall_forall. intros o (y & -> & Hy%range_elem)%list_elem_of_fmap.
    destruct (collect_all is_byte 3 ((fun x => rgb_pixel img size x y) <$> range (ps_width size))) as (r & Hr & Hrl & Hrp).
    + apply Forall_forall. intros o (x & -> & Hx%range_elem)%list_elem_of_fmap. by apply rgb_pixel_some.
    + exists r. split; [done|]. rewrite Hrl, length_fmap, range_length. done.
  - exists l. split; [done|]. split; [|done]. unfold zlen. rewrite Hlen, length_fmap, range_length. lia.
Qed.

(** Image conversion is memory safe and composites over white.  For every
    image whose buffer matches its dimensions and every non-negative output
    size, [rgb_pixels] never indexes outside the buffer and yields exactly
    three bytes per output pixel; an opaque channel is kept, a transparent one
    becomes white. *)
Theorem rgb_pixels_safe img size :
  image_ok img -> 0 <= ps_width size -> 0 <= ps_height size -> Forall is_byte (img_pixels img) ->
  (exists rgb, rgb_pixels img size = Some rgb /\ zlen rgb = ps_width size * ps_height size * 3 /\
     Forall is_byte rgb) /\
  (forall c, is_byte c -> composite c 255 = c /\ composite c 0 = 255).
Proof.
  intros Hi Hw Hh Hb. split; [by apply rgb_pixels_some|]. unfold is_byte, composite. intros c Hc.
  split; Z.div_mod_to_equations; lia.
Qed.

Lemma rgb_pixels_safe_witness :
  exists rgb, rgb_pixels {| img_width := 2; img_height := 1; img_pixels := [10; 20; 30; 255; 1; 2; 3; 0] |}
    {| ps_width := 2; ps_height := 1 |} = Some rgb /\ zlen rgb = 6.
Proof.
  destruct (proj1 (rgb_pixels_safe {| img_width := 2; img_height := 1; img_pixels := [10; 20; 30; 255; 1; 2; 3; 0] |}
    {| ps_width := 2; ps_height := 1 |} ltac:(constructor; vm_compute; repeat split; discriminate)
    ltac:(discriminate) ltac:(discriminate)
    ltac:(repeat constructor; discriminate))) as (rgb & H1 & H2 & _).
  exists rgb. split; [exact H1 | exact H2].
Defined.

(** The index holds at most the configured number of files per session. *)
Definition index_ok (s : ArtifactStore) : Prop :=
  forall id l, as_artifacts s !! id = Some l -> zlen l <= as_max_artifacts_per_session s.

Section Bounds.
Context {E : Type} (env : ArtifactEnv E) `{UuidSource}.

Lemma register_index_ok s e id path s' e' r :
  1 <= as_max_artifacts_per_session s -> index_ok s ->
  register_artifact env s e id path = (s', e', r) ->
  index_ok s' /\ as_max_artifacts_per_session s' = as_max_artifacts_per_session s /\
  (as_poisoned s = false -> r = Ok tt -> exists l, as_artifacts s' !! id = Some l /\ path ∈ l).
Proof.
  intros Hm Hok. unfold register_artifact. destruct (as_poisoned s); [naive_solver|].
  set (pushed := default [] (as_artifacts s !! id) ++ [path]).
  assert (Hold : zlen pushed <= as_max_artifacts_per_session s + 1).
  { unfold pushed. rewrite zlen_app. destruct (as_artifacts s !! id) eqn:Ei; simpl.
    - apply Hok in Ei. unfold zlen at 2. simpl. lia.
    - unfold zlen. simpl. lia. }
  assert (Hgen : forall kept, zlen kept <= as_max_artifacts_per_session s ->
    index_ok {| s with as_artifacts := <[id := kept]> (as_artifacts s) |}).
  { intros kept Hk id' l. cbn. intros [[<- <-]|[_ Hl]]%lookup_insert_Some; [done | by apply Hok in Hl]. }
  destruct (Z.ltb_spec (as_max_artifacts_per_session s) (zlen pushed)) as [Hlt|Hge].
  - destruct pushed as [|p rest] eqn:Ep; [unfold zlen in Hlt; simpl in Hlt; lia|].
    rewrite zlen_cons in Hold.
    assert (Hin : path ∈ rest).
    { unfold pushed in Ep. destruct (default [] (as_artifacts s !! id)) as [|q qs]; simpl in Ep.
      - injection Ep as -> <-. unfold zlen in Hlt. simpl in Hlt. lia.
      - injection Ep as -> <-. set_solver. }
    destruct (remove_file env e p) as [e1 [[]|]]; intros [= <- <- <-];
      (split; [apply Hgen; lia|]); (split; [done|]); [|done].
    intros _ _. exists rest. cbn. by rewrite lookup_insert_eq.
  - intros [= <- <- <-]. split; [by apply Hgen|]. split; [done|]. intros _ _. exists pushed. cbn.
    rewrite lookup_insert_eq. split; [done|]. unfold pushed. set_solver.
Qed.

Lemma write_image_index_ok s e n id img bounds s' e' n' r :
  1 <= as_max_artifacts_per_session s -> index_ok s ->
  write_image env s e n id img bounds = (s', e', n', r) ->
  index_ok s' /\ as_max_artifacts_per_session s' = as_max_artifacts_per_session s /\ (n <= n')%nat.
Proof.
  intros Hm Hok. unfold write_image. destruct (check_image s img); [|naive_solver].
  destruct (create_session_dir _ _ _) as [e1 [?|?]]; [|naive_solver].
  destruct (fit_long_edge _ _); [|naive_solver]. destruct (rgb_pixels _ _); [|naive_solver].
  destruct (png_encode _ _ _) as [?|[]]; [|naive_solver..]. destruct (create_new_file _ _ _ _) as [e2 [?|?]]; [|naive_solver].
  destruct (register_artifact _ _ _ _ _) as [[s1 e3] r1] eqn:Er.
  apply register_index_ok in Er as (? & ? & _); try done.
  destruct r1; intros [= <- <- <- <-]; (split; [done|]; split; [done | lia]).
Qed.

Lemma remove_session_index_ok s e id :
  index_ok s -> index_ok (remove_session env s e id).1 /\
  as_max_artifacts_per_session (remove_session env s e id).1 = as_max_artifacts_per_session s.
Proof.
  intros Hok. unfold remove_session.
  assert (Hx : index_ok (if as_poisoned s then s else {| s with as_artifacts := delete id (as_artifacts s) |}) /\
    as_max_artifacts_per_session (if as_poisoned s then s else {| s with as_artifacts := delete id (as_artifacts s) |})
    = as_max_artifacts_per_session s).
  { destruct (as_poisoned s); [done|]. split; [|done]. intros id' l. cbn. intros [_ Hl]%lookup_delete_Some.
    by apply Hok in Hl. }
  by case_bool_decide.
Qed.

Lemma forget_index_ok s path : index_ok s ->
  index_ok {| s with as_artifacts := forget_path path (as_artifacts s) |}.
Proof.
  intros Hok id l. cbn. unfold forget_path. rewrite map_lookup_filter_Some, lookup_fmap_Some.
  intros [(l0 & <- & Hl0) _]. apply Hok in Hl0. etrans; [|exact Hl0]. unfold zlen.
  apply inj_le, length_filter.
Qed.

Lemma is_registered_spec s path :
  is_registered s path = true <-> exists id l, as_artifacts s !! id = Some l /\ path ∈ l.
Proof.
  unfold is_registered. rewrite existsb_exists. split.
  - intros ([id l] & Hin & Hex). apply list_elem_of_In, elem_of_map_to_list in Hin.
    apply existsb_exists in Hex as (p & Hp & Heq). apply str_eqb_eq in Heq as ->.
    exists id, l. split; [done|]. by apply list_elem_of_In.
  - intros (id & l & Hl & Hp). exists (id, l). split; [by apply list_elem_of_In, elem_of_map_to_list|].
    apply existsb_exists. exists path. split; [by apply list_elem_of_In | by apply str_eqb_eq].
Qed.

End Bounds.

(** Reading is confined and checked.  Bytes that [read_artifact] returns
    come from a registered path under the store's root, their length is the
    announced one and within the caller's bound, and their digest is the
    recorded one; [take_artifact] returns the same bytes and afterwards the
    path is registered under no session. *)
Theorem read_artifact_confined {E} (env : ArtifactEnv E) s e a max_bytes bytes :
  read_artifact env s e a max_bytes = Ok bytes ->
  (exists path id l, canonicalize env e (sa_path a) = Ok path /\ read_file env e path = Ok bytes /\
     path_starts_with env path (as_root s) = true /\ as_artifacts s !! id = Some l /\ path ∈ l) /\
  zlen bytes = sa_byte_length a /\ zlen bytes <= max_bytes /\ sha256_bytes env bytes = sa_sha256 a /\
  (forall s' e', take_artifact env s e a max_bytes = (s', e', Ok bytes) ->
     forall path, canonicalize env e (sa_path a) = Ok path -> is_registered s' path = false).
Proof.
  intros H. unfold read_artifact in H. pose proof H as Hcopy. res_inv. zbool.
  repeat match goal with u : () |- _ => destruct u end.
  assert (Hz : zlen bytes = sa_byte_length a) by tauto.
  split.
  { match goal with Hr : is_registered s ?p = true |- _ => apply is_registered_spec in Hr as (id & l & ? & ?); exists p, id, l end.
    done. }
  split; [done|]. split; [lia|]. split; [apply str_eqb_eq; tauto|].
  intros s' e' Ht path Hp. unfold take_artifact in Ht.
  destruct (read_artifact env s e a max_bytes); [|done]. rewrite Hp in Ht.
  destruct (negb _); [done|]. destruct (remove_file _ _ _) as [e1 [?|?]]; [|done].
  match goal with Hpo : as_poisoned s = false |- _ => rewrite Hpo in Ht end. injection Ht as <- _ _.
  destruct (is_registered _ path) eqn:Er; [|done]. exfalso. apply is_registered_spec in Er as (id & l & Hl & Hin).
  cbn in Hl. unfold forget_path in Hl. apply map_lookup_filter_Some in Hl as [Hl _].
  apply lookup_fmap_Some in Hl as (l0 & <- & _). by apply list_elem_of_filter in Hin as [? _].
Qed.

(** A file system that is a map from paths to bytes, with flat paths. *)
Definition memory_env : ArtifactEnv (gmap string (list Z)) := {|
  create_session_dir := fun e _ => (e, Ok tt);
  create_new_file := fun e p b => (<[p := b]> e, Ok tt);
  file_info := fun e p => match e !! p with
    | Some b => Ok {| fi_is_symlink := false; fi_is_file := true; fi_len := zlen b |}
    | None => Err ""%string end;
  canonicalize := fun e p => match e !! p with Some _ => Ok p | None => Err ""%string end;
  read_file := fun e p => match e !! p with Some b => Ok b | None => Err ""%string end;
  remove_file := fun e p => (delete p e, Ok tt);
  remove_dir := fun e _ => (e, Ok tt);
  remove_dir_all := fun e _ => (e, Ok tt);
  join_path := fun a b => b;
  path_parent := fun _ => None;
  path_file_name := fun p => Some p;
  path_starts_with := fun _ _ => true;
  png_encode := fun _ rgb => Ok rgb;
  sha256_bytes := fun _ => ""%string |}.

Definition sample_store : ArtifactStore :=
  {| as_root := "root"; as_max_image_pixels := 100; as_max_image_edge := 16;
     as_max_artifacts_per_session := 1; as_artifacts := <["s"%string := ["a.png"%string]]> ∅;
     as_poisoned := false |}.

Definition sample_artifact : ScreenshotArtifact :=
  {| sa_artifact_ref := "a"; sa_path := "a.png"; sa_mime_type := "image/png";
     sa_mapping := {| sm_screen_bounds := {| sr_x := F0; sr_y := F0; sr_width := F0; sr_height := F0 |};
                      sm_pixel_size := {| ps_width := 1; ps_height := 1 |} |};
     sa_byte_length := 3; sa_sha256 := "" |}.

Definition sample_files : gmap string (list Z) := <["a.png"%string := [1; 2; 3]]> ∅.

Lemma read_artifact_confined_witness :
  read_artifact memory_env sample_store sample_files sample_artifact 8 = Ok [1; 2; 3] /\
  zlen [1; 2; 3] <= 8.
Proof.
  split; [vm_compute; reflexivity|].
  exact (proj1 (proj2 (proj2 (read_artifact_confined memory_env sample_store sample_files
    sample_artifact 8 [1; 2; 3] ltac:(vm_compute; reflexivity))))).
Defined.
