(* ===== verification/Runtime.v ===== *)
(** The session runtime: [src/crates/runtime/src/service.rs].

    Every command of [Runtime::execute] is a computation of the monad [M] over
    the shared state [World]: it passes the state, collects the driver calls it
    makes, each with the state it is made in, and ends with a [Result] or a
    panic.  Other tasks run at the [await] points of the code: a driver method
    and [yield] map a [World] to the [World] the command resumes in.  Code
    between two [await] points runs at one instant of the clock. *)

From S2P Require Import Prelude Floats Geometry Text Protocol Errors Policy Validation Driver Session Artifacts.

Definition MAX_CONFIGURED_CLIPBOARD_TEXT_BYTES : Z := 1024 * 1024.
Definition MAX_CLIPBOARD_CHANGE_MARKER_BYTES : Z := 256.
Definition DEFAULT_MAX_OBSERVATION_AGE_SECONDS : Z := 120.

(** * State *)

(** [RuntimeConfig]; durations are nanoseconds. *)
Record RuntimeConfig := {
  artifact_root : string;
  max_session_ttl : Z;
  discovery_ttl : Z;
  max_observation_age : Z;
  max_observations_per_session : Z;
  max_active_sessions : Z;
  max_discovered_applications : Z;
  max_discovery_records : Z;
  max_discovered_launchable_applications : Z;
  max_launch_discovery_records : Z;
  max_elements_per_observation : Z;
  max_displays_per_session : Z;
  max_image_edge : Z;
  max_image_pixels : Z;
  max_artifacts_per_session : Z;
  max_artifact_workers : Z;
  max_clipboard_text_bytes : Z;
  policy : RuntimePolicyStack;
}.

(** [RuntimeConfig::new]; the default policy stack has no layer. *)
Definition config_new (root : string) : RuntimeConfig := {|
  artifact_root := root;
  max_session_ttl := 60 * 60 * second;
  discovery_ttl := 30 * second;
  max_observation_age := DEFAULT_MAX_OBSERVATION_AGE_SECONDS * second;
  max_observations_per_session := 32;
  max_active_sessions := 64;
  max_discovered_applications := 256;
  max_discovery_records := 2048;
  max_discovered_launchable_applications := 512;
  max_launch_discovery_records := 2048;
  max_elements_per_observation := 2000;
  max_displays_per_session := 16;
  max_image_edge := 1568;
  max_image_pixels := 100000000;
  max_artifacts_per_session := 32;
  max_artifact_workers := 2;
  max_clipboard_text_bytes := 64 * 1024;
  policy := {| managed := None; user := None |};
|}.

(** The configuration check at the start of [Runtime::new]. *)
Definition config_rejected (c : RuntimeConfig) : bool :=
  (max_session_ttl c =? 0)
  || (discovery_ttl c =? 0)
  || (30 * second <? discovery_ttl c)
  || (max_observation_age c =? 0)
  || (max_observations_per_session c =? 0)
  || (max_active_sessions c =? 0)
  || (max_discovered_applications c =? 0)
  || (max_discovery_records c =? 0)
  || (max_discovery_records c <? max_discovered_applications c)
  || (max_discovered_launchable_applications c =? 0)
  || (max_launch_discovery_records c =? 0)
  || (max_launch_discovery_records c <? max_discovered_launchable_applications c)
  || (max_elements_per_observation c =? 0)
  || (max_displays_per_session c =? 0)
  || negb ((1 <=? max_image_edge c) && (max_image_edge c <=? 4096))
  || (max_image_pixels c =? 0)
  || (max_artifacts_per_session c =? 0)
  || (max_artifact_workers c =? 0)
  || (max_clipboard_text_bytes c =? 0)
  || (MAX_CONFIGURED_CLIPBOARD_TEXT_BYTES <? max_clipboard_text_bytes c).

Record DiscoveryRecord := {
  dr_runtime_epoch : string;
  dr_application : DriverApplication;
  dr_expires_at : Z;
}.

Record LaunchDiscoveryRecord := {
  ldr_runtime_epoch : string;
  ldr_application : DriverLaunchableApplication;
  ldr_expires_at : Z;
}.

Inductive SchedulerSignal := Reschedule | Shutdown.

(** The mutable state of a [Runtime] and of what it runs in.  [w_sessions] is
    the session table; an [Arc<Session>] is the session's id, looked up in
    [w_heap], which keeps sessions that left the table but are still held by
    running commands.  [w_env] is the state of the driver and of the file
    system, [w_uuid] the number of UUIDs drawn so far, and the two [busy] flags
    are the lanes held with [try_lock]. *)
Record World (E : Type) := {
  w_env : E;
  w_now : Z;
  w_wall : Z;
  w_uuid : nat;
  w_discovery : gmap string DiscoveryRecord;
  w_launch_discovery : gmap string LaunchDiscoveryRecord;
  w_sessions : gmap string unit;
  w_heap : gmap string Session;
  w_artifacts : ArtifactStore;
  w_artifact_workers : Z;
  w_scheduler : option SchedulerSignal;
  w_scheduler_poisoned : bool;
  w_foreground_busy : bool;
  w_clipboard_busy : bool;
  w_closed : bool;
}.
Arguments w_env {E}. Arguments w_now {E}. Arguments w_wall {E}. Arguments w_uuid {E}.
Arguments w_discovery {E}. Arguments w_launch_discovery {E}. Arguments w_sessions {E}.
Arguments w_heap {E}. Arguments w_artifacts {E}. Arguments w_artifact_workers {E}.
Arguments w_scheduler {E}. Arguments w_scheduler_poisoned {E}.
Arguments w_foreground_busy {E}. Arguments w_clipboard_busy {E}. Arguments w_closed {E}.

(** The immutable fields of [Runtime]. *)
Record Runtime := { config : RuntimeConfig; epoch : string }.

(** A call of a [DesktopDriver] method with its arguments; a guard is its
    session, its lease and the observation time it carries. *)
Inductive DriverCall :=
| CallCapabilities
| CallPermissionStatus
| CallListApplications
| CallListLaunchableApplications
| CallLaunchApplication (application : DriverLaunchableApplication) (allow_foreground : bool)
| CallSessionStarted (session_id : SessionId) (lease : nat) (allow_foreground : bool)
| CallSessionClosed (session_id : SessionId)
| CallListWindows (application_keys : list string)
| CallListDisplays
| CallObserveDisplay (display : DriverDisplay)
| CallObserveWindow (scene : bool) (session_id : SessionId) (window : DriverWindow)
    (include_screenshot : bool) (mode : AccessibilityMode)
| CallSettleWindow (window : DriverWindow) (scene : bool)
| CallReadClipboard (max_text_bytes : Z)
| CallWriteClipboard (expected_change_marker : string) (text : SensitiveText) (max_text_bytes : Z)
| CallObservationIsCurrent (window : DriverWindow) (fingerprint : string)
| CallPerformAction (window : DriverWindow) (action : DriverAction)
    (allow_foreground restore_foreground : bool)
    (guard_session : SessionId) (guard_lease : nat) (guard_observed_at : option Z)
| CallVerifyState (window : DriverWindow) (predicate : StatePredicate).

(** The trait [DesktopDriver].  A method runs from the state the command calls
    it in to the state the command resumes in. *)
Class DesktopDriver (E : Type) := {
  drv_capabilities : World E -> World E * Result DriverCapabilities DriverError;
  drv_permission_status : World E -> World E * Result PermissionStatus DriverError;
  drv_list_applications : World E -> World E * Result (list DriverApplication) DriverError;
  drv_list_launchable_applications :
    World E -> World E * Result (list DriverLaunchableApplication) DriverError;
  drv_launch_application : DriverLaunchableApplication -> bool ->
    World E -> World E * Result DriverLaunchOutput DriverError;
  drv_session_started_guarded : SessionId -> nat -> bool ->
    World E -> World E * Result unit DriverError;
  drv_session_closed : SessionId -> World E -> World E;
  drv_list_windows : list string -> World E -> World E * Result (list DriverWindow) DriverError;
  drv_list_displays : World E -> World E * Result (list DriverDisplay) DriverError;
  drv_observe_display : DriverDisplay -> World E -> World E * Result (RgbaImage * ScreenRect) DriverError;
  drv_observe_window_scoped : SessionId -> DriverWindow -> bool -> AccessibilityMode ->
    World E -> World E * Result DriverObservation DriverError;
  drv_observe_application_scene_scoped : SessionId -> DriverWindow -> bool -> AccessibilityMode ->
    World E -> World E * Result DriverObservation DriverError;
  drv_settle_window : DriverWindow -> bool -> World E -> World E * Result unit DriverError;
  drv_read_clipboard : Z -> World E -> World E * Result DriverClipboardSnapshot DriverError;
  drv_write_clipboard : string -> SensitiveText -> Z ->
    World E -> World E * Result DriverClipboardWriteOutput DriverError;
  drv_observation_is_current : DriverWindow -> string -> World E -> World E * Result bool DriverError;
  drv_perform_action_scoped : DriverWindow -> DriverAction -> bool -> bool ->
    SessionId -> nat -> option Z -> World E -> World E * Result DriverActionOutput DriverError;
  drv_verify_state : DriverWindow -> StatePredicate ->
    World E -> World E * Result DriverVerification DriverError;
}.

(** The asynchronous executor and the clocks: [yield] resumes a command that
    awaited a lock, [sleep d] one that slept, [await_permit] one that awaited a
    free artifact worker; [select_deadline] is the wait of the expiration loop
    for its deadline or a signal and tells whether the timer fired,
    [await_signal] its wait for a signal alone.  [format_rfc3339] formats a
    wall-clock time. *)
Class Executor (E : Type) := {
  yield : World E -> World E;
  sleep : Z -> World E -> World E;
  await_permit : World E -> World E;
  select_deadline : Z -> World E -> World E * bool;
  await_signal : World E -> World E;
  format_rfc3339 : Z -> option string;
}.

(** * The monad *)

Inductive Outcome (A : Type) :=
| Returned (r : Result A CuaError)
| Panicked.
Arguments Returned {A} r.
Arguments Panicked {A}.

Section Monad.
Context {E : Type}.

Definition Trace := list (World E * DriverCall).
Definition M (A : Type) := World E -> World E * Trace * Outcome A.

Definition lift {A} (r : Result A CuaError) : M A := fun w => (w, [], Returned r).
Definition ret {A} (a : A) : M A := lift (Ok a).
Definition fail {A} (e : CuaError) : M A := lift (Err e).
Definition panic {A} : M A := fun w => (w, [], Panicked).

Definition bind {A B} (m : M A) (k : A -> M B) : M B := fun w =>
  match m w with
  | (w', t, Returned (Ok a)) => let '(w'', t', r) := k a w' in (w'', t ++ t', r)
  | (w', t, Returned (Err e)) => (w', t, Returned (Err e))
  | (w', t, Panicked) => (w', t, Panicked)
  end.

Definition read {A} (f : World E -> A) : M A := fun w => (w, [], Returned (Ok (f w))).
Definition modify (f : World E -> World E) : M unit := fun w => (f w, [], Returned (Ok tt)).

(** [result.map_err(f)] on the result of a whole computation. *)
Definition map_err {A} (f : CuaError -> CuaError) (m : M A) : M A := fun w =>
  match m w with
  | (w', t, Returned r) => (w', t, Returned (rmap_err f r))
  | (w', t, Panicked) => (w', t, Panicked)
  end.

(** Runs [m] and hands its [Result] on as a value. *)
Definition reify {A} (m : M A) : M (Result A CuaError) := fun w =>
  match m w with
  | (w', t, Returned r) => (w', t, Returned (Ok r))
  | (w', t, Panicked) => (w', t, Panicked)
  end.

(** Drops a value when [m] ends, whichever way it ends. *)
Definition finally {A} (m : M A) (release : World E -> World E) : M A := fun w =>
  let '(w', t, r) := m w in (release w', t, r).

(** Drops a value when [m] ends without a result; otherwise it is moved on. *)
Definition on_error {A} (m : M A) (release : World E -> World E) : M A := fun w =>
  match m w with
  | (w', t, Returned (Ok a)) => (w', t, Returned (Ok a))
  | (w', t, r) => (release w', t, r)
  end.

(** A driver method, recorded with the state it is called in. *)
Definition call {A} (c : DriverCall) (method : World E -> World E * Result A DriverError)
    : M (Result A DriverError) := fun w =>
  let '(w', r) := method w in (w', [(w, c)], Returned (Ok r)).

End Monad.

Arguments Trace : clear implicits.
Arguments M : clear implicits.

Notation "'let!' x ':=' m 'in' k" := (bind m (fun x => k))
  (at level 10, x pattern, m at level 100, k at level 200) : rust_scope.
Notation "m ';!' k" := (bind m (fun _ => k))
  (at level 199, k at level 200, right associativity) : rust_scope.

(** * Errors *)

Definition session_unavailable : CuaError :=
  public_error SessionUnavailable "session is missing, expired, or closed" false
    (Some "open_new_session"%string).

Definition stale_discovery : CuaError :=
  public_error StaleDiscovery
    "discovery reference expired or no longer identifies the same process generation" true
    (Some "discover_applications"%string).

Definition stale_launch_discovery : CuaError :=
  public_error StaleDiscovery
    "launch reference expired or no longer identifies the same installed application" true
    (Some "discover_launchable_applications"%string).

Definition stale_clipboard : CuaError :=
  with_mutation_status
    (public_error StaleClipboard "clipboard guard is missing, consumed, or no longer current" true
       (Some "read_clipboard_again"%string))
    NotDispatched.

Definition runtime_unavailable : CuaError :=
  public_error SessionUnavailable "runtime is shutting down or unavailable" true
    (Some "restart_runtime"%string).

Definition reference_not_found : CuaError :=
  public_error ReferenceNotFound "reference does not exist in this session" false
    (Some "refresh_references"%string).

Definition capability_denied : CuaError :=
  public_error CapabilityDenied "session capability does not authorize this operation" false
    (Some "request_new_bounded_session"%string).

Definition internal (message : string) : CuaError := public_error Internal message false None.

Definition clipboard_busy : CuaError :=
  public_error Busy "clipboard actor is busy" true (Some "retry_after_capacity"%string).

Definition validate_clipboard_change_marker (change_marker : string) : Result unit CuaError :=
  ensure_not
    (str_eqb change_marker ""
     || (MAX_CLIPBOARD_CHANGE_MARKER_BYTES <? slen change_marker)
     || negb (is_trimmed change_marker)
     || has_control change_marker)
    (public_error Internal "driver returned an invalid clipboard change marker" false
       (Some "restart_runtime"%string)).

(** The closures of [execute] on the error of a mutation command. *)
Definition mark_not_dispatched (e : CuaError) : CuaError :=
  match mutation_status e with
  | NotApplicable => with_mutation_status e NotDispatched
  | _ => e
  end.

(** The common body of [admitted_action_result] and [admitted_launch_result]. *)
Definition admitted_result {A} (r : Result A DriverError) : Result A CuaError :=
  rmap_err (fun error =>
    let error := cua_error_from error in
    match mutation_status error with
    | NotApplicable => with_mutation_status error Indeterminate
    | _ => error
    end) r.

Definition admitted_action_result (r : Result DriverActionOutput DriverError) := admitted_result r.
Definition admitted_launch_result (r : Result DriverLaunchOutput DriverError) := admitted_result r.

(** * Operations *)

Section Operations.
Context {E : Type} `{!DesktopDriver E, !Executor E, !HashOrder, !UuidSource}.
Context (fs : ArtifactEnv E) (rt : Runtime).

(** An [await] on a lock. *)
Definition await : M E unit := modify yield.

Definition now : M E Z := read w_now.

(** A fresh public reference. *)
Definition new_ref (prefix : string) : M E string := fun w =>
  ({| w with w_uuid := S (w_uuid w) |}, [], Returned (Ok (fresh_ref prefix (w_uuid w)))).

(** [.map_err(CuaError::from)?] on a driver call. *)
Definition from_driver {A} (m : M E (Result A DriverError)) : M E A :=
  let! r := m in lift (rmap_err cua_error_from r).

(** ** Sessions *)

Definition put_session (s : Session) (w : World E) : World E :=
  {| w with w_heap := <[se_id s := s]> (w_heap w) |}.

(** An [Arc<Session>] is always in the heap; a dangling one is a panic. *)
Definition deref {A} (id : SessionId) (k : Session -> M E A) : M E A := fun w =>
  match w_heap w !! id with
  | Some s => k s w
  | None => (w, [], Panicked)
  end.

(** [session.state.lock().await] and the code run under the lock; [f] gets the
    session, the time and the next UUID. *)
Definition lock_state {A} (id : SessionId) (f : Session -> Z -> nat -> SessionState * nat * A) : M E A :=
  await ;!
  deref id (fun s w =>
    let '(st, n, a) := f s (w_now w) (w_uuid w) in
    (put_session {| s with se_state := st |} {| w with w_uuid := n |}, [], Returned (Ok a))).

(** A read of the state under the lock. *)
Definition read_state {A} (id : SessionId) (f : SessionState -> A) : M E A :=
  await ;! deref id (fun s => ret (f (se_state s))).

Definition set_guard (s : Session) (g : GuardState) : M E unit :=
  modify (put_session {| s with se_guard := g |}).

(** [Session::close]. *)
Definition close (id : SessionId) : M E unit :=
  deref id (fun s =>
    if se_closed s then ret tt
    else
      set_guard s (close_cell (se_guard s)) ;!
      (fun w => (drv_session_closed id w, [(w, CallSessionClosed id)], Returned (Ok tt)))).

(** [Session::action_guard]: the new guard's lease. *)
Definition action_guard (id : SessionId) : M E nat :=
  deref id (fun s =>
    let '(g, lease) := guard_new (se_guard s) in
    set_guard s g ;! ret lease).

(** Dropping a guard that is not shared with a native actor. *)
Definition drop_guard (id : SessionId) (lease : nat) (w : World E) : World E :=
  match w_heap w !! id with
  | Some s =>
      match drop_lease (se_guard s) lease with
      | Some g => put_session {| s with se_guard := g |} w
      | None => w
      end
  | None => w
  end.

Definition guard_check (id : SessionId) (lease : nat) : M E (Result unit DriverError) :=
  deref id (fun s w => (w, [], Returned (Ok (check (se_guard s) lease (w_now w))))).

Definition guard_check_observation (id : SessionId) (observed_at : option Z) : M E (Result unit DriverError) :=
  deref id (fun s => ret (check_observation (gs_activity (se_guard s)) observed_at)).

(** The cells of a session's guards, as [wait_for_idle] reads them. *)
Definition guard_cells (id : SessionId) (w : World E) : GuardState :=
  match w_heap w !! id with
  | Some s => se_guard s
  | None => guard_init true 0
  end.

(** [DriverActionGuard::wait_until_idle]. *)
Definition wait_until_idle (id : SessionId) (lease : nat) : M E (Result unit DriverError) := fun w =>
  match wait_for_idle w_now (guard_cells id) sleep lease INPUT_QUIET_PERIOD INPUT_WAIT_LIMIT w with
  | Some (w', r) => (w', [], Returned (Ok r))
  | None => (w, [], Panicked)
  end.

Definition remove_artifacts (id : SessionId) : M E unit :=
  modify (fun w =>
    let '(store, e) := remove_session fs (w_artifacts w) (w_env w) id in
    {| w with w_artifacts := store; w_env := e |}).

(** [session.closed.load() || session.expires_at <= Instant::now()]. *)
Definition is_revoked (id : SessionId) : M E bool :=
  deref id (fun s w => (w, [], Returned (Ok (se_closed s || (se_expires_at s <=? w_now w))))).

(** ** The expiration scheduler *)

Definition ensure_scheduler : M E unit :=
  let! poisoned := read w_scheduler_poisoned in
  lift (ensure_not poisoned runtime_unavailable) ;!
  modify (fun w => match w_scheduler w with
                   | Some _ => w
                   | None => {| w with w_scheduler := Some Reschedule |}
                   end).

Definition signal_reschedule : M E unit :=
  let! poisoned := read w_scheduler_poisoned in
  lift (ensure_not poisoned runtime_unavailable) ;!
  modify (fun w => match w_scheduler w with
                   | Some _ => {| w with w_scheduler := Some Reschedule |}
                   | None => w
                   end).

(** [Runtime::session]. *)
Definition session (id : SessionId) : M E Session :=
  await ;!
  let! known := read (fun w => w_sessions w !! id) in
  match known with
  | None => fail session_unavailable
  | Some _ =>
      deref id (fun s =>
        let! t := now in
        if se_expires_at s <=? t then
          close id ;!
          modify (fun w => {| w with w_sessions := delete id (w_sessions w) |}) ;!
          remove_artifacts id ;!
          signal_reschedule ;!
          fail session_unavailable
        else ret s)
  end.

Definition drop_due (now : Z) (w : World E) : World E :=
  {| w with w_discovery := filter (fun p => now < dr_expires_at p.2) (w_discovery w) |}.

Definition drop_due_launch (now : Z) (w : World E) : World E :=
  {| w with w_launch_discovery := filter (fun p => now < ldr_expires_at p.2) (w_launch_discovery w) |}.

Fixpoint close_all (ids : list SessionId) : M E unit :=
  match ids with
  | [] => ret tt
  | id :: ids' =>
      modify (fun w => {| w with w_sessions := delete id (w_sessions w) |}) ;!
      close id ;! close_all ids'
  end.

Fixpoint remove_all_artifacts (ids : list SessionId) : M E unit :=
  match ids with
  | [] => ret tt
  | id :: ids' => remove_artifacts id ;! remove_all_artifacts ids'
  end.

Definition session_ids (w : World E) : list SessionId := (hash_iter (w_sessions w)).*1.

(** [session.expires_at <= now] for an entry of the table. *)
Definition is_due (now : Z) (w : World E) (id : SessionId) : bool :=
  match w_heap w !! id with
  | Some s => se_expires_at s <=? now
  | None => false
  end.

Definition reap_due (now : Z) : M E unit :=
  await ;!
  let! expired := read (fun w => filter (fun id => is_due now w id = true) (session_ids w)) in
  close_all expired ;!
  await ;! modify (drop_due now) ;!
  await ;! modify (drop_due_launch now) ;!
  remove_all_artifacts expired.

(** [Iterator::min] on instants. *)
Definition min_of (l : list Z) : option Z :=
  match l with
  | [] => None
  | x :: l' => Some (foldr Z.min x l')
  end.

Definition option_list {A} (o : option A) : list A := match o with Some a => [a] | None => [] end.

Definition session_deadlines (w : World E) : list Z :=
  omap (fun id => se_expires_at <$> w_heap w !! id) (session_ids w).

Definition nearest_deadline : M E (option Z) :=
  await ;! let! sessions := read (fun w => min_of (session_deadlines w)) in
  await ;! let! discovery := read (fun w => min_of ((fun p => dr_expires_at p.2) <$> hash_iter (w_discovery w))) in
  await ;! let! launch := read (fun w => min_of ((fun p => ldr_expires_at p.2) <$> hash_iter (w_launch_discovery w))) in
  ret (min_of (option_list sessions ++ option_list discovery ++ option_list launch)).

(** One round of [expiration_loop]; [false] ends the loop.  The sender of the
    signal is dropped only after it sent [Shutdown], so [None] stands for that
    signal. *)
Definition expiration_round : M E bool :=
  let! signal := read w_scheduler in
  match signal with
  | Some Reschedule =>
      let! deadline := nearest_deadline in
      match deadline with
      | Some deadline =>
          let! fired := (fun w => let '(w', b) := select_deadline deadline w in (w', [], Returned (Ok b))) in
          if fired then let! t := now in reap_due t ;! ret true else ret true
      | None => modify await_signal ;! ret true
      end
  | _ => ret false
  end.

(** ** Discovery *)

Definition I64_MAX : Z := 9223372036854775807.

(** [time::Duration::try_from] of a standard duration. *)
Definition time_duration (d : Z) : option Z := if d / second <=? I64_MAX then Some d else None.

(** [Runtime::discovery_expiry]; [discover_applications] has the same code in
    line. *)
Definition discovery_expiry : M E (Z * string) := fun w =>
  let expires_at := w_now w + discovery_ttl (config rt) in
  (w, [], Returned (
    let? ttl := ok_or (time_duration (discovery_ttl (config rt)))
      (internal "failed to calculate discovery expiry") in
    let? text := ok_or (format_rfc3339 (w_wall w + ttl)) (internal "failed to format discovery expiry") in
    Ok (expires_at, text))).

(** The order of [(&application_id, &name, &key).cmp]. *)
Definition triple_le (a b : string * string * string) : bool :=
  let '(a1, a2, a3) := a in
  let '(b1, b2, b3) := b in
  match String.compare a1 b1 with
  | Lt => true
  | Gt => false
  | Eq =>
      match String.compare a2 b2 with
      | Lt => true
      | Gt => false
      | Eq => str_le a3 b3
      end
  end.

Definition app_le (a b : DriverApplication) : bool :=
  triple_le (dap_application_id a, dap_name a, dap_key a) (dap_application_id b, dap_name b, dap_key b).

Definition launchable_le (a b : DriverLaunchableApplication) : bool :=
  triple_le (dla_application_id a, dla_name a, dla_key a) (dla_application_id b, dla_name b, dla_key b).

Definition insert_discovery (r : DiscoveryRef) (a : DriverApplication) (expires_at : Z) : M E unit :=
  modify (fun w => {| w with w_discovery :=
    <[r := {| dr_runtime_epoch := epoch rt; dr_application := a; dr_expires_at := expires_at |}]>
      (w_discovery w) |}).

Definition discovered (r : DiscoveryRef) (a : DriverApplication) (text : string) : DiscoveredApplication :=
  {| da_discovery_ref := r; da_name := dap_name a; da_application_id := dap_application_id a;
     da_foreground := dap_foreground a; da_provenance := dap_provenance a; da_expires_at := text |}.

Fixpoint record_applications (l : list DriverApplication) (expires_at : Z) (text : string)
    : M E (list DiscoveredApplication) :=
  match l with
  | [] => ret []
  | a :: l' =>
      let! r := new_ref "discovery_" in
      insert_discovery r a expires_at ;!
      let! rest := record_applications l' expires_at text in
      ret (discovered r a text :: rest)
  end.

Definition discover_applications : M E CommandResult :=
  let! applications := from_driver (call CallListApplications drv_list_applications) in
  let applications :=
    dedup_by (fun l r => str_eqb (dap_key l) (dap_key r)) (sort_by app_le applications) in
  let complete := zlen applications <=? max_discovered_applications (config rt) in
  let applications := truncate (max_discovered_applications (config rt)) applications in
  let! (expires_at, text) := discovery_expiry in
  await ;!
  let! t := now in
  modify (drop_due t) ;!
  let! known := read (fun w => msize (w_discovery w)) in
  lift (ensure_not (max_discovery_records (config rt) <? sat_add known (zlen applications))
    (public_error Busy "unexpired discovery reference capacity is exhausted" true
       (Some "retry_after_discovery_expiry"%string))) ;!
  let! output := record_applications applications expires_at text in
  signal_reschedule ;!
  ret (RApplicationsDiscovered {| dao_applications := output; dao_complete := complete |}).

Fixpoint record_launchable (l : list DriverLaunchableApplication) (expires_at : Z) (text : string)
    : M E (list LaunchableApplication) :=
  match l with
  | [] => ret []
  | a :: l' =>
      let! r := new_ref "launch_" in
      modify (fun w => {| w with w_launch_discovery :=
        <[r := {| ldr_runtime_epoch := epoch rt; ldr_application := a; ldr_expires_at := expires_at |}]>
          (w_launch_discovery w) |}) ;!
      let! rest := record_launchable l' expires_at text in
      ret ({| la_launch_ref := r; la_name := dla_name a; la_application_id := dla_application_id a;
              la_provenance := dla_provenance a; la_expires_at := text |} :: rest)
  end.

Definition discover_launchable_applications : M E CommandResult :=
  let! applications :=
    from_driver (call CallListLaunchableApplications drv_list_launchable_applications) in
  let applications :=
    dedup_by (fun l r => str_eqb (dla_key l) (dla_key r)) (sort_by launchable_le applications) in
  let complete := zlen applications <=? max_discovered_launchable_applications (config rt) in
  let applications := truncate (max_discovered_launchable_applications (config rt)) applications in
  let! (expires_at, text) := discovery_expiry in
  await ;!
  let! t := now in
  modify (drop_due_launch t) ;!
  let! known := read (fun w => msize (w_launch_discovery w)) in
  lift (ensure_not (max_launch_discovery_records (config rt) <? sat_add known (zlen applications))
    (public_error Busy "unexpired launch reference capacity is exhausted" true
       (Some "retry_after_discovery_expiry"%string))) ;!
  let! output := record_launchable applications expires_at text in
  signal_reschedule ;!
  ret (RLaunchableApplicationsDiscovered {| dlo_applications := output; dlo_complete := complete |}).

(** [Runtime::resolve_launch_ref]. *)
Definition resolve_launch_ref (r : LaunchRef) : M E DriverLaunchableApplication :=
  await ;!
  let! t := now in
  let! record := read (fun w => w_launch_discovery w !! r) in
  match record with
  | Some record =>
      if str_eqb (ldr_runtime_epoch record) (epoch rt) && (t <? ldr_expires_at record)
      then ret (ldr_application record) else fail stale_launch_discovery
  | None => fail stale_launch_discovery
  end.

Definition project_launched_application (launched : DriverLaunchOutput) : M E CommandResult :=
  let! (expires_at, text) := discovery_expiry in
  let! r := new_ref "discovery_" in
  let application := discovered r (dlo_application launched) text in
  await ;!
  let! t := now in
  modify (drop_due t) ;!
  let! known := read (fun w => msize (w_discovery w)) in
  lift (ensure_not (max_discovery_records (config rt) <=? known)
    (with_mutation_status
       (public_error Busy "application launched but running discovery capacity is exhausted" true
          (Some "discover_applications"%string))
       Indeterminate)) ;!
  insert_discovery r (dlo_application launched) expires_at ;!
  signal_reschedule ;!
  ret (RApplicationLaunched {| lo_application := application;
         lo_delivery_mode := dlo_delivery_mode launched; lo_dispatched := true |}).

(** The checks of [launch_application] on what the driver launched. *)
Definition check_launched (current : DriverLaunchableApplication) (running_before : list DriverApplication)
    (allow_foreground : bool) (launched : DriverLaunchOutput) : Result unit CuaError :=
  ensure_not
    (negb (str_eqb (dap_application_id (dlo_application launched)) (dla_application_id current))
     || negb (str_eqb (dap_identity (dlo_application launched)) (dla_identity current))
     || existsb (fun a => matches_generation a (dlo_application launched)) running_before)
    (with_mutation_status
       (public_error Internal "native launch returned an unexpected application generation" false
          (Some "discover_applications"%string))
       Indeterminate) ;?
  ensure_not
    (negb allow_foreground
     && (bool_decide (dlo_delivery_mode launched = Foreground) || dap_foreground (dlo_application launched)))
    (with_mutation_status
       (public_error Internal "launched application exceeded foreground activation authority" false
          (Some "discover_applications"%string))
       Indeterminate).

(** [launch_application] up to the native call: the application to launch and
    the applications running before it. *)
Definition admit_launch (input : LaunchApplicationInput)
    : M E (DriverLaunchableApplication * list DriverApplication) :=
  let! expected := resolve_launch_ref (li_launch_ref input) in
  let! installed := from_driver (call CallListLaunchableApplications drv_list_launchable_applications) in
  let! current := lift (ok_or (List.find (fun candidate => matches_identity expected candidate) installed)
    stale_launch_discovery) in
  let! running_before := from_driver (call CallListApplications drv_list_applications) in
  lift (ensure_not
    (existsb (fun a => str_eqb (dap_application_id a) (dla_application_id current)
                       && str_eqb (dap_identity a) (dla_identity current)) running_before)
    (public_error InvalidRequest
       "application identity is already running; select its running generation" false
       (Some "discover_applications"%string))) ;!
  await ;!
  let! consumed := read (fun w => w_launch_discovery w !! li_launch_ref input) in
  modify (fun w => {| w with w_launch_discovery := delete (li_launch_ref input) (w_launch_discovery w) |}) ;!
  lift (ensure_not (is_none consumed) stale_launch_discovery) ;!
  signal_reschedule ;!
  ret (current, running_before).

Definition launch_application (input : LaunchApplicationInput) : M E CommandResult :=
  let! (current, running_before) := admit_launch input in
  let! result := call (CallLaunchApplication current (li_allow_foreground_activation input))
    (drv_launch_application current (li_allow_foreground_activation input)) in
  let! launched := lift (admitted_launch_result result) in
  lift (check_launched current running_before (li_allow_foreground_activation input) launched) ;!
  project_launched_application launched.

(** ** Opening and closing sessions *)

Definition max_ttl_seconds : Z := default U32_MAX (u32_try_from (max_session_ttl (config rt) / second)).

(** [Runtime::resolve_discovery_refs]. *)
Definition expected_applications (t : Z) (discovery : gmap string DiscoveryRecord) (refs : list DiscoveryRef)
    : Result (list DriverApplication) CuaError :=
  rtraverse (fun r =>
    match discovery !! r with
    | Some record =>
        if str_eqb (dr_runtime_epoch record) (epoch rt) && (t <? dr_expires_at record)
        then Ok (dr_application record) else Err stale_discovery
    | None => Err stale_discovery
    end) refs.

Definition resolve_discovery_refs (requested : list DiscoveryRef) : M E (list DriverApplication) :=
  let! t := now in
  await ;!
  let! expected := (fun w => (w, [], Returned (expected_applications t (w_discovery w) requested))) in
  let! current := from_driver (call CallListApplications drv_list_applications) in
  let! resolved := lift (rtraverse (fun e =>
    ok_or (List.find (fun candidate => matches_generation e candidate) current) stale_discovery) expected) in
  lift (ensure_not (negb (all_unique (dap_key <$> resolved)))
    (public_error InvalidRequest "application references resolve to duplicate process generations" false
       (Some "select_unique_applications"%string))) ;!
  ret resolved.

(** [Runtime::open_session].  The identifier is drawn when the session becomes
    visible; the code draws it before it awaits the table, and nobody else can
    have drawn the same one. *)
Definition open_session (manifest : CapabilityManifest) : M E CommandResult :=
  lift (validate_manifest manifest max_ttl_seconds) ;!
  let! allowed := resolve_discovery_refs (application_refs manifest) in
  let! t := now in
  let expires_at := t + ttl_seconds manifest * second in
  let! wall := read w_wall in
  let! text := lift (ok_or (format_rfc3339 (wall + ttl_seconds manifest * second))
    (internal "failed to format session expiry")) in
  await ;!
  let! live := read (fun w => msize (w_sessions w)) in
  lift (ensure_not (max_active_sessions (config rt) <=? live)
    (public_error Busy "active session capacity is exhausted" true (Some "close_unused_session"%string))) ;!
  let! id := new_ref "session_" in
  modify (put_session {| se_id := id; se_guard := guard_init false expires_at; se_manifest := manifest;
                         se_allowed_applications := allowed; se_state := session_state_default |}) ;!
  let! lease := action_guard id in
  let! started := call (CallSessionStarted id lease (allow_foreground_input manifest))
    (drv_session_started_guarded id lease (allow_foreground_input manifest)) in
  match started with
  | Err e => close id ;! fail (cua_error_from e)
  | Ok _ =>
      modify (fun w => {| w with w_sessions := <[id := tt]> (w_sessions w) |}) ;!
      signal_reschedule ;!
      ret (RSessionOpened {| os_session_id := id; os_expires_at := text |})
  end.

Definition close_session (id : SessionId) : M E CommandResult :=
  await ;!
  let! removed := read (fun w => w_sessions w !! id) in
  modify (fun w => {| w with w_sessions := delete id (w_sessions w) |}) ;!
  lift (ensure_not (is_none removed) session_unavailable) ;!
  close id ;!
  remove_artifacts id ;!
  signal_reschedule ;!
  ret RAcknowledged.

(** ** Listing *)

Fixpoint summarize_applications (st : SessionState) (n : nat) (l : list DriverApplication)
    : SessionState * nat * list ApplicationSummary :=
  match l with
  | [] => (st, n, [])
  | a :: l' =>
      let '(st1, n1, r) := project_application st n a in
      let '(st2, n2, rest) := summarize_applications st1 n1 l' in
      (st2, n2, {| as_app_ref := r; as_name := dap_name a; as_application_id := dap_application_id a;
                   as_foreground := dap_foreground a |} :: rest)
  end.

Definition list_apps (id : SessionId) : M E CommandResult :=
  let! s := session id in
  let! applications := from_driver (call CallListApplications drv_list_applications) in
  let! output := lock_state id (fun live _ n =>
    summarize_applications (se_state live) n (List.filter (allows_application s) applications)) in
  ret (RApps output).

Fixpoint summarize_windows (st : SessionState) (n : nat) (l : list DriverWindow)
    : SessionState * nat * list WindowSummary :=
  match l with
  | [] => (st, n, [])
  | x :: l' =>
      let '(st1, n1, app_ref) := project_application st n (dw_application x) in
      let '(st2, n2, window_ref) := project_window st1 n1 x in
      let '(st3, n3, rest) := summarize_windows st2 n2 l' in
      (st3, n3, {| ws_window_ref := window_ref; ws_app_ref := app_ref; ws_title := dw_title x;
                   ws_screen_bounds := dw_screen_bounds x; ws_state := dw_state x;
                   ws_visible := dw_visible x; ws_foreground := dw_foreground x |} :: rest)
  end.

(** The keys one native enumeration may query. *)
Definition window_scope (s : Session) (application_key : option string) : list string :=
  dap_key <$> List.filter (fun a => is_none_or application_key (fun key => str_eqb key (dap_key a)))
                          (se_allowed_applications s).

Definition list_windows (input : ListWindowsInput) : M E CommandResult :=
  let id := lw_session_id input in
  let! s := session id in
  let! application_key :=
    match lw_app_ref input with
    | Some app_ref =>
        let! known := read_state id (fun st => st_applications st !! app_ref) in
        let! a := lift (ok_or known reference_not_found) in
        ret (Some (dap_key a))
    | None => ret None
    end in
  let keys := window_scope s application_key in
  let! windows := from_driver (call (CallListWindows keys) (drv_list_windows keys)) in
  let! output := lock_state id (fun live _ n =>
    summarize_windows (se_state live) n
      (List.filter (fun x => allows_application s (dw_application x)) windows)) in
  ret (RWindows output).

Fixpoint summarize_displays (st : SessionState) (n : nat) (l : list DriverDisplay)
    : SessionState * nat * list DisplaySummary :=
  match l with
  | [] => (st, n, [])
  | d :: l' =>
      let '(st1, n1, r) := project_display st n d in
      let '(st2, n2, rest) := summarize_displays st1 n1 l' in
      (st2, n2, {| ds_display_ref := r; ds_screen_bounds := dd_screen_bounds d;
                   ds_primary := dd_primary d |} :: rest)
  end.

Definition list_displays (id : SessionId) : M E CommandResult :=
  let! s := session id in
  lift (ensure_not (negb (allow_display_capture (se_manifest s))) capability_denied) ;!
  let! displays := from_driver (call CallListDisplays drv_list_displays) in
  let displays :=
    dedup_by (fun l r => str_eqb (dd_key l) (dd_key r))
      (sort_by (fun l r => str_le (dd_key l) (dd_key r)) displays) in
  lift (ensure_not (max_displays_per_session (config rt) <? zlen displays)
    (public_error Busy "physical display count exceeds the configured session bound" true
       (Some "narrow_desktop_topology"%string))) ;!
  let! output := lock_state id (fun live _ n =>
    summarize_displays {| (se_state live) with st_displays := ∅; st_display_refs := ∅ |} n displays) in
  ret (RDisplays output).

(** ** Clipboard *)

(** [self.clipboard_lane.try_lock()] held while [m] runs. *)
Definition with_clipboard_lane {A} (busy : CuaError) (m : M E A) : M E A :=
  let! taken := read w_clipboard_busy in
  if taken then fail busy
  else
    modify (fun w => {| w with w_clipboard_busy := true |}) ;!
    finally m (fun w => {| w with w_clipboard_busy := false |}).

(** [state.project_clipboard(..)] under the lock. *)
Definition issue_clipboard_ref (id : SessionId) (change_marker : string) : M E ClipboardRef :=
  lock_state id (fun live _ n => project_clipboard (se_state live) n change_marker).

Definition read_clipboard (id : SessionId) : M E CommandResult :=
  let! s := session id in
  lift (ensure_not (negb (allow_clipboard_read (se_manifest s))) capability_denied) ;!
  with_clipboard_lane clipboard_busy (
    let bound := max_clipboard_text_bytes (config rt) in
    let! snapshot := from_driver (call (CallReadClipboard bound) (drv_read_clipboard bound)) in
    lift (validate_clipboard_change_marker (dcs_change_marker snapshot)) ;!
    lift (match dcs_text snapshot with
          | Some text => validate_clipboard_text text bound
          | None => Ok tt
          end) ;!
    let! byte_length := lift (ok_or
      (u32_try_from (match dcs_text snapshot with Some text => slen text | None => 0 end))
      (internal "clipboard byte length exceeded the protocol bound")) in
    let! r := issue_clipboard_ref id (dcs_change_marker snapshot) in
    ret (RClipboardRead {| cs_clipboard_ref := r; cs_text := dcs_text snapshot;
                           cs_byte_length := byte_length |})).

Definition write_clipboard (input : WriteClipboardInput) : M E CommandResult :=
  let id := wc_session_id input in
  let bound := max_clipboard_text_bytes (config rt) in
  let! s := session id in
  lift (ensure_not (negb (allow_clipboard_write (se_manifest s)))
    (with_mutation_status capability_denied NotDispatched)) ;!
  lift (rmap_err (fun e => with_mutation_status e NotDispatched)
    (validate_clipboard_text (wc_text input) bound)) ;!
  with_clipboard_lane (with_mutation_status clipboard_busy NotDispatched) (
    let! taken := lock_state id (fun live _ n =>
      let '(st, marker) := take_clipboard_marker (se_state live) (wc_clipboard_ref input) in
      (st, n, marker)) in
    let! change_marker := lift (ok_or taken stale_clipboard) in
    let! output := from_driver (call (CallWriteClipboard change_marker (wc_text input) bound)
      (drv_write_clipboard change_marker (wc_text input) bound)) in
    lift (rmap_err (fun e => with_mutation_status e Indeterminate)
      (validate_clipboard_change_marker (dcw_change_marker output))) ;!
    lift (ensure_not (negb (is_supported_by (dcw_effect_status output) (dcw_evidence_kind output)))
      (with_mutation_status
         (public_error Internal "driver returned incoherent clipboard effect evidence" false
            (Some "read_clipboard_again"%string))
         Indeterminate)) ;!
    let! r := issue_clipboard_ref id (dcw_change_marker output) in
    ret (RClipboardWritten {| cw_clipboard_ref := r; cw_delivery_mode := System; cw_dispatched := true;
           cw_effect_status := dcw_effect_status output; cw_evidence_kind := dcw_evidence_kind output |})).

(** ** Screenshots and observations *)

Definition free_worker (w : World E) : World E :=
  {| w with w_artifact_workers := w_artifact_workers w + 1 |}.

Definition take_worker (w : World E) : World E :=
  {| w with w_artifact_workers := w_artifact_workers w - 1 |}.

(** [Runtime::write_screenshot]: the encoding runs on a worker. *)
Definition write_screenshot (id : SessionId) (image : RgbaImage) (bounds : ScreenRect) : M E ScreenshotArtifact :=
  modify await_permit ;!
  modify take_worker ;!
  finally (
    await ;!
    (fun w =>
       let '(store, e, n, r) := write_image fs (w_artifacts w) (w_env w) (w_uuid w) id image bounds in
       ({| w with w_artifacts := store; w_env := e; w_uuid := n |}, [], Returned r)))
    free_worker.

Definition workers_exhausted : CuaError :=
  public_error Busy "artifact worker capacity is exhausted" true (Some "retry_after_capacity"%string).

(** [Runtime::read_artifact]. *)
Definition runtime_read_artifact (a : ScreenshotArtifact) (max_bytes : Z) : M E (list Z) :=
  let! free := read w_artifact_workers in
  if free <=? 0 then fail workers_exhausted
  else
    modify take_worker ;!
    finally (await ;! (fun w => (w, [], Returned (read_artifact fs (w_artifacts w) (w_env w) a max_bytes))))
      free_worker.

(** [Runtime::take_artifact]. *)
Definition runtime_take_artifact (a : ScreenshotArtifact) (max_bytes : Z) : M E (list Z) :=
  let! free := read w_artifact_workers in
  if free <=? 0 then fail workers_exhausted
  else
    modify take_worker ;!
    finally (
      await ;!
      (fun w =>
         let '(store, e, r) := take_artifact fs (w_artifacts w) (w_env w) a max_bytes in
         ({| w with w_artifacts := store; w_env := e |}, [], Returned r)))
      free_worker.

Definition observe_display (input : ObserveDisplayInput) : M E CommandResult :=
  let id := od_session_id input in
  let! s := session id in
  lift (ensure_not (negb (allow_display_capture (se_manifest s))) capability_denied) ;!
  let! known := read_state id (fun st => st_displays st !! od_display_ref input) in
  let! display := lift (ok_or known reference_not_found) in
  let! (image, screen_bounds) := from_driver (call (CallObserveDisplay display) (drv_observe_display display)) in
  lift (ensure_not (negb (screen_rect_eq screen_bounds (dd_screen_bounds display)))
    (public_error StaleObservation "display topology changed during capture" true
       (Some "list_displays_again"%string))) ;!
  let! screenshot := write_screenshot id image screen_bounds in
  let! revoked := is_revoked id in
  if revoked then remove_artifacts id ;! fail session_unavailable
  else
    let! wall := read w_wall in
    let! captured_at := lift (ok_or (format_rfc3339 wall)
      (internal "failed to format display observation timestamp")) in
    let! observation_id := new_ref "observation_" in
    ret (RDisplayObserved {| do_observation_id := observation_id; do_display_ref := od_display_ref input;
           do_captured_at := captured_at; do_display_screen_bounds := screen_bounds;
           do_screenshot := screenshot |}).

(** [Runtime::observe_driver_window]: one more attempt after a stale capture. *)
Definition observe_driver_window (id : SessionId) (window : DriverWindow) (include_screenshot : bool)
    (ax : AccessibilityMode) (scene : bool) : M E DriverObservation :=
  let observe := call (CallObserveWindow scene id window include_screenshot ax)
    (if scene then drv_observe_application_scene_scoped id window include_screenshot ax
     else drv_observe_window_scoped id window include_screenshot ax) in
  let! first := observe in
  match first with
  | Err error =>
      if bool_decide (de_kind error = DStaleObservation) then from_driver observe
      else fail (cua_error_from error)
  | Ok observation => ret observation
  end.

(** The truncation [observe_window] reports. *)
Definition truncation_of (observation : DriverObservation) (emitted : Z) : bool * option ObservationTruncation :=
  let over := max_elements_per_observation (config rt) <? zlen (dob_elements observation) in
  let complete := dob_elements_complete observation && negb over in
  (complete,
   if complete then None
   else if over then
     Some {| ot_reason := NodeLimit; ot_emitted_elements := default U32_MAX (u32_try_from emitted) |}
   else dob_elements_truncation observation).

(** The code of [observe_window] under the state lock: older observations of
    the window are invalidated, room is made, and the new record is stored.
    [None] is a panic of [project_observation]. *)
Definition store_observation (input : ObserveWindowInput) (scene : bool) (started_at : Z)
    (observation : DriverObservation) (mapping : option ScreenshotMapping)
    (live : Session) (t : Z) (n : nat)
    : SessionState * nat * option (ObservationId * list AccessibilityElement) :=
  let st := invalidate_window_observations (se_state live) (ow_window_ref input) in
  let st := trim_observations st (max_observations_per_session (config rt)) in
  match project_observation observation (ow_window_ref input) mapping
          (max_elements_per_observation (config rt)) t n with
  | None => (st, n, None)
  | Some (record, elements, n') =>
      let record := {| record with ob_application_scene := scene; ob_created_at := started_at |} in
      ({| st with st_observations := <[ob_id record := record]> (st_observations st) |}, n',
       Some (ob_id record, elements))
  end.

(** The authorized window behind a public reference; the common beginning of
    [observe_window] and [verify_state]. *)
Definition authorized_window (s : Session) (r : WindowRef) : M E DriverWindow :=
  let! known := read_state (se_id s) (fun st => st_windows st !! r) in
  let! window := lift (ok_or known reference_not_found) in
  lift (ensure_not (negb (allows_application s (dw_application window))) capability_denied) ;!
  ret window.

Definition observe_window (input : ObserveWindowInput) (scene : bool) : M E CommandResult :=
  let id := ow_session_id input in
  let! s := session id in
  let! window := authorized_window s (ow_window_ref input) in
  let! started_at := now in
  let! observation := observe_driver_window id window (ow_include_screenshot input) (ow_accessibility input) scene in
  let! revoked := is_revoked id in
  lift (ensure_not revoked session_unavailable) ;!
  lift (ensure_not (negb (str_eqb (dob_window_key observation) (dw_key window)))
    (internal "driver observation target mismatch")) ;!
  let! screenshot :=
    match dob_screenshot observation, dob_screenshot_screen_bounds observation with
    | Some image, Some bounds => let! a := write_screenshot id image bounds in ret (Some a)
    | None, None => ret None
    | _, _ => fail (internal "driver returned an incomplete screenshot mapping")
    end in
  let! revoked := is_revoked id in
  if revoked then remove_artifacts id ;! fail session_unavailable
  else
    let! wall := read w_wall in
    let! captured_at := lift (ok_or (format_rfc3339 wall) (internal "failed to format observation timestamp")) in
    let! stored := lock_state id
      (store_observation input scene started_at observation (sa_mapping <$> screenshot)) in
    match stored with
    | None => panic
    | Some (observation_id, elements) =>
        let '(complete, truncation) := truncation_of observation (zlen elements) in
        ret (RWindowObserved {| wo_observation_id := observation_id; wo_window_ref := ow_window_ref input;
               wo_captured_at := captured_at; wo_window_screen_bounds := dob_window_screen_bounds observation;
               wo_screenshot := screenshot; wo_elements := elements; wo_elements_complete := complete;
               wo_elements_truncation := truncation |})
    end.

Definition verify_state (input : VerifyStateInput) : M E CommandResult :=
  let! s := session (vs_session_id input) in
  let! window := authorized_window s (vs_window_ref input) in
  let! result := from_driver (call (CallVerifyState window (vs_predicate input))
    (drv_verify_state window (vs_predicate input))) in
  ret (RStateVerified {| vo_matched := dv_matched result; vo_evidence := dv_evidence result |}).

(** ** Actions *)

Definition validate_action_authority (s : Session) (lease : nat) (t : Z) (action : Action) : Result unit CuaError :=
  rmap_err cua_error_from (check (se_guard s) lease t) ;?
  ensure_not
    (negb (bool_decide (mode (se_manifest s) = Bounded))
     || negb (bool_decide (action_kind action ∈ allowed_actions (se_manifest s))))
    capability_denied ;?
  ensure_not (requires_foreground action && negb (allow_foreground_input (se_manifest s)))
    (public_error ForegroundRequired "action requires foreground input not granted by this session" false
       (Some "request_foreground_authorization"%string)).

(** The call of [validate_action_authority]: its guard lives for the check. *)
Definition check_authority (id : SessionId) (action : Action) : M E unit :=
  let! lease := action_guard id in
  finally
    (deref id (fun s w => (w, [], Returned (validate_action_authority s lease (w_now w) action))))
    (drop_guard id lease).

(** [self.foreground_lane.try_lock()], for an action that needs the foreground. *)
Definition acquire_foreground_lane (needed : bool) : M E unit :=
  if needed then
    let! taken := read w_foreground_busy in
    if taken then
      fail (with_mutation_status
        (public_error Busy "the desktop foreground-input lane is busy" true
           (Some "retry_with_fresh_observation"%string))
        NotDispatched)
    else modify (fun w => {| w with w_foreground_busy := true |})
  else ret tt.

Definition release_foreground_lane (needed : bool) (w : World E) : World E :=
  if needed then {| w with w_foreground_busy := false |} else w.

Record PreparedAction := {
  pr_window : DriverWindow;
  pr_fingerprint : string;
  pr_action : DriverAction;
  pr_observed_at : Z;
}.

(** The block of [perform_action_only] under the state lock: it claims the
    observation for this action, or invalidates it when it is no longer
    current. *)
Definition prepare_action (s : Session) (input : PerformActionInput) (live : Session) (t : Z)
    : SessionState * Result PreparedAction CuaError :=
  let st := se_state live in
  match st_windows st !! pa_window_ref input with
  | None => (st, Err reference_not_found)
  | Some window =>
      if negb (allows_application s (dw_application window)) then (st, Err capability_denied)
      else
        match st_observations st !! pa_observation_id input with
        | None => (st, Err stale_observation)
        | Some o =>
            let set_status status :=
              {| st with st_observations :=
                   <[pa_observation_id input := {| o with ob_status := status |}]> (st_observations st) |} in
            if negb (str_eqb (ob_window_ref o) (pa_window_ref input))
               || negb (bool_decide (ob_status o = Valid))
               || (max_observation_age (config rt) <? sat_sub t (ob_created_at o))
            then (set_status Invalid, Err stale_observation)
            else
              match
                (validate_action (pa_action input) (ob_screenshot_mapping o) ;?
                 rmap_err cua_error_from
                   (check_observation (gs_activity (se_guard live)) (Some (ob_created_at o))) ;?
                 resolve_action (pa_action input) o)
              with
              | Err e => (st, Err e)
              | Ok d =>
                  (set_status InFlight,
                   Ok {| pr_window := window; pr_fingerprint := ob_fingerprint o; pr_action := d;
                         pr_observed_at := ob_created_at o |})
              end
        end
  end.

(** [Runtime::invalidate_observation]. *)
Definition invalidate_observation (id : SessionId) (observation_id : ObservationId) : M E unit :=
  lock_state id (fun live _ n =>
    ({| (se_state live) with
        st_observations := alter invalidate observation_id (st_observations (se_state live)) |}, n, tt)).

Fixpoint invalidate_generation_in (ids : list SessionId) (a : DriverApplication) : M E unit :=
  match ids with
  | [] => ret tt
  | id :: ids' =>
      lock_state id (fun live _ n => (invalidate_application_observations (se_state live) a, n, tt)) ;!
      invalidate_generation_in ids' a
  end.

Definition invalidate_application_generation (a : DriverApplication) : M E unit :=
  await ;!
  modify (fun w => {| w with w_discovery :=
    filter (fun p => matches_generation (dr_application p.2) a = false) (w_discovery w) |}) ;!
  await ;!
  let! ids := read session_ids in
  invalidate_generation_in ids a.

Definition invalidate_after_action_attempt (id : SessionId) (window_ref : WindowRef) (a : DriverApplication)
    (terminates_application : bool) (result : Result DriverActionOutput DriverError) : M E unit :=
  let may_have_dispatched :=
    terminates_application
    && match result with
       | Ok _ => true
       | Err error => negb (bool_decide (de_mutation_status error = NotDispatched))
       end in
  if may_have_dispatched then invalidate_application_generation a
  else lock_state id (fun live _ n => (invalidate_window_observations (se_state live) window_ref, n, tt)).

Definition exceeded (message : string) : CuaError := with_mutation_status (internal message) Indeterminate.

Definition project_action_output (s : Session) (action_requires_foreground supports_restoration : bool)
    (result : DriverActionOutput) : Result CommandResult CuaError :=
  ensure_not
    (bool_decide (dao_delivery_mode result = Foreground)
     && (negb (allow_foreground_input (se_manifest s)) || negb action_requires_foreground))
    (exceeded "driver exceeded the authorized delivery mode") ;?
  let restoration_expected :=
    restore_foreground_after_input (se_manifest s)
    && bool_decide (dao_delivery_mode result = Foreground) && supports_restoration in
  ensure_not
    (Bool.eqb restoration_expected (bool_decide (dao_foreground_restoration result = NotRequested)))
    (exceeded "driver returned an invalid foreground restoration status") ;?
  ensure_not (negb (evidence_is_coherent result))
    (exceeded "driver returned incoherent action effect evidence") ;?
  Ok (RActionPerformed {| ao_observation := None; ao_observation_error := None;
        ao_delivery_mode := dao_delivery_mode result; ao_dispatched := true;
        ao_effect_status := dao_effect_status result; ao_evidence_kind := dao_evidence_kind result;
        ao_foreground_restoration := dao_foreground_restoration result;
        ao_observation_invalidated := true |}).

(** The verification of [perform_action_only]: the driver confirms the
    fingerprint, then the guard is checked again. *)
Definition verify_current (id : SessionId) (lease : nat) (p : PreparedAction) : M E (Result bool DriverError) :=
  let! current := call (CallObservationIsCurrent (pr_window p) (pr_fingerprint p))
    (drv_observation_is_current (pr_window p) (pr_fingerprint p)) in
  match current with
  | Err e => ret (Err e)
  | Ok current =>
      let! checked := guard_check id lease in
      let! observed := guard_check_observation id (Some (pr_observed_at p)) in
      ret (checked ;? observed ;? Ok current)
  end.

(** [perform_action_only] up to the native dispatch. *)
Definition admit_action (s : Session) (lease : nat) (input : PerformActionInput) : M E PreparedAction :=
  let id := pa_session_id input in
  let! prepared := lock_state id (fun live t n =>
    let '(st, r) := prepare_action s input live t in (st, n, r)) in
  let! p := lift prepared in
  let! verification := verify_current id lease p in
  match verification with
  | Ok true => ret p
  | Ok false => invalidate_observation id (pa_observation_id input) ;! fail stale_observation
  | Err e => invalidate_observation id (pa_observation_id input) ;! fail (cua_error_from e)
  end.

(** The native dispatch of [perform_action_only] and what follows it; the
    driver takes the guard over. *)
Definition dispatch_action (s : Session) (lease : nat) (input : PerformActionInput) (p : PreparedAction)
    : M E CommandResult :=
  let id := pa_session_id input in
  let manifest := se_manifest s in
  let! result := call
    (CallPerformAction (pr_window p) (pr_action p) (allow_foreground_input manifest)
       (restore_foreground_after_input manifest) id lease (Some (pr_observed_at p)))
    (drv_perform_action_scoped (pr_window p) (pr_action p) (allow_foreground_input manifest)
       (restore_foreground_after_input manifest) id lease (Some (pr_observed_at p))) in
  invalidate_after_action_attempt id (pa_window_ref input) (dw_application (pr_window p))
    (bool_decide (action_kind (pa_action input) = KTerminateApplication)) result ;!
  let! output := lift (admitted_action_result result) in
  lift (project_action_output s (requires_foreground (pa_action input))
    (supports_foreground_restoration (pr_action p)) output).

Definition perform_action_only (input : PerformActionInput) : M E CommandResult :=
  let id := pa_session_id input in
  let! s := session id in
  check_authority id (pa_action input) ;!
  let! lease := action_guard id in
  let needed := requires_foreground (pa_action input) in
  on_error (from_driver (wait_until_idle id lease) ;! acquire_foreground_lane needed)
    (drop_guard id lease) ;!
  finally
    (let! p := on_error (admit_action s lease input) (drop_guard id lease) in
     dispatch_action s lease input p)
    (release_foreground_lane needed).

(** The post-action read a perform request asks for. *)
Definition after_command (input : PerformActionInput) : option (ObserveWindowInput * bool) :=
  match pa_observe_after input with
  | Some options =>
      Some ({| ow_session_id := pa_session_id input; ow_window_ref := pa_window_ref input;
               ow_include_screenshot := oa_include_screenshot options;
               ow_accessibility := oa_accessibility options |}, oa_application_scene options)
  | None => None
  end.

Definition observation_command (input : ObserveWindowInput) (scene : bool) : Command :=
  if scene then ObserveApplicationScene input else ObserveWindow input.

Definition observe_after_action (input : ObserveWindowInput) (scene : bool) : M E CommandResult :=
  (if ow_include_screenshot input then
     let! s := session (ow_session_id input) in
     let! known := read_state (se_id s) (fun st => st_windows st !! ow_window_ref input) in
     let! window := lift (ok_or known reference_not_found) in
     from_driver (call (CallSettleWindow window scene) (drv_settle_window window scene))
   else ret tt) ;!
  observe_window input scene.

Definition perform_action (input : PerformActionInput) : M E CommandResult :=
  let after := after_command input in
  lift (match after with
        | Some (o, scene) =>
            rmap_err (fun e => with_mutation_status e NotDispatched)
              (stack_authorize (policy (config rt)) (observation_command o scene))
        | None => Ok tt
        end) ;!
  let! result := perform_action_only input in
  match result with
  | RActionPerformed output =>
      match after with
      | Some (o, scene) =>
          let! observed := reify (observe_after_action o scene) in
          match observed with
          | Ok (RWindowObserved observation) =>
              ret (RActionPerformed {| output with ao_observation := Some observation |})
          | Err error => ret (RActionPerformed {| output with ao_observation_error := Some error |})
          | Ok _ => panic
          end
      | None => ret (RActionPerformed output)
      end
  | _ => ret result
  end.

(** ** Commands *)

(** The capabilities of the driver, with the limits the runtime sets. *)
Definition capabilities_with_limits (c : DriverCapabilities) : DriverCapabilities :=
  {| c with observe_after_supported := true;
            action_limits := {| DEFAULT_LIMITS with max_session_ttl_seconds := max_ttl_seconds |} |}.

Definition run_command (command : Command) : M E CommandResult :=
  match command with
  | GetCapabilities =>
      let! c := from_driver (call CallCapabilities drv_capabilities) in
      ret (RCapabilities (capabilities_with_limits c))
  | GetPermissionStatus =>
      let! s := from_driver (call CallPermissionStatus drv_permission_status) in
      ret (RPermissionStatus s)
  | DiscoverApplications => discover_applications
  | DiscoverLaunchableApplications => discover_launchable_applications
  | LaunchApplication input => map_err mark_not_dispatched (launch_application input)
  | OpenSession manifest => open_session manifest
  | CloseSession id => close_session id
  | ListApps id => list_apps id
  | ListWindows input => list_windows input
  | ListDisplays id => list_displays id
  | ObserveWindow input => observe_window input false
  | ObserveApplicationScene input => observe_window input true
  | ObserveDisplay input => observe_display input
  | ReadClipboard id => read_clipboard id
  | WriteClipboard input => map_err mark_not_dispatched (write_clipboard input)
  | PerformAction input => map_err mark_not_dispatched (perform_action input)
  | ReconcileMutation _ =>
      fail (public_error Unsupported "mutation reconciliation is provided by the request dispatcher"
              false (Some "use_dispatcher_reconciliation"%string))
  | VerifyState input => verify_state input
  end.

(** [Runtime::execute]. *)
Definition execute (command : Command) : M E CommandResult :=
  await ;!
  let! closed := read w_closed in
  if closed then fail runtime_unavailable
  else
    lift (stack_authorize (policy (config rt)) command) ;!
    ensure_scheduler ;!
    run_command command.

(** ** Shutdown *)

(** [self.scheduler.lock().ok().and_then(|mut s| s.take())] and the signal. *)
Definition stop_scheduler (w : World E) : World E :=
  if w_scheduler_poisoned w then w else {| w with w_scheduler := None |}.

(** [Runtime::shutdown]; the first [await] is the shutdown guard, the second
    the lifecycle write lock, the third the end of the expiration task. *)
Definition shutdown : M E unit :=
  await ;!
  let! was_closed := read w_closed in
  modify (fun w => {| w with w_closed := true |}) ;!
  if was_closed then ret tt
  else
    await ;!
    modify stop_scheduler ;!
    await ;!
    await ;! modify (fun w => {| w with w_discovery := ∅ |}) ;!
    await ;! modify (fun w => {| w with w_launch_discovery := ∅ |}) ;!
    await ;!
    let! ids := read session_ids in
    close_all ids ;!
    remove_all_artifacts ids.

(** [impl Drop for Runtime]. *)
Definition drop_runtime : M E unit :=
  modify (fun w => stop_scheduler {| w with w_closed := true |}).

End Operations.
