(* ===== verification/RuntimeInv.v ===== *)
(** The invariant and the step relation of the session runtime.

    [Inv] is the invariant of the shared state: table and record bounds, live
    table entries, bijective references, observations and clipboard guards with
    drawn identifiers, windows inside the session's scope.  [Step] is what any
    part of the program may do to the state, which is also what a command
    relies on while it awaits: time and identifiers advance, a closed runtime
    stays closed, a session keeps its authority, its revocation and its
    interruption are latched, no observation becomes valid again, no consumed
    clipboard guard and no closed session comes back.  [Lawful] states it of a
    driver and an executor.  [spec] is the Hoare triple of the monad over both,
    and this file proves it of every command. *)

From S2P Require Import Prelude Floats Geometry Text Protocol Errors Policy Validation Driver Session Artifacts Runtime.

(** Bounds of a configuration that [Runtime::new] accepts; sizes are unsigned. *)
Record config_ok (c : RuntimeConfig) : Prop := {
  co_accepted : config_rejected c = false;
  co_observations : 0 <= max_observations_per_session c;
  co_sessions : 0 <= max_active_sessions c;
  co_applications : 0 <= max_discovered_applications c;
  co_launchable : 0 <= max_discovered_launchable_applications c;
  co_discovery : max_discovery_records c < USIZE_MAX;
  co_launch : max_launch_discovery_records c < USIZE_MAX;
  co_artifacts : 0 <= max_artifacts_per_session c;
  co_age : 0 <= max_observation_age c;
}.

Section Invariant.
Context {E : Type} `{!UuidSource} (rt : Runtime).

(** * The invariant *)

(** The state of a session whose scope is [allowed], when [n] identifiers were
    drawn. *)
Record state_ok (n : nat) (allowed : DriverApplication -> bool) (st : SessionState) : Prop := {
  so_refs : session_refs_ok st n;
  so_windows : forall r x, st_windows st !! r = Some x -> allowed (dw_application x) = true;
  so_count : msize (st_observations st) <= max_observations_per_session (config rt);
  so_observations : forall oid o, st_observations st !! oid = Some o ->
    ob_id o = oid /\ exists i, (i < n)%nat /\ oid = fresh_ref "observation_" i;
  so_clipboard : forall r, st_clipboard st = Some r ->
    exists i, (i < n)%nat /\ cr_id r = fresh_ref "clipboard_" i;
}.

Record session_ok (n : nat) (id : SessionId) (s : Session) : Prop := {
  so_id : se_id s = id;
  so_drawn : exists i, (i < n)%nat /\ id = fresh_ref "session_" i;
  so_state : state_ok n (allows_application s) (se_state s);
  so_guard : guard_inv (se_guard s);
}.

Record Inv (w : World E) : Prop := {
  i_heap : forall id s, w_heap w !! id = Some s -> session_ok (w_uuid w) id s;
  i_table : forall id, is_Some (w_sessions w !! id) -> is_Some (w_heap w !! id);
  i_sessions : msize (w_sessions w) <= max_active_sessions (config rt);
  i_discovery : msize (w_discovery w) <= max_discovery_records (config rt);
  i_launch : msize (w_launch_discovery w) <= max_launch_discovery_records (config rt);
  i_store : index_ok (w_artifacts w);
  i_store_max : as_max_artifacts_per_session (w_artifacts w) = max_artifacts_per_session (config rt);
}.

(** * The step relation *)

(** An observation without its status. *)
Definition observed (o : ObservationRecord) : ObservationRecord := {| o with ob_status := Valid |}.

(** What may happen to the state of a session when [n] identifiers were drawn:
    an observation drawn before only loses its validity, and a clipboard guard
    drawn before is only consumed. *)
Record state_step (n : nat) (st st' : SessionState) : Prop := {
  ss_observations : forall i o', (i < n)%nat ->
    st_observations st' !! fresh_ref "observation_" i = Some o' ->
    exists o, st_observations st !! fresh_ref "observation_" i = Some o /\
      observed o = observed o' /\ (ob_status o' = Valid -> ob_status o = Valid);
  ss_clipboard : forall i r, (i < n)%nat -> st_clipboard st' = Some r ->
    cr_id r = fresh_ref "clipboard_" i -> st_clipboard st = Some r;
}.

Record session_step (n : nat) (s s' : Session) : Prop := {
  ss_id : se_id s' = se_id s;
  ss_manifest : se_manifest s' = se_manifest s;
  ss_allowed : se_allowed_applications s' = se_allowed_applications s;
  ss_expires : se_expires_at s' = se_expires_at s;
  ss_closed : se_closed s = true -> se_closed s' = true;
  ss_interrupted : gs_interruption (se_guard s) <> 0 ->
    gs_interruption (se_guard s') = gs_interruption (se_guard s);
  ss_state : state_step n (se_state s) (se_state s');
}.

Record Step (w w' : World E) : Prop := {
  g_now : w_now w <= w_now w';
  g_uuid : (w_uuid w <= w_uuid w')%nat;
  g_closed : w_closed w = true -> w_closed w' = true;
  g_heap : forall id s, w_heap w !! id = Some s ->
    exists s', w_heap w' !! id = Some s' /\ session_step (w_uuid w) s s';
  g_table : forall id s, w_heap w !! id = Some s -> se_closed s = true ->
    is_Some (w_sessions w' !! id) -> is_Some (w_sessions w !! id);
}.

Lemma state_step_refl n st : state_step n st st.
Proof. constructor; [|done]. intros i o' _ Ho. by exists o'. Qed.

Lemma state_step_trans n n' st1 st2 st3 :
  (n <= n')%nat -> state_step n st1 st2 -> state_step n' st2 st3 -> state_step n st1 st3.
Proof.
  intros Hn [O1 C1] [O2 C2]. constructor.
  - intros i o' Hi (o2 & Ho2 & E2 & V2)%O2; [|lia].
    destruct (O1 i o2 Hi Ho2) as (o & Ho & E1 & V1). exists o.
    split; [done|]. split; [congruence | auto].
  - intros i r Hi Hr He. eapply C1; [exact Hi | | exact He].
    eapply C2; [|exact Hr|exact He]. lia.
Qed.

Lemma session_step_refl n s : session_step n s s.
Proof. constructor; try done. apply state_step_refl. Qed.

Lemma session_step_trans n n' s1 s2 s3 :
  (n <= n')%nat -> session_step n s1 s2 -> session_step n' s2 s3 -> session_step n s1 s3.
Proof.
  intros Hn [] []. constructor; try congruence; auto; [|by eapply state_step_trans].
  intros Hi. rewrite <- ss_interrupted0 by done. apply ss_interrupted1. by rewrite ss_interrupted0.
Qed.

#[export] Instance Step_preorder : PreOrder Step.
Proof.
  split.
  - intros w. constructor; try done. intros id s Hs. exists s. split; [done | apply session_step_refl].
  - intros w1 w2 w3 [N1 U1 C1 H1 T1] [N2 U2 C2 H2 T2]. constructor; [lia | lia | auto | |].
    + intros id s (s2 & Hs2 & S1)%H1. destruct (H2 _ _ Hs2) as (s3 & Hs3 & S2).
      exists s3. split; [done|]. by eapply session_step_trans.
    + intros id s Hs Hc Ht. destruct (H1 _ _ Hs) as (s2 & Hs2 & S12). eapply T1; [done..|].
      eapply T2; [done | by apply S12 | done].
Qed.

Lemma state_ok_mono n n' allowed st : (n <= n')%nat -> state_ok n allowed st -> state_ok n' allowed st.
Proof.
  intros Hn [[] Hw Hc Ho Hb]. constructor; try done.
  - constructor; by eapply refs_ok_mono.
  - intros oid o (? & j & ? & ?)%Ho. split; [done|]. exists j. split; [lia | done].
  - intros r (j & ? & ?)%Hb. exists j. split; [lia | done].
Qed.

Lemma session_ok_mono n n' id s : (n <= n')%nat -> session_ok n id s -> session_ok n' id s.
Proof.
  intros Hn [Hi (i & ? & ?) Hs Hg]. constructor; try done; [exists i; split; [lia | done]|].
  by eapply state_ok_mono.
Qed.

(** * Steps of the state *)

(** Replacing a session, possibly after drawing identifiers. *)
Lemma put_session_step w id s s' n :
  Inv w -> w_heap w !! id = Some s -> (w_uuid w <= n)%nat ->
  session_ok n id s' -> session_step (w_uuid w) s s' ->
  Inv (put_session s' {| w with w_uuid := n |}) /\ Step w (put_session s' {| w with w_uuid := n |}).
Proof.
  intros Hi Hs Hn Hok Hst. pose proof (so_id _ _ _ Hok) as Hid. unfold put_session. rewrite Hid.
  destruct Hi as [Hh Ht Hse Hd Hl Hx Hm]. split.
  - constructor; cbn; try done.
    + intros id' x [[<- <-]|[_ Hx']]%lookup_insert_Some; [done|]. eapply session_ok_mono; [exact Hn | by apply Hh].
    + intros id' Hid'. apply lookup_insert_is_Some'. right. by apply Ht.
  - constructor; cbn; try done.
    + intros id' x Hx'. destruct (decide (id' = id)) as [->|Hne].
      * assert (x = s) as -> by congruence. exists s'. by rewrite lookup_insert_eq.
      * exists x. rewrite lookup_insert_ne by done. split; [done | apply session_step_refl].
Qed.

(** The parts of the state that [Inv] and [Step] do not constrain. *)
Lemma same_core w w' :
  Inv w -> w_now w <= w_now w' -> (w_uuid w <= w_uuid w')%nat -> (w_closed w = true -> w_closed w' = true) ->
  w_heap w' = w_heap w -> w_sessions w' ⊆ w_sessions w ->
  msize (w_discovery w') <= max_discovery_records (config rt) ->
  msize (w_launch_discovery w') <= max_launch_discovery_records (config rt) ->
  index_ok (w_artifacts w') ->
  as_max_artifacts_per_session (w_artifacts w') = max_artifacts_per_session (config rt) ->
  Inv w' /\ Step w w'.
Proof.
  intros [Hh Ht Hse Hd Hl Hx Hm] Hnow Hu Hc Eh Et D L X M.
  assert (Hsub : forall id, is_Some (w_sessions w' !! id) -> is_Some (w_sessions w !! id)).
  { intros id [x Hx']. exists x. by eapply lookup_weaken. }
  split; constructor; try done; rewrite ?Eh.
  - intros id s Hs. eapply session_ok_mono; [exact Hu | by apply Hh].
  - eauto.
  - pose proof (msize_mono _ _ Et). lia.
  - intros id s Hs. exists s. split; [done | apply session_step_refl].
  - eauto.
Qed.

(** * The triple *)

(** [m], started in a state that satisfies the invariant and [P], never
    panics, keeps the invariant, makes only steps, makes every driver call in
    such a state with [C], and when it returns a value satisfies [Q]. *)
Definition spec {A} (P : World E -> Prop) (m : M E A) (C : World E * DriverCall -> Prop)
    (Q : A -> World E -> Prop) : Prop :=
  forall w, Inv w -> P w ->
    let '(w', t, r) := m w in
    Inv w' /\ Step w w' /\
    (forall x, x ∈ t -> Inv x.1 /\ Step w x.1 /\ Step x.1 w' /\ C x) /\
    match r with
    | Returned (Ok a) => Q a w'
    | Returned (Err _) => True
    | Panicked => False
    end.

(** A condition that steps keep. *)
Definition stable (P : World E -> Prop) : Prop := forall w w', Step w w' -> P w -> P w'.

Lemma spec_weaken {A} (P P' : World E -> Prop) (m : M E A) (C C' : World E * DriverCall -> Prop) (Q Q' : A -> World E -> Prop) :
  spec P m C Q -> (forall w, Inv w -> P' w -> P w) -> (forall x, C x -> C' x) ->
  (forall a w, Inv w -> Q a w -> Q' a w) -> spec P' m C' Q'.
Proof.
  intros Hm HP HC HQ w Hi Hw. specialize (Hm w Hi (HP w Hi Hw)). destruct (m w) as [[w' t] r].
  destruct Hm as (I & S & T & R). split; [done|]. split; [done|].
  split; [intros x (?&?&?&?)%T; auto|]. destruct r as [[a|]|]; auto.
Qed.

Lemma spec_lift {A} (P : World E -> Prop) (r : Result A CuaError) C (Q : A -> World E -> Prop) :
  (forall a w, Inv w -> P w -> r = Ok a -> Q a w) -> spec P (lift r) C Q.
Proof.
  intros HQ w Hi Hw. cbn. split; [done|]. split; [reflexivity|]. split; [set_solver|].
  destruct r; auto.
Qed.

Lemma spec_read {A} (P : World E -> Prop) (f : World E -> A) C (Q : A -> World E -> Prop) :
  (forall w, Inv w -> P w -> Q (f w) w) -> spec P (read f) C Q.
Proof. intros HQ w Hi Hw. cbn. split; [done|]. split; [reflexivity|]. split; [set_solver | auto]. Qed.

Lemma spec_bind {A B} P (m : M E A) (k : A -> M E B) C R Q :
  spec P m C R -> (forall a, spec (R a) (k a) C Q) -> spec P (bind m k) C Q.
Proof.
  intros Hm Hk w Hi Hw. specialize (Hm w Hi Hw). unfold bind. destruct (m w) as [[w1 t1] [[a|e]|]]; try done.
  destruct Hm as (I1 & S1 & T1 & R1). specialize (Hk a w1 I1 R1). destruct (k a w1) as [[w2 t2] r].
  destruct Hk as (I2 & S2 & T2 & R2). split; [done|]. split; [by etrans|]. split; [|done].
  intros x [(?&?&?&?)%T1|(?&?&?&?)%T2]%elem_of_app; (split; [done|]; split; [by etrans|]; split; [by etrans | done]).
Qed.

(** A stable condition survives the first part of a computation. *)
Lemma spec_frame {A} (F : World E -> Prop) P (m : M E A) C Q :
  stable F -> spec P m C Q -> spec (fun w => P w /\ F w) m C (fun a w => Q a w /\ F w).
Proof.
  intros HF Hm w Hi [Hw HFw]. specialize (Hm w Hi Hw). destruct (m w) as [[w' t] r].
  destruct Hm as (I & S & T & R). repeat (split; [done|]). destruct r as [[a|]|]; try done.
  split; [done | by eapply HF].
Qed.

Lemma spec_map_err {A} P (f : CuaError -> CuaError) (m : M E A) C Q : spec P m C Q -> spec P (map_err f m) C Q.
Proof.
  intros Hm w Hi Hw. specialize (Hm w Hi Hw). unfold map_err. destruct (m w) as [[w' t] [[a|e]|]]; done.
Qed.

Lemma spec_reify {A} P (m : M E A) C Q :
  spec P m C Q -> spec P (reify m) C (fun r w => match r with Ok a => Q a w | Err _ => True end).
Proof.
  intros Hm w Hi Hw. specialize (Hm w Hi Hw). unfold reify. destruct (m w) as [[w' t] [[a|e]|]]; done.
Qed.

(** A release that is a step. *)
Lemma spec_finally {A} P (m : M E A) release C Q :
  spec P m C Q -> (forall w, Inv w -> Inv (release w) /\ Step w (release w)) ->
  (forall a, stable (Q a)) -> spec P (finally m release) C Q.
Proof.
  intros Hm Hr HQ w Hi Hw. specialize (Hm w Hi Hw). unfold finally. destruct (m w) as [[w' t] r].
  destruct Hm as (I & S & T & R). destruct (Hr w' I) as [I' S']. split; [done|]. split; [by etrans|].
  split; [intros x (?&?&?&?)%T; repeat (split; [done|]); split; [by etrans | done]|].
  destruct r as [[a|]|]; try done. by eapply HQ.
Qed.

Lemma spec_on_error {A} P (m : M E A) release C Q :
  spec P m C Q -> (forall w, Inv w -> Inv (release w) /\ Step w (release w)) ->
  spec P (on_error m release) C Q.
Proof.
  intros Hm Hr w Hi Hw. specialize (Hm w Hi Hw). unfold on_error. destruct (m w) as [[w' t] [[a|e]|]]; [done | | by destruct Hm as (_ & _ & _ & [])].
  destruct Hm as (I & S & T & R). destruct (Hr w' I) as [I' S']. split; [done|]. split; [by etrans|].
  split; [|done]. intros x (?&?&?&?)%T; repeat (split; [done|]); split; [by etrans | done].
Qed.

Lemma spec_modify P f C (Q : unit -> World E -> Prop) :
  (forall w, Inv w -> P w -> Inv (f w) /\ Step w (f w)) ->
  (forall w, Inv w -> P w -> Q tt (f w)) -> spec P (modify f) C Q.
Proof.
  intros Hf HQ w Hi Hw. cbn. destruct (Hf w Hi Hw) as [I S]. repeat (split; [done|]). split; [set_solver | auto].
Qed.

Lemma spec_deref {A} P id (k : Session -> M E A) C Q :
  (forall w, Inv w -> P w -> is_Some (w_heap w !! id)) ->
  (forall s, spec (fun w => P w /\ w_heap w !! id = Some s) (k s) C Q) -> spec P (deref id k) C Q.
Proof.
  intros HP Hk w Hi Hw. unfold deref. destruct (HP w Hi Hw) as [s Hs]. rewrite Hs.
  by apply (Hk s w Hi).
Qed.

(** * Operations on the state of a session *)

(** The new state and counter [f] leaves are right, whatever the session. *)
Definition state_change {A} (P : Session -> Z -> Prop) (f : Session -> Z -> nat -> SessionState * nat * A)
    (Q : A -> Session -> Prop) : Prop :=
  forall live t n, P live t -> state_ok n (allows_application live) (se_state live) ->
    let '(st, n', a) := f live t n in
    (n <= n')%nat /\ state_ok n' (allows_application live) st /\ state_step n (se_state live) st /\
    Q a {| live with se_state := st |}.

(** An operation that touches neither observations nor the clipboard. *)
Lemma reference_change n n' allowed st st' :
  (n <= n')%nat -> state_ok n allowed st -> session_refs_ok st' n' ->
  (forall r x, st_windows st' !! r = Some x -> allowed (dw_application x) = true) ->
  st_observations st' = st_observations st -> st_clipboard st' = st_clipboard st ->
  state_ok n' allowed st' /\ state_step n st st'.
Proof.
  intros Hn Hok Hr Hw Eo Ec. apply (state_ok_mono n n') in Hok; [|done]. split.
  - constructor; [done | done | rewrite ?Eo, ?Ec; apply Hok..].
  - destruct (state_step_refl n st). constructor; rewrite ?Eo, ?Ec; done.
Qed.

Lemma project_ref_keeps {A} prefix key (a : A) refs table n refs' table' n' r x y :
  project_ref prefix key a refs table n = (refs', table', n', r) ->
  table' !! x = Some y -> y = a \/ table !! x = Some y.
Proof.
  unfold project_ref. destruct (refs !! key) eqn:Er; intros [= <- <- <- <-];
    intros [[_ <-]|[_ Hx]]%lookup_insert_Some; auto.
Qed.

Lemma project_application_ok n allowed st a :
  state_ok n allowed st ->
  let '(st', n', r) := project_application st n a in
  (n <= n')%nat /\ state_ok n' allowed st' /\ state_step n st st'.
Proof.
  intros Hok. unfold project_application.
  destruct (project_ref _ _ _ _ _ _) as [[[refs table] n'] r] eqn:Ep.
  destruct (so_refs _ _ _ Hok) as [Ha Hw Hd]. apply (project_ref_ok _ _ _ _ _ _ _ _ _ _ Ha) in Ep as (? & ? & ? & ? & Hn).
  split; [done|]. apply reference_change with (n := n); try done; [|apply Hok].
  constructor; cbn; eauto using refs_ok_mono.
Qed.

Lemma project_window_ok n allowed st x :
  state_ok n allowed st -> allowed (dw_application x) = true ->
  let '(st', n', r) := project_window st n x in
  (n <= n')%nat /\ state_ok n' allowed st' /\ state_step n st st'.
Proof.
  intros Hok Hx. unfold project_window.
  destruct (project_ref _ _ _ _ _ _) as [[[refs table] n'] r] eqn:Ep.
  destruct (so_refs _ _ _ Hok) as [Ha Hw Hd].
  pose proof (fun y z => project_ref_keeps _ _ _ _ _ _ _ _ _ _ y z Ep) as Hk.
  apply (project_ref_ok _ _ _ _ _ _ _ _ _ _ Hw) in Ep as (? & ? & ? & ? & Hn).
  split; [done|]. apply reference_change with (n := n); try done.
  - constructor; cbn; eauto using refs_ok_mono.
  - cbn. intros y z [->|Hy]%Hk; [done | by eapply so_windows].
Qed.

Lemma project_display_ok n allowed st d :
  state_ok n allowed st ->
  let '(st', n', r) := project_display st n d in
  (n <= n')%nat /\ state_ok n' allowed st' /\ state_step n st st'.
Proof.
  intros Hok. unfold project_display.
  destruct (project_ref _ _ _ _ _ _) as [[[refs table] n'] r] eqn:Ep.
  destruct (so_refs _ _ _ Hok) as [Ha Hw Hd]. apply (project_ref_ok _ _ _ _ _ _ _ _ _ _ Hd) in Ep as (? & ? & ? & ? & Hn).
  split; [done|]. apply reference_change with (n := n); try done; [|apply Hok].
  constructor; cbn; eauto using refs_ok_mono.
Qed.

Lemma summarize_applications_ok n allowed st l :
  state_ok n allowed st ->
  let '(st', n', out) := summarize_applications st n l in
  (n <= n')%nat /\ state_ok n' allowed st' /\ state_step n st st'.
Proof.
  revert n st. induction l as [|a l IH]; intros n st Hok; cbn; [split; [done|]; split; [done | apply state_step_refl]|].
  pose proof (project_application_ok n allowed st a Hok) as H1. destruct (project_application st n a) as [[st1 n1] r].
  destruct H1 as (? & Hok1 & ?). specialize (IH n1 st1 Hok1). destruct (summarize_applications st1 n1 l) as [[st2 n2] out].
  destruct IH as (? & ? & ?). split; [lia|]. split; [done | by eapply state_step_trans].
Qed.

Lemma summarize_windows_ok n allowed st l :
  state_ok n allowed st -> (forall x, x ∈ l -> allowed (dw_application x) = true) ->
  let '(st', n', out) := summarize_windows st n l in
  (n <= n')%nat /\ state_ok n' allowed st' /\ state_step n st st'.
Proof.
  revert n st. induction l as [|x l IH]; intros n st Hok Hl; cbn; [split; [done|]; split; [done | apply state_step_refl]|].
  pose proof (project_application_ok n allowed st (dw_application x) Hok) as H1.
  destruct (project_application st n _) as [[st1 n1] r]. destruct H1 as (? & Hok1 & ?).
  pose proof (project_window_ok n1 allowed st1 x Hok1 (Hl x ltac:(set_solver))) as H2.
  destruct (project_window st1 n1 x) as [[st2 n2] r2]. destruct H2 as (? & Hok2 & ?).
  specialize (IH n2 st2 Hok2 ltac:(set_solver)). destruct (summarize_windows st2 n2 l) as [[st3 n3] out].
  destruct IH as (? & ? & ?). split; [lia|]. split; [done|].
  eapply (state_step_trans n n1); [lia | done|]. by eapply (state_step_trans n1 n2).
Qed.

Lemma summarize_displays_ok n allowed st l :
  state_ok n allowed st ->
  let '(st', n', out) := summarize_displays st n l in
  (n <= n')%nat /\ state_ok n' allowed st' /\ state_step n st st'.
Proof.
  revert n st. induction l as [|a l IH]; intros n st Hok; cbn; [split; [done|]; split; [done | apply state_step_refl]|].
  pose proof (project_display_ok n allowed st a Hok) as H1. destruct (project_display st n a) as [[st1 n1] r].
  destruct H1 as (? & Hok1 & ?). specialize (IH n1 st1 Hok1). destruct (summarize_displays st1 n1 l) as [[st2 n2] out].
  destruct IH as (? & ? & ?). split; [lia|]. split; [done | by eapply state_step_trans].
Qed.

(** Every observation of [m'] is one of [m], no more valid than it was there. *)
Definition narrows (m m' : gmap string ObservationRecord) : Prop :=
  forall oid o', m' !! oid = Some o' ->
    exists o, m !! oid = Some o /\ observed o = observed o' /\ (ob_status o' = Valid -> ob_status o = Valid).

Lemma narrows_trans m1 m2 m3 : narrows m1 m2 -> narrows m2 m3 -> narrows m1 m3.
Proof.
  intros H1 H2 oid o3 (o2 & Ho2 & E2 & V2)%H2. destruct (H1 _ _ Ho2) as (o & Ho & E1 & V1).
  exists o. split; [done|]. split; [congruence | auto].
Qed.

Lemma narrows_sub m m' : m' ⊆ m -> narrows m m'.
Proof. intros Hs oid o Ho. exists o. split; [by eapply lookup_weaken | done]. Qed.

Lemma narrows_alter m f : (forall o, observed (f o) = observed o) ->
  (forall o, ob_status (f o) = Valid -> ob_status o = Valid) -> forall oid, narrows m (alter f oid m).
Proof.
  intros Hf Hv oid k o'. destruct (decide (oid = k)) as [->|Hne].
  - rewrite lookup_alter_eq. destruct (m !! k) as [o|]; [|done]. intros [= <-]. exists o. by rewrite Hf; auto.
  - rewrite lookup_alter_ne by done. intros Ho. by exists o'.
Qed.

Lemma narrows_size (m m' : gmap string ObservationRecord) : narrows m m' -> msize m' <= msize m.
Proof.
  intros Hn. unfold msize. apply inj_le. rewrite <- !size_dom. apply subseteq_size.
  intros k [o Ho]%elem_of_dom. destruct (Hn _ _ Ho) as (o' & Ho' & _). apply elem_of_dom. eauto.
Qed.

Lemma narrow_change n allowed st m' :
  state_ok n allowed st -> narrows (st_observations st) m' ->
  state_ok n allowed {| st with st_observations := m' |} /\ state_step n st {| st with st_observations := m' |}.
Proof.
  intros [[] Hw Hc Ho Hb] Hn. split; constructor; cbn; try done.
  - pose proof (narrows_size _ _ Hn). lia.
  - intros oid o' (o & Ho1 & Hobs & _)%Hn. destruct (Ho _ _ Ho1) as [<- Hd]. split; [|done].
    by injection Hobs.
  - intros i o' _ Hl. exact (Hn _ _ Hl).
Qed.

Lemma narrows_invalidate m (f : ObservationRecord -> bool) :
  narrows m ((fun o => if f o then invalidate o else o) <$> m).
Proof.
  intros oid o' (o & <- & Ho)%lookup_fmap_Some. exists o. split; [done|]. by destruct (f o).
Qed.

Lemma narrows_set m oid o status : m !! oid = Some o -> status <> Valid ->
  narrows m (<[oid := {| o with ob_status := status |}]> m).
Proof.
  intros Ho Hs k o' [[<- <-]|[_ Hk]]%lookup_insert_Some; [exists o; by cbn | by exists o'].
Qed.

Lemma project_clipboard_ok n allowed st marker :
  state_ok n allowed st ->
  let '(st', n', r) := project_clipboard st n marker in
  (n <= n')%nat /\ state_ok n' allowed st' /\ state_step n st st'.
Proof.
  intros Hok. cbn. apply (state_ok_mono n (S n)) in Hok as [[] Hw Hc Ho Hb]; [|lia].
  split; [lia|]. split; constructor; cbn; try done.
  - intros r [= <-]. exists n. split; [lia | done].
  - apply (state_step_refl n st).
  - intros i r Hi [= <-]. cbn. intros ->%fresh_ref_inj. lia.
Qed.

Lemma take_clipboard_ok n allowed st r :
  state_ok n allowed st ->
  let st' := (take_clipboard_marker st r).1 in state_ok n allowed st' /\ state_step n st st'.
Proof.
  intros Hok. unfold take_clipboard_marker. destruct (st_clipboard st) as [c|] eqn:Ec; [|split; [done | apply state_step_refl]].
  destruct (str_eqb _ _); [|split; [done | apply state_step_refl]]. cbn. destruct Hok as [[] Hw Hc Ho Hb].
  split; constructor; cbn; try done. apply (state_step_refl n st).
Qed.

End Invariant.

(** * What the runtime relies on *)

Section Rely.
Context {E : Type} `{!DesktopDriver E, !Executor E, !HashOrder, !UuidSource} (rt : Runtime).

(** A state change that keeps the invariant and is a step. *)
Definition preserves (f : World E -> World E) : Prop :=
  forall w, Inv rt w -> Inv rt (f w) /\ Step w (f w).

Definition method_ok {A} (method : World E -> World E * Result A DriverError) : Prop :=
  preserves (fun w => (method w).1).

(** A driver whose methods keep the invariant: natively and through the tasks
    that run while a method is awaited.  [session_started_guarded] and
    [session_closed] are synchronous and cannot reach the session table; a
    driver cannot close a session, whose [closed] cell is private to the
    runtime. *)
Record LawfulDriver : Prop := {
  law_capabilities : method_ok drv_capabilities;
  law_permission_status : method_ok drv_permission_status;
  law_list_applications : method_ok drv_list_applications;
  law_list_launchable : method_ok drv_list_launchable_applications;
  law_launch : forall a b, method_ok (drv_launch_application a b);
  law_started : forall id lease b, method_ok (drv_session_started_guarded id lease b);
  law_started_table : forall id lease b w, w_sessions (drv_session_started_guarded id lease b w).1 = w_sessions w;
  law_started_open : forall id lease b w s, Inv rt w -> w_heap w !! id = Some s -> se_closed s = false ->
    exists s', w_heap (drv_session_started_guarded id lease b w).1 !! id = Some s' /\ se_closed s' = false;
  law_session_closed : forall id, preserves (drv_session_closed id);
  law_closed_table : forall id w, w_sessions (drv_session_closed id w) = w_sessions w;
  law_list_windows : forall keys, method_ok (drv_list_windows keys);
  law_list_displays : method_ok drv_list_displays;
  law_observe_display : forall d, method_ok (drv_observe_display d);
  law_observe_window : forall id x b m, method_ok (drv_observe_window_scoped id x b m);
  law_observe_scene : forall id x b m, method_ok (drv_observe_application_scene_scoped id x b m);
  law_settle : forall x b, method_ok (drv_settle_window x b);
  law_read_clipboard : forall n, method_ok (drv_read_clipboard n);
  law_write_clipboard : forall m s n, method_ok (drv_write_clipboard m s n);
  law_is_current : forall x f, method_ok (drv_observation_is_current x f);
  law_perform : forall x a f r id l o, method_ok (drv_perform_action_scoped x a f r id l o);
  law_verify : forall x p, method_ok (drv_verify_state x p);
}.

(** An executor under which the other tasks keep the invariant, and whose
    sleep lets the time asked for pass. *)
Record LawfulExecutor : Prop := {
  law_yield : preserves yield;
  law_sleep : forall d, preserves (sleep d);
  law_sleep_time : forall d w, w_now w + d <= w_now (sleep d w);
  law_permit : preserves await_permit;
  law_select : forall d, preserves (fun w => (select_deadline d w).1);
  law_signal : preserves await_signal;
}.

Record Lawful : Prop := {
  law_config : config_ok (config rt);
  law_driver : LawfulDriver;
  law_executor : LawfulExecutor;
}.

(** * Storing and claiming observations *)

Lemma config_bounds c : config_ok c ->
  1 <= max_observations_per_session c /\ 1 <= max_active_sessions c /\ 1 <= max_artifacts_per_session c /\
  max_discovered_applications c <= max_discovery_records c /\
  max_discovered_launchable_applications c <= max_launch_discovery_records c.
Proof. intros [Hr ? ? ? ? ? ? ? ?]. unfold config_rejected in Hr. zbool. lia. Qed.

Lemma store_observation_ok input scene started observation mapping :
  config_ok (config rt) ->
  state_change rt (fun _ _ => True) (store_observation rt input scene started observation mapping)
    (fun r s => exists oid elements o, r = Some (oid, elements) /\
       st_observations (se_state s) !! oid = Some o /\ ob_status o = Valid /\ ob_created_at o = started /\
       ob_window_ref o = ow_window_ref input /\ ob_application_scene o = scene /\
       (forall oid' o', oid' <> oid -> st_observations (se_state s) !! oid' = Some o' ->
          ob_window_ref o' = ow_window_ref input -> ob_status o' <> Valid)).
Proof.
  intros Hcfg live t n _ Hok. unfold store_observation.
  destruct (project_observation_facts observation (ow_window_ref input) mapping
    (max_elements_per_observation (config rt)) t n)
    as (rec & public & n' & Hp & En & Eid & Hst & Hw & Hmap & _).
  rewrite Hp. set (st1 := invalidate_window_observations _ _). set (st2 := trim_observations st1 _).
  assert (Hn : narrows (st_observations (se_state live)) (st_observations st2)).
  { eapply (narrows_trans _ (st_observations st1)); [apply narrows_invalidate | apply narrows_sub, trim_sub]. }
  assert (Est : forall m, {| st2 with st_observations := m |} = {| (se_state live) with st_observations := m |}).
  { intros m. unfold st2, trim_observations. by destruct (_ <? _). }
  rewrite Est. destruct (narrow_change rt n _ _ _ Hok Hn) as [Hok2 Hstep2].
  assert (Hle : (n <= n')%nat) by lia. split; [done|].
  pose proof (state_ok_mono rt n n' _ _ Hle Hok2) as [Hr2 Hwin2 Hc2 Ho2 Hb2]. cbn in *. rewrite Eid.
  pose proof (trim_size st1 (max_observations_per_session (config rt)) (proj1 (config_bounds _ Hcfg))) as Hsize.
  fold st2 in Hsize.
  split; [constructor; cbn; try done|split; [constructor; cbn|]].
  - destruct Hr2. by constructor.
  - etrans; [apply msize_insert_le|]. lia.
  - intros oid o [[<- <-]|[_ Hl]]%lookup_insert_Some; [|by apply Ho2]. split; [done|]. exists n. split; [lia | done].
  - intros i o' Hi [[Hx%fresh_ref_inj _]|[_ Hl]]%lookup_insert_Some; [lia|]. by apply Hn in Hl.
  - apply Hstep2.
  - eexists _, public, _. split; [done|]. cbn. rewrite lookup_insert_eq. do 5 (split; [done|]).
    intros oid' o' Hne. rewrite lookup_insert_ne by done. intros Hl Hwo.
    eapply lookup_weaken in Hl; [|apply trim_sub]. unfold st1, invalidate_window_observations, invalidate_if in Hl.
    cbn in Hl. apply lookup_fmap_Some in Hl as (o & <- & _). revert Hwo.
    destruct (str_eqb (ob_window_ref o) (ow_window_ref input)) eqn:Ew; [done|]. intros Hwo. unfold str_eqb in Ew.
    apply String.eqb_neq in Ew. congruence.
Qed.

(** What [prepare_action] established of the action it admits. *)
Record prepared (s : Session) (input : PerformActionInput) (live : Session) (t : Z) (p : PreparedAction)
    (o : ObservationRecord) : Prop := {
  pr_is_observation : st_observations (se_state live) !! pa_observation_id input = Some o;
  pr_valid : ob_status o = Valid;
  pr_same_window : ob_window_ref o = pa_window_ref input;
  pr_recent : t - ob_created_at o <= max_observation_age (config rt);
  pr_is_window : st_windows (se_state live) !! pa_window_ref input = Some (pr_window p);
  pr_in_scope : allows_application s (dw_application (pr_window p)) = true;
  pr_validated : validate_action (pa_action input) (ob_screenshot_mapping o) = Ok tt;
  pr_resolved : resolve_action (pa_action input) o = Ok (pr_action p);
  pr_is_fingerprint : pr_fingerprint p = ob_fingerprint o;
  pr_is_time : pr_observed_at p = ob_created_at o;
}.

Lemma prepare_action_ok s input live t n :
  0 <= max_observation_age (config rt) -> state_ok rt n (allows_application live) (se_state live) ->
  let '(st, r) := prepare_action rt s input live t in
  state_ok rt n (allows_application live) st /\ state_step n (se_state live) st /\
  match r with
  | Ok p =>
      (exists o, prepared s input live t p o) /\
      exists o', st_observations st !! pa_observation_id input = Some o' /\ ob_status o' = InFlight
  | Err _ => True
  end.
Proof.
  intros Hage Hok. unfold prepare_action.
  assert (Hsame : state_ok rt n (allows_application live) (se_state live) /\
    state_step n (se_state live) (se_state live)) by (split; [done | apply state_step_refl]).
  destruct (st_windows _ !! _) as [x|] eqn:Ex; [|by destruct Hsame].
  destruct (allows_application s (dw_application x)) eqn:Ea; cbn [negb]; [|by destruct Hsame].
  destruct (st_observations _ !! _) as [o|] eqn:Eo; [|by destruct Hsame].
  destruct (negb (str_eqb _ _) || _ || _) eqn:Eg.
  { destruct (narrow_change rt n _ _ _ Hok (narrows_set _ _ _ Invalid Eo ltac:(done))). done. }
  zbool. destruct Eg as [[Ew Ev] Eage].
  destruct (_ ;? _) as [d|] eqn:Er; [|by destruct Hsame]. res_inv.
  destruct (narrow_change rt n _ _ _ Hok (narrows_set _ _ _ InFlight Eo ltac:(done))). split; [done|]. split; [done|].
  split; [|eexists; split; [apply lookup_insert_eq | done]].
  exists o. unfold str_eqb in Ew. apply String.eqb_eq in Ew. apply bool_decide_eq_true in Ev.
  unfold sat_sub in Eage.
  repeat match goal with x : unit |- _ => destruct x end. constructor; cbn; try done. lia.
Qed.

End Rely.
