(* ===== verification/RuntimeSpecs.v ===== *)
(** Triples of the runtime's building blocks: locks, guards, sessions, the
    scheduler, artifacts and driver calls.  [F] is a condition the caller keeps
    across awaits, [known s] that a session obtained from the table is still
    in memory with the authority it had. *)

From S2P Require Import Prelude Floats Geometry Text Protocol Errors Policy Validation Driver Session Artifacts Runtime RuntimeInv.

Section Specs.
Context {E : Type} `{!DesktopDriver E, !Executor E, !HashOrder, !UuidSource}.
Context (fs : ArtifactEnv E) (rt : Runtime).
Context (Hlaw : Lawful rt).
Context (C : World E * DriverCall -> Prop).
Implicit Types (F : World E -> Prop) (s live : Session) (w : World E).

Let driver := law_driver rt Hlaw.
Let executor := law_executor rt Hlaw.

(** * Authority *)

(** [live] is the session [s] was read from, maybe later. *)
Record same_authority s live : Prop := {
  au_id : se_id live = se_id s;
  au_manifest : se_manifest live = se_manifest s;
  au_allowed : se_allowed_applications live = se_allowed_applications s;
  au_expires : se_expires_at live = se_expires_at s;
}.

Definition known s w : Prop := exists live, w_heap w !! se_id s = Some live /\ same_authority s live.

Lemma same_authority_step n s live live' :
  same_authority s live -> session_step n live live' -> same_authority s live'.
Proof. intros [] []. constructor; congruence. Qed.

Lemma known_stable s : stable (known s).
Proof.
  intros w w' Hst (live & Hl & Ha). destruct (g_heap _ _ Hst _ _ Hl) as (live' & Hl' & Hs).
  exists live'. split; [done | by eapply same_authority_step].
Qed.

Lemma allows_same s live a : same_authority s live -> allows_application live a = allows_application s a.
Proof. intros []. unfold allows_application. congruence. Qed.

Lemma stable_and F G : stable F -> stable G -> stable (fun w => F w /\ G w).
Proof. intros HF HG w w' Hs []. split; eauto. Qed.

Lemma stable_step w0 : stable (Step w0).
Proof. intros w w' Hs Hw. by etrans. Qed.

Lemma stable_true : stable (fun _ : World E => True).
Proof. done. Qed.

(** * Sequencing under a stable condition *)

Lemma spec_step {A B} F (m : M E A) (k : A -> M E B) (phi : A -> Prop) Q :
  stable F -> spec rt F m C (fun a _ => phi a) -> (forall a, phi a -> spec rt F (k a) C Q) ->
  spec rt F (bind m k) C Q.
Proof.
  intros HF Hm Hk. apply spec_bind with (R := fun a w => phi a /\ F w).
  - by refine (spec_weaken rt _ F m C C _ _ (spec_frame rt F F m C _ HF Hm) _ _ _); auto.
  - intros a w Hi [Hp Hw]. by apply Hk.
Qed.

Lemma spec_seq {A B} F (m : M E A) (k : A -> M E B) Q :
  stable F -> spec rt F m C (fun _ _ => True) -> (forall a, spec rt F (k a) C Q) ->
  spec rt F (bind m k) C Q.
Proof. intros HF Hm Hk. eapply spec_step; [done | exact Hm | auto]. Qed.

Lemma spec_pure {A} F (m : M E A) (phi : Prop) Q :
  (phi -> spec rt F m C Q) -> spec rt (fun w => F w /\ phi) m C Q.
Proof. intros Hm w Hi [Hw Hp]. by apply Hm. Qed.

Lemma spec_ret {A} F (a : A) : spec rt F (ret a) C (fun _ _ => True).
Proof. by apply spec_lift. Qed.

Lemma spec_fail {A} F e (Q : A -> World E -> Prop) : spec rt F (fail e) C Q.
Proof. by apply spec_lift. Qed.

Lemma spec_lift_ok {A} F (r : Result A CuaError) : spec rt F (lift r) C (fun a _ => r = Ok a).
Proof. by apply spec_lift. Qed.

Lemma spec_read_any {A} F (f : World E -> A) : spec rt F (read f) C (fun _ _ => True).
Proof. by apply spec_read. Qed.

Lemma spec_preserves F f : preserves rt f -> spec rt F (modify f) C (fun _ _ => True).
Proof. intros Hf. apply spec_modify; [|done]. intros w Hi _. by apply Hf. Qed.

Lemma spec_await F : spec rt F await C (fun _ _ => True).
Proof. apply spec_preserves, executor. Qed.

Lemma spec_new_ref F prefix : spec rt F (new_ref prefix) C (fun _ _ => True).
Proof.
  intros w Hi _. unfold new_ref. pose proof Hi as [? ? ? ? ? ? ?].
  destruct (same_core rt w {| w with w_uuid := S (w_uuid w) |}) as [I S]; cbn; try done; [lia|].
  split; [done|]. split; [done|]. split; [by intros x ?%elem_of_nil | done].
Qed.

(** * Driver calls *)

Lemma spec_call {A} F c (method : World E -> World E * Result A DriverError) :
  method_ok rt method -> (forall w, Inv rt w -> F w -> C (w, c)) ->
  spec rt F (call c method) C (fun _ _ => True).
Proof.
  intros Hm HC w Hi Hw. unfold call. specialize (Hm w Hi). cbn in Hm. destruct (method w) as [w' r]. destruct Hm as [I S].
  split; [done|]. split; [done|]. split; [|done]. intros x ->%list_elem_of_singleton. cbn.
  split; [done|]. split; [reflexivity | auto].
Qed.

Lemma spec_from_driver {A} F (m : M E (Result A DriverError)) :
  spec rt F m C (fun _ _ => True) -> spec rt F (from_driver m) C (fun _ _ => True).
Proof. intros Hm. eapply spec_bind; [exact Hm|]. intros r. by apply spec_lift. Qed.

(** * Sessions in memory *)

(** Code under the state lock of a known session. *)
Lemma spec_lock_state_at {A} F s (P : Session -> Z -> Prop) (f : Session -> Z -> nat -> SessionState * nat * A)
    (Q : A -> Session -> Prop) :
  stable F -> (forall w, F w -> known s w) ->
  (forall w live, F w -> w_heap w !! se_id s = Some live -> P live (w_now w)) ->
  state_change rt P f Q ->
  spec rt F (lock_state (se_id s) f) C
    (fun a w => F w /\ exists live, w_heap w !! se_id s = Some live /\ Q a live).
Proof.
  intros HF HK HP Hf. unfold lock_state. apply spec_seq; [done | apply spec_await|]. intros _ w Hi Hw.
  destruct (HK w Hw) as (live & Hl & Ha). unfold deref. rewrite Hl.
  pose proof (i_heap _ _ Hi _ _ Hl) as [Hid Hd Hst Hg].
  specialize (Hf live (w_now w) (w_uuid w) (HP _ _ Hw Hl) Hst).
  destruct (f live (w_now w) (w_uuid w)) as [[st n] a]. destruct Hf as (Hn & Hok & Hstep & HQ).
  destruct (put_session_step rt w (se_id s) live {| live with se_state := st |} n) as [I S]; try done.
  - destruct Hd as (i & ? & ?). constructor; cbn; try done; exists i; split; [lia | done].
  - split; [done|]. split; [done|]. split; [by intros x ?%elem_of_nil|]. split; [by eapply HF|].
    exists {| live with se_state := st |}. split; [|done]. unfold put_session. cbn. by rewrite Hid, lookup_insert_eq.
Qed.

Lemma spec_lock_state {A} F s (f : Session -> Z -> nat -> SessionState * nat * A) (phi : A -> Prop) :
  stable F -> (forall w, F w -> known s w) ->
  state_change rt (fun live _ => same_authority s live) f (fun a _ => phi a) ->
  spec rt F (lock_state (se_id s) f) C (fun a _ => phi a).
Proof.
  intros HF HK Hf.
  refine (spec_weaken rt F F _ C C _ _ (spec_lock_state_at F s _ f _ HF HK _ Hf) _ _ _); try done; [|naive_solver].
  intros w live Hw Hl. destruct (HK w Hw) as (live' & Hl' & Ha). congruence.
Qed.

Lemma spec_read_state {A} F s (f : SessionState -> A) :
  stable F -> (forall w, F w -> known s w) ->
  spec rt F (read_state (se_id s) f) C
    (fun a _ => exists n st, a = f st /\ state_ok rt n (allows_application s) st).
Proof.
  intros HF HK. unfold read_state. apply spec_seq; [done | apply spec_await|]. intros _ w Hi Hw.
  destruct (HK w Hw) as (live & Hl & Ha). unfold deref. rewrite Hl. cbn.
  split; [done|]. split; [reflexivity|]. split; [by intros x ?%elem_of_nil|].
  exists (w_uuid w), (se_state live). split; [done|]. pose proof (so_state _ _ _ _ (i_heap _ _ Hi _ _ Hl)) as [].
  constructor; try done. intros r x Hx. rewrite <- (allows_same s live) by done. eauto.
Qed.

(** Replacing the guard cells of a session. *)
Lemma set_guard_step w id live g :
  Inv rt w -> w_heap w !! id = Some live -> guard_inv g ->
  gs_expires_at g = se_expires_at live -> (se_closed live = true -> gs_closed g = true) ->
  (gs_interruption (se_guard live) <> 0 -> gs_interruption g = gs_interruption (se_guard live)) ->
  Inv rt (put_session {| live with se_guard := g |} w) /\ Step w (put_session {| live with se_guard := g |} w).
Proof.
  intros Hi Hl Hg He Hc Hx. pose proof (i_heap _ _ Hi _ _ Hl) as [Hid Hd Hst _].
  apply (put_session_step rt w id live _ (w_uuid w)); try done.
  constructor; cbn; try done. apply state_step_refl.
Qed.

Lemma spec_close F id :
  (forall w, F w -> is_Some (w_heap w !! id)) -> (forall w, C (w, CallSessionClosed id)) ->
  spec rt F (close id) C (fun _ _ => True).
Proof.
  intros HF HC. apply spec_deref; [intros w _ Hw; by apply HF|]. intros s w Hi [_ Hs].
  destruct (se_closed s) eqn:Ec; [cbn; split; [done|]; split; [reflexivity|]; split; [by intros x ?%elem_of_nil | done]|].
  cbn. pose proof (i_heap _ _ Hi _ _ Hs) as [_ _ _ Hg].
  destruct (set_guard_step w id s (close_cell (se_guard s))) as [I1 S1]; try done.
  { apply (apply_event_inv (se_guard s) EvClose); done. }
  destruct (law_session_closed rt driver id _ I1) as [I2 S2].
  split; [done|]. split; [by etrans|]. split; [|done]. intros x ->%list_elem_of_singleton. cbn. auto.
Qed.

Lemma spec_action_guard F id :
  (forall w, F w -> is_Some (w_heap w !! id)) -> spec rt F (action_guard id) C (fun _ _ => True).
Proof.
  intros HF. apply spec_deref; [intros w _ Hw; by apply HF|]. intros s w Hi [_ Hs]. cbn.
  pose proof (i_heap _ _ Hi _ _ Hs) as [_ _ _ Hg].
  destruct (set_guard_step w id s (guard_new (se_guard s)).1) as [I S]; try done.
  { apply (apply_event_inv (se_guard s) EvNew); done. }
  split; [done|]. split; [done|]. split; [by intros x ?%elem_of_nil | done].
Qed.

Lemma drop_lease_cells g l g' : drop_lease g l = Some g' ->
  gs_expires_at g' = gs_expires_at g /\ gs_closed g' = gs_closed g /\ gs_interruption g' = gs_interruption g.
Proof. unfold drop_lease. intros Hd. repeat case_match; by simplify_eq. Qed.

Lemma drop_lease_absent g l : gs_leases g !! l = None ->
  drop_lease g l = Some {| g with gs_leases := delete l (gs_leases g) |}.
Proof. intros Hl. unfold drop_lease, was_dispatched. by rewrite Hl. Qed.

Lemma drop_guard_preserves id lease : preserves rt (drop_guard (E := E) id lease).
Proof.
  intros w Hi. unfold drop_guard. destruct (w_heap w !! id) as [s|] eqn:Es; [|by split].
  destruct (drop_lease (se_guard s) lease) as [g|] eqn:Ed; [|by split].
  pose proof (i_heap _ _ Hi _ _ Es) as [_ _ _ Hg]. pose proof (drop_lease_cells _ _ _ Ed) as (? & ? & ?).
  apply (set_guard_step w id s g); try done; try congruence; [|unfold se_closed; congruence].
  destruct (gs_leases (se_guard s) !! lease) as [b|] eqn:El.
  - apply (apply_event_inv (se_guard s) (EvDrop lease)); [done|]. cbn. by rewrite El.
  - rewrite drop_lease_absent in Ed by done. injection Ed as <-. rewrite delete_id by done. by destruct Hg; constructor.
Qed.

Lemma spec_guard_check F id lease : (forall w, F w -> is_Some (w_heap w !! id)) ->
  spec rt F (guard_check id lease) C (fun r w => F w /\ exists live, w_heap w !! id = Some live /\
    r = check (se_guard live) lease (w_now w)).
Proof.
  intros HF. apply spec_deref; [intros w _ Hw; by apply HF|]. intros s w Hi [Hw Hs]. cbn.
  split; [done|]. split; [reflexivity|]. split; [by intros x ?%elem_of_nil|]. eauto.
Qed.

Lemma spec_guard_check_observation F id ob : (forall w, F w -> is_Some (w_heap w !! id)) ->
  spec rt F (guard_check_observation id ob) C (fun r w => F w /\ exists live, w_heap w !! id = Some live /\
    r = check_observation (gs_activity (se_guard live)) ob).
Proof.
  intros HF. apply spec_deref; [intros w _ Hw; by apply HF|]. intros s w Hi [Hw Hs]. cbn.
  split; [done|]. split; [reflexivity|]. split; [by intros x ?%elem_of_nil|]. eauto.
Qed.

Lemma spec_is_revoked F id : (forall w, F w -> is_Some (w_heap w !! id)) ->
  spec rt F (is_revoked id) C (fun _ _ => True).
Proof.
  intros HF. apply spec_deref; [intros w _ Hw; by apply HF|]. intros s w Hi [_ Hs]. cbn.
  split; [done|]. split; [reflexivity|]. split; [by intros x ?%elem_of_nil | done].
Qed.

(** Waiting for idle input always ends. *)
Lemma spec_wait_until_idle F id lease : spec rt F (wait_until_idle id lease) C (fun _ _ => True).
Proof.
  intros w Hi _. unfold wait_until_idle, wait_for_idle.
  set (body := idle_poll _ _ _ _ _ _).
  destruct (bounded_loop_returns body (fun v => Z.max 0 (w_now w + INPUT_WAIT_LIMIT - w_now v))
    (Z.to_pos (INPUT_WAIT_LIMIT + 1)) w) as [[w' r] Hr].
  { apply idle_poll_decreases; [apply executor | done]. }
  { unfold INPUT_WAIT_LIMIT, second. lia. }
  pose proof (bounded_loop_inv body (fun v => Inv rt v /\ Step w v)
    (fun p => Inv rt p.1 /\ Step w p.1) (Z.to_pos (INPUT_WAIT_LIMIT + 1)) w) as Hinv.
  rewrite Hr in Hinv |- *. clear Hr. destruct Hinv as [I S]; [|by split|].
  - intros v [Iv Sv]. unfold body, idle_poll. destruct (check _ _ _); [|done].
    destruct (_ =? 0); [done|]. destruct (_ <=? _); [done|].
    destruct (law_sleep rt executor (Z.min (remaining_quiet (gs_activity (guard_cells id v)) (w_now v) INPUT_QUIET_PERIOD)
      poll_interval) v Iv). split; [done | by etrans].
  - split; [done|]. split; [done|]. split; [by intros x ?%elem_of_nil | done].
Qed.

(** * The scheduler and the artifact store *)

(** Closes a goal that changes none of the parts [same_core] looks at. *)
Ltac core := intros w Hi; pose proof Hi as [? ? ? ? ? ? ?]; apply (same_core rt w); cbn; try done.

Lemma spec_locked_scheduler F f :
  preserves rt f -> (forall w, F w -> F (f w)) ->
  spec rt F (let! poisoned := read w_scheduler_poisoned in
             lift (ensure_not poisoned runtime_unavailable) ;! modify f) C (fun _ w => F w).
Proof.
  intros Hf HF. apply spec_bind with (R := fun _ w => F w); [by apply spec_read|]. intros b.
  apply spec_bind with (R := fun _ w => F w); [by apply spec_lift|]. intros _.
  apply spec_modify; [intros w Hi _; by apply Hf | auto].
Qed.

(** Signalling keeps whatever does not look at the scheduler. *)
Lemma spec_signal_keeps F :
  (forall w signal, F w -> F {| w with w_scheduler := signal |}) -> spec rt F signal_reschedule C (fun _ w => F w).
Proof.
  intros HF. apply spec_locked_scheduler; intros w Hi; destruct (w_scheduler w); auto; [|by split].
  revert w Hi. core.
Qed.

Lemma spec_ensure_scheduler F :
  (forall w signal, F w -> F {| w with w_scheduler := signal |}) -> spec rt F ensure_scheduler C (fun _ w => F w).
Proof.
  intros HF. apply spec_locked_scheduler; intros w Hi; destruct (w_scheduler w); auto; [by split|].
  revert w Hi. core.
Qed.

Lemma spec_signal_reschedule F : spec rt F signal_reschedule C (fun _ _ => True).
Proof.
  eapply (spec_weaken rt (fun _ => True) F _ C C (fun _ _ => True)); [by apply spec_signal_keeps | done..].
Qed.

Lemma spec_remove_artifacts F id : spec rt F (remove_artifacts fs id) C (fun _ _ => True).
Proof.
  apply spec_preserves. core;
    pose proof (remove_session_index_ok fs (w_artifacts w) (w_env w) id i_store) as [];
    destruct (remove_session fs (w_artifacts w) (w_env w) id); cbn in *; try done. congruence.
Qed.

Lemma spec_remove_all_artifacts F ids : stable F -> spec rt F (remove_all_artifacts fs ids) C (fun _ _ => True).
Proof.
  intros HF. induction ids as [|id ids IH]; cbn; [apply spec_ret|].
  apply spec_seq; [done | apply spec_remove_artifacts | done].
Qed.

Lemma delete_session_preserves id :
  preserves rt (fun w : World E => {| w with w_sessions := delete id (w_sessions w) |}).
Proof. core. apply delete_subseteq. Qed.

Lemma drop_due_preserves t : preserves rt (drop_due (E := E) t).
Proof. core. etrans; [apply msize_filter_le | done]. Qed.

Lemma drop_due_launch_preserves t : preserves rt (drop_due_launch (E := E) t).
Proof. core. etrans; [apply msize_filter_le | done]. Qed.

Lemma write_image_preserves id image bounds w :
  Inv rt w ->
  let '(store, e, n, r) := write_image fs (w_artifacts w) (w_env w) (w_uuid w) id image bounds in
  let w' := {| w with w_artifacts := store; w_env := e; w_uuid := n |} in Inv rt w' /\ Step w w'.
Proof.
  intros Hi. destruct (write_image _ _ _ _ _ _ _) as [[[store e] n] r] eqn:Ew.
  pose proof Hi as [? ? ? ? ? ? Hm]. pose proof (config_bounds _ (law_config rt Hlaw)) as (_ & _ & ? & _ & _).
  apply write_image_index_ok in Ew as (? & ? & ?); [|lia | done]. apply (same_core rt w); cbn; try done. congruence.
Qed.

Lemma spec_write_screenshot F id image bounds :
  stable F -> spec rt F (write_screenshot fs id image bounds) C (fun _ _ => True).
Proof.
  intros HF. unfold write_screenshot. apply spec_seq; [done | apply spec_preserves, executor|]. intros _.
  apply spec_seq; [done | apply spec_preserves; core|]. intros _.
  apply spec_finally; [|core | done]. apply spec_seq; [done | apply spec_await|]. intros _ w Hi Hw.
  pose proof (write_image_preserves id image bounds w Hi) as Hp.
  destruct (write_image _ _ _ _ _ _ _) as [[[store e] n] r]. destruct Hp as [I S].
  split; [done|]. split; [done|]. split; [by intros x ?%elem_of_nil | by destruct r].
Qed.

(** * The session lookup *)

Lemma known_heap s w : known s w -> is_Some (w_heap w !! se_id s).
Proof. intros (live & Hl & _). eauto. Qed.

Lemma heap_stable id : stable (fun w : World E => is_Some (w_heap w !! id)).
Proof. intros w w' Hs [s Hx]. destruct (g_heap _ _ Hs _ _ Hx) as (s' & Hx' & _). eauto. Qed.

Lemma session_ids_elem w id : id ∈ session_ids w <-> is_Some (w_sessions w !! id).
Proof.
  unfold session_ids. rewrite hash_iter_perm, list_elem_of_fmap. split.
  - intros ([k u] & -> & Hk%elem_of_map_to_list). eauto.
  - intros [u Hu]. exists (id, u). by rewrite elem_of_map_to_list.
Qed.

(** A session the lookup returns is in the table and has not expired. *)
Definition found (id : SessionId) (s : Session) (w : World E) : Prop :=
  se_id s = id /\ w_heap w !! id = Some s /\ is_Some (w_sessions w !! id) /\ w_now w < se_expires_at s.

Lemma found_known id s w : found id s w -> se_id s = id /\ known s w.
Proof. intros (Hid & Hs & _ & _). split; [done|]. exists s. rewrite Hid. split; [done | by constructor]. Qed.

Lemma spec_session F id :
  stable F -> (forall w, C (w, CallSessionClosed id)) -> spec rt F (session fs id) C (found id).
Proof.
  intros HF HC. unfold session. apply spec_seq; [done | apply spec_await|]. intros _.
  eapply (spec_bind rt F _ _ C (fun o w => o = w_sessions w !! id)); [by apply spec_read|].
  intros [u|]; [|apply spec_fail].
  apply spec_deref; [intros w Hi Hw; by apply (i_table _ _ Hi); rewrite <- Hw|]. intros s.
  eapply (spec_bind rt _ _ _ C (fun t w => (Some u = w_sessions w !! id /\ w_heap w !! id = Some s) /\ t = w_now w));
    [by apply spec_read|].
  intros t. destruct (Z.leb_spec (se_expires_at s) t).
  - pose proof (heap_stable id) as Hst.
    eapply spec_weaken with (P := fun w => is_Some (w_heap w !! id)) (C := C) (Q := found id); [|naive_solver|done|done].
    apply spec_seq; [done | by apply spec_close|]. intros _.
    apply spec_seq; [done | apply spec_preserves, delete_session_preserves|]. intros _.
    apply spec_seq; [done | apply spec_remove_artifacts|]. intros _.
    apply spec_seq; [done | apply spec_signal_reschedule|]. intros _. apply spec_fail.
  - intros w Hi [[Hu Hs] ->]. cbn. split; [done|]. split; [reflexivity|]. split; [by intros x ?%elem_of_nil|].
    pose proof (so_id _ _ _ _ (i_heap _ _ Hi _ _ Hs)). unfold found. rewrite <- Hu. eauto.
Qed.

(** The lookup as the first step of a command. *)
Lemma spec_with_session {B} F id (k : Session -> M E B) Q :
  stable F -> (forall w, C (w, CallSessionClosed id)) ->
  (forall s, se_id s = id -> spec rt (fun w => F w /\ known s w) (k s) C Q) ->
  spec rt F (bind (session fs id) k) C Q.
Proof.
  intros HF HC Hk. apply spec_bind with (R := fun s w => found id s w /\ F w).
  - by refine (spec_weaken rt _ F _ C C _ _ (spec_frame rt F F _ C _ HF (spec_session F id HF HC)) _ _ _); auto.
  - intros s w Hi [Hf Hw]. destruct (found_known _ _ _ Hf). by apply Hk.
Qed.

End Specs.
