(* ===== verification/RuntimeCommands.v ===== *)
(** Every command of the runtime satisfies its triple: it never panics, keeps
    the invariant, and calls the driver only with the authority of its session
    ([authorized]). *)

From S2P Require Import Prelude Floats Geometry Text Protocol Errors Policy Validation Driver Session Artifacts Runtime RuntimeInv RuntimeSpecs.

(** The session a command names. *)
Definition command_session (c : Command) : option SessionId :=
  match c with
  | CloseSession id | ListApps id | ListDisplays id | ReadClipboard id => Some id
  | ListWindows input => Some (lw_session_id input)
  | ObserveWindow input | ObserveApplicationScene input => Some (ow_session_id input)
  | ObserveDisplay input => Some (od_session_id input)
  | WriteClipboard input => Some (wc_session_id input)
  | PerformAction input => Some (pa_session_id input)
  | VerifyState input => Some (vs_session_id input)
  | _ => None
  end.

Section Commands.
Context {E : Type} `{!DesktopDriver E, !Executor E, !HashOrder, !UuidSource}.
Context (fs : ArtifactEnv E) (rt : Runtime).
Context (Hlaw : Lawful rt).
Implicit Types (w : World E) (c : Command).

Let driver := law_driver rt Hlaw.
Let executor := law_executor rt Hlaw.

(** * Authorized driver calls *)

(** The manifest lets the session perform the action. *)
Record may_perform (m : CapabilityManifest) (a : Action) : Prop := {
  mp_bounded : mode m = Bounded;
  mp_kind : action_kind a ∈ allowed_actions m;
  mp_foreground : requires_foreground a = true -> allow_foreground_input m = true;
}.

(** What holds when [perform_action_scoped] is called: the session may perform
    the action, the window is in its scope, the guard is open, unexpired and
    uninterrupted, no input followed the observation, the driver action is the
    resolution of the request under the observation, and the observation is
    claimed: it was valid when the request started and is no longer. *)
Record dispatchable w0 (input : PerformActionInput) w (live : Session) (window : DriverWindow)
    (action : DriverAction) (allow_foreground restore : bool) (lease : nat) (observed_at : option Z) : Prop := {
  di_authority : may_perform (se_manifest live) (pa_action input);
  di_scope : allows_application live (dw_application window) = true;
  di_foreground : allow_foreground = allow_foreground_input (se_manifest live);
  di_restore : restore = restore_foreground_after_input (se_manifest live);
  di_guard : check (se_guard live) lease (w_now w) = Ok tt;
  di_quiet : check_observation (gs_activity (se_guard live)) observed_at = Ok tt;
  di_observation : exists o, ob_window_ref o = pa_window_ref input /\ observed_at = Some (ob_created_at o) /\
    validate_action (pa_action input) (ob_screenshot_mapping o) = Ok tt /\
    resolve_action (pa_action input) o = Ok action;
  di_drawn : exists i, (i < w_uuid w)%nat /\ pa_observation_id input = fresh_ref "observation_" i;
  di_claimed : forall o, st_observations (se_state live) !! pa_observation_id input = Some o ->
    ob_status o <> Valid;
  di_was_valid : forall s0 i, w_heap w0 !! pa_session_id input = Some s0 -> (i < w_uuid w0)%nat ->
    pa_observation_id input = fresh_ref "observation_" i ->
    exists o, st_observations (se_state s0) !! pa_observation_id input = Some o /\ ob_status o = Valid;
}.

(** The command's session satisfies [phi] in the state [w]. *)
Definition in_session c w (phi : Session -> Prop) : Prop :=
  exists id live, command_session c = Some id /\ w_heap w !! id = Some live /\ phi live.

(** What a driver call of command [c], started in [w0], may rely on. *)
Definition authorized w0 c (x : World E * DriverCall) : Prop :=
  let w := x.1 in
  match x.2 with
  | CallSessionStarted _ _ foreground =>
      exists m, c = OpenSession m /\ foreground = allow_foreground_input m /\
        validate_manifest m (max_ttl_seconds rt) = Ok tt
  | CallLaunchApplication _ foreground =>
      exists input, c = LaunchApplication input /\ foreground = li_allow_foreground_activation input /\
        w_launch_discovery w !! li_launch_ref input = None
  | CallListWindows keys =>
      in_session c w (fun live => forall k, k ∈ keys -> k ∈ dap_key <$> se_allowed_applications live)
  | CallListDisplays | CallObserveDisplay _ =>
      in_session c w (fun live => allow_display_capture (se_manifest live) = true)
  | CallObserveWindow _ id window _ _ =>
      in_session c w (fun live => se_id live = id /\ allows_application live (dw_application window) = true)
  | CallSettleWindow window _ | CallVerifyState window _ | CallObservationIsCurrent window _ =>
      in_session c w (fun live => allows_application live (dw_application window) = true)
  | CallReadClipboard _ => in_session c w (fun live => allow_clipboard_read (se_manifest live) = true)
  | CallWriteClipboard _ text _ =>
      exists input, c = WriteClipboard input /\ text = wc_text input /\
        validate_clipboard_text text (max_clipboard_text_bytes (config rt)) = Ok tt /\
        in_session c w (fun live => allow_clipboard_write (se_manifest live) = true /\
          st_clipboard (se_state live) = None)
  | CallPerformAction window action foreground restore id lease observed_at =>
      exists input, c = PerformAction input /\ id = pa_session_id input /\
        in_session c w (fun live => dispatchable w0 input w live window action foreground restore lease observed_at)
  | _ => True
  end.

(** A computation of command [c] started in [w0]; [F] is kept across awaits. *)
Abbreviation run w0 c F m := (spec rt (fun w => Step w0 w /\ F w) m (authorized w0 c) (fun _ _ => True)).

Lemma in_session_known w0 c s w (phi : Session -> Prop) :
  command_session c = Some (se_id s) -> known s w ->
  (forall live, same_authority s live -> phi live) -> in_session c w phi.
Proof. intros Hc (live & Hl & Ha) Hp. exists (se_id s), live. auto. Qed.

Lemma closed_authorized w0 c w id : authorized w0 c (w, CallSessionClosed id).
Proof. done. Qed.

(** A call that needs no session. *)
Lemma run_call {A} w0 c F call_ (method : World E -> World E * Result A DriverError) :
  method_ok rt method -> (forall w, authorized w0 c (w, call_)) -> run w0 c F (from_driver (call call_ method)).
Proof. intros Hm HC. apply spec_from_driver, spec_call; auto. Qed.

(** * Discovery *)

Lemma run_discovery_expiry w0 c F : run w0 c F (discovery_expiry rt).
Proof.
  intros w Hi Hw. unfold discovery_expiry. split; [done|]. split; [reflexivity|].
  split; [by intros x ?%elem_of_nil | by destruct (_ : Result _ _)].
Qed.

(** Recording applications while there is room for them. *)
Lemma spec_record_applications w0 c l t text :
  spec rt (fun w => msize (w_discovery w) + zlen l <= max_discovery_records (config rt))
    (record_applications rt l t text) (authorized w0 c) (fun _ _ => True).
Proof.
  induction l as [|a l IH]; cbn [record_applications]; [apply spec_ret|].
  apply spec_bind with (R := fun _ w => msize (w_discovery w) + zlen (a :: l) <= max_discovery_records (config rt)).
  { intros w Hi Hw. pose proof (spec_new_ref rt (authorized w0 c) (fun _ => True) "discovery_" w Hi I) as Hn.
    cbn in Hn |- *. destruct Hn as (? & ? & ? & _). done. }
  intros r. rewrite zlen_cons.
  apply spec_bind with (R := fun _ w => msize (w_discovery w) + zlen l <= max_discovery_records (config rt)).
  { pose proof (zlen_nonneg l). apply spec_modify.
    - intros w Hi Hw. pose proof Hi as [? ? ? ? ? ? ?]. apply (same_core rt w); cbn; try done.
      etrans; [apply msize_insert_le | lia].
    - intros w Hi Hw. cbn. etrans; [apply Z.add_le_mono_r, msize_insert_le | lia]. }
  intros _. eapply (spec_bind rt _ _ _ _ (fun _ _ => True)); [exact IH|]. intros rest. apply spec_ret.
Qed.

Lemma spec_record_launchable w0 c l t text :
  spec rt (fun w => msize (w_launch_discovery w) + zlen l <= max_launch_discovery_records (config rt))
    (record_launchable rt l t text) (authorized w0 c) (fun _ _ => True).
Proof.
  induction l as [|a l IH]; cbn [record_launchable]; [apply spec_ret|].
  apply spec_bind with (R := fun _ w => msize (w_launch_discovery w) + zlen (a :: l) <= max_launch_discovery_records (config rt)).
  { intros w Hi Hw. pose proof (spec_new_ref rt (authorized w0 c) (fun _ => True) "launch_" w Hi I) as Hn.
    cbn in Hn |- *. destruct Hn as (? & ? & ? & _). done. }
  intros r. rewrite zlen_cons.
  apply spec_bind with (R := fun _ w => msize (w_launch_discovery w) + zlen l <= max_launch_discovery_records (config rt)).
  { pose proof (zlen_nonneg l). apply spec_modify.
    - intros w Hi Hw. pose proof Hi as [? ? ? ? ? ? ?]. apply (same_core rt w); cbn; try done.
      etrans; [apply msize_insert_le | lia].
    - intros w Hi Hw. cbn. etrans; [apply Z.add_le_mono_r, msize_insert_le | lia]. }
  intros _. eapply (spec_bind rt _ _ _ _ (fun _ _ => True)); [exact IH|]. intros rest. apply spec_ret.
Qed.

(** The capacity check of the discovery commands. *)
Lemma sat_add_le a b m : 0 <= a -> 0 <= b -> m < USIZE_MAX -> (m <? sat_add a b) = false -> a + b <= m.
Proof. unfold sat_add. zbool. lia. Qed.

Lemma run_discover_applications w0 : run w0 DiscoverApplications (fun _ => True) (discover_applications rt).
Proof.
  pose proof (stable_and _ _ (stable_step w0) stable_true) as HF. pose proof (law_config rt Hlaw) as Hcfg.
  unfold discover_applications. apply spec_seq; [done | apply run_call; [apply driver | done]|]. intros apps.
  set (l := truncate _ _). apply spec_seq; [done | apply run_discovery_expiry|]. intros [t text].
  apply spec_seq; [done | by apply spec_await|]. intros _.
  apply spec_seq; [done | apply spec_read_any|]. intros t'.
  apply spec_seq; [done | apply spec_preserves, drop_due_preserves|]. intros _.
  eapply (spec_bind rt _ _ _ _ (fun n w => n = msize (w_discovery w))); [by apply spec_read|]. intros n.
  eapply (spec_bind rt _ _ _ _ (fun _ w => msize (w_discovery w) + zlen l <= max_discovery_records (config rt))).
  { apply spec_lift. intros [] w Hi -> Hx%ensure_not_Ok.
    apply sat_add_le in Hx; [done | apply msize_nonneg | apply zlen_nonneg | apply Hcfg]. }
  intros _. eapply (spec_bind rt _ _ _ _ (fun _ _ => True)); [apply spec_record_applications|]. intros out.
  eapply (spec_bind rt _ _ _ _ (fun _ _ => True)); [by apply spec_signal_reschedule|]. intros _. apply spec_ret.
Qed.

Lemma run_discover_launchable w0 :
  run w0 DiscoverLaunchableApplications (fun _ => True) (discover_launchable_applications rt).
Proof.
  pose proof (stable_and _ _ (stable_step w0) stable_true) as HF. pose proof (law_config rt Hlaw) as Hcfg.
  unfold discover_launchable_applications. apply spec_seq; [done | apply run_call; [apply driver | done]|]. intros apps.
  set (l := truncate _ _). apply spec_seq; [done | apply run_discovery_expiry|]. intros [t text].
  apply spec_seq; [done | by apply spec_await|]. intros _.
  apply spec_seq; [done | apply spec_read_any|]. intros t'.
  apply spec_seq; [done | apply spec_preserves, drop_due_launch_preserves|]. intros _.
  eapply (spec_bind rt _ _ _ _ (fun n w => n = msize (w_launch_discovery w))); [by apply spec_read|]. intros n.
  eapply (spec_bind rt _ _ _ _ (fun _ w => msize (w_launch_discovery w) + zlen l <= max_launch_discovery_records (config rt))).
  { apply spec_lift. intros [] w Hi -> Hx%ensure_not_Ok.
    apply sat_add_le in Hx; [done | apply msize_nonneg | apply zlen_nonneg | apply Hcfg]. }
  intros _. eapply (spec_bind rt _ _ _ _ (fun _ _ => True)); [apply spec_record_launchable|]. intros out.
  eapply (spec_bind rt _ _ _ _ (fun _ _ => True)); [by apply spec_signal_reschedule|]. intros _. apply spec_ret.
Qed.

(** * Launching *)

Lemma run_project_launched w0 c launched : run w0 c (fun _ => True) (project_launched_application rt launched).
Proof.
  pose proof (stable_and _ _ (stable_step w0) stable_true) as HF.
  unfold project_launched_application. apply spec_seq; [done | apply run_discovery_expiry|]. intros [t text].
  apply spec_seq; [done | apply spec_new_ref|]. intros r.
  apply spec_seq; [done | by apply spec_await|]. intros _.
  apply spec_seq; [done | apply spec_read_any|]. intros t'.
  apply spec_seq; [done | apply spec_preserves, drop_due_preserves|]. intros _.
  eapply (spec_bind rt _ _ _ _ (fun n w => n = msize (w_discovery w))); [by apply spec_read|]. intros n.
  eapply (spec_bind rt _ _ _ _ (fun _ w => msize (w_discovery w) < max_discovery_records (config rt))).
  { apply spec_lift. intros [] w Hi -> Hx%ensure_not_Ok. zbool. lia. }
  intros _. eapply (spec_bind rt _ _ _ _ (fun _ _ => True)).
  { apply spec_modify; [|done]. intros w Hi Hw. pose proof Hi as [? ? ? ? ? ? ?]. apply (same_core rt w); cbn; try done.
    etrans; [apply msize_insert_le | lia]. }
  intros _. eapply (spec_bind rt _ _ _ _ (fun _ _ => True)); [by apply spec_signal_reschedule|]. intros _. apply spec_ret.
Qed.

(** The launch reference is gone when the launch is admitted. *)
Lemma run_admit_launch w0 input :
  spec rt (fun w => Step w0 w /\ True) (admit_launch rt input) (authorized w0 (LaunchApplication input))
    (fun _ w => Step w0 w /\ w_launch_discovery w !! li_launch_ref input = None).
Proof.
  pose proof (stable_and _ _ (stable_step w0) stable_true) as HF. unfold admit_launch.
  apply spec_seq; [done | |].
  { unfold resolve_launch_ref. apply spec_seq; [done | by apply spec_await|]. intros _.
    apply spec_seq; [done | apply spec_read_any|]. intros t. apply spec_seq; [done | apply spec_read_any|].
    intros [record|]; [|apply spec_fail]. destruct (_ && _); [apply spec_ret | apply spec_fail]. }
  intros expected. apply spec_seq; [done | apply run_call; [apply driver | done]|]. intros installed.
  apply spec_seq; [done | by apply spec_lift|]. intros current.
  apply spec_seq; [done | apply run_call; [apply driver | done]|]. intros running.
  apply spec_seq; [done | by apply spec_lift|]. intros _.
  apply spec_seq; [done | by apply spec_await|]. intros _. apply spec_seq; [done | apply spec_read_any|]. intros consumed.
  eapply (spec_bind rt _ _ _ _ (fun _ w => Step w0 w /\ w_launch_discovery w !! li_launch_ref input = None)).
  { assert (Hp : preserves rt (fun w : World E =>
      {| w with w_launch_discovery := delete (li_launch_ref input) (w_launch_discovery w) |})).
    { intros w Hi. pose proof Hi as [? ? ? ? ? ? ?]. apply (same_core rt w); cbn; try done.
      etrans; [apply msize_delete_le | done]. }
    apply spec_modify; [intros w Hi _; by apply Hp|]. intros w Hi [Hs _]. cbn. rewrite lookup_delete_eq.
    split; [|done]. etrans; [exact Hs | by apply Hp]. }
  intros _. eapply (spec_bind rt _ _ _ _ (fun _ w => Step w0 w /\ w_launch_discovery w !! li_launch_ref input = None));
    [by apply spec_lift|].
  intros _. eapply (spec_bind rt _ _ _ _ (fun _ w => Step w0 w /\ w_launch_discovery w !! li_launch_ref input = None));
    [|intros _; by apply spec_lift].
  apply spec_signal_keeps. intros w signal [Hs ?]. split; [|done].
  destruct Hs. by constructor.
Qed.

Lemma run_launch_application w0 input :
  run w0 (LaunchApplication input) (fun _ => True) (launch_application rt input).
Proof.
  pose proof (stable_and _ _ (stable_step w0) stable_true) as HF.
  unfold launch_application. eapply spec_bind; [apply run_admit_launch|]. intros [current running].
  eapply (spec_bind rt _ _ _ _ (fun _ w => Step w0 w /\ True)).
  { eapply (spec_weaken rt _ _ _ (authorized w0 (LaunchApplication input)) _ (fun _ w => True /\ Step w0 w)).
    - apply (spec_frame rt (Step w0) (fun w => w_launch_discovery w !! li_launch_ref input = None));
        [apply stable_step|]. apply spec_call; [apply (law_launch rt driver)|]. intros w _ Hw. by exists input.
    - naive_solver.
    - done.
    - naive_solver. }
  intros result. apply spec_seq; [done | by apply spec_lift|]. intros launched.
  apply spec_seq; [done | by apply spec_lift|]. intros _. apply run_project_launched.
Qed.

(** * Opening and closing sessions *)

(** The application [e] was discovered by this runtime under the reference
    [r], which had not expired at [t]. *)
Definition discovered_for (t : Z) (discovery : gmap string DiscoveryRecord) (r : DiscoveryRef) (e : DriverApplication) : Prop :=
  exists record, discovery !! r = Some record /\ dr_runtime_epoch record = epoch rt /\ t < dr_expires_at record /\
    dr_application record = e.

Lemma expected_applications_discovered t discovery refs expected :
  expected_applications rt t discovery refs = Ok expected -> Forall2 (discovered_for t discovery) refs expected.
Proof.
  intros Hr%rtraverse_Ok. eapply Forall2_impl; [exact Hr|]. intros r e. cbn.
  destruct (discovery !! r) as [record|] eqn:Er; [|done].
  destruct (str_eqb (dr_runtime_epoch record) (epoch rt)) eqn:Ee; [|done]. apply str_eqb_eq in Ee.
  destruct (Z.ltb_spec t (dr_expires_at record)); [|done]. intros [= <-]. by exists record.
Qed.

(** The applications a session is opened for: each is one the driver lists now
    and the same process generation as the one discovered under its reference,
    which belongs to this runtime and had not expired, and no two are the same. *)
Definition resolved w0 (refs : list DiscoveryRef) (allowed : list DriverApplication) : Prop :=
  exists t v u expected current,
    Step w0 v /\ w_now w0 <= t <= w_now v /\ Forall2 (discovered_for t (w_discovery v)) refs expected /\
    Step v u /\ (drv_list_applications u).2 = Ok current /\
    Forall2 (fun e a => a ∈ current /\ matches_generation e a = true) expected allowed /\
    NoDup (dap_key <$> allowed).

(** The answer of a driver call was given in a state the call was made in. *)
Lemma spec_from_driver_answer {A} C F call_ (method : World E -> World E * Result A DriverError) :
  method_ok rt method -> (forall w, Inv rt w -> F w -> C (w, call_)) ->
  spec rt F (from_driver (call call_ method)) C (fun a _ => exists u, F u /\ (method u).2 = Ok a).
Proof.
  intros Hm HC. eapply (spec_bind rt _ _ _ _ (fun r _ => exists u, F u /\ (method u).2 = r)).
  - intros w Hi Hw. pose proof (spec_call rt C F call_ method Hm HC w Hi Hw) as Hs. unfold call in *.
    destruct (method w) as [w' r] eqn:Em. destruct Hs as (? & ? & ? & _). do 3 (split; [done|]).
    exists w. by rewrite Em.
  - intros r. apply spec_lift. intros a w _ (u & Hu & Er) Hr. exists u. split; [done|]. rewrite Er.
    by destruct r; [injection Hr as -> | done].
Qed.

Lemma find_generations (current : list DriverApplication) expected allowed :
  rtraverse (fun e => ok_or (List.find (fun candidate => matches_generation e candidate) current) stale_discovery)
    expected = Ok allowed ->
  Forall2 (fun e a => a ∈ current /\ matches_generation e a = true) expected allowed.
Proof.
  intros Hr%rtraverse_Ok. eapply Forall2_impl; [exact Hr|]. intros e a. cbn.
  destruct (List.find _ current) eqn:Ef; [|done]. intros [= <-].
  apply List.find_some in Ef as [? ?]. split; [by apply list_elem_of_In | done].
Qed.

(** An instant read during the command. *)
Lemma stable_since w0 t : stable (fun w => Step w0 w /\ t <= w_now w).
Proof. intros w w' Hs [Hw Ht]. split; [by etrans | pose proof (g_now _ _ Hs); lia]. Qed.

Lemma spec_now {A} C w0 (k : Z -> M E A) Q :
  (forall t, w_now w0 <= t -> spec rt (fun w => Step w0 w /\ t <= w_now w) (k t) C Q) ->
  spec rt (fun w => Step w0 w /\ True) (let! t := now in k t) C Q.
Proof.
  intros Hk. eapply (spec_bind rt _ _ _ _ (fun t w => (Step w0 w /\ t <= w_now w) /\ w_now w0 <= t)).
  - apply spec_read. intros w _ [Hs _]. pose proof (g_now _ _ Hs). split; [split; [done | lia] | done].
  - intros t. apply spec_pure, Hk.
Qed.

Lemma run_resolve_refs w0 c refs :
  spec rt (fun w => Step w0 w /\ True) (resolve_discovery_refs rt refs) (authorized w0 c)
    (fun allowed _ => resolved w0 refs allowed).
Proof.
  unfold resolve_discovery_refs. apply spec_now. intros t Ht.
  apply spec_seq; [apply stable_since | by apply spec_await|]. intros _.
  eapply (spec_bind rt _ _ _ _ (fun expected w => exists v, Step w0 v /\ w_now w0 <= t <= w_now v /\
    expected_applications rt t (w_discovery v) refs = Ok expected /\ Step v w)).
  { intros w Hi [Hs Hw]. split; [done|]. split; [reflexivity|]. split; [by intros x ?%elem_of_nil|].
    destruct (expected_applications _ _ _ _) as [l|] eqn:Ee; [|done]. by exists w. }
  intros expected. eapply spec_bind; [by apply spec_from_driver_answer; [apply driver|]|].
  intros current. cbn beta. eapply (spec_bind rt _ _ _ _ (fun allowed _ => exists t v u,
    Step w0 v /\ w_now w0 <= t <= w_now v /\ expected_applications rt t (w_discovery v) refs = Ok expected /\
    Step v u /\ (drv_list_applications u).2 = Ok current /\
    Forall2 (fun e a => a ∈ current /\ matches_generation e a = true) expected allowed)).
  { apply spec_lift. intros allowed w _ (u & (v & ? & ? & ? & ?) & ?) Hr%find_generations. by exists t, v, u. }
  intros allowed. eapply (spec_bind rt _ _ _ _ (fun _ _ => resolved w0 refs allowed)); [|intros _; by apply spec_lift; intros ? ? _ ? [= <-]].
  apply spec_lift. intros [] w _ (t' & v & u & ? & ? & ? & ? & ? & ?) Hu%ensure_not_Ok.
  apply negb_false_iff, all_unique_spec in Hu. exists t', v, u, expected, current.
  do 2 (split; [done|]). split; [by apply expected_applications_discovered | done].
Qed.

(** A session put into memory under a fresh identifier. *)
Lemma put_new_session w s :
  Inv rt w -> w_heap w !! se_id s = None -> session_ok rt (w_uuid w) (se_id s) s ->
  Inv rt (put_session s w) /\ Step w (put_session s w).
Proof.
  intros [Hh Ht ? ? ? ? ?] Hn Hok. unfold put_session. split; constructor; cbn; try done.
  - intros id x [[<- <-]|[_ Hx]]%lookup_insert_Some; [done | by apply Hh].
  - intros id Hid. apply lookup_insert_is_Some'. right. by apply Ht.
  - intros id x Hx. exists x. rewrite lookup_insert_ne by congruence. split; [done | apply session_step_refl].
Qed.

(** The session [s] is in memory with its authority, open, and the table has
    room for it; [t] is in the past. *)
Definition opening (t : Z) (s : Session) w : Prop :=
  msize (w_sessions w) < max_active_sessions (config rt) /\ t <= w_now w /\
  exists live, w_heap w !! se_id s = Some live /\ se_closed live = false /\ same_authority s live.

Lemma opening_step t s w w' live' :
  opening t s w -> Step w w' -> w_sessions w' = w_sessions w -> w_heap w' !! se_id s = Some live' ->
  se_closed live' = false -> opening t s w'.
Proof.
  intros (Hn & Ht & live & Hl & _ & Ha) Hs Et Hl' Hc. split; [by rewrite Et|].
  split; [pose proof (g_now _ _ Hs); lia|]. exists live'. do 2 (split; [done|]).
  destruct (g_heap _ _ Hs _ _ Hl) as (x & Hx & Hst). rewrite Hl' in Hx. injection Hx as <-.
  by eapply same_authority_step.
Qed.

(** What a successful [open_session] leaves: a fresh session in the table, open,
    with the validated manifest, the resolved applications and the lifetime
    the manifest asks for. *)
Record opened w0 (m : CapabilityManifest) (id : SessionId) w (live : Session) (t : Z) : Prop := {
  on_valid : validate_manifest m (max_ttl_seconds rt) = Ok tt;
  on_fresh : w_heap w0 !! id = None;
  on_listed : is_Some (w_sessions w !! id);
  on_live : w_heap w !! id = Some live;
  on_open : se_closed live = false;
  on_manifest : se_manifest live = m;
  on_scope : resolved w0 (application_refs m) (se_allowed_applications live);
  on_time : w_now w0 <= t <= w_now w;
  on_expiry : se_expires_at live = t + ttl_seconds m * second;
}.

Lemma insert_session_step t s w :
  Inv rt w -> opening t s w ->
  let w' := {| w with w_sessions := <[se_id s := tt]> (w_sessions w) |} in Inv rt w' /\ Step w w'.
Proof.
  intros Hi (Hn & _ & live & Hl & Hc & _). pose proof Hi as [Hh Ht ? ? ? ? ?]. split; constructor; cbn; try done.
  - intros x Hx%lookup_insert_is_Some'. destruct Hx as [<-|Hx]; [eauto | by apply Ht].
  - etrans; [apply msize_insert_le | lia].
  - intros x y Hs. exists y. split; [done | apply session_step_refl].
  - intros x y Hs Hcl Hx%lookup_insert_is_Some'. destruct Hx as [<-|Hx]; [congruence | done].
Qed.

Lemma fresh_session w : Inv rt w -> w_heap w !! fresh_ref "session_" (w_uuid w) = None.
Proof.
  intros Hi. destruct (w_heap w !! _) as [s|] eqn:Es; [exfalso|done].
  destruct (so_drawn _ _ _ _ (i_heap _ _ Hi _ _ Es)) as (i & Hlt & Hf%fresh_ref_inj). lia.
Qed.

Lemma absent_before w0 w id : Step w0 w -> w_heap w !! id = None -> w_heap w0 !! id = None.
Proof.
  intros Hs Hn. destruct (w_heap w0 !! id) as [s|] eqn:Es; [exfalso|done].
  destruct (g_heap _ _ Hs _ _ Es) as (? & ? & _). congruence.
Qed.

(** A new session, as [open_session] builds it. *)
Definition new_session (id : SessionId) (t : Z) (m : CapabilityManifest) (allowed : list DriverApplication) : Session :=
  {| se_id := id; se_guard := guard_init false (t + ttl_seconds m * second); se_manifest := m;
     se_allowed_applications := allowed; se_state := session_state_default |}.

Lemma spec_put_opening C id t m allowed :
  spec rt (fun w => (msize (w_sessions w) < max_active_sessions (config rt) /\ t <= w_now w /\ w_heap w !! id = None) /\
                    exists i, (i < w_uuid w)%nat /\ id = fresh_ref "session_" i)
    (modify (put_session (new_session id t m allowed))) C (fun _ w => opening t (new_session id t m allowed) w).
Proof.
  apply spec_modify.
  - intros w Hi [(Hn & _ & Hnone) Hd]. apply put_new_session; [done | done|].
    constructor; cbn; [done | done | | apply guard_init_inv].
    pose proof (config_bounds _ (law_config rt Hlaw)) as [? _].
    constructor; [apply session_refs_default | done | | done | done].
    cbn. unfold msize. rewrite map_size_empty. lia.
  - intros w Hi [(Hn & Ht & _) _]. split; [done|]. split; [done|]. eexists. unfold put_session. cbn.
    rewrite lookup_insert_eq. split; [done|]. by split; [|constructor].
Qed.

Lemma spec_opening_guard C t s : spec rt (opening t s) (action_guard (se_id s)) C (fun _ w => opening t s w).
Proof.
  intros w Hi Hw. pose proof Hw as (_ & _ & live & Hl & Hc & _).
  pose proof (spec_action_guard rt C (fun w => is_Some (w_heap w !! se_id s)) (se_id s) (fun _ Hx => Hx) w Hi
    (ex_intro _ live Hl)) as Hs.
  pose proof (so_id _ _ _ _ (i_heap _ _ Hi _ _ Hl)) as Hid.
  unfold action_guard, deref in *. rewrite Hl in *. cbn in *. destruct Hs as (I & S & T & _).
  do 3 (split; [done|]). eapply opening_step; [done | done | done | |]; cbn.
  - by rewrite Hid, lookup_insert_eq.
  - exact Hc.
Qed.

Lemma spec_opening_call w0 t s lease m :
  validate_manifest m (max_ttl_seconds rt) = Ok tt ->
  spec rt (opening t s) (call (CallSessionStarted (se_id s) lease (allow_foreground_input m))
    (drv_session_started_guarded (se_id s) lease (allow_foreground_input m))) (authorized w0 (OpenSession m))
    (fun _ w => opening t s w).
Proof.
  intros Hv w Hi Hw. pose proof Hw as (_ & _ & live & Hl & Hc & _). set (b := allow_foreground_input m).
  pose proof (spec_call rt (authorized w0 (OpenSession m)) (fun _ => True) (CallSessionStarted (se_id s) lease b)
    (drv_session_started_guarded (se_id s) lease b)
    (law_started rt driver _ lease b) ltac:(intros; by exists m) w Hi I) as Hs.
  pose proof (law_started_table rt driver (se_id s) lease b w) as Htab.
  destruct (law_started_open rt driver (se_id s) lease b w live Hi Hl Hc) as (live' & Hl' & Hc').
  unfold call in *. destruct (drv_session_started_guarded _ _ _ w) as [w' r]. cbn in *.
  destruct Hs as (? & ? & ? & _). do 3 (split; [done|]). by eapply opening_step.
Qed.

(** The end of [open_session]: the session enters the table. *)
Lemma spec_list_session C w0 m id t allowed text :
  validate_manifest m (max_ttl_seconds rt) = Ok tt -> w_heap w0 !! id = None -> w_now w0 <= t ->
  resolved w0 (application_refs m) allowed ->
  spec rt (opening t (new_session id t m allowed))
    (modify (fun w => {| w with w_sessions := <[id := tt]> (w_sessions w) |}) ;!
     signal_reschedule ;! ret (RSessionOpened {| os_session_id := id; os_expires_at := text |})) C
    (fun r w => exists out live t, r = RSessionOpened out /\ opened w0 m (os_session_id out) w live t).
Proof.
  intros Hv Hn Ht Hr. eapply (spec_bind rt _ _ _ _ (fun _ w => exists live, opened w0 m id w live t)).
  { apply spec_modify; [intros w Hi Hw; by apply (insert_session_step t (new_session id t m allowed))|].
    intros w Hi (_ & Hw & live & Hl & Hc & [Hid Hm Ha He]). exists live. constructor; cbn in *; try done.
    - by rewrite lookup_insert_eq.
    - by rewrite Ha. }
  intros _. eapply (spec_bind rt _ _ _ _ (fun _ w => exists live, opened w0 m id w live t)).
  { apply spec_signal_keeps. intros w signal [live []]. exists live. by constructor. }
  intros _. apply spec_lift. intros a w Hi [live Ho] [= <-]. by exists {| os_session_id := id; os_expires_at := text |}, live, t.
Qed.

Lemma opens_session w0 m :
  spec rt (fun w => Step w0 w /\ True) (open_session rt m) (authorized w0 (OpenSession m))
    (fun r w => exists out live t, r = RSessionOpened out /\ opened w0 m (os_session_id out) w live t).
Proof.
  pose proof (stable_and _ _ (stable_step w0) stable_true) as HF. unfold open_session.
  eapply spec_step; [done | apply spec_lift_ok|]. intros [] Hv.
  eapply spec_step; [done | apply run_resolve_refs|]. intros allowed Hr.
  apply spec_now. intros t Ht. pose proof (stable_since w0 t) as HG. cbv zeta.
  apply spec_seq; [done | apply spec_read_any|]. intros wall.
  apply spec_seq; [done | by apply spec_lift|]. intros text.
  apply spec_seq; [done | by apply spec_await|]. intros _.
  eapply (spec_bind rt _ _ _ _ (fun n w => (Step w0 w /\ t <= w_now w) /\ n = msize (w_sessions w))); [by apply spec_read|].
  intros n. eapply (spec_bind rt _ _ _ _ (fun _ w =>
    (Step w0 w /\ t <= w_now w) /\ msize (w_sessions w) < max_active_sessions (config rt))).
  { apply spec_lift. intros [] w Hi [? ->] Hx%ensure_not_Ok. zbool. split; [done | lia]. }
  intros _. eapply (spec_bind rt _ _ _ _ (fun id w =>
    ((msize (w_sessions w) < max_active_sessions (config rt) /\ t <= w_now w /\ w_heap w !! id = None) /\
    exists i, (i < w_uuid w)%nat /\ id = fresh_ref "session_" i) /\ w_heap w0 !! id = None)).
  { intros w Hi [[Hs0 Hw] Hx].
    pose proof (spec_new_ref rt (authorized w0 (OpenSession m)) (fun _ => True) "session_" w Hi I) as Hs.
    pose proof (fresh_session w Hi) as Hf. cbn in *. destruct Hs as (? & ? & ? & _). do 3 (split; [done|]).
    split; [|by eapply absent_before]. split; [done|]. exists (w_uuid w). split; [lia | done]. }
  intros id. apply spec_pure. intros Hn.
  eapply (spec_bind rt _ _ _ _ (fun _ w => opening t (new_session id t m allowed) w)); [apply spec_put_opening|]. intros _.
  eapply spec_bind; [apply (spec_opening_guard _ t (new_session id t m allowed))|]. intros lease.
  eapply spec_bind; [by apply (spec_opening_call w0 t (new_session id t m allowed))|]. intros [[]|e].
  - by apply spec_list_session.
  - eapply (spec_bind rt _ _ _ _ (fun _ _ => True)); [|intros; apply spec_fail].
    apply spec_close; [done | intros w (_ & _ & live & Hl & _); by exists live | done].
Qed.

Lemma run_open_session w0 m : run w0 (OpenSession m) (fun _ => True) (open_session rt m).
Proof. eapply spec_weaken; [apply (opens_session w0) | done..]. Qed.

Lemma run_close_session w0 id : run w0 (CloseSession id) (fun _ => True) (close_session fs id).
Proof.
  pose proof (stable_and _ _ (stable_step w0) stable_true) as HF. unfold close_session.
  apply spec_seq; [done | by apply spec_await|]. intros _.
  eapply (spec_bind rt _ _ _ _ (fun o w => is_Some o -> is_Some (w_heap w !! id))).
  { apply spec_read. intros w Hi _ Hs. by apply (i_table _ _ Hi). }
  intros o. eapply (spec_bind rt _ _ _ _ (fun _ w => is_Some o -> is_Some (w_heap w !! id))).
  { apply spec_modify; [intros w Hi _; by apply delete_session_preserves | done]. }
  intros _. eapply (spec_bind rt _ _ _ _ (fun _ w => is_Some (w_heap w !! id))).
  { apply spec_lift. intros [] w Hi Hw Ho%ensure_not_Ok. apply Hw. destruct o; [eauto | done]. }
  intros _. eapply (spec_bind rt _ _ _ _ (fun _ _ => True)); [by apply spec_close|]. intros _.
  eapply (spec_bind rt _ _ _ _ (fun _ _ => True)); [apply spec_remove_artifacts|]. intros _.
  eapply (spec_bind rt _ _ _ _ (fun _ _ => True)); [by apply spec_signal_reschedule|]. intros _. apply spec_ret.
Qed.

(** * Commands on a session *)

Lemma session_stable w0 s : stable (fun w => Step w0 w /\ known s w).
Proof. apply stable_and; [apply stable_step | apply known_stable]. Qed.

Lemma run_session w0 c id (k : Session -> M E CommandResult) :
  (forall s, se_id s = id -> run w0 c (known s) (k s)) -> run w0 c (fun _ => True) (bind (session fs id) k).
Proof.
  intros Hk. pose proof (stable_and _ _ (stable_step w0) stable_true) as HF.
  apply spec_with_session; [done | done | done|]. intros s Hs.
  eapply spec_weaken; [by apply Hk | naive_solver | done | done].
Qed.

(** A driver call under the authority of the session. *)
Lemma run_session_call {A} w0 c s call_ (method : World E -> World E * Result A DriverError) :
  method_ok rt method ->
  (forall w live, Inv rt w -> w_heap w !! se_id s = Some live -> same_authority s live ->
     authorized w0 c (w, call_)) ->
  run w0 c (known s) (call call_ method).
Proof. intros Hm HC. apply spec_call; [done|]. intros w Hi [_ (live & Hl & Ha)]. eauto. Qed.

Lemma run_session_result {A} w0 c s call_ (method : World E -> World E * Result A DriverError) :
  method_ok rt method ->
  (forall w live, Inv rt w -> w_heap w !! se_id s = Some live -> same_authority s live ->
     authorized w0 c (w, call_)) ->
  run w0 c (known s) (from_driver (call call_ method)).
Proof. intros. apply spec_from_driver. by apply run_session_call. Qed.

Lemma run_lock_state {A} w0 c s (f : Session -> Z -> nat -> SessionState * nat * A) :
  state_change rt (fun live _ => same_authority s live) f (fun _ _ => True) ->
  run w0 c (known s) (lock_state (se_id s) f).
Proof. intros Hf. apply spec_lock_state; [done | apply session_stable | naive_solver | done]. Qed.

(** Executes the steps of a command that hold whatever they return. *)
Ltac go :=
  cbv zeta; repeat match goal with
  | |- spec _ _ (ret _) _ _ => apply spec_ret
  | |- spec _ _ (fail _) _ _ => apply spec_fail
  | |- spec _ _ (bind (lift _) _) _ _ => eapply spec_step; [apply session_stable | apply spec_lift_ok | intros ? ?; cbv zeta]
  | |- spec _ _ (bind (read _) _) _ _ => apply spec_seq; [apply session_stable | apply spec_read_any | intros ?; cbv zeta]
  | |- spec _ _ (bind Runtime.now _) _ _ => apply spec_seq; [apply session_stable | apply spec_read_any | intros ?; cbv zeta]
  | |- spec _ _ (bind await _) _ _ => apply spec_seq; [apply session_stable | by apply spec_await | intros ?; cbv zeta]
  end.

Lemma negb_denied b e u : ensure_not (negb b) e = @Ok unit CuaError u -> b = true.
Proof. by destruct b. Qed.

Lemma run_list_apps w0 id : run w0 (ListApps id) (fun _ => True) (list_apps fs id).
Proof.
  apply run_session. intros s <-. apply spec_seq; [apply session_stable | apply run_call; [apply driver | done]|].
  intros apps. apply spec_seq; [apply session_stable | |intros; go]. apply run_lock_state.
  intros live t n Ha Hok. pose proof (summarize_applications_ok rt n _ _
    (List.filter (allows_application s) apps) Hok) as Hs.
  destruct (summarize_applications _ _ _) as [[st n'] out]. destruct Hs as (? & ? & ?). done.
Qed.

Lemma window_scope_allowed s key k : k ∈ window_scope s key -> k ∈ dap_key <$> se_allowed_applications s.
Proof.
  unfold window_scope. intros (a & -> & Ha)%list_elem_of_fmap. apply list_elem_of_fmap. exists a. split; [done|].
  apply list_elem_of_In, filter_In in Ha as [Ha _]. by apply list_elem_of_In.
Qed.

Lemma run_list_windows w0 input : run w0 (ListWindows input) (fun _ => True) (list_windows fs input).
Proof.
  apply run_session. intros s Hid. rewrite <- Hid. apply spec_seq; [apply session_stable | |].
  { destruct (lw_app_ref input); [|apply spec_ret].
    apply spec_seq; [apply session_stable | |intros; go].
    eapply spec_weaken; [apply spec_read_state; [done | apply (session_stable w0 s) | naive_solver] | done..]. }
  intros key. apply spec_seq; [apply session_stable | |].
  { apply run_session_result; [apply driver|]. intros w live Hi Hl Ha. exists (se_id s), live. cbn. rewrite Hid.
    split; [done|]. split; [by rewrite <- Hid|]. intros k Hk. destruct Ha as [_ _ -> _]. by eapply window_scope_allowed. }
  intros windows. apply spec_seq; [apply session_stable | |intros; go]. apply run_lock_state.
  intros live t n Ha Hok.
  pose proof (summarize_windows_ok rt n _ _
    (List.filter (fun x => allows_application s (dw_application x)) windows) Hok) as Hs.
  destruct (summarize_windows _ _ _) as [[st n'] out]. destruct Hs as (? & ? & ?); [|done].
  intros x [_ Hx]%list_elem_of_In%filter_In. by rewrite (allows_same s live).
Qed.

Lemma run_list_displays w0 id : run w0 (ListDisplays id) (fun _ => True) (list_displays fs rt id).
Proof.
  apply run_session. intros s Hid. rewrite <- Hid. go. apply negb_denied in H1.
  apply spec_seq; [apply session_stable | |].
  { apply run_session_result; [apply driver|]. intros w live Hi Hl Ha. exists (se_id s), live. cbn.
    split; [by rewrite Hid|]. split; [done|]. by destruct Ha as [_ -> _ _]. }
  intros displays. go. apply spec_seq; [apply session_stable | |intros; go]. apply run_lock_state.
  intros live t n Ha Hok.
  destruct (reference_change rt n n (allows_application live) (se_state live)
    {| (se_state live) with st_displays := ∅; st_display_refs := ∅ |}) as [Hok1 Hst1]; try done; [| apply Hok |].
  { destruct (so_refs _ _ _ _ Hok). constructor; first [done | apply refs_ok_empty]. }
  match goal with |- context [summarize_displays ?a ?b ?l] => pose proof (summarize_displays_ok rt b _ a l Hok1) as Hs end.
  destruct (summarize_displays _ _ _) as [[st n'] out]. destruct Hs as (? & ? & ?). split; [done|]. split; [done|].
  split; [|done]. by apply (state_step_trans n n) with (st2 := {| (se_state live) with st_displays := ∅; st_display_refs := ∅ |}).
Qed.

(** * Clipboard *)

Lemma run_clipboard_lane w0 c s busy m :
  run w0 c (known s) m -> run w0 c (known s) (with_clipboard_lane (A := CommandResult) busy m).
Proof.
  intros Hm. assert (Hp : forall b, preserves rt (fun w : World E => {| w with w_clipboard_busy := b |})).
  { intros b w Hi. pose proof Hi as [? ? ? ? ? ? ?]. by apply (same_core rt w). }
  unfold with_clipboard_lane. go. destruct a; [go|].
  apply spec_seq; [apply session_stable | apply spec_preserves, Hp|]. intros _.
  apply spec_finally; [done | apply Hp | done].
Qed.

Lemma run_issue_clipboard w0 c s marker : run w0 c (known s) (issue_clipboard_ref (se_id s) marker).
Proof.
  apply run_lock_state. intros live t n Ha Hok. pose proof (project_clipboard_ok rt n _ _ marker Hok) as Hs.
  destruct (project_clipboard _ _ _) as [[st n'] r]. destruct Hs as (? & ? & ?). done.
Qed.

Lemma run_read_clipboard w0 id : run w0 (ReadClipboard id) (fun _ => True) (read_clipboard fs rt id).
Proof.
  apply run_session. intros s Hid. rewrite <- Hid. go. apply negb_denied in H1. apply run_clipboard_lane.
  apply spec_seq; [apply session_stable | |].
  { apply run_session_result; [apply driver|]. intros w live Hi Hl Ha. exists (se_id s), live. cbn.
    split; [by rewrite Hid|]. split; [done|]. by destruct Ha as [_ -> _ _]. }
  intros snapshot. go. apply spec_seq; [apply session_stable | apply run_issue_clipboard |]. intros r. go.
Qed.

Lemma run_write_clipboard w0 input : run w0 (WriteClipboard input) (fun _ => True) (write_clipboard fs rt input).
Proof.
  apply run_session. intros s Hid. rewrite <- Hid. go. apply negb_denied in H1. destruct a0. apply rmap_err_Ok in H2.
  apply run_clipboard_lane.
  pose (taken := fun (o : option string) (w : World E) =>
    (Step w0 w /\ known s w) /\ exists live, w_heap w !! se_id s = Some live /\
      same_authority s live /\ (is_Some o -> st_clipboard (se_state live) = None)).
  eapply (spec_bind rt _ _ _ _ taken).
  { eapply (spec_lock_state_at rt Hlaw _ _ s (fun live _ => same_authority s live) _
      (fun o live => same_authority s live /\ (is_Some o -> st_clipboard (se_state live) = None)));
      [apply session_stable | naive_solver | intros w live [_ (? & ? & ?)] ?; congruence|].
    intros live t n Ha Hok. pose proof (take_clipboard_ok rt n _ _ (wc_clipboard_ref input) Hok) as Hs.
    revert Hs. unfold take_clipboard_marker. repeat case_match; cbn; intros [? ?]; (split; [done|]; split; [done|]; split; [done|]);
      (split; [by destruct Ha|]); [done | by intros [] ..]. }
  intros o. eapply (spec_bind rt _ _ _ _ (fun _ w => taken o w /\ is_Some o)).
  { apply spec_lift. intros marker w Hi Hw Ho%ok_or_Ok. eauto. }
  intros marker. eapply (spec_bind rt _ _ _ _ (fun _ w => Step w0 w /\ known s w)).
  { eapply (spec_bind rt _ _ _ _ (fun _ w => Step w0 w /\ known s w)); [|intros; by apply spec_lift].
    eapply (spec_weaken rt (fun w => (taken o w /\ is_Some o) /\ (Step w0 w /\ known s w)) _ _
      (authorized w0 (WriteClipboard input)) _ (fun _ w => True /\ (Step w0 w /\ known s w))); [|unfold taken; naive_solver | done | naive_solver].
    apply (spec_frame rt (fun w => Step w0 w /\ known s w)); [apply session_stable|].
    apply spec_call; [apply driver|]. intros w Hi [(_ & live & Hl & Ha & Hc) Ho]. exists input.
    do 3 (split; [done|]). exists (se_id s), live. cbn. split; [by rewrite Hid|]. split; [done|]. destruct Ha as [_ -> _ _]. auto. }
  intros output. go. apply spec_seq; [apply session_stable | apply run_issue_clipboard |]. intros r. go.
Qed.

(** * Observations *)

Lemma run_revoked w0 c s : run w0 c (known s) (is_revoked (se_id s)).
Proof. apply spec_is_revoked. intros w [_ Hk]. by apply known_heap. Qed.

Lemma run_screenshot w0 c s image bounds : run w0 c (known s) (write_screenshot fs (se_id s) image bounds).
Proof. apply spec_write_screenshot; [done | apply session_stable]. Qed.

Lemma run_observe_display w0 input : run w0 (ObserveDisplay input) (fun _ => True) (observe_display fs input).
Proof.
  apply run_session. intros s Hid. rewrite <- Hid. go. apply negb_denied in H1.
  apply spec_seq; [apply session_stable | |].
  { eapply spec_weaken; [apply spec_read_state; [done | apply (session_stable w0 s) | naive_solver] | done..]. }
  intros known_. go. apply spec_seq; [apply session_stable | |].
  { apply run_session_result; [apply driver|]. intros w live Hi Hl Ha. exists (se_id s), live. cbn.
    split; [by rewrite Hid|]. split; [done|]. by destruct Ha as [_ -> _ _]. }
  intros [image bounds]. go. apply spec_seq; [apply session_stable | apply run_screenshot |]. intros screenshot.
  apply spec_seq; [apply session_stable | apply run_revoked |]. intros [].
  - apply spec_seq; [apply session_stable | apply spec_remove_artifacts |]. intros _. go.
  - go. apply spec_seq; [apply session_stable | apply spec_new_ref |]. intros r. go.
Qed.

(** The window a command acts on is in the scope of its session. *)
Lemma spec_authorized_window w0 c s r :
  spec rt (fun w => Step w0 w /\ known s w) (authorized_window s r) (authorized w0 c)
    (fun window _ => allows_application s (dw_application window) = true).
Proof.
  unfold authorized_window. apply spec_seq; [apply session_stable | |].
  { eapply spec_weaken; [apply spec_read_state; [done | apply (session_stable w0 s) | naive_solver] | done..]. }
  intros known_. go. apply negb_denied in H2. by apply spec_lift; intros ? ? _ _ [= <-].
Qed.

Lemma in_scope c s (window : DriverWindow) w live :
  command_session c = Some (se_id s) -> allows_application s (dw_application window) = true ->
  w_heap w !! se_id s = Some live -> same_authority s live ->
  in_session c w (fun live => se_id live = se_id s /\ allows_application live (dw_application window) = true).
Proof.
  intros Hc Ha Hl Hs. exists (se_id s), live. do 2 (split; [done|]). rewrite (allows_same s live) by done.
  by destruct Hs as [-> _ _ _].
Qed.

Lemma run_observe_driver_window w0 c s window shot ax scene :
  command_session c = Some (se_id s) -> allows_application s (dw_application window) = true ->
  run w0 c (known s) (observe_driver_window (se_id s) window shot ax scene).
Proof.
  intros Hc Ha. unfold observe_driver_window. cbv zeta.
  set (method := if scene then _ else _). assert (Hm : method_ok rt method) by (unfold method; destruct scene; apply driver).
  apply spec_seq; [apply session_stable | |].
  { apply run_session_call; [done|]. intros w live Hi Hl Hs. exact (in_scope c s window w live Hc Ha Hl Hs). }
  intros [o|e]; [go|]. case_bool_decide; [|go]. apply run_session_result; [done|].
  intros w live Hi Hl Hs. exact (in_scope c s window w live Hc Ha Hl Hs).
Qed.

Lemma run_observe_window_of w0 c input scene :
  command_session c = Some (ow_session_id input) ->
  run w0 c (fun _ => True) (observe_window fs rt input scene).
Proof.
  intros Hc. apply run_session. intros s Hid. rewrite <- Hid in Hc |- *.
  eapply spec_step; [apply session_stable | apply spec_authorized_window |]. intros window Hwin. go.
  apply spec_seq; [apply session_stable | by apply run_observe_driver_window |]. intros observation.
  apply spec_seq; [apply session_stable | apply run_revoked |]. intros revoked. go.
  apply spec_seq; [apply session_stable | |].
  { repeat case_match; go. apply spec_seq; [apply session_stable | apply run_screenshot | intros; go]. }
  intros screenshot. apply spec_seq; [apply session_stable | apply run_revoked |]. intros [].
  - apply spec_seq; [apply session_stable | apply spec_remove_artifacts |]. intros _. go.
  - go. eapply (spec_step rt _ _ _ _ (fun r => exists x, r = Some x)); [apply session_stable | |].
    { apply spec_lock_state; [done | apply session_stable | naive_solver|]. intros live t n _ Hok.
      pose proof (store_observation_ok rt input scene a observation (sa_mapping <$> screenshot)
        (law_config rt Hlaw) live t n I Hok) as Hs.
      destruct (store_observation _ _ _ _ _ _ _ _ _) as [[st n'] r]. destruct Hs as (? & ? & ? & oid & els & o & -> & _).
      do 3 (split; [done|]). eauto. }
    intros stored [[oid elements] ->]. destruct (truncation_of _ _ _). go.
Qed.

Lemma run_verify_state w0 input : run w0 (VerifyState input) (fun _ => True) (verify_state fs input).
Proof.
  apply run_session. intros s Hid.
  eapply spec_step; [apply session_stable | apply spec_authorized_window |]. intros window Hwin.
  apply spec_seq; [apply session_stable | |intros; go]. apply run_session_result; [apply driver|].
  intros w live Hi Hl Hs. destruct (in_scope (VerifyState input) s window w live) as (i & l & ? & ? & _ & ?); try done.
  { by rewrite Hid. }
  by exists i, l.
Qed.

(** * Actions *)

(** The observation of the request has been claimed: nobody can use it again. *)
Definition claimed (s : Session) (oid : ObservationId) w : Prop :=
  exists i, (i < w_uuid w)%nat /\ oid = fresh_ref "observation_" i /\
    exists live, w_heap w !! se_id s = Some live /\
      forall o, st_observations (se_state live) !! oid = Some o -> ob_status o <> Valid.

Lemma claimed_stable s oid : stable (claimed s oid).
Proof.
  intros w w' Hs (i & Hi & -> & live & Hl & Hv). destruct (g_heap _ _ Hs _ _ Hl) as (live' & Hl' & Hst).
  exists i. pose proof (g_uuid _ _ Hs). split; [lia|]. split; [done|]. exists live'. split; [done|].
  intros o' Ho' Hv'. destruct (ss_observations _ _ _ (ss_state _ _ _ Hst) i o' Hi Ho') as (o & Ho & _ & Hval).
  by apply (Hv o Ho), Hval.
Qed.

(** The observation was valid in the state the request started in. *)
Definition was_valid w0 (id : SessionId) (oid : ObservationId) : Prop :=
  forall s0 i, w_heap w0 !! id = Some s0 -> (i < w_uuid w0)%nat -> oid = fresh_ref "observation_" i ->
    exists o, st_observations (se_state s0) !! oid = Some o /\ ob_status o = Valid.

(** What the claim of the observation establishes of the prepared action. *)
Record prepared_for w0 (s : Session) (input : PerformActionInput) (p : PreparedAction) : Prop := {
  pf_scope : allows_application s (dw_application (pr_window p)) = true;
  pf_observation : exists o, ob_window_ref o = pa_window_ref input /\ pr_observed_at p = ob_created_at o /\
    validate_action (pa_action input) (ob_screenshot_mapping o) = Ok tt /\
    resolve_action (pa_action input) o = Ok (pr_action p);
  pf_was_valid : was_valid w0 (se_id s) (pa_observation_id input);
}.

Lemma run_prepare w0 c s input :
  spec rt (fun w => Step w0 w /\ known s w)
    (lock_state (se_id s) (fun live t n => let '(st, r) := prepare_action rt s input live t in (st, n, r)))
    (authorized w0 c)
    (fun r w => (Step w0 w /\ known s w) /\
       match r with
       | Ok p => prepared_for w0 s input p /\ claimed s (pa_observation_id input) w
       | Err _ => True
       end).
Proof.
  assert (Hage : 0 <= max_observation_age (config rt)).
  { pose proof (co_age _ (law_config rt Hlaw)). lia. }
  pose (from := fun live (_ : Z) => forall s0, w_heap w0 !! se_id s = Some s0 -> session_step (w_uuid w0) s0 live).
  pose (post := fun (r : Result PreparedAction CuaError) (live : Session) =>
    match r with
    | Ok p => prepared_for w0 s input p /\
        exists o, st_observations (se_state live) !! pa_observation_id input = Some o /\ ob_status o = InFlight
    | Err _ => True
    end).
  eapply (spec_weaken rt (fun w => Step w0 w /\ known s w) _ _ (authorized w0 c) _ (fun r w => (Step w0 w /\ known s w) /\
    exists live, w_heap w !! se_id s = Some live /\ post r live)); [| done | done |].
  - apply (spec_lock_state_at rt Hlaw (authorized w0 c) _ s from _ post); [apply session_stable | naive_solver | |].
    { intros w live [Hs _] Hl s0 Hs0. destruct (g_heap _ _ Hs _ _ Hs0) as (s1 & Hs1 & ?). congruence. }
    intros live t n Hfrom Hok. pose proof (prepare_action_ok rt s input live t n Hage Hok) as Hp.
    destruct (prepare_action rt s input live t) as [st r]. destruct Hp as (? & ? & Hr).
    do 3 (split; [done|]). destruct r as [p|]; [|done]. destruct Hr as [(o & Ho) ?]. split; [|done].
    destruct Ho. constructor; [done | by exists o|]. intros s0 i Hs0 Hi Hoid. rewrite Hoid in *.
    destruct (ss_observations _ _ _ (ss_state _ _ _ (Hfrom s0 Hs0)) i o Hi pr_is_observation) as (o0 & ? & _ & Hv).
    exists o0. auto.
  - intros r w Hi [Hw (live & Hl & Hp)]. split; [done|]. destruct r as [p|]; [|done].
    destruct Hp as [? (o & Ho & Hst)]. split; [done|].
    destruct (so_observations _ _ _ _ (so_state _ _ _ _ (i_heap _ _ Hi _ _ Hl)) _ _ Ho) as [_ (i & ? & ?)].
    exists i. do 2 (split; [done|]). exists live. split; [done|]. intros o' Ho'. congruence.
Qed.

(** The state in which the native dispatch is made. *)
Definition ready (s : Session) (lease : nat) (input : PerformActionInput) (p : PreparedAction) w : Prop :=
  exists live, w_heap w !! se_id s = Some live /\ same_authority s live /\
    check (se_guard live) lease (w_now w) = Ok tt /\
    check_observation (gs_activity (se_guard live)) (Some (pr_observed_at p)) = Ok tt /\
    claimed s (pa_observation_id input) w.

Lemma run_verify_current w0 s lease input p :
  se_id s = pa_session_id input -> allows_application s (dw_application (pr_window p)) = true ->
  spec rt (fun w => (Step w0 w /\ known s w) /\ claimed s (pa_observation_id input) w)
    (verify_current (se_id s) lease p) (authorized w0 (PerformAction input))
    (fun r w => (Step w0 w /\ known s w) /\ (r = Ok true -> ready s lease input p w)).
Proof.
  intros Hid Hwin. set (F := fun w => (Step w0 w /\ known s w) /\ claimed s (pa_observation_id input) w).
  assert (HF : stable F) by (apply stable_and; [apply session_stable | apply claimed_stable]).
  assert (HK : forall w, F w -> is_Some (w_heap w !! se_id s)) by (intros w [[_ Hk] _]; by apply known_heap).
  unfold verify_current. eapply (spec_seq rt (authorized w0 (PerformAction input)) F); [done | |].
  { apply spec_call; [apply driver|]. intros w Hi [[_ (live & Hl & Ha)] _].
    destruct (in_scope (PerformAction input) s (pr_window p) w live) as (i & l & ? & ? & _ & ?); try done;
      [by rewrite Hid | by exists i, l]. }
  intros [current|e]; [|apply spec_lift; intros ? w Hi [? _] [= <-]; done].
  eapply spec_bind; [by apply (spec_guard_check rt _ F)|]. intros checked. cbv beta.
  set (F' := fun w => F w /\ exists live, w_heap w !! se_id s = Some live /\ checked = check (se_guard live) lease (w_now w)).
  eapply spec_bind; [apply (spec_guard_check_observation rt _ F'); intros w [Hw _]; by apply HK|]. intros quiet.
  apply spec_lift. intros r w Hi [[[Hw Hcl] (live & Hl & ->)] (live' & Hl' & ->)] [= <-]. split; [done|].
  intros Hr. res_inv. destruct Hw as [_ (live2 & Hl2 & Ha)]. simplify_eq.
  repeat match goal with x : unit |- _ => destruct x end. by exists live2.
Qed.

Lemma run_invalidate_observation w0 c s oid : run w0 c (known s) (invalidate_observation (se_id s) oid).
Proof.
  apply run_lock_state. intros live t n Ha Hok.
  destruct (narrow_change rt n _ _ (alter invalidate oid (st_observations (se_state live))) Hok) as [? ?]; [|done].
  by apply narrows_alter.
Qed.

Lemma run_admit_action w0 s lease input :
  se_id s = pa_session_id input ->
  spec rt (fun w => Step w0 w /\ known s w) (admit_action rt s lease input) (authorized w0 (PerformAction input))
    (fun p w => (Step w0 w /\ known s w) /\ prepared_for w0 s input p /\ ready s lease input p w).
Proof.
  intros Hid. unfold admit_action. rewrite <- Hid. eapply spec_bind; [apply run_prepare|]. intros prepared_.
  eapply (spec_bind rt _ _ _ _ (fun p w => ((Step w0 w /\ known s w) /\ claimed s (pa_observation_id input) w) /\
    prepared_for w0 s input p)).
  { apply spec_lift. intros p w Hi [Hw Hp] ->. naive_solver. }
  intros p. apply spec_pure. intros Hp.
  eapply spec_bind; [apply run_verify_current; [done | apply Hp]|].
  assert (Herr : forall e, spec rt (fun w => Step w0 w /\ known s w)
    (invalidate_observation (se_id s) (pa_observation_id input) ;! fail e) (authorized w0 (PerformAction input))
    (fun p w => (Step w0 w /\ known s w) /\ prepared_for w0 s input p /\ ready s lease input p w)).
  { intros e. apply spec_seq; [apply session_stable | apply run_invalidate_observation |]. intros _. apply spec_fail. }
  intros [[]|e]; cbv beta.
  - apply spec_lift. intros p' w Hi [Hw Hr] [= <-]. auto.
  - eapply spec_weaken; [apply Herr | naive_solver | done | done].
  - eapply spec_weaken; [apply Herr | naive_solver | done | done].
Qed.

Lemma run_invalidate_generation_in w0 c ids a :
  spec rt (fun w => Step w0 w /\ forall id, id ∈ ids -> is_Some (w_heap w !! id))
    (invalidate_generation_in ids a) (authorized w0 c) (fun _ _ => True).
Proof.
  induction ids as [|id ids IH]; cbn [invalidate_generation_in]; [apply spec_ret|].
  set (F := fun w => Step w0 w /\ forall i, i ∈ id :: ids -> is_Some (w_heap w !! i)).
  assert (HF : stable F).
  { apply stable_and; [apply stable_step|]. intros w w' Hs Hw i Hin. by apply (heap_stable i w w' Hs), Hw. }
  intros w Hi Hw. destruct Hw as [Hs Hall]. destruct (Hall id ltac:(set_solver)) as [s0 Hs0].
  pose proof (so_id _ _ _ _ (i_heap _ _ Hi _ _ Hs0)) as Hid.
  revert w Hi Hs Hall Hs0. intros w Hi Hs Hall Hs0.
  set (F2 := fun v => F v /\ known s0 v).
  assert (HF2 : stable F2) by (apply stable_and; [done | apply known_stable]).
  refine (spec_seq rt (authorized w0 c) F2 _ _ _ HF2 _ _ w Hi _).
  - rewrite <- Hid. apply spec_lock_state; [done | done | by intros v [_ ?]|].
    intros live t n _ Hok. destruct (narrow_change rt n _ _ _ Hok (narrows_invalidate _
      (fun o => bool_decide (is_Some (filter (fun p => matches_generation (dw_application p.2) a = true)
         (st_windows (se_state live)) !! ob_window_ref o))))) as [? ?]. done.
  - intros []. eapply spec_weaken; [exact IH | | done | done]. intros v _ [[? Hv] _]. split; [done | set_solver].
  - split; [by split|]. exists s0. rewrite Hid. split; [done | by constructor].
Qed.

Lemma run_invalidate_generation w0 c F a :
  stable F -> run w0 c F (invalidate_application_generation a).
Proof.
  intros HF0. assert (HF : stable (fun w => Step w0 w /\ F w)) by (apply stable_and; [apply stable_step | done]).
  unfold invalidate_application_generation.
  apply spec_seq; [done | by apply spec_await|]. intros _. apply spec_seq; [done | |].
  { apply spec_preserves. intros w Hi. pose proof Hi as [? ? ? ? ? ? ?]. apply (same_core rt w); cbn; try done.
    etrans; [apply msize_filter_le | done]. }
  intros _. apply spec_seq; [done | by apply spec_await|]. intros _.
  eapply (spec_bind rt _ _ _ _ (fun ids w => Step w0 w /\ forall id, id ∈ ids -> is_Some (w_heap w !! id))).
  { apply spec_read. intros w Hi [Hs _]. split; [done|]. intros id Hid. apply (i_table _ _ Hi).
    by apply session_ids_elem. }
  intros ids. apply run_invalidate_generation_in.
Qed.

Lemma run_invalidate_after w0 c s r a b result :
  run w0 c (known s) (invalidate_after_action_attempt (se_id s) r a b result).
Proof.
  unfold invalidate_after_action_attempt. cbv zeta. destruct (_ && _); [apply run_invalidate_generation, known_stable|].
  apply run_lock_state. intros live t n Ha Hok.
  by destruct (narrow_change rt n _ _ _ Hok (narrows_invalidate _ (fun o => str_eqb (ob_window_ref o) r))).
Qed.

Lemma run_dispatch_action w0 s lease input p :
  se_id s = pa_session_id input -> may_perform (se_manifest s) (pa_action input) ->
  spec rt (fun w => (Step w0 w /\ known s w) /\ prepared_for w0 s input p /\ ready s lease input p w)
    (dispatch_action s lease input p) (authorized w0 (PerformAction input)) (fun _ _ => True).
Proof.
  intros Hid Hmay. unfold dispatch_action. cbv zeta. rewrite <- Hid.
  eapply (spec_bind rt _ _ _ _ (fun _ w => Step w0 w /\ known s w)).
  { eapply (spec_weaken rt (fun w => (prepared_for w0 s input p /\ ready s lease input p w) /\ (Step w0 w /\ known s w)) _ _
      (authorized w0 (PerformAction input)) _ (fun _ w => True /\ (Step w0 w /\ known s w)));
      [|naive_solver | done | naive_solver].
    apply (spec_frame rt (fun w => Step w0 w /\ known s w)); [apply session_stable|].
    apply spec_call; [apply driver|]. intros w Hi [Hp (live & Hl & Ha & Hg & Hq & Hc)].
    exists input. do 2 (split; [done|]). exists (se_id s), live. split; [cbn; by rewrite Hid|]. split; [done|].
    destruct Hp as [Hscope (o & ? & Ht & ? & ?) Hv]. destruct Hc as (i & ? & ? & live' & Hl' & Hcl).
    assert (live' = live) as -> by congruence. pose proof (au_manifest _ _ Ha) as Em. constructor; rewrite ?Em; try done.
    - by rewrite (allows_same s live _ Ha).
    - exists o. rewrite Ht. done.
    - eauto.
    - by rewrite <- Hid. }
  intros result. apply spec_seq; [apply session_stable | apply run_invalidate_after |]. intros _. go.
  by apply spec_lift.
Qed.

Lemma run_check_authority w0 c s action :
  spec rt (fun w => Step w0 w /\ known s w) (check_authority (se_id s) action) (authorized w0 c)
    (fun _ _ => may_perform (se_manifest s) action).
Proof.
  unfold check_authority. apply spec_seq; [apply session_stable | |].
  { apply spec_action_guard. intros w [_ Hk]. by apply known_heap. }
  intros lease. apply spec_finally; [|apply drop_guard_preserves | by intros x w w' _ Hm].
  intros w Hi [_ (live & Hl & Ha)]. unfold deref. rewrite Hl. split; [done|]. split; [reflexivity|].
  split; [by intros x ?%elem_of_nil|]. destruct (validate_action_authority _ _ _ _) as [[]|] eqn:Ev; [|done].
  unfold validate_action_authority in Ev. res_inv. destruct Ha as [_ <- _ _].
  match goal with Hd : negb _ || negb _ = false |- _ => apply orb_false_iff in Hd as [?%negb_false_iff%bool_decide_eq_true ?%negb_false_iff%bool_decide_eq_true] end.
  constructor; [done | done|]. intros Hf.
  match goal with Hd : requires_foreground _ && _ = false |- _ => rewrite Hf in Hd; by apply negb_false_iff in Hd end.
Qed.

Lemma run_perform_action_only w0 input :
  run w0 (PerformAction input) (fun _ => True) (perform_action_only fs rt input).
Proof.
  apply run_session. intros s Hid. rewrite <- Hid.
  eapply spec_step; [apply session_stable | apply run_check_authority |]. intros u Hmay.
  apply spec_seq; [apply session_stable | |].
  { apply spec_action_guard. intros w [_ Hk]. by apply known_heap. }
  intros lease. cbv zeta.
  assert (Hlane : forall b, preserves rt (fun w : World E => {| w with w_foreground_busy := b |})).
  { intros b w Hi. pose proof Hi as [? ? ? ? ? ? ?]. by apply (same_core rt w). }
  apply spec_seq; [apply session_stable | |].
  { apply spec_on_error; [|apply drop_guard_preserves].
    apply spec_seq; [apply session_stable | by apply spec_from_driver, spec_wait_until_idle|]. intros _.
    unfold acquire_foreground_lane. destruct (requires_foreground _); [|go].
    apply spec_seq; [apply session_stable | apply spec_read_any|]. intros []; [go | apply spec_preserves, Hlane]. }
  intros _. apply spec_finally; [| | done].
  - eapply spec_bind; [apply spec_on_error; [by apply run_admit_action | apply drop_guard_preserves]|].
    intros p. by apply run_dispatch_action.
  - intros w Hi. unfold release_foreground_lane. destruct (requires_foreground _); [by apply Hlane | by split].
Qed.

Lemma run_settle_window w0 input o scene :
  ow_session_id o = pa_session_id input ->
  run w0 (PerformAction input) (fun _ => True)
    (let! s := session fs (ow_session_id o) in
     let! known := read_state (se_id s) (fun st => st_windows st !! ow_window_ref o) in
     let! window := lift (ok_or known reference_not_found) in
     from_driver (call (CallSettleWindow window scene) (drv_settle_window window scene))).
Proof.
  intros Ho. pose proof (stable_and _ _ (stable_step w0) stable_true) as HF.
  apply spec_with_session; [done | done | done|]. intros s Hs.
  eapply (spec_weaken rt (fun w => Step w0 w /\ known s w)); [|naive_solver | done | done].
  eapply spec_step; [apply session_stable | apply spec_read_state; [done | apply session_stable | naive_solver] |].
  intros found_ (n & st & -> & Hok). go. apply ok_or_Ok in H1. apply run_session_result; [apply driver|].
  intros w live Hi Hl Ha. exists (se_id s), live. split; [cbn; congruence|]. split; [done|].
  rewrite (allows_same s live) by done. by eapply so_windows.
Qed.

Lemma run_observe_after_action w0 input o scene :
  ow_session_id o = pa_session_id input ->
  run w0 (PerformAction input) (fun _ => True) (observe_after_action fs rt o scene).
Proof.
  intros Ho. pose proof (stable_and _ _ (stable_step w0) stable_true) as HF.
  unfold observe_after_action. apply spec_seq; [done | |].
  - destruct (ow_include_screenshot o); [by apply run_settle_window | apply spec_ret].
  - intros _. apply run_observe_window_of. cbn. congruence.
Qed.

(** The values a computation can return. *)
Definition returns {A} (m : M E A) (phi : A -> Prop) : Prop :=
  forall w w' t a, m w = (w', t, Returned (Ok a)) -> phi a.

Lemma returns_bind {A B} (m : M E A) (k : A -> M E B) phi :
  (forall a, returns (k a) phi) -> returns (bind m k) phi.
Proof.
  intros Hk w w' t b. unfold bind. destruct (m w) as [[w1 t1] [[a|]|]]; try done.
  destruct (k a w1) as [[w2 t2] r] eqn:Ek. intros [= <- <- ->]. by eapply Hk.
Qed.

Lemma returns_lift {A} (r : Result A CuaError) (phi : A -> Prop) :
  (forall a, r = Ok a -> phi a) -> returns (lift r) phi.
Proof. intros Hr w w' t a [= _ _ ->]. by apply Hr. Qed.

Lemma observe_window_returns input scene :
  returns (observe_window fs rt input scene) (fun r => exists o, r = RWindowObserved o).
Proof.
  unfold observe_window. cbv zeta.
  repeat (apply returns_bind; intros ?; try (case_match; [by apply returns_bind; intros ?; apply returns_lift |])).
  case_match; [|done]. case_match. case_match. apply returns_lift. naive_solver.
Qed.

Lemma run_perform_action w0 input :
  run w0 (PerformAction input) (fun _ => True) (perform_action fs rt input).
Proof.
  pose proof (stable_and _ _ (stable_step w0) stable_true) as HF. unfold perform_action. cbv zeta.
  apply spec_seq; [done | by apply spec_lift|]. intros _.
  apply spec_seq; [done | apply run_perform_action_only |]. intros result.
  destruct result as [| | | | | | | | | | | | | |output| |]; try apply spec_ret.
  destruct (after_command input) as [[o scene]|] eqn:Ea; [|apply spec_ret].
  assert (Ho : ow_session_id o = pa_session_id input).
  { unfold after_command in Ea. destruct (pa_observe_after input); [|done]. by injection Ea as <- _. }
  eapply (spec_step rt _ _ _ _ (fun r => match r with Ok a => exists x, a = RWindowObserved x | Err _ => True end)); [done | |].
  - intros w Hi Hw. pose proof (run_observe_after_action w0 input o scene Ho w Hi Hw) as Hs.
    assert (Hr : returns (observe_after_action fs rt o scene) (fun r => exists x, r = RWindowObserved x)).
    { apply returns_bind. intros _. apply observe_window_returns. }
    specialize (Hr w). unfold reify. destruct (observe_after_action fs rt o scene w) as [[w' t] r].
    destruct Hs as (? & ? & ? & Hres). destruct r as [[a|e]|]; [|done|done].
    do 3 (split; [done|]). by eapply Hr.
  - intros [a|e] Hr; [|apply spec_ret]. destruct Hr as [x ->]. apply spec_ret.
Qed.

(** * All commands *)

Lemma run_run_command w0 c : run w0 c (fun _ => True) (run_command fs rt c).
Proof.
  pose proof (stable_and _ _ (stable_step w0) stable_true) as HF.
  destruct c; cbn [run_command].
  - apply spec_seq; [done | apply run_call; [apply driver | done] | intros; apply spec_ret].
  - apply spec_seq; [done | apply run_call; [apply driver | done] | intros; apply spec_ret].
  - apply run_discover_applications.
  - apply run_discover_launchable.
  - apply spec_map_err, run_launch_application.
  - apply run_open_session.
  - apply run_close_session.
  - apply run_list_apps.
  - apply run_list_windows.
  - apply run_list_displays.
  - by apply run_observe_window_of.
  - by apply run_observe_window_of.
  - apply run_observe_display.
  - apply run_read_clipboard.
  - apply spec_map_err, run_write_clipboard.
  - apply spec_map_err, run_perform_action.
  - apply spec_fail.
  - apply run_verify_state.
Qed.

(** A command runs once its runtime is open and the policy allows it. *)
Lemma spec_execute w0 c Q :
  (stack_authorize (policy (config rt)) c = Ok tt ->
   spec rt (fun w => Step w0 w /\ True) (run_command fs rt c) (authorized w0 c) Q) ->
  spec rt (fun w => Step w0 w /\ True) (execute fs rt c) (authorized w0 c) Q.
Proof.
  pose proof (stable_and _ _ (stable_step w0) stable_true) as HF. intros Hc. unfold execute.
  apply spec_seq; [done | by apply spec_await|]. intros _.
  apply spec_seq; [done | apply spec_read_any|]. intros []; [apply spec_fail|].
  eapply spec_step; [done | apply spec_lift_ok|]. intros [] Hp.
  apply spec_seq; [done | | intros; by apply Hc].
  eapply (spec_weaken rt (fun _ => True)); [by apply (spec_ensure_scheduler rt _ (fun _ => True)) | done..].
Qed.

Lemma run_execute w0 c : run w0 c (fun _ => True) (execute fs rt c).
Proof. apply spec_execute. intros _. apply run_run_command. Qed.

End Commands.
