(* ===== verification/RuntimeProps.v ===== *)
(** The properties of the session runtime, stated of [execute] and of the
    background tasks over any lawful driver and executor, with a concrete
    desktop on which they are exercised. *)

From S2P Require Import Prelude Floats Geometry Text Protocol Errors Policy Validation Driver Session Artifacts Runtime RuntimeInv RuntimeSpecs RuntimeCommands.

(** * Counting native dispatches *)

(** The driver calls that may change the desktop. *)
Definition is_dispatch (c : DriverCall) : bool :=
  match c with
  | CallPerformAction _ _ _ _ _ _ _ | CallLaunchApplication _ _ | CallWriteClipboard _ _ _ => true
  | _ => false
  end.

Create HintDb calls.

Section Dispatches.
Context {E : Type} `{!DesktopDriver E, !Executor E, !HashOrder, !UuidSource}.
Context (fs : ArtifactEnv E) (rt : Runtime).

Definition dispatches (t : list (World E * DriverCall)) : nat := length (List.filter (fun x => is_dispatch x.2) t).

Lemma dispatches_app t t' : dispatches (t ++ t') = (dispatches t + dispatches t')%nat.
Proof. unfold dispatches. by rewrite List.filter_app, length_app. Qed.

(** [m] makes at most [n] dispatches, whatever the state. *)
Definition calls_le {A} (n : nat) (m : M E A) : Prop := forall w, (dispatches (m w).1.2 <= n)%nat.

Lemma calls_lift {A} n (r : Result A CuaError) : calls_le n (lift (E := E) r).
Proof. intros w. cbn. lia. Qed.
Lemma calls_ret {A} n (a : A) : calls_le n (ret (E := E) a).
Proof. apply calls_lift. Qed.
Lemma calls_fail {A} n e : calls_le n (@fail E A e).
Proof. apply calls_lift. Qed.
Lemma calls_panic {A} n : calls_le n (@panic E A).
Proof. intros w. cbn. lia. Qed.
Lemma calls_read {A} n (f : World E -> A) : calls_le n (read f).
Proof. intros w. cbn. lia. Qed.
Lemma calls_modify n f : calls_le n (modify (E := E) f).
Proof. intros w. cbn. lia. Qed.

Lemma calls_call {A} n c (f : World E -> World E * Result A DriverError) :
  is_dispatch c = false -> calls_le n (call c f).
Proof. intros Hc w. unfold call. destruct (f w). unfold dispatches. cbn. rewrite Hc. cbn. lia. Qed.

Lemma calls_dispatch {A} c (f : World E -> World E * Result A DriverError) : calls_le 1 (call c f).
Proof.
  intros w. unfold call. destruct (f w). unfold dispatches. cbn. destruct (is_dispatch c); cbn; lia.
Qed.

Lemma calls_bind {A B} n k (m : M E A) (f : A -> M E B) :
  calls_le n m -> (forall a, calls_le k (f a)) -> calls_le (n + k) (bind m f).
Proof.
  intros Hm Hf w. specialize (Hm w). unfold bind. destruct (m w) as [[w1 t1] [[a|]|]]; cbn [fst snd] in *; try lia.
  specialize (Hf a w1). destruct (f a w1) as [[w2 t2] r]. cbn [fst snd] in *. rewrite dispatches_app. lia.
Qed.

Lemma calls_quiet {A B} n (m : M E A) (f : A -> M E B) :
  calls_le 0 m -> (forall a, calls_le n (f a)) -> calls_le n (bind m f).
Proof. intros Hm Hf. by apply (calls_bind 0 n). Qed.

Lemma calls_after {A B} n (m : M E A) (f : A -> M E B) :
  calls_le n m -> (forall a, calls_le 0 (f a)) -> calls_le n (bind m f).
Proof. intros Hm Hf. rewrite <- (Nat.add_0_r n). by apply calls_bind. Qed.

Lemma calls_map_err {A} n f (m : M E A) : calls_le n m -> calls_le n (map_err f m).
Proof. intros Hm w. specialize (Hm w). unfold map_err. by destruct (m w) as [[? ?] []]. Qed.
Lemma calls_reify {A} n (m : M E A) : calls_le n m -> calls_le n (reify m).
Proof. intros Hm w. specialize (Hm w). unfold reify. by destruct (m w) as [[? ?] []]. Qed.
Lemma calls_finally {A} n (m : M E A) f : calls_le n m -> calls_le n (finally m f).
Proof. intros Hm w. specialize (Hm w). unfold finally. by destruct (m w) as [[? ?] ?]. Qed.
Lemma calls_on_error {A} n (m : M E A) f : calls_le n m -> calls_le n (on_error m f).
Proof. intros Hm w. specialize (Hm w). unfold on_error. by destruct (m w) as [[? ?] [[]|]]. Qed.

Lemma calls_deref {A} n id (k : Session -> M E A) : (forall s, calls_le n (k s)) -> calls_le n (deref id k).
Proof. intros Hk w. unfold deref. destruct (w_heap w !! id); [apply Hk | cbn; lia]. Qed.

Lemma calls_from_driver {A} n (m : M E (Result A DriverError)) : calls_le n m -> calls_le n (from_driver m).
Proof. intros Hm. apply calls_after; [done|]. intros r. apply calls_lift. Qed.

End Dispatches.

#[export] Hint Resolve calls_lift calls_ret calls_fail calls_panic calls_read calls_modify calls_quiet
  calls_map_err calls_reify calls_finally calls_on_error calls_deref calls_from_driver : calls.
#[export] Hint Extern 1 (calls_le _ (call _ _)) => apply calls_call; reflexivity : calls.
#[export] Hint Extern 2 (calls_le _ (fun w => (_, [], _))) => intros ?; unfold dispatches; simpl; lia : calls.
#[export] Hint Extern 3 (calls_le _ (match ?x with _ => _ end)) => destruct x : calls.
#[export] Hint Extern 3 (calls_le _ (let '_ := ?x in _)) => destruct x : calls.

(** Proves that a computation makes no dispatch. *)
Ltac quiet := cbv zeta; eauto 40 with calls.

Section DispatchCounts.
Context {E : Type} `{!DesktopDriver E, !Executor E, !HashOrder, !UuidSource}.
Context (fs : ArtifactEnv E) (rt : Runtime).

Lemma calls_lock_state {A} n id (f : Session -> Z -> nat -> SessionState * nat * A) : calls_le n (lock_state (E := E) id f).
Proof.
  apply calls_quiet; [quiet|]. intros _. apply calls_deref. intros s w. destruct (f s (w_now w) (w_uuid w)) as [[? ?] ?].
  cbn. lia.
Qed.
Lemma calls_read_state {A} n id (f : SessionState -> A) : calls_le n (read_state (E := E) id f).
Proof. unfold read_state, await. quiet. Qed.
Lemma calls_close n id : calls_le n (close (E := E) id).
Proof. unfold close, set_guard. apply calls_deref. intros s. destruct (se_closed s); [quiet|]. apply calls_quiet; [quiet|]. intros _ w. cbn. lia. Qed.
Lemma calls_session n id : calls_le n (session fs id).
Proof.
  unfold session, await, remove_artifacts, signal_reschedule, now. apply calls_quiet; [quiet|]. intros _. apply calls_quiet; [quiet|].
  intros [|]; [|quiet]. apply calls_deref. intros s. apply calls_quiet; [quiet|]. intros t.
  destruct (_ <=? _); [|quiet]. apply calls_quiet; [apply calls_close | quiet].
Qed.
Lemma calls_wait n id lease : calls_le n (wait_until_idle (E := E) id lease).
Proof. intros w. unfold wait_until_idle. destruct (wait_for_idle _ _ _ _ _ _ _) as [[? ?]|]; cbn; lia. Qed.
Lemma calls_write_screenshot n id i b : calls_le n (write_screenshot fs id i b).
Proof.
  unfold write_screenshot, await. do 2 (apply calls_quiet; [quiet|]; intros _). apply calls_finally, calls_quiet; [quiet|].
  intros _ w. destruct (write_image _ _ _ _ _ _ _) as [[[? ?] ?] ?]. cbn. lia.
Qed.

End DispatchCounts.

#[export] Hint Resolve calls_lock_state calls_read_state calls_close calls_session calls_wait
  calls_write_screenshot : calls.

Section CommandCounts.
Context {E : Type} `{!DesktopDriver E, !Executor E, !HashOrder, !UuidSource}.
Context (fs : ArtifactEnv E) (rt : Runtime).

(** One step of a computation that makes no dispatch before its last part. *)
Ltac one := first
  [ apply calls_quiet; [solve [quiet] | intros ?; cbv zeta]
  | match goal with
    | |- calls_le _ (match ?x with _ => _ end) => destruct x
    | |- calls_le _ (let '_ := ?x in _) => destruct x
    end
  | progress (unfold await, now, new_ref, signal_reschedule, ensure_scheduler, remove_artifacts, is_revoked,
      set_guard, action_guard, guard_check, guard_check_observation, insert_discovery, discovery_expiry,
      issue_clipboard_ref, invalidate_observation)
  | solve [quiet] ].

Lemma calls_record_applications n l t text : calls_le n (record_applications (E := E) rt l t text).
Proof. revert n. induction l as [|a l IH]; intros n; cbn [record_applications]; repeat one; quiet. Qed.
Lemma calls_record_launchable n l t text : calls_le n (record_launchable (E := E) rt l t text).
Proof. revert n. induction l as [|a l IH]; intros n; cbn [record_launchable]; repeat one; quiet. Qed.
#[local] Hint Resolve calls_record_applications calls_record_launchable : calls.

Lemma calls_discover_applications n : calls_le n (discover_applications (E := E) rt).
Proof. unfold discover_applications. repeat one. Qed.
Lemma calls_discover_launchable n : calls_le n (discover_launchable_applications (E := E) rt).
Proof. unfold discover_launchable_applications. repeat one. Qed.
Lemma calls_admit_launch n input : calls_le n (admit_launch (E := E) rt input).
Proof. unfold admit_launch, resolve_launch_ref. repeat one. Qed.
Lemma calls_project_launched n l : calls_le n (project_launched_application (E := E) rt l).
Proof. unfold project_launched_application. repeat one. Qed.
Lemma calls_open_session n m : calls_le n (open_session (E := E) rt m).
Proof. unfold open_session, resolve_discovery_refs. repeat one. Qed.
Lemma calls_close_session n id : calls_le n (close_session fs id).
Proof. unfold close_session. repeat one. Qed.
Lemma calls_list_apps n id : calls_le n (list_apps fs id).
Proof. unfold list_apps. repeat one. Qed.
Lemma calls_list_windows n i : calls_le n (list_windows fs i).
Proof. unfold list_windows. repeat one. Qed.
Lemma calls_list_displays n id : calls_le n (list_displays fs rt id).
Proof. unfold list_displays. repeat one. Qed.
Lemma calls_read_clipboard n id : calls_le n (read_clipboard fs rt id).
Proof. unfold read_clipboard, with_clipboard_lane. repeat one. Qed.
Lemma calls_observe_display n i : calls_le n (observe_display fs i).
Proof. unfold observe_display. repeat one. Qed.
Lemma calls_observe_window n i scene : calls_le n (observe_window fs rt i scene).
Proof. unfold observe_window, authorized_window, observe_driver_window. repeat one. Qed.
Lemma calls_verify_state n i : calls_le n (verify_state fs i).
Proof. unfold verify_state, authorized_window. repeat one. Qed.

Lemma calls_check_authority n id a : calls_le n (check_authority (E := E) id a).
Proof. unfold check_authority. repeat one. Qed.
Lemma calls_admit_action n s lease i : calls_le n (admit_action (E := E) rt s lease i).
Proof. unfold admit_action, verify_current. repeat one. Qed.
Lemma calls_observe_after n i scene : calls_le n (observe_after_action fs rt i scene).
Proof. unfold observe_after_action. apply calls_quiet; [repeat one | intros _; apply calls_observe_window]. Qed.
Lemma calls_invalidate_in n ids a : calls_le n (invalidate_generation_in (E := E) ids a).
Proof. revert n. induction ids as [|id ids IH]; intros n; cbn [invalidate_generation_in]; repeat one; quiet. Qed.
#[local] Hint Resolve calls_check_authority calls_admit_action calls_observe_after calls_invalidate_in
  calls_admit_launch calls_project_launched : calls.
Lemma calls_invalidate_after n id r a b x : calls_le n (invalidate_after_action_attempt (E := E) id r a b x).
Proof. unfold invalidate_after_action_attempt, invalidate_application_generation. repeat one. Qed.
#[local] Hint Resolve calls_invalidate_after : calls.

Lemma calls_dispatch_action s lease i p : calls_le 1 (dispatch_action (E := E) s lease i p).
Proof. unfold dispatch_action. apply calls_after; [apply calls_dispatch|]. intros r. repeat one. Qed.

Lemma calls_perform_action_only i : calls_le 1 (perform_action_only fs rt i).
Proof.
  unfold perform_action_only. apply calls_quiet; [quiet|]. intros s. apply calls_quiet; [quiet|]. intros _.
  apply calls_quiet; [repeat one|]. intros lease. cbv zeta. apply calls_quiet.
  - apply calls_on_error. unfold acquire_foreground_lane. repeat one.
  - intros _. apply calls_finally, calls_quiet; [quiet|]. intros p. apply calls_dispatch_action.
Qed.

Lemma calls_perform_action i : calls_le 1 (perform_action fs rt i).
Proof.
  unfold perform_action. apply calls_quiet; [quiet|]. intros _. apply calls_after; [apply calls_perform_action_only|].
  intros r. repeat one.
Qed.

Lemma calls_launch_application i : calls_le 1 (launch_application (E := E) rt i).
Proof.
  unfold launch_application. apply calls_quiet; [quiet|]. intros [current running].
  apply calls_after; [apply calls_dispatch|]. intros r. repeat one.
Qed.

Lemma calls_write_clipboard i : calls_le 1 (write_clipboard fs rt i).
Proof.
  unfold write_clipboard, with_clipboard_lane. cbv zeta. do 4 (apply calls_quiet; [quiet|]; intros ?).
  destruct (_ : bool); [quiet|]. apply calls_quiet; [quiet|]. intros _. apply calls_finally.
  do 2 (apply calls_quiet; [quiet|]; intros ?).
  apply calls_after; [apply calls_from_driver, calls_dispatch|]. intros r. repeat one.
Qed.

(** Reads make no dispatch and a mutation makes at most one. *)
Lemma calls_run_command c : calls_le (if is_policy_mutation c then 1 else 0) (run_command fs rt c).
Proof.
  destruct c; cbn [run_command is_policy_mutation];
    eauto using calls_map_err, calls_launch_application, calls_write_clipboard, calls_perform_action,
      calls_discover_applications, calls_discover_launchable, calls_open_session, calls_close_session,
      calls_list_apps, calls_list_windows, calls_list_displays, calls_read_clipboard, calls_observe_display,
      calls_observe_window, calls_verify_state; repeat one.
Qed.

Lemma calls_execute c : calls_le (if is_policy_mutation c then 1 else 0) (execute fs rt c).
Proof.
  unfold execute, await. apply calls_quiet; [quiet|]. intros _. apply calls_quiet; [quiet|]. intros closed.
  destruct closed; [quiet|].
  apply calls_quiet; [quiet|]. intros _. apply calls_quiet; [repeat one | intros _; apply calls_run_command].
Qed.

End CommandCounts.

(** * What an error says about the dispatch *)

Section Reports.
Context {E : Type} `{!DesktopDriver E, !Executor E, !HashOrder, !UuidSource}.
Context (fs : ArtifactEnv E) (rt : Runtime).

(** The driver itself answered the dispatch [x] with an error it marked as not
    dispatched. *)
Definition refused (x : World E * DriverCall) : Prop :=
  match x.2 with
  | CallPerformAction window action foreground restore id lease observed_at => exists e,
      (drv_perform_action_scoped window action foreground restore id lease observed_at x.1).2 = Err e /\
      de_mutation_status e = NotDispatched
  | CallLaunchApplication a foreground => exists e,
      (drv_launch_application a foreground x.1).2 = Err e /\ de_mutation_status e = NotDispatched
  | CallWriteClipboard marker text bound => exists e,
      (drv_write_clipboard marker text bound x.1).2 = Err e /\ de_mutation_status e = NotDispatched
  | _ => False
  end.

(** An error that is not [Indeterminate] comes with no dispatch but refused ones. *)
Definition truthful {A} (m : M E A) : Prop :=
  forall w w' t e, m w = (w', t, Returned (Err e)) -> mutation_status e <> Indeterminate ->
    forall x, x ∈ t -> is_dispatch x.2 = true -> refused x.

Lemma quiet_trace {A} (m : M E A) w x : calls_le 0 m -> x ∈ (m w).1.2 -> is_dispatch x.2 = false.
Proof.
  intros Hm Hx. specialize (Hm w). unfold dispatches in Hm. destruct (is_dispatch x.2) eqn:Ed; [exfalso|done].
  assert (Hin : In x (List.filter (fun x => is_dispatch x.2) (m w).1.2)).
  { apply filter_In. split; [by apply list_elem_of_In | done]. }
  destruct (List.filter _ _); [done | cbn in Hm; lia].
Qed.

Lemma truthful_quiet {A} (m : M E A) : calls_le 0 m -> truthful m.
Proof.
  intros Hm w w' t e He _ x Hx Hd. pose proof (quiet_trace m w x Hm) as Hq. rewrite He in Hq.
  rewrite (Hq Hx) in Hd. done.
Qed.

Lemma truthful_bind {A B} (m : M E A) (k : A -> M E B) :
  calls_le 0 m -> (forall a, truthful (k a)) -> truthful (bind m k).
Proof.
  intros Hm Hk w w' t e. pose proof (fun x => quiet_trace m w x Hm) as Hq. pose proof (truthful_quiet m Hm w) as Ht.
  unfold bind. destruct (m w) as [[w1 t1] [[a|e1]|]]; cbn in Hq; [| |done].
  - destruct (k a w1) as [[w2 t2] r] eqn:Ek. intros [= <- <- ->] Hs x [Hx|Hx]%elem_of_app Hd.
    + rewrite (Hq x Hx) in Hd. done.
    + by eapply Hk.
  - intros [= <- <- <-]. by eapply Ht.
Qed.

Lemma truthful_finally {A} (m : M E A) f : truthful m -> truthful (finally m f).
Proof.
  intros Hm w w' t e. unfold finally. destruct (m w) as [[w1 t1] r] eqn:Em. intros [= _ <- ->]. by eapply Hm.
Qed.

(** A continuation that never fails leaves the report to the first part. *)
Lemma truthful_then {A B} (m : M E A) (k : A -> M E B) :
  truthful m -> (forall a w w' t e, k a w <> (w', t, Returned (Err e))) -> truthful (bind m k).
Proof.
  intros Hm Hk w w' t e. unfold bind. destruct (m w) as [[w1 t1] [[a|e1]|]] eqn:Em; [| |done].
  - destruct (k a w1) as [[w2 t2] r] eqn:Ek. intros [= <- <- ->]. by apply Hk in Ek.
  - intros [= <- <- <-]. by eapply Hm.
Qed.

Lemma admitted_refused {A} (r : Result A DriverError) e :
  admitted_result r = Err e -> mutation_status e <> Indeterminate ->
  exists de, r = Err de /\ de_mutation_status de = NotDispatched.
Proof.
  destruct r as [a|de]; [done|]. cbn. intros [= <-]. unfold admitted_result, cua_error_from. cbn.
  destruct (de_mutation_status de) eqn:Es; cbn; rewrite ?Es; [done | eauto | done].
Qed.

Lemma project_output_indeterminate s a b o e :
  project_action_output s a b o = Err e -> mutation_status e = Indeterminate.
Proof.
  unfold project_action_output.
  intros [[_ ->]%ensure_not_Err|(? & _ & [[_ ->]%ensure_not_Err|(? & _ & [[_ ->]%ensure_not_Err|(? & _ & Hx)]%rbind_Err)]%rbind_Err)]%rbind_Err;
    done.
Qed.

Lemma invalidate_after_total id r a b x w w' t e :
  invalidate_after_action_attempt (E := E) id r a b x w <> (w', t, Returned (Err e)).
Proof.
  assert (Hl : forall A id f w w' t e, lock_state (E := E) (A := A) id f w <> (w', t, Returned (Err e))).
  { intros A i f v v' t' e'. unfold lock_state, await, deref, bind, modify. destruct (w_heap _ !! _); [|done].
    by destruct (f _ _ _) as [[? ?] ?]. }
  assert (Hg : forall ids w w' t e, invalidate_generation_in (E := E) ids a w <> (w', t, Returned (Err e))).
  { induction ids as [|i ids IH]; intros v v' t' e'; cbn [invalidate_generation_in]; [done|]. unfold bind at 1.
    destruct (lock_state _ _ v) as [[v1 t1] [[u|e1]|]] eqn:El; [| by apply Hl in El | done].
    destruct (invalidate_generation_in ids a v1) as [[v2 t2] r2] eqn:Ei. intros [= _ _ ->]. by apply IH in Ei. }
  unfold invalidate_after_action_attempt. cbv zeta. destruct (_ && _); [|apply Hl].
  unfold invalidate_application_generation, await, modify, read. unfold bind at 1 2 3 4. cbv beta zeta iota.
  destruct (invalidate_generation_in _ _ _) as [[v2 t2] r2] eqn:Ei. intros [= _ _ ->]. by apply Hg in Ei.
Qed.

Lemma truthful_dispatch_action s lease input p : truthful (dispatch_action (E := E) s lease input p).
Proof.
  intros w w' t e. unfold dispatch_action. cbv zeta. unfold bind at 1, call.
  destruct (drv_perform_action_scoped _ _ _ _ _ _ _ w) as [w1 r] eqn:Ed.
  unfold bind at 1. destruct (invalidate_after_action_attempt _ _ _ _ _ w1) as [[w2 t2] [[u|e2]|]] eqn:Ei;
    [| by apply invalidate_after_total in Ei | done].
  pose proof (fun x => quiet_trace (invalidate_after_action_attempt (pa_session_id input) (pa_window_ref input)
    (dw_application (pr_window p)) (bool_decide (action_kind (pa_action input) = KTerminateApplication)) r) w1 x
    (calls_invalidate_after 0 _ _ _ _ _)) as Hq. rewrite Ei in Hq. cbn in Hq.
  unfold bind, lift. intros He Hs. assert (Hr : exists de, r = Err de /\ de_mutation_status de = NotDispatched).
  { destruct (admitted_action_result r) as [o|e1] eqn:Ea; [exfalso | injection He as _ _ <-; by eapply admitted_refused].
    injection He as _ _ He. by apply project_output_indeterminate in He. }
  destruct Hr as (de & -> & Hde). intros x Hx Hd.
  assert (Ht : t = (w, CallPerformAction (pr_window p) (pr_action p) (allow_foreground_input (se_manifest s))
    (restore_foreground_after_input (se_manifest s)) (pa_session_id input) lease (Some (pr_observed_at p))) :: t2 ++ []).
  { destruct (admitted_action_result _); injection He as _ <- _; by rewrite ?app_nil_r. }
  subst t. apply elem_of_cons in Hx as [->|Hx]; [cbn; rewrite Ed; eauto|]. rewrite app_nil_r in Hx.
  by rewrite (Hq x Hx) in Hd.
Qed.

End Reports.

(** * A concrete desktop

    One application with one window and a clipboard; every driver method
    answers at once, and no other task runs. *)

Definition demo_application : DriverApplication := sample_application "pid 1".

Definition demo_window : DriverWindow :=
  {| dw_key := "window 1"; dw_application := demo_application; dw_title := "title";
     dw_screen_bounds := {| sr_x := F0; sr_y := F0; sr_width := F1000; sr_height := F1000 |};
     dw_state := WNormal; dw_visible := true; dw_foreground := true |}.

Definition demo_observation : DriverObservation :=
  {| dob_window_key := "window 1"; dob_window_screen_bounds := dw_screen_bounds demo_window;
     dob_screenshot := None; dob_screenshot_screen_bounds := None; dob_elements := [];
     dob_elements_complete := true; dob_elements_truncation := None; dob_fingerprint := "f" |}.

Definition Files := gmap string (list Z).

(** An answer that leaves the state alone. *)
Definition answer {A} (a : A) (w : World Files) : World Files * Result A DriverError := (w, Ok a).
Definition unsupported {A} (w : World Files) : World Files * Result A DriverError :=
  (w, Err (driver_error DUnsupported "unsupported")).

Definition demo_driver_with
    (perform : Result DriverActionOutput DriverError)
    (write : Result DriverClipboardWriteOutput DriverError) : DesktopDriver Files := {|
  drv_capabilities := unsupported;
  drv_permission_status := unsupported;
  drv_list_applications := answer [demo_application];
  drv_list_launchable_applications := answer [];
  drv_launch_application := fun _ _ => unsupported;
  drv_session_started_guarded := fun _ _ _ => answer tt;
  drv_session_closed := fun _ w => w;
  drv_list_windows := fun _ => answer [demo_window];
  drv_list_displays := answer [];
  drv_observe_display := fun _ => unsupported;
  drv_observe_window_scoped := fun _ _ _ _ => answer demo_observation;
  drv_observe_application_scene_scoped := fun _ _ _ _ => unsupported;
  drv_settle_window := fun _ _ => answer tt;
  drv_read_clipboard := fun _ => answer {| dcs_change_marker := "m1"; dcs_text := Some "text"%string |};
  drv_write_clipboard := fun _ _ _ w => (w, write);
  drv_observation_is_current := fun _ _ => answer true;
  drv_perform_action_scoped := fun _ _ _ _ _ _ _ w => (w, perform);
  drv_verify_state := fun _ _ => unsupported;
|}.

#[local] Instance demo_driver : DesktopDriver Files :=
  demo_driver_with (Ok (unverified Background))
    (Ok {| dcw_change_marker := "m2"; dcw_effect_status := Confirmed; dcw_evidence_kind := NativeReadback |}).

(** Time passes only in sleeps. *)
#[local] Instance demo_executor : Executor Files := {|
  yield := fun w => w;
  sleep := fun d w => {| w with w_now := w_now w + Z.max 0 d |};
  await_permit := fun w => w;
  select_deadline := fun d w => ({| w with w_now := Z.max (w_now w) d |}, true);
  await_signal := fun w => w;
  format_rfc3339 := fun _ => Some "time"%string;
|}.

#[local] Existing Instance map_to_list_order.
#[local] Existing Instance unary_uuids.

Definition demo_runtime : Runtime := {| config := config_new "root"; epoch := "runtime_0" |}.

Definition demo_start : World Files := {|
  w_env := ∅; w_now := 0; w_wall := 0; w_uuid := 0; w_discovery := ∅; w_launch_discovery := ∅;
  w_sessions := ∅; w_heap := ∅;
  w_artifacts := {| as_root := "root"; as_max_image_pixels := 100000000; as_max_image_edge := 1568;
                    as_max_artifacts_per_session := 32; as_artifacts := ∅; as_poisoned := false |};
  w_artifact_workers := 2; w_scheduler := None; w_scheduler_poisoned := false;
  w_foreground_busy := false; w_clipboard_busy := false; w_closed := false;
|}.

(** Running commands one after the other. *)
Fixpoint run_all `{!DesktopDriver Files} (cs : list Command) (w : World Files) : World Files :=
  match cs with
  | [] => w
  | c :: cs' => run_all cs' (execute memory_env demo_runtime c w).1.1
  end.

Definition demo_manifest : CapabilityManifest := {|
  mode := Bounded; application_refs := [fresh_ref "discovery_" 0]; allowed_actions := [KFocusElement; KTerminateApplication];
  allow_foreground_input := false; restore_foreground_after_input := false; allow_display_capture := false;
  allow_clipboard_read := true; allow_clipboard_write := true; ttl_seconds := 60;
|}.

Definition demo_session : SessionId := fresh_ref "session_" 1.
Definition demo_window_ref : WindowRef := fresh_ref "window_" 3.
Definition demo_observation_id : ObservationId := fresh_ref "observation_" 4.

Definition demo_commands : list Command :=
  [ DiscoverApplications; OpenSession demo_manifest; ListWindows {| lw_session_id := demo_session; lw_app_ref := None |};
    ObserveWindow {| ow_session_id := demo_session; ow_window_ref := demo_window_ref;
                     ow_include_screenshot := false; ow_accessibility := AxDisabled |} ].

(** The desktop with a session, a window and a fresh observation of it. *)
Definition demo_world : World Files := run_all demo_commands demo_start.

Definition demo_action : PerformActionInput :=
  {| pa_observe_after := None; pa_session_id := demo_session; pa_window_ref := demo_window_ref;
     pa_observation_id := demo_observation_id; pa_action := TerminateApplication |}.

Lemma demo_config : config_ok (config demo_runtime).
Proof. by split. Qed.

Lemma demo_preserves (f : World Files -> World Files) : (forall w, w_now w <= w_now (f w) /\ f w = {| w with w_now := w_now (f w) |}) ->
  preserves demo_runtime f.
Proof.
  intros Hf w Hi. destruct (Hf w) as [Hn He]. pose proof Hi as [? ? ? ? ? ? ?].
  rewrite He. apply (same_core demo_runtime w); done.
Qed.

Lemma demo_lawful perform write : @Lawful Files (demo_driver_with perform write) demo_executor unary_uuids demo_runtime.
Proof.
  split; [apply demo_config | |].
  - split; try (intros; apply demo_preserves; intros w; split; [cbn; lia | by destruct w]); try done.
    intros id lease b w s _ Hs Hc. by exists s.
  - split; try (intros; apply demo_preserves; intros w; split; [cbn; lia | by destruct w]).
    intros d w. cbn. lia.
Qed.

Lemma demo_start_inv : Inv demo_runtime demo_start.
Proof. by split; cbn; intros; rewrite ?lookup_empty in *; try done; destruct H. Qed.

Lemma run_all_inv perform write cs w :
  Inv demo_runtime w -> Inv demo_runtime (@run_all (demo_driver_with perform write) cs w).
Proof.
  revert w. induction cs as [|c cs IH]; intros w Hi; cbn [run_all]; [done|]. apply IH.
  pose proof (run_execute memory_env demo_runtime (demo_lawful perform write) w c w Hi ltac:(by split)) as Hr.
  by destruct (execute memory_env demo_runtime c w) as [[w' t] r], Hr as [? _].
Qed.

Lemma demo_world_inv : Inv demo_runtime demo_world.
Proof. apply run_all_inv, demo_start_inv. Qed.

Example demo_dispatches :
  is_dispatch <$> (execute memory_env demo_runtime (PerformAction demo_action) demo_world).1.2.*2 = [false; true].
Proof. vm_compute. reflexivity. Qed.

(** * Properties *)

Section Properties.
Context {E : Type} `{!DesktopDriver E, !Executor E, !HashOrder, !UuidSource}.
Context (fs : ArtifactEnv E) (rt : Runtime).

(** The facts [run_execute] gives of one run. *)
Lemma execute_run c w w' t r :
  Lawful rt -> Inv rt w -> execute fs rt c w = (w', t, r) ->
  Inv rt w' /\ Step w w' /\ (forall x, x ∈ t -> Inv rt x.1 /\ Step w x.1 /\ Step x.1 w' /\ authorized rt w c x) /\
  r <> Panicked.
Proof.
  intros Hlaw Hi He. pose proof (run_execute fs rt Hlaw w c w Hi ltac:(by split)) as Hr. rewrite He in Hr.
  destruct Hr as (? & ? & ? & Hr). do 3 (split; [done|]). by destruct r as [[|]|].
Qed.

(** C4: the invariant of the runtime.  Over any lawful driver and executor,
    every command keeps the bounds of the tables, the consistency of every
    session and the step relation (revocation and interruption are latched, an
    observation never becomes valid again, a consumed clipboard guard and a
    closed session never come back), and it never panics. *)
Theorem execute_preserves_invariant c w w' t r :
  Lawful rt -> Inv rt w -> execute fs rt c w = (w', t, r) -> Inv rt w' /\ Step w w' /\ r <> Panicked.
Proof. intros Hlaw Hi He. by destruct (execute_run _ _ _ _ _ Hlaw Hi He) as (? & ? & _ & ?). Qed.

(** C1: every driver call is authorized.  A command reaches the driver only
    with the authority of its session: windows in the session's scope, display
    capture and clipboard only as granted, a launch only after its reference
    was consumed, and a native action only when the manifest allows it, the
    guard is open, unexpired and uninterrupted, no input followed the
    observation, and the observation was valid and is now claimed. *)
Theorem driver_calls_authorized c w w' t r x :
  Lawful rt -> Inv rt w -> execute fs rt c w = (w', t, r) -> x ∈ t -> authorized rt w c x.
Proof.
  intros Hlaw Hi He Hx. destruct (execute_run _ _ _ _ _ Hlaw Hi He) as (_ & _ & Ht & _).
  by destruct (Ht x Hx) as (_ & _ & _ & ?).
Qed.

(** C8: at most one dispatch per command.  Whatever the driver, the other tasks
    and the state do, a mutation makes at most one native dispatch and every
    other command makes none. *)
Theorem dispatch_at_most_once c w :
  (dispatches (execute fs rt c w).1.2 <= if is_policy_mutation c then 1 else 0)%nat.
Proof. apply calls_execute. Qed.

(** The dispatches a perform request makes are native actions. *)
Lemma perform_dispatch input w w' t r x :
  Lawful rt -> Inv rt w -> execute fs rt (PerformAction input) w = (w', t, r) -> x ∈ t -> is_dispatch x.2 = true ->
  Step w x.1 /\ Step x.1 w' /\ exists live window action foreground restore lease ob,
    w_heap x.1 !! pa_session_id input = Some live /\
    dispatchable w input x.1 live window action foreground restore lease ob.
Proof.
  intros Hlaw Hi He Hx Hd. destruct (execute_run _ _ _ _ _ Hlaw Hi He) as (_ & _ & Ht & _).
  destruct (Ht x Hx) as (_ & S1 & S2 & Ha). split; [done|]. split; [done|]. destruct x as [v call_].
  destruct call_; try done; cbn in Ha.
  - by destruct Ha as (? & ? & _).
  - by destruct Ha as (? & ? & _).
  - destruct Ha as (input' & [= <-] & _ & id & live & [= <-] & Hl & Hdi). eauto 10.
Qed.

(** C3: an observation authorizes one dispatch.  Once a perform request has
    dispatched under an observation, no perform request that starts later
    dispatches under it, whatever happened in between. *)
Theorem observation_dispatched_once input1 input2 w1 w1' t1 r1 x1 w2 w2' t2 r2 x2 :
  Lawful rt -> Inv rt w1 -> execute fs rt (PerformAction input1) w1 = (w1', t1, r1) ->
  x1 ∈ t1 -> is_dispatch x1.2 = true ->
  Inv rt w2 -> Step w1' w2 -> execute fs rt (PerformAction input2) w2 = (w2', t2, r2) ->
  pa_session_id input2 = pa_session_id input1 -> pa_observation_id input2 = pa_observation_id input1 ->
  x2 ∈ t2 -> is_dispatch x2.2 = false.
Proof.
  intros Hlaw Hi1 He1 Hx1 Hd1 Hi2 Hs He2 Hsid Hoid Hx2. apply not_true_iff_false. intros Hd2.
  destruct (perform_dispatch _ _ _ _ _ _ Hlaw Hi1 He1 Hx1 Hd1) as (_ & S1 & live & ? & ? & ? & ? & ? & ? & Hl & D1).
  destruct (perform_dispatch _ _ _ _ _ _ Hlaw Hi2 He2 Hx2 Hd2) as (_ & _ & ? & ? & ? & ? & ? & ? & ? & _ & D2).
  destruct (di_drawn _ _ _ _ _ _ _ _ _ _ D1) as (i & Hi & Ho). assert (S12 : Step x1.1 w2) by (by etrans).
  destruct (g_heap _ _ S12 _ _ Hl) as (s2 & Hs2 & Hst). pose proof (g_uuid _ _ S12).
  destruct (di_was_valid _ _ _ _ _ _ _ _ _ _ D2 s2 i) as (o2 & Ho2 & Hv2); [by rewrite Hsid | lia | congruence |].
  rewrite Hoid, Ho in Ho2.
  destruct (ss_observations _ _ _ (ss_state _ _ _ Hst) i o2 Hi Ho2) as (o & Hob & _ & Hv).
  rewrite <- Ho in Hob. by apply (di_claimed _ _ _ _ _ _ _ _ _ _ D1 o Hob), Hv.
Qed.

(** Revocation stops actions.  Once a session is closed, expired or
    interrupted by the user, no perform request on it dispatches anything. *)
Theorem revoked_session_never_dispatches input w w' t r s x :
  Lawful rt -> Inv rt w -> w_heap w !! pa_session_id input = Some s ->
  se_closed s = true \/ se_expires_at s <= w_now w \/ gs_interruption (se_guard s) <> 0 ->
  execute fs rt (PerformAction input) w = (w', t, r) -> x ∈ t -> is_dispatch x.2 = false.
Proof.
  intros Hlaw Hi Hs Hrev He Hx. apply not_true_iff_false. intros Hd.
  destruct (perform_dispatch _ _ _ _ _ _ Hlaw Hi He Hx Hd) as (S1 & _ & live & ? & ? & ? & ? & lease & ? & Hl & D).
  destruct (g_heap _ _ S1 _ _ Hs) as (live' & Hl' & Hst). assert (live' = live) as -> by congruence.
  pose proof (di_guard _ _ _ _ _ _ _ _ _ _ D) as Hg. unfold check in Hg.
  destruct (gs_closed (se_guard live) || (gs_expires_at (se_guard live) <=? w_now x.1)) eqn:Ec; [done|].
  apply orb_false_iff in Ec as [Ec Et]. apply Z.leb_gt in Et.
  destruct (Z.eqb_spec (gs_interruption (se_guard live)) 0) as [Ei|]; [|done].
  destruct Hrev as [Hc|[Hexp|Hint]].
  - apply (ss_closed _ _ _ Hst) in Hc. unfold se_closed in Hc. congruence.
  - pose proof (ss_expires _ _ _ Hst) as Hx2. pose proof (g_now _ _ S1). unfold se_expires_at in *. lia.
  - pose proof (ss_interrupted _ _ _ Hst Hint). congruence.
Qed.

(** C7: a not-dispatched report is true.  When a perform request fails with the
    status [NotDispatched], the native dispatch was never called, or the driver
    itself refused it with that status. *)
Theorem not_dispatched_truthful input w w' t e x :
  execute fs rt (PerformAction input) w = (w', t, Returned (Err e)) -> mutation_status e = NotDispatched ->
  x ∈ t -> is_dispatch x.2 = true -> refused x.
Proof.
  assert (Hmark : truthful (map_err mark_not_dispatched (perform_action fs rt input))).
  { assert (Hp : truthful (perform_action fs rt input)).
    { unfold perform_action. cbv zeta. apply truthful_bind; [quiet|]. intros _. apply truthful_then.
      - unfold perform_action_only. apply truthful_bind; [apply calls_session|]. intros s.
        apply truthful_bind; [apply calls_check_authority|]. intros _.
        apply truthful_bind; [unfold action_guard, set_guard; quiet|]. intros lease.
        cbv zeta. apply truthful_bind; [apply calls_on_error; unfold acquire_foreground_lane; quiet|].
        intros _. apply truthful_finally, truthful_bind; [apply calls_on_error, calls_admit_action|].
        intros p. apply truthful_dispatch_action.
      - intros result v v' t' e'. destruct result; try done. destruct (after_command input) as [[oi scene]|]; [|done].
        unfold bind, reify. destruct (observe_after_action fs rt oi scene v) as [[v1 t1] [[a|e1]|]]; [|done|done].
        by destruct a. }
    intros v v' t' e'. unfold map_err. destruct (perform_action fs rt input v) as [[v1 t1] [[a|e1]|]] eqn:Ep; [done| |done].
    intros [= <- <- <-] Hs. apply (Hp v v1 t1 e1 Ep). unfold mark_not_dispatched in Hs.
    destruct (mutation_status e1) eqn:Es; congruence. }
  assert (Hexec : truthful (execute fs rt (PerformAction input))).
  { unfold execute, await. apply truthful_bind; [quiet|]. intros _. apply truthful_bind; [quiet|].
    intros []; [apply truthful_quiet; quiet|]. apply truthful_bind; [quiet|]. intros _.
    apply truthful_bind; [unfold ensure_scheduler; quiet|]. intros _. exact Hmark. }
  intros He Hs. apply (Hexec w w' t e He). congruence.
Qed.

(** ** Sessions that are gone *)

(** The lookup of a closed session that left the table fails at once. *)
Lemma session_gone id w s :
  Lawful rt -> Inv rt w -> w_heap w !! id = Some s -> se_closed s = true -> w_sessions w !! id = None ->
  session fs id w = (yield w, [], Returned (Err session_unavailable)).
Proof.
  intros Hlaw Hi Hs Hc Ht. destruct (law_yield rt (law_executor rt Hlaw) w Hi) as [_ S].
  unfold session, await, bind, modify, read. destruct (w_sessions (yield w) !! id) eqn:Ey; [exfalso|done].
  destruct (g_table _ _ S _ _ Hs Hc) as [? Hx]; [eauto | congruence].
Qed.

Lemma bind_fails {A B} (m : M E A) (k : A -> M E B) w w' t e :
  m w = (w', t, Returned (Err e)) -> bind m k w = (w', t, Returned (Err e)).
Proof. unfold bind. by intros ->. Qed.

(** [m] fails in [w] without calling the driver. *)
Definition fails_quietly {A} (m : M E A) w : Prop := exists w' e, m w = (w', [], Returned (Err e)).

Lemma fails_bind {A B} (m : M E A) (k : A -> M E B) w : fails_quietly m w -> fails_quietly (bind m k) w.
Proof. intros (w' & e & He). exists w', e. by apply bind_fails. Qed.

Lemma fails_map_err {A} f (m : M E A) w : fails_quietly m w -> fails_quietly (map_err f m) w.
Proof. intros (w' & e & He). exists w', (f e). unfold map_err. by rewrite He. Qed.

Lemma fails_lift {A B} (r : Result A CuaError) (k : A -> M E B) w :
  (forall a, fails_quietly (k a) w) -> fails_quietly (bind (lift r) k) w.
Proof.
  intros Hk. destruct r as [a|e]; [|by exists w, e].
  destruct (Hk a) as (w' & e & He). exists w', e. unfold bind, lift. by rewrite He.
Qed.

Lemma run_command_gone c id w s :
  Lawful rt -> Inv rt w -> command_session c = Some id ->
  w_heap w !! id = Some s -> se_closed s = true -> w_sessions w !! id = None -> fails_quietly (run_command fs rt c) w.
Proof.
  intros Hlaw Hi Hc Hs Hcl Ht.
  assert (Hgone : fails_quietly (session fs id) w) by (eexists _, _; by eapply session_gone).
  destruct c; try done; cbn [run_command command_session] in *; injection Hc as Hc; subst id;
    repeat apply fails_map_err; try (by apply fails_bind).
  - destruct (law_yield rt (law_executor rt Hlaw) w Hi) as [_ S].
    assert (Ey : w_sessions (yield w) !! session_id = None).
    { destruct (w_sessions (yield w) !! session_id) eqn:Ey; [exfalso|done].
      destruct (g_table _ _ S _ _ Hs Hcl) as [? Hx]; [eauto | congruence]. }
    unfold fails_quietly, close_session, await, bind, modify, read, lift. rewrite Ey. by eexists _, _.
  - unfold perform_action. cbv zeta. apply fails_lift. intros _. apply fails_bind. by apply fails_bind.
Qed.

(** A closed session is unreachable.  After a session was closed and left
    the table, every later command that names it fails without calling the
    driver, whatever happened in between. *)
Theorem closed_session_unreachable c id w0 w s :
  Lawful rt -> Inv rt w0 -> Inv rt w -> Step w0 w ->
  w_heap w0 !! id = Some s -> se_closed s = true -> w_sessions w0 !! id = None ->
  command_session c = Some id -> exists w' e, execute fs rt c w = (w', [], Returned (Err e)).
Proof.
  intros Hlaw Hi0 Hi S0 Hs Hcl Ht Hc. destruct (law_yield rt (law_executor rt Hlaw) w Hi) as [Hy Sy].
  assert (S : Step w0 (yield w)) by (by etrans).
  change (fails_quietly (execute fs rt c) w). unfold execute, await, fails_quietly.
  unfold bind at 1, modify. unfold bind at 1, read. destruct (w_closed (yield w)); [by eexists _, _|].
  destruct (stack_authorize _ _) as [[]|e]; [|by eexists _, _]. unfold bind at 1, lift.
  destruct (g_heap _ _ S _ _ Hs) as (s' & Hs' & Hst).
  set (w2 := match w_scheduler (yield w) with Some _ => yield w | None => {| (yield w) with w_scheduler := Some Reschedule |} end).
  assert (Hcore : Inv rt w2 /\ w_heap w2 = w_heap (yield w) /\ w_sessions w2 = w_sessions (yield w)).
  { unfold w2. destruct (w_scheduler (yield w)); [done|]. split; [|done]. pose proof Hy as [? ? ? ? ? ? ?].
    by apply (same_core rt (yield w)). }
  destruct Hcore as (Hi2 & Eh & Et).
  destruct (run_command_gone c id w2 s') as (w' & e & He); try done.
  { by rewrite Eh. } { by apply Hst. }
  { rewrite Et. destruct (w_sessions (yield w) !! id) eqn:Ey; [exfalso|done].
    destruct (g_table _ _ S _ _ Hs Hcl) as [? Hx]; [eauto | congruence]. }
  unfold bind at 1, ensure_scheduler, bind, read, modify, lift. destruct (w_scheduler_poisoned (yield w)); cbn; [by eexists _, _|].
  fold w2. rewrite He. by eexists _, _.
Qed.

(** A session has the scope it was opened for.  When opening a session
    succeeds, the policy and the manifest rules allowed it, its identifier is
    new, it is in the table, open, with the manifest's authority and lifetime,
    and its applications are exactly the process generations the references of
    the manifest were discovered for, unexpired, still running, all distinct. *)
Theorem opened_session_scope m w w' t r :
  Lawful rt -> Inv rt w -> execute fs rt (OpenSession m) w = (w', t, Returned (Ok r)) ->
  stack_authorize (policy (config rt)) (OpenSession m) = Ok tt /\
  exists out live t0, r = RSessionOpened out /\ opened rt w m (os_session_id out) w' live t0.
Proof.
  intros Hlaw Hi He.
  pose proof (spec_execute fs rt Hlaw w (OpenSession m) (fun r w' =>
    stack_authorize (policy (config rt)) (OpenSession m) = Ok tt /\
    exists out live t0, r = RSessionOpened out /\ opened rt w m (os_session_id out) w' live t0)) as Hs.
  specialize (Hs ltac:(intros Hp; eapply spec_weaken; [apply (opens_session rt Hlaw w) | done..]) w Hi ltac:(by split)).
  rewrite He in Hs. apply Hs.
Qed.

(** ** Expiry and shutdown *)

Lemma close_table id w : Lawful rt -> w_sessions (close id w).1.1 = w_sessions w.
Proof.
  intros Hlaw. unfold close, deref. destruct (w_heap w !! id) as [s|]; [|done]. destruct (se_closed s); [done|]. cbn.
  by rewrite (law_closed_table rt (law_driver rt Hlaw)).
Qed.

(** A session that [close] was called on is closed. *)
Lemma close_closes id w : Lawful rt -> Inv rt w -> is_Some (w_heap w !! id) ->
  exists s, w_heap (close id w).1.1 !! id = Some s /\ se_closed s = true.
Proof.
  intros Hlaw Hi [s Hs]. unfold close, deref. rewrite Hs. destruct (se_closed s) eqn:Ec; [by exists s|]. cbn.
  pose proof (so_id _ _ _ _ (i_heap _ _ Hi _ _ Hs)) as Hid.
  destruct (set_guard_step rt w id s (close_cell (se_guard s))) as [I1 _]; try done.
  { apply (apply_event_inv (se_guard s) EvClose); [|done]. apply (i_heap _ _ Hi _ _ Hs). }
  destruct (law_session_closed rt (law_driver rt Hlaw) id _ I1) as [_ S].
  destruct (g_heap _ _ S id {| s with se_guard := close_cell (se_guard s) |}) as (s' & Hs' & Hst).
  { unfold put_session. cbn. by rewrite Hid, lookup_insert_eq. }
  exists s'. split; [done|]. by apply Hst.
Qed.

(** Closed and out of the table: a condition that steps keep. *)
Definition gone (id : SessionId) (w : World E) : Prop :=
  w_sessions w !! id = None /\ exists s, w_heap w !! id = Some s /\ se_closed s = true.

Lemma gone_stable id : stable (gone id).
Proof.
  intros w w' S [Ht (s & Hs & Hc)]. destruct (g_heap _ _ S _ _ Hs) as (s' & Hs' & Hst).
  split; [|exists s'; split; [done | by apply Hst]].
  destruct (w_sessions w' !! id) eqn:Ex; [|done]. destruct (g_table _ _ S _ _ Hs Hc) as [? Hx]; [eauto | congruence].
Qed.

Lemma spec_close_all C ids :
  Lawful rt -> (forall w id, C (w, CallSessionClosed id)) ->
  spec rt (fun w => forall id, id ∈ ids -> is_Some (w_heap w !! id)) (close_all ids) C
    (fun _ w => forall id, id ∈ ids -> gone id w).
Proof.
  intros Hlaw HC. induction ids as [|id ids IH]; cbn [close_all]; [by apply spec_lift; intros ? ? ? ? ? ? ?%elem_of_nil|].
  set (F := fun w : World E => forall i, i ∈ id :: ids -> is_Some (w_heap w !! i)).
  assert (HF : stable F) by (intros w w' S Hw i Hin; apply (heap_stable i w w' S), Hw, Hin).
  eapply (spec_bind rt _ _ _ _ (fun _ w => w_sessions w !! id = None /\ F w)).
  { apply spec_modify; [intros w Hi _; by apply delete_session_preserves|]. intros w Hi Hw. cbn.
    rewrite lookup_delete_eq. done. }
  intros _. eapply (spec_bind rt _ _ _ _ (fun _ w => gone id w /\ F w)).
  { intros w Hi [Ht Hw]. pose proof (spec_close rt Hlaw C F id ltac:(intros v Hv; apply Hv; set_solver) ltac:(done) w Hi Hw) as Hc.
    pose proof (close_table id w Hlaw) as Htab. pose proof (close_closes id w Hlaw Hi (Hw id ltac:(set_solver))) as Hcl.
    destruct (close id w) as [[w' t] r]. cbn in Htab, Hcl. destruct Hc as (? & S & ? & Hr). do 3 (split; [done|]).
    destruct r as [[u|]|]; [|done|done]. split; [split; [by rewrite Htab | done]|]. by apply (HF w). }
  intros _. eapply (spec_weaken rt (fun w => (forall i, i ∈ ids -> is_Some (w_heap w !! i)) /\ gone id w) _ _ C _
    (fun _ w => (forall i, i ∈ ids -> gone i w) /\ gone id w)).
  - apply spec_frame; [apply gone_stable | exact IH].
  - intros w _ [Hg Hw]. split; [set_solver | done].
  - done.
  - intros [] w _ [Hids Hg] i [->|Hin]%elem_of_cons; auto.
Qed.

(** A computation that returns no error. *)
Definition total {A} (m : M E A) : Prop := forall w w' t e, m w <> (w', t, Returned (Err e)).

Lemma total_bind {A B} (m : M E A) (k : A -> M E B) : total m -> (forall a, total (k a)) -> total (bind m k).
Proof.
  intros Hm Hk w w' t e. unfold bind. specialize (Hm w). destruct (m w) as [[w1 t1] [[a|e1]|]]; [|by destruct (Hm w1 t1 e1)|done].
  specialize (Hk a w1). destruct (k a w1) as [[w2 t2] r]. intros [= _ _ ->]. by destruct (Hk w2 t2 e).
Qed.

Lemma total_modify f : total (modify (E := E) f).
Proof. by intros w w' t e. Qed.
Lemma total_read {A} (f : World E -> A) : total (read f).
Proof. by intros w w' t e. Qed.
Lemma total_ret {A} (a : A) : total (ret (E := E) a).
Proof. by intros w w' t e. Qed.

Lemma total_close id : total (close (E := E) id).
Proof. intros w w' t e. unfold close, deref. destruct (w_heap w !! id) as [s|]; [|done]. by destruct (se_closed s). Qed.

Lemma total_close_all ids : total (close_all (E := E) ids).
Proof.
  induction ids; [apply total_ret|]. apply total_bind; [apply total_modify|]. intros _.
  apply total_bind; [apply total_close | done].
Qed.

Lemma total_remove_all ids : total (remove_all_artifacts fs ids).
Proof. induction ids; [apply total_ret|]. apply total_bind; [apply total_modify | done]. Qed.

#[local] Hint Resolve total_bind total_modify total_read total_ret total_close_all total_remove_all : calls.

Lemma total_ok {A} (m : M E A) w w' t (r : Outcome A) :
  total m -> m w = (w', t, r) -> r <> Panicked -> exists a, r = Returned (Ok a).
Proof. intros Hm He Hp. destruct r as [[a|e]|]; [eauto | by apply Hm in He | done]. Qed.

(** A call of [session_closed]. *)
Definition closes (x : World E * DriverCall) : Prop := exists id, x.2 = CallSessionClosed id.

(** Expired sessions are revoked.  A round of the reaper returns, calls the
    driver only to report closed sessions, and afterwards every session that
    was in the table and due is closed and out of the table, also when other
    tasks ran meanwhile. *)
Theorem expired_sessions_reaped now_ w w' t r :
  Lawful rt -> Inv rt w -> reap_due fs now_ w = (w', t, r) ->
  r = Returned (Ok tt) /\ Inv rt w' /\ Step w w' /\ (forall x, x ∈ t -> closes x) /\
  (forall id s, is_Some (w_sessions (yield w) !! id) -> w_heap (yield w) !! id = Some s ->
     se_expires_at s <= now_ -> gone id w').
Proof.
  intros Hlaw Hi He. destruct (law_yield rt (law_executor rt Hlaw) w Hi) as [Hy Sy].
  set (due := filter (fun id => is_due now_ (yield w) id = true) (session_ids (yield w))).
  set (F := fun v => forall id, id ∈ due -> gone id v).
  assert (HF : stable F) by (intros v v' S Hv id Hid; by apply (gone_stable id v v' S), Hv).
  assert (Hs : spec rt (fun v => v = w) (reap_due fs now_) closes (fun _ v => F v)).
  { unfold reap_due. eapply (spec_bind rt _ _ _ _ (fun _ v => v = yield w)).
    { apply spec_modify; intros v Hv ->; [by apply (law_yield rt (law_executor rt Hlaw)) | done]. }
    intros _. eapply (spec_bind rt _ _ _ _ (fun ids v => v = yield w /\ ids = due)); [by apply spec_read; intros v _ ->|].
    intros ids. eapply (spec_bind rt _ _ _ _ (fun _ v => F v /\ ids = due)).
    { intros v Hv [-> ->]. pose proof (spec_close_all closes due Hlaw ltac:(intros; eexists; done) (yield w) Hy) as Hc.
      assert (Hheap : forall id, id ∈ due -> is_Some (w_heap (yield w) !! id)).
      { intros id [_ Hid]%list_elem_of_filter. by apply (i_table _ _ Hy), session_ids_elem. }
      specialize (Hc Hheap). destruct (close_all due (yield w)) as [[v1 t1] r1]. destruct Hc as (? & ? & ? & Hr). do 3 (split; [done|]).
      by destruct r1 as [[]|]. }
    intros _. apply spec_pure. intros ->. apply spec_seq; [done | by apply spec_await|]. intros _.
    apply spec_seq; [done | apply spec_preserves, drop_due_preserves|]. intros _.
    apply spec_seq; [done | by apply spec_await|]. intros _.
    apply spec_seq; [done | apply spec_preserves, drop_due_launch_preserves|]. intros _.
    eapply (spec_weaken rt (fun v => True /\ F v) _ _ closes _ (fun _ v => True /\ F v)); [|done|done|naive_solver].
    apply spec_frame; [done|]. apply spec_remove_all_artifacts. done. }
  specialize (Hs w Hi eq_refl). rewrite He in Hs. destruct Hs as (? & ? & Ht & Hr).
  destruct (total_ok (reap_due fs now_) w w' t r) as [[] ->]; [unfold reap_due, await; eauto 20 with calls | done | by intros ->|].
  do 3 (split; [done|]). split; [intros x Hx; by apply Ht|]. intros id s Hid Hs Hexp. apply Hr.
  apply list_elem_of_filter. split; [unfold is_due; rewrite Hs; by apply Z.leb_le | by apply session_ids_elem].
Qed.

Lemma close_all_table ids w : Lawful rt -> w_sessions (close_all ids w).1.1 ⊆ w_sessions w.
Proof.
  intros Hlaw. revert w. induction ids as [|id ids IH]; intros w; cbn [close_all]; [done|].
  unfold bind at 1, modify. set (w1 := {| w with w_sessions := delete id (w_sessions w) |}).
  unfold bind. pose proof (close_table id w1 Hlaw) as Ht. destruct (close id w1) as [[w2 t2] [[u|]|]]; cbn in Ht |- *;
    [|rewrite Ht; apply delete_subseteq..].
  specialize (IH w2). destruct (close_all ids w2) as [[w3 t3] r]. cbn in *. etrans; [exact IH|]. rewrite Ht. apply delete_subseteq.
Qed.

Lemma remove_all_table ids w : w_sessions (remove_all_artifacts fs ids w).1.1 = w_sessions w.
Proof.
  revert w. induction ids as [|id ids IH]; intros w; cbn [remove_all_artifacts]; [done|].
  unfold bind, remove_artifacts, modify. destruct (remove_session _ _ _ _) as [store e].
  set (w1 := {| w with w_artifacts := store; w_env := e |}). specialize (IH w1).
  by destruct (remove_all_artifacts fs ids w1) as [[w2 t2] r].
Qed.

(** Draining the table closes every session in it. *)
Lemma spec_drain :
  Lawful rt ->
  spec rt (fun _ => True) (let! ids := read session_ids in close_all ids ;! remove_all_artifacts fs ids) closes
    (fun _ w => w_sessions w = ∅).
Proof.
  intros Hlaw w Hi _. unfold bind at 1, read.
  pose proof (spec_close_all closes (session_ids w) Hlaw ltac:(intros; eexists; done) w Hi) as Hc.
  specialize (Hc ltac:(intros id Hid; by apply (i_table _ _ Hi), session_ids_elem)).
  pose proof (close_all_table (session_ids w) w Hlaw) as Hsub. unfold bind.
  destruct (close_all (session_ids w) w) as [[w1 t1] [[u|]|]]; [|done|done]. destruct Hc as (I1 & S1 & T1 & G1). cbn in Hsub.
  pose proof (spec_remove_all_artifacts fs rt closes (fun _ => True) (session_ids w) ltac:(done) w1 I1 I) as Hrm.
  pose proof (remove_all_table (session_ids w) w1) as Hkeep.
  destruct (remove_all_artifacts fs (session_ids w) w1) as [[w2 t2] r]. cbn in Hkeep. destruct Hrm as (I2 & S2 & T2 & R2).
  split; [done|]. split; [by etrans|]. split.
  { rewrite app_nil_l. intros x [(?&?&?&?)%T1|(?&?&?&?)%T2]%elem_of_app; (split; [done|]; split; [by etrans|]; split; [by etrans | done]). }
  destruct r as [[[]|]|]; [|done|done]. apply map_empty. intros id. rewrite Hkeep.
  destruct (w_sessions w1 !! id) eqn:Ex; [exfalso|done].
  assert (Hin : is_Some (w_sessions w !! id)) by (eapply lookup_weaken in Ex; eauto).
  apply session_ids_elem in Hin. destruct (G1 id Hin) as [Hn _]. congruence.
Qed.

Lemma closed_stable : stable (fun w : World E => w_closed w = true).
Proof. intros w w' S. apply S. Qed.

Lemma spec_shutdown w :
  Lawful rt -> Inv rt w ->
  spec rt (fun v => v = w) (shutdown fs) closes
    (fun _ v => w_closed v = true /\ (w_closed (yield w) = false -> w_sessions v = ∅)).
Proof.
  intros Hlaw Hi. unfold shutdown. eapply (spec_bind rt _ _ _ _ (fun _ v => v = yield w)).
  { apply spec_modify; intros v Hv ->; [by apply (law_yield rt (law_executor rt Hlaw)) | done]. }
  intros _. eapply (spec_bind rt _ _ _ _ (fun b _ => b = w_closed (yield w))); [by apply spec_read; intros v _ ->|].
  intros b. eapply (spec_bind rt _ _ _ _ (fun _ v => w_closed v = true /\ b = w_closed (yield w))).
  { apply spec_modify; [|done]. intros v Hv _. pose proof Hv as [? ? ? ? ? ? ?]. by apply (same_core rt v). }
  intros _. apply spec_pure. intros Hb. destruct b.
  { apply spec_lift. intros [] v _ Hc _. split; [done|]. congruence. }
  pose proof closed_stable as HF.
  apply spec_seq; [done | by apply spec_await|]. intros _. apply spec_seq; [done | |].
  { apply spec_preserves. intros v Hv. unfold stop_scheduler. destruct (w_scheduler_poisoned v); [by split|].
    pose proof Hv as [? ? ? ? ? ? ?]. by apply (same_core rt v). }
  assert (Hclear : preserves rt (fun v : World E => {| v with w_discovery := ∅ |}) /\
    preserves rt (fun v : World E => {| v with w_launch_discovery := ∅ |})).
  { assert (Hz : forall (A : Type) (m : gmap string A) n, msize m <= n -> msize (∅ : gmap string A) <= n).
    { intros A m n Hm. pose proof (msize_nonneg m). unfold msize at 1. rewrite map_size_empty. lia. }
    split; intros v Hv; pose proof Hv as [? ? ? ? ? ? ?]; apply (same_core rt v); cbn; try done; by eapply Hz. }
  intros _. apply spec_seq; [done | by apply spec_await|]. intros _.
  apply spec_seq; [done | by apply spec_await|]. intros _. apply spec_seq; [done | apply spec_preserves, Hclear|].
  intros _. apply spec_seq; [done | by apply spec_await|]. intros _. apply spec_seq; [done | apply spec_preserves, Hclear|].
  intros _. apply spec_seq; [done | by apply spec_await|]. intros _.
  eapply (spec_weaken rt (fun v => True /\ w_closed v = true) _ _ closes _ (fun _ v => w_sessions v = ∅ /\ w_closed v = true));
    [|done|done|naive_solver].
  apply spec_frame; [done | by apply spec_drain].
Qed.

(** Shutdown is final.  It returns, leaves no session in the table when it
    was the first, and closes the runtime for good: every later command is
    refused as unavailable before it reaches the policy, the tables or the
    driver. *)
Theorem shutdown_final w w' t r :
  Lawful rt -> Inv rt w -> shutdown fs w = (w', t, r) ->
  r = Returned (Ok tt) /\ Inv rt w' /\ (w_closed (yield w) = false -> w_sessions w' = ∅) /\
  (forall x, x ∈ t -> closes x) /\
  forall v c, Inv rt v -> Step w' v -> execute fs rt c v = (yield v, [], Returned (Err runtime_unavailable)).
Proof.
  intros Hlaw Hi He. pose proof (spec_shutdown w Hlaw Hi w Hi eq_refl) as Hs. rewrite He in Hs.
  destruct Hs as (I' & S & T & R).
  destruct (total_ok (shutdown fs) w w' t r) as [[] ->]; [|done|by intros ->|].
  { unfold shutdown, await. repeat (apply total_bind; [auto with calls|intros ?]).
    match goal with |- total (if ?b then _ else _) => destruct b end; eauto 30 with calls. }
  split; [done|]. split; [done|]. split; [apply R|]. split; [intros x Hx; by apply T|].
  intros v c Hv Sv. destruct (law_yield rt (law_executor rt Hlaw) v Hv) as [_ Sy].
  unfold execute, await, bind, modify, read. rewrite (g_closed _ _ Sy); [done|]. apply (g_closed _ _ Sv), R.
Qed.

(** ** Deadlines *)

Lemma min_of_spec l : match min_of l with Some d => d ∈ l /\ forall x, x ∈ l -> d <= x | None => l = [] end.
Proof.
  destruct l as [|x l]; [done|]. cbn. induction l as [|y l IH]; cbn; [set_solver|].
  destruct IH as [Hin Hle]. split.
  - destruct (Z.min_spec y (foldr Z.min x l)) as [[_ ->]|[_ ->]]; set_solver.
  - intros z [->|[->|Hz]%elem_of_cons]%elem_of_cons; [specialize (Hle x ltac:(set_solver)); lia | lia |].
    specialize (Hle z ltac:(set_solver)). lia.
Qed.

Lemma min_of_in l y : y ∈ option_list (min_of l) -> y ∈ l.
Proof. pose proof (min_of_spec l). destruct (min_of l); set_solver. Qed.

Lemma min_of_covers l x : x ∈ l -> exists y, y ∈ option_list (min_of l) /\ y <= x.
Proof.
  intros Hx. pose proof (min_of_spec l) as Hm. destruct (min_of l) as [d|]; [|set_solver].
  exists d. split; [set_solver | by apply Hm].
Qed.

(** The expiry times the scheduler watches. *)
Definition deadline_of (w : World E) (d : Z) : Prop :=
  (exists id s, is_Some (w_sessions w !! id) /\ w_heap w !! id = Some s /\ se_expires_at s = d) \/
  (exists r x, w_discovery w !! r = Some x /\ dr_expires_at x = d) \/
  (exists r x, w_launch_discovery w !! r = Some x /\ ldr_expires_at x = d).

Lemma session_deadlines_elem (w : World E) d : d ∈ session_deadlines w <->
  exists id s, is_Some (w_sessions w !! id) /\ w_heap w !! id = Some s /\ se_expires_at s = d.
Proof.
  unfold session_deadlines. rewrite list_elem_of_omap. split.
  - intros (id & Hid%session_ids_elem & (s & Hs & ->)%fmap_Some). eauto 10.
  - intros (id & s & Hid & Hs & <-). exists id. split; [by apply session_ids_elem|]. by rewrite Hs.
Qed.

Lemma record_deadlines_elem {A} (f : A -> Z) (m : gmap string A) d :
  d ∈ ((fun p => f p.2) <$> hash_iter m) <-> exists r x, m !! r = Some x /\ f x = d.
Proof.
  rewrite hash_iter_perm, list_elem_of_fmap. split.
  - intros ([r x] & -> & Hx%elem_of_map_to_list). eauto.
  - intros (r & x & Hx & <-). exists (r, x). by rewrite elem_of_map_to_list.
Qed.

(** The scheduler sleeps until the right moment.  Without interference the
    deadline it computes is the earliest expiry of a live session or of a
    discovery or launch reference, and there is none exactly when all three
    tables are empty. *)
Theorem nearest_deadline_earliest w :
  Inv rt w -> (forall v : World E, yield v = v) ->
  exists d, nearest_deadline w = (w, [], Returned (Ok d)) /\
    match d with
    | Some d => deadline_of w d /\ forall d', deadline_of w d' -> d <= d'
    | None => w_sessions w = ∅ /\ w_discovery w = ∅ /\ w_launch_discovery w = ∅
    end.
Proof.
  intros Hi Hq. eexists. split.
  { unfold nearest_deadline, await, bind, modify, read. rewrite !Hq. done. }
  set (ls := session_deadlines w). set (ld := (fun p => dr_expires_at p.2) <$> hash_iter (w_discovery w)).
  set (ll := (fun p => ldr_expires_at p.2) <$> hash_iter (w_launch_discovery w)).
  assert (Hdl : forall d, deadline_of w d <-> d ∈ ls \/ d ∈ ld \/ d ∈ ll).
  { intros d. unfold deadline_of, ls, ld, ll. by rewrite session_deadlines_elem, !record_deadlines_elem. }
  set (l := option_list (min_of ls) ++ option_list (min_of ld) ++ option_list (min_of ll)).
  assert (Hcover : forall d, deadline_of w d -> exists y, y ∈ l /\ y <= d).
  { intros d [Hd|[Hd|Hd]]%Hdl; apply min_of_covers in Hd as (y & Hy & ?); exists y;
      (split; [unfold l; rewrite !elem_of_app; tauto | done]). }
  assert (Hin : forall d, d ∈ l -> deadline_of w d).
  { intros d. unfold l. rewrite !elem_of_app, Hdl. intros [?|[?|?]]; auto using min_of_in. }
  pose proof (min_of_spec l) as HM. destruct (min_of l) as [d|].
  - destruct HM as [Hd Hle]. split; [by apply Hin|]. intros d' (y & Hy & ?)%Hcover. specialize (Hle y Hy). lia.
  - assert (Hno : forall d, ~ deadline_of w d).
    { intros d (y & Hy & _)%Hcover. rewrite HM in Hy. by apply elem_of_nil in Hy. }
    split; [|split]; apply map_empty; intros k.
    + destruct (w_sessions w !! k) eqn:Ek; [exfalso|done]. destruct (i_table _ _ Hi k) as [s Hs]; [eauto|].
      apply (Hno (se_expires_at s)). left. eauto.
    + destruct (w_discovery w !! k) as [x|] eqn:Ek; [exfalso|done]. apply (Hno (dr_expires_at x)). right. left. eauto.
    + destruct (w_launch_discovery w !! k) as [x|] eqn:Ek; [exfalso|done]. apply (Hno (ldr_expires_at x)). right. right. eauto.
Qed.

End Properties.

(** * The properties on the concrete desktop *)

Lemma triple_eta {A B C} (x : A * B * C) : x = (x.1.1, x.1.2, x.2).
Proof. by destruct x as [[a b] c]. Qed.

(** The first perform request on the desktop. *)
Definition demo_perform := execute memory_env demo_runtime (PerformAction demo_action) demo_world.

(** Its native dispatch, the second driver call. *)
Definition demo_call : World Files * DriverCall := List.nth 1 demo_perform.1.2 (demo_start, CallCapabilities).

Lemma demo_call_elem : demo_call ∈ demo_perform.1.2.
Proof. apply list_elem_of_In, List.nth_In. vm_compute. lia. Qed.

Lemma execute_preserves_invariant_witness : Inv demo_runtime demo_perform.1.1 /\ Step demo_world demo_perform.1.1.
Proof.
  destruct (execute_preserves_invariant memory_env demo_runtime (PerformAction demo_action) demo_world
    demo_perform.1.1 demo_perform.1.2 demo_perform.2 (demo_lawful _ _) demo_world_inv (triple_eta _)) as (Hi & Hs & _).
  exact (conj Hi Hs).
Defined.

Lemma driver_calls_authorized_witness :
  is_dispatch demo_call.2 = true /\ authorized demo_runtime demo_world (PerformAction demo_action) demo_call.
Proof.
  split; [vm_compute; reflexivity|].
  exact (driver_calls_authorized memory_env demo_runtime (PerformAction demo_action) demo_world
    demo_perform.1.1 demo_perform.1.2 demo_perform.2 demo_call (demo_lawful _ _) demo_world_inv (triple_eta _)
    demo_call_elem).
Defined.

(** The state after the first perform request, and the same request again. *)
Definition demo_after : World Files := run_all [PerformAction demo_action] demo_world.
Definition demo_again := execute memory_env demo_runtime (PerformAction demo_action) demo_after.

Lemma observation_dispatched_once_witness : Forall (fun x => is_dispatch x.2 = false) demo_again.1.2.
Proof.
  apply Forall_forall. intros x. refine (observation_dispatched_once memory_env demo_runtime demo_action demo_action demo_world
    demo_perform.1.1 demo_perform.1.2 demo_perform.2 demo_call demo_after demo_again.1.1 demo_again.1.2 demo_again.2 x
    (demo_lawful _ _) demo_world_inv (triple_eta _) demo_call_elem _ _ _ (triple_eta _) eq_refl eq_refl).
  - vm_compute. reflexivity.
  - apply run_all_inv, demo_world_inv.
  - apply (@PreOrder_Reflexive _ _ Step_preorder).
Defined.

(** The desktop after its session was closed. *)
Definition demo_closed : World Files := run_all [CloseSession demo_session] demo_world.
Definition demo_closed_perform := execute memory_env demo_runtime (PerformAction demo_action) demo_closed.
Definition demo_closed_session : Session :=
  default {| se_id := ""; se_guard := guard_init true 0; se_manifest := demo_manifest;
             se_allowed_applications := []; se_state := session_state_default |}
    (w_heap demo_closed !! demo_session).

Lemma demo_closed_lookup : w_heap demo_closed !! demo_session = Some demo_closed_session.
Proof. vm_compute. reflexivity. Qed.

Lemma demo_closed_inv : Inv demo_runtime demo_closed.
Proof. apply run_all_inv, demo_world_inv. Qed.

Lemma revoked_session_never_dispatches_witness :
  Forall (fun x => is_dispatch x.2 = false) demo_closed_perform.1.2.
Proof.
  apply Forall_forall. intros x. refine (revoked_session_never_dispatches memory_env demo_runtime demo_action demo_closed
    demo_closed_perform.1.1 demo_closed_perform.1.2 demo_closed_perform.2 demo_closed_session x
    (demo_lawful _ _) demo_closed_inv demo_closed_lookup _ (triple_eta _)).
  left. vm_compute. reflexivity.
Defined.

Lemma closed_session_unreachable_witness :
  exists w' e, execute memory_env demo_runtime (ListApps demo_session) demo_closed = (w', [], Returned (Err e)).
Proof.
  refine (closed_session_unreachable memory_env demo_runtime (ListApps demo_session) demo_session demo_closed demo_closed
    demo_closed_session (demo_lawful _ _) demo_closed_inv demo_closed_inv
    (@PreOrder_Reflexive _ _ Step_preorder demo_closed) demo_closed_lookup _ _ eq_refl); vm_compute; reflexivity.
Defined.

(** The desktop after discovery, when the session is opened. *)
Definition demo_discovered : World Files := run_all [DiscoverApplications] demo_start.
Definition demo_open := execute memory_env demo_runtime (OpenSession demo_manifest) demo_discovered.
Definition demo_opened : CommandResult := match demo_open.2 with Returned (Ok r) => r | _ => RAcknowledged end.

Lemma opened_session_scope_witness :
  exists out live t0, demo_opened = RSessionOpened out /\
    opened demo_runtime demo_discovered demo_manifest (os_session_id out) demo_open.1.1 live t0.
Proof.
  refine (proj2 (opened_session_scope memory_env demo_runtime demo_manifest demo_discovered demo_open.1.1
    demo_open.1.2 demo_opened (demo_lawful _ _) _ _)).
  - apply run_all_inv, demo_start_inv.
  - transitivity (demo_open.1.1, demo_open.1.2, demo_open.2); [apply triple_eta|].
    f_equal; vm_compute; reflexivity.
Defined.

(** A driver that refuses the action before dispatching it. *)
Definition refusing_driver : DesktopDriver Files :=
  demo_driver_with (Err (mutation_not_dispatched (driver_error DBusy "busy"))) (Err (driver_error DPlatform "stopped")).
Definition refusing_world : World Files := @run_all refusing_driver demo_commands demo_start.
Definition refused_perform := @execute Files refusing_driver _ _ _ memory_env demo_runtime (PerformAction demo_action) refusing_world.
Definition refused_call : World Files * DriverCall := List.nth 1 refused_perform.1.2 (demo_start, CallCapabilities).
Definition refused_error : CuaError :=
  match refused_perform.2 with Returned (Err e) => e | _ => session_unavailable end.

Lemma not_dispatched_truthful_witness : @refused Files refusing_driver refused_call.
Proof.
  refine (@not_dispatched_truthful Files refusing_driver _ _ _ memory_env demo_runtime demo_action refusing_world
    refused_perform.1.1 refused_perform.1.2 refused_error refused_call _ _ _ _).
  - transitivity (refused_perform.1.1, refused_perform.1.2, refused_perform.2); [apply triple_eta|].
    f_equal; vm_compute; reflexivity.
  - vm_compute. reflexivity.
  - apply list_elem_of_In, List.nth_In. vm_compute. lia.
  - vm_compute. reflexivity.
Defined.

(** The session of the desktop expires after a minute. *)
Definition demo_reaped := reap_due memory_env (61 * second) demo_world.

Lemma expired_sessions_reaped_witness : gone demo_session demo_reaped.1.1.
Proof.
  destruct (expired_sessions_reaped memory_env demo_runtime (61 * second) demo_world demo_reaped.1.1 demo_reaped.1.2
    demo_reaped.2 (demo_lawful _ _) demo_world_inv (triple_eta _)) as (_ & _ & _ & _ & Hg).
  refine (Hg demo_session (default demo_closed_session (w_heap demo_world !! demo_session)) _ _ _).
  - exists tt. vm_compute. reflexivity.
  - vm_compute. reflexivity.
  - vm_compute. discriminate.
Defined.

Definition demo_shutdown := shutdown memory_env demo_world.

Lemma shutdown_final_witness :
  w_sessions demo_shutdown.1.1 = ∅ /\
  execute memory_env demo_runtime GetCapabilities demo_shutdown.1.1 =
    (demo_shutdown.1.1, [], Returned (Err runtime_unavailable)).
Proof.
  destruct (shutdown_final memory_env demo_runtime demo_world demo_shutdown.1.1 demo_shutdown.1.2 demo_shutdown.2
    (demo_lawful _ _) demo_world_inv (triple_eta _)) as (_ & Hi & Ht & _ & Hc).
  split; [apply Ht; vm_compute; reflexivity|].
  exact (Hc _ GetCapabilities Hi (@PreOrder_Reflexive _ _ Step_preorder _)).
Defined.

Lemma nearest_deadline_earliest_witness :
  exists d, nearest_deadline demo_world = (demo_world, [], Returned (Ok (Some d))) /\ d = 30 * second.
Proof.
  destruct (nearest_deadline_earliest (Executor0 := demo_executor) demo_runtime demo_world demo_world_inv (fun _ => eq_refl)) as (d & Hd & _).
  exists (30 * second). split; [|reflexivity]. rewrite Hd. f_equal. f_equal. f_equal.
  assert (He : (nearest_deadline demo_world).2 = Returned (Ok (Some (30 * second)))) by (vm_compute; reflexivity).
  rewrite Hd in He. by injection He.
Defined.

(** * A report that is not true *)

Definition clipboard_world : World Files :=
  @run_all refusing_driver (demo_commands ++ [ReadClipboard demo_session]) demo_start.

Definition clipboard_write : WriteClipboardInput :=
  {| wc_session_id := demo_session; wc_clipboard_ref := fresh_ref "clipboard_" 5; wc_text := "new" |}.

(** A clipboard write whose driver failed without saying whether it wrote is
    reported as not dispatched, although the driver was called; a launch or an
    action in the same situation is reported as indeterminate. *)
Theorem clipboard_failure_misreported :
  exists w w' e, @execute Files refusing_driver _ _ _ memory_env demo_runtime (WriteClipboard clipboard_write) clipboard_world
    = (w', [(w, CallWriteClipboard "m1" "new" 65536)], Returned (Err e)) /\
  (@drv_write_clipboard Files refusing_driver "m1" "new" 65536 w).2 = Err (driver_error DPlatform "stopped") /\
  mutation_status e = NotDispatched.
Proof. eexists _, _, _. vm_compute. repeat split; reflexivity. Qed.
