(* ===== verification/ResultTypes.v ===== *)
(** The variants of the runtime's results: which [CommandResult] answers which
    [Command], for [Runtime::execute] of [src/crates/runtime/src/service.rs].

    Callers of the runtime match on the variant they expect and treat any
    other as an internal error.  [yields m P] says that whatever a runtime
    computation returns satisfies [P]. *)

From S2P Require Import Prelude Floats Geometry Text Protocol Errors Policy Validation Driver Session Artifacts Runtime RuntimeProps.

(** The result variant of a command. *)
Definition result_matches (c : Command) (r : CommandResult) : bool :=
  match c, r with
  | GetCapabilities, RCapabilities _ | GetPermissionStatus, RPermissionStatus _
  | DiscoverApplications, RApplicationsDiscovered _
  | DiscoverLaunchableApplications, RLaunchableApplicationsDiscovered _
  | LaunchApplication _, RApplicationLaunched _ | OpenSession _, RSessionOpened _ | CloseSession _, RAcknowledged
  | ListApps _, RApps _ | ListWindows _, RWindows _ | ListDisplays _, RDisplays _
  | ObserveWindow _, RWindowObserved _ | ObserveApplicationScene _, RWindowObserved _ | ObserveDisplay _, RDisplayObserved _
  | ReadClipboard _, RClipboardRead _ | WriteClipboard _, RClipboardWritten _ | PerformAction _, RActionPerformed _
  | ReconcileMutation _, RMutationReconciled _ | VerifyState _, RStateVerified _ => true
  | _, _ => false
  end.

Create HintDb yields.

Section Returns.
Context {E : Type}.

Definition yields {A} (m : M E A) (P : A -> Prop) : Prop :=
  forall w, match m w with (_, _, Returned (Ok a)) => P a | _ => True end.

Lemma yields_bind {A B} (m : M E A) (k : A -> M E B) P : (forall a, yields (k a) P) -> yields (bind m k) P.
Proof.
  intros Hk w. unfold bind. destruct (m w) as [[w1 t1] [[a|]|]]; [|done..]. specialize (Hk a w1).
  by destruct (k a w1) as [[? ?] ?].
Qed.
Lemma yields_bind_with {A B} (m : M E A) (k : A -> M E B) (Q : A -> Prop) P :
  yields m Q -> (forall a, Q a -> yields (k a) P) -> yields (bind m k) P.
Proof.
  intros Hm Hk w. specialize (Hm w). unfold bind. destruct (m w) as [[w1 t1] [[a|]|]]; [|done..]. specialize (Hk a Hm w1).
  by destruct (k a w1) as [[? ?] ?].
Qed.
Lemma yields_ret {A} (a : A) (P : A -> Prop) : P a -> yields (ret a) P.
Proof. by intros Ha w. Qed.
Lemma yields_fail {A} e (P : A -> Prop) : yields (fail e) P.
Proof. by intros w. Qed.
Lemma yields_panic {A} (P : A -> Prop) : yields panic P.
Proof. by intros w. Qed.
Lemma yields_lift {A} (r : Result A CuaError) (P : A -> Prop) : (forall a, r = Ok a -> P a) -> yields (lift r) P.
Proof. intros Hr w. cbn. destruct r; [by apply Hr | done]. Qed.
Lemma yields_map_err {A} f (m : M E A) P : yields m P -> yields (map_err f m) P.
Proof. intros Hm w. specialize (Hm w). unfold map_err. by destruct (m w) as [[? ?] [[]|]]. Qed.
Lemma yields_finally {A} (m : M E A) f P : yields m P -> yields (finally m f) P.
Proof. intros Hm w. specialize (Hm w). unfold finally. by destruct (m w) as [[? ?] [[]|]]. Qed.
Lemma yields_on_error {A} (m : M E A) f P : yields m P -> yields (on_error m f) P.
Proof. intros Hm w. specialize (Hm w). unfold on_error. by destruct (m w) as [[? ?] [[]|]]. Qed.
Lemma yields_reify {A} (m : M E A) P : yields m P -> yields (reify m) (fun r => forall a, r = Ok a -> P a).
Proof. intros Hm w. specialize (Hm w). unfold reify. destruct (m w) as [[? ?] [[]|]]; [|done..]. by intros ? [= <-]. Qed.
Lemma yields_deref {A} id (k : Session -> M E A) P : (forall s, yields (k s) P) -> yields (deref id k) P.
Proof. intros Hk w. unfold deref. destruct (w_heap w !! id) as [s|]; [apply Hk | done]. Qed.

End Returns.

#[export] Hint Resolve yields_bind yields_fail yields_panic yields_map_err yields_finally yields_on_error yields_deref : yields.
#[export] Hint Extern 1 (yields (ret _) _) => apply yields_ret; reflexivity : yields.
#[export] Hint Extern 1 (yields (lift _) _) => apply yields_lift; intros ? ?; congruence : yields.
#[export] Hint Extern 2 (yields (match ?x with _ => _ end) _) => destruct x : yields.
#[export] Hint Extern 2 (yields (let '_ := ?x in _) _) => destruct x : yields.

Ltac typed := cbv zeta; eauto 60 with yields.

Section Variants.
Context {E : Type} `{!DesktopDriver E, !Executor E, !HashOrder, !UuidSource}.
Context (fs : ArtifactEnv E) (rt : Runtime).

Definition is_observation (r : CommandResult) : Prop := match r with RWindowObserved _ => True | _ => False end.

Lemma yields_observe_window input scene : yields (observe_window fs rt input scene) is_observation.
Proof. unfold observe_window. typed. Qed.

Definition is_action (r : CommandResult) : Prop := match r with RActionPerformed _ => True | _ => False end.

Lemma project_action_is_action s needed supported output r :
  project_action_output s needed supported output = Ok r -> is_action r.
Proof. unfold project_action_output. intros Hr. res_inv. done. Qed.

Lemma yields_perform_action_only input : yields (perform_action_only fs rt input) is_action.
Proof.
  unfold perform_action_only, dispatch_action. typed. apply yields_bind; intros s. do 3 (apply yields_bind; intros ?).
  apply yields_finally, yields_bind. intros p. do 3 (apply yields_bind; intros ?). apply yields_lift. intros r.
  apply project_action_is_action.
Qed.

Lemma yields_perform_action input : yields (perform_action fs rt input) is_action.
Proof.
  unfold perform_action. apply yields_bind. intros _. eapply yields_bind_with; [apply yields_perform_action_only|].
  intros [] Hr; try done. destruct (after_command input) as [[after scene]|]; [|by apply yields_ret]. apply yields_bind.
  intros [[]|]; typed.
Qed.

Lemma run_command_variant c : yields (run_command fs rt c) (fun r => result_matches c r = true).
Proof.
  destruct c; cbn [run_command]; try (typed; fail).
  all: try (unfold discover_applications, discover_launchable_applications, open_session, close_session, list_apps, list_windows,
    list_displays, observe_display, read_clipboard, write_clipboard, verify_state, launch_application, observe_window,
    project_launched_application; typed; fail).
  apply yields_map_err. intros w. pose proof (yields_perform_action input w) as Hp.
  by destruct (perform_action fs rt input w) as [[? ?] [[[]|]|]].
Qed.

(** C40: each command has one result variant.  Whatever the runtime returns for
    a command is the variant its callers match on, so the branches for an
    unexpected variant in the tool server and the gateway are not reached; and
    the runtime itself never answers a reconciliation, which the dispatcher
    does. *)
Theorem execute_result_variant c w w' t r :
  execute fs rt c w = (w', t, Returned (Ok r)) ->
  result_matches c r = true /\ forall input, c <> ReconcileMutation input.
Proof.
  intros Hx. split.
  - assert (Hr : yields (execute fs rt c) (fun r => result_matches c r = true)).
    { unfold execute. do 2 (apply yields_bind; intros ?). destruct a0; [apply yields_fail|].
      do 2 (apply yields_bind; intros ?). apply run_command_variant. }
    specialize (Hr w). by rewrite Hx in Hr.
  - intros input ->. assert (Hr : yields (execute fs rt (ReconcileMutation input)) (fun _ => False)).
    { unfold execute. do 2 (apply yields_bind; intros ?). destruct a0; [apply yields_fail|].
      do 2 (apply yields_bind; intros ?). cbn [run_command]. apply yields_fail. }
    specialize (Hr w). by rewrite Hx in Hr.
Qed.

End Variants.

Lemma execute_result_variant_witness :
  exists o, demo_open.2 = Returned (Ok (RSessionOpened o)) /\ result_matches (OpenSession demo_manifest) (RSessionOpened o) = true.
Proof.
  eexists. split; [vm_compute; reflexivity|].
  refine (proj1 (@execute_result_variant Files demo_driver demo_executor map_to_list_order unary_uuids memory_env demo_runtime
    (OpenSession demo_manifest) demo_discovered demo_open.1.1 demo_open.1.2 _ _)).
  vm_compute. reflexivity.
Defined.
