(* ===== verification/Frame.v ===== *)
(** Length-prefixed framing and the connection loop:
    [src/crates/transport/src/frame.rs] and [serve_connection] of
    [src/crates/transport/src/server.rs], with the endpoint configuration of
    [src/crates/transport/src/endpoint.rs] and the client of
    [src/crates/transport/src/client.rs].

    A reader is the bytes that are still to come and how the stream ends; a
    writer collects bytes until it breaks.  JSON and the dispatcher are
    parameters of the loop.  The theorems show the frame round trip, the bound
    on what is read, and that the loop ends and answers each request frame
    with one response frame, in order, so that a client gets the response to
    its request. *)

From S2P Require Import Prelude Floats Geometry Text Protocol Errors.

Inductive TransportError :=
| InvalidConfiguration (reason : string)
| TransportIo (source : string)
| InvalidFrame (reason : string)
| InvalidPayload (source : string).

(** * Endpoint configuration *)

Definition DEFAULT_MAX_FRAME_BYTES : Z := 1024 * 1024.

(** [LocalEndpoint::new]. *)
Definition local_endpoint (value : string) : Result string TransportError :=
  ensure_not (str_eqb value "" || contains_nul value)
    (InvalidConfiguration "endpoint must be non-empty and contain no NUL bytes") ;?
  Ok value.

Record ServerConfig := {
  sc_endpoint : string;
  sc_max_frame_bytes : Z;
  sc_max_completed_requests : Z;
  sc_completed_request_ttl : Z;
  sc_max_inflight_requests : Z;
  sc_max_request_timeout_ms : Z;
}.

(** [ServerConfig::new]; the lifetime is in nanoseconds. *)
Definition server_config (endpoint : string) : ServerConfig :=
  {| sc_endpoint := endpoint; sc_max_frame_bytes := DEFAULT_MAX_FRAME_BYTES;
     sc_max_completed_requests := 4096; sc_completed_request_ttl := 10 * 60 * 1000000000;
     sc_max_inflight_requests := 64; sc_max_request_timeout_ms := 120000 |}.

Definition server_config_validate (c : ServerConfig) : Result unit TransportError :=
  ensure_not ((sc_max_frame_bytes c =? 0) || (U32_MAX <? sc_max_frame_bytes c))
    (InvalidConfiguration "max_frame_bytes must fit in a non-zero u32") ;?
  ensure_not ((sc_max_completed_requests c =? 0) || (sc_max_inflight_requests c =? 0)
              || (sc_completed_request_ttl c =? 0))
    (InvalidConfiguration "request ledger bounds must be non-zero") ;?
  ensure_not (sc_max_request_timeout_ms c =? 0)
    (InvalidConfiguration "max_request_timeout_ms must be non-zero") ;?
  Ok tt.

(** * Byte streams *)

(** After [rd_bytes] the stream ends, with an I/O error when [rd_failure] is set. *)
Record Reader := { rd_bytes : list Z; rd_failure : option string }.

Record Writer := { wr_written : list Z; wr_failure : option string }.

(** [AsyncReadExt::read] of one byte: [None] is the end of the stream. *)
Definition read_one (r : Reader) : Reader * Result (option Z) string :=
  match rd_bytes r with
  | b :: rest => ({| r with rd_bytes := rest |}, Ok (Some b))
  | [] => match rd_failure r with Some e => (r, Err e) | None => (r, Ok None) end
  end.

(** [AsyncReadExt::read_exact]. *)
Definition read_exact (r : Reader) (n : nat) : Reader * Result (list Z) string :=
  if (length (rd_bytes r) <? n)%nat
  then ({| r with rd_bytes := [] |}, Err (default "early eof"%string (rd_failure r)))
  else ({| r with rd_bytes := drop n (rd_bytes r) |}, Ok (take n (rd_bytes r))).

Definition write_all (w : Writer) (bytes : list Z) : Writer * Result unit string :=
  match wr_failure w with
  | Some e => (w, Err e)
  | None => ({| w with wr_written := wr_written w ++ bytes |}, Ok tt)
  end.

(** [u32::from_be_bytes] and [u32::to_be_bytes]. *)
Definition from_be_bytes (l : list Z) : Z := foldl (fun acc b => acc * 256 + b) 0 l.
Definition to_be_bytes (n : Z) : list Z :=
  [n / 16777216 mod 256; n / 65536 mod 256; n / 256 mod 256; n mod 256].

Definition out_of_bound : TransportError :=
  InvalidFrame "payload length is outside the configured bound".

Definition read_frame (r : Reader) (max_frame_bytes : Z) : Reader * Result (option (list Z)) TransportError :=
  match read_one r with
  | (r1, Err e) => (r1, Err (TransportIo e))
  | (r1, Ok None) => (r1, Ok None)
  | (r1, Ok (Some b)) =>
      match read_exact r1 3 with
      | (r2, Err e) => (r2, Err (InvalidFrame ("truncated length header: " +:+ e)))
      | (r2, Ok header) =>
          let length := from_be_bytes (b :: header) in
          if (length =? 0) || (max_frame_bytes <? length) then (r2, Err out_of_bound)
          else
            match read_exact r2 (Z.to_nat length) with
            | (r3, Err e) => (r3, Err (InvalidFrame ("truncated payload: " +:+ e)))
            | (r3, Ok payload) => (r3, Ok (Some payload))
            end
      end
  end.

(** [flush] is the last of the writes and moves no bytes of its own. *)
Definition write_frame (w : Writer) (payload : list Z) (max_frame_bytes : Z)
    : Writer * Result unit TransportError :=
  if (zlen payload =? 0) || (max_frame_bytes <? zlen payload) || (U32_MAX <? zlen payload)
  then (w, Err out_of_bound)
  else
    match u32_try_from (zlen payload) with
    | None => (w, Err (InvalidFrame "payload length exceeds the u32 framing limit"))
    | Some length =>
        match write_all w (to_be_bytes length) with
        | (w1, Err e) => (w1, Err (TransportIo e))
        | (w1, Ok _) =>
            match write_all w1 payload with
            | (w2, Err e) => (w2, Err (TransportIo e))
            | (w2, Ok _) => (w2, Ok tt)
            end
        end
    end.

(** * The connection loop *)

Definition failure (request_id : RequestId) (e : CuaError) : ResponseEnvelope :=
  {| rs_protocol_version := PROTOCOL_VERSION; rs_request_id := request_id; rs_outcome := Error e |}.

Definition malformed_response : ResponseEnvelope :=
  failure "unparsed"
    (public_error InvalidRequest "request payload does not match the closed protocol schema" false
       (Some "fix_request_payload"%string)).

Section Connection.
Context {D : Type} (dispatch : D -> RequestEnvelope -> D * ResponseEnvelope).
Context (decode : list Z -> option RequestEnvelope).
Context (encode : ResponseEnvelope -> Result (list Z) string).

(** The answer to one request payload. *)
Definition respond (d : D) (payload : list Z) : D * ResponseEnvelope :=
  match decode payload with
  | Some request => dispatch d request
  | None => (d, malformed_response)
  end.

(** The loop of [serve_connection], one frame per unit of [fuel]; the last
    component is [None] when the fuel ends before the connection does. *)
Fixpoint serve_loop (fuel : nat) (max_frame_bytes : Z) (d : D) (r : Reader) (w : Writer)
    : D * Reader * Writer * option (Result unit TransportError) :=
  match fuel with
  | O => (d, r, w, None)
  | S fuel' =>
      match read_frame r max_frame_bytes with
      | (r1, Err e) => (d, r1, w, Some (Err e))
      | (r1, Ok None) => (d, r1, w, Some (Ok tt))
      | (r1, Ok (Some payload)) =>
          let '(d1, response) := respond d payload in
          match encode response with
          | Err e => (d1, r1, w, Some (Err (InvalidPayload e)))
          | Ok bytes =>
              match write_frame w bytes max_frame_bytes with
              | (w1, Err e) => (d1, r1, w1, Some (Err e))
              | (w1, Ok _) => serve_loop fuel' max_frame_bytes d1 r1 w1
              end
          end
      end
  end.

(** Each frame takes at least five bytes, so the bytes to come bound the
    number of iterations. *)
Definition serve_connection (max_frame_bytes : Z) (d : D) (r : Reader) (w : Writer)
    : D * Reader * Writer * option (Result unit TransportError) :=
  serve_loop (S (length (rd_bytes r))) max_frame_bytes d r w.

End Connection.

(** * The client ([client.rs]) *)

(** [request] over a fresh connection: [connect] is the opened stream, [peer]
    the stream the other side answers with once the frame is written. *)
Definition client_request (to_vec : RequestEnvelope -> Result (list Z) string) (from_slice : list Z -> Result ResponseEnvelope string)
    (connect : Result Writer string) (peer : list Z -> Reader) (request : RequestEnvelope) (max_frame_bytes : Z)
    : Result ResponseEnvelope TransportError :=
  let? payload := rmap_err InvalidPayload (to_vec request) in
  let? stream := rmap_err TransportIo connect in
  let '(stream, written) := write_frame stream payload max_frame_bytes in
  written ;?
  let? response := (read_frame (peer (wr_written stream)) max_frame_bytes).2 in
  let? response := ok_or response (InvalidFrame "server closed without a response") in
  rmap_err InvalidPayload (from_slice response).

(** * Lemmas *)

Definition frame (payload : list Z) : list Z := to_be_bytes (zlen payload) ++ payload.

Definition frame_ok (max_frame_bytes : Z) (payload : list Z) : Prop :=
  1 <= zlen payload <= max_frame_bytes /\ zlen payload <= U32_MAX.

Lemma be_bytes_roundtrip n : 0 <= n <= U32_MAX -> from_be_bytes (to_be_bytes n) = n.
Proof.
  intros Hn. unfold U32_MAX, from_be_bytes, to_be_bytes in *. cbn [foldl].
  Z.div_mod_to_equations. lia.
Qed.

Lemma from_be_bytes_nonneg l : Forall (fun b => 0 <= b) l -> 0 <= from_be_bytes l.
Proof.
  unfold from_be_bytes. intros Hl.
  assert (Hg : forall acc, 0 <= acc -> 0 <= foldl (fun acc b => acc * 256 + b) acc l); [|by apply Hg].
  induction Hl as [|b l Hb _ IH]; intros acc Hacc; simpl; [done|]. apply IH. lia.
Qed.

Lemma read_exact_app bytes rest f n : length bytes = n ->
  read_exact {| rd_bytes := bytes ++ rest; rd_failure := f |} n =
  ({| rd_bytes := rest; rd_failure := f |}, Ok bytes).
Proof.
  intros <-. unfold read_exact. cbn [rd_bytes rd_failure].
  rewrite length_app, (proj2 (Nat.ltb_ge _ _)) by lia. rewrite drop_app_length, take_app_length. done.
Qed.

Lemma read_exact_3 x y z l f :
  read_exact {| rd_bytes := x :: y :: z :: l; rd_failure := f |} 3 =
  ({| rd_bytes := l; rd_failure := f |}, Ok [x; y; z]).
Proof. apply (read_exact_app [x; y; z] l). done. Qed.

Lemma read_frame_app max payload rest f :
  frame_ok max payload ->
  read_frame {| rd_bytes := frame payload ++ rest; rd_failure := f |} max =
  ({| rd_bytes := rest; rd_failure := f |}, Ok (Some payload)).
Proof.
  intros [H1 H2]. unfold read_frame, frame, read_one. pose proof (be_bytes_roundtrip (zlen payload) ltac:(lia)) as Hb.
  unfold to_be_bytes in *. cbn [rd_bytes app].
  rewrite read_exact_3, Hb.
  destruct (Z.eqb_spec (zlen payload) 0), (Z.ltb_spec max (zlen payload)); [lia..|]. cbn [orb].
  rewrite read_exact_app; [done|]. unfold zlen. lia.
Qed.

Lemma write_frame_ok w payload max :
  write_frame w payload max =
  if bool_decide (frame_ok max payload) then
    match wr_failure w with
    | Some e => (w, Err (TransportIo e))
    | None => ({| w with wr_written := wr_written w ++ frame payload |}, Ok tt)
    end
  else (w, Err out_of_bound).
Proof.
  unfold write_frame, frame_ok, u32_try_from, write_all, frame. pose proof (zlen_nonneg payload).
  destruct (Z.eqb_spec (zlen payload) 0), (Z.ltb_spec max (zlen payload)),
    (Z.ltb_spec U32_MAX (zlen payload)); cbn [orb]; case_bool_decide; try lia; try done.
  destruct (Z.leb_spec (zlen payload) U32_MAX); [|lia].
  destruct w as [out [e|]]; [done|]. cbn [wr_failure wr_written].
  rewrite <- (assoc_L (++)). done.
Qed.

(** A frame read in full took at least five bytes. *)
Lemma read_frame_shrinks r max r' payload :
  read_frame r max = (r', Ok (Some payload)) ->
  (length (rd_bytes r') < length (rd_bytes r))%nat.
Proof.
  unfold read_frame, read_one, read_exact. destruct (rd_bytes r) as [|b bs]; [by destruct (rd_failure r)|].
  cbn [rd_bytes]. destruct (_ <? _)%nat; [done|]. destruct (_ || _); [done|].
  destruct (_ <? _)%nat; [done|]. intros [= <- _]. cbn. rewrite !length_drop. simpl. lia.
Qed.

Lemma serve_loop_returns {D} (dispatch : D -> RequestEnvelope -> D * ResponseEnvelope) decode encode
    fuel max d r w :
  (length (rd_bytes r) < fuel)%nat ->
  exists d' r' w' res, serve_loop dispatch decode encode fuel max d r w = (d', r', w', Some res).
Proof.
  revert d r w. induction fuel as [|fuel IH]; intros d r w Hf; [lia|]. cbn [serve_loop].
  destruct (read_frame r max) as [r1 [[payload|]|e]] eqn:E; [|eauto..].
  destruct (respond _ _ _ _) as [d1 response]. destruct (encode response); [|eauto].
  destruct (write_frame _ _ _) as [w1 [[]|]]; [|eauto]. apply IH.
  apply read_frame_shrinks in E. lia.
Qed.

(** The state and the response bytes after answering a list of payloads. *)
Fixpoint respond_all {D} (dispatch : D -> RequestEnvelope -> D * ResponseEnvelope) decode
    (d : D) (payloads : list (list Z)) : D * list ResponseEnvelope :=
  match payloads with
  | [] => (d, [])
  | p :: ps =>
      let '(d1, response) := respond dispatch decode d p in
      let '(d2, responses) := respond_all dispatch decode d1 ps in
      (d2, response :: responses)
  end.

Lemma serve_loop_frames {D} (dispatch : D -> RequestEnvelope -> D * ResponseEnvelope) decode encode
    max payloads d d' responses encoded out fuel :
  Forall (frame_ok max) payloads ->
  respond_all dispatch decode d payloads = (d', responses) ->
  Forall2 (fun response bytes => encode response = Ok bytes /\ frame_ok max bytes) responses encoded ->
  (length payloads < fuel)%nat ->
  serve_loop dispatch decode encode fuel max d
    {| rd_bytes := concat (frame <$> payloads); rd_failure := None |}
    {| wr_written := out; wr_failure := None |} =
  (d', {| rd_bytes := []; rd_failure := None |},
   {| wr_written := out ++ concat (frame <$> encoded); wr_failure := None |}, Some (Ok tt)).
Proof.
  revert d responses encoded out fuel.
  induction payloads as [|p ps IH]; intros d responses encoded out [|fuel] Hok Hr He Hf; try lia.
  - simpl in Hr. injection Hr as <- <-. inversion He; subst. simpl. by rewrite app_nil_r.
  - apply Forall_cons in Hok as [Hp Hok]. cbn [respond_all] in Hr.
    destruct (respond dispatch decode d p) as [d1 response] eqn:Ep.
    destruct (respond_all dispatch decode d1 ps) as [d2 rs] eqn:Eps. injection Hr as <- <-.
    apply Forall2_cons_inv_l in He as (bytes & enc & [Hb Hbok] & He & ->).
    cbn [serve_loop fmap list_fmap concat]. rewrite read_frame_app by done. rewrite Ep, Hb, write_frame_ok.
    rewrite bool_decide_true by done. cbn [wr_failure wr_written].
    rewrite (IH _ _ _ _ _ Hok Eps He) by (simpl in Hf; lia). by rewrite <- (assoc_L (++)).
Qed.

(** * Properties *)

(** The frame round trip.  Exactly the payloads of one byte up to the
    bound (and the 32-bit limit) can be written; what is written is read back
    unchanged, leaving the bytes after the frame; and a refused payload or a
    broken writer writes nothing of the frame. *)
Theorem frame_roundtrip max payload out rest f :
  (frame_ok max payload ->
   exists bytes,
     write_frame {| wr_written := out; wr_failure := None |} payload max =
       ({| wr_written := out ++ bytes; wr_failure := None |}, Ok tt) /\
     read_frame {| rd_bytes := bytes ++ rest; rd_failure := f |} max =
       ({| rd_bytes := rest; rd_failure := f |}, Ok (Some payload))) /\
  (~ frame_ok max payload ->
   write_frame {| wr_written := out; wr_failure := f |} payload max =
     ({| wr_written := out; wr_failure := f |}, Err out_of_bound)).
Proof.
  split.
  - intros Hok. exists (frame payload). rewrite write_frame_ok, bool_decide_true by done.
    split; [done|]. by apply read_frame_app.
  - intros Hno. by rewrite write_frame_ok, bool_decide_false.
Qed.

Lemma frame_roundtrip_witness :
  exists bytes, write_frame {| wr_written := []; wr_failure := None |} [1; 2; 3] 16 =
       ({| wr_written := bytes; wr_failure := None |}, Ok tt) /\
     read_frame {| rd_bytes := bytes ++ [9]; rd_failure := None |} 16 =
       ({| rd_bytes := [9]; rd_failure := None |}, Ok (Some [1; 2; 3])).
Proof.
  destruct (proj1 (frame_roundtrip 16 [1; 2; 3] [] [9] None)
    ltac:(split; vm_compute; [split|]; discriminate)) as (bytes & H1 & H2).
  exists bytes. split; [exact H1 | exact H2].
Defined.

(** Reading is bounded.  A frame that [read_frame] delivers from a byte
    stream has at least one byte and at most the configured maximum, and an
    announced length outside that range is refused with only the four header
    bytes consumed, however many bytes follow. *)
Theorem read_frame_bounded r max :
  Forall (fun b => 0 <= b < 256) (rd_bytes r) ->
  (forall r' payload, read_frame r max = (r', Ok (Some payload)) -> 1 <= zlen payload <= max) /\
  (forall b0 b1 b2 b3 rest, rd_bytes r = b0 :: b1 :: b2 :: b3 :: rest ->
     let n := from_be_bytes [b0; b1; b2; b3] in
     n = 0 \/ max < n ->
     read_frame r max = ({| rd_bytes := rest; rd_failure := rd_failure r |}, Err out_of_bound)).
Proof.
  intros Hb. split.
  - unfold read_frame, read_one, read_exact. intros r' payload.
    destruct (rd_bytes r) as [|b bs]; [by destruct (rd_failure r)|]. cbn [rd_bytes].
    destruct (_ <? 3)%nat; [done|].
    assert (0 <= from_be_bytes (b :: take 3 bs)).
    { apply from_be_bytes_nonneg. apply Forall_cons in Hb as [? Hb].
      constructor; [lia|]. apply Forall_take. eapply Forall_impl; [exact Hb | simpl; lia]. }
    set (n := from_be_bytes _) in *.
    destruct (Z.eqb_spec n 0), (Z.ltb_spec max n); cbn [orb]; try done. cbn [rd_bytes].
    destruct (Nat.ltb_spec (length (drop 3 bs)) (Z.to_nat n)) as [|Hlen]; [done|]. intros [= _ <-].
    unfold zlen. rewrite length_take_le by done. lia.
  - intros b0 b1 b2 b3 rest E n Hn. unfold read_frame, read_one. rewrite E.
    rewrite read_exact_3. fold n.
    destruct (Z.eqb_spec n 0), (Z.ltb_spec max n); cbn [orb]; try done. lia.
Qed.

Lemma read_frame_bounded_witness :
  read_frame {| rd_bytes := [0; 0; 4; 0; 7; 7]; rd_failure := None |} 32 =
  ({| rd_bytes := [7; 7]; rd_failure := None |}, Err out_of_bound).
Proof.
  exact (proj2 (read_frame_bounded {| rd_bytes := [0; 0; 4; 0; 7; 7]; rd_failure := None |} 32
    ltac:(repeat constructor; discriminate)) 0 0 4 0 [7; 7] eq_refl (or_intror eq_refl)).
Defined.

(** A connection is served to its end.  The loop terminates on every
    input; and when the input is a sequence of well-formed frames and every
    response fits the frame bound, it answers each request frame with exactly
    one response frame, in order, threading the dispatcher state, and returns
    [Ok] at the end of the stream. *)
Theorem serve_connection_answers {D} (dispatch : D -> RequestEnvelope -> D * ResponseEnvelope)
    decode encode max d r w :
  (exists d' r' w' res, serve_connection dispatch decode encode max d r w = (d', r', w', Some res)) /\
  (forall payloads d' responses encoded,
     Forall (frame_ok max) payloads ->
     respond_all dispatch decode d payloads = (d', responses) ->
     Forall2 (fun response bytes => encode response = Ok bytes /\ frame_ok max bytes) responses encoded ->
     r = {| rd_bytes := concat (frame <$> payloads); rd_failure := None |} ->
     wr_failure w = None ->
     serve_connection dispatch decode encode max d r w =
       (d', {| rd_bytes := []; rd_failure := None |},
        {| wr_written := wr_written w ++ concat (frame <$> encoded); wr_failure := None |}, Some (Ok tt))).
Proof.
  split; [apply serve_loop_returns; lia|].
  intros payloads d' responses encoded Hok Hr He -> Hw. destruct w as [out wf]. simpl in Hw. subst wf.
  apply (serve_loop_frames _ _ _ _ _ _ _ responses); try done. cbn [rd_bytes].
  clear -Hok. induction payloads as [|p ps IH]; [simpl; lia|]. apply Forall_cons in Hok as [[Hp _] Hok].
  cbn [fmap list_fmap concat]. rewrite length_app. unfold frame at 1. rewrite length_app.
  unfold zlen in Hp. specialize (IH Hok). simpl. simpl in IH. lia.
Qed.

(** A dispatcher that counts requests, with a codec that accepts nothing and
    encodes every response as one byte. *)
Lemma serve_connection_answers_witness :
  serve_connection (fun (d : nat) (_ : RequestEnvelope) => (S d, malformed_response))
    (fun _ => None) (fun _ => Ok [42]) 16 0%nat
    {| rd_bytes := concat (frame <$> [[1; 2]; [3]]); rd_failure := None |}
    {| wr_written := []; wr_failure := None |} =
  (0%nat, {| rd_bytes := []; rd_failure := None |},
   {| wr_written := concat (frame <$> [[42]; [42]]); wr_failure := None |}, Some (Ok tt)).
Proof.
  apply (proj2 (serve_connection_answers (fun (d : nat) (_ : RequestEnvelope) => (S d, malformed_response))
    (fun _ => None) (fun _ => Ok [42]) 16 0%nat
    {| rd_bytes := concat (frame <$> [[1; 2]; [3]]); rd_failure := None |}
    {| wr_written := []; wr_failure := None |}) [[1; 2]; [3]] 0%nat
    [malformed_response; malformed_response] [[42]; [42]]); try reflexivity;
    repeat constructor; discriminate.
Defined.

(** A client and a server understand each other.  A request whose encoding and
    whose answer fit the frame bound is answered, over a connection served by
    the loop, with exactly the response the dispatcher gives to it, and the
    dispatcher sees it once; one that does not fit fails before anything is
    sent. *)
Theorem client_server_agree {D} (dispatch : D -> RequestEnvelope -> D * ResponseEnvelope) decode encode to_vec from_slice max d request payload :
  to_vec request = Ok payload -> decode payload = Some request ->
  (forall response bytes, encode response = Ok bytes -> from_slice bytes = Ok response) ->
  let fresh := {| wr_written := []; wr_failure := None |} in
  let served bytes := serve_connection dispatch decode encode max d {| rd_bytes := bytes; rd_failure := None |} fresh in
  let peer bytes := {| rd_bytes := wr_written (served bytes).1.2; rd_failure := None |} in
  (forall bytes, frame_ok max payload -> encode (dispatch d request).2 = Ok bytes -> frame_ok max bytes ->
    client_request to_vec from_slice (Ok fresh) peer request max = Ok (dispatch d request).2 /\
    (served (frame payload)).1.1.1 = (dispatch d request).1) /\
  (~ frame_ok max payload -> client_request to_vec from_slice (Ok fresh) peer request max = Err out_of_bound).
Proof.
  intros Hto Hdec Hjson fresh served peer. split.
  - intros bytes Hp Henc Hb. assert (Hserved : served (frame payload) = ((dispatch d request).1, {| rd_bytes := []; rd_failure := None |},
      {| wr_written := frame bytes; wr_failure := None |}, Some (Ok tt))).
    { subst served. cbn beta. unfold serve_connection. rewrite <- (app_nil_r (frame payload)). change (frame payload ++ []) with (concat (frame <$> [payload])).
      rewrite (serve_loop_frames dispatch decode encode max [payload] d (dispatch d request).1 [(dispatch d request).2] [bytes] []).
      - cbn [fmap list_fmap concat app]. by rewrite app_nil_r.
      - by apply Forall_singleton.
      - unfold respond_all, respond. rewrite Hdec. by destruct (dispatch d request).
      - by constructor; [split|constructor].
      - cbn. lia. }
    split; [|by rewrite Hserved]. unfold client_request. rewrite Hto. cbn [rmap_err rbind]. rewrite write_frame_ok, bool_decide_true by done.
    cbn [fresh wr_failure wr_written app rbind]. unfold peer. rewrite Hserved. cbn [fst snd wr_written].
    rewrite <- (app_nil_r (frame bytes)), read_frame_app by done. cbn [snd rbind ok_or]. by rewrite (Hjson _ _ Henc).
  - intros Hno. unfold client_request. rewrite Hto. cbn [rmap_err rbind]. by rewrite write_frame_ok, bool_decide_false by done.
Qed.
