(* ===== verification/Dispatcher.v ===== *)
(** Authenticated command dispatch with in-process idempotency:
    [src/crates/transport/src/dispatcher.rs] and [auth.rs].

    The request ledger maps a request identity to a pending execution or to
    the recorded response.  [dispatch_start] is a request up to the point
    where it has a response or waits on a channel, [dispatch_finish] the rest;
    [finish_execution] is the end of a spawned execution.  [dispatch_event]
    interleaves them, with the runtime's outcome as an input of the event.
    SHA-256 and the JSON encoding of commands are parameters ([DigestEnv]).
    Instants and durations are nanoseconds; [d_log] is a ghost trace of the
    executions, newest first. *)

From S2P Require Import Prelude Floats Geometry Text Protocol Errors Frame.

Definition MAX_REQUEST_ID_BYTES : Z := 128.
Definition MINIMUM_TOKEN_BYTES : Z := 32.
Definition MAXIMUM_TOKEN_BYTES : Z := 4 * 1024.
Definition millisecond : Z := 1000000.

(** SHA-256 of bytes, and [serde_json::to_vec] of a command. *)
Record DigestEnv := {
  sha256_digest : string -> string;
  command_to_json : Command -> option string;
}.

(** * Data *)

(** [TokenVerifier]: the digest of the configured token. *)
Record TokenVerifier := { tv_digest : string }.

Inductive RequestEntry :=
| Pending (digest : string) (is_mutation : bool) (channel : nat)
| Complete (digest : string) (is_mutation : bool) (response : ResponseEnvelope) (expires_at : Z).

Record RequestLedger := {
  entries : gmap string RequestEntry;
  inflight_requests : Z;
  max_inflight_requests : Z;
  max_completed_requests : Z;
  completed_request_ttl : Z;
}.

(** A spawned execution, known by the channel its response is sent on. *)
Record Task := {
  task_request_id : RequestId;
  task_digest : string;
  task_command : Command;
}.

Inductive log_entry :=
| Started (request_id : RequestId) (command : Command) (time : Z)
| Finished (request_id : RequestId) (time : Z).

(** [Dispatcher] with the state of its watch channels and spawned tasks. *)
Record Dispatcher := {
  d_token : TokenVerifier;
  d_ledger : RequestLedger;
  d_max_request_timeout_ms : Z;
  d_runtime_epoch : string;
  d_channels : gmap nat (option ResponseEnvelope);
  d_next_channel : nat;
  d_tasks : gmap nat Task;
  d_log : list log_entry;
}.

Inductive BeginRequest :=
| Execute (receiver : nat)
| Replay (response : ResponseEnvelope)
| Wait (receiver : nat)
| BeginBusy
| Conflict.

Inductive ReconciliationSnapshot :=
| SnapMissing
| SnapNotMutation
| SnapPending (receiver : nat)
| SnapComplete (response : ResponseEnvelope).

(** Where a request stands after its synchronous part. *)
Inductive Progress :=
| Responded (response : ResponseEnvelope)
| AwaitResponse (receiver : nat) (deadline : Z) (request_id : RequestId) (is_mutation : bool)
| AwaitReconciliation (receiver : nat) (deadline : Z) (request_id : RequestId) (reply_to : RequestId).

(** How [timeout_at(deadline, receiver.changed())] ends. *)
Inductive Wake :=
| Changed (value : option ResponseEnvelope)
| SenderDropped
| TimedOut.

(** * Tokens *)

Definition token_in_range (t : AuthorizationToken) : bool :=
  (MINIMUM_TOKEN_BYTES <=? slen t) && (slen t <=? MAXIMUM_TOKEN_BYTES).

Section Dispatch.
Context (env : DigestEnv).

(** [TokenVerifier::new]. *)
Definition token_verifier (token : AuthorizationToken) : option TokenVerifier :=
  if token_in_range token then Some {| tv_digest := sha256_digest env token |} else None.

(** [TokenVerifier::accepts]. *)
Definition token_accepts (v : TokenVerifier) (candidate : AuthorizationToken) : bool :=
  if negb (token_in_range candidate) then false
  else str_eqb (tv_digest v) (sha256_digest env candidate).

(** * Construction *)

Definition dispatcher_new (runtime_epoch : string) (token : AuthorizationToken)
    (max_inflight max_completed ttl max_timeout_ms : Z) : Result Dispatcher TransportError :=
  ensure_not ((max_inflight =? 0) || (max_completed =? 0) || (ttl =? 0) || (max_timeout_ms =? 0))
    (InvalidConfiguration "request ledger and timeout bounds must be non-zero") ;?
  let? v := ok_or (token_verifier token)
    (InvalidConfiguration "authorization token must contain at least 32 bytes") in
  Ok {| d_token := v;
        d_ledger := {| entries := ∅; inflight_requests := 0; max_inflight_requests := max_inflight;
                       max_completed_requests := max_completed; completed_request_ttl := ttl |};
        d_max_request_timeout_ms := max_timeout_ms; d_runtime_epoch := runtime_epoch;
        d_channels := ∅; d_next_channel := 0; d_tasks := ∅; d_log := [] |}.

(** * Request validation *)

Definition is_request_id_byte (b : Z) : bool :=
  ((48 <=? b) && (b <=? 57)) || ((65 <=? b) && (b <=? 90)) || ((97 <=? b) && (b <=? 122))
  || (b =? 45) || (b =? 95) || (b =? 46) || (b =? 58).

Definition valid_request_id (id : RequestId) : bool :=
  negb (str_eqb id "") && (slen id <=? MAX_REQUEST_ID_BYTES)
  && negb (bytes_any (fun b => negb (is_request_id_byte b)) id).

Definition is_mutation_command (c : Command) : bool :=
  match c with
  | PerformAction _ | LaunchApplication _ | WriteClipboard _ => true
  | _ => false
  end.

Definition command_digest (c : Command) : option string :=
  match command_to_json env c with
  | Some bytes => Some (sha256_digest env bytes)
  | None => None
  end.

Definition validate_request (d : Dispatcher) (r : RequestEnvelope) : Result string CuaError :=
  ensure_not (negb (str_eqb (re_protocol_version r) PROTOCOL_VERSION))
    (public_error ProtocolMismatch "unsupported protocol version" false
       (Some "negotiate_protocol_version"%string)) ;?
  ensure_not (negb (token_accepts (d_token d) (re_authorization r)))
    (public_error Unauthorized "invalid local transport authorization" false None) ;?
  ensure_not (negb (valid_request_id (re_request_id r)))
    (public_error InvalidRequest "request_id is empty, too long, or not normalized" false
       (Some "use_fresh_request_id"%string)) ;?
  ensure_not ((re_timeout_ms r =? 0) || (d_max_request_timeout_ms d <? re_timeout_ms r))
    (public_error InvalidRequest "timeout_ms is outside the configured bound" false
       (Some "use_bounded_timeout"%string)) ;?
  ok_or (command_digest (re_command r))
    (public_error Internal "failed to compute request identity" false None).

(** * The ledger *)

Definition entry_expired (now : Z) (e : RequestEntry) : bool :=
  match e with
  | Complete _ _ _ expires_at => expires_at <=? now
  | Pending _ _ _ => false
  end.

(** [RequestLedger::purge_expired]. *)
Definition purge_expired (l : RequestLedger) (now : Z) : RequestLedger :=
  {| l with entries := filter (fun p => entry_expired now p.2 = false) (entries l) |}.

Definition entry_digest (e : RequestEntry) : string :=
  match e with Pending d _ _ => d | Complete d _ _ _ => d end.

Definition entry_is_mutation (e : RequestEntry) : bool :=
  match e with Pending _ m _ => m | Complete _ m _ _ => m end.

Definition begin_request (d : Dispatcher) (id : RequestId) (digest : string) (is_mutation : bool) (now : Z)
    : Dispatcher * BeginRequest :=
  let ledger := purge_expired (d_ledger d) now in
  let d := {| d with d_ledger := ledger |} in
  match entries ledger !! id with
  | Some (Pending existing _ channel) =>
      if str_eqb existing digest then (d, Wait channel) else (d, Conflict)
  | Some (Complete existing _ response _) =>
      if str_eqb existing digest then (d, Replay response) else (d, Conflict)
  | None =>
      if max_inflight_requests ledger <=? inflight_requests ledger then (d, BeginBusy)
      else if max_completed_requests ledger <=? msize (entries ledger) then (d, BeginBusy)
      else
        let channel := d_next_channel d in
        ({| d with
            d_channels := <[channel := None]> (d_channels d);
            d_next_channel := S channel;
            d_ledger := {| ledger with
              entries := <[id := Pending digest is_mutation channel]> (entries ledger);
              inflight_requests := inflight_requests ledger + 1 |} |}, Execute channel)
  end.

(** [spawn_execution]: the task runs until [finish_execution]. *)
Definition spawn_execution (d : Dispatcher) (channel : nat) (id : RequestId) (digest : string)
    (c : Command) (now : Z) : Dispatcher :=
  {| d with
     d_tasks := <[channel := {| task_request_id := id; task_digest := digest; task_command := c |}]> (d_tasks d);
     d_log := Started id c now :: d_log d |}.

Definition complete_request (d : Dispatcher) (id : RequestId) (digest : string) (is_mutation : bool)
    (response : ResponseEnvelope) (now : Z) : Dispatcher :=
  let ledger := d_ledger d in
  let removed := delete id (entries ledger) in
  let '(inflight, channels) :=
    match entries ledger !! id with
    | Some (Pending _ _ channel) =>
        (sat_sub (inflight_requests ledger) 1, <[channel := Some response]> (d_channels d))
    | _ => (inflight_requests ledger, d_channels d)
    end in
  let expires_at := now + completed_request_ttl ledger in
  {| d with
     d_channels := channels;
     d_ledger := {| ledger with
       entries := <[id := Complete digest is_mutation response expires_at]> removed;
       inflight_requests := inflight |} |}.

(** The end of a spawned execution whose [runtime.execute] returned [outcome]. *)
Definition finish_execution (d : Dispatcher) (channel : nat) (outcome : ResponseOutcome) (now : Z)
    : option Dispatcher :=
  match d_tasks d !! channel with
  | None => None
  | Some task =>
      let id := task_request_id task in
      let response :=
        {| rs_protocol_version := PROTOCOL_VERSION; rs_request_id := id; rs_outcome := outcome |} in
      let d1 := complete_request d id (task_digest task) (is_mutation_command (task_command task)) response now in
      Some {| d1 with d_tasks := delete channel (d_tasks d1); d_log := Finished id now :: d_log d1 |}
  end.

(** * Responses *)

Definition pre_admission_failure (id : RequestId) (e : CuaError) (is_mutation : bool) : ResponseEnvelope :=
  failure id (with_mutation_status e (if is_mutation then NotDispatched else NotApplicable)).

Definition deadline_exceeded (id : RequestId) (is_mutation : bool) : ResponseEnvelope :=
  failure id
    (with_mutation_status
       (public_error DeadlineExceeded
          "request deadline elapsed; retry with the same request_id to reconcile" true
          (Some "retry_same_request_id"%string))
       (if is_mutation then Indeterminate else NotApplicable)).

(** [wait_for_response]: the value borrowed first, or the value after a change. *)
Definition wait_for_response (borrowed : option ResponseEnvelope) (wake : Wake) : option ResponseEnvelope :=
  match borrowed with
  | Some response => Some response
  | None => match wake with Changed value => value | SenderDropped | TimedOut => None end
  end.

(** * Reconciliation *)

Definition reconciliation (d : Dispatcher) (id : RequestId) (a : MutationAdmission)
    (disposition : MutationDisposition) : MutationReconciliation :=
  {| mr_request_id := id; mr_runtime_epoch := d_runtime_epoch d; mr_worker_epoch := None;
     mr_admission := a; mr_disposition := disposition; mr_dispatched := None;
     mr_effect_status := None; mr_evidence_kind := None; mr_error_code := None;
     mr_fresh_observation_required := false |}.

Definition reconciliation_from_response (d : Dispatcher) (response : ResponseEnvelope) : MutationReconciliation :=
  let result := reconciliation d (rs_request_id response) MAdmitted MDSucceeded in
  match rs_outcome response with
  | Success (RActionPerformed output) =>
      {| result with
         mr_dispatched := Some (ao_dispatched output);
         mr_effect_status := Some (ao_effect_status output);
         mr_evidence_kind := Some (ao_evidence_kind output);
         mr_fresh_observation_required := ao_observation_invalidated output |}
  | Success (RClipboardWritten output) =>
      {| result with
         mr_dispatched := Some (cw_dispatched output);
         mr_effect_status := Some (cw_effect_status output);
         mr_evidence_kind := Some (cw_evidence_kind output) |}
  | Success (RApplicationLaunched output) =>
      {| result with
         mr_dispatched := Some (lo_dispatched output);
         mr_fresh_observation_required := true |}
  | Success _ => {| result with mr_disposition := MDNotMutation |}
  | Error e =>
      {| result with
         mr_disposition := match mutation_status e with
                           | NotDispatched => MDNotDispatched
                           | Indeterminate => MDIndeterminate
                           | NotApplicable => MDNotMutation
                           end;
         mr_error_code := Some (code e);
         mr_fresh_observation_required := bool_decide (mutation_status e = Indeterminate) |}
  end.

(** The snapshot taken under the ledger lock by [reconcile_mutation]. *)
Definition reconcile_snapshot (d : Dispatcher) (id : RequestId) (now : Z)
    : Dispatcher * ReconciliationSnapshot :=
  let ledger := purge_expired (d_ledger d) now in
  let d := {| d with d_ledger := ledger |} in
  match entries ledger !! id with
  | None => (d, SnapMissing)
  | Some e =>
      if negb (entry_is_mutation e) then (d, SnapNotMutation)
      else match e with
           | Pending _ _ channel => (d, SnapPending channel)
           | Complete _ _ response _ => (d, SnapComplete response)
           end
  end.

Definition reconcile_input_error : CuaError :=
  public_error InvalidRequest "reconciliation request_id or wait is outside the configured bound" false
    (Some "fix_reconciliation_request"%string).

(** [reconcile_mutation] up to its wait; [reply_to] is the asking request. *)
Definition reconcile_mutation (d : Dispatcher) (id : RequestId) (wait : Z) (now : Z) (reply_to : RequestId)
    : Dispatcher * Progress :=
  if negb (valid_request_id id) || (d_max_request_timeout_ms d * millisecond <? wait)
  then (d, Responded (failure reply_to reconcile_input_error))
  else
    let '(d, snapshot) := reconcile_snapshot d id now in
    let answer r :=
      Responded {| rs_protocol_version := PROTOCOL_VERSION; rs_request_id := reply_to;
                   rs_outcome := Success (RMutationReconciled r) |} in
    (d, match snapshot with
        | SnapMissing => answer (reconciliation d id AdmissionUnknown MDUnknown)
        | SnapNotMutation => answer (reconciliation d id MAdmitted MDNotMutation)
        | SnapComplete response => answer (reconciliation_from_response d response)
        | SnapPending channel => AwaitReconciliation channel (now + wait) id reply_to
        end).

(** * Dispatch *)

Definition resolve_request (d : Dispatcher) (b : BeginRequest) (r : RequestEnvelope) (digest : string)
    (now deadline : Z) (is_mutation : bool) : Dispatcher * Progress :=
  let id := re_request_id r in
  match b with
  | Execute receiver =>
      (spawn_execution d receiver id digest (re_command r) now,
       AwaitResponse receiver deadline id is_mutation)
  | Replay response => (d, Responded response)
  | Wait receiver => (d, AwaitResponse receiver deadline id is_mutation)
  | BeginBusy =>
      (d, Responded (pre_admission_failure id
            (public_error Busy "in-flight request capacity is exhausted" true
               (Some "retry_after_capacity"%string)) is_mutation))
  | Conflict =>
      (d, Responded (pre_admission_failure id
            (public_error InvalidRequest "request_id was already used for a different command" false
               (Some "use_fresh_request_id"%string)) is_mutation))
  end.

(** [dispatch_inner] up to its wait. *)
Definition dispatch_start (d : Dispatcher) (r : RequestEnvelope) (now : Z) : Dispatcher * Progress :=
  let id := re_request_id r in
  let is_mutation := is_mutation_command (re_command r) in
  match validate_request d r with
  | Err e => (d, Responded (pre_admission_failure id e is_mutation))
  | Ok digest =>
      match re_command r with
      | ReconcileMutation input =>
          if negb (valid_request_id (rm_request_id input))
             || (d_max_request_timeout_ms d <? rm_wait_ms input)
          then (d, Responded (failure id
                  (public_error InvalidRequest
                     "reconciliation request_id or wait_ms is outside the configured bound" false
                     (Some "fix_reconciliation_request"%string))))
          else reconcile_mutation d (rm_request_id input) (rm_wait_ms input * millisecond) now id
      | _ =>
          let deadline := now + re_timeout_ms r * millisecond in
          let '(d1, b) := begin_request d id digest is_mutation now in
          resolve_request d1 b r digest now deadline is_mutation
      end
  end.

(** The rest of [dispatch_inner], in the state [d] in which the wait ends. *)
Definition dispatch_finish (d : Dispatcher) (p : Progress) (borrowed : option ResponseEnvelope) (wake : Wake)
    : ResponseEnvelope :=
  match p with
  | Responded response => response
  | AwaitResponse _ _ id is_mutation =>
      match wait_for_response borrowed wake with
      | Some response => response
      | None => deadline_exceeded id is_mutation
      end
  | AwaitReconciliation _ _ id reply_to =>
      {| rs_protocol_version := PROTOCOL_VERSION; rs_request_id := reply_to;
         rs_outcome := Success (RMutationReconciled
           match wait_for_response borrowed wake with
           | Some response => reconciliation_from_response d response
           | None => reconciliation d id MAdmitted MDPending
           end) |}
  end.

(** * Runs *)

Inductive dispatch_event :=
| Arrive (request : RequestEnvelope) (now : Z)
| Finish (channel : nat) (outcome : ResponseOutcome) (now : Z).

Definition event_time (e : dispatch_event) : Z :=
  match e with Arrive _ t => t | Finish _ _ t => t end.

Definition dispatch_step (d : Dispatcher) (e : dispatch_event) : option Dispatcher :=
  match e with
  | Arrive request now => Some (fst (dispatch_start d request now))
  | Finish channel outcome now => finish_execution d channel outcome now
  end.

Fixpoint dispatch_run (d : Dispatcher) (es : list dispatch_event) : option Dispatcher :=
  match es with
  | [] => Some d
  | e :: es' => match dispatch_step d e with Some d' => dispatch_run d' es' | None => None end
  end.

End Dispatch.

(** * Invariant *)

Definition is_pending (e : RequestEntry) : bool := match e with Pending _ _ _ => true | _ => false end.

Definition log_id (l : log_entry) : RequestId := match l with Started id _ _ => id | Finished id _ => id end.

(** The newest log entry about a request identity. *)
Definition last_event (id : RequestId) (log : list log_entry) : option log_entry :=
  head (filter (fun l => log_id l = id) log).

(** How the ledger entry of an identity relates to its last log entry, at a
    time [clock] not before the last event. *)
Definition log_matches (ttl clock : Z) (e : option RequestEntry) (l : option log_entry) : Prop :=
  match e, l with
  | Some (Pending _ _ _), Some (Started _ _ _) => True
  | Some (Complete _ _ _ expires), Some (Finished _ t) => expires = t + ttl
  | None, None => True
  | None, Some (Finished _ t) => t + ttl <= clock
  | _, _ => False
  end.

(** Between two executions of one identity the first has finished and its
    response has been retained for the whole lifetime. *)
Definition at_most_once (ttl : Z) (log : list log_entry) : Prop :=
  forall newer mid older id c1 t1 c2 t2,
    log = newer ++ Started id c2 t2 :: mid ++ Started id c1 t1 :: older ->
    exists t, Finished id t ∈ mid /\ t + ttl <= t2.

Record dispatcher_inv (d : Dispatcher) (clock : Z) : Prop := {
  di_inflight : inflight_requests (d_ledger d) = mcount is_pending (entries (d_ledger d));
  di_inflight_bound : inflight_requests (d_ledger d) <= max_inflight_requests (d_ledger d);
  di_entries_bound : msize (entries (d_ledger d)) <= max_completed_requests (d_ledger d);
  di_tasks : forall ch t, d_tasks d !! ch = Some t ->
    entries (d_ledger d) !! task_request_id t =
      Some (Pending (task_digest t) (is_mutation_command (task_command t)) ch) /\
    d_channels d !! ch = Some None;
  di_pending : forall id dg m ch, entries (d_ledger d) !! id = Some (Pending dg m ch) ->
    exists t, d_tasks d !! ch = Some t /\ task_request_id t = id;
  di_fresh : forall ch, is_Some (d_tasks d !! ch) -> (ch < d_next_channel d)%nat;
  di_log : forall id, log_matches (completed_request_ttl (d_ledger d)) clock
    (entries (d_ledger d) !! id) (last_event id (d_log d));
  di_once : at_most_once (completed_request_ttl (d_ledger d)) (d_log d);
}.

(** * Lemmas *)

Lemma last_event_cons_eq l log : last_event (log_id l) (l :: log) = Some l.
Proof. unfold last_event. by rewrite filter_cons_True. Qed.

Lemma last_event_cons_ne id l log : log_id l <> id -> last_event id (l :: log) = last_event id log.
Proof. intros. unfold last_event. by rewrite filter_cons_False. Qed.

(** If the newest entry about [id] is [Finished], it comes after every start. *)
Lemma last_finished_after id log mid older c t1 t :
  last_event id log = Some (Finished id t) -> log = mid ++ Started id c t1 :: older -> Finished id t ∈ mid.
Proof.
  intros Hl ->. unfold last_event in Hl. rewrite filter_app in Hl.
  destruct (filter (fun l => log_id l = id) mid) as [|x xs] eqn:E; simpl in Hl.
  - rewrite filter_cons_True in Hl by done. discriminate Hl.
  - injection Hl as ->. assert (Hx : Finished id t ∈ filter (fun l => log_id l = id) mid) by (rewrite E; set_solver).
    by apply list_elem_of_filter in Hx as [_ ?].
Qed.

Lemma last_event_about id log l : last_event id log = Some l -> log_id l = id.
Proof.
  unfold last_event. intros Hh. assert (Hx : l ∈ filter (fun l => log_id l = id) log).
  { destruct (filter _ log); simpl in Hh; [done|]. injection Hh as ->. set_solver. }
  by apply list_elem_of_filter in Hx as [? _].
Qed.

Lemma at_most_once_start ttl log id c now :
  at_most_once ttl log ->
  (forall l, last_event id log = Some l -> exists t, l = Finished id t /\ t + ttl <= now) ->
  at_most_once ttl (Started id c now :: log).
Proof.
  intros Hold Hlast newer mid older id' c1 t1 c2 t2 E.
  destruct newer as [|x newer]; simpl in E; [|injection E as _ E; by eapply Hold].
  injection E as <- <- <- E2. destruct (last_event id log) as [l|] eqn:El.
  - destruct (Hlast l eq_refl) as (t & -> & Ht). exists t. split; [|done]. by eapply last_finished_after.
  - exfalso. unfold last_event in El. rewrite E2, filter_app in El.
    rewrite filter_cons_True in El by done. by destruct (filter _ mid).
Qed.

Lemma at_most_once_finish ttl log id now : at_most_once ttl log -> at_most_once ttl (Finished id now :: log).
Proof.
  intros Hold [|x newer] mid older id' c1 t1 c2 t2 E; simpl in E; [done|].
  injection E as _ E. by eapply Hold.
Qed.

Lemma log_matches_mono ttl clock clock' e l : clock <= clock' ->
  log_matches ttl clock e l -> log_matches ttl clock' e l.
Proof. destruct e as [[]|], l as [[]|]; simpl; try done. lia. Qed.

Lemma purge_lookup l now id e :
  entries (purge_expired l now) !! id = Some e <-> entries l !! id = Some e /\ entry_expired now e = false.
Proof. unfold purge_expired. cbn [entries]. by rewrite map_lookup_filter_Some. Qed.

Definition purged (d : Dispatcher) (now : Z) : Dispatcher :=
  {| d with d_ledger := purge_expired (d_ledger d) now |}.

Lemma purged_inv d clock now : dispatcher_inv d clock -> clock <= now -> dispatcher_inv (purged d now) now.
Proof.
  intros [] Hc. constructor; cbn [purged d_ledger d_tasks d_channels d_next_channel d_log inflight_requests
    max_inflight_requests max_completed_requests completed_request_ttl purge_expired]; try done.
  - unfold purge_expired. cbn [entries]. rewrite mcount_filter; [done|]. by intros k [].
  - unfold purge_expired. cbn [entries]. etrans; [apply msize_filter_le | done].
  - intros ch t Ht. destruct (di_tasks0 _ _ Ht). split; [|done]. by apply purge_lookup.
  - intros id dg m ch [? _]%purge_lookup. by eapply di_pending0.
  - intros id. specialize (di_log0 id).
    destruct (entries (purge_expired (d_ledger d) now) !! id) as [e|] eqn:E.
    + apply purge_lookup in E as [E _]. rewrite E in di_log0. by eapply log_matches_mono.
    + destruct (entries (d_ledger d) !! id) as [e|] eqn:E'; [|by eapply log_matches_mono].
      assert (Hexp : entry_expired now e = true).
      { destruct (entry_expired now e) eqn:Ex; [done|]. exfalso.
        assert (entries (purge_expired (d_ledger d) now) !! id = Some e) by by apply purge_lookup. congruence. }
      destruct e; [done|]. simpl in Hexp. destruct (last_event id (d_log d)) as [[]|]; simpl in *; try done. lia.
Qed.

Lemma dispatcher_inv_mono d clock clock' : dispatcher_inv d clock -> clock <= clock' -> dispatcher_inv d clock'.
Proof. intros [] Hc. constructor; try done. intros id. by eapply log_matches_mono. Qed.

(** The state after a request is admitted and its execution spawned. *)
Definition admitted (d : Dispatcher) (id : RequestId) (digest : string) (c : Command) (now : Z) : Dispatcher :=
  {| d with
     d_channels := <[d_next_channel d := None]> (d_channels d);
     d_next_channel := S (d_next_channel d);
     d_ledger := {| (d_ledger d) with
       entries := <[id := Pending digest (is_mutation_command c) (d_next_channel d)]> (entries (d_ledger d));
       inflight_requests := inflight_requests (d_ledger d) + 1 |};
     d_tasks := <[d_next_channel d :=
       {| task_request_id := id; task_digest := digest; task_command := c |}]> (d_tasks d);
     d_log := Started id c now :: d_log d |}.

Lemma admitted_inv d id digest c now :
  dispatcher_inv d now -> entries (d_ledger d) !! id = None ->
  inflight_requests (d_ledger d) < max_inflight_requests (d_ledger d) ->
  msize (entries (d_ledger d)) < max_completed_requests (d_ledger d) ->
  dispatcher_inv (admitted d id digest c now) now.
Proof.
  intros [] Hid Hin Hen.
  assert (Hnew : d_tasks d !! d_next_channel d = None).
  { apply eq_None_not_Some. intros ?%di_fresh0. lia. }
  constructor; cbn [admitted d_ledger d_tasks d_channels d_next_channel d_log inflight_requests entries
    max_inflight_requests max_completed_requests completed_request_ttl].
  - rewrite mcount_insert_new by done. simpl. lia.
  - lia.
  - rewrite msize_insert_None by done. lia.
  - intros ch t [[<- <-]|[Hne Ht]]%lookup_insert_Some; cbn [task_request_id task_digest task_command].
    + by rewrite !lookup_insert_eq.
    + destruct (di_tasks0 _ _ Ht) as [He Hch]. rewrite !lookup_insert_ne; [done..|]. intros ->. congruence.
  - intros id' dg m ch [[<- [= <- <- <-]]|[Hne He]]%lookup_insert_Some.
    + eexists. by rewrite lookup_insert_eq.
    + destruct (di_pending0 _ _ _ _ He) as (t & Ht & <-). exists t. split; [|done].
      rewrite lookup_insert_ne; [done|]. intros <-. congruence.
  - intros ch [<-|Hch]%lookup_insert_is_Some'; [lia|]. apply di_fresh0 in Hch. lia.
  - intros id'. destruct (decide (id = id')) as [<-|Hne].
    + rewrite lookup_insert_eq. by rewrite (last_event_cons_eq (Started id c now)).
    + rewrite lookup_insert_ne, last_event_cons_ne by done. apply di_log0.
  - apply at_most_once_start; [done|]. intros l Hl. specialize (di_log0 id). rewrite Hid, Hl in di_log0.
    pose proof (last_event_about _ _ _ Hl) as Hid'. destruct l; simpl in *; [done|]. subst. eauto.
Qed.

Lemma finish_inv d clock now ch o d' :
  dispatcher_inv d clock -> finish_execution d ch o now = Some d' -> clock <= now -> dispatcher_inv d' now.
Proof.
  intros Hi Hf Hc. pose proof (dispatcher_inv_mono _ _ _ Hi Hc) as []. unfold finish_execution in Hf.
  destruct (d_tasks d !! ch) as [t|] eqn:Et; [|done]. injection Hf as <-.
  destruct (di_tasks0 _ _ Et) as [He Hch]. unfold complete_request. rewrite He.
  assert (Huniq : forall ch' t', d_tasks d !! ch' = Some t' -> ch' <> ch -> task_request_id t' <> task_request_id t).
  { intros ch' t' Ht' Hne Heq. destruct (di_tasks0 _ _ Ht') as [He' _]. rewrite Heq in He'. naive_solver. }
  constructor; cbn [d_ledger d_tasks d_channels d_next_channel d_log inflight_requests entries
    max_inflight_requests max_completed_requests completed_request_ttl]; rewrite ?insert_delete_eq.
  - rewrite (mcount_insert_over _ _ _ _ _ He). simpl. unfold sat_sub.
    pose proof (mcount_positive is_pending _ _ _ He eq_refl). lia.
  - unfold sat_sub. pose proof (mcount_nonneg is_pending (entries (d_ledger d))). lia.
  - rewrite msize_insert_Some by eauto. done.
  - intros ch' t' [Hne Ht']%lookup_delete_Some. destruct (di_tasks0 _ _ Ht') as [He' Hch'].
    rewrite !lookup_insert_ne; [done|done|]. apply not_eq_sym. eapply Huniq; eauto.
  - intros id dg m ch' [[_ [=]]|[Hne He']]%lookup_insert_Some.
    destruct (di_pending0 _ _ _ _ He') as (t' & Ht' & <-). exists t'. split; [|done].
    rewrite lookup_delete_ne; [done|]. intros <-. congruence.
  - intros ch' [? [_ Hx]%lookup_delete_Some]. apply di_fresh0. eauto.
  - intros id. destruct (decide (task_request_id t = id)) as [<-|Hne].
    + rewrite lookup_insert_eq. by rewrite (last_event_cons_eq (Finished (task_request_id t) now)).
    + rewrite lookup_insert_ne, last_event_cons_ne by done. apply di_log0.
  - by apply at_most_once_finish.
Qed.

Lemma reconcile_state d id wait now reply_to :
  (reconcile_mutation d id wait now reply_to).1 = d \/ (reconcile_mutation d id wait now reply_to).1 = purged d now.
Proof.
  unfold reconcile_mutation. destruct (_ || _); [by left|]. right. unfold reconcile_snapshot.
  destruct (entries _ !! id) as [e|]; [|done]. destruct (negb _); [done|]. by destruct e.
Qed.

(** What a request that passed validation does to the state. *)
Lemma begin_resolve_cases d r digest now deadline :
  let m := is_mutation_command (re_command r) in
  let '(d1, b) := begin_request d (re_request_id r) digest m now in
  let '(d', p) := resolve_request d1 b r digest now deadline m in
  match entries (d_ledger (purged d now)) !! re_request_id r with
  | Some e =>
      d' = purged d now /\
      p = if str_eqb (entry_digest e) digest
          then match e with
               | Pending _ _ ch => AwaitResponse ch deadline (re_request_id r) m
               | Complete _ _ response _ => Responded response
               end
          else Responded (pre_admission_failure (re_request_id r)
                 (public_error InvalidRequest "request_id was already used for a different command" false
                    (Some "use_fresh_request_id"%string)) m)
  | None =>
      if (max_inflight_requests (d_ledger d) <=? inflight_requests (d_ledger d))
         || (max_completed_requests (d_ledger d) <=? msize (entries (d_ledger (purged d now))))
      then d' = purged d now /\
           p = Responded (pre_admission_failure (re_request_id r)
                 (public_error Busy "in-flight request capacity is exhausted" true
                    (Some "retry_after_capacity"%string)) m)
      else d' = admitted (purged d now) (re_request_id r) digest (re_command r) now /\
           p = AwaitResponse (d_next_channel d) deadline (re_request_id r) m
  end.
Proof.
  cbn zeta. unfold begin_request. fold (purged d now). cbn [d_ledger purged].
  destruct (entries (purge_expired (d_ledger d) now) !! re_request_id r) as [[]|]; simpl entry_digest.
  - by destruct (str_eqb _ _).
  - by destruct (str_eqb _ _).
  - change (max_inflight_requests (purge_expired (d_ledger d) now)) with (max_inflight_requests (d_ledger d)).
    change (inflight_requests (purge_expired (d_ledger d) now)) with (inflight_requests (d_ledger d)).
    change (max_completed_requests (purge_expired (d_ledger d) now)) with (max_completed_requests (d_ledger d)).
    destruct (max_inflight_requests (d_ledger d) <=? _); [done|]. cbn [orb].
    by destruct (max_completed_requests (d_ledger d) <=? _).
Qed.

Definition is_reconcile (c : Command) : bool := match c with ReconcileMutation _ => true | _ => false end.

Lemma dispatch_start_other env d r now digest :
  validate_request env d r = Ok digest -> is_reconcile (re_command r) = false ->
  dispatch_start env d r now =
  (let m := is_mutation_command (re_command r) in
   let '(d1, b) := begin_request d (re_request_id r) digest m now in
   resolve_request d1 b r digest now (now + re_timeout_ms r * millisecond) m).
Proof. intros Hv Hr. unfold dispatch_start. rewrite Hv. by destruct (re_command r). Qed.

(** The state changes of a request: none, a purge, or a purge and an admission. *)
Lemma dispatch_start_cases env d r now :
  let d' := (dispatch_start env d r now).1 in
  d' = d \/ d' = purged d now \/
  exists digest, validate_request env d r = Ok digest /\
    entries (d_ledger (purged d now)) !! re_request_id r = None /\
    inflight_requests (d_ledger d) < max_inflight_requests (d_ledger d) /\
    msize (entries (d_ledger (purged d now))) < max_completed_requests (d_ledger d) /\
    d' = admitted (purged d now) (re_request_id r) digest (re_command r) now.
Proof.
  cbn zeta. destruct (validate_request env d r) as [digest|e] eqn:Ev;
    [|left; unfold dispatch_start; by rewrite Ev].
  destruct (is_reconcile (re_command r)) eqn:Er.
  - unfold dispatch_start. rewrite Ev. destruct (re_command r); try done.
    destruct (_ || _); [by left|]. destruct (reconcile_state d (rm_request_id input)
      (rm_wait_ms input * millisecond) now (re_request_id r)) as [->| ->]; auto.
  - rewrite (dispatch_start_other _ _ _ _ _ Ev Er).
    pose proof (begin_resolve_cases d r digest now (now + re_timeout_ms r * millisecond)) as Hb. cbn zeta in *.
    destruct (begin_request _ _ _ _ _) as [d1 b]. destruct (resolve_request _ _ _ _ _ _ _) as [d' p].
    cbn [fst]. destruct (entries _ !! _) eqn:Ee; [right; left; by destruct Hb|].
    destruct (_ || _) eqn:Eb; [right; left; by destruct Hb|]. right; right. exists digest.
    apply orb_false_iff in Eb as [?%Z.leb_gt ?%Z.leb_gt]. by destruct Hb as [-> _].
Qed.

Lemma dispatch_step_inv env d clock e d' :
  dispatcher_inv d clock -> clock <= event_time e -> dispatch_step env d e = Some d' ->
  dispatcher_inv d' (event_time e).
Proof.
  intros Hi Hc. destruct e as [r now|ch o now]; simpl in *.
  - intros [= <-]. pose proof (purged_inv _ _ _ Hi Hc) as Hp.
    destruct (dispatch_start_cases env d r now) as [-> | [-> | (dg & _ & ? & ? & ? & ->)]]; [|done|].
    + by eapply dispatcher_inv_mono.
    + by apply admitted_inv.
  - intros Hf. by eapply finish_inv.
Qed.

(** Event times never run backwards. *)
Fixpoint monotone_from (clock : Z) (es : list dispatch_event) : Prop :=
  match es with
  | [] => True
  | e :: es' => clock <= event_time e /\ monotone_from (event_time e) es'
  end.

Definition last_time (clock : Z) (es : list dispatch_event) : Z := foldl (fun _ e => event_time e) clock es.

Lemma dispatch_run_inv env es d clock d' :
  dispatcher_inv d clock -> monotone_from clock es -> dispatch_run env d es = Some d' ->
  dispatcher_inv d' (last_time clock es).
Proof.
  revert d clock. induction es as [|e es IH]; intros d clock Hi Hm Hr; simpl in *; [by injection Hr as <-|].
  destruct (dispatch_step env d e) as [d1|] eqn:E; [|done]. destruct Hm as [Hm1 Hm2].
  apply (IH d1); [by eapply dispatch_step_inv | done | done].
Qed.

Lemma dispatcher_new_inv env epoch token i c ttl t d clock :
  dispatcher_new env epoch token i c ttl t = Ok d -> 0 <= i -> 0 <= c -> dispatcher_inv d clock.
Proof.
  unfold dispatcher_new. intros H Hi Hc. res_inv.
  constructor; cbn [d_ledger d_tasks d_channels d_next_channel d_log inflight_requests entries
    max_inflight_requests max_completed_requests completed_request_ttl].
  - by rewrite mcount_empty.
  - done.
  - unfold msize. by rewrite map_size_empty.
  - intros ? ? Hx. by rewrite lookup_empty in Hx.
  - intros ? ? ? ? Hx. by rewrite lookup_empty in Hx.
  - intros ? [? Hx]. by rewrite lookup_empty in Hx.
  - intros id. by rewrite lookup_empty.
  - intros newer mid older id c1 t1 c2 t2 E. by destruct newer.
Qed.

(** ** Retention of recorded responses *)

Record retained (d : Dispatcher) (id : RequestId) (dg : string) (m : bool) (response : ResponseEnvelope)
    (expires : Z) (ch : nat) : Prop := {
  rt_entry : entries (d_ledger d) !! id = Some (Complete dg m response expires);
  rt_channel : d_channels d !! ch = Some (Some response);
  rt_old : (ch < d_next_channel d)%nat;
  rt_done : d_tasks d !! ch = None;
}.

Lemma purged_retained d id dg m response expires ch now :
  now < expires -> retained d id dg m response expires ch -> retained (purged d now) id dg m response expires ch.
Proof.
  intros Hn []. constructor; try done. apply purge_lookup. split; [done|]. simpl. by apply Z.leb_gt.
Qed.

Lemma finish_retains d clock ch0 task o now d' :
  dispatcher_inv d clock -> d_tasks d !! ch0 = Some task -> finish_execution d ch0 o now = Some d' ->
  retained d' (task_request_id task) (task_digest task) (is_mutation_command (task_command task))
    {| rs_protocol_version := PROTOCOL_VERSION; rs_request_id := task_request_id task; rs_outcome := o |}
    (now + completed_request_ttl (d_ledger d)) ch0.
Proof.
  intros Hi Ht Hf. destruct (di_tasks _ _ Hi _ _ Ht) as [He Hch].
  unfold finish_execution, complete_request in Hf. rewrite Ht, He in Hf. injection Hf as <-.
  constructor; cbn [d_ledger d_tasks d_channels d_next_channel entries].
  - by rewrite lookup_insert_eq.
  - by rewrite lookup_insert_eq.
  - apply (di_fresh _ _ Hi). eauto.
  - by rewrite lookup_delete_eq.
Qed.

Lemma step_retained env d clock e d' id dg m response expires ch :
  dispatcher_inv d clock -> event_time e < expires -> dispatch_step env d e = Some d' ->
  retained d id dg m response expires ch -> retained d' id dg m response expires ch.
Proof.
  intros Hi Ht Hs Hr. destruct e as [r now|ch' o now]; simpl in *.
  - injection Hs as <-. pose proof (purged_retained _ _ _ _ _ _ _ _ Ht Hr) as Hp.
    destruct (dispatch_start_cases env d r now) as [-> | [-> | (dg' & _ & Hn & _ & _ & ->)]]; [done..|].
    destruct Hp as [He Hc Ho Hd].
    constructor; cbn [admitted d_ledger d_tasks d_channels d_next_channel entries].
    + rewrite lookup_insert_ne; [done|]. intros <-. congruence.
    + rewrite lookup_insert_ne; [done|]. lia.
    + lia.
    + rewrite lookup_insert_ne; [done|]. lia.
  - unfold finish_execution in Hs. destruct (d_tasks d !! ch') as [t|] eqn:Et; [|done].
    destruct (di_tasks _ _ Hi _ _ Et) as [He' _]. destruct Hr as [He Hc Ho Hd].
    assert (task_request_id t <> id) by (intros <-; congruence).
    assert (ch' <> ch) by (intros ->; congruence).
    unfold complete_request in Hs. rewrite He' in Hs. injection Hs as <-.
    constructor; cbn [d_ledger d_tasks d_channels d_next_channel entries].
    + by rewrite lookup_insert_ne, lookup_delete_ne.
    + by rewrite lookup_insert_ne.
    + done.
    + by rewrite lookup_delete_ne.
Qed.

Lemma run_retained env es d clock d' id dg m response expires ch :
  dispatcher_inv d clock -> monotone_from clock es -> Forall (fun e => event_time e < expires) es ->
  dispatch_run env d es = Some d' ->
  retained d id dg m response expires ch -> retained d' id dg m response expires ch.
Proof.
  revert d clock. induction es as [|e es IH]; intros d clock Hi Hm Ht Hr Hret; simpl in *; [by injection Hr as <-|].
  apply Forall_cons in Ht as [Ht1 Ht2]. destruct Hm as [Hm1 Hm2].
  destruct (dispatch_step env d e) as [d1|] eqn:E; [|done].
  apply (IH d1 (event_time e)); try done; [by eapply dispatch_step_inv | by eapply step_retained].
Qed.

(** * Properties *)

(** The request ledger stays consistent and bounded in every run.  The
    in-flight counter is the number of pending entries and never exceeds its
    bound, the ledger never holds more entries than its bound, and the spawned
    executions are exactly the pending entries, one each. *)
Theorem ledger_invariant env epoch token i c ttl timeout d0 clock es d :
  dispatcher_new env epoch token i c ttl timeout = Ok d0 -> 0 <= i -> 0 <= c ->
  monotone_from clock es -> dispatch_run env d0 es = Some d ->
  inflight_requests (d_ledger d) = mcount is_pending (entries (d_ledger d)) /\
  inflight_requests (d_ledger d) <= max_inflight_requests (d_ledger d) /\
  msize (entries (d_ledger d)) <= max_completed_requests (d_ledger d) /\
  (forall ch t, d_tasks d !! ch = Some t ->
     entries (d_ledger d) !! task_request_id t =
       Some (Pending (task_digest t) (is_mutation_command (task_command t)) ch)) /\
  (forall id dg m ch, entries (d_ledger d) !! id = Some (Pending dg m ch) ->
     exists t, d_tasks d !! ch = Some t /\ task_request_id t = id).
Proof.
  intros Hn Hi Hc Hm Hr.
  destruct (dispatch_run_inv _ _ _ _ _ (dispatcher_new_inv _ _ _ _ _ _ _ _ clock Hn Hi Hc) Hm Hr).
  repeat split; try done. intros ch t Ht. by apply di_tasks0.
Qed.

(** A digest that is the identity, and an encoding by operation name. *)
Definition plain_digests : DigestEnv :=
  {| sha256_digest := fun s => s;
     command_to_json := fun c => match c with
                                 | PerformAction input => Some (pa_observation_id input)
                                 | _ => Some ""%string
                                 end |}.

Definition sample_token : string := "0123456789abcdef0123456789abcdef".

Definition sample_dispatcher : Dispatcher :=
  {| d_token := {| tv_digest := sample_token |};
     d_ledger := {| entries := ∅; inflight_requests := 0; max_inflight_requests := 2;
                    max_completed_requests := 4; completed_request_ttl := 100 |};
     d_max_request_timeout_ms := 1000; d_runtime_epoch := "e"; d_channels := ∅;
     d_next_channel := 0; d_tasks := ∅; d_log := [] |}.

Definition sample_request (id observation : string) : RequestEnvelope :=
  {| re_protocol_version := PROTOCOL_VERSION; re_request_id := id; re_timeout_ms := 5;
     re_authorization := sample_token;
     re_command := PerformAction {| pa_observe_after := None; pa_session_id := "s"; pa_window_ref := "w";
       pa_observation_id := observation; pa_action := FocusWindow |} |}.

Definition sample_run : list dispatch_event :=
  [Arrive (sample_request "r1" "o") 1; Arrive (sample_request "r1" "o") 2;
   Finish 0 (Success RAcknowledged) 3; Arrive (sample_request "r2" "o") 4].

Lemma ledger_invariant_witness :
  exists d, dispatch_run plain_digests sample_dispatcher sample_run = Some d /\
    inflight_requests (d_ledger d) = mcount is_pending (entries (d_ledger d)).
Proof.
  eexists. split; [vm_compute; reflexivity|].
  refine (proj1 (ledger_invariant plain_digests "e" sample_token 2 4 100 1000 sample_dispatcher 0 sample_run _
    _ _ _ _ _)); [vm_compute; reflexivity | lia | lia | simpl; lia | vm_compute; reflexivity].
Defined.

(** C5: at most one execution per request identity.  In every run whose event
    times do not run backwards, a command is handed to the runtime a second
    time under the same identity only after the first execution has finished
    and its response has been retained for the configured lifetime. *)
Theorem at_most_once_execution env epoch token i c ttl timeout d0 clock es d :
  dispatcher_new env epoch token i c ttl timeout = Ok d0 -> 0 <= i -> 0 <= c ->
  monotone_from clock es -> dispatch_run env d0 es = Some d ->
  at_most_once (completed_request_ttl (d_ledger d)) (d_log d).
Proof.
  intros Hn Hi Hc Hm Hr.
  exact (di_once _ _ (dispatch_run_inv _ _ _ _ _ (dispatcher_new_inv _ _ _ _ _ _ _ _ clock Hn Hi Hc) Hm Hr)).
Qed.

Lemma at_most_once_execution_witness :
  exists d, dispatch_run plain_digests sample_dispatcher sample_run = Some d /\
    at_most_once 100 (d_log d) /\ length (d_log d) = 3%nat.
Proof.
  eexists. split; [vm_compute; reflexivity|]. split; [|reflexivity].
  refine (at_most_once_execution plain_digests "e" sample_token 2 4 100 1000 sample_dispatcher 0 sample_run _
    _ _ _ _ _); [vm_compute; reflexivity | lia | lia | simpl; lia | vm_compute; reflexivity].
Defined.

(** A recorded response is replayed until it expires.  After an execution
    finishes, whatever happens before its response expires, every request with
    the same identity and command digest is answered with exactly that
    response, a different command under that identity is refused as a conflict,
    nothing is executed again, and the waiters' channel holds the same response. *)
Theorem recorded_response_replayed env d clock ch task o now d1 es d2 r t digest :
  dispatcher_inv d clock -> clock <= now -> d_tasks d !! ch = Some task ->
  finish_execution d ch o now = Some d1 ->
  monotone_from now es -> Forall (fun e => event_time e < now + completed_request_ttl (d_ledger d)) es ->
  dispatch_run env d1 es = Some d2 ->
  t < now + completed_request_ttl (d_ledger d) -> re_request_id r = task_request_id task ->
  is_reconcile (re_command r) = false -> validate_request env d2 r = Ok digest ->
  let response :=
    {| rs_protocol_version := PROTOCOL_VERSION; rs_request_id := task_request_id task; rs_outcome := o |} in
  let step := dispatch_start env d2 r t in
  d_log step.1 = d_log d2 /\ d_tasks step.1 = d_tasks d2 /\ d_channels d2 !! ch = Some (Some response) /\
  if str_eqb (task_digest task) digest then step.2 = Responded response
  else exists e, step.2 = Responded (failure (task_request_id task) e) /\ code e = InvalidRequest /\
         mutation_status e = if is_mutation_command (re_command r) then NotDispatched else NotApplicable.
Proof.
  intros Hi Hc Ht Hf Hm Htimes Hrun Hlt Hid Hrec Hv response step. subst step.
  pose proof (finish_inv _ _ _ _ _ _ Hi Hf Hc) as Hi1.
  pose proof (run_retained _ _ _ _ _ _ _ _ _ _ _ Hi1 Hm Htimes Hrun (finish_retains _ _ _ _ _ _ _ Hi Ht Hf)) as Hret.
  pose proof (rt_channel _ _ _ _ _ _ _ Hret) as Hch.
  apply (purged_retained _ _ _ _ _ _ _ t Hlt) in Hret. destruct Hret as [He _ _ _].
  rewrite (dispatch_start_other _ _ _ _ _ Hv Hrec).
  pose proof (begin_resolve_cases d2 r digest t (t + re_timeout_ms r * millisecond)) as Hb. cbn zeta in *.
  destruct (begin_request _ _ _ _ _) as [d' b]. destruct (resolve_request _ _ _ _ _ _ _) as [d3 p].
  rewrite Hid, He in Hb. destruct Hb as [-> ->]. split; [done|]. split; [done|]. split; [done|].
  cbn [entry_digest]. destruct (str_eqb _ _); [done|]. eexists. split; [done|].
  by destruct (is_mutation_command _).
Qed.

Lemma recorded_response_replayed_witness :
  exists d d1, dispatch_run plain_digests sample_dispatcher [Arrive (sample_request "r1" "o") 1] = Some d /\
    finish_execution d 0 (Success RAcknowledged) 3 = Some d1 /\
    (dispatch_start plain_digests d1 (sample_request "r1" "o") 50).2 =
      Responded {| rs_protocol_version := PROTOCOL_VERSION; rs_request_id := "r1";
                   rs_outcome := Success RAcknowledged |}.
Proof.
  eexists _, _. split; [vm_compute; reflexivity|]. split; [vm_compute; reflexivity|].
  refine (proj2 (proj2 (proj2 (recorded_response_replayed plain_digests
    (fst (dispatch_start plain_digests sample_dispatcher (sample_request "r1" "o") 1)) 1 0
    {| task_request_id := "r1"; task_digest := "o"; task_command := re_command (sample_request "r1" "o") |}
    (Success RAcknowledged) 3 _ [] _ (sample_request "r1" "o") 50 "o" _ _ _ _ _ _ _ _ _ _ _))));
    [|vm_compute; discriminate | vm_compute; reflexivity | vm_compute; reflexivity | exact I
     | constructor | vm_compute; reflexivity | vm_compute; reflexivity | reflexivity | reflexivity
     | vm_compute; reflexivity].
  apply (dispatch_run_inv plain_digests [Arrive (sample_request "r1" "o") 1] sample_dispatcher 0);
    [|simpl; lia | reflexivity].
  apply (dispatcher_new_inv plain_digests "e" sample_token 2 4 100 1000); [vm_compute; reflexivity | lia | lia].
Defined.

(** What a response that the dispatcher itself produced says about dispatch. *)
Definition own_response (c : Command) (id : RequestId) (response : ResponseEnvelope) : Prop :=
  rs_request_id response = id /\
  match rs_outcome response with
  | Error e => mutation_status e = if is_mutation_command c then NotDispatched else NotApplicable
  | Success (RMutationReconciled _) => is_reconcile c = true
  | Success _ => False
  end.

Lemma reconcile_mutation_own d id wait now reply_to response :
  (reconcile_mutation d id wait now reply_to).2 = Responded response ->
  forall input, own_response (ReconcileMutation input) reply_to response.
Proof.
  unfold reconcile_mutation. destruct (_ || _); [by intros [= <-] input|].
  destruct (reconcile_snapshot d id now) as [d' [| | |]]; cbn [snd]; by intros [= <-] input.
Qed.

(** The dispatcher never misstates dispatch.  A request starts an
    execution only when it is then waited for, admitted under an identity with
    no retained entry and within both capacity bounds; a request answered at
    once starts nothing, and its answer is either the recorded response of its
    own identity and digest, still unexpired, or the dispatcher's own: a
    failure marked not dispatched for a mutation and not applicable otherwise,
    or a reconciliation. *)
Theorem dispatch_start_truthful env d r now :
  let step := dispatch_start env d r now in
  match step.2 with
  | Responded response =>
      d_log step.1 = d_log d /\ d_tasks step.1 = d_tasks d /\
      (own_response (re_command r) (re_request_id r) response \/
       exists digest m expires, validate_request env d r = Ok digest /\ now < expires /\
         entries (d_ledger d) !! re_request_id r = Some (Complete digest m response expires))
  | AwaitResponse ch deadline id m =>
      id = re_request_id r /\ m = is_mutation_command (re_command r) /\
      deadline = now + re_timeout_ms r * millisecond /\
      ((exists digest, validate_request env d r = Ok digest /\ d_log step.1 = d_log d /\
          entries (d_ledger d) !! id = Some (Pending digest (entry_is_mutation
            (default (Pending "" m ch) (entries (d_ledger d) !! id))) ch)) \/
       (d_log step.1 = Started id (re_command r) now :: d_log d /\ ch = d_next_channel d /\
        inflight_requests (d_ledger d) < max_inflight_requests (d_ledger d) /\
        forall e, entries (d_ledger d) !! id = Some e -> entry_expired now e = true))
  | AwaitReconciliation _ _ _ reply_to =>
      reply_to = re_request_id r /\ is_reconcile (re_command r) = true /\ d_log step.1 = d_log d /\
      d_tasks step.1 = d_tasks d
  end.
Proof.
  cbn zeta. destruct (validate_request env d r) as [digest|e] eqn:Ev.
  2:{ unfold dispatch_start. rewrite Ev. cbn [fst snd]. split; [done|]. split; [done|]. left.
      by split; [|destruct (is_mutation_command _)]. }
  destruct (is_reconcile (re_command r)) eqn:Er.
  - unfold dispatch_start. rewrite Ev. destruct (re_command r) as [| | | | | | | | | | | | | | | |input|]; try done.
    destruct (_ || _); [cbn [fst snd]; split; [done|]; split; [done|]; by left|].
    pose proof (reconcile_state d (rm_request_id input) (rm_wait_ms input * millisecond) now (re_request_id r)) as Hst.
    destruct (reconcile_mutation _ _ _ _ _) as [d' p] eqn:Em. cbn [fst snd] in *.
    assert (d_log d' = d_log d /\ d_tasks d' = d_tasks d) as [Hl Ht] by (by destruct Hst as [->| ->]).
    destruct p as [response| |].
    + split; [done|]. split; [done|]. left. eapply reconcile_mutation_own. by rewrite Em.
    + unfold reconcile_mutation in Em. destruct (_ || _); [done|].
      by destruct (reconcile_snapshot d (rm_request_id input) now) as [? []].
    + unfold reconcile_mutation in Em. destruct (_ || _); [done|].
      destruct (reconcile_snapshot d (rm_request_id input) now) as [? []]; naive_solver.
  - rewrite (dispatch_start_other _ _ _ _ _ Ev Er).
    pose proof (begin_resolve_cases d r digest now (now + re_timeout_ms r * millisecond)) as Hb. cbn zeta in *.
    destruct (begin_request _ _ _ _ _) as [d1 b]. destruct (resolve_request _ _ _ _ _ _ _) as [d' p].
    cbn [fst snd]. destruct (entries (d_ledger (purged d now)) !! re_request_id r) as [e|] eqn:Ee.
    + apply purge_lookup in Ee as [Ee Hx]. destruct Hb as [-> ->].
      destruct (str_eqb (entry_digest e) digest) eqn:Ed.
      * apply str_eqb_eq in Ed as <-. destruct e as [dg m ch|dg m response ex]; simpl in Hx |- *.
        -- do 3 (split; [done|]). left. exists dg. rewrite Ee. done.
        -- split; [done|]. split; [done|]. right. exists dg, m, ex. apply Z.leb_gt in Hx. done.
      * split; [done|]. split; [done|]. left. by split; [|destruct (is_mutation_command _)].
    + destruct (_ || _) eqn:Eb; destruct Hb as [-> ->].
      * split; [done|]. split; [done|]. left. by split; [|destruct (is_mutation_command _)].
      * apply orb_false_iff in Eb as [?%Z.leb_gt ?]. do 3 (split; [done|]). right. repeat split; try done.
        intros e He. destruct (entry_expired now e) eqn:Ex; [done|].
        rewrite (proj2 (purge_lookup (d_ledger d) now _ e)) in Ee; done.
Qed.

(** Reconciliation is read-only and truthful.  Asking about a mutation
    changes nothing but the expired entries, and the answer about a retained
    mutation is derived from its recorded response alone: [Succeeded] exactly
    for a success of a mutating operation, [NotDispatched] or [Indeterminate]
    exactly as the recorded error says, and a fresh observation is asked for
    after every indeterminate error and every launch. *)
Theorem reconcile_truthful d id wait now reply_to :
  let step := reconcile_mutation d id wait now reply_to in
  (step.1 = d \/ step.1 = purged d now) /\
  (forall dg response ex, valid_request_id id = true -> wait <= d_max_request_timeout_ms d * millisecond ->
     entries (d_ledger d) !! id = Some (Complete dg true response ex) -> now < ex ->
     exists r, step.2 = Responded {| rs_protocol_version := PROTOCOL_VERSION; rs_request_id := reply_to;
                                     rs_outcome := Success (RMutationReconciled r) |} /\
       mr_request_id r = rs_request_id response /\ mr_admission r = MAdmitted /\
       (mr_disposition r = MDSucceeded <->
          exists v, rs_outcome response = Success v /\
            ((exists a, v = RActionPerformed a) \/ (exists c, v = RClipboardWritten c) \/
             (exists l, v = RApplicationLaunched l))) /\
       (mr_disposition r = MDNotDispatched <->
          exists e, rs_outcome response = Error e /\ mutation_status e = NotDispatched) /\
       (mr_disposition r = MDIndeterminate <->
          exists e, rs_outcome response = Error e /\ mutation_status e = Indeterminate) /\
       (mr_disposition r = MDIndeterminate -> mr_fresh_observation_required r = true) /\
       (forall l, rs_outcome response = Success (RApplicationLaunched l) -> mr_fresh_observation_required r = true)).
Proof.
  cbn zeta. split; [apply reconcile_state|]. intros dg response ex Hv Hw He Hx.
  unfold reconcile_mutation, reconcile_snapshot. rewrite Hv. cbn [negb orb].
  destruct (Z.ltb_spec (d_max_request_timeout_ms d * millisecond) wait); [lia|].
  rewrite (proj2 (purge_lookup (d_ledger d) now id (Complete dg true response ex)))
    by (split; [done | by apply Z.leb_gt]).
  cbn [entry_is_mutation negb snd]. eexists. split; [done|].
  unfold reconciliation_from_response. destruct (rs_outcome response) as [v|e].
  - destruct v; cbn; naive_solver.
  - destruct (mutation_status e) eqn:Es; cbn; rewrite ?Es; split_and!; try done;
      (split; [intros [=]; try (by exists e) | intros (x & Hx' & Hs); try done; injection Hx' as <-; congruence]).
Qed.
