(* ===== verification/Environment.v ===== *)
(** Desktop environments of the host: [src/crates/host/src/environment.rs].

    A descriptor says what an environment enforces; [EnvironmentManager] bounds
    the snapshots and clones taken through a provider.  A manager call that
    awaits its provider is two steps, the reservation and the completion, and
    [manager_step] interleaves any number of calls, one of which may also be
    dropped while it waits.  The provider is a parameter: its answers are
    inputs of the completion, as is the RFC 3339 parser. *)

From S2P Require Import Prelude Text.
From Stdlib Require Import Ascii String.

Inductive EnvironmentError :=
| EnvInvalid (reason : string)
| EnvUnsupported
| EnvBusy
| StaleSnapshot
| EnvProvider (reason : string).

(** * Descriptors *)

Inductive EnvironmentKind := LocalUserDesktop | RemoteDesktop | Isolated.
#[export] Instance EnvironmentKind_eq_dec : EqDecision EnvironmentKind.
Proof. solve_decision. Defined.

Inductive NetworkPolicy :=
| NetworkNotEnforced
| DenyAll
| AllowHosts (hosts : list string)
| Unrestricted.

Record MountPolicy := { mount_ref : string; mount_read_only : bool }.

Inductive FilesystemPolicy :=
| FilesystemNotEnforced
| NoDirectAccess
| Mounts (mounts : list MountPolicy).

Inductive EnvironmentCapability := CapNetworkPolicy | CapFilesystemPolicy | CapSnapshot | CapReset | CapClone.
#[export] Instance EnvironmentCapability_eq_dec : EqDecision EnvironmentCapability.
Proof. solve_decision. Defined.

Definition capability_index (c : EnvironmentCapability) : nat :=
  match c with CapNetworkPolicy => 0 | CapFilesystemPolicy => 1 | CapSnapshot => 2 | CapReset => 3 | CapClone => 4 end.
Definition capability_at (n : nat) : option EnvironmentCapability :=
  [CapNetworkPolicy; CapFilesystemPolicy; CapSnapshot; CapReset; CapClone] !! n.

#[export] Instance EnvironmentCapability_countable : Countable EnvironmentCapability.
Proof. refine (inj_countable capability_index capability_at _). by intros []. Defined.

Record EnvironmentDescriptor := {
  env_kind : EnvironmentKind;
  env_network : NetworkPolicy;
  env_filesystem : FilesystemPolicy;
  env_capabilities : list EnvironmentCapability;
  env_base_image_sha256 : option string;
}.

Definition local_user_desktop : EnvironmentDescriptor := {|
  env_kind := LocalUserDesktop; env_network := NetworkNotEnforced; env_filesystem := FilesystemNotEnforced;
  env_capabilities := []; env_base_image_sha256 := None |}.

Definition has_capability (d : EnvironmentDescriptor) (c : EnvironmentCapability) : bool :=
  bool_decide (c ∈ env_capabilities d).

Definition is_isolated (d : EnvironmentDescriptor) : bool := bool_decide (env_kind d = Isolated).

Definition network_not_enforced (p : NetworkPolicy) : bool :=
  match p with NetworkNotEnforced => true | _ => false end.

Definition filesystem_not_enforced (p : FilesystemPolicy) : bool :=
  match p with FilesystemNotEnforced => true | _ => false end.

(** [label] as one component of a host name is refused. *)
Definition label_rejected (label : string) : bool :=
  str_eqb label "" || (63 <? slen label) || starts_with_char "-" label || ends_with_char "-" label
  || negb (bytes_all (fun b => is_ascii_lowercase b || is_ascii_digit b || (b =? 45)) label).

Definition host_rejected (host : string) : bool :=
  str_eqb host "" || (253 <? slen host) || negb (str_eqb host (to_ascii_lowercase host))
  || starts_with_char "." host || ends_with_char "." host
  || existsb label_rejected (split_char "." host).

Definition validate_network (p : NetworkPolicy) : Result unit EnvironmentError :=
  match p with
  | AllowHosts hosts =>
      ensure_not ((zlen hosts =? 0) || (64 <? zlen hosts))
        (EnvInvalid "network allowlist must contain between 1 and 64 hosts") ;?
      ensure_not (negb (all_unique hosts) || existsb host_rejected hosts)
        (EnvInvalid "network allowlist hosts must be unique normalized DNS names")
  | _ => Ok tt
  end.

Definition mount_rejected (m : MountPolicy) : bool :=
  str_eqb (mount_ref m) "" || (128 <? slen (mount_ref m)) || negb (is_trimmed (mount_ref m)).

Definition validate_filesystem (p : FilesystemPolicy) : Result unit EnvironmentError :=
  match p with
  | Mounts mounts =>
      ensure_not ((zlen mounts =? 0) || (32 <? zlen mounts))
        (EnvInvalid "filesystem policy must contain between 1 and 32 mounts") ;?
      ensure_not (negb (all_unique (mount_ref <$> mounts)) || existsb mount_rejected mounts)
        (EnvInvalid "mount references must be unique, normalized, and bounded")
  | _ => Ok tt
  end.

Definition valid_sha256 (value : string) : bool :=
  (slen value =? 64) && bytes_all (fun b => is_ascii_digit b || ((97 <=? b) && (b <=? 102))) value.

Definition validate_image (d : EnvironmentDescriptor) : Result unit EnvironmentError :=
  if is_isolated d then
    let? digest := ok_or (env_base_image_sha256 d) (EnvInvalid "isolated environments require a base image digest") in
    ensure_not (negb (valid_sha256 digest)) (EnvInvalid "base image digest must be lowercase SHA-256 hex")
  else Ok tt.

(** [EnvironmentDescriptor::validate]. *)
Definition validate_descriptor (d : EnvironmentDescriptor) : Result unit EnvironmentError :=
  ensure_not (negb (is_isolated d)
              && (has_capability d CapSnapshot || has_capability d CapReset || has_capability d CapClone
                  || bool_decide (env_base_image_sha256 d <> None)))
    (EnvInvalid "only isolated environments may advertise image lifecycle") ;?
  ensure_not (Bool.eqb (has_capability d CapNetworkPolicy) (network_not_enforced (env_network d))
              || Bool.eqb (has_capability d CapFilesystemPolicy) (filesystem_not_enforced (env_filesystem d)))
    (EnvInvalid "policy capability flags must match their enforcement modes") ;?
  ensure_not (negb (all_unique (env_capabilities d))) (EnvInvalid "environment capabilities contain duplicates") ;?
  validate_network (env_network d) ;?
  validate_filesystem (env_filesystem d) ;?
  validate_image d.

(** * Snapshots and clones *)

Record MachineSnapshot := {
  snapshot_ref : string;
  source_worker_id : string;
  source_worker_epoch : string;
  ms_base_image_sha256 : string;
  ms_created_at : string;
}.

Record ProvisionedEnvironment := {
  environment_ref : string;
  pe_generation : string;
  pe_snapshot_ref : string;
  pe_base_image_sha256 : string;
}.

Record EnvironmentManagerConfig := { max_snapshots : Z; max_clones : Z; max_label_bytes : Z }.

Definition manager_config_default : EnvironmentManagerConfig :=
  {| max_snapshots := 32; max_clones := 64; max_label_bytes := 128 |}.

Record EnvironmentManagerState := {
  snapshots : gmap string MachineSnapshot;
  clones : gmap string ProvisionedEnvironment;
  pending_snapshots : Z;
  pending_clones : Z;
}.

Definition manager_state_default : EnvironmentManagerState :=
  {| snapshots := ∅; clones := ∅; pending_snapshots := 0; pending_clones := 0 |}.

(** The local desktop answers every machine-lifecycle method alike. *)
Definition local_lifecycle {A} : Result A EnvironmentError := Err EnvUnsupported.

Definition require_capability (d : EnvironmentDescriptor) (c : EnvironmentCapability) : Result unit EnvironmentError :=
  if has_capability d c then Ok tt else Err EnvUnsupported.

Definition validate_opaque (value label : string) (max_bytes : Z) : Result unit EnvironmentError :=
  if str_eqb value "" || (max_bytes <? slen value) || negb (is_trimmed value)
  then Err (EnvInvalid (label +:+ " is empty, too long, or not normalized")) else Ok tt.

Definition same_image (d : EnvironmentDescriptor) (image : string) : bool :=
  bool_decide (env_base_image_sha256 d = Some image).

Section Manager.
Context (parse_rfc3339 : string -> bool).
Context (cfg : EnvironmentManagerConfig) (d : EnvironmentDescriptor).

Definition validate_snapshot (worker_id worker_epoch : string) (s : MachineSnapshot) : Result unit EnvironmentError :=
  validate_opaque (snapshot_ref s) "snapshot reference" 128 ;?
  ensure_not (negb (str_eqb (source_worker_id s) worker_id) || negb (str_eqb (source_worker_epoch s) worker_epoch)
              || negb (same_image d (ms_base_image_sha256 s)) || negb (valid_sha256 (ms_base_image_sha256 s))
              || negb (parse_rfc3339 (ms_created_at s)))
    (EnvInvalid "provider snapshot identity does not match worker epoch and base image").

Definition validate_provisioned (s : MachineSnapshot) (p : ProvisionedEnvironment) : Result unit EnvironmentError :=
  validate_opaque (environment_ref p) "environment reference" 128 ;?
  validate_opaque (pe_generation p) "environment generation" 128 ;?
  ensure_not (negb (str_eqb (pe_snapshot_ref p) (snapshot_ref s))
              || negb (str_eqb (pe_base_image_sha256 p) (ms_base_image_sha256 s))
              || negb (same_image d (pe_base_image_sha256 p)))
    (EnvInvalid "provider environment does not match the retained snapshot and base image").

(** [EnvironmentManager::new]: the configuration and the descriptor it accepts. *)
Definition manager_new : Result EnvironmentManagerState EnvironmentError :=
  ensure_not ((max_snapshots cfg =? 0) || (max_clones cfg =? 0) || (max_label_bytes cfg =? 0))
    (EnvInvalid "environment manager bounds must be non-zero") ;?
  validate_descriptor d ;?
  Ok manager_state_default.

(** [snapshot] up to the call of the provider. *)
Definition snapshot_reserve (st : EnvironmentManagerState) (worker_id worker_epoch label : string)
    : Result EnvironmentManagerState EnvironmentError :=
  require_capability d CapSnapshot ;?
  validate_opaque worker_id "worker identity" 128 ;?
  validate_opaque worker_epoch "worker epoch" 128 ;?
  validate_opaque label "snapshot label" (max_label_bytes cfg) ;?
  ensure_not (max_snapshots cfg <=? msize (snapshots st) + pending_snapshots st) EnvBusy ;?
  Ok {| st with pending_snapshots := pending_snapshots st + 1 |}.

(** [snapshot] after the provider answered. *)
Definition snapshot_complete (st : EnvironmentManagerState) (worker_id worker_epoch : string)
    (result : Result MachineSnapshot EnvironmentError)
    : EnvironmentManagerState * Result MachineSnapshot EnvironmentError :=
  let st1 := {| st with pending_snapshots := sat_sub (pending_snapshots st) 1 |} in
  let checked :=
    let? s := result in
    validate_snapshot worker_id worker_epoch s ;?
    ensure_not (bool_decide (is_Some (snapshots st1 !! snapshot_ref s)))
      (EnvInvalid "provider reused a live snapshot reference") ;?
    Ok s in
  match checked with
  | Ok s => ({| st1 with snapshots := <[snapshot_ref s := s]> (snapshots st1) |}, Ok s)
  | Err e => (st1, Err e)
  end.

Definition retained_snapshot (st : EnvironmentManagerState) (ref : string) : Result MachineSnapshot EnvironmentError :=
  validate_opaque ref "snapshot reference" 128 ;?
  ok_or (snapshots st !! ref) StaleSnapshot.

(** [reset] up to the call of the provider, and after it. *)
Definition reset_start (st : EnvironmentManagerState) (env_ref snap_ref : string)
    : Result MachineSnapshot EnvironmentError :=
  require_capability d CapReset ;?
  validate_opaque env_ref "environment reference" 128 ;?
  retained_snapshot st snap_ref.

Definition reset_complete (env_ref : string) (s : MachineSnapshot) (result : Result ProvisionedEnvironment EnvironmentError)
    : Result ProvisionedEnvironment EnvironmentError :=
  let? p := result in
  validate_provisioned s p ;?
  ensure_not (negb (str_eqb (environment_ref p) env_ref))
    (EnvInvalid "provider reset changed the target environment reference") ;?
  Ok p.

(** [clone_environment]: the lookup, the reservation under a second lock, and
    the end after the provider answered. *)
Definition clone_lookup (st : EnvironmentManagerState) (snap_ref : string) : Result MachineSnapshot EnvironmentError :=
  require_capability d CapClone ;? retained_snapshot st snap_ref.

Definition clone_reserve (st : EnvironmentManagerState) : Result EnvironmentManagerState EnvironmentError :=
  ensure_not (max_clones cfg <=? msize (clones st) + pending_clones st) EnvBusy ;?
  Ok {| st with pending_clones := pending_clones st + 1 |}.

Definition clone_complete (st : EnvironmentManagerState) (s : MachineSnapshot)
    (result : Result ProvisionedEnvironment EnvironmentError)
    : EnvironmentManagerState * Result ProvisionedEnvironment EnvironmentError :=
  let st1 := {| st with pending_clones := sat_sub (pending_clones st) 1 |} in
  let checked :=
    let? p := result in
    validate_provisioned s p ;?
    ensure_not (bool_decide (is_Some (clones st1 !! environment_ref p)))
      (EnvInvalid "provider reused a live clone environment reference") ;?
    Ok p in
  match checked with
  | Ok p => ({| st1 with clones := <[environment_ref p := p]> (clones st1) |}, Ok p)
  | Err e => (st1, Err e)
  end.

Definition release_clone (st : EnvironmentManagerState) (env_ref : string) : EnvironmentManagerState * bool :=
  ({| st with clones := delete env_ref (clones st) |}, bool_decide (is_Some (clones st !! env_ref))).

Definition names_snapshot (snap_ref : string) (p : ProvisionedEnvironment) : bool := str_eqb (pe_snapshot_ref p) snap_ref.

Definition remove_snapshot (st : EnvironmentManagerState) (snap_ref : string)
    : EnvironmentManagerState * Result bool EnvironmentError :=
  if existsb (names_snapshot snap_ref) (map_to_list (clones st)).*2 then (st, Err EnvBusy)
  else ({| st with snapshots := delete snap_ref (snapshots st) |}, Ok (bool_decide (is_Some (snapshots st !! snap_ref)))).

(** * Runs *)

(** A manager call that waits for its provider. *)
Inductive InFlight :=
| Snapshotting (worker_id worker_epoch : string)
| LookedUp (s : MachineSnapshot)
| Cloning (s : MachineSnapshot).

(** The manager with its waiting calls; the lists keep how often each occurs. *)
Record Manager := { mg_state : EnvironmentManagerState; mg_waiting : list InFlight }.

Inductive manager_step : Manager -> Manager -> Prop :=
| step_snapshot_reserve st st' calls worker_id worker_epoch label :
    snapshot_reserve st worker_id worker_epoch label = Ok st' ->
    manager_step {| mg_state := st; mg_waiting := calls |}
                 {| mg_state := st'; mg_waiting := Snapshotting worker_id worker_epoch :: calls |}
| step_snapshot_complete st st' calls calls' worker_id worker_epoch result answer :
    calls ≡ₚ Snapshotting worker_id worker_epoch :: calls' ->
    snapshot_complete st worker_id worker_epoch result = (st', answer) ->
    manager_step {| mg_state := st; mg_waiting := calls |} {| mg_state := st'; mg_waiting := calls' |}
| step_clone_lookup st calls snap_ref s :
    clone_lookup st snap_ref = Ok s ->
    manager_step {| mg_state := st; mg_waiting := calls |} {| mg_state := st; mg_waiting := LookedUp s :: calls |}
| step_clone_reserve st st' calls calls' s :
    calls ≡ₚ LookedUp s :: calls' -> clone_reserve st = Ok st' ->
    manager_step {| mg_state := st; mg_waiting := calls |} {| mg_state := st'; mg_waiting := Cloning s :: calls' |}
| step_clone_complete st st' calls calls' s result answer :
    calls ≡ₚ Cloning s :: calls' -> clone_complete st s result = (st', answer) ->
    manager_step {| mg_state := st; mg_waiting := calls |} {| mg_state := st'; mg_waiting := calls' |}
| step_dropped st calls calls' c :
    calls ≡ₚ c :: calls' ->
    manager_step {| mg_state := st; mg_waiting := calls |} {| mg_state := st; mg_waiting := calls' |}
| step_release_clone st calls env_ref :
    manager_step {| mg_state := st; mg_waiting := calls |}
                 {| mg_state := (release_clone st env_ref).1; mg_waiting := calls |}
| step_remove_snapshot st calls snap_ref :
    manager_step {| mg_state := st; mg_waiting := calls |}
                 {| mg_state := (remove_snapshot st snap_ref).1; mg_waiting := calls |}.

Definition manager_reachable (g : Manager) : Prop :=
  rtc manager_step {| mg_state := manager_state_default; mg_waiting := [] |} g.

End Manager.

(** * What a validated descriptor promises *)

(** One component of a DNS name. *)
Record dns_label (l : string) : Prop := {
  dl_length : 1 <= slen l <= 63;
  dl_bytes : bytes_all (fun b => is_ascii_lowercase b || is_ascii_digit b || (b =? 45)) l = true;
  dl_first : starts_with_char "-" l = false;
  dl_last : ends_with_char "-" l = false;
}.

(** A normalized host name: labels joined by dots. *)
Definition dns_name (host : string) : Prop :=
  slen host <= 253 /\ exists labels, labels <> [] /\ Forall dns_label labels /\ host = String.concat "." labels.

Definition network_ok (p : NetworkPolicy) : Prop :=
  match p with
  | AllowHosts hosts => 1 <= zlen hosts <= 64 /\ NoDup hosts /\ Forall dns_name hosts
  | _ => True
  end.

Definition filesystem_ok (p : FilesystemPolicy) : Prop :=
  match p with
  | Mounts mounts => 1 <= zlen mounts <= 32 /\ NoDup (mount_ref <$> mounts) /\
      Forall (fun m => 1 <= slen (mount_ref m) <= 128 /\ mount_ref m = trim (mount_ref m)) mounts
  | _ => True
  end.

(** The capabilities are truthful: lifecycle only on an image, enforcement
    exactly when a policy is enforced. *)
Record descriptor_ok (d : EnvironmentDescriptor) : Prop := {
  do_lifecycle : env_kind d <> Isolated ->
    env_base_image_sha256 d = None /\ (CapSnapshot ∉ env_capabilities d) /\ (CapReset ∉ env_capabilities d) /\
    (CapClone ∉ env_capabilities d);
  do_image : env_kind d = Isolated -> exists image, env_base_image_sha256 d = Some image /\ valid_sha256 image = true;
  do_network_flag : CapNetworkPolicy ∈ env_capabilities d <-> env_network d <> NetworkNotEnforced;
  do_filesystem_flag : CapFilesystemPolicy ∈ env_capabilities d <-> env_filesystem d <> FilesystemNotEnforced;
  do_unique : NoDup (env_capabilities d);
  do_network : network_ok (env_network d);
  do_filesystem : filesystem_ok (env_filesystem d);
}.

Lemma label_rejected_false l : label_rejected l = false <-> dns_label l.
Proof.
  unfold label_rejected. rewrite !orb_false_iff, slen_positive, negb_false_iff, Z.ltb_ge.
  split; [intros [[[[? ?] ?] ?] ?]; by constructor | by intros [[? ?] ? ? ?]].
Qed.

Lemma label_bytes_not b :
  is_ascii_lowercase b || is_ascii_digit b || (b =? 45) = true -> (46 =? b) = false /\ is_ascii_uppercase b = false.
Proof.
  unfold is_ascii_lowercase, is_ascii_digit, is_ascii_uppercase. zbool. lia.
Qed.

Lemma dns_label_no_dot l : dns_label l -> has_char "." l = false.
Proof.
  intros [_ Hb _ _]. unfold has_char. change (byte_of ".") with 46. induction l as [|c l IH]; [done|]. cbn [bytes_any bytes_all] in *. apply andb_true_iff in Hb as [Hc Hb].
  rewrite IH by done. by destruct (label_bytes_not _ Hc) as [-> _].
Qed.

Lemma lowercase_id s : bytes_all (fun b => negb (is_ascii_uppercase b)) s = true -> to_ascii_lowercase s = s.
Proof.
  induction s as [|c s IH]; [done|]. simpl. rewrite andb_true_iff. intros [Hc Hs]. rewrite IH by done.
  unfold ascii_lower. unfold is_ascii_uppercase in Hc. apply negb_true_iff in Hc. by rewrite Hc.
Qed.

Lemma labels_lowercase labels :
  Forall dns_label labels -> bytes_all (fun b => negb (is_ascii_uppercase b)) (String.concat "." labels) = true.
Proof.
  assert (Hl : forall l, dns_label l -> bytes_all (fun b => negb (is_ascii_uppercase b)) l = true).
  { intros l Hl. eapply bytes_all_impl; [|apply (dl_bytes _ Hl)]. intros b Hb. cbv beta in Hb.
    by rewrite (proj2 (label_bytes_not _ Hb)). }
  induction labels as [|l ls IH]; [done|]. intros [H1 H2]%Forall_cons. destruct ls as [|l' ls]; [by apply Hl|].
  rewrite concat_cons, !bytes_all_app, (Hl _ H1). simpl. by apply IH.
Qed.

Lemma no_dot_ends l : has_char "." l = false -> starts_with_char "." l = false /\ ends_with_char "." l = false.
Proof.
  assert (Hc : forall x, (46 =? byte_of x) = false -> (x =? ".")%char = false).
  { intros x Hx. apply Ascii.eqb_neq. intros ->. done. }
  unfold has_char. change (byte_of ".") with 46.
  induction l as [|x l IH]; [done|]. cbn [bytes_any]. rewrite orb_false_iff. intros [Hx Hl]. cbn. split; [by apply Hc|].
  destruct l; [by apply Hc | by apply IH].
Qed.

Lemma labels_ends labels : labels <> [] -> Forall dns_label labels ->
  1 <= slen (String.concat "." labels) /\ starts_with_char "." (String.concat "." labels) = false /\
  ends_with_char "." (String.concat "." labels) = false.
Proof.
  induction labels as [|l ls IH]; [done|]. intros _ [H1 H2]%Forall_cons.
  destruct (no_dot_ends l (dns_label_no_dot l H1)) as [Hs He]. pose proof (dl_length _ H1) as Hlen.
  destruct ls as [|l' ls]; [by cbn; split; [lia|]|]. destruct (IH ltac:(done) H2) as (IH1 & _ & IH3).
  rewrite concat_cons. split; [|split].
  - rewrite slen_app. pose proof (slen_nonneg ("." +:+ String.concat "." (l' :: ls))). lia.
  - by rewrite starts_with_app by lia.
  - rewrite ends_with_app; [by rewrite ends_with_app|]. rewrite slen_app. change (slen ".") with 1. lia.
Qed.

Lemma host_rejected_false host : host_rejected host = false <-> dns_name host.
Proof.
  unfold host_rejected, dns_name. rewrite !orb_false_iff, slen_positive, Z.ltb_ge, negb_false_iff, str_eqb_eq, existsb_false_Forall.
  setoid_rewrite label_rejected_false. split.
  - intros [[[[[? ?] ?] ?] ?] Hl]. split; [done|]. exists (split_char "." host).
    split; [apply split_char_nonempty|]. split; [done | by rewrite split_char_concat].
  - intros [Hn (labels & Hne & Hl & ->)]. pose proof (labels_ends labels Hne Hl) as (? & ? & ?).
    rewrite lowercase_id by (by apply labels_lowercase).
    rewrite concat_split_char; [done | done|]. eapply Forall_impl; [exact Hl | apply dns_label_no_dot].
Qed.

Lemma zlen_between {A} (l : list A) n : (zlen l =? 0) || (n <? zlen l) = false <-> 1 <= zlen l <= n.
Proof. pose proof (zlen_nonneg l). zbool. lia. Qed.

Lemma validate_network_Ok p : validate_network p = Ok tt <-> network_ok p.
Proof.
  destruct p as [| |hosts|]; try done. unfold validate_network, network_ok.
  rewrite rbind_unit_Ok, !ensure_not_Ok, zlen_between, orb_false_iff, negb_false_iff, all_unique_spec, existsb_false_Forall.
  by setoid_rewrite host_rejected_false.
Qed.

Lemma mount_rejected_false m :
  mount_rejected m = false <-> 1 <= slen (mount_ref m) <= 128 /\ mount_ref m = trim (mount_ref m).
Proof.
  unfold mount_rejected, is_trimmed. rewrite !orb_false_iff, slen_positive, Z.ltb_ge, negb_false_iff, str_eqb_eq. tauto.
Qed.

Lemma validate_filesystem_Ok p : validate_filesystem p = Ok tt <-> filesystem_ok p.
Proof.
  destruct p as [| |mounts]; try done. unfold validate_filesystem, filesystem_ok.
  rewrite rbind_unit_Ok, !ensure_not_Ok, zlen_between, orb_false_iff, negb_false_iff, all_unique_spec, existsb_false_Forall.
  by setoid_rewrite mount_rejected_false.
Qed.

Lemma flag_matches (P : Prop) `{!Decision P} (enforced : Prop) (b : bool) :
  (b = false <-> enforced) -> (Bool.eqb (bool_decide P) b = false <-> (P <-> enforced)).
Proof. intros Hb. case_bool_decide; destruct b; naive_solver. Qed.

Lemma lifecycle_iff d :
  (negb (is_isolated d) && (has_capability d CapSnapshot || has_capability d CapReset || has_capability d CapClone
     || bool_decide (env_base_image_sha256 d <> None)) = false) <->
  (env_kind d <> Isolated -> env_base_image_sha256 d = None /\ (CapSnapshot ∉ env_capabilities d) /\
     (CapReset ∉ env_capabilities d) /\ (CapClone ∉ env_capabilities d)).
Proof.
  unfold is_isolated, has_capability. rewrite andb_false_iff, negb_false_iff, !orb_false_iff, bool_decide_eq_true,
    !bool_decide_eq_false. destruct (decide (env_kind d = Isolated)); [naive_solver|].
  destruct (env_base_image_sha256 d); naive_solver.
Qed.

Lemma validate_image_Ok d : validate_image d = Ok tt <->
  (env_kind d = Isolated -> exists image, env_base_image_sha256 d = Some image /\ valid_sha256 image = true).
Proof.
  unfold validate_image, is_isolated. case_bool_decide; [|naive_solver]. rewrite rbind_Ok. setoid_rewrite ok_or_Ok.
  setoid_rewrite ensure_not_Ok. setoid_rewrite negb_false_iff. naive_solver.
Qed.

(** Exactly which environments may be offered.  A descriptor is accepted
    if and only if lifecycle capabilities and an image belong to isolated
    machines, which have a SHA-256 image digest, the enforcement flags match
    the policies, and the policies are bounded lists of distinct, normalized
    DNS names and mount references. *)
Theorem validate_descriptor_spec d : validate_descriptor d = Ok tt <-> descriptor_ok d.
Proof.
  unfold validate_descriptor.
  rewrite !rbind_unit_Ok, !ensure_not_Ok, lifecycle_iff, orb_false_iff, negb_false_iff, all_unique_spec,
    validate_network_Ok, validate_filesystem_Ok, validate_image_Ok.
  unfold has_capability. rewrite (flag_matches _ (env_network d <> NetworkNotEnforced)) by (by destruct (env_network d)).
  rewrite (flag_matches _ (env_filesystem d <> FilesystemNotEnforced)) by (by destruct (env_filesystem d)).
  split; [intros (? & [? ?] & ? & ? & ? & ?); by constructor | by intros []].
Qed.

(** * The manager's bounds *)

Definition is_snapshotting (c : InFlight) : bool := match c with Snapshotting _ _ => true | _ => false end.
Definition is_cloning (c : InFlight) : bool := match c with Cloning _ => true | _ => false end.
Definition calls_of (f : InFlight -> bool) (l : list InFlight) : Z := zlen (List.filter f l).

Lemma calls_of_perm f l l' : l ≡ₚ l' -> calls_of f l = calls_of f l'.
Proof.
  intros Hp. unfold calls_of, zlen. f_equal. induction Hp; simpl; repeat case_match; simpl; congruence.
Qed.

Lemma calls_of_cons f c l : calls_of f (c :: l) = b2z (f c) + calls_of f l.
Proof. unfold calls_of. simpl. destruct (f c); rewrite ?zlen_cons; done. Qed.

Section ManagerInvariant.
Context (parse_rfc3339 : string -> bool).
Context (cfg : EnvironmentManagerConfig) (d : EnvironmentDescriptor).

(** A snapshot the provider's answer was checked for. *)
Definition snapshot_ok (s : MachineSnapshot) : Prop :=
  exists worker_id worker_epoch, validate_snapshot parse_rfc3339 d worker_id worker_epoch s = Ok tt.

(** A snapshot or clone beyond the bounds is never retained or pending, the
    waiting calls hold reservations, and what is retained was checked. *)
Record manager_ok (g : Manager) : Prop := {
  mo_snapshots : msize (snapshots (mg_state g)) + pending_snapshots (mg_state g) <= max_snapshots cfg;
  mo_clones : msize (clones (mg_state g)) + pending_clones (mg_state g) <= max_clones cfg;
  mo_snapshot_calls : calls_of is_snapshotting (mg_waiting g) <= pending_snapshots (mg_state g);
  mo_clone_calls : calls_of is_cloning (mg_waiting g) <= pending_clones (mg_state g);
  mo_retained : forall r s, snapshots (mg_state g) !! r = Some s -> snapshot_ref s = r /\ snapshot_ok s;
  mo_cloned : forall r p, clones (mg_state g) !! r = Some p ->
    environment_ref p = r /\ env_base_image_sha256 d = Some (pe_base_image_sha256 p) /\
    exists s, pe_snapshot_ref p = snapshot_ref s /\ snapshot_ok s;
  mo_waiting : forall s, LookedUp s ∈ mg_waiting g \/ Cloning s ∈ mg_waiting g -> snapshot_ok s;
}.

Lemma waiting_tail (c : InFlight) calls calls' : calls ≡ₚ c :: calls' ->
  forall x, x ∈ calls' -> x ∈ calls.
Proof. intros Hp x Hx. rewrite Hp. by right. Qed.

Lemma snapshot_reserve_ok st st' calls worker_id worker_epoch label :
  manager_ok {| mg_state := st; mg_waiting := calls |} ->
  snapshot_reserve cfg d st worker_id worker_epoch label = Ok st' ->
  manager_ok {| mg_state := st'; mg_waiting := Snapshotting worker_id worker_epoch :: calls |}.
Proof.
  intros [Hs Hc Hsc Hcc Hr Hcl Hw] H. unfold snapshot_reserve in H. repeat apply rbind_unit_Ok in H as [? H].
  injection H as <-. match goal with H : ensure_not _ EnvBusy = _ |- _ => apply ensure_not_Ok in H; zbool end.
  constructor; cbn in *; rewrite ?calls_of_cons; try done; cbn; try lia.
  intros s [[?|?]%elem_of_cons|[?|?]%elem_of_cons]; try done; apply Hw; auto.
Qed.

Lemma snapshot_complete_ok st st' calls calls' worker_id worker_epoch result answer :
  manager_ok {| mg_state := st; mg_waiting := calls |} ->
  calls ≡ₚ Snapshotting worker_id worker_epoch :: calls' ->
  snapshot_complete parse_rfc3339 d st worker_id worker_epoch result = (st', answer) ->
  manager_ok {| mg_state := st'; mg_waiting := calls' |}.
Proof.
  intros [Hs Hc Hsc Hcc Hr Hcl Hw] Hp H. pose proof (waiting_tail _ _ _ Hp) as Ht. cbn in *.
  rewrite (calls_of_perm _ _ _ Hp), calls_of_cons in Hsc. rewrite (calls_of_perm _ _ _ Hp), calls_of_cons in Hcc. cbn in Hsc, Hcc.
  unfold snapshot_complete in H. assert (Hge : 0 <= calls_of is_snapshotting calls') by apply zlen_nonneg.
  destruct (let? s := result in _) as [s|e] eqn:Ec; injection H as <- _; (constructor; cbn; unfold sat_sub;
    [| lia | lia | lia | | done | intros x [Hx|Hx]; apply Hw; auto]).
  - pose proof (msize_insert_le (snapshots st) (snapshot_ref s) s). lia.
  - intros r x [[<- <-]|[_ Hx]]%lookup_insert_Some; [|by apply Hr]. split; [done|].
    apply rbind_Ok in Ec as (s' & -> & Ec). apply rbind_unit_Ok in Ec as [Hv Ec]. apply rbind_unit_Ok in Ec as [_ [= ->]].
    by exists worker_id, worker_epoch.
  - lia.
  - done.
Qed.

Lemma clone_complete_ok st st' calls calls' s result answer :
  manager_ok {| mg_state := st; mg_waiting := calls |} -> calls ≡ₚ Cloning s :: calls' ->
  clone_complete d st s result = (st', answer) -> manager_ok {| mg_state := st'; mg_waiting := calls' |}.
Proof.
  intros [Hs Hc Hsc Hcc Hr Hcl Hw] Hp H. pose proof (waiting_tail _ _ _ Hp) as Ht. cbn in *.
  assert (Hok : snapshot_ok s) by (apply Hw; right; rewrite Hp; by left).
  rewrite (calls_of_perm _ _ _ Hp), calls_of_cons in Hsc. rewrite (calls_of_perm _ _ _ Hp), calls_of_cons in Hcc. cbn in Hsc, Hcc.
  unfold clone_complete in H. assert (Hge : 0 <= calls_of is_cloning calls') by apply zlen_nonneg.
  destruct (let? p := result in _) as [p|e] eqn:Ec; injection H as <- _; (constructor; cbn; unfold sat_sub;
    [lia | | lia | lia | done | | intros x [Hx|Hx]; apply Hw; auto]).
  - pose proof (msize_insert_le (clones st) (environment_ref p) p). lia.
  - intros r x [[<- <-]|[_ Hx]]%lookup_insert_Some; [|by apply Hcl]. split; [done|].
    apply rbind_Ok in Ec as (p' & -> & Ec). apply rbind_unit_Ok in Ec as [Hv Ec]. apply rbind_unit_Ok in Ec as [_ [= ->]].
    unfold validate_provisioned in Hv. repeat apply rbind_unit_Ok in Hv as [_ Hv]. apply ensure_not_Ok in Hv.
    rewrite !orb_false_iff, !negb_false_iff, str_eqb_eq in Hv. destruct Hv as [[Hv _] Hi].
    apply bool_decide_eq_true in Hi. split; [done|]. by exists s.
  - lia.
  - done.
Qed.

Lemma manager_step_ok g g' : manager_step parse_rfc3339 cfg d g g' -> manager_ok g -> manager_ok g'.
Proof.
  destruct 1 as [st st' calls w e l H|st st' calls calls' w e r a Hp H|st calls ref s H|st st' calls calls' s Hp H
    |st st' calls calls' s r a Hp H|st calls calls' c Hp|st calls ref|st calls ref]; intros Hok.
  - by eapply snapshot_reserve_ok.
  - by eapply snapshot_complete_ok.
  - destruct Hok as [Hs Hc Hsc Hcc Hr Hcl Hw]. unfold clone_lookup, retained_snapshot in H. res_inv.
    constructor; cbn in *; rewrite ?calls_of_cons; try done.
    intros y [[[= ->]|?]%elem_of_cons|[?|?]%elem_of_cons]; try done; [by eapply Hr | apply Hw; auto..].
  - destruct Hok as [Hs Hc Hsc Hcc Hr Hcl Hw]. pose proof (waiting_tail _ _ _ Hp) as Ht. cbn in *.
    rewrite (calls_of_perm _ _ _ Hp), calls_of_cons in Hsc. rewrite (calls_of_perm _ _ _ Hp), calls_of_cons in Hcc.
    cbn in Hsc, Hcc. unfold clone_reserve in H. apply rbind_unit_Ok in H as [Hb%ensure_not_Ok [= <-]]. zbool.
    constructor; cbn; rewrite ?calls_of_cons; cbn; try done; try lia.
    intros x [[?|?]%elem_of_cons|[[= ->]|?]%elem_of_cons]; try done; apply Hw; auto. left. rewrite Hp. by left.
  - by eapply clone_complete_ok.
  - destruct Hok as [Hs Hc Hsc Hcc Hr Hcl Hw]. pose proof (waiting_tail _ _ _ Hp) as Ht. cbn in *.
    rewrite (calls_of_perm _ _ _ Hp), calls_of_cons in Hsc. rewrite (calls_of_perm _ _ _ Hp), calls_of_cons in Hcc.
    assert (0 <= b2z (is_snapshotting c) /\ 0 <= b2z (is_cloning c)) by (by destruct c).
    constructor; cbn; try done; try lia. intros x [Hx|Hx]; apply Hw; auto.
  - destruct Hok as [Hs Hc Hsc Hcc Hr Hcl Hw]. constructor; cbn in *; try done.
    + pose proof (msize_delete_le (clones st) ref). lia.
    + intros r p [_ Hp]%lookup_delete_Some. by apply Hcl.
  - unfold remove_snapshot. destruct (existsb _ _); cbn; [done|].
    destruct Hok as [Hs Hc Hsc Hcc Hr Hcl Hw]. constructor; cbn in *; try done.
    + pose proof (msize_delete_le (snapshots st) ref). lia.
    + intros r s [_ Hp]%lookup_delete_Some. by apply Hr.
Qed.

(** The environment manager keeps its bounds.  In every interleaving of
    snapshot, clone, release and removal calls, whatever the provider answers
    and also when callers are dropped while they wait, retained plus pending
    snapshots and clones stay within the configured bounds, every waiting call
    holds a reservation, and everything retained is keyed by its reference
    and was checked against the worker epoch and the base image. *)
Theorem manager_invariant st0 g :
  0 <= max_snapshots cfg -> 0 <= max_clones cfg -> manager_new cfg d = Ok st0 ->
  rtc (manager_step parse_rfc3339 cfg d) {| mg_state := st0; mg_waiting := [] |} g -> manager_ok g.
Proof.
  intros H1 H2 H0 Hrun. unfold manager_new in H0. repeat apply rbind_unit_Ok in H0 as [? H0]. injection H0 as <-.
  assert (Hok : manager_ok {| mg_state := manager_state_default; mg_waiting := [] |}).
  { constructor; cbn; unfold calls_of, msize; rewrite ?map_size_empty; cbn; try lia; try done.
    intros s [[]%elem_of_nil|[]%elem_of_nil]. }
  induction Hrun as [|x y z Hxy _ IH]; [done|]. apply IH. by eapply manager_step_ok.
Qed.

End ManagerInvariant.

(** * An isolated machine *)

Definition sample_image : string := "aaaaaaaaaaaaaaaaaaaaaaaaaaaaaaaaaaaaaaaaaaaaaaaaaaaaaaaaaaaaaaaa".

Definition isolated_machine : EnvironmentDescriptor := {|
  env_kind := Isolated; env_network := AllowHosts ["example.org"%string]; env_filesystem := NoDirectAccess;
  env_capabilities := [CapNetworkPolicy; CapFilesystemPolicy; CapSnapshot; CapReset; CapClone];
  env_base_image_sha256 := Some sample_image |}.

Definition sample_snapshot : MachineSnapshot := {|
  snapshot_ref := "snapshot 1"; source_worker_id := "worker"; source_worker_epoch := "epoch";
  ms_base_image_sha256 := sample_image; ms_created_at := "2026-08-27T00:00:00Z" |}.

Definition sample_clone : ProvisionedEnvironment := {|
  environment_ref := "clone 1"; pe_generation := "generation"; pe_snapshot_ref := "snapshot 1";
  pe_base_image_sha256 := sample_image |}.

Definition any_date (s : string) : bool := true.

Definition after_snapshot : EnvironmentManagerState :=
  (snapshot_complete any_date isolated_machine
     {| manager_state_default with pending_snapshots := 1 |} "worker" "epoch" (Ok sample_snapshot)).1.

Definition after_clone : EnvironmentManagerState :=
  (clone_complete isolated_machine {| after_snapshot with pending_clones := 1 |} sample_snapshot (Ok sample_clone)).1.

Lemma sample_manager_run :
  rtc (manager_step any_date manager_config_default isolated_machine)
    {| mg_state := manager_state_default; mg_waiting := [] |} {| mg_state := after_clone; mg_waiting := [] |}.
Proof.
  eapply rtc_l; [eapply (step_snapshot_reserve any_date _ _ _ _ _ "worker" "epoch" "label"); vm_compute; reflexivity|].
  eapply rtc_l; [eapply (step_snapshot_complete any_date _ _ _ after_snapshot _ [] "worker" "epoch" (Ok sample_snapshot));
    [done | vm_compute; reflexivity]|].
  eapply rtc_l; [eapply (step_clone_lookup any_date _ _ _ _ "snapshot 1" sample_snapshot); vm_compute; reflexivity|].
  eapply rtc_l; [eapply (step_clone_reserve any_date _ _ _ {| after_snapshot with pending_clones := 1 |} _ [] sample_snapshot);
    [done | vm_compute; reflexivity]|].
  eapply rtc_l; [eapply (step_clone_complete any_date _ _ _ after_clone _ [] sample_snapshot (Ok sample_clone));
    [done | vm_compute; reflexivity]|].
  apply rtc_refl.
Qed.

Lemma manager_invariant_witness :
  manager_ok any_date manager_config_default isolated_machine {| mg_state := after_clone; mg_waiting := [] |}.
Proof.
  apply (manager_invariant any_date manager_config_default isolated_machine manager_state_default);
    [vm_compute; discriminate | vm_compute; discriminate | vm_compute; reflexivity | apply sample_manager_run].
Defined.

(** A snapshot can be removed while a clone of it is being made: the removal
    looks at retained clones only, so the clone then names a removed snapshot. *)
Example clone_outlives_snapshot :
  let looked_up := clone_lookup isolated_machine after_snapshot "snapshot 1" in
  let removed := remove_snapshot after_snapshot "snapshot 1" in
  let cloned := clone_complete isolated_machine {| (removed.1) with pending_clones := 1 |} sample_snapshot (Ok sample_clone) in
  looked_up = Ok sample_snapshot /\ removed.2 = Ok true /\ cloned.2 = Ok sample_clone /\
  snapshots cloned.1 !! pe_snapshot_ref sample_clone = None.
Proof. vm_compute. done. Qed.
