(* ===== verification/Registry.v ===== *)
(** The worker registry of the host: [src/crates/host/src/registry.rs].

    Workers are registered under fresh identities and epochs and leased for a
    finite time.  Each operation holds the registry's lock, so it is one step:
    it takes the state, the clocks and the number of identifiers drawn so far,
    and returns the new state.  [W] is an endpoint; what the registry asks it
    is [platform] and [environment] of the class [DesktopWorker].  The
    theorems: the lease counts are exact and bounded, a lease resolves only to
    the worker and epoch it was granted for, and placement picks the least
    loaded match. *)

From S2P Require Import Prelude Floats Geometry Text Protocol Environment.

(** The trait [DesktopWorker]; [D] is the state its methods share with the
    rest of the host, from the call to the return. *)
Class DesktopWorker (W D : Type) := {
  worker_platform : W -> Platform;
  worker_environment : W -> EnvironmentDescriptor;
  worker_dispatch : W -> RequestId -> Z -> Command -> D -> D * ResponseEnvelope;
  worker_read_artifact : W -> ScreenshotArtifact -> Z -> D -> D * Result (list Z) CuaError;
}.

#[export] Instance Platform_eq_dec : EqDecision Platform.
Proof. solve_decision. Defined.

Inductive WorkerError :=
| WorkerInvalid (reason : string)
| WorkerBusy
| StaleLease
| WorkerEnvironment (source : EnvironmentError)
| WorkerInternal.

Record WorkerDescriptor := {
  wd_worker_id : string;
  wd_epoch : string;
  wd_platform : Platform;
  wd_environment : EnvironmentDescriptor;
  wd_max_leases : Z;
  wd_active_leases : Z;
}.

Record WorkerRequirements := {
  rq_platform : option Platform;
  rq_environment_kind : option EnvironmentKind;
  rq_capabilities : list EnvironmentCapability;
  rq_worker_id : option string;
}.

Definition requirements_default : WorkerRequirements :=
  {| rq_platform := None; rq_environment_kind := None; rq_capabilities := []; rq_worker_id := None |}.

(** [Option::is_none_or]. *)
Definition is_none_or {A} (f : A -> bool) (o : option A) : bool :=
  match o with Some a => f a | None => true end.

Definition requirements_match (r : WorkerRequirements) (d : WorkerDescriptor) : bool :=
  is_none_or (fun p => bool_decide (p = wd_platform d)) (rq_platform r)
  && is_none_or (fun k => bool_decide (k = env_kind (wd_environment d))) (rq_environment_kind r)
  && forallb (fun c => has_capability (wd_environment d) c) (rq_capabilities r)
  && is_none_or (fun w => str_eqb w (wd_worker_id d)) (rq_worker_id r).

Record WorkerLease := {
  wl_lease_id : string;
  wl_worker_id : string;
  wl_worker_epoch : string;
  wl_expires_at : string;
}.

(** [WorkerRegistryConfig]; the lifetime is in nanoseconds. *)
Record WorkerRegistryConfig := { rc_max_workers : Z; rc_max_leases : Z; rc_max_lease_ttl : Z }.

Definition nanos : Z := 1000000000.

Definition registry_config_default : WorkerRegistryConfig :=
  {| rc_max_workers := 32; rc_max_leases := 128; rc_max_lease_ttl := 60 * 60 * nanos |}.

Record WorkerEntry (W : Type) := { we_descriptor : WorkerDescriptor; we_endpoint : W }.
Arguments we_descriptor {W} _.
Arguments we_endpoint {W} _.

Record LeaseEntry := { le_lease : WorkerLease; le_expires_at : Z }.

Record RegistryState (W : Type) := {
  workers : gmap string (WorkerEntry W);
  leases : gmap string LeaseEntry;
}.
Arguments workers {W} _.
Arguments leases {W} _.

Definition registry_state_default {W} : RegistryState W := {| workers := ∅; leases := ∅ |}.

(** [WorkerRegistry::new]. *)
Definition registry_new {W} (c : WorkerRegistryConfig) : Result (RegistryState W) WorkerError :=
  ensure_not ((rc_max_workers c =? 0) || (rc_max_leases c =? 0) || (rc_max_lease_ttl c =? 0))
    (WorkerInvalid "worker registry bounds must be non-zero") ;?
  Ok registry_state_default.

Definition I64_MAX : Z := 9223372036854775807.

(** [Iterator::min_by]: the first least element. *)
Definition min_by {A} (le : A -> A -> bool) (l : list A) : option A :=
  match l with
  | [] => None
  | x :: l' => Some (foldl (fun best y => if le best y then best else y) x l')
  end.

(** [opaque_host_id!]: the [n]-th identifier drawn. *)
Definition host_id `{!UuidSource} (prefix : string) (n : nat) : string := prefix +:+ "_" +:+ uuid n.

Section Registry.
Context {W D : Type} `{!DesktopWorker W D, !HashOrder, !UuidSource}.
Context (format_rfc3339 : Z -> option string) (c : WorkerRegistryConfig).
Implicit Types st : RegistryState W.

Definition decrement_worker st (worker_id : string) : RegistryState W :=
  match workers st !! worker_id with
  | Some entry =>
      {| st with workers := <[worker_id := {| entry with we_descriptor :=
           {| (we_descriptor entry) with wd_active_leases := sat_sub (wd_active_leases (we_descriptor entry)) 1 |} |}]>
           (workers st) |}
  | None => st
  end.

(** Removes one lease and its count. *)
Definition drop_lease_of st (x : string * string) : RegistryState W :=
  decrement_worker {| st with leases := delete x.1 (leases st) |} x.2.

(** [purge_expired]. *)
Definition purge_expired_leases st (now : Z) : RegistryState W :=
  let expired := List.filter (fun x => le_expires_at x.2 <=? now) (hash_iter (leases st)) in
  foldl drop_lease_of st ((fun x => (x.1, wl_worker_id (le_lease x.2))) <$> expired).

(** [register]; the identity and then the epoch are drawn. *)
Definition register st (n : nat) (now : Z) (endpoint : W) (max_leases : Z)
    : RegistryState W * nat * Result WorkerDescriptor WorkerError :=
  let admitted :=
    ensure_not ((max_leases =? 0) || (rc_max_leases c <? max_leases))
      (WorkerInvalid "worker lease capacity is outside registry bounds") ;?
    rmap_err WorkerEnvironment (validate_descriptor (worker_environment (D := D) endpoint)) in
  match admitted with
  | Err e => (st, n, Err e)
  | Ok _ =>
      let st1 := purge_expired_leases st now in
      if rc_max_workers c <=? msize (workers st1) then (st1, n, Err WorkerBusy)
      else
        let d := {| wd_worker_id := host_id "worker" n; wd_epoch := host_id "epoch" (S n);
                    wd_platform := worker_platform (D := D) endpoint;
                    wd_environment := worker_environment (D := D) endpoint;
                    wd_max_leases := max_leases; wd_active_leases := 0 |} in
        ({| st1 with workers := <[wd_worker_id d := {| we_descriptor := d; we_endpoint := endpoint |}]> (workers st1) |},
         S (S n), Ok d)
  end.

(** [unregister]. *)
Definition unregister st (worker_id : string) : RegistryState W * bool :=
  let removed := bool_decide (is_Some (workers st !! worker_id)) in
  let st1 := {| st with workers := delete worker_id (workers st) |} in
  (if removed
   then {| st1 with leases := filter (fun x => wl_worker_id (le_lease x.2) <> worker_id) (leases st1) |}
   else st1, removed).

(** The order of [acquire]'s [min_by]: fewer leases first, then the identity. *)
Definition placement_le (a b : WorkerDescriptor) : bool :=
  if wd_active_leases a =? wd_active_leases b then str_le (wd_worker_id a) (wd_worker_id b)
  else wd_active_leases a <? wd_active_leases b.

Definition eligible (r : WorkerRequirements) (d : WorkerDescriptor) : bool :=
  requirements_match r d && (wd_active_leases d <? wd_max_leases d).

Definition select_worker st (r : WorkerRequirements) : option WorkerDescriptor :=
  min_by placement_le (List.filter (eligible r) ((fun x => we_descriptor x.2) <$> hash_iter (workers st))).

(** [wall_expiry]; durations are nanoseconds. *)
Definition wall_expiry (wall ttl : Z) : Result string WorkerError :=
  ensure_not (I64_MAX <? ttl / nanos) (WorkerInvalid "worker lease TTL does not fit wall-clock projection") ;?
  ok_or (format_rfc3339 (wall + ttl / nanos * nanos)) WorkerInternal.

(** [acquire]. *)
Definition acquire st (n : nat) (now wall : Z) (r : WorkerRequirements) (ttl : Z)
    : RegistryState W * nat * Result WorkerLease WorkerError :=
  if (ttl =? 0) || (rc_max_lease_ttl c <? ttl)
  then (st, n, Err (WorkerInvalid "worker lease TTL is outside registry bounds"))
  else
    let st1 := purge_expired_leases st now in
    if rc_max_leases c <=? msize (leases st1) then (st1, n, Err WorkerBusy)
    else
      match select_worker st1 r with
      | None => (st1, n, Err WorkerBusy)
      | Some selected =>
          match wall_expiry wall ttl with
          | Err e => (st1, S n, Err e)
          | Ok text =>
              let lease := {| wl_lease_id := host_id "lease" n; wl_worker_id := wd_worker_id selected;
                              wl_worker_epoch := wd_epoch selected; wl_expires_at := text |} in
              match workers st1 !! wd_worker_id selected with
              | None => (st1, S n, Err WorkerInternal)
              | Some entry =>
                  ({| workers := <[wd_worker_id selected := {| entry with we_descriptor :=
                        {| (we_descriptor entry) with wd_active_leases := wd_active_leases (we_descriptor entry) + 1 |} |}]>
                        (workers st1);
                      leases := <[wl_lease_id lease := {| le_lease := lease; le_expires_at := now + ttl |}]> (leases st1) |},
                   S n, Ok lease)
              end
          end
      end.

(** [release]. *)
Definition release st (lease_id : string) : RegistryState W * bool :=
  match leases st !! lease_id with
  | Some entry => (drop_lease_of st (lease_id, wl_worker_id (le_lease entry)), true)
  | None => (st, false)
  end.

(** [list]. *)
Definition list_workers st (now : Z) : RegistryState W * list WorkerDescriptor :=
  let st1 := purge_expired_leases st now in
  (st1, sort_by (fun a b => str_le (wd_worker_id a) (wd_worker_id b))
          ((fun x => we_descriptor x.2) <$> hash_iter (workers st1))).

(** [resolve]. *)
Definition resolve st (now : Z) (lease_id expected_epoch : string)
    : RegistryState W * Result (WorkerLease * W) WorkerError :=
  let st1 := purge_expired_leases st now in
  (st1,
   let? entry := ok_or (leases st1 !! lease_id) StaleLease in
   let lease := le_lease entry in
   ensure_not (negb (str_eqb (wl_worker_epoch lease) expected_epoch)) StaleLease ;?
   let? worker := ok_or (workers st1 !! wl_worker_id lease) StaleLease in
   ensure_not (negb (str_eqb (wd_epoch (we_descriptor worker)) (wl_worker_epoch lease))) StaleLease ;?
   Ok (lease, we_endpoint worker)).

(** * Runs *)

Inductive RegistryOp :=
| OpRegister (endpoint : W) (max_leases : Z)
| OpUnregister (worker_id : string)
| OpAcquire (wall : Z) (r : WorkerRequirements) (ttl : Z)
| OpRelease (lease_id : string)
| OpList
| OpResolve (lease_id epoch : string).

(** One operation at the instant [now]. *)
Definition registry_op (x : RegistryState W * nat) (now : Z) (op : RegistryOp) : RegistryState W * nat :=
  let '(st, n) := x in
  match op with
  | OpRegister endpoint max_leases => (register st n now endpoint max_leases).1
  | OpUnregister worker_id => ((unregister st worker_id).1, n)
  | OpAcquire wall r ttl => (acquire st n now wall r ttl).1
  | OpRelease lease_id => ((release st lease_id).1, n)
  | OpList => ((list_workers st now).1, n)
  | OpResolve lease_id epoch => ((resolve st now lease_id epoch).1, n)
  end.

Definition registry_run (x : RegistryState W * nat) (ops : list (Z * RegistryOp)) : RegistryState W * nat :=
  foldl (fun x op => registry_op x op.1 op.2) x ops.

End Registry.

(** * The invariant *)

Section RegistryInvariant.
Context {W D : Type} `{!DesktopWorker W D, !HashOrder, !UuidSource}.
Context (format_rfc3339 : Z -> option string) (c : WorkerRegistryConfig).
Implicit Types st : RegistryState W.

Definition names_worker (worker_id : string) (e : LeaseEntry) : bool := str_eqb (wl_worker_id (le_lease e)) worker_id.

(** A worker's identity and epoch were drawn together, its lease count is the
    number of leases that name it and within its own bound. *)
Record worker_ok st (n : nat) (id : string) (e : WorkerEntry W) : Prop := {
  wo_id : wd_worker_id (we_descriptor e) = id;
  wo_drawn : exists i, (S i < n)%nat /\ id = host_id "worker" i /\ wd_epoch (we_descriptor e) = host_id "epoch" (S i);
  wo_active : wd_active_leases (we_descriptor e) = mcount (names_worker id) (leases st);
  wo_bound : wd_active_leases (we_descriptor e) <= wd_max_leases (we_descriptor e);
}.

(** A lease's identity was drawn, and it names a registered worker in the
    worker's present epoch. *)
Record lease_ok st (n : nat) (id : string) (e : LeaseEntry) : Prop := {
  lo_id : wl_lease_id (le_lease e) = id;
  lo_drawn : exists i, (i < n)%nat /\ id = host_id "lease" i;
  lo_worker : exists w, workers st !! wl_worker_id (le_lease e) = Some w /\
    wd_epoch (we_descriptor w) = wl_worker_epoch (le_lease e);
}.

Record registry_ok st (n : nat) : Prop := {
  ro_workers : forall id e, workers st !! id = Some e -> worker_ok st n id e;
  ro_leases : forall id e, leases st !! id = Some e -> lease_ok st n id e;
  ro_max_workers : msize (workers st) <= rc_max_workers c;
  ro_max_leases : msize (leases st) <= rc_max_leases c;
}.

Lemma host_id_inj prefix i j : host_id prefix i = host_id prefix j -> i = j.
Proof. unfold host_id. intros Heq%string_app_inj_l%string_app_inj_l. by apply uuid_inj. Qed.

Lemma registry_ok_mono st n n' : (n <= n')%nat -> registry_ok st n -> registry_ok st n'.
Proof.
  intros Hn [Hw Hl ? ?]. constructor; try done.
  - intros id e He. destruct (Hw id e He) as [? (i & ? & ?) ? ?]. constructor; try done. exists i. split; [lia | done].
  - intros id e He. destruct (Hl id e He) as [? (i & ? & ?) ?]. constructor; try done. exists i. split; [lia | done].
Qed.

(** The same workers up to their counts. *)
Definition same_workers st st' : Prop :=
  forall id, (fun e => (we_endpoint e, wd_epoch (we_descriptor e))) <$> workers st' !! id =
             (fun e => (we_endpoint e, wd_epoch (we_descriptor e))) <$> workers st !! id.

Lemma same_workers_Some st st' id e : same_workers st st' -> workers st !! id = Some e ->
  exists e', workers st' !! id = Some e' /\ we_endpoint e' = we_endpoint e /\
    wd_epoch (we_descriptor e') = wd_epoch (we_descriptor e).
Proof.
  intros Hs He. specialize (Hs id). rewrite He in Hs. destruct (workers st' !! id) as [e'|]; [|done].
  injection Hs as ? ?. eauto.
Qed.

Lemma drop_lease_same st x : same_workers st (drop_lease_of st x).
Proof.
  intros id. unfold drop_lease_of, decrement_worker. cbn. destruct (workers st !! x.2) as [e|] eqn:Ee; [|done]. cbn.
  destruct (decide (x.2 = id)) as [<-|Hne]; [by rewrite lookup_insert_eq, Ee | by rewrite lookup_insert_ne].
Qed.

Lemma drop_lease_leases st x : leases (drop_lease_of st x) = delete x.1 (leases st).
Proof. unfold drop_lease_of, decrement_worker. cbn. by destruct (workers st !! x.2). Qed.

Lemma drop_lease_ok st n id e :
  registry_ok st n -> leases st !! id = Some e -> registry_ok (drop_lease_of st (id, wl_worker_id (le_lease e))) n.
Proof.
  intros [Hw Hl Hm1 Hm2] He. pose proof (drop_lease_same st (id, wl_worker_id (le_lease e))) as Hsame.
  destruct (Hl id e He) as [_ _ (w & Hwk & Hep)].
  pose proof (fun k => mcount_delete (names_worker k) (leases st) id e He) as Hcount.
  assert (Hn : names_worker (wl_worker_id (le_lease e)) e = true) by (by apply str_eqb_eq).
  pose proof (mcount_positive _ _ id e He Hn) as Hpos.
  constructor; try rewrite drop_lease_leases.
  - intros k x. unfold drop_lease_of, decrement_worker. cbn. rewrite Hwk. cbn.
    intros [[<- <-]|[Hne Hx]]%lookup_insert_Some.
    + destruct (Hw _ _ Hwk) as [? ? Ha ?]. unfold sat_sub.
      constructor; cbn; try done; [|lia]. rewrite Hcount, Hn. cbn. lia.
    + destruct (Hw _ _ Hx) as [? ? Ha ?]. constructor; cbn; try done. rewrite Hcount.
      assert (names_worker k e = false) as -> by (by apply str_eqb_neq). cbn. lia.
  - intros k x Hx. apply lookup_delete_Some in Hx as [_ Hx]. destruct (Hl k x Hx) as [? ? (w' & Hw' & He')].
    constructor; try done. destruct (same_workers_Some _ _ _ _ Hsame Hw') as (w'' & ? & _ & E). exists w''.
    split; [done | by rewrite E].
  - unfold drop_lease_of, decrement_worker. cbn. rewrite Hwk. cbn. rewrite msize_insert_Some; [done | by exists w].
  - etrans; [apply msize_delete_le | done].
Qed.

(** ** Expiry *)

(** Every pair names a lease of the table with its worker, no lease twice. *)
Definition droppable st (l : list (string * string)) : Prop :=
  NoDup l.*1 /\ forall id w, (id, w) ∈ l -> exists e, leases st !! id = Some e /\ w = wl_worker_id (le_lease e).

Lemma drop_leases_ok l : forall st n, registry_ok st n -> droppable st l ->
  let st' := foldl drop_lease_of st l in
  registry_ok st' n /\ same_workers st st' /\
  forall id, leases st' !! id = if bool_decide (id ∈ l.*1) then None else leases st !! id.
Proof.
  induction l as [|[id w] l IH]; intros st n Hok [Hnd Hin]; cbn [foldl].
  { split; [done|]. split; [done|]. intros id. by rewrite bool_decide_false by (by intros ?%elem_of_nil). }
  apply NoDup_cons in Hnd as [Hni Hnd]. destruct (Hin id w ltac:(by left)) as (e & He & ->).
  destruct (IH (drop_lease_of st (id, wl_worker_id (le_lease e))) n) as (Hok' & Hsame & Hlk).
  - by apply drop_lease_ok.
  - split; [done|]. intros id' w' Hx. rewrite drop_lease_leases. cbn.
    destruct (Hin id' w' ltac:(by right)) as (e' & He' & ->). exists e'. split; [|done].
    rewrite lookup_delete_ne; [done|]. intros <-. apply Hni. apply list_elem_of_fmap. by exists (id, wl_worker_id (le_lease e')).
  - split; [done|]. split; [intros k; by rewrite Hsame, (drop_lease_same st)|].
    intros k. rewrite Hlk, drop_lease_leases. cbn. destruct (decide (k = id)) as [->|Hne].
    + rewrite lookup_delete_eq, (bool_decide_true (id ∈ id :: l.*1)) by (by left). by case_bool_decide.
    + rewrite lookup_delete_ne by done. repeat case_bool_decide; try done; exfalso; set_solver.
Qed.

Lemma filter_fst_sub {A} (f : string * A -> bool) l : List.filter f l `sublist_of` l.
Proof. induction l as [|x l IH]; simpl; [done|]. destruct (f x); by constructor. Qed.

Lemma hash_iter_lookup {A} (m : gmap string A) k a : (k, a) ∈ hash_iter m <-> m !! k = Some a.
Proof. rewrite hash_iter_perm. apply elem_of_map_to_list. Qed.

Lemma hash_iter_nodup {A} (m : gmap string A) : NoDup (hash_iter m).*1.
Proof. rewrite hash_iter_perm. apply NoDup_fst_map_to_list. Qed.

Lemma filter_elem {A} (f : A -> bool) l x : x ∈ List.filter f l <-> f x = true /\ x ∈ l.
Proof. rewrite !list_elem_of_In, List.filter_In. tauto. Qed.

(** [purge_expired_leases] removes exactly the leases that have expired. *)
Lemma purge_ok st n now : registry_ok st n ->
  registry_ok (purge_expired_leases st now) n /\ same_workers st (purge_expired_leases st now) /\
  forall id e, leases (purge_expired_leases st now) !! id = Some e <-> leases st !! id = Some e /\ now < le_expires_at e.
Proof.
  clear format_rfc3339. intros Hok. unfold purge_expired_leases. set (expired := List.filter _ _).
  assert (Hfst : ((fun x => (x.1, wl_worker_id (le_lease x.2))) <$> expired).*1 = expired.*1).
  { rewrite <- list_fmap_compose. by apply list_fmap_ext. }
  assert (Hd : droppable st ((fun x => (x.1, wl_worker_id (le_lease x.2))) <$> expired)).
  { split.
    - rewrite Hfst. eapply sublist_NoDup; [apply (hash_iter_nodup (leases st))|]. apply fmap_sublist, filter_fst_sub.
    - intros id w ((k & e) & [= -> ->] & [_ Hin]%filter_elem)%list_elem_of_fmap. exists e.
      split; [by apply hash_iter_lookup | done]. }
  destruct (drop_leases_ok _ st n Hok Hd) as (Hok' & Hsame & Hlk). split; [done|]. split; [done|].
  intros id e. rewrite Hlk, Hfst. case_bool_decide as Hin.
  - split; [done|]. intros [He Hlt]. apply list_elem_of_fmap in Hin as ((k & e') & -> & [Hx Hin]%filter_elem).
    apply hash_iter_lookup in Hin. cbn in *. rewrite He in Hin. injection Hin as <-. zbool. lia.
  - split; [|tauto]. intros He. split; [done|]. destruct (le_expires_at e <=? now) eqn:Ex; [exfalso | by zbool].
    apply Hin, list_elem_of_fmap. exists (id, e). split; [done|]. apply filter_elem. split; [done | by apply hash_iter_lookup].
Qed.

(** ** Every operation keeps the invariant *)

(** Sizes and capacities are unsigned. *)
Definition op_ok (op : RegistryOp (W := W)) : Prop :=
  match op with OpRegister _ max_leases => 0 <= max_leases | _ => True end.

Lemma register_ok st n now endpoint max_leases :
  0 <= max_leases -> registry_ok st n ->
  let '(st', n', _) := register (D := D) c st n now endpoint max_leases in registry_ok st' n' /\ (n <= n')%nat.
Proof.
  intros Hm Hok. unfold register. destruct (_ ;? _); [|done].
  destruct (purge_ok st n now Hok) as (Hok1 & _ & _). set (st1 := purge_expired_leases st now) in *.
  destruct (rc_max_workers c <=? msize (workers st1)) eqn:Eb; [done|]. split; [|lia].
  destruct Hok1 as [Hw Hl Hm1 Hm2].
  assert (Hnone : workers st1 !! host_id "worker" n = None).
  { destruct (workers st1 !! _) as [e|] eqn:Ee; [exfalso|done]. destruct (Hw _ _ Ee) as [_ (i & Hi & Hid%host_id_inj & _) _ _]. lia. }
  assert (Hzero : mcount (names_worker (host_id "worker" n)) (leases st1) = 0).
  { destruct (Z.eq_dec (mcount (names_worker (host_id "worker" n)) (leases st1)) 0) as [->|Hne]; [done | exfalso].
    unfold mcount, msize in Hne. destruct (map_choose (filter (fun p => names_worker (host_id "worker" n) p.2 = true) (leases st1)))
      as (k & e & [He Hn]%map_lookup_filter_Some).
    { intros Hemp. rewrite Hemp, map_size_empty in Hne. lia. }
    cbn in Hn. apply str_eqb_eq in Hn. destruct (Hl _ _ He) as [_ _ (w & Hwk & _)]. congruence. }
  constructor; cbn; try done.
  - intros id e [[<- <-]|[Hne He]]%lookup_insert_Some.
    + constructor; cbn; [done | exists n; by split; [lia|] | by rewrite Hzero | lia].
    + destruct (Hw _ _ He) as [? (i & ? & ?) ? ?]. constructor; try done. exists i. split; [lia | done].
  - intros id e He. destruct (Hl _ _ He) as [? (i & ? & ?) (w & Hwk & ?)]. constructor; try done; [exists i; by split; [lia|]|].
    exists w. split; [|done]. cbn. rewrite lookup_insert_ne; [done | congruence].
  - rewrite msize_insert_None by done. zbool. lia.
Qed.

Lemma unregister_ok st n worker_id : registry_ok st n -> registry_ok (unregister st worker_id).1 n.
Proof.
  intros [Hw Hl Hm1 Hm2]. unfold unregister. cbn. case_bool_decide as Hs.
  - constructor; cbn.
    + intros id e [Hne He]%lookup_delete_Some. destruct (Hw _ _ He) as [? ? Ha ?]. constructor; try done. cbn.
      rewrite mcount_filter; [done|]. intros k x _ Hx Heq. apply str_eqb_eq in Hx. cbn in Heq. congruence.
    + intros id e [He Hne]%map_lookup_filter_Some. destruct (Hl _ _ He) as [? ? (w & ? & ?)]. constructor; try done.
      exists w. split; [|done]. cbn in *. by rewrite lookup_delete_ne.
    + etrans; [apply msize_delete_le | done].
    + etrans; [apply msize_filter_le | done].
  - assert (Hn : workers st !! worker_id = None) by (by apply eq_None_not_Some). rewrite delete_id by done.
    destruct st. by constructor.
Qed.

Lemma release_ok st n lease_id : registry_ok st n -> registry_ok (release st lease_id).1 n.
Proof.
  intros Hok. unfold release. destruct (leases st !! lease_id) as [e|] eqn:Ee; [|done]. by apply drop_lease_ok.
Qed.

(** ** Placement *)

Lemma min_by_elem {A} (le : A -> A -> bool) l x : min_by le l = Some x -> x ∈ l.
Proof.
  destruct l as [|y l]; [done|]. cbn. intros [= <-]. revert y. induction l as [|z l IH]; intros y; cbn; [by left|].
  destruct (le y z).
  - pose proof (IH y) as [E|E]%elem_of_cons; [rewrite E; by left | by right; right].
  - pose proof (IH z) as [E|E]%elem_of_cons; [rewrite E; right; by left | by right; right].
Qed.

Lemma min_by_least {A} (le : A -> A -> bool) l x :
  (forall a, le a a = true) -> (forall a b, le a b = true \/ le b a = true) ->
  (forall a b d, le a b = true -> le b d = true -> le a d = true) ->
  min_by le l = Some x -> forall y, y ∈ l -> le x y = true.
Proof.
  intros Hr Ht Htr. destruct l as [|z l]; [done|]. cbn. intros [= <-]. revert z.
  induction l as [|w l IH]; intros z y; cbn.
  - intros ->%list_elem_of_singleton. apply Hr.
  - assert (Hlow : forall u l, le (foldl (fun best y => if le best y then best else y) u l) u = true).
    { clear -Hr Ht Htr. intros u l. revert u. induction l as [|v l IH]; intros u; cbn; [apply Hr|].
      destruct (le u v) eqn:E; [apply IH|]. eapply Htr; [apply IH|]. destruct (Ht u v); congruence. }
    intros [->|[->|Hy]%elem_of_cons]%elem_of_cons; destruct (le z w) eqn:E.
    + apply Hlow.
    + eapply Htr; [apply Hlow|]. destruct (Ht z w); congruence.
    + eapply Htr; [apply Hlow | done].
    + apply Hlow.
    + apply IH. by right.
    + apply IH. by right.
Qed.

Lemma placement_refl a : placement_le a a = true.
Proof. unfold placement_le. rewrite Z.eqb_refl. apply str_le_refl. Qed.

Lemma placement_total a b : placement_le a b = true \/ placement_le b a = true.
Proof.
  unfold placement_le. rewrite (Z.eqb_sym (wd_active_leases b)). destruct (Z.eqb_spec (wd_active_leases a) (wd_active_leases b)).
  - apply str_le_total.
  - zbool. lia.
Qed.

Lemma placement_trans a b d : placement_le a b = true -> placement_le b d = true -> placement_le a d = true.
Proof.
  unfold placement_le. repeat case_match; zbool; try lia; try done. apply str_le_trans.
Qed.

(** What [acquire] selects: a registered match with capacity, before which no
    other comes; nothing only when there is none. *)
Lemma select_worker_spec st n r : registry_ok st n ->
  match select_worker st r with
  | Some d => eligible r d = true /\ (exists e, workers st !! wd_worker_id d = Some e /\ we_descriptor e = d) /\
      (forall id e, workers st !! id = Some e -> eligible r (we_descriptor e) = true -> placement_le d (we_descriptor e) = true)
  | None => forall id e, workers st !! id = Some e -> eligible r (we_descriptor e) = false
  end.
Proof.
  intros Hok. unfold select_worker. set (l := List.filter _ _).
  assert (Hl : forall d, d ∈ l <-> eligible r d = true /\ exists id e, workers st !! id = Some e /\ we_descriptor e = d).
  { intros d. unfold l. rewrite filter_elem, list_elem_of_fmap. split.
    - intros (? & [id e] & -> & Hin%hash_iter_lookup). eauto.
    - intros (? & id & e & He & <-). split; [done|]. exists (id, e). split; [done | by apply hash_iter_lookup]. }
  destruct (min_by placement_le l) as [d|] eqn:Em.
  - pose proof (min_by_elem _ _ _ Em) as (He & id & e & Hw & <-)%Hl. split; [done|]. split.
    + exists e. split; [|done]. by rewrite (wo_id _ _ _ _ (ro_workers _ _ Hok _ _ Hw)).
    + intros id' e' Hw' He'. eapply (min_by_least placement_le); eauto using placement_refl, placement_total, placement_trans.
      apply Hl. eauto.
  - intros id e Hw. destruct (eligible r (we_descriptor e)) eqn:Ee; [exfalso|done].
    assert (Hin : we_descriptor e ∈ l) by (apply Hl; eauto). unfold min_by in Em. destruct l; [|done]. by apply elem_of_nil in Hin.
Qed.

Lemma fresh_lease st n : registry_ok st n -> leases st !! host_id "lease" n = None.
Proof.
  intros Hok. destruct (leases st !! _) as [e|] eqn:Ee; [exfalso|done].
  destruct (ro_leases _ _ Hok _ _ Ee) as [_ (i & Hi & Hid%host_id_inj) _]. lia.
Qed.

Lemma acquire_ok st n now wall r ttl :
  registry_ok st n -> let '(st', n', _) := acquire format_rfc3339 c st n now wall r ttl in registry_ok st' n' /\ (n <= n')%nat.
Proof.
  intros Hok. unfold acquire. destruct (_ || _); [done|].
  destruct (purge_ok st n now Hok) as (Hok1 & _ & _). set (st1 := purge_expired_leases st now) in *.
  destruct (rc_max_leases c <=? msize (leases st1)) eqn:Eb; [done|].
  pose proof (select_worker_spec st1 n r Hok1) as Hsel. destruct (select_worker st1 r) as [d|]; [|done].
  destruct Hsel as (Hel & (e & He & Hd) & _).
  destruct (wall_expiry _ _ _) as [text|]; [|split; [by eapply registry_ok_mono; [|exact Hok1]; lia | lia]].
  rewrite He. cbn. split; [|lia]. pose proof (fresh_lease st1 n Hok1) as Hfresh. subst d.
  set (lease := {| wl_lease_id := _ |}). set (entry := {| le_lease := lease; le_expires_at := _ |}).
  pose proof (fun k => mcount_insert_new (names_worker k) (leases st1) (host_id "lease" n) entry Hfresh) as Hcount.
  destruct Hok1 as [Hw Hl Hm1 Hm2]. unfold eligible in Hel. zbool. constructor; cbn.
  - intros id x [[<- <-]|[Hne Hx]]%lookup_insert_Some.
    + destruct (Hw _ _ He) as [? (i & ? & ?) Ha ?]. constructor; cbn; [done | exists i; by split; [lia|] | | lia].
      rewrite Hcount. assert (names_worker (wd_worker_id (we_descriptor e)) entry = true) as -> by (by apply str_eqb_eq). cbn. lia.
    + destruct (Hw _ _ Hx) as [? (i & ? & ?) Ha ?]. constructor; cbn; [done | exists i; by split; [lia|] | | done].
      rewrite Hcount. assert (names_worker id entry = false) as -> by (by apply str_eqb_neq). cbn. lia.
  - intros id x [[<- <-]|[Hne Hx]]%lookup_insert_Some.
    + constructor; cbn; [done | exists n; by split; [lia|]|]. eexists. rewrite lookup_insert_eq. by split.
    + destruct (Hl _ _ Hx) as [? (i & ? & ?) (w & Hwk & ?)]. constructor; cbn; [done | exists i; by split; [lia|]|].
      destruct (decide (wd_worker_id (we_descriptor e) = wl_worker_id (le_lease x))) as [E|Hne'].
      * rewrite <- E in *. eexists. rewrite lookup_insert_eq. split; [done|]. cbn. congruence.
      * exists w. by rewrite lookup_insert_ne.
  - rewrite msize_insert_Some; [done | by exists e].
  - rewrite msize_insert_None by done. lia.
Qed.

Lemma registry_op_ok st n now op : op_ok op -> registry_ok st n ->
  let '(st', n') := registry_op (D := D) format_rfc3339 c (st, n) now op in registry_ok st' n' /\ (n <= n')%nat.
Proof.
  intros Ho Hok. destruct op; cbn in *.
  - pose proof (register_ok st n now endpoint max_leases Ho Hok) as Hr. by destruct (register _ _ _ _ _ _) as [[]].
  - split; [by apply unregister_ok | done].
  - pose proof (acquire_ok st n now wall r ttl Hok) as Hr. by destruct (acquire _ _ _ _ _ _ _ _) as [[]].
  - split; [by apply release_ok | done].
  - split; [by apply purge_ok | done].
  - split; [by apply purge_ok | done].
Qed.

Lemma registry_run_ok ops : forall st n, Forall (fun x => op_ok x.2) ops -> registry_ok st n ->
  let '(st', n') := registry_run (D := D) format_rfc3339 c (st, n) ops in registry_ok st' n' /\ (n <= n')%nat.
Proof.
  induction ops as [|[now op] ops IH]; intros st n Hops Hok; [done|]. apply Forall_cons in Hops as [Ho Hops].
  pose proof (registry_op_ok st n now op Ho Hok) as Hs. unfold registry_run in *. cbn [foldl fst snd].
  destruct (registry_op format_rfc3339 c (st, n) now op) as [st1 n1]. destruct Hs as [Hok1 Hn].
  specialize (IH st1 n1 Hops Hok1). destruct (foldl _ _ _) as [st2 n2]. destruct IH. split; [done | lia].
Qed.

(** ** The theorems *)


(** [resolve] against the state it leaves. *)
Lemma resolve_cases st n now lease_id epoch :
  registry_ok st n ->
  match (resolve st now lease_id epoch).2 with
  | Ok (lease, endpoint) => exists e w, leases st !! lease_id = Some e /\ lease = le_lease e /\ now < le_expires_at e /\
      wl_worker_epoch lease = epoch /\ workers st !! wl_worker_id lease = Some w /\ endpoint = we_endpoint w /\
      wd_epoch (we_descriptor w) = epoch
  | Err e => e = StaleLease /\ leases (purge_expired_leases st now) !! lease_id = None \/
      e = StaleLease /\ exists x, leases st !! lease_id = Some x /\ wl_worker_epoch (le_lease x) <> epoch
  end.
Proof.
  clear format_rfc3339. intros Hok. destruct (purge_ok st n now Hok) as (Hok1 & Hsame & Hl). unfold resolve. cbn [snd].
  destruct (leases (purge_expired_leases st now) !! lease_id) as [e|] eqn:Ee; cbn [ok_or rbind]; [|by left].
  pose proof (proj1 (Hl _ _) Ee) as [He Hlt]. destruct (ro_leases _ _ Hok _ _ He) as [_ _ (w & Hw & Hep)].
  destruct (same_workers_Some _ _ _ _ Hsame Hw) as (w' & Hw' & Hend & Hep').
  destruct (str_eqb (wl_worker_epoch (le_lease e)) epoch) eqn:Ex; cbn [negb ensure_not rbind].
  - apply str_eqb_eq in Ex. rewrite Hw'. cbn [ok_or rbind]. rewrite Hep', Hep, (proj2 (str_eqb_eq _ _) eq_refl).
    cbn [negb ensure_not rbind]. exists e, w. repeat split; try done; congruence.
  - apply str_eqb_neq in Ex. right. eauto.
Qed.

(** A lease resolves exactly to what it was granted for.  [resolve] succeeds
    if and only if the lease is in the table, unexpired and of the expected
    epoch, and then it gives the endpoint of the worker the lease names, which
    is still registered under that epoch; every refusal is [StaleLease]. *)
Theorem resolve_affine st n now lease_id epoch :
  registry_ok st n ->
  match (resolve st now lease_id epoch).2 with
  | Ok (lease, endpoint) => exists e w, leases st !! lease_id = Some e /\ lease = le_lease e /\ now < le_expires_at e /\
      wl_worker_epoch lease = epoch /\ workers st !! wl_worker_id lease = Some w /\ endpoint = we_endpoint w /\
      wd_epoch (we_descriptor w) = epoch
  | Err e => e = StaleLease /\ forall x, leases st !! lease_id = Some x ->
      le_expires_at x <= now \/ wl_worker_epoch (le_lease x) <> epoch
  end.
Proof.
  clear format_rfc3339. intros Hok. pose proof (resolve_cases st n now lease_id epoch Hok) as Hr.
  destruct (resolve st now lease_id epoch).2 as [[lease endpoint]|e]; [done|].
  destruct Hr as [[-> Hn]|[-> (x & Hx & Hne)]]; (split; [done|]); intros y Hy; [left | right; congruence].
  destruct (Z.leb_spec (le_expires_at y) now); [done|].
  assert (leases (purge_expired_leases st now) !! lease_id = Some y) by (by apply (purge_ok st n now Hok)). congruence.
Qed.

(** A lease that has left the table. *)
Definition lease_gone st (n : nat) (lease_id : string) : Prop :=
  leases st !! lease_id = None /\ exists i, (i < n)%nat /\ lease_id = host_id "lease" i.

Lemma gone_sub st st' n n' lease_id :
  lease_gone st n lease_id -> (n <= n')%nat -> (leases st !! lease_id = None -> leases st' !! lease_id = None) ->
  lease_gone st' n' lease_id.
Proof. intros [Hn (i & Hi & E)] Hle Hs. split; [auto|]. exists i. split; [lia | done]. Qed.

Lemma purge_gone st n now lease_id : registry_ok st n ->
  leases st !! lease_id = None -> leases (purge_expired_leases st now) !! lease_id = None.
Proof.
  intros Hok Hn. destruct (purge_ok st n now Hok) as (_ & _ & Hl).
  destruct (leases (purge_expired_leases st now) !! lease_id) as [e|] eqn:Ee; [exfalso|done].
  apply Hl in Ee as [Ee _]. congruence.
Qed.

Lemma registry_op_gone st n now op lease_id :
  registry_ok st n -> lease_gone st n lease_id ->
  let '(st', n') := registry_op (D := D) format_rfc3339 c (st, n) now op in lease_gone st' n' lease_id.
Proof.
  intros Hok Hg. pose proof (purge_gone st n now lease_id Hok) as Hp. destruct op; cbn.
  - unfold register. destruct (_ ;? _); [|done].
    destruct (rc_max_workers c <=? _); cbn; (eapply gone_sub; [exact Hg | lia | done]).
  - eapply gone_sub; [exact Hg | done|]. intros Hn. case_bool_decide; cbn; [|done].
    apply map_lookup_filter_None. by left.
  - unfold acquire. destruct (_ || _); [done|].
    destruct (rc_max_leases c <=? _); cbn; [eapply gone_sub; [exact Hg | lia | done]|].
    destruct (select_worker _ _) as [d|]; cbn; [|eapply gone_sub; [exact Hg | lia | done]].
    destruct (wall_expiry _ _ _); cbn; [|eapply gone_sub; [exact Hg | lia | done]].
    destruct (workers _ !! _); cbn; (eapply gone_sub; [exact Hg | lia|]); [|done].
    intros Hn. cbn. rewrite lookup_insert_ne; [by apply Hp|]. destruct Hg as [_ (i & Hi & ->)]. intros ?%host_id_inj. lia.
  - eapply gone_sub; [exact Hg | done|]. intros Hn. unfold release. destruct (leases st !! lease_id0); [|done].
    cbn. rewrite drop_lease_leases. apply lookup_delete_None. by right.
  - eapply gone_sub; [exact Hg | done | done].
  - eapply gone_sub; [exact Hg | done | done].
Qed.

(** Revoked leases stay revoked.  Once a lease was released, expired or lost
    its worker, no later run of the registry makes it resolve again. *)
Theorem revoked_lease_stale ops st n lease_id now epoch :
  registry_ok st n -> lease_gone st n lease_id -> Forall (fun x => op_ok x.2) ops ->
  let '(st', _) := registry_run (D := D) format_rfc3339 c (st, n) ops in
  (resolve st' now lease_id epoch).2 = Err StaleLease.
Proof.
  revert st n. induction ops as [|[t op] ops IH]; intros st n Hok Hg Hops.
  - cbn. by rewrite (purge_gone st n now lease_id Hok (proj1 Hg)).
  - apply Forall_cons in Hops as [Ho Hops]. pose proof (registry_op_gone st n t op lease_id Hok Hg) as Hg1.
    pose proof (registry_op_ok st n t op Ho Hok) as Hok1. unfold registry_run in *. cbn [foldl fst snd] in *.
    destruct (registry_op format_rfc3339 c (st, n) t op) as [st1 n1]. apply (IH st1 n1); [apply Hok1 | done | done].
Qed.

(** Placement is balanced and bounded.  [acquire] refuses without a lease
    only for a lifetime out of range, a full registry, no matching worker with
    capacity or an unprintable expiry; a granted lease is fresh, of the asked
    lifetime, bound to the identity and epoch of a matching worker with
    capacity left, and no other such worker has fewer leases. *)
Theorem acquire_balanced st n now wall r ttl :
  registry_ok st n ->
  let '(st', n', result) := acquire format_rfc3339 c st n now wall r ttl in
  let st1 := purge_expired_leases st now in
  match result with
  | Ok lease => leases st !! wl_lease_id lease = None /\ 0 <> ttl /\ ttl <= rc_max_lease_ttl c /\
      leases st' = <[wl_lease_id lease := {| le_lease := lease; le_expires_at := now + ttl |}]> (leases st1) /\
      exists w, workers st1 !! wl_worker_id lease = Some w /\ wd_epoch (we_descriptor w) = wl_worker_epoch lease /\
        eligible r (we_descriptor w) = true /\
        forall id x, workers st1 !! id = Some x -> eligible r (we_descriptor x) = true ->
          wd_active_leases (we_descriptor w) <= wd_active_leases (we_descriptor x)
  | Err WorkerBusy => rc_max_leases c <= msize (leases st1) \/
      forall id x, workers st1 !! id = Some x -> eligible r (we_descriptor x) = false
  | Err (WorkerInvalid _) => ttl = 0 \/ rc_max_lease_ttl c < ttl \/ I64_MAX < ttl / nanos
  | Err WorkerInternal => format_rfc3339 (wall + ttl / nanos * nanos) = None
  | Err _ => False
  end.
Proof.
  intros Hok. unfold acquire. destruct ((ttl =? 0) || (rc_max_lease_ttl c <? ttl)) eqn:Et; [zbool; lia|].
  destruct (purge_ok st n now Hok) as (Hok1 & _ & _). set (st1 := purge_expired_leases st now) in *.
  destruct (rc_max_leases c <=? msize (leases st1)) eqn:Eb; [zbool; lia|].
  pose proof (select_worker_spec st1 n r Hok1) as Hsel. destruct (select_worker st1 r) as [d|]; [|by right].
  destruct Hsel as (Hel & (e & He & Hd) & Hmin). unfold wall_expiry.
  destruct (I64_MAX <? ttl / nanos) eqn:Ei; cbn [ensure_not rbind]; [zbool; lia|].
  destruct (format_rfc3339 _) as [text|] eqn:Ef; cbn [ok_or]; [|done]. rewrite He. cbn.
  split; [by apply fresh_lease|]. zbool. split; [lia|]. split; [lia|]. split; [done|]. exists e. subst d. do 3 (split; [done|]).
  intros id x Hx Hxe. specialize (Hmin id x Hx Hxe). unfold placement_le in Hmin. case_match; zbool; lia.
Qed.

End RegistryInvariant.

(** * A registry with two workers *)

#[local] Instance fixture_worker : DesktopWorker string unit := {|
  worker_platform := fun _ => Macos;
  worker_environment := fun _ => local_user_desktop;
  worker_dispatch := fun _ id _ _ d => (d, {| rs_protocol_version := PROTOCOL_VERSION; rs_request_id := id;
    rs_outcome := Success RAcknowledged |});
  worker_read_artifact := fun _ _ _ d => (d, Ok []) |}.
#[local] Instance fixture_order : HashOrder := map_to_list_order.
#[local] Instance fixture_uuids : UuidSource := unary_uuids.

Definition fixture_time (t : Z) : option string := Some "time"%string.

Definition fixture_ops : list (Z * RegistryOp (W := string)) :=
  [ (0, OpRegister "first"%string 1); (0, OpRegister "second"%string 2); (1, OpAcquire 0 requirements_default nanos);
    (2, OpAcquire 0 requirements_default (2 * nanos)) ].

Definition fixture_registry : RegistryState string * nat :=
  registry_run (D := unit) fixture_time registry_config_default (registry_state_default, 0%nat) fixture_ops.

Lemma fixture_ops_ok : Forall (fun x => op_ok x.2) fixture_ops.
Proof. repeat constructor; done. Qed.

Lemma fixture_registry_ok : registry_ok registry_config_default fixture_registry.1 fixture_registry.2.
Proof.
  pose proof (registry_run_ok (D := unit) fixture_time registry_config_default fixture_ops registry_state_default 0%nat
    fixture_ops_ok) as Hr. unfold fixture_registry. destruct (registry_run _ _ _ _) as [st n]. apply Hr.
  constructor; cbn; unfold msize; rewrite ?map_size_empty; try done; cbn; lia.
Qed.


Lemma resolve_affine_witness :
  match (resolve fixture_registry.1 nanos (host_id "lease" 4) (host_id "epoch" 1)).2 with
  | Ok (_, endpoint) => endpoint = "first"%string
  | Err _ => False
  end.
Proof.
  pose proof (resolve_affine registry_config_default fixture_registry.1 fixture_registry.2 nanos (host_id "lease" 4)
    (host_id "epoch" 1) fixture_registry_ok) as Hr.
  destruct (resolve fixture_registry.1 nanos (host_id "lease" 4) (host_id "epoch" 1)) as [st [[lease endpoint]|e]] eqn:Er;
    vm_compute in Er; congruence.
Defined.

Definition fixture_released : RegistryState string := (release fixture_registry.1 (host_id "lease" 4)).1.

Lemma revoked_lease_stale_witness :
  let '(st', _) := registry_run (D := unit) fixture_time registry_config_default (fixture_released, fixture_registry.2)
    [(3, OpAcquire 0 requirements_default nanos)] in
  (resolve st' 4 (host_id "lease" 4) (host_id "epoch" 1)).2 = Err StaleLease.
Proof.
  apply (revoked_lease_stale (D := unit) fixture_time registry_config_default).
  - apply release_ok, fixture_registry_ok.
  - split; [vm_compute; reflexivity|]. exists 4%nat. split; [vm_compute; lia | done].
  - repeat constructor.
Defined.

Lemma acquire_balanced_witness :
  exists lease, (acquire fixture_time registry_config_default fixture_registry.1 fixture_registry.2 2 0
    requirements_default nanos).2 = Ok lease /\ leases fixture_registry.1 !! wl_lease_id lease = None.
Proof.
  pose proof (acquire_balanced fixture_time registry_config_default fixture_registry.1 fixture_registry.2 2 0
    requirements_default nanos fixture_registry_ok) as Ha.
  destruct (acquire fixture_time registry_config_default fixture_registry.1 fixture_registry.2 2 0 requirements_default nanos)
    as [[st n] [lease|e]] eqn:Ea; [exists lease; split; [done | apply Ha] | vm_compute in Ea; discriminate].
Defined.
