(* ===== verification/Gateway.v ===== *)
(** The worker gateway of the host: [src/crates/host/src/gateway.rs].

    A gateway call passes the state [HostWorld] of the host and records the
    calls it makes to worker endpoints, each with the state it is made in.
    Other calls run at the [await] points: [host_yield] maps the state a call
    waits for a lock in to the one it resumes in, and a worker method the
    state of the call to the state of the return.  Base64 is a parameter.  The
    theorems: workers are only called for authenticated requests under a live
    lease, answers are truthful about dispatch, a screenshot ticket gives back
    the artifact it was minted for, and what leaves the gateway unprojected. *)

From S2P Require Import Prelude Floats Geometry Text Protocol Errors Environment Registry.

Definition GATEWAY_PROTOCOL_VERSION : string := "nexus.cua.gateway.v1".
Definition GATEWAY_MAX_REQUEST_ID_BYTES : Z := 128.
Definition MIN_TOKEN_BYTES : Z := 32.
Definition MAX_TOKEN_BYTES : Z := 4 * 1024.

(** * Data *)

Record GatewayExecuteRequest := {
  ge_protocol_version : string;
  ge_request_id : RequestId;
  ge_timeout_ms : Z;
  ge_authorization : AuthorizationToken;
  ge_lease_id : string;
  ge_worker_epoch : string;
  ge_command : Command;
}.

Record GatewayArtifactRequest := {
  ga_protocol_version : string;
  ga_authorization : AuthorizationToken;
  ga_lease_id : string;
  ga_worker_epoch : string;
  ga_ticket_ref : string;
}.

Record RemoteScreenshotArtifact := {
  rsa_artifact_ref : ArtifactRef;
  rsa_ticket_ref : string;
  rsa_mime_type : string;
  rsa_pixel_size : PixelSize;
  rsa_byte_length : Z;
  rsa_sha256 : string;
}.

Record RemoteWindowObservation := {
  rwo_observation_id : ObservationId;
  rwo_window_ref : WindowRef;
  rwo_captured_at : string;
  rwo_window_screen_bounds : ScreenRect;
  rwo_screenshot : option RemoteScreenshotArtifact;
  rwo_elements : list AccessibilityElement;
  rwo_elements_complete : bool;
  rwo_elements_truncation : option ObservationTruncation;
}.

Inductive GatewayResult :=
| GatewayCore (result : CommandResult)
| GatewayWindowObserved (observation : RemoteWindowObservation).

Inductive GatewayOutcome :=
| GatewaySuccess (result : GatewayResult)
| GatewayError (error : CuaError).

Record GatewayExecuteResponse := {
  gr_protocol_version : string;
  gr_request_id : RequestId;
  gr_worker_id : option string;
  gr_worker_epoch : option string;
  gr_outcome : GatewayOutcome;
}.

Record GatewayArtifactResponse := {
  gar_artifact_ref : ArtifactRef;
  gar_mime_type : string;
  gar_byte_length : Z;
  gar_sha256 : string;
  gar_data_base64 : string;
}.

(** [WorkerGatewayConfig]; the ticket lifetime is in nanoseconds. *)
Record WorkerGatewayConfig := {
  gc_max_inflight_requests : Z;
  gc_max_artifact_tickets : Z;
  gc_artifact_ticket_ttl : Z;
  gc_max_artifact_bytes : Z;
  gc_max_request_timeout_ms : Z;
}.

Definition gateway_config_default : WorkerGatewayConfig := {|
  gc_max_inflight_requests := 64; gc_max_artifact_tickets := 256; gc_artifact_ticket_ttl := 5 * 60 * nanos;
  gc_max_artifact_bytes := 16 * 1024 * 1024; gc_max_request_timeout_ms := 120000 |}.

Record ArtifactTicket := {
  at_lease_id : string;
  at_worker_epoch : string;
  at_artifact : ScreenshotArtifact;
  at_expires_at : Z;
}.

(** [TokenVerifier] of the gateway: the bytes of the configured token. *)
Definition gateway_token_new (token : AuthorizationToken) : option string :=
  if (MIN_TOKEN_BYTES <=? slen token) && (slen token <=? MAX_TOKEN_BYTES) then Some token else None.

Definition gateway_token_accepts (verifier : string) (candidate : AuthorizationToken) : bool :=
  (slen candidate =? slen verifier) && str_eqb verifier candidate.

Inductive GatewayFailure :=
| FailProtocol | FailUnauthorized | FailInvalid | FailBusy | FailStaleArtifact | FailWorker (e : WorkerError).

Definition gateway_error (failure : GatewayFailure) (mutation : bool) : CuaError :=
  let '(code, message, retryable, recovery) :=
    match failure with
    | FailProtocol => (ProtocolMismatch, "unsupported worker gateway protocol", false, Some "negotiate_gateway_protocol")
    | FailUnauthorized => (Unauthorized, "invalid worker gateway authorization", false, None)
    | FailInvalid => (InvalidRequest, "worker gateway request is invalid", false, None)
    | FailBusy | FailWorker WorkerBusy => (Busy, "worker gateway capacity is busy", true, Some "retry_after_capacity")
    | FailStaleArtifact => (ReferenceNotFound, "remote screenshot artifact is stale", false, Some "observe_window_again")
    | FailWorker StaleLease =>
        (SessionUnavailable, "desktop worker lease or epoch is stale", false, Some "acquire_worker_lease")
    | FailWorker _ => (Internal, "desktop worker registry is unavailable", true, Some "retry_after_worker_recovery")
    end%string in
  {| code := code; message := message; retryable := retryable; recovery_action := recovery;
     mutation_status := if mutation then NotDispatched else NotApplicable |}.

(** * The state of the host *)

Record HostWorld (W E : Type) := {
  hw_registry : RegistryState W;
  hw_tickets : gmap string ArtifactTicket;
  hw_permits : Z;
  hw_drawn : nat;
  hw_now : Z;
  hw_env : E;
}.
Arguments hw_registry {W E} _.
Arguments hw_tickets {W E} _.
Arguments hw_permits {W E} _.
Arguments hw_drawn {W E} _.
Arguments hw_now {W E} _.
Arguments hw_env {W E} _.

(** A call of a worker endpoint. *)
Inductive WorkerCall (W : Type) :=
| CallDispatch (endpoint : W) (request_id : RequestId) (timeout_ms : Z) (command : Command)
| CallReadArtifact (endpoint : W) (artifact : ScreenshotArtifact) (max_bytes : Z).
Arguments CallDispatch {W} _ _ _ _.
Arguments CallReadArtifact {W} _ _ _.

Class HostExecutor (W E : Type) := { host_yield : HostWorld W E -> HostWorld W E }.

Definition is_gateway_mutation (c : Command) : bool :=
  match c with LaunchApplication _ | WriteClipboard _ | PerformAction _ => true | _ => false end.

(** [WorkerGateway::new]: the verifier and the initial permits. *)
Definition gateway_new (token : AuthorizationToken) (c : WorkerGatewayConfig) : Result (string * Z) WorkerError :=
  ensure_not ((gc_max_inflight_requests c =? 0) || (gc_max_artifact_tickets c =? 0) || (gc_artifact_ticket_ttl c =? 0)
              || (gc_max_artifact_bytes c =? 0) || (gc_max_request_timeout_ms c =? 0))
    (WorkerInvalid "gateway resource and lifetime bounds must be non-zero") ;?
  let? verifier := ok_or (gateway_token_new token) (WorkerInvalid "gateway token must contain 32 to 4096 bytes") in
  Ok (verifier, gc_max_inflight_requests c).

Section Gateway.
Context {W E : Type} `{!DesktopWorker W (HostWorld W E), !HostExecutor W E, !HashOrder, !UuidSource}.
Context (base64_encode : list Z -> string) (verifier : string) (c : WorkerGatewayConfig).
Implicit Types w : HostWorld W E.

Definition WorkerTrace := list (HostWorld W E * WorkerCall W).

(** [try_acquire_owned] and the drop of the permit. *)
Definition try_permit w : option (HostWorld W E) :=
  if 1 <=? hw_permits w then Some {| w with hw_permits := hw_permits w - 1 |} else None.
Definition drop_permit w : HostWorld W E := {| w with hw_permits := hw_permits w + 1 |}.

(** [registry.resolve(..).await]. *)
Definition resolve_lease w (lease_id epoch : string) : HostWorld W E * Result (WorkerLease * W) WorkerError :=
  let w1 := host_yield w in
  let '(registry, r) := resolve (hw_registry w1) (hw_now w1) lease_id epoch in
  ({| w1 with hw_registry := registry |}, r).

Definition purge_tickets (tickets : gmap string ArtifactTicket) (now : Z) : gmap string ArtifactTicket :=
  filter (fun x => now < at_expires_at x.2) tickets.

Definition ticket_ref_of (n : nat) : string := "ticket_" +:+ uuid n.

(** [mint_ticket]. *)
Definition mint_ticket w (lease_id epoch : string) (a : ScreenshotArtifact)
    : HostWorld W E * Result RemoteScreenshotArtifact CuaError :=
  if (sa_byte_length a =? 0) || (gc_max_artifact_bytes c <? sa_byte_length a)
  then (w, Err (gateway_error FailStaleArtifact false))
  else
    let w1 := host_yield w in
    let tickets := purge_tickets (hw_tickets w1) (hw_now w1) in
    if gc_max_artifact_tickets c <=? msize tickets
    then ({| w1 with hw_tickets := tickets |}, Err (gateway_error FailBusy false))
    else
      let ticket := ticket_ref_of (hw_drawn w1) in
      ({| w1 with hw_drawn := S (hw_drawn w1);
                  hw_tickets := <[ticket := {| at_lease_id := lease_id; at_worker_epoch := epoch; at_artifact := a;
                                     at_expires_at := hw_now w1 + gc_artifact_ticket_ttl c |}]> tickets |},
       Ok {| rsa_artifact_ref := sa_artifact_ref a; rsa_ticket_ref := ticket; rsa_mime_type := sa_mime_type a;
             rsa_pixel_size := sm_pixel_size (sa_mapping a); rsa_byte_length := sa_byte_length a;
             rsa_sha256 := sa_sha256 a |}).

(** The observation without its local path. *)
Definition remote_observation (o : WindowObservation) (screenshot : option RemoteScreenshotArtifact) : RemoteWindowObservation :=
  {| rwo_observation_id := wo_observation_id o; rwo_window_ref := wo_window_ref o; rwo_captured_at := wo_captured_at o;
     rwo_window_screen_bounds := wo_window_screen_bounds o; rwo_screenshot := screenshot;
     rwo_elements := wo_elements o; rwo_elements_complete := wo_elements_complete o;
     rwo_elements_truncation := wo_elements_truncation o |}.

(** [project_result]. *)
Definition project_result w (lease_id epoch : string) (result : CommandResult)
    : HostWorld W E * Result GatewayResult CuaError :=
  match result with
  | RMutationReconciled r => (w, Ok (GatewayCore (RMutationReconciled {| r with mr_worker_epoch := Some epoch |})))
  | RWindowObserved o =>
      match wo_screenshot o with
      | Some a =>
          match mint_ticket w lease_id epoch a with
          | (w1, Ok remote) => (w1, Ok (GatewayWindowObserved (remote_observation o (Some remote))))
          | (w1, Err e) => (w1, Err e)
          end
      | None => (w, Ok (GatewayWindowObserved (remote_observation o None)))
      end
  | other => (w, Ok (GatewayCore other))
  end.

(** The failure response of [execute]. *)
Definition execute_failure (r : GatewayExecuteRequest) (f : GatewayFailure) : GatewayExecuteResponse :=
  {| gr_protocol_version := GATEWAY_PROTOCOL_VERSION; gr_request_id := ge_request_id r; gr_worker_id := None;
     gr_worker_epoch := None; gr_outcome := GatewayError (gateway_error f (is_gateway_mutation (ge_command r))) |}.

Definition request_out_of_bounds (r : GatewayExecuteRequest) : bool :=
  str_eqb (ge_request_id r) "" || (GATEWAY_MAX_REQUEST_ID_BYTES <? slen (ge_request_id r))
  || negb (is_trimmed (ge_request_id r)) || (ge_timeout_ms r =? 0) || (gc_max_request_timeout_ms c <? ge_timeout_ms r).

(** [WorkerGateway::execute]. *)
Definition gateway_execute w (r : GatewayExecuteRequest) : HostWorld W E * WorkerTrace * GatewayExecuteResponse :=
  if negb (str_eqb (ge_protocol_version r) GATEWAY_PROTOCOL_VERSION) then (w, [], execute_failure r FailProtocol)
  else if negb (gateway_token_accepts verifier (ge_authorization r)) then (w, [], execute_failure r FailUnauthorized)
  else if request_out_of_bounds r then (w, [], execute_failure r FailInvalid)
  else
    match try_permit w with
    | None => (w, [], execute_failure r FailBusy)
    | Some w0 =>
        match resolve_lease w0 (ge_lease_id r) (ge_worker_epoch r) with
        | (w1, Err e) => (drop_permit w1, [], execute_failure r (FailWorker e))
        | (w1, Ok (lease, worker)) =>
            let '(w2, response) := worker_dispatch worker (ge_request_id r) (ge_timeout_ms r) (ge_command r) w1 in
            let '(w3, outcome) :=
              match rs_outcome response with
              | Success result =>
                  match project_result w2 (wl_lease_id lease) (wl_worker_epoch lease) result with
                  | (w3, Ok projected) => (w3, GatewaySuccess projected)
                  | (w3, Err e) => (w3, GatewayError e)
                  end
              | Error e => (w2, GatewayError e)
              end in
            (drop_permit w3,
             [(w1, CallDispatch worker (ge_request_id r) (ge_timeout_ms r) (ge_command r))],
             {| gr_protocol_version := GATEWAY_PROTOCOL_VERSION; gr_request_id := rs_request_id response;
                gr_worker_id := Some (wl_worker_id lease); gr_worker_epoch := Some (wl_worker_epoch lease);
                gr_outcome := outcome |})
        end
    end.

(** The artifact a ticket stands for, under the tickets' lock. *)
Definition ticketed_artifact w (r : GatewayArtifactRequest) : HostWorld W E * Result ScreenshotArtifact CuaError :=
  let w1 := host_yield w in
  let tickets := purge_tickets (hw_tickets w1) (hw_now w1) in
  ({| w1 with hw_tickets := tickets |},
   let? ticket := ok_or (tickets !! ga_ticket_ref r) (gateway_error FailStaleArtifact false) in
   ensure_not (negb (str_eqb (at_lease_id ticket) (ga_lease_id r)) || negb (str_eqb (at_worker_epoch ticket) (ga_worker_epoch r)))
     (gateway_error FailStaleArtifact false) ;?
   Ok (at_artifact ticket)).

Definition artifact_response (a : ScreenshotArtifact) (bytes : list Z) : GatewayArtifactResponse :=
  {| gar_artifact_ref := sa_artifact_ref a; gar_mime_type := sa_mime_type a; gar_byte_length := sa_byte_length a;
     gar_sha256 := sa_sha256 a; gar_data_base64 := base64_encode bytes |}.

(** [WorkerGateway::fetch_artifact]. *)
Definition fetch_artifact w (r : GatewayArtifactRequest)
    : HostWorld W E * WorkerTrace * Result GatewayArtifactResponse CuaError :=
  if negb (str_eqb (ga_protocol_version r) GATEWAY_PROTOCOL_VERSION) then (w, [], Err (gateway_error FailProtocol false))
  else if negb (gateway_token_accepts verifier (ga_authorization r)) then (w, [], Err (gateway_error FailUnauthorized false))
  else
    match try_permit w with
    | None => (w, [], Err (gateway_error FailBusy false))
    | Some w0 =>
        match resolve_lease w0 (ga_lease_id r) (ga_worker_epoch r) with
        | (w1, Err e) => (drop_permit w1, [], Err (gateway_error (FailWorker e) false))
        | (w1, Ok (_, worker)) =>
            match ticketed_artifact w1 r with
            | (w2, Err e) => (drop_permit w2, [], Err e)
            | (w2, Ok a) =>
                let '(w3, result) := worker_read_artifact worker a (gc_max_artifact_bytes c) w2 in
                (drop_permit w3, [(w2, CallReadArtifact worker a (gc_max_artifact_bytes c))],
                 rmap (artifact_response a) result)
            end
        end
    end.

End Gateway.

(** * The gateway under a lawful host *)

Section GatewayProps.
Context {W E : Type} `{!DesktopWorker W (HostWorld W E), !HostExecutor W E, !HashOrder, !UuidSource}.
Context (base64_encode : list Z -> string) (verifier : string) (c : WorkerGatewayConfig) (rc : WorkerRegistryConfig).
Implicit Types w : HostWorld W E.

(** The registry's invariant, and tickets that are drawn, bounded in number
    and stand for artifacts of admissible size. *)
Record host_ok w : Prop := {
  ho_registry : registry_ok rc (hw_registry w) (hw_drawn w);
  ho_bound : msize (hw_tickets w) <= gc_max_artifact_tickets c;
  ho_tickets : forall r t, hw_tickets w !! r = Some t ->
    (exists i, (i < hw_drawn w)%nat /\ r = ticket_ref_of i) /\ sa_byte_length (at_artifact t) <> 0 /\
    sa_byte_length (at_artifact t) <= gc_max_artifact_bytes c;
}.

(** Time passes, identifiers are drawn, and a ticket is never minted again. *)
Record host_step w w' : Prop := {
  hs_now : hw_now w <= hw_now w';
  hs_drawn : (hw_drawn w <= hw_drawn w')%nat;
  hs_tickets : forall i t, (i < hw_drawn w)%nat -> hw_tickets w' !! ticket_ref_of i = Some t ->
    hw_tickets w !! ticket_ref_of i = Some t;
}.

#[export] Instance host_step_preorder : PreOrder host_step.
Proof.
  split; [by constructor|]. intros w1 w2 w3 [] []. constructor; [lia | lia|]. intros i t Hi Ht. eauto with lia.
Qed.

Definition keeps_host (f : HostWorld W E -> HostWorld W E) : Prop :=
  forall w, host_ok w -> host_ok (f w) /\ host_step w (f w).

(** What the gateway relies on: the other tasks of the host and the workers
    keep its state. *)
Record LawfulHost : Prop := {
  lh_yield : keeps_host host_yield;
  lh_dispatch : forall x id t cmd, keeps_host (fun w => (worker_dispatch x id t cmd w).1);
  lh_read : forall x a n, keeps_host (fun w => (worker_read_artifact x a n w).1);
}.

(** The lease is in the table, unexpired, and the worker it names is [x]. *)
Definition live_lease w (lease_id epoch : string) (x : W) : Prop :=
  exists e entry, leases (hw_registry w) !! lease_id = Some e /\ hw_now w < le_expires_at e /\
    wl_worker_epoch (le_lease e) = epoch /\ workers (hw_registry w) !! wl_worker_id (le_lease e) = Some entry /\
    wd_epoch (we_descriptor entry) = epoch /\ we_endpoint entry = x.

Lemma host_ok_fields w w' :
  hw_registry w' = hw_registry w -> hw_tickets w' = hw_tickets w -> hw_drawn w' = hw_drawn w -> hw_now w' = hw_now w ->
  host_ok w -> host_ok w' /\ host_step w w'.
Proof.
  intros E1 E2 E3 E4 [Hr Hb Ht]. split; constructor; rewrite ?E1, ?E2, ?E3, ?E4; try done.
Qed.

Lemma drop_permit_ok w : host_ok w -> host_ok (drop_permit w) /\ host_step w (drop_permit w).
Proof. by apply host_ok_fields. Qed.

Lemma resolve_lease_ok w lease_id epoch : LawfulHost -> host_ok w ->
  let '(w', r) := resolve_lease w lease_id epoch in
  host_ok w' /\ host_step w w' /\
  match r with
  | Ok (lease, x) => live_lease w' lease_id epoch x /\ wl_lease_id lease = lease_id /\ wl_worker_epoch lease = epoch
  | Err _ => True
  end.
Proof.
  intros Hlaw Hok. destruct (lh_yield Hlaw w Hok) as [Hok1 Hs1]. unfold resolve_lease.
  set (w1 := host_yield w) in *. destruct Hok1 as [Hr Hb Ht].
  pose proof (resolve_cases rc (hw_registry w1) (hw_drawn w1) (hw_now w1) lease_id epoch Hr) as Hc.
  destruct (purge_ok rc (hw_registry w1) (hw_drawn w1) (hw_now w1) Hr) as (Hr' & Hsame & Hl).
  destruct (resolve (hw_registry w1) (hw_now w1) lease_id epoch) as [registry r] eqn:Er.
  assert (registry = purge_expired_leases (hw_registry w1) (hw_now w1)) as -> by (by unfold resolve in Er; injection Er).
  split; [by constructor|]. split; [by destruct Hs1; constructor|].
  cbn [snd] in Hc. destruct r as [[lease x]|]; [|done]. destruct Hc as (e & y & He & -> & Hlt & Hep & Hw & -> & Hwe).
  destruct (same_workers_Some _ _ _ _ Hsame Hw) as (y' & Hw' & Hend & Hep').
  split; [|split; [by apply (ro_leases _ _ _ Hr) in He as [] | done]].
  exists e, y'. cbn. split; [by apply Hl|]. repeat split; try done; congruence.
Qed.

Lemma purge_tickets_sub tickets now r t :
  purge_tickets tickets now !! r = Some t <-> tickets !! r = Some t /\ now < at_expires_at t.
Proof. unfold purge_tickets. by rewrite map_lookup_filter_Some. Qed.

Lemma purge_tickets_ok w : host_ok w ->
  host_ok {| w with hw_tickets := purge_tickets (hw_tickets w) (hw_now w) |} /\
  host_step w {| w with hw_tickets := purge_tickets (hw_tickets w) (hw_now w) |}.
Proof.
  intros [Hr Hb Ht]. split; constructor; cbn; try done.
  - etrans; [apply msize_filter_le | done].
  - intros r t [Hx _]%purge_tickets_sub. by apply Ht.
  - by intros i t _ [Hx _]%purge_tickets_sub.
Qed.

Lemma ticket_ref_inj i j : ticket_ref_of i = ticket_ref_of j -> i = j.
Proof. unfold ticket_ref_of. intros Heq%string_app_inj_l. by apply uuid_inj. Qed.

Lemma mint_ticket_ok w lease_id epoch a : LawfulHost -> host_ok w ->
  let '(w', r) := mint_ticket c w lease_id epoch a in
  host_ok w' /\ host_step w w' /\
  match r with
  | Ok remote => exists i t, rsa_ticket_ref remote = ticket_ref_of i /\ (i < hw_drawn w')%nat /\
      hw_tickets w' !! rsa_ticket_ref remote = Some t /\ at_artifact t = a /\ at_lease_id t = lease_id /\ at_worker_epoch t = epoch
  | Err e => mutation_status e = NotApplicable
  end.
Proof.
  intros Hlaw Hok. unfold mint_ticket. destruct ((sa_byte_length a =? 0) || _) eqn:Eb; [done|].
  destruct (lh_yield Hlaw w Hok) as [Hok1 Hs1]. set (w1 := host_yield w) in *.
  destruct (purge_tickets_ok w1 Hok1) as [Hok2 Hs2]. set (tickets := purge_tickets (hw_tickets w1) (hw_now w1)) in *.
  destruct (gc_max_artifact_tickets c <=? msize tickets) eqn:Ec; [split; [done|]; split; [by etrans | done]|].
  destruct Hok2 as [Hr Hb Ht]. cbn in *. zbool.
  assert (Hnone : tickets !! ticket_ref_of (hw_drawn w1) = None).
  { destruct (tickets !! _) as [t|] eqn:Et; [exfalso|done]. destruct (Ht _ _ Et) as [(i & Hi & Hx%ticket_ref_inj) _]. lia. }
  split; [constructor; cbn|split; [etrans; [exact Hs1|]; constructor; cbn|]].
  - by eapply registry_ok_mono; [|exact Hr]; lia.
  - rewrite msize_insert_None by done. lia.
  - intros r t [[<- <-]|[Hne Hx]]%lookup_insert_Some; cbn.
    + split; [exists (hw_drawn w1); split; [lia | done]|]. lia.
    + destruct (Ht _ _ Hx) as [(i & ? & ->) ?]. split; [exists i; split; [lia | done] | done].
  - lia.
  - lia.
  - intros i t Hi. rewrite lookup_insert_ne by (intros ?%ticket_ref_inj; lia). intros [Hx _]%purge_tickets_sub. done.
  - exists (hw_drawn w1). eexists. cbn. rewrite lookup_insert_eq. repeat split; lia.
Qed.

Lemma try_permit_ok w w' : try_permit w = Some w' -> host_ok w -> host_ok w' /\ host_step w w'.
Proof. unfold try_permit. destruct (1 <=? hw_permits w); [|done]. intros [= <-]. by apply host_ok_fields. Qed.

(** The request presents the gateway's token in its protocol version. *)
Definition authenticated (version : string) (token : AuthorizationToken) : Prop :=
  version = GATEWAY_PROTOCOL_VERSION /\ token = verifier.

Lemma accepts_eq token : gateway_token_accepts verifier token = true -> token = verifier.
Proof. unfold gateway_token_accepts. rewrite andb_true_iff, str_eqb_eq. naive_solver. Qed.

Lemma project_result_ok w lease_id epoch result : LawfulHost -> host_ok w ->
  let '(w', r) := project_result c w lease_id epoch result in
  host_ok w' /\ host_step w w' /\
  match r with
  | Ok (GatewayWindowObserved o) => forall remote, rwo_screenshot o = Some remote ->
      exists i t a, rsa_ticket_ref remote = ticket_ref_of i /\ (i < hw_drawn w')%nat /\
        hw_tickets w' !! rsa_ticket_ref remote = Some t /\ at_artifact t = a /\ at_lease_id t = lease_id /\
        at_worker_epoch t = epoch /\ exists o', result = RWindowObserved o' /\ wo_screenshot o' = Some a
  | Ok (GatewayCore _) => True
  | Err e => mutation_status e = NotApplicable
  end.
Proof.
  intros Hlaw Hok. destruct result as [| | | | | | | | | |o| | | | | |]; try (by split; [done | split; [reflexivity|]]). cbn.
  destruct (wo_screenshot o) as [a|] eqn:Ea; [|by split; [done | split; [reflexivity|]]].
  pose proof (mint_ticket_ok w lease_id epoch a Hlaw Hok) as Hm.
  destruct (mint_ticket c w lease_id epoch a) as [w' [remote|e]]; destruct Hm as (? & ? & Hm); [|done].
  do 2 (split; [done|]). intros remote' [= <-]. destruct Hm as (i & t & ? & ? & ? & ? & ? & ?).
  exists i, t, a. repeat split; try done. eauto.
Qed.

(** A worker call of [gateway_execute]: for an authenticated request within
    the bounds, to the worker of its live lease. *)
Definition dispatch_affine w (r : GatewayExecuteRequest) (x : HostWorld W E * WorkerCall W) : Prop :=
  host_ok x.1 /\ host_step w x.1 /\ authenticated (ge_protocol_version r) (ge_authorization r) /\
  request_out_of_bounds c r = false /\
  exists worker, x.2 = CallDispatch worker (ge_request_id r) (ge_timeout_ms r) (ge_command r) /\
    live_lease x.1 (ge_lease_id r) (ge_worker_epoch r) worker.

(** The screenshot ticket of a response stands for the artifact of the
    worker's answer, under the request's lease. *)
Definition ticket_minted (r : GatewayExecuteRequest) w' (t : list (HostWorld W E * WorkerCall W)) (outcome : GatewayOutcome) : Prop :=
  forall o remote, outcome = GatewaySuccess (GatewayWindowObserved o) -> rwo_screenshot o = Some remote ->
    exists i ticket worker v, t = [(v, CallDispatch worker (ge_request_id r) (ge_timeout_ms r) (ge_command r))] /\
      rsa_ticket_ref remote = ticket_ref_of i /\ (i < hw_drawn w')%nat /\ hw_tickets w' !! rsa_ticket_ref remote = Some ticket /\
      at_lease_id ticket = ge_lease_id r /\ at_worker_epoch ticket = ge_worker_epoch r /\
      exists o', rs_outcome (worker_dispatch worker (ge_request_id r) (ge_timeout_ms r) (ge_command r) v).2 =
          Success (RWindowObserved o') /\ wo_screenshot o' = Some (at_artifact ticket).

Lemma gateway_execute_ok w r : LawfulHost -> host_ok w ->
  let '(w', t, response) := gateway_execute verifier c w r in
  host_ok w' /\ host_step w w' /\ (forall x, x ∈ t -> dispatch_affine w r x) /\
  ticket_minted r w' t (gr_outcome response).
Proof.
  intros Hlaw Hok. unfold gateway_execute.
  assert (Hfail : forall w' f, host_ok w' -> host_step w w' ->
    host_ok w' /\ host_step w w' /\ (forall x, x ∈ [] -> dispatch_affine w r x) /\
    ticket_minted r w' [] (gr_outcome (execute_failure r f))).
  { intros w' f ? ?. do 2 (split; [done|]). split; [by intros x ?%elem_of_nil | done]. }
  destruct (str_eqb (ge_protocol_version r) _) eqn:Ev; cbn [negb]; [|by apply Hfail].
  destruct (gateway_token_accepts verifier _) eqn:Et; cbn [negb]; [|by apply Hfail].
  destruct (request_out_of_bounds c r) eqn:Eb; [by apply Hfail|].
  destruct (try_permit w) as [w0|] eqn:Ep; [|by apply Hfail]. destruct (try_permit_ok w w0 Ep Hok) as [Hok0 Hs0].
  pose proof (resolve_lease_ok w0 (ge_lease_id r) (ge_worker_epoch r) Hlaw Hok0) as Hr.
  destruct (resolve_lease w0 _ _) as [w1 [[lease worker]|e]]; destruct Hr as (Hok1 & Hs1 & Hr).
  2: { destruct (drop_permit_ok w1 Hok1) as [? ?]. apply Hfail; [done|]. by do 2 (etrans; [eassumption|]). }
  destruct Hr as (Hlive & Hid & Hep). destruct (lh_dispatch Hlaw worker (ge_request_id r) (ge_timeout_ms r) (ge_command r) w1 Hok1)
    as [Hok2 Hs2]. destruct (worker_dispatch worker _ _ _ w1) as [w2 response] eqn:Ed. cbn [fst] in *.
  assert (Haff : forall x, x ∈ [(w1, CallDispatch worker (ge_request_id r) (ge_timeout_ms r) (ge_command r))] -> dispatch_affine w r x).
  { intros x ->%list_elem_of_singleton. split; [done|]. split; [by etrans|].
    split; [split; [by apply str_eqb_eq | by apply accepts_eq]|]. split; [done|]. by exists worker. }
  assert (Hs02 : host_step w w2) by (do 2 (etrans; [eassumption|]); done).
  destruct (rs_outcome response) as [result|e] eqn:Eo.
  2: { destruct (drop_permit_ok w2 Hok2) as [? ?]. split; [done|]. split; [by etrans|]. split; [done|]. by intros o remote [= ]. }
  pose proof (project_result_ok w2 (wl_lease_id lease) (wl_worker_epoch lease) result Hlaw Hok2) as Hp.
  destruct (project_result c w2 _ _ result) as [w3 [projected|e]]; destruct Hp as (Hok3 & Hs3 & Hp);
    destruct (drop_permit_ok w3 Hok3) as [? ?]; (split; [done|]); (split; [by do 2 (etrans; [eassumption|])|]); (split; [done|]).
  2: by intros o remote [= ].
  intros o remote [= ->] Ho. destruct (Hp remote Ho) as (i & ticket & a & ? & ? & ? & <- & ? & ? & o' & -> & ?).
  exists i, ticket, worker, w1. cbn [hw_tickets hw_drawn drop_permit]. rewrite Ed. cbn [snd]. rewrite Eo.
  repeat split; try done; try congruence. eauto.
Qed.

Lemma ticketed_artifact_ok w r : LawfulHost -> host_ok w ->
  let '(w', result) := ticketed_artifact w r in
  host_ok w' /\ host_step w w' /\
  match result with
  | Ok a => exists t, hw_tickets w' !! ga_ticket_ref r = Some t /\ at_artifact t = a /\ hw_now w' < at_expires_at t /\
      at_lease_id t = ga_lease_id r /\ at_worker_epoch t = ga_worker_epoch r
  | Err _ => True
  end.
Proof.
  intros Hlaw Hok. destruct (lh_yield Hlaw w Hok) as [Hok1 Hs1]. unfold ticketed_artifact. set (w1 := host_yield w) in *.
  destruct (purge_tickets_ok w1 Hok1) as [Hok2 Hs2]. split; [done|]. split; [by etrans|].
  destruct (let? ticket := ok_or _ _ in _) as [a|] eqn:Er; [|done]. apply rbind_Ok in Er as (t & Ht%ok_or_Ok & Er).
  apply rbind_unit_Ok in Er as [He%ensure_not_Ok [= <-]]. apply orb_false_iff in He as [E1 E2].
  rewrite negb_false_iff, str_eqb_eq in E1, E2. exists t. cbn. split; [done|]. split; [done|].
  apply purge_tickets_sub in Ht as [_ ?]. done.
Qed.

(** An artifact read of [fetch_artifact]: for an authenticated request, of the
    artifact of an unexpired ticket of the request's lease and epoch, from the
    worker of that lease. *)
Definition read_affine w (r : GatewayArtifactRequest) (x : HostWorld W E * WorkerCall W) : Prop :=
  host_ok x.1 /\ host_step w x.1 /\ authenticated (ga_protocol_version r) (ga_authorization r) /\
  exists worker t v, x.2 = CallReadArtifact worker (at_artifact t) (gc_max_artifact_bytes c) /\
    live_lease v (ga_lease_id r) (ga_worker_epoch r) worker /\ host_step w v /\ host_step v x.1 /\
    hw_tickets x.1 !! ga_ticket_ref r = Some t /\ hw_now x.1 < at_expires_at t /\
    at_lease_id t = ga_lease_id r /\ at_worker_epoch t = ga_worker_epoch r.

Lemma fetch_artifact_ok w r : LawfulHost -> host_ok w ->
  let '(w', t, _) := fetch_artifact base64_encode verifier c w r in
  host_ok w' /\ host_step w w' /\ (forall x, x ∈ t -> read_affine w r x).
Proof.
  intros Hlaw Hok. unfold fetch_artifact.
  assert (Hfail : forall w', host_ok w' -> host_step w w' -> host_ok w' /\ host_step w w' /\ (forall x, x ∈ [] -> read_affine w r x)).
  { intros w' ? ?. do 2 (split; [done|]). by intros x ?%elem_of_nil. }
  destruct (str_eqb (ga_protocol_version r) _) eqn:Ev; cbn [negb]; [|by apply Hfail].
  destruct (gateway_token_accepts verifier _) eqn:Et; cbn [negb]; [|by apply Hfail].
  destruct (try_permit w) as [w0|] eqn:Ep; [|by apply Hfail]. destruct (try_permit_ok w w0 Ep Hok) as [Hok0 Hs0].
  pose proof (resolve_lease_ok w0 (ga_lease_id r) (ga_worker_epoch r) Hlaw Hok0) as Hr.
  destruct (resolve_lease w0 _ _) as [w1 [[lease worker]|e]]; destruct Hr as (Hok1 & Hs1 & Hr).
  2: { destruct (drop_permit_ok w1 Hok1) as [? ?]. apply Hfail; [done|]. by do 2 (etrans; [eassumption|]). }
  pose proof (ticketed_artifact_ok w1 r Hlaw Hok1) as Ha.
  destruct (ticketed_artifact w1 r) as [w2 [a|e]]; destruct Ha as (Hok2 & Hs2 & Ha);
    assert (Hs : host_step w w2) by (by do 2 (etrans; [eassumption|]); done).
  2: { destruct (drop_permit_ok w2 Hok2) as [? ?]. apply Hfail; [done | by etrans]. }
  destruct Ha as (t & ? & <- & ? & ? & ?). destruct (lh_read Hlaw worker (at_artifact t) (gc_max_artifact_bytes c) w2 Hok2) as [Hok3 Hs3].
  destruct (worker_read_artifact worker _ _ w2) as [w3 result]. cbn [fst] in *. destruct (drop_permit_ok w3 Hok3) as [? ?].
  split; [done|]. split; [by do 2 (etrans; [eassumption|])|]. intros x ->%list_elem_of_singleton. split; [done|]. split; [done|].
  split; [split; [by apply str_eqb_eq | by apply accepts_eq]|]. exists worker, t, w1.
  destruct Hr as (? & ? & ?). split; [done|]. split; [done|]. split; [etrans; [exact Hs0 | exact Hs1]|]. done.
Qed.

(** C10: workers are called only under a live lease.  Over any lawful host, a
    gateway call keeps the state's invariant, and it calls a worker only for a
    request with the gateway's protocol and token and within the bounds: a
    command goes to the worker of the request's unexpired lease in the
    requested epoch, an artifact read also needs an unexpired ticket of that
    lease and epoch. *)
Theorem gateway_calls_affine w execute_request artifact_request :
  LawfulHost -> host_ok w ->
  (let '(w', t, _) := gateway_execute verifier c w execute_request in
   host_ok w' /\ host_step w w' /\ forall x, x ∈ t -> dispatch_affine w execute_request x) /\
  (let '(w', t, _) := fetch_artifact base64_encode verifier c w artifact_request in
   host_ok w' /\ host_step w w' /\ forall x, x ∈ t -> read_affine w artifact_request x).
Proof.
  intros Hlaw Hok. pose proof (gateway_execute_ok w execute_request Hlaw Hok) as He.
  pose proof (fetch_artifact_ok w artifact_request Hlaw Hok) as Hf.
  destruct (gateway_execute verifier c w execute_request) as [[w1 t1] r1].
  destruct (fetch_artifact base64_encode verifier c w artifact_request) as [[w2 t2] r2].
  split; [|done]. destruct He as (? & ? & ? & _). done.
Qed.

(** A screenshot ticket gives back its artifact.  When an observation leaves
    the gateway with a ticket, every later artifact request with that ticket
    that reaches a worker reads exactly the artifact of the worker's answer,
    under the lease and epoch the observation was made with. *)
Theorem ticket_roundtrip w r w' t response o remote w2 q w3 t2 result x :
  LawfulHost -> host_ok w -> gateway_execute verifier c w r = (w', t, response) ->
  gr_outcome response = GatewaySuccess (GatewayWindowObserved o) -> rwo_screenshot o = Some remote ->
  host_ok w2 -> host_step w' w2 -> ga_ticket_ref q = rsa_ticket_ref remote ->
  fetch_artifact base64_encode verifier c w2 q = (w3, t2, result) -> x ∈ t2 ->
  ga_lease_id q = ge_lease_id r /\ ga_worker_epoch q = ge_worker_epoch r /\
  exists v worker reader o' a, t = [(v, CallDispatch worker (ge_request_id r) (ge_timeout_ms r) (ge_command r))] /\
    rs_outcome (worker_dispatch worker (ge_request_id r) (ge_timeout_ms r) (ge_command r) v).2 = Success (RWindowObserved o') /\
    wo_screenshot o' = Some a /\ x.2 = CallReadArtifact reader a (gc_max_artifact_bytes c).
Proof.
  intros Hlaw Hok He Ho Hs Hok2 Hstep Hq Hf Hx. pose proof (gateway_execute_ok w r Hlaw Hok) as Hr. rewrite He in Hr.
  destruct Hr as (_ & _ & _ & Hm). destruct (Hm o remote Ho Hs) as (i & ticket & worker & v & Ht & Hi & Hlt & Htick & Hl & Hep & o' & Hout & Hshot).
  pose proof (fetch_artifact_ok w2 q Hlaw Hok2) as Hr. rewrite Hf in Hr. destruct Hr as (_ & _ & Hr).
  destruct (Hr x Hx) as (_ & Hs2 & _ & reader & t' & v' & Hcall & _ & _ & _ & Ht' & _ & Hl' & Hep').
  rewrite Hq, Hi in Ht'. assert (Hback : host_step w' x.1) by (by etrans).
  apply (hs_tickets _ _ Hback i t' Hlt) in Ht'. rewrite <- Hi, Htick in Ht'. injection Ht' as <-.
  split; [congruence|]. split; [congruence|]. exists v, worker, reader, o', (at_artifact ticket). done.
Qed.

(** The status the gateway itself reports. *)
Definition own_status (cmd : Command) : MutationStatus := if is_gateway_mutation cmd then NotDispatched else NotApplicable.

Lemma execute_failure_status r f : exists e, gr_outcome (execute_failure r f) = GatewayError e /\ mutation_status e = own_status (ge_command r).
Proof. eexists. split; [done|]. unfold gateway_error, own_status. by destruct f as [| | | | |[]]. Qed.

Lemma mint_ticket_status w lease_id epoch a w' e :
  mint_ticket c w lease_id epoch a = (w', Err e) -> mutation_status e = NotApplicable.
Proof. unfold mint_ticket. repeat case_match; intros [= _ <-]; done. Qed.

Lemma project_result_status w lease_id epoch result w' e :
  project_result c w lease_id epoch result = (w', Err e) -> mutation_status e = NotApplicable.
Proof.
  unfold project_result. destruct result as [| | | | | | | | | |o| | | | | |]; try done.
  destruct (wo_screenshot o) as [a|]; [|done]. destruct (mint_ticket c w lease_id epoch a) as [w1 [|]] eqn:Em; [done|].
  intros [= <- <-]. by eapply mint_ticket_status.
Qed.

(** The gateway is truthful about dispatch, over any host.  A command
    reaches at most one worker, once; when it reaches none the answer is an
    error, [NotDispatched] exactly for mutations; when it reaches one the
    answer names it, and a [NotDispatched] status can only be the worker's own. *)
Theorem gateway_status_truthful w r :
  let '(_, t, response) := gateway_execute verifier c w r in
  (t = [] /\ gr_worker_id response = None /\
     exists e, gr_outcome response = GatewayError e /\ mutation_status e = own_status (ge_command r)) \/
  (exists v worker, t = [(v, CallDispatch worker (ge_request_id r) (ge_timeout_ms r) (ge_command r))] /\
     gr_worker_id response <> None /\
     forall e, gr_outcome response = GatewayError e -> mutation_status e = NotDispatched ->
       rs_outcome (worker_dispatch worker (ge_request_id r) (ge_timeout_ms r) (ge_command r) v).2 = Error e).
Proof.
  pose proof (execute_failure_status r) as Hfail. unfold gateway_execute.
  destruct (negb _); [left; auto|]. destruct (negb _); [left; auto|]. destruct (request_out_of_bounds c r); [left; auto|].
  destruct (try_permit w) as [w0|]; [|left; auto].
  destruct (resolve_lease w0 _ _) as [w1 [[lease worker]|e]]; [|left; auto].
  destruct (worker_dispatch worker _ _ _ w1) as [w2 response] eqn:Ed.
  destruct (rs_outcome response) as [result|e] eqn:Eo.
  - destruct (project_result c w2 _ _ result) as [w3 [projected|e]] eqn:Ep; right; exists w1, worker; (split; [done|]); (split; [done|]).
    + done.
    + intros e' [= <-] Hst. apply project_result_status in Ep. congruence.
  - right. exists w1, worker. split; [done|]. split; [done|]. intros e' [= <-] _. rewrite Ed. cbn. by rewrite Eo.
Qed.

(** Every command result that carries a local artifact path. *)
Definition result_paths (result : CommandResult) : list string :=
  let shot o := sa_path <$> option_list (wo_screenshot o) in
  match result with
  | RWindowObserved o => shot o
  | RDisplayObserved o => [sa_path (do_screenshot o)]
  | RActionPerformed o => match ao_observation o with Some o' => shot o' | None => [] end
  | _ => []
  end.

Definition response_paths (outcome : GatewayOutcome) : list string :=
  match outcome with
  | GatewaySuccess (GatewayCore result) => result_paths result
  | _ => []
  end.

(** Which local paths leave the gateway.  A window observation leaves
    without its path, but a display observation, and the observation that
    follows an action, leave with the worker's local artifact path. *)
Theorem gateway_paths w lease_id epoch result w' projected :
  project_result c w lease_id epoch result = (w', Ok projected) ->
  response_paths (GatewaySuccess projected) =
    match result with RWindowObserved _ => [] | _ => result_paths result end.
Proof.
  unfold project_result. destruct result as [| | | | | | | | | |o| | | | | |]; try (by intros [= _ <-]).
  destruct (wo_screenshot o) as [a|]; [|by intros [= _ <-]].
  destruct (mint_ticket c w lease_id epoch a) as [w1 [|]]; [by intros [= _ <-] | done].
Qed.

End GatewayProps.

(** * A host with one worker *)

Definition demo_rect : ScreenRect := {| sr_x := f64_of_Z 0; sr_y := f64_of_Z 0; sr_width := f64_of_Z 1; sr_height := f64_of_Z 1 |}.

Definition remote_artifact : ScreenshotArtifact := {|
  sa_artifact_ref := "artifact"; sa_path := "/private/worker/artifact.png"; sa_mime_type := "image/png";
  sa_mapping := {| sm_screen_bounds := demo_rect; sm_pixel_size := {| ps_width := 1; ps_height := 1 |} |};
  sa_byte_length := 8; sa_sha256 := "digest" |}.

Definition remote_window : WindowObservation := {|
  wo_observation_id := "observation"; wo_window_ref := "window"; wo_captured_at := "time";
  wo_window_screen_bounds := demo_rect; wo_screenshot := Some remote_artifact; wo_elements := [];
  wo_elements_complete := true; wo_elements_truncation := None |}.

Definition remote_display : DisplayObservation := {|
  do_observation_id := "observation"; do_display_ref := "display"; do_captured_at := "time";
  do_display_screen_bounds := demo_rect; do_screenshot := remote_artifact |}.

#[local] Instance demo_worker : DesktopWorker unit (HostWorld unit unit) := {|
  worker_platform := fun _ => Macos;
  worker_environment := fun _ => local_user_desktop;
  worker_dispatch := fun _ id _ _ w => (w, {| rs_protocol_version := PROTOCOL_VERSION; rs_request_id := id;
    rs_outcome := Success (RWindowObserved remote_window) |});
  worker_read_artifact := fun _ _ _ w => (w, Ok [137; 80; 78; 71]) |}.
#[local] Instance demo_host : HostExecutor unit unit := {| host_yield := fun w => w |}.
#[local] Instance demo_order : HashOrder := map_to_list_order.
#[local] Instance demo_uuids : UuidSource := unary_uuids.

Definition demo_token : string := "0123456789abcdef0123456789abcdef".

Definition demo_registry : RegistryState unit * nat :=
  registry_run (D := HostWorld unit unit) (fun _ => Some "time"%string) registry_config_default (registry_state_default, 0%nat)
    [(0, OpRegister tt 1); (0, OpAcquire 0 requirements_default (60 * nanos))].

Definition demo_world : HostWorld unit unit := {|
  hw_registry := demo_registry.1; hw_tickets := ∅; hw_permits := 64; hw_drawn := demo_registry.2; hw_now := 1; hw_env := tt |}.

Definition demo_request : GatewayExecuteRequest := {|
  ge_protocol_version := GATEWAY_PROTOCOL_VERSION; ge_request_id := "request"; ge_timeout_ms := 1000;
  ge_authorization := demo_token; ge_lease_id := host_id "lease" 2; ge_worker_epoch := host_id "epoch" 1;
  ge_command := GetCapabilities |}.

Definition demo_ticket : string := ticket_ref_of 3.

Definition demo_fetch : GatewayArtifactRequest := {|
  ga_protocol_version := GATEWAY_PROTOCOL_VERSION; ga_authorization := demo_token; ga_lease_id := host_id "lease" 2;
  ga_worker_epoch := host_id "epoch" 1; ga_ticket_ref := demo_ticket |}.

Definition no_base64 (bytes : list Z) : string := EmptyString.

Lemma demo_host_lawful : LawfulHost gateway_config_default registry_config_default.
Proof. split; intros; intros w Hw; (split; [done | reflexivity]). Qed.

Lemma demo_world_ok : host_ok gateway_config_default registry_config_default demo_world.
Proof.
  constructor; cbn [demo_world hw_registry hw_drawn hw_tickets].
  - pose proof (registry_run_ok (D := HostWorld unit unit) (fun _ => Some "time"%string) registry_config_default
      [(0, OpRegister tt 1); (0, OpAcquire 0 requirements_default (60 * nanos))] registry_state_default 0%nat) as Hr.
    unfold demo_registry. destruct (registry_run _ _ _ _) as [st n]. apply Hr; [by repeat constructor|].
    constructor; cbn; unfold msize; rewrite ?map_size_empty; try done; cbn; lia.
  - unfold msize. rewrite map_size_empty. cbn. lia.
  - intros r t Ht. by rewrite lookup_empty in Ht.
Qed.

Definition demo_executed := gateway_execute demo_token gateway_config_default demo_world demo_request.
Definition demo_fetched := fetch_artifact no_base64 demo_token gateway_config_default demo_executed.1.1 demo_fetch.

Lemma gateway_calls_affine_witness :
  exists v, demo_executed.1.2 = [(v, CallDispatch tt "request" 1000 GetCapabilities)] /\
    Forall (dispatch_affine demo_token gateway_config_default registry_config_default demo_world demo_request) demo_executed.1.2.
Proof.
  destruct (gateway_calls_affine no_base64 demo_token gateway_config_default registry_config_default demo_world demo_request
    demo_fetch demo_host_lawful demo_world_ok) as [He _].
  eexists. split; [vm_compute; reflexivity|]. unfold demo_executed in *.
  destruct (gateway_execute demo_token gateway_config_default demo_world demo_request) as [[w' t] r].
  apply Forall_forall. intros x. apply He.
Defined.

Lemma triple_parts {A B C} (x : A * B * C) : x = (x.1.1, x.1.2, x.2).
Proof. by destruct x as [[]]. Qed.

Lemma demo_executed_ok : host_ok gateway_config_default registry_config_default demo_executed.1.1.
Proof.
  pose proof (gateway_execute_ok demo_token gateway_config_default registry_config_default demo_world demo_request
    demo_host_lawful demo_world_ok) as He. unfold demo_executed.
  destruct (gateway_execute demo_token gateway_config_default demo_world demo_request) as [[w' t] r]. apply He.
Qed.

Definition demo_remote : RemoteScreenshotArtifact := {|
  rsa_artifact_ref := "artifact"; rsa_ticket_ref := demo_ticket; rsa_mime_type := "image/png";
  rsa_pixel_size := {| ps_width := 1; ps_height := 1 |}; rsa_byte_length := 8; rsa_sha256 := "digest" |}.

Lemma ticket_roundtrip_witness :
  Forall (fun x => exists reader, x.2 = CallReadArtifact reader remote_artifact (gc_max_artifact_bytes gateway_config_default))
    demo_fetched.1.2 /\ demo_fetched.1.2 <> [].
Proof.
  split; [|vm_compute; discriminate]. apply Forall_forall. intros x Hx.
  destruct (ticket_roundtrip no_base64 demo_token gateway_config_default registry_config_default demo_world demo_request
    demo_executed.1.1 demo_executed.1.2 demo_executed.2 (remote_observation remote_window (Some demo_remote)) demo_remote
    demo_executed.1.1 demo_fetch demo_fetched.1.1 demo_fetched.1.2 demo_fetched.2 x demo_host_lawful demo_world_ok (triple_parts _)
    ltac:(vm_compute; reflexivity) eq_refl demo_executed_ok (@PreOrder_Reflexive _ _ host_step_preorder _) eq_refl (triple_parts _) Hx)
    as (_ & _ & v & worker & reader & o' & a & Ht & Ho & Ha & Hc).
  exists reader. rewrite Hc. cbn in Ho. injection Ho as <-. by injection Ha as <-.
Defined.

Lemma gateway_paths_witness :
  response_paths (GatewaySuccess (GatewayCore (RDisplayObserved remote_display))) = ["/private/worker/artifact.png"%string].
Proof.
  exact (gateway_paths gateway_config_default demo_world "lease" "epoch" (RDisplayObserved remote_display) demo_world
    (GatewayCore (RDisplayObserved remote_display)) eq_refl).
Defined.
