(* ===== verification/Wire.v ===== *)
(** The gateway's byte stream: [src/crates/host/src/wire.rs].

    The same streams as in [Frame] carry gateway requests and responses.  The
    JSON codecs are parameters, with the round trip of [serde_json] as the
    hypothesis [CodecRoundTrip].  The theorems: the framing is the one of the
    local transport up to the names of the errors, serving a stream ends, and
    a client's round trip gives the gateway's answer or an error that says
    what happened. *)

From S2P Require Import Prelude Floats Geometry Text Protocol Errors Frame Environment Registry Gateway.

Definition HARD_MAX_GATEWAY_FRAME_BYTES : Z := 64 * 1024 * 1024.

Inductive GatewayWireRequest :=
| WireExecute (request : GatewayExecuteRequest)
| WireFetchArtifact (request : GatewayArtifactRequest).

Inductive GatewayArtifactOutcome :=
| ArtifactSuccess (artifact : GatewayArtifactResponse)
| ArtifactError (error : CuaError).

Inductive GatewayWireResponse :=
| WireExecuted (response : GatewayExecuteResponse)
| WireArtifact (outcome : GatewayArtifactOutcome).

Inductive GatewayTransportError :=
| WireInvalidConfiguration
| FrameTooLarge
| UnexpectedEof
| InvalidJson
| WireIo (source : string).

Definition validate_frame_bound (max_frame_bytes : Z) : Result unit GatewayTransportError :=
  ensure_not ((max_frame_bytes =? 0) || (HARD_MAX_GATEWAY_FRAME_BYTES <? max_frame_bytes)) WireInvalidConfiguration ;?
  Ok tt.

Section WireFrames.
(** Whether an I/O failure of the stream has the kind [UnexpectedEof]. *)
Context (is_eof : string -> bool).

(** A read that ends early for want of bytes has the kind [UnexpectedEof]. *)
Definition map_frame_read_error (r : Reader) : GatewayTransportError :=
  match rd_failure r with
  | None => UnexpectedEof
  | Some e => if is_eof e then UnexpectedEof else WireIo e
  end.

Definition wire_read_frame {T} (decode : list Z -> option T) (r : Reader) (max_frame_bytes : Z)
    : Reader * Result (option T) GatewayTransportError :=
  match read_one r with
  | (r1, Err e) => (r1, Err (WireIo e))
  | (r1, Ok None) => (r1, Ok None)
  | (r1, Ok (Some b)) =>
      match read_exact r1 3 with
      | (r2, Err _) => (r2, Err (map_frame_read_error r2))
      | (r2, Ok header) =>
          let length := from_be_bytes (b :: header) in
          if (length =? 0) || (max_frame_bytes <? length) then (r2, Err FrameTooLarge)
          else
            match read_exact r2 (Z.to_nat length) with
            | (r3, Err _) => (r3, Err (map_frame_read_error r3))
            | (r3, Ok payload) =>
                match decode payload with
                | Some value => (r3, Ok (Some value))
                | None => (r3, Err InvalidJson)
                end
            end
      end
  end.

Definition wire_write_frame {T} (encode : T -> option (list Z)) (w : Writer) (value : T) (max_frame_bytes : Z)
    : Writer * Result unit GatewayTransportError :=
  match encode value with
  | None => (w, Err InvalidJson)
  | Some payload =>
      if (zlen payload =? 0) || (max_frame_bytes <? zlen payload) then (w, Err FrameTooLarge)
      else
        match u32_try_from (zlen payload) with
        | None => (w, Err FrameTooLarge)
        | Some length =>
            match write_all w (to_be_bytes length) with
            | (w1, Err e) => (w1, Err (WireIo e))
            | (w1, Ok _) =>
                match write_all w1 payload with
                | (w2, Err e) => (w2, Err (WireIo e))
                | (w2, Ok _) => (w2, Ok tt)
                end
            end
        end
  end.

(** * Serving a stream and calling over one *)

Context (decode_request : list Z -> option GatewayWireRequest) (encode_request : GatewayWireRequest -> option (list Z)).
Context (decode_response : list Z -> option GatewayWireResponse) (encode_response : GatewayWireResponse -> option (list Z)).

Section Serve.
Context {W E : Type} `{!DesktopWorker W (HostWorld W E), !HostExecutor W E, !HashOrder, !UuidSource}.
Context (base64_encode : list Z -> string) (verifier : string) (c : WorkerGatewayConfig).
Implicit Types h : HostWorld W E.

(** The body of the loop up to the response. *)
Definition answer_request h (request : GatewayWireRequest) : HostWorld W E * GatewayWireResponse :=
  match request with
  | WireExecute q => let '(h1, _, response) := gateway_execute verifier c h q in (h1, WireExecuted response)
  | WireFetchArtifact q =>
      let '(h1, _, r) := fetch_artifact base64_encode verifier c h q in
      (h1, WireArtifact match r with Ok artifact => ArtifactSuccess artifact | Err e => ArtifactError e end)
  end.

(** One frame per unit of [fuel]; [None] when the fuel ends first. *)
Fixpoint gateway_stream_loop (fuel : nat) (max : Z) h (r : Reader) (w : Writer)
    : HostWorld W E * Reader * Writer * option (Result unit GatewayTransportError) :=
  match fuel with
  | O => (h, r, w, None)
  | S fuel' =>
      match wire_read_frame decode_request r max with
      | (r1, Err e) => (h, r1, w, Some (Err e))
      | (r1, Ok None) => (h, r1, w, Some (Ok tt))
      | (r1, Ok (Some request)) =>
          let '(h1, response) := answer_request h request in
          match wire_write_frame encode_response w response max with
          | (w1, Err e) => (h1, r1, w1, Some (Err e))
          | (w1, Ok _) => gateway_stream_loop fuel' max h1 r1 w1
          end
      end
  end.

(** A frame takes at least five bytes, so the bytes to come are fuel enough. *)
Definition serve_gateway_stream (max : Z) h (r : Reader) (w : Writer)
    : HostWorld W E * Reader * Writer * option (Result unit GatewayTransportError) :=
  match validate_frame_bound max with
  | Err e => (h, r, w, Some (Err e))
  | Ok _ => gateway_stream_loop (S (length (rd_bytes r))) max h r w
  end.

End Serve.

(** The client's end of the stream: [peer] gives what there is to read once
    the peer has seen the bytes written. *)
Definition gateway_round_trip (w : Writer) (peer : list Z -> Reader) (request : GatewayWireRequest) (max : Z)
    : Writer * Result GatewayWireResponse GatewayTransportError :=
  match validate_frame_bound max with
  | Err e => (w, Err e)
  | Ok _ =>
      match wire_write_frame encode_request w request max with
      | (w1, Err e) => (w1, Err e)
      | (w1, Ok _) =>
          (w1, match wire_read_frame decode_response (peer (wr_written w1)) max with
               | (_, Err e) => Err e
               | (_, Ok o) => ok_or o UnexpectedEof
               end)
      end
  end.

End WireFrames.

(** * The framing of the local transport *)

(** The error of this framing for an error of the other's reader, after which
    [r] is left. *)
Definition wire_read_error (is_eof : string -> bool) (r : Reader) (e : TransportError) : GatewayTransportError :=
  match e with
  | TransportIo s => WireIo s
  | InvalidFrame reason =>
      if str_eqb reason "payload length is outside the configured bound" then FrameTooLarge else map_frame_read_error is_eof r
  | _ => InvalidJson
  end.

Definition wire_write_error (e : TransportError) : GatewayTransportError :=
  match e with TransportIo s => WireIo s | _ => FrameTooLarge end.

Lemma wire_read_frame_via {T} is_eof (decode : list Z -> option T) r max :
  wire_read_frame is_eof decode r max =
  match read_frame r max with
  | (r', Err e) => (r', Err (wire_read_error is_eof r' e))
  | (r', Ok None) => (r', Ok None)
  | (r', Ok (Some payload)) => (r', match decode payload with Some v => Ok (Some v) | None => Err InvalidJson end)
  end.
Proof.
  unfold wire_read_frame, read_frame. destruct (read_one r) as [r1 [[b|]|e]]; [|done..].
  destruct (read_exact r1 3) as [r2 [header|e]]; [|done].
  destruct (_ || _); [done|]. destruct (read_exact r2 _) as [r3 [payload|e]]; [|done]. by destruct (decode payload).
Qed.

Lemma wire_write_frame_via {T} (encode : T -> option (list Z)) w value max :
  wire_write_frame encode w value max =
  match encode value with
  | None => (w, Err InvalidJson)
  | Some payload =>
      match write_frame w payload max with (w', Ok _) => (w', Ok tt) | (w', Err e) => (w', Err (wire_write_error e)) end
  end.
Proof.
  unfold wire_write_frame, write_frame, u32_try_from. destruct (encode value) as [payload|]; [|done].
  destruct (_ =? 0), (max <? _); cbn [orb]; try done.
  rewrite Z.ltb_antisym. destruct (zlen payload <=? U32_MAX); cbn [negb]; [|done].
  destruct (write_all w _) as [w1 [[]|]]; [|done]. by destruct (write_all w1 _) as [w2 [[]|]].
Qed.

Lemma validate_frame_bound_ok max :
  validate_frame_bound max = Ok tt <-> max <> 0 /\ max <= HARD_MAX_GATEWAY_FRAME_BYTES.
Proof.
  unfold validate_frame_bound, ensure_not.
  destruct (Z.eqb_spec max 0), (Z.ltb_spec HARD_MAX_GATEWAY_FRAME_BYTES max); cbn; split; try done; lia.
Qed.

(** Whether a value travels in one frame. *)
Definition fits {T} (encode : T -> option (list Z)) (max : Z) (value : T) (payload : list Z) : Prop :=
  encode value = Some payload /\ frame_ok max payload.

Lemma wire_write_fits {T} (encode : T -> option (list Z)) out value max payload :
  fits encode max value payload ->
  wire_write_frame encode {| wr_written := out; wr_failure := None |} value max =
  ({| wr_written := out ++ frame payload; wr_failure := None |}, Ok tt).
Proof. intros [He Hok]. by rewrite wire_write_frame_via, He, write_frame_ok, bool_decide_true. Qed.

Lemma wire_write_unfit {T} (encode : T -> option (list Z)) w value max :
  ~ (exists payload, fits encode max value payload) ->
  exists e, wire_write_frame encode w value max = (w, Err e) /\ (e = InvalidJson \/ e = FrameTooLarge).
Proof.
  intros Hno. rewrite wire_write_frame_via. destruct (encode value) as [payload|] eqn:E; [|eauto].
  rewrite write_frame_ok, bool_decide_false; [by eauto|]. intros Hok. apply Hno. by exists payload.
Qed.

Lemma wire_read_fits {T} is_eof (decode : list Z -> option T) encode rest f value max payload :
  (forall v p, encode v = Some p -> decode p = Some v) -> fits encode max value payload ->
  wire_read_frame is_eof decode {| rd_bytes := frame payload ++ rest; rd_failure := f |} max =
  ({| rd_bytes := rest; rd_failure := f |}, Ok (Some value)).
Proof. intros Hcodec [He Hok]. by rewrite wire_read_frame_via, read_frame_app, (Hcodec _ _ He). Qed.

Lemma wire_read_end {T} is_eof (decode : list Z -> option T) max :
  wire_read_frame is_eof decode {| rd_bytes := []; rd_failure := None |} max = ({| rd_bytes := []; rd_failure := None |}, Ok None).
Proof. done. Qed.

(** * Properties *)

(** The two framings agree.  On every stream and every bound, the reader
    of the gateway's stream consumes the same bytes and finds the same frame
    as the reader of the local transport, and then decodes it; the writer
    appends the same bytes.  The errors correspond one to one, except that a
    frame cut short is an end of file here when the stream ended, and an I/O
    error when it failed. *)
Theorem wire_framing_agrees {T} is_eof (decode : list Z -> option T) (encode : T -> option (list Z)) r w value max :
  wire_read_frame is_eof decode r max =
    (let '(r', result) := read_frame r max in
     (r', match result with
          | Ok None => Ok None
          | Ok (Some payload) => match decode payload with Some v => Ok (Some v) | None => Err InvalidJson end
          | Err e => Err (wire_read_error is_eof r' e)
          end)) /\
  wire_write_frame encode w value max =
    match encode value with
    | None => (w, Err InvalidJson)
    | Some payload =>
        let '(w', result) := write_frame w payload max in
        (w', match result with Ok _ => Ok tt | Err e => Err (wire_write_error e) end)
    end.
Proof.
  rewrite wire_read_frame_via, wire_write_frame_via. split; [by destruct (read_frame r max) as [? [[]|]]|].
  destruct (encode value); [|done]. by destruct (write_frame w _ max) as [? []].
Qed.

Section WireProps.
Context {W E : Type} `{!DesktopWorker W (HostWorld W E), !HostExecutor W E, !HashOrder, !UuidSource}.
Context (base64_encode : list Z -> string) (verifier : string) (c : WorkerGatewayConfig) (is_eof : string -> bool).
Context (decode_request : list Z -> option GatewayWireRequest) (encode_request : GatewayWireRequest -> option (list Z)).
Context (decode_response : list Z -> option GatewayWireResponse) (encode_response : GatewayWireResponse -> option (list Z)).
Implicit Types h : HostWorld W E.

(** What is encoded decodes to the same value. *)
Record CodecRoundTrip : Prop := {
  crt_request : forall q p, encode_request q = Some p -> decode_request p = Some q;
  crt_response : forall q p, encode_response q = Some p -> decode_response p = Some q;
}.

Let serve := serve_gateway_stream is_eof decode_request encode_response base64_encode verifier c.
Let stream_loop := gateway_stream_loop is_eof decode_request encode_response base64_encode verifier c.
Let answer := answer_request base64_encode verifier c.

Lemma gateway_stream_loop_returns fuel max h r w :
  (length (rd_bytes r) < fuel)%nat -> exists res, (stream_loop fuel max h r w).2 = Some res.
Proof.
  revert h r w. induction fuel as [|fuel IH]; intros h r w Hf; [lia|]. unfold stream_loop. cbn [gateway_stream_loop].
  rewrite wire_read_frame_via. destruct (read_frame r max) as [r1 [[payload|]|e]] eqn:Er; [|eauto..].
  destruct (decode_request payload); [|eauto].
  destruct (answer_request _ _ _ _ _) as [h1 response]. destruct (wire_write_frame _ _ _ _) as [w1 [[]|]]; [|eauto].
  apply IH. apply read_frame_shrinks in Er. lia.
Qed.

(** The bytes that come back to a client of a gateway in state [h]. *)
Definition served_bytes (max : Z) h (bytes : list Z) : Reader :=
  let '(_, _, w, _) := serve max h {| rd_bytes := bytes; rd_failure := None |} {| wr_written := []; wr_failure := None |} in
  {| rd_bytes := wr_written w; rd_failure := None |}.

Lemma serve_one max h request payload : CodecRoundTrip -> validate_frame_bound max = Ok tt ->
  fits encode_request max request payload ->
  let '(h1, response) := answer h request in
  (forall reply, fits encode_response max response reply ->
     serve max h {| rd_bytes := frame payload; rd_failure := None |} {| wr_written := []; wr_failure := None |} =
     (h1, {| rd_bytes := []; rd_failure := None |}, {| wr_written := frame reply; wr_failure := None |}, Some (Ok tt))) /\
  (~ (exists reply, fits encode_response max response reply) ->
   exists e,
     serve max h {| rd_bytes := frame payload; rd_failure := None |} {| wr_written := []; wr_failure := None |} =
     (h1, {| rd_bytes := []; rd_failure := None |}, {| wr_written := []; wr_failure := None |}, Some (Err e))).
Proof.
  intros [Hq Hp] Hv Hfit. destruct (answer h request) as [h1 response] eqn:Ea.
  unfold serve, serve_gateway_stream. rewrite Hv.
  assert (Hlen : exists n, length (frame payload) = S n) by (eexists; reflexivity).
  destruct Hlen as [n Hn]. cbn [rd_bytes]. rewrite Hn. unfold answer in Ea.
  split; [intros reply Hr | intros Hno]; cbn [gateway_stream_loop];
    rewrite <- (app_nil_r (frame payload)); rewrite (wire_read_fits _ _ encode_request) with (value := request) by done;
    rewrite Ea.
  - by rewrite (wire_write_fits _ _ _ _ reply) by done.
  - destruct (wire_write_unfit encode_response {| wr_written := []; wr_failure := None |} response max Hno) as (e & -> & _).
    by exists e.
Qed.

(** Calling a gateway over a stream.  A stream is always served to an end.
    A client's round trip on a fresh stream returns the gateway's own answer
    to the request when both fit the frame bound; a request that does not fit
    is refused before a byte is written; and when only the answer does not
    fit, the client is told the stream ended although the gateway has acted. *)
Theorem gateway_round_trip_answers max h request :
  CodecRoundTrip -> validate_frame_bound max = Ok tt ->
  let '(h1, response) := answer h request in
  let fresh := {| wr_written := []; wr_failure := None |} in
  let client := gateway_round_trip is_eof encode_request decode_response fresh (served_bytes max h) request max in
  (forall r w, exists res, (serve max h r w).2 = Some res) /\
  (~ (exists payload, fits encode_request max request payload) ->
     exists e, client = (fresh, Err e) /\ (e = InvalidJson \/ e = FrameTooLarge)) /\
  (forall payload, fits encode_request max request payload ->
     let served := serve max h {| rd_bytes := frame payload; rd_failure := None |} fresh in
     wr_written client.1 = frame payload /\
     ((exists reply, fits encode_response max response reply) ->
        served.1.1.1 = h1 /\ served.2 = Some (Ok tt) /\ client.2 = Ok response) /\
     (~ (exists reply, fits encode_response max response reply) ->
        served.1.1.1 = h1 /\ (exists e, served.2 = Some (Err e)) /\ client.2 = Err UnexpectedEof)).
Proof.
  intros Hcodec Hv. destruct (answer h request) as [h1 response] eqn:Ea. cbv zeta. split; [|split].
  - intros r w. unfold serve, serve_gateway_stream. rewrite Hv. apply gateway_stream_loop_returns. lia.
  - intros Hno. unfold gateway_round_trip. rewrite Hv.
    destruct (wire_write_unfit encode_request {| wr_written := []; wr_failure := None |} request max Hno) as (e & -> & He). eauto.
  - intros payload Hfit. unfold gateway_round_trip. rewrite Hv, (wire_write_fits _ _ _ _ payload) by done.
    cbn [fst snd wr_written]. split; [done|]. pose proof (serve_one max h request payload Hcodec Hv Hfit) as Hs.
    rewrite Ea in Hs. destruct Hs as [Hyes Hno]. unfold served_bytes. cbn [app].
    split.
    + intros [reply Hr]. rewrite (Hyes _ Hr). cbn [fst snd wr_written].
      rewrite <- (app_nil_r (frame reply)), (wire_read_fits _ _ encode_response) with (value := response); try done.
      apply Hcodec.
    + intros Hn. destruct (Hno Hn) as [e ->]. cbn. eauto.
Qed.

End WireProps.

(** * A stream between a client and a gateway *)

Module Stream.

#[local] Instance artifact_request_eq_dec : EqDecision GatewayArtifactRequest.
Proof. solve_decision. Defined.
#[local] Instance cua_error_eq_dec : EqDecision CuaError.
Proof. solve_decision. Defined.

#[local] Instance stream_worker : DesktopWorker unit (HostWorld unit unit) := {|
  worker_platform := fun _ => Macos;
  worker_environment := fun _ => local_user_desktop;
  worker_dispatch := fun _ id _ _ w => (w, malformed_response);
  worker_read_artifact := fun _ _ _ w => (w, Ok []) |}.
#[local] Instance stream_host : HostExecutor unit unit := {| host_yield := fun w => w |}.
#[local] Instance stream_order : HashOrder := map_to_list_order.
#[local] Instance stream_uuids : UuidSource := unary_uuids.

Definition stream_token : string := "0123456789abcdef0123456789abcdef".

Definition stream_world : HostWorld unit unit := {|
  hw_registry := registry_state_default; hw_tickets := ∅; hw_permits := 64; hw_drawn := 0; hw_now := 0; hw_env := tt |}.

(** A request with the wrong token, and the answer to it. *)
Definition denied_fetch : GatewayArtifactRequest := {|
  ga_protocol_version := GATEWAY_PROTOCOL_VERSION; ga_authorization := "other"; ga_lease_id := "lease";
  ga_worker_epoch := "epoch"; ga_ticket_ref := "ticket" |}.
Definition denied : CuaError := gateway_error FailUnauthorized false.

Definition encode_fetch (q : GatewayWireRequest) : option (list Z) :=
  match q with WireFetchArtifact r => if decide (r = denied_fetch) then Some [1] else None | _ => None end.
Definition decode_fetch (p : list Z) : option GatewayWireRequest :=
  if decide (p = [1]) then Some (WireFetchArtifact denied_fetch) else None.
Definition encode_denial (q : GatewayWireResponse) : option (list Z) :=
  match q with WireArtifact (ArtifactError e) => if decide (e = denied) then Some [2] else None | _ => None end.
Definition decode_denial (p : list Z) : option GatewayWireResponse :=
  if decide (p = [2]) then Some (WireArtifact (ArtifactError denied)) else None.

Lemma fetch_codec : CodecRoundTrip decode_fetch encode_fetch decode_denial encode_denial.
Proof.
  split; intros q p; [unfold encode_fetch | unfold encode_denial]; repeat case_match; try done; by intros [= <-]; subst.
Qed.

Lemma gateway_round_trip_answers_witness :
  gateway_round_trip (fun _ => false) encode_fetch decode_denial {| wr_written := []; wr_failure := None |}
    (served_bytes (fun _ => EmptyString) stream_token gateway_config_default (fun _ => false) decode_fetch encode_denial 16 stream_world)
    (WireFetchArtifact denied_fetch) 16 =
  ({| wr_written := [0; 0; 0; 1; 1]; wr_failure := None |}, Ok (WireArtifact (ArtifactError denied))).
Proof.
  pose proof (gateway_round_trip_answers (fun _ => EmptyString) stream_token gateway_config_default (fun _ => false)
    decode_fetch encode_fetch decode_denial encode_denial 16 stream_world (WireFetchArtifact denied_fetch)
    fetch_codec eq_refl) as H.
  destruct (answer_request _ _ _ _ _) as [h1 response] eqn:Ea. vm_compute in Ea. injection Ea as <- <-.
  destruct H as (_ & _ & H). destruct (H [1]) as (Hw & Hr & _); [split; [reflexivity | split; vm_compute; [split|]; discriminate]|].
  destruct Hr as (_ & _ & Hr); [exists [2]; split; [reflexivity | split; vm_compute; [split|]; discriminate]|].
  apply injective_projections; [reflexivity | exact Hr].
Defined.

End Stream.
