(* ===== verification/LocalWorker.v ===== *)
(** The in-process worker: [src/crates/host/src/local.rs].

    A local worker puts a runtime behind the request dispatcher of [Dispatcher]
    with a token of its own, so that a gateway reaches it under the same
    at-most-once rules as a local client.  [uuid_simple] stands for the simple
    form of a random identifier, which has 32 digits. *)

From S2P Require Import Prelude Floats Geometry Text Protocol Errors Policy Validation Driver Session Artifacts Runtime RuntimeProps Frame Dispatcher Environment.

(** [LocalRuntimeWorkerConfig]; the lifetime is in nanoseconds. *)
Record LocalRuntimeWorkerConfig := {
  lc_max_inflight_requests : Z;
  lc_max_completed_requests : Z;
  lc_completed_request_ttl : Z;
  lc_max_request_timeout_ms : Z;
  lc_max_artifact_bytes : Z;
}.

Definition local_worker_config_default : LocalRuntimeWorkerConfig := {|
  lc_max_inflight_requests := 64; lc_max_completed_requests := 1024; lc_completed_request_ttl := 10 * 60 * 1000000000;
  lc_max_request_timeout_ms := 120000; lc_max_artifact_bytes := 16 * 1024 * 1024 |}.

Record LocalRuntimeWorker := {
  lw_dispatcher : Dispatcher;
  lw_token : AuthorizationToken;
  lw_platform : Platform;
  lw_environment : EnvironmentDescriptor;
  lw_max_artifact_bytes : Z;
}.

Section LocalWorker.
Context (env : DigestEnv) (uuid_simple : nat -> string).

(** [LocalRuntimeWorker::new]; [n] counts the identifiers drawn before. *)
Definition local_worker_new (runtime_epoch : string) (platform : Platform) (environment : EnvironmentDescriptor)
    (config : LocalRuntimeWorkerConfig) (n : nat) : Result LocalRuntimeWorker TransportError :=
  ensure_not (lc_max_artifact_bytes config =? 0) (InvalidConfiguration "worker artifact bound must be non-zero") ;?
  let token := (uuid_simple n +:+ uuid_simple (S n))%string in
  let? dispatcher := dispatcher_new env runtime_epoch token (lc_max_inflight_requests config)
    (lc_max_completed_requests config) (lc_completed_request_ttl config) (lc_max_request_timeout_ms config) in
  Ok {| lw_dispatcher := dispatcher; lw_token := token; lw_platform := platform; lw_environment := environment;
        lw_max_artifact_bytes := lc_max_artifact_bytes config |}.

(** The envelope of [dispatch]. *)
Definition local_envelope (lw : LocalRuntimeWorker) (request_id : RequestId) (timeout_ms : Z) (command : Command)
    : RequestEnvelope :=
  {| re_protocol_version := PROTOCOL_VERSION; re_request_id := request_id; re_timeout_ms := timeout_ms;
     re_authorization := lw_token lw; re_command := command |}.

(** [dispatch] up to its wait; the rest is [dispatch_finish]. *)
Definition local_dispatch (lw : LocalRuntimeWorker) (request_id : RequestId) (timeout_ms : Z) (command : Command) (now : Z)
    : LocalRuntimeWorker * Progress :=
  let '(d, p) := dispatch_start env (lw_dispatcher lw) (local_envelope lw request_id timeout_ms command) now in
  ({| lw with lw_dispatcher := d |}, p).

(** A call of the worker, or the end of an execution it started. *)
Inductive local_event :=
| LocalCall (request_id : RequestId) (timeout_ms : Z) (command : Command) (now : Z)
| LocalFinish (channel : nat) (outcome : ResponseOutcome) (now : Z).

Definition local_step (lw : LocalRuntimeWorker) (e : local_event) : option LocalRuntimeWorker :=
  match e with
  | LocalCall id timeout_ms command now => Some (local_dispatch lw id timeout_ms command now).1
  | LocalFinish channel outcome now =>
      match finish_execution (lw_dispatcher lw) channel outcome now with
      | Some d => Some {| lw with lw_dispatcher := d |}
      | None => None
      end
  end.

Fixpoint local_run (lw : LocalRuntimeWorker) (es : list local_event) : option LocalRuntimeWorker :=
  match es with
  | [] => Some lw
  | e :: es' => match local_step lw e with Some lw' => local_run lw' es' | None => None end
  end.

(** [read_artifact]. *)
Definition local_read_artifact {E} `{!DesktopDriver E, !Executor E, !HashOrder, !UuidSource} (fs : ArtifactEnv E)
    (lw : LocalRuntimeWorker) (a : ScreenshotArtifact) (max_bytes : Z) : M E (list Z) :=
  runtime_read_artifact fs a (Z.min max_bytes (lw_max_artifact_bytes lw)).

(** * The dispatcher behind the worker *)

(** The worker's dispatcher verifies the worker's token, under the configured
    bounds. *)
Record local_ok (config : LocalRuntimeWorkerConfig) (lw : LocalRuntimeWorker) : Prop := {
  lo_token : d_token (lw_dispatcher lw) = {| tv_digest := sha256_digest env (lw_token lw) |};
  lo_range : token_in_range (lw_token lw) = true;
  lo_timeout : d_max_request_timeout_ms (lw_dispatcher lw) = lc_max_request_timeout_ms config;
  lo_ttl : completed_request_ttl (d_ledger (lw_dispatcher lw)) = lc_completed_request_ttl config;
  lo_artifact : lw_max_artifact_bytes lw = lc_max_artifact_bytes config;
}.

Lemma local_worker_new_ok epoch platform environment config n lw :
  local_worker_new epoch platform environment config n = Ok lw ->
  local_ok config lw.
Proof.
  unfold local_worker_new, dispatcher_new, token_verifier. intros H. res_inv.
  destruct (token_in_range _) eqn:Er; simplify_eq/=. done.
Qed.

(** What a dispatcher is configured with. *)
Definition dispatcher_bounds (d : Dispatcher) : TokenVerifier * Z * Z :=
  (d_token d, d_max_request_timeout_ms d, completed_request_ttl (d_ledger d)).

Lemma finish_execution_bounds d channel outcome now d' :
  finish_execution d channel outcome now = Some d' -> dispatcher_bounds d' = dispatcher_bounds d.
Proof.
  unfold finish_execution. destruct (d_tasks d !! channel); [|done]. intros [= <-]. unfold complete_request.
  by destruct (entries (d_ledger d) !! _) as [[]|].
Qed.

Lemma dispatch_start_bounds d r now : dispatcher_bounds (dispatch_start env d r now).1 = dispatcher_bounds d.
Proof. by destruct (dispatch_start_cases env d r now) as [-> | [-> | (dg & _ & _ & _ & _ & ->)]]. Qed.

Lemma local_ok_update config lw d : local_ok config lw -> dispatcher_bounds d = dispatcher_bounds (lw_dispatcher lw) ->
  local_ok config {| lw with lw_dispatcher := d |}.
Proof. intros [] [= H1 H2 H3]. constructor; cbn; congruence. Qed.

Lemma local_step_ok config lw e lw' : local_ok config lw -> local_step lw e = Some lw' ->
  local_ok config lw' /\ lw_token lw' = lw_token lw.
Proof.
  intros Hok. destruct e as [id t cmd now|ch o now]; cbn [local_step].
  - unfold local_dispatch. pose proof (dispatch_start_bounds (lw_dispatcher lw) (local_envelope lw id t cmd) now) as Hb.
    destruct (dispatch_start _ _ _ _) as [d p]. intros [= <-]. split; [by apply local_ok_update | done].
  - destruct (finish_execution _ _ _ _) as [d|] eqn:Ef; [|done]. intros [= <-].
    split; [by eapply local_ok_update, finish_execution_bounds | done].
Qed.

Lemma local_run_ok config es lw lw' : local_ok config lw -> local_run lw es = Some lw' ->
  local_ok config lw' /\ lw_token lw' = lw_token lw.
Proof.
  revert lw. induction es as [|e es IH]; intros lw Hok; cbn [local_run]; [by intros [= <-]|].
  destruct (local_step lw e) as [lw1|] eqn:Es; [|done]. intros Hr.
  destruct (local_step_ok _ _ _ _ Hok Es) as [Hok1 <-]. by apply IH.
Qed.

(** The dispatcher run behind a run of the worker. *)
Definition local_event_of (lw : LocalRuntimeWorker) (e : local_event) : dispatch_event :=
  match e with
  | LocalCall id t cmd now => Arrive (local_envelope lw id t cmd) now
  | LocalFinish channel outcome now => Finish channel outcome now
  end.

Lemma local_envelope_token lw lw' : lw_token lw' = lw_token lw -> local_event_of lw' = local_event_of lw.
Proof. intros Ht. unfold local_event_of, local_envelope. by rewrite Ht. Qed.

Lemma local_run_dispatches es lw lw' : local_run lw es = Some lw' ->
  dispatch_run env (lw_dispatcher lw) (local_event_of lw <$> es) = Some (lw_dispatcher lw').
Proof.
  revert lw. induction es as [|e es IH]; intros lw; cbn [local_run fmap list_fmap dispatch_run]; [by intros [= <-]|].
  destruct (local_step lw e) as [lw1|] eqn:Es; [|done]. intros Hr.
  assert (Hd : dispatch_step env (lw_dispatcher lw) (local_event_of lw e) = Some (lw_dispatcher lw1) /\ lw_token lw1 = lw_token lw).
  { destruct e; cbn in Es |- *.
    - unfold local_dispatch in Es. destruct (dispatch_start _ _ _ _) as [d p]. by injection Es as <-.
    - destruct (finish_execution _ _ _ _); [|done]. by injection Es as <-. }
  destruct Hd as [-> Ht]. rewrite <- (local_envelope_token _ _ Ht). by apply IH.
Qed.

Lemma local_envelope_validates config lw id t cmd : local_ok config lw ->
  validate_request env (lw_dispatcher lw) (local_envelope lw id t cmd) =
  if negb (valid_request_id id) then
    Err (public_error InvalidRequest "request_id is empty, too long, or not normalized" false (Some "use_fresh_request_id"%string))
  else if (t =? 0) || (lc_max_request_timeout_ms config <? t) then
    Err (public_error InvalidRequest "timeout_ms is outside the configured bound" false (Some "use_bounded_timeout"%string))
  else ok_or (command_digest env cmd) (public_error Internal "failed to compute request identity" false None).
Proof.
  intros [Ht Hr Hm _ _]. unfold validate_request, local_envelope, token_accepts. cbn [re_protocol_version re_authorization re_request_id re_timeout_ms re_command].
  rewrite Ht, Hr, Hm. cbn [tv_digest negb]. rewrite !(proj2 (str_eqb_eq _ _) eq_refl). cbn [negb ensure_not].
  destruct (valid_request_id id); cbn; [|done]. by destruct (_ || _).
Qed.

Definition local_bounds_ok (config : LocalRuntimeWorkerConfig) : Prop :=
  0 < lc_max_inflight_requests config /\ 0 < lc_max_completed_requests config /\ 0 < lc_completed_request_ttl config /\
  0 < lc_max_request_timeout_ms config /\ 0 < lc_max_artifact_bytes config.

(** The instants of a run never go backwards. *)
Definition local_monotone (clock : Z) (lw : LocalRuntimeWorker) (es : list local_event) : Prop :=
  monotone_from clock (local_event_of lw <$> es).

Lemma local_worker_builds epoch platform environment config n :
  (forall i, slen (uuid_simple i) = 32) -> local_bounds_ok config ->
  exists lw, local_worker_new epoch platform environment config n = Ok lw.
Proof.
  intros Hu (H1 & H2 & H3 & H4 & H5). unfold local_worker_new, dispatcher_new, token_verifier, token_in_range, ensure_not.
  rewrite slen_app, !Hu. cbn [MINIMUM_TOKEN_BYTES]. rewrite !(proj2 (Z.eqb_neq _ 0)) by lia. cbn. eauto.
Qed.

Lemma local_read_bounded {E} `{!DesktopDriver E, !Executor E, !HashOrder, !UuidSource} (fs : ArtifactEnv E) lw a max_bytes w :
  match local_read_artifact fs lw a max_bytes w with
  | (_, _, Returned (Ok bytes)) => zlen bytes <= max_bytes /\ zlen bytes <= lw_max_artifact_bytes lw
  | _ => True
  end.
Proof.
  unfold local_read_artifact, runtime_read_artifact, bind, read, finally, await, modify.
  destruct (w_artifact_workers w <=? 0); [done|]. cbn.
  destruct (read_artifact fs _ _ a _) as [bytes|] eqn:Er; [|done]. unfold read_artifact in Er. res_inv. zbool.
  repeat match goal with u : () |- _ => destruct u end.
  assert (zlen bytes = sa_byte_length a) by tauto. lia.
Qed.

(** An in-process worker.  With non-zero bounds it can always be built.
    Whatever calls reach it, and in whatever order its executions end, the
    dispatcher never refuses its token or its version: a call fails before
    admission only for its request id, its deadline or an unencodable command.
    The executions it starts stay at most once per request id within the
    configured horizon, and artifact bytes stay within the worker's bound and
    the caller's. *)
Theorem local_worker_faithful {E} `{!DesktopDriver E, !Executor E, !HashOrder, !UuidSource} (fs : ArtifactEnv E)
    epoch platform environment config n clock :
  (forall i, slen (uuid_simple i) = 32) -> local_bounds_ok config ->
  exists lw0, local_worker_new epoch platform environment config n = Ok lw0 /\
  forall es lw, local_monotone clock lw0 es -> local_run lw0 es = Some lw ->
    at_most_once (lc_completed_request_ttl config) (d_log (lw_dispatcher lw)) /\
    (forall id t cmd now, 0 <= t ->
       match validate_request env (lw_dispatcher lw) (local_envelope lw id t cmd) with
       | Ok digest => command_digest env cmd = Some digest /\ valid_request_id id = true /\
                      1 <= t <= lc_max_request_timeout_ms config
       | Err e => local_dispatch lw id t cmd now =
                    (lw, Responded (pre_admission_failure id e (is_mutation_command cmd))) /\
                  (code e = InvalidRequest /\ (valid_request_id id = false \/ t = 0 \/ lc_max_request_timeout_ms config < t) \/
                   code e = Internal /\ command_digest env cmd = None)
       end) /\
    (forall a max_bytes w,
       match local_read_artifact fs lw a max_bytes w with
       | (_, _, Returned (Ok bytes)) => zlen bytes <= Z.min max_bytes (lc_max_artifact_bytes config)
       | _ => True
       end).
Proof.
  intros Hu Hb. destruct (local_worker_builds epoch platform environment config n Hu Hb) as [lw0 Hnew].
  exists lw0. split; [done|]. intros es lw Hmono Hrun.
  destruct (local_run_ok config es lw0 lw) as [Hok _]; [by eapply local_worker_new_ok | done|].
  split; [|split].
  - rewrite <- (lo_ttl _ _ Hok). eapply di_once, dispatch_run_inv; [|exact Hmono | by apply local_run_dispatches].
    unfold local_worker_new in Hnew. res_inv. destruct Hb as (? & ? & _). eapply dispatcher_new_inv; [done | lia | lia].
  - intros id t cmd now Ht0. pose proof (local_envelope_validates config lw id t cmd Hok) as Hv.
    destruct (validate_request _ _ _) as [digest|e] eqn:Ev.
    + destruct (valid_request_id id); cbn in Hv; [|done].
      destruct ((t =? 0) || _) eqn:Et; [done|]. zbool. destruct (command_digest env cmd); cbn in Hv; [|done].
      injection Hv as ->. repeat split; lia.
    + split; [unfold local_dispatch, dispatch_start; rewrite Ev; by destruct lw|].
      destruct (valid_request_id id); cbn in Hv; [|injection Hv as ->; auto].
      destruct ((t =? 0) || _) eqn:Et; [zbool; injection Hv as ->; auto|].
      destruct (command_digest env cmd); cbn in Hv; [done|]. injection Hv as ->. by right.
  - intros a max_bytes w. pose proof (local_read_bounded fs lw a max_bytes w) as Hr. rewrite (lo_artifact _ _ Hok) in Hr.
    destruct (local_read_artifact fs lw a max_bytes w) as [[? ?] [[bytes|]|]]; [lia | done..].
Qed.

End LocalWorker.

#[local] Existing Instance map_to_list_order.
#[local] Existing Instance unary_uuids.

Definition sample_uuid (n : nat) : string := "0123456789abcdef0123456789abcdef".

Definition sample_calls : list local_event :=
  [LocalCall "r1" 1000 GetCapabilities 0; LocalCall "r1" 1000 GetCapabilities 1;
   LocalFinish 0 (Success RAcknowledged) 2; LocalCall "r1" 1000 GetCapabilities 3].

(** Three calls with one request id make one execution. *)
Lemma local_worker_faithful_witness :
  exists lw0 lw, local_worker_new plain_digests sample_uuid "epoch" Macos local_user_desktop local_worker_config_default 0 = Ok lw0 /\
    local_run plain_digests lw0 sample_calls = Some lw /\
    at_most_once (10 * 60 * 1000000000) (d_log (lw_dispatcher lw)) /\ length (d_log (lw_dispatcher lw)) = 2%nat.
Proof.
  destruct (@local_worker_faithful plain_digests sample_uuid Files demo_driver demo_executor _ _ memory_env "epoch" Macos
    local_user_desktop local_worker_config_default 0%nat 0 ltac:(reflexivity) ltac:(repeat split)) as (lw0 & Hnew & Hrun).
  assert (Hr : exists lw, local_run plain_digests lw0 sample_calls = Some lw /\ length (d_log (lw_dispatcher lw)) = 2%nat).
  { vm_compute in Hnew. injection Hnew as <-. eexists. split; vm_compute; reflexivity. }
  destruct Hr as (lw & Hr & Hlen). exists lw0, lw. destruct (Hrun sample_calls lw) as [Honce _]; [|done|].
  { vm_compute. repeat split; discriminate. }
  done.
Defined.
