(* ===== verification/Authority.v ===== *)
(** Host authority for the tool server: [src/crates/mcp/src/authority.rs].

    An authority policy is the ceiling of one adapter process; a provider
    grant binds a policy to one challenge and a lifetime.  The theorems give
    the accepted policies and grants exactly, show that a grant never widens
    the policy it carries nor outlives itself, that request namespaces keep
    adapters apart, and that an accepted policy makes a session manifest the
    runtime accepts.  Instants are Unix milliseconds; the file system, JSON
    and the authenticated provider are parameters. *)

From S2P Require Import Prelude Floats Geometry Text Protocol Errors Validation.
From Stdlib Require Import Ascii String.

Definition AUTHORITY_SCHEMA_VERSION : Z := 1.
Definition PROVIDER_GRANT_SCHEMA_VERSION : Z := 1.
Definition MAX_AUTHORITY_BYTES : Z := 64 * 1024.
Definition MAX_APPLICATIONS : Z := 32.
Definition MAX_APPLICATION_ID_BYTES : Z := 512.
Definition MAX_AUTHORITY_ACTIONS : Z := 32.
Definition MAX_TTL_SECONDS : Z := 60 * 60.
Definition MAX_BINDING_BYTES : Z := 256.
Definition MAX_REQUEST_NAMESPACE_BYTES : Z := 64.
Definition MAX_CLOCK_SKEW_MS : Z := 30000.
Definition MIN_REMAINING_GRANT_MS : Z := 1000.

(** * Data *)

Record AuthorityPolicy := {
  ap_schema_version : Z;
  ap_mode : PermissionMode;
  ap_application_ids : list string;
  ap_allowed_actions : list ActionKind;
  ap_allow_foreground_input : bool;
  ap_restore_foreground_after_input : bool;
  ap_allow_display_capture : bool;
  ap_allow_clipboard_read : bool;
  ap_allow_clipboard_write : bool;
  ap_allow_application_launch : bool;
  ap_allow_application_launch_activation : bool;
  ap_ttl_seconds : Z;
}.

Inductive AuthorityProviderError := ProviderUnavailable | ProviderDenied | AuthenticationFailed | InvalidResponse.

Inductive AuthorityError :=
| AuthorityIo (path source : string)
| AuthorityJson (source : string)
| UnsafeFile (reason : string)
| AuthorityInvalid (reason : string)
| AuthorityProvider (e : AuthorityProviderError)
| InvalidGrant (reason : string).

Record AuthorityChallenge := {
  ac_registration_id : string;
  ac_adapter_nonce : string;
  ac_runtime_epoch : string;
  ac_worker_epoch : option string;
}.

Record AuthorityGrant := {
  ag_schema_version : Z;
  ag_provider_id : string;
  ag_registration_id : string;
  ag_adapter_nonce : string;
  ag_runtime_epoch : string;
  ag_worker_epoch : option string;
  ag_principal : string;
  ag_work_scope : string;
  ag_request_namespace : string;
  ag_issued_at_unix_ms : Z;
  ag_expires_at_unix_ms : Z;
  ag_authority : AuthorityPolicy;
}.

Record AuthorityGrantMetadata := {
  gm_provider_id : string;
  gm_registration_id : string;
  gm_principal : string;
  gm_work_scope : string;
  gm_request_namespace : string;
  gm_runtime_epoch : string;
  gm_worker_epoch : option string;
  gm_expires_at_unix_ms : Z;
}.

(** [AuthorityContext]; the provider client is known by whether it is bound. *)
Record AuthorityContext := {
  cx_policy : AuthorityPolicy;
  cx_provider : option AuthorityGrantMetadata;
  cx_provider_client : bool;
}.

(** * Policies *)

Definition id_rejected (id : string) : bool :=
  str_eqb id "" || negb (is_trimmed id) || (MAX_APPLICATION_ID_BYTES <? slen id).

(** [AuthorityPolicy::validate]. *)
Definition authority_validate (p : AuthorityPolicy) : Result unit AuthorityError :=
  ensure_not (negb (ap_schema_version p =? AUTHORITY_SCHEMA_VERSION))
    (AuthorityInvalid "unsupported authority schema_version") ;?
  ensure_not
    ((negb (ap_allow_display_capture p) && negb (ap_allow_clipboard_read p) && negb (ap_allow_clipboard_write p)
      && bool_decide (ap_application_ids p = []))
     || (MAX_APPLICATIONS <? zlen (ap_application_ids p)))
    (AuthorityInvalid "application_ids must contain 1 to 32 identities unless display or clipboard-only access is authorized") ;?
  ensure_not (existsb id_rejected (ap_application_ids p))
    (AuthorityInvalid "application_ids must be normalized non-empty values of at most 512 bytes") ;?
  ensure_not (negb (all_unique (ap_application_ids p))) (AuthorityInvalid "application_ids contains duplicates") ;?
  ensure_not (MAX_AUTHORITY_ACTIONS <? zlen (ap_allowed_actions p))
    (AuthorityInvalid "allowed_actions exceeds the supported bound") ;?
  ensure_not (negb (all_unique (ap_allowed_actions p))) (AuthorityInvalid "allowed_actions contains duplicates") ;?
  ensure_not ((ap_ttl_seconds p =? 0) || (MAX_TTL_SECONDS <? ap_ttl_seconds p))
    (AuthorityInvalid "ttl_seconds must be between 1 and 3600") ;?
  ensure_not
    (bool_decide (ap_mode p = ReadOnly)
     && (negb (bool_decide (ap_allowed_actions p = [])) || ap_allow_foreground_input p
         || ap_restore_foreground_after_input p || ap_allow_clipboard_write p || ap_allow_application_launch p))
    (AuthorityInvalid "read_only authority cannot contain actions or foreground input") ;?
  ensure_not (ap_allow_clipboard_write p && negb (ap_allow_clipboard_read p))
    (AuthorityInvalid "clipboard write authority requires clipboard read authority") ;?
  ensure_not (ap_allow_application_launch p && bool_decide (ap_application_ids p = []))
    (AuthorityInvalid "application launch authority requires at least one application identity") ;?
  ensure_not (ap_allow_application_launch_activation p && negb (ap_allow_application_launch p))
    (AuthorityInvalid "launch activation requires application launch authority") ;?
  ensure_not (ap_restore_foreground_after_input p && negb (ap_allow_foreground_input p))
    (AuthorityInvalid "foreground restoration requires foreground input authority") ;?
  Ok tt.

(** What [symlink_metadata] reports. *)
Record AuthorityFile := {
  af_is_symlink : bool;
  af_is_file : bool;
  af_len : Z;
  af_mode : Z;
}.

(** [validate_file_permissions]: the mode bits [0o022], on Unix. *)
Definition validate_file_permissions (unix : bool) (metadata : AuthorityFile) : Result unit AuthorityError :=
  ensure_not (unix && negb (Z.land (af_mode metadata) 18 =? 0))
    (UnsafeFile "authority file must not be writable by group or other users") ;?
  Ok tt.

(** [AuthorityPolicy::load_private_file]. *)
Definition load_private_file (unix : bool) (symlink_metadata : string -> Result AuthorityFile string)
    (read : string -> Result (list Z) string) (from_slice : list Z -> Result AuthorityPolicy string) (path : string)
    : Result AuthorityPolicy AuthorityError :=
  let? metadata := rmap_err (AuthorityIo path) (symlink_metadata path) in
  ensure_not (af_is_symlink metadata || negb (af_is_file metadata))
    (UnsafeFile "authority path must be a regular file, not a symlink") ;?
  ensure_not (MAX_AUTHORITY_BYTES <? af_len metadata) (UnsafeFile "authority file exceeds the 64 KiB limit") ;?
  validate_file_permissions unix metadata ;?
  let? bytes := rmap_err (AuthorityIo path) (read path) in
  let? policy := rmap_err AuthorityJson (from_slice bytes) in
  authority_validate policy ;?
  Ok policy.

(** * Challenges and grants *)

Definition validate_binding (value field : string) : Result unit AuthorityError :=
  ensure_not (str_eqb value "" || (MAX_BINDING_BYTES <? slen value) || negb (is_trimmed value) || has_control value)
    (InvalidGrant (field +:+ " is empty, unnormalized, or exceeds the bounded size")) ;?
  Ok tt.

Definition validate_request_namespace (value : string) : Result unit AuthorityError :=
  ensure_not
    ((slen value <? 16) || (MAX_REQUEST_NAMESPACE_BYTES <? slen value)
     || negb (bytes_all (fun b => is_ascii_alphanumeric b || (b =? 95) || (b =? 45)) value))
    (InvalidGrant "request_namespace must be 16 to 64 normalized ASCII bytes") ;?
  Ok tt.

(** [AuthorityChallenge::new]; [n] counts the identifiers drawn before. *)
Definition challenge_new `{!UuidSource} (registration_id runtime_epoch : string) (worker_epoch : option string) (n : nat)
    : Result AuthorityChallenge AuthorityError :=
  let challenge := {| ac_registration_id := registration_id; ac_adapter_nonce := "adapter_" +:+ uuid n;
                      ac_runtime_epoch := runtime_epoch; ac_worker_epoch := worker_epoch |} in
  validate_binding (ac_registration_id challenge) "registration_id" ;?
  validate_binding (ac_adapter_nonce challenge) "adapter_nonce" ;?
  validate_binding (ac_runtime_epoch challenge) "runtime_epoch" ;?
  match ac_worker_epoch challenge with
  | Some epoch => validate_binding epoch "worker_epoch"
  | None => Ok tt
  end ;?
  Ok challenge.

(** [AuthorityGrant::resolve]. *)
Definition grant_resolve (g : AuthorityGrant) (challenge : AuthorityChallenge) (now_unix_ms : Z)
    : Result AuthorityContext AuthorityError :=
  ensure_not (negb (ag_schema_version g =? PROVIDER_GRANT_SCHEMA_VERSION))
    (InvalidGrant "unsupported provider grant schema_version") ;?
  validate_binding (ag_provider_id g) "provider_id" ;?
  validate_binding (ag_principal g) "principal" ;?
  validate_binding (ag_work_scope g) "work_scope" ;?
  validate_request_namespace (ag_request_namespace g) ;?
  ensure_not
    (negb (str_eqb (ag_registration_id g) (ac_registration_id challenge))
     || negb (str_eqb (ag_adapter_nonce g) (ac_adapter_nonce challenge))
     || negb (str_eqb (ag_runtime_epoch g) (ac_runtime_epoch challenge))
     || negb (bool_decide (ag_worker_epoch g = ac_worker_epoch challenge)))
    (InvalidGrant "provider grant does not match the adapter challenge") ;?
  ensure_not
    ((sat_add now_unix_ms MAX_CLOCK_SKEW_MS <? ag_issued_at_unix_ms g)
     || (ag_expires_at_unix_ms g <=? ag_issued_at_unix_ms g)
     || (MAX_TTL_SECONDS * 1000 <? sat_sub (ag_expires_at_unix_ms g) (ag_issued_at_unix_ms g))
     || (sat_sub (ag_expires_at_unix_ms g) now_unix_ms <? MIN_REMAINING_GRANT_MS))
    (InvalidGrant "provider grant timestamps are expired or outside the bounded lifetime") ;?
  authority_validate (ag_authority g) ;?
  let remaining_seconds :=
    Z.min (default MAX_TTL_SECONDS (u32_try_from (sat_sub (ag_expires_at_unix_ms g) now_unix_ms / 1000))) MAX_TTL_SECONDS in
  let authority := {| (ag_authority g) with ap_ttl_seconds := Z.min (ap_ttl_seconds (ag_authority g)) remaining_seconds |} in
  ensure_not (ap_ttl_seconds authority =? 0) (InvalidGrant "provider grant has no usable session lifetime") ;?
  Ok {| cx_policy := authority;
        cx_provider := Some {| gm_provider_id := ag_provider_id g; gm_registration_id := ag_registration_id g;
                               gm_principal := ag_principal g; gm_work_scope := ag_work_scope g;
                               gm_request_namespace := ag_request_namespace g; gm_runtime_epoch := ag_runtime_epoch g;
                               gm_worker_epoch := ag_worker_epoch g; gm_expires_at_unix_ms := ag_expires_at_unix_ms g |};
        cx_provider_client := false |}.

(** * Contexts *)

Definition unsigned_development (policy : AuthorityPolicy) : AuthorityContext :=
  {| cx_policy := policy; cx_provider := None; cx_provider_client := false |}.

Definition with_provider (c : AuthorityContext) : AuthorityContext := {| c with cx_provider_client := true |}.

(** [current_unix_ms] of a clock reading, [None] before the Unix epoch. *)
Definition current_unix_ms (since_epoch : option Z) : Result Z AuthorityError :=
  let? milliseconds := ok_or since_epoch (InvalidGrant "system clock predates Unix epoch") in
  ensure_not (U64_MAX <? milliseconds) (InvalidGrant "system time is out of range") ;?
  Ok milliseconds.

(** [AuthorityContext::validate_provider], where the bound provider answers
    [validate]. *)
Definition validate_provider (c : AuthorityContext) (since_epoch : option Z)
    (validate : AuthorityGrantMetadata -> Result unit AuthorityProviderError) : Result unit AuthorityProviderError :=
  match cx_provider c, cx_provider_client c with
  | Some metadata, true =>
      let? now := rmap_err (fun _ => ProviderUnavailable) (current_unix_ms since_epoch) in
      ensure_not (gm_expires_at_unix_ms metadata <=? now) ProviderDenied ;?
      validate metadata
  | Some _, false => Err ProviderUnavailable
  | None, _ => Ok tt
  end.

Definition accepts_request_id (c : AuthorityContext) (request_id : string) : bool :=
  match cx_provider c with
  | None => true
  | Some metadata =>
      match strip_prefix (gm_request_namespace metadata) request_id with
      | Some suffix => starts_with_char ":" suffix && (1 <? slen suffix)
      | None => false
      end
  end.

(** The manifest of [open_runtime_session] of [server.rs]. *)
Definition authority_manifest (p : AuthorityPolicy) (application_refs : list DiscoveryRef) : CapabilityManifest :=
  {| mode := ap_mode p; application_refs := application_refs; allowed_actions := ap_allowed_actions p;
     allow_foreground_input := ap_allow_foreground_input p;
     restore_foreground_after_input := ap_restore_foreground_after_input p;
     allow_display_capture := ap_allow_display_capture p; allow_clipboard_read := ap_allow_clipboard_read p;
     allow_clipboard_write := ap_allow_clipboard_write p; ttl_seconds := ap_ttl_seconds p |}.

(** * Accepted policies *)

Record authority_ok (p : AuthorityPolicy) : Prop := {
  ao_version : ap_schema_version p = 1;
  ao_scope : ap_application_ids p <> [] \/ ap_allow_display_capture p = true \/ ap_allow_clipboard_read p = true;
  ao_count : zlen (ap_application_ids p) <= 32;
  ao_ids : Forall (fun id => id <> ""%string /\ id = trim id /\ slen id <= 512) (ap_application_ids p);
  ao_unique : NoDup (ap_application_ids p);
  ao_actions : zlen (ap_allowed_actions p) <= 32;
  ao_actions_unique : NoDup (ap_allowed_actions p);
  ao_ttl : 1 <= ap_ttl_seconds p <= 3600;
  ao_read_only : ap_mode p = ReadOnly ->
    ap_allowed_actions p = [] /\ ap_allow_foreground_input p = false /\ ap_allow_clipboard_write p = false /\
    ap_allow_application_launch p = false;
  ao_clipboard : ap_allow_clipboard_write p = true -> ap_allow_clipboard_read p = true;
  ao_launch : ap_allow_application_launch p = true -> ap_application_ids p <> [];
  ao_activation : ap_allow_application_launch_activation p = true -> ap_allow_application_launch p = true;
  ao_restore : ap_restore_foreground_after_input p = true -> ap_allow_foreground_input p = true;
}.

Lemma id_rejected_false id : id_rejected id = false <-> id <> ""%string /\ id = trim id /\ slen id <= 512.
Proof.
  unfold id_rejected. rewrite !orb_false_iff, str_eqb_neq, negb_false_iff, is_trimmed_true, Z.ltb_ge. tauto.
Qed.

(** A flag that requires another. *)
Lemma requires_iff (a b : bool) : a && negb b = false <-> (a = true -> b = true).
Proof. destruct a, b; naive_solver. Qed.

Lemma requires_nonempty {A} (a : bool) (l : list A) `{!Decision (l = [])} :
  a && bool_decide (l = []) = false <-> (a = true -> l <> []).
Proof. case_bool_decide; destruct a; naive_solver. Qed.

Lemma authority_scope_iff p :
  (negb (ap_allow_display_capture p) && negb (ap_allow_clipboard_read p) && negb (ap_allow_clipboard_write p)
      && bool_decide (ap_application_ids p = [])) || (MAX_APPLICATIONS <? zlen (ap_application_ids p)) = false <->
  (ap_application_ids p <> [] \/ ap_allow_display_capture p = true \/ ap_allow_clipboard_read p = true \/
   ap_allow_clipboard_write p = true) /\ zlen (ap_application_ids p) <= MAX_APPLICATIONS.
Proof.
  rewrite orb_false_iff, Z.ltb_ge, !andb_false_iff, !negb_false_iff, bool_decide_eq_false. naive_solver.
Qed.

Lemma authority_read_only_iff p :
  bool_decide (ap_mode p = ReadOnly)
     && (negb (bool_decide (ap_allowed_actions p = [])) || ap_allow_foreground_input p
         || ap_restore_foreground_after_input p || ap_allow_clipboard_write p || ap_allow_application_launch p) = false <->
  (ap_mode p = ReadOnly ->
   ap_allowed_actions p = [] /\ ap_allow_foreground_input p = false /\ ap_restore_foreground_after_input p = false /\
   ap_allow_clipboard_write p = false /\ ap_allow_application_launch p = false).
Proof.
  rewrite andb_false_iff, !orb_false_iff, negb_false_iff, bool_decide_eq_false, bool_decide_eq_true.
  destruct (decide (ap_mode p = ReadOnly)); naive_solver.
Qed.

Lemma authority_validate_iff p : 0 <= ap_ttl_seconds p -> authority_validate p = Ok tt <-> authority_ok p.
Proof.
  intros Httl. unfold authority_validate. rewrite !ensure_then, existsb_false_Forall, authority_scope_iff, authority_read_only_iff.
  setoid_rewrite id_rejected_false. rewrite !requires_iff, requires_nonempty.
  rewrite !negb_false_iff, !all_unique_spec, orb_false_iff, Z.eqb_eq, Z.eqb_neq, !Z.ltb_ge.
  unfold MAX_TTL_SECONDS. split.
  - intros (H1 & [H2 H3] & H4 & H5 & H6 & H7 & [H8 H9] & H10 & H11 & H12 & H13 & H14 & _).
    constructor; try done; [tauto | lia |]. intros Hm. destruct (H10 Hm) as (? & ? & ? & ? & ?). done.
  - intros [? Hscope ? ? ? ? ? ? Hro Hclip Hlaunch Hact Hrest]. split_and!; try done; [tauto | lia | lia |].
    intros Hm. destruct (Hro Hm) as (? & Hf & ? & ?). repeat split; try done.
    destruct (ap_restore_foreground_after_input p); [|done]. by rewrite Hrest in Hf.
Qed.

(** * Accepted grants *)

Definition binding_ok (value : string) : Prop :=
  1 <= slen value <= 256 /\ value = trim value /\ has_control value = false.

Definition namespace_byte (b : Z) : bool := is_ascii_alphanumeric b || (b =? 95) || (b =? 45).

Definition namespace_ok (value : string) : Prop := 16 <= slen value <= 64 /\ bytes_all namespace_byte value = true.

Lemma validate_binding_iff value field : validate_binding value field = Ok tt <-> binding_ok value.
Proof.
  unfold validate_binding, binding_ok. rewrite ensure_then, !orb_false_iff, slen_positive, Z.ltb_ge, negb_false_iff, is_trimmed_true.
  unfold MAX_BINDING_BYTES. tauto.
Qed.

Lemma validate_request_namespace_iff value : validate_request_namespace value = Ok tt <-> namespace_ok value.
Proof.
  unfold validate_request_namespace, namespace_ok. rewrite ensure_then, !orb_false_iff, !Z.ltb_ge, negb_false_iff.
  unfold MAX_REQUEST_NAMESPACE_BYTES, namespace_byte. tauto.
Qed.

(** A grant that answers the challenge and is usable at [now]. *)
Record grant_ok (g : AuthorityGrant) (ch : AuthorityChallenge) (now : Z) : Prop := {
  go_version : ag_schema_version g = 1;
  go_provider : binding_ok (ag_provider_id g);
  go_principal : binding_ok (ag_principal g);
  go_scope : binding_ok (ag_work_scope g);
  go_namespace : namespace_ok (ag_request_namespace g);
  go_registration : ag_registration_id g = ac_registration_id ch;
  go_nonce : ag_adapter_nonce g = ac_adapter_nonce ch;
  go_runtime : ag_runtime_epoch g = ac_runtime_epoch ch;
  go_worker : ag_worker_epoch g = ac_worker_epoch ch;
  go_issued : ag_issued_at_unix_ms g <= now + 30000;
  go_lifetime : 0 < ag_expires_at_unix_ms g - ag_issued_at_unix_ms g <= 3600000;
  go_remaining : now + 1000 <= ag_expires_at_unix_ms g;
  go_authority : authority_ok (ag_authority g);
}.

(** The integers of a grant, at their width. *)
Definition grant_typed (g : AuthorityGrant) (now : Z) : Prop :=
  0 <= ag_issued_at_unix_ms g <= U64_MAX /\ 0 <= ag_expires_at_unix_ms g <= U64_MAX /\ 0 <= now <= U64_MAX /\
  0 <= ap_ttl_seconds (ag_authority g).

Lemma grant_times_iff g now : grant_typed g now ->
  (sat_add now MAX_CLOCK_SKEW_MS <? ag_issued_at_unix_ms g) || (ag_expires_at_unix_ms g <=? ag_issued_at_unix_ms g)
   || (MAX_TTL_SECONDS * 1000 <? sat_sub (ag_expires_at_unix_ms g) (ag_issued_at_unix_ms g))
   || (sat_sub (ag_expires_at_unix_ms g) now <? MIN_REMAINING_GRANT_MS) = false <->
  ag_issued_at_unix_ms g <= now + 30000 /\ 0 < ag_expires_at_unix_ms g - ag_issued_at_unix_ms g <= 3600000 /\
  now + 1000 <= ag_expires_at_unix_ms g.
Proof.
  intros (H1 & H2 & H3 & H4). rewrite !orb_false_iff, !Z.ltb_ge, Z.leb_gt.
  unfold sat_add, sat_sub, MAX_CLOCK_SKEW_MS, MAX_TTL_SECONDS, MIN_REMAINING_GRANT_MS, USIZE_MAX in *. lia.
Qed.

Lemma grant_bindings_iff g ch :
  negb (str_eqb (ag_registration_id g) (ac_registration_id ch)) || negb (str_eqb (ag_adapter_nonce g) (ac_adapter_nonce ch))
   || negb (str_eqb (ag_runtime_epoch g) (ac_runtime_epoch ch)) || negb (bool_decide (ag_worker_epoch g = ac_worker_epoch ch)) = false <->
  ag_registration_id g = ac_registration_id ch /\ ag_adapter_nonce g = ac_adapter_nonce ch /\
  ag_runtime_epoch g = ac_runtime_epoch ch /\ ag_worker_epoch g = ac_worker_epoch ch.
Proof. rewrite !orb_false_iff, !negb_false_iff, !str_eqb_eq, bool_decide_eq_true. tauto. Qed.

(** The session lifetime a grant leaves at [now]. *)
Definition granted_ttl (g : AuthorityGrant) (now : Z) : Z :=
  Z.min (ap_ttl_seconds (ag_authority g)) ((ag_expires_at_unix_ms g - now) / 1000).

Definition granted_context (g : AuthorityGrant) (now : Z) : AuthorityContext := {|
  cx_policy := {| (ag_authority g) with ap_ttl_seconds := granted_ttl g now |};
  cx_provider := Some {| gm_provider_id := ag_provider_id g; gm_registration_id := ag_registration_id g;
    gm_principal := ag_principal g; gm_work_scope := ag_work_scope g; gm_request_namespace := ag_request_namespace g;
    gm_runtime_epoch := ag_runtime_epoch g; gm_worker_epoch := ag_worker_epoch g;
    gm_expires_at_unix_ms := ag_expires_at_unix_ms g |};
  cx_provider_client := false |}.

Lemma granted_ttl_positive g ch now : grant_ok g ch now -> 1 <= granted_ttl g now.
Proof.
  intros Hg. pose proof (ao_ttl _ (go_authority _ _ _ Hg)) as Ht. pose proof (go_remaining _ _ _ Hg). unfold granted_ttl.
  pose proof (Z.div_le_mono 1000 (ag_expires_at_unix_ms g - now) 1000 ltac:(lia) ltac:(lia)) as Hd.
  rewrite Z.div_same in Hd by lia. lia.
Qed.

(** The truncations of the code lose nothing within the accepted times. *)
Lemma remaining_seconds_exact g ch now : grant_typed g now -> grant_ok g ch now ->
  Z.min (ap_ttl_seconds (ag_authority g))
    (Z.min (default MAX_TTL_SECONDS (u32_try_from (sat_sub (ag_expires_at_unix_ms g) now / 1000))) MAX_TTL_SECONDS) = granted_ttl g now.
Proof.
  intros Htyped Hg. pose proof (ao_ttl _ (go_authority _ _ _ Hg)) as Ht. pose proof (go_remaining _ _ _ Hg).
  pose proof (go_lifetime _ _ _ Hg). pose proof (go_issued _ _ _ Hg). unfold granted_ttl, sat_sub, u32_try_from, MAX_TTL_SECONDS.
  rewrite Z.max_r by lia. set (d := (ag_expires_at_unix_ms g - now) / 1000).
  assert (d <= 3630) by (apply Z.div_le_upper_bound; lia).
  destruct (Z.leb_spec d U32_MAX); [simpl; lia | unfold U32_MAX in *; lia].
Qed.

Lemma grant_resolve_iff g ch now c : grant_typed g now ->
  grant_resolve g ch now = Ok c <-> grant_ok g ch now /\ c = granted_context g now.
Proof.
  intros Htyped. unfold grant_resolve. rewrite ensure_then, negb_false_iff, Z.eqb_eq.
  rewrite !rbind_unit_Ok, !validate_binding_iff, validate_request_namespace_iff, !ensure_not_Ok.
  rewrite grant_bindings_iff, grant_times_iff, authority_validate_iff by (done || apply Htyped). cbn zeta. cbn [ap_ttl_seconds]. split.
  - intros (H1 & H2 & H3 & H4 & H5 & (H6 & H7 & H8 & H9) & (H10 & H11 & H12) & H13 & _ & [= <-]).
    assert (Hg : grant_ok g ch now) by (by constructor). split; [done|]. unfold granted_context.
    by rewrite (remaining_seconds_exact g ch now Htyped Hg).
  - intros [Hg ->]. rewrite (remaining_seconds_exact g ch now Htyped Hg). pose proof (granted_ttl_positive g ch now Hg).
    rewrite Z.eqb_neq. destruct Hg. split_and!; try done; lia.
Qed.

(** * Request namespaces *)

Lemma accepts_request_id_iff c metadata request_id : cx_provider c = Some metadata ->
  accepts_request_id c request_id = true <->
  exists suffix, request_id = (gm_request_namespace metadata +:+ String ":" suffix)%string /\ suffix <> EmptyString.
Proof.
  intros Hp. unfold accepts_request_id. rewrite Hp. split.
  - destruct (strip_prefix _ _) as [suffix|] eqn:Es; [|done]. apply strip_prefix_Some in Es as ->.
    destruct suffix as [|x suffix]; [done|]. cbn [starts_with_char]. rewrite andb_true_iff, Ascii.eqb_eq, Z.ltb_lt.
    intros [-> Hlen]. exists suffix. split; [done|]. by intros ->.
  - intros (suffix & -> & Hne). rewrite (proj2 (strip_prefix_Some _ _ _) eq_refl). cbn [starts_with_char].
    rewrite Ascii.eqb_refl. apply Z.ltb_lt. destruct suffix; [done|]. unfold slen. cbn [String.length]. lia.
Qed.

Lemma granted_accepts_iff g now request_id :
  accepts_request_id (granted_context g now) request_id = true <->
  exists suffix, request_id = (ag_request_namespace g +:+ String ":" suffix)%string /\ suffix <> EmptyString.
Proof. by rewrite (accepts_request_id_iff (granted_context g now)) by reflexivity. Qed.

Lemma namespace_no_colon value : namespace_ok value -> has_char ":" value = false.
Proof.
  intros [_ Hb]. unfold has_char. change (byte_of ":") with 58. induction value as [|x value IH]; [done|].
  cbn [bytes_any bytes_all] in *. apply andb_true_iff in Hb as [Hx Hb]. rewrite (IH Hb), orb_false_r.
  destruct (Z.eqb_spec 58 (byte_of x)) as [Heq|]; [|done]. by rewrite <- Heq in Hx.
Qed.

Lemma namespace_prefix_unique a b s t : namespace_ok a -> namespace_ok b ->
  (a +:+ String ":" s = b +:+ String ":" t)%string -> a = b.
Proof.
  intros Ha%namespace_no_colon Hb%namespace_no_colon Heq.
  pose proof (split_char_app ":" a s Ha) as H1. pose proof (split_char_app ":" b t Hb) as H2.
  rewrite Heq, H2 in H1. by injection H1.
Qed.

(** The mask [0o022] is the bits 1 and 4. *)
Lemma write_bits_clear m : Z.land m 18 = 0 -> Z.testbit m 1 = false /\ Z.testbit m 4 = false.
Proof.
  intros Hm. split.
  - pose proof (Z.land_spec m 18 1) as H. rewrite Hm, Z.testbit_0_l in H. change (Z.testbit 18 1) with true in H.
    by rewrite andb_true_r in H.
  - pose proof (Z.land_spec m 18 4) as H. rewrite Hm, Z.testbit_0_l in H. change (Z.testbit 18 4) with true in H.
    by rewrite andb_true_r in H.
Qed.

(** * Properties *)

(** The authority ceiling.  A policy is accepted exactly when it is in
    range, names normalized distinct applications and actions, holds every
    authority that another one needs, and a read-only one holds none that
    changes the desktop.  A policy loaded from a file is an accepted one, read
    from a regular file of bounded size that others cannot write. *)
Theorem authority_policies p unix stat read from_slice path :
  (0 <= ap_ttl_seconds p -> authority_validate p = Ok tt <-> authority_ok p) /\
  (load_private_file unix stat read from_slice path = Ok p ->
   exists metadata bytes, stat path = Ok metadata /\ read path = Ok bytes /\ from_slice bytes = Ok p /\
     authority_validate p = Ok tt /\ af_is_symlink metadata = false /\ af_is_file metadata = true /\
     af_len metadata <= 65536 /\
     (unix = true -> Z.testbit (af_mode metadata) 1 = false /\ Z.testbit (af_mode metadata) 4 = false)).
Proof.
  split; [apply authority_validate_iff|]. unfold load_private_file, validate_file_permissions. intros H. res_inv.
  zbool. repeat match goal with u : () |- _ => destruct u end. eexists _, _.
  match goal with H1 : _ = false /\ _ = true |- _ => destruct H1 as [Hsym Hfile] end.
  split_and!; try done.
  intros ->. match goal with H2 : true = false \/ _ |- _ => destruct H2 as [H2|Hmode]; [done|] end.
  by apply write_bits_clear.
Qed.

Definition sample_policy : AuthorityPolicy := {|
  ap_schema_version := 1; ap_mode := Bounded; ap_application_ids := ["com.example.Fixture"%string];
  ap_allowed_actions := [KClickPoint]; ap_allow_foreground_input := true; ap_restore_foreground_after_input := true;
  ap_allow_display_capture := true; ap_allow_clipboard_read := false; ap_allow_clipboard_write := false;
  ap_allow_application_launch := true; ap_allow_application_launch_activation := true; ap_ttl_seconds := 300 |}.

Lemma authority_policies_witness : authority_ok sample_policy.
Proof.
  refine (proj1 (proj1 (authority_policies sample_policy true (fun _ => Err ""%string) (fun _ => Err ""%string)
    (fun _ => Err ""%string) "") _) _); vm_compute; [discriminate | reflexivity].
Defined.

(** The policy of a granted context is accepted by the policy's own rules. *)
Lemma granted_context_valid g ch now : grant_ok g ch now -> authority_validate (cx_policy (granted_context g now)) = Ok tt.
Proof.
  intros Hg. pose proof (granted_ttl_positive g ch now Hg).
  assert (granted_ttl g now <= ap_ttl_seconds (ag_authority g)) by (unfold granted_ttl; lia).
  apply authority_validate_iff; [cbn; lia|]. destruct (go_authority _ _ _ Hg). constructor; cbn; try done. lia.
Qed.

(** Provider grants.  A grant is taken exactly when it answers this
    adapter's challenge with well-formed bindings, is not issued in the future
    beyond the clock skew, is bounded in lifetime, has a second left, and
    carries an accepted policy.  The context it gives has that policy with
    nothing changed but the session lifetime, which is shortened to what
    remains of the grant and is still accepted by the policy's own rules. *)
Theorem grant_resolved g ch now :
  grant_typed g now ->
  (forall c, grant_resolve g ch now = Ok c <-> grant_ok g ch now /\ c = granted_context g now) /\
  (forall c, grant_resolve g ch now = Ok c ->
     let p := cx_policy c in
     authority_validate p = Ok tt /\ ap_ttl_seconds p <= ap_ttl_seconds (ag_authority g) /\
     now + ap_ttl_seconds p * 1000 <= ag_expires_at_unix_ms g /\
     {| p with ap_ttl_seconds := ap_ttl_seconds (ag_authority g) |} = ag_authority g).
Proof.
  intros Htyped. split; [intros c; by apply grant_resolve_iff|]. intros c Hc p.
  apply grant_resolve_iff in Hc as [Hg Hctx]; [|done]. subst c p. pose proof (granted_ttl_positive g ch now Hg).
  cbn [cx_policy granted_context ap_ttl_seconds].
  assert (Hle : granted_ttl g now <= ap_ttl_seconds (ag_authority g)) by (unfold granted_ttl; lia).
  split; [|split; [done|split]].
  - exact (granted_context_valid g ch now Hg).
  - assert (granted_ttl g now <= (ag_expires_at_unix_ms g - now) / 1000) by (unfold granted_ttl; lia).
    pose proof (Z.mul_div_le (ag_expires_at_unix_ms g - now) 1000 ltac:(lia)). lia.
  - by destruct (ag_authority g).
Qed.

Definition sample_challenge : AuthorityChallenge := {|
  ac_registration_id := "registration-1"; ac_adapter_nonce := "adapter_0"; ac_runtime_epoch := "runtime-1"; ac_worker_epoch := None |}.

Definition sample_grant : AuthorityGrant := {|
  ag_schema_version := 1; ag_provider_id := "test-provider"; ag_registration_id := "registration-1";
  ag_adapter_nonce := "adapter_0"; ag_runtime_epoch := "runtime-1"; ag_worker_epoch := None;
  ag_principal := "test-principal"; ag_work_scope := "test-work-scope"; ag_request_namespace := "test_namespace_0123456789";
  ag_issued_at_unix_ms := 1000000; ag_expires_at_unix_ms := 1060000; ag_authority := sample_policy |}.

Lemma grant_resolved_witness :
  exists c, grant_resolve sample_grant sample_challenge 1000500 = Ok c /\ ap_ttl_seconds (cx_policy c) = 59 /\
    1000500 + ap_ttl_seconds (cx_policy c) * 1000 <= 1060000.
Proof.
  eexists. split; [vm_compute; reflexivity|]. split; [reflexivity|].
  refine (proj1 (proj2 (proj2 (proj2 (grant_resolved sample_grant sample_challenge 1000500 _) _ _)))).
  - vm_compute; repeat split; discriminate.
  - vm_compute; reflexivity.
Defined.

(** Request namespaces keep adapters apart.  Two grants whose contexts
    accept one and the same mutation id carry the same namespace; an accepted
    id is the namespace, a colon and a non-empty rest; and a namespace always
    leaves room for ids the dispatcher takes. *)
Theorem request_namespaces_apart g1 g2 ch1 ch2 now1 now2 c1 c2 id :
  grant_typed g1 now1 -> grant_typed g2 now2 ->
  grant_resolve g1 ch1 now1 = Ok c1 -> grant_resolve g2 ch2 now2 = Ok c2 ->
  accepts_request_id c1 id = true -> accepts_request_id c2 id = true ->
  ag_request_namespace g1 = ag_request_namespace g2 /\
  (exists suffix, id = (ag_request_namespace g1 +:+ String ":" suffix)%string /\ suffix <> EmptyString) /\
  accepts_request_id c1 (ag_request_namespace g1 +:+ ":1") = true.
Proof.
  intros Ht1 Ht2 [Hg1 ->]%grant_resolve_iff [Hg2 ->]%grant_resolve_iff H1 H2; [|done..].
  apply granted_accepts_iff in H1 as (s & -> & Hs).
  apply granted_accepts_iff in H2 as (t & Heq & _).
  split; [|split].
  - by apply (namespace_prefix_unique _ _ s t); [apply Hg1 | apply Hg2|].
  - by exists s.
  - apply granted_accepts_iff. by exists "1"%string.
Qed.

Lemma request_namespaces_apart_witness :
  exists c, grant_resolve sample_grant sample_challenge 1000500 = Ok c /\
    exists suffix, "test_namespace_0123456789:mutation-1"%string = ("test_namespace_0123456789" +:+ String ":" suffix)%string /\
      suffix <> EmptyString.
Proof.
  eexists. split; [vm_compute; reflexivity|].
  refine (proj1 (proj2 (request_namespaces_apart sample_grant sample_grant sample_challenge sample_challenge 1000500 1000500 _ _
    "test_namespace_0123456789:mutation-1" _ _ _ _ _ _))); vm_compute; try reflexivity; repeat split; discriminate.
Defined.

(** Discovery references as the runtime hands them out. *)
Record refs_ok (refs : list DiscoveryRef) : Prop := {
  rfo_count : zlen refs <= MAX_ALLOWED_APPLICATIONS;
  rfo_bytes : total_length refs <= MAX_APPLICATION_ALLOWLIST_BYTES;
  rfo_each : forall r, r ∈ refs -> slen r <= MAX_DISCOVERY_REF_BYTES /\ trim r <> EmptyString /\ r = trim r;
  rfo_unique : NoDup refs;
}.

(** Policies become sessions.  The manifest the adapter builds from an
    accepted policy and well-formed discovery references passes the runtime's
    validation exactly when there is an application to work on, or display or
    clipboard authority, which is when the adapter asks for a session. *)
Theorem authority_manifest_accepted p refs max_ttl :
  authority_validate p = Ok tt -> 0 <= ap_ttl_seconds p -> 3600 <= max_ttl -> refs_ok refs ->
  validate_manifest (authority_manifest p refs) max_ttl = Ok tt <->
  (refs <> [] \/ ap_allow_display_capture p = true \/ ap_allow_clipboard_read p = true \/ ap_allow_clipboard_write p = true).
Proof.
  intros Hp Httl Hmax Hrefs. apply authority_validate_iff in Hp; [|done].
  rewrite validate_manifest_iff by done. split; [intros Hm; apply (mo_scope _ _ Hm)|].
  intros Hscope. destruct Hp, Hrefs. constructor; cbn; try done; [lia|].
  intros Hm. destruct (ao_read_only0 Hm) as (? & Hf & ? & ?). split_and!; try done.
  destruct (ap_restore_foreground_after_input p); [|done]. by rewrite ao_restore0 in Hf.
Qed.

Lemma authority_manifest_accepted_witness :
  validate_manifest (authority_manifest sample_policy ["discovery_1"%string]) 3600 = Ok tt.
Proof.
  apply authority_manifest_accepted; [vm_compute; reflexivity | vm_compute; discriminate | lia | |].
  - constructor; [vm_compute; discriminate | vm_compute; discriminate | | apply NoDup_singleton].
    intros r ->%list_elem_of_singleton. split; [vm_compute; discriminate|]. split; [vm_compute; discriminate | vm_compute; reflexivity].
  - left. discriminate.
Defined.
