(* ===== verification/ImageCache.v ===== *)
(** The screenshots the tool server remembers, and the coordinates of its
    zoom views: [ImageMappingCache], [normalized_region],
    [normalized_view_point] and [crop_png] of [src/crates/mcp/src/server.rs].

    The cache holds its entries in a map, their age in a queue and their total
    size in a counter; its abstract state is the list of the entries, oldest
    first.  The theorems: the cache refines that list, with at most one image
    for a window and within its bounds; a region of the image becomes the
    smallest rectangle of pixels around it; a crop has exactly the pixels of
    the rectangle; and a click in a view reaches the pixel that was meant.
    PNG is a parameter. *)

From S2P Require Import Prelude Floats Geometry Text Protocol Errors.

Definition MAX_CACHED_IMAGE_MAPPINGS : Z := 32.
Definition MAX_CACHED_IMAGE_BYTES : Z := 32 * 1024 * 1024.
Definition MAX_CACHED_REGION_VIEWS : Z := 32.
Definition MAX_DECODED_IMAGE_BYTES : Z := 128 * 1024 * 1024.
Definition NORMALIZED_COORDINATE_MAX : Z := 1000.

Record PixelRect := { pr_x : Z; pr_y : Z; pr_width : Z; pr_height : Z }.

Record CachedImage := {
  ci_window_ref : WindowRef;
  ci_mapping : ScreenshotMapping;
  ci_bytes : list Z;
}.

Record RegionView := {
  rv_observation_id : ObservationId;
  rv_window_ref : WindowRef;
  rv_source_rect : PixelRect;
  rv_source_size : PixelSize;
}.

Record ImageMappingCache := {
  ic_entries : gmap string CachedImage;
  ic_order : list string;
  ic_cached_bytes : Z;
  ic_views : gmap string RegionView;
  ic_view_order : list string;
}.

(** * Operations *)

Definition cache_default : ImageMappingCache :=
  {| ic_entries := ∅; ic_order := []; ic_cached_bytes := 0; ic_views := ∅; ic_view_order := [] |}.

(** [ImageMappingCache::clear]. *)
Definition cache_clear (c : ImageMappingCache) : ImageMappingCache :=
  {| ic_entries := ∅; ic_order := []; ic_cached_bytes := 0; ic_views := ∅; ic_view_order := [] |}.

(** [ImageMappingCache::invalidate_window]. *)
Definition invalidate_window `{!HashOrder} (c : ImageMappingCache) (window_ref : WindowRef) : ImageMappingCache :=
  let removed_bytes :=
    foldl sat_add 0 ((fun p => zlen (ci_bytes p.2)) <$>
      filter (fun p : string * CachedImage => ci_window_ref p.2 = window_ref) (hash_iter (ic_entries c))) in
  let entries := filter (fun p => ci_window_ref p.2 <> window_ref) (ic_entries c) in
  let views := filter (fun p => rv_window_ref p.2 <> window_ref) (ic_views c) in
  {| ic_entries := entries;
     ic_order := filter (fun id => is_Some (entries !! id)) (ic_order c);
     ic_cached_bytes := sat_sub (ic_cached_bytes c) removed_bytes;
     ic_views := views;
     ic_view_order := filter (fun view => is_Some (views !! view)) (ic_view_order c) |}.

(** The loop of [insert]: the entries, their queue and their size. *)
Fixpoint evict_images (order : list string) (entries : gmap string CachedImage) (cached_bytes byte_length : Z)
    : gmap string CachedImage * list string * Z :=
  if (MAX_CACHED_IMAGE_MAPPINGS <=? msize entries) || (MAX_CACHED_IMAGE_BYTES <? sat_add cached_bytes byte_length) then
    match order with
    | [] => (entries, [], cached_bytes)
    | stale :: order' =>
        match entries !! stale with
        | Some removed => evict_images order' (delete stale entries) (sat_sub cached_bytes (zlen (ci_bytes removed))) byte_length
        | None => evict_images order' entries cached_bytes byte_length
        end
    end
  else (entries, order, cached_bytes).

(** [ImageMappingCache::insert]. *)
Definition cache_insert `{!HashOrder} (c : ImageMappingCache) (observation_id : ObservationId) (window_ref : WindowRef)
    (mapping : ScreenshotMapping) (bytes : list Z) : ImageMappingCache :=
  let c1 := invalidate_window c window_ref in
  let byte_length := zlen bytes in
  let '(entries, order, cached_bytes) := evict_images (ic_order c1) (ic_entries c1) (ic_cached_bytes c1) byte_length in
  {| c1 with
     ic_order := order ++ [observation_id];
     ic_cached_bytes := sat_add cached_bytes byte_length;
     ic_entries := <[observation_id := {| ci_window_ref := window_ref; ci_mapping := mapping; ci_bytes := bytes |}]> entries |}.

(** [ImageMappingCache::get]. *)
Definition cache_get (c : ImageMappingCache) (observation_id : ObservationId) (window_ref : WindowRef) : option CachedImage :=
  match ic_entries c !! observation_id with
  | Some image => if str_eqb (ci_window_ref image) window_ref then Some image else None
  | None => None
  end.

Fixpoint evict_views (order : list string) (views : gmap string RegionView) : gmap string RegionView * list string :=
  if MAX_CACHED_REGION_VIEWS <=? msize views then
    match order with
    | [] => (views, [])
    | stale :: order' => evict_views order' (delete stale views)
    end
  else (views, order).

(** [ImageMappingCache::insert_view]. *)
Definition insert_view (c : ImageMappingCache) (view_ref : string) (view : RegionView) : ImageMappingCache :=
  let '(views, order) := evict_views (ic_view_order c) (ic_views c) in
  {| c with ic_view_order := order ++ [view_ref]; ic_views := <[view_ref := view]> views |}.

(** [ImageMappingCache::get_view]. *)
Definition get_view (c : ImageMappingCache) (view_ref : string) : option RegionView := ic_views c !! view_ref.

(** * Coordinates *)

(** [normalized_axis], where [value * maximum] fits a [u64]. *)
Definition normalized_axis (value length : Z) : Z :=
  let maximum := sat_sub length 1 in
  default U32_MAX (u32_try_from ((value * maximum + 500) / 1000)).

(** [u32::checked_sub] and [u32::saturating_add]. *)
Definition checked_sub (a b : Z) : option Z := if b <=? a then Some (a - b) else None.
Definition u32_sat_add (a b : Z) : Z := Z.min U32_MAX (a + b).

Definition normalized_view_point (x y : Z) (rect : PixelRect) : ScreenshotPoint :=
  {| px_x := u32_sat_add (pr_x rect) (normalized_axis x (pr_width rect));
     px_y := u32_sat_add (pr_y rect) (normalized_axis y (pr_height rect)) |}.

(** The closures [start] and [end] of [normalized_region]. *)
Definition region_start (value length : Z) : option Z := u32_try_from (value * length / 1000).
Definition region_end (value length : Z) : option Z :=
  match u32_try_from (div_ceil (value * length) 1000) with
  | Some edge => Some (Z.min edge length)
  | None => None
  end.

Definition normalized_region (left top right bottom : Z) (size : PixelSize) : option PixelRect :=
  if (NORMALIZED_COORDINATE_MAX <? right) || (NORMALIZED_COORDINATE_MAX <? bottom) || (right <=? left) || (bottom <=? top)
     || (ps_width size =? 0) || (ps_height size =? 0)
  then None
  else
    x ← region_start left (ps_width size);
    y ← region_start top (ps_height size);
    right' ← region_end right (ps_width size);
    bottom' ← region_end bottom (ps_height size);
    width ← checked_sub right' x;
    height ← checked_sub bottom' y;
    if (0 <? width) && (0 <? height) then Some {| pr_x := x; pr_y := y; pr_width := width; pr_height := height |} else None.

(** * Crops *)

Inductive ImageError :=
| ImageTooLarge (actual maximum : Z)
| DecodedImageTooLarge
| UnexpectedFormat
| ImageDecode (source : string)
| ImageEncode (source : string).

(** What the PNG decoder reports of a frame. *)
Record PngFrame := {
  png_width : Z;
  png_height : Z;
  png_rgba8 : bool;
  png_pixels : list Z;
}.

(** The decoder announces the size of its output before it decodes. *)
Record PngCodec := {
  png_read_info : list Z -> Result (option Z) string;
  png_next_frame : list Z -> Result PngFrame string;
  png_encode : Z -> Z -> list Z -> Result (list Z) string;
}.

(** The bytes of one row of the rectangle. *)
Definition crop_row (pixels : list Z) (source_stride crop_stride x row : Z) : Result (list Z) ImageError :=
  let? start := ok_or (offset ← checked_mul row source_stride; px ← checked_mul x 4; checked_add offset px) UnexpectedFormat in
  let? stop := ok_or (checked_add start crop_stride) UnexpectedFormat in
  ensure_not (zlen pixels <? stop) UnexpectedFormat ;?
  Ok (take (Z.to_nat crop_stride) (drop (Z.to_nat start) pixels)).

(** The loop of [crop_png] over the rows that are left. *)
Fixpoint crop_rows (pixels : list Z) (source_stride crop_stride x row : Z) (rows : nat) : Result (list Z) ImageError :=
  match rows with
  | O => Ok []
  | S rows' =>
      let? bytes := crop_row pixels source_stride crop_stride x row in
      let? rest := crop_rows pixels source_stride crop_stride x (row + 1) rows' in
      Ok (bytes ++ rest)
  end.

(** [crop_png]. *)
Definition crop_png (png : PngCodec) (input_png : list Z) (expected_size : PixelSize) (rect : PixelRect) (max_encoded_bytes : Z)
    : Result (list Z) ImageError :=
  let? expected_decoded := ok_or
    (pixels ← checked_mul (ps_width expected_size) (ps_height expected_size); bytes ← checked_mul pixels 4;
     if bytes <=? MAX_DECODED_IMAGE_BYTES then Some bytes else None) DecodedImageTooLarge in
  let? announced := rmap_err ImageDecode (png_read_info png input_png) in
  ensure_not (negb (bool_decide (announced = Some expected_decoded))) UnexpectedFormat ;?
  let? frame := rmap_err ImageDecode (png_next_frame png input_png) in
  ensure_not
    (negb (png_width frame =? ps_width expected_size) || negb (png_height frame =? ps_height expected_size)
     || negb (png_rgba8 frame) || negb (zlen (png_pixels frame) =? expected_decoded)) UnexpectedFormat ;?
  let? source_stride := ok_or (checked_mul (ps_width expected_size) 4) DecodedImageTooLarge in
  let? crop_stride := ok_or (checked_mul (pr_width rect) 4) DecodedImageTooLarge in
  let? crop_bytes := ok_or (checked_mul (pr_height rect) crop_stride) DecodedImageTooLarge in
  let? cropped := crop_rows (png_pixels frame) source_stride crop_stride (pr_x rect) (pr_y rect)
    (Z.to_nat (u32_sat_add (pr_y rect) (pr_height rect) - pr_y rect)) in
  ensure_not (negb (zlen cropped =? crop_bytes)) UnexpectedFormat ;?
  let? output := rmap_err ImageEncode (png_encode png (pr_width rect) (pr_height rect) cropped) in
  ensure_not (max_encoded_bytes <? zlen output) (ImageTooLarge (zlen output) max_encoded_bytes) ;?
  Ok output.

(** * Queues over maps *)

Section Queues.
Context {A : Type}.
Implicit Types (m : gmap string A) (order : list string).

(** The queue names each key of the map once. *)
Record queue_ok m order : Prop := {
  qo_unique : NoDup order;
  qo_keys : forall id, id ∈ order <-> is_Some (m !! id);
}.

(** The entries in the order of the queue. *)
Definition queue_list m order : list (string * A) := omap (fun id => pair id <$> m !! id) order.

Lemma queue_list_elem m order id a : queue_ok m order -> (id, a) ∈ queue_list m order <-> m !! id = Some a.
Proof.
  intros [_ Hk]. unfold queue_list. rewrite list_elem_of_omap. split.
  - intros (x & _ & Hx). apply fmap_Some in Hx as (b & Hb & [= <- <-]). done.
  - intros Ha. exists id. split; [apply Hk; eauto|]. by rewrite Ha.
Qed.

Lemma queue_list_keys m order : queue_ok m order -> (queue_list m order).*1 = order.
Proof.
  intros [_ Hk]. unfold queue_list. assert (Hs : Forall (fun id => is_Some (m !! id)) order) by (apply Forall_forall; intros x; apply Hk).
  clear Hk. induction Hs as [|x l [a Ha] _ IH]; [done|]. cbn. rewrite Ha. cbn. by rewrite IH.
Qed.

Lemma queue_list_perm m order : queue_ok m order -> queue_list m order ≡ₚ map_to_list m.
Proof.
  intros Hq. apply NoDup_Permutation; [|apply NoDup_map_to_list|].
  - apply (NoDup_fmap_1 fst). rewrite queue_list_keys by done. apply Hq.
  - intros [id a]. by rewrite queue_list_elem, elem_of_map_to_list.
Qed.

Lemma queue_size m order : queue_ok m order -> msize m = zlen (queue_list m order).
Proof. intros Hq. unfold msize, zlen. by rewrite (queue_list_perm _ _ Hq), length_map_to_list. Qed.

Lemma queue_list_ext m m' order : (forall id, id ∈ order -> m !! id = m' !! id) -> queue_list m order = queue_list m' order.
Proof.
  unfold queue_list. induction order as [|x order IH]; intros He; [done|]. cbn. rewrite (He x) by constructor.
  rewrite IH; [done|]. intros id Hid. apply He. by constructor.
Qed.

Lemma queue_list_cons m x order a : m !! x = Some a -> queue_list m (x :: order) = (x, a) :: queue_list m order.
Proof. intros Ha. unfold queue_list. cbn. by rewrite Ha. Qed.

Lemma queue_pop m x order : queue_ok m (x :: order) ->
  exists a, m !! x = Some a /\ queue_ok (delete x m) order /\ queue_list m (x :: order) = (x, a) :: queue_list (delete x m) order.
Proof.
  intros [[Hx Hu]%NoDup_cons Hk]. destruct (proj1 (Hk x)) as [a Ha]; [by constructor|]. exists a. split; [done|]. split.
  - split; [done|]. intros id. rewrite lookup_delete_is_Some, <- Hk, elem_of_cons.
    split; [intros Hid; split; [by intros -> | by right] | intros [? [?|?]]; [congruence | done]].
  - rewrite (queue_list_cons m x order a Ha). f_equal. apply queue_list_ext. intros id Hid.
    rewrite lookup_delete_ne; [done|]. by intros ->.
Qed.

Lemma queue_push m order id a : queue_ok m order -> m !! id = None ->
  queue_ok (<[id := a]> m) (order ++ [id]) /\ queue_list (<[id := a]> m) (order ++ [id]) = queue_list m order ++ [(id, a)].
Proof.
  intros [Hu Hk] Hn. assert (Hid : id ∉ order) by (rewrite Hk, Hn; by intros [? [=]]). split.
  - split; [apply NoDup_app; split_and!; [done | intros x Hx ->%list_elem_of_singleton; done | apply NoDup_singleton]|].
    intros x. rewrite elem_of_app, list_elem_of_singleton, Hk, lookup_insert_is_Some. destruct (decide (id = x)); naive_solver.
  - unfold queue_list. rewrite omap_app. cbn. rewrite lookup_insert_eq. cbn. f_equal.
    apply queue_list_ext. intros x Hx. rewrite lookup_insert_ne; [done|]. by intros ->.
Qed.

Lemma queue_retain (P : A -> Prop) `{!forall a, Decision (P a)} m order : queue_ok m order ->
  let m' := filter (fun p : string * A => P p.2) m in
  let order' := filter (fun id => is_Some (m' !! id)) order in
  queue_ok m' order' /\ queue_list m' order' = filter (fun p => P p.2) (queue_list m order).
Proof.
  intros [Hu Hk] m' order'. split.
  - split; [by apply NoDup_filter|]. intros id. unfold order'. rewrite list_elem_of_filter, Hk. split; [by intros [? ?]|].
    intros [a Ha]. split; [by exists a|]. apply map_lookup_filter_Some in Ha as [Ha _]. by exists a.
  - unfold order'. assert (Hs : Forall (fun id => is_Some (m !! id)) order) by (apply Forall_forall; intros x; apply Hk).
    clear Hu Hk order'. induction Hs as [|x l [a Ha] _ IH]; [done|].
    rewrite (queue_list_cons m x l a Ha), !filter_cons.
    assert (Hx : m' !! x = if decide (P a) then Some a else None).
    { unfold m'. case_decide; [by apply map_lookup_filter_Some|]. apply map_lookup_filter_None. right. intros b Hb.
      rewrite Ha in Hb. by injection Hb as <-. }
    destruct (decide (P a)).
    + rewrite decide_True by (rewrite Hx; eauto). rewrite (queue_list_cons m' x _ a Hx), decide_True by done. by rewrite IH.
    + rewrite decide_False by (rewrite Hx; by intros [? [=]]). by rewrite decide_False.
Qed.

End Queues.

(** * The cache as a list *)

Definition image_total (l : list (string * CachedImage)) : Z := foldr (fun p n => zlen (ci_bytes p.2) + n) 0 l.

Lemma image_total_nonneg l : 0 <= image_total l.
Proof. induction l as [|p l IH]; [done|]. pose proof (zlen_nonneg (ci_bytes p.2)). cbn. fold (image_total l). lia. Qed.

Lemma image_total_perm l k : l ≡ₚ k -> image_total l = image_total k.
Proof. unfold image_total. induction 1; cbn in *; lia. Qed.

Lemma image_total_split (P : string * CachedImage -> Prop) `{!forall p, Decision (P p)} l :
  image_total l = image_total (filter P l) + image_total (filter (fun p => ~ P p) l).
Proof.
  induction l as [|p l IH]; [done|]. rewrite !filter_cons. unfold image_total in *. cbn.
  destruct (decide (P p)); [rewrite decide_False by tauto | rewrite decide_True by done]; cbn; lia.
Qed.

Lemma foldl_sat_add l t : 0 <= t -> t + image_total l <= U64_MAX ->
  foldl sat_add t ((fun p => zlen (ci_bytes p.2)) <$> l) = t + image_total l.
Proof.
  revert t. induction l as [|p l IH]; intros t Ht Hb; [unfold image_total; cbn; lia|].
  unfold image_total in *. cbn in *. fold (image_total l) in *. pose proof (image_total_nonneg l). pose proof (zlen_nonneg (ci_bytes p.2)).
  unfold sat_add at 2. unfold USIZE_MAX. rewrite Z.min_r by lia. rewrite IH; lia.
Qed.

Definition cache_list (c : ImageMappingCache) : list (string * CachedImage) := queue_list (ic_entries c) (ic_order c).
Definition view_list (c : ImageMappingCache) : list (string * RegionView) := queue_list (ic_views c) (ic_view_order c).
Definition image_window (p : string * CachedImage) : WindowRef := ci_window_ref p.2.

Record cache_ok (c : ImageMappingCache) : Prop := {
  co_entries : queue_ok (ic_entries c) (ic_order c);
  co_total : ic_cached_bytes c = image_total (cache_list c);
  co_count : zlen (cache_list c) <= MAX_CACHED_IMAGE_MAPPINGS;
  co_bytes : ic_cached_bytes c <= MAX_CACHED_IMAGE_BYTES;
  co_windows : NoDup (image_window <$> cache_list c);
  co_views : queue_ok (ic_views c) (ic_view_order c);
  co_view_count : zlen (view_list c) <= MAX_CACHED_REGION_VIEWS;
}.

(** The list the code's eviction leaves: the longest suffix with room for
    [byte_length] more bytes and one more image. *)
Fixpoint with_room (byte_length : Z) (l : list (string * CachedImage)) : list (string * CachedImage) :=
  if (MAX_CACHED_IMAGE_MAPPINGS <=? zlen l) || (MAX_CACHED_IMAGE_BYTES <? image_total l + byte_length)
  then match l with [] => [] | _ :: l' => with_room byte_length l' end
  else l.

Fixpoint with_view_room (l : list (string * RegionView)) : list (string * RegionView) :=
  if MAX_CACHED_REGION_VIEWS <=? zlen l then match l with [] => [] | _ :: l' => with_view_room l' end else l.

Lemma with_room_nil n : with_room n [] = [].
Proof. cbn [with_room]. by destruct (_ || _). Qed.

Lemma with_room_suffix n l : exists k, l = k ++ with_room n l.
Proof.
  induction l as [|p l [k IH]]; [exists []; by rewrite with_room_nil|]. cbn [with_room].
  destruct (_ || _); [|by exists []]. exists (p :: k). cbn. by rewrite <- IH.
Qed.

Lemma with_room_fits n l : n <= MAX_CACHED_IMAGE_BYTES ->
  zlen (with_room n l) < MAX_CACHED_IMAGE_MAPPINGS /\ image_total (with_room n l) + n <= MAX_CACHED_IMAGE_BYTES.
Proof.
  intros Hn. induction l as [|p l IH]; cbn [with_room].
  - change (MAX_CACHED_IMAGE_MAPPINGS <=? zlen (@nil (string * CachedImage))) with false. cbn [orb].
    destruct (_ <? _); change (image_total []) with 0; (split; [done | lia]).
  - destruct (_ || _) eqn:E; [done|]. zbool. lia.
Qed.

Lemma with_view_room_suffix l : exists k, l = k ++ with_view_room l.
Proof.
  induction l as [|p l [k IH]]; cbn [with_view_room]; [by exists []|].
  destruct (_ <=? _); [|by exists []]. exists (p :: k). cbn. by rewrite <- IH.
Qed.

Lemma with_view_room_fits l : zlen (with_view_room l) < MAX_CACHED_REGION_VIEWS.
Proof. induction l as [|p l IH]; cbn [with_view_room]; [done|]. destruct (_ <=? _) eqn:E; [done|]. zbool. lia. Qed.

Lemma evict_images_ok order entries bytes n : queue_ok entries order -> 0 <= n ->
  bytes = image_total (queue_list entries order) ->
  let '(entries', order', bytes') := evict_images order entries bytes n in
  queue_ok entries' order' /\ bytes' = image_total (queue_list entries' order') /\ (entries' ⊆ entries) /\
  queue_list entries' order' = with_room n (queue_list entries order).
Proof.
  revert entries bytes. induction order as [|x order IH]; intros entries bytes Hq Hn ->.
  - change (queue_list entries []) with (@nil (string * CachedImage)). rewrite with_room_nil.
    cbn [evict_images]. by destruct (_ || _).
  - cbn [evict_images]. rewrite (queue_size _ _ Hq).
    destruct (queue_pop _ _ _ Hq) as (a & Ha & Hq' & Hl). rewrite Hl. cbn [with_room]. rewrite Ha.
    set (rest := queue_list (delete x entries) order) in *. pose proof (image_total_nonneg ((x, a) :: rest)).
    replace (MAX_CACHED_IMAGE_BYTES <? sat_add (image_total ((x, a) :: rest)) n)
      with (MAX_CACHED_IMAGE_BYTES <? image_total ((x, a) :: rest) + n).
    2:{ unfold sat_add, USIZE_MAX, U64_MAX, MAX_CACHED_IMAGE_BYTES. 
        destruct (Z.ltb_spec (32 * 1024 * 1024) (image_total ((x, a) :: rest) + n)), (Z.ltb_spec (32 * 1024 * 1024)
          (Z.min 18446744073709551615 (image_total ((x, a) :: rest) + n))); lia. }
    destruct (_ || _); [|rewrite Hl; done].
    assert (Hs : sat_sub (image_total ((x, a) :: rest)) (zlen (ci_bytes a)) = image_total rest).
    { pose proof (image_total_nonneg rest). unfold image_total, sat_sub in *. cbn in *. lia. }
    rewrite Hs. specialize (IH (delete x entries) (image_total rest) Hq' Hn eq_refl).
    destruct (evict_images _ _ _ _) as [[entries' order'] bytes']. destruct IH as (? & ? & Hsub & ?). split_and!; try done.
    etrans; [exact Hsub | apply delete_subseteq].
Qed.

Lemma evict_views_ok order views : queue_ok views order ->
  let '(views', order') := evict_views order views in
  queue_ok views' order' /\ (views' ⊆ views) /\ queue_list views' order' = with_view_room (queue_list views order).
Proof.
  revert views. induction order as [|x order IH]; intros views Hq.
  - cbn. by destruct (_ <=? msize _).
  - cbn [evict_views]. rewrite (queue_size _ _ Hq).
    destruct (queue_pop _ _ _ Hq) as (a & Ha & Hq' & Hl). rewrite Hl. cbn [with_view_room].
    destruct (_ <=? _); [|rewrite Hl; done]. specialize (IH (delete x views) Hq').
    destruct (evict_views _ _) as [views' order']. destruct IH as (? & Hsub & ?). split_and!; try done.
    etrans; [exact Hsub | apply delete_subseteq].
Qed.

Section CacheSteps.
Context `{!HashOrder}.
Implicit Types c : ImageMappingCache.

Lemma invalidate_window_ok c w : cache_ok c ->
  cache_ok (invalidate_window c w) /\
  cache_list (invalidate_window c w) = filter (fun p => ci_window_ref p.2 <> w) (cache_list c) /\
  view_list (invalidate_window c w) = filter (fun p => rv_window_ref p.2 <> w) (view_list c) /\
  (ic_entries (invalidate_window c w) ⊆ ic_entries c).
Proof.
  intros [He Ht Hc Hb Hw Hv Hvc].
  destruct (queue_retain (fun i => ci_window_ref i <> w) _ _ He) as [He' Hl'].
  destruct (queue_retain (fun v => rv_window_ref v <> w) _ _ Hv) as [Hv' Hvl'].
  fold (cache_list c) in Hl'. fold (view_list c) in Hvl'.
  assert (Hlist : cache_list (invalidate_window c w) = filter (fun p => ci_window_ref p.2 <> w) (cache_list c)) by exact Hl'.
  assert (Hviews : view_list (invalidate_window c w) = filter (fun p => rv_window_ref p.2 <> w) (view_list c)) by exact Hvl'.
  assert (Hbytes : ic_cached_bytes (invalidate_window c w) = image_total (cache_list (invalidate_window c w))).
  { rewrite Hlist. cbn [invalidate_window ic_cached_bytes]. rewrite Ht.
    rewrite (image_total_split (fun p => ci_window_ref p.2 = w) (cache_list c)) in *.
    set (gone := filter (fun p => ci_window_ref p.2 = w) (cache_list c)) in *.
    set (kept := filter (fun p => ci_window_ref p.2 <> w) (cache_list c)) in *.
    pose proof (image_total_nonneg gone). pose proof (image_total_nonneg kept).
    assert (Hgone : image_total (filter (fun p => ci_window_ref p.2 = w) (hash_iter (ic_entries c))) = image_total gone).
    { apply image_total_perm. unfold gone. apply filter_Permutation. rewrite hash_iter_perm. symmetry. by apply queue_list_perm. }
    rewrite foldl_sat_add; rewrite ?Hgone; [|lia|].
    - unfold sat_sub. lia.
    - unfold U64_MAX, MAX_CACHED_IMAGE_BYTES in *. lia. }
  pose proof (image_total_split (fun p => ci_window_ref p.2 = w) (cache_list c)) as Hsplit.
  pose proof (image_total_nonneg (filter (fun p => ci_window_ref p.2 = w) (cache_list c))).
  split; [constructor|split; [done|split; [done | apply map_filter_subseteq]]].
  - exact He'.
  - done.
  - rewrite Hlist. unfold zlen in *. pose proof (length_filter (fun p : string * CachedImage => ci_window_ref p.2 <> w) (cache_list c)). lia.
  - rewrite Hbytes, Hlist. rewrite Ht, Hsplit in Hb. lia.
  - rewrite Hlist. eapply sublist_NoDup; [exact Hw | apply fmap_sublist, sublist_filter].
  - exact Hv'.
  - rewrite Hviews. unfold zlen in *. pose proof (length_filter (fun p : string * RegionView => rv_window_ref p.2 <> w) (view_list c)). lia.
Qed.

(** The observation is new, or an older one of the same window. *)
Definition fresh_for c (observation_id : ObservationId) (w : WindowRef) : Prop :=
  forall image, ic_entries c !! observation_id = Some image -> ci_window_ref image = w.

Definition image_of (w : WindowRef) (mapping : ScreenshotMapping) (bytes : list Z) : CachedImage :=
  {| ci_window_ref := w; ci_mapping := mapping; ci_bytes := bytes |}.

Lemma invalidated_fresh c observation_id w : fresh_for c observation_id w ->
  ic_entries (invalidate_window c w) !! observation_id = None.
Proof.
  intros Hf. cbn [invalidate_window ic_entries]. apply map_lookup_filter_None.
  destruct (ic_entries c !! observation_id) as [image|] eqn:E; [right | by left]. intros i [= <-] Hne. by apply Hne, Hf.
Qed.

Lemma cache_insert_ok c id w mapping bytes : cache_ok c -> fresh_for c id w -> zlen bytes <= MAX_CACHED_IMAGE_BYTES ->
  let c' := cache_insert c id w mapping bytes in
  cache_ok c' /\
  cache_list c' = with_room (zlen bytes) (filter (fun p => ci_window_ref p.2 <> w) (cache_list c)) ++ [(id, image_of w mapping bytes)] /\
  view_list c' = filter (fun p => rv_window_ref p.2 <> w) (view_list c).
Proof.
  intros Hok Hfresh Hlen. pose proof (invalidated_fresh c id w Hfresh) as Hnone.
  destruct (invalidate_window_ok c w Hok) as ([He Ht Hc Hb Hw Hv Hvc] & Hl & Hvl & _). unfold cache_insert. rewrite <- Hl.
  set (c1 := invalidate_window c w) in *. pose proof (zlen_nonneg bytes) as Hn.
  pose proof (evict_images_ok (ic_order c1) (ic_entries c1) (ic_cached_bytes c1) (zlen bytes) He Hn Ht) as Hev.
  fold (cache_list c1) in Hev. destruct (evict_images _ _ _ _) as [[entries order] total].
  destruct Hev as (Hq & -> & Hsub & Hroom). cbn zeta.
  assert (Hid : entries !! id = None) by (by apply (lookup_weaken_None _ (ic_entries c1))).
  destruct (queue_push entries order id (image_of w mapping bytes) Hq Hid) as [Hq' Hpush].
  destruct (with_room_fits (zlen bytes) (cache_list c1) Hlen) as [Hcount Hbytes].
  destruct (with_room_suffix (zlen bytes) (cache_list c1)) as [k Hk]. rewrite Hroom in *.
  pose proof (image_total_nonneg (with_room (zlen bytes) (cache_list c1))).
  set (kept := with_room (zlen bytes) (cache_list c1)) in *.
  assert (Htot : image_total (kept ++ [(id, image_of w mapping bytes)]) = image_total kept + zlen bytes).
  { rewrite (image_total_perm _ ((id, image_of w mapping bytes) :: kept)) by (symmetry; apply Permutation_cons_append).
    unfold image_total. cbn. lia. }
  assert (Hsat : sat_add (image_total kept) (zlen bytes) = image_total kept + zlen bytes).
  { unfold sat_add, USIZE_MAX, U64_MAX, MAX_CACHED_IMAGE_BYTES in *. lia. }
  split; [|split; [exact Hpush | exact Hvl]].
  constructor; unfold cache_list; cbn [ic_entries ic_order ic_cached_bytes ic_views ic_view_order]; fold (image_of w mapping bytes);
    rewrite ?Hpush, ?Htot; try done.
  - rewrite zlen_app. change (zlen [_]) with 1. lia.
  - lia.
  - rewrite fmap_app. apply NoDup_app. split_and!.
    + rewrite Hk, fmap_app in Hw. by apply NoDup_app in Hw as (_ & _ & ?).
    + intros x Hx ->%list_elem_of_singleton. apply list_elem_of_fmap in Hx as (p & Hp & Hin).
      assert (Hin' : p ∈ cache_list c1) by (rewrite Hk, elem_of_app; by right). rewrite Hl in Hin'.
      apply list_elem_of_filter in Hin' as [Hne _]. by apply Hne.
    + apply NoDup_singleton.
Qed.

Lemma insert_view_ok c view_ref view : cache_ok c -> ic_views c !! view_ref = None ->
  let c' := insert_view c view_ref view in
  cache_ok c' /\ cache_list c' = cache_list c /\ view_list c' = with_view_room (view_list c) ++ [(view_ref, view)].
Proof.
  intros [He Ht Hc Hb Hw Hv Hvc] Hnone. unfold insert_view.
  pose proof (evict_views_ok (ic_view_order c) (ic_views c) Hv) as Hev. fold (view_list c) in Hev.
  destruct (evict_views _ _) as [views order]. destruct Hev as (Hq & Hsub & Hroom). cbn zeta.
  destruct (queue_push views order view_ref view Hq (lookup_weaken_None _ _ _ Hnone Hsub)) as [Hq' Hpush].
  rewrite Hroom in Hpush. split; [|split; [done | exact Hpush]].
  constructor; try done. unfold view_list. cbn [ic_views ic_view_order]. rewrite Hpush, zlen_app.
  pose proof (with_view_room_fits (view_list c)). change (zlen [_]) with 1. lia.
Qed.

Lemma cache_get_iff c id w image : cache_ok c ->
  cache_get c id w = Some image <-> (id, image) ∈ cache_list c /\ ci_window_ref image = w.
Proof.
  intros Hok. unfold cache_get, cache_list. rewrite queue_list_elem by apply Hok.
  destruct (ic_entries c !! id) as [i|]; [|naive_solver]. destruct (str_eqb (ci_window_ref i) w) eqn:E.
  - apply str_eqb_eq in E. naive_solver.
  - apply str_eqb_neq in E. naive_solver.
Qed.

Lemma cache_default_ok : cache_ok cache_default.
Proof.
  constructor; cbn; try done; try apply NoDup_nil_2; split; try apply NoDup_nil_2.
  all: intros id; rewrite lookup_empty, elem_of_nil; split; [done | by intros [? [=]]].
Qed.

End CacheSteps.

(** * Regions and views *)

(** The rectangle is not empty and lies in an image of size [s]. *)
Definition rect_in (r : PixelRect) (s : PixelSize) : Prop :=
  0 <= pr_x r /\ 0 <= pr_y r /\ 1 <= pr_width r /\ 1 <= pr_height r /\
  pr_x r + pr_width r <= ps_width s /\ pr_y r + pr_height r <= ps_height s.

(** [n / 1000] of [length], rounded down and up. *)
Lemma region_edges left right length : 0 <= left < right -> right <= 1000 -> 1 <= length <= U32_MAX ->
  exists x e, region_start left length = Some x /\ region_end right length = Some e /\ 0 <= x < e /\ e <= length /\
    1000 * x <= left * length < 1000 * (x + 1) /\ 1000 * (e - 1) < right * length <= 1000 * e.
Proof.
  intros Hl Hr Hlen. unfold region_start, region_end, u32_try_from. exists (left * length / 1000), (div_ceil (right * length) 1000).
  assert (Hs : 0 <= left * length < 1000 * length) by nia. assert (He : left * length < right * length <= 1000 * length) by nia.
  pose proof (div_ceil_bounds (right * length) 1000 ltac:(lia) ltac:(lia)) as Hc.
  pose proof (Z.mul_div_le (left * length) 1000 ltac:(lia)). pose proof (Z.mul_succ_div_gt (left * length) 1000 ltac:(lia)).
  pose proof (Z.div_pos (left * length) 1000 ltac:(lia) ltac:(lia)).
  set (x := left * length / 1000) in *. set (e := div_ceil (right * length) 1000) in *.
  rewrite !(proj2 (Z.leb_le _ _)) by lia. split; [done|]. split; [f_equal; lia|]. lia.
Qed.

Lemma normalized_region_some left top right bottom s : size_ok s -> 0 <= left -> 0 <= top ->
  left < right -> right <= 1000 -> top < bottom -> bottom <= 1000 -> ps_width s <> 0 -> ps_height s <> 0 ->
  exists r, normalized_region left top right bottom s = Some r /\ rect_in r s /\
    1000 * pr_x r <= left * ps_width s < 1000 * (pr_x r + 1) /\
    1000 * (pr_x r + pr_width r - 1) < right * ps_width s <= 1000 * (pr_x r + pr_width r) /\
    1000 * pr_y r <= top * ps_height s < 1000 * (pr_y r + 1) /\
    1000 * (pr_y r + pr_height r - 1) < bottom * ps_height s <= 1000 * (pr_y r + pr_height r).
Proof.
  intros [Hw Hh] Hl Ht Hlr Hr Htb Hb Hw0 Hh0. unfold is_u32 in *.
  destruct (region_edges left right (ps_width s)) as (x & e & Ex & Ee & Hx); [lia..|].
  destruct (region_edges top bottom (ps_height s)) as (y & f & Ey & Ef & Hy); [lia..|].
  unfold normalized_region, NORMALIZED_COORDINATE_MAX. rewrite !(proj2 (Z.ltb_ge _ _)), !(proj2 (Z.leb_gt _ _)), !(proj2 (Z.eqb_neq _ _)) by lia.
  cbn [orb]. rewrite Ex, Ey, Ee, Ef. cbn. unfold checked_sub. rewrite !(proj2 (Z.leb_le _ _)) by lia. cbn.
  rewrite !(proj2 (Z.ltb_lt _ _)) by lia. cbn. eexists. split; [done|]. unfold rect_in. cbn. lia.
Qed.

Lemma normalized_axis_range value length : 0 <= value <= 1000 -> 1 <= length <= U32_MAX ->
  0 <= normalized_axis value length <= length - 1.
Proof.
  intros Hv Hl. unfold normalized_axis, sat_sub, u32_try_from. rewrite Z.max_r by lia.
  assert (0 <= value * (length - 1) <= 1000 * (length - 1)) by nia.
  pose proof (Z.div_pos (value * (length - 1) + 500) 1000 ltac:(lia) ltac:(lia)).
  assert ((value * (length - 1) + 500) / 1000 < length) by (apply Z.div_lt_upper_bound; lia).
  rewrite (proj2 (Z.leb_le _ _)) by lia. simpl. lia.
Qed.

Lemma view_point_in_rect x y r s : size_ok s -> rect_in r s -> 0 <= x <= 1000 -> 0 <= y <= 1000 ->
  let p := normalized_view_point x y r in
  pr_x r <= px_x p < pr_x r + pr_width r /\ pr_y r <= px_y p < pr_y r + pr_height r.
Proof.
  intros [Hw Hh] (H1 & H2 & H3 & H4 & H5 & H6) Hx Hy. unfold is_u32 in *. cbn.
  pose proof (normalized_axis_range x (pr_width r) Hx ltac:(lia)). pose proof (normalized_axis_range y (pr_height r) Hy ltac:(lia)).
  unfold u32_sat_add. lia.
Qed.

(** * The pixels of a crop *)

Lemma crop_row_ok pixels stride x width row rows : 0 <= x -> 0 <= row < rows -> 1 <= width -> 4 * (x + width) <= stride ->
  zlen pixels = rows * stride -> zlen pixels <= MAX_DECODED_IMAGE_BYTES ->
  crop_row pixels stride (4 * width) x row = Ok (take (Z.to_nat (4 * width)) (drop (Z.to_nat (row * stride + 4 * x)) pixels)).
Proof.
  intros Hx Hr Hw Hs Hlen Hmax. unfold MAX_DECODED_IMAGE_BYTES in *. assert ((row + 1) * stride <= rows * stride) by nia. assert (0 <= row * stride) by nia.
  unfold crop_row, checked_mul, checked_add, USIZE_MAX, U64_MAX.
  rewrite (proj2 (Z.leb_le (row * stride) _)) by lia. cbn. rewrite (proj2 (Z.leb_le (x * 4) _)) by lia. cbn.
  rewrite (proj2 (Z.leb_le (row * stride + x * 4) _)) by lia. cbn.
  rewrite (proj2 (Z.leb_le _ _)) by lia. cbn. rewrite (proj2 (Z.ltb_ge _ _)) by lia. cbn. do 3 f_equal. lia.
Qed.

Lemma crop_rows_ok pixels stride x width row n rows : 0 <= x -> 0 <= row -> row + Z.of_nat n <= rows -> 1 <= width ->
  4 * (x + width) <= stride -> zlen pixels = rows * stride -> zlen pixels <= MAX_DECODED_IMAGE_BYTES ->
  exists cropped, crop_rows pixels stride (4 * width) x row n = Ok cropped /\ zlen cropped = Z.of_nat n * (4 * width) /\
    forall j k, 0 <= j < Z.of_nat n -> 0 <= k < 4 * width ->
      cropped !! Z.to_nat (j * (4 * width) + k) = pixels !! Z.to_nat ((row + j) * stride + 4 * x + k).
Proof.
  intros Hx Hrow Hn Hw Hs Hlen Hmax. revert row Hrow Hn. induction n as [|n IH]; intros row Hrow Hn.
  - exists []. split; [done|]. split; [done|]. lia.
  - cbn [crop_rows]. rewrite (crop_row_ok pixels stride x width row rows) by lia.
    destruct (IH (row + 1)) as (rest & Hrest & Hl & Hp); [lia..|]. cbn [rbind]. rewrite Hrest. cbn [rbind].
    assert (row * stride + 4 * x + 4 * width <= zlen pixels) by nia. assert (0 <= row * stride) by nia.
    set (line := take (Z.to_nat (4 * width)) (drop (Z.to_nat (row * stride + 4 * x)) pixels)).
    assert (Hline : zlen line = 4 * width) by (unfold line, zlen in *; rewrite length_take, length_drop; lia).
    eexists. split; [done|]. split; [rewrite zlen_app; lia|]. intros j k Hj Hk.
    destruct (decide (j = 0)) as [->|Hj0].
    + rewrite lookup_app_l by (unfold zlen in Hline; lia). unfold line. rewrite lookup_take_lt by lia.
      rewrite lookup_drop. f_equal. lia.
    + rewrite lookup_app_r by (unfold zlen in Hline; nia).
      replace (Z.to_nat (j * (4 * width) + k) - length line)%nat with (Z.to_nat ((j - 1) * (4 * width) + k)) by (unfold zlen in Hline; nia).
      rewrite Hp by lia. f_equal. f_equal. lia.
Qed.

(** * Properties *)

(** C38: the screenshot cache refines a list.  From the empty cache on, every
    operation keeps the invariant (the map, the queue and the byte counter
    agree, at most 32 images of at most 32 MiB together, at most 32 views, no
    window twice) and acts on the list of images, oldest first, as specified:
    inserting an image drops the image and the views of its window, then the
    oldest images until there is room, and appends; a lookup finds exactly the
    image listed for that observation and window. *)
Theorem cache_refines `{!HashOrder} c :
  cache_ok cache_default /\
  (cache_ok c ->
   (cache_ok (cache_clear c) /\ cache_list (cache_clear c) = [] /\ view_list (cache_clear c) = []) /\
   (forall w, let c' := invalidate_window c w in
      cache_ok c' /\ cache_list c' = filter (fun p => ci_window_ref p.2 <> w) (cache_list c) /\
      view_list c' = filter (fun p => rv_window_ref p.2 <> w) (view_list c)) /\
   (forall id w mapping bytes, fresh_for c id w -> zlen bytes <= MAX_CACHED_IMAGE_BYTES ->
      let c' := cache_insert c id w mapping bytes in
      cache_ok c' /\
      cache_list c' = with_room (zlen bytes) (filter (fun p => ci_window_ref p.2 <> w) (cache_list c))
                      ++ [(id, image_of w mapping bytes)] /\
      view_list c' = filter (fun p => rv_window_ref p.2 <> w) (view_list c) /\
      (forall id' image, cache_get c' id' w = Some image -> id' = id /\ image = image_of w mapping bytes)) /\
   (forall view_ref view, ic_views c !! view_ref = None ->
      let c' := insert_view c view_ref view in
      cache_ok c' /\ cache_list c' = cache_list c /\ view_list c' = with_view_room (view_list c) ++ [(view_ref, view)] /\
      get_view c' view_ref = Some view) /\
   (forall id w image, cache_get c id w = Some image <-> (id, image) ∈ cache_list c /\ ci_window_ref image = w)).
Proof.
  split; [apply cache_default_ok|]. intros Hok. split_and!.
  - apply cache_default_ok.
  - done.
  - done.
  - intros w c'. destruct (invalidate_window_ok c w Hok) as (? & ? & ? & _). done.
  - intros id w mapping bytes Hf Hl c'. destruct (cache_insert_ok c id w mapping bytes Hok Hf Hl) as (Hok' & Hlist & Hv).
    split_and!; try done. intros id' image Hg. apply (cache_get_iff _ _ _ _ Hok') in Hg as [Hin Hw]. fold c' in Hlist.
    fold c' in Hin. rewrite Hlist, elem_of_app, list_elem_of_singleton in Hin. destruct Hin as [Hin|[= -> ->]]; [exfalso|done].
    destruct (with_room_suffix (zlen bytes) (filter (fun p => ci_window_ref p.2 <> w) (cache_list c))) as [k Hk].
    assert (Hin' : (id', image) ∈ filter (fun p => ci_window_ref p.2 <> w) (cache_list c)) by (rewrite Hk, elem_of_app; by right).
    by apply list_elem_of_filter in Hin' as [Hne _].
  - intros view_ref view Hn c'. destruct (insert_view_ok c view_ref view Hok Hn) as (? & ? & ?). split_and!; try done.
    unfold c', get_view, insert_view. destruct (evict_views _ _). apply lookup_insert_eq.
  - intros id w image. by apply cache_get_iff.
Qed.

Definition sample_mapping : ScreenshotMapping := {|
  sm_screen_bounds := {| sr_x := F0; sr_y := F0; sr_width := F1000; sr_height := F1000 |};
  sm_pixel_size := {| ps_width := 2; ps_height := 2 |} |}.

#[local] Existing Instance map_to_list_order.

(** A second observation of a window replaces the first. *)
Lemma cache_refines_witness :
  exists c, cache_ok c /\ cache_list c = [("o2"%string, image_of "w" sample_mapping [4; 5])] /\
    cache_get c "o1" "w" = None.
Proof.
  destruct (cache_refines cache_default) as [H0 H1]. destruct (H1 H0) as (_ & _ & Hins & _).
  destruct (Hins "o1"%string "w"%string sample_mapping [1; 2; 3] ltac:(intros i Hi; vm_compute in Hi; discriminate) ltac:(vm_compute; discriminate))
    as (Hok & _). set (c := cache_insert cache_default _ _ _ _) in Hok.
  destruct (cache_refines c) as [_ H2]. destruct (H2 Hok) as (_ & _ & Hins2 & _).
  destruct (Hins2 "o2"%string "w"%string sample_mapping [4; 5] ltac:(intros i Hi; vm_compute in Hi; discriminate) ltac:(vm_compute; discriminate))
    as (Hok2 & Hl2 & _ & _).
  exists (cache_insert c "o2" "w" sample_mapping [4; 5]). split; [exact Hok2|]. split; [rewrite Hl2; vm_compute; reflexivity | vm_compute; reflexivity].
Defined.

(** Clicks in a zoom view reach the pixel that was meant.  Edges in
    0..1000 with left before right and top before bottom select a non-empty
    rectangle of the image, the smallest one with every pixel the region
    touches, and other edges select none; a point of the view in 0..1000 is a
    pixel of that rectangle, its corners are the corners; and the normalized
    point sent to the runtime, which always exists, resolves to that pixel. *)
Theorem view_click_exact left top right bottom s x y :
  size_ok s -> ps_width s <> 0 -> ps_height s <> 0 -> 0 <= left -> 0 <= top -> 0 <= x <= 1000 -> 0 <= y <= 1000 ->
  (left < right /\ right <= 1000 /\ top < bottom /\ bottom <= 1000 <->
   is_Some (normalized_region left top right bottom s)) /\
  (forall r, normalized_region left top right bottom s = Some r ->
     rect_in r s /\
     (forall px, 0 <= px < ps_width s ->
        (pr_x r <= px < pr_x r + pr_width r <-> left * ps_width s < 1000 * (px + 1) /\ 1000 * px < right * ps_width s)) /\
     let p := normalized_view_point x y r in
     pr_x r <= px_x p < pr_x r + pr_width r /\ pr_y r <= px_y p < pr_y r + pr_height r /\
     normalized_view_point 0 0 r = {| px_x := pr_x r; px_y := pr_y r |} /\
     normalized_view_point 1000 1000 r = {| px_x := pr_x r + pr_width r - 1; px_y := pr_y r + pr_height r - 1 |} /\
     exists n, from_pixel p s = Some n /\ to_pixel n s = Some p).
Proof.
  intros Hs Hw Hh Hl Ht Hx Hy.
  assert (Hiff : is_Some (normalized_region left top right bottom s) -> left < right /\ right <= 1000 /\ top < bottom /\ bottom <= 1000).
  { unfold normalized_region. destruct (_ || _) eqn:E; [by intros [? [=]]|]. zbool. unfold NORMALIZED_COORDINATE_MAX in *. lia. }
  split; [split; [|done]|].
  - intros (H1 & H2 & H3 & H4). destruct (normalized_region_some left top right bottom s) as (r & -> & _); done.
  - intros r Hr. destruct (Hiff ltac:(by rewrite Hr)) as (H1 & H2 & H3 & H4).
    destruct (normalized_region_some left top right bottom s) as (r' & Hr' & Hin & Hx1 & Hx2 & _); try done.
    rewrite Hr in Hr'. injection Hr' as <-. split; [done|]. split; [intros px Hpx; nia|]. cbv zeta.
    destruct (view_point_in_rect x y r s Hs Hin Hx Hy) as [Px Py]. split; [done|]. split; [done|].
    pose proof Hin as (I1 & I2 & I3 & I4 & I5 & I6). destruct Hs as [[_ Sw] [_ Sh]].
    assert (Hedge : forall v d, 0 <= v -> 1 <= d -> v + d <= U32_MAX ->
      u32_sat_add v (normalized_axis 0 d) = v /\ u32_sat_add v (normalized_axis 1000 d) = v + d - 1).
    { intros v d Hv Hd Hb. unfold normalized_axis, sat_sub, u32_try_from, u32_sat_add. rewrite Z.max_r by lia.
      replace ((0 * (d - 1) + 500) / 1000) with 0 by reflexivity.
      replace ((1000 * (d - 1) + 500) / 1000) with (d - 1) by (apply Z.div_unique with 500; lia).
      rewrite !(proj2 (Z.leb_le _ _)) by (unfold U32_MAX in *; lia). simpl. lia. }
    destruct (Hedge (pr_x r) (pr_width r)) as [Ex0 Ex1]; [lia..|]. destruct (Hedge (pr_y r) (pr_height r)) as [Ey0 Ey1]; [lia..|].
    split; [unfold normalized_view_point; by rewrite Ex0, Ey0|]. split; [unfold normalized_view_point; by rewrite Ex1, Ey1|].
    apply from_pixel_back; [split; unfold is_u32; lia | lia | lia|]. unfold size_contains. apply andb_true_iff. rewrite !Z.ltb_lt. lia.
Qed.

Lemma view_click_exact_witness :
  exists r n, normalized_region 250 250 750 500 {| ps_width := 1919; ps_height := 1079 |} = Some r /\
    from_pixel (normalized_view_point 500 333 r) {| ps_width := 1919; ps_height := 1079 |} = Some n /\
    to_pixel n {| ps_width := 1919; ps_height := 1079 |} = Some (normalized_view_point 500 333 r).
Proof.
  destruct (view_click_exact 250 250 750 500 {| ps_width := 1919; ps_height := 1079 |} 500 333
    ltac:(unfold size_ok, is_u32, U32_MAX; simpl; lia) ltac:(simpl; lia) ltac:(simpl; lia) ltac:(lia) ltac:(lia) ltac:(lia) ltac:(lia)) as [H1 H2].
  destruct (proj1 H1 ltac:(lia)) as [r Hr]. destruct (H2 r Hr) as (_ & _ & _ & _ & _ & _ & n & Hn). exists r, n. split; [exact Hr | exact Hn].
Defined.

(** The decoder delivers an RGBA image of the announced size. *)
Record decodes (png : PngCodec) (input : list Z) (s : PixelSize) (pixels : list Z) : Prop := {
  dc_info : png_read_info png input = Ok (Some (ps_width s * ps_height s * 4));
  dc_frame : png_next_frame png input =
    Ok {| png_width := ps_width s; png_height := ps_height s; png_rgba8 := true; png_pixels := pixels |};
  dc_length : zlen pixels = ps_width s * ps_height s * 4;
}.

(** A crop is the rectangle.  For an image within the decoding limit and a
    rectangle inside it, what is encoded is exactly the rectangle, row by row:
    the byte [k] of the pixel in column [i] and row [j] is that of the pixel
    [x + i], [y + j] of the image.  The call fails only when the encoder does
    or the result is above the limit; an image above the decoding limit is
    refused before it is decoded. *)
Theorem crop_png_exact png input s rect max pixels :
  size_ok s -> rect_in rect s -> decodes png input s pixels ->
  (ps_width s * ps_height s * 4 <= MAX_DECODED_IMAGE_BYTES ->
   exists cropped,
     zlen cropped = pr_width rect * pr_height rect * 4 /\
     (forall i j k, 0 <= i < pr_width rect -> 0 <= j < pr_height rect -> 0 <= k < 4 ->
        cropped !! Z.to_nat (4 * (j * pr_width rect + i) + k) =
        pixels !! Z.to_nat (4 * ((pr_y rect + j) * ps_width s + (pr_x rect + i)) + k)) /\
     crop_png png input s rect max =
       match png_encode png (pr_width rect) (pr_height rect) cropped with
       | Ok output => if max <? zlen output then Err (ImageTooLarge (zlen output) max) else Ok output
       | Err e => Err (ImageEncode e)
       end) /\
  (MAX_DECODED_IMAGE_BYTES < ps_width s * ps_height s * 4 -> crop_png png input s rect max = Err DecodedImageTooLarge).
Proof.
  intros [[_ Sw] [_ Sh]] (I1 & I2 & I3 & I4 & I5 & I6) [Hinfo Hframe Hlen]. unfold U32_MAX in *.
  assert (Hp : 0 <= ps_width s * ps_height s <= 4294967295 * 4294967295) by nia.
  split.
  - intros Hmax. unfold MAX_DECODED_IMAGE_BYTES in Hmax.
    destruct (crop_rows_ok pixels (ps_width s * 4) (pr_x rect) (pr_width rect) (pr_y rect) (Z.to_nat (pr_height rect)) (ps_height s))
      as (cropped & Hc & Hcl & Hpix); [lia | lia | lia | lia | lia | lia | unfold MAX_DECODED_IMAGE_BYTES; lia|].
    rewrite Z2Nat.id in * by lia. exists cropped. split; [lia|]. split.
    + intros i j k Hi Hj Hk. replace (4 * (j * pr_width rect + i) + k) with (j * (4 * pr_width rect) + (4 * i + k)) by lia.
      rewrite Hpix by lia. f_equal. f_equal. lia.
    + unfold crop_png, checked_mul, U64_MAX, MAX_DECODED_IMAGE_BYTES.
      assert (pr_height rect * (pr_width rect * 4) <= ps_width s * ps_height s * 4) by nia.
      rewrite (proj2 (Z.leb_le (ps_width s * ps_height s) _)) by lia. cbn [mbind option_bind].
      rewrite (proj2 (Z.leb_le (ps_width s * ps_height s * 4) _)) by lia. cbn [mbind option_bind].
      rewrite (proj2 (Z.leb_le (ps_width s * ps_height s * 4) _)) by lia. cbn [ok_or rbind].
      rewrite Hinfo. cbn [rmap_err rbind]. rewrite bool_decide_true by done. cbn [negb ensure_not rbind].
      rewrite Hframe. cbn [rmap_err rbind png_width png_height png_rgba8 png_pixels].
      rewrite !Z.eqb_refl, (proj2 (Z.eqb_eq _ _) Hlen). cbn [negb orb ensure_not rbind].
      rewrite (proj2 (Z.leb_le (ps_width s * 4) _)) by lia. cbn [ok_or rbind].
      rewrite (proj2 (Z.leb_le (pr_width rect * 4) _)) by lia. cbn [ok_or rbind].
      rewrite (proj2 (Z.leb_le (pr_height rect * (pr_width rect * 4)) _)) by lia. cbn [ok_or rbind].
      unfold u32_sat_add, U32_MAX. rewrite Z.min_r by lia. replace (pr_y rect + pr_height rect - pr_y rect) with (pr_height rect) by lia.
      replace (pr_width rect * 4) with (4 * pr_width rect) by lia. rewrite Hc. cbn [rbind].
      rewrite (proj2 (Z.eqb_eq _ _)) by lia. cbn [negb ensure_not rbind].
      destruct (png_encode png _ _ cropped); [|done]. cbn. by destruct (_ <? _).
  - intros Hbig. unfold crop_png, checked_mul, U64_MAX.
    rewrite (proj2 (Z.leb_le (ps_width s * ps_height s) _)) by lia. cbn [mbind option_bind].
    destruct (ps_width s * ps_height s * 4 <=? _); [|done]. cbn [mbind option_bind].
    by rewrite (proj2 (Z.leb_gt _ _) Hbig).
Qed.

(** A decoder and encoder of raw pixels of a 3 by 2 image. *)
Definition raw_png : PngCodec := {|
  png_read_info := fun _ => Ok (Some 24);
  png_next_frame := fun bytes => Ok {| png_width := 3; png_height := 2; png_rgba8 := true; png_pixels := bytes |};
  png_encode := fun _ _ bytes => Ok bytes |}.

Definition raw_pixels : list Z := seqZ 0 24.

Lemma crop_png_exact_witness :
  crop_png raw_png raw_pixels {| ps_width := 3; ps_height := 2 |} {| pr_x := 1; pr_y := 1; pr_width := 2; pr_height := 1 |} 100 =
  Ok [16; 17; 18; 19; 20; 21; 22; 23].
Proof.
  destruct (crop_png_exact raw_png raw_pixels {| ps_width := 3; ps_height := 2 |} {| pr_x := 1; pr_y := 1; pr_width := 2; pr_height := 1 |} 100
    raw_pixels ltac:(unfold size_ok, is_u32, U32_MAX; simpl; lia) ltac:(unfold rect_in; simpl; lia) ltac:(constructor; reflexivity)) as [H _].
  destruct (H ltac:(vm_compute; discriminate)) as (cropped & Hl & Hp & He). rewrite He. cbn [pr_width pr_height pr_x pr_y ps_width] in *.
  assert (Hbyte : forall n, 0 <= n < 8 -> cropped !! Z.to_nat n = raw_pixels !! Z.to_nat (16 + n)).
  { intros n Hn. destruct (decide (n < 4)).
    - pose proof (Hp 0 0 n ltac:(lia) ltac:(lia) ltac:(lia)) as Hb. etrans; [etrans; [|exact Hb]|]; f_equal; lia.
    - pose proof (Hp 1 0 (n - 4) ltac:(lia) ltac:(lia) ltac:(lia)) as Hb. etrans; [etrans; [|exact Hb]|]; f_equal; lia. }
  assert (cropped = [16; 17; 18; 19; 20; 21; 22; 23]) as ->; [|reflexivity].
  apply list_eq_same_length with (n := 8%nat); [reflexivity | unfold zlen in Hl; lia|].
  intros n x y Hn Hx Hy. specialize (Hbyte (Z.of_nat n) ltac:(lia)). rewrite Nat2Z.id, Hx in Hbyte.
  do 8 (destruct n as [|n]; [vm_compute in Hbyte, Hy; congruence|]). lia.
Defined.
