(* ===== verification/Adapter.v ===== *)
(** The tool server's adapter: the state, the runtime calls and the error
    answers of [NexusCuaMcp] in [src/crates/mcp/src/server.rs].

    A computation passes the adapter's state, records the calls it makes of
    the runtime and the mutation dispatcher, and ends with a value, with an
    answer returned early, with a protocol error or with a panic.  Other tasks
    run at the [await] points: [mcp_await] maps the state a call waits in to
    the one it resumes in, and a service the state of the call to the state of
    the return.  JSON serialization of the protocol's types and base64 are
    parameters. *)

From S2P Require Import Prelude Floats Geometry Text Protocol Errors Policy Dispatcher Authority ImageCache.
From stdpp Require Import pretty.
#[local] Open Scope Z_scope.

Definition MUTATION_MAX_INFLIGHT : Z := 64.
Definition MUTATION_MAX_COMPLETED : Z := 4096.
Definition MUTATION_RECONCILIATION_TTL : Z := 10 * 60 * 1000000000.
Definition MUTATION_MAX_WAIT_MS : Z := 120000.

(** * JSON values *)

#[warnings="-register-all"]
Inductive Value :=
| JNull
| JBool (b : bool)
| JNumber (n : Z)
| JString (s : string)
| JArray (l : list Value)
| JObject (fields : list (string * Value)).

(** [Value::get] and [Map::remove]/[Map::insert] of an object. *)
Fixpoint field (k : string) (fields : list (string * Value)) : option Value :=
  match fields with
  | [] => None
  | (k', v) :: rest => if str_eqb k' k then Some v else field k rest
  end.

Definition get (k : string) (v : Value) : option Value :=
  match v with JObject fields => field k fields | _ => None end.

Fixpoint remove_field (k : string) (fields : list (string * Value)) : list (string * Value) :=
  match fields with
  | [] => []
  | (k', v) :: rest => if str_eqb k' k then remove_field k rest else (k', v) :: remove_field k rest
  end.

Fixpoint update_field (k : string) (f : Value -> Value) (fields : list (string * Value)) : list (string * Value) :=
  match fields with
  | [] => []
  | (k', v) :: rest => if str_eqb k' k then (k', f v) :: rest else (k', v) :: update_field k f rest
  end.

Definition insert_field (k : string) (v : Value) (fields : list (string * Value)) : list (string * Value) :=
  remove_field k fields ++ [(k, v)].

Definition remove_key (k : string) (v : Value) : Value :=
  match v with JObject fields => JObject (remove_field k fields) | _ => v end.

(** [remove_private_artifact_path]: [depth] bounds the nesting of the value. *)
Fixpoint remove_path_at (depth : nat) (v : Value) : Value :=
  match v with
  | JObject fields =>
      let fields1 :=
        match depth with
        | O => fields
        | S depth' => update_field "observation" (remove_path_at depth') fields
        end in
      JObject (update_field "screenshot" (remove_key "path") fields1)
  | _ => v
  end.

(** How deep objects are nested in one another. *)
Fixpoint value_depth (v : Value) : nat :=
  match v with
  | JObject fields => S ((fix go l := match l with [] => O | (_, x) :: rest => Nat.max (value_depth x) (go rest) end) fields)
  | _ => O
  end.

Definition remove_private_artifact_path (v : Value) : Value := remove_path_at (value_depth v) v.

(** * Answers *)

Inductive ContentBlock :=
| TextBlock (text : string)
| ImageBlock (data mime_type : string).

Record CallToolResult := {
  tr_is_error : bool;
  tr_content : list ContentBlock;
  tr_structured : option Value;
}.

Inductive McpError :=
| McpInternal (message : string)
| McpInvalidParams (message : string).

Definition unexpected_result : McpError := McpInternal "nexus-cua returned an unexpected result variant".

Definition json_option (o : option string) : Value := match o with Some s => JString s | None => JNull end.

Definition error_value (code message : string) (retryable : bool) (recovery_action : option string) (status : string) : Value :=
  JObject [("code", JString code); ("message", JString message); ("retryable", JBool retryable);
           ("recovery_action", json_option recovery_action); ("mutation_status", JString status)]%string.

(** [CallToolResult::error] with structured content. *)
Definition tool_error (text : string) (value : Value) : CallToolResult :=
  {| tr_is_error := true; tr_content := [TextBlock text]; tr_structured := Some value |}.

Definition adapter_tool_error (code message : string) (retryable : bool) (recovery_action : option string) : CallToolResult :=
  tool_error message (error_value code message retryable recovery_action "not_dispatched").

(** [object.insert("request_id", ..)] on the structured content. *)
Definition with_request_id (request_id : RequestId) (r : CallToolResult) : CallToolResult :=
  match tr_structured r with
  | Some (JObject fields) => {| r with tr_structured := Some (JObject (insert_field "request_id" (JString request_id) fields)) |}
  | _ => r
  end.

Definition adapter_tool_error_for_request (request_id : RequestId) (code message : string) (retryable : bool)
    (recovery_action : option string) : CallToolResult :=
  with_request_id request_id (adapter_tool_error code message retryable recovery_action).

Definition adapter_indeterminate_tool_error (code message : string) (recovery_action : option string) : CallToolResult :=
  tool_error message (error_value code message true recovery_action "indeterminate").

Definition provider_error_text (e : AuthorityProviderError) : string :=
  match e with
  | ProviderUnavailable => "registered authority provider is unavailable"
  | ProviderDenied => "authority provider denied the adapter challenge"
  | AuthenticationFailed => "authority provider authentication failed"
  | InvalidResponse => "authority provider returned an invalid response"
  end.

(** The [Display] of [ImageError]. *)
Definition image_error_text (e : ImageError) : string :=
  match e with
  | ImageTooLarge actual maximum =>
      "screenshot is " +:+ pretty actual +:+ " bytes, above the configured " +:+ pretty maximum +:+ "-byte MCP limit"
  | DecodedImageTooLarge => "decoded screenshot exceeds the bounded image-processing limit"
  | UnexpectedFormat => "screenshot is not the expected RGBA8 PNG"
  | ImageDecode e => "screenshot PNG decoding failed: " +:+ e
  | ImageEncode e => "zoom PNG encoding failed: " +:+ e
  end.

Definition image_tool_error (e : ImageError) : CallToolResult :=
  tool_error ("Screenshot could not be returned safely: " +:+ image_error_text e)
    (error_value "screenshot_artifact_invalid" (image_error_text e) true
       (Some "observe_without_screenshot_or_reduce_target_size"%string) "not_applicable").

(** [serde_json::to_value] of a type. *)
Class Serialize (T : Type) := to_value : T -> Result Value string.

Section Answers.
Context `{!Serialize CuaError} (value_text : Value -> string).

Definition unserializable_error : Value :=
  error_value "internal" "failed to serialize nexus-cua error" false None "not_applicable".

Definition cua_tool_error (e : CuaError) : CallToolResult :=
  let value := match to_value e with Ok v => v | Err _ => unserializable_error end in
  tool_error
    ("nexus-cua refused the tool call: " +:+ message e +:+ ". Recovery: "
     +:+ default "inspect status"%string (recovery_action e) +:+ ".") value.

Definition cua_tool_error_for_request (request_id : RequestId) (e : CuaError) : CallToolResult :=
  with_request_id request_id (cua_tool_error e).

(** [CallToolResult::structured]. *)
Definition structured_result (value : Value) : CallToolResult :=
  {| tr_is_error := false; tr_content := [TextBlock (value_text value)]; tr_structured := Some value |}.

Definition structured {T} `{!Serialize T} (value : T) : Result CallToolResult McpError :=
  match to_value value with Ok v => Ok (structured_result v) | Err e => Err (McpInternal e) end.

Definition mutation_structured {T} `{!Serialize T} (request_id : RequestId) (value : T) : Result CallToolResult McpError :=
  match to_value value with
  | Err e => Err (McpInternal e)
  | Ok v =>
      match remove_private_artifact_path v with
      | JObject fields => Ok (structured_result (JObject (insert_field "request_id" (JString request_id) fields)))
      | _ => Err (McpInternal "mutation result must serialize as an object")
      end
  end.

Definition public_observation_value {T} `{!Serialize T} (observation : T) : Result Value McpError :=
  match to_value observation with Ok v => Ok (remove_private_artifact_path v) | Err e => Err (McpInternal e) end.

End Answers.

(** * The adapter *)

Inductive ToolProfile := ProfileFull | ProfileVision.

Record ActiveSession := { as_session_id : SessionId; as_expires_at : string }.

(** The state of [NexusCuaMcp] and of what it talks to; [mw_clock] is the
    system time in Unix milliseconds. *)
Record McpWorld (D : Type) := {
  mw_session : option ActiveSession;
  mw_closed : bool;
  mw_cache : ImageMappingCache;
  mw_drawn : nat;
  mw_now : Z;
  mw_clock : option Z;
  mw_env : D;
}.
Arguments mw_session {D} _.
Arguments mw_closed {D} _.
Arguments mw_cache {D} _.
Arguments mw_drawn {D} _.
Arguments mw_now {D} _.
Arguments mw_clock {D} _.
Arguments mw_env {D} _.

Inductive McpCall :=
| CallExecute (command : Command)
| CallMutation (request : RequestEnvelope)
| CallReconcile (request_id : RequestId) (wait_ms : Z)
| CallTakeArtifact (artifact : ScreenshotArtifact) (max_bytes : Z).

(** The runtime, the mutation dispatcher and the authority provider, and the
    other tasks of the process. *)
Class McpHost (D : Type) := {
  mcp_await : McpWorld D -> McpWorld D;
  mcp_execute : Command -> McpWorld D -> McpWorld D * Result CommandResult CuaError;
  mcp_dispatch : RequestEnvelope -> McpWorld D -> McpWorld D * ResponseEnvelope;
  mcp_reconcile : RequestId -> Z -> McpWorld D -> McpWorld D * Result MutationReconciliation CuaError;
  mcp_take_artifact : ScreenshotArtifact -> Z -> McpWorld D -> McpWorld D * Result (list Z) CuaError;
  mcp_validate : AuthorityGrantMetadata -> McpWorld D -> McpWorld D * Result unit AuthorityProviderError;
}.

(** How a tool computation ends. *)
Inductive Exit (A : Type) :=
| Gives (a : A)
| Answers (r : CallToolResult)
| Fails (e : McpError)
| Panics.
Arguments Gives {A} a.
Arguments Answers {A} r.
Arguments Fails {A} e.
Arguments Panics {A}.

Section ToolMonad.
Context {D : Type}.

Definition McpTrace := list (McpWorld D * McpCall).
Definition T (A : Type) := McpWorld D -> McpWorld D * McpTrace * Exit A.

Definition give {A} (a : A) : T A := fun w => (w, [], Gives a).
Definition answer {A} (r : CallToolResult) : T A := fun w => (w, [], Answers r).
Definition fail_with {A} (e : McpError) : T A := fun w => (w, [], Fails e).

Definition tbind {A B} (m : T A) (k : A -> T B) : T B := fun w =>
  match m w with
  | (w', t, Gives a) => let '(w'', t', r) := k a w' in (w'', t ++ t', r)
  | (w', t, Answers r) => (w', t, Answers r)
  | (w', t, Fails e) => (w', t, Fails e)
  | (w', t, Panics) => (w', t, Panics)
  end.

Definition tread {A} (f : McpWorld D -> A) : T A := fun w => (w, [], Gives (f w)).
Definition tmodify (f : McpWorld D -> McpWorld D) : T unit := fun w => (f w, [], Gives tt).

(** A call of a service, recorded with the state it is made in. *)
Definition service {A} (c : McpCall) (f : McpWorld D -> McpWorld D * A) : T A := fun w =>
  let '(w', a) := f w in (w', [(w, c)], Gives a).

(** [Result<_, McpError>] with [?], and [Result<_, CallToolResult>] with an
    early [return Ok(error)]. *)
Definition try_mcp {A} (r : Result A McpError) : T A := match r with Ok a => give a | Err e => fail_with e end.
Definition try_tool {A} (r : Result A CallToolResult) : T A := match r with Ok a => give a | Err r => answer r end.

(** [m.await.is_err()] for [m] with a [CallToolResult] as its error. *)
Definition succeeds {A} (m : T A) : T bool := fun w =>
  match m w with
  | (w', t, Gives _) => (w', t, Gives true)
  | (w', t, Answers _) => (w', t, Gives false)
  | (w', t, Fails e) => (w', t, Fails e)
  | (w', t, Panics) => (w', t, Panics)
  end.

End ToolMonad.

Arguments T : clear implicits.

Notation "'do!' x ':=' m 'in' k" := (tbind m (fun x => k))
  (at level 10, x pattern, m at level 100, k at level 200) : rust_scope.
Notation "m ';>' k" := (tbind m (fun _ => k))
  (at level 199, k at level 200, right associativity) : rust_scope.

(** * Methods *)

(** What [NexusCuaMcp] is built with, and the [Debug] forms of its messages. *)
Record NexusCuaMcp := {
  mcp_authority : AuthorityContext;
  mcp_authority_deadline : Z;
  mcp_max_image_bytes : Z;
  mcp_mutation_authorization : AuthorizationToken;
  mcp_tool_profile : ToolProfile;
  mcp_policy_summary : RuntimePolicySummary;
  mcp_debug_error : CuaError -> string;
  mcp_debug_list : list string -> string;
}.

Inductive BootstrapError :=
| BootRuntime (e : CuaError)
| BootTransport (e : string)
| IncompleteDiscovery
| IncompleteLaunchDiscovery
| ApplicationsUnavailable (missing : list string)
| BootUnexpectedResult.

(** [filter(|id| !available.contains(id))]. *)
Definition missing_from (available required : list string) : list string :=
  List.filter (fun id => negb (existsb (str_eqb id) available)) required.

Section Methods.
Context {D : Type} `{!McpHost D, !HashOrder, !UuidSource, !Serialize CuaError}.
Context (m : NexusCuaMcp).
Implicit Types w : McpWorld D.

Definition policy_of : AuthorityPolicy := cx_policy (mcp_authority m).

Definition await_lock : T D unit := tmodify mcp_await.

(** [AuthorityContext::validate_provider] with the provider's answer. *)
Definition check_provider : T D (Result unit AuthorityProviderError) := fun w =>
  match cx_provider (mcp_authority m), cx_provider_client (mcp_authority m) with
  | Some metadata, true =>
      match current_unix_ms (mw_clock w) with
      | Err _ => (w, [], Gives (Err ProviderUnavailable))
      | Ok now =>
          if gm_expires_at_unix_ms metadata <=? now then (w, [], Gives (Err ProviderDenied))
          else let '(w', r) := mcp_validate metadata w in (w', [], Gives r)
      end
  | Some _, false => (w, [], Gives (Err ProviderUnavailable))
  | None, _ => (w, [], Gives (Ok tt))
  end.

(** [validate_authority]. *)
Definition authority_ended w : bool := mw_closed w || (mcp_authority_deadline m <=? mw_now w).

Definition validate_authority : T D (Result unit AuthorityProviderError) :=
  do! ended := tread authority_ended in
  if ended then give (Err ProviderDenied) else check_provider.

Definition invalidate_local_session : T D unit :=
  await_lock ;>
  tmodify (fun w => {| w with mw_session := None |}) ;>
  await_lock ;>
  tmodify (fun w => {| w with mw_cache := cache_clear (mw_cache w) |}).

(** [runtime.execute(command)]. *)
Definition runtime_execute (command : Command) : T D (Result CommandResult CuaError) :=
  service (CallExecute command) (mcp_execute command).

(** [NexusCuaMcp::execute]. *)
Definition tool_execute (command : Command) : T D CommandResult :=
  do! valid := validate_authority in
  match valid with
  | Err e => answer (adapter_tool_error "authority_revoked" (provider_error_text e) false (Some "stop_adapter_and_reauthorize"%string))
  | Ok _ =>
      do! result := runtime_execute command in
      match result with
      | Ok r => give r
      | Err e =>
          (if bool_decide (code e = SessionUnavailable) then invalidate_local_session else give tt) ;>
          answer (cua_tool_error e)
      end
  end.

(** [valid_adapter_request_id]. *)
Definition valid_adapter_request_id (value : string) : bool :=
  negb (str_eqb value "") && (slen value <=? 128)
  && bytes_all (fun b => is_ascii_alphanumeric b || (b =? 45) || (b =? 95) || (b =? 46) || (b =? 58)) value.

Definition mutation_envelope (request_id : RequestId) (command : Command) : RequestEnvelope :=
  {| re_protocol_version := PROTOCOL_VERSION; re_request_id := request_id; re_timeout_ms := MUTATION_MAX_WAIT_MS;
     re_authorization := mcp_mutation_authorization m; re_command := command |}.

(** [execute_mutation]. *)
Definition execute_mutation (request_id : RequestId) (command : Command) : T D CommandResult :=
  do! valid := validate_authority in
  match valid with
  | Err e => answer (adapter_tool_error_for_request request_id "authority_revoked" (provider_error_text e) false
                       (Some "stop_adapter_and_reauthorize"%string))
  | Ok _ =>
      if negb (valid_adapter_request_id request_id) || negb (accepts_request_id (mcp_authority m) request_id)
      then answer (adapter_tool_error_for_request request_id "invalid_request"
                     "request_id is malformed or outside the provider-issued namespace" false
                     (Some "read_status_and_fix_request_id"%string))
      else
        do! response := service (CallMutation (mutation_envelope request_id command)) (mcp_dispatch (mutation_envelope request_id command)) in
        match rs_outcome response with
        | Success result => give result
        | Error e => answer (cua_tool_error_for_request request_id e)
        end
  end.

(** [session_id]. *)
Definition session_id : T D SessionId :=
  await_lock ;>
  do! active := tread mw_session in
  match active with
  | Some s => give (as_session_id s)
  | None => answer (adapter_tool_error "session_unavailable"
                      "no configured application is running; launch an authorized application first" true
                      (Some "launch_application"%string))
  end.

(** [self.image_mappings.lock().await] and an operation on the cache. *)
Definition with_cache (f : ImageMappingCache -> ImageMappingCache) : T D unit :=
  await_lock ;> tmodify (fun w => {| w with mw_cache := f (mw_cache w) |}).
Definition read_cache {A} (f : ImageMappingCache -> A) : T D A :=
  await_lock ;> tread (fun w => f (mw_cache w)).

Definition take_artifact_call (a : ScreenshotArtifact) : T D (Result (list Z) CuaError) :=
  service (CallTakeArtifact a (mcp_max_image_bytes m)) (mcp_take_artifact a (mcp_max_image_bytes m)).

(** ** Bootstrap and session replacement *)

Definition authorized_running_applications : T D (Result (list DiscoveryRef * list string) BootstrapError) :=
  do! result := runtime_execute DiscoverApplications in
  give match result with
       | Err e => Err (BootRuntime e)
       | Ok (RApplicationsDiscovered discovered) =>
           if negb (dao_complete discovered) then Err IncompleteDiscovery
           else
             let matched := List.filter (fun a => existsb (str_eqb (da_application_id a)) (ap_application_ids policy_of)) (dao_applications discovered) in
             Ok (da_discovery_ref <$> matched, missing_from (da_application_id <$> matched) (ap_application_ids policy_of))
       | Ok _ => Err BootUnexpectedResult
       end.

Definition verify_launchable_applications (required : list string) : T D (Result unit BootstrapError) :=
  do! capabilities := runtime_execute GetCapabilities in
  match capabilities with
  | Err e => give (Err (BootRuntime e))
  | Ok (RCapabilities c) =>
      if negb (bool_decide (Launch ∈ application_lifecycle c)) then give (Err (ApplicationsUnavailable required))
      else
        do! launchable := runtime_execute DiscoverLaunchableApplications in
        give match launchable with
             | Err e => Err (BootRuntime e)
             | Ok (RLaunchableApplicationsDiscovered discovered) =>
                 if negb (dlo_complete discovered) then Err IncompleteLaunchDiscovery
                 else
                   match missing_from (la_application_id <$> dlo_applications discovered) required with
                   | [] => Ok tt
                   | missing => Err (ApplicationsUnavailable missing)
                   end
             | Ok _ => Err BootUnexpectedResult
             end
  | Ok _ => give (Err BootUnexpectedResult)
  end.

Definition open_runtime_session (application_refs : list DiscoveryRef) : T D (Result ActiveSession BootstrapError) :=
  do! result := runtime_execute (OpenSession (authority_manifest policy_of application_refs)) in
  give match result with
       | Err e => Err (BootRuntime e)
       | Ok (RSessionOpened opened) => Ok {| as_session_id := os_session_id opened; as_expires_at := os_expires_at opened |}
       | Ok _ => Err BootUnexpectedResult
       end.

(** The session part of [bootstrap_with_authority_context]. *)
Definition bootstrap_session : T D (Result (option ActiveSession) BootstrapError) :=
  do! running := authorized_running_applications in
  match running with
  | Err e => give (Err e)
  | Ok (application_refs, missing) =>
      do! launchable :=
        (if bool_decide (missing = []) then give (Ok tt)
         else if negb (ap_allow_application_launch policy_of) then give (Err (ApplicationsUnavailable missing))
         else verify_launchable_applications missing) in
      match launchable with
      | Err e => give (Err e)
      | Ok _ =>
          if bool_decide (application_refs = []) && negb (ap_allow_display_capture policy_of)
             && negb (ap_allow_clipboard_read policy_of) && negb (ap_allow_clipboard_write policy_of)
          then give (Ok None)
          else
            do! opened := open_runtime_session application_refs in
            give (match opened with Ok s => Ok (Some s) | Err e => Err e end)
      end
  end.

(** The [Display] of [BootstrapError]. *)
Definition bootstrap_error_text (e : BootstrapError) : string :=
  match e with
  | BootRuntime e => "nexus-cua runtime rejected MCP bootstrap: " +:+ mcp_debug_error m e
  | BootTransport e => "nexus-cua MCP mutation dispatcher configuration is invalid: " +:+ e
  | IncompleteDiscovery => "application discovery was incomplete; increase the trusted runtime bound"
  | IncompleteLaunchDiscovery => "installed application discovery was incomplete; increase the trusted runtime bound"
  | ApplicationsUnavailable missing => "authorized applications are not running: " +:+ mcp_debug_list m missing
  | BootUnexpectedResult => "nexus-cua returned an unexpected result during MCP bootstrap"
  end.

Definition bootstrap_tool_error (e : BootstrapError) : CallToolResult :=
  match e with
  | BootRuntime e => cua_tool_error e
  | other => adapter_tool_error "session_unavailable" (bootstrap_error_text other) true (Some "refresh_application_state"%string)
  end.

Definition or_tool_error {A} (r : Result A BootstrapError) : T D A :=
  match r with Ok a => give a | Err e => answer (bootstrap_tool_error e) end.

(** The session is replaced under its lock unless the adapter has closed; the
    result is the session to close. *)
Definition install_session (replacement : ActiveSession) w : McpWorld D * Result (option ActiveSession) ActiveSession :=
  if mw_closed w then (w, Err replacement)
  else ({| w with mw_session := Some replacement |}, Ok (mw_session w)).

Definition close_runtime_session (s : ActiveSession) : T D unit :=
  runtime_execute (CloseSession (as_session_id s)) ;> give tt.

(** [rebuild_session]. *)
Definition rebuild_session : T D unit :=
  do! running := authorized_running_applications in
  do! (application_refs, _) := or_tool_error running in
  if bool_decide (application_refs = []) then
    answer (adapter_tool_error "target_unavailable" "launched application did not produce a discoverable running generation" true
              (Some "discover_applications"%string))
  else
    do! opened := open_runtime_session application_refs in
    do! replacement := or_tool_error opened in
    await_lock ;>
    do! installed := (fun w => let '(w', r) := install_session replacement w in (w', [], Gives r)) in
    match installed with
    | Err rejected =>
        close_runtime_session rejected ;>
        answer (adapter_tool_error "authority_revoked" "adapter authority has ended" false (Some "stop_adapter_and_reauthorize"%string))
    | Ok prior =>
        with_cache cache_clear ;>
        match prior with
        | Some s => close_runtime_session s
        | None => give tt
        end
    end.

(** [close]; the flag is stored before the session is taken under its lock. *)
Definition take_session w : McpWorld D * option ActiveSession := ({| w with mw_session := None |}, mw_session w).

Definition close_adapter : T D unit :=
  tmodify (fun w => {| w with mw_closed := true |}) ;>
  await_lock ;>
  do! active := (fun w => let '(w', s) := take_session w in (w', [], Gives s)) in
  match active with
  | Some s => close_runtime_session s
  | None => give tt
  end ;>
  with_cache cache_clear.

End Methods.
