(* ===== verification/Tools.v ===== *)
(** The tools of the server: the [#[tool]] methods of [NexusCuaMcp] in
    [src/crates/mcp/src/server.rs], each from its checks to its answer.

    [call_tool] is the dispatch on a tool's name and arguments, with the route
    the vision profile disables.  PNG, base64 and serialization are
    parameters. *)

From S2P Require Import Prelude Floats Geometry Text Protocol Errors Policy Dispatcher Authority ImageCache Adapter.
From stdpp Require Import pretty.
#[local] Open Scope Z_scope.

(** * Arguments *)

Record ObserveWindowArgs := {
  owa_window_ref : string;
  owa_include_screenshot : option bool;
  owa_accessibility : option AccessibilityMode;
  owa_application_scene : option bool;
}.

Record WriteClipboardArgs := { wca_request_id : string; wca_clipboard_ref : string; wca_text : string }.

Record PerformActionArgs := {
  paa_observe_after : option ObserveAfterOptions;
  paa_request_id : string;
  paa_window_ref : string;
  paa_observation_id : string;
  paa_action : Action;
}.

(** [GuardedWindowArgs]: what every guarded mutation names. *)
Record GuardedWindowArgs := { gwa_request_id : string; gwa_window_ref : string; gwa_observation_id : string }.

Record LaunchApplicationArgs := { laa_request_id : string; laa_application_id : string }.

Record NormalizedClickArgs := {
  nca_request_id : string;
  nca_window_ref : string;
  nca_observation_id : string;
  nca_x : Z;
  nca_y : Z;
  nca_button : option PointerButton;
  nca_count : option Z;
  nca_delivery : option DeliveryPreference;
}.

Record ZoomArgs := {
  za_window_ref : string;
  za_observation_id : string;
  za_left : Z;
  za_top : Z;
  za_right : Z;
  za_bottom : Z;
}.

Record ViewClickArgs := {
  vca_request_id : string;
  vca_view_ref : string;
  vca_x : Z;
  vca_y : Z;
  vca_button : option PointerButton;
  vca_count : option Z;
  vca_delivery : option DeliveryPreference;
}.

Record VerifyStateArgs := { vsa_window_ref : string; vsa_predicate : StatePredicate }.

Record GuardedScrollArgs := { gsa_guard : GuardedWindowArgs; gsa_x : Z; gsa_y : Z; gsa_delta_x : f64; gsa_delta_y : f64 }.

Record NormalizedDragArgs := {
  nda_request_id : string;
  nda_window_ref : string;
  nda_observation_id : string;
  nda_from_x : Z;
  nda_from_y : Z;
  nda_to_x : Z;
  nda_to_y : Z;
  nda_duration_ms : option Z;
}.

Record ReconcileMutationArgs := { rma_request_id : string; rma_wait_ms : option Z }.

(** One call of a tool; the guarded tools share their first three arguments. *)
Inductive ToolCall :=
| ToolGetStatus
| ToolReadClipboard
| ToolWriteClipboard (args : WriteClipboardArgs)
| ToolListApps
| ToolListLaunchableApps
| ToolLaunchApplication (args : LaunchApplicationArgs)
| ToolListWindows (app_ref : option string)
| ToolListDisplays
| ToolObserveDisplay (display_ref : string)
| ToolObserveWindow (args : ObserveWindowArgs)
| ToolZoom (args : ZoomArgs)
| ToolPerformAction (args : PerformActionArgs)
| ToolFocusWindow (args : GuardedWindowArgs)
| ToolTerminateApplication (args : GuardedWindowArgs)
| ToolClickNormalized (args : NormalizedClickArgs)
| ToolClickViewNormalized (args : ViewClickArgs)
| ToolTypeText (args : GuardedWindowArgs) (text : string)
| ToolPressKeys (args : GuardedWindowArgs) (keys : list string)
| ToolScroll (args : GuardedScrollArgs)
| ToolDragNormalized (args : NormalizedDragArgs)
| ToolInvokeElement (args : GuardedWindowArgs) (element_ref : string)
| ToolSetElementValue (args : GuardedWindowArgs) (element_ref value : string)
| ToolSetRangeValue (args : GuardedWindowArgs) (element_ref : string) (value : f64)
| ToolReconcileMutation (args : ReconcileMutationArgs)
| ToolVerifyState (args : VerifyStateArgs).

(** The serializations the tools use. *)
Class McpSerde := {
  #[global] serde_error :: Serialize CuaError;
  #[global] serde_capabilities :: Serialize DriverCapabilities;
  #[global] serde_permissions :: Serialize PermissionStatus;
  #[global] serde_mode :: Serialize PermissionMode;
  #[global] serde_strings :: Serialize (list string);
  #[global] serde_actions :: Serialize (list ActionKind);
  #[global] serde_profile :: Serialize ToolProfile;
  #[global] serde_provider :: Serialize AuthorityGrantMetadata;
  #[global] serde_clipboard :: Serialize ClipboardSnapshot;
  #[global] serde_clipboard_write :: Serialize ClipboardWriteOutput;
  #[global] serde_apps :: Serialize (list ApplicationSummary);
  #[global] serde_launchable :: Serialize (list LaunchableApplication);
  #[global] serde_launch :: Serialize ApplicationLaunchOutput;
  #[global] serde_windows :: Serialize (list WindowSummary);
  #[global] serde_displays :: Serialize (list DisplaySummary);
  #[global] serde_display_observation :: Serialize DisplayObservation;
  #[global] serde_window_observation :: Serialize WindowObservation;
  #[global] serde_action :: Serialize ActionOutput;
  #[global] serde_reconciliation :: Serialize MutationReconciliation;
  #[global] serde_verification :: Serialize VerificationOutput;
}.

Section Tools.
Context {D : Type} `{!McpHost D, !HashOrder, !UuidSource, !McpSerde}.
Context (value_text : Value -> string) (base64_encode : list Z -> string) (png : PngCodec) (m : NexusCuaMcp).

#[local] Abbreviation policy := (policy_of m).

(** A value inside [json!], which panics when it does not serialize. *)
Definition json_of {A} `{!Serialize A} (a : A) : T D Value := fun w =>
  match to_value a with Ok v => (w, [], Gives v) | Err _ => (w, [], Panics) end.

Definition denied (message recovery : string) : CallToolResult := adapter_tool_error "capability_denied" message false (Some recovery).

Definition invalid_request (message : string) : CallToolResult := adapter_tool_error "invalid_request" message false (Some "fix_request"%string).

Definition stale_image (message : string) : CallToolResult := adapter_tool_error "stale_observation" message true (Some "observe_window"%string).

(** [if !allowed { return Ok(error) }]. *)
Definition require (allowed : bool) (error : CallToolResult) : T D unit := if allowed then give tt else answer error.

(** * Reading tools *)

(** The ["session"] part of the status. *)
Definition status_session (active : option ActiveSession) : T D Value :=
  do! mode := json_of (ap_mode policy) in
  do! application_ids := json_of (ap_application_ids policy) in
  do! allowed_actions := json_of (ap_allowed_actions policy) in
  do! profile := json_of (mcp_tool_profile m) in
  give (JObject
    [("mode", mode); ("application_ids", application_ids); ("allowed_actions", allowed_actions);
     ("allow_foreground_input", JBool (ap_allow_foreground_input policy));
     ("restore_foreground_after_input", JBool (ap_restore_foreground_after_input policy));
     ("allow_display_capture", JBool (ap_allow_display_capture policy));
     ("allow_clipboard_read", JBool (ap_allow_clipboard_read policy));
     ("allow_clipboard_write", JBool (ap_allow_clipboard_write policy));
     ("allow_application_launch", JBool (ap_allow_application_launch policy));
     ("allow_application_launch_activation", JBool (ap_allow_application_launch_activation policy));
     ("tool_profile", profile); ("active", JBool (match active with Some _ => true | None => false end));
     ("expires_at", json_option (as_expires_at <$> active))]%string).

Definition get_status : T D CallToolResult :=
  do! capabilities := tool_execute m GetCapabilities in
  match capabilities with
  | RCapabilities capabilities =>
      do! permissions := tool_execute m GetPermissionStatus in
      match permissions with
      | RPermissionStatus permissions =>
          await_lock ;>
          do! active := tread mw_session in
          do! capabilities := json_of capabilities in
          do! permissions := json_of permissions in
          do! session := status_session active in
          do! provider := match cx_provider (mcp_authority m) with Some p => json_of p | None => give JNull end in
          give (structured_result value_text (JObject
            [("capabilities", capabilities); ("permissions", permissions);
             ("runtime_policy", JObject [("managed_sha256", json_option (managed_sha256 (mcp_policy_summary m)));
                                         ("user_sha256", json_option (user_sha256 (mcp_policy_summary m)))]);
             ("session", session); ("authority_provider", provider);
             ("authority_source", JString (match cx_provider (mcp_authority m) with
                                           | Some _ => "authenticated_provider"
                                           | None => "unsigned_development_fixture"
                                           end))]%string))
      | _ => fail_with unexpected_result
      end
  | _ => fail_with unexpected_result
  end.

Definition read_clipboard_tool : T D CallToolResult :=
  require (ap_allow_clipboard_read policy) (denied "host authority does not allow clipboard reads" "request_clipboard_read_authority") ;>
  await_lock ;>
  do! id := session_id in
  do! result := tool_execute m (ReadClipboard id) in
  match result with
  | RClipboardRead snapshot => try_mcp (structured value_text snapshot)
  | _ => fail_with unexpected_result
  end.

Definition write_clipboard_tool (args : WriteClipboardArgs) : T D CallToolResult :=
  require (ap_allow_clipboard_write policy) (denied "host authority does not allow clipboard replacement" "request_clipboard_write_authority") ;>
  await_lock ;>
  do! id := session_id in
  do! result := execute_mutation m (wca_request_id args)
    (WriteClipboard {| wc_session_id := id; wc_clipboard_ref := wca_clipboard_ref args; wc_text := wca_text args |}) in
  match result with
  | RClipboardWritten output => try_mcp (mutation_structured value_text (wca_request_id args) output)
  | _ => fail_with unexpected_result
  end.

Definition list_apps_tool : T D CallToolResult :=
  await_lock ;>
  do! id := session_id in
  do! result := tool_execute m (ListApps id) in
  match result with
  | RApps apps => try_mcp (structured value_text apps)
  | _ => fail_with unexpected_result
  end.

Definition incomplete_launch_discovery : CallToolResult :=
  adapter_tool_error "busy" "installed application discovery was incomplete" true (Some "retry_installed_application_discovery"%string).

(** The installed applications of a complete discovery. *)
Definition discover_launchable : T D (list LaunchableApplication) :=
  do! result := tool_execute m DiscoverLaunchableApplications in
  match result with
  | RLaunchableApplicationsDiscovered discovered =>
      require (dlo_complete discovered) incomplete_launch_discovery ;>
      give (dlo_applications discovered)
  | _ => fail_with unexpected_result
  end.

Definition list_launchable_apps_tool : T D CallToolResult :=
  require (ap_allow_application_launch policy) (denied "host authority does not allow application launch" "request_launch_authority") ;>
  do! applications := discover_launchable in
  try_mcp (structured value_text
    (List.filter (fun a => existsb (str_eqb (la_application_id a)) (ap_application_ids policy)) applications)).

Definition launch_application_tool (args : LaunchApplicationArgs) : T D CallToolResult :=
  require (ap_allow_application_launch policy && existsb (str_eqb (laa_application_id args)) (ap_application_ids policy))
    (denied "application identity is outside host launch authority" "request_launch_authority") ;>
  await_lock ;>
  do! applications := discover_launchable in
  match List.filter (fun a => str_eqb (la_application_id a) (laa_application_id args)) applications with
  | [] => answer (adapter_tool_error "target_unavailable" "authorized installed application identity is unavailable" true
                    (Some "list_launchable_apps"%string))
  | _ :: _ :: _ => answer (adapter_tool_error "invalid_request"
                    "installed application identity resolves to multiple native registrations" false
                    (Some "narrow_host_application_identity"%string))
  | [application] =>
      do! result := execute_mutation m (laa_request_id args)
        (LaunchApplication {| li_launch_ref := la_launch_ref application;
                              li_allow_foreground_activation := ap_allow_application_launch_activation policy |}) in
      match result with
      | RApplicationLaunched output =>
          do! rebuilt := succeeds (rebuild_session m) in
          if rebuilt then try_mcp (mutation_structured value_text (laa_request_id args) output)
          else answer (adapter_indeterminate_tool_error "session_refresh_failed"
                 "application launched but MCP could not bind a fresh session to its process generation" (Some "list_apps"%string))
      | _ => fail_with unexpected_result
      end
  end.

Definition list_windows_tool (app_ref : option string) : T D CallToolResult :=
  await_lock ;>
  do! id := session_id in
  do! result := tool_execute m (ListWindows {| lw_session_id := id; lw_app_ref := app_ref |}) in
  match result with
  | RWindows windows => try_mcp (structured value_text windows)
  | _ => fail_with unexpected_result
  end.

Definition display_denied : CallToolResult :=
  denied "host authority does not allow physical-display capture" "request_display_capture_authority".

Definition list_displays_tool : T D CallToolResult :=
  require (ap_allow_display_capture policy) display_denied ;>
  await_lock ;>
  do! id := session_id in
  do! result := tool_execute m (ListDisplays id) in
  match result with
  | RDisplays displays => try_mcp (structured value_text displays)
  | _ => fail_with unexpected_result
  end.

(** A screenshot with its text, as the content of an answer. *)
Definition image_answer (text : string) (image : option (list Z * string)) (value : Value) : CallToolResult :=
  {| tr_is_error := false;
     tr_content := TextBlock text :: match image with Some (bytes, mime) => [ImageBlock (base64_encode bytes) mime] | None => [] end;
     tr_structured := Some value |}.

Definition observe_display_tool (display_ref : string) : T D CallToolResult :=
  require (ap_allow_display_capture policy) display_denied ;>
  await_lock ;>
  do! id := session_id in
  do! result := tool_execute m (ObserveDisplay {| od_session_id := id; od_display_ref := display_ref |}) in
  match result with
  | RDisplayObserved observation =>
      do! value := try_mcp (public_observation_value observation) in
      let size := sm_pixel_size (sa_mapping (do_screenshot observation)) in
      do! taken := take_artifact_call m (do_screenshot observation) in
      match taken with
      | Err e => answer (cua_tool_error e)
      | Ok bytes =>
          give (image_answer
            ("Observed read-only display " +:+ do_display_ref observation +:+ " at " +:+ do_captured_at observation
             +:+ "; the PNG is exactly " +:+ pretty (ps_width size) +:+ "x" +:+ pretty (ps_height size)
             +:+ " top-left-origin pixels. Select and observe an exact window before any action.")
            (Some (bytes, sa_mime_type (do_screenshot observation))) value)
      end
  | _ => fail_with unexpected_result
  end.

(** The image of an observation, taken and remembered. *)
Definition observed_image (o : WindowObservation) : T D (option (list Z * string)) :=
  match wo_screenshot o with
  | None => give None
  | Some screenshot =>
      do! taken := take_artifact_call m screenshot in
      match taken with
      | Err e => answer (cua_tool_error e)
      | Ok bytes =>
          with_cache (fun c => cache_insert c (wo_observation_id o) (wo_window_ref o) (sa_mapping screenshot) bytes) ;>
          give (Some (bytes, sa_mime_type screenshot))
      end
  end.

Definition observation_summary (o : WindowObservation) : string :=
  "Observed anchor window " +:+ wo_window_ref o +:+ " at " +:+ wo_captured_at o +:+ "; " +:+ pretty (zlen (wo_elements o))
  +:+ " accessibility element(s). Use the screenshot mapping for visual coordinates."
  +:+ match wo_screenshot o with
      | None => ""
      | Some s =>
          " The PNG is exactly " +:+ pretty (ps_width (sm_pixel_size (sa_mapping s))) +:+ "x"
          +:+ pretty (ps_height (sm_pixel_size (sa_mapping s)))
          +:+ " top-left-origin pixels. Prefer click_normalized with x/y in 0..1000 so client-side image resizing cannot change the click target."
      end%string.

Definition observe_window_tool (args : ObserveWindowArgs) : T D CallToolResult :=
  await_lock ;>
  do! id := session_id in
  let input := {| ow_session_id := id; ow_window_ref := owa_window_ref args;
                  ow_include_screenshot := default true (owa_include_screenshot args);
                  ow_accessibility := default AxInteractive (owa_accessibility args) |} in
  do! result := tool_execute m
    (if default false (owa_application_scene args) then ObserveApplicationScene input else ObserveWindow input) in
  match result with
  | RWindowObserved observation =>
      do! value := try_mcp (public_observation_value observation) in
      do! image := observed_image observation in
      give (image_answer (observation_summary observation) image value)
  | _ => fail_with unexpected_result
  end.

(** The view of a region, under a fresh reference; it is drawn under the lock
    here, which nobody can tell from drawing it before. *)
Definition insert_view_call (o : ObservationId) (window_ref : WindowRef) (rect : PixelRect) (size : PixelSize) : T D string :=
  await_lock ;>
  (fun w =>
     let view_ref := "view_" +:+ uuid (mw_drawn w) in
     ({| w with mw_drawn := S (mw_drawn w);
                mw_cache := insert_view (mw_cache w) view_ref
                  {| rv_observation_id := o; rv_window_ref := window_ref; rv_source_rect := rect; rv_source_size := size |} |},
      [], Gives view_ref)).

Definition zoom_tool (args : ZoomArgs) : T D CallToolResult :=
  do! cached := read_cache (fun c => cache_get c (za_observation_id args) (za_window_ref args)) in
  match cached with
  | None => answer (stale_image "zoom requires this MCP process's current screenshot observation")
  | Some image =>
      let source_size := sm_pixel_size (ci_mapping image) in
      match normalized_region (za_left args) (za_top args) (za_right args) (za_bottom args) source_size with
      | None => answer (invalid_request "zoom edges must be within 0..1000 with left < right and top < bottom")
      | Some rect =>
          await_lock ;>
          match crop_png png (ci_bytes image) source_size rect (mcp_max_image_bytes m) with
          | Err e => answer (image_tool_error e)
          | Ok cropped =>
              do! view_ref := insert_view_call (za_observation_id args) (za_window_ref args) rect source_size in
              give (image_answer
                ("Zoom view " +:+ view_ref +:+ " is exactly " +:+ pretty (pr_width rect) +:+ "x" +:+ pretty (pr_height rect)
                 +:+ " pixels. Use click_view_normalized with top-left x/y in 0..1000 to act inside this crop.")
                (Some (cropped, "image/png"%string))
                (JObject
                  [("view_ref", JString view_ref); ("observation_id", JString (za_observation_id args));
                   ("window_ref", JString (za_window_ref args));
                   ("source_pixel_bounds", JObject [("x", JNumber (pr_x rect)); ("y", JNumber (pr_y rect));
                                                    ("width", JNumber (pr_width rect)); ("height", JNumber (pr_height rect))]);
                   ("pixel_size", JObject [("width", JNumber (pr_width rect)); ("height", JNumber (pr_height rect))])]%string))
          end
      end
  end.

(** * Mutating tools *)

(** The screenshot bytes of an action's observation: remembered ones, when the
    answer is a replay, or the artifact. *)
Definition action_image_bytes (o : WindowObservation) (window_ref : WindowRef) (screenshot : ScreenshotArtifact)
    : T D (Result (list Z) CuaError) :=
  await_lock ;>
  do! cached := tread (fun w => cache_get (mw_cache w) (wo_observation_id o) window_ref) in
  tmodify (fun w => {| w with mw_cache := invalidate_window (mw_cache w) window_ref |}) ;>
  match cached with
  | Some image => give (Ok (ci_bytes image))
  | None => take_artifact_call m screenshot
  end.

(** [action_result]. *)
Definition action_result (request_id : RequestId) (window_ref : WindowRef) (output : ActionOutput) : T D CallToolResult :=
  do! (output, image) :=
    match ao_observation output with
    | Some o =>
        match wo_screenshot o with
        | Some screenshot =>
            do! taken := action_image_bytes o window_ref screenshot in
            match taken with
            | Ok bytes =>
                with_cache (fun c => cache_insert c (wo_observation_id o) window_ref (sa_mapping screenshot) bytes) ;>
                give (output, Some (ImageBlock (base64_encode bytes) (sa_mime_type screenshot)))
            | Err e =>
                give ({| output with ao_observation := Some {| o with wo_screenshot := None |}; ao_observation_error := Some e |}, None)
            end
        | None => with_cache (fun c => invalidate_window c window_ref) ;> give (output, None)
        end
    | None => with_cache (fun c => invalidate_window c window_ref) ;> give (output, None)
    end in
  do! result := try_mcp (mutation_structured value_text request_id output) in
  give match image with
       | Some block => {| result with tr_content := tr_content result ++ [block] |}
       | None => result
       end.

(** [dispatch_action_observed]. *)
Definition dispatch_action_observed (request_id : RequestId) (window_ref : WindowRef) (observation_id : ObservationId)
    (action : Action) (observe_after : option ObserveAfterOptions) : T D CallToolResult :=
  await_lock ;>
  do! id := session_id in
  do! result := execute_mutation m request_id
    (PerformAction {| pa_observe_after := observe_after; pa_session_id := id; pa_window_ref := window_ref;
                      pa_observation_id := observation_id; pa_action := action |}) in
  match result with
  | RActionPerformed output => action_result request_id window_ref output
  | _ => fail_with unexpected_result
  end.

Definition dispatch_action_tool (request_id : RequestId) (window_ref : WindowRef) (observation_id : ObservationId) (action : Action)
    : T D CallToolResult :=
  dispatch_action_observed request_id window_ref observation_id action None.

Definition guarded (args : GuardedWindowArgs) (action : Action) : T D CallToolResult :=
  dispatch_action_tool (gwa_request_id args) (gwa_window_ref args) (gwa_observation_id args) action.

(** [perform_action]. *)
Definition perform_action_tool (args : PerformActionArgs) : T D CallToolResult :=
  dispatch_action_observed (paa_request_id args) (paa_window_ref args) (paa_observation_id args) (paa_action args)
    (paa_observe_after args).

(** The tools that dispatch one action; the arguments they share are a
    [GuardedWindowArgs]. *)
Definition focus_window_tool (args : GuardedWindowArgs) : T D CallToolResult := guarded args FocusWindow.
Definition terminate_application_tool (args : GuardedWindowArgs) : T D CallToolResult := guarded args TerminateApplication.
Definition type_text_tool (args : GuardedWindowArgs) (text : string) : T D CallToolResult := guarded args (TypeText text).
Definition press_keys_tool (args : GuardedWindowArgs) (keys : list string) : T D CallToolResult := guarded args (PressKeys keys).
Definition invoke_element_tool (args : GuardedWindowArgs) (element_ref : ElementRef) : T D CallToolResult := guarded args (InvokeElement element_ref).
Definition set_element_value_tool (args : GuardedWindowArgs) (element_ref : ElementRef) (value : string) : T D CallToolResult := guarded args (SetValue element_ref value).
Definition set_range_value_tool (args : GuardedWindowArgs) (element_ref : ElementRef) (value : f64) : T D CallToolResult := guarded args (SetRangeValue element_ref value).

Definition click_count_ok (count : Z) : bool := (1 <=? count) && (count <=? 3).

Definition click_rejected : CallToolResult :=
  invalid_request "normalized x/y must be between 0 and 1000 and count must be between 1 and 3".

Definition normalized_point (x y : Z) : NormalizedPoint := {| np_x := f64_of_Z x; np_y := f64_of_Z y |}.

Definition click_normalized_tool (args : NormalizedClickArgs) : T D CallToolResult :=
  let count := default 1 (nca_count args) in
  require (negb ((NORMALIZED_COORDINATE_MAX <? nca_x args) || (NORMALIZED_COORDINATE_MAX <? nca_y args) || negb (click_count_ok count)))
    click_rejected ;>
  do! image := read_cache (fun c => cache_get c (nca_observation_id args) (nca_window_ref args)) in
  match image with
  | None => answer (stale_image "normalized click requires this MCP process's current screenshot observation")
  | Some _ =>
      dispatch_action_tool (nca_request_id args) (nca_window_ref args) (nca_observation_id args)
        (ClickPoint (normalized_point (nca_x args) (nca_y args)) (default Left (nca_button args)) count
           (default Prefer_Foreground (nca_delivery args)))
  end.

Definition click_view_normalized_tool (args : ViewClickArgs) : T D CallToolResult :=
  let count := default 1 (vca_count args) in
  require (negb ((NORMALIZED_COORDINATE_MAX <? vca_x args) || (NORMALIZED_COORDINATE_MAX <? vca_y args) || negb (click_count_ok count)))
    click_rejected ;>
  do! view := read_cache (fun c => get_view c (vca_view_ref args)) in
  match view with
  | None => answer (stale_image "zoom view is expired or was invalidated by a newer observation")
  | Some view =>
      match from_pixel (normalized_view_point (vca_x args) (vca_y args) (rv_source_rect view)) (rv_source_size view) with
      | None => fail_with (McpInvalidParams "invalid zoom mapping")
      | Some point =>
          dispatch_action_tool (vca_request_id args) (rv_window_ref view) (rv_observation_id view)
            (ClickPoint point (default Left (vca_button args)) count (default Prefer_Foreground (vca_delivery args)))
      end
  end.

Definition scroll_tool (args : GuardedScrollArgs) : T D CallToolResult :=
  guarded (gsa_guard args) (Scroll (normalized_point (gsa_x args) (gsa_y args)) (gsa_delta_x args) (gsa_delta_y args)).

Definition drag_duration_ok (d : option Z) : bool :=
  match d with Some v => (1 <=? v) && (v <=? 10000) | None => true end.

Definition drag_normalized_tool (args : NormalizedDragArgs) : T D CallToolResult :=
  require (negb ((NORMALIZED_COORDINATE_MAX <? nda_from_x args) || (NORMALIZED_COORDINATE_MAX <? nda_from_y args)
                 || (NORMALIZED_COORDINATE_MAX <? nda_to_x args) || (NORMALIZED_COORDINATE_MAX <? nda_to_y args)
                 || negb (drag_duration_ok (nda_duration_ms args))))
    (invalid_request "normalized coordinates must be between 0 and 1000 and duration_ms between 1 and 10000") ;>
  do! image := read_cache (fun c => cache_get c (nda_observation_id args) (nda_window_ref args)) in
  match image with
  | None => answer (stale_image "normalized drag requires this MCP process's current screenshot observation")
  | Some _ =>
      dispatch_action_tool (nda_request_id args) (nda_window_ref args) (nda_observation_id args)
        (Drag (normalized_point (nda_from_x args) (nda_from_y args)) (normalized_point (nda_to_x args) (nda_to_y args))
           (default 500 (nda_duration_ms args)))
  end.

Definition reconcile_mutation_tool (args : ReconcileMutationArgs) : T D CallToolResult :=
  let wait_ms := default 0 (rma_wait_ms args) in
  require (valid_adapter_request_id (rma_request_id args) && accepts_request_id (mcp_authority m) (rma_request_id args)
           && (wait_ms <=? MUTATION_MAX_WAIT_MS))
    (invalid_request "request_id must be normalized ASCII within 128 bytes, use the provider-issued namespace, and wait_ms must not exceed 120000") ;>
  do! result := service (CallReconcile (rma_request_id args) wait_ms) (mcp_reconcile (rma_request_id args) wait_ms) in
  match result with
  | Ok reconciliation => try_mcp (structured value_text reconciliation)
  | Err e => answer (cua_tool_error_for_request (rma_request_id args) e)
  end.

Definition verify_state_tool (args : VerifyStateArgs) : T D CallToolResult :=
  await_lock ;>
  do! id := session_id in
  do! result := tool_execute m
    (VerifyState {| vs_session_id := id; vs_window_ref := vsa_window_ref args; vs_predicate := vsa_predicate args |}) in
  match result with
  | RStateVerified output => try_mcp (structured value_text output)
  | _ => fail_with unexpected_result
  end.

(** * The router *)

(** [router_for_profile]: whether a tool is routed. *)
Definition routed (profile : ToolProfile) (t : ToolCall) : bool :=
  match profile, t with ProfileVision, ToolPerformAction _ => false | _, _ => true end.

(** The handler of a routed call. *)
Definition run_tool (t : ToolCall) : T D CallToolResult :=
  match t with
  | ToolGetStatus => get_status
  | ToolReadClipboard => read_clipboard_tool
  | ToolWriteClipboard args => write_clipboard_tool args
  | ToolListApps => list_apps_tool
  | ToolListLaunchableApps => list_launchable_apps_tool
  | ToolLaunchApplication args => launch_application_tool args
  | ToolListWindows app_ref => list_windows_tool app_ref
  | ToolListDisplays => list_displays_tool
  | ToolObserveDisplay display_ref => observe_display_tool display_ref
  | ToolObserveWindow args => observe_window_tool args
  | ToolZoom args => zoom_tool args
  | ToolPerformAction args => perform_action_tool args
  | ToolFocusWindow args => focus_window_tool args
  | ToolTerminateApplication args => terminate_application_tool args
  | ToolClickNormalized args => click_normalized_tool args
  | ToolClickViewNormalized args => click_view_normalized_tool args
  | ToolTypeText args text => type_text_tool args text
  | ToolPressKeys args keys => press_keys_tool args keys
  | ToolScroll args => scroll_tool args
  | ToolDragNormalized args => drag_normalized_tool args
  | ToolInvokeElement args element_ref => invoke_element_tool args element_ref
  | ToolSetElementValue args element_ref value => set_element_value_tool args element_ref value
  | ToolSetRangeValue args element_ref value => set_range_value_tool args element_ref value
  | ToolReconcileMutation args => reconcile_mutation_tool args
  | ToolVerifyState args => verify_state_tool args
  end.

(** [None] for a call without a route, which the server library refuses. *)
Definition call_tool (t : ToolCall) : option (T D CallToolResult) :=
  if routed (mcp_tool_profile m) t then Some (run_tool t) else None.

End Tools.
