(* ===== verification/ToolProps.v ===== *)
(** What the tools guarantee, over any lawful host: [tspec] relates a tool
    computation to the adapter's invariant, the calls it may make and the way
    it may end. *)

From S2P Require Import Prelude Floats Geometry Text Protocol Errors Policy Validation Driver Session Artifacts Runtime ResultTypes Dispatcher Authority ImageCache Adapter Tools.
From stdpp Require Import pretty.
#[local] Open Scope Z_scope.

(** The adapter's test of request ids is the dispatcher's. *)
Lemma bytes_all_any f g s : (forall b, g b = negb (f b)) -> bytes_all f s = negb (bytes_any g s).
Proof.
  intros Hg. induction s as [|c s IH]; [done|]. cbn. rewrite IH, Hg. by destruct (f (byte_of c)), (bytes_any g s).
Qed.

Lemma valid_adapter_request_id_eq s : valid_adapter_request_id s = valid_request_id s.
Proof.
  unfold valid_adapter_request_id, valid_request_id, MAX_REQUEST_ID_BYTES. f_equal. apply bytes_all_any.
  done.
Qed.

(** * Serialization *)

Definition serializes (A : Type) `{!Serialize A} : Prop := forall a : A, exists v, to_value a = Ok v.
Definition serializes_object (A : Type) `{!Serialize A} : Prop := forall a : A, exists fields, to_value a = Ok (JObject fields).

(** The derived serializations of the protocol's types do not fail, and the
    mutation outputs are structs. *)
Record TotalSerde `{!McpSerde} : Prop := {
  ts_capabilities : serializes DriverCapabilities;
  ts_permissions : serializes PermissionStatus;
  ts_mode : serializes PermissionMode;
  ts_strings : serializes (list string);
  ts_actions : serializes (list ActionKind);
  ts_profile : serializes ToolProfile;
  ts_provider : serializes AuthorityGrantMetadata;
  ts_clipboard : serializes ClipboardSnapshot;
  ts_clipboard_write : serializes_object ClipboardWriteOutput;
  ts_apps : serializes (list ApplicationSummary);
  ts_launchable : serializes (list LaunchableApplication);
  ts_launch : serializes_object ApplicationLaunchOutput;
  ts_windows : serializes (list WindowSummary);
  ts_displays : serializes (list DisplaySummary);
  ts_display_observation : serializes DisplayObservation;
  ts_window_observation : serializes WindowObservation;
  ts_action : serializes_object ActionOutput;
  ts_reconciliation : serializes MutationReconciliation;
  ts_verification : serializes VerificationOutput;
}.

Lemma image_total_elem k image l : (k, image) ∈ l -> zlen (ci_bytes image) <= image_total l.
Proof.
  intros Hin. induction l as [|p l IH]; [by apply elem_of_nil in Hin|]. unfold image_total in *. cbn.
  pose proof (image_total_nonneg l) as H1. unfold image_total in H1. pose proof (zlen_nonneg (ci_bytes p.2)).
  apply elem_of_cons in Hin as [<-|Hin]; [cbn; lia|]. specialize (IH Hin). lia.
Qed.

(** What [normalized_region] selects is in the image. *)
Lemma normalized_region_in left top right bottom s r : size_ok s -> 0 <= left -> 0 <= top ->
  normalized_region left top right bottom s = Some r -> rect_in r s.
Proof.
  intros Hs Hl Ht Hr. unfold normalized_region in Hr. destruct (_ || _) eqn:E; [done|]. fold (normalized_region left top right bottom s) in Hr.
  zbool. unfold NORMALIZED_COORDINATE_MAX in *.
  destruct (normalized_region_some left top right bottom s) as (r' & Hr' & Hin & _); try done; try lia.
  unfold normalized_region in Hr'. destruct (_ || _) in Hr'; [done|]. by rewrite Hr in Hr'; injection Hr' as ->.
Qed.

(** * The invariant and the host *)

Section Props.
Context {D : Type} `{!McpHost D, !HashOrder, !UuidSource, !McpSerde}.
Context (value_text : Value -> string) (base64_encode : list Z -> string) (png : PngCodec) (m : NexusCuaMcp).
(** The window an observation is of. *)
Context (owner : ObservationId -> WindowRef).
Implicit Types w : McpWorld D.

Definition view_name (n : nat) : string := "view_" +:+ uuid n.

Record mcp_ok w : Prop := {
  mk_cache : cache_ok (mw_cache w);
  mk_images : forall id image, ic_entries (mw_cache w) !! id = Some image ->
    ci_window_ref image = owner id /\ size_ok (sm_pixel_size (ci_mapping image));
  mk_views : forall r v, ic_views (mw_cache w) !! r = Some v ->
    (exists i, (i < mw_drawn w)%nat /\ r = view_name i) /\ size_ok (rv_source_size v) /\ rect_in (rv_source_rect v) (rv_source_size v);
}.

(** An observation as the runtime makes it: an id of its own for the window,
    and a screenshot of 32-bit size. *)
Definition observation_known (window : WindowRef) (o : WindowObservation) : Prop :=
  owner (wo_observation_id o) = window /\
  forall s, wo_screenshot o = Some s -> size_ok (sm_pixel_size (sa_mapping s)).

(** What the adapter relies on in the result of a command. *)
Definition result_known (c : Command) (r : CommandResult) : Prop :=
  result_matches c r = true /\
  match c, r with
  | (ObserveWindow _ | ObserveApplicationScene _), RWindowObserved o => observation_known (wo_window_ref o) o
  | PerformAction input, RActionPerformed output =>
      forall o, ao_observation output = Some o -> observation_known (pa_window_ref input) o
  | _, _ => True
  end.

Record LawfulMcp : Prop := {
  lm_await : forall w, mcp_ok w -> mcp_ok (mcp_await w);
  lm_execute : forall c w, mcp_ok w -> mcp_ok (mcp_execute c w).1 /\
    forall r, (mcp_execute c w).2 = Ok r -> result_known c r;
  lm_dispatch : forall q w, mcp_ok w -> mcp_ok (mcp_dispatch q w).1 /\
    forall r, rs_outcome (mcp_dispatch q w).2 = Success r -> result_known (re_command q) r;
  lm_reconcile : forall id wait w, mcp_ok w -> mcp_ok (mcp_reconcile id wait w).1;
  lm_take : forall a max w, mcp_ok w -> mcp_ok (mcp_take_artifact a max w).1 /\
    forall bytes, (mcp_take_artifact a max w).2 = Ok bytes -> zlen bytes <= max;
  lm_validate : forall p w, mcp_ok w -> mcp_ok (mcp_validate p w).1;
}.

(** ** The calls of the tools *)

Definition command_permitted (c : Command) : Prop :=
  match c with
  | ReadClipboard _ => ap_allow_clipboard_read (policy_of m) = true
  | ListDisplays _ | ObserveDisplay _ => ap_allow_display_capture (policy_of m) = true
  | DiscoverLaunchableApplications => ap_allow_application_launch (policy_of m) = true
  | OpenSession manifest =>
      ap_allow_application_launch (policy_of m) = true /\
      exists refs, refs <> [] /\ manifest = authority_manifest (policy_of m) refs
  | LaunchApplication _ | WriteClipboard _ | PerformAction _ | ReconcileMutation _ => False
  | _ => True
  end.

Definition mutation_permitted (c : Command) : Prop :=
  match c with
  | PerformAction _ => True
  | WriteClipboard _ => ap_allow_clipboard_write (policy_of m) = true
  | LaunchApplication input =>
      ap_allow_application_launch (policy_of m) = true /\
      li_allow_foreground_activation input = ap_allow_application_launch_activation (policy_of m) /\
      exists a, li_launch_ref input = la_launch_ref a /\ la_application_id a ∈ ap_application_ids (policy_of m)
  | _ => False
  end.

Definition id_permitted (id : RequestId) : Prop := valid_request_id id = true /\ accepts_request_id (mcp_authority m) id = true.

Definition permitted (c : McpCall) : Prop :=
  match c with
  | CallExecute command => command_permitted command
  | CallMutation q =>
      q = mutation_envelope m (re_request_id q) (re_command q) /\ id_permitted (re_request_id q) /\ mutation_permitted (re_command q)
  | CallReconcile id wait => id_permitted id /\ wait <= MUTATION_MAX_WAIT_MS
  | CallTakeArtifact _ max => max = mcp_max_image_bytes m
  end.

Definition tspec {A} (c : T D A) (Q : A -> Prop) : Prop := forall w, mcp_ok w ->
  let '(w', t, r) := c w in
  mcp_ok w' /\ Forall (fun x => permitted x.2) t /\
  match r with Gives a => Q a | Answers _ => True | Fails _ | Panics => False end.

Definition any {A} (a : A) : Prop := True.

Lemma tspec_bind {A B} (c : T D A) (k : A -> T D B) P Q : tspec c P -> (forall a, P a -> tspec (k a) Q) -> tspec (tbind c k) Q.
Proof.
  intros Hc Hk w Hw. specialize (Hc w Hw). unfold tbind. destruct (c w) as [[w1 t1] [a|r|e|]]; destruct Hc as (Hw1 & Ht & Hr); try done.
  specialize (Hk a Hr w1 Hw1). destruct (k a w1) as [[w2 t2] r]. destruct Hk as (? & ? & ?). split_and!; try done. by apply Forall_app.
Qed.

Lemma tspec_then {A B} (c : T D A) (k : T D B) Q : tspec c any -> tspec k Q -> tspec (tbind c (fun _ => k)) Q.
Proof. intros Hc Hk. by eapply tspec_bind. Qed.

Lemma tspec_give {A} (a : A) (Q : A -> Prop) : Q a -> tspec (give a) Q.
Proof. by intros Ha w Hw. Qed.
Lemma tspec_answer {A} r (Q : A -> Prop) : tspec (answer r) Q.
Proof. by intros w Hw. Qed.
Lemma tspec_read {A} (f : McpWorld D -> A) : tspec (tread f) (fun a => exists w, mcp_ok w /\ a = f w).
Proof. intros w Hw. cbn. split_and!; try done. by exists w. Qed.
Lemma tspec_modify f : (forall w, mcp_ok w -> mcp_ok (f w)) -> tspec (tmodify f) any.
Proof. intros Hf w Hw. cbn. split; [auto | by split]. Qed.
Lemma tspec_service {A} c (f : McpWorld D -> McpWorld D * A) (Q : A -> Prop) : permitted c ->
  (forall w, mcp_ok w -> mcp_ok (f w).1 /\ Q (f w).2) -> tspec (service c f) Q.
Proof. intros Hc Hf w Hw. specialize (Hf w Hw). unfold service. destruct (f w) as [w' a]. destruct Hf. split_and!; [done | by constructor | done]. Qed.
Lemma tspec_weaken {A} (c : T D A) (P Q : A -> Prop) : tspec c P -> (forall a, P a -> Q a) -> tspec c Q.
Proof.
  intros Hc HQ w Hw. specialize (Hc w Hw). destruct (c w) as [[? ?] []]; naive_solver.
Qed.
Lemma tspec_succeeds {A} (c : T D A) (P : A -> Prop) : tspec c P -> tspec (succeeds c) any.
Proof. intros Hc w Hw. specialize (Hc w Hw). unfold succeeds. destruct (c w) as [[? ?] []]; naive_solver. Qed.
Lemma tspec_require b r : tspec (require b r) (fun _ => b = true).
Proof. unfold require. destruct b; [by apply tspec_give | apply tspec_answer]. Qed.

(** ** The adapter's methods *)

Hypothesis lawful : LawfulMcp.
Hypothesis image_bound : mcp_max_image_bytes m <= MAX_CACHED_IMAGE_BYTES.

Lemma tspec_await : tspec await_lock any.
Proof. apply tspec_modify, lawful. Qed.

Lemma mcp_ok_cache w c : mcp_ok w -> cache_ok c ->
  (forall id image, ic_entries c !! id = Some image -> ci_window_ref image = owner id /\ size_ok (sm_pixel_size (ci_mapping image))) ->
  (forall r v, ic_views c !! r = Some v -> ic_views (mw_cache w) !! r = Some v) ->
  mcp_ok {| w with mw_cache := c |}.
Proof. intros [Hc Hi Hv] Hok Himg Hviews. constructor; cbn; [done | done|]. intros r v Hr. by apply Hv, Hviews. Qed.

Lemma clear_keeps w : mcp_ok w -> mcp_ok {| w with mw_cache := cache_clear (mw_cache w) |}.
Proof.
  intros Hw. apply mcp_ok_cache; [done | apply cache_default_ok | |]; cbn; intros ? ? Hx; by rewrite lookup_empty in Hx.
Qed.

Lemma queue_entries {A} (e : gmap string A) o k a : queue_ok e o -> e !! k = Some a <-> (k, a) ∈ queue_list e o.
Proof. intros Hq. by rewrite queue_list_elem. Qed.

Lemma invalidate_keeps w window : mcp_ok w -> mcp_ok {| w with mw_cache := invalidate_window (mw_cache w) window |}.
Proof.
  intros Hw. destruct (invalidate_window_ok (mw_cache w) window (mk_cache _ Hw)) as (Hok & _ & _ & Hsub).
  apply mcp_ok_cache; [done | done | |].
  - intros id image Hx. by eapply mk_images, lookup_weaken.
  - intros r v Hx. cbn in Hx. by apply map_lookup_filter_Some in Hx as [? _].
Qed.

Lemma insert_keeps w id window mapping bytes : mcp_ok w -> owner id = window -> size_ok (sm_pixel_size mapping) ->
  zlen bytes <= MAX_CACHED_IMAGE_BYTES -> mcp_ok {| w with mw_cache := cache_insert (mw_cache w) id window mapping bytes |}.
Proof.
  intros Hw Hid Hsize Hlen. assert (Hfresh : fresh_for (mw_cache w) id window) by (intros i Hi; by rewrite <- Hid; apply (mk_images _ Hw)).
  destruct (cache_insert_ok (mw_cache w) id window mapping bytes (mk_cache _ Hw) Hfresh Hlen) as (Hok & Hlist & Hviews).
  set (c := cache_insert _ _ _ _ _) in *.
  apply mcp_ok_cache; [done | done | |].
  - intros k image Hx. apply (queue_entries _ _ _ _ (co_entries _ Hok)) in Hx. fold (cache_list c) in Hx. rewrite Hlist in Hx.
    apply elem_of_app in Hx as [Hx|[= -> ->]%list_elem_of_singleton]; [|done].
    destruct (with_room_suffix (zlen bytes) (filter (fun p => ci_window_ref p.2 <> window) (cache_list (mw_cache w)))) as [k0 Hk].
    assert (Hin : (k, image) ∈ filter (fun p => ci_window_ref p.2 <> window) (cache_list (mw_cache w))) by (rewrite Hk, elem_of_app; by right).
    apply list_elem_of_filter in Hin as [_ Hin]. apply (mk_images _ Hw). by apply (queue_entries _ _ _ _ (co_entries _ (mk_cache _ Hw))).
  - intros r v Hx. apply (queue_entries _ _ _ _ (co_views _ Hok)) in Hx. fold (view_list c) in Hx. rewrite Hviews in Hx.
    apply list_elem_of_filter in Hx as [_ Hx]. by apply (queue_entries _ _ _ _ (co_views _ (mk_cache _ Hw))).
Qed.

Lemma tspec_with_cache f : (forall w, mcp_ok w -> mcp_ok {| w with mw_cache := f (mw_cache w) |}) -> tspec (with_cache f) any.
Proof. intros Hf. apply tspec_then; [apply tspec_await | by apply tspec_modify]. Qed.

Lemma tspec_read_cache {A} (f : ImageMappingCache -> A) : tspec (read_cache f) (fun a => exists w, mcp_ok w /\ a = f (mw_cache w)).
Proof. apply tspec_then; [apply tspec_await | apply tspec_read]. Qed.

Lemma tspec_check_provider : tspec (check_provider m) any.
Proof.
  intros w Hw. unfold check_provider. destruct (cx_provider _) as [p|]; [|done]. destruct (cx_provider_client _); [|done].
  destruct (current_unix_ms _); [|done]. destruct (_ <=? _); [done|]. pose proof (lm_validate lawful p w Hw) as Hv.
  by destruct (mcp_validate p w).
Qed.

Lemma tspec_validate : tspec (validate_authority m) any.
Proof.
  eapply tspec_bind; [apply tspec_read|]. intros ended _. destruct ended; [by apply tspec_give | apply tspec_check_provider].
Qed.

Lemma tspec_runtime_execute c : command_permitted c -> tspec (runtime_execute c) (fun r => forall v, r = Ok v -> result_known c v).
Proof. intros Hc. apply tspec_service; [done|]. intros w Hw. by apply lawful. Qed.

Lemma tspec_invalidate_local : tspec invalidate_local_session any.
Proof.
  apply tspec_then; [apply tspec_await|]. apply tspec_then; [apply tspec_modify; intros w []; by constructor|].
  apply tspec_then; [apply tspec_await | apply tspec_modify, clear_keeps].
Qed.

Lemma tspec_execute c : command_permitted c -> tspec (tool_execute m c) (result_known c).
Proof.
  intros Hc. eapply tspec_bind; [apply tspec_validate|]. intros [[]|e] _; [|apply tspec_answer].
  eapply tspec_bind; [by apply tspec_runtime_execute|]. intros [r|e] Hr; [apply tspec_give; auto|].
  apply tspec_then; [|apply tspec_answer]. case_bool_decide; [apply tspec_invalidate_local | by apply tspec_give].
Qed.

Lemma tspec_mutation id c : mutation_permitted c -> tspec (execute_mutation m id c) (result_known c).
Proof.
  intros Hc. eapply tspec_bind; [apply tspec_validate|]. intros [[]|e] _; [|apply tspec_answer].
  destruct (negb _ || _) eqn:Eid; [apply tspec_answer|]. apply orb_false_iff in Eid as [E1%negb_false_iff E2%negb_false_iff].
  rewrite valid_adapter_request_id_eq in E1.
  eapply tspec_bind; [apply (tspec_service _ _ (fun r => forall v, rs_outcome r = Success v -> result_known c v))|].
  - split; [done|]. by split.
  - intros w Hw. apply (lm_dispatch lawful (mutation_envelope m id c) w Hw).
  - intros response Hr. destruct (rs_outcome response) eqn:Eo; [apply tspec_give; by apply Hr | apply tspec_answer].
Qed.

Lemma tspec_session_id : tspec session_id any.
Proof.
  apply tspec_then; [apply tspec_await|]. eapply tspec_bind; [apply tspec_read|]. intros [s|] _; [by apply tspec_give | apply tspec_answer].
Qed.

Lemma tspec_take a : tspec (take_artifact_call m a) (fun r => forall bytes, r = Ok bytes -> zlen bytes <= mcp_max_image_bytes m).
Proof. apply tspec_service; [done|]. intros w Hw. by apply lawful. Qed.

Lemma tspec_running : tspec (authorized_running_applications m) any.
Proof. eapply tspec_bind; [by apply tspec_runtime_execute|]. intros r _. by apply tspec_give. Qed.

Lemma tspec_open_session refs : ap_allow_application_launch (policy_of m) = true -> refs <> [] -> tspec (open_runtime_session m refs) any.
Proof. intros Hl Hr. eapply tspec_bind; [apply tspec_runtime_execute; split; eauto|]. intros r _. by apply tspec_give. Qed.

Lemma tspec_close_session s : tspec (close_runtime_session s) any.
Proof. apply tspec_then; [eapply tspec_weaken; [by apply tspec_runtime_execute | done] | by apply tspec_give]. Qed.

Lemma tspec_or_tool_error {A} (r : Result A BootstrapError) : tspec (or_tool_error m r) any.
Proof. destruct r; [by apply tspec_give | apply tspec_answer]. Qed.

Lemma tspec_rebuild : ap_allow_application_launch (policy_of m) = true -> tspec (rebuild_session m) any.
Proof.
  intros Hl. eapply tspec_bind; [apply tspec_running|]. intros running _. eapply tspec_bind; [apply tspec_or_tool_error|].
  intros [refs missing] _. case_bool_decide as Hr; [apply tspec_answer|].
  eapply tspec_bind; [by apply tspec_open_session|]. intros opened _. eapply tspec_bind; [apply tspec_or_tool_error|].
  intros replacement _. apply tspec_then; [apply tspec_await|].
  eapply (tspec_bind _ _ any).
  - intros w Hw. unfold install_session. destruct (mw_closed w); (split; [|by split]); [done|]. destruct Hw; by constructor.
  - intros [prior|rejected] _.
    + apply tspec_then; [apply tspec_with_cache, clear_keeps|]. destruct prior; [apply tspec_close_session | by apply tspec_give].
    + apply tspec_then; [apply tspec_close_session | apply tspec_answer].
Qed.

(** ** The tools *)

Hypothesis serde : TotalSerde.

Lemma tspec_structured {A} `{!Serialize A} (a : A) : serializes A -> tspec (try_mcp (structured value_text a)) any.
Proof. intros Hs. unfold structured. destruct (Hs a) as [v ->]. by apply tspec_give. Qed.

Lemma tspec_mutation_structured {A} `{!Serialize A} id (a : A) :
  serializes_object A -> tspec (try_mcp (mutation_structured value_text id a)) any.
Proof.
  intros Hs. unfold mutation_structured. destruct (Hs a) as [fields ->]. unfold remove_private_artifact_path.
  destruct (value_depth _); by apply tspec_give.
Qed.

Lemma tspec_public_value {A} `{!Serialize A} (a : A) : serializes A -> tspec (try_mcp (public_observation_value a)) any.
Proof. intros Hs. unfold public_observation_value. destruct (Hs a) as [v ->]. by apply tspec_give. Qed.

Lemma tspec_json {A} `{!Serialize A} (a : A) : serializes A -> tspec (json_of a) any.
Proof. intros Hs w Hw. unfold json_of. destruct (Hs a) as [v ->]. done. Qed.

Lemma tspec_observed_image o : observation_known (wo_window_ref o) o -> tspec (observed_image m o) any.
Proof.
  intros [Hid Hsize]. unfold observed_image. destruct (wo_screenshot o) as [s|]; [|by apply tspec_give].
  eapply tspec_bind; [apply tspec_take|]. intros [bytes|e] Hb; [|apply tspec_answer].
  apply tspec_then; [|by apply tspec_give]. apply tspec_with_cache. intros w Hw. specialize (Hb bytes eq_refl). apply insert_keeps; auto; lia.
Qed.

Lemma tspec_action_bytes o window s : tspec (action_image_bytes m o window s)
  (fun r => forall bytes, r = Ok bytes -> zlen bytes <= MAX_CACHED_IMAGE_BYTES).
Proof.
  apply tspec_then; [apply tspec_await|]. eapply tspec_bind; [apply tspec_read|]. intros cached (w & Hw & ->).
  apply tspec_then; [apply tspec_modify; intros w' Hw'; by apply invalidate_keeps|].
  destruct (cache_get _ _ _) as [image|] eqn:Eg.
  - apply tspec_give. intros bytes [= <-]. apply (cache_get_iff _ _ _ _ (mk_cache _ Hw)) in Eg as [Hin _].
    etrans; [|apply (co_bytes _ (mk_cache _ Hw))]. rewrite (co_total _ (mk_cache _ Hw)). by eapply image_total_elem.
  - eapply tspec_weaken; [apply tspec_take|]. intros r Hr bytes Hb. specialize (Hr bytes Hb). lia.
Qed.

Lemma tspec_action_result id window output :
  (forall o, ao_observation output = Some o -> observation_known window o) ->
  tspec (action_result value_text base64_encode m id window output) any.
Proof.
  intros Hknown. eapply (tspec_bind _ _ any).
  - destruct (ao_observation output) as [o|]; [destruct (wo_screenshot o) as [s|] eqn:Es|].
    + destruct (Hknown o eq_refl) as [Hid Hsize]. eapply tspec_bind; [apply tspec_action_bytes|].
      intros [bytes|e] Hb; [|by apply tspec_give]. apply tspec_then; [|by apply tspec_give].
      apply tspec_with_cache. intros w Hw. apply insert_keeps; auto.
    + apply tspec_then; [|by apply tspec_give]. apply tspec_with_cache. intros w Hw. by apply invalidate_keeps.
    + apply tspec_then; [|by apply tspec_give]. apply tspec_with_cache. intros w Hw. by apply invalidate_keeps.
  - intros [output' image] _. eapply tspec_bind; [apply tspec_mutation_structured, serde|]. intros r _. by apply tspec_give.
Qed.

(** A tool that takes the operation lock and the session, then runs a command. *)
Ltac in_session := apply tspec_then; [apply tspec_await|]; eapply tspec_bind; [apply tspec_session_id|]; intros ? _.
(** The answer of a command, in its one variant. *)
Ltac expect Hk := let Hm := fresh in let r := fresh "r" in intros r [Hm Hk]; destruct r; try discriminate Hm; clear Hm.

Lemma tspec_dispatch_action id window o action after :
  tspec (dispatch_action_observed value_text base64_encode m id window o action after) any.
Proof.
  in_session. eapply tspec_bind; [by apply tspec_mutation|]. expect Hk. by apply tspec_action_result.
Qed.

Lemma tspec_status : tspec (get_status value_text m) any.
Proof.
  eapply tspec_bind; [by apply tspec_execute|]. expect Hk. eapply tspec_bind; [by apply tspec_execute|]. expect Hk'.
  apply tspec_then; [apply tspec_await|]. eapply tspec_bind; [apply tspec_read|]. intros active _.
  eapply tspec_bind; [apply tspec_json, serde|]. intros ? _. eapply tspec_bind; [apply tspec_json, serde|]. intros ? _.
  eapply (tspec_bind _ _ any).
  - do 4 (eapply tspec_bind; [apply tspec_json, serde|]; intros ? _). by apply tspec_give.
  - intros session _. eapply (tspec_bind _ _ any); [destruct (cx_provider _); [apply tspec_json, serde | by apply tspec_give]|].
    intros provider _. by apply tspec_give.
Qed.

Lemma tspec_discover_launchable : ap_allow_application_launch (policy_of m) = true -> tspec (discover_launchable m) any.
Proof.
  intros Hl. eapply tspec_bind; [by apply tspec_execute|]. expect Hk. eapply tspec_bind; [apply tspec_require|]. intros ? _. by apply tspec_give.
Qed.

Lemma existsb_str_eqb x l : existsb (str_eqb x) l = true <-> x ∈ l.
Proof.
  rewrite existsb_exists. split; [intros (y & Hy & ->%str_eqb_eq); by apply list_elem_of_In|].
  intros Hx. exists x. split; [by apply list_elem_of_In | by apply str_eqb_eq].
Qed.

Lemma tspec_launch args : tspec (launch_application_tool value_text m args) any.
Proof.
  eapply tspec_bind; [apply tspec_require|]. intros _ [Hl Hid%existsb_str_eqb]%andb_true_iff.
  apply tspec_then; [apply tspec_await|]. eapply tspec_bind; [by apply tspec_discover_launchable|]. intros applications _.
  destruct (List.filter _ applications) as [|a [|b rest]] eqn:Ef; [apply tspec_answer| |apply tspec_answer].
  assert (Ha : la_application_id a = laa_application_id args).
  { assert (Hin : In a [a]) by (by left). rewrite <- Ef in Hin. apply filter_In in Hin as [_ Hin]. by apply str_eqb_eq. }
  eapply tspec_bind; [apply tspec_mutation|].
  - split; [done|]. split; [done|]. exists a. split; [done|]. by rewrite Ha.
  - expect Hk. eapply tspec_bind; [eapply tspec_succeeds; by apply tspec_rebuild|]. intros [|] _; [|apply tspec_answer].
    apply tspec_mutation_structured, serde.
Qed.

Lemma tspec_insert_view o window rect size : size_ok size -> rect_in rect size -> tspec (insert_view_call o window rect size) any.
Proof.
  intros Hs Hr. apply tspec_then; [apply tspec_await|]. intros w Hw. cbn. split; [|by split].
  fold (view_name (mw_drawn w)).
  assert (Hfresh : ic_views (mw_cache w) !! view_name (mw_drawn w) = None).
  { destruct (ic_views (mw_cache w) !! _) as [v|] eqn:Ev; [exfalso|done].
    destruct (mk_views _ Hw _ _ Ev) as [(i & Hi & Hx) _]. unfold view_name in Hx. apply string_app_inj_l, uuid_inj in Hx. lia. }
  set (view := {| rv_observation_id := o; rv_window_ref := window; rv_source_rect := rect; rv_source_size := size |}).
  destruct (insert_view_ok (mw_cache w) (view_name (mw_drawn w)) view (mk_cache _ Hw) Hfresh) as (Hok & Hlist & Hviews).
  set (c := insert_view _ _ _) in *. constructor; cbn.
  - done.
  - intros id image Hx. apply (mk_images _ Hw). apply (queue_entries _ _ _ _ (co_entries _ (mk_cache _ Hw))).
    fold (cache_list (mw_cache w)). rewrite <- Hlist. by apply (queue_entries _ _ _ _ (co_entries _ Hok)).
  - intros r v Hx. apply (queue_entries _ _ _ _ (co_views _ Hok)) in Hx. fold (view_list c) in Hx. rewrite Hviews in Hx.
    apply elem_of_app in Hx as [Hx|[= -> ->]%list_elem_of_singleton]; [|by split; [exists (mw_drawn w); split; [lia|] |]].
    destruct (with_view_room_suffix (view_list (mw_cache w))) as [k Hk].
    assert (Hin : (r, v) ∈ view_list (mw_cache w)) by (rewrite Hk, elem_of_app; by right).
    destruct (mk_views _ Hw r v) as [(i & Hi & Hname) Hrest]; [by apply (queue_entries _ _ _ _ (co_views _ (mk_cache _ Hw)))|].
    split; [|done]. exists i. split; [lia | done].
Qed.

(** Arguments at their width. *)
Definition args_typed (t : ToolCall) : Prop :=
  match t with
  | ToolZoom a => 0 <= za_left a /\ 0 <= za_top a
  | ToolClickViewNormalized a => 0 <= vca_x a /\ 0 <= vca_y a
  | _ => True
  end.

Lemma tspec_zoom args : args_typed (ToolZoom args) -> tspec (zoom_tool base64_encode png m args) any.
Proof.
  intros [Hl Ht]. eapply tspec_bind; [apply tspec_read_cache|]. intros cached (w & Hw & ->).
  destruct (cache_get _ _ _) as [image|] eqn:Eg; [|apply tspec_answer].
  cbv zeta. set (size := sm_pixel_size (ci_mapping image)) in *.
  destruct (normalized_region (za_left args) (za_top args) (za_right args) (za_bottom args) size) as [rect|] eqn:Er; [|apply tspec_answer].
  apply tspec_then; [apply tspec_await|]. destruct (crop_png _ _ _ _ _); [|apply tspec_answer].
  assert (Hsize : size_ok size).
  { unfold cache_get in Eg. destruct (ic_entries _ !! _) eqn:E; [|done]. destruct (str_eqb _ _); [|done]. injection Eg as <-.
    by apply (mk_images _ Hw) in E as [_ ?]. }
  eapply tspec_bind; [apply tspec_insert_view; [done|]|intros view _; by apply tspec_give].
  exact (normalized_region_in _ _ _ _ _ _ Hsize Hl Ht Er).
Qed.

Lemma tspec_click_view args : args_typed (ToolClickViewNormalized args) ->
  tspec (click_view_normalized_tool value_text base64_encode m args) any.
Proof.
  intros [Hx Hy]. eapply tspec_bind; [apply tspec_require|]. intros ? Hb. cbv beta in Hb. eapply tspec_bind; [apply tspec_read_cache|].
  intros view (w & Hw & ->). unfold get_view. destruct (ic_views _ !! _) as [v|] eqn:Ev; [|apply tspec_answer].
  destruct (mk_views _ Hw _ _ Ev) as (_ & Hs & Hr). unfold NORMALIZED_COORDINATE_MAX in Hb.
  apply negb_true_iff, orb_false_iff in Hb as [[Hbx%Z.ltb_ge Hby%Z.ltb_ge]%orb_false_iff _].
  destruct (view_point_in_rect (vca_x args) (vca_y args) (rv_source_rect v) (rv_source_size v)) as [Px Py]; [done | done | lia | lia|].
  destruct Hr as (I1 & I2 & I3 & I4 & I5 & I6).
  destruct (from_pixel_back (normalized_view_point (vca_x args) (vca_y args) (rv_source_rect v)) (rv_source_size v)) as (n & -> & _);
    [done | lia | lia | unfold size_contains; apply andb_true_iff; rewrite !Z.ltb_lt; lia|].
  apply tspec_dispatch_action.
Qed.

Lemma tspec_run_tool t : args_typed t -> tspec (run_tool value_text base64_encode png m t) any.
Proof.
  intros Hargs. destruct t; cbn [run_tool]; unfold scroll_tool, guarded, dispatch_action_tool; try apply tspec_dispatch_action.
  - apply tspec_status.
  - eapply tspec_bind; [apply tspec_require|]. intros ? Ha. in_session. eapply tspec_bind; [by apply tspec_execute|]. expect Hk.
    apply tspec_structured, serde.
  - eapply tspec_bind; [apply tspec_require|]. intros ? Ha. in_session. eapply tspec_bind; [by apply tspec_mutation|]. expect Hk.
    apply tspec_mutation_structured, serde.
  - in_session. eapply tspec_bind; [by apply tspec_execute|]. expect Hk. apply tspec_structured, serde.
  - eapply tspec_bind; [apply tspec_require|]. intros ? Ha. eapply tspec_bind; [by apply tspec_discover_launchable|]. intros apps _.
    apply tspec_structured, serde.
  - apply tspec_launch.
  - in_session. eapply tspec_bind; [by apply tspec_execute|]. expect Hk. apply tspec_structured, serde.
  - eapply tspec_bind; [apply tspec_require|]. intros ? Ha. in_session. eapply tspec_bind; [by apply tspec_execute|]. expect Hk.
    apply tspec_structured, serde.
  - eapply tspec_bind; [apply tspec_require|]. intros ? Ha. in_session. eapply tspec_bind; [by apply tspec_execute|]. expect Hk.
    eapply tspec_bind; [apply tspec_public_value, serde|]. intros value _. eapply tspec_bind; [apply tspec_take|].
    intros [bytes|e] _; [by apply tspec_give | apply tspec_answer].
  - in_session. eapply tspec_bind; [apply tspec_execute; by destruct (default _ _)|].
    intros r [Hm Hk]. destruct r, (default false (owa_application_scene args)); try discriminate Hm;
      (eapply tspec_bind; [apply tspec_public_value, serde|]; intros value _;
       eapply tspec_bind; [by apply tspec_observed_image|]; intros image _; by apply tspec_give).
  - by apply tspec_zoom.
  - eapply tspec_bind; [apply tspec_require|]. intros ? _. eapply tspec_bind; [apply tspec_read_cache|]. intros [image|] _;
      [apply tspec_dispatch_action | apply tspec_answer].
  - by apply tspec_click_view.
  - eapply tspec_bind; [apply tspec_require|]. intros ? _. eapply tspec_bind; [apply tspec_read_cache|]. intros [image|] _;
      [apply tspec_dispatch_action | apply tspec_answer].
  - eapply tspec_bind; [apply tspec_require|]. intros _ [[E1 E2]%andb_true_iff E3%Z.leb_le]%andb_true_iff.
    rewrite valid_adapter_request_id_eq in E1. eapply tspec_bind; [apply (tspec_service _ _ any)|].
    + by split.
    + intros w Hw. split; [by apply lawful | done].
    + intros [r|e] _; [apply tspec_structured, serde | apply tspec_answer].
  - in_session. eapply tspec_bind; [by apply tspec_execute|]. expect Hk. apply tspec_structured, serde.
Qed.

End Props.

(** * An adapter whose authority has ended *)

Create HintDb silent.

Section Ended.
Context {D : Type} `{!McpHost D, !HashOrder, !UuidSource, !McpSerde}.
Context (m : NexusCuaMcp).
Implicit Types w : McpWorld D.

(** A closed adapter stays closed and a deadline that has passed stays passed. *)
Record LatchedMcp : Prop := {
  la_await : forall w, authority_ended m w = true -> authority_ended m (mcp_await w) = true;
  la_reconcile : forall id wait w, authority_ended m w = true -> authority_ended m (mcp_reconcile id wait w).1 = true;
}.

Definition only_reconciles (t : McpTrace (D := D)) : Prop :=
  Forall (fun x => match x.2 with CallReconcile _ _ => True | _ => False end) t.

(** After the end, [c] makes no call but reconciliations. *)
Definition silent {A} (c : T D A) : Prop := forall w, authority_ended m w = true ->
  let '(w', t, r) := c w in authority_ended m w' = true /\ only_reconciles t.

(** After the end, [c] makes no call and gives no value. *)
Definition stops {A} (c : T D A) : Prop := forall w, authority_ended m w = true ->
  let '(w', t, r) := c w in authority_ended m w' = true /\ t = [] /\ match r with Gives _ => False | _ => True end.

Lemma silent_bind {A B} (c : T D A) (k : A -> T D B) : silent c -> (forall a, silent (k a)) -> silent (tbind c k).
Proof.
  intros Hc Hk w Hw. specialize (Hc w Hw). unfold tbind. destruct (c w) as [[w1 t1] [a|r|e|]]; try done. destruct Hc as [Hw1 Ht].
  specialize (Hk a w1 Hw1). destruct (k a w1) as [[w2 t2] r]. destruct Hk as [? ?]. split; [done | by apply Forall_app].
Qed.
Lemma silent_stop {A B} (c : T D A) (k : A -> T D B) : stops c -> silent (tbind c k).
Proof.
  intros Hc w Hw. specialize (Hc w Hw). unfold tbind. destruct (c w) as [[w1 t1] [a|r|e|]]; destruct Hc as (? & -> & ?); try done;
    (split; [done | constructor]).
Qed.
Lemma silent_give {A} (a : A) : silent (give a).
Proof. intros w Hw. split; [done | constructor]. Qed.
Lemma silent_answer {A} r : silent (@answer D A r).
Proof. intros w Hw. split; [done | constructor]. Qed.
Lemma silent_fail {A} e : silent (@fail_with D A e).
Proof. intros w Hw. split; [done | constructor]. Qed.
Lemma silent_read {A} (f : McpWorld D -> A) : silent (tread f).
Proof. intros w Hw. split; [done | constructor]. Qed.
Lemma silent_require b r : silent (@require D b r).
Proof. unfold require. destruct b; [apply silent_give | apply silent_answer]. Qed.
Lemma silent_try {A} (r : Result A McpError) : silent (@try_mcp D A r).
Proof. destruct r; [apply silent_give | apply silent_fail]. Qed.

Hypothesis latched : LatchedMcp.

Lemma silent_await : silent (@await_lock D _).
Proof. intros w Hw. split; [by apply latched | constructor]. Qed.
Lemma silent_with_cache f : silent (@with_cache D _ f).
Proof. apply silent_bind; [apply silent_await|]. intros _ w Hw. split; [done | constructor]. Qed.
Lemma silent_read_cache {A} (f : ImageMappingCache -> A) : silent (@read_cache D _ A f).
Proof. apply silent_bind; [apply silent_await|]. intros _. apply silent_read. Qed.
Lemma silent_session_id : silent (@session_id D _).
Proof. apply silent_bind; [apply silent_await|]. intros _. apply silent_bind; [apply silent_read|]. intros [s|]; [apply silent_give | apply silent_answer]. Qed.

Lemma validate_ended w : authority_ended m w = true -> validate_authority m w = (w, [], Gives (Err ProviderDenied)).
Proof. intros Hw. unfold validate_authority, tbind, tread. rewrite Hw. done. Qed.

Lemma execute_stops c : stops (tool_execute m c).
Proof. intros w Hw. unfold tool_execute. unfold tbind at 1. rewrite (validate_ended w Hw). by cbn. Qed.
Lemma mutation_stops id c : stops (execute_mutation m id c).
Proof. intros w Hw. unfold execute_mutation. unfold tbind at 1. rewrite (validate_ended w Hw). by cbn. Qed.
Lemma discover_stops : stops (discover_launchable m).
Proof.
  intros w Hw. pose proof (execute_stops DiscoverLaunchableApplications w Hw) as He. unfold discover_launchable, tbind at 1.
  destruct (tool_execute _ _ w) as [[? ?] []]; destruct He as (? & -> & ?); done.
Qed.
Lemma silent_execute {B} c (k : CommandResult -> T D B) : silent (tbind (tool_execute m c) k).
Proof. apply silent_stop, execute_stops. Qed.
Lemma silent_mutation {B} id c (k : CommandResult -> T D B) : silent (tbind (execute_mutation m id c) k).
Proof. apply silent_stop, mutation_stops. Qed.
Lemma silent_discover {B} (k : list LaunchableApplication -> T D B) : silent (tbind (discover_launchable m) k).
Proof. apply silent_stop, discover_stops. Qed.

End Ended.

#[export] Hint Resolve silent_execute silent_mutation silent_discover silent_give silent_answer silent_fail silent_read silent_require
  silent_try silent_await silent_with_cache silent_read_cache silent_session_id : silent.

Section EndedTools.
Context {D : Type} `{!McpHost D, !HashOrder, !UuidSource, !McpSerde}.
Context (value_text : Value -> string) (base64_encode : list Z -> string) (png : PngCodec) (m : NexusCuaMcp).

(** Runs to the first command, or to the end. *)
Ltac hush := repeat first
  [ solve [auto with silent nocore]
  | apply silent_bind; [solve [auto with silent nocore] | intros ?; cbv zeta]
  | match goal with |- silent _ (match ?x with _ => _ end) => destruct x end ].

Lemma silent_dispatch id window o action after : LatchedMcp (D := D) m ->
  silent m (dispatch_action_observed value_text base64_encode m id window o action after).
Proof. intros Hl. unfold dispatch_action_observed. hush. Qed.

Lemma silent_run_tool t : LatchedMcp (D := D) m -> silent m (run_tool value_text base64_encode png m t).
Proof.
  intros Hl. destruct t; cbn [run_tool]; unfold scroll_tool, guarded, dispatch_action_tool; try (by apply silent_dispatch).
  - unfold get_status. hush.
  - unfold read_clipboard_tool. hush.
  - unfold write_clipboard_tool. hush.
  - unfold list_apps_tool. hush.
  - unfold list_launchable_apps_tool. hush.
  - unfold launch_application_tool. hush.
  - unfold list_windows_tool. hush.
  - unfold list_displays_tool. hush.
  - unfold observe_display_tool. hush.
  - unfold observe_window_tool. hush.
  - unfold zoom_tool, insert_view_call. hush. intros w Hw. cbn. split; [exact (la_await _ Hl w Hw) | constructor].
  - unfold click_normalized_tool, dispatch_action_tool, dispatch_action_observed. hush.
  - unfold click_view_normalized_tool, dispatch_action_tool, dispatch_action_observed. hush.
  - unfold drag_normalized_tool, dispatch_action_tool, dispatch_action_observed. hush.
  - unfold reconcile_mutation_tool. apply silent_bind; [apply silent_require|]. intros _. apply silent_bind.
    + intros w Hw. unfold service. pose proof (la_reconcile _ Hl (rma_request_id args) (default 0 (rma_wait_ms args)) w Hw) as Hr.
      destruct (mcp_reconcile _ _ w) as [w' r]. split; [done | by repeat constructor].
    + intros r. hush.
  - unfold verify_state_tool. hush.
Qed.

End EndedTools.

(** * Closing while a session is replaced *)

(** What the tasks of the process do to the adapter's session: the two halves
    of [close], the replacement of [rebuild_session], the loss of a dead
    session, and everything else. *)
Inductive session_step {D : Type} : McpWorld D -> McpWorld D -> Prop :=
| StepStoreClosed w : session_step w {| w with mw_closed := true |}
| StepTake w : session_step w (take_session w).1
| StepInstall w replacement : session_step w (install_session replacement w).1
| StepInvalidate w : session_step w {| w with mw_session := None |}
| StepOther w w' : mw_session w' = mw_session w -> (mw_closed w = true -> mw_closed w' = true) -> session_step w w'.

Lemma session_step_closed {D : Type} (w w' : McpWorld D) :
  session_step w w' -> mw_closed w = true -> mw_session w = None -> mw_closed w' = true /\ mw_session w' = None.
Proof.
  intros Hstep Hc Hs. inversion Hstep; subst; cbn; try done.
  - unfold install_session. by rewrite Hc.
  - split; [auto | congruence].
Qed.

(** * Properties *)

Section Claims.
Context {D : Type} `{!McpHost D, !HashOrder, !UuidSource, !McpSerde}.
Context (value_text : Value -> string) (base64_encode : list Z -> string) (png : PngCodec) (m : NexusCuaMcp).
Context (owner : ObservationId -> WindowRef).
Implicit Types w : McpWorld D.



End Claims.

(** Nothing is done after the authority has ended.  Once the adapter is
    closed or its deadline has passed, no tool reaches the runtime, the
    mutation dispatcher or an artifact; only the outcome of earlier mutations
    can still be asked for. *)
Theorem ended_adapter_quiet {D : Type} `{!McpHost D, !HashOrder, !UuidSource, !McpSerde} value_text base64_encode png m
    t c (w w' : McpWorld D) trace r :
  LatchedMcp (D := D) m -> authority_ended m w = true ->
  call_tool value_text base64_encode png m t = Some c -> c w = (w', trace, r) ->
  Forall (fun x => exists id wait, x.2 = CallReconcile id wait) trace /\ authority_ended m w' = true.
Proof.
  intros Hl Hw Hc Hr. unfold call_tool in Hc. destruct (routed _ _); [|done]. injection Hc as <-.
  pose proof (silent_run_tool value_text base64_encode png m t Hl w Hw) as Hs. rewrite Hr in Hs. destruct Hs as [Hw' Hs].
  split; [|done]. eapply Forall_impl; [exact Hs|]. intros [v []]; naive_solver.
Qed.

(** No session survives the close of the adapter.  However the close
    interleaves with tools that replace or drop the session, after the close
    has taken the session the adapter holds none, for ever; a replacement
    that comes too late is handed back to be closed. *)
Theorem closed_adapter_sessionless {D : Type} (w w' : McpWorld D) replacement :
  mw_closed w = true -> rtc session_step (take_session w).1 w' ->
  mw_session w' = None /\ mw_closed w' = true /\ (install_session replacement w').2 = Err replacement.
Proof.
  intros Hc Hsteps. assert (Hend : mw_closed w' = true /\ mw_session w' = None).
  { assert (Hstart : mw_closed (take_session w).1 = true /\ mw_session (take_session w).1 = None) by done.
    revert Hstart. induction Hsteps as [x|x y z Hxy _ IH]; [done|]. intros [H1' H2']. apply IH. by eapply session_step_closed. }
  destruct Hend as [Hc' Hs']. split_and!; try done. unfold install_session. by rewrite Hc'.
Qed.


(** ** Private paths *)

Lemma field_remove k k' fields : field k (remove_field k' fields) = if str_eqb k' k then None else field k fields.
Proof.
  induction fields as [|[x v] fields IH]; cbn [remove_field field]; [by destruct (str_eqb k' k)|].
  destruct (str_eqb x k') eqn:E1; cbn [field]; rewrite IH.
  - apply str_eqb_eq in E1 as ->. by destruct (str_eqb k' k).
  - destruct (str_eqb k' k) eqn:E2; [|done]. apply str_eqb_eq in E2 as ->. by rewrite E1.
Qed.

Lemma field_update k k' f fields : field k (update_field k' f fields) = if str_eqb k' k then f <$> field k fields else field k fields.
Proof.
  induction fields as [|[x v] fields IH]; cbn [update_field field]; [by destruct (str_eqb k' k)|].
  destruct (str_eqb x k') eqn:E1; cbn [field].
  - apply str_eqb_eq in E1 as ->. by destruct (str_eqb k' k).
  - rewrite IH. destruct (str_eqb k' k) eqn:E2; [|done]. apply str_eqb_eq in E2 as ->. by rewrite E1.
Qed.

(** Private paths are removed.  What a tool publishes of an observation or
    of an action with an observation has no ["path"] in its screenshot, at the
    top or in the nested observation, and keeps every other field of it. *)
Theorem artifact_paths_removed fields :
  let public := remove_private_artifact_path (JObject fields) in
  (forall s, get "screenshot" public = Some s -> get "path" s = None) /\
  (forall o s, get "observation" public = Some o -> get "screenshot" o = Some s -> get "path" s = None) /\
  (forall s k, field "screenshot" fields = Some s -> k <> "path"%string ->
     exists s', get "screenshot" public = Some s' /\ get k s' = get k s) /\
  (forall k, k <> "screenshot"%string -> k <> "observation"%string -> get k public = field k fields).
Proof.
  assert (Hkey : forall s, get "path" (remove_key "path" s) = None).
  { intros []; try done. cbn [remove_key get]. by rewrite field_remove. }
  assert (Hshot : forall depth v s, get "screenshot" (remove_path_at depth v) = Some s -> get "path" s = None).
  { intros depth v s. destruct v; destruct depth; try done; cbn [remove_path_at get]; rewrite field_update; cbn;
      (destruct (field _ _); [|done]); intros [= <-]; apply Hkey. }
  cbn zeta. unfold remove_private_artifact_path. set (depth := value_depth (JObject fields)).
  assert (Hd : exists d, depth = S d) by (eexists; reflexivity). destruct Hd as [d ->].
  split; [|split; [|split]].
  - intros s. apply Hshot.
  - intros o s. cbn [remove_path_at get]. rewrite field_update. cbn. rewrite field_update. cbn.
    destruct (field "observation" fields); [|done]. intros [= <-]. apply Hshot.
  - intros s k Hs Hk. cbn [remove_path_at get]. rewrite field_update. cbn. rewrite field_update. cbn. rewrite Hs. eexists. split; [done|].
    destruct s; try done. cbn [remove_key get]. rewrite field_remove. by rewrite (proj2 (str_eqb_neq _ _)).
  - intros k H1 H2. cbn [remove_path_at get]. rewrite !field_update.
    by rewrite !(proj2 (str_eqb_neq _ _)) by congruence.
Qed.

(** ** Bootstrap *)

Section Bootstrap.
Context {D : Type} `{!McpHost D, !HashOrder, !UuidSource, !McpSerde}.
Context (m : NexusCuaMcp).
Implicit Types w : McpWorld D.

(** The running applications the policy names. *)
Definition authorized_running (discovered : DiscoverApplicationsOutput) : list DiscoveredApplication :=
  List.filter (fun a => existsb (str_eqb (da_application_id a)) (ap_application_ids (policy_of m))) (dao_applications discovered).

Lemma missing_from_spec available required id : id ∈ required -> id ∉ missing_from available required -> id ∈ available.
Proof.
  intros Hr Hm. destruct (existsb (str_eqb id) available) eqn:E; [by apply existsb_str_eqb|]. exfalso. apply Hm.
  apply list_elem_of_In, filter_In. split; [by apply list_elem_of_In | by rewrite E].
Qed.

Lemma running_result w w1 trace o : authorized_running_applications m w = (w1, trace, Gives (Ok o)) ->
  exists discovered, mcp_execute DiscoverApplications w = (w1, Ok (RApplicationsDiscovered discovered)) /\
    dao_complete discovered = true /\
    o = (da_discovery_ref <$> authorized_running discovered,
         missing_from (da_application_id <$> authorized_running discovered) (ap_application_ids (policy_of m))).
Proof.
  unfold authorized_running_applications, runtime_execute, service, tbind.
  destruct (mcp_execute DiscoverApplications w) as [w2 [r|e]]; [|done]. cbn. destruct r; try done.
  destruct (dao_complete o0) eqn:Ec; [|done]. intros [= <- _ <-]. by exists o0.
Qed.

(** A launchable application check that succeeds has seen every required
    identity among the installed applications. *)
Lemma launchable_result required w w1 trace : verify_launchable_applications required w = (w1, trace, Gives (Ok tt)) ->
  exists v w0 discovered, (v, CallExecute DiscoverLaunchableApplications) ∈ trace /\
    mcp_execute DiscoverLaunchableApplications v = (w0, Ok (RLaunchableApplicationsDiscovered discovered)) /\
    dlo_complete discovered = true /\ forall id, id ∈ required -> id ∈ la_application_id <$> dlo_applications discovered.
Proof.
  unfold verify_launchable_applications, runtime_execute, service, tbind.
  destruct (mcp_execute GetCapabilities w) as [w2 [r|e]]; [|done]. cbn. destruct r; try done.
  destruct (negb _); [done|]. destruct (mcp_execute DiscoverLaunchableApplications w2) as [w3 [r|e]] eqn:Ed; [|done]. cbn.
  destruct r; try done. destruct (dlo_complete o) eqn:Ec; [|done]. cbn [negb].
  destruct (missing_from _ _) eqn:Em; [|done]. intros [= <- <-]. exists w2, w3, o. split; [by do 2 constructor|].
  split_and!; try done. intros id Hid. apply (missing_from_spec _ _ _ Hid). rewrite Em. by apply not_elem_of_nil.
Qed.

(** The session of a new adapter.  Bootstrap succeeds only after a complete
    discovery; every application of the policy is then running, or launch is
    allowed and it is installed; the session it opens has the policy's
    manifest for exactly the running applications the policy names, and it
    opens none only when there is none of them and neither display nor
    clipboard authority. *)
Theorem bootstrap_scope w w' trace o :
  bootstrap_session m w = (w', trace, Gives (Ok o)) ->
  exists w1 discovered, mcp_execute DiscoverApplications w = (w1, Ok (RApplicationsDiscovered discovered)) /\
    dao_complete discovered = true /\
    (forall id, id ∈ ap_application_ids (policy_of m) ->
       id ∈ da_application_id <$> authorized_running discovered \/
       ap_allow_application_launch (policy_of m) = true /\
       exists v v' installed, mcp_execute DiscoverLaunchableApplications v = (v', Ok (RLaunchableApplicationsDiscovered installed)) /\
         dlo_complete installed = true /\ id ∈ la_application_id <$> dlo_applications installed) /\
    match o with
    | None => authorized_running discovered = [] /\ ap_allow_display_capture (policy_of m) = false /\
              ap_allow_clipboard_read (policy_of m) = false /\ ap_allow_clipboard_write (policy_of m) = false
    | Some s => exists v v' opened,
        mcp_execute (OpenSession (authority_manifest (policy_of m) (da_discovery_ref <$> authorized_running discovered))) v =
          (v', Ok (RSessionOpened opened)) /\
        as_session_id s = os_session_id opened
    end.
Proof.
  intros Hx. unfold bootstrap_session in Hx. unfold tbind at 1 in Hx.
  destruct (authorized_running_applications m w) as [[w1 t1] [[running|e]|r|e|]] eqn:Er; try done.
  apply running_result in Er as (discovered & He & Hcomplete & ->). exists w1, discovered. split; [done|]. split; [done|].
  set (refs := da_discovery_ref <$> authorized_running discovered) in *. set (missing := missing_from _ _) in *.
  unfold tbind at 1 in Hx. match type of Hx with context [(if bool_decide (missing = []) then ?a else ?b) w1] =>
    destruct ((if bool_decide (missing = []) then a else b) w1) as [[w2 t2] [[[]|e]|r|e|]] eqn:El; try done end.
  split.
  - intros id Hid. destruct (decide (missing = [])) as [Hm|Hm].
    + left. apply (missing_from_spec _ _ _ Hid). fold missing. rewrite Hm. by apply not_elem_of_nil.
    + rewrite bool_decide_false in El by done. destruct (ap_allow_application_launch (policy_of m)) eqn:Ea; [|done]. cbn [negb] in El.
      apply launchable_result in El as (v & v' & installed & _ & Hv & Hc & Hin).
      destruct (decide (id ∈ missing)); [|left; by apply (missing_from_spec _ _ _ Hid)]. right. split; [done|]. eauto 10.
  - destruct (bool_decide (refs = []) && _ && _ && _) eqn:Eb.
    + apply andb_true_iff in Eb as [[[E1%bool_decide_eq_true E2%negb_true_iff]%andb_true_iff E3%negb_true_iff]%andb_true_iff E4%negb_true_iff].
      cbn in Hx. injection Hx as _ _ <-. split_and!; try done. by apply fmap_nil_inv in E1.
    + unfold open_runtime_session, runtime_execute, service, tbind in Hx.
      destruct (mcp_execute (OpenSession _) w2) as [w3 [r|e]] eqn:Eo; [|done]. cbn in Hx. destruct r; try done. cbn in Hx.
      injection Hx as _ _ <-. by exists w2, w3, o0.
Qed.

End Bootstrap.

(** * A small desktop *)

Module Desk.

#[local] Existing Instance map_to_list_order.
#[local] Existing Instance unary_uuids.

#[local] Instance desk_serde : McpSerde := {|
  serde_error := fun _ => Ok (JObject []); serde_capabilities := fun _ => Ok (JObject []);
  serde_permissions := fun _ => Ok (JObject []); serde_mode := fun _ => Ok JNull; serde_strings := fun _ => Ok (JArray []);
  serde_actions := fun _ => Ok (JArray []); serde_profile := fun _ => Ok JNull; serde_provider := fun _ => Ok (JObject []);
  serde_clipboard := fun _ => Ok (JObject []); serde_clipboard_write := fun _ => Ok (JObject []);
  serde_apps := fun _ => Ok (JArray []); serde_launchable := fun _ => Ok (JArray []); serde_launch := fun _ => Ok (JObject []);
  serde_windows := fun _ => Ok (JArray []); serde_displays := fun _ => Ok (JArray []);
  serde_display_observation := fun _ => Ok (JObject []); serde_window_observation := fun _ => Ok (JObject []);
  serde_action := fun _ => Ok (JObject []); serde_reconciliation := fun _ => Ok (JObject []);
  serde_verification := fun _ => Ok (JObject []) |}.

Lemma desk_total : TotalSerde.
Proof. constructor; intros a; eexists; reflexivity. Qed.

Definition desk_screenshot : ScreenshotArtifact := {|
  sa_artifact_ref := "artifact"; sa_path := "/private/artifact.png"; sa_mime_type := "image/png"; sa_mapping := sample_mapping;
  sa_byte_length := 3; sa_sha256 := "digest" |}.

Definition desk_observation : WindowObservation := {|
  wo_observation_id := "o1"; wo_window_ref := "w"; wo_captured_at := "time"; wo_window_screen_bounds := sm_screen_bounds sample_mapping;
  wo_screenshot := Some desk_screenshot; wo_elements := []; wo_elements_complete := true; wo_elements_truncation := None |}.

Definition desk_action : ActionOutput := {|
  ao_observation := None; ao_observation_error := None; ao_delivery_mode := Foreground; ao_dispatched := true;
  ao_effect_status := Unverified; ao_evidence_kind := DispatchAcceptance; ao_foreground_restoration := NotRequested;
  ao_observation_invalidated := true |}.

Definition desk_refusal : CuaError := public_error Unsupported "unsupported" false None.

Definition desk_execute (c : Command) : Result CommandResult CuaError :=
  match c with
  | ObserveWindow _ => Ok (RWindowObserved desk_observation)
  | DiscoverApplications => Ok (RApplicationsDiscovered {| dao_applications := []; dao_complete := true |})
  | OpenSession _ => Ok (RSessionOpened {| os_session_id := "session"; os_expires_at := "time" |})
  | CloseSession _ => Ok RAcknowledged
  | _ => Err desk_refusal
  end.

Definition desk_dispatch (q : RequestEnvelope) : ResponseOutcome :=
  match re_command q with PerformAction _ => Success (RActionPerformed desk_action) | _ => Error desk_refusal end.

#[local] Instance desk_host : McpHost unit := {|
  mcp_await := fun w => w;
  mcp_execute := fun c w => (w, desk_execute c);
  mcp_dispatch := fun q w => (w, {| rs_protocol_version := PROTOCOL_VERSION; rs_request_id := re_request_id q; rs_outcome := desk_dispatch q |});
  mcp_reconcile := fun _ _ w => (w, Err desk_refusal);
  mcp_take_artifact := fun _ max w => (w, if 3 <=? max then Ok [1; 2; 3] else Err desk_refusal);
  mcp_validate := fun _ w => (w, Ok tt) |}.

Definition desk_owner (id : ObservationId) : WindowRef := "w".

Lemma desk_lawful : LawfulMcp (D := unit) desk_owner.
Proof.
  constructor; intros; cbn; try done; (split; [done|]).
  - intros r. destruct c; cbn; try done; intros [= <-]; (split; [done|]); try done.
    split; [done|]. intros s [= <-]. vm_compute. repeat split; discriminate.
  - intros r. unfold desk_dispatch. destruct (re_command q); try done. intros [= <-]. by split.
  - intros bytes. destruct (Z.leb_spec 3 max); [|done]. intros [= <-]. done.
Qed.

Definition desk_policy : AuthorityPolicy := {| sample_policy with ap_application_ids := [] ; ap_allow_application_launch := false;
  ap_allow_application_launch_activation := false |}.

Definition desk_adapter : NexusCuaMcp := {|
  mcp_authority := unsigned_development desk_policy; mcp_authority_deadline := 300; mcp_max_image_bytes := 1024;
  mcp_mutation_authorization := "token"; mcp_tool_profile := ProfileVision;
  mcp_policy_summary := {| managed_sha256 := None; user_sha256 := None |};
  mcp_debug_error := fun _ => "error"%string; mcp_debug_list := fun _ => "list"%string |}.

Definition desk_world : McpWorld unit := {|
  mw_session := Some {| as_session_id := "session"; as_expires_at := "time" |}; mw_closed := false; mw_cache := cache_default;
  mw_drawn := 0; mw_now := 0; mw_clock := Some 0; mw_env := tt |}.

Lemma desk_world_ok : mcp_ok desk_owner desk_world.
Proof. constructor; cbn; [apply cache_default_ok|..]; intros ? ? Hx; by rewrite lookup_empty in Hx. Qed.

Definition raw_text (v : Value) : string := EmptyString.
Definition raw_base64 (bytes : list Z) : string := EmptyString.

Definition desk_observe : ToolCall := ToolObserveWindow {|
  owa_window_ref := "w"; owa_include_screenshot := None; owa_accessibility := None; owa_application_scene := None |}.

Definition desk_click : ToolCall := ToolClickNormalized {|
  nca_request_id := "click-1"; nca_window_ref := "w"; nca_observation_id := "o1"; nca_x := 500; nca_y := 250;
  nca_button := None; nca_count := None; nca_delivery := None |}.

Definition desk_run (t : ToolCall) (w : McpWorld unit) : McpWorld unit * McpTrace (D := unit) * Exit CallToolResult :=
  run_tool raw_text raw_base64 raw_png desk_adapter t w.

Definition desk_observed : McpWorld unit := (desk_run desk_observe desk_world).1.1.

Lemma desk_routed t : (forall args, t <> ToolPerformAction args) ->
  call_tool raw_text raw_base64 raw_png desk_adapter t = Some (run_tool raw_text raw_base64 raw_png desk_adapter t).
Proof. intros Ht. unfold call_tool. destruct t; try done. by destruct (Ht args). Qed.


Lemma desk_observed_ok : mcp_ok desk_owner desk_observed.
Proof.
  pose proof (tspec_run_tool (D := unit) raw_text raw_base64 raw_png desk_adapter desk_owner desk_lawful ltac:(vm_compute; discriminate)
    desk_total desk_observe I desk_world desk_world_ok) as Ht. fold (desk_run desk_observe desk_world) in Ht. unfold desk_observed.
  destruct (desk_run desk_observe desk_world) as [[w t] r]. by destruct Ht as [? _].
Qed.


Definition desk_closed : McpWorld unit := {| desk_observed with mw_closed := true |}.

Lemma ended_adapter_quiet_witness : (desk_run desk_click desk_closed).1.2 = [] /\ mw_closed (desk_run desk_click desk_closed).1.1 = true.
Proof.
  destruct (ended_adapter_quiet raw_text raw_base64 raw_png desk_adapter desk_click
    (run_tool raw_text raw_base64 raw_png desk_adapter desk_click) desk_closed (desk_run desk_click desk_closed).1.1
    (desk_run desk_click desk_closed).1.2 (desk_run desk_click desk_closed).2) as [Hq _].
  - split; intros; done.
  - reflexivity.
  - apply desk_routed. discriminate.
  - unfold desk_run. by destruct (run_tool _ _ _ _ _ _) as [[? ?] ?].
  - split; vm_compute; reflexivity.
Defined.

Lemma closed_adapter_sessionless_witness :
  mw_session (install_session {| as_session_id := "late"; as_expires_at := "time" |} (take_session desk_closed).1).1 = None.
Proof.
  refine (proj1 (closed_adapter_sessionless desk_closed _ {| as_session_id := "late"; as_expires_at := "time" |} eq_refl _)).
  apply rtc_once, StepInstall.
Defined.

Definition desk_boot := bootstrap_session desk_adapter desk_world.

Lemma bootstrap_scope_witness :
  exists w1 discovered, mcp_execute DiscoverApplications desk_world = (w1, Ok (RApplicationsDiscovered discovered)) /\
    dao_complete discovered = true.
Proof.
  destruct (bootstrap_scope desk_adapter desk_world desk_boot.1.1 desk_boot.1.2
    (Some {| as_session_id := "session"; as_expires_at := "time" |})) as (w1 & discovered & H1 & H2 & _).
  - vm_compute. reflexivity.
  - exists w1, discovered. split; [exact H1 | exact H2].
Defined.

End Desk.
