(* ===== verification/Runner.v ===== *)
(** Running the tool server, the parts in time: the configuration, the HTTP
    guard, the bounded connections and the authority watch of
    [src/crates/mcp/src/runner.rs] and of [server.rs].

    Instants and durations are nanoseconds, timers are exact.  The sockets, the
    HTTP library and the provider are parameters.  The theorems: what accepted
    configurations guarantee, that a request reaches the tools only with the
    bearer token and within capacity, that a connection moves no bytes past its
    limits, and that the authority watch ends, in time. *)

From stdpp Require Import pretty.
From Stdlib Require Import Ascii String.
From S2P Require Import Prelude Floats Geometry Text Protocol Errors Policy Validation Driver Session Artifacts Runtime Authority ImageCache Adapter.
#[local] Open Scope Z_scope.

Definition DEFAULT_MAX_IMAGE_BYTES : Z := 16 * 1024 * 1024.
Definition HARD_MAX_IMAGE_BYTES : Z := 32 * 1024 * 1024.
Definition HARD_MAX_OBSERVATION_AGE_SECONDS : Z := 300.
Definition HARD_MAX_HTTP_BODY_BYTES : Z := 16 * 1024 * 1024.
Definition HARD_MAX_HTTP_INFLIGHT_REQUESTS : Z := 1024.
Definition HARD_MAX_HTTP_CONNECTIONS : Z := 1024.
Definition HARD_HTTP_IO_IDLE_TIMEOUT_SECONDS : Z := 120.
Definition HARD_HTTP_CONNECTION_LIFETIME_SECONDS : Z := 600.
Definition HARD_HTTP_REQUEST_TIMEOUT_SECONDS : Z := 180.
Definition MAX_HTTP_ENDPOINT_BYTES : Z := 128.
Definition from_secs (n : Z) : Z := n * 1000000000.
Definition from_millis (n : Z) : Z := n * 1000000.

Inductive McpServeError :=
| ServeInvalidConfiguration (reason : string)
| ServeAuthority (e : AuthorityError)
| ServeDriver (e : DriverError)
| ServeRuntime (e : CuaError)
| ServePolicy (e : PolicyLoadError)
| ServeBootstrap (e : BootstrapError)
| ServeTransport (e : string)
| ServeHttp (e : string).

(** * Configuration *)

(** The provider of a source is the process's provider client. *)
Inductive AuthoritySource :=
| UnsignedDevelopmentFile (path : string)
| ProviderSource (registration_id : string).

Record McpServeConfig := {
  msc_authority : AuthoritySource;
  msc_artifact_root : string;
  msc_max_image_bytes : Z;
  msc_max_image_edge : Z;
  msc_max_observation_age_seconds : Z;
  msc_managed_policy_file : option string;
  msc_policy_file : option string;
  msc_tool_profile : ToolProfile;
}.

(** [McpServeConfig::unsigned_development] and [McpServeConfig::provider]. *)
Definition serve_config_new (authority : AuthoritySource) (artifact_root : string) : McpServeConfig := {|
  msc_authority := authority; msc_artifact_root := artifact_root;
  msc_max_image_bytes := DEFAULT_MAX_IMAGE_BYTES; msc_max_image_edge := 1568;
  msc_max_observation_age_seconds := DEFAULT_MAX_OBSERVATION_AGE_SECONDS;
  msc_managed_policy_file := None; msc_policy_file := None; msc_tool_profile := ProfileFull |}.

Definition serve_config_validate (c : McpServeConfig) : Result unit McpServeError :=
  ensure_not ((msc_max_image_bytes c =? 0) || (HARD_MAX_IMAGE_BYTES <? msc_max_image_bytes c))
    (ServeInvalidConfiguration "max-image-bytes must be between 1 and 33554432") ;?
  ensure_not (negb ((1 <=? msc_max_image_edge c) && (msc_max_image_edge c <=? 4096))
              || (msc_max_observation_age_seconds c =? 0)
              || (HARD_MAX_OBSERVATION_AGE_SECONDS <? msc_max_observation_age_seconds c))
    (ServeInvalidConfiguration "max-observation-age-seconds must be between 1 and 300") ;?
  Ok tt.

(** The configuration [bootstrap_adapter] starts the runtime with. *)
Definition runtime_config_of (c : McpServeConfig) (policies : RuntimePolicyStack) : RuntimeConfig :=
  {| (config_new (msc_artifact_root c)) with
     max_image_edge := msc_max_image_edge c;
     max_observation_age := from_secs (msc_max_observation_age_seconds c);
     policy := policies |}.

Inductive IpAddr :=
| V4 (a b c d : Z)
| V6 (segments : list Z).

Definition is_loopback (ip : IpAddr) : bool :=
  match ip with V4 a _ _ _ => a =? 127 | V6 s => bool_decide (s = [0; 0; 0; 0; 0; 0; 0; 1]) end.

Record McpHttpConfig := {
  mhc_bind : IpAddr;
  mhc_port : Z;
  mhc_endpoint : string;
  mhc_authorization : AuthorizationToken;
  mhc_max_request_body_bytes : Z;
  mhc_max_inflight_requests : Z;
  mhc_max_connections : Z;
  mhc_io_idle_timeout : Z;
  mhc_connection_lifetime : Z;
  mhc_request_timeout : Z;
}.

(** [McpHttpConfig::new]. *)
Definition http_config_new (authorization : AuthorizationToken) : McpHttpConfig := {|
  mhc_bind := V4 127 0 0 1; mhc_port := 0; mhc_endpoint := "/mcp"; mhc_authorization := authorization;
  mhc_max_request_body_bytes := 4 * 1024 * 1024; mhc_max_inflight_requests := 64; mhc_max_connections := 64;
  mhc_io_idle_timeout := from_secs 15; mhc_connection_lifetime := from_secs 180; mhc_request_timeout := from_secs 120 |}.

Definition validate_duration_seconds (value hard_max_seconds : Z) (label : string) : Result unit McpServeError :=
  ensure_not ((value <? from_secs 1) || (from_secs hard_max_seconds <? value) || negb (value mod 1000000000 =? 0))
    (ServeInvalidConfiguration (label +:+ " must be a whole number of seconds between 1 and " +:+ pretty hard_max_seconds)) ;?
  Ok tt.

Definition valid_endpoint (endpoint : string) : bool :=
  negb (str_eqb endpoint "") && (slen endpoint <=? MAX_HTTP_ENDPOINT_BYTES) && starts_with_char "/" endpoint
  && negb (str_eqb endpoint "/") && negb (ends_with_char "/" endpoint) && negb (contains_str "//" endpoint)
  && negb (contains_str ".." endpoint) && negb (has_char "?" endpoint || has_char "#" endpoint)
  && bytes_all (fun b => is_ascii_alphanumeric b || (b =? 47) || (b =? 45) || (b =? 95) || (b =? 46)) endpoint.

Definition http_config_validate (c : McpHttpConfig) : Result unit McpServeError :=
  ensure_not (negb (is_loopback (mhc_bind c)))
    (ServeInvalidConfiguration "HTTP bind must be loopback; remote bind requires a future explicit TLS profile") ;?
  ensure_not (negb (valid_endpoint (mhc_endpoint c)))
    (ServeInvalidConfiguration "HTTP endpoint must be one normalized absolute path of at most 128 bytes") ;?
  ensure_not ((slen (mhc_authorization c) <? 32) || (4 * 1024 <? slen (mhc_authorization c)))
    (ServeInvalidConfiguration "HTTP authorization must contain 32 to 4096 bytes") ;?
  ensure_not ((mhc_max_request_body_bytes c =? 0) || (HARD_MAX_HTTP_BODY_BYTES <? mhc_max_request_body_bytes c))
    (ServeInvalidConfiguration "max HTTP body bytes must be between 1 and 16777216") ;?
  ensure_not ((mhc_max_inflight_requests c =? 0) || (HARD_MAX_HTTP_INFLIGHT_REQUESTS <? mhc_max_inflight_requests c))
    (ServeInvalidConfiguration "max HTTP in-flight requests must be between 1 and 1024") ;?
  ensure_not ((mhc_max_connections c =? 0) || (HARD_MAX_HTTP_CONNECTIONS <? mhc_max_connections c))
    (ServeInvalidConfiguration "max HTTP connections must be between 1 and 1024") ;?
  ensure_not (mhc_max_connections c <? mhc_max_inflight_requests c)
    (ServeInvalidConfiguration "max HTTP in-flight requests cannot exceed max HTTP connections") ;?
  validate_duration_seconds (mhc_io_idle_timeout c) HARD_HTTP_IO_IDLE_TIMEOUT_SECONDS "HTTP I/O idle timeout" ;?
  validate_duration_seconds (mhc_connection_lifetime c) HARD_HTTP_CONNECTION_LIFETIME_SECONDS "HTTP connection lifetime" ;?
  validate_duration_seconds (mhc_request_timeout c) HARD_HTTP_REQUEST_TIMEOUT_SECONDS "HTTP request timeout" ;?
  ensure_not (mhc_connection_lifetime c <? mhc_request_timeout c)
    (ServeInvalidConfiguration "HTTP request timeout cannot exceed connection lifetime") ;?
  Ok tt.

(** [allowed_loopback_hosts], with the [Display] of the address and socket. *)
Definition allowed_loopback_hosts (ip_text socket_text : string) (ip : IpAddr) (port : Z) : list string :=
  [ip_text; socket_text] ++
  match ip with
  | V4 _ _ _ _ => ["localhost"; "localhost:" +:+ pretty port]%string
  | V6 _ => ["[::1]"; "[::1]:" +:+ pretty port]%string
  end.

(** * The request guard *)

(** A request: whether it has an [Origin] header, and its [Authorization]
    header when there is one that is text. *)
Record HttpRequest := { hr_origin : bool; hr_authorization : option string }.

Inductive HttpStatus := StatusForbidden | StatusUnauthorized | StatusUnavailable | StatusRequestTimeout.

(** [bearer_matches]. *)
Definition bearer_matches (request : HttpRequest) (expected : AuthorizationToken) : bool :=
  match hr_authorization request with
  | None => false
  | Some value =>
      match Text.strip_prefix "Bearer " value with
      | None => false
      | Some candidate => (slen candidate =? slen expected) && str_eqb candidate expected
      end
  end.

(** [authorize_http]: [permits] are the free permits, [next] what the rest of
    the stack answers and how long it takes.  The result is the permits while
    the request runs, when it does, and the response. *)
Definition authorize_http {R} (authorization : AuthorizationToken) (request_timeout permits : Z) (next : Z * R) (request : HttpRequest)
    : option Z * (HttpStatus + R) :=
  if hr_origin request then (None, inl StatusForbidden)
  else if negb (bearer_matches request authorization) then (None, inl StatusUnauthorized)
  else if permits <=? 0 then (None, inl StatusUnavailable)
  else (Some (permits - 1), if fst next <=? request_timeout then inr (snd next) else inl StatusRequestTimeout).

(** Requests that arrive and that end, giving their permit back; the free
    permits and the requests that reached the tools. *)
Inductive GuardEvent := GuardArrive (request : HttpRequest) | GuardDone.

Fixpoint guard_run (authorization : AuthorizationToken) (limit permits : Z) (events : list GuardEvent) : Z * list HttpRequest :=
  match events with
  | [] => (permits, [])
  | GuardDone :: rest => guard_run authorization limit (Z.min limit (permits + 1)) rest
  | GuardArrive request :: rest =>
      match fst (authorize_http authorization 0 permits (0, tt) request) with
      | None => guard_run authorization limit permits rest
      | Some permits' => let '(end_permits, reached) := guard_run authorization limit permits' rest in (end_permits, request :: reached)
      end
  end.

(** * Bounded connections *)

(** [BoundedHttpIo], with the deadlines of its timers. *)
Record BoundedHttpIo := {
  bio_idle_timeout : Z;
  bio_read_idle : Z;
  bio_write_idle : Z;
  bio_read_lifetime : Z;
  bio_write_lifetime : Z;
}.

Definition bounded_io_new (now io_idle_timeout connection_lifetime : Z) : BoundedHttpIo := {|
  bio_idle_timeout := io_idle_timeout;
  bio_read_idle := now + io_idle_timeout; bio_write_idle := now + io_idle_timeout;
  bio_read_lifetime := now + connection_lifetime; bio_write_lifetime := now + connection_lifetime |}.

Inductive IoError := IoShuttingDown | IoLifetime | IoReadIdle | IoWriteIdle | IoInner (e : string).

Definition poll_read_boundary (io : BoundedHttpIo) (cancelled : bool) (now : Z) : Result unit IoError :=
  ensure_not cancelled IoShuttingDown ;?
  ensure_not (bio_read_lifetime io <=? now) IoLifetime ;?
  ensure_not (bio_read_idle io <=? now) IoReadIdle ;?
  Ok tt.

Definition poll_write_boundary (io : BoundedHttpIo) (cancelled : bool) (now : Z) : Result unit IoError :=
  ensure_not cancelled IoShuttingDown ;?
  ensure_not (bio_write_lifetime io <=? now) IoLifetime ;?
  ensure_not (bio_write_idle io <=? now) IoWriteIdle ;?
  Ok tt.

Definition reset_read_idle (io : BoundedHttpIo) (now : Z) : BoundedHttpIo := {| io with bio_read_idle := now + bio_idle_timeout io |}.
Definition reset_write_idle (io : BoundedHttpIo) (now : Z) : BoundedHttpIo := {| io with bio_write_idle := now + bio_idle_timeout io |}.

(** How the socket answers a poll: pending, a number of bytes, or an error. *)
Inductive InnerPoll := InnerPending | InnerBytes (n : Z) | InnerFailed (e : string).
Inductive Polled := PollPending | PollReady (n : Z) | PollError (e : IoError).

Definition polled (inner : InnerPoll) : Polled :=
  match inner with InnerPending => PollPending | InnerBytes n => PollReady n | InnerFailed e => PollError (IoInner e) end.

Definition progressed (inner : InnerPoll) : bool := match inner with InnerBytes n => 0 <? n | _ => false end.

Definition poll_read (io : BoundedHttpIo) (cancelled : bool) (now : Z) (inner : InnerPoll) : BoundedHttpIo * Polled :=
  match poll_read_boundary io cancelled now with
  | Err e => (io, PollError e)
  | Ok _ => (if progressed inner then reset_read_idle io now else io, polled inner)
  end.

(** [poll_write] and [poll_write_vectored]. *)
Definition poll_write (io : BoundedHttpIo) (cancelled : bool) (now : Z) (inner : InnerPoll) : BoundedHttpIo * Polled :=
  match poll_write_boundary io cancelled now with
  | Err e => (io, PollError e)
  | Ok _ => (if progressed inner then reset_write_idle io now else io, polled inner)
  end.

Definition poll_flush (io : BoundedHttpIo) (cancelled : bool) (now : Z) (inner : InnerPoll) : BoundedHttpIo * Polled :=
  match poll_write_boundary io cancelled now with
  | Err e => (io, PollError e)
  | Ok _ => (io, polled inner)
  end.

Inductive IoOp := OpRead | OpWrite | OpFlush.

Definition poll_op (op : IoOp) : BoundedHttpIo -> bool -> Z -> InnerPoll -> BoundedHttpIo * Polled :=
  match op with OpRead => poll_read | OpWrite => poll_write | OpFlush => poll_flush end.

(** What the HTTP library does with a connection: polls, each with its time,
    whether the server is shutting down, and the socket's answer. *)
Record IoPoll := { ip_op : IoOp; ip_now : Z; ip_cancelled : bool; ip_inner : InnerPoll }.

Fixpoint poll_all (io : BoundedHttpIo) (polls : list IoPoll) : BoundedHttpIo * list (IoPoll * Polled) :=
  match polls with
  | [] => (io, [])
  | p :: rest =>
      let '(io1, r) := poll_op (ip_op p) io (ip_cancelled p) (ip_now p) (ip_inner p) in
      let '(io2, results) := poll_all io1 rest in
      (io2, (p, r) :: results)
  end.

(** * The authority watch *)

(** The provider's answer to a validation started at an instant, and how long
    it takes; the system time of an instant. *)
Record Watched := {
  wt_context : AuthorityContext;
  wt_clock : Z -> option Z;
  wt_elapsed : Z -> Z;
  wt_answer : Z -> AuthorityGrantMetadata -> Result unit AuthorityProviderError;
  wt_closed : Z -> bool;
}.

(** [matches!(timeout(1 s, validate_provider()), Ok(Ok(())))]. *)
Definition still_valid (s : Watched) (now : Z) : bool :=
  (wt_elapsed s now <=? from_secs 1) && is_ok (validate_provider (wt_context s) (wt_clock s now) (wt_answer s now)).

(** The loop of [wait_for_authority_end]: the instant the adapter is closed.
    [None] when [fuel] ends first. *)
Fixpoint watch_authority (fuel : nat) (s : Watched) (deadline now : Z) : option Z :=
  match fuel with
  | O => None
  | S fuel' =>
      if wt_closed s now || (deadline <=? now) then Some now
      else
        let validated := now + Z.min (wt_elapsed s now) (from_secs 1) in
        if negb (still_valid s now) then Some validated
        else watch_authority fuel' s deadline (Z.max validated (Z.min (validated + from_millis 250) deadline))
  end.

(** Each round takes 250 ms, or reaches the deadline. *)
Definition watch_rounds (deadline now : Z) : nat := S (S (Z.to_nat ((deadline - now) / from_millis 250))).

Definition wait_for_authority_end (s : Watched) (deadline now : Z) : option Z :=
  match cx_provider (wt_context s) with
  | None => Some (Z.max now deadline)
  | Some _ => watch_authority (watch_rounds deadline now) s deadline now
  end.

(** * Configurations *)

Definition whole_seconds (d limit : Z) : Prop := exists n, 1 <= n <= limit /\ d = from_secs n.

Lemma validate_duration_iff value limit label : 0 <= value ->
  validate_duration_seconds value limit label = Ok tt <-> whole_seconds value limit.
Proof.
  intros Hv. unfold validate_duration_seconds, whole_seconds, from_secs. split.
  - intros H. res_inv. zbool. exists (value / 1000000000).
    pose proof (Z.div_mod value 1000000000 ltac:(lia)). lia.
  - intros (n & Hn & ->). unfold ensure_not. rewrite Z_mod_mult.
    rewrite (proj2 (Z.ltb_ge _ _)) by lia. rewrite (proj2 (Z.ltb_ge (limit * _) _)) by lia. done.
Qed.

(** A piece of an endpoint. *)
Definition segment_byte (b : Z) : bool := is_ascii_alphanumeric b || (b =? 45) || (b =? 95) || (b =? 46).
Definition segment_ok (segment : string) : Prop :=
  segment <> EmptyString /\ bytes_all segment_byte segment = true /\ contains_str ".." segment = false.

Record http_config_ok (c : McpHttpConfig) : Prop := {
  hco_loopback : is_loopback (mhc_bind c) = true;
  hco_endpoint : valid_endpoint (mhc_endpoint c) = true;
  hco_authorization : 32 <= slen (mhc_authorization c) <= 4096;
  hco_body : 1 <= mhc_max_request_body_bytes c <= HARD_MAX_HTTP_BODY_BYTES;
  hco_inflight : 1 <= mhc_max_inflight_requests c <= mhc_max_connections c;
  hco_connections : mhc_max_connections c <= HARD_MAX_HTTP_CONNECTIONS;
  hco_idle : whole_seconds (mhc_io_idle_timeout c) HARD_HTTP_IO_IDLE_TIMEOUT_SECONDS;
  hco_lifetime : whole_seconds (mhc_connection_lifetime c) HARD_HTTP_CONNECTION_LIFETIME_SECONDS;
  hco_request : whole_seconds (mhc_request_timeout c) HARD_HTTP_REQUEST_TIMEOUT_SECONDS;
  hco_nested : mhc_request_timeout c <= mhc_connection_lifetime c;
}.

(** The values of unsigned types. *)
Definition http_config_typed (c : McpHttpConfig) : Prop :=
  0 <= mhc_max_request_body_bytes c /\ 0 <= mhc_max_inflight_requests c /\ 0 <= mhc_max_connections c /\
  0 <= mhc_io_idle_timeout c /\ 0 <= mhc_connection_lifetime c /\ 0 <= mhc_request_timeout c.

Lemma http_config_iff c : http_config_typed c -> http_config_validate c = Ok tt <-> http_config_ok c.
Proof.
  intros (H1 & H2 & H3 & H4 & H5 & H6). unfold http_config_validate. split.
  - intros H. res_inv. repeat match goal with u : () |- _ => destruct u end.
    repeat match goal with H : validate_duration_seconds _ _ _ = Ok tt |- _ => apply validate_duration_iff in H; [|assumption] end.
    zbool. split; try done; try (rewrite negb_false_iff in *; done); unfold HARD_MAX_HTTP_CONNECTIONS in *; lia.
  - intros [Hl He Ha Hb Hi Hc Hd1 Hd2 Hd3 Hn].
    assert (HARD_MAX_HTTP_CONNECTIONS = HARD_MAX_HTTP_INFLIGHT_REQUESTS) by done.
    rewrite Hl, He. unfold ensure_not.
    repeat match goal with |- context [?a <? ?b] => rewrite (proj2 (Z.ltb_ge a b)) by lia end.
    repeat match goal with |- context [?a =? 0] => rewrite (proj2 (Z.eqb_neq a 0)) by lia end.
    cbn [negb orb rbind].
    by rewrite (proj2 (validate_duration_iff _ _ _ H4) Hd1), (proj2 (validate_duration_iff _ _ _ H5) Hd2),
      (proj2 (validate_duration_iff _ _ _ H6) Hd3).
Qed.

(** ** Endpoints *)

Lemma contains_str_iff p s : contains_str p s = true <-> exists a b, s = a +:+ p +:+ b.
Proof.
  induction s as [|x s IH]; cbn [contains_str]; rewrite orb_true_iff; unfold starts_with.
  - split; [|intros (a & b & E); destruct a; [|done]; left; change (p +:+ b) with ("" +:+ p +:+ b) in E].
    + intros [H|H]; [|done]. destruct (Text.strip_prefix p "") eqn:E; [|done]. apply strip_prefix_Some in E. by exists "", s.
    + by rewrite (proj2 (strip_prefix_Some _ _ b) E).
  - rewrite IH. split.
    + intros [H|(a & b & ->)]; [|by exists (String x a), b].
      destruct (Text.strip_prefix p (String x s)) eqn:E; [|done]. apply strip_prefix_Some in E. by exists "", s0.
    + intros (a & b & E). destruct a as [|y a].
      * left. by rewrite (proj2 (strip_prefix_Some _ _ b) E).
      * right. injection E as _ ->. by exists a, b.
Qed.

(** A piece of a split lies in the string and has no separator. *)
Lemma split_char_piece c s piece : piece ∈ split_char c s -> (exists a b, s = a +:+ piece +:+ b) /\ has_char c piece = false.
Proof.
  revert piece. induction s as [|x s IH]; intros piece; cbn [split_char].
  - rewrite list_elem_of_singleton. intros ->. split; [by exists "", ""|done].
  - destruct (x =? c)%char eqn:Ex.
    + rewrite elem_of_cons. intros [->|H]; [split; [by exists "", (String x s)|done]|].
      destruct (IH _ H) as [(a & b & ->) Hc]. split; [by exists (String x a), b|done].
    + destruct (split_char c s) as [|q qs] eqn:E; [by destruct (split_char_nonempty c s)|].
      rewrite elem_of_cons. intros [->|H].
      * destruct (IH q ltac:(constructor)) as [_ Hc]. split.
        { exists "". pose proof (split_char_concat c s) as Hs. rewrite E in Hs. destruct qs as [|q' qs].
          - exists "". rewrite <- Hs. change (String x q = String x q +:+ ""). symmetry. apply string_app_nil.
          - exists (String.concat (String c "") ("" :: q' :: qs)). rewrite <- Hs. done. }
        unfold has_char in *. cbn. rewrite Hc, orb_false_r. apply Z.eqb_neq. intros Eb. apply byte_of_inj in Eb as ->.
        by rewrite Ascii.eqb_refl in Ex.
      * destruct (IH piece ltac:(by constructor)) as [(a & b & ->) Hc]. split; [by exists (String x a), b|done].
Qed.

(** Empty pieces after the first come from doubled or final separators. *)
Lemma split_char_empty_piece c s : "" ∈ List.tl (split_char c s) ->
  ends_with_char c s = true \/ contains_str (String c (String c "")) s = true.
Proof.
  assert (Hends : forall x s, ends_with_char c s = true -> ends_with_char c (String x s) = true) by (by intros ? []).
  induction s as [|x s IH]; cbn [split_char List.tl]; [by intros ?%not_elem_of_nil|].
  destruct (x =? c)%char eqn:Ex.
  - apply Ascii.eqb_eq in Ex as ->. cbn [List.tl]. destruct s as [|y s].
    { intros _. left. cbn. by rewrite Ascii.eqb_refl. }
    intros H. destruct (y =? c)%char eqn:Ey.
    + apply Ascii.eqb_eq in Ey as ->. right. cbn. unfold starts_with. cbn. by rewrite Ascii.eqb_refl.
    + assert (Ht : "" ∈ List.tl (split_char c (String y s))).
      { cbn in H |- *. rewrite Ey in *. destruct (split_char c s) as [|q qs]; cbn; [set_solver|].
        rewrite elem_of_cons in H. by destruct H. }
      destruct (IH Ht) as [He|Hc]; [left; by apply Hends | right]. cbn [contains_str] in *. by rewrite Hc, orb_true_r.
  - intros H. assert (Ht : "" ∈ List.tl (split_char c s)).
    { destruct (split_char c s) as [|q qs]; cbn in *; [set_solver|done]. }
    destruct (IH Ht) as [He|Hc]; [left; by apply Hends | right]. cbn [contains_str] in *. by rewrite Hc, orb_true_r.
Qed.

Lemma bytes_all_and f g h s : (forall b, f b = true -> g b = true -> h b = true) ->
  bytes_all f s = true -> bytes_all g s = true -> bytes_all h s = true.
Proof.
  intros H. induction s as [|c s IH]; cbn; [done|]. rewrite !andb_true_iff. intros [? ?] [? ?]. auto.
Qed.

Lemma bytes_any_all f s : bytes_any f s = false -> bytes_all (fun b => negb (f b)) s = true.
Proof. induction s as [|c s IH]; cbn; [done|]. rewrite orb_false_iff. intros [-> ?]. auto. Qed.

(** An endpoint is a path of non-empty pieces without [..]. *)
Lemma valid_endpoint_segments endpoint : valid_endpoint endpoint = true ->
  slen endpoint <= MAX_HTTP_ENDPOINT_BYTES /\
  exists segments, segments <> [] /\ endpoint = "/" +:+ String.concat "/" segments /\ Forall segment_ok segments.
Proof.
  unfold valid_endpoint. rewrite !andb_true_iff, !negb_true_iff. intros ((((((((_ & Hl) & Hs) & Hr) & He) & Hd) & Hp) & Hq) & Hb).
  destruct endpoint as [|x rest]; [done|]. cbn in Hs. apply Ascii.eqb_eq in Hs as ->. split; [by apply Z.leb_le|].
  assert (Hsplit : List.tl (split_char "/" (String "/" rest)) = split_char "/" rest) by done.
  exists (split_char "/" rest). split_and!.
  - apply split_char_nonempty.
  - by rewrite (split_char_concat "/" rest).
  - apply Forall_forall. intros piece Hin. destruct (split_char_piece _ _ _ Hin) as [(a & b & Eab) Hc].
    assert (Hall : bytes_all (fun b => is_ascii_alphanumeric b || (b =? 47) || (b =? 45) || (b =? 95) || (b =? 46)) piece = true).
    { change (String "/" rest) with ("/" +:+ rest) in Hb. rewrite Eab, !bytes_all_app, !andb_true_iff in Hb. naive_solver. }
    split_and!.
    + intros ->. rewrite <- Hsplit in Hin. destruct (split_char_empty_piece _ _ Hin) as [E|E]; congruence.
    + eapply bytes_all_and; [|exact Hall|apply (bytes_any_all _ _ Hc)]. intros z H1 H2. cbn beta in H1, H2. unfold segment_byte.
      change (byte_of "/") with 47 in H2. rewrite negb_true_iff, Z.eqb_sym in H2. rewrite H2, orb_false_r in H1. exact H1.
    + destruct (contains_str ".." piece) eqn:E; [|done]. apply contains_str_iff in E as (a' & b' & ->).
      assert (contains_str ".." (String "/" rest) = true); [|congruence].
      apply contains_str_iff. exists ("/" +:+ a +:+ a'), (b' +:+ b). rewrite Eab. by rewrite !string_app_assoc.
Qed.

(** The HTTP configurations that are accepted are exactly the bounded
    loopback ones: a token of 32 to 4096 bytes, body, request and connection
    limits within their ceilings and nested, timeouts of whole seconds within
    theirs; and an accepted endpoint is an absolute path of non-empty pieces of
    letters, digits, [-], [_] and [.], none with [..]. *)
Theorem http_config_accepted c : http_config_typed c ->
  (http_config_validate c = Ok tt <-> http_config_ok c) /\
  (http_config_validate c = Ok tt -> slen (mhc_endpoint c) <= 128 /\
     exists segments, segments <> [] /\ mhc_endpoint c = "/" +:+ String.concat "/" segments /\ Forall segment_ok segments).
Proof.
  intros Ht. pose proof (http_config_iff c Ht) as Hiff. split; [exact Hiff|].
  intros H%Hiff. exact (valid_endpoint_segments _ (hco_endpoint _ H)).
Qed.

Definition sample_http_config : McpHttpConfig := http_config_new "0123456789abcdef0123456789abcdef".

Lemma http_config_accepted_witness : http_config_ok sample_http_config /\
  exists segments, segments <> [] /\ "/mcp" = "/" +:+ String.concat "/" segments /\ Forall segment_ok segments.
Proof.
  destruct (http_config_accepted sample_http_config) as [H1 H2].
  - vm_compute. by split_and!.
  - split; [apply H1; vm_compute; reflexivity|]. apply H2. vm_compute. reflexivity.
Defined.

Lemma serve_config_image_bound c : 0 <= msc_max_image_bytes c -> serve_config_validate c = Ok tt ->
  msc_max_image_bytes c <= MAX_CACHED_IMAGE_BYTES.
Proof. intros H0 H. unfold serve_config_validate, HARD_MAX_IMAGE_BYTES, MAX_CACHED_IMAGE_BYTES in *. res_inv. zbool. lia. Qed.

(** An accepted server configuration fits what it configures.  Exactly the
    configurations within the bounds are accepted; the runtime then never
    rejects its own configuration, whatever the policies, and an image the
    adapter may return always fits its cache. *)
Theorem serve_config_fits c policies :
  0 <= msc_max_image_bytes c -> 0 <= msc_max_observation_age_seconds c ->
  (serve_config_validate c = Ok tt <->
     1 <= msc_max_image_bytes c <= 33554432 /\ 1 <= msc_max_image_edge c <= 4096 /\
     1 <= msc_max_observation_age_seconds c <= 300) /\
  (serve_config_validate c = Ok tt ->
     config_rejected (runtime_config_of c policies) = false /\ msc_max_image_bytes c <= MAX_CACHED_IMAGE_BYTES).
Proof.
  intros H1 H2.
  assert (Hiff : serve_config_validate c = Ok tt <->
     1 <= msc_max_image_bytes c <= 33554432 /\ 1 <= msc_max_image_edge c <= 4096 /\
     1 <= msc_max_observation_age_seconds c <= 300).
  { unfold serve_config_validate, HARD_MAX_IMAGE_BYTES, HARD_MAX_OBSERVATION_AGE_SECONDS. split.
    - intros H. res_inv. zbool. lia.
    - intros (Hb & He & Ha). unfold ensure_not.
      repeat match goal with |- context [?a <? ?b] => rewrite (proj2 (Z.ltb_ge a b)) by lia end.
      repeat match goal with |- context [?a =? 0] => rewrite (proj2 (Z.eqb_neq a 0)) by lia end.
      repeat match goal with |- context [?a <=? ?b] => rewrite (proj2 (Z.leb_le a b)) by lia end. done. }
  split; [exact Hiff|]. intros Hc. split; [|by apply serve_config_image_bound]. apply Hiff in Hc as (Hb & He & Ha).
  unfold config_rejected, runtime_config_of, from_secs. cbn -[Z.mul Z.leb].
  rewrite (proj2 (Z.eqb_neq (msc_max_observation_age_seconds c * 1000000000) 0)) by lia.
  repeat match goal with |- context [?a <=? ?b] => rewrite (proj2 (Z.leb_le a b)) by lia end. done.
Qed.

Lemma serve_config_fits_witness :
  config_rejected (runtime_config_of (serve_config_new (ProviderSource "desk") "/tmp/a") {| managed := None; user := None |}) = false.
Proof.
  apply serve_config_fits; vm_compute; [discriminate | discriminate | reflexivity].
Defined.

(** * The request guard *)

Lemma bearer_matches_iff request token :
  bearer_matches request token = true <-> hr_authorization request = Some ("Bearer " +:+ token).
Proof.
  unfold bearer_matches. destruct (hr_authorization request) as [value|]; [|naive_solver].
  destruct (Text.strip_prefix "Bearer " value) as [candidate|] eqn:E.
  - apply strip_prefix_Some in E as ->. rewrite andb_true_iff, str_eqb_eq. split.
    + by intros [_ ->].
    + intros [= H]. change (candidate = token) in H. split; [|done]. rewrite H. apply Z.eqb_refl.
  - split; [done|]. intros [= ->]. by rewrite (proj2 (strip_prefix_Some _ _ token) eq_refl) in E.
Qed.

(** What lets a request through. *)
Definition admissible (token : AuthorizationToken) (request : HttpRequest) : Prop :=
  hr_origin request = false /\ hr_authorization request = Some ("Bearer " +:+ token).

Lemma authorize_http_runs {R} token timeout permits (next : Z * R) request p :
  fst (authorize_http token timeout permits next request) = Some p <-> admissible token request /\ 0 < permits /\ p = permits - 1.
Proof.
  unfold authorize_http, admissible. destruct (hr_origin request); [naive_solver|].
  destruct (bearer_matches request token) eqn:E; cbn [negb].
  - apply bearer_matches_iff in E. destruct (Z.leb_spec permits 0); cbn; [naive_solver lia | naive_solver].
  - split; [done|]. intros ((_ & Ha) & _). apply bearer_matches_iff in Ha. congruence.
Qed.

Lemma guard_run_spec token limit permits events : 0 <= permits <= limit ->
  let '(permits', reached) := guard_run token limit permits events in 0 <= permits' <= limit /\ Forall (admissible token) reached.
Proof.
  revert permits. induction events as [|[request|] events IH]; intros permits Hp; cbn [guard_run]; [done| |apply IH; lia].
  destruct (fst (authorize_http token 0 permits (0, tt) request)) as [p|] eqn:E; [|by apply IH].
  apply authorize_http_runs in E as (Ha & Hpos & ->). specialize (IH (permits - 1) ltac:(lia)).
  destruct (guard_run _ _ _ _) as [p r]. destruct IH. split; [done|]. by constructor.
Qed.

(** The tools are reached only through the guard.  A request runs exactly
    when it has no [Origin], carries the exact bearer token and a permit is
    free, and then takes one; otherwise it is refused as forbidden,
    unauthorized or busy, in this order.  A run past the timeout is answered
    with a timeout.  Over any sequence of requests no more than the configured
    number run at once, and each of them was authorized. *)
Theorem http_guard {R} token timeout permits (next : Z * R) request :
  let answer := snd (authorize_http token timeout permits next request) in
  (forall p, fst (authorize_http token timeout permits next request) = Some p <-> admissible token request /\ 0 < permits /\ p = permits - 1) /\
  (hr_origin request = true -> answer = inl StatusForbidden) /\
  (hr_origin request = false -> hr_authorization request <> Some ("Bearer " +:+ token) -> answer = inl StatusUnauthorized) /\
  (admissible token request -> permits <= 0 -> answer = inl StatusUnavailable) /\
  (admissible token request -> 0 < permits ->
     answer = if fst next <=? timeout then inr (snd next) else inl StatusRequestTimeout) /\
  (forall limit events, 0 <= limit ->
     let '(free, reached) := guard_run token limit limit events in 0 <= free <= limit /\ Forall (admissible token) reached).
Proof.
  cbn zeta. split_and!.
  - intros p. apply authorize_http_runs.
  - unfold authorize_http. by intros ->.
  - unfold authorize_http. intros -> Ha. destruct (bearer_matches request token) eqn:E; [|done]. by apply bearer_matches_iff in E.
  - unfold authorize_http, admissible. intros [-> Ha%bearer_matches_iff] Hp. rewrite Ha. by rewrite (proj2 (Z.leb_le _ _) Hp).
  - unfold authorize_http, admissible. intros [-> Ha%bearer_matches_iff] Hp. rewrite Ha. by rewrite (proj2 (Z.leb_gt _ _) Hp).
  - intros limit events Hl. apply guard_run_spec. lia.
Qed.

(** * Bounded connections *)

Definition is_read (op : IoOp) : bool := match op with OpRead => true | _ => false end.

(** The time a direction last moved bytes, [start] before it did. *)
Definition progress_step (reading : bool) (last : Z) (x : IoPoll * Polled) : Z :=
  match ip_op x.1, x.2 with
  | OpFlush, _ => last
  | op, PollReady n => if Bool.eqb (is_read op) reading && (0 <? n) then ip_now x.1 else last
  | _, _ => last
  end.

Definition last_progress (reading : bool) (start : Z) (results : list (IoPoll * Polled)) : Z :=
  fold_left (progress_step reading) results start.

(** The answer a poll must get, from when its direction last moved bytes. *)
Definition bounded_answer (lifetime_end idle_end : Z) (p : IoPoll) : Polled :=
  if ip_cancelled p then PollError IoShuttingDown
  else if lifetime_end <=? ip_now p then PollError IoLifetime
  else if idle_end <=? ip_now p then PollError (if is_read (ip_op p) then IoReadIdle else IoWriteIdle)
  else polled (ip_inner p).

Definition io_at (idle lifetime_end last_read last_write : Z) : BoundedHttpIo := {|
  bio_idle_timeout := idle; bio_read_idle := last_read + idle; bio_write_idle := last_write + idle;
  bio_read_lifetime := lifetime_end; bio_write_lifetime := lifetime_end |}.

Lemma poll_op_bounded idle lifetime_end lr lw p :
  let r := bounded_answer lifetime_end ((if is_read (ip_op p) then lr else lw) + idle) p in
  poll_op (ip_op p) (io_at idle lifetime_end lr lw) (ip_cancelled p) (ip_now p) (ip_inner p)
  = (io_at idle lifetime_end (progress_step true lr (p, r)) (progress_step false lw (p, r)), r).
Proof.
  destruct p as [op now cancelled inner]. cbn -[io_at].
  destruct op; cbn; unfold poll_read, poll_write, poll_flush, poll_read_boundary, poll_write_boundary, bounded_answer, progress_step; cbn;
    destruct cancelled; cbn; try done; destruct (lifetime_end <=? now); cbn; try done;
    match goal with |- context [?a <=? now] => destruct (a <=? now) end; cbn; try done;
    destruct inner; cbn; try done; by destruct (0 <? n).
Qed.

Lemma poll_all_bounded idle lifetime_end lr lw polls io results before p r after :
  poll_all (io_at idle lifetime_end lr lw) polls = (io, results) -> results = before ++ (p, r) :: after ->
  r = bounded_answer lifetime_end (last_progress (is_read (ip_op p)) (if is_read (ip_op p) then lr else lw) before + idle) p.
Proof.
  revert lr lw io results before. induction polls as [|q polls IH]; intros lr lw io results before; cbn [poll_all].
  - intros [= <- <-] H. by destruct before.
  - rewrite poll_op_bounded. destruct (poll_all _ polls) as [io2 results2] eqn:E. intros [= <- <-] H.
    destruct before as [|x before]; cbn [app] in H.
    + injection H as -> <- _. done.
    + injection H as Hx Hrest. rewrite (IH _ _ _ _ _ E Hrest), <- Hx. cbn [last_progress fold_left]. by destruct (is_read (ip_op p)).
Qed.



(** * The authority watch *)

(** The provider confirms the grant at [u]: within a second, while the system
    time is readable and before the grant's expiry. *)
Definition confirms (s : Watched) (u : Z) : Prop :=
  wt_elapsed s u <= from_secs 1 /\
  match cx_provider (wt_context s) with
  | None => True
  | Some metadata =>
      cx_provider_client (wt_context s) = true /\
      (exists unix_ms, wt_clock s u = Some unix_ms /\ unix_ms <= U64_MAX /\ unix_ms < gm_expires_at_unix_ms metadata) /\
      wt_answer s u metadata = Ok tt
  end.

Lemma still_valid_iff s u : still_valid s u = true <-> confirms s u.
Proof.
  unfold still_valid, confirms, validate_provider, current_unix_ms, from_secs. rewrite andb_true_iff, Z.leb_le.
  destruct (cx_provider (wt_context s)) as [metadata|]; [|naive_solver].
  destruct (cx_provider_client (wt_context s)); [|naive_solver].
  destruct (wt_clock s u) as [ms|]; cbn -[U64_MAX Z.ltb Z.leb]; [|naive_solver]. unfold ensure_not.
  destruct (Z.ltb_spec U64_MAX ms); cbn -[U64_MAX Z.ltb Z.leb].
  { split; [naive_solver|]. intros (_ & _ & (? & [= <-] & ? & ?) & _). lia. }
  destruct (Z.leb_spec (gm_expires_at_unix_ms metadata) ms); cbn -[U64_MAX].
  { split; [naive_solver|]. intros (_ & _ & (? & [= <-] & ? & ?) & _). lia. }
  destruct (wt_answer s u metadata) as [[]|e]; naive_solver.
Qed.

Lemma still_valid_false s u : still_valid s u = false <-> ~ confirms s u.
Proof. rewrite <- still_valid_iff. by destruct (still_valid s u). Qed.

Section Watch.
Context (s : Watched).
Hypothesis elapsed_nonneg : forall t, 0 <= wt_elapsed s t.

Definition next_round (deadline now : Z) : Z :=
  let validated := now + Z.min (wt_elapsed s now) (from_secs 1) in
  Z.max validated (Z.min (validated + from_millis 250) deadline).

Lemma next_round_bounds deadline now : now < deadline ->
  (now + from_millis 250 <= next_round deadline now \/ deadline <= next_round deadline now) /\
  now <= next_round deadline now <= now + from_secs 1 + from_millis 250 /\ next_round deadline now <= deadline + from_secs 1.
Proof. intros H. unfold next_round, from_secs, from_millis. pose proof (elapsed_nonneg now). lia. Qed.

(** The watch ends: a round takes 250 ms or reaches the deadline. *)
Lemma watch_authority_ends fuel deadline now :
  (watch_rounds deadline now <= fuel)%nat -> exists t, watch_authority fuel s deadline now = Some t.
Proof.
  revert now. induction fuel as [|fuel IH]; intros now Hf; [unfold watch_rounds in Hf; lia|].
  cbn [watch_authority]. destruct (wt_closed s now); cbn [orb]; [by eexists|].
  destruct (Z.leb_spec deadline now); [by eexists|]. destruct (still_valid s now); cbn [negb]; [|by eexists].
  fold (next_round deadline now). destruct (next_round_bounds deadline now ltac:(lia)) as [Hb _].
  destruct (Z.lt_ge_cases (next_round deadline now) deadline) as [Hn|Hn].
  - apply IH. unfold watch_rounds in *.
    assert ((deadline - next_round deadline now) / from_millis 250 <= (deadline - now) / from_millis 250 - 1).
    { transitivity ((deadline - now - 1 * from_millis 250) / from_millis 250); [apply Z.div_le_mono; unfold from_millis in *; lia|].
      replace (deadline - now - 1 * from_millis 250) with (deadline - now + (-1) * from_millis 250) by lia.
      rewrite Z.div_add by (unfold from_millis; lia). lia. }
    pose proof (Z.div_pos (deadline - now) (from_millis 250) ltac:(lia) ltac:(unfold from_millis; lia)).
    pose proof (Z.div_pos (deadline - next_round deadline now) (from_millis 250) ltac:(lia) ltac:(unfold from_millis; lia)). lia.
  - destruct fuel as [|fuel]; [unfold watch_rounds in Hf; lia|]. exists (next_round deadline now).
    cbn [watch_authority]. by rewrite (proj2 (Z.leb_le _ _) Hn), orb_true_r.
Qed.

(** When it ends, and why. *)
Lemma watch_authority_when fuel deadline now t : watch_authority fuel s deadline now = Some t ->
  now <= t <= Z.max now (deadline + from_secs 1) /\
  (t < deadline -> exists u, now <= u <= t /\ (wt_closed s u = true \/ ~ confirms s u)) /\
  (forall r, (forall u, r <= u -> ~ confirms s u) -> t <= Z.max now (r + from_secs 1 + from_millis 250) + from_secs 1) /\
  (forall r, (forall u, r <= u -> wt_closed s u = true) -> t <= Z.max now (r + from_secs 1 + from_millis 250)).
Proof.
  revert now. induction fuel as [|fuel IH]; intros now; cbn [watch_authority]; [done|].
  pose proof (elapsed_nonneg now) as He.
  destruct (wt_closed s now) eqn:Ec; cbn [orb].
  { intros [= ->]. unfold from_secs, from_millis. split; [lia|]. split; [|split; intros; lia].
    intros _. exists t. split; [lia|by left]. }
  destruct (Z.leb_spec deadline now).
  { intros [= ->]. unfold from_secs, from_millis. split_and!; intros; lia. }
  assert (Hnow : forall r, (forall u, r <= u -> wt_closed s u = true) -> now < r).
  { intros r Hr. destruct (Z.lt_ge_cases now r) as [|Hge]; [done|]. rewrite (Hr now ltac:(lia)) in Ec. done. }
  destruct (still_valid s now) eqn:Ev; cbn [negb].
  - fold (next_round deadline now). intros Ht. destruct (next_round_bounds deadline now ltac:(lia)) as (_ & Hb1 & Hb2).
    destruct (IH _ Ht) as (Hi1 & Hi2 & Hi3 & Hi4).
    assert (Hvalid : forall r, (forall u, r <= u -> ~ confirms s u) -> now < r).
    { intros r Hr. destruct (Z.lt_ge_cases now r) as [|Hge]; [done|]. by destruct (Hr now ltac:(lia)); apply still_valid_iff. }
    split; [lia|]. split_and!.
    + intros Hlt. destruct (Hi2 Hlt) as (u & Hu & Hw). exists u. split; [lia|done].
    + intros r Hr. specialize (Hi3 r Hr). specialize (Hvalid r Hr). lia.
    + intros r Hr. specialize (Hi4 r Hr). specialize (Hnow r Hr). lia.
  - intros [= <-]. unfold from_secs, from_millis in *. split; [lia|]. split_and!.
    + intros _. exists now. split; [lia|]. right. by apply still_valid_false.
    + intros r Hr. lia.
    + intros r Hr. specialize (Hnow r Hr). lia.
Qed.

End Watch.

(** C32: the authority watch ends, and ends in time.  It always closes the
    adapter: without a provider at the deadline, with one at most one second
    after it, and before it only when the adapter was closed or the provider
    failed to confirm the grant within a second.  Once the provider stops
    confirming, it closes within 2.25 seconds; once the adapter is closed, it
    ends within 1.25 seconds. *)
Theorem authority_watch_ends s deadline now : (forall t, 0 <= wt_elapsed s t) ->
  exists t, wait_for_authority_end s deadline now = Some t /\
    now <= t <= Z.max now (deadline + from_secs 1) /\
    (cx_provider (wt_context s) = None -> t = Z.max now deadline) /\
    (cx_provider (wt_context s) <> None ->
      (t < deadline -> exists u, now <= u <= t /\ (wt_closed s u = true \/ ~ confirms s u)) /\
      (forall r, (forall u, r <= u -> ~ confirms s u) -> t <= Z.max now (r + from_millis 1250) + from_secs 1) /\
      (forall r, (forall u, r <= u -> wt_closed s u = true) -> t <= Z.max now (r + from_millis 1250))).
Proof.
  intros He. unfold wait_for_authority_end. destruct (cx_provider (wt_context s)).
  - destruct (watch_authority_ends s He _ deadline now (le_n _)) as [t Ht]. exists t. split; [done|].
    destruct (watch_authority_when s He _ _ _ _ Ht) as (H1 & H2 & H3 & H4). split; [exact H1|]. split; [done|]. intros _.
    split; [exact H2|]. unfold from_secs, from_millis in *. split.
    + intros r Hr. specialize (H3 r Hr). lia.
    + intros r Hr. specialize (H4 r Hr). lia.
  - exists (Z.max now deadline). split; [done|]. unfold from_secs. split_and!; [lia|lia|done|done].
Qed.

(** A provider that denies from 400 ms on, asked in 10 ms: at 0, at 260 ms and
    at 520 ms, where the watch ends 10 ms later. *)
Definition denying_provider : Watched := {|
  wt_context := {| cx_policy := sample_policy;
    cx_provider := Some {| gm_provider_id := "p"; gm_registration_id := "r"; gm_principal := "u"; gm_work_scope := "s";
      gm_request_namespace := "n"; gm_runtime_epoch := "e"; gm_worker_epoch := None; gm_expires_at_unix_ms := 10000 |};
    cx_provider_client := true |};
  wt_clock := fun _ => Some 5000;
  wt_elapsed := fun _ => from_millis 10;
  wt_answer := fun now _ => if now <? from_millis 400 then Ok tt else Err ProviderDenied;
  wt_closed := fun _ => false |}.

Lemma authority_watch_ends_witness :
  wait_for_authority_end denying_provider (from_secs 60) 0 = Some (from_millis 530) /\
  from_millis 530 <= Z.max 0 (from_millis 400 + from_millis 1250) + from_secs 1.
Proof.
  destruct (authority_watch_ends denying_provider (from_secs 60) 0) as (t & Ht & _ & _ & Hp).
  - intros t. vm_compute. discriminate.
  - assert (E : wait_for_authority_end denying_provider (from_secs 60) 0 = Some (from_millis 530)) by (vm_compute; reflexivity).
    split; [exact E|]. rewrite E in Ht. injection Ht as <-. destruct Hp as (_ & Hp & _); [vm_compute; discriminate|].
    apply Hp. intros u Hu (_ & _ & _ & Ha). cbn -[from_millis] in Ha. by rewrite (proj2 (Z.ltb_ge _ _) Hu) in Ha.
Defined.
