(* ===== verification/Serving.v ===== *)
(** Serving the tools: [serve_stdio], [serve_http_until], [bootstrap_adapter]
    and [resolve_authority] of [src/crates/mcp/src/runner.rs], with
    [bootstrap_with_authority_context] of [server.rs] and [Runtime::new].

    A process computation passes the adapter's state, records what the process
    does, and gives a value or panics.  The platform driver, the directory of
    the artifacts, the authority file and provider, the listener and the
    library that runs the connections are parameters.  The theorems: which
    authority an adapter serves, and that every way out of serving leaves the
    adapter closed, without a session, and the runtime shut down. *)

From stdpp Require Import pretty.
From Stdlib Require Import Ascii String.
From S2P Require Import Prelude Floats Geometry Text Protocol Errors Policy Validation Driver Session Artifacts Runtime Frame Dispatcher Authority ImageCache Adapter Runner.
#[local] Open Scope Z_scope.

(** * Starting the runtime *)

(** [Runtime::new]: [configure] is the driver's [configure_max_image_edge],
    [store] prepares the artifact directory, [n] counts the identifiers drawn
    before. *)
Definition runtime_new `{!UuidSource} (configure : Z -> Result unit DriverError) (store : RuntimeConfig -> Result unit CuaError)
    (c : RuntimeConfig) (n : nat) : Result Runtime CuaError :=
  ensure_not (config_rejected c)
    (public_error InvalidRequest "runtime resource and lifetime bounds must be non-zero" false None) ;?
  rmap_err cua_error_from (configure (max_image_edge c)) ;?
  store c ;?
  Ok {| config := c; epoch := "runtime_" +:+ uuid n |}.

(** The [Display] of [TransportError]. *)
Definition transport_error_text (e : TransportError) : string :=
  match e with
  | InvalidConfiguration reason => "invalid transport configuration: " +:+ reason
  | TransportIo source => "local transport I/O failed: " +:+ source
  | InvalidFrame reason => "invalid local transport frame: " +:+ reason
  | InvalidPayload source => "invalid protocol payload: " +:+ source
  end.

(** [resolve_authority]: [load] is [load_development_file], [acquire] the
    provider, [clock] the system time. *)
Definition resolve_authority `{!UuidSource} (load : string -> Result AuthorityPolicy AuthorityError)
    (acquire : AuthorityChallenge -> Result AuthorityGrant AuthorityProviderError) (clock : option Z)
    (source : AuthoritySource) (runtime_epoch : string) (n : nat) : Result AuthorityContext AuthorityError :=
  match source with
  | UnsignedDevelopmentFile path => rmap unsigned_development (load path)
  | ProviderSource registration_id =>
      let? challenge := challenge_new registration_id runtime_epoch None n in
      let? grant := rmap_err AuthorityProvider (acquire challenge) in
      let? now := current_unix_ms clock in
      rmap with_provider (grant_resolve grant challenge now)
  end.

(** * The process *)

Inductive ServeEvent :=
| EvRuntimeStarted
| EvAdapterReady
| EvCall (call : McpCall)
| EvBound
| EvPublished (endpoint : string)
| EvServing
| EvCancelled
| EvRuntimeShutdown.

(** How serving ends: the host asks, the authority ends, or the transport. *)
Inductive ServeEnd :=
| ShutdownRequested
| AuthorityEnded
| TransportEnded (result : Result unit string).

Record Process (D : Type) := {
  ps_digests : DigestEnv;
  ps_policies : PolicyEnv;
  ps_system_driver : Result unit DriverError;
  ps_configure : Z -> Result unit DriverError;
  ps_store : RuntimeConfig -> Result unit CuaError;
  ps_load : string -> Result AuthorityPolicy AuthorityError;
  ps_acquire : AuthorityChallenge -> Result AuthorityGrant AuthorityProviderError;
  ps_debug_error : CuaError -> string;
  ps_debug_list : list string -> string;
  ps_bind : IpAddr -> Z -> Result unit string;
  ps_local_addr : Result string string;
  ps_on_ready : string -> string -> Result unit McpServeError;
  ps_serve : McpWorld D -> McpWorld D * ServeEnd;
  ps_drain : McpWorld D -> McpWorld D;
  ps_shutdown : McpWorld D -> McpWorld D;
}.
Arguments ps_digests {D}. Arguments ps_policies {D}. Arguments ps_system_driver {D}. Arguments ps_configure {D}.
Arguments ps_store {D}. Arguments ps_load {D}. Arguments ps_acquire {D}. Arguments ps_debug_error {D}. Arguments ps_debug_list {D}.
Arguments ps_bind {D}. Arguments ps_local_addr {D}. Arguments ps_on_ready {D}. Arguments ps_serve {D}. Arguments ps_drain {D}.
Arguments ps_shutdown {D}.

Section ProcessMonad.
Context {D : Type}.

Definition P (A : Type) := McpWorld D -> McpWorld D * list ServeEvent * option A.

Definition pret {A} (a : A) : P A := fun w => (w, [], Some a).
Definition pbind {A B} (m : P A) (k : A -> P B) : P B := fun w =>
  match m w with
  | (w', evs, Some a) => let '(w'', evs', r) := k a w' in (w'', evs ++ evs', r)
  | (w', evs, None) => (w', evs, None)
  end.
Definition emit (e : ServeEvent) : P unit := fun w => (w, [e], Some tt).
Definition pmodify (f : McpWorld D -> McpWorld D) : P unit := fun w => (f w, [], Some tt).
Definition pread {A} (f : McpWorld D -> A) : P A := fun w => (w, [], Some (f w)).

(** An adapter method; its calls are the process's. *)
Definition adapter {A} (c : T D A) : P A := fun w =>
  let '(w', t, r) := c w in (w', EvCall <$> t.*2, match r with Gives a => Some a | _ => None end).

(** [?]. *)
Definition ptry {A B E} (r : Result A E) (k : A -> P (Result B E)) : P (Result B E) :=
  match r with Ok a => k a | Err e => pret (Err e) end.

(** A new identifier. *)
Definition draw : P nat := fun w => ({| w with mw_drawn := S (mw_drawn w) |}, [], Some (mw_drawn w)).

End ProcessMonad.

Arguments P : clear implicits.

Notation "'run!' x ':=' m 'in' k" := (pbind m (fun x => k))
  (at level 10, x pattern, m at level 100, k at level 200) : rust_scope.
Notation "m ';&' k" := (pbind m (fun _ => k))
  (at level 199, k at level 200, right associativity) : rust_scope.

Section Serving.
Context {D : Type} `{!McpHost D, !HashOrder, !UuidSource, !Serialize CuaError}.
Context (p : Process D).
Implicit Types w : McpWorld D.

(** [NexusCuaMcp::bootstrap_with_authority_context]. *)
Definition bootstrap_with_authority_context (runtime : Runtime) (authority : AuthorityContext) (max_image_bytes : Z)
    (tool_profile : ToolProfile) : T D (Result NexusCuaMcp BootstrapError) :=
  do! now := tread mw_now in
  let server token := {|
    mcp_authority := authority;
    mcp_authority_deadline := now + from_secs (ap_ttl_seconds (cx_policy authority));
    mcp_max_image_bytes := max_image_bytes;
    mcp_mutation_authorization := token;
    mcp_tool_profile := tool_profile;
    mcp_policy_summary := summary (policy (config runtime));
    mcp_debug_error := ps_debug_error p;
    mcp_debug_list := ps_debug_list p |} in
  do! session := bootstrap_session (server "") in
  match session with
  | Err e => give (Err e)
  | Ok session =>
      do! n := tread mw_drawn in
      tmodify (fun w => {| w with mw_drawn := S (S n) |}) ;>
      let token := ("mcp_" +:+ uuid n +:+ uuid (S n))%string in
      match dispatcher_new (ps_digests p) (epoch runtime) token MUTATION_MAX_INFLIGHT MUTATION_MAX_COMPLETED
              MUTATION_RECONCILIATION_TTL MUTATION_MAX_WAIT_MS with
      | Err e => give (Err (BootTransport (transport_error_text e)))
      | Ok _ =>
          tmodify (fun w => {| w with mw_session := session; mw_closed := false; mw_cache := cache_default |}) ;>
          give (Ok (server token))
      end
  end.

Definition runtime_shutdown : P D unit := emit EvRuntimeShutdown ;& pmodify (ps_shutdown p).

(** [bootstrap_adapter]. *)
Definition bootstrap_adapter (c : McpServeConfig) : P D (Result (Runtime * NexusCuaMcp) McpServeError) :=
  ptry (serve_config_validate c) (fun _ =>
  ptry (rmap_err ServeDriver (ps_system_driver p)) (fun _ =>
  ptry (rmap_err ServePolicy (from_files (ps_policies p) (msc_managed_policy_file c) (msc_policy_file c))) (fun policies =>
  run! n := draw in
  ptry (rmap_err ServeRuntime (runtime_new (ps_configure p) (ps_store p) (runtime_config_of c policies) n)) (fun runtime =>
  emit EvRuntimeStarted ;&
  run! n := draw in
  run! clock := pread mw_clock in
  match resolve_authority (ps_load p) (ps_acquire p) clock (msc_authority c) (epoch runtime) n with
  | Err e => runtime_shutdown ;& pret (Err (ServeAuthority e))
  | Ok authority =>
      run! server := adapter (bootstrap_with_authority_context runtime authority (msc_max_image_bytes c) (msc_tool_profile c)) in
      match server with
      | Err e => runtime_shutdown ;& pret (Err (ServeBootstrap e))
      | Ok server => emit EvAdapterReady ;& pret (Ok (runtime, server))
      end
  end)))).

Definition close_server : P D unit := adapter close_adapter.

(** What serving over a transport ends with; a shutdown or the end of the
    authority closes the adapter first. *)
Definition serve_transport (transport_error : string -> McpServeError) : P D (Result unit McpServeError) :=
  emit EvServing ;&
  run! how := (fun w => let '(w', how) := ps_serve p w in (w', [], Some how)) in
  match how with
  | ShutdownRequested | AuthorityEnded => close_server ;& emit EvCancelled ;& pmodify (ps_drain p) ;& pret (Ok tt)
  | TransportEnded r => pret (rmap_err transport_error r)
  end.

(** [serve_http_until]. *)
Definition serve_http_until (c : McpServeConfig) (http : McpHttpConfig) : P D (Result unit McpServeError) :=
  ptry (http_config_validate http) (fun _ =>
  run! started := bootstrap_adapter c in
  ptry started (fun _ =>
  match ps_bind p (mhc_bind http) (mhc_port http) with
  | Err e => close_server ;& runtime_shutdown ;& pret (Err (ServeHttp e))
  | Ok _ =>
      emit EvBound ;&
      match ps_local_addr p with
      | Err e => close_server ;& runtime_shutdown ;& pret (Err (ServeHttp e))
      | Ok address =>
          let endpoint := ("http://" +:+ address +:+ mhc_endpoint http)%string in
          match ps_on_ready p address endpoint with
          | Err e => emit EvCancelled ;& close_server ;& runtime_shutdown ;& pret (Err e)
          | Ok _ =>
              emit (EvPublished endpoint) ;&
              run! result := serve_transport ServeHttp in
              emit EvCancelled ;& close_server ;& runtime_shutdown ;& pret result
          end
      end
  end)).

(** [serve_stdio]. *)
Definition serve_stdio (c : McpServeConfig) : P D (Result unit McpServeError) :=
  run! started := bootstrap_adapter c in
  ptry started (fun _ =>
  run! result := serve_transport ServeTransport in
  close_server ;& runtime_shutdown ;& pret result).

End Serving.

(** * Theorems *)

Section ServingProps.
Context {D : Type} `{!McpHost D, !HashOrder, !UuidSource, !Serialize CuaError}.
Context (p : Process D).
Implicit Types w : McpWorld D.

(** The rest of the process never reopens a closed adapter: tools that replace
    the session look at the flag under the session's lock. *)
Definition stays_closed (f : McpWorld D -> McpWorld D) : Prop := forall w, mw_closed w = true ->
  mw_closed (f w) = true /\ (mw_session w = None -> mw_session (f w) = None).

Record QuietProcess : Prop := {
  qp_await : stays_closed mcp_await;
  qp_execute : forall c, stays_closed (fun w => (mcp_execute c w).1);
  qp_shutdown : stays_closed (ps_shutdown p);
}.

Definition ended w : Prop := mw_closed w = true /\ mw_session w = None.

Definition is_call (e : ServeEvent) : Prop := match e with EvCall _ => True | _ => False end.

Lemma stays_ended f w : stays_closed f -> ended w -> ended (f w).
Proof. intros Hf [Hc Hs]. destruct (Hf w Hc). split; auto. Qed.

(** Closing ends the adapter from every state. *)
Lemma close_server_ends w : QuietProcess ->
  exists w' calls, close_server (D := D) w = (w', calls, Some tt) /\ Forall is_call calls /\ ended w'.
Proof.
  intros [Ha He Hs]. unfold close_server, adapter, close_adapter, tbind, tmodify, await_lock, take_session, with_cache.
  cbn -[mcp_await]. set (w1 := {| w with mw_closed := true |}).
  assert (Hw1 : mw_closed (mcp_await w1) = true) by (by apply Ha).
  set (w2 := {| (mcp_await w1) with mw_session := None |}). assert (H2 : ended w2) by done.
  destruct (mw_session (mcp_await w1)) as [s|].
  - unfold close_runtime_session, runtime_execute, service, tbind. cbn. fold w2. destruct (mcp_execute _ w2) as [w3 r] eqn:E.
    assert (H3 : ended w3) by (pose proof (stays_ended _ _ (He (CloseSession (as_session_id s))) H2) as H3; cbn beta in H3; by rewrite E in H3).
    cbn. do 2 eexists. split; [done|]. split; [by repeat constructor|]. pose proof (stays_ended _ _ Ha H3) as [? ?]. by split.
  - cbn. do 2 eexists. split; [done|]. split; [constructor|]. pose proof (stays_ended _ _ Ha H2) as [? ?]. by split.
Qed.

(** The end of every way out of serving. *)
Lemma close_and_shutdown {A} w (a : A) : QuietProcess ->
  exists w' calls, (close_server (D := D) ;& runtime_shutdown p ;& pret a) w = (w', calls ++ [EvRuntimeShutdown], Some a) /\
    Forall is_call calls /\ ended w'.
Proof.
  intros Hq. destruct (close_server_ends w Hq) as (w1 & calls & E & Hc & He). unfold pbind. rewrite E.
  unfold runtime_shutdown, pbind, emit, pmodify, pret. cbn. do 2 eexists. split; [done|]. split; [done|].
  exact (stays_ended _ _ (qp_shutdown Hq) He).
Qed.

(** Bootstrap gives a value, and its events are calls. *)
Lemma bootstrap_session_gives m w : exists w' t r, bootstrap_session (D := D) m w = (w', t, Gives r).
Proof.
  assert (Hrun : forall w, exists w' t r, authorized_running_applications (D := D) m w = (w', t, Gives r)).
  { intros v. unfold authorized_running_applications, runtime_execute, service, tbind.
    destruct (mcp_execute DiscoverApplications v) as [? ?]. cbn. by do 3 eexists. }
  assert (Hopen : forall refs w, exists w' t r, open_runtime_session (D := D) m refs w = (w', t, Gives r)).
  { intros refs v. unfold open_runtime_session, runtime_execute, service, tbind.
    destruct (mcp_execute _ v) as [? ?]. cbn. by do 3 eexists. }
  assert (Hver : forall req w, exists w' t r, verify_launchable_applications (D := D) req w = (w', t, Gives r)).
  { intros req v. unfold verify_launchable_applications, runtime_execute, service, tbind.
    destruct (mcp_execute GetCapabilities v) as [v1 [r|e]]; cbn; [|by do 3 eexists].
    destruct r; cbn; try (by do 3 eexists). destruct (negb _); cbn; [by do 3 eexists|].
    destruct (mcp_execute DiscoverLaunchableApplications v1) as [? ?]. cbn. by do 3 eexists. }
  unfold bootstrap_session. unfold tbind at 1. destruct (Hrun w) as (w1 & t1 & r1 & ->).
  destruct r1 as [[refs missing]|e]; [|by do 3 eexists].
  unfold tbind at 1.
  assert (Hl : exists w' t r, (if bool_decide (missing = []) then give (Ok tt)
         else if negb (ap_allow_application_launch (policy_of m)) then give (Err (ApplicationsUnavailable missing))
         else verify_launchable_applications (D := D) missing) w1 = (w', t, Gives r)).
  { destruct (bool_decide _); [by do 3 eexists|]. destruct (negb _); [by do 3 eexists|]. apply Hver. }
  destruct Hl as (w2 & t2 & r2 & ->). destruct r2; [|by do 3 eexists].
  destruct (_ && _); [by do 3 eexists|]. unfold tbind. destruct (Hopen refs w2) as (w3 & t3 & r3 & ->). by do 3 eexists.
Qed.

(** What [bootstrap_with_authority_context] gives. *)
Lemma bootstrap_context_gives runtime authority bytes profile w :
  exists w' t r, bootstrap_with_authority_context p runtime authority bytes profile w = (w', t, Gives r) /\
    forall m, r = Ok m -> mcp_authority m = authority /\ mcp_max_image_bytes m = bytes /\ mcp_tool_profile m = profile /\
      mcp_authority_deadline m = mw_now w + from_secs (ap_ttl_seconds (cx_policy authority)) /\
      (exists d, dispatcher_new (ps_digests p) (epoch runtime) (mcp_mutation_authorization m) MUTATION_MAX_INFLIGHT MUTATION_MAX_COMPLETED
         MUTATION_RECONCILIATION_TTL MUTATION_MAX_WAIT_MS = Ok d).
Proof.
  unfold bootstrap_with_authority_context. unfold tbind at 1, tread at 1.
  match goal with |- context [bootstrap_session ?m] => destruct (bootstrap_session_gives m w) as (w1 & t1 & r1 & E) end.
  unfold tbind at 1. rewrite E. destruct r1 as [session|e]; [|by do 3 eexists].
  unfold tbind, tread, tmodify. cbn [fst snd app].
  match goal with |- context [dispatcher_new ?a ?b ?c ?d ?e ?f ?g] => destruct (dispatcher_new a b c d e f g) as [disp|err] eqn:Ed end;
    cbn; do 3 eexists; (split; [done|]); [|done].
  intros m [= <-]. split_and!; try done. by exists disp.
Qed.

(** The adapter a bootstrap gives, for the runtime it starts. *)
Definition bootstrapped (c : McpServeConfig) w (runtime : Runtime) (m : NexusCuaMcp) : Prop :=
  serve_config_validate c = Ok tt /\
  (exists n, resolve_authority (ps_load p) (ps_acquire p) (mw_clock w) (msc_authority c) (epoch runtime) n = Ok (mcp_authority m)) /\
  mcp_max_image_bytes m = msc_max_image_bytes c /\ mcp_tool_profile m = msc_tool_profile c /\
  (exists d, dispatcher_new (ps_digests p) (epoch runtime) (mcp_mutation_authorization m) MUTATION_MAX_INFLIGHT MUTATION_MAX_COMPLETED
         MUTATION_RECONCILIATION_TTL MUTATION_MAX_WAIT_MS = Ok d).

(** Bootstrap fails before the runtime starts, fails with the runtime shut
    down, or gives an adapter for the runtime that runs. *)
Lemma bootstrap_adapter_outcome c w : exists w' evs r, bootstrap_adapter p c w = (w', evs, Some r) /\
  match r with
  | Err _ => evs = [] \/ (exists calls, evs = EvRuntimeStarted :: calls ++ [EvRuntimeShutdown] /\ Forall is_call calls)
  | Ok (runtime, m) => (exists calls, evs = EvRuntimeStarted :: calls ++ [EvAdapterReady] /\ Forall is_call calls) /\ bootstrapped c w runtime m
  end.
Proof.
  unfold bootstrap_adapter, ptry at 1. destruct (serve_config_validate c) as [[]|e] eqn:Ev; [|by do 3 eexists; split; [done|left]].
  unfold ptry at 1. destruct (rmap_err ServeDriver _); [|by do 3 eexists; split; [done|left]].
  unfold ptry at 1. destruct (rmap_err ServePolicy _) as [policies|]; [|by do 3 eexists; split; [done|left]].
  unfold pbind at 1, draw at 1. unfold ptry at 1.
  destruct (rmap_err ServeRuntime _) as [runtime|]; [|by do 3 eexists; split; [done|left]].
  unfold pbind at 1, emit at 1. unfold pbind at 1, draw at 1. unfold pbind at 1, pread at 1.
  match goal with |- context [resolve_authority ?a ?b ?c ?d ?e ?f] => destruct (resolve_authority a b c d e f) as [authority|err] eqn:Ea end.
  - unfold pbind at 1, adapter at 1.
    match goal with |- context [bootstrap_with_authority_context p ?a ?b ?c ?d ?v] =>
      destruct (bootstrap_context_gives a b c d v) as (w1 & t1 & r1 & E & Hr) end. rewrite E.
    assert (Hcalls : Forall is_call (EvCall <$> t1.*2)) by (apply Forall_fmap, Forall_forall; done).
    destruct r1 as [m|e].
    + destruct (Hr m eq_refl) as (Hm1 & Hm2 & Hm3 & _ & Hm4). unfold pbind, emit, pret. cbn. do 3 eexists. split; [done|]. split.
      * eexists. split; [by rewrite ?app_nil_r|done].
      * split_and!; try done. rewrite Hm1. by eexists.
    + unfold runtime_shutdown, pbind, emit, pmodify, pret. cbn. do 3 eexists. split; [done|]. right. eexists. by rewrite ?app_nil_r.
  - unfold runtime_shutdown, pbind, emit, pmodify, pret. cbn. do 3 eexists. split; [done|]. right. by exists [].
Qed.

(** Serving over a transport gives a value and leaves the process going. *)
Lemma serve_transport_gives err w : QuietProcess -> exists w' evs r, serve_transport p err w = (w', EvServing :: evs, Some r) /\
  EvRuntimeShutdown ∉ evs.
Proof.
  intros Hq. unfold serve_transport, pbind at 1, emit at 1. unfold pbind at 1. destruct (ps_serve p w) as [w1 how].
  assert (Hc : exists w' evs r, (close_server (D := D) ;& emit EvCancelled ;& pmodify (ps_drain p) ;& pret (@Ok unit McpServeError tt)) w1
    = (w', evs, Some r) /\ EvRuntimeShutdown ∉ evs).
  { destruct (close_server_ends w1 Hq) as (w2 & calls & E & Hcalls & _). unfold pbind, emit, pmodify, pret. rewrite E. cbn.
    do 3 eexists. split; [done|]. rewrite not_elem_of_app. split; [|set_solver].
    intros Hin. rewrite Forall_forall in Hcalls. by apply Hcalls in Hin. }
  destruct Hc as (w' & evs & r & E & Hn).
  destruct how; [rewrite E; by do 3 eexists .. |]. cbn. by do 3 eexists; split; [done|set_solver].
Qed.

(** What serving leaves behind. *)
Definition served_well (c : McpServeConfig) (w' : McpWorld D) (evs : list ServeEvent) (r : option (Result unit McpServeError)) : Prop :=
  (exists result, r = Some result) /\
  (EvRuntimeStarted ∈ evs -> last evs = Some EvRuntimeShutdown) /\
  (EvAdapterReady ∈ evs -> ended w') /\
  (EvServing ∈ evs -> serve_config_validate c = Ok tt /\ EvAdapterReady ∈ evs) /\
  (r = Some (Ok tt) -> EvServing ∈ evs).

Lemma calls_only e calls : Forall is_call calls -> ~ is_call e -> e ∉ calls.
Proof. intros Hc He Hin. rewrite Forall_forall in Hc. by apply He, Hc. Qed.

(** A way out after bootstrap: events without a shutdown, then the close. *)
Lemma way_out c w' calls evs calls2 result : Forall is_call calls -> Forall is_call calls2 -> ended w' ->
  serve_config_validate c = Ok tt -> (result = Ok tt -> EvServing ∈ evs) ->
  served_well c w' ((EvRuntimeStarted :: calls ++ [EvAdapterReady]) ++ evs ++ calls2 ++ [EvRuntimeShutdown]) (Some result).
Proof.
  intros H1 H2 He Hv Hs. split_and!; [by eexists| |done| |].
  - intros _. rewrite !app_assoc. apply last_snoc.
  - intros _. split; [done|]. set_solver.
  - intros [= ->]. specialize (Hs eq_refl). set_solver.
Qed.

Lemma failed_start c w' evs e : evs = [] \/ (exists calls, evs = EvRuntimeStarted :: calls ++ [EvRuntimeShutdown] /\ Forall is_call calls) ->
  served_well c w' evs (Some (Err e)).
Proof.
  intros [->|(calls & -> & Hc)].
  - split_and!; [by eexists|set_solver|set_solver|set_solver|done].
  - pose proof (calls_only EvAdapterReady _ Hc (fun H => H)). pose proof (calls_only EvServing _ Hc (fun H => H)).
    split_and!; [by eexists| |set_solver|set_solver|done]. intros _. by rewrite app_comm_cons, last_snoc.
Qed.

Lemma serve_stdio_well c w w' evs r : QuietProcess -> serve_stdio p c w = (w', evs, r) -> served_well c w' evs r.
Proof.
  intros Hq. unfold serve_stdio. unfold pbind at 1. destruct (bootstrap_adapter_outcome c w) as (w1 & evs1 & r1 & -> & Ho).
  destruct r1 as [[runtime m]|e]; cbn [ptry].
  - destruct Ho as [(calls & -> & Hc) (Hv & _)]. unfold pbind at 1.
    destruct (serve_transport_gives ServeTransport w1 Hq) as (w2 & evs2 & r2 & -> & _).
    destruct (close_and_shutdown w2 r2 Hq) as (w3 & calls3 & -> & Hc3 & He). intros [= <- <- <-].
    apply (way_out c w3 calls (EvServing :: evs2) calls3); try done. set_solver.
  - cbn. rewrite app_nil_r. intros [= <- <- <-]. by apply failed_start.
Qed.

Lemma serve_http_well c http w w' evs r : QuietProcess -> serve_http_until p c http w = (w', evs, r) -> served_well c w' evs r.
Proof.
  intros Hq. unfold serve_http_until, ptry at 1. destruct (http_config_validate http) as [[]|e]; cycle 1.
  { cbn. intros [= <- <- <-]. apply failed_start. by left. }
  unfold pbind at 1. destruct (bootstrap_adapter_outcome c w) as (w1 & evs1 & r1 & -> & Ho).
  destruct r1 as [[runtime m]|e]; cbn [ptry]; cycle 1.
  { cbn. rewrite app_nil_r. intros [= <- <- <-]. by apply failed_start. }
  destruct Ho as [(calls & -> & Hc) (Hv & _)].
  destruct (ps_bind p _ _) as [|e]; cycle 1.
  { destruct (close_and_shutdown w1 (@Err unit McpServeError (ServeHttp e)) Hq) as (w3 & calls3 & -> & Hc3 & He). intros [= <- <- <-].
    apply (way_out c w3 calls [] calls3); done. }
  unfold pbind at 1, emit at 1. destruct (ps_local_addr p) as [address|e]; cycle 1.
  { destruct (close_and_shutdown w1 (@Err unit McpServeError (ServeHttp e)) Hq) as (w3 & calls3 & -> & Hc3 & He). intros [= <- <- <-].
    by apply (way_out c w3 calls [EvBound] calls3). }
  set (endpoint := (_ +:+ _)%string). cbn zeta. destruct (ps_on_ready p _ _) as [|e]; cycle 1.
  { unfold pbind at 1, emit at 1. destruct (close_and_shutdown w1 (@Err unit McpServeError e) Hq) as (w3 & calls3 & -> & Hc3 & He).
    intros [= <- <- <-]. by apply (way_out c w3 calls [EvBound; EvCancelled] calls3). }
  unfold pbind at 1, emit at 1. unfold pbind at 1.
  destruct (serve_transport_gives ServeHttp w1 Hq) as (w2 & evs2 & r2 & -> & _). unfold pbind at 1, emit at 1.
  destruct (close_and_shutdown w2 r2 Hq) as (w3 & calls3 & -> & Hc3 & He). intros [= <- <- <-].
  match goal with |- served_well _ _ ?l _ =>
    replace l with ((EvRuntimeStarted :: calls ++ [EvAdapterReady]) ++
      (EvBound :: EvPublished endpoint :: EvServing :: evs2 ++ [EvCancelled]) ++ calls3 ++ [EvRuntimeShutdown]) end.
  - apply way_out; try done. set_solver.
  - cbn. by rewrite <- !app_assoc.
Qed.

(** C11: every way out of serving ends the adapter.  Serving over standard
    input and output or over HTTP always returns; once the runtime was
    started it is shut down last, whatever failed; once an adapter was ready
    it ends closed and without a session, also when the listener cannot be
    bound or published; and tools are served only by a ready adapter of an
    accepted configuration. *)
Theorem serving_ends_closed c http w w' evs r : QuietProcess ->
  serve_http_until p c http w = (w', evs, r) \/ serve_stdio p c w = (w', evs, r) ->
  (exists result, r = Some result) /\
  (EvRuntimeStarted ∈ evs -> last evs = Some EvRuntimeShutdown) /\
  (EvAdapterReady ∈ evs -> mw_closed w' = true /\ mw_session w' = None) /\
  (EvServing ∈ evs -> serve_config_validate c = Ok tt /\ EvAdapterReady ∈ evs) /\
  (r = Some (Ok tt) -> EvServing ∈ evs).
Proof. intros Hq [Hr|Hr]; [exact (serve_http_well _ _ _ _ _ _ Hq Hr) | exact (serve_stdio_well _ _ _ _ _ Hq Hr)]. Qed.

(** An authority that resolves is accepted and bound to this runtime. *)
Lemma resolve_authority_bound c w runtime n cx :
  (forall path policy, ps_load p path = Ok policy -> authority_validate policy = Ok tt /\ 0 <= ap_ttl_seconds policy) ->
  (forall ch g now, ps_acquire p ch = Ok g -> 0 <= now <= U64_MAX -> grant_typed g now) ->
  (forall now, mw_clock w = Some now -> 0 <= now) ->
  resolve_authority (ps_load p) (ps_acquire p) (mw_clock w) (msc_authority c) (epoch runtime) n = Ok cx ->
  authority_validate (cx_policy cx) = Ok tt /\ 0 <= ap_ttl_seconds (cx_policy cx) /\
  match msc_authority c, cx_provider cx with
  | UnsignedDevelopmentFile _, None => True
  | ProviderSource id, Some metadata =>
      gm_registration_id metadata = id /\ gm_runtime_epoch metadata = epoch runtime /\ cx_provider_client cx = true /\
      namespace_ok (gm_request_namespace metadata)
  | _, _ => False
  end.
Proof.
  intros Hload Hacquire Hclock. unfold resolve_authority. destruct (msc_authority c) as [path|id].
  - intros Hres. destruct (ps_load p path) as [policy|] eqn:El; [|done]. injection Hres as <-. cbn. by destruct (Hload _ _ El).
  - intros Hres. res_inv. destruct (grant_resolve _ _ _) as [cx'|] eqn:Eg; [|done]. injection Hres as <-.
    match goal with H : challenge_new _ _ _ _ = Ok ?ch |- _ =>
      assert (Hch : ac_registration_id ch = id /\ ac_runtime_epoch ch = epoch runtime) by (unfold challenge_new in H; res_inv; done); clear H end.
    match goal with H : current_unix_ms _ = Ok ?now |- _ =>
      assert (Hnow : 0 <= now <= U64_MAX) by (unfold current_unix_ms in H; res_inv; zbool; split; [by apply Hclock|lia]); clear H end.
    match goal with H : ps_acquire p _ = Ok ?g |- _ => pose proof (Hacquire _ _ _ H Hnow) as Htyped; clear H end.
    apply grant_resolve_iff in Eg as [Hg ->]; [|done]. split; [exact (granted_context_valid _ _ _ Hg)|].
    pose proof (granted_ttl_positive _ _ _ Hg). cbn. split; [lia|]. destruct Hch as [<- <-]. by destruct Hg.
Qed.

(** The authority an adapter serves.  An adapter that bootstraps has a
    policy accepted by the policy rules, with a lifetime of one second to one
    hour; under a provider it is bound to the configured registration and to
    this runtime's epoch and keeps the provider for validation; its image
    bound fits the image cache, and its own mutation dispatcher exists. *)
Theorem adapter_authority_bound c w w' evs runtime m :
  (forall path policy, ps_load p path = Ok policy -> authority_validate policy = Ok tt /\ 0 <= ap_ttl_seconds policy) ->
  (forall ch g now, ps_acquire p ch = Ok g -> 0 <= now <= U64_MAX -> grant_typed g now) ->
  (forall now, mw_clock w = Some now -> 0 <= now) -> 0 <= msc_max_image_bytes c ->
  bootstrap_adapter p c w = (w', evs, Some (Ok (runtime, m))) ->
  let cx := mcp_authority m in
  authority_validate (cx_policy cx) = Ok tt /\ 1 <= ap_ttl_seconds (cx_policy cx) <= 3600 /\
  match msc_authority c, cx_provider cx with
  | UnsignedDevelopmentFile _, None => True
  | ProviderSource id, Some metadata =>
      gm_registration_id metadata = id /\ gm_runtime_epoch metadata = epoch runtime /\ cx_provider_client cx = true /\
      namespace_ok (gm_request_namespace metadata)
  | _, _ => False
  end /\
  mcp_max_image_bytes m <= MAX_CACHED_IMAGE_BYTES /\ token_in_range (mcp_mutation_authorization m) = true.
Proof.
  intros Hload Hacquire Hclock Hbytes Hb cx. destruct (bootstrap_adapter_outcome c w) as (w1 & evs1 & r1 & E & Ho).
  rewrite Hb in E. injection E as <- <- <-. destruct Ho as [_ (Hv & (n & Hr) & Hi & _ & (d & Hd))]. fold cx in Hr.
  assert (Ha : authority_validate (cx_policy cx) = Ok tt /\ 0 <= ap_ttl_seconds (cx_policy cx) /\
    match msc_authority c, cx_provider cx with
    | UnsignedDevelopmentFile _, None => True
    | ProviderSource id, Some metadata =>
        gm_registration_id metadata = id /\ gm_runtime_epoch metadata = epoch runtime /\ cx_provider_client cx = true /\
        namespace_ok (gm_request_namespace metadata)
    | _, _ => False
    end) by exact (resolve_authority_bound c w runtime n cx Hload Hacquire Hclock Hr).
  destruct Ha as (Ha & Ht & Hm). split; [done|]. pose proof (ao_ttl _ (proj1 (authority_validate_iff _ Ht) Ha)) as Httl.
  split; [exact Httl|]. split; [done|]. split.
  - rewrite Hi. apply serve_config_image_bound; done.
  - unfold dispatcher_new, token_verifier in Hd. res_inv. by destruct (token_in_range _).
Qed.

End ServingProps.

(** * A small process *)

Module Bench.

Definition bench_uuid (n : nat) : string := ("0123456789abcdef" +:+ string_of_list_ascii (repeat "0"%char n))%string.

Lemma bench_uuid_inj i j : bench_uuid i = bench_uuid j -> i = j.
Proof.
  intros E. apply (f_equal slen) in E. unfold bench_uuid in E. rewrite !slen_app in E.
  assert (Hlen : forall l, String.length (string_of_list_ascii l) = length l) by (intros l; induction l as [|? ? IH]; cbn; [done|by rewrite IH]).
  unfold slen in E. rewrite !Hlen, !repeat_length in E. lia.
Qed.

#[local] Instance bench_uuids : UuidSource := {| uuid := bench_uuid; uuid_inj := bench_uuid_inj |}.
#[local] Existing Instance map_to_list_order.
#[local] Instance bench_serialize : Serialize CuaError := fun _ => Ok JNull.

Definition bench_execute (c : Command) : Result CommandResult CuaError :=
  match c with
  | DiscoverApplications => Ok (RApplicationsDiscovered {| dao_applications := []; dao_complete := true |})
  | OpenSession _ => Ok (RSessionOpened {| os_session_id := "session"; os_expires_at := "time" |})
  | CloseSession _ => Ok RAcknowledged
  | _ => Err (public_error Unsupported "unsupported" false None)
  end.

#[local] Instance bench_host : McpHost unit := {|
  mcp_await := fun w => w;
  mcp_execute := fun c w => (w, bench_execute c);
  mcp_dispatch := fun q w => (w, {| rs_protocol_version := PROTOCOL_VERSION; rs_request_id := re_request_id q;
                                   rs_outcome := Error (public_error Unsupported "unsupported" false None) |});
  mcp_reconcile := fun _ _ w => (w, Err (public_error Unsupported "unsupported" false None));
  mcp_take_artifact := fun _ _ w => (w, Err (public_error Unsupported "unsupported" false None));
  mcp_validate := fun _ w => (w, Ok tt) |}.

Definition bench_policy : AuthorityPolicy := {| sample_policy with ap_application_ids := [] ; ap_allow_application_launch := false;
  ap_allow_application_launch_activation := false |}.

(** A provider that grants the challenge for a minute. *)
Definition bench_grant (ch : AuthorityChallenge) : AuthorityGrant := {| sample_grant with
  ag_registration_id := ac_registration_id ch; ag_adapter_nonce := ac_adapter_nonce ch; ag_runtime_epoch := ac_runtime_epoch ch;
  ag_worker_epoch := ac_worker_epoch ch; ag_authority := bench_policy |}.

Definition bench_process : Process unit := {|
  ps_digests := plain_digests;
  ps_policies := plain_env;
  ps_system_driver := Ok tt; ps_configure := fun _ => Ok tt; ps_store := fun _ => Ok tt;
  ps_load := fun _ => Ok bench_policy; ps_acquire := fun ch => Ok (bench_grant ch);
  ps_debug_error := fun _ => ""%string; ps_debug_list := fun _ => ""%string;
  ps_bind := fun _ _ => Ok tt; ps_local_addr := Ok "127.0.0.1:4000"%string; ps_on_ready := fun _ _ => Ok tt;
  ps_serve := fun w => (w, ShutdownRequested); ps_drain := fun w => w; ps_shutdown := fun w => w |}.

Definition bench_config : McpServeConfig := serve_config_new (ProviderSource "registration-1") "/tmp/artifacts".

Definition bench_world : McpWorld unit := {| mw_session := None; mw_closed := false; mw_cache := cache_default;
  mw_drawn := 0; mw_now := 0; mw_clock := Some 1000500; mw_env := tt |}.

(** Serving over HTTP until the host asks to stop. *)
Lemma serving_ends_closed_witness :
  let '(w', evs, r) := serve_http_until bench_process bench_config sample_http_config bench_world in
  EvServing ∈ evs /\ last evs = Some EvRuntimeShutdown /\ mw_closed w' = true /\ mw_session w' = None /\ r = Some (Ok tt).
Proof.
  destruct (serve_http_until bench_process bench_config sample_http_config bench_world) as [[w' evs] r] eqn:E.
  destruct (serving_ends_closed bench_process bench_config sample_http_config bench_world w' evs r) as (_ & H1 & H2 & H3 & H4).
  - split; repeat intro; done.
  - by left.
  - assert (Hr : r = Some (Ok tt)) by (apply (f_equal snd) in E; vm_compute in E; by rewrite E).
    specialize (H4 Hr). destruct (H3 H4) as [_ Hready]. destruct (H2 Hready). split_and!; try done.
    apply H1. apply (f_equal (snd ∘ fst)) in E. cbn in E. rewrite <- E. vm_compute. constructor.
Defined.

Lemma adapter_authority_bound_witness :
  exists w' evs runtime m, bootstrap_adapter bench_process bench_config bench_world = (w', evs, Some (Ok (runtime, m))) /\
    ap_ttl_seconds (cx_policy (mcp_authority m)) = 59 /\ authority_validate (cx_policy (mcp_authority m)) = Ok tt.
Proof.
  destruct (bootstrap_adapter bench_process bench_config bench_world) as [[w' evs] r] eqn:E.
  assert (Hr : exists runtime m, r = Some (Ok (runtime, m)) /\ ap_ttl_seconds (cx_policy (mcp_authority m)) = 59).
  { apply (f_equal snd) in E. vm_compute in E. rewrite <- E. do 2 eexists. split; reflexivity. }
  destruct Hr as (runtime & m & -> & Httl). exists w', evs, runtime, m. split; [done|]. split; [done|].
  refine (proj1 (adapter_authority_bound bench_process bench_config bench_world w' evs runtime m _ _ _ _ E)).
  - intros path policy [= <-]. by split.
  - intros ch g now [= <-] Hnow. unfold grant_typed. cbn. unfold U64_MAX in *. lia.
  - intros now [= <-]. by vm_compute.
  - by vm_compute.
Defined.

End Bench.
