(* ===== verification/PrivateState.v ===== *)
(** Owner-private state of the provider: [src/crates/provider/src/private_fs.rs],
    [secret.rs], [registration.rs] and [plan.rs].

    A registration is a file whose content is authenticated by a secret of the
    operating system's store.  A directory is a map of entries; an operation of
    the file system can fail where [Faults] says so.  SHA-256, hex, JSON and the
    secret store are parameters.  The theorems: what a registration that loads
    guarantees, that installing round-trips, fails without a trace and stays
    bounded, that removal revokes, and that the derived tokens are apart. *)

From stdpp Require Import pretty.
From Stdlib Require Import Ascii String.
From S2P Require Import Prelude Floats Geometry Text Protocol Errors Policy Dispatcher Authority ImageCache Adapter.
#[local] Open Scope Z_scope.

Definition REGISTRATION_SCHEMA_VERSION : Z := 1.
Definition MAX_REGISTRATION_BYTES : Z := 64 * 1024.
Definition MIN_REGISTRATION_ID_BYTES : Z := 16.
Definition MAX_REGISTRATION_ID_BYTES : Z := 64.
Definition MAX_REGISTRATIONS : Z := 128.
Definition MAX_STATE_ROOT_ENTRIES : Z := 512.
Definition REGISTRATION_LOCK_FILE : string := ".registration.lock".
Definition STATE_ENVELOPE_SCHEMA_VERSION : Z := 1.
Definition MAX_STATE_PAYLOAD_BYTES : Z := 128 * 1024.
Definition MAX_STATE_ENVELOPE_BYTES : Z := 320 * 1024.
Definition MAX_INTEGRATION_STATES : Z := 512.
Definition MAX_INTEGRATION_DIRECTORY_ENTRIES : Z := 640.
Definition INTEGRATION_STATE_LOCK_FILE : string := ".integration-state.lock".

(** * The file system *)

Inductive FsError := FsNotFound | FsAlreadyExists | FsDenied (reason : string) | FsOther (reason : string).

Inductive EntryKind := KindFile | KindDirectory | KindSymlink.
#[export] Instance EntryKind_eq_dec : EqDecision EntryKind.
Proof. solve_decision. Defined.

(** An entry of the state directory, by its name. *)
Record Entry := { en_kind : EntryKind; en_mode : Z; en_bytes : list Z }.
Abbreviation Disk := (gmap string Entry).

(** Where the operating system fails: a partial write carries the number of
    bytes that got through. *)
Record Faults := {
  ft_open_lock : option string;
  ft_lock : option string;
  ft_stat : option string;
  ft_read_dir : option string;
  ft_create : option string;
  ft_protect : option string;
  ft_write : option (nat * string);
  ft_sync : option string;
  ft_remove : option string;
  ft_read : option string;
}.

Definition no_faults : Faults := {|
  ft_open_lock := None; ft_lock := None; ft_stat := None; ft_read_dir := None; ft_create := None;
  ft_protect := None; ft_write := None; ft_sync := None; ft_remove := None; ft_read := None |}.

(** An injected failure. *)
Definition fault (f : option string) : Result unit FsError :=
  match f with Some e => Err (FsOther e) | None => Ok tt end.

Definition OWNER_FILE_MODE : Z := 384.

Definition private_entry (bytes : list Z) : Entry := {| en_kind := KindFile; en_mode := OWNER_FILE_MODE; en_bytes := bytes |}.

(** [apply_owner_only] of a file. *)
Definition apply_owner_only (f : Faults) (d : Disk) (name : string) : Disk * Result unit FsError :=
  match fault (ft_protect f) with
  | Err e => (d, Err e)
  | Ok _ => (alter (fun e => {| e with en_mode := OWNER_FILE_MODE |}) name d, Ok tt)
  end.

(** [create_private_file]: [create_new], then the permissions. *)
Definition create_private_file (f : Faults) (d : Disk) (name : string) : Disk * Result unit FsError :=
  match d !! name with
  | Some _ => (d, Err FsAlreadyExists)
  | None =>
      match fault (ft_create f) with
      | Err e => (d, Err e)
      | Ok _ => apply_owner_only f (<[name := private_entry []]> d) name
      end
  end.

(** [open_private_lock]; a link or a directory does not open. *)
Definition open_private_lock (f : Faults) (d : Disk) (name : string) : Disk * Result unit FsError :=
  match fault (ft_open_lock f) with
  | Err e => (d, Err e)
  | Ok _ =>
      match d !! name with
      | Some e =>
          match en_kind e with
          | KindFile => apply_owner_only f d name
          | KindDirectory => (d, Err (FsOther "is a directory"))
          | KindSymlink => (d, Err (FsOther "too many levels of symbolic links"))
          end
      | None => apply_owner_only f (<[name := private_entry []]> d) name
      end
  end.

Definition OWNER_DIRECTORY_MODE : Z := 448.

(** [secure_directory] of the state root. *)
Definition secure_directory (f : Faults) (root : option Entry) : option Entry * Result unit FsError :=
  let protect (e : Entry) :=
    match fault (ft_protect f) with
    | Err x => (Some e, Err x)
    | Ok _ => (Some {| e with en_mode := OWNER_DIRECTORY_MODE |}, Ok tt)
    end in
  match fault (ft_stat f) with
  | Err x => (root, Err x)
  | Ok _ =>
      match root with
      | Some e =>
          if bool_decide (en_kind e = KindDirectory) then protect e
          else (root, Err (FsDenied "private state root is not a real directory"))
      | None =>
          match fault (ft_create f) with
          | Err x => (None, Err x)
          | Ok _ => protect {| en_kind := KindDirectory; en_mode := 511; en_bytes := [] |}
          end
      end
  end.

(** The extension of a file name is [json]. *)
Fixpoint ends_with_str (suffix s : string) : bool :=
  str_eqb suffix s || match s with EmptyString => false | String _ rest => ends_with_str suffix rest end.

Definition json_extension (name : string) : bool := ends_with_str ".json" name && negb (str_eqb name ".json").

(** [has_json_capacity]: no more entries are read than decide the answer. *)
Definition has_json_capacity `{!HashOrder} (f : Faults) (d : Disk) (maximum_json_files maximum_directory_entries : Z)
    : Result bool FsError :=
  fault (ft_read_dir f) ;?
  let entries := take (Z.to_nat (maximum_directory_entries + 1)) (hash_iter d) in
  Ok ((zlen entries <=? maximum_directory_entries)
      && (zlen (List.filter (fun x => json_extension x.1) entries) <? maximum_json_files)).

(** [validate_private_regular_file]. *)
Definition validate_private_regular_file (unix : bool) (f : Faults) (d : Disk) (name : string) (max_bytes : Z) : Result Z FsError :=
  fault (ft_stat f) ;?
  let? e := ok_or (d !! name) FsNotFound in
  ensure_not (negb (bool_decide (en_kind e = KindFile)) || (max_bytes <? zlen (en_bytes e)))
    (FsDenied "private state path is not a bounded regular file") ;?
  ensure_not (unix && negb (Z.land (en_mode e) 63 =? 0)) (FsDenied "private state file permissions are too broad") ;?
  Ok (zlen (en_bytes e)).

(** [std::fs::read]. *)
Definition read_entry (f : Faults) (d : Disk) (name : string) : Result (list Z) FsError :=
  fault (ft_read f) ;? rmap en_bytes (ok_or (d !! name) FsNotFound).

(** [write_all]; what got through stays. *)
Definition write_private (f : Faults) (d : Disk) (name : string) (bytes : list Z) : Disk * Result unit FsError :=
  match ft_write f with
  | Some (n, e) => (alter (fun x => {| x with en_bytes := take n bytes |}) name d, Err (FsOther e))
  | None => (alter (fun x => {| x with en_bytes := bytes |}) name d, Ok tt)
  end.

(** [remove_private_file]; a missing file is removed, a directory is not. *)
Definition remove_private_file (f : Faults) (d : Disk) (name : string) : Disk * Result unit FsError :=
  match d !! name with
  | None => (d, Ok tt)
  | Some e =>
      if bool_decide (en_kind e = KindDirectory) then (d, Err (FsOther "is a directory"))
      else match fault (ft_remove f) with Err e => (d, Err e) | Ok _ => (delete name d, Ok tt) end
  end.

(** * Secrets *)

Inductive SecretStoreError :=
| SecretAlreadyExists
| SecretNotFound
| InvalidSecret
| SecretPlatform (status : Z)
| UnsupportedPlatform
| SecretIo (e : FsError).

(** The trait [SecretStore]; [S] is the state of the store. *)
Class SecretStore (S : Type) := {
  ss_put : string -> list Z -> S -> S * Result unit SecretStoreError;
  ss_get : string -> S -> Result (list Z) SecretStoreError;
  ss_delete : string -> S -> S * Result unit SecretStoreError;
}.

(** [SystemSecretStore] over the platform's calls; [supported] is whether the
    build target has one. *)
Record PlatformSecrets (S : Type) := {
  supported : bool;
  put_platform : string -> list Z -> S -> S * Result unit SecretStoreError;
  get_platform : string -> S -> Result (list Z) SecretStoreError;
  delete_platform : string -> S -> S * Result unit SecretStoreError;
}.
Arguments supported {S}. Arguments put_platform {S}. Arguments get_platform {S}. Arguments delete_platform {S}.

Definition system_put {S} (p : PlatformSecrets S) (id : string) (secret : list Z) (s : S) : S * Result unit SecretStoreError :=
  if negb (zlen secret =? 32) then (s, Err InvalidSecret)
  else if supported p then put_platform p id secret s else (s, Err UnsupportedPlatform).

Definition system_get {S} (p : PlatformSecrets S) (id : string) (s : S) : Result (list Z) SecretStoreError :=
  if supported p then
    let? secret := get_platform p id s in
    ensure_not (negb (zlen secret =? 32)) InvalidSecret ;?
    Ok secret
  else Err UnsupportedPlatform.

Definition system_delete {S} (p : PlatformSecrets S) (id : string) (s : S) : S * Result unit SecretStoreError :=
  if supported p then delete_platform p id s else (s, Err UnsupportedPlatform).

(** What the trait's documentation promises. *)
Class LawfulSecrets (S : Type) `{!SecretStore S} : Prop := {
  put_stored : forall id secret s s', ss_put id secret s = (s', Ok tt) ->
    ss_get id s' = Ok secret /\ ss_get id s = Err SecretNotFound /\ (forall id', id' <> id -> ss_get id' s' = ss_get id' s);
  put_failed : forall id secret s s' e, ss_put id secret s = (s', Err e) -> forall id', ss_get id' s' = ss_get id' s;
  delete_removed : forall id s s', ss_delete id s = (s', Ok tt) ->
    ss_get id s' = Err SecretNotFound /\ (forall id', id' <> id -> ss_get id' s' = ss_get id' s);
  delete_failed : forall id s s' e, ss_delete id s = (s', Err e) -> forall id', ss_get id' s' = ss_get id' s;
}.

(** * Registrations *)

Inductive HostSignatureIdentity :=
| HostMacos (signing_team_id designated_requirement : option string)
| HostWindows (publisher : option string) (signature_status : SignatureStatus).

Record HostExecutableIdentity := {
  hi_path_sha256 : string;
  hi_executable_sha256 : string;
  hi_signature : HostSignatureIdentity;
}.

Inductive McpRegisteredTransport := TransportStdio | StreamableHttp.

Inductive RegisteredAdapterProfile :=
| RegisteredMcp (transport : McpRegisteredTransport) (tool_profile : string)
| RegisteredCli.

Record RegistrationRequest := {
  rr_registration_id : string;
  rr_provider_id : string;
  rr_product_version : string;
  rr_adapter_profile : RegisteredAdapterProfile;
  rr_host_identity : HostExecutableIdentity;
  rr_principal : string;
  rr_work_scope : string;
  rr_authority : AuthorityPolicy;
}.

Record RegistrationPayload := {
  rp_schema_version : Z;
  rp_installed_at_unix_ms : Z;
  rp_request : RegistrationRequest;
}.

Record AuthenticatedRegistration := { ar_payload : RegistrationPayload; ar_mac_sha256 : string }.

Record RegistrationSummary := {
  rs_registration_id : string;
  rs_provider_id : string;
  rs_product_version : string;
  rs_adapter_profile : RegisteredAdapterProfile;
  rs_installed_at_unix_ms : Z;
  rs_authority_ttl_seconds : Z;
}.

Inductive RegistrationError :=
| RegAlreadyExists
| CapacityExceeded
| RegNotFound
| RegInvalid (reason : string)
| RegAuthenticationFailed
| RegIo (e : FsError)
| RegJson (e : string)
| RegSecret (e : SecretStoreError).

(** The [Display] of [AuthorityError]. *)
Definition authority_error_text (e : AuthorityError) : string :=
  match e with
  | AuthorityIo path source => "failed to read authority file " +:+ path +:+ ": " +:+ source
  | AuthorityJson source => "authority JSON is invalid: " +:+ source
  | UnsafeFile reason => "unsafe authority file: " +:+ reason
  | AuthorityInvalid reason => "invalid authority policy: " +:+ reason
  | AuthorityProvider e => provider_error_text e
  | InvalidGrant reason => "invalid authority provider grant: " +:+ reason
  end.

Definition registration_id_byte (b : Z) : bool := is_ascii_alphanumeric b || (b =? 95) || (b =? 45).

Definition validate_registration_id (value : string) : Result unit RegistrationError :=
  ensure_not (negb ((MIN_REGISTRATION_ID_BYTES <=? slen value) && (slen value <=? MAX_REGISTRATION_ID_BYTES))
              || negb (bytes_all registration_id_byte value))
    (RegInvalid "registration_id must be 16 to 64 normalized ASCII bytes").

(** [validate_binding] of [registration.rs]. *)
Definition registration_binding (value field : string) : Result unit RegistrationError :=
  ensure_not (str_eqb value "" || (MAX_BINDING_BYTES <? slen value) || negb (is_trimmed value) || has_control value)
    (RegInvalid (field +:+ " is empty, unnormalized, or exceeds the bounded size")).

Definition is_ascii_hexdigit (b : Z) : bool := is_ascii_digit b || ((65 <=? b) && (b <=? 70)) || ((97 <=? b) && (b <=? 102)).

Definition validate_digest (value field : string) : Result unit RegistrationError :=
  ensure_not (negb (slen value =? 64) || negb (bytes_all is_ascii_hexdigit value))
    (RegInvalid (field +:+ " must be one SHA-256 hex digest")).

Definition profile_rejected (p : RegisteredAdapterProfile) : bool :=
  match p with
  | RegisteredMcp _ tool_profile => negb (str_eqb tool_profile "full" || str_eqb tool_profile "vision")
  | RegisteredCli => false
  end.

(** [RegistrationRequest::validate]. *)
Definition request_validate (r : RegistrationRequest) : Result unit RegistrationError :=
  validate_registration_id (rr_registration_id r) ;?
  registration_binding (rr_provider_id r) "provider_id" ;?
  registration_binding (rr_product_version r) "product_version" ;?
  registration_binding (rr_principal r) "principal" ;?
  registration_binding (rr_work_scope r) "work_scope" ;?
  ensure_not (profile_rejected (rr_adapter_profile r)) (RegInvalid "MCP tool_profile must be full or vision") ;?
  validate_digest (hi_path_sha256 (rr_host_identity r)) "host path digest" ;?
  validate_digest (hi_executable_sha256 (rr_host_identity r)) "host executable digest" ;?
  rmap_err (fun e => RegInvalid (authority_error_text e)) (authority_validate (rr_authority r)).

Definition registration_summary (payload : RegistrationPayload) : RegistrationSummary := {|
  rs_registration_id := rr_registration_id (rp_request payload);
  rs_provider_id := rr_provider_id (rp_request payload);
  rs_product_version := rr_product_version (rp_request payload);
  rs_adapter_profile := rr_adapter_profile (rp_request payload);
  rs_installed_at_unix_ms := rp_installed_at_unix_ms payload;
  rs_authority_ttl_seconds := ap_ttl_seconds (rr_authority (rp_request payload)) |}.

Definition map_create_registration_error (e : FsError) : RegistrationError :=
  match e with FsAlreadyExists => RegAlreadyExists | other => RegIo other end.

Definition map_read_registration_error (e : FsError) : RegistrationError :=
  match e with FsNotFound => RegNotFound | other => RegIo other end.

(** [AuthenticatedState] of [plan.rs]. *)
Record AuthenticatedState := { as_schema_version : Z; as_payload_hex : string; as_mac_sha256 : string }.

(** ** Message authentication *)

(** SHA-256 and hex, JSON with serde, [cfg(unix)], and the secrets drawn by
    [new_secret]. *)
Record ProviderEnv := {
  pe_unix : bool;
  pe_sha256 : list Z -> list Z;
  pe_hex_encode : list Z -> string;
  pe_hex_decode : string -> option (list Z);
  pe_secret : nat -> list Z;
  pe_payload_json : RegistrationPayload -> Result (list Z) string;
  pe_request_json : RegistrationRequest -> Result (list Z) string;
  pe_identity_json : HostExecutableIdentity -> Result (list Z) string;
  pe_registration_pretty : AuthenticatedRegistration -> Result (list Z) string;
  pe_registration_parse : list Z -> Result AuthenticatedRegistration string;
  pe_state_pretty : AuthenticatedState -> Result (list Z) string;
  pe_state_parse : list Z -> Result AuthenticatedState string;
}.

(** The UTF-8 bytes of a string. *)
Fixpoint str_bytes (s : string) : list Z :=
  match s with EmptyString => [] | String c rest => byte_of c :: str_bytes rest end.

(** A domain label with its NUL. *)
Definition domain_of (label : string) : list Z := str_bytes label ++ [0].

Definition REGISTRATION_DOMAIN : list Z := domain_of "nexus.cua.registration.v1".
Definition HTTP_DOMAIN : list Z := domain_of "nexus.cua.mcp.http.authorization.v1".
Definition CLI_DOMAIN : list Z := domain_of "nexus.cua.cli.transport.authorization.v1".
Definition STATE_DOMAIN : list Z := domain_of "nexus.cua.integration-state.v1".

(** A key pad: 64 times [c], with the secret xored into its start. *)
Definition key_pad (c : Z) (secret : list Z) : list Z := (Z.lxor c <$> secret) ++ replicate (64 - length secret) c.

Definition message_authentication (env : ProviderEnv) (secret domain payload : list Z) : Result string RegistrationError :=
  ensure_not (negb (zlen secret =? 32)) (RegSecret InvalidSecret) ;?
  let inner := pe_sha256 env (key_pad 54 secret ++ domain ++ payload) in
  Ok (pe_hex_encode env (pe_sha256 env (key_pad 92 secret ++ inner))).

Definition authenticate (env : ProviderEnv) (secret payload : list Z) : Result string RegistrationError :=
  message_authentication env secret REGISTRATION_DOMAIN payload.

(** ** The stores *)

Section Stores.
Context {S : Type} `{!SecretStore S, !HashOrder}.
Context (env : ProviderEnv).

(** A state directory, the secret store and the number of secrets drawn. *)
Record StoreState := { st_disk : Disk; st_secrets : S; st_drawn : nat }.
Implicit Types st : StoreState.

Definition state_file (id : string) : string := id +:+ ".json".

(** [path]. *)
Definition state_path (id : string) : Result string RegistrationError := validate_registration_id id ;? Ok (state_file id).

(** [lock_exclusive] and [lock_shared]; the lock is held to the end of the
    operation. *)
Definition take_lock (f : Faults) st (lock : string) : StoreState * Result unit RegistrationError :=
  match open_private_lock f (st_disk st) lock with
  | (d, Err e) => ({| st with st_disk := d |}, Err (RegIo e))
  | (d, Ok _) => ({| st with st_disk := d |}, rmap_err RegIo (fault (ft_lock f)))
  end.

(** The closure that writes the file. *)
Definition write_state (f : Faults) (d : Disk) (name : string) (bytes : list Z) : Disk * Result unit RegistrationError :=
  match create_private_file f d name with
  | (d1, Err e) => (d1, Err (map_create_registration_error e))
  | (d1, Ok _) =>
      match write_private f d1 name bytes with
      | (d2, Err e) => (d2, Err (RegIo e))
      | (d2, Ok _) => (d2, rmap_err RegIo (fault (ft_sync f)))
      end
  end.

(** [install] from the lock on, in both stores: the checks under the lock, the
    secret, then the file, which is rolled back when it fails. *)
Definition install_state (f : Faults) st (lock name secret_id : string) (max_json max_entries : Z)
    (map_put : SecretStoreError -> RegistrationError) (secret bytes : list Z) : StoreState * Result unit RegistrationError :=
  match take_lock f st lock with
  | (st1, Err e) => (st1, Err e)
  | (st1, Ok _) =>
      let admitted :=
        rmap_err RegIo (fault (ft_stat f)) ;?
        ensure_not (bool_decide (is_Some (st_disk st1 !! name))) RegAlreadyExists ;?
        let? room := rmap_err RegIo (has_json_capacity f (st_disk st1) max_json max_entries) in
        ensure_not (negb room) CapacityExceeded in
      match admitted with
      | Err e => (st1, Err e)
      | Ok _ =>
          match ss_put secret_id secret (st_secrets st1) with
          | (s1, Err e) => ({| st1 with st_secrets := s1 |}, Err (map_put e))
          | (s1, Ok _) =>
              match write_state f (st_disk st1) name bytes with
              | (d1, Ok _) => ({| st1 with st_disk := d1; st_secrets := s1 |}, Ok tt)
              | (d1, Err e) =>
                  ({| st1 with st_disk := (remove_private_file f d1 name).1; st_secrets := (ss_delete secret_id s1).1 |}, Err e)
              end
          end
      end
  end.

(** [RegistrationStore::install]. *)
Definition registration_install (f : Faults) st (request : RegistrationRequest) (now_unix_ms : Z)
    : StoreState * Result RegistrationSummary RegistrationError :=
  let payload := {| rp_schema_version := REGISTRATION_SCHEMA_VERSION; rp_installed_at_unix_ms := now_unix_ms; rp_request := request |} in
  let secret := pe_secret env (st_drawn st) in
  let prepared :=
    request_validate request ;?
    let? payload_bytes := rmap_err RegJson (pe_payload_json env payload) in
    ensure_not (MAX_REGISTRATION_BYTES <? zlen payload_bytes) (RegInvalid "registration exceeds the 64 KiB bound") ;?
    let? mac := authenticate env secret payload_bytes in
    let? pretty_bytes := rmap_err RegJson (pe_registration_pretty env {| ar_payload := payload; ar_mac_sha256 := mac |}) in
    let? name := state_path (rr_registration_id request) in
    Ok (name, pretty_bytes ++ [10]) in
  match prepared with
  | Err e => (st, Err e)
  | Ok (name, bytes) =>
      let '(st', r) := install_state f {| st with st_drawn := Datatypes.S (st_drawn st) |} REGISTRATION_LOCK_FILE name
        (rr_registration_id request) MAX_REGISTRATIONS MAX_STATE_ROOT_ENTRIES RegSecret secret bytes in
      (st', rmap (fun _ => registration_summary payload) r)
  end.

(** The checks of [RegistrationStore::load] after the lock. *)
Definition load_locked (f : Faults) st (name registration_id : string) : Result RegistrationPayload RegistrationError :=
  rmap_err map_read_registration_error (validate_private_regular_file (pe_unix env) f (st_disk st) name MAX_REGISTRATION_BYTES) ;?
  let? bytes := rmap_err map_read_registration_error (read_entry f (st_disk st) name) in
  let? registration := rmap_err RegJson (pe_registration_parse env bytes) in
  ensure_not (negb (rp_schema_version (ar_payload registration) =? REGISTRATION_SCHEMA_VERSION)
              || negb (str_eqb (rr_registration_id (rp_request (ar_payload registration))) registration_id)) RegAuthenticationFailed ;?
  request_validate (rp_request (ar_payload registration)) ;?
  let? payload_bytes := rmap_err RegJson (pe_payload_json env (ar_payload registration)) in
  let? secret := rmap_err RegSecret (ss_get registration_id (st_secrets st)) in
  let? expected := authenticate env secret payload_bytes in
  ensure_not (negb (slen expected =? slen (ar_mac_sha256 registration)) || negb (str_eqb expected (ar_mac_sha256 registration)))
    RegAuthenticationFailed ;?
  Ok (ar_payload registration).

(** [RegistrationStore::load]. *)
Definition registration_load (f : Faults) st (registration_id : string) : StoreState * Result RegistrationPayload RegistrationError :=
  match state_path registration_id with
  | Err e => (st, Err e)
  | Ok name =>
      match take_lock f st REGISTRATION_LOCK_FILE with
      | (st1, Err e) => (st1, Err e)
      | (st1, Ok _) => (st1, load_locked f st1 name registration_id)
      end
  end.

(** [RegistrationStore::inspect]. *)
Definition registration_inspect (f : Faults) st (registration_id : string) : StoreState * Result RegistrationSummary RegistrationError :=
  let '(st1, r) := registration_load f st registration_id in (st1, rmap registration_summary r).

(** [remove] of both stores: the file before the secret. *)
Definition remove_state (f : Faults) st (lock id secret_id : string) : StoreState * Result unit RegistrationError :=
  match state_path id with
  | Err e => (st, Err e)
  | Ok name =>
      match take_lock f st lock with
      | (st1, Err e) => (st1, Err e)
      | (st1, Ok _) =>
          match remove_private_file f (st_disk st1) name with
          | (d, Err e) => ({| st1 with st_disk := d |}, Err (RegIo e))
          | (d, Ok _) =>
              let '(s, r) := ss_delete secret_id (st_secrets st1) in
              ({| st1 with st_disk := d; st_secrets := s |}, rmap_err RegSecret r)
          end
      end
  end.

Definition registration_remove (f : Faults) st (registration_id : string) : StoreState * Result unit RegistrationError :=
  remove_state f st REGISTRATION_LOCK_FILE registration_id registration_id.

(** The tokens derived by [http_authorization] and [cli_authorization]. *)
Definition derive_token st (domain : list Z) (registration_id : string) : Result AuthorizationToken RegistrationError :=
  let? secret := rmap_err RegSecret (ss_get registration_id (st_secrets st)) in
  message_authentication env secret domain (str_bytes registration_id).

Definition is_http (p : RegisteredAdapterProfile) : bool := match p with RegisteredMcp StreamableHttp _ => true | _ => false end.
Definition is_cli (p : RegisteredAdapterProfile) : bool := match p with RegisteredCli => true | _ => false end.

Definition store_http_authorization (f : Faults) st (registration_id : string) : StoreState * Result AuthorizationToken RegistrationError :=
  let '(st1, loaded) := registration_load f st registration_id in
  (st1,
   let? payload := loaded in
   ensure_not (negb (is_http (rr_adapter_profile (rp_request payload)))) (RegInvalid "registration is not bound to Streamable HTTP") ;?
   derive_token st1 HTTP_DOMAIN registration_id).

Definition store_cli_authorization (f : Faults) st (registration_id : string) : StoreState * Result AuthorizationToken RegistrationError :=
  let '(st1, loaded) := registration_load f st registration_id in
  (st1,
   let? payload := loaded in
   ensure_not (negb (is_cli (rr_adapter_profile (rp_request payload)))) (RegInvalid "registration is not bound to the CLI adapter") ;?
   derive_token st1 CLI_DOMAIN registration_id).

(** ** Integration state ([plan.rs]) *)

(** [secret_id]. *)
Definition state_secret_id (state_ref : string) : string := "integration-state-" +:+ state_ref.

Definition map_state_put (e : SecretStoreError) : RegistrationError :=
  match e with SecretAlreadyExists => RegAlreadyExists | other => RegSecret other end.

(** [AuthenticatedIntegrationStore::install]. *)
Definition integration_install (f : Faults) st (state_ref : string) (payload : list Z) : StoreState * Result unit RegistrationError :=
  let secret := pe_secret env (st_drawn st) in
  let prepared :=
    validate_registration_id state_ref ;?
    ensure_not ((zlen payload =? 0) || (MAX_STATE_PAYLOAD_BYTES <? zlen payload))
      (RegInvalid "integration state payload is empty or exceeds 128 KiB") ;?
    let? mac := message_authentication env secret STATE_DOMAIN payload in
    let? bytes := rmap_err RegJson (pe_state_pretty env {| as_schema_version := STATE_ENVELOPE_SCHEMA_VERSION;
                                      as_payload_hex := pe_hex_encode env payload; as_mac_sha256 := mac |}) in
    let? name := state_path state_ref in
    Ok (name, bytes ++ [10]) in
  match prepared with
  | Err e => (st, Err e)
  | Ok (name, bytes) =>
      install_state f {| st with st_drawn := Datatypes.S (st_drawn st) |} INTEGRATION_STATE_LOCK_FILE name (state_secret_id state_ref)
        MAX_INTEGRATION_STATES MAX_INTEGRATION_DIRECTORY_ENTRIES map_state_put secret bytes
  end.

(** The checks of [AuthenticatedIntegrationStore::load] after the lock. *)
Definition integration_load_locked (f : Faults) st (name state_ref : string) : Result (list Z) RegistrationError :=
  rmap_err map_read_registration_error (validate_private_regular_file (pe_unix env) f (st_disk st) name MAX_STATE_ENVELOPE_BYTES) ;?
  let? bytes := rmap_err map_read_registration_error (read_entry f (st_disk st) name) in
  let? envelope := rmap_err RegJson (pe_state_parse env bytes) in
  ensure_not (negb (as_schema_version envelope =? STATE_ENVELOPE_SCHEMA_VERSION)) RegAuthenticationFailed ;?
  let? payload := ok_or (pe_hex_decode env (as_payload_hex envelope)) RegAuthenticationFailed in
  ensure_not ((zlen payload =? 0) || (MAX_STATE_PAYLOAD_BYTES <? zlen payload)) RegAuthenticationFailed ;?
  let? secret := rmap_err RegSecret (ss_get (state_secret_id state_ref) (st_secrets st)) in
  let? expected := message_authentication env secret STATE_DOMAIN payload in
  ensure_not (negb (slen expected =? slen (as_mac_sha256 envelope)) || negb (str_eqb expected (as_mac_sha256 envelope)))
    RegAuthenticationFailed ;?
  Ok payload.

Definition integration_load (f : Faults) st (state_ref : string) : StoreState * Result (list Z) RegistrationError :=
  match state_path state_ref with
  | Err e => (st, Err e)
  | Ok name =>
      match take_lock f st INTEGRATION_STATE_LOCK_FILE with
      | (st1, Err e) => (st1, Err e)
      | (st1, Ok _) => (st1, integration_load_locked f st1 name state_ref)
      end
  end.

Definition integration_remove (f : Faults) st (state_ref : string) : StoreState * Result unit RegistrationError :=
  remove_state f st INTEGRATION_STATE_LOCK_FILE state_ref (state_secret_id state_ref).

End Stores.

(** * Names *)

Lemma str_eqb_refl s : str_eqb s s = true.
Proof. by apply str_eqb_eq. Qed.

Lemma ends_with_str_app suffix a : ends_with_str suffix (a +:+ suffix) = true.
Proof.
  induction a as [|x a IH].
  - change ("" +:+ suffix) with suffix. destruct suffix; cbn [ends_with_str]; by rewrite str_eqb_refl.
  - change (String x a +:+ suffix) with (String x (a +:+ suffix)). cbn [ends_with_str]. by rewrite IH, orb_true_r.
Qed.

Lemma state_file_json id : id <> EmptyString -> json_extension (state_file id) = true.
Proof.
  intros Hid. unfold json_extension, state_file. rewrite ends_with_str_app. cbn [andb].
  apply negb_true_iff, str_eqb_neq. intros E. apply (f_equal slen) in E. rewrite slen_app in E.
  destruct id as [|c id]; [done|]. unfold slen in E. cbn in E. lia.
Qed.

Lemma valid_id_nonempty id : validate_registration_id id = Ok tt -> id <> EmptyString.
Proof. by intros H ->. Qed.

Lemma string_app_cancel (a b c : string) : a +:+ c = b +:+ c -> a = b.
Proof.
  revert b. induction a as [|x a IH]; intros [|y b] E; [done| | |].
  - apply (f_equal slen) in E. change ("" +:+ c) with c in E. rewrite slen_app in E. unfold slen in E. cbn in E. lia.
  - apply (f_equal slen) in E. change ("" +:+ c) with c in E. rewrite slen_app in E. unfold slen in E. cbn in E. lia.
  - change (String x (a +:+ c) = String y (b +:+ c)) in E. injection E as -> E. by rewrite (IH b E).
Qed.

Lemma state_file_inj id id' : state_file id = state_file id' -> id = id'.
Proof. apply string_app_cancel. Qed.

Lemma json_not_lock name : json_extension name = true -> name <> REGISTRATION_LOCK_FILE /\ name <> INTEGRATION_STATE_LOCK_FILE.
Proof. intros H. split; intros ->; vm_compute in H; discriminate. Qed.

(** * The file system *)

Lemma fault_Ok o : fault o = Ok tt <-> o = None.
Proof. by destruct o. Qed.

Section StoreProps.
Context {S : Type} {secrets : SecretStore S} {order : HashOrder}.
Context (env : ProviderEnv).
#[local] Abbreviation StoreState := (StoreState (S := S)).
Implicit Types st : StoreState.

(** The same directory up to one entry, with the same secrets. *)
Definition same_but (lock : string) st st' : Prop :=
  (forall name, name <> lock -> st_disk st' !! name = st_disk st !! name) /\ st_secrets st' = st_secrets st.

Lemma open_private_lock_frame f d lock d' r name : open_private_lock f d lock = (d', r) -> name <> lock -> d' !! name = d !! name.
Proof.
  unfold open_private_lock, apply_owner_only. intros H Hn'. assert (Hn : lock <> name) by congruence.
  destruct (fault (ft_open_lock f)); [|by injection H as <- _].
  destruct (d !! lock) as [e|]; [destruct (en_kind e); [|by injection H as <- _|by injection H as <- _]|];
    (destruct (fault (ft_protect f)); injection H as <- _; rewrite ?lookup_alter_ne, ?lookup_insert_ne by done; done).
Qed.

Lemma lock_state_frame f st lock st' r : take_lock f st lock = (st', r) -> same_but lock st st' /\ st_drawn st' = st_drawn st.
Proof.
  unfold take_lock. destruct (open_private_lock f (st_disk st) lock) as [d [u|e]] eqn:E; intros [= <- <-];
    (split; [|done]); (split; [|done]); intros name Hn; cbn; by eapply open_private_lock_frame.
Qed.

Lemma lock_state_io f st lock st' e : take_lock f st lock = (st', Err e) -> exists x, e = RegIo x.
Proof.
  unfold take_lock. destruct (open_private_lock f (st_disk st) lock) as [d [u|x]]; [|intros [= _ <-]; by eexists].
  unfold fault. destruct (ft_lock f); [intros [= _ <-]; by eexists|done].
Qed.

(** The lock can be taken. *)
Definition lock_usable st (lock : string) : Prop :=
  match st_disk st !! lock with Some e => en_kind e = KindFile | None => True end.

Lemma lock_state_ok st lock : lock_usable st lock -> exists st', take_lock no_faults st lock = (st', Ok tt).
Proof.
  unfold lock_usable, take_lock, open_private_lock, apply_owner_only. cbn [fault no_faults ft_open_lock ft_protect ft_lock].
  destruct (st_disk st !! lock) as [e|]; [intros ->|intros _]; by eexists.
Qed.

(** ** Loading *)

(** A registration file whose content the stored secret authenticates. *)
Record authentic st (id : string) (p : RegistrationPayload) : Prop := {
  au_name : validate_registration_id id = Ok tt;
  au_version : rp_schema_version p = REGISTRATION_SCHEMA_VERSION;
  au_id : rr_registration_id (rp_request p) = id;
  au_valid : request_validate (rp_request p) = Ok tt;
  au_file : exists e mac bytes secret,
    st_disk st !! state_file id = Some e /\ en_kind e = KindFile /\ zlen (en_bytes e) <= MAX_REGISTRATION_BYTES /\
    (pe_unix env = true -> Z.land (en_mode e) 63 = 0) /\
    pe_registration_parse env (en_bytes e) = Ok {| ar_payload := p; ar_mac_sha256 := mac |} /\
    pe_payload_json env p = Ok bytes /\ ss_get id (st_secrets st) = Ok secret /\ authenticate env secret bytes = Ok mac;
}.

Lemma load_locked_iff st id p : validate_registration_id id = Ok tt ->
  (forall f, load_locked env f st (state_file id) id = Ok p -> authentic st id p) /\
  (authentic st id p -> load_locked env no_faults st (state_file id) id = Ok p).
Proof.
  intros Hid. split.
  - intros f H. unfold load_locked, validate_private_regular_file, read_entry in H. res_inv.
    repeat match goal with u : () |- _ => destruct u end.
    match goal with H : rmap en_bytes _ = Ok _ |- _ => destruct (st_disk st !! state_file id) as [e|] eqn:Ed; [|discriminate H]; injection H as <- end.
    match goal with H : Some _ = Some _ |- _ => injection H as -> end. zbool.
    repeat match goal with H : _ /\ _ |- _ => destruct H end.
    repeat match goal with H : negb _ = false |- _ => apply negb_false_iff in H end.
    repeat match goal with H : str_eqb _ _ = true |- _ => apply str_eqb_eq in H end.
    repeat match goal with H : bool_decide _ = true |- _ => apply bool_decide_eq_true in H end.
    match goal with H : pe_registration_parse _ _ = Ok ?r |- _ => destruct r as [p' mac] end. cbn in *. subst.
    constructor; try done. do 4 eexists. split_and!; try done.
    intros Hu. match goal with H : _ \/ _ |- _ => destruct H as [H|H]; [congruence|lia] end.
  - intros [_ Hv Hi Hr (e & mac & bytes & secret & Hd & Hk & Hl & Hm & Hp & Hj & Hs & Ha)].
    unfold load_locked, validate_private_regular_file, read_entry. cbn [fault no_faults ft_stat ft_read]. rewrite Hd. cbn [ok_or rbind rmap].
    rewrite bool_decide_eq_true_2 by done. rewrite (proj2 (Z.ltb_ge _ _)) by lia. cbn [negb orb].
    assert (Hmode : pe_unix env && negb (Z.land (en_mode e) 63 =? 0) = false).
    { destruct (pe_unix env) eqn:Eu; [|done]. by rewrite (Hm eq_refl). }
    rewrite Hmode. cbn [ensure_not rbind rmap_err]. rewrite Hp. cbn [rmap_err rbind ar_payload ar_mac_sha256].
    rewrite Hv, Hi, str_eqb_refl, Z.eqb_refl. cbn [negb orb ensure_not rbind]. rewrite Hr, Hj, Hs. cbn [rmap_err rbind]. rewrite Ha. cbn [rbind].
    by rewrite Z.eqb_refl, str_eqb_refl.
Qed.

Lemma authentic_frame st st' id p : same_but REGISTRATION_LOCK_FILE st st' -> authentic st' id p <-> authentic st id p.
Proof.
  intros [Hd Hs]. assert (Hname : validate_registration_id id = Ok tt -> st_disk st' !! state_file id = st_disk st !! state_file id).
  { intros Hid. apply Hd. by apply json_not_lock, state_file_json, valid_id_nonempty. }
  split; intros [Hn Hv Hi Hr (e & mac & bytes & secret & H)]; constructor; try done; exists e, mac, bytes, secret.
  - by rewrite <- Hname, <- Hs.
  - by rewrite Hname, Hs.
Qed.

Lemma load_authentic f st id p : (registration_load env f st id).2 = Ok p -> authentic st id p.
Proof.
  unfold registration_load, state_path. destruct (validate_registration_id id) as [[]|e] eqn:Hid; cbn [rbind]; [|done].
  destruct (take_lock f st REGISTRATION_LOCK_FILE) as [st1 [u|e]] eqn:El; cbn [snd]; [|done].
  apply lock_state_frame in El as [Hf _]. intros H. by apply (authentic_frame _ _ _ _ Hf), (proj1 (load_locked_iff st1 id p Hid) f).
Qed.

Lemma authentic_loads st id p : lock_usable st REGISTRATION_LOCK_FILE -> authentic st id p ->
  (registration_load env no_faults st id).2 = Ok p.
Proof.
  intros [st1 El]%lock_state_ok Ha. unfold registration_load, state_path. pose proof (au_name _ _ _ Ha) as Hid.
  rewrite Hid. cbn [rbind]. rewrite El. cbn [snd]. apply lock_state_frame in El as [Hf _].
  by apply (proj2 (load_locked_iff st1 id p Hid)), (authentic_frame _ _ _ _ Hf).
Qed.

(** What a loaded registration guarantees.  A registration loads only from
    an owner-private bounded regular file that carries its own identifier and
    schema, passes every rule of a new registration and whose content is
    authenticated by the secret stored for it; and such a registration loads
    whenever the file system answers. *)
Theorem load_exact st id p :
  (forall f, (registration_load env f st id).2 = Ok p -> authentic st id p) /\
  (lock_usable st REGISTRATION_LOCK_FILE -> authentic st id p -> (registration_load env no_faults st id).2 = Ok p).
Proof. split; [intros f; apply load_authentic|apply authentic_loads]. Qed.

(** ** Installing *)

Context {lawful : LawfulSecrets S}.

(** What writing the file leaves. *)
Lemma write_state_ok f d name bytes d' : write_state f d name bytes = (d', Ok tt) ->
  d !! name = None /\ d' = <[name := private_entry bytes]> d.
Proof.
  unfold write_state, create_private_file, apply_owner_only, write_private.
  destruct (d !! name) as [e|] eqn:Ed; [done|]. destruct (fault (ft_create f)); [|done]. destruct (fault (ft_protect f)); [|done].
  destruct (ft_write f) as [[n e]|]; [done|]. destruct (fault (ft_sync f)); [|done]. intros [= <-]. split; [done|].
  rewrite !alter_insert_eq. done.
Qed.

Lemma write_state_frame f d name bytes d' r name' : write_state f d name bytes = (d', r) -> name' <> name -> d' !! name' = d !! name'.
Proof.
  unfold write_state, create_private_file, apply_owner_only, write_private. intros H Hn'. assert (Hn : name <> name') by congruence.
  destruct (d !! name) as [e|]; [by injection H as <- _|]. destruct (fault (ft_create f)); [|by injection H as <- _].
  destruct (fault (ft_protect f)); [|injection H as <- _; by rewrite lookup_insert_ne].
  destruct (ft_write f) as [[n e]|]; injection H as <- _; by rewrite !lookup_alter_ne, lookup_insert_ne.
Qed.

(** What a failed write leaves under the name is a file. *)
Lemma write_state_file f d name bytes d' r e : d !! name = None -> write_state f d name bytes = (d', r) -> d' !! name = Some e -> en_kind e = KindFile.
Proof.
  unfold write_state, create_private_file, apply_owner_only, write_private. intros Hnone H. rewrite Hnone in H. destruct (fault (ft_create f)); [|injection H as <- _; congruence].
  destruct (fault (ft_protect f)); [|injection H as <- _; rewrite lookup_insert_eq; by intros [= <-]].
  destruct (ft_write f) as [[n x]|]; injection H as <- _; rewrite !lookup_alter_eq, lookup_insert_eq; by intros [= <-].
Qed.

Lemma remove_private_file_frame f d name d' r name' : remove_private_file f d name = (d', r) -> name' <> name -> d' !! name' = d !! name'.
Proof.
  unfold remove_private_file. intros H Hn'. assert (Hn : name <> name') by congruence.
  destruct (d !! name); [|by injection H as <- _]. destruct (bool_decide _); [by injection H as <- _|].
  destruct (fault (ft_remove f)); injection H as <- _; by rewrite ?lookup_delete_ne.
Qed.

(** How [install_state] ends, from the checks under the lock on. *)
Lemma install_state_outcome f st lock name secret_id max_json max_entries map_put secret bytes st' r :
  name <> lock -> install_state f st lock name secret_id max_json max_entries map_put secret bytes = (st', r) ->
  exists st1, same_but lock st st1 /\
    match r with
    | Ok _ => st_disk st1 !! name = None /\ has_json_capacity f (st_disk st1) max_json max_entries = Ok true /\
        st_disk st' = <[name := private_entry bytes]> (st_disk st1) /\
        ss_put secret_id secret (st_secrets st1) = (st_secrets st', Ok tt)
    | Err _ => (st_disk st' = st_disk st1 /\ (st_secrets st' = st_secrets st1 \/ exists e, ss_put secret_id secret (st_secrets st1) = (st_secrets st', Err e))) \/
        (exists d1 s1, st_disk st1 !! name = None /\ has_json_capacity f (st_disk st1) max_json max_entries = Ok true /\
          ss_put secret_id secret (st_secrets st1) = (s1, Ok tt) /\ (forall n, n <> name -> d1 !! n = st_disk st1 !! n) /\ (forall x, d1 !! name = Some x -> en_kind x = KindFile) /\
          st_disk st' = (remove_private_file f d1 name).1 /\ st_secrets st' = (ss_delete secret_id s1).1)
    end.
Proof.
  intros Hn. unfold install_state. destruct (take_lock f st lock) as [st1 [u|e]] eqn:El; apply lock_state_frame in El as [Hf _].
  2: { intros [= <- <-]. exists st1. split; [done|]. left. split; [done|by left]. }
  match goal with |- context [match ?x with Ok _ => _ | Err _ => _ end] => destruct x as [u2|e] eqn:Ea end.
  2: { intros [= <- <-]. exists st1. split; [done|]. left. split; [done|by left]. }
  res_inv. match goal with H : bool_decide _ = false |- _ => apply bool_decide_eq_false in H; rename H into Hex end.
  match goal with H : negb ?b = false |- _ => apply negb_false_iff in H; subst b end.
  assert (Hnone : st_disk st1 !! name = None) by (destruct (st_disk st1 !! name) eqn:E; [by destruct Hex|done]).
  destruct (ss_put secret_id secret (st_secrets st1)) as [s1 [[]|e]] eqn:Ep.
  2: { intros [= <- <-]. exists st1. split; [done|]. left. split; [done|]. right. by exists e. }
  destruct (write_state f (st_disk st1) name bytes) as [d1 [[]|e]] eqn:Ew.
  - intros [= <- <-]. exists st1. split; [done|]. apply write_state_ok in Ew as [_ ->]. by split_and!.
  - intros [= <- <-]. exists st1. split; [done|]. right. exists d1, s1. split_and!; try done.
    + intros n Hn2. by eapply write_state_frame.
    + intros y. by eapply write_state_file.
Qed.

(** The payload [install] makes of a request. *)
Definition new_payload (request : RegistrationRequest) (now : Z) : RegistrationPayload :=
  {| rp_schema_version := REGISTRATION_SCHEMA_VERSION; rp_installed_at_unix_ms := now; rp_request := request |}.

(** What [install] has prepared when it takes the lock. *)
Lemma registration_install_prepared f st request now st' r : registration_install env f st request now = (st', r) ->
  (exists e, r = Err e /\ st' = st) \/
  exists payload_bytes mac bytes r',
    request_validate request = Ok tt /\ validate_registration_id (rr_registration_id request) = Ok tt /\
    pe_payload_json env (new_payload request now) = Ok payload_bytes /\ zlen payload_bytes <= MAX_REGISTRATION_BYTES /\
    authenticate env (pe_secret env (st_drawn st)) payload_bytes = Ok mac /\
    pe_registration_pretty env {| ar_payload := new_payload request now; ar_mac_sha256 := mac |} = Ok bytes /\
    r = rmap (fun _ => registration_summary (new_payload request now)) r' /\
    install_state f {| st with st_drawn := Datatypes.S (st_drawn st) |} REGISTRATION_LOCK_FILE (state_file (rr_registration_id request))
      (rr_registration_id request) MAX_REGISTRATIONS MAX_STATE_ROOT_ENTRIES RegSecret (pe_secret env (st_drawn st)) (bytes ++ [10]) = (st', r').
Proof.
  unfold registration_install. fold (new_payload request now).
  match goal with |- context [match ?x with Ok _ => _ | Err _ => _ end] => destruct x as [[name bytes]|e] eqn:Ep end.
  2: { intros [= <- <-]. left. by eexists. }
  destruct (install_state _ _ _ _ _ _ _ _ _ _) as [st2 r2] eqn:Ei. intros [= <- <-]. right.
  res_inv. repeat match goal with u : () |- _ => destruct u end.
  match goal with H : state_path _ = Ok _ |- _ => unfold state_path in H; res_inv end.
  repeat match goal with u : () |- _ => destruct u end. zbool.
  do 4 eexists. split_and!; done.
Qed.

(** The lock file of a successful operation is a regular file. *)
Lemma lock_state_usable f st lock st' : take_lock f st lock = (st', Ok tt) -> lock_usable st' lock.
Proof.
  unfold take_lock, open_private_lock, apply_owner_only, lock_usable. destruct (fault (ft_open_lock f)); [|done].
  destruct (st_disk st !! lock) as [e|] eqn:Ed.
  - destruct (en_kind e) eqn:Ek; [|done|done]. destruct (fault (ft_protect f)); [|done].
    intros [= <- _]. cbn [st_disk]. by rewrite lookup_alter_eq, Ed.
  - destruct (fault (ft_protect f)); [|done]. intros [= <- _]. cbn [st_disk]. by rewrite lookup_alter_eq, lookup_insert_eq.
Qed.

Lemma install_state_usable f st lock name secret_id max_json max_entries map_put secret bytes st' :
  name <> lock -> install_state f st lock name secret_id max_json max_entries map_put secret bytes = (st', Ok tt) -> lock_usable st' lock.
Proof.
  intros Hn. unfold install_state. destruct (take_lock f st lock) as [st1 [[]|e]] eqn:El; [|done]. apply lock_state_usable in El.
  match goal with |- context [match ?x with Ok _ => _ | Err _ => _ end] => destruct x as [u2|e]; [|done] end.
  destruct (ss_put secret_id secret (st_secrets st1)) as [s1 [[]|e]]; [|done].
  destruct (write_state f (st_disk st1) name bytes) as [d1 [[]|e]] eqn:Ew; [|done]. intros [= <-].
  unfold lock_usable in *. cbn [st_disk]. by rewrite (write_state_frame _ _ _ _ _ _ lock Ew).
Qed.

(** What a successful installation leaves. *)
Lemma registration_install_ok f st request now st' summary_ :
  (forall r bytes, pe_registration_pretty env r = Ok bytes -> pe_registration_parse env (bytes ++ [10]) = Ok r) ->
  registration_install env f st request now = (st', Ok summary_) ->
  let id := rr_registration_id request in
  summary_ = registration_summary (new_payload request now) /\
  exists e, st_disk st !! state_file id = None /\ st_disk st' !! state_file id = Some e /\ en_mode e = OWNER_FILE_MODE /\
    ss_get id (st_secrets st') = Ok (pe_secret env (st_drawn st)) /\
    (zlen (en_bytes e) <= MAX_REGISTRATION_BYTES ->
      (registration_load env no_faults st' id).2 = Ok (new_payload request now)).
Proof.
  intros Hjson Hi id. destruct (registration_install_prepared _ _ _ _ _ _ Hi) as [(e & ? & _)|Hprep]; [done|].
  destruct Hprep as (pb & mac & bytes & r' & Hrv & Hid & Hpj & Hpl & Hau & Hpp & Hr & Hst).
  destruct r' as [[]|]; [|done]. injection Hr as ->. split; [done|].
  assert (Hl : state_file id <> REGISTRATION_LOCK_FILE) by (by apply json_not_lock, state_file_json, valid_id_nonempty).
  pose proof (install_state_usable _ _ _ _ _ _ _ _ _ _ _ Hl Hst) as Hlock.
  apply install_state_outcome in Hst; [|done].
  destruct Hst as (st1 & [Hfd Hfs] & Hnone & _ & Hd & Hput). cbn [st_disk st_secrets] in Hfd, Hfs.
  apply put_stored in Hput as (Hget & _ & _).
  exists (private_entry (bytes ++ [10])). rewrite <- (Hfd _ Hl), Hd, lookup_insert_eq. split_and!; try done. intros Hlen.
  apply authentic_loads; [done|]. constructor; try done. do 4 eexists. rewrite Hd, lookup_insert_eq. split_and!; try done. by apply Hjson.
Qed.

(** C34: installing and loading round-trip.  When an installation succeeds, the
    summary is of the request, the identifier was free, the file is written
    with owner-only permissions under a fresh secret, and the registration
    loads back exactly, with the time of its installation, as long as the
    printed file keeps the bound of [load]. *)
Theorem install_roundtrip f st request now st' summary_ :
  (forall r bytes, pe_registration_pretty env r = Ok bytes -> pe_registration_parse env (bytes ++ [10]) = Ok r) ->
  registration_install env f st request now = (st', Ok summary_) ->
  let id := rr_registration_id request in
  summary_ = registration_summary (new_payload request now) /\
  exists e, st_disk st !! state_file id = None /\ st_disk st' !! state_file id = Some e /\ en_mode e = OWNER_FILE_MODE /\
    ss_get id (st_secrets st') = Ok (pe_secret env (st_drawn st)) /\
    (zlen (en_bytes e) <= MAX_REGISTRATION_BYTES ->
      (registration_load env no_faults st' id).2 = Ok (new_payload request now)).
Proof. apply registration_install_ok. Qed.

(** A failed installation leaves no trace.  When an installation fails for
    any reason, and the rollback itself does not fail, every other entry of the
    directory and every secret is as before; an existing registration of the
    same identifier is never touched. *)
Theorem install_failed_clean f st request now st' e :
  ft_remove f = None -> (forall id s, exists s', ss_delete id s = (s', Ok tt)) ->
  registration_install env f st request now = (st', Err e) ->
  (forall name, name <> REGISTRATION_LOCK_FILE -> st_disk st' !! name = st_disk st !! name) /\
  (forall id, ss_get id (st_secrets st') = ss_get id (st_secrets st)).
Proof.
  intros Hrm Hdel Hi. destruct (registration_install_prepared _ _ _ _ _ _ Hi) as [(e' & _ & ->)|Hprep]; [done|].
  destruct Hprep as (pb & mac & bytes & r' & Hrv & Hid & Hpj & Hpl & Hau & Hpp & Hr & Hst).
  destruct r' as [u|]; [done|].
  apply install_state_outcome in Hst; [|by apply json_not_lock, state_file_json, valid_id_nonempty].
  destruct Hst as (st1 & [Hfd Hfs] & Hcase). cbn [st_disk st_secrets] in Hfd, Hfs. rewrite <- Hfs.
  destruct Hcase as [[Hd Hs]|(d1 & s1 & Hnone & _ & Hput & Hframe & Hfile & Hd & Hs)].
  - split; [intros name Hn; by rewrite Hd, Hfd|]. intros id. destruct Hs as [->|[e' Hs]]; [done|]. by apply (put_failed _ _ _ _ _ Hs).
  - destruct (put_stored _ _ _ _ Hput) as (_ & Hnew & Hothers). split.
    + intros name Hn. rewrite <- (Hfd name Hn), Hd. unfold remove_private_file.
      destruct (decide (name = state_file (rr_registration_id request))) as [->|Hne].
      * rewrite Hnone. destruct (d1 !! state_file _) eqn:Ed; [|done]. rewrite bool_decide_eq_false_2 by (by rewrite (Hfile _ eq_refl)). rewrite Hrm. cbn. by rewrite lookup_delete_eq.
      * rewrite <- (Hframe name Hne). destruct (d1 !! state_file _); [|done]. rewrite bool_decide_eq_false_2 by (by rewrite (Hfile _ eq_refl)). rewrite Hrm. cbn. rewrite lookup_delete_ne by congruence. done.
    + intros id. rewrite Hs. destruct (Hdel (rr_registration_id request) s1) as [s2 E]. rewrite E. cbn [fst].
      destruct (delete_removed _ _ _ E) as [Hgone Hkeep]. destruct (decide (id = rr_registration_id request)) as [->|Hne]; [congruence|].
      by rewrite Hkeep, Hothers.
Qed.

(** An installation touches its own entry and secret only. *)
Lemma install_state_others f st lock name secret_id max_json max_entries map_put secret bytes st' :
  name <> lock -> install_state f st lock name secret_id max_json max_entries map_put secret bytes = (st', Ok tt) ->
  st_disk st !! name = None /\
  (forall n, n <> lock -> n <> name -> st_disk st' !! n = st_disk st !! n) /\
  (forall sid, sid <> secret_id -> ss_get sid (st_secrets st') = ss_get sid (st_secrets st)).
Proof.
  intros Hn Hst. apply install_state_outcome in Hst as (st1 & [Hfd Hfs] & Hnone & _ & Hd & Hput); [|done].
  apply put_stored in Hput as (_ & _ & Hothers). split_and!.
  - by rewrite <- (Hfd name Hn).
  - intros n Hl Hne. by rewrite Hd, lookup_insert_ne, Hfd.
  - intros sid Hne. by rewrite Hothers, Hfs.
Qed.

Lemma registration_install_others f st request now st' summary_ : registration_install env f st request now = (st', Ok summary_) ->
  st_disk st !! state_file (rr_registration_id request) = None /\
  (forall n, n <> REGISTRATION_LOCK_FILE -> n <> state_file (rr_registration_id request) -> st_disk st' !! n = st_disk st !! n) /\
  (forall sid, sid <> rr_registration_id request -> ss_get sid (st_secrets st') = ss_get sid (st_secrets st)).
Proof.
  intros Hi. destruct (registration_install_prepared _ _ _ _ _ _ Hi) as [(e & ? & _)|Hprep]; [done|].
  destruct Hprep as (pb & mac & bytes & r' & Hrv & Hid & Hpj & Hpl & Hau & Hpp & Hr & Hst). destruct r' as [[]|]; [|done].
  apply install_state_others in Hst; [done|]. by apply json_not_lock, state_file_json, valid_id_nonempty.
Qed.

(** What a registration reads decides whether it is authentic. *)
Lemma authentic_agree st st' id p :
  (validate_registration_id id = Ok tt -> st_disk st' !! state_file id = st_disk st !! state_file id) ->
  ss_get id (st_secrets st') = ss_get id (st_secrets st) -> authentic st' id p <-> authentic st id p.
Proof.
  intros Hd Hs. split; intros [Hn Hv Hi Hr (e & mac & bytes & secret & H)]; constructor; try done; exists e, mac, bytes, secret.
  - by rewrite <- Hd, <- Hs.
  - by rewrite Hd, Hs.
Qed.

(** ** Removing *)

(** When [remove] gets past the file, the file is gone, whatever the secret
    store answers; nothing else of the directory changes. *)
Lemma remove_state_outcome f st lock id secret_id st' r : state_file id <> lock -> remove_state f st lock id secret_id = (st', r) ->
  (forall name, name <> lock -> name <> state_file id -> st_disk st' !! name = st_disk st !! name) /\
  (forall sid, sid <> secret_id -> ss_get sid (st_secrets st') = ss_get sid (st_secrets st)) /\
  match r with
  | Ok _ => st_disk st' !! state_file id = None /\ ss_get secret_id (st_secrets st') = Err SecretNotFound
  | Err (RegSecret _) => st_disk st' !! state_file id = None
  | Err _ => st_disk st' !! state_file id = st_disk st !! state_file id
  end.
Proof.
  intros Hn. unfold remove_state, state_path. destruct (validate_registration_id id) as [[]|e] eqn:Hid; cbn [rbind].
  2: { intros [= <- <-]. split_and!; try done. unfold validate_registration_id, ensure_not in Hid. case_match; [by injection Hid as <-|done]. }
  destruct (take_lock f st lock) as [st1 [u|e]] eqn:El.
  2: { intros [= <- <-]. pose proof (lock_state_io _ _ _ _ _ El) as [x ->]. apply lock_state_frame in El as [[Hd Hs] _].
       split_and!; [intros; by apply Hd|by rewrite Hs|by apply Hd]. }
  apply lock_state_frame in El as [[Hd Hs] _].
  destruct (remove_private_file f (st_disk st1) (state_file id)) as [d [u1|e]] eqn:Er.
  2: { intros [= <- <-]. cbn [st_disk st_secrets]. rewrite Hs. split_and!; [|done|].
       - intros name ? ?. by rewrite (remove_private_file_frame _ _ _ _ _ _ Er), Hd.
       - unfold remove_private_file in Er. destruct (st_disk st1 !! state_file id) eqn:E; [|done].
         destruct (bool_decide _); [injection Er as <- _; by apply Hd|]. destruct (fault (ft_remove f)); [done|]. injection Er as <- _. by apply Hd. }
  assert (Hgone : d !! state_file id = None).
  { unfold remove_private_file in Er. destruct (st_disk st1 !! state_file id) eqn:E; [|by injection Er as <-].
    destruct (bool_decide _); [done|]. destruct (fault (ft_remove f)); [|done]. injection Er as <- _. apply lookup_delete_eq. }
  rewrite <- Hs. destruct (ss_delete secret_id (st_secrets st1)) as [s [[]|e]] eqn:Ed; intros [= <- <-]; cbn [st_disk st_secrets rmap_err];
    (split; [intros name ? ?; by rewrite (remove_private_file_frame _ _ _ _ _ _ Er), Hd|split]).
  - by apply (proj2 (delete_removed _ _ _ Ed)).
  - split; [done|]. by apply delete_removed in Ed as [? _].
  - intros sid _. by apply (delete_failed _ _ _ _ Ed).
  - done.
Qed.

(** Removal revokes.  Once [remove] has returned, or failed only at the
    secret store, the registration no longer loads and no token derives from
    it, whatever the file system does; every other registration loads exactly
    as before. *)
Theorem remove_revokes f st id st' r :
  registration_remove f st id = (st', r) ->
  match r with
  | Ok _ | Err (RegSecret _) => forall f' p t,
      (registration_load env f' st' id).2 <> Ok p /\ (store_http_authorization env f' st' id).2 <> Ok t /\
      (store_cli_authorization env f' st' id).2 <> Ok t
  | Err _ => True
  end /\
  (forall id' p, id' <> id -> authentic st' id' p <-> authentic st id' p).
Proof.
  unfold registration_remove. intros Hr. destruct (validate_registration_id id) as [[]|e] eqn:Hid.
  2: { unfold remove_state, state_path in Hr. rewrite Hid in Hr. injection Hr as <- <-. split; [|done].
       unfold validate_registration_id, ensure_not in Hid. case_match; [by injection Hid as <-|done]. }
  assert (Hl : state_file id <> REGISTRATION_LOCK_FILE) by (by apply json_not_lock, state_file_json, valid_id_nonempty).
  destruct (remove_state_outcome _ _ _ _ _ _ _ Hl Hr) as (Hd & Hs & Hcase). split.
  - assert (Hgone : st_disk st' !! state_file id = None -> forall f' p t, (registration_load env f' st' id).2 <> Ok p /\
      (store_http_authorization env f' st' id).2 <> Ok t /\ (store_cli_authorization env f' st' id).2 <> Ok t).
    { intros Hgone f' p t. assert (Hno : forall p', (registration_load env f' st' id).2 <> Ok p').
      { intros p' [_ _ _ _ (e & ? & ? & ? & He & _)]%load_authentic. congruence. }
      unfold store_http_authorization, store_cli_authorization. destruct (registration_load env f' st' id) as [st2 [p'|e]]; cbn [snd] in *.
      - by destruct (Hno p').
      - done. }
    destruct r as [u|[]]; try done; [apply Hgone, Hcase|apply Hgone, Hcase].
  - intros id' p Hne. assert (Hfile : validate_registration_id id' = Ok tt -> st_disk st' !! state_file id' = st_disk st !! state_file id').
    { intros Hid'. apply Hd; [by apply json_not_lock, state_file_json, valid_id_nonempty|]. by intros ?%state_file_inj. }
    split; intros [Hn Hv Hi Hrv (e & mac & bytes & secret & H)]; constructor; try done; exists e, mac, bytes, secret.
    + by rewrite <- Hfile, <- (Hs id' Hne).
    + by rewrite Hfile, (Hs id' Hne).
Qed.

(** ** Capacity *)

(** The JSON files of a directory. *)
Definition json_names (d : Disk) : gset string := filter (fun n => json_extension n = true) (dom d).

Lemma elem_of_json_names d n : n ∈ json_names d <-> json_extension n = true /\ is_Some (d !! n).
Proof. unfold json_names. by rewrite elem_of_filter, elem_of_dom. Qed.

Lemma json_names_frame (lock : string) (d d' : Disk) : json_extension lock = false ->
  (forall n, n <> lock -> d' !! n = d !! n) -> json_names d' = json_names d.
Proof.
  intros Hl Hd. apply set_eq. intros n. rewrite !elem_of_json_names. destruct (decide (n = lock)) as [->|Hn]; [|by rewrite Hd].
  rewrite Hl. naive_solver.
Qed.

Lemma json_names_listed d :
  length (List.filter (fun x => json_extension x.1) (hash_iter d)) = size (json_names d).
Proof.
  assert (Hsub : sublist (List.filter (fun x => json_extension x.1) (hash_iter d)) (hash_iter d)).
  { induction (hash_iter d) as [|x l IH]; cbn; [constructor|]. case_match; by constructor. }
  rewrite <- (length_fmap fst), <- (size_list_to_set (C := gset string)).
  - f_equal. apply set_eq. intros n. rewrite elem_of_list_to_set, elem_of_json_names, list_elem_of_fmap. split.
    + intros ([k e] & -> & [Hin Hj]%list_elem_of_In%filter_In). split; [done|]. exists e.
      apply elem_of_map_to_list. rewrite <- hash_iter_perm. by apply list_elem_of_In.
    + intros [Hj [e He]]. exists (n, e). split; [done|]. apply list_elem_of_In, filter_In. split; [|done].
      apply list_elem_of_In. rewrite hash_iter_perm. by apply elem_of_map_to_list.
  - eapply sublist_NoDup; [|by apply fmap_sublist, Hsub]. rewrite hash_iter_perm. apply NoDup_fst_map_to_list.
Qed.

Lemma capacity_bound f d max_json max_entries : 0 <= max_entries ->
  has_json_capacity f d max_json max_entries = Ok true -> Z.of_nat (size (json_names d)) < max_json.
Proof.
  intros Hmax. unfold has_json_capacity, zlen. destruct (fault (ft_read_dir f)); [|done]. cbn [rbind]. intros [= [Hlen Hcount]%andb_prop].
  zbool. rewrite length_take in Hlen. rewrite take_ge in Hcount by lia. by rewrite json_names_listed in Hcount.
Qed.

(** An installation adds at most its own file, and only when there is room. *)
Lemma install_state_bounded f st lock name secret_id max_json max_entries map_put secret bytes :
  name <> lock -> json_extension lock = false -> 0 <= max_entries ->
  let st' := (install_state f st lock name secret_id max_json max_entries map_put secret bytes).1 in
  Z.of_nat (size (json_names (st_disk st'))) <= Z.max max_json (Z.of_nat (size (json_names (st_disk st)))).
Proof.
  intros Hn Hl Hmax st'. destruct (install_state f st lock name secret_id max_json max_entries map_put secret bytes) as [st2 r] eqn:E.
  subst st'. cbn [fst]. apply install_state_outcome in E as (st1 & [Hd _] & Hcase); [|done].
  apply (json_names_frame lock) in Hd; [|done]. rewrite <- Hd.
  assert (Hone : forall d : Disk, (forall n, n <> name -> is_Some (d !! n) -> is_Some (st_disk st1 !! n)) ->
    has_json_capacity f (st_disk st1) max_json max_entries = Ok true -> Z.of_nat (size (json_names d)) <= max_json).
  { intros d Hsub Hroom. apply capacity_bound in Hroom; [|done]. assert (json_names d ⊆ {[name]} ∪ json_names (st_disk st1)) as Hss.
    { intros n. rewrite elem_of_union, elem_of_singleton, !elem_of_json_names. destruct (decide (n = name)); naive_solver. }
    apply subseteq_size in Hss. pose proof (size_union_alt {[name]} (json_names (st_disk st1))) as Hu.
    assert (size (json_names (st_disk st1) ∖ {[name]}) <= size (json_names (st_disk st1)))%nat by (apply subseteq_size; set_solver).
    rewrite size_singleton in Hu. lia. }
  destruct r as [u|e].
  - destruct Hcase as (_ & Hroom & -> & _). etransitivity; [apply Hone; [|done]|lia]. intros n Hne. by rewrite lookup_insert_ne.
  - destruct Hcase as [[-> _]|(d1 & s1 & _ & Hroom & _ & Hf & _ & -> & _)]; [lia|]. etransitivity; [apply Hone; [|done]|lia].
    intros n Hne. destruct (remove_private_file f d1 name) as [d2 r2] eqn:Er. cbn [fst].
    by rewrite (remove_private_file_frame _ _ _ _ _ _ Er), Hf.
Qed.

Lemma remove_state_shrinks f st lock id secret_id : state_file id <> lock -> json_extension lock = false ->
  json_names (st_disk (remove_state f st lock id secret_id).1) ⊆ json_names (st_disk st).
Proof.
  intros Hn Hl. destruct (remove_state f st lock id secret_id) as [st' r] eqn:E. cbn [fst].
  destruct (remove_state_outcome _ _ _ _ _ _ _ Hn E) as (Hd & _ & Hcase). intros n. rewrite !elem_of_json_names. intros [Hj Hs].
  split; [done|]. destruct (decide (n = lock)) as [->|Hne]; [congruence|]. destruct (decide (n = state_file id)) as [->|Hnf]; [|by rewrite <- Hd].
  destruct r as [u|[]]; try (by rewrite <- Hcase); [destruct Hcase as [Hcase _]|]; rewrite Hcase in Hs; by destruct Hs.
Qed.

(** One operation of the registration store, with the faults it meets. *)
Inductive StoreOp :=
| OpInstall (request : RegistrationRequest) (now_unix_ms : Z)
| OpLoad (registration_id : string)
| OpRemove (registration_id : string).

Definition store_step st (op : Faults * StoreOp) : StoreState :=
  match op.2 with
  | OpInstall request now => (registration_install env op.1 st request now).1
  | OpLoad id => (registration_load env op.1 st id).1
  | OpRemove id => (registration_remove op.1 st id).1
  end.

Lemma install_bounded f st request now :
  Z.of_nat (size (json_names (st_disk (registration_install env f st request now).1)))
  <= Z.max MAX_REGISTRATIONS (Z.of_nat (size (json_names (st_disk st)))).
Proof.
  destruct (registration_install env f st request now) as [st' r] eqn:E. cbn [fst].
  destruct (registration_install_prepared _ _ _ _ _ _ E) as [(e & _ & ->)|Hprep]; [lia|].
  destruct Hprep as (pb & mac & bytes & r' & Hrv & Hid & Hpj & Hpl & Hau & Hpp & Hr & Hst).
  apply (f_equal fst) in Hst. cbn [fst] in Hst. rewrite <- Hst. etransitivity; [apply install_state_bounded|done]; [|done|done].
  by apply json_not_lock, state_file_json, valid_id_nonempty.
Qed.

(** The registrations stay bounded.  Whatever sequence of operations runs
    and wherever the file system fails in it, the directory never holds more
    than the bound of registrations, or than it held at the start. *)
Theorem registrations_bounded ops st :
  Z.of_nat (size (json_names (st_disk (foldl store_step st ops)))) <= Z.max MAX_REGISTRATIONS (Z.of_nat (size (json_names (st_disk st)))).
Proof.
  revert st. induction ops as [|[f op] ops IH]; intros st; cbn [foldl]; [lia|]. etransitivity; [apply IH|].
  assert (Z.of_nat (size (json_names (st_disk (store_step st (f, op))))) <= Z.max MAX_REGISTRATIONS (Z.of_nat (size (json_names (st_disk st))))); [|lia].
  destruct op as [request now|id|id]; unfold store_step; cbn [fst snd].
  - apply install_bounded.
  - unfold registration_load. destruct (state_path id); [|cbn; lia].
    destruct (take_lock f st REGISTRATION_LOCK_FILE) as [st1 r] eqn:El. apply lock_state_frame in El as [[Hd _] _].
    apply (json_names_frame REGISTRATION_LOCK_FILE) in Hd; [|done]. destruct r; cbn [fst]; rewrite Hd; lia.
  - unfold registration_remove. destruct (validate_registration_id id) as [[]|e] eqn:Hid.
    + assert (Hl : state_file id <> REGISTRATION_LOCK_FILE) by (by apply json_not_lock, state_file_json, valid_id_nonempty).
      pose proof (remove_state_shrinks f st REGISTRATION_LOCK_FILE id id Hl eq_refl) as Hss. apply subseteq_size in Hss. lia.
    + unfold remove_state, state_path. rewrite Hid. cbn. lia.
Qed.

End StoreProps.

(** * Message authentication *)

Lemma key_pad_length c secret : (length secret <= 64)%nat -> length (key_pad c secret) = 64%nat.
Proof. intros H. unfold key_pad. rewrite length_app, length_fmap, length_replicate. lia. Qed.

Lemma lxor_inj c a b : Z.lxor c a = Z.lxor c b -> a = b.
Proof. intros H. apply (f_equal (Z.lxor c)) in H. by rewrite <- !Z.lxor_assoc, Z.lxor_nilpotent, !Z.lxor_0_l in H. Qed.

Lemma key_pad_inj c a b : length a = length b -> key_pad c a = key_pad c b -> a = b.
Proof.
  intros Hl H. apply app_inj_1 in H as [H _]; [|by rewrite !length_fmap].
  revert b Hl H. induction a as [|x a IH]; intros [|y b] Hl H; try done. cbn in H. injection H as Hx H.
  apply lxor_inj in Hx as ->. f_equal. apply IH; [by injection Hl|done].
Qed.

(** A label without NUL, ended by one. *)
Lemma domain_split l1 l2 (a b : list Z) : 0 ∉ l1 -> 0 ∉ l2 -> (l1 ++ [0]) ++ a = (l2 ++ [0]) ++ b -> l1 = l2 /\ a = b.
Proof.
  revert l2. induction l1 as [|x l1 IH]; intros [|y l2] H1 H2 E; cbn in E.
  - by injection E as ->.
  - injection E as <- _. set_solver.
  - injection E as -> _. set_solver.
  - injection E as -> E. destruct (IH l2) as [-> ->]; [set_solver|set_solver|done|done].
Qed.

(** What the crates [sha2], [hex] and [serde_json] document. *)
Definition byte_value (b : Z) : Prop := 0 <= b < 256.
Definition is_hex (s : string) : Prop := bytes_all is_ascii_hexdigit s = true.

Record LawfulCodec (env : ProviderEnv) : Prop := {
  sha_bytes : forall x, Forall byte_value (pe_sha256 env x);
  sha_length : forall x, zlen (pe_sha256 env x) = 32;
  hex_roundtrip : forall x, Forall byte_value x -> pe_hex_decode env (pe_hex_encode env x) = Some x;
  hex_digits : forall x, Forall byte_value x -> is_hex (pe_hex_encode env x) /\ slen (pe_hex_encode env x) = 2 * zlen x;
  state_json : forall s bytes, is_hex (as_payload_hex s) -> is_hex (as_mac_sha256 s) -> pe_state_pretty env s = Ok bytes ->
    pe_state_parse env (bytes ++ [10]) = Ok s /\ zlen bytes <= slen (as_payload_hex s) + slen (as_mac_sha256 s) + 1024;
}.

Section Authentication.
Context (env : ProviderEnv).

(** Two different inputs with one digest. *)
Definition collision (x y : list Z) : Prop := x <> y /\ pe_sha256 env x = pe_sha256 env y.

(** What the two passes of [message_authentication] hash. *)
Definition inner_input (secret domain payload : list Z) : list Z := key_pad 54 secret ++ domain ++ payload.
Definition outer_input (secret domain payload : list Z) : list Z := key_pad 92 secret ++ pe_sha256 env (inner_input secret domain payload).

(** The domain labels of the crate. *)
Definition domain_labels : list string :=
  ["nexus.cua.registration.v1"; "nexus.cua.mcp.http.authorization.v1"; "nexus.cua.cli.transport.authorization.v1"; "nexus.cua.integration-state.v1"]%string.

Lemma domain_labels_free label : label ∈ domain_labels -> 0 ∉ str_bytes label.
Proof. intros H. repeat (apply elem_of_cons in H as [->|H]; [vm_compute; set_solver|]). by apply elem_of_nil in H. Qed.

Lemma str_bytes_inj a b : str_bytes a = str_bytes b -> a = b.
Proof.
  revert b. induction a as [|x a IH]; intros [|y b] E; try done. cbn [str_bytes] in E. injection E as Ex E.
  unfold byte_of in Ex. rewrite (IH b E). f_equal. rewrite <- (ascii_N_embedding x), <- (ascii_N_embedding y). f_equal. lia.
Qed.

(** Authentication codes are separated.  Two equal codes under labels of
    the crate come from the same secret, the same label and the same message,
    unless one of the two hash passes of these very inputs collides; so a
    registration's code, its HTTP token, its CLI token and the code of an
    integration state never stand for one another. *)
Theorem codes_apart secret1 secret2 label1 label2 m1 m2 t :
  LawfulCodec env -> label1 ∈ domain_labels -> label2 ∈ domain_labels ->
  message_authentication env secret1 (domain_of label1) m1 = Ok t ->
  message_authentication env secret2 (domain_of label2) m2 = Ok t ->
  (secret1 = secret2 /\ label1 = label2 /\ m1 = m2) \/
  collision (outer_input secret1 (domain_of label1) m1) (outer_input secret2 (domain_of label2) m2) \/
  collision (inner_input secret1 (domain_of label1) m1) (inner_input secret2 (domain_of label2) m2).
Proof.
  intros Hcodec Hl1%domain_labels_free Hl2%domain_labels_free H1 H2. unfold message_authentication in H1, H2. res_inv.
  repeat match goal with H : negb _ = false |- _ => apply negb_false_iff in H end. unfold zlen in *. zbool.
  match goal with H : pe_hex_encode _ _ = pe_hex_encode _ _ |- _ => apply (f_equal (pe_hex_decode env)) in H; rewrite !(hex_roundtrip env Hcodec) in H by apply (sha_bytes env Hcodec); injection H as E end.
  unfold collision. destruct (decide (outer_input secret1 (domain_of label1) m1 = outer_input secret2 (domain_of label2) m2)) as [Eo|]; [|by right; left].
  destruct (decide (inner_input secret1 (domain_of label1) m1 = inner_input secret2 (domain_of label2) m2)) as [Ei|].
  - left. clear Eo. unfold inner_input in Ei. apply app_inj_1 in Ei as [Ek Ed]; [|by rewrite !key_pad_length by lia].
    apply key_pad_inj in Ek; [|lia]. apply domain_split in Ed as [El Em]; [|done|done]. split_and!; [done|by apply str_bytes_inj|done].
  - right. right. split; [done|]. unfold outer_input in Eo. apply app_inj_1 in Eo as [_ Eo]; [done|by rewrite !key_pad_length by lia].
Qed.
End Authentication.

(** * Integration state *)

Section Integration.
Context {S : Type} {secrets : SecretStore S} {order : HashOrder} {lawful : LawfulSecrets S}.
Context (env : ProviderEnv) (codec : LawfulCodec env).
#[local] Abbreviation StoreState := (StoreState (S := S)).
Implicit Types st : StoreState.

Lemma mac_shape secret domain payload mac : message_authentication env secret domain payload = Ok mac ->
  is_hex mac /\ slen mac = 64.
Proof.
  unfold message_authentication. intros H. res_inv. match goal with |- context [pe_hex_encode env (pe_sha256 env ?x)] => set (y := x) end.
  destruct (hex_digits env codec _ (sha_bytes env codec y)) as [Hd Hl]. split; [done|]. by rewrite Hl, (sha_length env codec).
Qed.

(** The checks of [load] accept the envelope [install] writes. *)
Lemma integration_load_envelope st state_ref payload mac bytes secret :
  Forall byte_value payload -> 0 < zlen payload <= MAX_STATE_PAYLOAD_BYTES ->
  message_authentication env secret STATE_DOMAIN payload = Ok mac ->
  pe_state_pretty env {| as_schema_version := STATE_ENVELOPE_SCHEMA_VERSION; as_payload_hex := pe_hex_encode env payload;
                         as_mac_sha256 := mac |} = Ok bytes ->
  st_disk st !! state_file state_ref = Some (private_entry (bytes ++ [10])) -> ss_get (state_secret_id state_ref) (st_secrets st) = Ok secret ->
  integration_load_locked env no_faults st (state_file state_ref) state_ref = Ok payload.
Proof.
  intros Hb Hlen Hmac Hpretty Hd Hs. destruct (hex_digits env codec payload Hb) as [Hx Hxl]. destruct (mac_shape _ _ _ _ Hmac) as [Hm Hml].
  destruct (state_json env codec (Build_AuthenticatedState _ _ _) _ Hx Hm Hpretty) as [Hparse Hsize]. cbn [as_payload_hex as_mac_sha256] in Hsize.
  unfold integration_load_locked, validate_private_regular_file, read_entry. cbn [fault no_faults ft_stat ft_read rbind]. rewrite Hd.
  cbn [ok_or rbind rmap private_entry en_kind en_bytes en_mode]. rewrite bool_decide_eq_true_2 by done.
  assert (Hfit : zlen (bytes ++ [10]) <= MAX_STATE_ENVELOPE_BYTES).
  { unfold zlen in *. rewrite length_app. unfold MAX_STATE_ENVELOPE_BYTES, MAX_STATE_PAYLOAD_BYTES in *. cbn [length]. lia. }
  rewrite (proj2 (Z.ltb_ge _ _)) by lia. cbn [negb orb]. change (Z.land OWNER_FILE_MODE 63 =? 0) with true. cbn [negb].
  rewrite andb_false_r. cbn [ensure_not rbind rmap_err]. rewrite Hparse. cbn [rmap_err rbind as_schema_version as_payload_hex as_mac_sha256].
  rewrite Z.eqb_refl. cbn [negb ensure_not rbind]. rewrite (hex_roundtrip env codec _ Hb). cbn [ok_or rbind].
  rewrite (proj2 (Z.eqb_neq _ _)) by lia. rewrite (proj2 (Z.ltb_ge _ _)) by lia. cbn [orb ensure_not rbind].
  rewrite Hs. cbn [rmap_err rbind]. rewrite Hmac. cbn [rbind]. by rewrite Z.eqb_refl, str_eqb_refl.
Qed.

(** Integration state round-trips.  Whatever [install] accepts and stores,
    at most 128 KiB, [load] returns unchanged: the bound on the envelope holds
    every payload the bound on the payload admits. *)
Theorem integration_roundtrip f st state_ref payload st' :
  Forall byte_value payload -> integration_install env f st state_ref payload = (st', Ok tt) ->
  (integration_load env no_faults st' state_ref).2 = Ok payload.
Proof.
  intros Hb. unfold integration_install. match goal with |- context [match ?x with Ok _ => _ | Err _ => _ end] => destruct x as [[name bytes]|e] eqn:Ep end; [|done].
  intros Hst. res_inv. repeat match goal with u : () |- _ => destruct u end.
  match goal with H : state_path _ = Ok _ |- _ => pose proof H as Hpath; unfold state_path in H; res_inv end.
  repeat match goal with u : () |- _ => destruct u end. zbool.
  assert (Hl : state_file state_ref <> INTEGRATION_STATE_LOCK_FILE) by (by apply json_not_lock, state_file_json, valid_id_nonempty).
  destruct (lock_state_ok _ _ (install_state_usable _ _ _ _ _ _ _ _ _ _ _ Hl Hst)) as [st2 El].
  unfold integration_load. rewrite Hpath, El. cbn [snd]. apply lock_state_frame in El as [[Hd2 Hs2] _].
  apply install_state_outcome in Hst; [|done]. destruct Hst as (st1 & _ & _ & _ & Hd & Hput). apply put_stored in Hput as (Hget & _ & _).
  eapply integration_load_envelope; try done.
  - unfold zlen in *. lia.
  - by rewrite Hd2, Hd, lookup_insert_eq by done.
  - by rewrite Hs2.
Qed.
End Integration.

(** * A concrete store *)

Module Store.

Abbreviation Secrets := (gmap string (list Z)).

#[export] Instance map_secrets : SecretStore Secrets := {
  ss_put id secret s :=
    match s !! id with Some _ => (s, Err SecretAlreadyExists) | None => (<[id := secret]> s, Ok tt) end;
  ss_get id s := ok_or (s !! id) SecretNotFound;
  ss_delete id s := (delete id s, Ok tt);
}.

#[export] Instance map_secrets_lawful : LawfulSecrets Secrets.
Proof.
  constructor; cbn.
  - intros id secret s s'. destruct (s !! id) eqn:E; intros [= <-]. rewrite lookup_insert_eq. split_and!; [done|done|].
    intros id' Hne. by rewrite lookup_insert_ne.
  - intros id secret s s' e. destruct (s !! id) eqn:E; intros [= <- _]. done.
  - intros id s s' [= <-]. rewrite lookup_delete_eq. split; [done|]. intros id' Hne. by rewrite lookup_delete_ne.
  - done.
Qed.

#[export] Instance order : HashOrder := map_to_list_order.

Definition nibble (n : Z) : ascii := ascii_of_N (Z.to_N (if n <? 10 then 48 + n else 87 + n)).
Definition unnibble (c : ascii) : Z := if byte_of c <? 58 then byte_of c - 48 else byte_of c - 87.

Fixpoint hex_encode (l : list Z) : string :=
  match l with [] => EmptyString | b :: rest => String (nibble (b / 16)) (String (nibble (b mod 16)) (hex_encode rest)) end.

Fixpoint hex_decode (s : string) : option (list Z) :=
  match s with
  | EmptyString => Some []
  | String a (String b rest) => (fun l => (16 * unnibble a + unnibble b) :: l) <$> hex_decode rest
  | _ => None
  end.

Definition digest (x : list Z) : list Z := (fun b => b mod 256) <$> take 32 (x ++ replicate 32 0).

Fixpoint string_of (l : list Z) : string :=
  match l with [] => EmptyString | b :: rest => String (ascii_of_N (Z.to_N b)) (string_of rest) end.

(** The bytes up to the first NUL and after it. *)
Fixpoint split_nul (l : list Z) : list Z * list Z :=
  match l with
  | [] => ([], [])
  | b :: rest => if b =? 0 then ([], rest) else let '(x, y) := split_nul rest in (b :: x, y)
  end.

Definition but_last (l : list Z) : list Z := take (length l - 1) l.

Definition request : RegistrationRequest := {|
  rr_registration_id := "registration_0001"; rr_provider_id := "local"; rr_product_version := "1.0.0";
  rr_adapter_profile := RegisteredMcp StreamableHttp "full";
  rr_host_identity := {| hi_path_sha256 := hex_encode (replicate 32 17); hi_executable_sha256 := hex_encode (replicate 32 34);
                         hi_signature := HostMacos (Some "TEAM"%string) None |};
  rr_principal := "user"; rr_work_scope := "work"; rr_authority := sample_policy |}.

Definition payload : RegistrationPayload := new_payload request 1000.

#[local] Instance payload_eq_dec : EqDecision RegistrationPayload.
Proof.
  assert (EqDecision HostSignatureIdentity) by solve_decision. assert (EqDecision HostExecutableIdentity) by solve_decision.
  assert (EqDecision McpRegisteredTransport) by solve_decision. assert (EqDecision RegisteredAdapterProfile) by solve_decision.
  assert (EqDecision AuthorityPolicy) by solve_decision. assert (EqDecision RegistrationRequest) by solve_decision. solve_decision.
Defined.

(** A stand-in for the libraries: a registration prints as its code. *)
Definition env : ProviderEnv := {|
  pe_unix := true;
  pe_sha256 := digest;
  pe_hex_encode := hex_encode;
  pe_hex_decode := hex_decode;
  pe_secret := fun n => replicate 32 (Z.of_nat n + 1);
  pe_payload_json := fun p => Ok (str_bytes (rr_registration_id (rp_request p)));
  pe_request_json := fun r => Ok (str_bytes (rr_registration_id r));
  pe_identity_json := fun i => Ok (str_bytes (hi_executable_sha256 i));
  pe_registration_pretty := fun r => if decide (ar_payload r = payload) then Ok (str_bytes (ar_mac_sha256 r)) else Err "unsupported"%string;
  pe_registration_parse := fun bytes => Ok {| ar_payload := payload; ar_mac_sha256 := string_of (but_last bytes) |};
  pe_state_pretty := fun s => if as_schema_version s =? 1 then Ok (str_bytes (as_payload_hex s) ++ 0 :: str_bytes (as_mac_sha256 s)) else Err "unsupported"%string;
  pe_state_parse := fun bytes =>
    let '(x, y) := split_nul (but_last bytes) in
    Ok {| as_schema_version := 1; as_payload_hex := string_of x; as_mac_sha256 := string_of y |};
|}.

Lemma string_of_bytes s : string_of (str_bytes s) = s.
Proof.
  induction s as [|c s IH]; cbn [str_bytes string_of]; [done|]. rewrite IH. f_equal. unfold byte_of. by rewrite N2Z.id, ascii_N_embedding.
Qed.

Lemma length_str_bytes s : Z.of_nat (length (str_bytes s)) = slen s.
Proof. unfold slen. induction s as [|c s IH]; cbn [str_bytes length String.length]; lia. Qed.

Lemma but_last_snoc l x : but_last (l ++ [x]) = l.
Proof. unfold but_last. rewrite length_app. cbn [length]. rewrite take_app_le by lia. apply take_ge. lia. Qed.

Lemma byte_of_char n : 0 <= n < 256 -> byte_of (ascii_of_N (Z.to_N n)) = n.
Proof. intros H. unfold byte_of. rewrite N_ascii_embedding by lia. lia. Qed.

Lemma unnibble_nibble n : 0 <= n < 16 -> unnibble (nibble n) = n /\ is_ascii_hexdigit (byte_of (nibble n)) = true.
Proof.
  intros H. assert (n ∈ [0; 1; 2; 3; 4; 5; 6; 7; 8; 9; 10; 11; 12; 13; 14; 15]) as Hn.
  { rewrite !elem_of_cons. lia. }
  repeat (apply elem_of_cons in Hn as [->|Hn]; [by vm_compute|]). by apply elem_of_nil in Hn.
Qed.

Lemma hex_correct x : Forall byte_value x ->
  hex_decode (hex_encode x) = Some x /\ is_hex (hex_encode x) /\ slen (hex_encode x) = 2 * zlen x.
Proof.
  unfold is_hex, byte_value. induction 1 as [|b x Hb _ (IHd & IHh & IHl)]; [done|]. cbn [hex_encode hex_decode].
  assert (0 <= b / 16 < 16) as Hhi by (split; [apply Z.div_pos; lia|apply Z.div_lt_upper_bound; lia]).
  pose proof (Z.mod_pos_bound b 16 ltac:(lia)) as Hlo. pose proof (Z_div_mod_eq_full b 16) as Hdm.
  destruct (unnibble_nibble _ Hhi) as [-> Hh1]. destruct (unnibble_nibble _ Hlo) as [-> Hh2]. rewrite IHd. split_and!.
  - cbn. f_equal. f_equal. lia.
  - cbn [bytes_all]. by rewrite Hh1, Hh2.
  - unfold slen, zlen in *. cbn [String.length length]. lia.
Qed.

Lemma split_nul_app a b : 0 ∉ a -> split_nul (a ++ 0 :: b) = (a, b).
Proof.
  induction a as [|x a IH]; intros H; cbn [app split_nul]; [done|]. rewrite (proj2 (Z.eqb_neq x 0)) by set_solver. by rewrite IH by set_solver.
Qed.

Lemma hex_no_nul s : is_hex s -> 0 ∉ str_bytes s.
Proof.
  unfold is_hex. induction s as [|c s IH]; cbn [bytes_all str_bytes]; intros H; [apply not_elem_of_nil|]. apply andb_prop in H as [Hc Hs].
  apply not_elem_of_cons. split; [|by apply IH]. intros E. by rewrite <- E in Hc.
Qed.

Lemma codec : LawfulCodec env.
Proof.
  constructor; cbn [env pe_sha256 pe_hex_encode pe_hex_decode pe_state_pretty pe_state_parse].
  - intros x. unfold digest. apply Forall_fmap, Forall_true. intros b. cbn. unfold byte_value. apply Z.mod_pos_bound. lia.
  - intros x. unfold digest, zlen. rewrite length_fmap, length_take, length_app, length_replicate. lia.
  - intros x Hx. by apply hex_correct.
  - intros x Hx. split; by apply hex_correct.
  - intros s bytes Hp Hm. destruct (as_schema_version s =? 1) eqn:E; [|done]. zbool. intros [= <-]. rewrite but_last_snoc.
    rewrite split_nul_app by by apply hex_no_nul. rewrite !string_of_bytes. split; [destruct s; cbn in *; by subst|].
    unfold zlen. rewrite length_app. cbn [length]. rewrite Nat2Z.inj_add, Nat2Z.inj_succ, !length_str_bytes. lia.
Qed.

Definition empty : StoreState (S := Secrets) := {| st_disk := ∅; st_secrets := ∅; st_drawn := 0 |}.

Definition installed : StoreState (S := Secrets) := (registration_install env no_faults empty request 1000).1.

Lemma pretty_parses r bytes : pe_registration_pretty env r = Ok bytes -> pe_registration_parse env (bytes ++ [10]) = Ok r.
Proof.
  cbn [env pe_registration_pretty pe_registration_parse]. case_decide as E; [|done]. intros [= <-].
  rewrite but_last_snoc, string_of_bytes. destruct r. cbn in *. by subst.
Qed.

Lemma load_exact_witness :
  authentic env installed "registration_0001" payload /\ (registration_load env no_faults installed "registration_0001").2 = Ok payload.
Proof.
  assert (H : authentic env installed "registration_0001" payload)
    by (apply (proj1 (load_exact env installed "registration_0001" payload) no_faults); vm_compute; reflexivity).
  split; [exact H|]. apply (proj2 (load_exact env installed "registration_0001" payload)); [vm_compute; reflexivity|exact H].
Defined.

Lemma install_roundtrip_witness : (registration_load env no_faults installed "registration_0001").2 = Ok payload.
Proof.
  assert (Hi : registration_install env no_faults empty request 1000 = (installed, Ok (registration_summary payload))) by (vm_compute; reflexivity).
  destruct (install_roundtrip env no_faults empty request 1000 installed (registration_summary payload) pretty_parses Hi)
    as (_ & e & _ & He & _ & _ & H).
  apply H. vm_compute in He. injection He as <-. vm_compute. discriminate.
Defined.

(** A write that fails half-way. *)
Definition torn : Faults := {| no_faults with ft_write := Some (10%nat, "full"%string) |}.

Lemma install_failed_clean_witness :
  st_disk (registration_install env torn empty request 1000).1 !! state_file "registration_0001" = None.
Proof.
  apply (install_failed_clean env torn empty request 1000 (registration_install env torn empty request 1000).1 (RegIo (FsOther "full"))).
  - reflexivity.
  - intros id s. exists (delete id s). reflexivity.
  - vm_compute. reflexivity.
  - vm_compute. discriminate.
Defined.

Lemma remove_revokes_witness :
  (registration_load env no_faults (registration_remove no_faults installed "registration_0001").1 "registration_0001").2 <> Ok payload.
Proof.
  set (st' := (registration_remove no_faults installed "registration_0001").1).
  assert (Hr : registration_remove no_faults installed "registration_0001" = (st', Ok tt)) by (vm_compute; reflexivity).
  apply (proj1 (remove_revokes env no_faults installed "registration_0001" st' (Ok tt) Hr) no_faults payload EmptyString).
Defined.

(** The tokens of one registration under two domains differ in the concrete
    store. *)
Lemma codes_apart_witness :
  exists t, message_authentication env (replicate 32 1) HTTP_DOMAIN (str_bytes "registration_0001") = Ok t /\
  ((replicate 32 1 = replicate 32 1 /\ "nexus.cua.mcp.http.authorization.v1" = "nexus.cua.mcp.http.authorization.v1" /\
    str_bytes "registration_0001" = str_bytes "registration_0001") \/
   collision env (outer_input env (replicate 32 1) HTTP_DOMAIN (str_bytes "registration_0001"))
     (outer_input env (replicate 32 1) HTTP_DOMAIN (str_bytes "registration_0001")) \/
   collision env (inner_input (replicate 32 1) HTTP_DOMAIN (str_bytes "registration_0001"))
     (inner_input (replicate 32 1) HTTP_DOMAIN (str_bytes "registration_0001")))%string.
Proof.
  eexists. split; [vm_compute; reflexivity|].
  eapply (codes_apart env (replicate 32 1) (replicate 32 1) "nexus.cua.mcp.http.authorization.v1" "nexus.cua.mcp.http.authorization.v1");
    [apply codec|unfold domain_labels; set_solver|unfold domain_labels; set_solver|vm_compute; reflexivity|vm_compute; reflexivity].
Defined.

Lemma integration_roundtrip_witness :
  (integration_load env no_faults (integration_install env no_faults empty "state_ref_0000001" [1; 2; 255]).1 "state_ref_0000001").2 = Ok [1; 2; 255].
Proof.
  apply (integration_roundtrip env codec no_faults empty).
  - repeat constructor; discriminate.
  - vm_compute. reflexivity.
Defined.

End Store.
