(* ===== verification/Provider.v ===== *)
(** The local authority provider: [src/crates/provider/src/local.rs].

    A grant is issued to a challenge after the registration loads and the host
    that launched the adapter has the registered identity; it is remembered
    until it expires, and confirmed only while its registration still loads
    with the same content.  The theorems: an issued grant is one the adapter
    accepts, its confirmation is exact and ends with the registration, and a
    challenge is answered once within a bounded table. *)

From stdpp Require Import pretty.
From Stdlib Require Import Ascii String.
From S2P Require Import Prelude Floats Geometry Text Protocol Errors Policy Validation Dispatcher Authority ImageCache Adapter PrivateState.
#[local] Open Scope Z_scope.

Definition MAX_ACTIVE_CHALLENGES : Z := 1024.

Record ActiveGrant := { aw_grant : AuthorityGrant; aw_registration_digest : list Z }.

(** [SystemHostIdentitySource::current] over the platform's answer. *)
Definition system_host_identity (parent : Result HostExecutableIdentity string) : Result HostExecutableIdentity RegistrationError :=
  rmap_err (fun _ => RegAuthenticationFailed) parent.

Definition map_registration_error (e : RegistrationError) : AuthorityProviderError :=
  match e with
  | RegNotFound | RegSecret SecretNotFound => ProviderUnavailable
  | RegAuthenticationFailed => AuthenticationFailed
  | RegAlreadyExists | CapacityExceeded | RegInvalid _ | RegIo _ | RegJson _ | RegSecret _ => InvalidResponse
  end.

Definition challenge_key (challenge : AuthorityChallenge) : string :=
  ac_registration_id challenge +:+ ":" +:+ ac_adapter_nonce challenge.

(** [active.retain]. *)
Definition retain_active (active : gmap string ActiveGrant) (now_unix_ms : Z) : gmap string ActiveGrant :=
  filter (fun x : string * ActiveGrant => now_unix_ms < ag_expires_at_unix_ms (aw_grant x.2)) active.

(** [admit_challenge], inside the lock. *)
Definition admit_challenge (active : gmap string ActiveGrant) (challenge : AuthorityChallenge) (now_unix_ms : Z)
    (grant : AuthorityGrant) (registration_digest : list Z) : gmap string ActiveGrant * Result unit AuthorityProviderError :=
  let active := retain_active active now_unix_ms in
  let key := challenge_key challenge in
  if bool_decide (is_Some (active !! key)) then (active, Err ProviderDenied)
  else if MAX_ACTIVE_CHALLENGES <=? Z.of_nat (size active) then (active, Err ProviderUnavailable)
  else (<[key := {| aw_grant := grant; aw_registration_digest := registration_digest |}]> active, Ok tt).

Section Provider.
Context {S : Type} {secrets : SecretStore S} {order : HashOrder} {ids : UuidSource}.
Context (env : ProviderEnv).

(** The registrations, the active challenges, whether their lock is poisoned,
    and the number of identifiers drawn. *)
Record ProviderState := {
  pv_store : StoreState (S := S);
  pv_active : gmap string ActiveGrant;
  pv_poisoned : bool;
  pv_drawn : nat;
}.
Implicit Types pv : ProviderState.

(** [with_host_identity]. *)
Definition provider_new (store : StoreState (S := S)) : ProviderState :=
  {| pv_store := store; pv_active := ∅; pv_poisoned := false; pv_drawn := 0 |}.

(** [registration_digest]. *)
Definition request_digest (request : RegistrationRequest) : Result (list Z) AuthorityProviderError :=
  let? encoded := rmap_err (fun _ => InvalidResponse) (pe_request_json env request) in
  Ok (pe_sha256 env encoded).

Definition same_identity (expected actual : HostExecutableIdentity) : bool :=
  match pe_identity_json env expected, pe_identity_json env actual with
  | Ok expected, Ok actual => (zlen expected =? zlen actual) && bool_decide (expected = actual)
  | _, _ => false
  end.

(** [authenticate_host]. *)
Definition authenticate_host (f : Faults) pv (host : Result HostExecutableIdentity RegistrationError) (registration_id : string)
    : ProviderState * Result unit RegistrationError :=
  let '(store, loaded) := registration_load env f (pv_store pv) registration_id in
  ({| pv with pv_store := store |},
   let? registration := loaded in
   let? actual_identity := host in
   if same_identity (rr_host_identity (rp_request registration)) actual_identity then Ok tt else Err RegAuthenticationFailed).

(** [http_authorization] and [cli_authorization]. *)
Definition provider_http_authorization (f : Faults) pv (host : Result HostExecutableIdentity RegistrationError) (registration_id : string)
    : ProviderState * Result AuthorizationToken RegistrationError :=
  match authenticate_host f pv host registration_id with
  | (pv1, Err e) => (pv1, Err e)
  | (pv1, Ok _) =>
      let '(store, r) := store_http_authorization env f (pv_store pv1) registration_id in ({| pv1 with pv_store := store |}, r)
  end.

Definition provider_cli_authorization (f : Faults) pv (host : Result HostExecutableIdentity RegistrationError) (registration_id : string)
    : ProviderState * Result AuthorizationToken RegistrationError :=
  match authenticate_host f pv host registration_id with
  | (pv1, Err e) => (pv1, Err e)
  | (pv1, Ok _) =>
      let '(store, r) := store_cli_authorization env f (pv_store pv1) registration_id in ({| pv1 with pv_store := store |}, r)
  end.

(** The grant of [acquire]; [n] identifiers were drawn before. *)
Definition issued_grant (request : RegistrationRequest) (challenge : AuthorityChallenge) (now_unix_ms : Z) (n : nat) : AuthorityGrant := {|
  ag_schema_version := PROVIDER_GRANT_SCHEMA_VERSION;
  ag_provider_id := rr_provider_id request;
  ag_registration_id := ac_registration_id challenge;
  ag_adapter_nonce := ac_adapter_nonce challenge;
  ag_runtime_epoch := ac_runtime_epoch challenge;
  ag_worker_epoch := ac_worker_epoch challenge;
  ag_principal := rr_principal request;
  ag_work_scope := rr_work_scope request;
  ag_request_namespace := "ns_" +:+ uuid n;
  ag_issued_at_unix_ms := now_unix_ms;
  ag_expires_at_unix_ms := sat_add now_unix_ms (ap_ttl_seconds (rr_authority request) * 1000);
  ag_authority := rr_authority request |}.

(** [acquire] at a clock reading. *)
Definition provider_acquire (f : Faults) pv (host : Result HostExecutableIdentity RegistrationError) (since_epoch : option Z)
    (challenge : AuthorityChallenge) : ProviderState * Result AuthorityGrant AuthorityProviderError :=
  let '(store, loaded) := registration_load env f (pv_store pv) (ac_registration_id challenge) in
  let pv1 := {| pv with pv_store := store |} in
  let prepared :=
    let? registration := rmap_err map_registration_error loaded in
    let? actual_identity := rmap_err map_registration_error host in
    ensure_not (negb (same_identity (rr_host_identity (rp_request registration)) actual_identity)) AuthenticationFailed ;?
    let? now_unix_ms := rmap_err (fun _ => ProviderUnavailable) (current_unix_ms since_epoch) in
    let? digest := request_digest (rp_request registration) in
    Ok (now_unix_ms, digest, issued_grant (rp_request registration) challenge now_unix_ms (pv_drawn pv)) in
  match prepared with
  | Err e => (pv1, Err e)
  | Ok (now_unix_ms, digest, grant) =>
      let pv2 := {| pv1 with pv_drawn := Datatypes.S (pv_drawn pv) |} in
      if pv_poisoned pv then (pv2, Err ProviderUnavailable)
      else
        let '(active, r) := admit_challenge (pv_active pv) challenge now_unix_ms grant digest in
        ({| pv2 with pv_active := active |}, rmap (fun _ => grant) r)
  end.

(** The comparison of a remembered grant with the metadata. *)
Definition grant_mismatch (g : AuthorityGrant) (metadata : AuthorityGrantMetadata) (now : Z) : bool :=
  (ag_expires_at_unix_ms g <=? now)
  || negb (str_eqb (ag_registration_id g) (gm_registration_id metadata))
  || negb (str_eqb (ag_provider_id g) (gm_provider_id metadata))
  || negb (str_eqb (ag_principal g) (gm_principal metadata))
  || negb (str_eqb (ag_work_scope g) (gm_work_scope metadata))
  || negb (str_eqb (ag_runtime_epoch g) (gm_runtime_epoch metadata))
  || negb (bool_decide (ag_worker_epoch g = gm_worker_epoch metadata)).

(** [validate] at a clock reading. *)
Definition provider_validate (f : Faults) pv (since_epoch : option Z) (metadata : AuthorityGrantMetadata)
    : ProviderState * Result unit AuthorityProviderError :=
  let expected :=
    let? now := rmap_err (fun _ => ProviderUnavailable) (current_unix_ms since_epoch) in
    ensure_not (pv_poisoned pv) ProviderUnavailable ;?
    let? issued := ok_or (List.find (fun x => str_eqb (ag_request_namespace (aw_grant x.2)) (gm_request_namespace metadata))
                            (hash_iter (pv_active pv))) ProviderDenied in
    ensure_not (grant_mismatch (aw_grant issued.2) metadata now) ProviderDenied ;?
    Ok (aw_registration_digest issued.2) in
  match expected with
  | Err e => (pv, Err e)
  | Ok expected_digest =>
      let '(store, loaded) := registration_load env f (pv_store pv) (gm_registration_id metadata) in
      ({| pv with pv_store := store |},
       let? registration := rmap_err map_registration_error loaded in
       let? digest := request_digest (rp_request registration) in
       ensure_not (negb (bool_decide (digest = expected_digest))) AuthenticationFailed)
  end.

End Provider.

Lemma registration_binding_ok value field : registration_binding value field = Ok tt <-> binding_ok value.
Proof.
  unfold registration_binding, binding_ok. rewrite ensure_not_Ok, !orb_false_iff, slen_positive, Z.ltb_ge, negb_false_iff, is_trimmed_true.
  unfold MAX_BINDING_BYTES. tauto.
Qed.

(** The binding rules of a registration are those of a grant. *)
Lemma request_bindings r : request_validate r = Ok tt -> 0 <= ap_ttl_seconds (rr_authority r) ->
  binding_ok (rr_provider_id r) /\ binding_ok (rr_principal r) /\ binding_ok (rr_work_scope r) /\ authority_ok (rr_authority r).
Proof.
  intros H Ht. unfold request_validate in H. rewrite !rbind_unit_Ok, !registration_binding_ok, rmap_err_Ok, (authority_validate_iff _ Ht) in H.
  tauto.
Qed.

Lemma admit_challenge_ok active challenge now grant digest active' : admit_challenge active challenge now grant digest = (active', Ok tt) ->
  retain_active active now !! challenge_key challenge = None /\ Z.of_nat (size (retain_active active now)) < MAX_ACTIVE_CHALLENGES /\
  active' = <[challenge_key challenge := {| aw_grant := grant; aw_registration_digest := digest |}]> (retain_active active now).
Proof.
  unfold admit_challenge. destruct (bool_decide _) eqn:Eb; [done|]. destruct (MAX_ACTIVE_CHALLENGES <=? _) eqn:Es; [done|].
  apply bool_decide_eq_false in Eb. zbool. intros [= <-]. split_and!; [by apply eq_None_not_Some|done|done].
Qed.

Section ProviderProps.
Context {S : Type} {secrets : SecretStore S} {order : HashOrder} {ids : UuidSource}.
Context (env : ProviderEnv).
#[local] Abbreviation ProviderState := (ProviderState (S := S)).
Implicit Types pv : ProviderState.

(** The host that launched the adapter is the registered one. *)
Definition host_matches (host : Result HostExecutableIdentity RegistrationError) (r : RegistrationRequest) : Prop :=
  exists actual, host = Ok actual /\ same_identity env (rr_host_identity r) actual = true.

(** What [acquire] has established when it answers with a grant. *)
Record acquired pv (host : Result HostExecutableIdentity RegistrationError) (since_epoch : option Z) (challenge : AuthorityChallenge)
    pv' (grant : AuthorityGrant) (p : RegistrationPayload) (now : Z) (digest : list Z) : Prop := {
  aq_authentic : authentic env (pv_store pv) (ac_registration_id challenge) p;
  aq_host : host_matches host (rp_request p);
  aq_now : since_epoch = Some now /\ now <= U64_MAX;
  aq_digest : request_digest env (rp_request p) = Ok digest;
  aq_grant : grant = issued_grant (rp_request p) challenge now (pv_drawn pv);
  aq_fresh : retain_active (pv_active pv) now !! challenge_key challenge = None;
  aq_room : Z.of_nat (size (retain_active (pv_active pv) now)) < MAX_ACTIVE_CHALLENGES;
  aq_active : pv_active pv' = <[challenge_key challenge := {| aw_grant := grant; aw_registration_digest := digest |}]> (retain_active (pv_active pv) now);
  aq_rest : pv_poisoned pv' = false /\ pv_drawn pv' = Datatypes.S (pv_drawn pv);
  aq_store : same_but REGISTRATION_LOCK_FILE (pv_store pv) (pv_store pv');
}.

Lemma registration_load_frame f (st : StoreState (S := S)) id st' r : registration_load env f st id = (st', r) -> same_but REGISTRATION_LOCK_FILE st st'.
Proof.
  unfold registration_load. destruct (state_path id); [|by intros [= <- _]].
  destruct (take_lock f st REGISTRATION_LOCK_FILE) as [st1 r1] eqn:El. apply lock_state_frame in El as [Hf _].
  destruct r1; by intros [= <- _].
Qed.

Lemma current_unix_ms_Ok t now : current_unix_ms t = Ok now <-> t = Some now /\ now <= U64_MAX.
Proof.
  unfold current_unix_ms. destruct t as [x|]; cbn [ok_or rbind]; [|naive_solver].
  rewrite rbind_unit_Ok, ensure_not_Ok, Z.ltb_ge. naive_solver.
Qed.

Lemma acquire_acquired f pv host t challenge pv' grant : provider_acquire env f pv host t challenge = (pv', Ok grant) ->
  exists p now digest, acquired pv host t challenge pv' grant p now digest.
Proof.
  unfold provider_acquire. destruct (registration_load env f (pv_store pv) (ac_registration_id challenge)) as [store loaded] eqn:El.
  pose proof (registration_load_frame _ _ _ _ _ El) as Hf.
  match goal with |- context [match ?x with Ok _ => _ | Err _ => _ end] => destruct x as [[[now digest] g]|e] eqn:Ep end; [|done].
  res_inv. match type of El with _ = (_, Ok ?p) => exists p, now, digest end.
  apply (f_equal snd), load_authentic in El. match goal with H : negb _ = false |- _ => apply negb_false_iff in H end.
  match goal with H : current_unix_ms _ = Ok _ |- _ => apply current_unix_ms_Ok in H end.
  destruct (pv_poisoned pv) eqn:Epo; [done|].
  match goal with H : context [admit_challenge ?a ?c ?n ?g ?d] |- _ => destruct (admit_challenge a c n g d) as [active [[]|e]] eqn:Ea; [|done]; injection H as <- <- end.
  apply admit_challenge_ok in Ea as (Hfresh & Hroom & ->). constructor; try done. eexists. split; done.
Qed.


(** ** Runs *)

(** What happens to a provider and to the store it shares. *)
Inductive ProviderOp :=
| PAcquire (f : Faults) (host : Result HostExecutableIdentity RegistrationError) (since_epoch : option Z) (challenge : AuthorityChallenge)
| PValidate (f : Faults) (since_epoch : option Z) (metadata : AuthorityGrantMetadata)
| PHttp (f : Faults) (host : Result HostExecutableIdentity RegistrationError) (registration_id : string)
| PCli (f : Faults) (host : Result HostExecutableIdentity RegistrationError) (registration_id : string)
| PStore (op : Faults * StoreOp).

Definition provider_step pv (op : ProviderOp) : ProviderState :=
  match op with
  | PAcquire f host t challenge => (provider_acquire env f pv host t challenge).1
  | PValidate f t metadata => (provider_validate env f pv t metadata).1
  | PHttp f host id => (provider_http_authorization env f pv host id).1
  | PCli f host id => (provider_cli_authorization env f pv host id).1
  | PStore op => {| pv with pv_store := store_step env (pv_store pv) op |}
  end.

(** The clock reading of a step that drops expired grants. *)
Definition step_clock (op : ProviderOp) : option Z := match op with PAcquire _ _ t _ => t | _ => None end.

(** Only [acquire] changes the table. *)
Lemma step_active pv op :
  (pv_active (provider_step pv op) = pv_active pv /\ (pv_drawn pv <= pv_drawn (provider_step pv op))%nat) \/
  exists now, step_clock op = Some now /\
    (pv_active (provider_step pv op) = retain_active (pv_active pv) now /\ (pv_drawn pv <= pv_drawn (provider_step pv op))%nat) \/
    exists f host challenge grant p digest, op = PAcquire f host (Some now) challenge /\
      acquired pv host (Some now) challenge (provider_step pv op) grant p now digest.
Proof.
  destruct op as [f host t challenge|f t metadata|f host id|f host id|[f op]]; unfold provider_step.
  - destruct (provider_acquire env f pv host t challenge) as [pv' [grant|e]] eqn:E; cbn [fst].
    + right. destruct (acquire_acquired _ _ _ _ _ _ _ E) as (p & now & digest & H). destruct (aq_now _ _ _ _ _ _ _ _ _ H) as [-> _].
      exists now. right. by exists f, host, challenge, grant, p, digest.
    + unfold provider_acquire in E. destruct (registration_load env f (pv_store pv) (ac_registration_id challenge)) as [store loaded].
      match type of E with context [match ?x with Ok _ => _ | Err _ => _ end] => destruct x as [[[now digest] g]|e'] eqn:Ep end.
      2: { injection E as <- _. by left. }
      res_inv. match goal with H : current_unix_ms _ = Ok _ |- _ => apply current_unix_ms_Ok in H as [-> _] end.
      destruct (pv_poisoned pv); [injection E as <- _; left; cbn; split; [done|lia]|].
      match type of E with context [admit_challenge ?a ?c ?n ?g ?d] => destruct (admit_challenge a c n g d) as [active r] eqn:Ea end.
      injection E as <- Er. destruct r; [done|]. right. exists now. left. split; [done|]. split; [|cbn; lia]. cbn [pv_active].
      unfold admit_challenge in Ea. destruct (bool_decide _); [by injection Ea as <- _|]. destruct (MAX_ACTIVE_CHALLENGES <=? _); [by injection Ea as <- _|done].
  - left. unfold provider_validate. match goal with |- context [match ?x with Ok _ => _ | Err _ => _ end] => destruct x end; [|done].
    by destruct (registration_load env f (pv_store pv) (gm_registration_id metadata)).
  - left. unfold provider_http_authorization, authenticate_host. destruct (registration_load env f (pv_store pv) id) as [st r].
    match goal with |- context [match ?x with Ok _ => _ | Err _ => _ end] => destruct x end; [|done].
    by destruct (store_http_authorization env f _ id).
  - left. unfold provider_cli_authorization, authenticate_host. destruct (registration_load env f (pv_store pv) id) as [st r].
    match goal with |- context [match ?x with Ok _ => _ | Err _ => _ end] => destruct x end; [|done].
    by destruct (store_cli_authorization env f _ id).
  - by left.
Qed.

(** The table is bounded and its namespaces are drawn and distinct. *)
Record provider_inv pv : Prop := {
  pi_bound : Z.of_nat (size (pv_active pv)) <= MAX_ACTIVE_CHALLENGES;
  pi_drawn : forall k a, pv_active pv !! k = Some a ->
    exists i, (i < pv_drawn pv)%nat /\ ag_request_namespace (aw_grant a) = "ns_" +:+ uuid i;
  pi_unique : forall k k' a a', pv_active pv !! k = Some a -> pv_active pv !! k' = Some a' ->
    ag_request_namespace (aw_grant a) = ag_request_namespace (aw_grant a') -> k = k';
}.

Lemma retain_active_sub active now : retain_active active now ⊆ active.
Proof. apply map_filter_subseteq. Qed.

(** The invariant passes to a smaller table and a later counter. *)
Lemma provider_inv_weaken pv pv' : provider_inv pv -> pv_active pv' ⊆ pv_active pv -> (pv_drawn pv <= pv_drawn pv')%nat -> provider_inv pv'.
Proof.
  intros [Hb Hd Hu] Hsub Hle. assert (Hin : forall k a, pv_active pv' !! k = Some a -> pv_active pv !! k = Some a) by (intros; by eapply lookup_weaken).
  constructor.
  - apply map_subseteq_size in Hsub. lia.
  - intros k a Ha. destruct (Hd k a (Hin _ _ Ha)) as (i & Hi & E). exists i. split; [lia|done].
  - intros k k' a a' Ha Ha'. by eapply Hu; apply Hin.
Qed.

Lemma namespace_fresh i j : ("ns_" +:+ uuid i = "ns_" +:+ uuid j)%string -> i = j.
Proof. intros H. apply uuid_inj. change (String "n" (String "s" (String "_" (uuid i))) = String "n" (String "s" (String "_" (uuid j)))) in H. by injection H. Qed.

Lemma acquired_inv pv host t challenge pv' grant p now digest :
  provider_inv pv -> acquired pv host t challenge pv' grant p now digest -> provider_inv pv'.
Proof.
  intros Hinv [_ _ _ _ Hg Hfresh Hroom Ha [_ Hd] _].
  assert (Hret : provider_inv {| pv with pv_active := retain_active (pv_active pv) now |}).
  { eapply provider_inv_weaken; [done|apply retain_active_sub|done]. }
  destruct Hret as [Hb Hdr Hu]. cbn [pv_active pv_drawn] in Hb, Hdr, Hu.
  assert (Hns : ag_request_namespace grant = ("ns_" +:+ uuid (pv_drawn pv))%string) by (by rewrite Hg).
  constructor; rewrite Ha.
  - rewrite map_size_insert_None by done. lia.
  - intros k a [[_ <-]|[_ Hk]]%lookup_insert_Some; [exists (pv_drawn pv); split; [lia|done]|].
    destruct (Hdr _ _ Hk) as (i & Hi & E). exists i. split; [lia|done].
  - intros k k' a a' [[<- <-]|[Hne Hk]]%lookup_insert_Some [[<- <-]|[Hne' Hk']]%lookup_insert_Some E; [done| | |by eapply Hu].
    + cbn in E. destruct (Hdr _ _ Hk') as (i & Hi & E'). rewrite Hns, E' in E. apply namespace_fresh in E. lia.
    + cbn in E. destruct (Hdr _ _ Hk) as (i & Hi & E'). rewrite Hns, E' in E. apply namespace_fresh in E. lia.
Qed.

Lemma step_inv pv op : provider_inv pv -> provider_inv (provider_step pv op).
Proof.
  intros Hinv. destruct (step_active pv op) as [[Ha Hd]|[now [(_ & Ha & Hd)|(f & host & challenge & grant & p & digest & _ & H)]]].
  - eapply provider_inv_weaken; [done|by rewrite Ha|done].
  - eapply provider_inv_weaken; [done|rewrite Ha; apply retain_active_sub|done].
  - by eapply acquired_inv.
Qed.

Lemma run_inv ops pv : provider_inv pv -> provider_inv (foldl provider_step pv ops).
Proof. revert pv. induction ops as [|op ops IH]; intros pv H; cbn [foldl]; [done|]. by apply IH, step_inv. Qed.

Lemma provider_new_inv store : provider_inv (provider_new store).
Proof. constructor; cbn [provider_new pv_active]; [by rewrite map_size_empty| |]; intros *; by rewrite lookup_empty. Qed.

(** A remembered grant stays until the clock passes it. *)
Lemma run_remembers ops pv k a : pv_active pv !! k = Some a ->
  Forall (fun op => forall now, step_clock op = Some now -> now < ag_expires_at_unix_ms (aw_grant a)) ops ->
  pv_active (foldl provider_step pv ops) !! k = Some a.
Proof.
  intros Hk Hops. revert pv Hk. induction Hops as [|op ops Hop _ IH]; intros pv Hk; cbn [foldl]; [done|]. apply IH.
  assert (Hret : forall now, step_clock op = Some now -> retain_active (pv_active pv) now !! k = Some a).
  { intros now Hn. apply map_lookup_filter_Some. split; [done|]. by apply Hop. }
  destruct (step_active pv op) as [[Ha _]|[now [(Hc & Ha & _)|(f & host & challenge & grant & p & digest & -> & H)]]].
  - by rewrite Ha.
  - rewrite Ha. by apply Hret.
  - rewrite (aq_active _ _ _ _ _ _ _ _ _ H). rewrite lookup_insert_ne; [by apply Hret|]. intros <-.
    specialize (Hret now eq_refl). by rewrite (aq_fresh _ _ _ _ _ _ _ _ _ H) in Hret.
Qed.

(** A challenge is answered once.  After any run of the provider its table
    holds at most 1024 grants; and once a challenge has been granted, no later
    request with it succeeds before the grant expires, whatever happens in
    between and whichever host asks. *)
Theorem challenge_answered_once store before f host t challenge pv' grant :
  provider_acquire env f (foldl provider_step (provider_new store) before) host t challenge = (pv', Ok grant) ->
  Z.of_nat (size (pv_active pv')) <= MAX_ACTIVE_CHALLENGES /\
  (forall after f' host' t' grant',
    Forall (fun op => forall now, step_clock op = Some now -> now < ag_expires_at_unix_ms grant) after ->
    (forall now, t' = Some now -> now < ag_expires_at_unix_ms grant) ->
    (provider_acquire env f' (foldl provider_step pv' after) host' t' challenge).2 <> Ok grant').
Proof.
  intros (p & now & digest & H)%acquire_acquired. split.
  - eapply pi_bound, acquired_inv; [|done]. apply run_inv, provider_new_inv.
  - intros after f' host' t' grant' Hafter Ht' Hok.
    destruct (provider_acquire env f' (foldl provider_step pv' after) host' t' challenge) as [pv2 r] eqn:E. cbn [snd] in Hok. subst r.
    apply acquire_acquired in E as (p' & now' & digest' & H').
    assert (Hk : pv_active (foldl provider_step pv' after) !! challenge_key challenge = Some {| aw_grant := grant; aw_registration_digest := digest |}).
    { apply run_remembers; [|done]. by rewrite (aq_active _ _ _ _ _ _ _ _ _ H), lookup_insert_eq. }
    pose proof (aq_fresh _ _ _ _ _ _ _ _ _ H') as Hfresh. unfold retain_active in Hfresh. apply map_lookup_filter_None in Hfresh as [Hn|Hn]; [congruence|].
    apply (Hn _ Hk). cbn. apply Ht', (aq_now _ _ _ _ _ _ _ _ _ H').
Qed.

(** ** Confirmation *)

Definition grant_metadata (g : AuthorityGrant) : AuthorityGrantMetadata := {|
  gm_provider_id := ag_provider_id g; gm_registration_id := ag_registration_id g; gm_principal := ag_principal g;
  gm_work_scope := ag_work_scope g; gm_request_namespace := ag_request_namespace g; gm_runtime_epoch := ag_runtime_epoch g;
  gm_worker_epoch := ag_worker_epoch g; gm_expires_at_unix_ms := ag_expires_at_unix_ms g |}.

(** The metadata names a remembered grant that has not expired. *)
Definition grant_matches (g : AuthorityGrant) (metadata : AuthorityGrantMetadata) (now : Z) : Prop :=
  now < ag_expires_at_unix_ms g /\ {| (grant_metadata g) with gm_expires_at_unix_ms := gm_expires_at_unix_ms metadata |} = metadata.

Lemma grant_matches_iff g metadata now :
  grant_matches g metadata now <-> ag_request_namespace g = gm_request_namespace metadata /\ grant_mismatch g metadata now = false.
Proof.
  unfold grant_matches, grant_mismatch. rewrite !orb_false_iff, !negb_false_iff, !str_eqb_eq, bool_decide_eq_true, Z.leb_gt.
  destruct metadata; cbn. split; [intros [? [= <- <- <- <- <- <- <-]]; done|]. intros (<- & ((((((? & <-) & <-) & <-) & <-) & <-) & <-)). done.
Qed.

(** The search by namespace finds the one remembered grant with it. *)
Lemma find_namespace pv k a : provider_inv pv -> pv_active pv !! k = Some a ->
  List.find (fun x => str_eqb (ag_request_namespace (aw_grant x.2)) (ag_request_namespace (aw_grant a))) (hash_iter (pv_active pv)) = Some (k, a).
Proof.
  intros Hinv Hk. destruct (List.find _ _) as [[k' a']|] eqn:E.
  - apply find_some in E as [Hin En]. apply list_elem_of_In in Hin. rewrite hash_iter_perm in Hin. apply elem_of_map_to_list in Hin.
    apply str_eqb_eq in En. cbn in En. assert (k' = k) as -> by (by eapply pi_unique). congruence.
  - assert (Hin : (k, a) ∈ hash_iter (pv_active pv)) by (rewrite hash_iter_perm; by apply elem_of_map_to_list).
    apply list_elem_of_In in Hin. apply (find_none _ _ E) in Hin. cbn in Hin. by rewrite str_eqb_refl in Hin.
Qed.

(** When [validate] confirms. *)
Lemma provider_validate_ok f pv t metadata : (provider_validate env f pv t metadata).2 = Ok tt ->
  exists now k a p, t = Some now /\ pv_active pv !! k = Some a /\ grant_matches (aw_grant a) metadata now /\
    authentic env (pv_store pv) (gm_registration_id metadata) p /\ request_digest env (rp_request p) = Ok (aw_registration_digest a).
Proof.
  unfold provider_validate. match goal with |- context [match ?x with Ok _ => _ | Err _ => _ end] => destruct x as [expected|e] eqn:Ee end; [|done].
  intros Hload. res_inv. match goal with H : current_unix_ms _ = Ok ?n |- _ => apply current_unix_ms_Ok in H as [-> _]; exists n end.
  match goal with H : List.find _ _ = Some ?x |- _ => destruct x as [k a]; apply find_some in H as [Hin En] end.
  apply list_elem_of_In in Hin. rewrite hash_iter_perm in Hin. apply elem_of_map_to_list in Hin. apply str_eqb_eq in En. cbn in *.
  destruct (registration_load env f (pv_store pv) (gm_registration_id metadata)) as [store loaded] eqn:El. cbn [snd] in Hload. res_inv.
  match goal with H : loaded = Ok ?p |- _ => subst loaded; exists k, a, p end. apply (f_equal snd), load_authentic in El.
  match goal with H : negb _ = false |- _ => apply negb_false_iff, bool_decide_eq_true in H; subst end. split_and!; try done.
  by apply grant_matches_iff.
Qed.

(** Confirmations end with the registration.  [validate] confirms only a
    remembered, unexpired grant with exactly this metadata, whose registration
    is authentic in the store with the content it was granted for; once the
    registration is removed, no grant of it is confirmed again, and no new one
    is issued, whatever the file system does. *)
Theorem confirmation_exact {lawful : LawfulSecrets S} f pv t metadata :
  ((provider_validate env f pv t metadata).2 = Ok tt ->
    exists now k a p, t = Some now /\ pv_active pv !! k = Some a /\ grant_matches (aw_grant a) metadata now /\
      authentic env (pv_store pv) (gm_registration_id metadata) p /\ request_digest env (rp_request p) = Ok (aw_registration_digest a)) /\
  (forall fr st', registration_remove fr (pv_store pv) (gm_registration_id metadata) = (st', Ok tt) ->
    (provider_validate env f {| pv with pv_store := st' |} t metadata).2 <> Ok tt /\
    (forall host ch g, ac_registration_id ch = gm_registration_id metadata ->
      (provider_acquire env f {| pv with pv_store := st' |} host t ch).2 <> Ok g)).
Proof.
  split; [apply provider_validate_ok|]. intros fr st' Hr.
  assert (Hnone : forall p, ~ authentic env st' (gm_registration_id metadata) p).
  { intros p Hau. pose proof (au_name _ _ _ _ Hau) as Hid. unfold registration_remove in Hr. apply remove_state_outcome in Hr as (_ & _ & Hd & _).
    - destruct (au_file _ _ _ _ Hau) as (e & ? & ? & ? & He & _). congruence.
    - by apply json_not_lock, state_file_json, valid_id_nonempty. }
  split.
  - intros (now & k & a & p & _ & _ & _ & Hau & _)%provider_validate_ok. by apply (Hnone p).
  - intros host ch g Heq. destruct (provider_acquire env f _ host t ch) as [pv' r] eqn:E. cbn [snd]. intros ->.
    apply acquire_acquired in E as (p & now & digest & H). pose proof (aq_authentic _ _ _ _ _ _ _ _ _ H) as Hau. rewrite Heq in Hau. by apply (Hnone p).
Qed.

(** A grant stays good.  From the moment it is issued until it expires,
    the provider confirms its metadata, whatever requests come in between, as
    long as the registration is still there unchanged and the file system
    answers. *)
Theorem grant_confirmed store before f host t challenge pv' grant :
  provider_acquire env f (foldl provider_step (provider_new store) before) host t challenge = (pv', Ok grant) ->
  exists p, authentic env (pv_store pv') (ac_registration_id challenge) p /\
    forall after now,
      Forall (fun op => forall now, step_clock op = Some now -> now < ag_expires_at_unix_ms grant) after ->
      let pv := foldl provider_step pv' after in
      pv_poisoned pv = false -> lock_usable (pv_store pv) REGISTRATION_LOCK_FILE -> authentic env (pv_store pv) (ac_registration_id challenge) p ->
      now < ag_expires_at_unix_ms grant -> now <= U64_MAX ->
      (provider_validate env no_faults pv (Some now) (grant_metadata grant)).2 = Ok tt.
Proof.
  intros (p & now0 & digest & H)%acquire_acquired. exists p. destruct H as [Hau Hh Hnow Hdig Hg Hfresh Hroom Hact Hrest Hst] eqn:EH.
  split; [by apply (authentic_frame _ _ _ _ _ Hst)|]. intros after now Hafter pv Hpo Hlock Hau' Hexp Hmax.
  assert (Hinv : provider_inv pv) by (apply run_inv; eapply acquired_inv; [apply run_inv, provider_new_inv|exact H]).
  assert (Hk : pv_active pv !! challenge_key challenge = Some {| aw_grant := grant; aw_registration_digest := digest |}).
  { apply run_remembers; [|done]. by rewrite Hact, lookup_insert_eq. }
  unfold provider_validate. rewrite (proj2 (current_unix_ms_Ok (Some now) now)) by done. cbn [rmap_err rbind]. rewrite Hpo. cbn [ensure_not rbind].
  change (gm_request_namespace (grant_metadata grant)) with (ag_request_namespace (aw_grant {| aw_grant := grant; aw_registration_digest := digest |})).
  rewrite (find_namespace _ _ _ Hinv Hk). cbn [ok_or rbind snd aw_grant aw_registration_digest].
  rewrite (proj2 (proj1 (grant_matches_iff grant (grant_metadata grant) now) (conj Hexp eq_refl))). cbn [ensure_not rbind].
  assert (Hid : gm_registration_id (grant_metadata grant) = ac_registration_id challenge) by (by rewrite Hg). rewrite Hid.
  pose proof (authentic_loads _ _ _ _ Hlock Hau') as Hload. destruct (registration_load env no_faults (pv_store pv) (ac_registration_id challenge)) as [st2 r].
  cbn [snd] in Hload |- *. subst r. cbn [rmap_err rbind]. rewrite Hdig. cbn [rbind]. by rewrite bool_decide_eq_true_2.
Qed.

End ProviderProps.

(** * A concrete provider *)

Module Issuing.

#[local] Existing Instances Store.map_secrets Store.map_secrets_lawful Store.order.

Fixpoint letters (n : nat) : string := match n with O => "abcdefghijklm" | Datatypes.S n => String "a" (letters n) end.

Lemma letters_length n : String.length (letters n) = (13 + n)%nat.
Proof. induction n as [|n IH]; cbn [letters String.length]; [done|]. rewrite IH. lia. Qed.

Lemma letters_inj i j : letters i = letters j -> i = j.
Proof. intros H. apply (f_equal String.length) in H. rewrite !letters_length in H. lia. Qed.

#[export] Instance letter_ids : UuidSource := {| uuid := letters; uuid_inj := letters_inj |}.

Definition challenge : AuthorityChallenge := {|
  ac_registration_id := "registration_0001"; ac_adapter_nonce := "adapter_0"; ac_runtime_epoch := "runtime-1"; ac_worker_epoch := None |}.

Definition host : Result HostExecutableIdentity RegistrationError := Ok (rr_host_identity Store.request).

Definition start : ProviderState (S := Store.Secrets) := provider_new Store.installed.

Definition granted : ProviderState (S := Store.Secrets) := (provider_acquire Store.env no_faults start host (Some 5000) challenge).1.

Definition grant : AuthorityGrant := issued_grant Store.request challenge 5000 0.

Lemma issues : provider_acquire Store.env no_faults start host (Some 5000) challenge = (granted, Ok grant).
Proof. vm_compute. reflexivity. Defined.


Lemma challenge_answered_once_witness :
  (provider_acquire Store.env no_faults granted host (Some 6000) challenge).2 <> Ok grant.
Proof.
  apply (proj2 (challenge_answered_once Store.env Store.installed [] no_faults host (Some 5000) challenge granted grant issues) []).
  - constructor.
  - intros now [= <-]. vm_compute. reflexivity.
Defined.

Lemma confirmation_exact_witness :
  (provider_validate Store.env no_faults
    {| granted with pv_store := (registration_remove no_faults (pv_store granted) "registration_0001").1 |}
    (Some 6000) (grant_metadata grant)).2 <> Ok tt.
Proof.
  apply (proj2 (confirmation_exact Store.env no_faults granted (Some 6000) (grant_metadata grant)) no_faults).
  vm_compute. reflexivity.
Defined.

Lemma grant_confirmed_witness :
  (provider_validate Store.env no_faults granted (Some 6000) (grant_metadata grant)).2 = Ok tt.
Proof.
  destruct (grant_confirmed Store.env Store.installed [] no_faults host (Some 5000) challenge granted grant issues) as (p & Hau & H).
  apply (H [] 6000); [constructor|reflexivity|vm_compute; reflexivity|exact Hau|vm_compute; reflexivity|vm_compute; discriminate].
Defined.

End Issuing.
