(* ===== verification/Fingerprint.v ===== *)
(** Observation fingerprints: [src/crates/platform/src/observation.rs].

    A fingerprint names a window, its place on the screen and a grid of
    brightness samples of its image; the driver compares the fingerprint an
    action was planned under with the present one.  SHA-256 and hex are
    parameters.  The theorems: the samples of a scaled-down grid are those of
    the whole image, and exactly when two fingerprints match. *)

From stdpp Require Import pretty.
From Stdlib Require Import Ascii String SpecFloat.
From S2P Require Import Prelude Floats Geometry Text Protocol Errors Driver PrivateState.
#[local] Open Scope Z_scope.

Definition VISUAL_GRID : Z := 32.
Definition MAX_AVERAGE_LUMA_DIFFERENCE : Z := 8.
Definition MATERIAL_LUMA_DIFFERENCE : Z := 24.
Definition MAX_MATERIAL_CHANGE_RATIO_DENOMINATOR : Z := 5.

(** [sample_coordinate]; both operands are [u32]. *)
Definition sample_coordinate (index dimension : Z) : Z :=
  Z.min ((index * dimension + VISUAL_GRID / 2) / VISUAL_GRID) (sat_sub dimension 1).

(** The [n] big-endian bytes of an integer. *)
Fixpoint be_bytes (n : nat) (x : Z) : list Z :=
  match n with O => [] | S n' => be_bytes n' (x / 256) ++ [x mod 256] end.

(** [f64::to_bits]; a NaN is the canonical one. *)
Definition to_bits (x : f64) : Z :=
  let sign (s : bool) := if s then 2 ^ 63 else 0 in
  match x with
  | S754_zero s => sign s
  | S754_infinity s => sign s + 2047 * 2 ^ 52
  | S754_nan => 4095 * 2 ^ 51
  | S754_finite s m e =>
      sign s + (if 2 ^ 52 <=? Z.pos m then (e + 1075) * 2 ^ 52 + (Z.pos m - 2 ^ 52) else Z.pos m)
  end.

(** [slice.get(i)] of a pixel byte. *)
Definition pixel_at (image : RgbaImage) (x y : Z) : list Z :=
  let index := (y * img_width image + x) * 4 in
  let pixel := take 3 (drop (Z.to_nat index) (img_pixels image)) in
  if Nat.eqb (length pixel) 3 then pixel else [0; 0; 0].

Definition luma (pixel : list Z) : Z :=
  match pixel with
  | r :: g :: b :: _ => (r * 54 + g * 183 + b * 19) / 256
  | _ => 0
  end.

(** [0..VISUAL_GRID]. *)
Definition grid : list Z := seqZ 0 VISUAL_GRID.

Definition visual_signature (image : RgbaImage) : list Z :=
  if (img_width image =? 0) || (img_height image =? 0) then []
  else
    grid ≫= fun grid_y =>
      (fun grid_x => luma (pixel_at image (sample_coordinate grid_x (img_width image)) (sample_coordinate grid_y (img_height image)))) <$> grid.

(** ** The capture stream's copy ([copy_buffer] of [macos/stream.rs]) *)

Definition MAX_PIXELS : Z := 16 * 1024 * 1024.

(** What a [CVPixelBuffer] answers; [pb_base] is the locked memory. *)
Record PixelBuffer := {
  pb_bgra : bool;
  pb_width : Z;
  pb_height : Z;
  pb_lockable : bool;
  pb_base : option (list Z);
  pb_pitch : Z;
}.

(** A premultiplied BGRA pixel as straight RGBA. *)
Definition straight (bgra : list Z) : list Z :=
  match bgra with
  | [b; g; r; alpha] =>
      if negb (alpha =? 0) && negb (alpha =? 255) then
        [Z.min (r * 255 / alpha) 255; Z.min (g * 255 / alpha) 255; Z.min (b * 255 / alpha) 255; alpha]
      else [r; g; b; alpha]
  | _ => []
  end.

(** The four bytes of a source pixel. *)
Definition source_pixel (memory : list Z) (pitch x y : Z) : list Z :=
  take 4 (drop (Z.to_nat (y * pitch + x * 4)) memory).

Definition copy_buffer (buffer : PixelBuffer) (signature_only : bool) : option RgbaImage :=
  let width := pb_width buffer in
  let height := pb_height buffer in
  if negb (pb_bgra buffer) then None
  else if USIZE_MAX <? width * height then None
  else if USIZE_MAX <? width * height * 4 then None
  else if (width =? 0) || (height =? 0) || (MAX_PIXELS * 4 <? width * height * 4) then None
  else if negb (pb_lockable buffer) then None
  else
    match pb_base buffer with
    | None => None
    | Some memory =>
        if pb_pitch buffer <? width * 4 then None
        else if signature_only && ((U32_MAX <? width) || (U32_MAX <? height)) then None
        else
          let output_width := if signature_only then 32 else width in
          let output_height := if signature_only then 32 else height in
          let pixels :=
            seqZ 0 output_height ≫= fun row =>
              let source_y := if signature_only then sample_coordinate row height else row in
              seqZ 0 output_width ≫= fun column =>
                let source_x := if signature_only then sample_coordinate column width else column in
                straight (source_pixel memory (pb_pitch buffer) source_x source_y) in
          if (U32_MAX <? output_width) || (U32_MAX <? output_height) then None
          else Some {| img_width := output_width; img_height := output_height; img_pixels := pixels |}
    end.

Definition contains_rect (outer inner : ScreenRect) : bool :=
  f64_ge (sr_x inner) (sr_x outer)
  && f64_ge (sr_y inner) (sr_y outer)
  && f64_le (f64_add (sr_x inner) (sr_width inner)) (f64_add (sr_x outer) (sr_width outer))
  && f64_le (f64_add (sr_y inner) (sr_height inner)) (f64_add (sr_y outer) (sr_height outer)).

(** The sums of the comparison loop. *)
Definition total_difference (expected current : list Z) : Z :=
  foldr Z.add 0 ((fun p => Z.abs (p.1 - p.2)) <$> zip expected current).

Definition material_changes (expected current : list Z) : Z :=
  zlen (List.filter (fun p => MATERIAL_LUMA_DIFFERENCE <? Z.abs (p.1 - p.2)) (zip expected current)).

(** The decision on two decoded signatures. *)
Definition signatures_match (expected current : list Z) : bool :=
  if (zlen expected =? 0) || negb (zlen expected =? zlen current) then false
  else
    (total_difference expected current <=? MAX_AVERAGE_LUMA_DIFFERENCE * zlen expected)
    && (material_changes expected current * MAX_MATERIAL_CHANGE_RATIO_DENOMINATOR <=? zlen expected).

Section Fingerprints.
Context (sha256 : list Z -> list Z) (hex_encode : list Z -> string) (hex_decode : string -> option (list Z)).

(** What the fingerprint hashes. *)
Definition geometry_bytes (window_key : string) (screen_bounds : ScreenRect) : list Z :=
  str_bytes window_key ++ be_bytes 8 (to_bits (sr_x screen_bounds)) ++ be_bytes 8 (to_bits (sr_y screen_bounds))
    ++ be_bytes 8 (to_bits (sr_width screen_bounds)) ++ be_bytes 8 (to_bits (sr_height screen_bounds)).

Definition fingerprint (window_key : string) (screen_bounds : ScreenRect) (image : option RgbaImage) : string :=
  let geometry := hex_encode (sha256 (geometry_bytes window_key screen_bounds)) in
  match image with
  | None => "geometry:" +:+ geometry
  | Some image => "geometry:" +:+ geometry +:+ ":visual:" +:+ hex_encode (visual_signature image)
  end.

Definition fingerprints_match (expected current : string) : bool :=
  match split_once ":visual:" expected with
  | None => str_eqb expected current
  | Some (expected_geometry, expected_visual) =>
      match split_once ":visual:" current with
      | None => false
      | Some (current_geometry, current_visual) =>
          if negb (str_eqb expected_geometry current_geometry) then false
          else
            match hex_decode expected_visual, hex_decode current_visual with
            | Some expected, Some current => signatures_match expected current
            | _, _ => false
            end
      end
  end.

End Fingerprints.

(** * Samples *)

Lemma sample_coordinate_range i d : 0 <= i -> 0 < d -> 0 <= sample_coordinate i d < d.
Proof.
  intros Hi Hd. unfold sample_coordinate, sat_sub, VISUAL_GRID. change (32 / 2) with 16.
  assert (0 <= (i * d + 16) / 32) by (apply Z.div_pos; nia). lia.
Qed.

(** On a grid of the sampled size, a sample is its own pixel. *)
Lemma sample_coordinate_grid i : 0 <= i < VISUAL_GRID -> sample_coordinate i VISUAL_GRID = i.
Proof.
  intros Hi. unfold sample_coordinate, sat_sub, VISUAL_GRID in *. change (32 / 2) with 16.
  rewrite Z.add_comm, Z.div_add by lia. change (16 / 32) with 0. lia.
Qed.

(** A complete image of bytes. *)
Record image_complete (image : RgbaImage) : Prop := {
  ic_width : 0 < img_width image;
  ic_height : 0 < img_height image;
  ic_length : zlen (img_pixels image) = img_width image * img_height image * 4;
  ic_bytes : Forall byte_value (img_pixels image);
}.

Lemma pixel_at_complete image x y : image_complete image -> 0 <= x < img_width image -> 0 <= y < img_height image ->
  pixel_at image x y = take 3 (drop (Z.to_nat ((y * img_width image + x) * 4)) (img_pixels image)) /\
  length (pixel_at image x y) = 3%nat.
Proof.
  intros [Hw Hh Hl _] Hx Hy. unfold pixel_at, zlen in *.
  assert (Hlen : length (take 3 (drop (Z.to_nat ((y * img_width image + x) * 4)) (img_pixels image))) = 3%nat).
  { rewrite length_take, length_drop. assert ((y * img_width image + x + 1) * 4 <= img_width image * img_height image * 4) by nia. lia. }
  by rewrite Hlen.
Qed.

Lemma luma_byte image x y : image_complete image -> 0 <= x < img_width image -> 0 <= y < img_height image ->
  byte_value (luma (pixel_at image x y)).
Proof.
  intros Hc Hx Hy. destruct (pixel_at_complete _ _ _ Hc Hx Hy) as [E Hl].
  assert (Hb : Forall byte_value (pixel_at image x y)) by (rewrite E; apply Forall_take, Forall_drop, (ic_bytes _ Hc)).
  destruct (pixel_at image x y) as [|r [|g [|b l]]]; try done. apply Forall_cons in Hb as [Hr Hb]. apply Forall_cons in Hb as [Hg Hb].
  apply Forall_cons in Hb as [Hb _]. unfold byte_value in *. cbn [luma]. split; [apply Z.div_pos; lia|apply Z.div_lt_upper_bound; lia].
Qed.

(** * Sampling while copying *)

Lemma bind_ext_in {A B} (l : list A) (f g : A -> list B) : (forall x, x ∈ l -> f x = g x) -> l ≫= f = l ≫= g.
Proof. induction l as [|x l IH]; intros H; cbn [mbind list_bind]; [done|]. rewrite H, IH by set_solver. done. Qed.

(** A block of a concatenation of equal blocks. *)
Lemma drop_blocks {A} (l : list A) (g : A -> list Z) k i x : (forall y, y ∈ l -> length (g y) = k) -> l !! i = Some x ->
  drop (i * k) (l ≫= g) = g x ++ (drop (S i) l ≫= g).
Proof.
  revert i. induction l as [|a l IH]; intros [|i] Hk Hx; try done; cbn [mbind list_bind].
  - injection Hx as ->. done.
  - rewrite drop_app_ge by (rewrite (Hk a) by set_solver; nia). rewrite (Hk a) by set_solver.
    replace (S i * k - k)%nat with (i * k)%nat by lia. rewrite IH; [done|set_solver|done].
Qed.

(** The pixel an image of concatenated pixels has at a position. *)
Lemma pixel_at_copied w h (f : Z -> Z -> list Z) x y :
  (forall column row, 0 <= column < w -> 0 <= row < h -> length (f column row) = 4%nat) -> 0 <= x < w -> 0 <= y < h ->
  pixel_at {| img_width := w; img_height := h; img_pixels := seqZ 0 h ≫= fun row => seqZ 0 w ≫= fun column => f column row |} x y
  = take 3 (f x y).
Proof.
  intros Hf Hx Hy. assert (Hrow : forall row, row ∈ seqZ 0 h -> length (seqZ 0 w ≫= fun column => f column row) = (Z.to_nat w * 4)%nat).
  { intros row Hr%elem_of_seqZ. assert (Hall : forall column, column ∈ seqZ 0 w -> length (f column row) = 4%nat).
    { intros column Hc%elem_of_seqZ. apply Hf; lia. }
    rewrite <- (length_seqZ 0 w). revert Hall. generalize (seqZ 0 w) as l. induction l as [|c l IH]; intros Hall; [done|].
    cbn [mbind list_bind length]. rewrite length_app, IH by set_solver. rewrite Hall by set_solver. lia. }
  unfold pixel_at. cbn [img_width img_height img_pixels].
  replace (Z.to_nat ((y * w + x) * 4)) with (Z.to_nat y * (Z.to_nat w * 4) + Z.to_nat x * 4)%nat by nia.
  rewrite <- drop_drop. rewrite (drop_blocks (seqZ 0 h) _ (Z.to_nat w * 4) (Z.to_nat y) y Hrow) by (apply lookup_seqZ; lia).
  rewrite drop_app_le by (rewrite (Hrow y) by (apply elem_of_seqZ; lia); nia).
  rewrite (drop_blocks (seqZ 0 w) (fun column => f column y) 4 (Z.to_nat x) x).
  - rewrite <- app_assoc, take_app_le by (rewrite Hf by lia; lia).
    assert (Hl : length (take 3 (f x y)) = 3%nat) by (rewrite length_take, Hf by lia; lia). by rewrite Hl.
  - intros column Hc%elem_of_seqZ. apply Hf; lia.
  - apply lookup_seqZ. lia.
Qed.

Lemma length_straight l : length l = 4%nat -> length (straight l) = 4%nat.
Proof. destruct l as [|b [|g [|r [|a [|]]]]]; try done. intros _. cbn [straight]. by case_match. Qed.

(** The memory of a locked buffer. *)
Definition buffer_backed (buffer : PixelBuffer) : Prop :=
  forall memory, pb_base buffer = Some memory -> zlen memory = pb_pitch buffer * pb_height buffer.

Lemma length_source_pixel buffer memory x y :
  buffer_backed buffer -> pb_base buffer = Some memory -> pb_width buffer * 4 <= pb_pitch buffer ->
  0 <= x < pb_width buffer -> 0 <= y < pb_height buffer -> length (straight (source_pixel memory (pb_pitch buffer) x y)) = 4%nat.
Proof.
  intros Hb Hm Hp Hx Hy. apply length_straight. unfold source_pixel. specialize (Hb memory Hm). unfold zlen in Hb.
  rewrite length_take, length_drop. assert ((y + 1) * pb_pitch buffer <= pb_pitch buffer * pb_height buffer) by nia. nia.
Qed.

Lemma visual_signature_copied w h (f : Z -> Z -> list Z) : 0 < w -> 0 < h ->
  (forall column row, 0 <= column < w -> 0 <= row < h -> length (f column row) = 4%nat) ->
  visual_signature {| img_width := w; img_height := h; img_pixels := seqZ 0 h ≫= fun row => seqZ 0 w ≫= fun column => f column row |}
  = grid ≫= fun grid_y => (fun grid_x => luma (take 3 (f (sample_coordinate grid_x w) (sample_coordinate grid_y h)))) <$> grid.
Proof.
  intros Hw Hh Hf. unfold visual_signature. cbn [img_width img_height]. rewrite (proj2 (Z.eqb_neq w 0)), (proj2 (Z.eqb_neq h 0)) by lia.
  cbn [orb]. apply bind_ext_in. intros gy [Hy0 Hy1]%elem_of_seqZ. apply list_fmap_ext. intros i gx Hi.
  apply list_elem_of_lookup_2, elem_of_seqZ in Hi as [Hx0 Hx1]. f_equal. apply pixel_at_copied; [done| |]; by apply sample_coordinate_range.
Qed.

(** C31: Sampling while copying keeps the visual guard.  Copying only the sample
    grid out of a capture buffer succeeds exactly when copying the whole image
    does, and gives the same fingerprint, for every buffer. *)
Theorem signature_copy_equivalent sha256 hex_encode buffer window_key bounds :
  buffer_backed buffer -> 0 <= pb_width buffer -> 0 <= pb_height buffer ->
  fingerprint sha256 hex_encode window_key bounds <$> (Some <$> copy_buffer buffer true)
  = fingerprint sha256 hex_encode window_key bounds <$> (Some <$> copy_buffer buffer false).
Proof.
  intros Hb Hw0 Hh0. unfold copy_buffer. repeat (case_match; [done|]).
  destruct (pb_base buffer) as [memory|] eqn:Em; [|done]. case_match; [done|]. zbool.
  repeat match goal with H : _ /\ _ |- _ => destruct H end.
  assert (pb_width buffer <= MAX_PIXELS /\ pb_height buffer <= MAX_PIXELS) as [Hw Hh] by nia. unfold MAX_PIXELS in *.
  assert (Hu : (U32_MAX <? pb_width buffer) || (U32_MAX <? pb_height buffer) = false).
  { unfold U32_MAX. rewrite !(proj2 (Z.ltb_ge _ _)) by lia. done. }
  cbn [andb]. rewrite Hu. change ((U32_MAX <? 32) || (U32_MAX <? 32)) with false. cbn [fmap option_fmap option_map fingerprint].
  do 5 f_equal. rewrite !visual_signature_copied; try lia.
  - apply bind_ext_in. intros gy [Hy0 Hy1]%elem_of_seqZ. apply list_fmap_ext. intros i gx Hi.
    apply list_elem_of_lookup_2, elem_of_seqZ in Hi as [Hx0 Hx1]. change 32 with VISUAL_GRID. by rewrite (sample_coordinate_grid gx), (sample_coordinate_grid gy) by lia.
  - intros column row Hc Hr. eapply length_source_pixel; try done; lia.
  - intros column row Hc Hr. eapply length_source_pixel; try done; try lia; apply sample_coordinate_range; lia.
Qed.

(** * Matching *)

Lemma split_once_skip c s : Text.strip_prefix ":visual:" (String c s) = None ->
  split_once ":visual:" (String c s) = (fun p => (String c p.1, p.2)) <$> split_once ":visual:" s.
Proof. intros H. cbn [split_once]. by rewrite H. Qed.

(** A text without [:] splits off at the separator after it. *)
Lemma split_once_app a b : has_char ":" a = false -> split_once ":visual:" (a +:+ ":visual:" +:+ b) = Some (a, b).
Proof.
  unfold has_char. induction a as [|c a IH]; intros Ha.
  - change ("" +:+ (":visual:" +:+ b)) with (":visual:" +:+ b). done.
  - cbn [bytes_any] in Ha. apply orb_false_iff in Ha as [Hc Ha]. change (String c a +:+ (":visual:" +:+ b)) with (String c (a +:+ (":visual:" +:+ b))).
    cbn [split_once]. assert (Hn : Text.strip_prefix ":visual:" (String c (a +:+ (":visual:" +:+ b))) = None).
    { cbn [Text.strip_prefix]. destruct (Ascii.eqb_spec ":" c) as [<-|]; [by rewrite Z.eqb_refl in Hc|done]. }
    rewrite Hn, IH by done. done.
Qed.

Lemma split_once_none a : has_char ":" a = false -> split_once ":visual:" a = None.
Proof.
  unfold has_char. induction a as [|c a IH]; intros Ha; [done|]. cbn [bytes_any] in Ha. apply orb_false_iff in Ha as [Hc Ha].
  cbn [split_once]. assert (Hn : Text.strip_prefix ":visual:" (String c a) = None).
  { cbn [Text.strip_prefix]. destruct (Ascii.eqb_spec ":" c) as [<-|]; [by rewrite Z.eqb_refl in Hc|done]. }
  by rewrite Hn, IH.
Qed.

Lemma hex_char (c : ascii) s : is_hex (String c s) -> is_ascii_hexdigit (byte_of c) = true /\ is_hex s.
Proof. unfold is_hex. cbn [bytes_all]. by intros [? ?]%andb_prop. Qed.

Lemma hex_no_colon s : is_hex s -> has_char ":" s = false.
Proof.
  unfold has_char. induction s as [|c s IH]; intros H; [done|]. apply hex_char in H as [Hc Hs]. cbn [bytes_any]. rewrite IH by done.
  rewrite orb_false_r. apply Z.eqb_neq. intros E. by rewrite <- E in Hc.
Qed.

(** The prefix of a fingerprint does not split. *)
Lemma split_once_geometry g rest : is_hex g -> (rest = EmptyString \/ exists b, rest = ":visual:" +:+ b)%string ->
  split_once ":visual:" ("geometry:" +:+ g +:+ rest) = (fun p => ("geometry:" +:+ p.1, p.2))%string <$> split_once ":visual:" (g +:+ rest).
Proof.
  intros Hg Hrest. assert (Hv : Text.strip_prefix "visual:" (g +:+ rest) = None).
  { destruct g as [|c g].
    - destruct Hrest as [->|[b ->]]; done.
    - apply hex_char in Hg as [Hc _]. change (String c g +:+ rest) with (String c (g +:+ rest)). cbn [Text.strip_prefix].
      destruct (Ascii.eqb_spec "v" c) as [<-|]; [vm_compute in Hc; discriminate|done]. }
  change ("geometry:" +:+ g +:+ rest) with
    (String "g" (String "e" (String "o" (String "m" (String "e" (String "t" (String "r" (String "y" (String ":" (g +:+ rest)))))))))).
  do 8 (rewrite split_once_skip by done). rewrite (split_once_skip ":") by exact Hv.
  by destruct (split_once ":visual:" (g +:+ rest)) as [[x y]|].
Qed.

Lemma length_bind_const {A} (l : list A) (g : A -> list Z) k : (forall x, length (g x) = k) -> length (l ≫= g) = (length l * k)%nat.
Proof. intros Hg. induction l as [|x l IH]; [done|]. cbn [mbind list_bind length]. rewrite length_app, IH, Hg. lia. Qed.

Lemma visual_signature_shape image : image_complete image ->
  zlen (visual_signature image) = 1024 /\ Forall byte_value (visual_signature image).
Proof.
  intros Hc. pose proof (ic_width _ Hc). pose proof (ic_height _ Hc). unfold visual_signature.
  rewrite (proj2 (Z.eqb_neq (img_width image) 0)), (proj2 (Z.eqb_neq (img_height image) 0)) by lia. cbn [orb]. split.
  - unfold zlen. rewrite (length_bind_const _ _ 32); [done|]. intros gy. by rewrite length_fmap.
  - apply Forall_forall. intros v. rewrite list_elem_of_bind. intros (gy & (gx & -> & Hx)%list_elem_of_fmap & Hy).
    apply elem_of_seqZ in Hx, Hy. apply luma_byte; [done| |]; apply sample_coordinate_range; lia.
Qed.

(** Two images look alike: on the 1024 samples the brightness differs by at
    most 8 on average, and by more than 24 on at most a fifth. *)
Definition alike (a b : RgbaImage) : Prop :=
  total_difference (visual_signature a) (visual_signature b) <= 8 * 1024 /\
  material_changes (visual_signature a) (visual_signature b) * 5 <= 1024.

Section Matching.
Context (sha256 : list Z -> list Z) (hex_encode : list Z -> string) (hex_decode : string -> option (list Z)).

Lemma signatures_match_alike a b : image_complete a -> image_complete b ->
  signatures_match (visual_signature a) (visual_signature b) = true <-> alike a b.
Proof.
  intros [Ha _]%visual_signature_shape [Hb _]%visual_signature_shape. unfold signatures_match, alike. rewrite Ha, Hb. cbn [Z.eqb Pos.eqb orb negb].
  unfold MAX_AVERAGE_LUMA_DIFFERENCE, MAX_MATERIAL_CHANGE_RATIO_DENOMINATOR. by rewrite andb_true_iff, !Z.leb_le.
Qed.

(** When fingerprints match.  Two fingerprints match exactly when the
    digests of window and place are equal and either both have no image or
    their images look alike; so a fingerprint with an image never matches one
    without, and an unchanged window always matches. *)
Theorem fingerprints_match_exact key1 key2 bounds1 bounds2 image1 image2 :
  (forall x, Forall byte_value (sha256 x)) ->
  (forall x, Forall byte_value x -> hex_decode (hex_encode x) = Some x /\ is_hex (hex_encode x)) ->
  (forall a, image1 = Some a -> image_complete a) -> (forall a, image2 = Some a -> image_complete a) ->
  fingerprints_match hex_decode (fingerprint sha256 hex_encode key1 bounds1 image1) (fingerprint sha256 hex_encode key2 bounds2 image2) = true <->
  sha256 (geometry_bytes key1 bounds1) = sha256 (geometry_bytes key2 bounds2) /\
  match image1, image2 with
  | None, None => True
  | Some a, Some b => alike a b
  | _, _ => False
  end.
Proof.
  intros Hsha Hhex Hi1 Hi2. unfold fingerprint. set (g1 := sha256 (geometry_bytes key1 bounds1)). set (g2 := sha256 (geometry_bytes key2 bounds2)).
  destruct (Hhex g1 (Hsha _)) as [Hd1 Hh1]. destruct (Hhex g2 (Hsha _)) as [Hd2 Hh2].
  assert (Hinj : hex_encode g1 = hex_encode g2 <-> g1 = g2) by (split; [intros E; rewrite E, Hd2 in Hd1; by injection Hd1|by intros ->]).
  assert (Hnone : forall g, is_hex (hex_encode g) -> split_once ":visual:" ("geometry:" +:+ hex_encode g) = None).
  { intros g Hg. pose proof (split_once_geometry (hex_encode g) "" Hg (or_introl eq_refl)) as E. rewrite string_app_nil in E.
    by rewrite E, split_once_none by (by apply hex_no_colon). }
  assert (Hsome : forall g v, is_hex (hex_encode g) ->
    split_once ":visual:" ("geometry:" +:+ hex_encode g +:+ ":visual:" +:+ v) = Some ("geometry:" +:+ hex_encode g, v)%string).
  { intros g v Hg. rewrite (split_once_geometry (hex_encode g) (":visual:" +:+ v) Hg) by (right; by exists v).
    by rewrite split_once_app by (by apply hex_no_colon). }
  unfold fingerprints_match. destruct image1 as [a|], image2 as [b|]; rewrite ?(Hsome _ _ Hh1), ?(Hsome _ _ Hh2), ?(Hnone _ Hh1), ?(Hnone _ Hh2).
  - destruct (Hhex _ (proj2 (visual_signature_shape a (Hi1 _ eq_refl)))) as [-> _]. destruct (Hhex _ (proj2 (visual_signature_shape b (Hi2 _ eq_refl)))) as [-> _].
    rewrite <- Hinj, <- (signatures_match_alike a b (Hi1 _ eq_refl) (Hi2 _ eq_refl)).
    destruct (str_eqb _ _) eqn:E; cbn [negb].
    + apply str_eqb_eq, (inj (String.append "geometry:")) in E. tauto.
    + apply str_eqb_neq in E. split; [done|]. intros [Eg _]. by rewrite Eg in E.
  - split; [done|tauto].
  - rewrite str_eqb_eq. split; [|tauto]. intros E. apply (f_equal (split_once ":visual:")) in E. by rewrite (Hnone _ Hh1), (Hsome _ _ Hh2) in E.
  - rewrite str_eqb_eq. split; [intros E%(inj (String.append "geometry:")); tauto|]. intros [E _]. by rewrite (proj2 Hinj E).
Qed.
End Matching.

(** * A concrete capture *)

Module Capture.

Definition buffer : PixelBuffer := {|
  pb_bgra := true; pb_width := 2; pb_height := 2; pb_lockable := true; pb_pitch := 12;
  pb_base := Some [10; 20; 30; 255; 40; 50; 60; 128; 0; 0; 0; 0; 70; 80; 90; 255; 100; 110; 120; 0; 0; 0; 0; 0] |}.

Definition bounds : ScreenRect := {| sr_x := f64_of_Z 0; sr_y := f64_of_Z 0; sr_width := f64_of_Z 2; sr_height := f64_of_Z 2 |}.

Lemma signature_copy_equivalent_witness :
  fingerprint Store.digest Store.hex_encode "window" bounds <$> (Some <$> copy_buffer buffer true)
  = fingerprint Store.digest Store.hex_encode "window" bounds <$> (Some <$> copy_buffer buffer false).
Proof.
  apply signature_copy_equivalent.
  - intros memory [= <-]. reflexivity.
  - vm_compute. discriminate.
  - vm_compute. discriminate.
Defined.

Definition dim (v : Z) : RgbaImage := {| img_width := 1; img_height := 1; img_pixels := [v; v; v; 255] |}.

Lemma dim_complete v : 0 <= v < 256 -> image_complete (dim v).
Proof. intros Hv. constructor; try done. repeat constructor; lia. Defined.

Lemma fingerprints_match_exact_witness :
  fingerprints_match Store.hex_decode (fingerprint Store.digest Store.hex_encode "window" bounds (Some (dim 100)))
    (fingerprint Store.digest Store.hex_encode "window" bounds (Some (dim 106))) = true.
Proof.
  apply fingerprints_match_exact.
  - apply (sha_bytes _ Store.codec).
  - intros x Hx. destruct (Store.hex_correct x Hx) as (Hd & Hh & _). split; [exact Hd|exact Hh].
  - intros a [= <-]. apply dim_complete. lia.
  - intros a [= <-]. apply dim_complete. lia.
  - split; [reflexivity|]. split; vm_compute; discriminate.
Defined.

End Capture.
