(* ===== verification/CliStores.v ===== *)
(** What the commands of the program share: the two authenticated stores below
    the state root, and the reading and writing of their records
    ([src/crates/cli/src/authority.rs], [integration.rs] and [service.rs] on
    [src/crates/provider/src/]).

    A command is a computation over [CliWorld]; every operation of a store
    meets the faults of its own position in the run.  The secrets of the two
    stores have separate names ([secret_id] of [plan.rs]), so each store has
    its own. *)

From stdpp Require Import pretty.
From Stdlib Require Import Ascii String.
From S2P Require Import Prelude Floats Geometry Text Protocol Errors Policy Validation Dispatcher Authority ImageCache Adapter PrivateState.
#[local] Open Scope Z_scope.

#[export] Instance HostSignatureIdentity_eq_dec : EqDecision HostSignatureIdentity.
Proof. solve_decision. Defined.
#[export] Instance HostExecutableIdentity_eq_dec : EqDecision HostExecutableIdentity.
Proof. solve_decision. Defined.
#[export] Instance McpRegisteredTransport_eq_dec : EqDecision McpRegisteredTransport.
Proof. solve_decision. Defined.
#[export] Instance RegisteredAdapterProfile_eq_dec : EqDecision RegisteredAdapterProfile.
Proof. solve_decision. Defined.

(** [serde_json::to_vec] and [from_slice] of a type, and the law of derived
    serializers. *)
Record Codec (A : Type) := {
  to_vec : A -> Result (list Z) string;
  from_slice : list Z -> Result A string;
}.
Arguments to_vec {A}. Arguments from_slice {A}.

Definition lawful_codec {A} (c : Codec A) : Prop :=
  forall a bytes, to_vec c a = Ok bytes -> from_slice c bytes = Ok a /\ Forall byte_value bytes.

(** [str::replacen] of the first occurrence. *)
Fixpoint replace_first (from to s : string) : string :=
  match Text.strip_prefix from s with
  | Some rest => to +:+ rest
  | None => match s with EmptyString => EmptyString | String c s' => String c (replace_first from to s') end
  end.

(** [validate_binding] of the commands. *)
Definition cli_binding_rejected (value : string) : bool :=
  str_eqb value "" || (256 <? slen value) || negb (str_eqb value (trim value)) || has_control value.

(** [require_confirmation]: the flag and both terminals. *)
Definition confirmed (confirm stdin_terminal stderr_terminal : bool) : bool := confirm && stdin_terminal && stderr_terminal.

Section World.
Context {S H : Type} {secrets : SecretStore S} {order : HashOrder}.
Context (env : ProviderEnv) (faults : nat -> Faults).

(** The integration states, the registrations, the host's own state, the
    identifiers drawn and the store operations done. *)
Record CliWorld := {
  cw_states : StoreState (S := S);
  cw_registrations : StoreState (S := S);
  cw_host : H;
  cw_ids : nat;
  cw_ops : nat;
}.
Implicit Types w : CliWorld.

(** A computation of a command. *)
Definition Cli (E A : Type) : Type := CliWorld -> CliWorld * Result A E.

Definition cret {E A} (a : A) : Cli E A := fun w => (w, Ok a).
Definition cpure {E A} (r : Result A E) : Cli E A := fun w => (w, r).
Definition cbind {E A B} (m : Cli E A) (k : A -> Cli E B) : Cli E B :=
  fun w => match m w with (w1, Ok a) => k a w1 | (w1, Err e) => (w1, Err e) end.
Definition cmap_err {E F A} (f : E -> F) (m : Cli E A) : Cli F A :=
  fun w => let '(w1, r) := m w in (w1, rmap_err f r).

(** [match m { r => k(r) }]: the error is handled. *)
Definition ccatch {E F A B} (m : Cli E A) (k : Result A E -> Cli F B) : Cli F B :=
  fun w => let '(w1, r) := m w in k r w1.

Definition cread {E A} (f : CliWorld -> Result A E) : Cli E A := fun w => (w, f w).

(** [Uuid::new_v4().simple()] *)
Definition draw {E} `{!UuidSource} (prefix : string) : Cli E string :=
  fun w => ({| w with cw_ids := Datatypes.S (cw_ids w) |}, Ok (prefix +:+ uuid (cw_ids w))).

(** One operation of a store, at its position in the run. *)
Definition on_states {A} (op : Faults -> StoreState (S := S) -> StoreState (S := S) * Result A RegistrationError) : Cli RegistrationError A :=
  fun w => let '(st, r) := op (faults (cw_ops w)) (cw_states w) in
    ({| w with cw_states := st; cw_ops := Datatypes.S (cw_ops w) |}, r).

Definition on_registrations {A} (op : Faults -> StoreState (S := S) -> StoreState (S := S) * Result A RegistrationError) : Cli RegistrationError A :=
  fun w => let '(st, r) := op (faults (cw_ops w)) (cw_registrations w) in
    ({| w with cw_registrations := st; cw_ops := Datatypes.S (cw_ops w) |}, r).

Definition states_install (state_ref : string) (payload : list Z) : Cli RegistrationError unit :=
  on_states (fun f st => integration_install env f st state_ref payload).
Definition states_load (state_ref : string) : Cli RegistrationError (list Z) :=
  on_states (fun f st => integration_load env f st state_ref).
Definition states_remove (state_ref : string) : Cli RegistrationError unit :=
  on_states (fun f st => integration_remove f st state_ref).

Definition registrations_install (request : RegistrationRequest) (now_unix_ms : Z) : Cli RegistrationError RegistrationSummary :=
  on_registrations (fun f st => registration_install env f st request now_unix_ms).
Definition registrations_inspect (registration_id : string) : Cli RegistrationError RegistrationSummary :=
  on_registrations (fun f st => registration_inspect env f st registration_id).
Definition registrations_remove (registration_id : string) : Cli RegistrationError unit :=
  on_registrations (fun f st => registration_remove f st registration_id).

(** [install_state]: serialize and store a record; the errors of a command. *)
Definition cli_install_state {E A} (json : string -> E) (provider : RegistrationError -> E) (c : Codec A) (state_ref : string) (value : A)
    : Cli E unit :=
  cbind (cpure (rmap_err json (to_vec c value))) (fun bytes => cmap_err provider (states_install state_ref bytes)).

(** [load] and [from_slice]. *)
Definition load_record {E A} (json : string -> E) (provider : RegistrationError -> E) (c : Codec A) (state_ref : string) : Cli E A :=
  cbind (cmap_err provider (states_load state_ref)) (fun bytes => cpure (rmap_err json (from_slice c bytes))).

(** The same where a missing record is no error. *)
Definition load_optional {E A} (json : string -> E) (provider : RegistrationError -> E) (c : Codec A) (state_ref : string) : Cli E (option A) :=
  ccatch (states_load state_ref) (fun loaded =>
    match loaded with
    | Ok bytes => cpure (rmap_err json (rmap Some (from_slice c bytes)))
    | Err RegNotFound => cret None
    | Err e => cpure (Err (provider e))
    end).

Definition serialized_digest {E A} (json : string -> E) (c : Codec A) (value : A) : Result string E :=
  rmap (fun bytes => pe_hex_encode env (pe_sha256 env bytes)) (rmap_err json (to_vec c value)).

End World.

Declare Scope cli_scope.
Delimit Scope cli_scope with cli.
Notation "'let*' x ':=' m 'in' k" := (cbind m (fun x => k))
  (at level 10, x pattern, m at level 100, k at level 200) : cli_scope.
Notation "m ';*' k" := (cbind m (fun _ => k))
  (at level 199, k at level 200, right associativity) : cli_scope.

Definition is_missing_registration (e : RegistrationError) : bool :=
  match e with RegNotFound | RegSecret SecretNotFound => true | _ => false end.

(** * Lemmas *)

Section Steps.
Context {S H : Type} {secrets : SecretStore S} {order : HashOrder}.
Context (env : ProviderEnv) (faults : nat -> Faults).
#[local] Abbreviation CliWorld := (CliWorld (S := S) (H := H)).
Implicit Types w : CliWorld.

Lemma cbind_inv {E A B} (m : Cli E A) (k : A -> Cli E B) w w' r : cbind m k w = (w', r) ->
  (exists w1 a, m w = (w1, Ok a) /\ k a w1 = (w', r)) \/ (exists e, m w = (w', Err e) /\ r = Err e).
Proof. unfold cbind. destruct (m w) as [w1 [a|e]]; [intros; left; eauto|intros [= <- <-]; right; eauto]. Qed.

Lemma cbind_Ok {E A B} (m : Cli E A) (k : A -> Cli E B) w w' b : cbind m k w = (w', Ok b) ->
  exists w1 a, m w = (w1, Ok a) /\ k a w1 = (w', Ok b).
Proof. intros [?|(e & _ & ?)]%cbind_inv; done. Qed.

Lemma cmap_err_Ok {E F A} (f : E -> F) (m : Cli E A) w w' a : cmap_err f m w = (w', Ok a) -> m w = (w', Ok a).
Proof. unfold cmap_err. destruct (m w) as [w1 [x|e]]; [by intros [= <- <-]|done]. Qed.

Lemma cmap_err_Err {E F A} (f : E -> F) (m : Cli E A) w w' e : cmap_err f m w = (w', Err e) -> exists e0, e = f e0 /\ m w = (w', Err e0).
Proof. unfold cmap_err. destruct (m w) as [w1 [x|e0]]; [done|]. intros [= <- <-]. eauto. Qed.

(** ** What an operation of a store leaves alone *)

Lemma on_states_inv {A} (op : Faults -> StoreState -> StoreState * Result A RegistrationError) w w' r : on_states faults op w = (w', r) ->
  op (faults (cw_ops w)) (cw_states w) = (cw_states w', r) /\ cw_registrations w' = cw_registrations w /\ cw_host w' = cw_host w.
Proof. unfold on_states. destruct (op _ _) as [st r1]. by intros [= <- <-]. Qed.

Lemma on_registrations_inv {A} (op : Faults -> StoreState -> StoreState * Result A RegistrationError) w w' r : on_registrations faults op w = (w', r) ->
  op (faults (cw_ops w)) (cw_registrations w) = (cw_registrations w', r) /\ cw_states w' = cw_states w /\ cw_host w' = cw_host w.
Proof. unfold on_registrations. destruct (op _ _) as [st r1]. by intros [= <- <-]. Qed.

(** A computation that only reads leaves both stores as they are up to their
    lock files. *)
Definition quiet w w' : Prop :=
  same_but INTEGRATION_STATE_LOCK_FILE (cw_states w) (cw_states w') /\
  same_but REGISTRATION_LOCK_FILE (cw_registrations w) (cw_registrations w') /\ cw_host w' = cw_host w.

#[global] Instance same_but_preorder lock : PreOrder (same_but (S := S) lock).
Proof.
  split; [by intros st|]. intros a b c [Hd Hs] [Hd' Hs']. split; [|congruence]. intros n Hn. by rewrite Hd', Hd.
Qed.

#[global] Instance quiet_preorder : PreOrder quiet.
Proof.
  split; [intros w; split_and!; reflexivity|]. intros a b c (H1 & H2 & H3) (H4 & H5 & H6).
  split_and!; [by etransitivity|by etransitivity|congruence].
Qed.

Lemma integration_load_frame f (st : StoreState) ref st' r : integration_load env f st ref = (st', r) -> same_but INTEGRATION_STATE_LOCK_FILE st st'.
Proof.
  unfold integration_load. destruct (state_path ref); [|by intros [= <- _]].
  destruct (take_lock f st INTEGRATION_STATE_LOCK_FILE) as [st1 r1] eqn:El. apply lock_state_frame in El as [Hf _].
  destruct r1; by intros [= <- _].
Qed.

Lemma load_frame f (st : StoreState) id st' r : registration_load env f st id = (st', r) -> same_but REGISTRATION_LOCK_FILE st st'.
Proof.
  unfold registration_load. destruct (state_path id); [|by intros [= <- _]].
  destruct (take_lock f st REGISTRATION_LOCK_FILE) as [st1 r1] eqn:El. apply lock_state_frame in El as [Hf _].
  destruct r1; by intros [= <- _].
Qed.

Lemma states_load_quiet w ref w' r : states_load env faults ref w = (w', r) -> quiet w w'.
Proof.
  unfold states_load. intros (Hop & Hr & Hh)%on_states_inv. split_and!; [by eapply integration_load_frame|by rewrite Hr|done].
Qed.

Lemma registrations_inspect_quiet w id w' r : registrations_inspect env faults id w = (w', r) -> quiet w w'.
Proof.
  unfold registrations_inspect. intros (Hop & Hr & Hh)%on_registrations_inv. split_and!; [by rewrite Hr| |done].
  unfold registration_inspect in Hop. destruct (registration_load env _ _ id) as [st1 r1] eqn:El. injection Hop as <- _. by eapply load_frame.
Qed.

(** What [inspect] answers is the summary of an authentic registration. *)
Lemma registrations_inspect_ok w id w' s : registrations_inspect env faults id w = (w', Ok s) ->
  exists p, authentic env (cw_registrations w) id p /\ s = registration_summary p.
Proof.
  unfold registrations_inspect. intros (Hop & _ & _)%on_registrations_inv. unfold registration_inspect in Hop.
  destruct (registration_load env _ _ id) as [st1 [p|e]] eqn:El; [|done]. injection Hop as _ <-. exists p. split; [|done].
  eapply load_authentic. by rewrite El.
Qed.

Lemma load_record_quiet {E A} json provider (c : Codec A) ref w w' (r : Result A E) :
  load_record env faults json provider c ref w = (w', r) -> quiet w w'.
Proof.
  unfold load_record. intros [(w1 & bytes & Hl%cmap_err_Ok & Hp)|(e & Hl & _)]%cbind_inv.
  - unfold cpure in Hp. injection Hp as <- _. by eapply states_load_quiet.
  - apply cmap_err_Err in Hl as (e0 & _ & Hl). by eapply states_load_quiet.
Qed.

Lemma load_optional_quiet {E A} json provider (c : Codec A) ref w w' (r : Result (option A) E) :
  load_optional env faults json provider c ref w = (w', r) -> quiet w w'.
Proof.
  unfold load_optional, ccatch. destruct (states_load env faults ref w) as [w1 l] eqn:El. apply states_load_quiet in El.
  destruct l as [b|[]]; by intros [= <- _].
Qed.

(** ** The other store *)

Lemma states_load_registrations w ref w' r : states_load env faults ref w = (w', r) -> cw_registrations w' = cw_registrations w.
Proof. unfold states_load. by intros (_ & ? & _)%on_states_inv. Qed.

Lemma load_record_registrations {E A} json provider (c : Codec A) ref w w' (r : Result A E) :
  load_record env faults json provider c ref w = (w', r) -> cw_registrations w' = cw_registrations w.
Proof.
  unfold load_record. intros [(w1 & bytes & Hl%cmap_err_Ok & Hp)|(e & Hl & _)]%cbind_inv.
  - injection Hp as <- _. by eapply states_load_registrations.
  - apply cmap_err_Err in Hl as (e0 & _ & Hl). by eapply states_load_registrations.
Qed.

Lemma states_remove_registrations w ref w' r : states_remove faults ref w = (w', r) -> cw_registrations w' = cw_registrations w.
Proof. unfold states_remove. by intros (_ & ? & _)%on_states_inv. Qed.

Lemma install_state_registrations {E A} json provider (c : Codec A) ref value w w' (r : Result unit E) :
  cli_install_state env faults json provider c ref value w = (w', r) -> cw_registrations w' = cw_registrations w /\ cw_host w' = cw_host w.
Proof.
  unfold cli_install_state. intros [(w1 & bytes & Hp & Hi)|(e & Hp & _)]%cbind_inv; [|by injection Hp as <- _].
  injection Hp as -> _. destruct r as [u|e].
  - apply cmap_err_Ok in Hi. unfold states_install in Hi. by apply on_states_inv in Hi as (_ & ? & ?).
  - apply cmap_err_Err in Hi as (e0 & _ & Hi). unfold states_install in Hi. by apply on_states_inv in Hi as (_ & ? & ?).
Qed.

(** ** Removing and reading back *)

Context {lawful : LawfulSecrets S}.

Lemma registrations_remove_ok w id w' : validate_registration_id id = Ok tt -> registrations_remove faults id w = (w', Ok tt) ->
  cw_states w' = cw_states w /\ (forall p, ~ authentic env (cw_registrations w') id p) /\
  (forall id' p, id' <> id -> authentic env (cw_registrations w') id' p <-> authentic env (cw_registrations w) id' p).
Proof.
  unfold registrations_remove, registration_remove. intros Hid (Hop & Hs & _)%on_registrations_inv.
  apply remove_state_outcome in Hop as (Hd & Hsec & Hgone & _); [|by apply json_not_lock, state_file_json, valid_id_nonempty].
  split_and!; [done| |].
  - intros p [_ _ _ _ (e & mac & bytes & secret & He & _)]. congruence.
  - intros id' p Hne. apply authentic_agree; [|by apply Hsec]. intros Hid'. apply Hd.
    + by apply json_not_lock, state_file_json, valid_id_nonempty.
    + by intros ?%state_file_inj.
Qed.

(** What was installed and then removed leaves the registrations as before. *)
Lemma installed_then_removed request now w1 w2 w3 w4 s : registrations_install env faults request now w1 = (w2, Ok s) ->
  cw_registrations w3 = cw_registrations w2 -> registrations_remove faults (rr_registration_id request) w3 = (w4, Ok tt) ->
  forall id p, authentic env (cw_registrations w4) id p <-> authentic env (cw_registrations w1) id p.
Proof.
  unfold registrations_install. intros (Hop & _ & _)%on_registrations_inv Hsame Hr id p.
  assert (Hname : validate_registration_id (rr_registration_id request) = Ok tt)
    by (destruct (registration_install_prepared _ _ _ _ _ _ _ Hop) as [(? & ? & _)|(? & ? & ? & ? & _ & Hv & _)]; done).
  destruct (registrations_remove_ok _ _ _ Hname Hr) as (_ & Hgone & Hothers).
  destruct (registration_install_others _ _ _ _ _ _ _ Hop) as (Hnone & Hd & Hsec). destruct (decide (id = rr_registration_id request)) as [->|Hdiff].
  - split; [intros Hx; by destruct (Hgone p)|]. intros [_ _ _ _ (e & ? & ? & ? & He & _)]. congruence.
  - rewrite Hothers, Hsame by done. apply authentic_agree; [|apply Hsec; congruence]. intros Hidv. apply Hd.
    + by apply json_not_lock, state_file_json, valid_id_nonempty.
    + intros ?%state_file_inj. congruence.
Qed.

(** So does an installation that failed, where removals are done. *)
Lemma install_failed_authentic request now w w' e : (forall n, ft_remove (faults n) = None) -> (forall id s, exists s', ss_delete id s = (s', Ok tt)) ->
  registrations_install env faults request now w = (w', Err e) ->
  forall id p, authentic env (cw_registrations w') id p <-> authentic env (cw_registrations w) id p.
Proof.
  unfold registrations_install. intros Hrm Hdel (Hop & _ & _)%on_registrations_inv id p.
  destruct (install_failed_clean _ _ _ _ _ _ _ (Hrm _) Hdel Hop) as [Hd Hsec].
  apply authentic_agree; [|done]. intros Hidv. by apply Hd, json_not_lock, state_file_json, valid_id_nonempty.
Qed.

(** A stored record reads back. *)
Lemma install_state_stored {E A} json provider (c : Codec A) ref value w w' : LawfulCodec env -> lawful_codec c ->
  cli_install_state (E := E) env faults json provider c ref value w = (w', Ok tt) ->
  exists bytes, to_vec c value = Ok bytes /\ (integration_load env no_faults (cw_states w') ref).2 = Ok bytes /\ from_slice c bytes = Ok value.
Proof.
  intros Hcodec Hlaw. unfold cli_install_state. intros (w1 & bytes & Hp & Hi)%cbind_Ok. injection Hp as <- Hb.
  apply rmap_err_Ok in Hb. destruct (Hlaw _ _ Hb) as [Hfrom Hbytes]. exists bytes. split_and!; [done| |done].
  apply cmap_err_Ok in Hi. unfold states_install in Hi. apply on_states_inv in Hi as (Hop & _ & _). by eapply integration_roundtrip.
Qed.

Lemma integration_install_others f (st : StoreState) ref payload st' : integration_install env f st ref payload = (st', Ok tt) ->
  validate_registration_id ref = Ok tt /\ st_disk st !! state_file ref = None /\
  (forall n, n <> INTEGRATION_STATE_LOCK_FILE -> n <> state_file ref -> st_disk st' !! n = st_disk st !! n) /\
  (forall sid, sid <> state_secret_id ref -> ss_get sid (st_secrets st') = ss_get sid (st_secrets st)).
Proof.
  unfold integration_install. match goal with |- context [match ?x with Ok _ => _ | Err _ => _ end] => destruct x as [[name bytes]|e] eqn:Ep end; [|done].
  intros Hst. res_inv. repeat match goal with u : () |- _ => destruct u end.
  match goal with H : state_path _ = Ok _ |- _ => unfold state_path in H; res_inv end. repeat match goal with u : () |- _ => destruct u end.
  apply install_state_others in Hst as (Hn & Hd & Hs); [done|]. by apply json_not_lock, state_file_json, valid_id_nonempty.
Qed.

Lemma install_state_others_kept {E A} json provider (c : Codec A) ref value w w' ref' :
  cli_install_state (E := E) env faults json provider c ref value w = (w', Ok tt) -> ref' <> ref -> validate_registration_id ref' = Ok tt ->
  st_disk (cw_states w') !! state_file ref' = st_disk (cw_states w) !! state_file ref'.
Proof.
  unfold cli_install_state. intros (w1 & bytes & Hp & Hi)%cbind_Ok Hne Hid. injection Hp as <- _.
  apply cmap_err_Ok in Hi. unfold states_install in Hi. apply on_states_inv in Hi as (Hop & _ & _).
  apply integration_install_others in Hop as (_ & _ & Hd & _). apply Hd.
  - by apply json_not_lock, state_file_json, valid_id_nonempty.
  - by intros ?%state_file_inj.
Qed.

(** A record whose file is gone does not load, whatever happens. *)
Lemma states_load_gone w ref w' bytes : st_disk (cw_states w) !! state_file ref = None -> states_load env faults ref w <> (w', Ok bytes).
Proof.
  intros Hgone Hl. unfold states_load in Hl. apply on_states_inv in Hl as (Hop & _ & _). unfold integration_load, state_path in Hop.
  destruct (validate_registration_id ref) as [[]|e] eqn:Hid; cbn [rbind] in Hop; [|done].
  destruct (take_lock _ _ _) as [st1 [u|e]] eqn:El; [|done]. apply lock_state_frame in El as [[Hd _] _]. injection Hop as _ Hop.
  unfold integration_load_locked, validate_private_regular_file in Hop. rewrite Hd, Hgone in Hop by (by apply json_not_lock, state_file_json, valid_id_nonempty).
  destruct (fault _); done.
Qed.

Lemma states_remove_ok w ref w' : states_remove faults ref w = (w', Ok tt) -> validate_registration_id ref = Ok tt ->
  st_disk (cw_states w') !! state_file ref = None /\
  (forall ref', ref' <> ref -> validate_registration_id ref' = Ok tt ->
    st_disk (cw_states w') !! state_file ref' = st_disk (cw_states w) !! state_file ref').
Proof.
  unfold states_remove, integration_remove. intros (Hop & _ & _)%on_states_inv Hid.
  apply remove_state_outcome in Hop as (Hd & _ & Hgone & _); [|by apply json_not_lock, state_file_json, valid_id_nonempty].
  split; [done|]. intros ref' Hne Hid'. apply Hd; [by apply json_not_lock, state_file_json, valid_id_nonempty|]. by intros ?%state_file_inj.
Qed.

(** What loads has a valid name. *)
Lemma load_record_valid {E A} json provider (c : Codec A) ref w w' (a : A) :
  load_record (E := E) env faults json provider c ref w = (w', Ok a) -> validate_registration_id ref = Ok tt.
Proof.
  unfold load_record. intros (w1 & bytes & Hl%cmap_err_Ok & _)%cbind_Ok. unfold states_load in Hl. apply on_states_inv in Hl as (Hop & _ & _).
  unfold integration_load, state_path in Hop. by destruct (validate_registration_id ref) as [[]|e].
Qed.

(** ** Records *)

(** A payload stored under a name, whatever the lock. *)
Definition recorded (st : StoreState (S := S)) (ref : string) (payload : list Z) : Prop :=
  validate_registration_id ref = Ok tt /\ integration_load_locked env no_faults st (state_file ref) ref = Ok payload.

(** Faults only make reading fail. *)
Lemma load_locked_no_faults f (st : StoreState) name ref payload :
  integration_load_locked env f st name ref = Ok payload -> integration_load_locked env no_faults st name ref = Ok payload.
Proof.
  unfold integration_load_locked, validate_private_regular_file, read_entry. cbn [no_faults ft_stat ft_read fault].
  destruct (fault (ft_stat f)); [|done]. destruct (fault (ft_read f)) as [u|e]; [done|]. intros Hl. exfalso. res_inv.
Qed.

Lemma load_locked_agree (st st' : StoreState (S := S)) name ref :
  st_disk st' !! name = st_disk st !! name -> ss_get (state_secret_id ref) (st_secrets st') = ss_get (state_secret_id ref) (st_secrets st) ->
  integration_load_locked env no_faults st' name ref = integration_load_locked env no_faults st name ref.
Proof. intros Hd Hs. unfold integration_load_locked, validate_private_regular_file, read_entry. by rewrite Hd, Hs. Qed.

Lemma recorded_agree (st st' : StoreState) ref payload :
  (validate_registration_id ref = Ok tt -> st_disk st' !! state_file ref = st_disk st !! state_file ref) ->
  ss_get (state_secret_id ref) (st_secrets st') = ss_get (state_secret_id ref) (st_secrets st) ->
  recorded st' ref payload <-> recorded st ref payload.
Proof. intros Hd Hs. unfold recorded. split; intros [Hid Hl]; (split; [done|]); rewrite <- Hl; [symmetry|]; apply load_locked_agree; auto. Qed.

Lemma recorded_frame (st st' : StoreState) ref payload : same_but INTEGRATION_STATE_LOCK_FILE st st' -> recorded st' ref payload <-> recorded st ref payload.
Proof.
  intros [Hd Hs]. apply recorded_agree; [|by rewrite Hs]. intros Hid. apply Hd. by apply json_not_lock, state_file_json, valid_id_nonempty.
Qed.

Lemma recorded_fun (st : StoreState) ref a b : recorded st ref a -> recorded st ref b -> a = b.
Proof. intros [_ Ha] [_ Hb]. congruence. Qed.

Lemma integration_load_recorded f (st : StoreState) ref payload : (integration_load env f st ref).2 = Ok payload -> recorded st ref payload.
Proof.
  unfold integration_load, state_path, recorded. destruct (validate_registration_id ref) as [[]|e] eqn:Hid; cbn [rbind]; [|done].
  destruct (take_lock f st _) as [st1 [u|e]] eqn:El; cbn [snd]; [|done]. apply lock_state_frame in El as [[Hd Hs] _].
  intros Hl%load_locked_no_faults. split; [done|]. rewrite <- Hl. symmetry. apply load_locked_agree; [|by rewrite Hs].
  by apply Hd, json_not_lock, state_file_json, valid_id_nonempty.
Qed.

Lemma states_load_recorded w ref w' payload : states_load env faults ref w = (w', Ok payload) -> recorded (cw_states w) ref payload.
Proof. unfold states_load. intros (Hop & _ & _)%on_states_inv. eapply integration_load_recorded. by rewrite Hop. Qed.

Lemma load_record_recorded {E A} json provider (c : Codec A) ref w w' (a : A) :
  load_record (E := E) env faults json provider c ref w = (w', Ok a) -> exists bytes, recorded (cw_states w) ref bytes /\ from_slice c bytes = Ok a.
Proof.
  unfold load_record. intros (w1 & bytes & Hl%cmap_err_Ok & Hp)%cbind_Ok. exists bytes. split; [by eapply states_load_recorded|].
  injection Hp as _ Hp. by apply rmap_err_Ok in Hp.
Qed.

Lemma load_optional_recorded {E A} json provider (c : Codec A) ref w w' (a : A) :
  load_optional (E := E) env faults json provider c ref w = (w', Ok (Some a)) -> exists bytes, recorded (cw_states w) ref bytes /\ from_slice c bytes = Ok a.
Proof.
  unfold load_optional, ccatch. destruct (states_load env faults ref w) as [w1 [bytes|e]] eqn:El.
  - intros [= <- Hr]. exists bytes. split; [by eapply states_load_recorded|]. destruct (from_slice c bytes); [by injection Hr as ->|done].
  - destruct e; done.
Qed.

(** A record that is there is not reported missing. *)
Lemma load_optional_none {E A} json provider (c : Codec A) ref w w' bytes :
  load_optional (E := E) (A := A) env faults json provider c ref w = (w', Ok None) -> ~ recorded (cw_states w) ref bytes.
Proof.
  unfold load_optional, ccatch. destruct (states_load env faults ref w) as [w1 [b|e]] eqn:El; [destruct (from_slice c b); done|].
  intros Hl [Hid Hrec]. assert (e = RegNotFound) as -> by (destruct e; done). unfold states_load in El. apply on_states_inv in El as (Hop & _ & _).
  unfold integration_load, state_path in Hop. rewrite Hid in Hop. cbn [rbind] in Hop.
  destruct (take_lock _ _ _) as [st1 [u|e]] eqn:Et; [|apply lock_state_io in Et as [x ->]; by injection Hop as _ ?].
  apply lock_state_frame in Et as [[Hd Hs] _]. injection Hop as _ Hop.
  assert (Hf : st_disk st1 !! state_file ref = st_disk (cw_states w) !! state_file ref) by (by apply Hd, json_not_lock, state_file_json, valid_id_nonempty).
  unfold integration_load_locked, validate_private_regular_file, read_entry in Hrec, Hop. rewrite Hf, Hs in Hop. cbn [no_faults ft_stat ft_read fault rbind] in Hrec.
  destruct (fault (ft_stat _)) as [?|x] eqn:E1; cbn [rbind] in Hop; [|unfold fault in E1; destruct (ft_stat _); [injection E1 as <-|]; done].
  destruct (st_disk (cw_states w) !! state_file ref) as [en|]; cbn [ok_or rbind rmap_err] in Hrec, Hop; [|done].
  destruct (ensure_not (_ || _) _) as [?|x] eqn:E2; cbn [rbind rmap_err] in Hrec, Hop; [|done].
  destruct (ensure_not (_ && _) _) as [?|x] eqn:E3; cbn [rbind rmap_err] in Hrec, Hop; [|done].
  destruct (fault (ft_read _)) as [?|x] eqn:E4; cbn [rbind rmap_err rmap] in Hrec, Hop.
  - congruence.
  - unfold fault in E4. destruct (ft_read _); [injection E4 as <-|]; done.
Qed.

(** The record just stored. *)
Lemma install_state_recorded {E A} json provider (c : Codec A) ref value w w' : LawfulCodec env -> lawful_codec c ->
  cli_install_state (E := E) env faults json provider c ref value w = (w', Ok tt) ->
  exists bytes, recorded (cw_states w') ref bytes /\ from_slice c bytes = Ok value.
Proof.
  intros Hcodec Hlaw Hs. destruct (install_state_stored _ _ _ _ _ _ _ Hcodec Hlaw Hs) as (bytes & _ & Hl & Hf).
  exists bytes. split; [|done]. by eapply integration_load_recorded.
Qed.

Lemma state_secret_inj a b : state_secret_id a = state_secret_id b -> a = b.
Proof. unfold state_secret_id. apply (inj (String.append "integration-state-")). Qed.

Lemma install_state_recorded_kept {E A} json provider (c : Codec A) ref value w w' ref' bytes :
  cli_install_state (E := E) env faults json provider c ref value w = (w', Ok tt) -> ref' <> ref ->
  recorded (cw_states w') ref' bytes <-> recorded (cw_states w) ref' bytes.
Proof.
  unfold cli_install_state. intros (w1 & b & Hp & Hi)%cbind_Ok Hne. injection Hp as <- _.
  apply cmap_err_Ok in Hi. unfold states_install in Hi. apply on_states_inv in Hi as (Hop & _ & _).
  apply integration_install_others in Hop as (_ & _ & Hd & Hs). apply recorded_agree.
  - intros Hid. apply Hd; [by apply json_not_lock, state_file_json, valid_id_nonempty|]. by intros ?%state_file_inj.
  - apply Hs. by intros ?%state_secret_inj.
Qed.

End Steps.

(** * Concrete codecs and stores *)

Module Sample.

#[export] Existing Instances Store.map_secrets Store.map_secrets_lawful Store.order.

#[export] Instance AuthorityPolicy_eq_dec : EqDecision AuthorityPolicy.
Proof. solve_decision. Defined.
#[export] Instance RegistrationRequest_eq_dec : EqDecision RegistrationRequest.
Proof. solve_decision. Defined.
#[export] Instance RegistrationPayload_eq_dec : EqDecision RegistrationPayload.
Proof. solve_decision. Defined.

(** A serializer for one value, under a tag. *)
Definition one {A} `{!EqDecision A} (tag : Z) (a : A) : Codec A := {|
  to_vec := fun x => if decide (x = a) then Ok [tag] else Err "unsupported"%string;
  from_slice := fun bytes => if decide (bytes = [tag]) then Ok a else Err "unsupported"%string |}.

Lemma one_lawful {A} `{!EqDecision A} tag (a : A) : 0 <= tag < 256 -> lawful_codec (one tag a).
Proof.
  intros Ht x bytes. cbn. case_decide as E; [|done]. intros [= <-]. rewrite decide_True by done. subst. split; [done|]. by constructor.
Qed.

(** The libraries, printing one registration. *)
Definition env_for (p : RegistrationPayload) : ProviderEnv := {| Store.env with
  pe_registration_pretty := fun r => if decide (ar_payload r = p) then Ok (str_bytes (ar_mac_sha256 r)) else Err "unsupported"%string;
  pe_registration_parse := fun bytes => Ok {| ar_payload := p; ar_mac_sha256 := Store.string_of (Store.but_last bytes) |} |}.

Lemma env_for_codec p : LawfulCodec (env_for p).
Proof. destruct Store.codec as [H1 H2 H3 H4 H5]. by constructor. Qed.

Lemma env_for_parses p r bytes : pe_registration_pretty (env_for p) r = Ok bytes -> pe_registration_parse (env_for p) (bytes ++ [10]) = Ok r.
Proof.
  cbn. case_decide as E; [|done]. intros [= <-]. rewrite Store.but_last_snoc, Store.string_of_bytes. destruct r. cbn in *. by subst.
Qed.

End Sample.
