(* ===== verification/AuthorityCli.v ===== *)
(** The [authority] commands: [src/crates/cli/src/authority.rs].

    A human plans a registration of the command line adapter, applies the plan
    within ten minutes from a terminal, inspects it and revokes it.  Paths are
    strings; what the file system and the executable inspector answer depends
    on the host's state.  The theorems: what an applied plan leaves in the
    stores and that it is consumed, that a failed application leaves no
    registration, and that a revocation is recorded, effective and visible. *)

From stdpp Require Import pretty.
From Stdlib Require Import Ascii String.
From S2P Require Import Prelude Floats Geometry Text Protocol Errors Policy Validation Dispatcher Authority ImageCache Adapter Runner PrivateState CliStores.
#[local] Open Scope Z_scope.
#[local] Open Scope cli_scope.

Definition AUTHORITY_PLAN_SCHEMA_VERSION : Z := 1.
Definition AUTHORITY_RECEIPT_SCHEMA_VERSION : Z := 1.
Definition REVOCATION_SCHEMA_VERSION : Z := 1.
Definition AUTHORITY_STATUS_SCHEMA_VERSION : Z := 1.
Definition PLAN_TTL_MS : Z := 10 * 60 * 1000.
Definition PROVIDER_ID : string := "nexuscua.local.v1".

Inductive ServiceError :=
| ServiceInvalid (reason : string)
| AlreadyRunning
| NotRunning
| StopTimeout
| ServiceStateDrift
| ServiceInvalidResponse
| ResponseTooLarge
| HttpStatus (status : Z)
| ServiceIo (e : FsError)
| ServiceJson (e : string)
| ServiceProvider (e : RegistrationError)
| ServiceMcp (e : McpServeError)
| ServiceClock (e : AuthorityError).

Inductive AuthorityCliError :=
| CliInvalid (reason : string)
| ConfirmationRequired
| StalePlan
| StateDrift
| RollbackIncomplete
| CliIo (e : string)
| CliJson (e : string)
| CliProvider (e : RegistrationError)
| CliPolicy (e : AuthorityError)
| CliHostIdentity (e : string)
| CliService (e : ServiceError).

Record AuthorityChange := { ch_operation : string; ch_target : string }.

Record AuthorityPlan := {
  apn_schema_version : Z;
  apn_plan_ref : string;
  apn_registration_id : string;
  apn_created_at_unix_ms : Z;
  apn_expires_at_unix_ms : Z;
  apn_product_version : string;
  apn_host_executable : string;
  apn_host_identity : HostExecutableIdentity;
  apn_registration : RegistrationRequest;
  apn_changes : list AuthorityChange;
}.

Record AuthorityReceipt := {
  arc_schema_version : Z;
  arc_registration_id : string;
  arc_installed_at_unix_ms : Z;
  arc_product_version : string;
  arc_host_executable : string;
  arc_host_identity : HostExecutableIdentity;
  arc_registration : RegistrationRequest;
}.

Record AuthorityRevocation := {
  arv_schema_version : Z;
  arv_registration_id : string;
  arv_requested_at_unix_ms : Z;
  arv_product_version : string;
  arv_receipt_sha256 : string;
}.

Record AuthorityStatus := {
  aus_schema_version : Z;
  aus_state : string;
  aus_registration_id : string;
  aus_product_version : string;
  aus_provider_id : string;
  aus_adapter_profile : RegisteredAdapterProfile;
  aus_installed_at_unix_ms : Z;
  aus_revocation_requested_at_unix_ms : option Z;
  aus_host_executable : string;
  aus_host_identity : HostExecutableIdentity;
  aus_principal : string;
  aus_work_scope : string;
  aus_authority : AuthorityPolicy;
}.

(** [CARGO_PKG_VERSION], the serializers, and what the host answers. *)
Record AuthorityCliEnv (H : Type) := {
  ae_version : string;
  ae_plan : Codec AuthorityPlan;
  ae_receipt : Codec AuthorityReceipt;
  ae_revocation : Codec AuthorityRevocation;
  ae_canonicalize : H -> string -> Result string string;
  ae_inspect : H -> string -> Result HostExecutableIdentity string;
}.
Arguments ae_version {H}. Arguments ae_plan {H}. Arguments ae_receipt {H}. Arguments ae_revocation {H}.
Arguments ae_canonicalize {H}. Arguments ae_inspect {H}.

Definition authority_receipt_ref (registration_id : string) : string := replace_first "registration_" "authrcpt_" registration_id.
Definition revocation_ref (registration_id : string) : string := replace_first "registration_" "authrevoke_" registration_id.

(** [validate_binding]. *)
Definition authority_cli_binding (value field : string) : Result unit AuthorityCliError :=
  ensure_not (cli_binding_rejected value) (CliInvalid (field +:+ " is empty, unnormalized, or exceeds 256 bytes")).

(** [require_confirmation]. *)
Definition authority_confirmation (confirm stdin_terminal stderr_terminal : bool) : Result unit AuthorityCliError :=
  ensure_not (negb (confirmed confirm stdin_terminal stderr_terminal)) ConfirmationRequired.

Definition plan_change : AuthorityChange :=
  {| ch_operation := "install_authenticated_cli_registration"; ch_target := "owner-private provider state" |}.

(** The test on [plan.changes]. *)
Definition changes_rejected (changes : list AuthorityChange) : bool :=
  match changes with
  | [c] => negb (str_eqb (ch_operation c) "install_authenticated_cli_registration")
           || negb (str_eqb (ch_target c) "owner-private provider state")
  | _ => true
  end.

Definition profile_is_cli (p : RegisteredAdapterProfile) : bool := bool_decide (p = RegisteredCli).

Section Commands.
Context {S H : Type} {secrets : SecretStore S} {order : HashOrder} {ids : UuidSource}.
Context (env : ProviderEnv) (faults : nat -> Faults) (ae : AuthorityCliEnv H).
#[local] Abbreviation CliWorld := (CliWorld (S := S) (H := H)).
#[local] Abbreviation Cli := (Cli (S := S) (H := H)).

(** [create_plan]. *)
Definition create_plan (host_executable : string) (authority : AuthorityPolicy) (principal work_scope : string) (now_unix_ms : Z)
    : Cli AuthorityCliError AuthorityPlan :=
  cpure (authority_cli_binding principal "principal") ;*
  cpure (authority_cli_binding work_scope "work_scope") ;*
  cpure (rmap_err CliPolicy (authority_validate authority)) ;*
  let* host_executable := cread (fun w => rmap_err CliIo (ae_canonicalize ae (cw_host w) host_executable)) in
  let* host_identity := cread (fun w => rmap_err CliHostIdentity (ae_inspect ae (cw_host w) host_executable)) in
  let* registration_id := draw "registration_" in
  let* plan_ref := draw "authplan_" in
  let registration := {|
    rr_registration_id := registration_id; rr_provider_id := PROVIDER_ID; rr_product_version := ae_version ae;
    rr_adapter_profile := RegisteredCli; rr_host_identity := host_identity; rr_principal := principal;
    rr_work_scope := work_scope; rr_authority := authority |} in
  let plan := {|
    apn_schema_version := AUTHORITY_PLAN_SCHEMA_VERSION; apn_plan_ref := plan_ref; apn_registration_id := registration_id;
    apn_created_at_unix_ms := now_unix_ms; apn_expires_at_unix_ms := sat_add now_unix_ms PLAN_TTL_MS;
    apn_product_version := ae_version ae; apn_host_executable := host_executable; apn_host_identity := host_identity;
    apn_registration := registration; apn_changes := [plan_change] |} in
  cli_install_state env faults CliJson CliProvider (ae_plan ae) plan_ref plan ;*
  cret plan.

(** [load_plan], [load_receipt] and [load_optional_revocation]. *)
Definition load_authority_plan (plan_ref : string) : Cli AuthorityCliError AuthorityPlan :=
  cpure (ensure_not (negb (Text.starts_with "authplan_" plan_ref)) StalePlan) ;*
  load_record env faults CliJson CliProvider (ae_plan ae) plan_ref.

Definition load_authority_receipt (registration_id : string) : Cli AuthorityCliError AuthorityReceipt :=
  cpure (ensure_not (negb (Text.starts_with "registration_" registration_id)) StateDrift) ;*
  load_record env faults CliJson CliProvider (ae_receipt ae) (authority_receipt_ref registration_id).

Definition load_optional_revocation (registration_id : string) : Cli AuthorityCliError (option AuthorityRevocation) :=
  load_optional env faults CliJson CliProvider (ae_revocation ae) (revocation_ref registration_id).

(** [validate_plan]. *)
Definition authority_plan_stale (plan : AuthorityPlan) (plan_ref : string) (now_unix_ms : Z) : bool :=
  negb (apn_schema_version plan =? AUTHORITY_PLAN_SCHEMA_VERSION)
  || negb (str_eqb (apn_plan_ref plan) plan_ref)
  || (now_unix_ms <? apn_created_at_unix_ms plan)
  || (apn_expires_at_unix_ms plan <? now_unix_ms)
  || negb (apn_expires_at_unix_ms plan =? sat_add (apn_created_at_unix_ms plan) PLAN_TTL_MS)
  || negb (str_eqb (apn_product_version plan) (ae_version ae))
  || negb (str_eqb (apn_registration_id plan) (rr_registration_id (apn_registration plan)))
  || negb (str_eqb (rr_provider_id (apn_registration plan)) PROVIDER_ID)
  || negb (str_eqb (rr_product_version (apn_registration plan)) (apn_product_version plan))
  || negb (profile_is_cli (rr_adapter_profile (apn_registration plan)))
  || negb (bool_decide (rr_host_identity (apn_registration plan) = apn_host_identity plan))
  || changes_rejected (apn_changes plan).

Definition validate_authority_plan (plan : AuthorityPlan) (plan_ref : string) (now_unix_ms : Z) : Result unit AuthorityCliError :=
  ensure_not (authority_plan_stale plan plan_ref now_unix_ms) StalePlan ;?
  rmap_err CliPolicy (authority_validate (rr_authority (apn_registration plan))) ;?
  authority_cli_binding (rr_principal (apn_registration plan)) "principal" ;?
  authority_cli_binding (rr_work_scope (apn_registration plan)) "work_scope".

(** [validate_receipt]. *)
Definition validate_authority_receipt (receipt : AuthorityReceipt) (registration_id : string) : Result unit AuthorityCliError :=
  ensure_not
    (negb (arc_schema_version receipt =? AUTHORITY_RECEIPT_SCHEMA_VERSION)
     || negb (str_eqb (arc_registration_id receipt) registration_id)
     || negb (str_eqb (arc_product_version receipt) (ae_version ae))
     || negb (str_eqb (rr_registration_id (arc_registration receipt)) registration_id)
     || negb (str_eqb (rr_product_version (arc_registration receipt)) (arc_product_version receipt))
     || negb (str_eqb (rr_provider_id (arc_registration receipt)) PROVIDER_ID)
     || negb (profile_is_cli (rr_adapter_profile (arc_registration receipt)))
     || negb (bool_decide (rr_host_identity (arc_registration receipt) = arc_host_identity receipt))) StateDrift ;?
  rmap_err CliPolicy (authority_validate (rr_authority (arc_registration receipt))).

(** [validate_revocation]. *)
Definition validate_revocation (revocation : AuthorityRevocation) (receipt : AuthorityReceipt) : Result unit AuthorityCliError :=
  let early := negb (arv_schema_version revocation =? REVOCATION_SCHEMA_VERSION)
    || negb (str_eqb (arv_registration_id revocation) (arc_registration_id receipt))
    || negb (str_eqb (arv_product_version revocation) (arc_product_version receipt)) in
  ensure_not early StateDrift ;?
  let? digest := serialized_digest env CliJson (ae_receipt ae) receipt in
  ensure_not (negb (str_eqb (arv_receipt_sha256 revocation) digest)) StateDrift.

(** [validate_summary]. *)
Definition validate_summary (summary_ : RegistrationSummary) (receipt : AuthorityReceipt) : Result unit AuthorityCliError :=
  ensure_not
    (negb (str_eqb (rs_registration_id summary_) (arc_registration_id receipt))
     || negb (str_eqb (rs_provider_id summary_) (rr_provider_id (arc_registration receipt)))
     || negb (str_eqb (rs_product_version summary_) (arc_product_version receipt))
     || negb (profile_is_cli (rs_adapter_profile summary_))
     || negb (rs_installed_at_unix_ms summary_ =? arc_installed_at_unix_ms receipt)
     || negb (rs_authority_ttl_seconds summary_ =? ap_ttl_seconds (rr_authority (arc_registration receipt)))) StateDrift.

(** [apply_plan]. *)
Definition authority_apply_plan (plan_ref : string) (now_unix_ms : Z) : Cli AuthorityCliError AuthorityReceipt :=
  let* plan := load_authority_plan plan_ref in
  cpure (validate_authority_plan plan plan_ref now_unix_ms) ;*
  let* executable := cread (fun w => rmap_err CliIo (ae_canonicalize ae (cw_host w) (apn_host_executable plan))) in
  cpure (ensure_not (negb (str_eqb executable (apn_host_executable plan))) StateDrift) ;*
  let* identity := cread (fun w => rmap_err CliHostIdentity (ae_inspect ae (cw_host w) executable)) in
  cpure (ensure_not (negb (bool_decide (identity = apn_host_identity plan))) StateDrift) ;*
  cmap_err CliProvider (states_remove faults plan_ref) ;*
  cmap_err CliProvider (registrations_install env faults (apn_registration plan) now_unix_ms) ;*
  let receipt := {|
    arc_schema_version := AUTHORITY_RECEIPT_SCHEMA_VERSION; arc_registration_id := apn_registration_id plan;
    arc_installed_at_unix_ms := now_unix_ms; arc_product_version := apn_product_version plan;
    arc_host_executable := apn_host_executable plan; arc_host_identity := apn_host_identity plan;
    arc_registration := apn_registration plan |} in
  ccatch (cli_install_state env faults CliJson CliProvider (ae_receipt ae) (authority_receipt_ref (arc_registration_id receipt)) receipt)
    (fun installed =>
      match installed with
      | Err error =>
          ccatch (registrations_remove faults (arc_registration_id receipt)) (fun removed =>
            match removed with
            | Err _ => cpure (Err RollbackIncomplete)
            | Ok _ => cpure (Err error)
            end)
      | Ok _ => cret receipt
      end).

(** The status of a receipt in a given state. *)
Definition authority_status_of (receipt : AuthorityReceipt) (revocation : option AuthorityRevocation) (state : string) : AuthorityStatus := {|
  aus_schema_version := AUTHORITY_STATUS_SCHEMA_VERSION;
  aus_state := state;
  aus_registration_id := arc_registration_id receipt;
  aus_product_version := arc_product_version receipt;
  aus_provider_id := rr_provider_id (arc_registration receipt);
  aus_adapter_profile := rr_adapter_profile (arc_registration receipt);
  aus_installed_at_unix_ms := arc_installed_at_unix_ms receipt;
  aus_revocation_requested_at_unix_ms := arv_requested_at_unix_ms <$> revocation;
  aus_host_executable := arc_host_executable receipt;
  aus_host_identity := arc_host_identity receipt;
  aus_principal := rr_principal (arc_registration receipt);
  aus_work_scope := rr_work_scope (arc_registration receipt);
  aus_authority := rr_authority (arc_registration receipt) |}.

(** [status_from_receipt]. *)
Definition status_from_receipt (receipt : AuthorityReceipt) (revocation : option AuthorityRevocation) : Cli AuthorityCliError AuthorityStatus :=
  cpure (match revocation with Some r => validate_revocation r receipt | None => Ok tt end) ;*
  ccatch (registrations_inspect env faults (arc_registration_id receipt)) (fun inspected =>
    match inspected with
    | Ok summary_ =>
        cpure (validate_summary summary_ receipt) ;*
        cret (authority_status_of receipt revocation (if bool_decide (is_Some revocation) then "revocation_pending" else "active"))
    | Err e =>
        if bool_decide (is_Some revocation) && is_missing_registration e then cret (authority_status_of receipt revocation "revoked")
        else cpure (Err (CliProvider e))
    end).

(** [inspect_status]. *)
Definition inspect_status (registration_id : string) : Cli AuthorityCliError AuthorityStatus :=
  let* receipt := load_authority_receipt registration_id in
  cpure (validate_authority_receipt receipt registration_id) ;*
  let* revocation := load_optional_revocation registration_id in
  status_from_receipt receipt revocation.

(** [revoke_registration]. *)
Definition revoke_registration (registration_id : string) (now_unix_ms : Z) : Cli AuthorityCliError AuthorityStatus :=
  let* receipt := load_authority_receipt registration_id in
  cpure (validate_authority_receipt receipt registration_id) ;*
  ccatch (registrations_inspect env faults registration_id) (fun inspected =>
    match inspected with
    | Ok summary_ => cpure (validate_summary summary_ receipt)
    | Err e => if is_missing_registration e then cret tt else cpure (Err (CliProvider e))
    end) ;*
  let* receipt_sha256 := cpure (serialized_digest env CliJson (ae_receipt ae) receipt) in
  let* existing := load_optional_revocation registration_id in
  let* revocation :=
    match existing with
    | Some existing => cpure (validate_revocation existing receipt) ;* cret existing
    | None =>
        let value := {| arv_schema_version := REVOCATION_SCHEMA_VERSION; arv_registration_id := registration_id;
                        arv_requested_at_unix_ms := now_unix_ms; arv_product_version := ae_version ae; arv_receipt_sha256 := receipt_sha256 |} in
        cli_install_state env faults CliJson CliProvider (ae_revocation ae) (revocation_ref registration_id) value ;*
        cret value
    end in
  cmap_err CliProvider (registrations_remove faults registration_id) ;*
  status_from_receipt receipt (Some revocation).

(** [apply] and [status] up to their output; the arguments of
    [require_confirmation] are the terminals. *)
Definition authority_apply (confirm stdin_terminal stderr_terminal : bool) (plan_ref : string) (since_epoch : option Z)
    : Cli AuthorityCliError AuthorityStatus :=
  cpure (authority_confirmation confirm stdin_terminal stderr_terminal) ;*
  let* now := cpure (rmap_err CliPolicy (current_unix_ms since_epoch)) in
  let* receipt := authority_apply_plan plan_ref now in
  status_from_receipt receipt None.

(** [revoke] up to its output; [shutdown] waits for the service. *)
Definition authority_revoke (confirm stdin_terminal stderr_terminal : bool) (registration_id : string) (since_epoch : option Z)
    (shutdown : Cli ServiceError unit) : Cli AuthorityCliError AuthorityStatus :=
  cpure (authority_confirmation confirm stdin_terminal stderr_terminal) ;*
  let* now := cpure (rmap_err CliPolicy (current_unix_ms since_epoch)) in
  let* state := revoke_registration registration_id now in
  cmap_err CliService shutdown ;*
  cret state.

End Commands.

(** * Applying *)

Section Applying.
Context {S H : Type} {secrets : SecretStore S} {order : HashOrder} {lawful : LawfulSecrets S}.
Context (env : ProviderEnv) (faults : nat -> Faults) (ae : AuthorityCliEnv H).
#[local] Abbreviation CliWorld := (CliWorld (S := S) (H := H)).
Implicit Types w : CliWorld.

(** What [apply_plan] has checked when it removes the plan. *)
Record plan_admitted w (plan_ref : string) (now : Z) (plan : AuthorityPlan) : Prop := {
  pa_valid : validate_authority_plan ae plan plan_ref now = Ok tt;
  pa_executable : ae_canonicalize ae (cw_host w) (apn_host_executable plan) = Ok (apn_host_executable plan);
  pa_identity : ae_inspect ae (cw_host w) (apn_host_executable plan) = Ok (apn_host_identity plan);
}.

(** The receipt of a plan. *)
Definition receipt_of (plan : AuthorityPlan) (now : Z) : AuthorityReceipt := {|
  arc_schema_version := AUTHORITY_RECEIPT_SCHEMA_VERSION; arc_registration_id := apn_registration_id plan;
  arc_installed_at_unix_ms := now; arc_product_version := apn_product_version plan;
  arc_host_executable := apn_host_executable plan; arc_host_identity := apn_host_identity plan; arc_registration := apn_registration plan |}.

(** The course of [apply_plan]. *)
Lemma apply_plan_course plan_ref now w w' r : authority_apply_plan env faults ae plan_ref now w = (w', r) ->
  (exists e, r = Err e /\ cw_registrations w' = cw_registrations w) \/
  exists plan w0 w1 w2 ri, load_authority_plan env faults ae plan_ref w = (w0, Ok plan) /\ plan_admitted w0 plan_ref now plan /\
    states_remove faults plan_ref w0 = (w1, Ok tt) /\ cw_registrations w1 = cw_registrations w /\
    registrations_install env faults (apn_registration plan) now w1 = (w2, ri) /\
    match ri with
    | Err e => w' = w2 /\ r = Err (CliProvider e)
    | Ok _ => exists w3 rs,
        cli_install_state env faults CliJson CliProvider (ae_receipt ae) (authority_receipt_ref (apn_registration_id plan)) (receipt_of plan now) w2 = (w3, rs) /\
        match rs with
        | Ok _ => w' = w3 /\ r = Ok (receipt_of plan now)
        | Err e => exists rr, registrations_remove faults (apn_registration_id plan) w3 = (w', rr) /\
            r = Err (match rr with Ok _ => e | Err _ => RollbackIncomplete end)
        end
    end.
Proof.
  unfold authority_apply_plan. intros [(w0 & plan & Hl & Hk)|(e & Hl & ->)]%cbind_inv.
  2: { left. exists e. split; [done|]. unfold load_authority_plan in Hl. apply cbind_inv in Hl as [(w1 & u & Hp & Hl)|(e' & Hp & _)].
       - injection Hp as <- _. by eapply load_record_registrations.
       - by injection Hp as <- _. }
  assert (Hregs : cw_registrations w0 = cw_registrations w).
  { unfold load_authority_plan in Hl. apply cbind_Ok in Hl as (w1 & u & Hp & Hl). injection Hp as <- _. by eapply load_record_registrations. }
  apply cbind_inv in Hk as [(w1 & u & Hv & Hk)|(e & Hv & ->)]; [|left; exists e; by injection Hv as <- _]. injection Hv as <- Hv.
  apply cbind_inv in Hk as [(w1 & x & Hc & Hk)|(e & Hc & ->)]; [|left; exists e; by injection Hc as <- _]. injection Hc as <- Hc.
  apply cbind_inv in Hk as [(w1 & u1 & Hx & Hk)|(e & Hx & ->)]; [|left; exists e; by injection Hx as <- _]. injection Hx as <- Hx.
  apply cbind_inv in Hk as [(w1 & i & Hi & Hk)|(e & Hi & ->)]; [|left; exists e; by injection Hi as <- _]. injection Hi as <- Hi.
  apply cbind_inv in Hk as [(w1 & u2 & Hy & Hk)|(e & Hy & ->)]; [|left; exists e; by injection Hy as <- _]. injection Hy as <- Hy.
  destruct u, u1, u2. apply ensure_not_Ok, negb_false_iff in Hx, Hy. apply str_eqb_eq in Hx as ->. apply bool_decide_eq_true in Hy as ->.
  apply rmap_err_Ok in Hc, Hi.
  apply cbind_inv in Hk as [(w1 & [] & Hs%cmap_err_Ok & Hk)|(e & Hs & ->)].
  2: { left. exists e. apply cmap_err_Err in Hs as (e0 & _ & Hs). split; [done|]. rewrite <- Hregs. by eapply states_remove_registrations. }
  right. exists plan, w0, w1. pose proof (states_remove_registrations _ _ _ _ _ Hs) as Hr1.
  apply cbind_inv in Hk as [(w2 & s & Hin%cmap_err_Ok & Hk)|(e & Hin & ->)].
  - exists w2, (Ok s). split_and!; try done; [congruence|]. fold (receipt_of plan now) in Hk. unfold ccatch in Hk.
    change (arc_registration_id (receipt_of plan now)) with (apn_registration_id plan) in Hk.
    destruct (cli_install_state _ _ _ _ _ _ _ w2) as [w3 rs] eqn:Es. exists w3, rs. split; [done|]. destruct rs as [u|e]; [by injection Hk as <- <-|].
    destruct (registrations_remove faults (apn_registration_id plan) w3) as [w4 rr] eqn:Er. exists rr. by destruct rr; injection Hk as <- <-.
  - apply cmap_err_Err in Hin as (e0 & -> & Hin). exists w', (Err e0). split_and!; try done. congruence.
Qed.

(** An admitted plan is at most ten minutes old and names its registration. *)
Lemma plan_admitted_facts w plan_ref now plan : plan_admitted w plan_ref now plan -> 0 <= now <= U64_MAX ->
  apn_registration_id plan = rr_registration_id (apn_registration plan) /\ rr_adapter_profile (apn_registration plan) = RegisteredCli /\
  rr_host_identity (apn_registration plan) = apn_host_identity plan /\
  apn_created_at_unix_ms plan <= now <= apn_created_at_unix_ms plan + PLAN_TTL_MS.
Proof.
  intros [Hv _ _] Hnow. unfold validate_authority_plan in Hv. apply rbind_unit_Ok in Hv as [Hv _]. apply ensure_not_Ok in Hv.
  unfold authority_plan_stale in Hv. rewrite !orb_false_iff, !negb_false_iff, !str_eqb_eq, !Z.ltb_ge, !Z.eqb_eq in Hv.
  unfold profile_is_cli in Hv. rewrite !bool_decide_eq_true in Hv.
  destruct Hv as (((((((((((_ & _) & Hc) & He) & Hx) & _) & Hid) & _) & _) & Hp) & Hh) & _).
  split_and!; try done. unfold sat_add in Hx. lia.
Qed.

(** What an applied plan leaves.  A plan is applied only when it was stored
    by the owner, is at most ten minutes old, and the host executable still has
    the planned identity; then the plan is gone, so that it cannot be applied
    again, the receipt reads back, and the registration of the plan loads with
    the time of its installation as long as its file keeps the bound. *)
Theorem authority_applied plan_ref now w w' receipt :
  LawfulCodec env -> (forall r bytes, pe_registration_pretty env r = Ok bytes -> pe_registration_parse env (bytes ++ [10]) = Ok r) ->
  lawful_codec (ae_receipt ae) -> 0 <= now <= U64_MAX ->
  authority_apply_plan env faults ae plan_ref now w = (w', Ok receipt) ->
  exists plan w0 e, load_authority_plan env faults ae plan_ref w = (w0, Ok plan) /\ plan_admitted w0 plan_ref now plan /\
    apn_created_at_unix_ms plan <= now <= apn_created_at_unix_ms plan + 600000 /\ receipt = receipt_of plan now /\
    (authority_receipt_ref (apn_registration_id plan) <> plan_ref ->
      forall now' w2 receipt', authority_apply_plan env faults ae plan_ref now' w' <> (w2, Ok receipt')) /\
    (exists bytes, (integration_load env no_faults (cw_states w') (authority_receipt_ref (arc_registration_id receipt))).2 = Ok bytes /\
      from_slice (ae_receipt ae) bytes = Ok receipt) /\
    st_disk (cw_registrations w') !! state_file (arc_registration_id receipt) = Some e /\
    (zlen (en_bytes e) <= MAX_REGISTRATION_BYTES ->
      (registration_load env no_faults (cw_registrations w') (arc_registration_id receipt)).2 = Ok (new_payload (apn_registration plan) now)).
Proof.
  intros Hcodec Hjson Hlaw Hnow [(e & ? & _)|(plan & w0 & w1 & w2 & ri & Hl & Hadm & Hrm & Hregs & Hin & Hcase)]%apply_plan_course; [done|].
  destruct ri as [s|e]; [|by destruct Hcase]. destruct Hcase as (w3 & rs & Hs & Hcase). destruct rs as [[]|e]; [|by destruct Hcase as (rr & _ & ?)].
  destruct Hcase as [-> [= ->]]. destruct (plan_admitted_facts _ _ _ _ Hadm Hnow) as (Hid & _ & _ & Hage).
  pose proof (install_state_stored _ _ _ _ _ _ _ _ _ Hcodec Hlaw Hs) as (bytes & _ & Hload & Hfrom).
  destruct (install_state_registrations _ _ _ _ _ _ _ _ _ _ Hs) as [Hr3 _].
  unfold registrations_install in Hin. apply on_registrations_inv in Hin as (Hop & Hst2 & _).
  destruct (registration_install_ok _ _ _ _ _ _ _ Hjson Hop) as (_ & e & _ & He & _ & _ & Hround).
  unfold PLAN_TTL_MS in Hage. exists plan, w0, e. split_and!; try done; try lia.
  - intros Hne now' w4 receipt' Hagain. apply apply_plan_course in Hagain as [(? & ? & _)|(plan' & w5 & w6 & w7 & ri' & Hl' & _)]; [done|].
    unfold load_authority_plan in Hl, Hl'. apply cbind_Ok in Hl as (wa & ? & _ & Hl). apply cbind_Ok in Hl' as (wb & ? & Hp & Hl'). injection Hp as <- _.
    pose proof (load_record_valid _ _ _ _ _ _ _ _ _ Hl) as Hv. unfold load_record in Hl'. apply cbind_Ok in Hl' as (wc & b & Hl'%cmap_err_Ok & _).
    eapply states_load_gone; [|exact Hl']. rewrite (install_state_others_kept _ _ _ _ _ _ _ _ _ plan_ref Hs) by done.
    rewrite Hst2. by apply states_remove_ok in Hrm as [? _].
  - by exists bytes.
  - change (arc_registration_id (receipt_of plan now)) with (apn_registration_id plan). by rewrite Hr3, Hid.
  - change (arc_registration_id (receipt_of plan now)) with (apn_registration_id plan). by rewrite Hr3, Hid.
Qed.

(** A failed application leaves no registration.  When applying a plan
    fails, and the file system and the secret store let go of what they are
    asked to remove, exactly the registrations from before are in force. *)
Theorem authority_apply_failed plan_ref now w w' e :
  (forall n, ft_remove (faults n) = None) -> (forall id s, exists s', ss_delete id s = (s', Ok tt)) -> 0 <= now <= U64_MAX ->
  authority_apply_plan env faults ae plan_ref now w = (w', Err e) -> e <> RollbackIncomplete ->
  forall id p, authentic env (cw_registrations w') id p <-> authentic env (cw_registrations w) id p.
Proof.
  intros Hrmf Hdel Hnow Ha Hne id p. apply apply_plan_course in Ha as [(e' & _ & ->)|(plan & w0 & w1 & w2 & ri & Hl & Hadm & Hrm & Hregs & Hin & Hcase)]; [done|].
  destruct (plan_admitted_facts _ _ _ _ Hadm Hnow) as (Hid & _ & _ & _). rewrite <- Hregs. destruct ri as [s|e'].
  - destruct Hcase as (w3 & rs & Hs & Hcase). destruct rs as [u|e']; [by destruct Hcase|]. destruct Hcase as (rr & Hr & [= ->]).
    destruct rr as [[]|]; [|done]. destruct (install_state_registrations _ _ _ _ _ _ _ _ _ _ Hs) as [Hr3 _]. rewrite Hid in Hr.
    by apply (installed_then_removed _ _ _ _ _ _ _ _ _ Hin Hr3 Hr).
  - destruct Hcase as [-> _]. by apply (install_failed_authentic _ _ _ _ _ _ _ Hrmf Hdel Hin).
Qed.

(** * Revoking *)

(** The names of a registration's records. *)
Lemma registration_refs id : Text.starts_with "registration_" id = true -> exists rest,
  id = "registration_" +:+ rest /\ authority_receipt_ref id = "authrcpt_" +:+ rest /\ revocation_ref id = "authrevoke_" +:+ rest.
Proof.
  unfold Text.starts_with, authority_receipt_ref, revocation_ref. destruct (Text.strip_prefix "registration_" id) as [rest|] eqn:E; [|done]. intros _.
  exists rest. split; [by apply strip_prefix_Some|]. destruct id as [|c id]; [done|]. cbn [replace_first]. by rewrite E.
Qed.

Lemma receipt_ref_revocation_ref id : Text.starts_with "registration_" id = true -> authority_receipt_ref id <> revocation_ref id.
Proof. intros (rest & _ & -> & ->)%registration_refs. discriminate. Qed.

Lemma load_receipt_recorded id w w' receipt : load_authority_receipt env faults ae id w = (w', Ok receipt) ->
  Text.starts_with "registration_" id = true /\ quiet w w' /\
  exists bytes, recorded env (cw_states w) (authority_receipt_ref id) bytes /\ from_slice (ae_receipt ae) bytes = Ok receipt.
Proof.
  unfold load_authority_receipt. intros (w1 & u & Hp & Hl)%cbind_Ok. injection Hp as <- Hp. destruct u. apply ensure_not_Ok, negb_false_iff in Hp.
  split_and!; [done|by eapply load_record_quiet|by eapply load_record_recorded].
Qed.

Lemma quiet_recorded w w' ref bytes : quiet w w' -> recorded env (cw_states w') ref bytes <-> recorded env (cw_states w) ref bytes.
Proof. intros (Hq & _ & _). by apply recorded_frame. Qed.

Lemma quiet_authentic w w' id p : quiet w w' -> authentic env (cw_registrations w') id p <-> authentic env (cw_registrations w) id p.
Proof. intros (_ & Hq & _). by apply authentic_frame. Qed.

Lemma status_quiet receipt revocation w w' r : status_from_receipt env faults ae receipt revocation w = (w', r) -> quiet w w'.
Proof.
  unfold status_from_receipt. intros [(w1 & u & Hp & Hk)|(e & Hp & _)]%cbind_inv; [|by injection Hp as <- _]. injection Hp as <- _.
  unfold ccatch in Hk. destruct (registrations_inspect env faults _ w) as [w1 [s|e]] eqn:Ei; apply registrations_inspect_quiet in Ei.
  - apply cbind_inv in Hk as [(w2 & u2 & Hp & Hk)|(e & Hp & _)]; injection Hp as <- _; [|done]. by injection Hk as <- _.
  - destruct (_ && _); by injection Hk as <- _.
Qed.

(** With a revocation on record and no authentic registration, the status is
    [revoked]. *)
Lemma status_revoked receipt revocation w w' status : (forall p, ~ authentic env (cw_registrations w) (arc_registration_id receipt) p) ->
  status_from_receipt env faults ae receipt revocation w = (w', Ok status) -> status = authority_status_of receipt revocation "revoked".
Proof.
  intros Hgone. unfold status_from_receipt. intros (w1 & u & Hp & Hk)%cbind_Ok. injection Hp as <- _. unfold ccatch in Hk.
  destruct (registrations_inspect env faults _ w) as [w1 [s|e]] eqn:Ei.
  - apply registrations_inspect_ok in Ei as (p & Hp & _). by destruct (Hgone p).
  - destruct (_ && _); [by injection Hk as _ <-|done].
Qed.

(** The inspection of [revoke_registration] reads only. *)
Lemma revoke_inspection_quiet id receipt w w' r :
  ccatch (registrations_inspect env faults id) (fun inspected =>
    match inspected with
    | Ok summary_ => cpure (validate_summary summary_ receipt)
    | Err e => if is_missing_registration e then cret tt else cpure (Err (CliProvider e))
    end) w = (w', r) -> quiet w w'.
Proof.
  unfold ccatch. destruct (registrations_inspect env faults id w) as [w1 [s|x]] eqn:Ei; apply registrations_inspect_quiet in Ei; [by intros [= <- _]|].
  destruct (is_missing_registration x); by intros [= <- _].
Qed.

(** Revocations that are found or made before the removal. *)
Lemma revocation_step id now sha receipt w w' r : LawfulCodec env -> lawful_codec (ae_revocation ae) -> Text.starts_with "registration_" id = true ->
  (let* existing := load_optional_revocation env faults ae id in
   match existing with
   | Some existing => cpure (validate_revocation env ae existing receipt) ;* cret existing
   | None =>
       let value := {| arv_schema_version := REVOCATION_SCHEMA_VERSION; arv_registration_id := id;
                       arv_requested_at_unix_ms := now; arv_product_version := ae_version ae; arv_receipt_sha256 := sha |} in
       cli_install_state env faults CliJson CliProvider (ae_revocation ae) (revocation_ref id) value ;*
       cret value
   end) w = (w', r) ->
  (forall i p, authentic env (cw_registrations w') i p <-> authentic env (cw_registrations w) i p) /\
  match r with
  | Err _ => True
  | Ok revocation =>
      (exists bytes, recorded env (cw_states w') (revocation_ref id) bytes /\ from_slice (ae_revocation ae) bytes = Ok revocation) /\
      (forall bytes, recorded env (cw_states w') (authority_receipt_ref id) bytes <-> recorded env (cw_states w) (authority_receipt_ref id) bytes)
  end.
Proof.
  intros Hcodec Hlaw Hprefix. intros [(w1 & existing & He & Hk)|(e & He & ->)]%cbind_inv; unfold load_optional_revocation in He;
    pose proof (load_optional_quiet _ _ _ _ _ _ _ _ _ He) as Hq; [|split; [intros; by apply quiet_authentic|done]].
  destruct existing as [old|].
  - apply cbind_inv in Hk as [(w2 & u & Hp & Hk)|(e & Hp & ->)]; injection Hp as <- _; [injection Hk as <- <-|];
      (split; [intros; by apply quiet_authentic|]); [|done].
    destruct (load_optional_recorded _ _ _ _ _ _ _ _ _ He) as (bytes & Hrec & Hfrom).
    split; [|intros; by apply quiet_recorded]. exists bytes. split; [|done]. by apply (quiet_recorded w).
  - apply cbind_inv in Hk as [(w2 & [] & Hs & Hk)|(e & Hs & ->)]; pose proof (install_state_registrations _ _ _ _ _ _ _ _ _ _ Hs) as [Hregs _].
    + injection Hk as -> <-. split; [intros i p; rewrite Hregs; by apply quiet_authentic|]. split.
      * by apply (install_state_recorded _ _ _ _ _ _ _ _ _ Hcodec Hlaw Hs).
      * intros bytes. rewrite (install_state_recorded_kept _ _ _ _ _ _ _ _ _ (authority_receipt_ref id) bytes Hs) by (by apply receipt_ref_revocation_ref).
        by apply quiet_recorded.
    + split; [|done]. intros i p. rewrite Hregs. by apply quiet_authentic.
Qed.

Lemma cbind_assoc {E A B C} (m : Cli E A) (k : A -> Cli E B) (l : B -> Cli E C) w : cbind (cbind m k) l w = cbind m (fun a => cbind (k a) l) w.
Proof. unfold cbind. by destruct (m w) as [w1 [a|e]]. Qed.

(** The course of [revoke_registration] to the removal. *)
Lemma revoke_course id now w w' r : LawfulCodec env -> lawful_codec (ae_revocation ae) -> revoke_registration env faults ae id now w = (w', r) ->
  (exists e, r = Err e /\ forall i p, authentic env (cw_registrations w') i p <-> authentic env (cw_registrations w) i p) \/
  exists receipt revocation w1 w2 rr,
    load_authority_receipt env faults ae id w = (w1, Ok receipt) /\ validate_authority_receipt ae receipt id = Ok tt /\
    (exists bytes, recorded env (cw_states w2) (revocation_ref id) bytes /\ from_slice (ae_revocation ae) bytes = Ok revocation) /\
    (forall bytes, recorded env (cw_states w2) (authority_receipt_ref id) bytes <-> recorded env (cw_states w) (authority_receipt_ref id) bytes) /\
    (forall i p, authentic env (cw_registrations w2) i p <-> authentic env (cw_registrations w) i p) /\
    exists w3, registrations_remove faults id w2 = (w3, rr) /\
    match rr with
    | Err e => w' = w3 /\ r = Err (CliProvider e)
    | Ok _ => status_from_receipt env faults ae receipt (Some revocation) w3 = (w', r)
    end.
Proof.
  intros Hcodec Hlaw. unfold revoke_registration. intros [(w1 & receipt & Hl & Hk)|(e & Hl & ->)]%cbind_inv.
  2: { left. exists e. split; [done|]. unfold load_authority_receipt in Hl. intros i p. apply quiet_authentic.
       apply cbind_inv in Hl as [(w1 & u & Hp & Hl)|(e' & Hp & _)]; injection Hp as <- _; [by eapply load_record_quiet|done]. }
  destruct (load_receipt_recorded _ _ _ _ Hl) as (Hprefix & Hq1 & _).
  apply cbind_inv in Hk as [(wx & u & Hv & Hk)|(e & Hv & ->)]; injection Hv as <- Hv; [destruct u|left; exists e; split; [done|]; intros; by apply quiet_authentic].
  apply cbind_inv in Hk as [(w2 & u & Hi%revoke_inspection_quiet & Hk)|(e & Hi%revoke_inspection_quiet & ->)]; pose proof (transitivity Hq1 Hi) as Hq2.
  2: { left. exists e. split; [done|]. intros i p. by apply quiet_authentic. }
  apply cbind_inv in Hk as [(wx & sha & Hd & Hk)|(e & Hd & ->)]; injection Hd as <- Hd; [|left; exists e; split; [done|]; intros; by apply quiet_authentic].
  rewrite <- cbind_assoc in Hk. apply cbind_inv in Hk as [(w4 & revocation & Hrv & Hk)|(e & Hrv & ->)];
    apply (revocation_step _ _ _ _ _ _ _ Hcodec Hlaw Hprefix) in Hrv as [Hau Hrv].
  2: { left. exists e. split; [done|]. intros i p. rewrite Hau. by apply quiet_authentic. }
  destruct Hrv as [Hrec Hkept]. right. exists receipt, revocation, w1, w4.
  assert (Hkept' : forall bytes, recorded env (cw_states w4) (authority_receipt_ref id) bytes <-> recorded env (cw_states w) (authority_receipt_ref id) bytes)
    by (intros bytes; rewrite Hkept; by apply quiet_recorded).
  assert (Hau' : forall i p, authentic env (cw_registrations w4) i p <-> authentic env (cw_registrations w) i p)
    by (intros i p; rewrite Hau; by apply quiet_authentic).
  apply cbind_inv in Hk as [(w5 & [] & Hr%cmap_err_Ok & Hk)|(e & Hr & ->)].
  - exists (Ok tt). split_and!; try done. by exists w5.
  - apply cmap_err_Err in Hr as (e0 & -> & Hr). exists (Err e0). split_and!; try done. by exists w'.
Qed.

Lemma receipt_names receipt id : validate_authority_receipt ae receipt id = Ok tt -> arc_registration_id receipt = id /\ rr_registration_id (arc_registration receipt) = id.
Proof.
  unfold validate_authority_receipt. rewrite rbind_unit_Ok, ensure_not_Ok, !orb_false_iff, !negb_false_iff, !str_eqb_eq. tauto.
Qed.

(** What [revoke_registration] leaves. *)
Lemma revoke_registration_facts id now w w' r :
  LawfulCodec env -> lawful_codec (ae_revocation ae) -> revoke_registration env faults ae id now w = (w', r) ->
  match r with
  | Ok status => aus_state status = "revoked"%string /\ (forall p, ~ authentic env (cw_registrations w') id p) /\
      (forall id' p, id' <> id -> authentic env (cw_registrations w') id' p <-> authentic env (cw_registrations w) id' p) /\
      (forall w2 later, inspect_status env faults ae id w' = (w2, Ok later) -> later = status)
  | Err _ => True
  end /\
  (forall p, authentic env (cw_registrations w) id p -> ~ authentic env (cw_registrations w') id p ->
    exists revocation bytes, recorded env (cw_states w') (revocation_ref id) bytes /\ from_slice (ae_revocation ae) bytes = Ok revocation).
Proof.
  intros Hcodec Hlaw [(e & -> & Hsame)|(receipt & revocation & w1 & w2 & rr & Hl & Hv & Hrec & Hkept & Hau & w3 & Hr & Hcase)]%revoke_course; try done.
  { split; [done|]. intros p Hp Hn. by destruct Hn; apply Hsame. }
  assert (Hstates : cw_states w3 = cw_states w2) by (unfold registrations_remove in Hr; by apply on_registrations_inv in Hr as (_ & ? & _)).
  destruct (load_receipt_recorded _ _ _ _ Hl) as (Hprefix & _ & rbytes & Hrb & Hrfrom). destruct (receipt_names _ _ Hv) as [Hname _].
  destruct rr as [[]|e]; [|destruct Hcase as [-> ->]; split; [done|]; intros _ _ _; exists revocation; by rewrite Hstates].
  assert (Hidv : validate_registration_id id = Ok tt).
  { unfold registrations_remove in Hr. apply on_registrations_inv in Hr as (Hop & _ & _). unfold registration_remove, remove_state, state_path in Hop.
    by destruct (validate_registration_id id) as [[]|]. }
  destruct (registrations_remove_ok env _ _ _ _ Hidv Hr) as (_ & Hgone & Hothers). pose proof (status_quiet _ _ _ _ _ Hcase) as Hq.
  assert (Hgone' : forall p, ~ authentic env (cw_registrations w') id p) by (intros p Hp; apply (Hgone p); by apply (quiet_authentic w3 w')).
  assert (Hrec' : exists bytes, recorded env (cw_states w') (revocation_ref id) bytes /\ from_slice (ae_revocation ae) bytes = Ok revocation).
  { destruct Hrec as (bytes & Hb & Hf). exists bytes. split; [|done]. apply (quiet_recorded w3 w'); [done|]. by rewrite Hstates. }
  split; [|intros _ _ _; by exists revocation]. destruct r as [status|e]; [|done].
  assert (status = authority_status_of receipt (Some revocation) "revoked") as -> by (eapply status_revoked; [rewrite Hname; exact Hgone|exact Hcase]).
  split_and!; [done|done| |].
  - intros id' p Hne. rewrite (quiet_authentic w3 w') by done. by rewrite Hothers, Hau.
  - intros w4 later Hlater. unfold inspect_status in Hlater. apply cbind_Ok in Hlater as (w5 & receipt' & Hl' & Hk).
    destruct (load_receipt_recorded _ _ _ _ Hl') as (_ & Hq5 & rbytes' & Hrb' & Hrfrom').
    assert (receipt' = receipt) as ->.
    { assert (rbytes' = rbytes) as -> by (eapply recorded_fun; [exact Hrb'|]; apply (quiet_recorded w3 w'); [done|]; by rewrite Hstates, Hkept). congruence. }
    apply cbind_Ok in Hk as (w6 & u & Hp & Hk). injection Hp as <- _. apply cbind_Ok in Hk as (w7 & found & Ho & Hk). unfold load_optional_revocation in Ho.
    pose proof (load_optional_quiet _ _ _ _ _ _ _ _ _ Ho) as Hq7. destruct Hrec' as (bytes & Hb & Hf).
    assert (found = Some revocation) as ->.
    { destruct found as [x|].
      - apply load_optional_recorded in Ho as (b & Hbx & Hfx). f_equal. apply (quiet_recorded w') in Hbx; [|done].
        assert (b = bytes) as -> by (by eapply recorded_fun). congruence.
      - exfalso. eapply (load_optional_none _ _ _ _ _ _ _ _ bytes Ho). by apply (quiet_recorded w'). }
    eapply status_revoked; [|exact Hk]. rewrite Hname. intros p Hp. apply (Hgone' p). apply (quiet_authentic w5) in Hp; [|done]. exact (proj1 (quiet_authentic w' w5 id p Hq5) Hp).
Qed.

(** Revocation is effective, visible and recorded first.  A revocation that
    returns reports the state [revoked], its registration is no longer in force
    while every other one is, and every later status of the registration is the
    same; and whenever the command removes the registration, even if it fails
    afterwards, the record of the revocation is there. *)
Theorem revocation_effective id now w w' r :
  LawfulCodec env -> lawful_codec (ae_revocation ae) -> revoke_registration env faults ae id now w = (w', r) ->
  match r with
  | Ok status => aus_state status = "revoked"%string /\ (forall p, ~ authentic env (cw_registrations w') id p) /\
      (forall id' p, id' <> id -> authentic env (cw_registrations w') id' p <-> authentic env (cw_registrations w) id' p) /\
      (forall w2 later, inspect_status env faults ae id w' = (w2, Ok later) -> later = status)
  | Err _ => True
  end /\
  (forall p, authentic env (cw_registrations w) id p -> ~ authentic env (cw_registrations w') id p ->
    exists revocation bytes, recorded env (cw_states w') (revocation_ref id) bytes /\ from_slice (ae_revocation ae) bytes = Ok revocation).
Proof. apply revoke_registration_facts. Qed.
End Applying.

(** * A concrete run *)

Module Terminal.
Import Sample.

#[local] Instance plan_eq_dec : EqDecision AuthorityPlan.
Proof. assert (EqDecision AuthorityChange) by solve_decision. solve_decision. Defined.
#[local] Instance receipt_eq_dec : EqDecision AuthorityReceipt.
Proof. solve_decision. Defined.
#[local] Instance revocation_eq_dec : EqDecision AuthorityRevocation.
Proof. solve_decision. Defined.

Definition request : RegistrationRequest := {| Store.request with
  rr_registration_id := "registration_000000000001"; rr_provider_id := PROVIDER_ID; rr_product_version := "1.0.0"; rr_adapter_profile := RegisteredCli |}.

Definition plan_ref : string := "authplan_00000001".

Definition plan : AuthorityPlan := {|
  apn_schema_version := 1; apn_plan_ref := plan_ref; apn_registration_id := "registration_000000000001"; apn_created_at_unix_ms := 1000;
  apn_expires_at_unix_ms := 601000; apn_product_version := "1.0.0"; apn_host_executable := "/host";
  apn_host_identity := rr_host_identity request; apn_registration := request; apn_changes := [plan_change] |}.

Definition receipt : AuthorityReceipt := receipt_of plan 2000.

Definition env : ProviderEnv := env_for (new_payload request 2000).

Definition revocation : AuthorityRevocation := {|
  arv_schema_version := 1; arv_registration_id := "registration_000000000001"; arv_requested_at_unix_ms := 3000; arv_product_version := "1.0.0";
  arv_receipt_sha256 := pe_hex_encode env (pe_sha256 env [2]) |}.

Definition ae : AuthorityCliEnv unit := {|
  ae_version := "1.0.0"; ae_plan := one 1 plan; ae_receipt := one 2 receipt; ae_revocation := one 3 revocation;
  ae_canonicalize := fun _ path => Ok path; ae_inspect := fun _ _ => Ok (rr_host_identity request) |}.

Definition steady : nat -> Faults := fun _ => no_faults.

Definition start : CliWorld (S := Store.Secrets) (H := unit) :=
  {| cw_states := Store.empty; cw_registrations := Store.empty; cw_host := tt; cw_ids := 0; cw_ops := 0 |}.

Definition planned : CliWorld := (states_install env steady plan_ref [1] start).1.
Definition applied : CliWorld := (authority_apply_plan env steady ae plan_ref 2000 planned).1.
Definition revoked : CliWorld := (revoke_registration env steady ae "registration_000000000001" 3000 applied).1.

Lemma applies : authority_apply_plan env steady ae plan_ref 2000 planned = (applied, Ok receipt).
Proof. vm_compute. reflexivity. Defined.

Lemma revokes : revoke_registration env steady ae "registration_000000000001" 3000 applied = (revoked, Ok (authority_status_of receipt (Some revocation) "revoked")).
Proof. vm_compute. reflexivity. Defined.

Lemma authority_applied_witness :
  exists plan' w0 e, load_authority_plan env steady ae plan_ref planned = (w0, Ok plan') /\
    st_disk (cw_registrations applied) !! state_file (arc_registration_id receipt) = Some e.
Proof.
  destruct (authority_applied env steady ae plan_ref 2000 planned applied receipt (env_for_codec _) (env_for_parses _)
    (one_lawful 2 receipt ltac:(lia)) ltac:(vm_compute; split; discriminate) applies) as (p & w0 & e & Hl & _ & _ & _ & _ & _ & He & _).
  exists p, w0, e. split; [exact Hl|exact He].
Defined.

(** The receipt cannot be written. *)
Definition broken : nat -> Faults := fun n => if Nat.eqb n 4 then {| no_faults with ft_sync := Some "full"%string |} else no_faults.

Definition failed : CliWorld := (authority_apply_plan env broken ae plan_ref 2000 planned).1.

Lemma authority_apply_failed_witness : ~ authentic env (cw_registrations failed) "registration_000000000001" (new_payload request 2000).
Proof.
  assert (Ha : authority_apply_plan env broken ae plan_ref 2000 planned = (failed, Err (CliProvider (RegIo (FsOther "full"))))) by (vm_compute; reflexivity).
  rewrite (authority_apply_failed env broken ae plan_ref 2000 planned failed (CliProvider (RegIo (FsOther "full")))).
  - intros [_ _ _ _ (e & ? & ? & ? & He & _)]. vm_compute in He. discriminate He.
  - intros n. unfold broken. destruct (Nat.eqb n 4); reflexivity.
  - intros id s. exists (delete id s). reflexivity.
  - vm_compute. split; discriminate.
  - exact Ha.
  - discriminate.
Defined.

Lemma revocation_effective_witness : forall p, ~ authentic env (cw_registrations revoked) "registration_000000000001" p.
Proof.
  apply (proj1 (revocation_effective env steady ae "registration_000000000001" 3000 applied revoked
    (Ok (authority_status_of receipt (Some revocation) "revoked")) (env_for_codec _) (one_lawful 3 revocation ltac:(lia)) revokes)).
Defined.

End Terminal.
