(* ===== verification/Files.v ===== *)
(** The file system the commands see: [std::fs] and [std::path], as
    [src/crates/cli/src/integration.rs] uses them.

    A [Tree] holds directories, files and symbolic links by their location; an
    operation resolves its path against the tree, following at most [MAX_LINKS]
    links, and may meet a fault of its own position in the run.  Paths are
    those of Unix. *)

From stdpp Require Import pretty.
From Stdlib Require Import Ascii String.
From S2P Require Import Prelude Floats Geometry Text Protocol Errors Policy Validation Dispatcher Authority ImageCache Adapter PrivateState CliStores.
#[local] Open Scope Z_scope.
#[local] Open Scope cli_scope.

(** * Paths *)

Inductive Component := ParentDir | CurDir | Normal (name : string).
#[export] Instance Component_eq_dec : EqDecision Component.
Proof. solve_decision. Defined.

(** [Path]: the components after the root, and whether there is a root. *)
Record Path := { p_absolute : bool; p_components : list Component }.
#[export] Instance Path_eq_dec : EqDecision Path.
Proof. solve_decision. Defined.

(** [Path::parent], [Path::file_name] and [Path::join]/[PathBuf::push] of a
    name. *)
Definition parent (p : Path) : option Path :=
  match p_components p with
  | [] => None
  | _ => Some {| p with p_components := removelast (p_components p) |}
  end.

Definition file_name (p : Path) : option string :=
  match last (p_components p) with Some (Normal name) => Some name | _ => None end.

Definition join (p : Path) (name : string) : Path := {| p with p_components := p_components p ++ [Normal name] |}.

(** A location of the tree as a path. *)
Definition located (at_ : list string) : Path := {| p_absolute := true; p_components := Normal <$> at_ |}.

(** [str::from_utf8] on one character. *)
Definition continuation (b : Z) : bool := (128 <=? b) && (b <=? 191).

Definition utf8_step (bytes : list Z) : option (list Z) :=
  match bytes with
  | [] => None
  | b0 :: r0 =>
      if b0 <? 128 then Some r0
      else match r0 with
      | [] => None
      | b1 :: r1 =>
          if (194 <=? b0) && (b0 <=? 223) then (if continuation b1 then Some r1 else None)
          else match r1 with
          | [] => None
          | b2 :: r2 =>
              if (224 <=? b0) && (b0 <=? 239) then
                if continuation b1 && continuation b2 && negb ((b0 =? 224) && (b1 <? 160)) && negb ((b0 =? 237) && (159 <? b1)) then Some r2 else None
              else match r2 with
              | [] => None
              | b3 :: r3 =>
                  if (240 <=? b0) && (b0 <=? 244) && continuation b1 && continuation b2 && continuation b3
                     && negb ((b0 =? 240) && (b1 <? 144)) && negb ((b0 =? 244) && (143 <? b1)) then Some r3 else None
              end
          end
      end
  end.

Fixpoint utf8_valid_from (fuel : nat) (bytes : list Z) : bool :=
  match bytes, fuel with
  | [], _ => true
  | _, O => false
  | _, Datatypes.S fuel => match utf8_step bytes with Some rest => utf8_valid_from fuel rest | None => false end
  end.

Definition utf8_valid (s : string) : bool := utf8_valid_from (String.length s) (str_bytes s).

Definition component_text (c : Component) : string := match c with ParentDir => ".." | CurDir => "." | Normal name => name end.

Definition path_text (p : Path) : string := (if p_absolute p then "/" else "") +:+ String.concat "/" (component_text <$> p_components p).

(** [Path::to_str]. *)
Definition to_str (p : Path) : option string := if utf8_valid (path_text p) then Some (path_text p) else None.

(** * The tree *)

Inductive Node :=
| NDir
| NFile (mode : Z) (bytes : list Z)
| NLink (absolute : bool) (target : list Component).

Abbreviation Tree := (gmap (list string) Node).

(** The root is always there. *)
Definition node (t : Tree) (at_ : list string) : option Node := match at_ with [] => Some NDir | _ => t !! at_ end.

Definition is_dir_node (n : option Node) : bool := match n with Some NDir => true | _ => false end.

Definition MAX_LINKS : nat := 40.

(** Resolving components from a location; every link is followed. *)
Fixpoint walk (links : nat) (t : Tree) {struct links} : list string -> list Component -> Result (list string) FsError :=
  fix go (at_ : list string) (todo : list Component) {struct todo} : Result (list string) FsError :=
    match todo with
    | [] => Ok at_
    | c :: rest =>
        if negb (is_dir_node (node t at_)) then Err (FsOther "not a directory") else
        match c with
        | CurDir => go at_ rest
        | ParentDir => go (removelast at_) rest
        | Normal name =>
            match t !! (at_ ++ [name]) with
            | None => Err FsNotFound
            | Some (NLink absolute target) =>
                match links with
                | O => Err (FsOther "too many levels of symbolic links")
                | Datatypes.S links => walk links t (if absolute then [] else at_) (target ++ rest)
                end
            | Some _ => go (at_ ++ [name]) rest
            end
        end
    end.

(** The machine: its tree, working directory, the file operations done, and
    the state of the host program with the commands it was given. *)
Record Machine (C : Type) := {
  mc_tree : Tree;
  mc_cwd : list string;
  mc_io : nat;
  mc_codex : C;
  mc_log : list (list string);
}.
Arguments mc_tree {C}. Arguments mc_cwd {C}. Arguments mc_io {C}. Arguments mc_codex {C}. Arguments mc_log {C}.

Definition starting {C} (m : Machine C) (p : Path) : list string := if p_absolute p then [] else mc_cwd m.

(** Where a path leads, and where its last component is, link or not. *)
Definition resolve {C} (m : Machine C) (p : Path) : Result (list string) FsError :=
  walk MAX_LINKS (mc_tree m) (starting m p) (p_components p).

Definition locate {C} (m : Machine C) (p : Path) : Result (list string) FsError :=
  match last (p_components p) with
  | Some (Normal name) =>
      let? dir := walk MAX_LINKS (mc_tree m) (starting m p) (removelast (p_components p)) in
      if is_dir_node (node (mc_tree m) dir) then Ok (dir ++ [name]) else Err (FsOther "not a directory")
  | _ => resolve m p
  end.

(** [Path::exists] and [Path::is_dir]. *)
Definition exists_path {C} (m : Machine C) (p : Path) : bool := match resolve m p with Ok _ => true | Err _ => false end.
Definition is_dir {C} (m : Machine C) (p : Path) : bool :=
  match resolve m p with Ok at_ => is_dir_node (node (mc_tree m) at_) | Err _ => false end.

(** A directory without entries. *)
Definition below (at_ key : list string) : bool := bool_decide (at_ `prefix_of` key /\ key <> at_).
Definition dir_empty (t : Tree) (at_ : list string) : bool := forallb (fun e => negb (below at_ e.1)) (map_to_list t).

Inductive IoKind := IoRead | IoCreate | IoWrite | IoSync | IoRemove.

Section Operations.
Context {S C : Type}.
#[local] Abbreviation CliWorld := (CliWorld (S := S) (H := Machine C)).
#[local] Abbreviation Cli := (Cli (S := S) (H := Machine C)).
(** The fault of the operation at a position: its error, and how much a write
    had written. *)
Context (io : IoKind -> nat -> option (nat * string)).

Definition on_tree {A} (kind : IoKind) (op : Machine C -> Tree * Result A FsError) (partial : nat -> Machine C -> Tree) : Cli FsError A :=
  fun w =>
    let m := cw_host w in
    let '(t, r) := match io kind (mc_io m) with Some (n, e) => (partial n m, Err (FsOther e)) | None => op m end in
    ({| w with cw_host := {| m with mc_tree := t; mc_io := Datatypes.S (mc_io m) |} |}, r).

(** An operation that changes nothing when it fails, and one that only reads. *)
Definition fs_change {A} (kind : IoKind) (op : Machine C -> Tree * Result A FsError) : Cli FsError A := on_tree kind op (fun _ m => mc_tree m).
Definition fs_read {A} (op : Machine C -> Result A FsError) : Cli FsError A := fs_change IoRead (fun m => (mc_tree m, op m)).

Definition symlink_metadata (p : Path) : Cli FsError Node :=
  fs_read (fun m => let? at_ := locate m p in ok_or (node (mc_tree m) at_) FsNotFound).

Definition canonicalize (p : Path) : Cli FsError Path := fs_read (fun m => rmap located (resolve m p)).

(** [File::open], [take] and [read_to_end]. *)
Definition read_file (p : Path) (limit : nat) : Cli FsError (list Z) :=
  fs_read (fun m => let? at_ := resolve m p in
    match node (mc_tree m) at_ with
    | Some (NFile _ bytes) => Ok (take limit bytes)
    | _ => Err (FsOther "is a directory")
    end).

Definition create_dir (p : Path) : Cli FsError unit :=
  fs_change IoCreate (fun m => match locate m p with
    | Err e => (mc_tree m, Err e)
    | Ok at_ =>
        match node (mc_tree m) at_ with
        | Some _ => (mc_tree m, Err FsAlreadyExists)
        | None => (<[at_ := NDir]> (mc_tree m), Ok tt)
        end
    end).

(** [create_dir_all], on the ancestors of a path. *)
Fixpoint create_dir_all_from (fuel : nat) (p : Path) : Cli FsError unit :=
  let settle (e : FsError) : Cli FsError unit := fun w => (w, if is_dir (cw_host w) p then Ok tt else Err e) in
  if bool_decide (p = {| p_absolute := false; p_components := [] |}) then cret tt else
  ccatch (create_dir p) (fun created =>
    match created with
    | Ok _ => cret tt
    | Err FsNotFound =>
        match parent p, fuel with
        | Some up, Datatypes.S fuel =>
            create_dir_all_from fuel up ;*
            ccatch (create_dir p) (fun again => match again with Ok _ => cret tt | Err e => settle e end)
        | _, _ => cpure (Err (FsOther "failed to create whole tree"))
        end
    | Err e => settle e
    end).

Definition create_dir_all (p : Path) : Cli FsError unit := create_dir_all_from (length (p_components p)) p.

(** [OpenOptions::create_new] for writing; the answer is the open file. *)
Definition create_new (p : Path) (mode : Z) : Cli FsError (list string) :=
  fs_change IoCreate (fun m => match locate m p with
    | Err e => (mc_tree m, Err e)
    | Ok at_ =>
        match node (mc_tree m) at_ with
        | Some _ => (mc_tree m, Err FsAlreadyExists)
        | None => (<[at_ := NFile mode []]> (mc_tree m), Ok at_)
        end
    end).

Definition append_bytes (bytes : list Z) (n : Node) : Node :=
  match n with NFile mode old => NFile mode (old ++ bytes) | _ => n end.

Definition write_all (file : list string) (bytes : list Z) : Cli FsError unit :=
  on_tree IoWrite (fun m => (alter (append_bytes bytes) file (mc_tree m), Ok tt))
    (fun n m => alter (append_bytes (take n bytes)) file (mc_tree m)).

Definition sync_all : Cli FsError unit := fs_change IoSync (fun m => (mc_tree m, Ok tt)).

Definition remove_file (p : Path) : Cli FsError unit :=
  fs_change IoRemove (fun m => match locate m p with
    | Err e => (mc_tree m, Err e)
    | Ok at_ =>
        match node (mc_tree m) at_ with
        | None => (mc_tree m, Err FsNotFound)
        | Some NDir => (mc_tree m, Err (FsOther "is a directory"))
        | Some _ => (delete at_ (mc_tree m), Ok tt)
        end
    end).

Definition remove_dir (p : Path) : Cli FsError unit :=
  fs_change IoRemove (fun m => match locate m p with
    | Err e => (mc_tree m, Err e)
    | Ok at_ =>
        match node (mc_tree m) at_ with
        | None => (mc_tree m, Err FsNotFound)
        | Some NDir =>
            if bool_decide (at_ = []) then (mc_tree m, Err (FsDenied "root"))
            else if dir_empty (mc_tree m) at_ then (delete at_ (mc_tree m), Ok tt) else (mc_tree m, Err (FsOther "directory not empty"))
        | Some _ => (mc_tree m, Err (FsOther "not a directory"))
        end
    end).

End Operations.

(** * Lemmas *)

(** Every node is in a directory. *)
Definition tree_wf (t : Tree) : Prop := forall at_ name n, t !! (at_ ++ [name]) = Some n -> node t at_ = Some NDir.

(** Only directories were added. *)
Definition adds_directories (t t' : Tree) : Prop :=
  t ⊆ t' /\ (forall l n, t' !! l = Some n -> t !! l = Some n \/ n = NDir).

#[export] Instance adds_directories_preorder : PreOrder adds_directories.
Proof.
  split; [split; [done|auto]|]. intros a b c [H1 H2] [H3 H4]. split; [by etransitivity|].
  intros l n [?|?]%H4; [by apply H2|by right].
Qed.

Lemma node_snoc t at_ name : node t (at_ ++ [name]) = t !! (at_ ++ [name]).
Proof. by destruct at_. Qed.

Lemma node_weaken t t' at_ n : t ⊆ t' -> node t at_ = Some n -> node t' at_ = Some n.
Proof. intros Hs. destruct at_; [done|]. cbn. intros Hn. by eapply lookup_weaken. Qed.

Lemma is_dir_node_true n : is_dir_node n = true <-> n = Some NDir.
Proof. by destruct n as [[]|]. Qed.

Lemma walk_eq links t at_ todo : walk links t at_ todo =
  match todo with
  | [] => Ok at_
  | c :: rest =>
      if negb (is_dir_node (node t at_)) then Err (FsOther "not a directory") else
      match c with
      | CurDir => walk links t at_ rest
      | ParentDir => walk links t (removelast at_) rest
      | Normal name =>
          match t !! (at_ ++ [name]) with
          | None => Err FsNotFound
          | Some (NLink absolute target) =>
              match links with
              | O => Err (FsOther "too many levels of symbolic links")
              | Datatypes.S links => walk links t (if absolute then [] else at_) (target ++ rest)
              end
          | Some _ => walk links t (at_ ++ [name]) rest
          end
      end
  end.
Proof. destruct links, todo; done. Qed.

(** More nodes resolve more paths. *)
Lemma walk_weaken t t' links at_ todo r : t ⊆ t' -> walk links t at_ todo = Ok r -> walk links t' at_ todo = Ok r.
Proof.
  intros Hs. revert at_ todo. induction (lt_wf links) as [links _ IH]. intros at_ todo. revert at_.
  induction todo as [|c rest IHt]; intros at_; rewrite (walk_eq links t), (walk_eq links t'); [done|].
  destruct (is_dir_node (node t at_)) eqn:Hd; cbn [negb]; [|done]. apply is_dir_node_true in Hd. rewrite (node_weaken _ _ _ _ Hs Hd). cbn [is_dir_node negb].
  destruct c as [| |name]; [apply IHt|apply IHt|]. destruct (t !! (at_ ++ [name])) as [n|] eqn:Hn; [|done].
  rewrite (lookup_weaken _ _ _ _ Hn Hs). destruct n as [|mode bytes|absolute target]; [apply IHt|apply IHt|].
  destruct links as [|links]; [done|]. apply IH. lia.
Qed.

(** A location reached without a link. *)
Inductive real (t : Tree) : list string -> Prop :=
| real_root : real t []
| real_child at_ name n : real t at_ -> node t at_ = Some NDir -> t !! (at_ ++ [name]) = Some n -> (forall a b, n <> NLink a b) -> real t (at_ ++ [name]).
#[export] Hint Constructors real : core.

Lemma real_removelast t at_ : real t at_ -> real t (removelast at_).
Proof. destruct 1; [constructor|by rewrite removelast_last]. Qed.

Lemma real_weaken t t' at_ : t ⊆ t' -> real t at_ -> real t' at_.
Proof. intros Hs. induction 1; [constructor|]. econstructor; eauto using node_weaken, lookup_weaken. Qed.

Lemma walk_real t links at_ todo r : real t at_ -> walk links t at_ todo = Ok r -> real t r.
Proof.
  revert at_ todo. induction (lt_wf links) as [links _ IH]. intros at_ todo. revert at_.
  induction todo as [|c rest IHt]; intros at_ Hr; rewrite walk_eq; [by intros [= <-]|].
  destruct (is_dir_node (node t at_)) eqn:Hd; cbn [negb]; [|done]. apply is_dir_node_true in Hd.
  destruct c as [| |name]; [apply IHt, real_removelast, Hr|apply IHt, Hr|]. destruct (t !! (at_ ++ [name])) as [n|] eqn:Hn; [|done].
  destruct n as [|mode bytes|absolute target]; [apply IHt; by econstructor|apply IHt; by econstructor|].
  destruct links as [|links]; [done|]. apply IH; [lia|]. by destruct absolute.
Qed.

(** Resolving a location reached without a link leads there. *)
Lemma walk_real_from t links at_ rest : real t at_ -> walk links t [] ((Normal <$> at_) ++ rest) = walk links t at_ rest.
Proof.
  intros Hr. revert rest. induction Hr as [|at_ name n Hr IH Hd Hn Hl]; intros rest; [done|].
  rewrite fmap_app, <- app_assoc, IH. cbn [fmap list_fmap app]. rewrite walk_eq, Hd. cbn [is_dir_node negb]. rewrite Hn.
  destruct n; [done|done|]. by destruct (Hl absolute target).
Qed.

Lemma resolve_located {C} (m : Machine C) at_ : real (mc_tree m) at_ -> resolve m (located at_) = Ok at_.
Proof.
  intros Hr. unfold resolve, starting, located. cbn [p_absolute p_components].
  by rewrite <- (app_nil_r (Normal <$> at_)), walk_real_from, walk_eq.
Qed.

Lemma removelast_snoc {A} (l : list A) x : removelast (l ++ [x]) = l.
Proof. apply removelast_last. Qed.

Lemma locate_join {C} (m : Machine C) at_ name : real (mc_tree m) at_ ->
  locate m (join (located at_) name) = if is_dir_node (node (mc_tree m) at_) then Ok (at_ ++ [name]) else Err (FsOther "not a directory").
Proof.
  intros Hr. unfold locate, join. cbn [p_components located]. rewrite last_snoc, removelast_snoc. unfold starting. cbn [p_absolute].
  by rewrite <- (app_nil_r (Normal <$> at_)), walk_real_from, walk_eq.
Qed.

(** What is below a directory that is not there. *)
Lemma wf_below t at_ : tree_wf t -> at_ <> [] -> t !! at_ = None -> forall rest, t !! (at_ ++ rest) = None.
Proof.
  intros Hwf Hne Hn rest. induction rest as [|name rest IH] using rev_ind; [by rewrite app_nil_r|].
  rewrite app_assoc. destruct (t !! ((at_ ++ rest) ++ [name])) as [n|] eqn:E; [|done]. apply Hwf in E. destruct at_; [done|]. cbn in E, IH. congruence.
Qed.

(** Deciding it. *)
Definition wf_check (t : Tree) : bool := forallb (fun e => is_dir_node (node t (removelast e.1))) (map_to_list t).

Lemma wf_check_sound t : wf_check t = true -> tree_wf t.
Proof.
  unfold wf_check. rewrite forallb_forall. intros Hall at_ name n Hn. specialize (Hall (at_ ++ [name], n)). cbn [fst] in Hall.
  rewrite removelast_last in Hall. apply is_dir_node_true, Hall, list_elem_of_In, elem_of_map_to_list, Hn.
Qed.

Lemma below_app at_ key : below at_ key = true -> exists rest, key = at_ ++ rest /\ rest <> [].
Proof. unfold below. rewrite bool_decide_eq_true. intros [[rest ->] Hne]. exists rest. split; [done|]. intros ->. by rewrite app_nil_r in Hne. Qed.

Lemma dir_empty_true t at_ : (forall rest, rest <> [] -> t !! (at_ ++ rest) = None) -> dir_empty t at_ = true.
Proof.
  intros Hb. unfold dir_empty. apply forallb_forall. intros [k n] Hin. cbn. apply negb_true_iff. destruct (below at_ k) eqn:E; [|done].
  apply below_app in E as (rest & -> & Hne). apply list_elem_of_In, elem_of_map_to_list in Hin. by rewrite Hb in Hin.
Qed.

(** Resolving in two parts. *)
Lemma walk_app t links at_ xs ys dir : walk links t at_ xs = Ok dir -> exists links', walk links t at_ (xs ++ ys) = walk links' t dir ys.
Proof.
  revert at_ xs. induction (lt_wf links) as [links _ IH]. intros at_ xs. revert at_.
  induction xs as [|c rest IHt]; intros at_; rewrite (walk_eq links t at_); [intros [= <-]; by exists links|].
  rewrite (walk_eq links t at_ ((c :: rest) ++ ys)). cbn [app].
  destruct (negb (is_dir_node (node t at_))); [done|]. destruct c as [| |name]; [apply IHt|apply IHt|].
  destruct (t !! (at_ ++ [name])) as [[|mode bytes|absolute target]|]; [apply IHt|apply IHt| |done].
  destruct links as [|links]; [done|]. rewrite app_assoc. apply IH. lia.
Qed.

Lemma last_removelast {A} (l : list A) x : last l = Some x -> l = removelast l ++ [x].
Proof. destruct l as [|y l _] using rev_ind; [done|]. rewrite last_snoc, removelast_last. by intros [= ->]. Qed.

Lemma locate_Ok {C} (m : Machine C) p at_ : locate m p = Ok at_ ->
  (exists dir name, last (p_components p) = Some (Normal name) /\ at_ = dir ++ [name] /\
    walk MAX_LINKS (mc_tree m) (starting m p) (removelast (p_components p)) = Ok dir /\ node (mc_tree m) dir = Some NDir) \/
  ((forall name, last (p_components p) <> Some (Normal name)) /\ resolve m p = Ok at_).
Proof.
  unfold locate. destruct (last (p_components p)) as [[| |name]|] eqn:El; intros Hl; [right|right|left|right]; try done.
  destruct (walk _ _ _ _) as [dir|e] eqn:Ew; cbn [rbind] in Hl; [|done].
  destruct (is_dir_node _) eqn:Hd; [|done]. injection Hl as <-. apply is_dir_node_true in Hd. eauto 10.
Qed.

(** A file is where it is located. *)
Lemma locate_resolve {C} (m : Machine C) p at_ mode bytes : locate m p = Ok at_ -> node (mc_tree m) at_ = Some (NFile mode bytes) -> resolve m p = Ok at_.
Proof.
  intros [(dir & name & El & -> & Hw & Hd)|[_ Hr]]%locate_Ok Hn; [|done]. unfold resolve.
  rewrite (last_removelast _ _ El). destruct (walk_app _ _ _ _ [Normal name] _ Hw) as [links ->]. rewrite node_snoc in Hn.
  rewrite walk_eq, Hd. cbn [is_dir_node negb]. by rewrite Hn, walk_eq.
Qed.

Lemma locate_weaken {C} (m m' : Machine C) p at_ : mc_tree m ⊆ mc_tree m' -> mc_cwd m' = mc_cwd m -> locate m p = Ok at_ -> locate m' p = Ok at_.
Proof.
  intros Hs Hc. unfold locate, resolve, starting. rewrite Hc.
  destruct (last (p_components p)) as [[| |name]|]; try (by apply walk_weaken).
  destruct (walk _ (mc_tree m) _ _) as [dir|e] eqn:Ew; cbn [rbind]; [|done]. rewrite (walk_weaken _ _ _ _ _ _ Hs Ew). cbn [rbind].
  destruct (is_dir_node (node (mc_tree m) dir)) eqn:Hd; [|done]. apply is_dir_node_true in Hd. by rewrite (node_weaken _ _ _ _ Hs Hd).
Qed.

(** ** Steps *)

Section Steps.
Context {S C : Type}.
#[local] Abbreviation CliWorld := (CliWorld (S := S) (H := Machine C)).
#[local] Abbreviation Cli := (Cli (S := S) (H := Machine C)).
Context (io : IoKind -> nat -> option (nat * string)).
Implicit Types w : CliWorld.

(** What file operations leave alone. *)
Definition files_only w w' : Prop :=
  cw_states w' = cw_states w /\ cw_registrations w' = cw_registrations w /\ mc_cwd (cw_host w') = mc_cwd (cw_host w) /\
  mc_codex (cw_host w') = mc_codex (cw_host w) /\ mc_log (cw_host w') = mc_log (cw_host w).

#[export] Instance files_only_preorder : PreOrder files_only.
Proof. split; [by intros w|]. unfold files_only. intros a b c. intuition congruence. Qed.

Definition on_files {E A} (m : Cli E A) : Prop := forall w w' r, m w = (w', r) -> files_only w w'.

Lemma on_files_pure {E A} (r : Result A E) : on_files (cpure r).
Proof. by intros w w' r' [= <- _]. Qed.
Lemma on_files_ret {E A} (a : A) : on_files (E := E) (cret a).
Proof. by intros w w' r' [= <- _]. Qed.
Lemma on_files_read {E A} (f : CliWorld -> Result A E) : on_files (cread f).
Proof. by intros w w' r' [= <- _]. Qed.
Lemma on_files_map_err {E F A} (f : E -> F) (m : Cli E A) : on_files m -> on_files (cmap_err f m).
Proof. intros Hm w w' r. unfold cmap_err. destruct (m w) as [w1 r1] eqn:E1. intros [= <- _]. by eapply Hm. Qed.
Lemma on_files_bind {E A B} (m : Cli E A) (k : A -> Cli E B) : on_files m -> (forall a, on_files (k a)) -> on_files (cbind m k).
Proof. intros Hm Hk w w' r [(w1 & a & H1 & H2)|(e & H1 & _)]%cbind_inv; [etransitivity; [by eapply Hm|by eapply Hk]|by eapply Hm]. Qed.
Lemma on_files_catch {E F A B} (m : Cli E A) (k : Result A E -> Cli F B) : on_files m -> (forall a, on_files (k a)) -> on_files (ccatch m k).
Proof. intros Hm Hk w w' r. unfold ccatch. destruct (m w) as [w1 r1] eqn:E1. intros H2. etransitivity; [by eapply Hm|by eapply Hk]. Qed.

(** The course of one operation. *)
Lemma on_tree_inv {A} (kind : IoKind) (op : Machine C -> Tree * Result A FsError) (partial : nat -> Machine C -> Tree) w w' r : on_tree io kind op partial w = (w', r) ->
  files_only w w' /\
  (op (cw_host w) = (mc_tree (cw_host w'), r) \/ exists n e x, io kind n = Some x /\ mc_tree (cw_host w') = partial e (cw_host w) /\ r = Err (FsOther x.2)).
Proof.
  unfold on_tree. destruct (io kind (mc_io (cw_host w))) as [[n e]|] eqn:Ef.
  - intros [= <- <-]. split; [done|]. right. exists (mc_io (cw_host w)), n, (n, e). done.
  - destruct (op (cw_host w)) as [t r1]. intros [= <- <-]. split; [done|]. by left.
Qed.

Lemma fs_change_inv {A} (kind : IoKind) (op : Machine C -> Tree * Result A FsError) w w' r : fs_change io kind op w = (w', r) ->
  files_only w w' /\
  (op (cw_host w) = (mc_tree (cw_host w'), r) \/ exists n x, io kind n = Some x /\ mc_tree (cw_host w') = mc_tree (cw_host w) /\ r = Err (FsOther x.2)).
Proof. intros [Hf [Ho|(n & e & x & Hx & Ht & Hr)]]%on_tree_inv; split; try done; [by left|right; eauto]. Qed.

Lemma fs_read_inv {A} (op : Machine C -> Result A FsError) w w' r : fs_read io op w = (w', r) ->
  files_only w w' /\ mc_tree (cw_host w') = mc_tree (cw_host w) /\ (op (cw_host w) = r \/ exists x, r = Err (FsOther x)).
Proof.
  unfold fs_read. intros [Hf [[= Ht Hr]|(n & x & _ & Ht & Hr)]]%fs_change_inv; split_and!; try done; [by left|right; eauto].
Qed.

Lemma on_files_tree {A} (kind : IoKind) (op : Machine C -> Tree * Result A FsError) (partial : nat -> Machine C -> Tree) : on_files (on_tree io kind op partial).
Proof. by intros w w' r [? _]%on_tree_inv. Qed.

End Steps.

Create HintDb files.
#[export] Hint Resolve on_files_pure on_files_ret on_files_read on_files_map_err on_files_bind on_files_catch on_files_tree : files.

Section Directories.
Context {S C : Type}.
#[local] Abbreviation CliWorld := (CliWorld (S := S) (H := Machine C)).
Context (io : IoKind -> nat -> option (nat * string)).
Implicit Types w : CliWorld.
#[local] Abbreviation tree w := (mc_tree (cw_host w)).

(** Where a walk ends there is a node. *)
Lemma real_exists t at_ : real t at_ -> node t at_ <> None.
Proof. destruct 1 as [|at_ name n _ _ Hn _]; [done|]. rewrite node_snoc. congruence. Qed.

(** A free location of an absolute path is in a directory. *)
Lemma locate_free (m : Machine C) p at_ : p_absolute p = true -> locate m p = Ok at_ -> node (mc_tree m) at_ = None ->
  exists dir name, at_ = dir ++ [name] /\ node (mc_tree m) dir = Some NDir.
Proof.
  intros Ha [(dir & name & _ & -> & _ & Hd)|[_ Hr]]%locate_Ok Hn; [eauto|]. exfalso. unfold resolve, starting in Hr. rewrite Ha in Hr.
  apply walk_real in Hr; [|constructor]. by apply real_exists in Hr.
Qed.

Lemma insert_wf t dir name n : tree_wf t -> node t dir = Some NDir -> t !! (dir ++ [name]) = None -> tree_wf (<[dir ++ [name] := n]> t).
Proof.
  intros Hwf Hd Hfree at_ x nx Hx.
  assert (Hparent : node t at_ = Some NDir).
  { apply lookup_insert_Some in Hx as [[He _]|[_ Hx]]; [|by eapply Hwf]. apply app_inj_tail in He as [<- _]. done. }
  eapply node_weaken; [|done]. by apply insert_subseteq.
Qed.

Lemma insert_adds_directory t at_ : t !! at_ = None -> adds_directories t (<[at_ := NDir]> t).
Proof.
  intros Hn. split; [by apply insert_subseteq|]. intros l n [[_ <-]|[_ ?]]%lookup_insert_Some; [by right|by left].
Qed.

Lemma create_dir_inv p w w' r : create_dir io p w = (w', r) -> files_only w w' /\
  match r with
  | Ok _ => exists at_, locate (cw_host w) p = Ok at_ /\ node (tree w) at_ = None /\ tree w' = <[at_ := NDir]> (tree w)
  | Err _ => tree w' = tree w
  end.
Proof.
  unfold create_dir. intros [Hf Hop]%fs_change_inv. split; [done|]. destruct Hop as [Hop|(n & x & _ & Ht & ->)]; [|done].
  destruct (locate (cw_host w) p) as [at_|e] eqn:El; [|by injection Hop as <- <-].
  destruct (node (tree w) at_) as [nd|] eqn:En; injection Hop as Ht <-; [done|]. eauto.
Qed.

Lemma create_dir_adds p w w' r : create_dir io p w = (w', r) -> adds_directories (tree w) (tree w').
Proof.
  intros [_ Hc]%create_dir_inv. destruct r; [|by rewrite Hc]. destruct Hc as (at_ & _ & Hn & ->).
  apply insert_adds_directory. by destruct at_.
Qed.

Lemma create_dir_wf p w w' r : p_absolute p = true -> create_dir io p w = (w', r) -> tree_wf (tree w) -> tree_wf (tree w').
Proof.
  intros Ha [_ Hc]%create_dir_inv Hwf. destruct r; [|by rewrite Hc]. destruct Hc as (at_ & Hl & Hn & ->).
  destruct (locate_free _ _ _ Ha Hl Hn) as (dir & name & -> & Hd). apply insert_wf; [done..|]. by rewrite node_snoc in Hn.
Qed.

(** [create_dir_all] adds directories only. *)
Lemma create_dir_all_from_inv fuel : forall p w w' r, create_dir_all_from io fuel p w = (w', r) ->
  files_only w w' /\ adds_directories (tree w) (tree w') /\ (p_absolute p = true -> tree_wf (tree w) -> tree_wf (tree w')).
Proof.
  induction fuel as [|fuel IH]; intros p w w' r; cbn [create_dir_all_from]; (case_bool_decide as Hp; [by intros [= <- _]|]);
    unfold ccatch; destruct (create_dir io p w) as [w1 r1] eqn:E1;
    pose proof (create_dir_adds _ _ _ _ E1) as Ha; pose proof (fun H => create_dir_wf _ _ _ _ H E1) as Hw; apply create_dir_inv in E1 as [Hf _];
    (destruct r1 as [u|[]]; [by intros [= <- _]| |by intros [= <- _]..]).
  - destruct (parent p); by intros [= <- _].
  - destruct (parent p) as [up|] eqn:Eu; [|by intros [= <- _]].
    assert (Hab : p_absolute up = p_absolute p) by (unfold parent in Eu; destruct (p_components p); [done|]; by injection Eu as <-).
    intros [(w2 & u & (Hf2 & Ha2 & Hw2)%IH & Hk)|(e & (Hf2 & Ha2 & Hw2)%IH & _)]%cbind_inv.
    + destruct (create_dir io p w2) as [w3 r3] eqn:E3. pose proof (create_dir_adds _ _ _ _ E3) as Ha3. pose proof (fun H => create_dir_wf _ _ _ _ H E3) as Hw3.
      apply create_dir_inv in E3 as [Hf3 _].
      assert (w3 = w') as -> by (destruct r3; by injection Hk as <- _).
      split_and!; [by do 2 (etransitivity; [done|])|by do 2 (etransitivity; [done|])|]. intros Hpa ?. apply Hw3; [done|]. apply Hw2; [congruence|]. by apply Hw.
    + split_and!; [by etransitivity|by etransitivity|]. intros Hpa ?. apply Hw2; [congruence|]. by apply Hw.
Qed.

Lemma symlink_metadata_inv p w w' r : symlink_metadata io p w = (w', r) ->
  files_only w w' /\ tree w' = tree w /\
  match r with
  | Ok n => exists at_, locate (cw_host w) p = Ok at_ /\ node (tree w) at_ = Some n
  | Err FsNotFound => locate (cw_host w) p = Err FsNotFound \/ exists at_, locate (cw_host w) p = Ok at_ /\ node (tree w) at_ = None
  | Err _ => True
  end.
Proof.
  unfold symlink_metadata. intros (Hf & Ht & Hr)%fs_read_inv. split_and!; [done..|]. destruct Hr as [<-|[x ->]]; [|done].
  destruct (locate (cw_host w) p) as [at_|e]; cbn [rbind]; [|by destruct e; try left].
  destruct (node (tree w) at_) eqn:En; cbn [ok_or]; [eauto|]. right. eauto.
Qed.

Lemma canonicalize_inv p w w' r : canonicalize io p w = (w', r) ->
  files_only w w' /\ tree w' = tree w /\ match r with Ok q => exists at_, resolve (cw_host w) p = Ok at_ /\ q = located at_ | Err _ => True end.
Proof.
  unfold canonicalize. intros (Hf & Ht & Hr)%fs_read_inv. split_and!; [done..|]. destruct Hr as [<-|[x ->]]; [|done].
  destruct (resolve (cw_host w) p); cbn [rmap]; eauto.
Qed.

Lemma read_file_inv p limit w w' r : read_file io p limit w = (w', r) ->
  files_only w w' /\ tree w' = tree w /\
  match r with Ok bytes => exists at_ mode content, resolve (cw_host w) p = Ok at_ /\ node (tree w) at_ = Some (NFile mode content) /\ bytes = take limit content | Err _ => True end.
Proof.
  unfold read_file. intros (Hf & Ht & Hr)%fs_read_inv. split_and!; [done..|]. destruct Hr as [<-|[x ->]]; [|done].
  destruct (resolve (cw_host w) p) as [at_|e]; cbn [rbind]; [|done]. destruct (node (tree w) at_) as [[]|] eqn:En; eauto 10.
Qed.

Lemma remove_file_inv p w w' r : remove_file io p w = (w', r) -> files_only w w' /\
  match r with
  | Ok _ => exists at_ n, locate (cw_host w) p = Ok at_ /\ node (tree w) at_ = Some n /\ n <> NDir /\ tree w' = delete at_ (tree w)
  | Err _ => tree w' = tree w
  end.
Proof.
  unfold remove_file. intros [Hf Hop]%fs_change_inv. split; [done|]. destruct Hop as [Hop|(n & x & _ & Ht & ->)]; [|done].
  destruct (locate (cw_host w) p) as [at_|e] eqn:El; [|by injection Hop as <- <-].
  destruct (node (tree w) at_) as [[]|] eqn:En; injection Hop as Ht <-; try done; eauto 10.
Qed.

Lemma remove_dir_inv p w w' r : remove_dir io p w = (w', r) -> files_only w w' /\
  match r with
  | Ok _ => exists at_, locate (cw_host w) p = Ok at_ /\ at_ <> [] /\ tree w !! at_ = Some NDir /\ dir_empty (tree w) at_ = true /\ tree w' = delete at_ (tree w)
  | Err _ => tree w' = tree w
  end.
Proof.
  unfold remove_dir. intros [Hf Hop]%fs_change_inv. split; [done|]. destruct Hop as [Hop|(n & x & _ & Ht & ->)]; [|done].
  destruct (locate (cw_host w) p) as [at_|e] eqn:El; [|by injection Hop as <- <-].
  destruct (node (tree w) at_) as [[]|] eqn:En; [|by injection Hop as <- <-..]. case_bool_decide as Hroot; [by injection Hop as <- <-|].
  destruct (dir_empty (tree w) at_) eqn:Ed; injection Hop as Ht <-; [|done]. exists at_. split_and!; try done. by destruct at_.
Qed.

End Directories.
