(* ===== verification/Skill.v ===== *)
(** The generated Skill: [normalize_future_directory], [install_skill],
    [remove_skill] and [inspect_skill] of [src/crates/cli/src/integration.rs].

    The lemmas: an installed Skill is exactly the embedded one in a directory
    that was not there before, and a failed installation or a removal leaves
    nothing of it. *)

From stdpp Require Import pretty.
From Stdlib Require Import Ascii String.
From S2P Require Import Prelude Floats Geometry Text Protocol Errors Policy Validation Dispatcher Authority ImageCache Adapter PrivateState CliStores Files.
#[local] Open Scope Z_scope.
#[local] Open Scope cli_scope.

Definition MAX_SKILL_BYTES : Z := 24 * 1024.
Definition SKILL_NAME : string := "nexuscua-computer-use".

Inductive IntegrationError :=
| IntInvalid (reason : string)
| HostNotFound
| HostCommand
| HostOutput
| IntStalePlan
| AliasConflict
| SkillConflict
| IntConfirmationRequired
| IntStateDrift
| IntRollbackIncomplete
| IntIo (e : FsError)
| IntJson (e : string)
| IntProvider (e : RegistrationError)
| IntAuthority (e : AuthorityError)
| IntHostIdentity (e : string).

Section Operations.
Context {S C : Type}.
#[local] Abbreviation CliWorld := (CliWorld (S := S) (H := Machine C)).
#[local] Abbreviation Cli := (Cli (S := S) (H := Machine C)).
(** The libraries, the faults of the file system, and [EMBEDDED_MCP_SKILL]. *)
Context (env : ProviderEnv) (io : IoKind -> nat -> option (nat * string)) (skill : list Z).

Definition skill_digest (bytes : list Z) : string := pe_hex_encode env (pe_sha256 env bytes).

(** ** Where the Skill goes *)

Definition irregular (c : Component) : bool := match c with Normal _ => false | _ => true end.

(** The loop of [normalize_future_directory]: the nearest ancestor that exists
    and the names below it, last first. *)
Fixpoint existing_ancestor (fuel : nat) (m : Machine C) (existing : Path) (missing : list string) : Result (Path * list string) IntegrationError :=
  if exists_path m existing then Ok (existing, missing) else
  match file_name existing with
  | None => Err (IntInvalid "Skill root has no existing ancestor")
  | Some name =>
      match parent existing, fuel with
      | Some up, Datatypes.S fuel => existing_ancestor fuel m up (missing ++ [name])
      | _, _ => Err (IntInvalid "Skill root has no existing ancestor")
      end
  end.

Definition normalize_future_directory (p : Path) : Cli IntegrationError Path :=
  cpure (ensure_not (negb (p_absolute p) || existsb irregular (p_components p)) (IntInvalid "Skill root must be an absolute normalized path")) ;*
  let* found := cread (fun w => existing_ancestor (length (p_components p)) (cw_host w) p []) in
  let '(existing, missing) := found in
  let* metadata := cmap_err IntIo (symlink_metadata io existing) in
  cpure (ensure_not (negb (is_dir_node (Some metadata))) (IntInvalid "Skill root ancestor is not a directory")) ;*
  let* normalized := cmap_err IntIo (canonicalize io existing) in
  cret (fold_left join (rev missing) normalized).

(** [resolve_skill_root]; [home] is [default_user_home]. *)
Definition resolve_skill_root (explicit : option Path) (home : Result Path RegistrationError) : Cli IntegrationError Path :=
  let* root := cpure (match explicit with
    | Some root => Ok root
    | None => rmap (fun home => join (join home ".agents") "skills") (rmap_err IntProvider home)
    end) in
  normalize_future_directory root.

Definition skill_file_of (root : Path) : Path := join (join root SKILL_NAME) "SKILL.md".

(** [skill_file.parent().is_some_and(Path::exists)] *)
Definition parent_exists (m : Machine C) (p : Path) : bool := match parent p with Some d => exists_path m d | None => false end.

(** ** Reading it *)

Definition inspect_skill_digest (skill_file : Path) : Cli IntegrationError (option string) :=
  ccatch (symlink_metadata io skill_file) (fun metadata =>
    match metadata with
    | Err FsNotFound => cret None
    | Err e => cpure (Err (IntIo e))
    | Ok (NFile _ content) =>
        cpure (ensure_not (MAX_SKILL_BYTES <? zlen content) IntStateDrift) ;*
        let* bytes := cmap_err IntIo (read_file io skill_file (Z.to_nat (MAX_SKILL_BYTES + 1))) in
        cpure (ensure_not (MAX_SKILL_BYTES <? zlen bytes) IntStateDrift) ;*
        cret (Some (skill_digest bytes))
    | Ok _ => cpure (Err IntStateDrift)
    end).

Definition inspect_skill (skill_file : Path) : Cli IntegrationError string :=
  let* found := inspect_skill_digest skill_file in
  cread (fun w => Ok (match found with
    | None => if parent_exists (cw_host w) skill_file then "conflict" else "absent"
    | Some value => if str_eqb value (skill_digest skill) then "matching" else "conflict"
    end%string)).

(** ** Writing and removing it *)

(** The closure of [install_skill]. *)
Definition write_skill (skill_file : Path) (expected_sha256 : string) : Cli IntegrationError unit :=
  let* file := cmap_err IntIo (create_new io skill_file OWNER_FILE_MODE) in
  cmap_err IntIo (write_all io file skill) ;*
  cmap_err IntIo (sync_all io) ;*
  let* found := inspect_skill_digest skill_file in
  cpure (ensure_not (negb (bool_decide (found = Some expected_sha256))) IntStateDrift).

Definition install_skill (skill_file : Path) (expected_sha256 : string) : Cli IntegrationError unit :=
  cpure (ensure_not (negb (str_eqb (skill_digest skill) expected_sha256)) IntStateDrift) ;*
  let* directory := cpure (ok_or (parent skill_file) IntStateDrift) in
  let* root := cpure (ok_or (parent directory) IntStateDrift) in
  cmap_err IntIo (create_dir_all io root) ;*
  let* canonical := cmap_err IntIo (canonicalize io root) in
  cpure (ensure_not (negb (bool_decide (canonical = root))) IntStateDrift) ;*
  let* metadata := cmap_err IntIo (symlink_metadata io root) in
  cpure (ensure_not (match metadata with NLink _ _ => true | _ => false end) IntStateDrift) ;*
  cmap_err (fun e => match e with FsAlreadyExists => SkillConflict | e => IntIo e end) (create_dir io directory) ;*
  ccatch (write_skill skill_file expected_sha256) (fun result =>
    match result with
    | Ok _ => cret tt
    | Err e => ccatch (remove_file io skill_file) (fun _ => ccatch (remove_dir io directory) (fun _ => cpure (Err e)))
    end).

Definition remove_skill (skill_file : Path) (expected_sha256 : string) : Cli IntegrationError unit :=
  let* found := inspect_skill_digest skill_file in
  match found with
  | None =>
      match parent skill_file with
      | Some directory => fun w => if exists_path (cw_host w) directory then cmap_err IntIo (remove_dir io directory) w else (w, Ok tt)
      | None => cret tt
      end
  | Some actual =>
      if str_eqb actual expected_sha256 then
        cmap_err IntIo (remove_file io skill_file) ;*
        let* directory := cpure (ok_or (parent skill_file) IntStateDrift) in
        cmap_err IntIo (remove_dir io directory)
      else cpure (Err IntStateDrift)
  end.

End Operations.

(** * Lemmas *)

Section Lemmas.
Context {S C : Type}.
#[local] Abbreviation CliWorld := (CliWorld (S := S) (H := Machine C)).
#[local] Abbreviation Cli := (Cli (S := S) (H := Machine C)).
Context (env : ProviderEnv) (io : IoKind -> nat -> option (nat * string)) (skill : list Z).
Implicit Types w : CliWorld.
#[local] Abbreviation tree w := (mc_tree (cw_host w)).

Lemma parent_Some p d : parent p = Some d -> exists c, p = {| p_absolute := p_absolute d; p_components := p_components d ++ [c] |}.
Proof.
  unfold parent. destruct p as [a cs]. destruct cs as [|c0 cs0] using rev_ind; [done|]. clear IHcs0. cbn. rewrite removelast_last.
  destruct (cs0 ++ [c0]) as [|x l] eqn:E; [by destruct cs0|]. rewrite <- E. intros [= <-]. by exists c0.
Qed.

Lemma parent_join p name : parent (join p name) = Some p.
Proof. unfold parent, join. cbn. rewrite removelast_last. destruct (p_components p ++ [Normal name]) eqn:E; [by destruct (p_components p)|]. by destruct p. Qed.

Lemma join_located at_ name : join (located at_) name = located (at_ ++ [name]).
Proof. unfold join, located. cbn. by rewrite fmap_app. Qed.

(** Inspecting reads only; what it finds is a file with that digest. *)
Lemma inspect_skill_digest_inv p w w' r : inspect_skill_digest env io p w = (w', r) ->
  files_only w w' /\ tree w' = tree w /\
  match r with
  | Ok (Some d) => exists at_ mode bytes, locate (cw_host w) p = Ok at_ /\ node (tree w) at_ = Some (NFile mode bytes) /\ d = skill_digest env bytes /\ zlen bytes <= MAX_SKILL_BYTES
  | Ok None => locate (cw_host w) p = Err FsNotFound \/ exists at_, locate (cw_host w) p = Ok at_ /\ node (tree w) at_ = None
  | Err _ => True
  end.
Proof.
  unfold inspect_skill_digest, ccatch. destruct (symlink_metadata io p w) as [w1 r1] eqn:E1. apply symlink_metadata_inv in E1 as (Hf1 & Ht1 & Hr1).
  destruct r1 as [[|mode content|]|[]]; try (by intros [= <- <-]). destruct Hr1 as (at_ & Hl & Hn).
  intros [(w2 & u & Hp & Hk)|(e & Hp & ->)]%cbind_inv; [|by injection Hp as <- _]. injection Hp as <- Hp. destruct u. apply ensure_not_Ok, Z.ltb_ge in Hp.
  apply cbind_inv in Hk as [(w3 & bytes & Hb%cmap_err_Ok & Hk)|(e & Hb & ->)].
  2: { apply cmap_err_Err in Hb as (e0 & _ & Hb). apply read_file_inv in Hb as (Hf2 & Ht2 & _). split_and!; [by etransitivity|congruence|done]. }
  apply read_file_inv in Hb as (Hf2 & Ht2 & at2 & mode2 & content2 & Hr2 & Hn2 & Hbytes).
  apply cbind_inv in Hk as [(w4 & u2 & Hp2 & Hk)|(e & Hp2 & ->)]; [|injection Hp2 as <- _; split_and!; [by etransitivity|congruence|done]].
  injection Hp2 as <- _. injection Hk as <- <-. split_and!; [by etransitivity|congruence|].
  assert (resolve (cw_host w1) p = Ok at_) as Hr by (apply (locate_resolve _ _ _ mode content); [|by rewrite Ht1];
    destruct Hf1 as (_ & _ & Hc & _); unfold locate, resolve, starting in *; by rewrite Ht1, Hc).
  assert (at2 = at_) as -> by congruence. rewrite Ht1 in Hn2. assert (content2 = content) as -> by congruence.
  exists at_, mode, content. split_and!; [done..| |done]. rewrite Hbytes, take_ge; [done|]. unfold zlen in Hp. lia.
Qed.

(** What the closure of [install_skill] leaves. *)
Lemma write_skill_inv p d expected w w' r : parent p = Some (located d) -> real (tree w) d -> node (tree w) d = Some NDir ->
  write_skill env io skill p expected w = (w', r) -> files_only w w' /\
  ((tree w' = tree w /\ exists e, r = Err e) \/
   exists file bytes, p = located (d ++ [file]) /\ tree w !! (d ++ [file]) = None /\
     tree w' = <[d ++ [file] := NFile OWNER_FILE_MODE bytes]> (tree w) /\ (r = Ok tt -> bytes = skill)).
Proof.
  intros Hp Hreal Hd. unfold write_skill. intros [(w1 & at_ & Hc%cmap_err_Ok & Hk)|(e & Hc & ->)]%cbind_inv.
  2: { apply cmap_err_Err in Hc as (e0 & _ & Hc). unfold create_new in Hc. apply fs_change_inv in Hc as [Hf Hc]. split; [done|]. left. split; [|eauto].
       destruct Hc as [Hc|(n & x & _ & Ht & _)]; [|done]. destruct (locate (cw_host w) p) as [at1|]; [destruct (node (tree w) at1)|]; by injection Hc. }
  unfold create_new in Hc. apply fs_change_inv in Hc as [Hf [Hc|(n & x & _ & _ & Hx)]]; [|done].
  destruct (locate (cw_host w) p) as [at1|e] eqn:El; [|done]. destruct (node (tree w) at1) eqn:En; [done|]. injection Hc as Ht1 ->.
  destruct (parent_Some _ _ Hp) as [c Hpc]. cbn in Hpc.
  assert (Hfree : exists file, c = Normal file /\ at_ = d ++ [file]).
  { pose proof El as El'. apply locate_Ok in El' as [(dir & name & Hlast & _)|[_ Hr]].
    - rewrite Hpc in Hlast. cbn in Hlast. rewrite last_snoc in Hlast. injection Hlast as ->. exists name. split; [done|].
      assert (p = join (located d) name) as -> by done. rewrite locate_join, Hd in El by done. by injection El as <-.
    - exfalso. unfold resolve, starting in Hr. rewrite Hpc in Hr. cbn [p_absolute p_components] in Hr. apply walk_real in Hr; [|constructor]. by apply real_exists in Hr. }
  destruct Hfree as (file & -> & ->). rewrite node_snoc in En.
  assert (Hw : forall m w2 rw, write_all io (d ++ [file]) m w1 = (w2, rw) -> files_only w1 w2 /\ exists bytes,
    tree w2 = <[d ++ [file] := NFile OWNER_FILE_MODE bytes]> (tree w) /\ (forall u, rw = Ok u -> bytes = m)).
  { intros m w2 rw. unfold write_all. intros [Hf2 Hop]%on_tree_inv. split; [done|]. destruct Hop as [[= Ht2 <-]|(n & k & x & _ & Ht2 & ->)].
    - exists m. split; [|done]. rewrite <- Ht2, <- Ht1. by rewrite alter_insert_eq.
    - exists (take k m). split; [|done]. rewrite Ht2, <- Ht1. by rewrite alter_insert_eq. }
  assert (Hpl : p = located (d ++ [file])) by (rewrite <- join_located; done).
  apply cbind_inv in Hk as [(w2 & u & Hwr%cmap_err_Ok & Hk)|(e & Hwr & ->)].
  2: { apply cmap_err_Err in Hwr as (e0 & _ & Hwr). destruct (Hw _ _ _ Hwr) as (Hf2 & bytes & Ht2 & _). split; [by etransitivity|]. right. by exists file, bytes. }
  destruct (Hw _ _ _ Hwr) as (Hf2 & bytes & Ht2 & Hb). specialize (Hb _ eq_refl) as ->.
  assert (Hrest : files_only w2 w' /\ tree w' = tree w2).
  { apply cbind_inv in Hk as [(w3 & u3 & Hs%cmap_err_Ok & Hk)|(e & Hs & _)].
    2: { apply cmap_err_Err in Hs as (e0 & _ & Hs). unfold sync_all in Hs. apply fs_change_inv in Hs as [Hf3 [[= ? _]|(?&?&_&?&_)]]; done. }
    unfold sync_all in Hs. apply fs_change_inv in Hs as [Hf3 Hs]. assert (Ht3 : tree w3 = tree w2) by (destruct Hs as [[= ? _]|(?&?&_&?&_)]; done).
    apply cbind_inv in Hk as [(w4 & found & (Hf4 & Ht4 & _)%inspect_skill_digest_inv & Hk)|(e & (Hf4 & Ht4 & _)%inspect_skill_digest_inv & _)].
    - injection Hk as <- _. split; [by etransitivity|congruence].
    - split; [by etransitivity|congruence]. }
  destruct Hrest as [Hf3 Ht3]. split; [by do 2 (etransitivity; [done|])|]. right. exists file, skill. by rewrite Ht3, Ht2.
Qed.

(** A Skill in its own new directory of an existing one. *)
Record skill_place (t1 : Tree) (d : list string) (name : string) : Prop := {
  sp_wf : tree_wf t1;
  sp_real : real t1 d;
  sp_dir : node t1 d = Some NDir;
  sp_free : t1 !! (d ++ [name]) = None;
}.

Definition skill_at (t1 : Tree) (d : list string) (name file : string) (bytes : list Z) : Tree :=
  <[(d ++ [name]) ++ [file] := NFile OWNER_FILE_MODE bytes]> (<[d ++ [name] := NDir]> t1).

(** The course of [install_skill]. *)
Lemma install_skill_course p expected w w' r : tree_wf (tree w) -> install_skill env io skill p expected w = (w', r) ->
  (files_only w w' /\ adds_directories (tree w) (tree w') /\ exists e, r = Err e) \/
  exists t1 d name w1 w2 rw, adds_directories (tree w) t1 /\ skill_place t1 d name /\ files_only w w1 /\
    skill_digest env skill = expected /\ parent p = Some (located (d ++ [name])) /\ tree w1 = <[d ++ [name] := NDir]> t1 /\
    write_skill env io skill p expected w1 = (w2, rw) /\
    match rw with
    | Ok _ => w' = w2 /\ r = Ok tt
    | Err e => r = Err e /\ exists w3 r1 r2, remove_file io p w2 = (w3, r1) /\ remove_dir io (located (d ++ [name])) w3 = (w', r2)
    end.
Proof.
  intros Hwf. unfold install_skill. intros [(w0 & u0 & Hg & Hk)|(e & Hg & ->)]%cbind_inv; injection Hg as <- Hg; [|left; split_and!; [reflexivity|reflexivity|eauto]].
  destruct u0. apply ensure_not_Ok, negb_false_iff, str_eqb_eq in Hg.
  apply cbind_inv in Hk as [(w0 & directory & Hd & Hk)|(e & Hd & ->)]; injection Hd as <- Hd; [|left; split_and!; [reflexivity|reflexivity|eauto]]. apply ok_or_Ok in Hd.
  apply cbind_inv in Hk as [(w0 & root & Hr & Hk)|(e & Hr & ->)]; injection Hr as <- Hr; [|left; split_and!; [reflexivity|reflexivity|eauto]]. apply ok_or_Ok in Hr.
  apply cbind_inv in Hk as [(wa & ua & Ha%cmap_err_Ok & Hk)|(e & Ha & ->)]; [|apply cmap_err_Err in Ha as (e0 & _ & Ha)];
    unfold create_dir_all in Ha; apply create_dir_all_from_inv in Ha as (Hfa & Hadd & Hwfa); [|left; eauto].
  apply cbind_inv in Hk as [(wb & canonical & (Hfb & Htb & at_ & Hres & ->)%cmap_err_Ok%canonicalize_inv & Hk)|(e & Hb & ->)].
  2: { left. apply cmap_err_Err in Hb as (e0 & _ & Hb). apply canonicalize_inv in Hb as (Hfb & Htb & _). rewrite Htb. split_and!; [by etransitivity|done|eauto]. }
  apply cbind_inv in Hk as [(w0 & u0 & Hg2 & Hk)|(e & Hg2 & ->)]; injection Hg2 as <- Hg2; [|left; rewrite Htb; split_and!; [by etransitivity|done|eauto]].
  destruct u0. apply ensure_not_Ok, negb_false_iff, bool_decide_eq_true in Hg2 as <-.
  assert (Hreal : real (tree wa) at_) by (eapply walk_real; [|exact Hres]; constructor).
  apply cbind_inv in Hk as [(wc & nd & (Hfc & Htc & _)%cmap_err_Ok%symlink_metadata_inv & Hk)|(e & Hc & ->)].
  2: { left. apply cmap_err_Err in Hc as (e0 & _ & Hc). apply symlink_metadata_inv in Hc as (Hfc & Htc & _). rewrite Htc, Htb.
       split_and!; [by do 2 (etransitivity; [done|])|done|eauto]. }
  assert (Hfwc : files_only w wc) by (by do 2 (etransitivity; [done|])). assert (Htwc : tree wc = tree wa) by congruence.
  apply cbind_inv in Hk as [(w0 & u0 & Hg3 & Hk)|(e & Hg3 & ->)]; injection Hg3 as <- Hg3; [|left; rewrite Htwc; eauto].
  apply cbind_inv in Hk as [(wd & ud & Hcd%cmap_err_Ok & Hk)|(e & Hcd & ->)]; [|apply cmap_err_Err in Hcd as (e0 & _ & Hcd)];
    apply create_dir_inv in Hcd as [Hfd Hcd]; [|left; rewrite Hcd, Htwc; split_and!; [by etransitivity|done|eauto]].
  destruct Hcd as (at1 & Hl & Hn & Ht). destruct (parent_Some _ _ Hr) as [c ->]. cbn [p_absolute p_components located] in *.
  assert (Hfree : exists name, c = Normal name /\ at1 = at_ ++ [name] /\ node (tree wa) at_ = Some NDir).
  { rewrite Htwc in *. pose proof Hl as Hl'. apply locate_Ok in Hl' as [(dir & name & Hlast & _)|[_ Hr']].
    - cbn in Hlast. rewrite last_snoc in Hlast. injection Hlast as ->. exists name. split; [done|].
      change (locate (cw_host wc) (join (located at_) name) = Ok at1) in Hl. rewrite locate_join in Hl by (by rewrite Htwc).
      rewrite Htwc in Hl. destruct (is_dir_node _) eqn:Ed; [|done]. apply is_dir_node_true in Ed. by injection Hl as <-.
    - exfalso. unfold resolve, starting in Hr'. cbn [p_absolute p_components] in Hr'. rewrite Htwc in Hr'. apply walk_real in Hr'; [|constructor]. by apply real_exists in Hr'. }
  destruct Hfree as (name & -> & -> & Hdir). rewrite Htwc in *. rewrite node_snoc in Hn.
  change {| p_absolute := true; p_components := (Normal <$> at_) ++ [Normal name] |} with (join (located at_) name) in *. rewrite join_located in *.
  right. unfold ccatch in Hk. destruct (write_skill env io skill p expected wd) as [w2 rw] eqn:Ew.
  exists (tree wa), at_, name, wd, w2, rw. split_and!; try done.
  - constructor; try done. by apply Hwfa.
  - by etransitivity.
  - destruct rw as [u|e]; [by injection Hk as <- <-|]. destruct (remove_file io p w2) as [w3 r1] eqn:E3. destruct (remove_dir io _ w3) as [w4 r2] eqn:E4.
    injection Hk as <- <-. split; [done|]. exists w3, r1, r2. done.
Qed.

Lemma place_dir t1 d name : skill_place t1 d name -> t1 ⊆ <[d ++ [name] := NDir]> t1 /\ (forall rest, rest <> [] -> t1 !! ((d ++ [name]) ++ rest) = None).
Proof.
  intros [Hwf _ _ Hfree]. split; [by apply insert_subseteq|]. intros rest Hne. apply wf_below; [done| |done]. by destruct d.
Qed.

Lemma snoc_neq {A} (l : list A) x : l <> l ++ [x].
Proof. intros E. apply (f_equal length) in E. rewrite length_app in E. cbn in E. lia. Qed.

(** Removing the new directory. *)
Lemma remove_dir_placed t1 d name w w' r : skill_place t1 d name -> tree w = <[d ++ [name] := NDir]> t1 ->
  remove_dir io (located (d ++ [name])) w = (w', r) ->
  (r = Ok tt -> tree w' = t1) /\ ((forall n, io IoRemove n = None) -> r = Ok tt).
Proof.
  intros Hp Ht. destruct (place_dir _ _ _ Hp) as [Hsub Hbelow]. destruct Hp as [Hwf Hreal Hdir Hfree].
  assert (Hloc : locate (cw_host w) (located (d ++ [name])) = Ok (d ++ [name])).
  { rewrite <- join_located, locate_join, Ht by (rewrite Ht; by eapply real_weaken). by rewrite (node_weaken _ _ _ _ Hsub Hdir). }
  intros Hr. split.
  - intros ->. apply remove_dir_inv in Hr as (_ & at_ & Hl & _ & _ & _ & ->). assert (at_ = d ++ [name]) as -> by congruence. by rewrite Ht, delete_insert_id.
  - intros Hio. unfold remove_dir in Hr. apply fs_change_inv in Hr as [_ [Hr|(n & x & Hx & _)]]; [|by rewrite Hio in Hx].
    rewrite Hloc, node_snoc, Ht, lookup_insert_eq in Hr. rewrite bool_decide_eq_false_2 in Hr by (by destruct d).
    rewrite dir_empty_true in Hr; [by injection Hr as _ <-|]. intros rest Hne. rewrite lookup_insert_ne; [by apply Hbelow|].
    intros E. rewrite <- (app_nil_r (d ++ [name])) in E at 1. by apply app_inv_head in E.
Qed.

(** Removing the file in it. *)
Lemma remove_file_placed t1 d name file bytes w w' r : skill_place t1 d name -> tree w = skill_at t1 d name file bytes ->
  remove_file io (located ((d ++ [name]) ++ [file])) w = (w', r) ->
  (r = Ok tt -> tree w' = <[d ++ [name] := NDir]> t1) /\ ((forall n, io IoRemove n = None) -> r = Ok tt).
Proof.
  intros Hp Ht. destruct (place_dir _ _ _ Hp) as [Hsub Hbelow]. destruct Hp as [Hwf Hreal Hdir Hfree].
  assert (Hnone : <[d ++ [name] := NDir]> t1 !! ((d ++ [name]) ++ [file]) = None) by (rewrite lookup_insert_ne; [by apply Hbelow|apply snoc_neq]).
  assert (Hsub2 : <[d ++ [name] := NDir]> t1 ⊆ tree w) by (rewrite Ht; by apply insert_subseteq).
  assert (Hd : node (tree w) (d ++ [name]) = Some NDir) by (rewrite node_snoc; eapply lookup_weaken; [|exact Hsub2]; apply lookup_insert_eq).
  assert (Hr2 : real (tree w) (d ++ [name])).
  { eapply real_weaken; [exact Hsub2|]. apply (real_child _ _ _ NDir); [by eapply real_weaken|by eapply node_weaken|apply lookup_insert_eq|discriminate]. }
  assert (Hloc : locate (cw_host w) (located ((d ++ [name]) ++ [file])) = Ok ((d ++ [name]) ++ [file])) by (by rewrite <- join_located, locate_join, Hd).
  intros Hr. split.
  - intros ->. apply remove_file_inv in Hr as (_ & at_ & n & Hl & _ & _ & ->). assert (at_ = (d ++ [name]) ++ [file]) as -> by congruence. rewrite Ht.
    unfold skill_at. by apply delete_insert_id.
  - intros Hio. unfold remove_file in Hr. apply fs_change_inv in Hr as [_ [Hr|(n & x & Hx & _)]]; [|by rewrite Hio in Hx].
    rewrite Hloc, node_snoc, Ht in Hr. unfold skill_at in Hr. rewrite lookup_insert_eq in Hr. by injection Hr as _ <-.
Qed.

Lemma real_placed t1 d name : skill_place t1 d name -> real (<[d ++ [name] := NDir]> t1) (d ++ [name]).
Proof.
  intros Hp. destruct (place_dir _ _ _ Hp) as [Hsub _]. destruct Hp as [_ Hreal Hdir _].
  apply (real_child _ _ _ NDir); [by eapply real_weaken|by eapply node_weaken|apply lookup_insert_eq|discriminate].
Qed.

Lemma install_skill_files p expected w w' r : tree_wf (tree w) -> install_skill env io skill p expected w = (w', r) -> files_only w w'.
Proof.
  intros Hwf [(? & _)|(t1 & d & name & w1 & w2 & rw & _ & Hp & Hf & _ & Hpar & Ht & Hw & Hc)]%install_skill_course; [done| |done].
  apply (write_skill_inv p (d ++ [name])) in Hw as [Hf2 _]; [|done|by rewrite Ht; apply real_placed|by rewrite node_snoc, Ht, lookup_insert_eq].
  destruct rw; [destruct Hc as [-> _]; by etransitivity|]. destruct Hc as (_ & w3 & r1 & r2 & [Hf3 _]%remove_file_inv & [Hf4 _]%remove_dir_inv).
  by do 3 (etransitivity; [done|]).
Qed.

(** An installed Skill is the embedded one, new and private. *)
Lemma install_skill_ok p expected w w' : tree_wf (tree w) -> install_skill env io skill p expected w = (w', Ok tt) ->
  exists t1 d name file, adds_directories (tree w) t1 /\ skill_place t1 d name /\ p = located ((d ++ [name]) ++ [file]) /\
    tree w' = skill_at t1 d name file skill /\ skill_digest env skill = expected.
Proof.
  intros Hwf [(_ & _ & e & ?)|(t1 & d & name & w1 & w2 & rw & Ha & Hp & Hf & He & Hpar & Ht & Hw & Hc)]%install_skill_course; [done| |done].
  apply (write_skill_inv p (d ++ [name])) in Hw as [_ Hw]; [|done|by rewrite Ht; apply real_placed|by rewrite node_snoc, Ht, lookup_insert_eq].
  destruct rw as [[]|e]; [|by destruct Hc as [? _]]. destruct Hc as [-> _]. destruct Hw as [(_ & e & ?)|(file & bytes & -> & _ & Ht2 & Hb)]; [done|].
  rewrite (Hb eq_refl) in *. exists t1, d, name, file. split_and!; try done. rewrite Ht2, Ht. done.
Qed.

(** A failed installation leaves nothing but directories. *)
Lemma install_skill_failed p expected w w' e : (forall n, io IoRemove n = None) -> tree_wf (tree w) ->
  install_skill env io skill p expected w = (w', Err e) -> adds_directories (tree w) (tree w').
Proof.
  intros Hio Hwf [(_ & ? & _)|(t1 & d & name & w1 & w2 & rw & Ha & Hp & Hf & He & Hpar & Ht & Hw & Hc)]%install_skill_course; [done| |done].
  apply (write_skill_inv p (d ++ [name])) in Hw as [_ Hw]; [|done|by rewrite Ht; apply real_placed|by rewrite node_snoc, Ht, lookup_insert_eq].
  destruct rw as [[]|e1]; [by destruct Hc as [_ ?]|]. destruct Hc as (_ & w3 & r1 & r2 & Hrf & Hrd).
  assert (Ht3 : tree w3 = <[d ++ [name] := NDir]> t1).
  { destruct Hw as [(Ht2 & _)|(file & bytes & -> & _ & Ht2 & _)].
    - apply remove_file_inv in Hrf as [_ Hrf]. destruct r1; [|congruence]. destruct Hrf as (at_ & n & Hl & Hn & Hnd & _). exfalso.
      destruct (parent_Some _ _ Hpar) as [c Hpc]. cbn [p_absolute p_components located] in Hpc.
      assert (Hs : tree w2 = <[d ++ [name] := NDir]> t1) by congruence.
      destruct (place_dir _ _ _ Hp) as [_ Hbelow].
      destruct c as [| |file].
      1,2: apply locate_Ok in Hl as [(? & ? & Hlast & _)|[_ Hl]]; [rewrite Hpc in Hlast; cbn in Hlast; by rewrite last_snoc in Hlast|];
        unfold resolve, starting in Hl; rewrite Hpc in Hl; cbn [p_absolute p_components] in Hl; rewrite walk_real_from in Hl by (rewrite Hs; by apply real_placed);
        rewrite walk_eq, node_snoc, Hs, lookup_insert_eq in Hl; cbn [is_dir_node negb] in Hl; rewrite walk_eq in Hl; injection Hl as <-.
      + rewrite removelast_last, Hs in Hn. apply Hnd. destruct Hp as [_ _ Hdir Hfree].
        assert (Some n = Some NDir) as [= ->]; [|done]. rewrite <- Hn. eapply node_weaken; [by apply insert_subseteq|done].
      + apply Hnd. rewrite node_snoc, Hs, lookup_insert_eq in Hn. by injection Hn as <-.
      + assert (p = join (located (d ++ [name])) file) as -> by done. rewrite locate_join in Hl by (rewrite Hs; by apply real_placed).
        destruct (is_dir_node _); [|done]. injection Hl as <-. rewrite node_snoc, Hs, lookup_insert_ne in Hn by apply snoc_neq. by rewrite Hbelow in Hn.
    - destruct (remove_file_placed t1 d name file bytes w2 w3 r1 Hp) as [Hok Hres]; [rewrite Ht2, Ht; done|done|]. by apply Hok, Hres. }
  destruct (remove_dir_placed t1 d name w3 w' r2 Hp Ht3 Hrd) as [Hok Hres]. by rewrite Hok by (by apply Hres).
Qed.

(** Removing an installed Skill undoes the installation, directories above it
    apart. *)
Lemma remove_skill_placed t1 d name file expected w w' : skill_place t1 d name -> tree w = skill_at t1 d name file skill ->
  remove_skill env io (located ((d ++ [name]) ++ [file])) expected w = (w', Ok tt) -> tree w' = t1.
Proof.
  intros Hp Ht. unfold remove_skill. intros (w1 & found & (Hf & Ht1 & Hfound)%inspect_skill_digest_inv & Hk)%cbind_Ok.
  destruct found as [actual|].
  - destruct (str_eqb actual expected); [|done]. apply cbind_Ok in Hk as (w2 & [] & Hrf%cmap_err_Ok & Hk).
    rewrite <- join_located, parent_join in Hk. apply cbind_Ok in Hk as (w3 & dir & Hd & Hk). injection Hd as <- <-. apply cmap_err_Ok in Hk.
    destruct (remove_file_placed t1 d name file skill w1 w2 (Ok tt) Hp) as [Hok _]; [congruence|done|].
    destruct (remove_dir_placed t1 d name w2 w' (Ok tt) Hp) as [Hok2 _]; [by apply Hok|done|]. by apply Hok2.
  - exfalso. destruct (place_dir _ _ _ Hp) as [Hsub Hbelow].
    assert (Hnone : <[d ++ [name] := NDir]> t1 !! ((d ++ [name]) ++ [file]) = None) by (rewrite lookup_insert_ne; [by apply Hbelow|apply snoc_neq]).
    assert (Hsub2 : <[d ++ [name] := NDir]> t1 ⊆ tree w) by (rewrite Ht; by apply insert_subseteq).
    assert (Hd : node (tree w) (d ++ [name]) = Some NDir) by (rewrite node_snoc; eapply lookup_weaken; [|exact Hsub2]; apply lookup_insert_eq).
    rewrite <- join_located, locate_join, Hd in Hfound by (eapply real_weaken; [exact Hsub2|by apply real_placed]). cbn [is_dir_node] in Hfound.
    destruct Hfound as [?|(at_ & [= <-] & Hn)]; [done|]. rewrite node_snoc, Ht in Hn. unfold skill_at in Hn. by rewrite lookup_insert_eq in Hn.
Qed.

(** Only directories and files with the expected digest go. *)
Definition removes_skill (t t' : Tree) (at_ : option (list string)) (expected : string) : Prop :=
  t' ⊆ t /\ (forall l n, t !! l = Some n -> t' !! l = Some n \/ n = NDir \/
    exists mode bytes, at_ = Some l /\ n = NFile mode bytes /\ skill_digest env bytes = expected).

Lemma removes_refl t at_ expected : removes_skill t t at_ expected.
Proof. split; [done|auto]. Qed.

Lemma delete_sub (t : Tree) l : delete l t ⊆ t.
Proof. apply delete_subseteq. Qed.

Lemma delete_removes t l0 at_ expected : (forall n, t !! l0 = Some n -> n = NDir \/ exists mode bytes, at_ = Some l0 /\ n = NFile mode bytes /\ skill_digest env bytes = expected) ->
  removes_skill t (delete l0 t) at_ expected.
Proof.
  intros Hl0. split; [apply delete_sub|]. intros l n Hl. destruct (decide (l = l0)) as [->|Hne]; [right; by apply Hl0|left]. by rewrite lookup_delete_ne.
Qed.

Lemma removes_trans a b c at_ expected : removes_skill a b at_ expected -> removes_skill b c at_ expected -> removes_skill a c at_ expected.
Proof.
  intros [H1 H2] [H3 H4]. split; [by etransitivity|]. intros l n Hl. destruct (H2 _ _ Hl) as [Hb|?]; [by apply H4|by right].
Qed.

Definition located_at (m : Machine C) (p : Path) : option (list string) := match locate m p with Ok at_ => Some at_ | Err _ => None end.

(** There is nothing at a path. *)
Definition vacant (m : Machine C) (p : Path) : Prop := forall at_, locate m p = Ok at_ -> node (mc_tree m) at_ = None.

Lemma vacant_weaken (m m' : Machine C) p : mc_tree m' ⊆ mc_tree m -> mc_cwd m' = mc_cwd m -> vacant m p -> vacant m' p.
Proof.
  intros Hs Hc Hv at_ Hl. destruct (node (mc_tree m') at_) eqn:E; [|done]. apply (node_weaken _ _ _ _ Hs) in E. rewrite Hv in E; [done|].
  by eapply locate_weaken.
Qed.

Lemma files_only_cwd w w' : files_only w w' -> mc_cwd (cw_host w') = mc_cwd (cw_host w).
Proof. by intros (_ & _ & ? & _). Qed.

Lemma locate_same (m m' : Machine C) p : mc_tree m' = mc_tree m -> mc_cwd m' = mc_cwd m -> locate m' p = locate m p.
Proof. intros Ht Hc. unfold locate, resolve, starting. by rewrite Ht, Hc. Qed.

(** What [remove_skill] does in every case. *)
Lemma remove_skill_inv p expected w w' r : remove_skill env io p expected w = (w', r) -> files_only w w' /\
  removes_skill (tree w) (tree w') (located_at (cw_host w) p) expected /\ (r = Ok tt -> vacant (cw_host w') p).
Proof.
  unfold remove_skill. intros [(w1 & found & (Hf & Ht & Hfound)%inspect_skill_digest_inv & Hk)|(e & (Hf & Ht & _)%inspect_skill_digest_inv & ->)]%cbind_inv;
    [|rewrite Ht; split_and!; [done|apply removes_refl|done]].
  pose proof (files_only_cwd _ _ Hf) as Hcwd. pose proof (locate_same _ _ p Ht Hcwd) as Hloc. destruct found as [actual|].
  - destruct (str_eqb actual expected) eqn:Ea; [apply str_eqb_eq in Ea as ->|injection Hk as <- <-; rewrite Ht; split_and!; [done|apply removes_refl|done]].
    destruct Hfound as (at_ & mode & bytes & Hl & Hn & Hd & _). unfold located_at. rewrite Hl. rewrite Hl in Hloc.
    apply cbind_inv in Hk as [(w2 & [] & Hrf%cmap_err_Ok & Hk)|(e & Hrf & ->)].
    2: { apply cmap_err_Err in Hrf as (e0 & _ & Hrf). apply remove_file_inv in Hrf as [Hf2 Ht2]. rewrite Ht2, Ht. split_and!; [exact (transitivity Hf Hf2)|apply removes_refl|discriminate]. }
    apply remove_file_inv in Hrf as (Hf2 & at2 & n2 & Hl2 & _ & _ & Ht2). assert (at2 = at_) as -> by congruence.
    assert (Hrem : removes_skill (tree w) (tree w2) (Some at_) expected).
    { rewrite Ht2, Ht. apply delete_removes. intros n Hn'. right. exists mode, bytes. split_and!; [done| |done].
      destruct at_ as [|x at_]; [done|]. cbn in Hn. congruence. }
    pose proof (files_only_cwd _ _ Hf2) as Hcwd2.
    assert (Hvac : vacant (cw_host w2) p).
    { intros at3 Hl3. assert (Hs : tree w2 ⊆ tree w1) by (rewrite Ht2; apply delete_sub).
      apply (locate_weaken (cw_host w2) (cw_host w1)) in Hl3; [|done|done]. assert (at3 = at_) as -> by congruence.
      rewrite Ht2. destruct at_ as [|x at_]; [done|]. cbn. apply lookup_delete_eq. }
    apply cbind_inv in Hk as [(w3 & dir & Hp & Hk)|(e & Hp & ->)]; injection Hp as <- _; [|split_and!; [by etransitivity|done|done]].
    destruct r as [[]|e]; [apply cmap_err_Ok in Hk|apply cmap_err_Err in Hk as (e0 & _ & Hk)]; apply remove_dir_inv in Hk as [Hf3 Hk].
    + destruct Hk as (at3 & _ & _ & Hdir & _ & Ht3). split_and!; [exact (transitivity Hf (transitivity Hf2 Hf3))| |intros _].
      * eapply removes_trans; [exact Hrem|]. rewrite Ht3. apply delete_removes. intros n Hn'. left. congruence.
      * eapply vacant_weaken; [rewrite Ht3; apply delete_sub|by eapply files_only_cwd|done].
    + rewrite Hk. split_and!; [exact (transitivity Hf (transitivity Hf2 Hf3))|exact Hrem|discriminate].
  - assert (Hvac : vacant (cw_host w1) p).
    { intros at_ Hl. rewrite Hloc in Hl. rewrite Ht. destruct Hfound as [?|(at2 & Hl2 & ?)]; [congruence|]. by assert (at2 = at_) as <- by congruence. }
    destruct (parent p) as [directory|]; [|injection Hk as <- <-; rewrite Ht; split_and!; [done|apply removes_refl|done]].
    destruct (exists_path (cw_host w1) directory); [|injection Hk as <- <-; rewrite Ht; split_and!; [done|apply removes_refl|done]].
    destruct r as [[]|e]; [apply cmap_err_Ok in Hk|apply cmap_err_Err in Hk as (e0 & _ & Hk)]; apply remove_dir_inv in Hk as [Hf3 Hk].
    + destruct Hk as (at3 & _ & _ & Hdir & _ & Ht3). split_and!; [by etransitivity| |intros _].
      * rewrite Ht3, Ht. apply delete_removes. intros n Hn'. left. congruence.
      * eapply vacant_weaken; [rewrite Ht3; apply delete_sub|by eapply files_only_cwd|done].
    + rewrite Hk, Ht. split_and!; [exact (transitivity Hf Hf3)|apply removes_refl|discriminate].
Qed.
End Lemmas.
