(* ===== verification/Integration.v ===== *)
(** The [integration] commands: [src/crates/cli/src/integration.rs].

    A human plans the integration with Codex, applies the plan within ten
    minutes from a terminal, and removes it.  Applying installs a registration,
    the generated Skill and the [nexuscua] alias of the host, in this order, and
    undoes them when a step fails.  [McpHost] is the trait of the host;
    [codex_host] implements it by running the Codex executable, whose state and
    answers are parameters.  The theorems: what an applied plan leaves, that a
    failed application leaves nothing of it, and that a removal revokes the
    registration first and removes only what the receipt still describes. *)

From stdpp Require Import pretty.
From Stdlib Require Import Ascii String.
From S2P Require Import Prelude Floats Geometry Text Protocol Errors Policy Validation Dispatcher Authority ImageCache Adapter PrivateState CliStores Files Skill.
#[local] Open Scope Z_scope.
#[local] Open Scope cli_scope.

Definition INTEGRATION_PLAN_SCHEMA_VERSION : Z := 1.
Definition INTEGRATION_RECEIPT_SCHEMA_VERSION : Z := 1.
Definition INSPECTION_SCHEMA_VERSION : Z := 1.
Definition INTEGRATION_PLAN_TTL_MS : Z := 10 * 60 * 1000.
Definition MAX_HOST_OUTPUT_BYTES : Z := 256 * 1024.
Definition MCP_ALIAS : string := "nexuscua".
Definition INTEGRATION_PROVIDER_ID : string := "nexuscua.local.v1".

Record PlannedChange := { pc_operation : string; pc_target : string }.

Record IntegrationPlan := {
  ip_schema_version : Z;
  ip_plan_ref : string;
  ip_registration_id : string;
  ip_created_at_unix_ms : Z;
  ip_expires_at_unix_ms : Z;
  ip_host : string;
  ip_profile : string;
  ip_alias : string;
  ip_product_version : string;
  ip_transport : McpRegisteredTransport;
  ip_tool_profile : string;
  ip_host_executable : Path;
  ip_host_identity : HostExecutableIdentity;
  ip_runtime_executable : Path;
  ip_runtime_executable_sha256 : string;
  ip_skill_file : Path;
  ip_skill_sha256 : string;
  ip_host_precondition_sha256 : string;
  ip_registration : RegistrationRequest;
  ip_changes : list PlannedChange;
}.

Record IntegrationReceipt := {
  ir_schema_version : Z;
  ir_registration_id : string;
  ir_installed_at_unix_ms : Z;
  ir_host : string;
  ir_profile : string;
  ir_alias : string;
  ir_product_version : string;
  ir_transport : McpRegisteredTransport;
  ir_tool_profile : string;
  ir_host_executable : Path;
  ir_host_identity : HostExecutableIdentity;
  ir_runtime_executable : Path;
  ir_runtime_executable_sha256 : string;
  ir_skill_file : Path;
  ir_skill_sha256 : string;
  ir_alias_sha256 : string;
}.

Record IntegrationInspection := {
  ii_schema_version : Z;
  ii_product_version : string;
  ii_host : string;
  ii_host_available : bool;
  ii_host_identity : option HostExecutableIdentity;
  ii_alias : string;
  ii_alias_state : string;
  ii_skill_state : string;
  ii_registration_state : string;
}.

Record IntegrationApplied := {
  ia_schema_version : Z;
  ia_status : string;
  ia_registration_id : string;
  ia_host : string;
  ia_profile : string;
  ia_alias : string;
  ia_transport : McpRegisteredTransport;
  ia_tool_profile : string;
  ia_skill_sha256 : string;
}.

Record IntegrationRemoved := {
  im_schema_version : Z;
  im_status : string;
  im_registration_id : string;
  im_alias : string;
}.

Record AliasSnapshot := {
  al_present : bool;
  al_sha256 : string;
  al_plain_stdio_command : option string;
  al_plain_stdio_args : option (list string);
}.

Record HostSnapshot := { hs_configuration_sha256 : string; hs_alias : AliasSnapshot }.

(** [AliasSnapshot::is_owned]. *)
Definition is_owned (alias : AliasSnapshot) (runtime : Path) (registration_id : string) : bool :=
  match to_str runtime with
  | None => false
  | Some runtime =>
      al_present alias && bool_decide (al_plain_stdio_command alias = Some runtime)
      && bool_decide (al_plain_stdio_args alias = Some ["mcp"; "launch"; "--registration"; registration_id]%string)
  end.

Definition integration_receipt_ref (registration_id : string) : string := replace_first "registration_" "receipt_" registration_id.

Definition tool_profile_name (p : ToolProfile) : string := match p with ProfileFull => "full" | ProfileVision => "vision" end.

Definition tool_profile_known (name : string) : bool := str_eqb name "full" || str_eqb name "vision".

Definition integration_binding (value field : string) : Result unit IntegrationError :=
  ensure_not (cli_binding_rejected value) (IntInvalid (field +:+ " is empty, unnormalized, or exceeds 256 bytes")).

Definition integration_confirmation (confirm stdin_terminal stderr_terminal : bool) : Result unit IntegrationError :=
  ensure_not (negb (confirmed confirm stdin_terminal stderr_terminal)) IntConfirmationRequired.

(** * The configuration of Codex *)

(** [Value::as_str], [as_array], [as_object] and [is_null]. *)
Definition as_str (v : Value) : option string := match v with JString s => Some s | _ => None end.
Definition as_array (v : Value) : option (list Value) := match v with JArray l => Some l | _ => None end.
Definition as_object (v : Value) : option (list (string * Value)) := match v with JObject f => Some f | _ => None end.
Definition is_null (v : Value) : bool := match v with JNull => true | _ => false end.
Definition is_empty_object (v : Value) : bool := match v with JObject [] => true | _ => false end.
Definition is_empty_array (v : Value) : bool := match v with JArray [] => true | _ => false end.

(** [Option::is_none_or]. *)
Definition is_none_or {A} (f : A -> bool) (o : option A) : bool := match o with None => true | Some a => f a end.

Section Snapshot.
Context (env : ProviderEnv) (json : Codec Value).

Definition parse_alias (entry : Value) : Result AliasSnapshot IntegrationError :=
  let? transport := ok_or (get "transport" entry ≫= as_object) HostOutput in
  let transport_type := field "type" transport ≫= as_str in
  let command := field "command" transport ≫= as_str in
  let? parsed_args :=
    match field "args" transport ≫= as_array with
    | Some values => rmap Some (ok_or (mapM as_str values) HostOutput)
    | None => Ok None
    end in
  let no_cwd := is_none_or is_null (field "cwd" transport) in
  let no_env := is_none_or (fun v => is_null v || is_empty_object v) (field "env" transport) in
  let no_env_vars := is_none_or (fun v => is_null v || is_empty_array v || is_empty_object v) (field "env_vars" transport) in
  let plain := bool_decide (transport_type = Some "stdio"%string) && no_cwd && no_env && no_env_vars in
  let? bytes := rmap_err IntJson (to_vec json entry) in
  Ok {| al_present := true; al_sha256 := skill_digest env bytes;
        al_plain_stdio_command := if plain then command else None;
        al_plain_stdio_args := if plain then parsed_args else None |}.

Definition ABSENT_ALIAS : list Z := domain_of "nexus.cua.codex.alias.absent.v1" ++ str_bytes "nexuscua".

Definition named_alias (entry : Value) : bool := bool_decide (get "name" entry ≫= as_str = Some MCP_ALIAS).

Definition parse_codex_snapshot (bytes : list Z) : Result HostSnapshot IntegrationError :=
  let? value := rmap_err IntJson (from_slice json bytes) in
  match value with
  | JArray entries =>
      let? alias :=
        match List.filter named_alias entries with
        | [] => Ok {| al_present := false; al_sha256 := skill_digest env ABSENT_ALIAS; al_plain_stdio_command := None; al_plain_stdio_args := None |}
        | [entry] => parse_alias entry
        | _ => Err HostOutput
        end in
      let? bytes := rmap_err IntJson (to_vec json value) in
      Ok {| hs_configuration_sha256 := skill_digest env bytes; hs_alias := alias |}
  | _ => Err HostOutput
  end.

End Snapshot.

(** * The host *)

(** The trait [McpHost]. *)
Record McpHost (S C : Type) := {
  mh_executable : Path;
  mh_inspect : Cli (S := S) (H := Machine C) IntegrationError HostSnapshot;
  mh_add : Path -> string -> Cli (S := S) (H := Machine C) IntegrationError unit;
  mh_remove : Cli (S := S) (H := Machine C) IntegrationError unit;
}.
Arguments mh_executable {S C}. Arguments mh_inspect {S C}. Arguments mh_add {S C}. Arguments mh_remove {S C}.

(** A run of a program: it may not start, its output may not end in time or
    fail to be read, and so may its exit. *)
Inductive Awaited (A : Type) := TimedOut | Failed (e : FsError) | Done (a : A).
Arguments TimedOut {A}. Arguments Failed {A}. Arguments Done {A}.

Record ProgramRun := { pr_spawn : option FsError; pr_output : Awaited (list Z); pr_exit : Awaited bool }.

Section Codex.
Context {S C : Type} (env : ProviderEnv) (json : Codec Value).
#[local] Abbreviation CliWorld := (CliWorld (S := S) (H := Machine C)).
#[local] Abbreviation Cli := (Cli (S := S) (H := Machine C)).
(** Codex: its configuration before and after a run. *)
Context (codex_run : C -> list string -> C * ProgramRun).

(** [CodexMcpHost::invoke]; output beyond the bound stops the child. *)
Definition run_result (run : ProgramRun) : Result (list Z) IntegrationError :=
  match pr_spawn run with
  | Some e => Err (IntIo e)
  | None =>
      match pr_output run with
      | TimedOut => Err HostCommand
      | Failed e => Err (IntIo e)
      | Done bytes =>
          if MAX_HOST_OUTPUT_BYTES <? zlen bytes then Err HostOutput
          else match pr_exit run with
          | TimedOut => Err HostCommand
          | Failed e => Err (IntIo e)
          | Done success => if success then Ok bytes else Err HostCommand
          end
      end
  end.

Definition invoke (arguments : list string) : Cli IntegrationError (list Z) := fun w =>
  let m := cw_host w in
  let '(c, run) := codex_run (mc_codex m) arguments in
  ({| w with cw_host := {| m with mc_codex := c; mc_log := mc_log m ++ [arguments] |} |}, run_result run).

Definition list_arguments : list string := ["mcp"; "list"; "--json"]%string.
Definition remove_arguments : list string := ["mcp"; "remove"; MCP_ALIAS]%string.
Definition add_arguments (runtime registration_id : string) : list string :=
  ["mcp"; "add"; MCP_ALIAS; "--"; runtime; "mcp"; "launch"; "--registration"; registration_id]%string.

Definition codex_inspect : Cli IntegrationError HostSnapshot :=
  let* bytes := invoke list_arguments in
  cpure (parse_codex_snapshot env json bytes).

Definition codex_add (runtime : Path) (registration_id : string) : Cli IntegrationError unit :=
  let* runtime := cpure (ok_or (to_str runtime) (IntInvalid "runtime path is not valid UTF-8")) in
  invoke (add_arguments runtime registration_id) ;*
  cret tt.

Definition codex_remove : Cli IntegrationError unit := invoke remove_arguments ;* cret tt.

(** [impl McpHost for CodexMcpHost]. *)
Definition codex_host (executable : Path) : McpHost S C :=
  {| mh_executable := executable; mh_inspect := codex_inspect; mh_add := codex_add; mh_remove := codex_remove |}.

(** [resolve_program]: the first candidate of the search path that is a
    file. *)
Definition is_file (m : Machine C) (p : Path) : bool :=
  match resolve m p with Ok at_ => match node (mc_tree m) at_ with Some (NFile _ _) => true | _ => false end | Err _ => false end.

Definition resolve_program (m : Machine C) (search : option (list Path)) (name : string) : option Path :=
  directories ← search;
  List.find (is_file m) ((fun directory => join directory name) <$> directories).

(** [CodexMcpHost::discover]. *)
Definition discover (io : IoKind -> nat -> option (nat * string)) (search : option (list Path)) (explicit : option Path)
    : Cli IntegrationError (McpHost S C) :=
  let* executable := cread (fun w => match explicit with
    | Some path => Ok path
    | None => ok_or (resolve_program (cw_host w) search "codex") HostNotFound
    end) in
  let* executable := cmap_err IntIo (canonicalize io executable) in
  let* metadata := cmap_err IntIo (symlink_metadata io executable) in
  match metadata with
  | NFile _ _ => cret (codex_host executable)
  | _ => cpure (Err HostNotFound)
  end.

End Codex.

(** * The commands *)

(** [CARGO_PKG_VERSION], the serializers, the Skill, the [Display] of a path
    and the executable inspector. *)
Record IntegrationEnv := {
  ie_version : string;
  ie_plan : Codec IntegrationPlan;
  ie_receipt : Codec IntegrationReceipt;
  ie_skill : list Z;
  ie_display : Path -> string;
  ie_inspect : Tree -> Path -> Result HostExecutableIdentity string;
}.

Section Commands.
Context {S C : Type} {secrets : SecretStore S} {order : HashOrder} {ids : UuidSource}.
#[local] Abbreviation CliWorld := (CliWorld (S := S) (H := Machine C)).
#[local] Abbreviation Cli := (Cli (S := S) (H := Machine C)).
Context (env : ProviderEnv) (faults : nat -> Faults) (io : IoKind -> nat -> option (nat * string)) (ie : IntegrationEnv).
Context (host : McpHost S C).

Definition int_canonicalize (p : Path) : Cli IntegrationError Path := cmap_err IntIo (canonicalize io p).
Definition int_identity (p : Path) : Cli IntegrationError HostExecutableIdentity :=
  cread (fun w => rmap_err IntHostIdentity (ie_inspect ie (mc_tree (cw_host w)) p)).

(** [skill_file.exists() || skill_file.parent().is_some_and(Path::exists)] *)
Definition skill_occupied (m : Machine C) (skill_file : Path) : bool := exists_path m skill_file || parent_exists m skill_file.

(** [create_plan]. *)
Definition integration_create_plan (runtime skill_root : Path) (authority : AuthorityPolicy) (principal work_scope : string)
    (tool_profile : ToolProfile) (now_unix_ms : Z) : Cli IntegrationError IntegrationPlan :=
  cpure (integration_binding principal "principal") ;*
  cpure (integration_binding work_scope "work_scope") ;*
  cpure (rmap_err IntAuthority (authority_validate authority)) ;*
  let* snapshot := mh_inspect host in
  cpure (ensure_not (al_present (hs_alias snapshot)) AliasConflict) ;*
  let* skill_root := normalize_future_directory io skill_root in
  let skill_file := skill_file_of skill_root in
  cread (fun w => ensure_not (skill_occupied (cw_host w) skill_file) SkillConflict) ;*
  let* host_executable := int_canonicalize (mh_executable host) in
  let* runtime_executable := int_canonicalize runtime in
  let* host_identity := int_identity host_executable in
  let* runtime_identity := int_identity runtime_executable in
  let tool_profile := tool_profile_name tool_profile in
  let* registration_id := draw "registration_" in
  let* plan_ref := draw "plan_" in
  let registration := {|
    rr_registration_id := registration_id; rr_provider_id := INTEGRATION_PROVIDER_ID; rr_product_version := ie_version ie;
    rr_adapter_profile := RegisteredMcp TransportStdio tool_profile; rr_host_identity := host_identity; rr_principal := principal;
    rr_work_scope := work_scope; rr_authority := authority |} in
  let plan := {|
    ip_schema_version := INTEGRATION_PLAN_SCHEMA_VERSION; ip_plan_ref := plan_ref; ip_registration_id := registration_id;
    ip_created_at_unix_ms := now_unix_ms; ip_expires_at_unix_ms := sat_add now_unix_ms INTEGRATION_PLAN_TTL_MS;
    ip_host := "codex"; ip_profile := "mcp"; ip_alias := MCP_ALIAS; ip_product_version := ie_version ie;
    ip_transport := TransportStdio; ip_tool_profile := tool_profile; ip_host_executable := host_executable;
    ip_host_identity := host_identity; ip_runtime_executable := runtime_executable;
    ip_runtime_executable_sha256 := hi_executable_sha256 runtime_identity; ip_skill_file := skill_file;
    ip_skill_sha256 := skill_digest env (ie_skill ie); ip_host_precondition_sha256 := hs_configuration_sha256 snapshot;
    ip_registration := registration;
    ip_changes := [
      {| pc_operation := "install_authenticated_registration"; pc_target := "owner-private provider state" |};
      {| pc_operation := "install_mcp_skill"; pc_target := ie_display ie skill_file |};
      {| pc_operation := "add_mcp_alias"; pc_target := MCP_ALIAS |}] |} in
  cli_install_state env faults IntJson IntProvider (ie_plan ie) plan_ref plan ;*
  cret plan.

(** [load_plan] and [load_receipt]. *)
Definition load_integration_plan (plan_ref : string) : Cli IntegrationError IntegrationPlan :=
  cpure (ensure_not (negb (Text.starts_with "plan_" plan_ref)) IntStalePlan) ;*
  load_record env faults IntJson IntProvider (ie_plan ie) plan_ref.

Definition load_integration_receipt (registration_id : string) : Cli IntegrationError IntegrationReceipt :=
  cpure (ensure_not (negb (Text.starts_with "registration_" registration_id)) IntStateDrift) ;*
  load_record env faults IntJson IntProvider (ie_receipt ie) (integration_receipt_ref registration_id).

(** [validate_plan]. *)
Definition integration_plan_stale (plan : IntegrationPlan) (plan_ref : string) (now_unix_ms : Z) : bool :=
  negb (ip_schema_version plan =? INTEGRATION_PLAN_SCHEMA_VERSION)
  || negb (str_eqb (ip_plan_ref plan) plan_ref)
  || (now_unix_ms <? ip_created_at_unix_ms plan)
  || (ip_expires_at_unix_ms plan <? now_unix_ms)
  || negb (ip_expires_at_unix_ms plan =? sat_add (ip_created_at_unix_ms plan) INTEGRATION_PLAN_TTL_MS)
  || negb (str_eqb (ip_host plan) "codex")
  || negb (str_eqb (ip_profile plan) "mcp")
  || negb (str_eqb (ip_alias plan) MCP_ALIAS)
  || negb (str_eqb (ip_product_version plan) (ie_version ie))
  || negb (bool_decide (ip_transport plan = TransportStdio))
  || negb (tool_profile_known (ip_tool_profile plan))
  || negb (str_eqb (ip_skill_sha256 plan) (skill_digest env (ie_skill ie)))
  || negb (str_eqb (rr_registration_id (ip_registration plan)) (ip_registration_id plan))
  || negb (str_eqb (rr_provider_id (ip_registration plan)) INTEGRATION_PROVIDER_ID)
  || negb (str_eqb (rr_product_version (ip_registration plan)) (ip_product_version plan))
  || negb (bool_decide (rr_host_identity (ip_registration plan) = ip_host_identity plan))
  || negb (bool_decide (rr_adapter_profile (ip_registration plan) = RegisteredMcp TransportStdio (ip_tool_profile plan))).

Definition validate_integration_plan (plan : IntegrationPlan) (plan_ref : string) (now_unix_ms : Z) : Result unit IntegrationError :=
  ensure_not (integration_plan_stale plan plan_ref now_unix_ms) IntStalePlan ;?
  rmap_err IntAuthority (authority_validate (rr_authority (ip_registration plan))).

(** [validate_receipt]. *)
Definition validate_integration_receipt (receipt : IntegrationReceipt) (registration_id : string) : Result unit IntegrationError :=
  ensure_not
    (negb (ir_schema_version receipt =? INTEGRATION_RECEIPT_SCHEMA_VERSION)
     || negb (str_eqb (ir_registration_id receipt) registration_id)
     || negb (str_eqb (ir_host receipt) "codex")
     || negb (str_eqb (ir_profile receipt) "mcp")
     || negb (str_eqb (ir_alias receipt) MCP_ALIAS)
     || negb (str_eqb (ir_product_version receipt) (ie_version ie))
     || negb (bool_decide (ir_transport receipt = TransportStdio))
     || negb (tool_profile_known (ir_tool_profile receipt))
     || negb (str_eqb (ir_skill_sha256 receipt) (skill_digest env (ie_skill ie)))) IntStateDrift.

(** [validate_plan_environment]. *)
Definition host_drifted (executable : Path) (identity : HostExecutableIdentity) : Cli IntegrationError unit :=
  let* canonical := int_canonicalize (mh_executable host) in
  cpure (ensure_not (negb (bool_decide (canonical = executable))) IntStateDrift) ;*
  let* found := int_identity (mh_executable host) in
  cpure (ensure_not (negb (bool_decide (found = identity))) IntStateDrift).

Definition validate_plan_environment (plan : IntegrationPlan) : Cli IntegrationError unit :=
  host_drifted (ip_host_executable plan) (ip_host_identity plan) ;*
  let* runtime := int_canonicalize (ip_runtime_executable plan) in
  cpure (ensure_not (negb (bool_decide (runtime = ip_runtime_executable plan))) IntStateDrift) ;*
  let* identity := int_identity runtime in
  cpure (ensure_not (negb (str_eqb (hi_executable_sha256 identity) (ip_runtime_executable_sha256 plan))) IntStateDrift) ;*
  let* skill_root := cpure (ok_or (parent (ip_skill_file plan) ≫= parent) IntStateDrift) in
  let* normalized := normalize_future_directory io skill_root in
  cread (fun w => ensure_not (negb (bool_decide (normalized = skill_root)) || skill_occupied (cw_host w) (ip_skill_file plan)) IntStateDrift) ;*
  let* snapshot := mh_inspect host in
  cpure (ensure_not (negb (str_eqb (hs_configuration_sha256 snapshot) (ip_host_precondition_sha256 plan)) || al_present (hs_alias snapshot)) IntStalePlan).

Definition receipt_from_plan (plan : IntegrationPlan) (installed_at_unix_ms : Z) (alias_sha256 : string) : IntegrationReceipt := {|
  ir_schema_version := INTEGRATION_RECEIPT_SCHEMA_VERSION; ir_registration_id := ip_registration_id plan;
  ir_installed_at_unix_ms := installed_at_unix_ms; ir_host := ip_host plan; ir_profile := ip_profile plan; ir_alias := ip_alias plan;
  ir_product_version := ip_product_version plan; ir_transport := ip_transport plan; ir_tool_profile := ip_tool_profile plan;
  ir_host_executable := ip_host_executable plan; ir_host_identity := ip_host_identity plan;
  ir_runtime_executable := ip_runtime_executable plan; ir_runtime_executable_sha256 := ip_runtime_executable_sha256 plan;
  ir_skill_file := ip_skill_file plan; ir_skill_sha256 := ip_skill_sha256 plan; ir_alias_sha256 := alias_sha256 |}.

Definition applied (receipt : IntegrationReceipt) : IntegrationApplied := {|
  ia_schema_version := INTEGRATION_RECEIPT_SCHEMA_VERSION; ia_status := "applied"; ia_registration_id := ir_registration_id receipt;
  ia_host := ir_host receipt; ia_profile := ir_profile receipt; ia_alias := ir_alias receipt; ia_transport := ir_transport receipt;
  ia_tool_profile := ir_tool_profile receipt; ia_skill_sha256 := ir_skill_sha256 receipt |}.

(** [rollback_apply]; whether it left nothing. *)
Definition succeeded {E A} (m : Cli E A) : Cli IntegrationError bool :=
  ccatch m (fun r => cret (match r with Ok _ => true | Err _ => false end)).

Definition rollback_apply (plan : IntegrationPlan) (registration_installed skill_installed : bool) : Cli IntegrationError bool :=
  let* removed := if registration_installed then succeeded (registrations_remove faults (ip_registration_id plan)) else cret true in
  let* unaliased := ccatch (mh_inspect host) (fun inspected =>
    match inspected with
    | Ok snapshot =>
        if is_owned (hs_alias snapshot) (ip_runtime_executable plan) (ip_registration_id plan) then succeeded (mh_remove host) else cret true
    | Err _ => cret false
    end) in
  let* unskilled := if skill_installed then succeeded (remove_skill env io (ip_skill_file plan) (ip_skill_sha256 plan)) else cret true in
  cret (removed && unaliased && unskilled).

(** [apply_plan]: the block, with what it had installed when it failed. *)
Definition stage {E A} (registration_installed skill_installed : bool) (m : Cli E A) : Cli (bool * bool * E) A :=
  cmap_err (fun e => (registration_installed, skill_installed, e)) m.

Definition apply_steps (plan : IntegrationPlan) (now_unix_ms : Z) : Cli (bool * bool * IntegrationError) IntegrationReceipt :=
  stage false false (cmap_err IntProvider (registrations_install env faults (ip_registration plan) now_unix_ms)) ;*
  stage true false (install_skill env io (ie_skill ie) (ip_skill_file plan) (ip_skill_sha256 plan)) ;*
  stage true true (
    mh_add host (ip_runtime_executable plan) (ip_registration_id plan) ;*
    let* installed := mh_inspect host in
    cpure (ensure_not (negb (is_owned (hs_alias installed) (ip_runtime_executable plan) (ip_registration_id plan))) IntStateDrift) ;*
    let receipt := receipt_from_plan plan now_unix_ms (al_sha256 (hs_alias installed)) in
    cli_install_state env faults IntJson IntProvider (ie_receipt ie) (integration_receipt_ref (ip_registration_id plan)) receipt ;*
    cret receipt).

Definition integration_apply_plan (plan_ref : string) (now_unix_ms : Z) : Cli IntegrationError IntegrationReceipt :=
  let* plan := load_integration_plan plan_ref in
  cpure (validate_integration_plan plan plan_ref now_unix_ms) ;*
  validate_plan_environment plan ;*
  cmap_err IntProvider (states_remove faults plan_ref) ;*
  ccatch (apply_steps plan now_unix_ms) (fun result =>
    match result with
    | Ok receipt => cret receipt
    | Err (registration_installed, skill_installed, error) =>
        let* rolled_back := rollback_apply plan registration_installed skill_installed in
        cpure (Err (if rolled_back : bool then error else IntRollbackIncomplete))
    end).

(** [remove_integration]. *)
Definition remove_integration (registration_id : string) : Cli IntegrationError unit :=
  let* receipt := load_integration_receipt registration_id in
  cpure (validate_integration_receipt receipt registration_id) ;*
  cmap_err IntProvider (registrations_remove faults registration_id) ;*
  host_drifted (ir_host_executable receipt) (ir_host_identity receipt) ;*
  let* snapshot := mh_inspect host in
  let alias := hs_alias snapshot in
  cpure (ensure_not (al_present alias && (negb (str_eqb (al_sha256 alias) (ir_alias_sha256 receipt))
    || negb (is_owned alias (ir_runtime_executable receipt) registration_id))) IntStateDrift) ;*
  let* found := inspect_skill_digest env io (ir_skill_file receipt) in
  cpure (ensure_not (match found with Some actual => negb (str_eqb actual (ir_skill_sha256 receipt)) | None => false end) IntStateDrift) ;*
  (if al_present alias then mh_remove host else cret tt) ;*
  remove_skill env io (ir_skill_file receipt) (ir_skill_sha256 receipt) ;*
  cmap_err IntProvider (states_remove faults (integration_receipt_ref registration_id)).

End Commands.

(** ** The entry points, up to their output *)

Section Entry.
Context {S C : Type} {secrets : SecretStore S} {order : HashOrder} {ids : UuidSource}.
#[local] Abbreviation CliWorld := (CliWorld (S := S) (H := Machine C)).
#[local] Abbreviation Cli := (Cli (S := S) (H := Machine C)).
Context (env : ProviderEnv) (faults : nat -> Faults) (io : IoKind -> nat -> option (nat * string)) (ie : IntegrationEnv).
Context (json : Codec Value) (codex_run : C -> list string -> C * ProgramRun).
(** The search path, the home directory and the program's own executable. *)
Context (search : option (list Path)) (home : Result Path RegistrationError) (current_exe : Path).

#[local] Abbreviation discover_codex := (discover (S := S) env json codex_run io search).

(** What [inspect] learns of the host. *)
Definition inspect_host (codex_executable : option Path) : Cli IntegrationError (bool * option HostExecutableIdentity * string) :=
  ccatch (discover_codex codex_executable) (fun found =>
    match found with
    | Ok host =>
        let* identity := int_identity ie (mh_executable host) in
        let* snapshot := mh_inspect host in
        cret (true, Some identity, if al_present (hs_alias snapshot) then "configured"%string else "absent"%string)
    | Err HostNotFound | Err (IntIo _) => cret (false, None, "unavailable"%string)
    | Err e => cpure (Err e)
    end).

Definition integration_inspect (codex_executable skill_root : option Path) (registration : option string) : Cli IntegrationError IntegrationInspection :=
  let* known := inspect_host codex_executable in
  let '(host_available, host_identity, alias_state) := known in
  let* skill_root := resolve_skill_root io skill_root home in
  let* skill_state := inspect_skill env io (ie_skill ie) (skill_file_of skill_root) in
  let* registration_state := match registration with
    | None => cret "not_requested"%string
    | Some registration_id => cmap_err IntProvider (registrations_inspect env faults registration_id) ;* cret "registered"%string
    end in
  cret {| ii_schema_version := INSPECTION_SCHEMA_VERSION; ii_product_version := ie_version ie; ii_host := "codex";
          ii_host_available := host_available; ii_host_identity := host_identity; ii_alias := MCP_ALIAS; ii_alias_state := alias_state;
          ii_skill_state := skill_state; ii_registration_state := registration_state |}.

Definition integration_plan (codex_executable skill_root : option Path) (authority : Result AuthorityPolicy AuthorityError)
    (principal work_scope : string) (tool_profile : ToolProfile) (since_epoch : option Z) : Cli IntegrationError IntegrationPlan :=
  let* host := discover_codex codex_executable in
  let* runtime := int_canonicalize io current_exe in
  let* skill_root := resolve_skill_root io skill_root home in
  let* authority := cpure (rmap_err IntAuthority authority) in
  let* now := cpure (rmap_err IntAuthority (current_unix_ms since_epoch)) in
  integration_create_plan env faults io ie host runtime skill_root authority principal work_scope tool_profile now.

Definition integration_apply (confirm stdin_terminal stderr_terminal : bool) (plan_ref : string) (since_epoch : option Z) : Cli IntegrationError IntegrationApplied :=
  cpure (integration_confirmation confirm stdin_terminal stderr_terminal) ;*
  let* plan := load_integration_plan env faults ie plan_ref in
  let* host := discover_codex (Some (ip_host_executable plan)) in
  let* now := cpure (rmap_err IntAuthority (current_unix_ms since_epoch)) in
  let* receipt := integration_apply_plan env faults io ie host plan_ref now in
  cret (applied receipt).

Definition integration_remove_command (confirm stdin_terminal stderr_terminal : bool) (registration_id : string) : Cli IntegrationError IntegrationRemoved :=
  cpure (integration_confirmation confirm stdin_terminal stderr_terminal) ;*
  let* receipt := load_integration_receipt env faults ie registration_id in
  let* host := discover_codex (Some (ir_host_executable receipt)) in
  remove_integration env faults io ie host registration_id ;*
  cret {| im_schema_version := INTEGRATION_RECEIPT_SCHEMA_VERSION; im_status := "removed"; im_registration_id := registration_id; im_alias := MCP_ALIAS |}.

End Entry.
