(* ===== verification/IntegrationProps.v ===== *)
(** What the [integration] commands of [Integration] guarantee.

    The theorems are proved against [HostContract], what the commands rely on
    of an [McpHost]; [codex_contract] discharges it for [codex_host] from what
    [codex mcp list] and [codex mcp remove] promise. *)

From stdpp Require Import pretty.
From Stdlib Require Import Ascii String.
From S2P Require Import Prelude Floats Geometry Text Protocol Errors Policy Validation Dispatcher Authority ImageCache Adapter PrivateState CliStores Files Skill Integration.
#[local] Open Scope Z_scope.
#[local] Open Scope cli_scope.

Section Frames.
Context {S C : Type} {secrets : SecretStore S} {order : HashOrder}.
#[local] Abbreviation CliWorld := (CliWorld (S := S) (H := Machine C)).
#[local] Abbreviation Cli := (Cli (S := S) (H := Machine C)).
Implicit Types w : CliWorld.
#[local] Abbreviation tree w := (mc_tree (cw_host w)).
#[local] Abbreviation codex w := (mc_codex (cw_host w)).

(** Only the host's configuration may change. *)
Definition host_only w w' : Prop :=
  cw_states w' = cw_states w /\ cw_registrations w' = cw_registrations w /\ tree w' = tree w /\ mc_cwd (cw_host w') = mc_cwd (cw_host w).

(** Nothing changes but counters and the log. *)
Definition inspecting w w' : Prop := host_only w w' /\ codex w' = codex w.

#[export] Instance host_only_preorder : PreOrder host_only.
Proof. split; [by intros w|]. unfold host_only. intros a b c. intuition congruence. Qed.
#[export] Instance inspecting_preorder : PreOrder inspecting.
Proof. split; [by intros w|]. intros a b c [H1 E1] [H2 E2]. split; [by etransitivity|congruence]. Qed.

(** What the commands rely on of a host: [view] is what an inspection answers
    in a configuration; inspecting changes none, and after a removal that
    succeeded the alias is absent. *)
Class HostContract (host : McpHost S C) (view : C -> Result HostSnapshot IntegrationError) := {
  hc_inspect : forall w w' r, mh_inspect host w = (w', r) -> inspecting w w' /\ r = view (codex w);
  hc_add : forall runtime id w w' r, mh_add host runtime id w = (w', r) -> host_only w w';
  hc_remove : forall w w' r, mh_remove host w = (w', r) -> host_only w w' /\
    (r = Ok tt -> forall s, view (codex w') = Ok s -> al_present (hs_alias s) = false);
}.

Definition reads_only {E A} (m : Cli E A) : Prop := forall w w' r, m w = (w', r) -> inspecting w w'.

Lemma reads_pure {E A} (r : Result A E) : reads_only (cpure r).
Proof. by intros w w' r' [= <- _]. Qed.
Lemma reads_ret {E A} (a : A) : reads_only (E := E) (cret a).
Proof. by intros w w' r' [= <- _]. Qed.
Lemma reads_read {E A} (f : CliWorld -> Result A E) : reads_only (cread f).
Proof. by intros w w' r' [= <- _]. Qed.
Lemma reads_map_err {E F A} (f : E -> F) (m : Cli E A) : reads_only m -> reads_only (cmap_err f m).
Proof. intros Hm w w' r. unfold cmap_err. destruct (m w) as [w1 r1] eqn:E1. intros [= <- _]. by eapply Hm. Qed.
Lemma reads_bind {E A B} (m : Cli E A) (k : A -> Cli E B) : reads_only m -> (forall a, reads_only (k a)) -> reads_only (cbind m k).
Proof. intros Hm Hk w w' r [(w1 & a & H1 & H2)|(e & H1 & _)]%cbind_inv; [etransitivity; [by eapply Hm|by eapply Hk]|by eapply Hm]. Qed.
Lemma reads_catch {E F A B} (m : Cli E A) (k : Result A E -> Cli F B) : reads_only m -> (forall a, reads_only (k a)) -> reads_only (ccatch m k).
Proof. intros Hm Hk w w' r. unfold ccatch. destruct (m w) as [w1 r1] eqn:E1. intros H2. etransitivity; [by eapply Hm|by eapply Hk]. Qed.

Lemma files_inspecting w w' : files_only w w' -> tree w' = tree w -> inspecting w w'.
Proof. intros (? & ? & ? & ? & _) ?. done. Qed.

Context (env : ProviderEnv) (faults : nat -> Faults) (io : IoKind -> nat -> option (nat * string)) (ie : IntegrationEnv).

Lemma reads_fs {A} (op : Machine C -> Result A FsError) : reads_only (fs_read io op).
Proof. intros w w' r (Hf & Ht & _)%fs_read_inv. by apply files_inspecting. Qed.

Lemma reads_inspect_digest p : reads_only (inspect_skill_digest env io p).
Proof. intros w w' r (Hf & Ht & _)%inspect_skill_digest_inv. by apply files_inspecting. Qed.

Context (host : McpHost S C) (view : C -> Result HostSnapshot IntegrationError) {contract : HostContract host view}.

Lemma reads_host_inspect : reads_only (mh_inspect host).
Proof. by intros w w' r [? _]%hc_inspect. Qed.
End Frames.

Create HintDb reads.
#[export] Hint Resolve reads_pure reads_ret reads_read reads_map_err reads_bind reads_catch reads_fs reads_inspect_digest reads_host_inspect : reads.

(** Reading computations, by their structure. *)
Ltac reads :=
  repeat match goal with
  | |- forall _, _ => intros ?
  | |- reads_only (match ?x with _ => _ end) => destruct x
  | |- reads_only (let '(_, _) := ?x in _) => destruct x
  | _ => first [apply reads_pure | apply reads_ret | apply reads_read | apply reads_map_err | apply reads_bind | apply reads_catch
               | apply reads_fs | apply reads_inspect_digest | eapply reads_host_inspect; eassumption | solve [eauto with reads]]
  end.

Section Course.
Context {S C : Type} {secrets : SecretStore S} {order : HashOrder} {lawful : LawfulSecrets S}.
#[local] Abbreviation CliWorld := (CliWorld (S := S) (H := Machine C)).
#[local] Abbreviation Cli := (Cli (S := S) (H := Machine C)).
Implicit Types w : CliWorld.
#[local] Abbreviation tree w := (mc_tree (cw_host w)).
#[local] Abbreviation codex w := (mc_codex (cw_host w)).
Context (env : ProviderEnv) (faults : nat -> Faults) (io : IoKind -> nat -> option (nat * string)) (ie : IntegrationEnv).
Context (host : McpHost S C) (view : C -> Result HostSnapshot IntegrationError) {contract : HostContract host view}.

Lemma host_drifted_reads executable identity : reads_only (host_drifted io ie host executable identity).
Proof. unfold host_drifted, int_canonicalize, int_identity, canonicalize. reads. Qed.

Lemma normalize_reads p : reads_only (S := S) (C := C) (normalize_future_directory io p).
Proof. unfold normalize_future_directory, symlink_metadata, canonicalize. reads. Qed.

Lemma environment_reads plan : reads_only (validate_plan_environment io ie host plan).
Proof.
  unfold validate_plan_environment, int_canonicalize, int_identity, canonicalize. apply reads_bind; [apply host_drifted_reads|intros _].
  apply reads_bind; [reads|intros runtime]. apply reads_bind; [reads|intros _]. apply reads_bind; [reads|intros identity].
  apply reads_bind; [reads|intros _]. apply reads_bind; [reads|intros root]. apply reads_bind; [apply normalize_reads|intros normalized]. reads.
Qed.

(** ** Applying *)

Lemma load_plan_frame plan_ref w w' r : load_integration_plan env faults ie plan_ref w = (w', r) ->
  cw_registrations w' = cw_registrations w /\ cw_host w' = cw_host w.
Proof.
  unfold load_integration_plan. intros [(w1 & u & Hp & Hl)|(e & Hp & _)]%cbind_inv; [|by injection Hp as <- _]. injection Hp as <- _.
  split; [by eapply load_record_registrations|]. by apply load_record_quiet in Hl as (_ & _ & ?).
Qed.

(** The course of [apply_plan]. *)
Lemma integration_apply_course plan_ref now w w' r : integration_apply_plan env faults io ie host plan_ref now w = (w', r) ->
  ((exists e, r = Err e) /\ cw_registrations w' = cw_registrations w /\ tree w' = tree w /\ codex w' = codex w) \/
  exists plan w0 w1 w2 w3 rs, load_integration_plan env faults ie plan_ref w = (w0, Ok plan) /\
    validate_integration_plan env ie plan plan_ref now = Ok tt /\ validate_plan_environment io ie host plan w0 = (w1, Ok tt) /\
    states_remove faults plan_ref w1 = (w2, Ok tt) /\
    cw_registrations w2 = cw_registrations w /\ tree w2 = tree w /\ codex w2 = codex w /\
    apply_steps env faults io ie host plan now w2 = (w3, rs) /\
    match rs with
    | Ok receipt => w' = w3 /\ r = Ok receipt
    | Err (ri, si, e) => exists clean : bool, rollback_apply env faults io host plan ri si w3 = (w', Ok clean) /\ r = Err (if clean then e else IntRollbackIncomplete)
    end.
Proof.
  unfold integration_apply_plan. intros [(w0 & plan & Hl & Hk)|(e & Hl & ->)]%cbind_inv; destruct (load_plan_frame _ _ _ _ Hl) as [Hr0 Hh0];
    [|left; rewrite Hh0; eauto].
  apply cbind_inv in Hk as [(wx & u & Hv & Hk)|(e & Hv & ->)]; injection Hv as <- Hv; [destruct u|left; rewrite Hh0; eauto].
  apply cbind_inv in Hk as [(w1 & [] & He & Hk)|(e & He & ->)]; destruct (environment_reads plan _ _ _ He) as [(Hs1 & Hr1 & Ht1 & _) Hc1].
  2: { left. rewrite Ht1, Hc1, Hr1, Hh0. eauto. }
  apply cbind_inv in Hk as [(w2 & [] & Hs%cmap_err_Ok & Hk)|(e & Hs & ->)].
  2: { left. apply cmap_err_Err in Hs as (e0 & _ & Hs). unfold states_remove in Hs. apply on_states_inv in Hs as (_ & Hr2 & Hh2). rewrite Hh2, Hr2, Ht1, Hc1, Hr1, Hh0. eauto. }
  right. pose proof Hs as Hs'. unfold states_remove in Hs'. apply on_states_inv in Hs' as (_ & Hr2 & Hh2). unfold ccatch in Hk.
  destruct (apply_steps env faults io ie host plan now w2) as [w3 rs] eqn:Ea. exists plan, w0, w1, w2, w3, rs.
  do 4 (split; [done|]). split; [congruence|]. split; [by rewrite Hh2, Ht1, Hh0|]. split; [by rewrite Hh2, Hc1, Hh0|]. split; [done|]. destruct rs as [receipt|[[ri si] e]]; [by injection Hk as <- <-|].
  apply cbind_inv in Hk as [(w4 & clean & Hb & Hk)|(e' & Hb & ->)].
  - injection Hk as <- <-. eauto.
  - exfalso. unfold rollback_apply in Hb.
    apply cbind_inv in Hb as [(? & ? & _ & Hb)|(? & Hb & _)]; [|destruct ri; [unfold succeeded, ccatch in Hb; by destruct (registrations_remove _ _ _)|done]].
    apply cbind_inv in Hb as [(? & ? & _ & Hb)|(? & Hb & _)].
    + apply cbind_inv in Hb as [(? & ? & _ & Hb)|(? & Hb & _)]; [done|]. destruct si; [unfold succeeded, ccatch in Hb; by destruct (remove_skill _ _ _ _ _)|done].
    + unfold ccatch in Hb. destruct (mh_inspect host _) as [? [s|?]]; [|done]. destruct (is_owned _ _ _); [|done].
      unfold succeeded, ccatch in Hb. by destruct (mh_remove host _).
Qed.

(** The steps of the block. *)
Lemma apply_steps_course plan now w w' rs : tree_wf (tree w) -> apply_steps env faults io ie host plan now w = (w', rs) ->
  exists wa ra, registrations_install env faults (ip_registration plan) now w = (wa, ra) /\
  match ra with
  | Err e => w' = wa /\ rs = Err (false, false, IntProvider e)
  | Ok _ => exists wb rb, install_skill env io (ie_skill ie) (ip_skill_file plan) (ip_skill_sha256 plan) wa = (wb, rb) /\ files_only wa wb /\
      match rb with
      | Err e => w' = wb /\ rs = Err (true, false, e)
      | Ok _ => cw_registrations w' = cw_registrations wb /\ tree w' = tree wb /\
          match rs with
          | Err (ri, si, _) => ri = true /\ si = true
          | Ok receipt => exists wd s, view (codex w') = Ok s /\ is_owned (hs_alias s) (ip_runtime_executable plan) (ip_registration_id plan) = true /\
              receipt = receipt_from_plan plan now (al_sha256 (hs_alias s)) /\ cw_states wd = cw_states wb /\
              cli_install_state env faults IntJson IntProvider (ie_receipt ie) (integration_receipt_ref (ip_registration_id plan)) receipt wd = (w', Ok tt)
          end
      end
  end.
Proof.
  intros Hwf. unfold apply_steps. intros [(wa & s & Ha%cmap_err_Ok%cmap_err_Ok & Hk)|(e & Ha & ->)]%cbind_inv.
  2: { apply cmap_err_Err in Ha as (e0 & -> & Ha). apply cmap_err_Err in Ha as (e1 & -> & Ha). exists w', (Err e1). done. }
  exists wa, (Ok s). split; [done|]. unfold registrations_install in Ha. apply on_registrations_inv in Ha as (_ & _ & Hh).
  apply cbind_inv in Hk as [(wb & [] & Hb%cmap_err_Ok & Hk)|(e & Hb & ->)].
  2: { apply cmap_err_Err in Hb as (e0 & -> & Hb). exists w', (Err e0). split_and!; try done. eapply install_skill_files; [|done]. by rewrite Hh. }
  exists wb, (Ok tt). split; [done|]. split; [eapply install_skill_files; [|done]; by rewrite Hh|].
  assert (Hmap : exists r0, (mh_add host (ip_runtime_executable plan) (ip_registration_id plan) ;*
    let* installed := mh_inspect host in
    cpure (ensure_not (negb (is_owned (hs_alias installed) (ip_runtime_executable plan) (ip_registration_id plan))) IntStateDrift) ;*
    let receipt := receipt_from_plan plan now (al_sha256 (hs_alias installed)) in
    cli_install_state env faults IntJson IntProvider (ie_receipt ie) (integration_receipt_ref (ip_registration_id plan)) receipt ;*
    cret receipt) wb = (w', r0) /\ rs = rmap_err (fun e => (true, true, e)) r0).
  { unfold stage, cmap_err in Hk. match type of Hk with (let '(_, _) := ?m in _) = _ => destruct m as [w9 r9] eqn:E9 end. injection Hk as <- <-. eauto. }
  clear Hk. destruct Hmap as (r0 & Hk & ->).
  apply cbind_inv in Hk as [(wc & u & Hadd%hc_add & Hk)|(e & Hadd%hc_add & ->)]; destruct Hadd as (Hsc & Hrc & Htc & _); [|by split_and!].
  apply cbind_inv in Hk as [(wd & snap & Hin & Hk)|(e & Hin & ->)]; pose proof (hc_inspect _ _ _ Hin) as [[(Hsd & Hrd & Htd & _) Hcd] Hview]; [|by split_and!; try congruence].
  apply cbind_inv in Hk as [(we & u2 & Ho & Hk)|(e & Ho & ->)]; injection Ho as <- Ho; [destruct u2|by split_and!; try congruence].
  apply ensure_not_Ok, negb_false_iff in Ho.
  apply cbind_inv in Hk as [(we & [] & Hi & Hk)|(e & Hi & ->)]; destruct (install_state_registrations _ _ _ _ _ _ _ _ _ _ Hi) as [Hri Hhi].
  - injection Hk as <- <-. split_and!; [congruence|rewrite Hhi; congruence|]. exists wd, snap. split_and!; try done; [rewrite Hhi; congruence|congruence].
  - by split_and!; [congruence|rewrite Hhi; congruence|].
Qed.

Lemma succeeded_true {E A} (m : Cli E A) w w' : succeeded m w = (w', Ok true) -> exists a, m w = (w', Ok a).
Proof. unfold succeeded, ccatch. destruct (m w) as [w1 [a|e]]; intros [= <-]; eauto. Qed.

Lemma succeeded_inv {E A} (m : Cli E A) w w' b : succeeded m w = (w', Ok b) -> exists r, m w = (w', r).
Proof. unfold succeeded, ccatch. destruct (m w) as [w1 r]. intros [= <- _]. eauto. Qed.

(** A rollback that reports success undid every step. *)
Lemma rollback_clean plan ri si w w' : rollback_apply env faults io host plan ri si w = (w', Ok true) ->
  (if ri : bool then exists w1, registrations_remove faults (ip_registration_id plan) w = (w1, Ok tt) /\ cw_registrations w' = cw_registrations w1
   else cw_registrations w' = cw_registrations w) /\
  (forall s, view (codex w') = Ok s -> is_owned (hs_alias s) (ip_runtime_executable plan) (ip_registration_id plan) = false) /\
  (if si : bool then exists w1, tree w1 = tree w /\ remove_skill env io (ip_skill_file plan) (ip_skill_sha256 plan) w1 = (w', Ok tt) else tree w' = tree w).
Proof.
  unfold rollback_apply. intros (w1 & removed & H1 & Hk)%cbind_Ok. apply cbind_Ok in Hk as (w2 & unaliased & H2 & Hk).
  apply cbind_Ok in Hk as (w3 & unskilled & H3 & Hk). injection Hk as <- Hand. apply andb_true_iff in Hand as [Hand ->]. apply andb_true_iff in Hand as [-> ->].
  assert (Hw1 : (if ri then registrations_remove faults (ip_registration_id plan) w = (w1, Ok tt) else w1 = w) /\ tree w1 = tree w).
  { destruct ri; [|by injection H1 as <-]. apply succeeded_true in H1 as [[] H1]. split; [done|].
    unfold registrations_remove in H1. apply on_registrations_inv in H1 as (_ & _ & ->). done. }
  destruct Hw1 as [Hw1 Ht1].
  assert (Hw2 : cw_registrations w2 = cw_registrations w1 /\ tree w2 = tree w1 /\
    (forall s, view (codex w2) = Ok s -> is_owned (hs_alias s) (ip_runtime_executable plan) (ip_registration_id plan) = false)).
  { unfold ccatch in H2. destruct (mh_inspect host w1) as [wi [s|e]] eqn:Ei; [|done]. apply hc_inspect in Ei as [[(_ & Hr & Ht & _) Hc] Hv].
    destruct (is_owned _ _ _) eqn:Eo.
    - apply succeeded_true in H2 as [[] H2]. apply hc_remove in H2 as [(_ & Hr2 & Ht2 & _) Hgone]. split_and!; [congruence..|].
      intros s' Hs'. apply Hgone in Hs'; [|done]. unfold is_owned. destruct (to_str _); [|done]. by rewrite Hs'.
    - injection H2 as <-. split_and!; [done..|]. intros s' Hs'. rewrite Hc, <- Hv in Hs'. by injection Hs' as <-. }
  destruct Hw2 as (Hr2 & Ht2 & Hv2). destruct si.
  - apply succeeded_true in H3 as [[] H3]. pose proof (remove_skill_inv _ _ _ _ _ _ _ H3) as ((_ & Hr3 & _ & Hc3 & _) & _). split_and!.
    + destruct ri; [exists w1; split; [done|congruence]|congruence].
    + by rewrite Hc3.
    + exists w2. split; [congruence|done].
  - injection H3 as <-. split_and!; [|done|congruence]. destruct ri; [exists w1; split; [done|congruence]|congruence].
Qed.

Lemma valid_plan_facts plan plan_ref now : validate_integration_plan env ie plan plan_ref now = Ok tt -> 0 <= now <= U64_MAX ->
  rr_registration_id (ip_registration plan) = ip_registration_id plan /\ rr_host_identity (ip_registration plan) = ip_host_identity plan /\
  ip_created_at_unix_ms plan <= now <= ip_created_at_unix_ms plan + INTEGRATION_PLAN_TTL_MS.
Proof.
  intros Hv Hnow. unfold validate_integration_plan in Hv. apply rbind_unit_Ok in Hv as [Hv _]. apply ensure_not_Ok in Hv.
  unfold integration_plan_stale in Hv. rewrite !orb_false_iff, !negb_false_iff, !str_eqb_eq, !Z.ltb_ge, !Z.eqb_eq, !bool_decide_eq_true in Hv.
  destruct Hv as ((((((((((((((((_ & _) & Hc) & He) & Hx) & _) & _) & _) & _) & _) & _) & _) & Hid) & _) & _) & Hh) & _).
  split_and!; try done. unfold sat_add in Hx. lia.
Qed.



(** ** Removing *)

Lemma load_integration_receipt_frame id w w' r : load_integration_receipt env faults ie id w = (w', r) ->
  cw_registrations w' = cw_registrations w /\ cw_host w' = cw_host w.
Proof.
  unfold load_integration_receipt. intros [(w1 & u & Hp & Hl)|(e & Hp & _)]%cbind_inv; [|by injection Hp as <- _]. injection Hp as <- _.
  split; [by eapply load_record_registrations|]. by apply load_record_quiet in Hl as (_ & _ & ?).
Qed.

(** The end of [remove_integration], after the checks. *)
Lemma remove_tail (present : bool) p expected ref w w' r :
  ((if present then mh_remove host else cret tt) ;*
   remove_skill env io p expected ;*
   cmap_err IntProvider (states_remove faults ref)) w = (w', r) ->
  cw_registrations w' = cw_registrations w /\ removes_skill env (tree w) (tree w') (located_at (cw_host w) p) expected /\
  (present = false -> codex w' = codex w) /\
  (r = Ok tt -> vacant (cw_host w') p /\ (validate_registration_id ref = Ok tt -> st_disk (cw_states w') !! state_file ref = None) /\
    (present = true -> forall s, view (codex w') = Ok s -> al_present (hs_alias s) = false)).
Proof.
  intros Hk.
  assert (Hh : forall w1 rh, (if present then mh_remove host else cret tt) w = (w1, rh) -> host_only w w1 /\ (present = false -> codex w1 = codex w) /\
    (present = true -> rh = Ok tt -> forall s, view (codex w1) = Ok s -> al_present (hs_alias s) = false)).
  { intros w1 rh. destruct present; [intros [? ?]%hc_remove; split_and!; auto; discriminate|intros [= <- _]]. split_and!; [done|done|discriminate]. }
  apply cbind_inv in Hk as [(w1 & [] & H1%Hh & Hk)|(e & H1%Hh & ->)]; destruct H1 as ((Hs1 & Hr1 & Ht1 & Hcwd) & Hc1 & Hg1).
  2: { rewrite Ht1. split; [done|]. split; [apply removes_refl|]. split; [exact Hc1|discriminate]. }
  assert (Hloc : located_at (cw_host w1) p = located_at (cw_host w) p) by (unfold located_at; by rewrite (locate_same _ _ p Ht1 Hcwd)).
  apply cbind_inv in Hk as [(w2 & [] & H2 & Hk)|(e & H2 & ->)]; apply remove_skill_inv in H2 as ((Hs2 & Hr2 & _ & Hc2 & _) & Hrem & Hvac); rewrite Hloc, Ht1 in Hrem.
  2: { split_and!; [congruence|exact Hrem|rewrite Hc2; exact Hc1|discriminate]. }
  assert (H3 : exists r3, states_remove faults ref w2 = (w', r3) /\ (r = Ok tt -> r3 = Ok tt)).
  { destruct r as [[]|e]; [apply cmap_err_Ok in Hk; eauto|apply cmap_err_Err in Hk as (e0 & _ & Hk); exists (Err e0); split; [done|discriminate]]. }
  destruct H3 as (r3 & H3 & Hr3). pose proof H3 as H3'. unfold states_remove in H3'. apply on_states_inv in H3' as (_ & Hr3' & Hh3). rewrite Hh3.
  split_and!; [congruence|exact Hrem|rewrite Hc2; exact Hc1|]. intros Hok. split_and!; [by apply Hvac| |rewrite Hc2; intros Hp; by apply Hg1].
  intros Hidv. rewrite (Hr3 Hok) in H3. by apply states_remove_ok in H3 as [? _].
Qed.

(** Removing a registration whose receipt loaded. *)
Lemma removed_registration id w w' : registrations_remove faults id w = (w', Ok tt) ->
  (forall p, ~ authentic env (cw_registrations w') id p) /\
  (forall id' p, id' <> id -> authentic env (cw_registrations w') id' p <-> authentic env (cw_registrations w) id' p).
Proof.
  intros Hr. assert (Hidv : validate_registration_id id = Ok tt).
  { pose proof Hr as Hr'. unfold registrations_remove in Hr'. apply on_registrations_inv in Hr' as (Hop & _ & _). unfold registration_remove, remove_state, state_path in Hop.
    by destruct (validate_registration_id id) as [[]|]. }
  by destruct (registrations_remove_ok env _ _ _ _ Hidv Hr) as (_ & ? & ?).
Qed.

(** Removal revokes first and removes only what is its own.  Whatever the
    outcome, files or the host's configuration change only once the registration
    is revoked; the only file that can go is the Skill of the receipt with
    unchanged contents, and the host is asked to remove the alias only when it
    is the one of the receipt.  A removal that succeeds leaves no registration,
    no Skill, no alias and no receipt, and no other registration is touched. *)
Theorem integration_removed id w w' r : remove_integration env faults io ie host id w = (w', r) ->
  (tree w' = tree w /\ codex w' = codex w \/
   exists w0 receipt, load_integration_receipt env faults ie id w = (w0, Ok receipt) /\ (forall p, ~ authentic env (cw_registrations w') id p) /\
     removes_skill env (tree w) (tree w') (located_at (cw_host w) (ir_skill_file receipt)) (ir_skill_sha256 receipt) /\
     (codex w' = codex w \/ exists s, view (codex w) = Ok s /\ al_sha256 (hs_alias s) = ir_alias_sha256 receipt /\
       is_owned (hs_alias s) (ir_runtime_executable receipt) id = true)) /\
  (r = Ok tt -> exists w0 receipt, load_integration_receipt env faults ie id w = (w0, Ok receipt) /\
    (forall p, ~ authentic env (cw_registrations w') id p) /\
    (forall id' p, id' <> id -> authentic env (cw_registrations w') id' p <-> authentic env (cw_registrations w) id' p) /\
    vacant (cw_host w') (ir_skill_file receipt) /\ (forall s, view (codex w') = Ok s -> al_present (hs_alias s) = false) /\
    st_disk (cw_states w') !! state_file (integration_receipt_ref id) = None).
Proof.
  unfold remove_integration. intros [(w0 & receipt & Hl & Hk)|(e & Hl & ->)]%cbind_inv; destruct (load_integration_receipt_frame _ _ _ _ Hl) as [Hr0 Hh0];
    [|rewrite Hh0; split; [by left|discriminate]].
  apply cbind_inv in Hk as [(wx & u & Hv & Hk)|(e & Hv & ->)]; injection Hv as <- _; [|rewrite Hh0; split; [by left|discriminate]].
  apply cbind_inv in Hk as [(w1 & [] & Hrm%cmap_err_Ok & Hk)|(e & Hrm & ->)].
  2: { apply cmap_err_Err in Hrm as (e0 & _ & Hrm). unfold registrations_remove in Hrm. apply on_registrations_inv in Hrm as (_ & _ & Hh1). rewrite Hh1, Hh0. split; [by left|discriminate]. }
  destruct (removed_registration _ _ _ Hrm) as [Hgone Hothers]. unfold registrations_remove in Hrm. apply on_registrations_inv in Hrm as (_ & _ & Hh1). rewrite Hh0 in Hh1.
  apply cbind_inv in Hk as [(w2 & u2 & (Hi2 & Hc2)%host_drifted_reads & Hk)|(e & (Hi2 & Hc2)%host_drifted_reads & ->)]; destruct Hi2 as (Hs2 & Hr2 & Ht2 & Hd2);
    [|rewrite Ht2, Hc2, Hh1; split; [by left|discriminate]].
  apply cbind_inv in Hk as [(w3 & snap & Hin & Hk)|(e & Hin & ->)]; apply hc_inspect in Hin as [[(Hs3 & Hr3 & Ht3 & Hd3) Hc3] Hview];
    [|rewrite Ht3, Hc3, Ht2, Hc2, Hh1; split; [by left|discriminate]].
  apply cbind_inv in Hk as [(wx & u3 & Hp3 & Hk)|(e & Hp3 & ->)]; injection Hp3 as <- Hp3; [|rewrite Ht3, Hc3, Ht2, Hc2, Hh1; split; [by left|discriminate]].
  destruct u3. apply ensure_not_Ok in Hp3.
  apply cbind_inv in Hk as [(w4 & found & Hf4 & Hk)|(e & Hf4 & ->)]; apply inspect_skill_digest_inv in Hf4 as ((Hs4 & Hr4 & Hd4 & Hc4 & _) & Ht4 & _);
    [|rewrite Ht4, Hc4, Ht3, Hc3, Ht2, Hc2, Hh1; split; [by left|discriminate]].
  apply cbind_inv in Hk as [(wx & u4 & Hp4 & Hk)|(e & Hp4 & ->)]; injection Hp4 as <- _; [|rewrite Ht4, Hc4, Ht3, Hc3, Ht2, Hc2, Hh1; split; [by left|discriminate]].
  assert (Htw : tree w4 = tree w) by (rewrite Ht4, Ht3, Ht2, Hh1; done). assert (Hcw : codex w4 = codex w) by (rewrite Hc4, Hc3, Hc2, Hh1; done).
  assert (Hdw : mc_cwd (cw_host w4) = mc_cwd (cw_host w)) by (rewrite Hd4, Hd3, Hd2, Hh1; done).
  assert (Hrw : cw_registrations w4 = cw_registrations w1) by congruence.
  assert (Hloc : located_at (cw_host w4) (ir_skill_file receipt) = located_at (cw_host w) (ir_skill_file receipt)) by (unfold located_at; by rewrite (locate_same _ _ _ Htw Hdw)).
  rewrite Hc2, Hh1 in Hview. apply remove_tail in Hk as (Hr5 & Hrem & Hkeep & Hok). rewrite Htw, Hloc in Hrem. rewrite Hcw in Hkeep.
  assert (Hgone' : forall p, ~ authentic env (cw_registrations w') id p) by (rewrite Hr5, Hrw; exact Hgone).
  split.
  - right. exists w0, receipt. split_and!; [exact Hl|exact Hgone'|exact Hrem|]. destruct (al_present (hs_alias snap)) eqn:Ep; [right|left; by apply Hkeep].
    exists snap. cbn [andb] in Hp3. apply orb_false_iff in Hp3 as [H1%negb_false_iff H2%negb_false_iff]. apply str_eqb_eq in H1. split_and!; [exact (eq_sym Hview)|exact H1|exact H2].
  - intros Hr. destruct (Hok Hr) as (Hvac & Hst & Hal). exists w0, receipt. split_and!; [exact Hl|exact Hgone'| |exact Hvac| |].
    + intros id' p Hne. rewrite Hr5, Hrw, Hothers, Hr0 by done. done.
    + destruct (al_present (hs_alias snap)) eqn:Ep; [by apply Hal|]. intros s Hs. rewrite Hkeep in Hs by done. congruence.
    + apply Hst. unfold load_integration_receipt in Hl. apply cbind_Ok in Hl as (wx & ? & _ & Hl). by eapply load_record_valid.
Qed.
End Course.

(** * Codex *)

Section CodexContract.
Context {S C : Type} (env : ProviderEnv) (json : Codec Value) (codex_run : C -> list string -> C * ProgramRun).

(** What [codex mcp list --json] shows of a configuration. *)
Definition codex_view (c : C) : Result HostSnapshot IntegrationError :=
  let? bytes := run_result (codex_run c list_arguments).2 in parse_codex_snapshot env json bytes.

(** [list] changes no configuration, and after [remove] succeeded the listing
    does not name the alias. *)
Lemma codex_contract executable :
  (forall c, (codex_run c list_arguments).1 = c) ->
  (forall c bytes s, run_result (codex_run c remove_arguments).2 = Ok bytes -> codex_view (codex_run c remove_arguments).1 = Ok s ->
    al_present (hs_alias s) = false) ->
  HostContract (S := S) (codex_host env json codex_run executable) codex_view.
Proof.
  intros Hlist Hremove.
  assert (Hinv : forall args (w w' : CliWorld (S := S)) r, invoke codex_run args w = (w', r) -> host_only w w' /\
    mc_codex (cw_host w') = (codex_run (mc_codex (cw_host w)) args).1 /\ r = run_result (codex_run (mc_codex (cw_host w)) args).2).
  { intros args w w' r. unfold invoke. destruct (codex_run _ args) as [c run]. by intros [= <- <-]. }
  split.
  - intros w w' r. cbn [codex_host mh_inspect]. unfold codex_inspect, codex_view. intros [(w1 & bytes & (Hh & Hc & Hr)%Hinv & Hk)|(e & (Hh & Hc & Hr)%Hinv & ->)]%cbind_inv;
      rewrite Hlist in Hc; rewrite <- Hr; [injection Hk as <- <-|]; by split; [split|].
  - intros runtime id w w' r. cbn [codex_host mh_add]. unfold codex_add. intros [(w1 & text & Hp & Hk)|(e & Hp & _)]%cbind_inv; [|by injection Hp as <- _]. injection Hp as <- _.
    apply cbind_inv in Hk as [(w2 & bytes & [Hh _]%Hinv & Hk)|(e & [Hh _]%Hinv & _)]; [|done]. by injection Hk as <- _.
  - intros w w' r. cbn [codex_host mh_remove]. unfold codex_remove. intros [(w1 & bytes & (Hh & Hc & Hr)%Hinv & Hk)|(e & (Hh & _)%Hinv & ->)]%cbind_inv.
    + injection Hk as <- <-. split; [done|]. intros _ s Hs. rewrite Hc in Hs. by eapply Hremove.
    + split; [done|discriminate].
Qed.
End CodexContract.

(** * A concrete run *)

Module Workstation.
Import Sample.

#[local] Instance change_eq_dec : EqDecision PlannedChange.
Proof. solve_decision. Defined.
#[local] Instance plan_eq_dec : EqDecision IntegrationPlan.
Proof. solve_decision. Defined.
#[local] Instance receipt_eq_dec : EqDecision IntegrationReceipt.
Proof. solve_decision. Defined.

Definition registration_id : string := "registration_000000000001".
Definition plan_ref : string := "plan_000000000001".

Definition request : RegistrationRequest := {| Store.request with
  rr_registration_id := registration_id; rr_provider_id := INTEGRATION_PROVIDER_ID; rr_product_version := "1.0.0";
  rr_adapter_profile := RegisteredMcp TransportStdio "full" |}.

Definition env : ProviderEnv := env_for (new_payload request 2000).

(** The alias of Codex: [codex] configured or not. *)
Definition entry : Value := JObject [("name", JString MCP_ALIAS); ("transport", JObject [("type", JString "stdio"); ("command", JString "/bin/nexus");
  ("args", JArray [JString "mcp"; JString "launch"; JString "--registration"; JString registration_id])])]%string.

Definition listing (configured : bool) : list Z := if configured then [1] else [0].

Definition json : Codec Value := {|
  to_vec := fun v => match v with JArray [] => Ok [0] | JArray _ => Ok [1] | _ => Ok [2] end;
  from_slice := fun bytes => if decide (bytes = [1]) then Ok (JArray [entry]) else Ok (JArray []) |}.

Definition exits (bytes : list Z) : ProgramRun := {| pr_spawn := None; pr_output := Done bytes; pr_exit := Done true |}.

Definition codex_run (configured : bool) (arguments : list string) : bool * ProgramRun :=
  if decide (arguments = list_arguments) then (configured, exits (listing configured))
  else if decide (arguments = remove_arguments) then (false, exits [])
  else if decide (arguments = add_arguments "/bin/nexus" registration_id) then (true, exits [])
  else (configured, {| pr_spawn := None; pr_output := Done []; pr_exit := Done false |}).

Definition host : McpHost Store.Secrets bool := codex_host env json codex_run (located ["bin"; "codex"]%string).

#[local] Instance contract : HostContract host (codex_view env json codex_run).
Proof.
  apply codex_contract.
  - by intros [].
  - intros c bytes s _ Hs. destruct c; vm_compute in Hs; injection Hs as <-; reflexivity.
Defined.

Definition skill : list Z := [35; 32; 83].

Definition tree : Tree := <[["bin"]%string := NDir]> (<[["bin"; "codex"]%string := NFile 493 [1]]> (<[["bin"; "nexus"]%string := NFile 493 [2]]>
  (<[["home"]%string := NDir]> ∅))).

Lemma tree_ok : tree_wf tree.
Proof. apply wf_check_sound. vm_compute. reflexivity. Defined.

Definition plan : IntegrationPlan := {|
  ip_schema_version := 1; ip_plan_ref := plan_ref; ip_registration_id := registration_id; ip_created_at_unix_ms := 1000; ip_expires_at_unix_ms := 601000;
  ip_host := "codex"; ip_profile := "mcp"; ip_alias := MCP_ALIAS; ip_product_version := "1.0.0"; ip_transport := TransportStdio; ip_tool_profile := "full";
  ip_host_executable := located ["bin"; "codex"]%string; ip_host_identity := rr_host_identity request;
  ip_runtime_executable := located ["bin"; "nexus"]%string; ip_runtime_executable_sha256 := hi_executable_sha256 (rr_host_identity request);
  ip_skill_file := located ["home"; SKILL_NAME; "SKILL.md"]%string; ip_skill_sha256 := skill_digest env skill;
  ip_host_precondition_sha256 := skill_digest env [0]; ip_registration := request; ip_changes := [] |}.

Definition receipt : IntegrationReceipt := receipt_from_plan plan 2000 (skill_digest env [2]).

Definition ie : IntegrationEnv := {|
  ie_version := "1.0.0"; ie_plan := one 1 plan; ie_receipt := one 2 receipt; ie_skill := skill; ie_display := path_text;
  ie_inspect := fun _ _ => Ok (rr_host_identity request) |}.

Definition steady : nat -> Faults := fun _ => no_faults.
Definition calm : IoKind -> nat -> option (nat * string) := fun _ _ => None.

Definition start : CliWorld := {| cw_states := Store.empty; cw_registrations := Store.empty;
  cw_host := {| mc_tree := tree; mc_cwd := []; mc_io := 0; mc_codex := false; mc_log := [] |}; cw_ids := 0; cw_ops := 0 |}.

Definition planned : CliWorld := (states_install env steady plan_ref [1] start).1.
Definition installed : CliWorld := (integration_apply_plan env steady calm ie host plan_ref 2000 planned).1.
Definition removed : CliWorld := (remove_integration env steady calm ie host registration_id installed).1.

Lemma plan_applies : integration_apply_plan env steady calm ie host plan_ref 2000 planned = (installed, Ok receipt).
Proof. vm_compute. reflexivity. Defined.

Lemma removes : remove_integration env steady calm ie host registration_id installed = (removed, Ok tt).
Proof. vm_compute. reflexivity. Defined.


(** The receipt cannot be written. *)
Definition broken : nat -> Faults := fun n => if Nat.eqb n 4 then {| no_faults with ft_sync := Some "full"%string |} else no_faults.

Definition failed : CliWorld := (integration_apply_plan env broken calm ie host plan_ref 2000 planned).1.


Lemma integration_removed_witness : forall p, ~ authentic env (cw_registrations removed) registration_id p.
Proof.
  destruct (proj2 (integration_removed env steady calm ie host (codex_view env json codex_run) registration_id installed removed (Ok tt) removes) eq_refl)
    as (_ & _ & _ & Hgone & _). exact Hgone.
Defined.
End Workstation.
