(* ===== verification/HttpClient.v ===== *)
(** The HTTP exchange of the command line with its service:
    [call_http_request] and [decode_http_response] of
    [src/crates/cli/src/service.rs].

    A request and a response are byte strings.  The theorems: whatever is
    accepted is a response of status 200, of exactly its stated length, to
    exactly this request; and a service that reads the request by its first
    blank line and answers it in the usual form gets its result through. *)

From stdpp Require Import pretty.
From Stdlib Require Import Ascii String.
From S2P Require Import Prelude Floats Geometry Text Protocol Errors Policy Validation Dispatcher Authority ImageCache Adapter PrivateState CliStores AuthorityCli Files Skill Integration.
#[local] Open Scope Z_scope.

Definition SERVICE_ENDPOINT : string := "/cli".
Definition MAX_HTTP_RESPONSE_BYTES : Z := 20 * 1024 * 1024.
Definition MAX_HTTP_HEADER_BYTES : Z := 32 * 1024.

(** The line ends of HTTP. *)
Definition CRLF : string := String (ascii_of_nat 13) (String (ascii_of_nat 10) EmptyString).
Definition BLANK_LINE : string := CRLF +:+ CRLF.

(** ** What is used of [str] *)

(** [split] by a string. *)
Fixpoint split_str_from (fuel : nat) (sep s : string) : list string :=
  match fuel, split_once sep s with
  | Datatypes.S fuel, Some (piece, rest) => piece :: split_str_from fuel sep rest
  | _, _ => [s]
  end.
Definition split_str (sep s : string) : list string := split_str_from (String.length s) sep s.

(** [split_ascii_whitespace]. *)
Definition is_ascii_whitespace (c : ascii) : bool :=
  let b := byte_of c in (b =? 32) || (b =? 9) || (b =? 10) || (b =? 12) || (b =? 13).

Fixpoint ascii_words (s : string) : string * list string :=
  match s with
  | EmptyString => (EmptyString, [])
  | String c rest =>
      let '(word, words) := ascii_words rest in
      if is_ascii_whitespace c then (EmptyString, if str_eqb word "" then words else word :: words) else (String c word, words)
  end.
Definition split_ascii_whitespace (s : string) : list string :=
  let '(word, words) := ascii_words s in if str_eqb word "" then words else word :: words.

Definition eq_ignore_ascii_case (a b : string) : bool := str_eqb (to_ascii_lowercase a) (to_ascii_lowercase b).

(** [parse] of an unsigned integer up to a maximum; a plus sign may precede
    the digits. *)
Fixpoint parse_digits (acc : Z) (s : string) : option Z :=
  match s with
  | EmptyString => Some acc
  | String c rest => if is_ascii_digit (byte_of c) then parse_digits (acc * 10 + (byte_of c - 48)) rest else None
  end.
Definition parse_unsigned (max : Z) (s : string) : option Z :=
  let digits := match s with String c rest => if (c =? "+")%char then rest else s | EmptyString => s end in
  if str_eqb digits "" then None
  else match parse_digits 0 digits with Some n => if n <=? max then Some n else None | None => None end.

Definition U16_MAX : Z := 65535.

(** * The response *)

Section Response.
Context (json : Codec Value).

(** The loop over the headers. *)
Record Headers := { hd_content_length : option Z; hd_content_type_valid : bool }.

Definition content_type_json (value : string) : bool :=
  match split_char ";" value with first :: _ => eq_ignore_ascii_case (trim first) "application/json" | [] => false end.

Definition read_header (h : Headers) (line : string) : Result Headers ServiceError :=
  match split_once ":" line with
  | None => Err ServiceInvalidResponse
  | Some (name, value) =>
      let value := trim value in
      if eq_ignore_ascii_case name "content-length" then
        match hd_content_length h with
        | Some _ => Err ServiceInvalidResponse
        | None => Ok {| h with hd_content_length := parse_unsigned USIZE_MAX value |}
        end
      else if eq_ignore_ascii_case name "content-type" then Ok {| h with hd_content_type_valid := content_type_json value |}
      else if eq_ignore_ascii_case name "transfer-encoding" then Err ServiceInvalidResponse
      else Ok h
  end.

Fixpoint read_headers (h : Headers) (lines : list string) : Result Headers ServiceError :=
  match lines with
  | [] => Ok h
  | line :: lines => let? h := read_header h line in read_headers h lines
  end.

Definition json_string (o : option Value) (s : string) : bool :=
  match o with Some (JString x) => str_eqb x s | _ => false end.

(** The JSON-RPC answer. *)
Definition read_answer (value : Value) (request_id : string) : Result Value ServiceError :=
  ensure_not (negb (json_string (get "jsonrpc" value) "2.0") || negb (json_string (get "id" value) request_id)
    || match get "error" value with Some _ => true | None => false end) ServiceInvalidResponse ;?
  ok_or (get "result" value) ServiceInvalidResponse.

(** [decode_http_response]. *)
Definition decode_http_response (bytes request_id : string) : Result Value ServiceError :=
  let? parts := ok_or (split_once BLANK_LINE bytes) ServiceInvalidResponse in
  let '(headers, body) := parts in
  ensure_not (MAX_HTTP_HEADER_BYTES <? slen headers) ServiceInvalidResponse ;?
  ensure_not (negb (utf8_valid headers)) ServiceInvalidResponse ;?
  match split_str CRLF headers with
  | [] => Err ServiceInvalidResponse
  | status :: lines =>
      let? status_code := ok_or (nth_error (split_ascii_whitespace status) 1 ≫= parse_unsigned U16_MAX) ServiceInvalidResponse in
      ensure_not (negb (status_code =? 200)) (HttpStatus status_code) ;?
      let? h := read_headers {| hd_content_length := None; hd_content_type_valid := false |} lines in
      ensure_not (negb (hd_content_type_valid h) || negb (bool_decide (hd_content_length h = Some (slen body)))) ServiceInvalidResponse ;?
      let? value := rmap_err ServiceJson (from_slice json (str_bytes body)) in
      read_answer value request_id
  end.

(** * The request *)

(** [protocol_metadata]; [version] is [CARGO_PKG_VERSION]. *)
Definition protocol_metadata (version : string) : Value := JObject [
  ("io.modelcontextprotocol/clientCapabilities", JObject []);
  ("io.modelcontextprotocol/clientInfo", JObject [("name", JString "nexuscua-cli"); ("version", JString version)]);
  ("io.modelcontextprotocol/protocolVersion", JString "2026-07-28")]%string.

Definition rpc_body (request_id method : string) (params : Value) : Value :=
  JObject [("id", JString request_id); ("jsonrpc", JString "2.0"); ("method", JString method); ("params", params)]%string.

(** The header lines of a request. *)
Definition request_lines (address token method : string) (name : option string) (length_ : Z) : list string :=
  ["POST " +:+ SERVICE_ENDPOINT +:+ " HTTP/1.1"; "Host: " +:+ address; "Authorization: Bearer " +:+ token;
   "Content-Type: application/json"; "Accept: application/json"; "MCP-Protocol-Version: 2026-07-28"; "Mcp-Method: " +:+ method]
  ++ match name with Some name => ["Mcp-Name: " +:+ name] | None => [] end
  ++ ["Connection: close"; "Content-Length: " +:+ pretty length_]%string.

Definition with_crlf (line : string) : string := line +:+ CRLF.

Definition message (lines : list string) (body : string) : string :=
  foldr (fun line rest => with_crlf line +:+ rest) (CRLF +:+ body) lines.

(** The string of UTF-8 bytes. *)
Fixpoint string_of_bytes (bytes : list Z) : string :=
  match bytes with [] => EmptyString | b :: rest => String (ascii_of_N (Z.to_N b)) (string_of_bytes rest) end.

(** [call_http_request]: [exchange] is the connection, writing the request and
    reading up to the bound plus one byte, within the time allowed. *)
Definition call_http_request (address token method : string) (name : option string) (params : Value) (request_id : string)
    (exchange : string -> Awaited string) : Result Value ServiceError :=
  let? bytes := rmap_err ServiceJson (to_vec json (rpc_body request_id method params)) in
  let body := string_of_bytes bytes in
  ensure_not (negb (utf8_valid body)) ServiceInvalidResponse ;?
  match exchange (message (request_lines address token method name (zlen bytes)) body) with
  | TimedOut => Err ServiceInvalidResponse
  | Failed e => Err (ServiceIo e)
  | Done response =>
      if MAX_HTTP_RESPONSE_BYTES <? slen response then Err ResponseTooLarge else decode_http_response response request_id
  end.

(** [call_http_tool] and the call of [list_tools]. *)
Definition call_http_tool (version address token tool : string) (arguments : Value) (request_id : string) (exchange : string -> Awaited string)
    : Result Value ServiceError :=
  call_http_request address token "tools/call" (Some tool)
    (JObject [("_meta", protocol_metadata version); ("arguments", arguments); ("name", JString tool)])%string request_id exchange.

Definition list_http_tools (version address token request_id : string) (exchange : string -> Awaited string) : Result Value ServiceError :=
  call_http_request address token "tools/list" None (JObject [("_meta", protocol_metadata version)])%string request_id exchange.

(** The test of [call_tool]. *)
Definition tool_call_valid (tool : string) (arguments : Value) : bool :=
  negb (str_eqb tool "" || (64 <? slen tool) || negb (bytes_all (fun b => is_ascii_lowercase b || (b =? 95)) tool)
        || match arguments with JObject _ => false | _ => true end).

End Response.

(** * Lemmas *)

Lemma parse_pretty_go x s : parse_digits 0 (pretty_N_go x s) = parse_digits (Z.of_N x) s.
Proof.
  revert s. induction (N.lt_wf_0 x) as [x _ IH]; intros s. destruct (decide (x = 0%N)) as [->|Hne]; [by rewrite pretty_N_go_0|].
  rewrite pretty_N_go_step by lia. rewrite IH by (apply N.div_lt; lia).
  assert (Hchar : forall d, (d < 10)%N -> is_ascii_digit (byte_of (pretty_N_char d)) = true /\ byte_of (pretty_N_char d) - 48 = Z.of_N d).
  { intros d Hd. assert (d = 0 \/ d = 1 \/ d = 2 \/ d = 3 \/ d = 4 \/ d = 5 \/ d = 6 \/ d = 7 \/ d = 8 \/ d = 9)%N as Hc by lia.
    repeat destruct Hc as [->|Hc]; [done..|]. by subst. }
  cbn [parse_digits]. destruct (Hchar (x `mod` 10)%N) as [-> ->]; [apply N.mod_lt; lia|]. f_equal.
  pose proof (N.div_mod x 10). lia.
Qed.

Lemma parse_digits_pretty n : 0 <= n -> parse_digits 0 (pretty n) = Some n.
Proof.
  intros Hn. destruct n as [|p|p]; [done| |lia]. change (pretty (Z.pos p)) with (pretty (N.pos p)).
  unfold pretty, pretty_N. rewrite decide_False by done. by rewrite parse_pretty_go.
Qed.

Lemma pretty_starts n : 0 <= n -> exists c rest, pretty n = String c rest /\ is_ascii_digit (byte_of c) = true.
Proof.
  intros Hn. pose proof (parse_digits_pretty n Hn) as Hp. destruct (pretty n) as [|c rest] eqn:E.
  - destruct n as [|p|p]; [done| |lia]. exfalso. change (pretty (Z.pos p)) with (pretty (N.pos p)) in E.
    cbn in Hp. injection Hp as Hp. done.
  - exists c, rest. split; [done|]. cbn in Hp. by destruct (is_ascii_digit (byte_of c)).
Qed.

(** Numbers read back. *)
Lemma parse_pretty max n : 0 <= n <= max -> parse_unsigned max (pretty n) = Some n.
Proof.
  intros [H0 Hmax]. destruct (pretty_starts n H0) as (c & rest & E & Hd). pose proof (parse_digits_pretty n H0) as Hp. unfold parse_unsigned. rewrite E in *.
  destruct (Ascii.eqb_spec c "+") as [->|_]; [done|]. change (str_eqb (String c rest) "") with false. cbn match. rewrite Hp.
  by destruct (Z.leb_spec n max); [|lia].
Qed.

(** The digits are plain. *)
Lemma digits_all f s acc n : (forall b, is_ascii_digit b = true -> f b = true) -> parse_digits acc s = Some n -> bytes_all f s = true.
Proof.
  intros Hf. revert acc. induction s as [|c s IH]; intros acc; [done|]. cbn. destruct (is_ascii_digit (byte_of c)) eqn:E; [|done].
  intros Hs. rewrite (Hf _ E). by eapply IH.
Qed.

Lemma pretty_all f n : 0 <= n -> (forall b, is_ascii_digit b = true -> f b = true) -> bytes_all f (pretty n) = true.
Proof. intros Hn Hf. eapply digits_all; [done|by apply parse_digits_pretty]. Qed.

(** ** Lines *)

Definition CR : Z := 13.
Definition plain (s : string) : bool := bytes_all (fun b => negb (b =? CR)) s.
Definition line_ok (s : string) : Prop := plain s = true /\ s <> EmptyString.

Lemma app_cons c a b : String c a +:+ b = String c (a +:+ b).
Proof. done. Qed.

Lemma split_once_eq sep s : split_once sep s =
  match Text.strip_prefix sep s with
  | Some rest => Some (EmptyString, rest)
  | None => match s with EmptyString => None | String c s' => (fun p => (String c p.1, p.2)) <$> split_once sep s' end
  end.
Proof. by destruct s. Qed.

(** A separator that starts with a carriage return is not found in a line. *)
Lemma split_once_plain sep line s a b : (exists tail, sep = String (ascii_of_nat 13) tail) -> plain line = true ->
  split_once sep s = Some (a, b) -> split_once sep (line +:+ s) = Some (line +:+ a, b).
Proof.
  intros [tail ->]. induction line as [|c line IH]; [done|]. unfold plain. cbn [bytes_all]. rewrite andb_true_iff, negb_true_iff. intros [Hc Hl] Hs.
  rewrite !app_cons, split_once_eq.
  assert (Text.strip_prefix (String (ascii_of_nat 13) tail) (String c (line +:+ s)) = None) as ->.
  { cbn [Text.strip_prefix]. destruct (Ascii.eqb_spec (ascii_of_nat 13) c) as [<-|]; [done|done]. }
  rewrite IH by done. done.
Qed.

Lemma strip_prefix_self p s : Text.strip_prefix p (p +:+ s) = Some s.
Proof. by apply strip_prefix_Some. Qed.

Lemma split_once_head sep s : split_once sep (sep +:+ s) = Some (EmptyString, s).
Proof. by rewrite split_once_eq, strip_prefix_self. Qed.

(** A line end before another line is not a blank line. *)
Lemma split_once_joint c s a b : c <> ascii_of_nat 13 -> split_once BLANK_LINE (String c s) = Some (a, b) ->
  split_once BLANK_LINE (CRLF +:+ String c s) = Some (CRLF +:+ a, b).
Proof.
  intros Hc Hs. change (CRLF +:+ String c s) with (String (ascii_of_nat 13) (String (ascii_of_nat 10) (String c s))).
  rewrite split_once_eq.
  assert (Text.strip_prefix BLANK_LINE (String (ascii_of_nat 13) (String (ascii_of_nat 10) (String c s))) = None) as ->.
  { change BLANK_LINE with (String (ascii_of_nat 13) (String (ascii_of_nat 10) CRLF)). cbn [Text.strip_prefix]. rewrite !Ascii.eqb_refl.
    unfold CRLF. cbn [Text.strip_prefix]. by destruct (Ascii.eqb_spec (ascii_of_nat 13) c) as [<-|]. }
  rewrite split_once_eq.
  assert (Text.strip_prefix BLANK_LINE (String (ascii_of_nat 10) (String c s)) = None) as -> by done.
  rewrite Hs. done.
Qed.

(** The header and the body of a message. *)
Lemma split_message lines body : lines <> [] -> Forall line_ok lines -> split_once BLANK_LINE (message lines body) = Some (String.concat CRLF lines, body).
Proof.
  intros Hne Hl. induction Hl as [|line lines [Hline _] Hl IH]; [done|]. destruct lines as [|next lines].
  - change (message [line] body) with ((line +:+ CRLF) +:+ (CRLF +:+ body)). change (String.concat CRLF [line]) with line.
    rewrite string_app_assoc, <- (string_app_assoc CRLF CRLF body). rewrite <- (string_app_nil line) at 2. apply split_once_plain; [by eexists|done|]. apply split_once_head.
  - specialize (IH ltac:(done)). apply Forall_cons in Hl as [[Hnext Hnn] _]. rewrite (concat_cons CRLF line next lines).
    change (message (line :: next :: lines) body) with ((line +:+ CRLF) +:+ message (next :: lines) body). rewrite string_app_assoc.
    apply split_once_plain; [by eexists|done|]. destruct next as [|c next]; [done|].
    change (message (String c next :: lines) body) with (String c ((next +:+ CRLF) +:+ message lines body)) in *.
    apply split_once_joint; [|done]. intros ->. unfold plain in Hnext. cbn in Hnext. done.
Qed.

(** The lines of a header. *)
Lemma split_lines_from lines fuel : lines <> [] -> Forall line_ok lines -> (length lines <= fuel)%nat -> split_str_from fuel CRLF (String.concat CRLF lines) = lines.
Proof.
  intros Hne Hl. revert fuel. induction Hl as [|line lines [Hline _] Hl IH]; [done|]. intros fuel Hfuel. destruct fuel as [|fuel]; [cbn in Hfuel; lia|].
  cbn [split_str_from]. destruct lines as [|next lines].
  - change (String.concat CRLF [line]) with line.
    assert (Hnone : forall s, plain s = true -> split_once CRLF s = None).
    { intros s. induction s as [|c s IHs]; [done|]. unfold plain. cbn [bytes_all]. rewrite andb_true_iff, negb_true_iff. intros [Hc Hs].
      rewrite split_once_eq, IHs by done. unfold CRLF. cbn [Text.strip_prefix]. by destruct (Ascii.eqb_spec (ascii_of_nat 13) c) as [<-|]. }
    by rewrite Hnone.
  - rewrite (concat_cons CRLF line next lines).
    rewrite (split_once_plain CRLF line _ EmptyString (String.concat CRLF (next :: lines))); [|by eexists|done|apply split_once_head].
    rewrite string_app_nil. f_equal. apply IH; [done|cbn in *; lia].
Qed.

Lemma concat_length lines : Forall line_ok lines -> (length lines <= String.length (String.concat CRLF lines))%nat.
Proof.
  assert (Hn : forall s, line_ok s -> (1 <= String.length s)%nat) by (intros [|c s] [_ ?]; [done|cbn; lia]).
  induction 1 as [|line lines Hline Hl IH]; [done|]. specialize (Hn _ Hline). destruct lines as [|next lines]; [done|].
  rewrite (concat_cons CRLF line next lines). pose proof (slen_app line (CRLF +:+ String.concat CRLF (next :: lines))) as E1.
  pose proof (slen_app CRLF (String.concat CRLF (next :: lines))) as E2. unfold slen in *. cbn [length] in *. lia.
Qed.

Lemma split_lines lines : lines <> [] -> Forall line_ok lines -> split_str CRLF (String.concat CRLF lines) = lines.
Proof. intros Hne Hl. unfold split_str. apply split_lines_from; [done|done|by apply concat_length]. Qed.

(** ** ASCII text is UTF-8 *)

Definition is_ascii (s : string) : bool := bytes_all (fun b => b <? 128) s.

Lemma utf8_valid_ascii s : is_ascii s = true -> utf8_valid s = true.
Proof.
  unfold utf8_valid. assert (Hall : forall n, (String.length s <= n)%nat -> is_ascii s = true -> utf8_valid_from n (str_bytes s) = true); [|by apply Hall].
  induction s as [|c s IH]; intros n Hn; [by destruct n|]. unfold is_ascii in *. cbn [bytes_all]. rewrite andb_true_iff. intros [Hc Hs].
  destruct n as [|n]; [cbn in Hn; lia|]. cbn [utf8_valid_from str_bytes]. unfold utf8_step. rewrite Hc. apply IH; [cbn in Hn; lia|done].
Qed.

Lemma is_ascii_app a b : is_ascii (a +:+ b) = is_ascii a && is_ascii b.
Proof. apply bytes_all_app. Qed.

Lemma plain_app a b : plain (a +:+ b) = plain a && plain b.
Proof. apply bytes_all_app. Qed.

Lemma str_bytes_of bytes : Forall byte_value bytes -> str_bytes (string_of_bytes bytes) = bytes.
Proof.
  induction 1 as [|b bytes Hb _ IH]; [done|]. cbn. rewrite IH. f_equal. unfold byte_of, byte_value in *. rewrite N_ascii_embedding; lia.
Qed.

Lemma slen_of_bytes bytes : slen (string_of_bytes bytes) = zlen bytes.
Proof. unfold slen, zlen. induction bytes as [|b bytes IH]; [done|]. cbn. lia. Qed.

Lemma digit_ascii b : is_ascii_digit b = true -> (b <? 128) = true.
Proof. unfold is_ascii_digit. rewrite andb_true_iff. lia. Qed.
Lemma digit_plain b : is_ascii_digit b = true -> negb (b =? CR) = true.
Proof. unfold is_ascii_digit, CR. rewrite andb_true_iff, negb_true_iff, Z.eqb_neq. lia. Qed.

(** The characters of ASCII text. *)
Fixpoint singles (s : string) : list string :=
  match s with EmptyString => [] | String c rest => String c EmptyString :: singles rest end.

Lemma char_groups_ascii s : is_ascii s = true -> char_groups s = (EmptyString, singles s).
Proof.
  induction s as [|c s IH]; [done|]. unfold is_ascii in *. cbn [bytes_all]. rewrite andb_true_iff. intros [Hc Hs]. cbn [char_groups]. rewrite IH by done.
  unfold is_continuation. by destruct (Z.leb_spec 128 (byte_of c)); [lia|].
Qed.

Lemma concat_singles s : String.concat "" (singles s) = s.
Proof.
  induction s as [|c s IH]; [done|]. cbn [singles]. destruct (singles s) as [|x l] eqn:E; [by destruct s|].
  rewrite (concat_cons "" (String c "") x l), IH. done.
Qed.

Lemma skip_while_none f l : Forall (fun c => f c = false) l -> skip_while f l = l.
Proof. destruct 1 as [|c l Hc _]; [done|]. cbn. by rewrite Hc. Qed.

Lemma trim_digits s acc n : parse_digits acc s = Some n -> trim (" " +:+ s) = s.
Proof.
  intros Hp. assert (Ha : is_ascii s = true) by (eapply digits_all; [exact digit_ascii|done]).
  assert (Hw : Forall (fun c => is_whitespace c = false) (singles s)).
  { clear Ha. revert acc Hp. induction s as [|c s IH]; intros acc Hp; [done|]. cbn in Hp. destruct (is_ascii_digit (byte_of c)) eqn:Hd; [|done].
    constructor; [|by eapply IH]. unfold is_whitespace, code_point. unfold is_ascii_digit in Hd. lia. }
  unfold trim, chars. change (" " +:+ s) with (String " "%char s). rewrite (char_groups_ascii (String " "%char s)) by done. cbn [singles].
  change (skip_while is_whitespace (String " "%char EmptyString :: singles s)) with (skip_while is_whitespace (singles s)).
  rewrite (skip_while_none _ (singles s)) by done. rewrite skip_while_none by (by apply Forall_rev). by rewrite rev_involutive, concat_singles.
Qed.

(** * The theorems *)

Section Theorems.
Context (json : Codec Value).

Lemma split_once_Some sep s a b : split_once sep s = Some (a, b) -> s = a +:+ sep +:+ b.
Proof.
  revert a. induction s as [|c s IH]; intros a; rewrite split_once_eq.
  - destruct (Text.strip_prefix sep "") as [rest|] eqn:E; [|done]. intros [= <- <-]. by apply strip_prefix_Some in E.
  - destruct (Text.strip_prefix sep (String c s)) as [rest|] eqn:E; [intros [= <- <-]; by apply strip_prefix_Some in E|].
    destruct (split_once sep s) as [[x y]|] eqn:Es; [|done]. intros [= <- <-]. rewrite (IH x eq_refl). done.
Qed.

(** A header of a given name. *)
Definition has_header (lines : list string) (name : string) (P : string -> Prop) : Prop :=
  exists line n value, line ∈ lines /\ split_once ":" line = Some (n, value) /\ eq_ignore_ascii_case n name = true /\ P (trim value).

Lemma read_headers_facts lines h h' : read_headers h lines = Ok h' ->
  ~ has_header lines "transfer-encoding" (fun _ => True) /\
  (hd_content_length h' = hd_content_length h \/ has_header lines "content-length" (fun v => parse_unsigned USIZE_MAX v = hd_content_length h')) /\
  (hd_content_type_valid h' = hd_content_type_valid h \/ has_header lines "content-type" (fun v => content_type_json v = hd_content_type_valid h')).
Proof.
  revert h. induction lines as [|line lines IH]; intros h; cbn [read_headers].
  { intros [= <-]. split_and!; [|by left|by left]. intros (l & n & v & Hl & _). by apply elem_of_nil in Hl. }
  destruct (read_header h line) as [h1|e] eqn:E1; cbn [rbind]; [|done]. intros (Ht & Hc & Hv)%IH.
  assert (Hmore : forall name P, has_header lines name P -> has_header (line :: lines) name P).
  { intros name P (l & n & v & Hl & Hrest). exists l, n, v. split; [by apply list_elem_of_further|done]. }
  unfold read_header in E1. destruct (split_once ":" line) as [[n v]|] eqn:Es; [|done].
  assert (Hhere : forall name P, eq_ignore_ascii_case n name = true -> P (trim v) -> has_header (line :: lines) name P).
  { intros name P Hn HP. exists line, n, v. split; [apply list_elem_of_here|done]. }
  split_and!.
  - intros (l & n' & v' & Hl & Hs & Hn & _). apply elem_of_cons in Hl as [->|Hl]; [|apply Ht; by exists l, n', v'].
    rewrite Hs in Es. injection Es as -> ->. unfold eq_ignore_ascii_case in *. rewrite str_eqb_eq in Hn. rewrite Hn in E1. done.
  - destruct Hc as [Hc|Hc]; [|right; by apply Hmore]. destruct (eq_ignore_ascii_case n "content-length") eqn:En.
    + destruct (hd_content_length h); [done|]. injection E1 as <-. right. by apply Hhere.
    + left. rewrite Hc. destruct (eq_ignore_ascii_case n "content-type"); [by injection E1 as <-|].
      destruct (eq_ignore_ascii_case n "transfer-encoding"); [done|by injection E1 as <-].
  - destruct Hv as [Hv|Hv]; [|right; by apply Hmore]. destruct (eq_ignore_ascii_case n "content-length") eqn:En.
    + destruct (hd_content_length h); [done|]. injection E1 as <-. by left.
    + destruct (eq_ignore_ascii_case n "content-type") eqn:Ec; [injection E1 as <-; right; by apply Hhere|].
      left. rewrite Hv. destruct (eq_ignore_ascii_case n "transfer-encoding"); [done|by injection E1 as <-].
Qed.

Lemma json_string_true o s : json_string o s = true -> o = Some (JString s).
Proof. destruct o as [[]|]; cbn; try done. by intros ->%str_eqb_eq. Qed.

(** What is accepted as the answer of the service.  A result comes only from
    a response of status 200 whose header, up to the first blank line, has no
    [Transfer-Encoding], has a JSON content type and a content length that is
    exactly the length of what follows, and whose body is the JSON-RPC answer to
    exactly this request. *)
Theorem accepted_response_exact bytes request_id v : decode_http_response json bytes request_id = Ok v ->
  exists header body status lines value, bytes = header +:+ BLANK_LINE +:+ body /\ slen header <= MAX_HTTP_HEADER_BYTES /\
    split_str CRLF header = status :: lines /\ nth_error (split_ascii_whitespace status) 1 ≫= parse_unsigned U16_MAX = Some 200 /\
    ~ has_header lines "transfer-encoding" (fun _ => True) /\ has_header lines "content-type" (fun t => content_type_json t = true) /\
    has_header lines "content-length" (fun n => parse_unsigned USIZE_MAX n = Some (slen body)) /\
    from_slice json (str_bytes body) = Ok value /\ get "jsonrpc" value = Some (JString "2.0") /\ get "id" value = Some (JString request_id) /\
    get "error" value = None /\ get "result" value = Some v.
Proof.
  unfold decode_http_response. destruct (split_once BLANK_LINE bytes) as [[header body]|] eqn:Es; cbn [ok_or rbind]; [|done].
  apply split_once_Some in Es. intros [Hmax%ensure_not_Ok [Hutf Hd]%rbind_unit_Ok]%rbind_unit_Ok. destruct (split_str CRLF header) as [|status lines] eqn:El; [done|].
  destruct (nth_error _ 1 ≫= _) as [code|] eqn:Ec; cbn [ok_or rbind] in Hd; [|done].
  apply rbind_unit_Ok in Hd as [Hcode Hd]. apply ensure_not_Ok, negb_false_iff, Z.eqb_eq in Hcode as ->.
  destruct (read_headers _ lines) as [h|e] eqn:Eh; cbn [rbind] in Hd; [|done]. apply read_headers_facts in Eh as (Ht & Hl & Hv). cbn in Hl, Hv.
  apply rbind_unit_Ok in Hd as [Hok Hd]. apply ensure_not_Ok, orb_false_iff in Hok as [Htype%negb_false_iff Hlen%negb_false_iff%bool_decide_eq_true].
  destruct (from_slice json (str_bytes body)) as [value|e] eqn:Ef; cbn [rmap_err rbind] in Hd; [|done].
  unfold read_answer in Hd. apply rbind_unit_Ok in Hd as [Hans Hd]. apply ensure_not_Ok in Hans. rewrite !orb_false_iff, !negb_false_iff in Hans.
  destruct Hans as [[Hj%json_string_true Hi%json_string_true] He]. apply ok_or_Ok in Hd.
  exists header, body, status, lines, value. split_and!; try done.
  - apply Z.ltb_ge in Hmax. done.
  - destruct Hv as [Hv|Hv]; [congruence|]. by rewrite Htype in Hv.
  - destruct Hl as [Hl|Hl]; [congruence|]. by rewrite Hlen in Hl.
  - by destruct (get "error" value).
Qed.

(** ** A service that answers *)

Definition response_lines (n : Z) : list string :=
  ["HTTP/1.1 200 OK"; "Content-Type: application/json"; "Content-Length: " +:+ pretty n; "Connection: close"]%string.

Definition rpc_answer (id result : Value) : Value := JObject [("id", id); ("jsonrpc", JString "2.0"); ("result", result)]%string.

(** The service reads the request up to its first blank line, and answers the
    method and parameters of the body. *)
Definition reference_service (handler : string -> Value -> Value) (request : string) : Awaited string :=
  match split_once BLANK_LINE request with
  | None => TimedOut
  | Some (_, body) =>
      match from_slice json (str_bytes body) with
      | Err _ => TimedOut
      | Ok rpc =>
          match get "id" rpc, get "method" rpc, get "params" rpc with
          | Some id, Some (JString method), Some params =>
              match to_vec json (rpc_answer id (handler method params)) with
              | Ok bytes => Done (message (response_lines (zlen bytes)) (string_of_bytes bytes))
              | Err _ => TimedOut
              end
          | _, _, _ => TimedOut
          end
      end
  end.

Lemma pretty_go_length k x s : (x < 10 ^ N.of_nat k)%N -> (String.length (pretty_N_go x s) <= k + String.length s)%nat.
Proof.
  revert x s. induction k as [|k IH]; intros x s Hx; [assert (x = 0%N) as -> by (cbn in Hx; lia); by rewrite pretty_N_go_0|].
  destruct (decide (x = 0%N)) as [->|Hne]; [rewrite pretty_N_go_0; lia|]. rewrite pretty_N_go_step by lia.
  etransitivity; [apply IH|cbn; lia]. rewrite Nat2N.inj_succ, N.pow_succ_r' in Hx. apply N.Div0.div_lt_upper_bound. lia.
Qed.

Lemma pretty_length n : 0 <= n <= MAX_HTTP_RESPONSE_BYTES -> slen (pretty n) <= 8.
Proof.
  intros [H0 Hn]. unfold MAX_HTTP_RESPONSE_BYTES in Hn. destruct n as [|p|p]; [done| |lia]. change (pretty (Z.pos p)) with (pretty (N.pos p)).
  unfold pretty, pretty_N. rewrite decide_False by done. assert (Hl : (String.length (pretty_N_go (N.pos p) "") <= 8 + 0)%nat) by (apply pretty_go_length; change (10 ^ N.of_nat 8)%N with 100000000%N; lia).
  unfold slen. lia.
Qed.

Lemma response_lines_ok n : 0 <= n -> Forall line_ok (response_lines n).
Proof.
  intros Hn. unfold response_lines. repeat (constructor; [by split|]). constructor; [|by repeat constructor].
  split; [|by change ("Content-Length: " +:+ pretty n) with (String "C"%char ("ontent-Length: " +:+ pretty n))].
  rewrite plain_app. apply andb_true_iff. split; [done|]. apply pretty_all; [done|exact digit_plain].
Qed.

(** The usual response decodes. *)
Lemma decode_response bytes request_id result : Forall byte_value bytes -> zlen bytes <= MAX_HTTP_RESPONSE_BYTES ->
  from_slice json bytes = Ok (rpc_answer (JString request_id) result) ->
  decode_http_response json (message (response_lines (zlen bytes)) (string_of_bytes bytes)) request_id = Ok result.
Proof.
  intros Hb Hmax Hfrom. pose proof (zlen_nonneg bytes) as H0. pose proof (response_lines_ok _ H0) as Hlines. unfold decode_http_response.
  rewrite split_message by done. cbn [ok_or rbind]. set (n := zlen bytes) in *.
  assert (Hlen : slen (String.concat CRLF (response_lines n)) <= MAX_HTTP_HEADER_BYTES).
  { unfold response_lines. rewrite !concat_cons. change (String.concat CRLF ["Connection: close"%string]) with "Connection: close"%string.
    rewrite !slen_app. pose proof (pretty_length n (conj H0 Hmax)). unfold MAX_HTTP_HEADER_BYTES.
    change (slen "HTTP/1.1 200 OK") with 15. change (slen CRLF) with 2. change (slen "Content-Type: application/json") with 30.
    change (slen "Content-Length: ") with 16. change (slen "Connection: close") with 17. lia. }
  assert (Hascii : is_ascii (String.concat CRLF (response_lines n)) = true).
  { unfold response_lines. rewrite !concat_cons. change (String.concat CRLF ["Connection: close"%string]) with "Connection: close"%string.
    rewrite !is_ascii_app, !andb_true_iff. split_and!; try done. apply pretty_all; [done|exact digit_ascii]. }
  destruct (Z.ltb_spec MAX_HTTP_HEADER_BYTES (slen (String.concat CRLF (response_lines n)))) as [?|_]; [lia|]. cbn [ensure_not rbind].
  rewrite (utf8_valid_ascii _ Hascii). cbn [negb ensure_not rbind]. rewrite split_lines by done. unfold response_lines.
  change (nth_error (split_ascii_whitespace "HTTP/1.1 200 OK") 1 ≫= parse_unsigned U16_MAX) with (Some 200). cbn [ok_or rbind Z.eqb Pos.eqb negb ensure_not].
  assert (Hh : read_headers {| hd_content_length := None; hd_content_type_valid := false |}
    ["Content-Type: application/json"; "Content-Length: " +:+ pretty n; "Connection: close"]%string = Ok {| hd_content_length := Some n; hd_content_type_valid := true |}).
  { assert (Hs : forall x, split_once ":" ("Content-Length: " +:+ x) = Some ("Content-Length", " " +:+ x)%string) by done.
    cbn [read_headers]. change (read_header {| hd_content_length := None; hd_content_type_valid := false |} "Content-Type: application/json")
      with (Ok (E := ServiceError) {| hd_content_length := None; hd_content_type_valid := true |}). cbn [rbind].
    unfold read_header at 1. rewrite Hs, (trim_digits _ _ _ (parse_digits_pretty n H0)).
    change (eq_ignore_ascii_case "Content-Length" "content-length") with true. cbn match. cbn [hd_content_length].
    rewrite parse_pretty by (unfold USIZE_MAX, U64_MAX, MAX_HTTP_RESPONSE_BYTES in *; lia). done. }
  rewrite Hh. cbn [rbind hd_content_type_valid hd_content_length negb orb]. rewrite slen_of_bytes. fold n.
  rewrite bool_decide_eq_true_2 by done. cbn [negb ensure_not rbind]. rewrite str_bytes_of, Hfrom by done. cbn [rmap_err rbind].
  unfold read_answer. change (get "jsonrpc" (rpc_answer (JString request_id) result)) with (Some (JString "2.0")).
  change (get "id" (rpc_answer (JString request_id) result)) with (Some (JString request_id)).
  change (get "error" (rpc_answer (JString request_id) result)) with (@None Value).
  change (get "result" (rpc_answer (JString request_id) result)) with (Some result). cbn [json_string]. by rewrite !str_eqb_refl.
Qed.

Lemma request_lines_ok address token method name n : plain address = true -> plain token = true -> plain method = true ->
  match name with Some name => plain name = true | None => True end -> 0 <= n -> Forall line_ok (request_lines address token method name n).
Proof.
  intros Ha Ht Hm Hname Hn.
  assert (Hl : forall c a b, plain (String c a) = true -> plain b = true -> line_ok (String c a +:+ b)).
  { intros c a b Hc Hb. split; [|done]. rewrite plain_app. by rewrite Hc, Hb. }
  unfold request_lines. apply Forall_app. split; [|apply Forall_app; split].
  - repeat (apply Forall_cons; split); try (by split); try (apply Hl; done). done.
  - destruct name as [name|]; [|done]. apply Forall_singleton. by apply Hl.
  - apply Forall_cons. split; [by split|]. apply Forall_singleton. apply Hl; [done|]. apply pretty_all; [done|exact digit_plain].
Qed.

Lemma tool_plain tool arguments : tool_call_valid tool arguments = true -> plain tool = true.
Proof.
  unfold tool_call_valid. rewrite negb_true_iff, !orb_false_iff. intros [[[_ _] Hb%negb_false_iff] _]. unfold plain. eapply bytes_all_impl; [|exact Hb].
  intros b. unfold is_ascii_lowercase, CR. rewrite orb_true_iff, negb_true_iff, Z.eqb_neq. lia.
Qed.

(** A tool call gets its answer.  For an admitted tool name, and an address
    and token without line ends, the request that is sent has its first blank
    line at the end of its header, so that a service that reads it there and
    answers in the usual form is given the method and arguments of the call, and
    the call returns the service's result. *)
Theorem tool_call_answered handler version address token tool arguments request_id bytes answer :
  let params := JObject [("_meta", protocol_metadata version); ("arguments", arguments); ("name", JString tool)]%string in
  lawful_codec json -> plain address = true -> plain token = true -> tool_call_valid tool arguments = true ->
  to_vec json (rpc_body request_id "tools/call" params) = Ok bytes -> utf8_valid (string_of_bytes bytes) = true ->
  to_vec json (rpc_answer (JString request_id) (handler "tools/call"%string params)) = Ok answer ->
  slen (message (response_lines (zlen answer)) (string_of_bytes answer)) <= MAX_HTTP_RESPONSE_BYTES ->
  call_http_tool json version address token tool arguments request_id (reference_service handler) = Ok (handler "tools/call"%string params).
Proof.
  intros params Hlaw Ha Ht Htool Hreq Hutf Hans Hsize. unfold call_http_tool, call_http_request. fold params. rewrite Hreq. cbn [rmap_err rbind].
  rewrite Hutf. cbn [negb ensure_not rbind]. destruct (Hlaw _ _ Hreq) as [Hfrom Hbytes]. destruct (Hlaw _ _ Hans) as [Hfrom' Hbytes'].
  unfold reference_service. rewrite split_message; [|by destruct tool|by apply request_lines_ok; [..|eapply tool_plain|apply zlen_nonneg]].
  rewrite str_bytes_of, Hfrom by done.
  change (get "id" (rpc_body request_id "tools/call" params)) with (Some (JString request_id)).
  change (get "method" (rpc_body request_id "tools/call" params)) with (Some (JString "tools/call")).
  change (get "params" (rpc_body request_id "tools/call" params)) with (Some params). cbv beta iota. rewrite Hans.
  destruct (Z.ltb_spec MAX_HTTP_RESPONSE_BYTES (slen (message (response_lines (zlen answer)) (string_of_bytes answer)))) as [?|_]; [lia|].
  apply decode_response; [done| |done].
  assert (Hbody : forall lines body, slen body <= slen (message lines body)).
  { intros lines body. induction lines as [|line lines IH]; cbn [message foldr]; rewrite !slen_app.
    - change (slen CRLF) with 2. lia.
    - fold (message lines body). pose proof (slen_nonneg (with_crlf line)). lia. }
  specialize (Hbody (response_lines (zlen answer)) (string_of_bytes answer)). rewrite slen_of_bytes in Hbody. lia.
Qed.
End Theorems.

(** * A concrete call *)

Module Call.

Fixpoint value_eqb (a b : Value) {struct a} : bool :=
  match a, b with
  | JNull, JNull => true
  | JBool x, JBool y => Bool.eqb x y
  | JNumber x, JNumber y => x =? y
  | JString x, JString y => str_eqb x y
  | JArray xs, JArray ys =>
      (fix go (xs ys : list Value) : bool :=
        match xs, ys with [], [] => true | x :: xs, y :: ys => value_eqb x y && go xs ys | _, _ => false end) xs ys
  | JObject xs, JObject ys =>
      (fix go (xs ys : list (string * Value)) : bool :=
        match xs, ys with [], [] => true | (k, x) :: xs, (l, y) :: ys => str_eqb k l && value_eqb x y && go xs ys | _, _ => false end) xs ys
  | _, _ => false
  end.

Lemma value_eqb_sound : forall a b, value_eqb a b = true -> a = b.
Proof.
  fix IH 1. intros [|x|x|x|xs|xs] [|y|y|y|ys|ys]; cbn [value_eqb]; try discriminate; try reflexivity.
  - intros H. f_equal. by apply Bool.eqb_prop.
  - intros H. f_equal. by apply Z.eqb_eq.
  - intros H. f_equal. by apply str_eqb_eq.
  - intros H. f_equal. revert ys H. induction xs as [|x xs IHx]; intros [|y ys]; try discriminate; [reflexivity|].
    intros [Hx Hxs]%andb_true_iff. f_equal; [by apply IH|by apply IHx].
  - intros H. f_equal. revert ys H. induction xs as [|[k x] xs IHx]; intros [|[l y] ys]; try discriminate; [reflexivity|].
    intros [[Hk Hx]%andb_true_iff Hxs]%andb_true_iff. f_equal; [|by apply IHx]. f_equal; [by apply str_eqb_eq|by apply IH].
Qed.

(** A serializer of two values. *)
Definition two (a b : Value) : Codec Value := {|
  to_vec := fun v => if value_eqb v a then Ok [1] else if value_eqb v b then Ok [2] else Err "unsupported"%string;
  from_slice := fun bytes => if decide (bytes = [1]) then Ok a else if decide (bytes = [2]) then Ok b else Err "unsupported"%string |}.

Lemma two_lawful a b : lawful_codec (two a b).
Proof.
  intros v bytes. cbn. destruct (value_eqb v a) eqn:Ea; [apply value_eqb_sound in Ea as ->; intros [= <-]; split; [done|by repeat constructor]|].
  destruct (value_eqb v b) eqn:Eb; [apply value_eqb_sound in Eb as ->; intros [= <-]; split; [done|by repeat constructor]|done].
Qed.

Definition arguments : Value := JObject [].
Definition params : Value := JObject [("_meta", protocol_metadata "1.0.0"); ("arguments", arguments); ("name", JString "list_apps")]%string.
Definition result : Value := JObject [("content", JArray [])]%string.
Definition handler (method : string) (params : Value) : Value := result.
Definition json : Codec Value := two (rpc_body "cli_1" "tools/call" params) (rpc_answer (JString "cli_1") result).

Lemma tool_call_answered_witness :
  call_http_tool json "1.0.0" "127.0.0.1:43123" "aaaaaaaaaaaaaaaaaaaaaaaaaaaaaaaa" "list_apps" arguments "cli_1" (reference_service json handler) = Ok result.
Proof.
  apply (tool_call_answered json handler "1.0.0" "127.0.0.1:43123" "aaaaaaaaaaaaaaaaaaaaaaaaaaaaaaaa" "list_apps" arguments "cli_1" [1] [2]);
    [apply two_lawful|vm_compute; reflexivity..|vm_compute; discriminate].
Defined.

Lemma accepted_response_exact_witness : get "id" (rpc_answer (JString "cli_1") result) = Some (JString "cli_1") /\
  exists header body, message (response_lines 1) (string_of_bytes [2]) = header +:+ BLANK_LINE +:+ body.
Proof.
  split; [reflexivity|].
  destruct (accepted_response_exact json (message (response_lines 1) (string_of_bytes [2])) "cli_1" result) as (header & body & _ & _ & _ & Hb & _);
    [vm_compute; reflexivity|]. exists header, body. exact Hb.
Defined.

End Call.
