(* ===== verification/Service.v ===== *)
(** The service of the command line adapter: [src/crates/cli/src/service.rs].

    A registered service publishes an authenticated record, polls for its stop
    request and for the revocation of its registration, and cleans up; other
    commands stop it, wait for it and call it.  The host's state is a clock and
    the count of the waits so far: what other processes do to the stores, what
    a probe of the network answers and how long a wait takes beyond its minimum
    are parameters indexed by it.  The theorems: waiting returns within its
    bound, a stop request names the instance that was running, and after a
    revocation neither a registration nor a service record is left. *)

From stdpp Require Import pretty.
From Stdlib Require Import Ascii String.
From S2P Require Import Prelude Floats Geometry Text Protocol Errors Policy Validation Dispatcher Authority ImageCache Adapter Runner PrivateState Provider CliStores AuthorityCli Files Skill Integration HttpClient.
#[local] Open Scope Z_scope.
#[local] Open Scope cli_scope.

Definition SERVICE_SCHEMA_VERSION : Z := 1.
Definition STOP_SCHEMA_VERSION : Z := 1.
Definition SERVICE_STATUS_SCHEMA_VERSION : Z := 1.
(** Durations, in milliseconds. *)
Definition REGISTRATION_POLL : Z := 250.
Definition STOP_TIMEOUT : Z := 5000.
Definition STOP_POLL : Z := 50.

Record SocketAddr := { sa_ip : IpAddr; sa_port : Z }.

Record ServiceRecord := {
  sv_schema_version : Z;
  sv_registration_id : string;
  sv_instance_id : string;
  sv_product_version : string;
  sv_started_at_unix_ms : Z;
  sv_expires_at_unix_ms : Z;
  sv_address : SocketAddr;
  sv_endpoint : string;
  sv_stop_ref : string;
}.

Record StopRequest := {
  sq_schema_version : Z;
  sq_registration_id : string;
  sq_instance_id : string;
  sq_requested_at_unix_ms : Z;
}.

Record ServiceStatus := {
  su_schema_version : Z;
  su_state : string;
  su_registration_id : string;
  su_instance_id : option string;
  su_product_version : string;
  su_endpoint : option string;
  su_started_at_unix_ms : option Z;
  su_expires_at_unix_ms : option Z;
}.

(** [CARGO_PKG_VERSION], the serializers and the [Display] of an address. *)
Record ServiceEnv := {
  se_version : string;
  se_record : Codec ServiceRecord;
  se_stop : Codec StopRequest;
  se_display : SocketAddr -> string;
}.

(** The clock, and the waits so far. *)
Record Clock := { ck_time : Z; ck_waits : nat }.

Section Service.
Context {S : Type} {secrets : SecretStore S} {order : HashOrder} {ids : UuidSource}.
#[local] Abbreviation CliWorld := (CliWorld (S := S) (H := Clock)).
#[local] Abbreviation Cli := (Cli (S := S) (H := Clock)).
Context (env : ProviderEnv) (faults : nat -> Faults) (se : ServiceEnv).
(** What others do to the two stores during a wait, how much longer than its
    minimum it takes, and whether a probe connects. *)
Context (others : nat -> StoreState (S := S) * StoreState (S := S) -> StoreState (S := S) * StoreState (S := S)).
Context (delay : nat -> Z) (listens : nat -> SocketAddr -> bool).

Definition wait_for {E} (minimum : Z) : Cli E unit := fun w =>
  let n := ck_waits (cw_host w) in
  let '(states, registrations) := others n (cw_states w, cw_registrations w) in
  ({| w with cw_states := states; cw_registrations := registrations;
       cw_host := {| ck_time := ck_time (cw_host w) + minimum + delay n; ck_waits := Datatypes.S n |} |}, Ok tt).

(** [Instant::now]. *)
Definition instant_now {E} : Cli E Z := cread (fun w => Ok (ck_time (cw_host w))).

(** [timeout(PROBE_TIMEOUT, TcpStream::connect(address))]. *)
Definition probe {E} (address : SocketAddr) : Cli E bool :=
  let* answer := cread (fun w => Ok (listens (ck_waits (cw_host w)) address)) in
  wait_for 0 ;* cret answer.

Definition service_status (state registration_id : string) (record : option ServiceRecord) : ServiceStatus := {|
  su_schema_version := SERVICE_STATUS_SCHEMA_VERSION; su_state := state; su_registration_id := registration_id;
  su_instance_id := sv_instance_id <$> record; su_product_version := se_version se; su_endpoint := sv_endpoint <$> record;
  su_started_at_unix_ms := sv_started_at_unix_ms <$> record; su_expires_at_unix_ms := sv_expires_at_unix_ms <$> record |}.

Definition service_ref (registration_id : string) : string :=
  "clisvc_" +:+ String.substring 0 32 (pe_hex_encode env (pe_sha256 env (str_bytes registration_id))).

Definition validate_service (record : ServiceRecord) (registration_id : string) : Result unit ServiceError :=
  ensure_not
    (negb (sv_schema_version record =? SERVICE_SCHEMA_VERSION)
     || negb (str_eqb (sv_registration_id record) registration_id)
     || negb (str_eqb (sv_product_version record) (se_version se))
     || (sv_expires_at_unix_ms record <=? sv_started_at_unix_ms record)
     || (60 * 60 * 1000 <? sat_sub (sv_expires_at_unix_ms record) (sv_started_at_unix_ms record))
     || negb (Text.starts_with "service_" (sv_instance_id record))
     || negb (Text.starts_with "svstop_" (sv_stop_ref record))
     || negb (is_loopback (sa_ip (sv_address record)))
     || (sa_port (sv_address record) =? 0)
     || negb (str_eqb (sv_endpoint record) ("http://" +:+ se_display se (sv_address record) +:+ SERVICE_ENDPOINT))) ServiceStateDrift.

Definition valid_stop (request : StopRequest) (record : ServiceRecord) : bool :=
  (sq_schema_version request =? STOP_SCHEMA_VERSION) && str_eqb (sq_registration_id request) (sv_registration_id record)
  && str_eqb (sq_instance_id request) (sv_instance_id record).

Definition load_service (state_ref : string) : Cli ServiceError (option ServiceRecord) :=
  load_optional env faults ServiceJson ServiceProvider (se_record se) state_ref.
Definition load_stop (stop_ref : string) : Cli ServiceError (option StopRequest) :=
  load_optional env faults ServiceJson ServiceProvider (se_stop se) stop_ref.

Definition cleanup_service_state (state_ref stop_ref : string) : Cli ServiceError unit :=
  cmap_err ServiceProvider (states_remove faults state_ref) ;*
  cmap_err ServiceProvider (states_remove faults stop_ref).

Definition clear_stale_service (state_ref : string) : Cli ServiceError unit :=
  let* found := load_service state_ref in
  match found with
  | None => cret tt
  | Some record =>
      cpure (validate_service record (sv_registration_id record)) ;*
      let* listening := probe (sv_address record) in
      if listening : bool then cpure (Err AlreadyRunning) else cleanup_service_state state_ref (sv_stop_ref record)
  end.

Definition validate_cli_summary (summary_ : RegistrationSummary) : Result unit ServiceError :=
  ensure_not (negb (str_eqb (rs_product_version summary_) (se_version se)) || negb (profile_is_cli (rs_adapter_profile summary_)))
    (ServiceInvalid "registration is not bound to this CLI adapter version").

Definition validate_cli_registration (registration_id : string) : Cli ServiceError Z :=
  let* summary_ := cmap_err ServiceProvider (registrations_inspect env faults registration_id) in
  cpure (validate_cli_summary summary_) ;*
  cret (rs_authority_ttl_seconds summary_).

(** [RegisteredAuthorityProvider::new] and [cli_authorization]; [host] is the
    identity of the parent process. *)
Definition cli_authorization (host : Result HostExecutableIdentity RegistrationError) (registration_id : string) : Cli ServiceError AuthorizationToken :=
  cmap_err ServiceProvider (on_registrations faults (fun f st =>
    let '(pv, r) := provider_cli_authorization env f (provider_new st) host registration_id in (pv_store pv, r))).

(** ** Stopping *)

(** The loop of [stop_registered]; [None] when the fuel is gone. *)
Fixpoint await_stopped (fuel : nat) (deadline : Z) (state_ref registration_id : string) : Cli ServiceError (option ServiceStatus) :=
  match fuel with
  | O => cret None
  | Datatypes.S fuel =>
      let* now := instant_now in
      if now <? deadline then
        let* found := load_service state_ref in
        match found with
        | None => cret (Some (service_status "stopped" registration_id None))
        | Some _ => wait_for STOP_POLL ;* await_stopped fuel deadline state_ref registration_id
        end
      else cpure (Err StopTimeout)
  end.

Definition STOP_FUEL : nat := 102.

(** The stop request of [stop_registered]. *)
Definition request_stop (record : ServiceRecord) (registration_id : string) (since_epoch : option Z) : Cli ServiceError unit :=
  let* now := cpure (rmap_err ServiceClock (current_unix_ms since_epoch)) in
  let request := {| sq_schema_version := STOP_SCHEMA_VERSION; sq_registration_id := registration_id;
                    sq_instance_id := sv_instance_id record; sq_requested_at_unix_ms := now |} in
  let* existing := load_stop (sv_stop_ref record) in
  match existing with
  | Some existing => if valid_stop existing record then cret tt else cpure (Err ServiceStateDrift)
  | None => cli_install_state env faults ServiceJson ServiceProvider (se_stop se) (sv_stop_ref record) request
  end.

Definition stop_registered (host : Result HostExecutableIdentity RegistrationError) (registration_id : string) (since_epoch : option Z)
    : Cli ServiceError (option ServiceStatus) :=
  validate_cli_registration registration_id ;*
  cli_authorization host registration_id ;*
  let state_ref := service_ref registration_id in
  let* found := load_service state_ref in
  let* record := cpure (ok_or found NotRunning) in
  cpure (validate_service record registration_id) ;*
  request_stop record registration_id since_epoch ;*
  let* now := instant_now in
  await_stopped STOP_FUEL (now + STOP_TIMEOUT) state_ref registration_id.

(** [wait_for_registration_shutdown]. *)
Fixpoint await_shutdown (fuel : nat) (deadline : Z) (state_ref registration_id : string) : Cli ServiceError (option unit) :=
  match fuel with
  | O => cret None
  | Datatypes.S fuel =>
      let* found := load_service state_ref in
      match found with
      | None => cret (Some tt)
      | Some record =>
          cpure (validate_service record registration_id) ;*
          let* listening := probe (sv_address record) in
          if listening : bool then
            let* now := instant_now in
            if deadline <=? now then cpure (Err StopTimeout)
            else wait_for STOP_POLL ;* await_shutdown fuel deadline state_ref registration_id
          else cleanup_service_state state_ref (sv_stop_ref record) ;* cret (Some tt)
      end
  end.

Definition wait_for_registration_shutdown (registration_id : string) : Cli ServiceError (option unit) :=
  let* now := instant_now in
  await_shutdown STOP_FUEL (now + STOP_TIMEOUT) (service_ref registration_id) registration_id.

(** [status], up to its output. *)
Definition service_status_command (registration_id : string) : Cli ServiceError ServiceStatus :=
  let* found := load_service (service_ref registration_id) in
  match found with
  | None => cret (service_status "stopped" registration_id None)
  | Some record =>
      cpure (validate_service record registration_id) ;*
      let* registration_active := ccatch (registrations_inspect env faults registration_id) (fun inspected =>
        match inspected with
        | Ok summary_ => cpure (validate_cli_summary summary_) ;* cret true
        | Err e => if is_missing_registration e then cret false else cpure (Err (ServiceProvider e))
        end) in
      let* listening := probe (sv_address record) in
      cret (service_status (if registration_active && listening then "running" else "stopping_or_stale") registration_id (Some record))
  end.

(** ** Calling *)

(** [service_connection]. *)
Definition service_connection (host : Result HostExecutableIdentity RegistrationError) (registration_id : string)
    : Cli ServiceError (ServiceRecord * AuthorizationToken) :=
  validate_cli_registration registration_id ;*
  let* authorization := cli_authorization host registration_id in
  let* found := load_service (service_ref registration_id) in
  let* record := cpure (ok_or found NotRunning) in
  cpure (validate_service record registration_id) ;*
  cret (record, authorization).

(** [call_tool] and [list_tools]; [exchange] is the connection to an address. *)
Definition call_tool (json : Codec Value) (host : Result HostExecutableIdentity RegistrationError) (registration_id tool : string) (arguments : Value)
    (exchange : SocketAddr -> string -> Awaited string) : Cli ServiceError Value :=
  cpure (ensure_not (negb (tool_call_valid tool arguments)) (ServiceInvalid "tool name or arguments are outside the closed CLI binding")) ;*
  let* connection := service_connection host registration_id in
  let '(record, authorization) := connection in
  let* request_id := draw "cli_" in
  cpure (call_http_tool json (se_version se) (se_display se (sv_address record)) authorization tool arguments request_id (exchange (sv_address record))).

Definition list_tools (json : Codec Value) (host : Result HostExecutableIdentity RegistrationError) (registration_id : string)
    (exchange : SocketAddr -> string -> Awaited string) : Cli ServiceError Value :=
  let* connection := service_connection host registration_id in
  let '(record, authorization) := connection in
  let* request_id := draw "cli_" in
  cpure (list_http_tools json (se_version se) (se_display se (sv_address record)) authorization request_id (exchange (sv_address record))).

(** ** Serving *)

Record McpHttpReady := { hr_address : SocketAddr; hr_endpoint : string }.

(** The shutdown future of [start]: the interval ticks at once and then every
    [REGISTRATION_POLL]; [ctrl_c] is the signal. *)
Fixpoint monitor {E} (fuel : nat) (ctrl_c : nat -> bool) (lease_deadline : Z) (registration_id stop_ref : string) : Cli E (option unit) :=
  match fuel with
  | O => cret None
  | Datatypes.S fuel =>
      let* signalled := cread (fun w => Ok (ctrl_c (ck_waits (cw_host w)))) in
      if signalled : bool then cret (Some tt) else
      let* now := instant_now in
      if lease_deadline <=? now then cret (Some tt) else
      ccatch (states_load env faults stop_ref) (fun loaded =>
        match loaded with
        | Ok _ => cret (Some tt)
        | Err _ => ccatch (registrations_inspect env faults registration_id) (fun inspected =>
            match inspected with
            | Err _ => cret (Some tt)
            | Ok _ => wait_for REGISTRATION_POLL ;* monitor fuel ctrl_c lease_deadline registration_id stop_ref
            end)
        end)
  end.

(** [on_ready]; [stdout] is the result of the output. *)
Definition publish_service (registration_id instance_id stop_ref state_ref : string) (started_at expires_at : Z) (stdout : Result unit McpServeError)
    (ready : McpHttpReady) : Cli McpServeError unit :=
  let record := {|
    sv_schema_version := SERVICE_SCHEMA_VERSION; sv_registration_id := registration_id; sv_instance_id := instance_id;
    sv_product_version := se_version se; sv_started_at_unix_ms := started_at; sv_expires_at_unix_ms := expires_at;
    sv_address := hr_address ready; sv_endpoint := hr_endpoint ready; sv_stop_ref := stop_ref |} in
  cmap_err (fun _ : ServiceError => ServeInvalidConfiguration "authenticated CLI service state could not be published")
    (cli_install_state env faults ServiceJson ServiceProvider (se_record se) state_ref record) ;*
  cpure stdout.

(** [start]: [serve] is [serve_http_until] on a loopback address of a free port
    with the token, given what to do when ready and the shutdown future. *)
Definition service_start (host : Result HostExecutableIdentity RegistrationError) (registration_id : string) (since_epoch : option Z)
    (stdout : Result unit McpServeError) (ctrl_c : nat -> bool) (fuel : nat)
    (serve : AuthorizationToken -> (McpHttpReady -> Cli McpServeError unit) -> Cli McpServeError (option unit) -> Cli McpServeError unit)
    : Cli ServiceError unit :=
  let* authority_ttl_seconds := validate_cli_registration registration_id in
  let* authorization := cli_authorization host registration_id in
  let state_ref := service_ref registration_id in
  clear_stale_service state_ref ;*
  let* instance_id := draw "service_" in
  let* stop_ref := draw "svstop_" in
  let* started_at := cpure (rmap_err ServiceClock (current_unix_ms since_epoch)) in
  let expires_at := sat_add started_at (Z.min U64_MAX (authority_ttl_seconds * 1000)) in
  let* now := instant_now in
  let lease_deadline := now + authority_ttl_seconds * 1000 in
  ccatch (serve authorization (publish_service registration_id instance_id stop_ref state_ref started_at expires_at stdout)
            (monitor fuel ctrl_c lease_deadline registration_id stop_ref)) (fun result =>
  ccatch (cleanup_service_state state_ref stop_ref) (fun cleanup =>
    cpure (rmap_err ServiceMcp result) ;* cpure cleanup)).

End Service.

(** * Lemmas *)

Section Lemmas.
Context {S : Type} {secrets : SecretStore S} {order : HashOrder} {lawful : LawfulSecrets S}.
#[local] Abbreviation CliWorld := (CliWorld (S := S) (H := Clock)).
#[local] Abbreviation Cli := (Cli (S := S) (H := Clock)).
Context (env : ProviderEnv) (faults : nat -> Faults) (se : ServiceEnv).
Context (others : nat -> StoreState (S := S) * StoreState (S := S) -> StoreState (S := S) * StoreState (S := S)).
Context (delay : nat -> Z) (listens : nat -> SocketAddr -> bool).
Context (delay_nonneg : forall n, 0 <= delay n).
Implicit Types w : CliWorld.

Lemma wait_for_time {E} minimum w w' r : wait_for (E := E) others delay minimum w = (w', r) ->
  r = Ok tt /\ ck_time (cw_host w) + minimum <= ck_time (cw_host w').
Proof. unfold wait_for. destruct (others _ _). intros [= <- <-]. split; [done|]. cbn. specialize (delay_nonneg (ck_waits (cw_host w))). lia. Qed.

Lemma load_service_host ref w w' r : load_service env faults se ref w = (w', r) -> cw_host w' = cw_host w.
Proof. unfold load_service. by intros (_ & _ & ?)%load_optional_quiet. Qed.

Lemma probe_time {E} address w w' r : probe (E := E) others delay listens address w = (w', r) -> ck_time (cw_host w) <= ck_time (cw_host w').
Proof.
  unfold probe. intros [(w1 & a & Hr & Hk)|(e & Hr & _)]%cbind_inv; injection Hr as <- _; [|lia].
  apply cbind_inv in Hk as [(w2 & u & [_ Ht]%wait_for_time & Hk)|(e & [_ Ht]%wait_for_time & _)]; [injection Hk as <- _|]; lia.
Qed.

(** Waiting for the service to stop returns: the fuel is enough. *)
Lemma await_stopped_returns fuel deadline ref id w w' : (1 <= fuel)%nat -> deadline - ck_time (cw_host w) <= STOP_POLL * (Z.of_nat fuel - 1) ->
  await_stopped env faults se others delay fuel deadline ref id w <> (w', Ok None).
Proof.
  revert w. induction fuel as [|fuel IH]; intros w H1 Hfuel; cbn [await_stopped]; [lia|].
  intros (w1 & now & Hn & Hk)%cbind_Ok. injection Hn as <- <-. destruct (Z.ltb_spec (ck_time (cw_host w)) deadline) as [Hlt|_]; [|done].
  apply cbind_Ok in Hk as (w2 & found & Hf%load_service_host & Hk). destruct found as [record|]; [|done].
  apply cbind_Ok in Hk as (w3 & u & [_ Ht]%wait_for_time & Hk). rewrite Hf in Ht. unfold STOP_POLL in *. revert Hk. apply IH; lia.
Qed.

Lemma await_shutdown_returns fuel deadline ref id w w' : (1 <= fuel)%nat -> deadline - ck_time (cw_host w) <= STOP_POLL * (Z.of_nat fuel - 1) ->
  await_shutdown env faults se others delay listens fuel deadline ref id w <> (w', Ok None).
Proof.
  revert w. induction fuel as [|fuel IH]; intros w H1 Hfuel; cbn [await_shutdown]; [lia|].
  intros (w2 & found & Hf%load_service_host & Hk)%cbind_Ok. destruct found as [record|]; [|done].
  apply cbind_Ok in Hk as (w3 & u & Hp & Hk). injection Hp as <- _. apply cbind_Ok in Hk as (w4 & listening & Ht%probe_time & Hk). rewrite Hf in Ht.
  destruct listening; [|by apply cbind_Ok in Hk as (? & ? & _ & ?)]. apply cbind_Ok in Hk as (w5 & now & Hn & Hk). injection Hn as <- <-.
  destruct (Z.leb_spec deadline (ck_time (cw_host w4))) as [_|Hlt]; [done|].
  apply cbind_Ok in Hk as (w6 & u6 & [_ Ht6]%wait_for_time & Hk). unfold STOP_POLL in *. revert Hk. apply IH; lia.
Qed.

Lemma load_service_none ref w w' : load_service env faults se ref w = (w', Ok None) -> forall bytes, ~ recorded env (cw_states w') ref bytes.
Proof.
  unfold load_service. intros Hf bytes Hrec. eapply (load_optional_none env faults ServiceJson ServiceProvider (se_record se) ref w w' bytes); [exact Hf|].
  apply load_optional_quiet in Hf as (Hq & _). by apply (recorded_frame env _ _ ref bytes Hq).
Qed.

(** What the end of the wait for shutdown leaves. *)
Lemma await_shutdown_clean fuel deadline ref id w w' : await_shutdown env faults se others delay listens fuel deadline ref id w = (w', Ok (Some tt)) ->
  forall bytes, ~ recorded env (cw_states w') ref bytes.
Proof.
  revert w. induction fuel as [|fuel IH]; intros w; cbn [await_shutdown]; [done|]. intros (w2 & found & Hf & Hk)%cbind_Ok. destruct found as [record|].
  - apply cbind_Ok in Hk as (w3 & u & Hp & Hk). apply cbind_Ok in Hk as (w4 & listening & _ & Hk). destruct listening.
    + apply cbind_Ok in Hk as (w5 & now & _ & Hk). destruct (deadline <=? now); [done|]. apply cbind_Ok in Hk as (w6 & u6 & _ & Hk). by eapply IH.
    + apply cbind_Ok in Hk as (w5 & [] & Hc & Hk). injection Hk as <-. intros bytes [Hid Hrec]. unfold cleanup_service_state in Hc.
      apply cbind_Ok in Hc as (w6 & [] & H1%cmap_err_Ok & H2%cmap_err_Ok). destruct (states_remove_ok _ _ _ _ H1 Hid) as [Hgone _].
      assert (Hgone' : st_disk (cw_states w5) !! state_file ref = None).
      { destruct (decide (ref = sv_stop_ref record)) as [E|Hne]; [rewrite E in *; by apply states_remove_ok in H2 as [? _]|].
        unfold states_remove, integration_remove in H2. apply on_states_inv in H2 as (Hop & _ & _).
        destruct (validate_registration_id (sv_stop_ref record)) as [[]|e] eqn:Hv.
        - apply remove_state_outcome in Hop as (Hd & _); [|by apply json_not_lock, state_file_json, valid_id_nonempty].
          rewrite Hd; [done|by apply json_not_lock, state_file_json, valid_id_nonempty|by intros ?%state_file_inj].
        - exfalso. unfold remove_state, state_path in Hop. by rewrite Hv in Hop. }
      unfold integration_load_locked, validate_private_regular_file in Hrec. by rewrite Hgone' in Hrec.
  - injection Hk as <-. by eapply load_service_none.
Qed.

Lemma await_stopped_clean fuel deadline ref id w w' status : await_stopped env faults se others delay fuel deadline ref id w = (w', Ok (Some status)) ->
  su_state status = "stopped"%string /\ forall bytes, ~ recorded env (cw_states w') ref bytes.
Proof.
  revert w. induction fuel as [|fuel IH]; intros w; cbn [await_stopped]; [done|]. intros (w1 & now & _ & Hk)%cbind_Ok. destruct (now <? deadline); [|done].
  apply cbind_Ok in Hk as (w2 & found & Hf & Hk). destruct found as [record|].
  - apply cbind_Ok in Hk as (w3 & u & _ & Hk). by eapply IH.
  - injection Hk as <- <-. split; [done|]. by eapply load_service_none.
Qed.


(** ** The monitor *)

Lemma monitor_returns {E} fuel ctrl_c deadline id stop_ref w w' : (1 <= fuel)%nat -> deadline - ck_time (cw_host w) <= REGISTRATION_POLL * (Z.of_nat fuel - 1) ->
  monitor (E := E) env faults others delay fuel ctrl_c deadline id stop_ref w <> (w', Ok None).
Proof.
  revert w. induction fuel as [|fuel IH]; intros w H1 Hfuel; cbn [monitor]; [lia|].
  intros (w1 & signalled & Hn & Hk)%cbind_Ok. injection Hn as <- <-. destruct (ctrl_c _); [done|].
  apply cbind_Ok in Hk as (w2 & now & Hn & Hk). injection Hn as <- <-. destruct (Z.leb_spec deadline (ck_time (cw_host w))) as [_|Hlt]; [done|].
  unfold ccatch in Hk. destruct (states_load env faults stop_ref w) as [w3 [b|e]] eqn:El; [done|]. apply states_load_quiet in El as (_ & _ & Hh3).
  destruct (registrations_inspect env faults id w3) as [w4 [s|e4]] eqn:Ei; [|done]. apply registrations_inspect_quiet in Ei as (_ & _ & Hh4).
  apply cbind_Ok in Hk as (w5 & u & [_ Ht]%wait_for_time & Hk). rewrite Hh4, Hh3 in Ht. unfold REGISTRATION_POLL in *. revert Hk. apply IH; lia.
Qed.

(** After wait [m] the registration is gone for good. *)
Definition revoked_from (m : nat) (id : string) : Prop := forall n st p, (m <= n)%nat -> ~ authentic env (others n st).2 id p.

Lemma monitor_revoked {E} fuel ctrl_c deadline id stop_ref m w w' r : revoked_from m id ->
  ((ck_waits (cw_host w) <= m)%nat \/ forall p, ~ authentic env (cw_registrations w) id p) ->
  monitor (E := E) env faults others delay fuel ctrl_c deadline id stop_ref w = (w', r) -> (ck_waits (cw_host w') <= Nat.max (Datatypes.S m) (ck_waits (cw_host w)))%nat.
Proof.
  intros Hrev. revert w. induction fuel as [|fuel IH]; intros w Hw; cbn [monitor]; [intros [= <- _]; lia|].
  intros [(w1 & signalled & Hn & Hk)|(e & Hn & _)]%cbind_inv; [|done]. injection Hn as <- <-. destruct (ctrl_c _); [injection Hk as <- _; lia|].
  apply cbind_inv in Hk as [(w2 & now & Hn & Hk)|(e & Hn & _)]; [|done]. injection Hn as <- <-. destruct (deadline <=? ck_time (cw_host w)); [injection Hk as <- _; lia|].
  unfold ccatch in Hk. destruct (states_load env faults stop_ref w) as [w3 l3] eqn:El. pose proof (states_load_registrations _ _ _ _ _ _ El) as Hr3.
  apply states_load_quiet in El as (_ & _ & Hh3). destruct l3 as [b|e3]; [injection Hk as <- _; rewrite Hh3; lia|].
  destruct (registrations_inspect env faults id w3) as [w4 [s|e4]] eqn:Ei; pose proof (registrations_inspect_quiet _ _ _ _ _ _ Ei) as (_ & _ & Hh4); rewrite Hh3 in Hh4;
    [|injection Hk as <- _; rewrite Hh4; lia].
  apply registrations_inspect_ok in Ei as (p & Hp & _). rewrite Hr3 in Hp. destruct Hw as [Hw|Hw]; [|by destruct (Hw p)].
  apply cbind_inv in Hk as [(w5 & u & Hwait & Hk)|(e & Hwait & _)]; unfold wait_for in Hwait; destruct (others _ _) as [sts regs] eqn:Eo; [|done].
  injection Hwait as <- _. apply IH in Hk; cbn [cw_host ck_waits] in *; [rewrite Hh4 in Hk; lia|]. rewrite Hh4. destruct (decide (ck_waits (cw_host w) = m)) as [Hm|Hm]; [right|left; lia].
  intros q Hq. cbn [cw_registrations] in Hq. rewrite Hh4 in Eo. apply (Hrev (ck_waits (cw_host w)) (cw_states w4, cw_registrations w4) q); [lia|]. by rewrite Eo.
Qed.

(** A service ends with its lease or its registration.  With one poll per
    quarter second of the lease, the shutdown future of a service completes;
    and when its registration is gone for good after some wait, at most one more
    poll is made. *)
Theorem service_ends fuel ctrl_c ttl id stop_ref w w' (r : Result (option unit) McpServeError) m :
  0 <= ttl -> 4 * ttl < Z.of_nat fuel -> revoked_from m id -> (ck_waits (cw_host w) <= m)%nat ->
  monitor env faults others delay fuel ctrl_c (ck_time (cw_host w) + ttl * 1000) id stop_ref w = (w', r) ->
  r = Ok (Some tt) /\ (ck_waits (cw_host w') <= Datatypes.S m)%nat.
Proof.
  intros Httl Hfuel Hrev Hw Hm. split.
  - destruct r as [[[]|]|e]; [done| |].
    + exfalso. revert Hm. apply monitor_returns; unfold REGISTRATION_POLL; lia.
    + exfalso. clear -Hm. remember (ck_time (cw_host w) + ttl * 1000) as deadline eqn:E. clear E. revert w Hm. induction fuel as [|fuel IH]; intros w; cbn [monitor]; [done|].
      intros [(w1 & signalled & Hn & Hk)|(? & ? & _)]%cbind_inv; [|done]. destruct signalled; [done|]. apply cbind_inv in Hk as [(w2 & now & _ & Hk)|(? & ? & _)]; [|done].
      destruct (deadline <=? now); [done|]. unfold ccatch in Hk. destruct (states_load _ _ _ _) as [w3 [b|?]]; [done|]. destruct (registrations_inspect _ _ _ _) as [w4 [s|?]]; [|done].
      apply cbind_inv in Hk as [(w5 & u & _ & Hk)|(? & Hk & _)]; [by eapply IH|]. unfold wait_for in Hk. by destruct (others _ _).
  - apply (monitor_revoked _ _ _ _ _ m) in Hm; [lia|done|by left].
Qed.

(** ** Revoking a registration with a service *)

Context (others_revoke : forall n st id p, authentic env (others n st).2 id p -> authentic env st.2 id p).

Lemma wait_for_registrations {E} minimum w w' r : wait_for (E := E) others delay minimum w = (w', r) ->
  forall id p, authentic env (cw_registrations w') id p -> authentic env (cw_registrations w) id p.
Proof.
  unfold wait_for. destruct (others _ _) as [sts regs] eqn:Eo. intros [= <- _] id p Hp. cbn in Hp.
  apply (others_revoke (ck_waits (cw_host w)) (cw_states w, cw_registrations w)). by rewrite Eo.
Qed.

Lemma await_shutdown_registrations fuel deadline ref id w w' r : await_shutdown env faults se others delay listens fuel deadline ref id w = (w', r) ->
  forall i p, authentic env (cw_registrations w') i p -> authentic env (cw_registrations w) i p.
Proof.
  revert w. induction fuel as [|fuel IH]; intros w; cbn [await_shutdown]; [by intros [= <- _]|]. intros Hrun i p Hp.
  assert (Hload : forall w1 x, load_service env faults se ref w = (w1, x) -> authentic env (cw_registrations w1) i p -> authentic env (cw_registrations w) i p).
  { intros w1 x (_ & Hq & _)%load_optional_quiet. exact (proj1 (authentic_frame env _ _ i p Hq)). }
  apply cbind_inv in Hrun as [(w1 & found & Hf & Hk)|(e & Hf & _)]; [|by eapply Hload]. apply (Hload _ _ Hf). clear Hload Hf.
  destruct found as [record|]; [|by injection Hk as <- _]. apply cbind_inv in Hk as [(w2 & u & Hv & Hk)|(e & Hv & _)]; injection Hv as <- _; [|done].
  assert (Hprobe : forall w3 x, probe (E := ServiceError) others delay listens (sv_address record) w1 = (w3, x) -> authentic env (cw_registrations w3) i p -> authentic env (cw_registrations w1) i p).
  { intros w3 x. unfold probe. intros [(wa & a & Hr & Hx)|(e & Hr & _)]%cbind_inv; injection Hr as <- _; [|done].
    apply cbind_inv in Hx as [(wb & u' & Hw & Hx)|(e & Hw & _)]; [injection Hx as <- _|]; eapply wait_for_registrations; exact Hw. }
  apply cbind_inv in Hk as [(w3 & listening & Hpr & Hk)|(e & Hpr & _)]; [|by eapply Hprobe]. apply (Hprobe _ _ Hpr). clear Hprobe Hpr. destruct listening.
  - apply cbind_inv in Hk as [(w4 & now & Hn & Hk)|(e & Hn & _)]; [|done]. injection Hn as <- _. destruct (deadline <=? now); [by injection Hk as <- _|].
    apply cbind_inv in Hk as [(w5 & u5 & Hw & Hk)|(e & Hw & _)]; eapply wait_for_registrations; [exact Hw| |exact Hw|done]. by eapply IH.
  - assert (Hregs : cw_registrations w' = cw_registrations w3); [|by rewrite <- Hregs].
    assert (Hclean : forall w4 x, cleanup_service_state faults ref (sv_stop_ref record) w3 = (w4, x) -> cw_registrations w4 = cw_registrations w3).
    { intros w4 x. unfold cleanup_service_state. intros [(wa & u' & H1%cmap_err_Ok & H2)|(e & H1 & _)]%cbind_inv.
      - apply states_remove_registrations in H1. destruct x; [apply cmap_err_Ok in H2|apply cmap_err_Err in H2 as (? & _ & H2)]; apply states_remove_registrations in H2; congruence.
      - apply cmap_err_Err in H1 as (? & _ & H1). by apply states_remove_registrations in H1. }
    apply cbind_inv in Hk as [(w4 & u4 & Hc & Hk)|(e & Hc & _)]; [injection Hk as <- _|]; by eapply Hclean.
Qed.

(** [wait_for_registration_shutdown] as [revoke] uses it. *)
Definition finished (m : Cli ServiceError (option unit)) : Cli ServiceError unit :=
  let* r := m in match r with Some _ => cret tt | None => cpure (Err StopTimeout) end.

(** C28: A revocation that reports success is complete.  It was confirmed on
    both terminals; the registration is gone, so that no service can
    authenticate it, and no service record of it is left, as long as other
    processes do not install registrations meanwhile. *)
Theorem revoke_ends_service ae confirm stdin_terminal stderr_terminal id since_epoch w w' status :
  LawfulCodec env -> lawful_codec (ae_revocation ae) ->
  authority_revoke env faults ae confirm stdin_terminal stderr_terminal id since_epoch
    (finished (wait_for_registration_shutdown env faults se others delay listens id)) w = (w', Ok status) ->
  confirm && stdin_terminal && stderr_terminal = true /\ aus_state status = "revoked"%string /\
  (forall p, ~ authentic env (cw_registrations w') id p) /\ (forall bytes, ~ recorded env (cw_states w') (service_ref env id) bytes).
Proof.
  intros Hcodec Hlaw. unfold authority_revoke. intros (w1 & u & Hc & Hk)%cbind_Ok. injection Hc as <- Hc. destruct u. apply ensure_not_Ok, negb_false_iff in Hc.
  apply cbind_Ok in Hk as (w2 & now & Hn & Hk). injection Hn as <- _. apply cbind_Ok in Hk as (w3 & state & Hr & Hk).
  apply cbind_Ok in Hk as (w4 & [] & Hs%cmap_err_Ok & Hk). injection Hk as <- <-.
  apply (revoke_registration_facts env faults ae) in Hr as [(Hstate & Hgone & _) _]; [|done|done].
  unfold finished in Hs. apply cbind_Ok in Hs as (w5 & waited & Hw & Hk). destruct waited as [[]|]; [|done]. injection Hk as <-.
  unfold wait_for_registration_shutdown in Hw. apply cbind_Ok in Hw as (w6 & t & Ht & Hw). injection Ht as <- _. split_and!; [done|done| |].
  - intros p Hp. apply (Hgone p). by eapply await_shutdown_registrations.
  - by eapply await_shutdown_clean.
Qed.
End Lemmas.

(** * A concrete service *)

Module Running.
Import Sample.

#[local] Instance IpAddr_eq_dec : EqDecision IpAddr.
Proof. solve_decision. Defined.
#[local] Instance SocketAddr_eq_dec : EqDecision SocketAddr.
Proof. solve_decision. Defined.
#[local] Instance ServiceRecord_eq_dec : EqDecision ServiceRecord.
Proof. solve_decision. Defined.
#[local] Instance StopRequest_eq_dec : EqDecision StopRequest.
Proof. solve_decision. Defined.
#[local] Existing Instances Terminal.plan_eq_dec Terminal.receipt_eq_dec Terminal.revocation_eq_dec.

Definition id : string := "registration_000000000001".
Definition env : ProviderEnv := Terminal.env.
Definition steady : nat -> Faults := fun _ => no_faults.

Definition address : SocketAddr := {| sa_ip := V4 127 0 0 1; sa_port := 43123 |}.

Definition record : ServiceRecord := {|
  sv_schema_version := 1; sv_registration_id := id; sv_instance_id := "service_0123456789abcdef"; sv_product_version := "1.0.0";
  sv_started_at_unix_ms := 1000; sv_expires_at_unix_ms := 61000; sv_address := address; sv_endpoint := "http://127.0.0.1:43123/cli";
  sv_stop_ref := "svstop_0123456789abcdef" |}.

Definition stop_request : StopRequest := {|
  sq_schema_version := 1; sq_registration_id := id; sq_instance_id := "service_0123456789abcdef"; sq_requested_at_unix_ms := 3000 |}.

Definition se : ServiceEnv := {| se_version := "1.0.0"; se_record := one 5 record; se_stop := one 6 stop_request; se_display := fun _ => "127.0.0.1:43123"%string |}.

Definition ae : AuthorityCliEnv Clock := {|
  ae_version := "1.0.0"; ae_plan := one 1 Terminal.plan; ae_receipt := one 2 Terminal.receipt; ae_revocation := one 3 Terminal.revocation;
  ae_canonicalize := fun _ path => Ok path; ae_inspect := fun _ _ => Ok (rr_host_identity Terminal.request) |}.

Definition start : CliWorld (S := Store.Secrets) (H := Clock) :=
  {| cw_states := Store.empty; cw_registrations := Store.empty; cw_host := {| ck_time := 0; ck_waits := 0 |}; cw_ids := 0; cw_ops := 0 |}.

Definition planned : CliWorld := (states_install env steady Terminal.plan_ref [1] start).1.
Definition applied : CliWorld := (authority_apply_plan env steady ae Terminal.plan_ref 2000 planned).1.
Definition running : CliWorld := (states_install env steady (service_ref env id) [5] applied).1.

Definition no_delay (n : nat) : Z := 0.
Lemma no_delay_nonneg n : 0 <= no_delay n.
Proof. done. Qed.

Definition silent (n : nat) (a : SocketAddr) : bool := false.

(** The service removes its record in the first wait. *)
Definition stopping (n : nat) (st : StoreState (S := Store.Secrets) * StoreState (S := Store.Secrets)) : StoreState * StoreState :=
  ((integration_remove no_faults st.1 (service_ref env id)).1, st.2).

Definition host : Result HostExecutableIdentity RegistrationError := Ok (rr_host_identity Terminal.request).


(** The registration is revoked in the first wait. *)
Definition revoking (n : nat) (st : StoreState (S := Store.Secrets) * StoreState (S := Store.Secrets)) : StoreState * StoreState := (st.1, Store.empty).

Lemma empty_authentic i p : ~ authentic env Store.empty i p.
Proof. intros [_ _ _ _ (e & ? & ? & ? & He & _)]. vm_compute in He. discriminate He. Qed.

Lemma service_ends_witness :
  (ck_waits (cw_host (monitor (E := McpServeError) env steady revoking no_delay 5 (fun _ => false) (0 + 1 * 1000) id "svstop_0123456789abcdef" running).1) <= 1)%nat.
Proof.
  destruct (monitor env steady revoking no_delay 5 (fun _ => false) (0 + 1 * 1000) id "svstop_0123456789abcdef" running) as [w' r] eqn:E.
  apply (service_ends env steady revoking no_delay no_delay_nonneg 5 (fun _ => false) 1 id "svstop_0123456789abcdef" running w' r 0); try exact E; try (vm_compute; lia); try lia.
  intros n st p _. apply empty_authentic.
Defined.

Lemma revoke_ends_service_witness :
  let '(w, r) := authority_revoke env steady ae true true true id (Some 3000)
    (finished (wait_for_registration_shutdown env steady se stopping no_delay silent id)) running in
  r = Ok (authority_status_of Terminal.receipt (Some Terminal.revocation) "revoked") /\ forall p, ~ authentic env (cw_registrations w) id p.
Proof.
  assert (Hs : (authority_revoke env steady ae true true true id (Some 3000)
    (finished (wait_for_registration_shutdown env steady se stopping no_delay silent id)) running).2
    = Ok (authority_status_of Terminal.receipt (Some Terminal.revocation) "revoked")) by (vm_compute; reflexivity).
  destruct (authority_revoke env steady ae true true true id (Some 3000) (finished (wait_for_registration_shutdown env steady se stopping no_delay silent id)) running)
    as [w' r] eqn:E. cbn [fst snd] in *. rewrite Hs in E. split; [exact Hs|].
  apply (revoke_ends_service env steady se stopping no_delay silent (fun n st i p H => H) ae true true true id (Some 3000) running w' _ (env_for_codec _) (one_lawful 3 Terminal.revocation ltac:(lia)) E).
Defined.
End Running.
