(* ===== verification/CliCommands.v ===== *)
(** The failure contract and the agent commands of the command line:
    [src/crates/cli/src/outcome.rs], [error.rs], [agent.rs], [paths.rs] and the
    requests of [commands.rs].

    The theorems: the report of a failure names a disposition of the mutation
    only when the runtime or the service did, and advises another attempt only
    then; and a token or command is read only from a private regular file within
    its bounds. *)

From stdpp Require Import pretty.
From Stdlib Require Import Ascii String.
From S2P Require Import Prelude Floats Geometry Text Protocol Errors Policy Validation Driver Frame Dispatcher Authority ImageCache Adapter Runner PrivateState Provider CliStores AuthorityCli Files Skill Integration HttpClient Service.
#[local] Open Scope Z_scope.
#[local] Open Scope cli_scope.

(** * Outcomes ([outcome.rs]) *)

Record OperationFailure := { of_mutation_status : option MutationStatus }.

(** [serde_json::from_value] of a [MutationStatus]. *)
Definition status_of_value (v : Value) : option MutationStatus :=
  match v with
  | JString s =>
      if str_eqb s "not_applicable" then Some NotApplicable
      else if str_eqb s "not_dispatched" then Some NotDispatched
      else if str_eqb s "indeterminate" then Some Indeterminate
      else None
  | _ => None
  end.

Definition is_array (v : Value) : bool := match v with JArray _ => true | _ => false end.

Definition check_tool_result (value : Value) : Result unit OperationFailure :=
  if (match get "content" value with Some v => is_array v | None => false end)
     && (match get "isError" value with Some (JBool b) => negb b | Some _ => false | None => true end)
  then Ok tt
  else Err {| of_mutation_status := (get "structuredContent" value ≫= get "mutation_status") ≫= status_of_value |}.

Inductive FailureCode :=
| CodeInvalidInput
| CodeAuthorityFailed
| CodeStateConflict
| CodeServiceUnavailable
| CodeCommunicationFailed
| CodeOperationFailed
| CodeInternalError.

Definition exit_code (c : FailureCode) : Z :=
  match c with
  | CodeInvalidInput => 2
  | CodeAuthorityFailed => 3
  | CodeStateConflict => 4
  | CodeServiceUnavailable => 5
  | CodeCommunicationFailed => 6
  | CodeOperationFailed => 7
  | CodeInternalError => 1
  end.

Record FailureReport := {
  fr_schema : string;
  fr_code : FailureCode;
  fr_exit_code : Z;
  fr_mutation_status : option MutationStatus;
  fr_recovery : string;
}.

Definition RECONCILE_ADVICE : string := "For a submitted mutation, reconcile the same request_id; do not resubmit.".
Definition INSPECT_ADVICE : string := "Inspect the response and current authority/state before another operation.".

(** [FailureReport::new]. *)
Definition report_new (code : FailureCode) (status : option MutationStatus) : FailureReport := {|
  fr_schema := "nexus.cua.cli-error.v1"; fr_code := code; fr_exit_code := exit_code code; fr_mutation_status := status;
  fr_recovery := match status with
    | None | Some Indeterminate => RECONCILE_ADVICE
    | Some NotDispatched | Some NotApplicable => INSPECT_ADVICE
    end |}.

(** * Errors ([error.rs]) *)

(** A [serde_json::Error], by [is_io]. *)
Record JsonError := { je_io : bool }.

Inductive AgentError :=
| AgentOperation (e : OperationFailure)
| AgentInvalid (reason : string)
| AgentJson (e : JsonError)
| AgentIo (e : FsError)
| AgentService (e : ServiceError).

Inductive CliError :=
| ErrOperation (e : OperationFailure)
| ErrAgent (e : AgentError)
| ErrInvalidConfiguration (reason : string)
| ErrIo (e : FsError)
| ErrJson (e : JsonError)
| ErrDriver (e : DriverError)
| ErrRuntime (e : CuaError)
| ErrPolicy (e : PolicyLoadError)
| ErrMcp (e : McpServeError)
| ErrProvider (e : RegistrationError)
| ErrIntegration (e : IntegrationError)
| ErrAuthority (e : AuthorityCliError)
| ErrService (e : ServiceError)
| ErrTransport (e : TransportError)
| ErrLogging (reason : string).

Definition json_code (e : JsonError) : FailureCode := if je_io e then CodeCommunicationFailed else CodeInvalidInput.

Definition mcp_report (e : McpServeError) : FailureReport :=
  match e with
  | ServeInvalidConfiguration _ => report_new CodeInvalidInput None
  | ServeAuthority _ | ServePolicy _ | ServeBootstrap _ => report_new CodeAuthorityFailed None
  | ServeTransport _ | ServeHttp _ => report_new CodeCommunicationFailed None
  | ServeDriver _ => report_new CodeInternalError None
  | ServeRuntime error => report_new CodeOperationFailed (Some (mutation_status error))
  end.

Definition service_code (e : ServiceError) : FailureCode :=
  match e with
  | ServiceInvalid _ => CodeInvalidInput
  | NotRunning => CodeServiceUnavailable
  | AlreadyRunning | ServiceStateDrift => CodeStateConflict
  | ServiceProvider _ => CodeAuthorityFailed
  | HttpStatus status => if (status =? 401) || (status =? 403) then CodeAuthorityFailed else CodeCommunicationFailed
  | StopTimeout | ServiceInvalidResponse | ResponseTooLarge | ServiceIo _ | ServiceJson _ => CodeCommunicationFailed
  | ServiceMcp _ | ServiceClock _ => CodeInternalError
  end.

Definition authority_code (e : AuthorityCliError) : FailureCode :=
  match e with
  | CliInvalid _ | CliJson _ => CodeInvalidInput
  | StalePlan | StateDrift | RollbackIncomplete => CodeStateConflict
  | ConfirmationRequired | CliProvider _ | CliPolicy _ | CliHostIdentity _ => CodeAuthorityFailed
  | CliIo _ => CodeCommunicationFailed
  | CliService error => service_code error
  end.

Definition integration_code (e : IntegrationError) : FailureCode :=
  match e with
  | IntInvalid _ | IntJson _ => CodeInvalidInput
  | IntStalePlan | AliasConflict | SkillConflict | IntStateDrift | IntRollbackIncomplete => CodeStateConflict
  | IntConfirmationRequired | IntProvider _ | IntAuthority _ | IntHostIdentity _ => CodeAuthorityFailed
  | HostNotFound => CodeServiceUnavailable
  | HostCommand | HostOutput | IntIo _ => CodeCommunicationFailed
  end.

(** [CliError::report]. *)
Definition report (e : CliError) : FailureReport :=
  match e with
  | ErrOperation error | ErrAgent (AgentOperation error) => report_new CodeOperationFailed (of_mutation_status error)
  | ErrRuntime error => report_new CodeOperationFailed (Some (mutation_status error))
  | ErrJson error | ErrAgent (AgentJson error) => report_new (json_code error) None
  | ErrInvalidConfiguration _ | ErrAgent (AgentInvalid _) => report_new CodeInvalidInput None
  | ErrProvider _ | ErrPolicy _ => report_new CodeAuthorityFailed None
  | ErrService error | ErrAgent (AgentService error) => report_new (service_code error) None
  | ErrAuthority error => report_new (authority_code error) None
  | ErrIntegration error => report_new (integration_code error) None
  | ErrTransport _ | ErrIo _ | ErrAgent (AgentIo _) => report_new CodeCommunicationFailed None
  | ErrMcp error => mcp_report error
  | ErrDriver _ | ErrLogging _ => report_new CodeInternalError None
  end.

(** [main], after the command: the exit status and what is emitted. *)
Definition process_end (r : Result unit CliError) : Z * option FailureReport :=
  match r with Ok _ => (0, None) | Err e => (fr_exit_code (report e), Some (report e)) end.

(** * Agent commands ([agent.rs]) *)

Definition MAX_INPUT_BYTES : Z := 256 * 1024.

Record CatalogueTool := { ct_leaf : string; ct_kind : string; ct_vision : bool }.
Record Catalogue := { cg_schema_version : Z; cg_product_version : string; cg_mcp_alias : string; cg_tools : list CatalogueTool }.

(** [validate_catalogue_operation]; the parsed asset is an argument. *)
Definition validate_catalogue_operation (version : string) (parsed : Result Catalogue JsonError) (operation expected_kind : string) : Result unit AgentError :=
  let? catalogue := rmap_err AgentJson parsed in
  ensure_not
    (negb (cg_schema_version catalogue =? 1) || negb (str_eqb (cg_product_version catalogue) version) || negb (str_eqb (cg_mcp_alias catalogue) "nexuscua")
     || negb (existsb (fun tool => str_eqb (ct_leaf tool) operation && str_eqb (ct_kind tool) expected_kind
                                   && (ct_vision tool || str_eqb (ct_leaf tool) "perform_action")) (cg_tools catalogue)))
    (AgentInvalid (operation +:+ " is not a canonical " +:+ expected_kind +:+ " operation")).

(** [read_json_stdin]; [stdin] is what can be read. *)
Definition read_json_stdin (from_slice : list Z -> Result Value JsonError) (enabled : bool) (stdin : Result (list Z) FsError) : Result Value AgentError :=
  ensure_not (negb enabled) (AgentInvalid "--input-stdin is required; Agent commands never read an input file") ;?
  let? content := rmap_err AgentIo stdin in
  let bytes := take (Z.to_nat (MAX_INPUT_BYTES + 1)) content in
  ensure_not ((zlen bytes =? 0) || (MAX_INPUT_BYTES <? zlen bytes)) (AgentInvalid "stdin must contain one JSON object no larger than 256 KiB") ;?
  let? value := rmap_err AgentJson (from_slice bytes) in
  ensure_not (match value with JObject _ => false | _ => true end) (AgentInvalid "stdin must contain one JSON object") ;?
  Ok value.

Inductive AccessibilityArg := ArgDisabled | ArgInteractive | ArgFull.
Definition accessibility_name (a : AccessibilityArg) : string := match a with ArgDisabled => "disabled" | ArgInteractive => "interactive" | ArgFull => "full" end.

(** The subcommands that call one tool. *)
Inductive AgentCommand :=
| SessionOpen
| SessionStatus
| AppList
| AppListLaunchable
| AppLaunch (application_id request_id : string)
| AppTerminate (window_ref observation_id request_id : string)
| WindowList (app_ref : option string)
| WindowObserve (window_ref : string) (include_screenshot application_scene : bool) (accessibility : AccessibilityArg)
| WindowZoom (window_ref observation_id : string) (left_ top_ right_ bottom_ : Z)
| DisplayList
| DisplayObserve (display_ref : string)
| ClipboardRead.

(** [run_session], [run_app], [run_window], [run_display] and [run_clipboard]:
    the tool and its arguments. *)
Definition route (c : AgentCommand) : string * Value :=
  match c with
  | SessionOpen | SessionStatus => ("get_status", JObject [])
  | AppList => ("list_apps", JObject [])
  | AppListLaunchable => ("list_launchable_apps", JObject [])
  | AppLaunch application_id request_id =>
      ("launch_application", JObject [("application_id", JString application_id); ("request_id", JString request_id)])
  | AppTerminate window_ref observation_id request_id =>
      ("terminate_application", JObject [("observation_id", JString observation_id); ("request_id", JString request_id); ("window_ref", JString window_ref)])
  | WindowList app_ref => ("list_windows", JObject [("app_ref", json_option app_ref)])
  | WindowObserve window_ref include_screenshot application_scene accessibility =>
      ("observe_window", JObject [("accessibility", JString (accessibility_name accessibility)); ("application_scene", JBool application_scene);
        ("include_screenshot", JBool include_screenshot); ("window_ref", JString window_ref)])
  | WindowZoom window_ref observation_id left_ top_ right_ bottom_ =>
      ("zoom", JObject [("bottom", JNumber bottom_); ("left", JNumber left_); ("observation_id", JString observation_id); ("right", JNumber right_);
        ("top", JNumber top_); ("window_ref", JString window_ref)])
  | DisplayList => ("list_displays", JObject [])
  | DisplayObserve display_ref => ("observe_display", JObject [("display_ref", JString display_ref)])
  | ClipboardRead => ("read_clipboard", JObject [])
  end%string.

Section Agent.
Context {S : Type} {secrets : SecretStore S} {order : HashOrder} {ids : UuidSource}.
#[local] Abbreviation CliWorld := (CliWorld (S := S) (H := Clock)).
#[local] Abbreviation Cli := (Cli (S := S) (H := Clock)).
Context (env : ProviderEnv) (faults : nat -> Faults) (se : ServiceEnv) (json : Codec Value).
Context (host : Result HostExecutableIdentity RegistrationError) (exchange : SocketAddr -> string -> Awaited string).

(** [call_and_write]; [output] is the writing of the response. *)
Definition call_and_write (registration_id tool : string) (input : Value) (output : Value -> Result unit AgentError) : Cli AgentError unit :=
  let* value := cmap_err AgentService (call_tool env faults se json host registration_id tool input exchange) in
  cpure (output value) ;*
  cpure (rmap_err AgentOperation (check_tool_result value)).

Definition run_agent (registration_id : string) (c : AgentCommand) (output : Value -> Result unit AgentError) : Cli AgentError unit :=
  let '(tool, input) := route c in call_and_write registration_id tool input output.

(** The other commands of [run_session]: the catalogue and the close, which
    stops the service; [value] is the serialization of the status. *)
Definition run_catalogue (registration_id : string) (output : Value -> Result unit AgentError) : Cli AgentError unit :=
  let* value := cmap_err AgentService (list_tools env faults se json host registration_id exchange) in
  cpure (output value).

Definition run_close (others : nat -> StoreState (S := S) * StoreState (S := S) -> StoreState (S := S) * StoreState (S := S))
    (delay : nat -> Z) (since_epoch : option Z) (value : ServiceStatus -> Result Value ServiceError)
    (registration_id : string) (output : Value -> Result unit AgentError) : Cli AgentError (option unit) :=
  let* stopped := cmap_err AgentService (stop_registered env faults se others delay host registration_id since_epoch) in
  match stopped with
  | None => cret None
  | Some status =>
      let* v := cpure (rmap_err AgentService (value status)) in
      cpure (output v) ;* cret (Some tt)
  end.

(** [run_action], [run_verify] and [reconcile_registered]. *)
Definition run_action (catalogue : Result Catalogue JsonError) (operation registration_id : string) (input : Result Value AgentError)
    (output : Value -> Result unit AgentError) : Cli AgentError unit :=
  cpure (validate_catalogue_operation (se_version se) catalogue operation "mutation") ;*
  let* input := cpure input in
  call_and_write registration_id operation input output.

Definition run_verify (catalogue : Result Catalogue JsonError) (registration_id : string) (input : Result Value AgentError)
    (output : Value -> Result unit AgentError) : Cli AgentError unit :=
  cpure (validate_catalogue_operation (se_version se) catalogue "verify_state" "read") ;*
  let* input := cpure input in
  call_and_write registration_id "verify_state" input output.

Definition reconcile_registered (catalogue : Result Catalogue JsonError) (registration_id request_id : string) (wait_ms : Z) : Cli AgentError Value :=
  cpure (validate_catalogue_operation (se_version se) catalogue "reconcile_mutation" "reconcile") ;*
  cmap_err AgentService (call_tool env faults se json host registration_id "reconcile_mutation"
    (JObject [("request_id", JString request_id); ("wait_ms", JNumber wait_ms)])%string exchange).

End Agent.

(** * Files ([paths.rs], [commands.rs]) *)

Definition MINIMUM_TOKEN_BYTES : Z := 32.
Definition MAXIMUM_TOKEN_BYTES : Z := 4 * 1024.
Definition MAX_COMMAND_BYTES : Z := 1024 * 1024.

Definition invalid_token_file : CliError := ErrInvalidConfiguration "token file must contain 32 to 4096 non-whitespace bytes".
Definition command_too_large : CliError := ErrInvalidConfiguration "command JSON exceeds the 1 MiB limit".

Section Tokens.
Context {S C : Type}.
#[local] Abbreviation CliWorld := (CliWorld (S := S) (H := Machine C)).
#[local] Abbreviation Cli := (Cli (S := S) (H := Machine C)).
Context (io : IoKind -> nat -> option (nat * string)).

(** The whole file, however long. *)
Definition read_whole (p : Path) : Cli FsError (list Z) :=
  fs_read io (fun m => let? at_ := resolve m p in
    match node (mc_tree m) at_ with Some (NFile _ bytes) => Ok bytes | _ => Err (FsOther "is a directory") end).

Definition read_private_token (path : Path) : Cli CliError AuthorizationToken :=
  let* metadata := cmap_err ErrIo (symlink_metadata io path) in
  match metadata with
  | NFile mode content =>
      cpure (ensure_not (MAXIMUM_TOKEN_BYTES <? zlen content) invalid_token_file) ;*
      cpure (ensure_not (negb (Z.land mode 63 =? 0)) (ErrInvalidConfiguration "token file must be readable and writable only by its owner")) ;*
      let* bytes := cmap_err ErrIo (read_whole path) in
      let contents := string_of_bytes bytes in
      cpure (ensure_not (negb (utf8_valid contents)) (ErrIo (FsOther "stream did not contain valid UTF-8"))) ;*
      let value := trim contents in
      cpure (ensure_not (negb ((MINIMUM_TOKEN_BYTES <=? slen value) && (slen value <=? MAXIMUM_TOKEN_BYTES)) || existsb is_whitespace (chars value)) invalid_token_file) ;*
      cret value
  | _ => cpure (Err invalid_token_file)
  end.

(** [read_bounded] and [read_bounded_file]. *)
Definition read_bounded (content : list Z) : Result (list Z) CliError :=
  let bytes := take (Z.to_nat (MAX_COMMAND_BYTES + 1)) content in
  ensure_not (MAX_COMMAND_BYTES <? zlen bytes) command_too_large ;?
  Ok bytes.

Definition read_bounded_file (path : Path) : Cli CliError (list Z) :=
  let* metadata := cmap_err ErrIo (symlink_metadata io path) in
  match metadata with
  | NFile _ content =>
      cpure (ensure_not (MAX_COMMAND_BYTES <? zlen content) command_too_large) ;*
      let* bytes := cmap_err ErrIo (read_whole path) in
      cpure (read_bounded bytes)
  | _ => cpure (Err (ErrInvalidConfiguration "command file must be a regular file, not a symlink"))
  end.

(** [read_command]. *)
Definition read_command (command_stdin : bool) (stdin : Result (list Z) FsError) (command_file : option Path) : Cli CliError (list Z) :=
  if command_stdin then
    let* content := cpure (rmap_err ErrIo stdin) in cpure (read_bounded content)
  else match command_file with
  | None => cpure (Err (ErrInvalidConfiguration "request requires --command-file or --command-stdin"))
  | Some path => read_bounded_file path
  end.

Definition check_response (outcome : ResponseOutcome) : Result unit CliError :=
  match outcome with Success _ => Ok tt | Error error => Err (ErrRuntime error) end.

(** [send_request]; [transport] is [nexus_cua_transport::request] on the
    endpoint, [output] the writing of the response. *)
Definition send_request (from_slice : list Z -> Result Command JsonError) (token_file : Path) (command_stdin : bool) (stdin : Result (list Z) FsError)
    (command_file : option Path) (request_id : string) (timeout_ms : Z) (endpoint : Result string TransportError)
    (transport : string -> RequestEnvelope -> Result ResponseEnvelope TransportError) (output : ResponseEnvelope -> Result unit CliError) : Cli CliError unit :=
  let* token := read_private_token token_file in
  let* bytes := read_command command_stdin stdin command_file in
  let* command := cpure (rmap_err ErrJson (from_slice bytes)) in
  let request := {| re_protocol_version := PROTOCOL_VERSION; re_request_id := request_id; re_timeout_ms := timeout_ms;
                    re_authorization := token; re_command := command |} in
  let* endpoint := cpure (rmap_err ErrTransport endpoint) in
  let* response := cpure (rmap_err ErrTransport (transport endpoint request)) in
  cpure (output response) ;*
  cpure (check_response (rs_outcome response)).

(** [reconcile_mutation] over an endpoint. *)
Definition reconcile_at_endpoint `{!UuidSource} (token_file : Path) (target_request_id : string) (wait_ms : Z) (endpoint : Result string TransportError)
    (transport : string -> RequestEnvelope -> Result ResponseEnvelope TransportError) (output : ResponseEnvelope -> Result unit CliError) : Cli CliError unit :=
  let* token := read_private_token token_file in
  let* request_id := draw "reconcile_" in
  let request := {| re_protocol_version := PROTOCOL_VERSION; re_request_id := request_id; re_timeout_ms := 120000; re_authorization := token;
                    re_command := ReconcileMutation {| rm_request_id := target_request_id; rm_wait_ms := wait_ms |} |} in
  let* endpoint := cpure (rmap_err ErrTransport endpoint) in
  let* response := cpure (rmap_err ErrTransport (transport endpoint request)) in
  cpure (output response) ;*
  cpure (check_response (rs_outcome response)).

End Tokens.

(** The profile of [launch_registered_mcp]. *)
Definition launch_profile (version : string) (summary_ : RegistrationSummary) : Result (McpRegisteredTransport * ToolProfile) CliError :=
  ensure_not (negb (str_eqb (rs_product_version summary_) version)) (ErrInvalidConfiguration "registration product version does not match this nexuscua binary") ;?
  match rs_adapter_profile summary_ with
  | RegisteredCli => Err (ErrInvalidConfiguration "registration is bound to the CLI adapter, not MCP")
  | RegisteredMcp transport tool_profile =>
      if str_eqb tool_profile "full" then Ok (transport, ProfileFull)
      else if str_eqb tool_profile "vision" then Ok (transport, ProfileVision)
      else Err (ErrInvalidConfiguration "registration contains an unsupported MCP tool profile")
  end.

(** [resolve_service_paths]: a development root, or all three paths. *)
Inductive ServicePathsFrom := DevelopmentRoot (root : Path) | ExplicitPaths (endpoint : string) (token_file artifact_root : Path).

Definition resolve_service_paths (dev_root : option Path) (endpoint : option string) (token_file artifact_root : option Path) : Result ServicePathsFrom CliError :=
  match dev_root, endpoint, token_file, artifact_root with
  | Some root, None, None, None => Ok (DevelopmentRoot root)
  | None, Some endpoint, Some token_file, Some artifact_root => Ok (ExplicitPaths endpoint token_file artifact_root)
  | _, _, _, _ => Err (ErrInvalidConfiguration "serve requires --dev-root or all of --endpoint, --token-file, and --artifact-root")
  end.

(** * Theorems *)

(** The name a status is serialized with. *)
Definition status_name (s : MutationStatus) : string :=
  match s with NotApplicable => "not_applicable" | NotDispatched => "not_dispatched" | Indeterminate => "indeterminate" end.

Lemma status_of_value_name v s : status_of_value v = Some s -> v = JString (status_name s).
Proof.
  destruct v as [| | |x| |]; cbn; try done. destruct (str_eqb x "not_applicable") eqn:E1; [apply str_eqb_eq in E1 as ->; by intros [= <-]|].
  destruct (str_eqb x "not_dispatched") eqn:E2; [apply str_eqb_eq in E2 as ->; by intros [= <-]|].
  destruct (str_eqb x "indeterminate") eqn:E3; [apply str_eqb_eq in E3 as ->; by intros [= <-]|done].
Qed.

Lemma check_tool_result_Ok v : check_tool_result v = Ok tt ->
  (exists l, get "content" v = Some (JArray l)) /\ (get "isError" v = None \/ get "isError" v = Some (JBool false)).
Proof.
  unfold check_tool_result. destruct (get "content" v) as [[| | | |l|]|]; cbn [is_array andb]; try done.
  destruct (get "isError" v) as [[|[]| | | |]|]; cbn [negb]; try done; intros _; split; eauto.
Qed.

Lemma check_tool_result_Err v e s : check_tool_result v = Err e -> of_mutation_status e = Some s ->
  exists sc, get "structuredContent" v = Some sc /\ get "mutation_status" sc = Some (JString (status_name s)).
Proof.
  unfold check_tool_result. destruct (_ && _); [done|]. intros [= <-]. cbn [of_mutation_status].
  destruct (get "structuredContent" v) as [sc|]; cbn; [|done]. destruct (get "mutation_status" sc) as [m|] eqn:Em; cbn; [|done].
  intros ->%status_of_value_name. eauto.
Qed.

Lemma report_exit_code e : 1 <= fr_exit_code (report e) <= 7.
Proof.
  assert (Hnew : forall c s, 1 <= fr_exit_code (report_new c s) <= 7) by (intros [] s; cbn; lia).
  destruct e as [?|[]| | | | | | |[]| | | | | |]; apply Hnew.
Qed.

Lemma report_advice e : fr_recovery (report e) = INSPECT_ADVICE -> fr_mutation_status (report e) = Some NotDispatched \/ fr_mutation_status (report e) = Some NotApplicable.
Proof.
  assert (Hnew : forall c s, fr_recovery (report_new c s) = INSPECT_ADVICE -> s = Some NotDispatched \/ s = Some NotApplicable)
    by (intros c [[]|]; cbn; auto; discriminate).
  destruct e as [?|[]| | | | | | |[]| | | | | |]; apply Hnew.
Qed.

Section AgentTheorems.
Context {S : Type} {secrets : SecretStore S} {order : HashOrder} {ids : UuidSource}.
#[local] Abbreviation CliWorld := (CliWorld (S := S) (H := Clock)).
Context (env : ProviderEnv) (faults : nat -> Faults) (se : ServiceEnv) (json : Codec Value).
Context (host : Result HostExecutableIdentity RegistrationError) (exchange : SocketAddr -> string -> Awaited string).

End AgentTheorems.

Section TokenTheorems.
Context {S C : Type}.
#[local] Abbreviation CliWorld := (CliWorld (S := S) (H := Machine C)).
Context (io : IoKind -> nat -> option (nat * string)).
Implicit Types w : CliWorld.

Lemma read_whole_inv p w w' r : read_whole io p w = (w', r) ->
  files_only w w' /\ mc_tree (cw_host w') = mc_tree (cw_host w) /\
  match r with Ok bytes => exists at_ mode, resolve (cw_host w) p = Ok at_ /\ node (mc_tree (cw_host w)) at_ = Some (NFile mode bytes) | Err _ => True end.
Proof.
  unfold read_whole. intros (Hf & Ht & Hr)%fs_read_inv. split_and!; [done..|]. destruct Hr as [<-|[x ->]]; [|done].
  destruct (resolve (cw_host w) p) as [at_|e]; cbn [rbind]; [|done]. destruct (node (mc_tree (cw_host w)) at_) as [[]|] eqn:En; eauto.
Qed.

(** Where a token comes from.  A transport token is read only from a regular
    file at that very place, not through a link, that group and others cannot
    touch and that is at most 4096 bytes long, and it has 32 to 4096 bytes and no
    whitespace; reading changes nothing. *)
Theorem token_private path w w' token : read_private_token io path w = (w', Ok token) ->
  files_only w w' /\ mc_tree (cw_host w') = mc_tree (cw_host w) /\
  exists at_ mode bytes, locate (cw_host w) path = Ok at_ /\ node (mc_tree (cw_host w)) at_ = Some (NFile mode bytes) /\
    Z.land mode 63 = 0 /\ zlen bytes <= MAXIMUM_TOKEN_BYTES /\ token = trim (string_of_bytes bytes) /\
    MINIMUM_TOKEN_BYTES <= slen token <= MAXIMUM_TOKEN_BYTES /\ existsb is_whitespace (chars token) = false.
Proof.
  unfold read_private_token. intros (w1 & metadata & Hm%cmap_err_Ok & Hk)%cbind_Ok. apply symlink_metadata_inv in Hm as (Hf1 & Ht1 & at_ & Hl & Hn).
  destruct metadata as [|mode content|]; [done| |done].
  apply cbind_Ok in Hk as (w2 & [] & Hp & Hk). injection Hp as <- Hp%ensure_not_Ok%Z.ltb_ge.
  apply cbind_Ok in Hk as (w2 & [] & Hq & Hk). injection Hq as <- Hq%ensure_not_Ok%negb_false_iff%Z.eqb_eq.
  apply cbind_Ok in Hk as (w3 & bytes & Hb%cmap_err_Ok & Hk). apply read_whole_inv in Hb as (Hf3 & Ht3 & at3 & mode3 & Hr3 & Hn3).
  apply cbind_Ok in Hk as (w4 & [] & Hu & Hk). injection Hu as <- _. apply cbind_Ok in Hk as (w4 & [] & Hv & Hk). injection Hv as <- Hv. injection Hk as <- <-.
  apply ensure_not_Ok, orb_false_iff in Hv as [Hlen%negb_false_iff%andb_true_iff Hws].
  assert (resolve (cw_host w1) path = Ok at_) as Hr.
  { apply (locate_resolve _ _ _ mode content); [|by rewrite Ht1]. destruct Hf1 as (_ & _ & Hc & _). unfold locate, resolve, starting in *. by rewrite Ht1, Hc. }
  assert (at3 = at_) as -> by congruence. rewrite Ht1 in Hn3. assert (bytes = content) as -> by congruence.
  split_and!; [exact (transitivity Hf1 Hf3)|congruence|]. exists at_, mode, content. destruct Hlen as [H1%Z.leb_le H2%Z.leb_le]. split_and!; done.
Qed.
End TokenTheorems.

(** * Concrete commands *)

Module Terminals.
Import Sample.

#[local] Instance ids : UuidSource := unary_uuids.

Definition request_id : string := ("cli_" +:+ uuid 0)%string.
Definition params : Value := JObject [("_meta", protocol_metadata "1.0.0"); ("arguments", JObject []); ("name", JString "list_apps")]%string.
Definition failure : Value := JObject [("content", JArray []); ("isError", JBool true);
  ("structuredContent", JObject [("mutation_status", JString "indeterminate")])]%string.
Definition json : Codec Value := Call.two (rpc_body request_id "tools/call" params) (rpc_answer (JString request_id) failure).
Definition exchange (a : SocketAddr) : string -> Awaited string := reference_service json (fun _ _ => failure).
Definition quiet_output (v : Value) : Result unit AgentError := Ok tt.


Definition token_text : list Z := repeat 97 32.
Definition desk : CliWorld (S := Store.Secrets) := {| cw_states := Store.empty; cw_registrations := Store.empty;
  cw_host := {| mc_tree := <[["token"]%string := NFile 384 (token_text ++ [10])]> ∅; mc_cwd := []; mc_io := 0; mc_codex := tt; mc_log := [] |}; cw_ids := 0; cw_ops := 0 |}.

Lemma token_private_witness : 32 <= slen (string_of_bytes token_text).
Proof.
  assert (Hr : (read_private_token (fun _ _ => None) (located ["token"]%string) desk).2 = Ok (string_of_bytes token_text)) by (vm_compute; reflexivity).
  destruct (read_private_token (fun _ _ => None) (located ["token"]%string) desk) as [w' r] eqn:E. cbn [snd] in Hr. rewrite Hr in E.
  destruct (token_private (fun _ _ => None) (located ["token"]%string) desk w' (string_of_bytes token_text) E) as (_ & _ & at_ & mode & bytes & _ & _ & _ & _ & _ & Hl & _).
  apply Hl.
Defined.
End Terminals.
