(* ===== verification/InputText.v ===== *)
(** What the native input actors share: [src/crates/platform/src/input_text.rs],
    and the arithmetic both [macos/input.rs] and [windows/input.rs] use.

    [chunks] cuts UTF-16 text into packets; the lemmas show that they are the
    encodings of whole characters, in order and of bounded size. *)

From Stdlib Require Import Ascii String SpecFloat.
From S2P Require Import Prelude Floats Geometry Text Protocol Errors.
#[local] Open Scope Z_scope.

(** * Text packets ([input_text.rs]) *)

Definition PACKET_UNITS : nat := 20.

Definition is_high_surrogate (u : Z) : bool := (55296 <=? u) && (u <=? 56319).

(** The end of the first packet of what is left. *)
Definition packet_end (units : list Z) : nat :=
  let end_ := Nat.min PACKET_UNITS (length units) in
  if (end_ <? length units)%nat && match units !! (end_ - 1)%nat with Some u => is_high_surrogate u | None => false end
  then (end_ - 1)%nat else end_.

Fixpoint chunks_from (fuel : nat) (units : list Z) : list (list Z) :=
  match units, fuel with
  | [], _ => []
  | _, O => []
  | _, S fuel => take (packet_end units) units :: chunks_from fuel (drop (packet_end units) units)
  end.

Definition chunks (units : list Z) : list (list Z) := chunks_from (length units) units.

(** [str::encode_utf16]. *)
Definition utf16_of (c : Z) : list Z :=
  if c <? 65536 then [c] else [55296 + (c - 65536) / 1024; 56320 + (c - 65536) mod 1024].

Definition encode_utf16 (s : string) : list Z := concat (utf16_of <$> (code_point <$> Text.chars s)).

(** * Keys, buttons and numbers *)

#[export] Instance PointerButton_eq_dec : EqDecision PointerButton.
Proof. solve_decision. Defined.

#[export] Instance PointerButton_countable : Countable PointerButton.
Proof.
  refine (inj_countable' (fun b => match b with Left => 0 | Middle => 1 | Right => 2 end)
                         (fun n => if n =? 0 then Left else if n =? 1 then Middle else Right) _).
  by intros [].
Defined.

(** A key of one ASCII character. *)
Definition single_ascii (key : string) : option Z :=
  match key with
  | String c EmptyString => if byte_of c <? 128 then Some (byte_of c) else None
  | _ => None
  end.

(** [i32], [f64::clamp] and [as i32]. *)
Definition I32_MIN : Z := -2147483648.
Definition I32_MAX : Z := 2147483647.

Definition f64_clamp (x lo hi : f64) : f64 := if f64_lt x lo then lo else if f64_gt x hi then hi else x.

Definition f64_as_i32 (x : f64) : Z :=
  match x with
  | S754_nan | S754_zero _ => 0
  | S754_infinity s => if s then I32_MIN else I32_MAX
  | S754_finite s m e => Z.max I32_MIN (Z.min I32_MAX (cond_Zopp s (Z.shiftl (Zpos m) e)))
  end.

Definition f64_sub (x y : f64) : f64 := SFsub 53 1024 x y.
Definition f64_neg (x : f64) : f64 := SFopp x.

(** Time in nanoseconds. *)
Definition MILLISECOND : Z := 1000000.
(** [1..=count]. *)
Definition one_to (count : Z) : list Z := seqZ 1 count.

(** A point on the way, and the number of steps. *)
Definition interpolated (from to : ScreenPoint) (step steps : Z) : ScreenPoint :=
  let progress := f64_div (f64_of_Z step) (f64_of_Z steps) in
  {| sp_x := f64_add (sp_x from) (f64_mul (f64_sub (sp_x to) (sp_x from)) progress);
     sp_y := f64_add (sp_y from) (f64_mul (f64_sub (sp_y to) (sp_y from)) progress) |}.

Definition interpolation_steps (duration_ms : Z) : Z := Z.max 1 (Z.min 625 (duration_ms / 16)).

(** The errors both actors report. *)
Definition input_failure (message : string) : DriverError := driver_error DPlatform message.
Definition unsupported_key (key : string) : DriverError := driver_error DUnsupported ("unsupported normalized key: " +:+ key)%string.

(** * Keys that come up again *)

(** Every key that goes down comes up later in the events. *)
Fixpoint settled {K} (events : list (K * bool)) : Prop :=
  match events with
  | [] => True
  | (code, down) :: rest => (down = true -> (code, false) ∈ rest) /\ settled rest
  end.

Lemma settled_app {K} (xs ys : list (K * bool)) :
  settled ys -> (forall pre code rest, xs = pre ++ (code, true) :: rest -> (code, false) ∈ rest ++ ys) -> settled (xs ++ ys).
Proof.
  intros Hy. induction xs as [|[code down] xs IH]; intros Hx; [done|]. split.
  - intros ->. by apply (Hx [] code).
  - apply IH. intros pre c rest ->. by apply (Hx ((code, down) :: pre)).
Qed.

(** * Computations of an actor *)

Section Act.
Context {W : Type}.

Definition Act (A : Type) : Type := W -> W * Result A DriverError.
Definition iret {A} (a : A) : Act A := fun w => (w, Ok a).
Definition ierr {A} (e : DriverError) : Act A := fun w => (w, Err e).
Definition ibind {A B} (m : Act A) (k : A -> Act B) : Act B :=
  fun w => match m w with (w1, Ok a) => k a w1 | (w1, Err e) => (w1, Err e) end.
(** The result kept instead of propagated. *)
Definition ikeep {A B} (m : Act A) (k : Result A DriverError -> Act B) : Act B :=
  fun w => let '(w1, r) := m w in k r w1.

Fixpoint for_each {A} (xs : list A) (body : A -> Act unit) : Act unit :=
  match xs with
  | [] => iret tt
  | x :: xs => ibind (body x) (fun _ => for_each xs body)
  end.

Fixpoint collect {A B} (xs : list A) (body : A -> Act B) : Act (list B) :=
  match xs with
  | [] => iret []
  | x :: xs => ibind (body x) (fun y => ibind (collect xs body) (fun ys => iret (y :: ys)))
  end.
End Act.

Notation "'let&' x ':=' m 'in' k" := (ibind m (fun x => k)) (at level 10, m at level 100, k at level 200).
Notation "m ';&' k" := (ibind m (fun _ => k)) (at level 199, k at level 200, right associativity).

(** * Packets end between characters *)

(** A Unicode scalar value. *)
Definition scalar (c : Z) : Prop := 0 <= c < 55296 \/ 57344 <= c < 1114112.

Definition utf16 (cs : list Z) : list Z := concat (utf16_of <$> cs).

Lemma utf16_of_cases c : scalar c ->
  (exists u, utf16_of c = [u] /\ is_high_surrogate u = false) \/
  (exists h l, utf16_of c = [h; l] /\ is_high_surrogate h = true /\ is_high_surrogate l = false).
Proof.
  unfold scalar, utf16_of, is_high_surrogate. intros Hc. destruct (Z.ltb_spec c 65536).
  - left. eexists. split; [done|]. destruct Hc; [apply andb_false_intro1|apply andb_false_intro2]; lia.
  - right. eexists _, _. split; [done|].
    pose proof (Z.div_pos (c - 65536) 1024). pose proof (Z.mod_pos_bound (c - 65536) 1024).
    assert ((c - 65536) / 1024 < 1024) by (apply Z.div_lt_upper_bound; lia).
    split; [rewrite andb_true_iff; lia|apply andb_false_intro2; lia].
Qed.

Lemma utf16_nil cs : Forall scalar cs -> utf16 cs = [] -> cs = [].
Proof.
  intros [|c cs' Hc _]; [done|]. unfold utf16. cbn. intros [Hnil _]%app_eq_nil.
  destruct (utf16_of_cases c Hc) as [(? & Hu & _)|(? & ? & Hu & _)]; congruence.
Qed.

Lemma utf16_last cs u : Forall scalar cs -> last (utf16 cs) = Some u -> is_high_surrogate u = false.
Proof.
  induction cs as [|c cs IH] using rev_ind; [done|]. intros [_ Hc]%Forall_app.
  unfold utf16. rewrite fmap_app, concat_app. cbn. rewrite app_nil_r.
  apply Forall_singleton, utf16_of_cases in Hc as [(v & -> & Hv)|(h & l & -> & _ & Hl)].
  - rewrite last_snoc. by intros [= <-].
  - rewrite (app_assoc _ [h] [l] : _ ++ [h; l] = _), last_snoc. by intros [= <-].
Qed.

(** The units up to [k] are whole characters. *)
Definition boundary (cs : list Z) (k : nat) : Prop :=
  exists front rest, cs = front ++ rest /\ take k (utf16 cs) = utf16 front /\ drop k (utf16 cs) = utf16 rest.

Lemma boundary_0 cs : boundary cs 0.
Proof. by exists [], cs. Qed.

Lemma boundary_cons c cs k : boundary cs k -> boundary (c :: cs) (length (utf16_of c) + k).
Proof.
  intros (front & rest & -> & Ht & Hd). exists (c :: front), rest. unfold utf16 in *. cbn.
  rewrite take_app_add, drop_app_add, Ht, Hd. done.
Qed.

Lemma boundary_or_high cs k : Forall scalar cs -> (k <= length (utf16 cs))%nat ->
  boundary cs k \/ exists k' u, k = S k' /\ utf16 cs !! k' = Some u /\ is_high_surrogate u = true /\ boundary cs k'.
Proof.
  intros Hcs. revert k. induction Hcs as [|c cs Hc Hcs IH]; intros k Hk.
  { left. cbn in Hk. assert (k = 0)%nat as -> by lia. apply boundary_0. }
  destruct k as [|k]; [left; apply boundary_0|].
  unfold utf16 in Hk. cbn in Hk. rewrite length_app in Hk.
  destruct (decide (S k < length (utf16_of c))%nat) as [Hin|Hout].
  - right. exists 0%nat. destruct (utf16_of_cases c Hc) as [(v & Hv & _)|(h & l & Hv & Hh & _)]; rewrite Hv in Hin; cbn in Hin; [lia|].
    exists h. split_and!; [lia|unfold utf16; cbn; by rewrite Hv|done|apply boundary_0].
  - destruct (IH (S k - length (utf16_of c))%nat) as [Hb|(k' & u & Hk' & Hu & Hh & Hb)]; [unfold utf16; lia| |].
    + left. apply (boundary_cons c) in Hb. by rewrite Nat.add_comm, Nat.sub_add in Hb by lia.
    + right. exists (length (utf16_of c) + k')%nat, u. split_and!; [lia| |done|by apply boundary_cons].
      unfold utf16 in *. cbn. rewrite lookup_app_r by lia. by replace (_ + k' - _)%nat with k' by lia.
Qed.

Lemma boundary_not_high cs k u : Forall scalar cs -> boundary cs (S k) -> utf16 cs !! k = Some u -> is_high_surrogate u = false.
Proof.
  intros Hcs (front & rest & -> & Ht & _) Hu. apply Forall_app in Hcs as [Hf _]. apply (utf16_last front u Hf).
  rewrite <- Ht, last_lookup, length_take. pose proof (lookup_lt_Some _ _ _ Hu).
  replace (pred (S k `min` _))%nat with k by lia. by rewrite lookup_take_lt by lia.
Qed.

Lemma packet_end_boundary cs : Forall scalar cs -> boundary cs (packet_end (utf16 cs)).
Proof.
  intros Hcs. unfold packet_end. set (k := Nat.min PACKET_UNITS (length (utf16 cs))).
  destruct (boundary_or_high cs k Hcs) as [Hb|(k' & u & Hk & Hu & Hh & Hb)]; [lia| |].
  - destruct (_ && _) eqn:Hc; [|done]. apply andb_prop in Hc as [Hlt Hh]. apply Nat.ltb_lt in Hlt.
    assert (exists k', k = S k') as [k' Hk] by (exists (k - 1)%nat; unfold k, PACKET_UNITS; lia).
    rewrite Hk in *. cbn in Hh. rewrite Nat.sub_0_r in Hh.
    destruct (utf16 cs !! k') as [u|] eqn:Hu; [|done]. by rewrite (boundary_not_high cs k' u) in Hh.
  - rewrite Hk. replace (S k' - 1)%nat with k' by lia. rewrite Hu, Hh, andb_true_r.
    destruct (Nat.ltb_spec (S k') (length (utf16 cs))); [done|].
    assert (last (utf16 cs) = Some u) as Hl.
    { rewrite last_lookup. pose proof (lookup_lt_Some _ _ _ Hu). by replace (pred _) with k' by lia. }
    by rewrite (utf16_last _ _ Hcs Hl) in Hh.
Qed.

Lemma packet_end_bounds units : units <> [] -> (1 <= packet_end units <= PACKET_UNITS)%nat /\ (packet_end units <= length units)%nat.
Proof.
  intros Hne. assert (length units <> 0)%nat by by destruct units.
  unfold packet_end, PACKET_UNITS. case_match eqn:Hc; [|lia].
  apply andb_prop in Hc as [Hlt%Nat.ltb_lt _]. lia.
Qed.

Lemma chunks_exact fuel cs : Forall scalar cs -> (length (utf16 cs) <= fuel)%nat ->
  exists groups, concat groups = cs /\ chunks_from fuel (utf16 cs) = utf16 <$> groups /\
    Forall (fun g => (1 <= length (utf16 g) <= PACKET_UNITS)%nat) groups.
Proof.
  revert cs. induction fuel as [|fuel IH]; intros cs Hcs Hfuel.
  { exists []. assert (utf16 cs = []) as Hnil by (apply length_zero_iff_nil; lia). rewrite Hnil. by apply utf16_nil in Hnil as ->. }
  destruct (decide (utf16 cs = [])) as [Hnil|Hne].
  { exists []. rewrite Hnil. by apply utf16_nil in Hnil as ->. }
  pose proof (packet_end_bounds _ Hne) as [Hlo Hhi].
  destruct (packet_end_boundary cs Hcs) as (front & rest & Heq & Ht & Hd).
  assert (Hlen : length (utf16 front) = packet_end (utf16 cs)) by (rewrite <- Ht, length_take; lia).
  rewrite Heq in Hcs. apply Forall_app in Hcs as [_ Hrest].
  destruct (IH rest Hrest) as (groups & <- & Hg & Hall); [rewrite <- Hd, length_drop; lia|].
  exists (front :: groups). split_and!; [done| |constructor; [lia|done]].
  destruct (utf16 cs) as [|u us] eqn:Hu; [done|]. cbn [chunks_from]. by rewrite Ht, Hd, Hg.
Qed.
