(* ===== verification/MacInput.v ===== *)
(** Serialized foreground input on macOS:
    [src/crates/platform/src/macos/input.rs].

    A computation posts native events in order; every operation that can fail
    or be refused has its position in the run, at which the outcome of event
    creation, of the action guard, of the window under a point, of reading the
    pointer and the time that passes are parameters.  The codes and flags of
    Carbon and the current keyboard layout are parameters too; the button of a
    motion event, which the system ignores, is left out.  The theorems: whatever
    fails, no key or button is left held, what is posted without the guard's
    admission only releases, and keys reach only the target process; typed text
    is sent whole, in order, in packets that do not split a character; and a
    press lasts at least as long as asked. *)

From Stdlib Require Import Ascii String SpecFloat.
From S2P Require Import Prelude Floats Geometry Text Protocol Errors InputText.
#[local] Open Scope Z_scope.

(** * Events *)

Inductive MouseKind := MouseMoved | MouseDown (button : PointerButton) | MouseUp (button : PointerButton) | LeftMouseDragged.

Inductive NativeEvent :=
| MouseEvent (kind : MouseKind) (point : ScreenPoint) (click : Z)
| TextEvent (down : bool) (units : list Z)
| KeyEvent (code : Z) (down : bool) (flags : Z)
| ScrollEvent (vertical horizontal : Z) (point : ScreenPoint).

(** The keys that have names, in [core_graphics::event::KeyCode]. *)
Inductive KeyName :=
| K_RETURN | K_TAB | K_SPACE | K_DELETE | K_FORWARD_DELETE | K_ESCAPE | K_LEFT_ARROW | K_RIGHT_ARROW | K_UP_ARROW | K_DOWN_ARROW
| K_HOME | K_END | K_PAGE_UP | K_PAGE_DOWN | K_F1 | K_F2 | K_F3 | K_F4 | K_F5 | K_F6 | K_F7 | K_F8 | K_F9 | K_F10 | K_F11 | K_F12
| K_COMMAND | K_CONTROL | K_OPTION | K_SHIFT.

Definition key_code (key : string) : option KeyName :=
  if str_eqb key "enter" || str_eqb key "return" then Some K_RETURN
  else if str_eqb key "tab" then Some K_TAB
  else if str_eqb key "space" then Some K_SPACE
  else if str_eqb key "backspace" then Some K_DELETE
  else if str_eqb key "delete" then Some K_FORWARD_DELETE
  else if str_eqb key "escape" then Some K_ESCAPE
  else if str_eqb key "left" then Some K_LEFT_ARROW
  else if str_eqb key "right" then Some K_RIGHT_ARROW
  else if str_eqb key "up" then Some K_UP_ARROW
  else if str_eqb key "down" then Some K_DOWN_ARROW
  else if str_eqb key "home" then Some K_HOME
  else if str_eqb key "end" then Some K_END
  else if str_eqb key "page_up" then Some K_PAGE_UP
  else if str_eqb key "page_down" then Some K_PAGE_DOWN
  else if str_eqb key "f1" then Some K_F1
  else if str_eqb key "f2" then Some K_F2
  else if str_eqb key "f3" then Some K_F3
  else if str_eqb key "f4" then Some K_F4
  else if str_eqb key "f5" then Some K_F5
  else if str_eqb key "f6" then Some K_F6
  else if str_eqb key "f7" then Some K_F7
  else if str_eqb key "f8" then Some K_F8
  else if str_eqb key "f9" then Some K_F9
  else if str_eqb key "f10" then Some K_F10
  else if str_eqb key "f11" then Some K_F11
  else if str_eqb key "f12" then Some K_F12
  else None.

(** The modifier of [press_keys]. *)
Definition modifier_of (key : string) : option KeyName :=
  if str_eqb key "mod" || str_eqb key "meta" || str_eqb key "command" then Some K_COMMAND
  else if str_eqb key "control" then Some K_CONTROL
  else if str_eqb key "alt" || str_eqb key "option" then Some K_OPTION
  else if str_eqb key "shift" then Some K_SHIFT
  else None.

Inductive InputAction :=
| IClick (point : ScreenPoint) (button : PointerButton) (count : Z) (background : bool)
| IPress (point : ScreenPoint) (button : PointerButton) (duration_ms : Z)
| IMove (point : ScreenPoint) (duration_ms : Z)
| ITypeText (text : string)
| IPressKeys (keys : list string)
| IScroll (point : ScreenPoint) (delta_x delta_y : f64)
| IDrag (from to : ScreenPoint) (duration_ms : Z).

Definition pointer_targets (a : InputAction) : list ScreenPoint :=
  match a with
  | IClick point _ _ false | IPress point _ _ | IScroll point _ _ => [point]
  | IDrag from to _ => [from; to]
  | _ => []
  end.


Definition bounded_i32 (value : f64) : Z := f64_as_i32 (f64_clamp (f64_round value) (f64_of_Z I32_MIN) (f64_of_Z I32_MAX)).

Definition COMMAND_CAPACITY : nat := 32.
Definition FRAME_INTERVAL : Z := 16 * MILLISECOND.

(** [CGEventFlags] are bits. *)
Definition flags_remove (flags flag : Z) : Z := Z.ldiff flags flag.

(** The action guard of a command, answering at a position of the run:
    [DriverActionGuard::check] and [DriverActionGuard::begin_dispatch]. *)
Record ActionGuard := { ag_check : nat -> Result unit DriverError; ag_begin_dispatch : nat -> Result unit DriverError }.

Record InputCommand := { ic_guard : option ActionGuard; ic_pid : Z; ic_action : InputAction }.

(** A posted event: where it was sent, its position in the run and when. *)
Record Posted := { po_event : NativeEvent; po_pid : option Z; po_at : nat; po_time : Z }.

Record InputWorld := { iw_posted : list Posted; iw_at : nat; iw_time : Z }.

(** A computation of the actor. *)
#[local] Abbreviation Input := (Act (W := InputWorld)).

(** * The actor *)

Section Actor.
(** By position: whether an event is created, whether the process owns the
    topmost window at a point ([capture::validate_pointer_owner]), where the
    pointer is, how long an operation takes, and the key of a character in the
    current layout ([keyboard_layout::character_key]); and the native codes
    and flags. *)
Context (creates : nat -> bool) (owns : nat -> Z -> ScreenPoint -> Result unit DriverError).
Context (location : nat -> option ScreenPoint) (late : nat -> Z) (character_key : nat -> Z -> option (Z * bool)).
Context (code_of : KeyName -> Z) (flag_of : KeyName -> Z).
(** The guard of the command being performed. *)
Context (guard : option ActionGuard).

(** To the next position, [ms] and some time later. *)
Definition advance (wait : Z) (w : InputWorld) : InputWorld :=
  {| iw_posted := iw_posted w; iw_at := S (iw_at w); iw_time := iw_time w + Z.max 0 wait + Z.max 0 (late (iw_at w)) |}.

Definition consult {A} (f : nat -> Result A DriverError) : Input A := fun w => (advance 0 w, f (iw_at w)).

Definition sleep (wait : Z) : Input unit := fun w => (advance wait w, Ok tt).

Definition create (message : string) (event : NativeEvent) : Input NativeEvent :=
  consult (fun n => if creates n then Ok event else Err (input_failure message)).

(** The pointer's location, read from a fresh event. *)
Definition current_location : Input ScreenPoint :=
  consult (fun n => match location n with Some p => Ok p | None => Err (input_failure "failed to read current pointer location") end).

Definition check_authority : Input unit :=
  consult (fun n => match guard with Some g => ag_check g n | None => Ok tt end).

Definition post_cleanup (event : NativeEvent) (pid : option Z) : Input unit := fun w =>
  let w1 := advance 0 w in
  ({| iw_posted := iw_posted w ++ [{| po_event := event; po_pid := pid; po_at := iw_at w; po_time := iw_time w |}];
      iw_at := iw_at w1; iw_time := iw_time w1 |}, Ok tt).

(** [post]: the guard admits the dispatch and the event is posted, at one position. *)
Definition admitted (n : nat) : Result unit DriverError :=
  match guard with Some g => ag_begin_dispatch g n | None => Ok tt end.

Definition post (event : NativeEvent) (pid : option Z) : Input unit := fun w =>
  match admitted (iw_at w) with
  | Err e => (advance 0 w, Err e)
  | Ok _ => post_cleanup event pid w
  end.

Definition mouse_event (kind : MouseKind) (point : ScreenPoint) (click : Z) : Input NativeEvent :=
  create "failed to create pointer event" (MouseEvent kind point click).

Definition keyboard_event (code : Z) (down : bool) (flags : Z) : Input NativeEvent :=
  create "failed to create keyboard event" (KeyEvent code down flags).

Definition set_location (event : NativeEvent) (point : ScreenPoint) : NativeEvent :=
  match event with
  | MouseEvent kind _ click => MouseEvent kind point click
  | ScrollEvent v h _ => ScrollEvent v h point
  | _ => event
  end.

(** The click state of an event that does not set it. *)
Definition NO_CLICK : Z := 0.

Definition click_pair (point : ScreenPoint) (button : PointerButton) (n : Z) : Input (NativeEvent * NativeEvent) :=
  let& down := mouse_event (MouseDown button) point n in
  let& up := mouse_event (MouseUp button) point n in
  iret (down, up).

Definition click (point : ScreenPoint) (button : PointerButton) (count : Z) : Input unit :=
  let& movement := mouse_event MouseMoved point NO_CLICK in
  let& events := collect (one_to count) (click_pair point button) in
  post movement None ;&
  sleep FRAME_INTERVAL ;&
  for_each events (fun '(down, up) =>
    post down None ;&
    sleep (10 * MILLISECOND) ;&
    post_cleanup up None ;&
    sleep (10 * MILLISECOND)).

Definition click_background (pid : Z) (point : ScreenPoint) (button : PointerButton) (count : Z) : Input unit :=
  for_each (one_to count) (fun n =>
    let& pair := click_pair point button n in
    post (fst pair) (Some pid) ;&
    post_cleanup (snd pair) (Some pid)).

(** [wait_while_authorized]. *)
Fixpoint wait_loop (fuel : nat) (deadline : Z) : Input unit := fun w =>
  if iw_time w <? deadline then
    match fuel with
    | O => (w, Ok tt)
    | S fuel =>
        (check_authority ;&
         (fun w1 => sleep (Z.min (Z.max 0 (deadline - iw_time w1)) FRAME_INTERVAL) w1) ;&
         wait_loop fuel deadline) w
    end
  else check_authority w.

Definition wait_while_authorized (duration_ms : Z) : Input unit := fun w =>
  wait_loop (Z.to_nat (duration_ms / 16 + 1)) (iw_time w + duration_ms * MILLISECOND) w.

Definition press (point : ScreenPoint) (button : PointerButton) (duration_ms : Z) : Input unit :=
  let& down := mouse_event (MouseDown button) point NO_CLICK in
  let& up := mouse_event (MouseUp button) point NO_CLICK in
  post down None ;&
  ikeep (wait_while_authorized duration_ms) (fun result =>
    match result with
    | Err e =>
        ikeep current_location (fun current =>
          post_cleanup (match current with Ok p => set_location up p | Err _ => up end) None ;& ierr e)
    | Ok _ => post_cleanup up None
    end).

Definition interpolate_mouse (from to : ScreenPoint) (duration_ms : Z) (kind : MouseKind) : Input unit :=
  let steps := interpolation_steps duration_ms in
  for_each (one_to steps) (fun step =>
    let& event := mouse_event kind (interpolated from to step steps) NO_CLICK in
    post event None ;&
    if step <? steps then sleep FRAME_INTERVAL else iret tt).

Definition move_pointer (target : ScreenPoint) (duration_ms : Z) : Input unit :=
  let& current := current_location in
  interpolate_mouse current target duration_ms MouseMoved.

Definition drag (from to : ScreenPoint) (duration_ms : Z) : Input unit :=
  let& movement := mouse_event MouseMoved from NO_CLICK in
  let& down := mouse_event (MouseDown Left) from NO_CLICK in
  let& up := mouse_event (MouseUp Left) from NO_CLICK in
  post movement None ;&
  post down None ;&
  ikeep (interpolate_mouse from to duration_ms LeftMouseDragged) (fun result =>
    match result with
    | Ok _ => post_cleanup (set_location up to) None
    | Err e =>
        ikeep current_location (fun current =>
          post_cleanup (set_location up (match current with Ok p => p | Err _ => from end)) None ;& ierr e)
    end).

Definition type_text (pid : Z) (text : string) : Input unit :=
  for_each (chunks (encode_utf16 text)) (fun chunk =>
    let& down := create "failed to create Unicode key-down event" (TextEvent true chunk) in
    let& up := create "failed to create Unicode key-up event" (TextEvent false chunk) in
    post down (Some pid) ;&
    post_cleanup up (Some pid) ;&
    sleep (5 * MILLISECOND)).

(** The chord being read: its flags, modifiers in order and primary codes. *)
Record Chord := { ch_flags : Z; ch_modifiers : list (Z * Z); ch_primary : list Z }.

Definition read_key (key : string) (chord : Chord) : Input Chord :=
  match modifier_of (canonical_key key) with
  | Some name =>
      let modifier := (code_of name, flag_of name) in
      iret {| ch_flags := Z.lor (ch_flags chord) (flag_of name);
              ch_modifiers :=
                if existsb (fun candidate => fst candidate =? code_of name) (ch_modifiers chord)
                then ch_modifiers chord else ch_modifiers chord ++ [modifier];
              ch_primary := ch_primary chord |}
  | None =>
      match single_ascii key with
      | Some byte =>
          let& found := consult (fun n => match character_key n byte with Some k => Ok k | None => Err (unsupported_key key) end) in
          iret {| ch_flags := if snd found : bool then Z.lor (ch_flags chord) (flag_of K_SHIFT) else ch_flags chord;
                  ch_modifiers := ch_modifiers chord;
                  ch_primary := ch_primary chord ++ [fst found] |}
      | None =>
          match key_code (canonical_key key) with
          | None => ierr (unsupported_key key)
          | Some name =>
              iret {| ch_flags := ch_flags chord; ch_modifiers := ch_modifiers chord;
                      ch_primary := ch_primary chord ++ [code_of name] |}
          end
      end
  end.

Fixpoint read_keys (keys : list string) (chord : Chord) : Input Chord :=
  match keys with
  | [] => iret chord
  | key :: keys => let& chord := read_key key chord in read_keys keys chord
  end.

(** The events of a chord: a code, whether it goes down, and the flags. *)
Fixpoint modifier_events (active : Z) (modifiers : list (Z * Z)) : list (Z * bool * Z) * Z :=
  match modifiers with
  | [] => ([], active)
  | (code, flag) :: rest =>
      let active := Z.lor active flag in
      let '(events, last) := modifier_events active rest in
      ((code, true, active) :: events, last)
  end.

Fixpoint release_events (active : Z) (modifiers : list (Z * Z)) : list (Z * bool * Z) :=
  match modifiers with
  | [] => []
  | (code, flag) :: rest =>
      let active := flags_remove active flag in (code, false, active) :: release_events active rest
  end.

Definition chord_events (chord : Chord) : list (Z * bool * Z) :=
  let '(downs, active) := modifier_events 0 (ch_modifiers chord) in
  downs ++ concat ((fun code => [(code, true, ch_flags chord); (code, false, ch_flags chord)]) <$> ch_primary chord)
  ++ release_events active (rev (ch_modifiers chord)).

Fixpoint dispatch_events (pid : Z) (events : list (NativeEvent * Z * bool)) (held : gset Z) (interrupted : option DriverError) :
    Input (option DriverError) :=
  match events with
  | [] => iret interrupted
  | (event, key, true) :: rest =>
      match interrupted with
      | Some _ => dispatch_events pid rest held interrupted
      | None =>
          ikeep (post event (Some pid)) (fun r =>
            match r with
            | Ok _ => dispatch_events pid rest ({[ key ]} ∪ held) None
            | Err e => dispatch_events pid rest held (Some e)
            end)
      end
  | (event, key, false) :: rest =>
      if bool_decide (key ∈ held) then
        post_cleanup event (Some pid) ;& dispatch_events pid rest (held ∖ {[ key ]}) interrupted
      else dispatch_events pid rest held interrupted
  end.

Definition dispatch_chord (pid : Z) (events : list (NativeEvent * Z * bool)) : Input unit :=
  let& interrupted := dispatch_events pid events ∅ None in
  match interrupted with Some e => ierr e | None => check_authority end.

Definition press_chord (pid : Z) (keys : list string) : Input unit :=
  let& chord := read_keys keys {| ch_flags := 0; ch_modifiers := []; ch_primary := [] |} in
  match ch_primary chord with
  | [] => ierr (unsupported_key "modifier-only chord")
  | _ =>
      let& events := collect (chord_events chord) (fun '(code, down, flags) =>
        let& event := keyboard_event code down flags in iret (event, code, down)) in
      dispatch_chord pid events
  end.

Definition press_keys (pid : Z) (keys : list string) : Input unit :=
  match keys with
  | [key] => if single_ascii key is Some _ then type_text pid key else press_chord pid keys
  | _ => press_chord pid keys
  end.

Definition scroll (point : ScreenPoint) (delta_x delta_y : f64) : Input unit :=
  let& event := create "failed to create scroll event"
                  (ScrollEvent (bounded_i32 (f64_neg delta_y)) (bounded_i32 (f64_neg delta_x)) point) in
  let& movement := mouse_event MouseMoved point NO_CLICK in
  post movement None ;&
  sleep FRAME_INTERVAL ;&
  post event None.

Definition input_perform (pid : Z) (action : InputAction) : Input unit :=
  check_authority ;&
  for_each (pointer_targets action) (fun point => consult (fun n => owns n pid point)) ;&
  match action with
  | IClick point button count true => click_background pid point button count
  | IClick point button count false => click point button count
  | IPress point button duration_ms => press point button duration_ms
  | IMove point duration_ms => move_pointer point duration_ms
  | ITypeText text => type_text pid text
  | IPressKeys keys => press_keys pid keys
  | IScroll point delta_x delta_y => scroll point delta_x delta_y
  | IDrag from to duration_ms => drag from to duration_ms
  end.

End Actor.

Section Loop.
Context (creates : nat -> bool) (owns : nat -> Z -> ScreenPoint -> Result unit DriverError).
Context (location : nat -> option ScreenPoint) (late : nat -> Z) (character_key : nat -> Z -> option (Z * bool)).
Context (code_of : KeyName -> Z) (flag_of : KeyName -> Z).

(** [InputState::run] on the commands received until the senders are gone:
    each is performed under its own guard and answered. *)
Fixpoint input_run (commands : list InputCommand) (w : InputWorld) : InputWorld * list (Result unit DriverError) :=
  match commands with
  | [] => (w, [])
  | c :: rest =>
      let '(w1, r) := input_perform creates owns location late character_key code_of flag_of (ic_guard c) (ic_pid c) (ic_action c) w in
      let '(w2, rs) := input_run rest w1 in
      (w2, r :: rs)
  end.
End Loop.

(** [InputActor::perform] up to its answer: the bounded queue, [None] when the
    actor's thread is gone. *)
Definition actor_stopped : DriverError := driver_error DPlatform "macOS input actor stopped".

Definition submit (queue : option (list InputCommand)) (command : InputCommand) : Result (list InputCommand) DriverError :=
  match queue with
  | None => Err (mutation_not_dispatched actor_stopped)
  | Some pending =>
      if (length pending <? COMMAND_CAPACITY)%nat then Ok (pending ++ [command])
      else Err (mutation_not_dispatched (de_with_retry (driver_error DBusy "macOS input actor is busy") "retry_with_backoff"))
  end.

(** * What is held *)

Inductive Held := HeldButton (button : PointerButton) | HeldKey (code : Z) | HeldText.

#[export] Instance Held_eq_dec : EqDecision Held.
Proof. solve_decision. Defined.

#[export] Instance Held_countable : Countable Held.
Proof.
  refine (inj_countable' (fun h => match h with HeldButton b => inl b | HeldKey c => inr (Some c) | HeldText => inr None end)
                         (fun s => match s with inl b => HeldButton b | inr (Some c) => HeldKey c | inr None => HeldText end) _).
  by intros [].
Defined.

Definition hold (held : gset Held) (p : Posted) : gset Held :=
  match po_event p with
  | MouseEvent (MouseDown b) _ _ => {[ HeldButton b ]} ∪ held
  | MouseEvent (MouseUp b) _ _ => held ∖ {[ HeldButton b ]}
  | TextEvent true _ => {[ HeldText ]} ∪ held
  | TextEvent false _ => held ∖ {[ HeldText ]}
  | KeyEvent code true _ => {[ HeldKey code ]} ∪ held
  | KeyEvent code false _ => held ∖ {[ HeldKey code ]}
  | _ => held
  end.

(** What is held after some events, from what was held before. *)
Definition holds (held : gset Held) (posted : list Posted) : gset Held := fold_left hold posted held.

Definition is_release (e : NativeEvent) : bool :=
  match e with
  | MouseEvent (MouseUp _) _ _ | TextEvent false _ | KeyEvent _ false _ => true
  | _ => false
  end.

Definition is_keyboard (e : NativeEvent) : bool :=
  match e with TextEvent _ _ | KeyEvent _ _ _ => true | _ => false end.

(** An event the command may post: it only releases or the guard admitted it
    when it was posted, and a keyboard event goes to the target process. *)
Definition permitted (guard : option ActionGuard) (pid : Z) (p : Posted) : Prop :=
  (is_release (po_event p) = true \/ admitted guard (po_at p) = Ok tt) /\
  (is_keyboard (po_event p) = true -> po_pid p = Some pid).

Lemma holds_app held xs ys : holds held (xs ++ ys) = holds (holds held xs) ys.
Proof. apply fold_left_app. Qed.

(** * A program logic for the actor *)

(** [runs held m Q]: from a state in which [held] is held, [m] posts only
    permitted events, and [Q] holds of what is held then and of its result. *)
Section Logic.
Context (creates : nat -> bool) (owns : nat -> Z -> ScreenPoint -> Result unit DriverError).
Context (location : nat -> option ScreenPoint) (late : nat -> Z) (character_key : nat -> Z -> option (Z * bool)).
Context (code_of : KeyName -> Z) (flag_of : KeyName -> Z).
Context (guard : option ActionGuard) (pid : Z).

Definition runs {A} (held : gset Held) (m : Input A) (Q : gset Held -> Result A DriverError -> Prop) : Prop :=
  forall w, exists new,
    iw_posted (m w).1 = iw_posted w ++ new /\ Forall (permitted guard pid) new /\ Q (holds held new) (m w).2.

(** Nothing is held at the end, whatever the result. *)
Definition free {A} (held : gset Held) (_ : Result A DriverError) : Prop := held = ∅.

Lemma runs_mono {A} held (m : Input A) (P Q : gset Held -> Result A DriverError -> Prop) :
  (forall h r, P h r -> Q h r) -> runs held m P -> runs held m Q.
Proof. intros HPQ Hm w. destruct (Hm w) as (new & ? & ? & ?). exists new. auto. Qed.

Lemma runs_ret {A} held (a : A) Q : Q held (Ok a) -> runs held (iret a) Q.
Proof. intros HQ w. exists []. by rewrite app_nil_r. Qed.

Lemma runs_err {A} held (e : DriverError) (Q : gset Held -> Result A DriverError -> Prop) :
  Q held (Err e) -> runs held (ierr e) Q.
Proof. intros HQ w. exists []. by rewrite app_nil_r. Qed.

Lemma runs_keep {A B} held (m : Input A) (k : Result A DriverError -> Input B) Q :
  runs held m (fun h r => runs h (k r) Q) -> runs held (ikeep m k) Q.
Proof.
  intros Hm w. destruct (Hm w) as (new & Hp & Hn & Hk). unfold ikeep. destruct (m w) as [w1 r]; cbn in *.
  destruct (Hk w1) as (new' & Hp' & Hn' & HQ). exists (new ++ new').
  rewrite Hp', Hp, holds_app, app_assoc. split_and!; auto using Forall_app_2.
Qed.

Lemma runs_bind {A B} held (m : Input A) (k : A -> Input B) Q :
  runs held m (fun h r => match r with Ok a => runs h (k a) Q | Err e => Q h (Err e) end) -> runs held (ibind m k) Q.
Proof.
  intros Hm w. destruct (runs_keep held m (fun r => match r with Ok a => k a | Err e => ierr e end) Q) with (w := w) as (new & Hnew).
  - eapply runs_mono, Hm. intros h [a|e]; [done|apply runs_err].
  - exists new. revert Hnew. unfold ibind, ikeep. by destruct (m w) as [w1 [a|e]].
Qed.

Lemma runs_consult {A} held (f : nat -> Result A DriverError) Q :
  (forall n, Q held (f n)) -> runs held (consult late f) Q.
Proof. intros HQ w. exists []. rewrite app_nil_r. split_and!; [done|constructor|apply HQ]. Qed.

Lemma runs_check held Q : (forall r, Q held r) -> runs held (check_authority late guard) Q.
Proof. intros HQ. apply runs_consult. auto. Qed.

Lemma runs_sleep held wait Q : Q held (Ok tt) -> runs held (sleep late wait) Q.
Proof. intros HQ w. exists []. by rewrite app_nil_r. Qed.

Lemma runs_create held message event (Q : gset Held -> Result NativeEvent DriverError -> Prop) :
  Q held (Ok event) -> (forall e, Q held (Err e)) -> runs held (create creates late message event) Q.
Proof. intros HO HE. apply runs_consult. intros n. destruct (creates n); auto. Qed.

Definition addressed (event : NativeEvent) (to : option Z) : Prop := is_keyboard event = true -> to = Some pid.

Definition after (held : gset Held) (event : NativeEvent) : gset Held :=
  hold held {| po_event := event; po_pid := None; po_at := 0; po_time := 0 |}.

Lemma runs_cleanup held event to (Q : gset Held -> Result unit DriverError -> Prop) :
  is_release event = true -> addressed event to -> Q (after held event) (Ok tt) -> runs held (post_cleanup late event to) Q.
Proof.
  intros Hr Ha HQ w. eexists. split_and!; [reflexivity| |exact HQ].
  apply Forall_singleton. split; [by left|done].
Qed.

Lemma runs_post held event to (Q : gset Held -> Result unit DriverError -> Prop) :
  addressed event to -> (forall e, Q held (Err e)) -> Q (after held event) (Ok tt) -> runs held (post late guard event to) Q.
Proof.
  intros Ha HE HQ w. unfold post. destruct (admitted guard (iw_at w)) as [[]|e] eqn:Hadm.
  - eexists. split_and!; [reflexivity| |exact HQ]. apply Forall_singleton. split; [by right|done].
  - exists []. rewrite app_nil_r. split_and!; [done|constructor|apply HE].
Qed.

Lemma runs_for_each {A} (xs : list A) body :
  (forall x, x ∈ xs -> runs ∅ (body x) free) -> runs ∅ (for_each xs body) free.
Proof.
  induction xs as [|x xs IH]; intros Hb; cbn; [by apply runs_ret|].
  apply runs_bind. eapply runs_mono, Hb; [|left]. intros h [[]|e] ->; [|done].
  apply IH. intros y Hy. apply Hb. by right.
Qed.

Lemma runs_collect {A B} (xs : list A) (body : A -> Input B) (P : A -> B -> Prop) :
  (forall x, x ∈ xs -> runs ∅ (body x) (fun h r => h = ∅ /\ forall y, r = Ok y -> P x y)) ->
  runs ∅ (collect xs body) (fun h r => h = ∅ /\ forall ys, r = Ok ys -> Forall2 P xs ys).
Proof.
  induction xs as [|x xs IH]; intros Hb; cbn.
  - apply runs_ret. split; [done|]. intros ? [= <-]. constructor.
  - apply runs_bind. eapply runs_mono, Hb; [|left]. intros h [y|e] [-> Hy]; [|done].
    apply runs_bind. eapply runs_mono, IH; [|intros z Hz; apply Hb; by right].
    intros h [ys|e] [-> Hys]; [|done]. apply runs_ret. split; [done|]. intros ? [= <-]. constructor; auto.
Qed.

(** The steps every operation is made of. *)
Ltac irun :=
  repeat first
    [ apply runs_bind | apply runs_keep
    | apply runs_create; [|intros ?]
    | apply runs_post; [by intros ?|intros ?|]
    | apply runs_cleanup; [done|by intros ?|]
    | apply runs_sleep | apply runs_ret | apply runs_err
    | progress cbn [set_location fst snd] ].

Lemma released (e : Held) (held : gset Held) : held = ∅ -> ({[ e ]} ∪ held) ∖ {[ e ]} = ∅.
Proof. intros ->. set_solver. Qed.

Lemma runs_click_pair point button n :
  runs ∅ (click_pair creates late point button n)
    (fun h r => h = ∅ /\ forall y, r = Ok y -> y = (MouseEvent (MouseDown button) point n, MouseEvent (MouseUp button) point n)).
Proof. unfold click_pair, mouse_event. irun; (split; [done|]); intros ?; by intros [= <-]. Qed.

Lemma runs_click point button count : runs ∅ (click creates late guard point button count) free.
Proof.
  unfold click, mouse_event. irun; [|done]. eapply runs_mono, runs_collect; [|intros x _; apply runs_click_pair].
  intros h [events|e] [-> Hevents]; [|done]. specialize (Hevents _ eq_refl). irun; [done|].
  apply runs_for_each. intros [down up] Hin.
  apply list_elem_of_lookup_1 in Hin as [i Hi].
  destruct (Forall2_lookup_r _ _ _ _ _ Hevents Hi) as (n & _ & [= -> ->]). irun; [done|]. by apply released.
Qed.

Lemma runs_click_background point button count : runs ∅ (click_background creates late guard pid point button count) free.
Proof.
  apply runs_for_each. intros n _. apply runs_bind. eapply runs_mono, runs_click_pair.
  intros h [y|e] [-> Hy]; [|done]. rewrite (Hy _ eq_refl). irun; [done|]. by apply released.
Qed.

Lemma runs_wait fuel deadline held : runs held (wait_loop late guard fuel deadline) (fun h _ => h = held).
Proof.
  assert (Hcheck : runs held (check_authority late guard) (fun h _ => h = held)) by by apply runs_check.
  induction fuel as [|fuel IH]; intros w; cbn [wait_loop]; (destruct (iw_time w <? deadline); [|exact (Hcheck w)]).
  - exists []. by rewrite app_nil_r.
  - revert w. change (runs held (check_authority late guard ;& (fun w1 =>
      sleep late (Z.min (Z.max 0 (deadline - iw_time w1)) FRAME_INTERVAL) w1) ;& wait_loop late guard fuel deadline) (fun h _ => h = held)).
    apply runs_bind. eapply runs_mono, Hcheck. intros h [[]|e] ->; [|done].
    apply runs_bind. intros w. exists []. rewrite app_nil_r. split_and!; [done|constructor|exact IH].
Qed.

Lemma runs_wait_while duration_ms held : runs held (wait_while_authorized late guard duration_ms) (fun h _ => h = held).
Proof. intros w. apply runs_wait. Qed.

Lemma runs_location held Q : (forall r, Q held r) -> runs held (current_location location late) Q.
Proof. intros HQ. apply runs_consult. auto. Qed.

Lemma runs_press point button duration_ms : runs ∅ (press creates location late guard point button duration_ms) free.
Proof.
  unfold press, mouse_event. irun; try done.
  eapply runs_mono, runs_wait_while. intros h [[]|e] ->.
  - irun. by apply released.
  - apply runs_keep, runs_location. intros [p|e']; irun; by apply released.
Qed.

Lemma runs_interpolate from to duration_ms kind held :
  kind = MouseMoved \/ kind = LeftMouseDragged ->
  runs held (interpolate_mouse creates late guard from to duration_ms kind) (fun h _ => h = held).
Proof.
  intros Hk. unfold interpolate_mouse, mouse_event. generalize (one_to (interpolation_steps duration_ms)).
  intros steps. induction steps as [|step steps IH]; cbn [for_each]; [by apply runs_ret|].
  destruct Hk as [-> | ->]; irun; try done; case_match; irun; exact IH.
Qed.

Lemma runs_move target duration_ms : runs ∅ (move_pointer creates location late guard target duration_ms) free.
Proof.
  apply runs_bind, runs_location. intros [from|e]; [|done]. apply runs_interpolate. by left.
Qed.

Lemma runs_drag from to duration_ms : runs ∅ (drag creates location late guard from to duration_ms) free.
Proof.
  unfold drag, mouse_event. irun; try done. eapply runs_mono, runs_interpolate; [|by right].
  intros h [[]|e] ->.
  - irun. by apply released.
  - apply runs_keep, runs_location. intros r. irun. by apply released.
Qed.

Lemma runs_type_text text : runs ∅ (type_text creates late guard pid text) free.
Proof. apply runs_for_each. intros chunk _. irun; try done. Qed.

Lemma runs_scroll point delta_x delta_y : runs ∅ (scroll creates late guard point delta_x delta_y) free.
Proof. unfold scroll, mouse_event. irun; done. Qed.

Definition native (x : Z * bool * Z) (y : NativeEvent * Z * bool) : Prop :=
  let '(code, down, flags) := x in y = (KeyEvent code down flags, code, down).

Lemma runs_dispatch xs events : Forall2 native xs events -> forall held interrupted,
  settled (fst <$> xs) -> (forall code, code ∈ held -> (code, false) ∈ fst <$> xs) ->
  runs (set_map HeldKey held) (dispatch_events late guard pid events held interrupted) free.
Proof.
  induction 1 as [|[[code down] flags] ? xs events -> _ IH]; intros held interrupted Hs Hh; cbn [dispatch_events].
  - apply runs_ret. unfold free. apply set_eq. intros k. rewrite elem_of_map. split; [|set_solver].
    intros (c & _ & Hc). by apply Hh, elem_of_nil in Hc.
  - cbn in Hs, Hh. destruct Hs as [Hup Hs].
    assert (Hrest : forall c, c ∈ held -> (c, false) <> (code, down) -> (c, false) ∈ fst <$> xs).
    { intros c Hc Hne. by destruct (proj1 (elem_of_cons _ _ _) (Hh c Hc)). }
    destruct down.
    + assert (Hskip : forall i, runs (set_map HeldKey held) (dispatch_events late guard pid events held i) free).
      { intros i. apply IH; [done|]. intros c Hc. by apply Hrest. }
      destruct interrupted as [e|]; [apply Hskip|]. irun; [apply Hskip|].
      change (after (set_map HeldKey held) (KeyEvent code true flags)) with ({[ HeldKey code ]} ∪ set_map HeldKey held : gset Held).
      assert (({[ HeldKey code ]} ∪ set_map HeldKey held : gset Held) = set_map HeldKey ({[ code ]} ∪ held)) as -> by set_solver.
      apply IH; [done|]. intros c [->%elem_of_singleton|Hc]%elem_of_union; [by apply Hup|by apply Hrest].
    + case_bool_decide as Hin.
      * irun. change (after (set_map HeldKey held) (KeyEvent code false flags)) with (set_map HeldKey held ∖ {[ HeldKey code ]} : gset Held).
        assert ((set_map HeldKey held ∖ {[ HeldKey code ]} : gset Held) = set_map HeldKey (held ∖ {[ code ]})) as ->.
        { apply set_eq. intros k. rewrite elem_of_difference, !elem_of_map, elem_of_singleton. set_solver. }
        apply IH; [done|]. intros c [Hc Hne]%elem_of_difference. apply Hrest; [done|]. intros [= ->]. set_solver.
      * apply IH; [done|]. intros c Hc. apply Hrest; [done|]. by intros [= ->].
Qed.

Lemma release_settled active modifiers : settled (fst <$> release_events active modifiers).
Proof. revert active. induction modifiers as [|[code flag] ms IH]; intros active; [done|]. split; [done|apply IH]. Qed.

Lemma release_codes active modifiers code :
  code ∈ fst <$> modifiers -> (code, false) ∈ fst <$> release_events active modifiers.
Proof.
  revert active. induction modifiers as [|[c flag] ms IH]; intros active; cbn; [by intros ?%elem_of_nil|].
  intros [->|Hc]%elem_of_cons; [left|right]; auto.
Qed.

Lemma modifier_codes active modifiers code down :
  (code, down) ∈ fst <$> (modifier_events active modifiers).1 -> code ∈ fst <$> modifiers.
Proof.
  revert active. induction modifiers as [|[c flag] ms IH]; intros active; cbn; [by intros ?%elem_of_nil|].
  destruct (modifier_events (Z.lor active flag) ms) as [events last] eqn:He. cbn.
  intros [[= -> ->]|Hc]%elem_of_cons; [left|right]. apply (IH (Z.lor active flag)). by rewrite He.
Qed.

Lemma primary_settled (flags : Z) (codes : list Z) rest :
  settled rest ->
  settled ((fst <$> concat ((fun code => [(code, true, flags); (code, false, flags)]) <$> codes : list (list (Z * bool * Z)))) ++ rest).
Proof. intros Hr. induction codes as [|c cs IH]; [done|]. split; [left|by split]. Qed.

Lemma chord_settled chord : settled (fst <$> chord_events chord).
Proof.
  unfold chord_events. destruct (modifier_events 0 (ch_modifiers chord)) as [downs active] eqn:Hd.
  rewrite !fmap_app. apply settled_app; [apply primary_settled, release_settled|].
  intros pre code rest Heq. apply elem_of_app. right. apply elem_of_app. right. apply release_codes.
  assert (Hin : code ∈ fst <$> ch_modifiers chord).
  { apply (modifier_codes 0 _ _ true). rewrite Hd. cbn. rewrite Heq. set_solver. }
  apply list_elem_of_fmap in Hin as (m & -> & Hm). apply list_elem_of_fmap. exists m. split; [done|].
  by apply list_elem_of_In, in_rev, list_elem_of_In; rewrite rev_involutive.
Qed.

Lemma runs_read_keys keys chord : runs ∅ (read_keys late character_key code_of flag_of keys chord) free.
Proof.
  revert chord. induction keys as [|key keys IH]; intros chord; cbn [read_keys]; [by apply runs_ret|].
  apply runs_bind. apply (runs_mono _ _ free); [intros h [c|e] ->; [apply IH|done]|].
  unfold read_key. repeat case_match; irun; try done. apply runs_consult. intros n.
  case_match; [by apply runs_ret|done].
Qed.

Lemma runs_press_chord keys : runs ∅ (press_chord creates late character_key code_of flag_of guard pid keys) free.
Proof.
  unfold press_chord. apply runs_bind. eapply runs_mono, runs_read_keys. intros h [chord|e] ->; [|done].
  case_match; [by apply runs_err|]. apply runs_bind.
  eapply runs_mono, (runs_collect _ _ native).
  - intros h [events|e] [-> Hevents]; [|done]. unfold dispatch_chord. apply runs_bind.
    pose proof (runs_dispatch _ _ (Hevents _ eq_refl) ∅ None (chord_settled _)) as Hd.
    rewrite set_map_empty in Hd. eapply runs_mono, Hd; [|set_solver].
    intros h [[e|]|e] ->; [by apply runs_err|by apply runs_check|done].
  - intros [[code down] flags] _. unfold keyboard_event. irun; (split; [done|]); intros ?; [by intros [= <-]|done].
Qed.

Lemma runs_perform action :
  runs ∅ (input_perform creates owns location late character_key code_of flag_of guard pid action) free.
Proof.
  unfold input_perform. apply runs_bind, runs_check. intros [[]|e]; [|done].
  apply runs_bind. eapply runs_mono, runs_for_each; [|intros p _; by apply runs_consult].
  intros h [[]|e] ->; [|done]. destruct action as [? ? ? []| | | |keys| |].
  - apply runs_click_background.
  - apply runs_click.
  - apply runs_press.
  - apply runs_move.
  - apply runs_type_text.
  - unfold press_keys. repeat case_match; auto using runs_type_text, runs_press_chord.
  - apply runs_scroll.
  - apply runs_drag.
Qed.

End Logic.

(** * The claims *)

Section Claims.
Context (creates : nat -> bool) (owns : nat -> Z -> ScreenPoint -> Result unit DriverError).
Context (location : nat -> option ScreenPoint) (late : nat -> Z) (character_key : nat -> Z -> option (Z * bool)).
Context (code_of : KeyName -> Z) (flag_of : KeyName -> Z).

(** C14: Whatever commands the actor receives, and wherever an event cannot be
    created, the guard refuses or the target is not owned, every command is
    answered, no button or key the actor pressed is left held, an event that
    does not release was admitted by its command's guard when it was posted,
    and keyboard events go only to the process of their command. *)
Theorem input_safe commands w :
  let '(w', replies) := input_run creates owns location late character_key code_of flag_of commands w in
  length replies = length commands /\
  exists new, iw_posted w' = iw_posted w ++ new /\ holds ∅ new = ∅ /\
    Forall (fun p => exists c, c ∈ commands /\ permitted (ic_guard c) (ic_pid c) p) new.
Proof.
  revert w. induction commands as [|c commands IH]; intros w; cbn [input_run].
  { split; [done|]. exists []. by rewrite app_nil_r. }
  destruct (runs_perform creates owns location late character_key code_of flag_of (ic_guard c) (ic_pid c) (ic_action c) w)
    as (new & Hp & Hn & Hh).
  destruct (input_perform _ _ _ _ _ _ _ _ _ _ w) as [w1 r]. cbn [fst snd] in Hp, Hh. specialize (IH w1).
  destruct (input_run _ _ _ _ _ _ _ commands w1) as [w2 rs]. destruct IH as (Hl & new' & Hp' & Hh' & Hn').
  split; [cbn; congruence|]. exists (new ++ new'). rewrite Hp', Hp, app_assoc, holds_app, Hh. split_and!; [done|done|].
  apply Forall_app_2.
  - eapply Forall_impl; [exact Hn|]. intros p Hpp. exists c. by split; [left|].
  - eapply Forall_impl; [exact Hn'|]. intros p (c' & Hc' & Hpp). exists c'. by split; [right|].
Qed.

(** The events of one packet. *)
Definition packet_events (pid : Z) (units : list Z) : list (NativeEvent * option Z) :=
  [(TextEvent true units, Some pid); (TextEvent false units, Some pid)].

Definition sent (p : Posted) : NativeEvent * option Z := (po_event p, po_pid p).

(** A packet is posted whole or not at all. *)
Lemma packet_whole guard pid packets w :
  let '(w', r) := for_each packets (fun chunk =>
      let& down := create creates late "failed to create Unicode key-down event" (TextEvent true chunk) in
      let& up := create creates late "failed to create Unicode key-up event" (TextEvent false chunk) in
      post late guard down (Some pid) ;& post_cleanup late up (Some pid) ;& sleep late (5 * MILLISECOND)) w in
  exists n new, iw_posted w' = iw_posted w ++ new /\ sent <$> new = concat (packet_events pid <$> take n packets) /\
    (r = Ok tt -> n = length packets).
Proof.
  revert w. induction packets as [|units packets IH]; intros w; cbn [for_each].
  { exists 0%nat, []. by rewrite app_nil_r. }
  assert (Hnone : forall w' e, iw_posted w' = iw_posted w ->
    exists n new, iw_posted w' = iw_posted w ++ new /\ sent <$> new = concat (packet_events pid <$> take n (units :: packets)) /\
      (@Err unit DriverError e = Ok tt -> n = length (units :: packets))).
  { intros w' e Hw. exists 0%nat, []. by rewrite app_nil_r. }
  unfold ibind at 1 2 3 4 5, create at 1 2, consult at 1 2. destruct (creates _); [|by apply Hnone].
  destruct (creates _); [|by apply Hnone]. unfold post at 1. destruct (admitted _ _); [|by apply Hnone].
  unfold post_cleanup at 1 2, sleep at 1. match goal with |- context [for_each _ _ ?v] => specialize (IH v) end.
  destruct (for_each packets _ _) as [w' r]. destruct IH as (n & new & Hp & Hs & Hr). cbn in Hp.
  rewrite <- !app_assoc in Hp. eexists (S n), _. split; [exact Hp|]. cbn. rewrite Hs. split; [done|].
  intros H. by rewrite (Hr H).
Qed.

(** Typing text sends the target process packets of at most 20 UTF-16
    units, each the encoding of whole characters, in the order of the text; on
    success all of them, and after a failure an initial part, packet by
    packet. *)
Theorem typed_text_exact guard pid text w w' r :
  Forall scalar (code_point <$> Text.chars text) -> type_text creates late guard pid text w = (w', r) ->
  exists groups n new,
    concat groups = code_point <$> Text.chars text /\
    Forall (fun g => (1 <= length (utf16 g) <= PACKET_UNITS)%nat) groups /\
    iw_posted w' = iw_posted w ++ new /\
    sent <$> new = concat (packet_events pid <$> take n (utf16 <$> groups)) /\
    (r = Ok tt -> n = length groups).
Proof.
  intros Hcs Ht. destruct (chunks_exact (length (encode_utf16 text)) _ Hcs) as (groups & Hg & Hc & Hall); [done|].
  pose proof (packet_whole guard pid (chunks (encode_utf16 text)) w) as Hp. unfold type_text in Ht. rewrite Ht in Hp.
  destruct Hp as (n & new & Hnew & Hs & Hr). unfold chunks, encode_utf16 in Hs, Hr. unfold encode_utf16, utf16 in Hc.
  rewrite Hc in Hs, Hr. exists groups, n, new. rewrite length_fmap in Hr. done.
Qed.

Lemma wait_loop_enough guard fuel deadline w extra :
  deadline - iw_time w <= Z.of_nat fuel * FRAME_INTERVAL ->
  wait_loop late guard (fuel + extra) deadline w = wait_loop late guard fuel deadline w /\
  iw_posted (wait_loop late guard fuel deadline w).1 = iw_posted w /\
  ((wait_loop late guard fuel deadline w).2 = Ok tt -> deadline <= iw_time (wait_loop late guard fuel deadline w).1).
Proof.
  revert w. induction fuel as [|fuel IH]; intros w Hw; cbn [wait_loop Nat.add].
  - assert (iw_time w <? deadline = false) as Hd by (apply Z.ltb_ge; lia).
    destruct extra; cbn [wait_loop]; rewrite Hd; (split_and!; [done..|]); cbn; apply Z.ltb_ge in Hd; lia.
  - destruct (Z.ltb_spec (iw_time w) deadline) as [Hlt|Hge]; [|split_and!; [done..|]; cbn; lia].
    unfold ibind, check_authority, consult, sleep.
    destruct (match guard with Some g => _ | None => _ end); [|by split_and!].
    match goal with |- context [wait_loop _ _ fuel deadline ?v] => destruct (IH v) as (-> & -> & Ht) end; [|by split_and!].
    cbn. unfold FRAME_INTERVAL, MILLISECOND in *. lia.
Qed.

(** A press that succeeds posts the button down and up at the point with
    at least the requested time between them, and its wait ends within the
    rounds the model allows: more of them change nothing. *)
Theorem press_held guard point button duration_ms w :
  0 <= duration_ms ->
  (forall extra deadline v, deadline = iw_time v + duration_ms * MILLISECOND ->
     wait_loop late guard (Z.to_nat (duration_ms / 16 + 1) + extra) deadline v = wait_while_authorized late guard duration_ms v) /\
  forall w', press creates location late guard point button duration_ms w = (w', Ok tt) ->
    exists down up, iw_posted w' = iw_posted w ++ [down; up] /\
      sent down = (MouseEvent (MouseDown button) point NO_CLICK, None) /\
      sent up = (MouseEvent (MouseUp button) point NO_CLICK, None) /\
      duration_ms * MILLISECOND <= po_time up - po_time down.
Proof.
  intros Hd.
  assert (Hfuel : forall v, (iw_time v + duration_ms * MILLISECOND) - iw_time v <= Z.of_nat (Z.to_nat (duration_ms / 16 + 1)) * FRAME_INTERVAL).
  { intros v. pose proof (Z.div_pos duration_ms 16). pose proof (Z.mul_succ_div_gt duration_ms 16).
    rewrite Z2Nat.id by lia. unfold FRAME_INTERVAL, MILLISECOND. lia. }
  split; [intros extra deadline v ->; apply wait_loop_enough, Hfuel|].
  intros w'. unfold press, mouse_event, ibind at 1 2 3, ikeep at 1, create, consult.
  destruct (creates _); [|done]. destruct (creates _); [|done]. unfold post. destruct (admitted _ _); [|done].
  unfold post_cleanup at 1. match goal with |- context [wait_while_authorized _ _ _ ?v] =>
    destruct (wait_loop_enough guard _ _ v 0 (Hfuel v)) as (_ & Hp & Ht); fold (wait_while_authorized late guard duration_ms v) in Hp, Ht;
    destruct (wait_while_authorized _ _ _ v) as [w1 [[]|e]] end.
  - cbn in Hp. unfold post_cleanup. intros [= <-]. eexists _, _. cbn. rewrite Hp, <- app_assoc. split; [reflexivity|].
    split_and!; [done..|]. cbn. specialize (Ht eq_refl). cbn in Ht. lia.
  - unfold ikeep, ibind, ierr, current_location, consult, post_cleanup. by destruct (location _).
Qed.

End Claims.

(** * A desk *)

Module Desk.
Definition always (_ : nat) : bool := true.
Definition nowhere (_ : nat) : option ScreenPoint := None.
Definition prompt (_ : nat) : Z := 1.
Definition start : InputWorld := {| iw_posted := []; iw_at := 0; iw_time := 0 |}.
(** A guard that refuses from its sixth position on. *)
Definition fleeting : ActionGuard :=
  {| ag_check := fun n => if (n <? 6)%nat then Ok tt else Err (driver_error DBusy "taken over");
     ag_begin_dispatch := fun n => if (n <? 6)%nat then Ok tt else Err (driver_error DBusy "taken over") |}.
(** Nineteen letters and a character of two units: it starts the second packet. *)
Definition text : string := "aaaaaaaaaaaaaaaaaaa😀".

Lemma typed_text_exact_witness :
  exists groups n new,
    concat groups = code_point <$> Text.chars text /\
    Forall (fun g => (1 <= length (utf16 g) <= PACKET_UNITS)%nat) groups /\
    iw_posted (type_text always prompt (Some fleeting) 7 text start).1 = [] ++ new /\
    sent <$> new = concat (packet_events 7 <$> take n (utf16 <$> groups)) /\
    ((type_text always prompt (Some fleeting) 7 text start).2 = Ok tt -> n = length groups).
Proof.
  apply (typed_text_exact always prompt (Some fleeting) 7 text start); [|apply surjective_pairing].
  assert (Hchars : code_point <$> Text.chars text = repeat 97 19 ++ [128512]) by (vm_compute; reflexivity).
  rewrite Hchars. apply Forall_app_2; [apply Forall_forall; intros c Hc; apply list_elem_of_In, repeat_spec in Hc as ->; left; lia|].
  apply Forall_singleton. right. lia.
Defined.

(** The guard refuses the second packet: only the letters were sent. *)
Example fleeting_text :
  po_event <$> iw_posted (type_text always prompt (Some fleeting) 7 text start).1 =
  [TextEvent true (repeat 97 19); TextEvent false (repeat 97 19)].
Proof. vm_compute. reflexivity. Qed.

Definition origin : ScreenPoint := {| sp_x := f64_of_Z 3; sp_y := f64_of_Z 4 |}.

Lemma press_held_witness :
  exists down up,
    iw_posted (press always nowhere prompt None origin Left 40 start).1 = [] ++ [down; up] /\
    sent down = (MouseEvent (MouseDown Left) origin NO_CLICK, None) /\
    sent up = (MouseEvent (MouseUp Left) origin NO_CLICK, None) /\
    40 * MILLISECOND <= po_time up - po_time down.
Proof.
  apply (proj2 (press_held always nowhere prompt None origin Left 40 start ltac:(lia))).
  vm_compute. reflexivity.
Defined.

(** A chord refused after its modifiers went down releases them. *)
Example refused_chord :
  let codes k := match k with K_COMMAND => 55 | K_SHIFT => 56 | _ => 36 end in
  let '(w, r) := input_perform always (fun _ _ _ => Ok tt) nowhere prompt (fun _ _ => Some (0, false)) codes (fun _ => 1)
                   (Some {| ag_check := fun _ => Ok tt;
                            ag_begin_dispatch := fun n => if (n <? 10)%nat then Ok tt else Err (driver_error DBusy "taken over") |})
                   7 (IPressKeys ["command"; "shift"; "a"]) start in
  (po_event <$> iw_posted w) = [KeyEvent 55 true 1; KeyEvent 56 true 1; KeyEvent 56 false 0; KeyEvent 55 false 0] /\
  r = Err (driver_error DBusy "taken over").
Proof. vm_compute. done. Qed.
End Desk.
