(* ===== verification/WinInput.v ===== *)
(** Serialized foreground input on Windows:
    [src/crates/platform/src/windows/input.rs].

    A computation consults the system and logs what it asks of it: input sent
    with [SendInput], which may accept only a first part, window messages,
    activations and window changes.  [Native] is what the system answers, by
    position in the run.  The action guard is the one of [Driver]: its cells are
    part of the world, and between two operations other tasks act on them with
    the events of its state machine. *)

From Stdlib Require Import Ascii String SpecFloat.
From S2P Require Import Prelude Floats Geometry Text Protocol Errors Driver InputText.
#[local] Open Scope Z_scope.

Definition WIN_COMMAND_CAPACITY : nat := 32.
Definition WIN_FRAME_INTERVAL : Z := 16 * MILLISECOND.
Definition TERMINATION_CONFIRM_TIMEOUT_MS : Z := 2000.
Definition FOREGROUND_RESTORE_TIMEOUT : Z := 250 * MILLISECOND.
Definition FOREGROUND_RESTORE_INTERVAL : Z := 10 * MILLISECOND.

(** * Data *)

Inductive WinAction :=
| WActivate
| WSetWindowBounds (bounds : ScreenRect)
| WSetWindowMinimized (minimized : bool)
| WTerminateApplication (pid process_generation : Z) (windows : list Z)
| WClick (point : ScreenPoint) (button : PointerButton) (count : Z) (background : bool)
| WPress (point : ScreenPoint) (button : PointerButton) (duration_ms : Z)
| WMove (point : ScreenPoint) (duration_ms : Z)
| WTypeText (text : string)
| WPressKeys (keys : list string)
| WScroll (point : ScreenPoint) (delta_x delta_y : f64)
| WDrag (from to : ScreenPoint) (duration_ms : Z).

Definition win_pointer_targets (a : WinAction) : list ScreenPoint :=
  match a with
  | WClick point _ _ false | WPress point _ _ | WScroll point _ _ => [point]
  | WDrag from to _ => [from; to]
  | _ => []
  end.

Record ForegroundOwner := { fo_hwnd : Z; fo_pid : Z; fo_process_generation : Z }.

(** The virtual keys with names. *)
Inductive Vk :=
| VK_RETURN | VK_TAB | VK_SPACE | VK_BACK | VK_DELETE | VK_ESCAPE | VK_LEFT | VK_RIGHT | VK_UP | VK_DOWN | VK_HOME | VK_END
| VK_PRIOR | VK_NEXT | VK_F1 | VK_F2 | VK_F3 | VK_F4 | VK_F5 | VK_F6 | VK_F7 | VK_F8 | VK_F9 | VK_F10 | VK_F11 | VK_F12
| VK_LWIN | VK_CONTROL | VK_MENU | VK_SHIFT.

Definition win_key_code (key : string) : option Vk :=
  if str_eqb key "enter" || str_eqb key "return" then Some VK_RETURN
  else if str_eqb key "tab" then Some VK_TAB
  else if str_eqb key "space" then Some VK_SPACE
  else if str_eqb key "backspace" then Some VK_BACK
  else if str_eqb key "delete" then Some VK_DELETE
  else if str_eqb key "escape" then Some VK_ESCAPE
  else if str_eqb key "left" then Some VK_LEFT
  else if str_eqb key "right" then Some VK_RIGHT
  else if str_eqb key "up" then Some VK_UP
  else if str_eqb key "down" then Some VK_DOWN
  else if str_eqb key "home" then Some VK_HOME
  else if str_eqb key "end" then Some VK_END
  else if str_eqb key "page_up" then Some VK_PRIOR
  else if str_eqb key "page_down" then Some VK_NEXT
  else if str_eqb key "f1" then Some VK_F1
  else if str_eqb key "f2" then Some VK_F2
  else if str_eqb key "f3" then Some VK_F3
  else if str_eqb key "f4" then Some VK_F4
  else if str_eqb key "f5" then Some VK_F5
  else if str_eqb key "f6" then Some VK_F6
  else if str_eqb key "f7" then Some VK_F7
  else if str_eqb key "f8" then Some VK_F8
  else if str_eqb key "f9" then Some VK_F9
  else if str_eqb key "f10" then Some VK_F10
  else if str_eqb key "f11" then Some VK_F11
  else if str_eqb key "f12" then Some VK_F12
  else None.

(** The modifier of [press_keys]. *)
Definition win_modifier_of (key : string) : option Vk :=
  if str_eqb key "meta" || str_eqb key "win" then Some VK_LWIN
  else if str_eqb key "mod" || str_eqb key "control" then Some VK_CONTROL
  else if str_eqb key "alt" || str_eqb key "option" then Some VK_MENU
  else if str_eqb key "shift" then Some VK_SHIFT
  else None.

(** [INPUT]: a mouse event with its flags, or a key. *)
Inductive MouseFlag := MF_MOVE | MF_DOWN (button : PointerButton) | MF_UP (button : PointerButton) | MF_WHEEL | MF_HWHEEL.

Inductive NativeInput :=
| MouseInput (flags : MouseFlag) (absolute : option (Z * Z)) (data : Z)
| KeyboardInput (virtual_key scan : Z) (unicode up extended : bool).

Inductive ShowCommand := SW_RESTORE | SW_SHOWMINNOACTIVE | SW_SHOWNOACTIVATE.

Inductive PointerMessage := WM_MOUSEMOVE | WM_BUTTONDOWN (button : PointerButton) | WM_BUTTONUP (button : PointerButton).

(** The word of a button message. *)
Definition button_state (m : PointerMessage) : Z :=
  match m with
  | WM_BUTTONDOWN Left => 1
  | WM_BUTTONDOWN Middle => 16
  | WM_BUTTONDOWN Right => 2
  | _ => 0
  end.

Record RECT := { rc_left : Z; rc_top : Z; rc_right : Z; rc_bottom : Z }.

(** [WaitForSingleObject]. *)
Inductive WaitStatus := WAIT_OBJECT_0 | WAIT_TIMEOUT | WAIT_FAILED | WAIT_OTHER.

(** * The system

    What native calls answer at a position of the run. *)

Record Native := {
  os_events : nat -> list guard_event;
  os_late : nat -> Z;
  os_input_desktop_available : nat -> bool;
  os_SendInput : nat -> nat;
  os_window_process : nat -> Z -> Z;
  os_process_generation : nat -> Z -> option Z;
  os_GetForegroundWindow : nat -> Z;
  os_IsIconic : nat -> Z -> bool;
  os_IsWindow : nat -> Z -> bool;
  os_SetForegroundWindow : nat -> bool;
  os_SetWindowPos : nat -> bool;
  os_PostMessage : nat -> bool;
  os_SendMessageTimeout : nat -> bool;
  os_OpenProcess : nat -> Z -> bool;
  os_WaitForSingleObject : nat -> WaitStatus;
  os_GetWindowRect : nat -> Z -> option RECT;
  os_extended_frame : nat -> Z -> option RECT;
  os_GetSystemMetrics : nat -> Z * Z * Z * Z;
  os_wheel : nat -> bool -> option Z;
  os_GetCursorPos : nat -> option (Z * Z);
  os_WindowFromPoint : nat -> Z * Z -> Z;
  os_ScreenToClient : nat -> Z -> Z * Z -> option (Z * Z);
  os_GetClientRect : nat -> Z -> option (Z * Z);
  os_ChildWindowFromPoint : nat -> Z -> Z * Z -> Z;
  os_MapVirtualKey : Z -> Z;
  os_VkKeyScan : nat -> Z -> Z;
  os_vk : Vk -> Z;
}.

(** The pattern calls of the semantic actor ([windows/semantic.rs]). *)
Inductive SemanticAction :=
| SemFocus | SemInvoke | SemSetValue (value : string) | SemSetRangeValue (value : f64) | SemToggle | SemSelect | SemSetExpanded (expanded : bool).

(** What was asked of the system by this actor or by the semantic one;
    [Cleared] is a dispatch the guard admitted, with its lease, its cells and
    the time. *)
Inductive What :=
| Cleared (lease : option nat) (cells : GuardState) (now : Z)
| Sent (inputs : list NativeInput) (accepted : nat)
| Shown (hwnd : Z) (command : ShowCommand)
| Fronted (hwnd : Z) (answer : bool)
| Positioned (hwnd x y width height : Z) (answer : bool)
| CloseAsked (hwnd : Z) (answer : bool)
| Messaged (hwnd : Z) (message : PointerMessage) (parameter : Z) (answer : bool)
| Patterned (element : Z) (action : SemanticAction) (answer : bool).

Record WinWorld := { ww_log : list What; ww_at : nat; ww_time : Z; ww_guard : GuardState }.

(** [i32] and its saturation. *)
Definition sat_i32 (z : Z) : Z := Z.max I32_MIN (Z.min I32_MAX z).

Definition win_checked_i32 (value : f64) (name : string) : Result Z DriverError :=
  if negb (is_finite value) || f64_lt value (f64_of_Z I32_MIN) || f64_gt value (f64_of_Z I32_MAX) then
    Err (mutation_not_dispatched (driver_error DPlatform (name +:+ " is outside the native range")%string))
  else Ok (f64_as_i32 value).

Definition rect_to_screen_rect (r : RECT) : ScreenRect :=
  {| sr_x := f64_of_Z (rc_left r); sr_y := f64_of_Z (rc_top r);
     sr_width := f64_of_Z (sat_i32 (rc_right r - rc_left r)); sr_height := f64_of_Z (sat_i32 (rc_bottom r - rc_top r)) |}.

Definition window_bounds_match (actual requested : ScreenRect) : bool :=
  let close a b := f64_le (f64_abs (f64_sub a b)) (f64_of_Z 2) in
  close (sr_x actual) (sr_x requested) && close (sr_y actual) (sr_y requested)
  && close (sr_width actual) (sr_width requested) && close (sr_height actual) (sr_height requested).

Definition window_mutation_failure (message : string) : DriverError := mutation_indeterminate (driver_error DPlatform message).

Definition background_unavailable (message : string) : DriverError :=
  mutation_not_dispatched (de_with_retry (driver_error DForegroundRequired message) "retry_with_foreground_delivery").

Definition input_result (sent requested : nat) : Result unit DriverError :=
  if (sent =? requested)%nat then Ok tt
  else if (sent =? 0)%nat then
    Err (de_with_retry (driver_error DPermissionRequired "Windows UIPI or the secure desktop blocked foreground input")
           "run_host_at_matching_integrity")
  else Err (driver_error DPlatform "Windows accepted only part of the foreground input sequence").

Definition normalize_absolute (value : f64) (origin extent : Z) : Z :=
  f64_as_i32 (f64_clamp (f64_round (f64_div (f64_mul (f64_sub value (f64_of_Z origin)) (f64_of_Z 65535)) (f64_of_Z (extent - 1))))
                (f64_of_Z 0) (f64_of_Z 65535)).

Definition wheel_delta (value : f64) (units : Z) : Z :=
  f64_as_i32 (f64_clamp (f64_round (f64_div (f64_mul value (f64_of_Z 120)) (f64_mul (f64_of_Z units) (f64_of_Z 16))))
                (f64_of_Z I32_MIN) (f64_of_Z I32_MAX)).

(** [u32::from_ne_bytes(i32::to_ne_bytes)]. *)
Definition as_u32 (z : Z) : Z := z mod 4294967296.

(** The [LPARAM] of a client point, whose coordinates are in [i16]. *)
Definition in_i16 (z : Z) : bool := (-32768 <=? z) && (z <=? 32767).
Definition pack_point (x y : Z) : Z := Z.lor (x mod 65536) (Z.shiftl (y mod 65536) 16).

Definition U32_ALL : Z := 4294967295.

Definition is_keyup (i : NativeInput) : bool := match i with KeyboardInput _ _ _ up _ => up | _ => false end.

(** What [keyboard_releases] compares: the virtual key and the scan code. *)
Definition key_of (i : NativeInput) : option (Z * Z) := match i with KeyboardInput vk scan _ _ _ => Some (vk, scan) | _ => None end.

Definition released_input (i : NativeInput) : NativeInput :=
  match i with KeyboardInput vk scan unicode _ extended => KeyboardInput vk scan unicode true extended | _ => i end.

Definition track_key (held : list NativeInput) (input : NativeInput) : list NativeInput :=
  let kept := filter (fun other => key_of other <> key_of input) held in
  if is_keyup input then kept else kept ++ [input].

Definition keyboard_releases (accepted : list NativeInput) : list NativeInput :=
  rev (released_input <$> fold_left track_key accepted []).

Definition relative_mouse (flags : MouseFlag) (data : Z) : NativeInput := MouseInput flags None data.

(** * The actor *)

Section Actor.
Context (os : Native).
(** The guard of the command: its lease and when the observation was taken. *)
Context (guard : option (nat * option Z)).

#[local] Abbreviation Win := (Act (W := WinWorld)).

(** The next position: time passes and other tasks act on the guard. *)
Definition tick (wait : Z) (w : WinWorld) : WinWorld :=
  {| ww_log := ww_log w; ww_at := S (ww_at w);
     ww_time := ww_time w + Z.max 0 wait + Z.max 0 (os_late os (ww_at w));
     ww_guard := default (ww_guard w) (run_events (ww_guard w) (os_events os (ww_at w))) |}.

(** A native call that only answers, and one that is logged. *)
Definition ask {A} (f : nat -> A) : Win A := fun w => (tick 0 w, Ok (f (ww_at w))).
Definition logged (what : What) (w : WinWorld) : WinWorld := {| w with ww_log := ww_log w ++ [what] |}.
Definition act {A} (f : nat -> A) (what : A -> What) : Win A := fun w =>
  let a := f (ww_at w) in (logged (what a) (tick 0 w), Ok a).

Definition win_sleep (wait : Z) : Win unit := fun w => (tick wait w, Ok tt).
Definition now : Win Z := fun w => (w, Ok (ww_time w)).
Definition raise {A} (r : Result A DriverError) : Win A := fun w => (w, r).

Definition check_guard : Win unit := fun w =>
  let w1 := tick 0 w in
  (w1, match guard with Some (lease, _) => check (ww_guard w1) lease (ww_time w1) | None => Ok tt end).

Definition desktop_unavailable : DriverError :=
  mutation_not_dispatched (driver_error DPermissionRequired "interactive input desktop is unavailable").

Definition win_begin_dispatch : Win unit := fun w =>
  let w1 := tick 0 w in
  match os_input_desktop_available os (ww_at w), guard with
  | false, Some (lease, _) =>
      let g := activity_monitor_failed (ww_guard w1) in
      ({| w1 with ww_guard := g |}, check g lease (ww_time w1) ;? Err desktop_unavailable)
  | false, None => (w1, Err desktop_unavailable)
  | true, Some (lease, observed_at) =>
      let '(g, r) := begin_dispatch (ww_guard w1) lease observed_at (ww_time w1) in
      let w2 := {| w1 with ww_guard := g |} in
      match r with
      | Ok _ => (logged (Cleared (Some lease) (ww_guard w1) (ww_time w1)) w2, Ok tt)
      | Err e => (w2, Err e)
      end
  | true, None => (logged (Cleared None (ww_guard w1) (ww_time w1)) w1, Ok tt)
  end.

(** [window_process_generation]. *)
Definition generation_at (n : nat) (hwnd : Z) : option (Z * Z) :=
  if hwnd =? 0 then None else
  let pid := os_window_process os n hwnd in
  if pid =? 0 then None else (fun generation => (pid, generation)) <$> os_process_generation os n pid.

Definition window_process_generation (hwnd : Z) : Win (option (Z * Z)) := ask (fun n => generation_at n hwnd).

Definition foreground_window : Win Z := ask (os_GetForegroundWindow os).

(** ** Sending *)

Definition send_native (inputs : list NativeInput) : Win nat :=
  act (fun n => Nat.min (os_SendInput os n) (length inputs)) (Sent inputs).

Definition send_raw (inputs : list NativeInput) : Win unit :=
  match inputs with
  | [] => iret tt
  | _ => let& sent := send_native inputs in raise (input_result sent (length inputs))
  end.

Definition send (inputs : list NativeInput) : Win unit := win_begin_dispatch ;& send_raw inputs.

Definition send_keyboard (inputs : list NativeInput) : Win unit :=
  win_begin_dispatch ;&
  let& sent := send_native inputs in
  ikeep (if (sent <? length inputs)%nat then send_raw (keyboard_releases (take sent inputs)) else iret tt)
    (fun _ => raise (input_result sent (length inputs))).

Definition virtual_desktop : Win (Z * Z * Z * Z) :=
  let& metrics := ask (os_GetSystemMetrics os) in
  let '(_, _, cx, cy) := metrics in
  if (cx <=? 1) || (cy <=? 1) then ierr (input_failure "virtual desktop geometry is unavailable") else iret metrics.

Definition absolute_mouse (point : ScreenPoint) (flags : MouseFlag) : Win NativeInput :=
  let& desktop := virtual_desktop in
  let '(x, y, cx, cy) := desktop in
  iret (MouseInput flags (Some (normalize_absolute (sp_x point) x cx, normalize_absolute (sp_y point) y cy)) 0).

Definition EXTENDED_KEYS : list Vk := [VK_LEFT; VK_RIGHT; VK_UP; VK_DOWN; VK_HOME; VK_END; VK_PRIOR; VK_NEXT; VK_DELETE; VK_LWIN].

(** [keyboard_input] of a virtual key and of a UTF-16 unit. *)
Definition key_input (virtual_key : Z) (up : bool) : NativeInput :=
  KeyboardInput virtual_key (Z.land (os_MapVirtualKey os virtual_key) 255) false up
    (existsb (fun k => os_vk os k =? virtual_key) EXTENDED_KEYS).
Definition unit_input (unit_ : Z) (up : bool) : NativeInput := KeyboardInput 0 unit_ true up false.

(** ** Waiting *)

Fixpoint win_wait_loop (fuel : nat) (deadline : Z) : Win unit :=
  check_guard ;&
  let& t := now in
  let remaining := Z.max 0 (deadline - t) in
  if remaining =? 0 then iret tt else
  match fuel with
  | O => iret tt
  | S fuel => win_sleep (Z.min remaining WIN_FRAME_INTERVAL) ;& win_wait_loop fuel deadline
  end.

Definition wait_guarded (duration : Z) : Win unit := fun w =>
  win_wait_loop (Z.to_nat (duration / WIN_FRAME_INTERVAL + 1)) (ww_time w + duration) w.

(** [while now < deadline { if done()? { return Ok } sleep }], then [after]. *)
Fixpoint poll_until {A} (fuel : nat) (deadline : Z) (done_ : Win bool) (yes : A) (after : Win A) : Win A :=
  let& t := now in
  if deadline <=? t then after else
  match fuel with
  | O => after
  | S fuel =>
      let& d := done_ in
      if d : bool then iret yes else win_sleep FOREGROUND_RESTORE_INTERVAL ;& poll_until fuel deadline done_ yes after
  end.

(** [loop { if done()? { return Ok } if now >= deadline { return Err } sleep }]. *)
Fixpoint poll_settled (fuel : nat) (deadline : Z) (done_ : Win bool) (late_ : DriverError) : Win unit :=
  let& d := done_ in
  if d : bool then iret tt else
  let& t := now in
  if deadline <=? t then ierr late_ else
  match fuel with
  | O => ierr late_
  | S fuel => win_sleep FOREGROUND_RESTORE_INTERVAL ;& poll_settled fuel deadline done_ late_
  end.

(** 250 milliseconds in rounds of at least ten. *)
Definition POLL_FUEL : nat := 25.

(** ** Windows *)

Definition activate (hwnd : Z) : Win unit :=
  let& iconic := ask (fun n => os_IsIconic os n hwnd) in
  (if iconic : bool then win_begin_dispatch ;& act (fun _ => tt) (fun _ => Shown hwnd SW_RESTORE) else iret tt) ;&
  win_begin_dispatch ;&
  let& granted := act (os_SetForegroundWindow os) (Fronted hwnd) in
  if negb granted then ierr (driver_error DForegroundRequired "Windows refused foreground activation") else
  let& t := now in
  poll_until POLL_FUEL (t + FOREGROUND_RESTORE_TIMEOUT)
    (check_guard ;& let& current := foreground_window in iret (current =? hwnd)) tt
    (ierr (driver_error DForegroundRequired "Windows foreground activation did not settle before its deadline")).

Definition outer_window_rect (hwnd : Z) : Win RECT :=
  let& r := ask (fun n => os_GetWindowRect os n hwnd) in
  raise (ok_or r (window_mutation_failure "cannot read Windows window bounds")).

Definition extended_window_rect (hwnd : Z) : Win (option RECT) := ask (fun n => os_extended_frame os n hwnd).

Definition set_window_bounds (hwnd : Z) (requested : ScreenRect) : Win unit :=
  let& outer := outer_window_rect hwnd in
  let& framed := extended_window_rect hwnd in
  let extended := default outer framed in
  let left_inset := sat_i32 (rc_left extended - rc_left outer) in
  let top_inset := sat_i32 (rc_top extended - rc_top outer) in
  let right_inset := sat_i32 (rc_right outer - rc_right extended) in
  let bottom_inset := sat_i32 (rc_bottom outer - rc_bottom extended) in
  let& x := raise (win_checked_i32 (f64_round (sr_x requested)) "window x coordinate") in
  let& y := raise (win_checked_i32 (f64_round (sr_y requested)) "window y coordinate") in
  let& width := raise (win_checked_i32 (f64_round (sr_width requested)) "window width") in
  let& height := raise (win_checked_i32 (f64_round (sr_height requested)) "window height") in
  win_begin_dispatch ;&
  let& placed := act (os_SetWindowPos os)
    (Positioned hwnd (sat_i32 (x - left_inset)) (sat_i32 (y - top_inset))
       (sat_i32 (sat_i32 (width + left_inset) + right_inset)) (sat_i32 (sat_i32 (height + top_inset) + bottom_inset))) in
  if negb placed then ierr (window_mutation_failure "Windows rejected the requested window bounds") else
  let& t := now in
  poll_settled POLL_FUEL (t + FOREGROUND_RESTORE_TIMEOUT)
    (check_guard ;&
     let& framed := extended_window_rect hwnd in
     let& outer := outer_window_rect hwnd in
     iret (window_bounds_match (rect_to_screen_rect (default outer framed)) requested))
    (window_mutation_failure "Windows adjusted or did not apply the requested window bounds before the deadline").

Definition set_window_minimized (hwnd : Z) (minimized : bool) : Win unit :=
  win_begin_dispatch ;&
  act (fun _ => tt) (fun _ => Shown hwnd (if minimized then SW_SHOWMINNOACTIVE else SW_SHOWNOACTIVATE)) ;&
  let& t := now in
  poll_settled POLL_FUEL (t + FOREGROUND_RESTORE_TIMEOUT)
    (check_guard ;& let& iconic := ask (fun n => os_IsIconic os n hwnd) in iret (Bool.eqb iconic minimized))
    (window_mutation_failure "Windows did not apply the requested minimized state before the deadline").

(** [terminate_application]: the messages to the windows that are still of the
    process, and the wait for its end. *)
Fixpoint post_close (windows : list Z) (pid expected_generation : Z) (posted : nat) : Win nat :=
  match windows with
  | [] => iret posted
  | raw :: rest =>
      let& owner := window_process_generation raw in
      if negb (bool_decide (owner = Some (pid, expected_generation))) then post_close rest pid expected_generation posted else
      win_begin_dispatch ;&
      let& accepted := act (os_PostMessage os) (CloseAsked raw) in
      post_close rest pid expected_generation (if accepted : bool then S posted else posted)
  end.

(** A wait that times out took its 16 milliseconds. *)
Definition wait_for_process : Win WaitStatus := fun w =>
  let status := os_WaitForSingleObject os (ww_at w) in
  (tick (match status with WAIT_TIMEOUT => 16 * MILLISECOND | _ => 0 end) w, Ok status).

Fixpoint await_exit (fuel : nat) (deadline : Z) : Win WaitStatus :=
  check_guard ;&
  let& status := wait_for_process in
  let& t := now in
  match status, fuel with
  | WAIT_TIMEOUT, S fuel => if deadline <=? t then iret status else await_exit fuel deadline
  | _, _ => iret status
  end.

(** Two seconds in rounds of at least sixteen milliseconds. *)
Definition EXIT_FUEL : nat := 125.

Definition terminate_application (pid expected_generation : Z) (windows : list Z) : Win unit :=
  match windows with
  | [] => ierr (mutation_not_dispatched (driver_error DTargetUnavailable "target application has no current top-level windows"))
  | _ =>
      let& opened := ask (fun n => os_OpenProcess os n pid) in
      if negb opened then
        ierr (mutation_not_dispatched (driver_error DTargetUnavailable "target application generation is unavailable")) else
      let& generation := ask (fun n => os_process_generation os n pid) in
      match generation with
      | None => ierr (mutation_not_dispatched (driver_error DPlatform "cannot revalidate target application generation"))
      | Some generation =>
          if negb (generation =? expected_generation) then
            ierr (mutation_not_dispatched (driver_error DTargetUnavailable "target application process generation changed")) else
          let& posted := post_close windows pid expected_generation 0 in
          if (posted =? 0)%nat then
            ierr (mutation_not_dispatched (driver_error DPlatform "Windows rejected cooperative application termination")) else
          let& t := now in
          let& wait := await_exit EXIT_FUEL (t + TERMINATION_CONFIRM_TIMEOUT_MS * MILLISECOND) in
          let unconfirmed message :=
            ierr (mutation_indeterminate (de_with_retry (driver_error DPlatform message) "verify_application_exit")) in
          match wait with
          | WAIT_OBJECT_0 => iret tt
          | WAIT_TIMEOUT => unconfirmed "Windows accepted termination but the application did not exit in time"%string
          | WAIT_FAILED => unconfirmed "Windows could not confirm application exit after termination"%string
          | WAIT_OTHER => unconfirmed "Windows returned an unknown application termination state"%string
          end
      end
  end.

(** ** Pointer *)

(** [a.and(b)]. *)
Definition and_then (a b : Result unit DriverError) : Result unit DriverError := match a with Ok _ => b | Err e => Err e end.

Definition win_click (point : ScreenPoint) (button : PointerButton) (count : Z) : Win unit :=
  let& movement := absolute_mouse point MF_MOVE in
  send [movement] ;&
  wait_guarded WIN_FRAME_INTERVAL ;&
  for_each (one_to count) (fun _ =>
    win_begin_dispatch ;&
    ikeep (send_raw [relative_mouse (MF_DOWN button) 0]) (fun pressed =>
      match pressed with
      | Err e => ierr e
      | Ok _ =>
          ikeep (wait_guarded (10 * MILLISECOND)) (fun waited =>
            ikeep (send_raw [relative_mouse (MF_UP button) 0]) (fun released => raise (and_then waited released)))
      end) ;&
    wait_guarded (10 * MILLISECOND)).

Definition send_background (target : Z) (message : PointerMessage) (parameter : Z) : Win unit :=
  let& handled := act (os_SendMessageTimeout os) (Messaged target message parameter) in
  if handled : bool then iret tt
  else ierr (mutation_indeterminate (driver_error DPlatform "background pointer handler failed or timed out")).

(** The descent to the recipient of a background click, [left_] levels at most
    below this one. *)
Fixpoint resolve_recipient (left_ : nat) (owner : Z * Z) (screen : Z * Z) (recipient : Z) : Win (Z * (Z * Z)) :=
  let& mapped := ask (fun n => os_ScreenToClient os n recipient screen) in
  let& client := raise (ok_or mapped (background_unavailable "cannot map background click to client space")) in
  let& bounds := ask (fun n => os_GetClientRect os n recipient) in
  let& bounds := raise (ok_or bounds (background_unavailable "background client bounds unavailable")) in
  if (fst client <? 0) || (snd client <? 0) || (fst bounds <=? fst client) || (snd bounds <=? snd client) then
    ierr (background_unavailable "background click must be inside target client area") else
  let& child := ask (fun n => os_ChildWindowFromPoint os n recipient client) in
  if (child =? 0) || (child =? recipient) then iret (recipient, client) else
  let outside := ierr (background_unavailable "background recipient could not be resolved within target") in
  match left_ with
  | O => outside
  | S left_ =>
      let& found := window_process_generation child in
      if negb (bool_decide (found = Some owner)) then outside else resolve_recipient left_ owner screen child
  end.

Definition win_click_background (target : Z) (point : ScreenPoint) (button : PointerButton) (count : Z) : Win unit :=
  let& x := raise (win_checked_i32 (f64_round (sp_x point)) "background click x coordinate") in
  let& y := raise (win_checked_i32 (f64_round (sp_y point)) "background click y coordinate") in
  let& found := window_process_generation target in
  let& owner := raise (ok_or found (background_unavailable "background target is unavailable")) in
  let& resolved := resolve_recipient 31 owner (x, y) target in
  let '(recipient, client) := resolved in
  if negb (in_i16 (fst client)) then ierr (background_unavailable "background x exceeds message range") else
  if negb (in_i16 (snd client)) then ierr (background_unavailable "background y exceeds message range") else
  let parameter := pack_point (fst client) (snd client) in
  win_begin_dispatch ;&
  send_background recipient WM_MOUSEMOVE parameter ;&
  for_each (one_to count) (fun _ =>
    win_begin_dispatch ;&
    ikeep (send_background recipient (WM_BUTTONDOWN button) parameter) (fun pressed =>
      ikeep (send_background recipient (WM_BUTTONUP button) parameter) (fun released => raise (and_then pressed released))) ;&
    check_guard).

(** The steps [press] and [drag] share: move and press, [during] while it is
    held, and release what was pressed. *)
Definition hold_during (from : ScreenPoint) (button : PointerButton) (during : Win unit) : Win unit :=
  let& movement := absolute_mouse from MF_MOVE in
  let inputs := [movement; relative_mouse (MF_DOWN button) 0] in
  win_begin_dispatch ;&
  let& sent := send_native inputs in
  let pressed := input_result sent (length inputs) in
  ikeep (match pressed with Ok _ => during | Err _ => iret tt end) (fun waited =>
    ikeep (if (sent =? length inputs)%nat then send_raw [relative_mouse (MF_UP button) 0] else iret tt) (fun released =>
      raise (and_then pressed (and_then waited released)))).

Definition win_press (point : ScreenPoint) (button : PointerButton) (duration_ms : Z) : Win unit :=
  hold_during point button (wait_guarded (duration_ms * MILLISECOND)).

Definition win_interpolate (from to : ScreenPoint) (duration_ms : Z) : Win unit :=
  let steps := interpolation_steps duration_ms in
  for_each (one_to steps) (fun step =>
    let& movement := absolute_mouse (interpolated from to step steps) MF_MOVE in
    send [movement] ;&
    if step <? steps then wait_guarded WIN_FRAME_INTERVAL else iret tt).

Definition win_move_pointer (target : ScreenPoint) (duration_ms : Z) : Win unit :=
  let& read := ask (os_GetCursorPos os) in
  let& current := raise (ok_or read (input_failure "cannot read pointer position")) in
  win_interpolate {| sp_x := f64_of_Z (fst current); sp_y := f64_of_Z (snd current) |} target duration_ms.

Definition win_drag (from to : ScreenPoint) (duration_ms : Z) : Win unit :=
  hold_during from Left (win_interpolate from to duration_ms).

Definition wheel_units (horizontal : bool) : Win Z :=
  let& setting := ask (fun n => os_wheel os n horizontal) in
  let& units := raise (ok_or setting (mutation_not_dispatched (input_failure "cannot read Windows wheel settings"))) in
  if (units =? 0) || (units =? U32_ALL) then
    ierr (mutation_not_dispatched (driver_error DUnsupported "pixel scrolling requires line-based Windows wheel settings"))
  else iret units.

Definition wheel_input (flag : MouseFlag) (delta : f64) (horizontal : bool) : Win NativeInput :=
  let& units := wheel_units horizontal in iret (relative_mouse flag (as_u32 (wheel_delta delta units))).

Definition win_scroll (point : ScreenPoint) (delta_x delta_y : f64) : Win unit :=
  let& movement := absolute_mouse point MF_MOVE in
  let& vertical :=
    (if negb (f64_eq delta_y (f64_of_Z 0)) then let& i := wheel_input MF_WHEEL (f64_neg delta_y) false in iret [i] else iret []) in
  let& horizontal :=
    (if negb (f64_eq delta_x (f64_of_Z 0)) then let& i := wheel_input MF_HWHEEL delta_x true in iret [i] else iret []) in
  send (movement :: vertical ++ horizontal).

(** ** Keyboard *)

Definition text_inputs (chunk : list Z) : list NativeInput := concat ((fun u => [unit_input u false; unit_input u true]) <$> chunk).

Definition mark_text (dispatched : bool) (e : DriverError) : DriverError := if dispatched then mutation_indeterminate e else e.

Fixpoint type_chunks (target : Z) (dispatched : bool) (packets : list (list Z)) : Win unit :=
  match packets with
  | [] => iret tt
  | chunk :: rest =>
      let& current := foreground_window in
      if negb (current =? target) then
        let error := driver_error DForegroundRequired "foreground owner changed during text input" in
        ierr (if dispatched then mutation_indeterminate error else mutation_not_dispatched error) else
      ikeep (send_keyboard (text_inputs chunk)) (fun result =>
        match result with
        | Err e => ierr (mark_text dispatched e)
        | Ok _ => wait_guarded (5 * MILLISECOND) ;& type_chunks target true rest
        end)
  end.

Definition win_type_text (target : Z) (text : string) : Win unit := type_chunks target false (chunks (encode_utf16 text)).

(** The keys of a chord: its modifiers and primary keys in order. *)
Definition scan_modifiers (required : Z) : list Z :=
  concat ((fun '(mask, k) => if negb (Z.land required mask =? 0) then [os_vk os k] else [])
          <$> [(1, VK_SHIFT); (2, VK_CONTROL); (4, VK_MENU)]).

Definition win_read_key (key : string) (chord : list Z * list Z) : Win (list Z * list Z) :=
  let '(modifiers, primary) := chord in
  match win_modifier_of (canonical_key key) with
  | Some k => iret (modifiers ++ [os_vk os k], primary)
  | None =>
      match single_ascii key with
      | Some byte =>
          let& mapped := ask (fun n => os_VkKeyScan os n byte) in
          let required := Z.shiftr mapped 8 in
          if (mapped <? 0) || negb (Z.ldiff required 7 =? 0) then ierr (unsupported_key key)
          else iret (modifiers ++ scan_modifiers required, primary ++ [Z.land mapped 255])
      | None =>
          match win_key_code (canonical_key key) with
          | None => ierr (unsupported_key key)
          | Some k => iret (modifiers, primary ++ [os_vk os k])
          end
      end
  end.

Fixpoint win_read_keys (keys : list string) (chord : list Z * list Z) : Win (list Z * list Z) :=
  match keys with
  | [] => iret chord
  | key :: keys => let& chord := win_read_key key chord in win_read_keys keys chord
  end.

(** The first of each modifier. *)
Definition distinct (keys : list Z) : list Z :=
  fold_left (fun unique key => if existsb (Z.eqb key) unique then unique else unique ++ [key]) keys [].

Definition chord_inputs (modifiers primary : list Z) : list NativeInput :=
  ((fun k => key_input k false) <$> modifiers)
  ++ concat ((fun k => [key_input k false; key_input k true]) <$> primary)
  ++ ((fun k => key_input k true) <$> rev modifiers).

Definition win_press_chord (keys : list string) : Win unit :=
  let& chord := win_read_keys keys ([], []) in
  match snd chord with
  | [] => ierr (unsupported_key "modifier-only chord")
  | primary => send_keyboard (chord_inputs (distinct (fst chord)) primary)
  end.

Definition win_press_keys (target : Z) (keys : list string) : Win unit :=
  match keys with
  | [key] => if single_ascii key is Some _ then win_type_text target key else win_press_chord keys
  | _ => win_press_chord keys
  end.

(** ** Commands *)

Definition win_validate_pointer_owner (target : Z) (point : ScreenPoint) : Win unit :=
  let& x := raise (win_checked_i32 (f64_round (sp_x point)) "pointer x") in
  let& y := raise (win_checked_i32 (f64_round (sp_y point)) "pointer y") in
  let& hit := ask (fun n => os_WindowFromPoint os n (x, y)) in
  let& target_pid := ask (fun n => os_window_process os n target) in
  let& hit_pid := ask (fun n => os_window_process os n hit) in
  if (target_pid =? 0) || negb (hit_pid =? target_pid) then
    ierr (mutation_not_dispatched (de_with_retry
      (driver_error DTargetUnavailable "pointer point is not owned by the authorized application") "observe_window"))
  else iret tt.

Definition win_perform (hwnd : Z) (action : WinAction) : Win unit :=
  check_guard ;&
  for_each (win_pointer_targets action) (win_validate_pointer_owner hwnd) ;&
  match action with
  | WActivate => activate hwnd
  | WSetWindowBounds bounds => set_window_bounds hwnd bounds
  | WSetWindowMinimized minimized => set_window_minimized hwnd minimized
  | WTerminateApplication pid process_generation windows => terminate_application pid process_generation windows
  | WClick point button count true => win_click_background hwnd point button count
  | WClick point button count false => win_click point button count
  | WPress point button duration_ms => win_press point button duration_ms
  | WMove point duration_ms => win_move_pointer point duration_ms
  | WTypeText text => win_type_text hwnd text
  | WPressKeys keys => win_press_keys hwnd keys
  | WScroll point delta_x delta_y => win_scroll point delta_x delta_y
  | WDrag from to duration_ms => win_drag from to duration_ms
  end.

Definition win_foreground_owner : Win (option ForegroundOwner) :=
  let& foreground := foreground_window in
  let& found := window_process_generation foreground in
  iret ((fun '(pid, generation) => {| fo_hwnd := foreground; fo_pid := pid; fo_process_generation := generation |}) <$> found).

Definition restore_foreground_owner (owner : ForegroundOwner) (target_pid target_generation : Z) : Win ForegroundRestorationStatus :=
  let& current := foreground_window in
  let& holder := window_process_generation current in
  if negb (bool_decide (holder = Some (target_pid, target_generation))) then iret SkippedOwnerChanged else
  let previous := fo_hwnd owner in
  let& exists_ := ask (fun n => os_IsWindow os n previous) in
  let& found := (if exists_ : bool then window_process_generation previous else iret None) in
  if negb (bool_decide (found = Some (fo_pid owner, fo_process_generation owner))) then iret RestorationTargetUnavailable else
  ikeep win_begin_dispatch (fun admitted =>
    match admitted with
    | Err _ => iret SkippedOwnerChanged
    | Ok _ =>
        let& granted := act (os_SetForegroundWindow os) (Fronted previous) in
        if negb granted then iret RestorationFailed else
        let& t := now in
        poll_until POLL_FUEL (t + FOREGROUND_RESTORE_TIMEOUT)
          (let& current := foreground_window in iret (current =? previous)) Restored (iret RestorationFailed)
    end).

Definition is_keyboard_action (a : WinAction) : bool := match a with WTypeText _ | WPressKeys _ => true | _ => false end.

Definition win_perform_foreground (hwnd pid expected_generation : Z) (action : WinAction) (restore_foreground : bool)
    (previous : option ForegroundOwner) : Win ForegroundRestorationStatus :=
  check_guard ;&
  let& found := window_process_generation hwnd in
  if negb (bool_decide (found = Some (pid, expected_generation))) then
    ierr (mutation_not_dispatched (driver_error DTargetUnavailable "target application process generation changed")) else
  (if is_keyboard_action action then
     let& current := foreground_window in if negb (current =? hwnd) then activate hwnd else iret tt
   else iret tt) ;&
  ikeep (win_perform hwnd action) (fun action_result =>
    check_guard ;&
    let& restoration :=
      (if negb restore_foreground then iret NotRequested else
       match previous with
       | None => iret RestorationTargetUnavailable
       | Some owner =>
           if fo_hwnd owner =? hwnd then iret NotNeeded
           else restore_foreground_owner owner pid expected_generation
       end) in
    raise (rmap (fun _ => restoration) action_result)).

Definition queued_generation_changed : DriverError :=
  mutation_not_dispatched (driver_error DTargetUnavailable "queued window process generation changed").

(** The command [Perform] of the actor's loop. *)
Definition win_perform_queued (hwnd pid process_generation : Z) (action : WinAction) : Win unit :=
  let& found := window_process_generation hwnd in
  if bool_decide (found = Some (pid, process_generation)) then win_perform hwnd action else ierr queued_generation_changed.

End Actor.

Inductive WinCommand :=
| CmdPerform (hwnd pid process_generation : Z) (action : WinAction) (guard : option (nat * option Z))
| CmdForeground (hwnd pid process_generation : Z) (action : WinAction) (restore_foreground : bool)
    (previous : option ForegroundOwner) (guard : option (nat * option Z))
| CmdForegroundOwner.

Inductive WinReply :=
| ReplyDone (r : Result unit DriverError)
| ReplyRestored (r : Result ForegroundRestorationStatus DriverError)
| ReplyOwner (r : Result (option ForegroundOwner) DriverError).

(** What the three methods of the actor's handle do with a command; [None] is
    the queue of an actor whose thread is gone. *)
Definition win_actor_stopped : DriverError := driver_error DPlatform "Windows input actor stopped".

Definition win_submit (queue : option (list WinCommand)) (command : WinCommand) : Result (list WinCommand) DriverError :=
  match queue with
  | None => Err (mutation_not_dispatched win_actor_stopped)
  | Some pending =>
      if (length pending <? WIN_COMMAND_CAPACITY)%nat then Ok (pending ++ [command])
      else Err (mutation_not_dispatched (de_with_retry (driver_error DBusy "Windows input actor is busy") "retry_with_backoff"))
  end.

(** [actor_loop]. *)
Definition win_command (os : Native) (c : WinCommand) (w : WinWorld) : WinWorld * WinReply :=
  match c with
  | CmdPerform hwnd pid generation action guard =>
      let '(w1, r) := win_perform_queued os guard hwnd pid generation action w in (w1, ReplyDone r)
  | CmdForeground hwnd pid generation action restore_foreground previous guard =>
      let '(w1, r) := win_perform_foreground os guard hwnd pid generation action restore_foreground previous w in (w1, ReplyRestored r)
  | CmdForegroundOwner => let '(w1, r) := win_foreground_owner os w in (w1, ReplyOwner r)
  end.

Fixpoint win_run (os : Native) (commands : list WinCommand) (w : WinWorld) : WinWorld * list WinReply :=
  match commands with
  | [] => (w, [])
  | c :: rest =>
      let '(w1, r) := win_command os c w in
      let '(w2, rs) := win_run os rest w1 in
      (w2, r :: rs)
  end.
