(* ===== verification/WinInputProps.v ===== *)
(** The theorems on the Windows input actor of [WinInput].

    [track] reads the log: what is held, and whether something was asked of the
    system without an admission before it.  Two program logics on [triple]: one
    for [between], which tells what is held between operations, and one for
    [state], which ties what was done to the lease of the guard.  With them, for
    every answer of the system and every interference on the guard: nothing is
    unguarded or left held ([win_input_safe]), errors tell the truth
    ([win_not_dispatched_truthful]), text arrives in order even when the system
    takes only a part ([win_typed_text_exact]), and waits end
    ([win_waits_end]). *)

From Stdlib Require Import Ascii String SpecFloat.
From S2P Require Import Prelude Floats Geometry Text Protocol Errors Driver InputText WinInput.
#[local] Open Scope Z_scope.

(** * What is held, and what was guarded *)

Inductive WinHeld := WHeldButton (button : PointerButton) | WHeldKey (key : Z * Z) | WHeldMessage (hwnd : Z) (button : PointerButton).

#[export] Instance WinHeld_eq_dec : EqDecision WinHeld.
Proof. solve_decision. Defined.

#[export] Instance WinHeld_countable : Countable WinHeld.
Proof.
  refine (inj_countable' (fun h => match h with WHeldButton b => inl b | WHeldKey k => inr (inl k) | WHeldMessage w b => inr (inr (w, b)) end)
                         (fun s => match s with inl b => WHeldButton b | inr (inl k) => WHeldKey k | inr (inr (w, b)) => WHeldMessage w b end) _).
  by intros [].
Defined.

Definition hold_input (held : gset WinHeld) (i : NativeInput) : gset WinHeld :=
  match i with
  | MouseInput (MF_DOWN b) _ _ => {[ WHeldButton b ]} ∪ held
  | MouseInput (MF_UP b) _ _ => held ∖ {[ WHeldButton b ]}
  | MouseInput _ _ _ => held
  | KeyboardInput vk scan _ false _ => {[ WHeldKey (vk, scan) ]} ∪ held
  | KeyboardInput vk scan _ true _ => held ∖ {[ WHeldKey (vk, scan) ]}
  end.

Definition hold_inputs (held : gset WinHeld) (inputs : list NativeInput) : gset WinHeld := fold_left hold_input inputs held.

Definition is_input_release (i : NativeInput) : bool :=
  match i with MouseInput (MF_UP _) _ _ | KeyboardInput _ _ _ true _ => true | _ => false end.

(** What only releases. *)
Definition only_releases (x : What) : bool :=
  match x with
  | Sent inputs _ => forallb is_input_release inputs
  | Messaged _ (WM_BUTTONUP _) _ _ => true
  | _ => false
  end.

(** Input the system took only in part although it only releases. *)
Definition refused_release (x : What) : bool :=
  match x with
  | Sent inputs accepted => forallb is_input_release inputs && (accepted <? length inputs)%nat
  | _ => false
  end.

Definition hold_what (held : gset WinHeld) (x : What) : gset WinHeld :=
  match x with
  | Sent inputs accepted => hold_inputs held (take accepted inputs)
  | Messaged hwnd (WM_BUTTONDOWN b) _ _ => {[ WHeldMessage hwnd b ]} ∪ held
  | Messaged hwnd (WM_BUTTONUP b) _ _ => held ∖ {[ WHeldMessage hwnd b ]}
  | _ => held
  end.

(** A log read from its start: whether the last entry is an admission, whether
    something that does not only release came without one before it, whether a
    release was refused, and what is held. *)
Record Track := { tk_admitted : bool; tk_unguarded : bool; tk_refused : bool; tk_held : gset WinHeld }.

Definition track_step (t : Track) (x : What) : Track :=
  match x with
  | Cleared _ _ _ => {| t with tk_admitted := true |}
  | _ => {| tk_admitted := false; tk_unguarded := tk_unguarded t || negb (tk_admitted t || only_releases x);
            tk_refused := tk_refused t || refused_release x; tk_held := hold_what (tk_held t) x |}
  end.

Definition track (log : list What) : Track :=
  fold_left track_step log {| tk_admitted := false; tk_unguarded := false; tk_refused := false; tk_held := ∅ |}.

Lemma track_snoc log x : track (log ++ [x]) = track_step (track log) x.
Proof. unfold track. by rewrite fold_left_app. Qed.

(** An admission by a guard that was closed, expired or interrupted. *)
Definition bad_admission (x : What) : bool :=
  match x with Cleared (Some lease) cells t => match check cells lease t with Ok _ => false | Err _ => true end | _ => false end.

(** The state between operations: every admission was good, nothing was
    unguarded, and what is held unless a release was refused. *)
Definition between (admitted : bool) (held : gset WinHeld) (w : WinWorld) : Prop :=
  let t := track (ww_log w) in
  Forall (fun x => bad_admission x = false) (ww_log w) /\
  tk_unguarded t = false /\ (admitted = true -> tk_admitted t = true) /\ (tk_refused t = false -> tk_held t = held).

(** * A program logic for computations over a world *)

Definition triple {W A} (P : W -> Prop) (m : Act (W := W) A) (Q : Result A DriverError -> W -> Prop) : Prop :=
  forall w, P w -> Q (m w).2 (m w).1.

Lemma triple_mono {W A} (P P' : W -> Prop) (m : Act A) (Q Q' : Result A DriverError -> W -> Prop) :
  (forall w, P' w -> P w) -> (forall r w, Q r w -> Q' r w) -> triple P m Q -> triple P' m Q'.
Proof. intros HP HQ Hm w Hw. apply HQ, Hm, HP, Hw. Qed.

Lemma triple_ret {W A} (a : A) (Q : Result A DriverError -> W -> Prop) : triple (Q (Ok a)) (iret a) Q.
Proof. by intros w. Qed.

Lemma triple_err {W A} e (Q : Result A DriverError -> W -> Prop) : triple (Q (Err e)) (ierr e) Q.
Proof. by intros w. Qed.

Lemma triple_raise {A} (r : Result A DriverError) Q : triple (Q r) (raise r) Q.
Proof. by intros w. Qed.

Lemma triple_keep {W A B} (P : W -> Prop) (m : Act A) (k : Result A DriverError -> Act B) R Q :
  triple P m R -> (forall r, triple (R r) (k r) Q) -> triple P (ikeep m k) Q.
Proof. intros Hm Hk w Hw. unfold ikeep. specialize (Hm w Hw). destruct (m w) as [w1 r]. by apply Hk. Qed.

Lemma triple_bind {W A B} (P : W -> Prop) (m : Act A) (k : A -> Act B) R Q :
  triple P m R -> (forall a, triple (R (Ok a)) (k a) Q) -> (forall e w, R (Err e) w -> Q (Err e) w) -> triple P (ibind m k) Q.
Proof. intros Hm Hk He w Hw. unfold ibind. specialize (Hm w Hw). destruct (m w) as [w1 [a|e]]; [by apply Hk|by apply He]. Qed.

Lemma triple_for_each {W A} (I : W -> Prop) (xs : list A) body Q :
  (forall w, I w -> Q (Ok tt) w) -> (forall x, triple I (body x) (fun r w => match r with Ok _ => I w | Err e => Q (Err e) w end)) ->
  triple I (for_each xs body) Q.
Proof.
  intros HQ Hb. induction xs as [|x xs IH]; cbn [for_each]; [by intros w Hw; apply HQ|].
  eapply triple_bind; [apply Hb|intros []; exact IH|done].
Qed.

(** ** Nothing unguarded, nothing held *)

Section Safety.
Context (os : Native) (guard : option (nat * option Z)).

Definition rests {A} (held : gset WinHeld) (_ : Result A DriverError) (w : WinWorld) : Prop := between false held w.

Lemma between_weaken a h w : between a h w -> between false h w.
Proof. intros (? & ? & _ & ?). by split_and!. Qed.

Lemma between_log a h w w' : ww_log w = ww_log w' -> between a h w -> between a h w'.
Proof. unfold between. by intros ->. Qed.

Lemma between_ask {A} a h (f : nat -> A) : triple (between a h) (ask os f) (fun r w => exists n, r = Ok (f n) /\ between a h w).
Proof. intros w Hw. exists (ww_at w). by split. Qed.

Lemma between_now a h : triple (between a h) now (fun r w => exists t, r = Ok t /\ between a h w).
Proof. intros w Hw. by exists (ww_time w). Qed.

Lemma between_check a h : triple (between a h) (check_guard os guard) (fun _ w => between a h w).
Proof. by intros w Hw. Qed.

Lemma between_sleep a h wait : triple (between a h) (win_sleep os wait) (fun r w => r = Ok tt /\ between a h w).
Proof. by intros w Hw. Qed.

Lemma logged_admission lease cells t a h w :
  bad_admission (Cleared lease cells t) = false -> between a h w -> between true h (logged (Cleared lease cells t) w).
Proof.
  intros Hb (Hg & Hu & _ & Hh). unfold between, logged. cbn [ww_log]. rewrite track_snoc. cbn.
  split_and!; [by apply Forall_app_2, Forall_singleton|done..].
Qed.

Lemma between_begin a h :
  triple (between a h) (win_begin_dispatch os guard) (fun r w => between (match r with Ok _ => true | Err _ => false end) h w).
Proof.
  intros w Hw. unfold win_begin_dispatch. apply (between_log _ _ _ (tick os 0 w)) in Hw; [|done]. set (w1 := tick os 0 w) in *.
  destruct (os_input_desktop_available _ _), guard as [[lease ob]|].
  - destruct (check (ww_guard w1) lease (ww_time w1)) as [[]|e] eqn:Hc.
    + destruct (begin_dispatch (ww_guard w1) lease ob (ww_time w1)) as [g [[]|e]].
      * apply (logged_admission _ _ _ a); [by unfold bad_admission; rewrite Hc|done].
      * by apply (between_weaken a).
    + unfold begin_dispatch. rewrite Hc. by apply (between_weaken a).
  - by apply (logged_admission _ _ _ a).
  - apply (between_weaken a) in Hw. destruct (check (activity_monitor_failed (ww_guard w1)) lease (ww_time w1)); by apply (between_log _ _ w1).
  - by apply (between_weaken a).
Qed.

Definition is_admission (x : What) : bool := match x with Cleared _ _ _ => true | _ => false end.

(** An entry that is admitted, or only releases. *)
Lemma logged_effect x a h w :
  is_admission x = false -> a = true \/ only_releases x = true -> between a h w -> between false (hold_what h x) (logged x w).
Proof.
  intros Hx Ha (Hg & Hu & Had & Hh). unfold between, logged. cbn [ww_log]. rewrite track_snoc.
  split; [apply Forall_app_2; [done|]; apply Forall_singleton; by destruct x|].
  assert (Hstep : track_step (track (ww_log w)) x = {| tk_admitted := false;
    tk_unguarded := tk_unguarded (track (ww_log w)) || negb (tk_admitted (track (ww_log w)) || only_releases x);
    tk_refused := tk_refused (track (ww_log w)) || refused_release x; tk_held := hold_what (tk_held (track (ww_log w))) x |}) by by destruct x.
  rewrite Hstep. cbn. split_and!; [|done|].
  - rewrite Hu. destruct Ha as [-> | ->]; [by rewrite Had|by rewrite orb_true_r].
  - intros [Hr _]%orb_false_elim. by rewrite Hh.
Qed.

Lemma between_act {A} (f : nat -> A) (what : A -> What) a h :
  (forall x, is_admission (what x) = false) -> (a = true \/ forall x, only_releases (what x) = true) ->
  triple (between a h) (act os f what) (fun r w => exists n, r = Ok (f n) /\ between false (hold_what h (what (f n))) w).
Proof.
  intros Hx Ha w Hw. exists (ww_at w). split; [done|]. unfold act. cbn.
  apply (logged_effect _ a); [done|destruct Ha; auto|]. by apply (between_log _ _ w).
Qed.

Lemma between_send_native inputs a h :
  a = true \/ forallb is_input_release inputs = true ->
  triple (between a h) (send_native os inputs) (fun r w => exists k, r = Ok k /\ (k <= length inputs)%nat /\ between false (hold_inputs h (take k inputs)) w).
Proof.
  intros Ha. eapply triple_mono, (between_act _ (Sent inputs) a h); [done| |done|destruct Ha; auto].
  intros r w (n & -> & Hw). eexists. split; [done|]. split; [lia|exact Hw].
Qed.

(** Releases leave nothing of what they release, or are refused. *)
Lemma between_releases inputs a h :
  forallb is_input_release inputs = true ->
  triple (between a h) (send_raw os inputs) (fun _ w => between false (hold_inputs h inputs) w).
Proof.
  intros Hr. destruct inputs as [|i is_]; [intros w; apply between_weaken|].
  change (send_raw os (i :: is_)) with (let& sent := send_native os (i :: is_) in raise (input_result sent (length (i :: is_))) : Act unit).
  set (inputs := i :: is_) in *.
  eapply (triple_bind _ _ _ (fun r w => match r with Ok _ => between false (hold_inputs h inputs) w | Err _ => False end)); [|intros k w Hw; exact Hw|done].
  intros w Hw. unfold send_native, act. cbn [fst snd]. set (k := Nat.min _ _).
  assert (Hl : between false (hold_what h (Sent inputs k)) (logged (Sent inputs k) (tick os 0 w))).
  { apply (logged_effect _ a); [done|right; exact Hr|]. by apply (between_log _ _ w). }
  destruct (decide (k = length inputs)) as [Hk|Hk].
  - cbn [hold_what] in Hl. by rewrite Hk, firstn_all in Hl at 1.
  - destruct Hl as (Hg & Hu & Had & _). split_and!; [done..|]. unfold logged. cbn [ww_log]. rewrite track_snoc. cbn [track_step tk_refused].
    intros [_ Hf]%orb_false_elim. cbn [refused_release] in Hf. rewrite Hr in Hf. apply Nat.ltb_ge in Hf. lia.
Qed.

(** The steps of the operations, as rules on what follows. *)
Section Rules.
Context {A : Type} (a : bool) (h : gset WinHeld) (Q : Result A DriverError -> WinWorld -> Prop).
Hypothesis (rest_err : forall e w, between false h w -> Q (Err e) w).

Lemma w_ask {X} (f : nat -> X) k : (forall x, triple (between a h) (k x) Q) -> triple (between a h) (ibind (ask os f) k) Q.
Proof. intros Hk w Hw. apply Hk. by apply (between_log _ _ w). Qed.

Lemma w_now k : (forall t, triple (between a h) (k t) Q) -> triple (between a h) (ibind now k) Q.
Proof. intros Hk w Hw. by apply Hk. Qed.

Lemma w_sleep wait k : triple (between a h) k Q -> triple (between a h) (win_sleep os wait ;& k) Q.
Proof. intros Hk w Hw. apply Hk. by apply (between_log _ _ w). Qed.

Lemma w_raise {X} (r : Result X DriverError) k : (forall x, triple (between a h) (k x) Q) -> triple (between a h) (ibind (raise r) k) Q.
Proof. intros Hk w Hw. destruct r; [by apply Hk|]. by apply rest_err, (between_weaken a). Qed.

Lemma w_check k : triple (between a h) k Q -> triple (between a h) (check_guard os guard ;& k) Q.
Proof.
  intros Hk. eapply triple_bind; [apply between_check|intros []; exact Hk|].
  intros e w Hw. by apply rest_err, (between_weaken a).
Qed.

Lemma w_begin k : triple (between true h) k Q -> triple (between a h) (win_begin_dispatch os guard ;& k) Q.
Proof. intros Hk. eapply triple_bind; [apply between_begin|intros []; exact Hk|]. intros e w Hw. by apply rest_err. Qed.

Lemma w_ret (x : A) : (forall w, between false h w -> Q (Ok x) w) -> triple (between a h) (iret x) Q.
Proof. intros HQ w Hw. by apply HQ, (between_weaken a). Qed.

Lemma w_err e : triple (between a h) (ierr e) Q.
Proof. intros w Hw. by apply rest_err, (between_weaken a). Qed.

(** An operation that keeps what is held. *)
Lemma w_rests {X} (m : Act X) k :
  triple (between false h) m (rests h) -> (forall x, triple (between false h) (k x) Q) -> triple (between a h) (ibind m k) Q.
Proof.
  intros Hm Hk. eapply triple_bind; [eapply triple_mono, Hm; [intros w; apply between_weaken|done]|exact Hk|]. intros e w Hw. by apply rest_err.
Qed.

(** A logged call that does not hold anything. *)
Lemma w_act {X} (f : nat -> X) (what : X -> What) k :
  a = true -> (forall x, is_admission (what x) = false) -> (forall x, hold_what h (what x) = h) ->
  (forall x, triple (between false h) (k x) Q) -> triple (between a h) (ibind (act os f what) k) Q.
Proof.
  intros -> Hx Hh Hk. eapply triple_bind; [apply between_act; auto| |by intros e w (n & [=] & _)].
  intros x w (n & [= ->] & Hw). rewrite Hh in Hw. by apply Hk.
Qed.
End Rules.

Lemma w_act_last {X} (f : nat -> X) (what : X -> What) h :
  (forall x, is_admission (what x) = false) -> (forall x, hold_what h (what x) = h) -> triple (between true h) (act os f what) (rests h).
Proof. intros Hx Hh. eapply triple_mono, between_act; [done| |done|by left]. intros r w (n & -> & Hw). by rewrite Hh in Hw. Qed.

Lemma w_ask_last {X} (f : nat -> X) a h : triple (between a h) (ask os f) (rests h).
Proof. intros w Hw. apply (between_weaken a). by apply (between_log _ _ w). Qed.

Lemma rests_err {A} h e w : between false h w -> rests (A := A) h (Err e) w.
Proof. done. Qed.

Ltac wstep :=
  match goal with
  | |- triple _ (ibind (ask _ _) _) _ => apply w_ask; intros ?
  | |- triple _ (ibind now _) _ => apply w_now; intros ?
  | |- triple _ (ibind (win_sleep _ _) _) _ => apply w_sleep
  | |- triple _ (ibind (raise _) _) _ => apply w_raise; [apply rests_err|intros ?]
  | |- triple _ (ibind (check_guard _ _) _) _ => apply w_check; [apply rests_err|]
  | |- triple _ (ibind (win_begin_dispatch _ _) _) _ => apply w_begin; [apply rests_err|]
  | |- triple _ (ibind (act _ _ _) _) _ => apply w_act; [done|by intros ?|by intros ?|intros ?]
  | |- triple _ (ask _ _) _ => apply w_ask_last
  | |- triple _ (act _ _ _) _ => apply w_act_last; by intros ?
  | |- triple _ (iret _) _ => apply w_ret; by intros ?
  | |- triple _ (ierr _) _ => apply w_err; apply rests_err
  | |- triple _ (if ?b then _ else _) _ => destruct b
  | |- triple _ (match ?p with (_, _) => _ end) _ => destruct p
  | |- triple _ (match ?o with Some _ => _ | None => _ end) _ => destruct o
  end.

Ltac wrun := repeat wstep.

Lemma rests_wait fuel deadline h : triple (between false h) (win_wait_loop os guard fuel deadline) (rests h).
Proof. induction fuel as [|fuel IH]; cbn [win_wait_loop]; wrun. exact IH. Qed.

Lemma rests_wait_guarded duration h : triple (between false h) (wait_guarded os guard duration) (rests h).
Proof. intros w. apply rests_wait. Qed.

Lemma rests_poll_until {A} fuel deadline done_ (yes : A) after h :
  triple (between false h) done_ (rests h) -> triple (between false h) after (rests h) ->
  triple (between false h) (poll_until os fuel deadline done_ yes after) (rests h).
Proof.
  intros Hd Ha. induction fuel as [|fuel IH]; cbn [poll_until]; wrun; [done..|].
  apply w_rests; [apply rests_err|done|intros d]. wrun. exact IH.
Qed.

Lemma rests_poll_settled fuel deadline done_ e h :
  triple (between false h) done_ (rests h) -> triple (between false h) (poll_settled os fuel deadline done_ e) (rests h).
Proof.
  intros Hd. induction fuel as [|fuel IH]; cbn [poll_settled]; (apply w_rests; [apply rests_err|done|intros d]); wrun. exact IH.
Qed.

Lemma rests_activate hwnd h : triple (between false h) (activate os guard hwnd) (rests h).
Proof.
  unfold activate. wrun.
  all: (apply w_rests; [apply rests_err|wrun|intros []]); wrun; apply rests_poll_until; unfold foreground_window; wrun.
Qed.

Lemma rests_outer hwnd h : triple (between false h) (outer_window_rect os hwnd) (rests h).
Proof. unfold outer_window_rect. wrun. intros w Hw. exact Hw. Qed.

Lemma rests_set_window_bounds hwnd requested h : triple (between false h) (set_window_bounds os guard hwnd requested) (rests h).
Proof.
  unfold set_window_bounds. apply w_rests; [apply rests_err|apply rests_outer|intros outer]. unfold extended_window_rect. wrun.
  apply rests_poll_settled. wrun. apply w_rests; [apply rests_err|apply rests_outer|intros outer']. wrun.
Qed.

Lemma rests_set_window_minimized hwnd minimized h : triple (between false h) (set_window_minimized os guard hwnd minimized) (rests h).
Proof. unfold set_window_minimized. wrun. apply rests_poll_settled. wrun. Qed.

Lemma rests_post_close windows pid generation posted h : triple (between false h) (post_close os guard windows pid generation posted) (rests h).
Proof.
  revert posted. induction windows as [|raw windows IH]; intros posted; cbn [post_close]; unfold window_process_generation; wrun; apply IH.
Qed.

Lemma rests_await_exit fuel deadline h : triple (between false h) (await_exit os guard fuel deadline) (rests h).
Proof.
  assert (Hwait : triple (between false h) (wait_for_process os) (rests h)) by (intros w Hw; exact Hw).
  induction fuel as [|fuel IH]; cbn [await_exit]; wrun; (apply w_rests; [apply rests_err|exact Hwait|intros status]); wrun; destruct status; wrun. exact IH.
Qed.

Lemma rests_terminate pid generation windows h : triple (between false h) (terminate_application os guard pid generation windows) (rests h).
Proof.
  unfold terminate_application. destruct windows as [|raw windows]; [wrun|]. wrun.
  apply w_rests; [apply rests_err|apply rests_post_close|intros posted]. wrun.
  apply w_rests; [apply rests_err|apply rests_await_exit|intros []]; wrun.
Qed.

(** An operation that keeps what is held and gives a known kind of value. *)
Definition gives {X} (h : gset WinHeld) (phi : X -> Prop) (r : Result X DriverError) (w : WinWorld) : Prop :=
  between false h w /\ forall x, r = Ok x -> phi x.

Lemma w_value {A X} (m : Act X) (phi : X -> Prop) k h :
  triple (between false h) m (gives h phi) -> (forall x, phi x -> triple (between false h) (k x) (rests h)) ->
  triple (between false h) (ibind m k) (rests (A := A) h).
Proof.
  intros Hm Hk. eapply triple_bind; [exact Hm| |by intros e w [Hw _]]. intros x w [Hw Hx]. apply Hk; auto.
Qed.

Lemma rests_absolute point flags h :
  triple (between false h) (absolute_mouse os point flags) (gives h (fun i => exists at_, i = MouseInput flags (Some at_) 0)).
Proof.
  unfold absolute_mouse, virtual_desktop. intros w Hw. unfold ibind, ask.
  destruct (os_GetSystemMetrics os (ww_at w)) as [[[x y] cx] cy]. destruct ((cx <=? 1) || (cy <=? 1)); (split; [exact Hw|]); intros i [= <-]. eauto.
Qed.

(** An absolute mouse event, and what follows. *)
Lemma w_absolute {A} point flags k h :
  (forall at_, triple (between false h) (k (MouseInput flags (Some at_) 0)) (rests h)) ->
  triple (between false h) (ibind (absolute_mouse os point flags) k) (rests (A := A) h).
Proof. intros Hk. eapply w_value; [apply rests_absolute|]. intros i [at_ ->]. apply Hk. Qed.

(** Input that is sent whole or not, and holds nothing in any part. *)
Lemma rests_send inputs h : (forall k, hold_inputs h (take k inputs) = h) -> triple (between false h) (send os guard inputs) (rests h).
Proof.
  intros Hh. apply w_begin; [apply rests_err|]. destruct inputs as [|i is_]; [apply w_ret; by intros ?|].
  change (send_raw os (i :: is_)) with (let& sent := send_native os (i :: is_) in raise (input_result sent (length (i :: is_))) : Act unit).
  eapply triple_bind; [apply between_send_native; by left| |by intros e w (k & [=] & _)].
  intros k w (k' & [= <-] & _ & Hw). rewrite Hh in Hw. exact Hw.
Qed.

Lemma rests_move at_ h : triple (between false h) (send os guard [MouseInput MF_MOVE at_ 0]) (rests h).
Proof. apply rests_send. intros [|[|k]]; done. Qed.

Lemma held_released x : ({[ x ]} ∪ ∅) ∖ {[ x ]} = (∅ : gset WinHeld).
Proof. set_solver. Qed.

(** Releasing a button that was pressed. *)
Lemma rests_release button : triple (between false ({[ WHeldButton button ]} ∪ ∅)) (send_raw os [relative_mouse (MF_UP button) 0]) (rests ∅).
Proof.
  eapply triple_mono, (between_releases [relative_mouse (MF_UP button) 0] false); [done| |done].
  intros r w Hw. cbn in Hw. by rewrite held_released in Hw.
Qed.

(** Sending one button down: held exactly when it was accepted. *)
Lemma between_press button :
  triple (between true ∅) (send_raw os [relative_mouse (MF_DOWN button) 0])
    (fun r w => match r with Ok _ => between false ({[ WHeldButton button ]} ∪ ∅) w | Err _ => between false ∅ w end).
Proof.
  unfold send_raw. eapply triple_bind; [apply between_send_native; by left| |by intros e w (k & [=] & _)].
  intros k w (k' & [= <-] & Hk & Hw). cbn in Hk. destruct k as [|[|k]]; [exact Hw|exact Hw|lia].
Qed.

Lemma rests_win_click point button count : triple (between false ∅) (win_click os guard point button count) (rests ∅).
Proof.
  apply w_absolute. intros at_. apply w_rests; [apply rests_err|apply rests_move|intros _].
  apply w_rests; [apply rests_err|apply rests_wait_guarded|intros _]. apply triple_for_each; [done|]. intros _.
  apply w_begin; [done|]. eapply triple_bind.
  - eapply triple_keep; [apply between_press|]. intros [[]|e]; [|exact (triple_err _ (rests ∅))].
    eapply triple_keep; [apply (rests_wait_guarded _ ({[ WHeldButton button ]} ∪ ∅))|]. intros waited.
    eapply triple_keep; [apply rests_release|]. intros released. exact (triple_raise _ (rests ∅)).
  - intros []. eapply triple_mono, rests_wait_guarded; [done|]. by intros [].
  - done.
Qed.

(** A background message, whatever its answer. *)
Lemma between_message target message parameter a h :
  a = true \/ (exists b, message = WM_BUTTONUP b) ->
  triple (between a h) (send_background os target message parameter) (fun _ w => between false (hold_what h (Messaged target message parameter true)) w).
Proof.
  intros Ha. unfold send_background.
  eapply triple_bind; [apply between_act; [done|destruct Ha as [->|[b ->]]; [by left|by right]]| |by intros e w (n & [=] & _)].
  intros handled w (n & [= ->] & Hw). assert (Hh : forall x, hold_what h (Messaged target message parameter x) = hold_what h (Messaged target message parameter true)) by done.
  rewrite Hh in Hw. by destruct (os_SendMessageTimeout os n).
Qed.

Lemma rests_recipient left_ owner screen recipient h : triple (between false h) (resolve_recipient os left_ owner screen recipient) (rests h).
Proof.
  revert recipient. induction left_ as [|left_ IH]; intros recipient; cbn [resolve_recipient]; unfold window_process_generation; wrun. apply IH.
Qed.

Lemma rests_win_click_background target point button count :
  triple (between false ∅) (win_click_background os guard target point button count) (rests ∅).
Proof.
  unfold win_click_background, window_process_generation. wrun. apply w_rests; [apply rests_err|apply rests_recipient|intros [recipient client]]. wrun.
  set (parameter := pack_point (fst client) (snd client)).
  eapply triple_bind; [eapply triple_mono, (between_message recipient WM_MOUSEMOVE parameter true ∅); [done| |by left]; intros r w Hw; exact Hw|intros []|done].
  apply triple_for_each; [done|]. intros _. apply w_begin; [done|].
  apply (triple_bind _ _ _ (rests ∅)); [|intros []; eapply triple_mono, between_check; [done|by intros [] w Hw]|done].
  eapply triple_keep; [apply between_message; by left|]. intros pressed.
  eapply triple_keep; [apply between_message; right; eauto|]. intros released w Hw.
  cbn in Hw. by rewrite held_released in Hw.
Qed.

Lemma rests_interpolate from to duration_ms h : triple (between false h) (win_interpolate os guard from to duration_ms) (rests h).
Proof.
  apply triple_for_each; [done|]. intros step. eapply (triple_mono _ _ _ (rests h)); [done|by intros []|].
  apply w_absolute. intros at_. apply w_rests; [apply rests_err|apply rests_move|intros _].
  case_match; [apply rests_wait_guarded|wrun].
Qed.

Lemma rests_hold_during from button during :
  (forall h, triple (between false h) during (rests h)) -> triple (between false ∅) (hold_during os guard from button during) (rests ∅).
Proof.
  intros Hd. apply w_absolute. intros at_. apply w_begin; [apply rests_err|].
  set (inputs := [MouseInput MF_MOVE (Some at_) 0; relative_mouse (MF_DOWN button) 0]).
  eapply triple_bind; [apply (between_send_native inputs); by left| |by intros e w (k & [=] & _)].
  intros sent. set (h := hold_inputs ∅ (take sent inputs)).
  match goal with |- triple _ ?m _ => enough (Ht : (sent <= 2)%nat -> triple (between false h) m (rests ∅)) end.
  { intros w (k & [= <-] & Hk & Hw). exact (Ht Hk w Hw). }
  intros Hle. destruct (decide (sent = 2%nat)) as [-> | Hne].
  - change (input_result 2 (length inputs)) with (@Ok unit DriverError tt). cbv iota. eapply triple_keep; [apply Hd|]. intros waited.
    eapply triple_keep; [|intros released; exact (triple_raise _ (rests ∅))].
    change (triple (between false ({[ WHeldButton button ]} ∪ ∅)) (send_raw os [relative_mouse (MF_UP button) 0]) (rests ∅)). apply rests_release.
  - assert (Hn : (sent =? length inputs)%nat = false) by by apply Nat.eqb_neq. unfold input_result. rewrite !Hn.
    assert (Hh : h = ∅) by (subst h inputs; destruct sent as [|[|sent]]; [done|done|lia]). rewrite Hh.
    intros w Hw. by destruct (sent =? 0)%nat.
Qed.

Lemma rests_win_move target duration_ms : triple (between false ∅) (win_move_pointer os guard target duration_ms) (rests ∅).
Proof. unfold win_move_pointer. wrun. apply rests_interpolate. Qed.

Lemma rests_wheel flag delta horizontal h :
  triple (between false h) (wheel_input os flag delta horizontal) (gives h (fun i => exists data, i = MouseInput flag None data)).
Proof.
  intros w Hw. unfold wheel_input, wheel_units, ibind, ask, raise, relative_mouse. destruct (os_wheel os (ww_at w) horizontal) as [units|]; [|by split].
  cbn [ok_or]. destruct ((units =? 0) || (units =? U32_ALL)); (split; [exact Hw|]); intros i [= <-]. eauto.
Qed.

(** Optional wheel input. *)
Lemma rests_wheels (b : bool) flag delta horizontal h :
  triple (between false h) (if b then let& i := wheel_input os flag delta horizontal in iret [i] else iret [])
    (gives h (fun is_ => is_ = [] \/ exists data, is_ = [MouseInput flag None data])).
Proof.
  destruct b; [|intros w Hw; split; [exact Hw|intros is_ [= <-]; by left]].
  eapply triple_bind; [apply rests_wheel| |by intros e w [Hw _]].
  intros i w [Hw Hi]. split; [exact Hw|]. intros is_ [= <-]. right. destruct (Hi i eq_refl) as [data ->]. eauto.
Qed.

Lemma rests_win_scroll point delta_x delta_y : triple (between false ∅) (win_scroll os guard point delta_x delta_y) (rests ∅).
Proof.
  apply w_absolute. intros at_. eapply w_value; [apply rests_wheels|]. intros vertical Hv.
  eapply w_value; [apply rests_wheels|]. intros horizontal Hh. apply rests_send.
  destruct Hv as [->|[v ->]], Hh as [->|[x ->]]; intros [|[|[|[|k]]]]; done.
Qed.

(** ** Keyboard input *)

(** The keys held after keyboard input. *)
Definition key_list (inputs : list NativeInput) : list (Z * Z * bool) :=
  omap (fun i => match i with KeyboardInput vk scan _ up _ => Some ((vk, scan), negb up) | _ => None end) inputs.

Definition all_keys (inputs : list NativeInput) : Prop := Forall (fun i => is_Some (key_of i)) inputs.

Lemma settled_hold inputs : all_keys inputs -> forall held,
  settled (key_list inputs) -> (forall x, x ∈ held -> exists k, x = WHeldKey k /\ (k, false) ∈ key_list inputs) -> hold_inputs held inputs = ∅.
Proof.
  induction 1 as [|i inputs Hi _ IH]; intros held Hs Hh.
  { cbn. apply set_eq. intros x. split; [|set_solver]. intros (k & _ & []%elem_of_nil)%Hh. }
  destruct i as [|vk scan u up x]; [by destruct Hi|]. cbn in Hs. destruct Hs as [Hup Hs]. cbn [hold_inputs fold_left hold_input].
  assert (Hrest : forall y, y ∈ held -> y <> WHeldKey (vk, scan) \/ up = false -> exists k, y = WHeldKey k /\ (k, false) ∈ key_list inputs).
  { intros y Hy Hne. destruct (Hh y Hy) as (k & -> & [[= -> Hb]|Hk]%elem_of_cons); [|eauto]. destruct Hne as [Hne| ->]; [done|done]. }
  destruct up; apply IH; try done.
  - intros y [Hy Hne]%elem_of_difference. apply Hrest; [done|left; set_solver].
  - intros y [->%elem_of_singleton|Hy]%elem_of_union; [exists (vk, scan); split; [done|by apply Hup]|]. apply Hrest; [done|by right].
Qed.

Definition held_of (inputs : list NativeInput) : gset WinHeld := list_to_set (WHeldKey <$> omap key_of inputs).

Lemma elem_held_of inputs x : x ∈ held_of inputs <-> exists i k, i ∈ inputs /\ key_of i = Some k /\ x = WHeldKey k.
Proof.
  unfold held_of. rewrite elem_of_list_to_set, list_elem_of_fmap. setoid_rewrite list_elem_of_omap. naive_solver.
Qed.

Lemma held_of_step acc i : is_Some (key_of i) -> held_of (track_key acc i) = hold_input (held_of acc) i.
Proof.
  destruct i as [|vk scan u up x]; [by intros []|]. intros _. apply set_eq. intros y. unfold track_key. cbn [key_of is_keyup].
  destruct up; cbn [hold_input]; [rewrite elem_of_difference|rewrite elem_of_union]; rewrite elem_of_singleton, !elem_held_of;
    setoid_rewrite elem_of_app || idtac; setoid_rewrite list_elem_of_filter; cbn.
  - naive_solver.
  - split.
    + intros (j & k & [[Hne Hj]|Hj%list_elem_of_singleton] & Hk & ->); [right; eauto|]. subst j. injection Hk as <-. by left.
    + intros [->|(j & k & Hj & Hk & ->)]; [eexists _, _; split; [by right; left|done]|].
      destruct (decide (key_of j = Some (vk, scan))) as [He|Hne]; [|eauto 8].
      rewrite He in Hk. injection Hk as <-. eexists _, _. split; [by right; left|done].
Qed.

Lemma held_of_fold prefix acc : all_keys prefix -> held_of (fold_left track_key prefix acc) = hold_inputs (held_of acc) prefix.
Proof.
  intros Hp. revert acc. induction Hp as [|i prefix Hi _ IH]; intros acc; [done|]. cbn [fold_left hold_inputs].
  rewrite IH, held_of_step by done. reflexivity.
Qed.

Lemma all_keys_fold prefix acc : all_keys prefix -> all_keys acc -> all_keys (fold_left track_key prefix acc).
Proof.
  intros Hp. revert acc. induction Hp as [|i prefix Hi _ IH]; intros acc Ha; [done|]. apply IH.
  assert (all_keys (filter (fun other => key_of other <> key_of i) acc)).
  { apply Forall_forall. intros j [_ Hj]%list_elem_of_filter. by eapply Forall_forall in Ha. }
  unfold track_key. case_match; [done|]. by apply Forall_app_2, Forall_singleton.
Qed.

Lemma releases_only inputs : all_keys inputs -> forallb is_input_release (keyboard_releases inputs) = true /\ all_keys (keyboard_releases inputs).
Proof.
  intros Hi. pose proof (all_keys_fold inputs [] Hi ltac:(constructor)) as Ha. unfold keyboard_releases.
  assert (Hf : Forall (fun i => is_input_release i = true /\ is_Some (key_of i)) (released_input <$> fold_left track_key inputs [])).
  { apply Forall_fmap. eapply Forall_impl; [exact Ha|]. intros [|]; [by intros []|]. cbn. eauto. }
  apply Forall_rev in Hf. split; [|eapply Forall_impl; [exact Hf|by intros i []]].
  apply forallb_forall. intros i Hin%list_elem_of_In. eapply Forall_forall in Hf as [? _]; [|exact Hin]. done.
Qed.

Lemma key_list_app xs ys : key_list (xs ++ ys) = key_list xs ++ key_list ys.
Proof. apply omap_app. Qed.

Lemma settled_ups {K} (keys : list K) : settled ((fun k => (k, false)) <$> keys).
Proof. induction keys as [|k keys IH]; [done|]. by split. Qed.

Lemma keyboard_releases_clean prefix : all_keys prefix -> hold_inputs (hold_inputs ∅ prefix) (keyboard_releases prefix) = ∅.
Proof.
  intros Hp. assert (Heq : hold_inputs ∅ prefix = held_of (fold_left track_key prefix [])) by (symmetry; by apply held_of_fold).
  rewrite Heq. destruct (releases_only prefix Hp) as [_ Hk].
  pose proof (all_keys_fold prefix [] Hp ltac:(constructor)) as Ha.
  assert (Hlist : key_list (keyboard_releases prefix) = (fun k => (k, false)) <$> omap key_of (rev (fold_left track_key prefix []))).
  { unfold keyboard_releases. rewrite <- map_rev. apply Forall_rev in Ha. revert Ha. generalize (rev (fold_left track_key prefix [])).
    induction 1 as [|i l Hi _ IH]; [done|]. destruct i as [|]; [by destruct Hi|]. cbn. f_equal. exact IH. }
  apply settled_hold; [done|rewrite Hlist; apply settled_ups|]. intros x (i & k & Hi & Hk' & ->)%elem_held_of.
  exists k. split; [done|]. rewrite Hlist. apply list_elem_of_fmap. exists k. split; [done|]. apply list_elem_of_omap. exists i. split; [|done].
  by apply list_elem_of_In, in_rev; rewrite rev_involutive; apply list_elem_of_In.
Qed.

Lemma rests_send_keyboard inputs : all_keys inputs -> hold_inputs ∅ inputs = ∅ -> triple (between false ∅) (send_keyboard os guard inputs) (rests ∅).
Proof.
  intros Hk Hh. apply w_begin; [apply rests_err|].
  eapply triple_bind; [apply between_send_native; by left| |by intros e w (k & [=] & _)].
  intros sent. match goal with |- triple _ ?m _ => enough (Ht : (sent <= length inputs)%nat -> triple (between false (hold_inputs ∅ (take sent inputs))) m (rests ∅)) end.
  { intros w (k & [= <-] & Hle & Hw). exact (Ht Hle w Hw). }
  intros Hle. apply (triple_keep _ _ _ (rests ∅)); [|intros r; exact (triple_raise _ (rests ∅))].
  destruct (Nat.ltb_spec sent (length inputs)).
  - assert (Hp : all_keys (take sent inputs)) by (by apply Forall_take).
    eapply triple_mono, (between_releases (keyboard_releases (take sent inputs)) false); [done| |by apply releases_only].
    intros r w Hw. by rewrite (keyboard_releases_clean _ Hp) in Hw.
  - rewrite take_ge, Hh by lia. apply w_ret. done.
Qed.

(** Pairs of down and up, and a chord around them. *)
Definition strokes {K} (keys : list K) : list (K * bool) := concat ((fun k => [(k, true); (k, false)]) <$> keys).

Lemma settled_strokes {K} (keys : list K) rest : settled rest -> settled (strokes keys ++ rest).
Proof. intros Hr. induction keys as [|k keys IH]; [done|]. split; [by left|by split]. Qed.

Lemma settled_chord {K} (modifiers primary : list K) :
  settled (((fun k => (k, true)) <$> modifiers) ++ strokes primary ++ ((fun k => (k, false)) <$> rev modifiers)).
Proof.
  apply settled_app; [apply settled_strokes, settled_ups|]. intros pre k rest Heq.
  assert (Hk : k ∈ modifiers).
  { assert (Hin : (k, true) ∈ (fun k => (k, true)) <$> modifiers) by (rewrite Heq; set_solver).
    apply list_elem_of_fmap in Hin as (k' & [= ->] & ?). done. }
  apply elem_of_app. right. apply elem_of_app. right. apply list_elem_of_fmap. exists k. split; [done|].
  by apply list_elem_of_In, in_rev; rewrite rev_involutive; apply list_elem_of_In.
Qed.

Lemma key_list_strokes (f : Z -> bool -> NativeInput) (g : Z -> Z * Z) keys :
  (forall k b, key_list [f k b] = [(g k, negb b)]) ->
  key_list (concat ((fun k => [f k false; f k true]) <$> keys)) = strokes (g <$> keys).
Proof.
  intros Hf. induction keys as [|k keys IH]; [done|]. cbn [fmap list_fmap concat].
  rewrite key_list_app, IH. change (f k false :: [f k true]) with ([f k false] ++ [f k true]). by rewrite key_list_app, !Hf.
Qed.

Lemma key_list_each (f : Z -> NativeInput) (g : Z -> Z * Z) b keys :
  (forall k, key_list [f k] = [(g k, b)]) -> key_list (f <$> keys) = (fun k => (k, b)) <$> (g <$> keys).
Proof.
  intros Hf. induction keys as [|k keys IH]; [done|]. cbn [fmap list_fmap].
  change (f k :: (f <$> keys)) with ([f k] ++ (f <$> keys)). rewrite key_list_app, Hf. cbn. f_equal. exact IH.
Qed.

Lemma text_inputs_ok chunk : all_keys (text_inputs chunk) /\ hold_inputs ∅ (text_inputs chunk) = ∅.
Proof.
  assert (Hk : all_keys (text_inputs chunk)) by (induction chunk; [constructor|]; repeat (constructor; [eauto|]); done).
  split; [done|]. apply settled_hold; [done| |set_solver]. unfold text_inputs.
  rewrite (key_list_strokes unit_input (fun u => (0, u))), <- (app_nil_r (strokes _)) by done. by apply settled_strokes.
Qed.

Lemma chord_inputs_ok modifiers primary : all_keys (chord_inputs os modifiers primary) /\ hold_inputs ∅ (chord_inputs os modifiers primary) = ∅.
Proof.
  assert (Hk : all_keys (chord_inputs os modifiers primary)).
  { repeat apply Forall_app_2; [apply Forall_fmap, Forall_true; cbn; eauto| |apply Forall_fmap, Forall_true; cbn; eauto].
    induction primary; [constructor|]. repeat (constructor; [cbn; eauto|]). done. }
  split; [done|]. apply settled_hold; [done| |set_solver]. unfold chord_inputs. set (g := fun k => (k, Z.land (os_MapVirtualKey os k) 255)).
  rewrite !key_list_app, (key_list_strokes (key_input os) g), (key_list_each _ g true), (key_list_each _ g false) by done.
  change (g <$> rev modifiers) with (map g (rev modifiers)). rewrite map_rev. apply settled_chord.
Qed.

Lemma rests_type_chunks target dispatched packets : triple (between false ∅) (type_chunks os guard target dispatched packets) (rests ∅).
Proof.
  revert dispatched. induction packets as [|chunk packets IH]; intros dispatched; cbn [type_chunks]; unfold foreground_window; wrun.
  destruct (text_inputs_ok chunk) as [Hk Hh]. eapply triple_keep; [by apply rests_send_keyboard|].
  intros [[]|e]; [|exact (triple_err _ (rests ∅))]. apply w_rests; [apply rests_err|apply rests_wait_guarded|intros _]. apply IH.
Qed.

Lemma rests_read_keys keys chord h : triple (between false h) (win_read_keys os keys chord) (rests h).
Proof.
  revert chord. induction keys as [|key keys IH]; intros chord; cbn [win_read_keys]; [wrun|].
  apply w_rests; [apply rests_err| |intros c; apply IH]. unfold win_read_key. destruct chord as [modifiers primary]. wrun.
Qed.

Lemma rests_press_chord keys : triple (between false ∅) (win_press_chord os guard keys) (rests ∅).
Proof.
  apply w_rests; [apply rests_err|apply rests_read_keys|intros [modifiers primary]]. cbn [fst snd].
  destruct primary as [|k primary]; [wrun|]. destruct (chord_inputs_ok (distinct modifiers) (k :: primary)). by apply rests_send_keyboard.
Qed.

Lemma rests_owner target point h : triple (between false h) (win_validate_pointer_owner os target point) (rests h).
Proof. unfold win_validate_pointer_owner. wrun. Qed.

Lemma rests_perform hwnd action : triple (between false ∅) (win_perform os guard hwnd action) (rests ∅).
Proof.
  unfold win_perform. wrun. apply w_rests; [apply rests_err| |intros []].
  { apply triple_for_each; [done|]. intros p. eapply triple_mono, rests_owner; [done|by intros []]. }
  destruct action as [| | | |? ? ? []| | | |keys| |].
  - apply rests_activate.
  - apply rests_set_window_bounds.
  - apply rests_set_window_minimized.
  - apply rests_terminate.
  - apply rests_win_click_background.
  - apply rests_win_click.
  - apply rests_hold_during. intros h. apply rests_wait_guarded.
  - apply rests_win_move.
  - apply rests_type_chunks.
  - unfold win_press_keys. repeat case_match; first [apply rests_press_chord|apply rests_type_chunks].
  - apply rests_win_scroll.
  - apply rests_hold_during. intros h. apply rests_interpolate.
Qed.

Lemma rests_queued hwnd pid generation action : triple (between false ∅) (win_perform_queued os guard hwnd pid generation action) (rests ∅).
Proof. unfold win_perform_queued, window_process_generation. wrun. apply rests_perform. Qed.

Lemma rests_foreground_owner : triple (between false ∅) (win_foreground_owner os) (rests ∅).
Proof. unfold win_foreground_owner, foreground_window, window_process_generation. wrun. Qed.

Lemma rests_restore owner pid generation : triple (between false ∅) (restore_foreground_owner os guard owner pid generation) (rests ∅).
Proof.
  unfold restore_foreground_owner, foreground_window, window_process_generation. wrun. apply w_rests; [apply rests_err|wrun|intros found]. wrun.
  eapply triple_keep; [apply between_begin|]. intros [[]|e]; [|apply w_ret; done]. wrun. apply rests_poll_until; unfold foreground_window; wrun.
Qed.

Lemma rests_perform_foreground hwnd pid generation action restore_foreground previous :
  triple (between false ∅) (win_perform_foreground os guard hwnd pid generation action restore_foreground previous) (rests ∅).
Proof.
  unfold win_perform_foreground, window_process_generation. wrun.
  apply w_rests; [apply rests_err|unfold foreground_window; wrun; apply rests_activate|intros []].
  eapply triple_keep; [apply rests_perform|]. intros result. apply (triple_mono (between false ∅) _ _ (rests ∅)); [done|done|]. wrun.
  apply w_rests; [apply rests_err|wrun; apply rests_restore|intros restoration w Hw; exact Hw].
Qed.

End Safety.

(** ** Errors tell whether something was dispatched *)

Section Truth.
Context (os : Native) (lease : nat) (observed_at : option Z).
(** Other tasks do not drop this lease. *)
Context (lease_kept : forall n, EvDrop lease ∉ os_events os n).
(** The effects that count. *)
Context (counts : What -> bool).

#[local] Abbreviation guard := (Some (lease, observed_at)).

(** An entry that had an effect. *)
Definition touches (x : What) : bool :=
  match x with
  | Cleared _ _ _ => false
  | Sent _ accepted => negb (accepted =? 0)%nat
  | CloseAsked _ answer => answer
  | _ => true
  end.

Context (counts_touches : forall x, counts x = true -> touches x = true).

Definition touched (w : WinWorld) : bool := existsb counts (ww_log w).

(** [armed]: the lease has dispatched; [clean]: nothing that counts was done. *)
Definition state (armed clean : bool) (w : WinWorld) : Prop :=
  guard_inv (ww_guard w) /\ (exists b, gs_leases (ww_guard w) !! lease = Some b /\ (armed = true -> b = true)) /\ (clean = true -> touched w = false).

(** The guard knows of everything that was done. *)
Definition known (w : WinWorld) : Prop := state true false w \/ state false true w.

(** An error from a state; [hot]: it was armed and no longer clean. *)
Definition fine (hot : bool) (e : DriverError) (w : WinWorld) : Prop :=
  known w /\ (hot = true -> state true false w /\ de_mutation_status e <> NotDispatched) /\ (de_mutation_status e = NotDispatched -> touched w = false).

(** From a state that is [before] hot or not, an operation reaches a state. *)
Definition keeps {A} (before armed clean : bool) (r : Result A DriverError) (w : WinWorld) : Prop :=
  match r with Ok _ => state armed clean w | Err e => fine before e w end.

Definition honest {A} (r : Result A DriverError) (w : WinWorld) : Prop := match r with Ok _ => known w | Err e => fine false e w end.

Lemma state_known a c w : a || c = true -> state a c w -> known w.
Proof.
  intros Hac (Hi & (b & Hl & Hb) & Hc).
  destruct a; [left|right; destruct c; [|done]]; (split; [done|]); (split; [by exists b|done]).
Qed.

Lemma state_dirty a c w : state a c w -> state a false w.
Proof. intros (? & ? & _). by split_and!. Qed.

Lemma state_fine a c e w : a || c = true -> state a c w -> (de_mutation_status e = NotDispatched -> c = true) -> fine (a && negb c) e w.
Proof.
  intros Hac Hs He. split; [by eapply state_known|]. split.
  - intros [-> Hc]%andb_prop. split; [by eapply state_dirty|]. intros Hn. by rewrite He in Hc.
  - intros H. destruct Hs as (_ & _ & Hc). auto.
Qed.

Lemma fine_le hot hot' e w : (hot' = true -> hot = true) -> fine hot e w -> fine hot' e w.
Proof. intros Hh (? & Ha & ?). split_and!; auto. Qed.

Lemma run_events_live es s s' l :
  is_Some (gs_leases s !! l) -> EvDrop l ∉ es -> guard_inv s -> run_events s es = Some s' -> is_Some (gs_leases s' !! l).
Proof.
  revert s. induction es as [|e es IH]; intros s Hl He Hi; cbn [run_events]; [by intros [= <-]|].
  destruct (apply_event s e) as [s1|] eqn:E; [|done]. apply not_elem_of_cons in He as [Hne He].
  intros Hr. eapply (IH s1); [|done|by eapply apply_event_inv|done]. clear Hr IH He.
  destruct e; cbn in E; try injection E as <-; try done.
  - cbn. apply lookup_insert_is_Some'. by right.
  - unfold record_user_input_state. cbn. case_match; [done|]. unfold user_took_over, interrupt. by case_match.
  - unfold user_took_over, interrupt. by case_match.
  - unfold activity_monitor_failed, interrupt. by case_match.
  - destruct (gs_leases s !! lease0) eqn:El; [|done]. injection E as <-.
    destruct (begin_dispatch_cases s lease0 observed_at0 now) as [-> | [_ ->]]; [done|]. cbn. apply lookup_insert_is_Some'. by right.
  - destruct (gs_leases s !! lease0) eqn:El; [|done]. assert (lease0 <> l) by naive_solver.
    unfold drop_lease in E. destruct (was_dispatched s lease0); [case_match; [done|]|]; injection E as <-; cbn; by rewrite lookup_delete_ne.
Qed.

Lemma state_tick a c wait w : state a c w -> state a c (tick os wait w).
Proof.
  intros (Hi & (b & Hl & Hb) & Hc). unfold state, tick, touched. cbn [ww_guard ww_log].
  destruct (run_events (ww_guard w) (os_events os (ww_at w))) as [g|] eqn:E; cbn [default]; [|by eauto].
  split; [by eapply run_events_inv|]. split; [|done]. pose proof (lease_kept (ww_at w)) as Hk.
  destruct (run_events_live _ _ _ lease ltac:(eauto) Hk Hi E) as [b' Hb']. exists b'. split; [done|]. intros Ha. rewrite (Hb Ha) in Hl.
  pose proof (run_events_dispatched _ _ _ _ Hl Hk E Hi) as Hd. congruence.
Qed.

(** The status of a refusal. *)
Lemma refusal_status g now_ e : check g lease now_ = Err e ->
  de_mutation_status e = if was_dispatched g lease then Indeterminate else NotDispatched.
Proof.
  unfold check, guard_disposition. repeat case_match; intros [= <-]; done.
Qed.

Lemma refusal_fine a c w e : a || c = true -> state a c w -> check (ww_guard w) lease (ww_time w) = Err e -> fine (a && negb c) e w.
Proof.
  intros Hac Hs He. eapply state_fine; [done|exact Hs|]. rewrite (refusal_status _ _ _ He). destruct Hs as (_ & (b & Hl & Hb) & Hc).
  rewrite (was_dispatched_lookup _ _ _ Hl). destruct b; [done|]. intros _. destruct a; [by specialize (Hb eq_refl)|done].
Qed.
Lemma state_log a c w w' : ww_log w = ww_log w' -> ww_guard w = ww_guard w' -> state a c w -> state a c w'.
Proof. unfold state, touched. by intros -> ->. Qed.

Lemma state_logged a c c' x w : (c' = true -> c = true /\ counts x = false) -> state a c w -> state a c' (logged x w).
Proof.
  intros Hc (Hi & Hl & Ht). split; [done|]. split; [done|]. intros H. destruct (Hc H) as [-> Hx]. unfold touched, logged in *. cbn [ww_log].
  rewrite existsb_app. cbn. by rewrite (Ht eq_refl), Hx.
Qed.

Lemma admission_free l g t : counts (Cleared l g t) = false.
Proof. destruct (counts _) eqn:H; [|done]. by apply counts_touches in H. Qed.

Lemma state_begin_both a c : a || c = true ->
  triple (state a c) (win_begin_dispatch os guard)
    (fun r w => match r with Ok _ => state true c w | Err e => state a c w /\ fine (a && negb c) e w end).
Proof.
  intros Hac w Hw. apply (state_tick _ _ 0) in Hw. unfold win_begin_dispatch. set (w1 := tick os 0 w) in *. destruct (os_input_desktop_available _ _).
  - pose proof Hw as (Hi & (b & Hl & Hb) & Hc). destruct (begin_dispatch (ww_guard w1) lease observed_at (ww_time w1)) as [g [[]|e]] eqn:E.
    + apply (state_logged true c); [by split; [done|apply admission_free]|].
      assert (Hg : g = (begin_dispatch (ww_guard w1) lease observed_at (ww_time w1)).1) by by rewrite E.
      split; [rewrite Hg; apply begin_dispatch_inv; eauto|]. split; [|done]. exists true. split; [|done]. cbn [ww_guard].
      unfold begin_dispatch in E. destruct (check _ _ _); [|done]. rewrite (was_dispatched_lookup _ _ _ Hl) in E. destruct b; [by injection E as <-|].
      destruct (check_observation _ _); [|done]. destruct (negb _); [done|]. injection E as <-. cbn. by rewrite lookup_insert_eq.
    + assert (g = ww_guard w1 /\ (check (ww_guard w1) lease (ww_time w1) = Err e \/ b = false)) as [-> He].
      { unfold begin_dispatch in E. destruct (check _ _ _); [|injection E as <- <-; auto]. rewrite (was_dispatched_lookup _ _ _ Hl) in E.
        destruct b; [done|]. destruct (check_observation _ _); [|injection E as <- <-; auto]. destruct (negb _); [injection E as <- <-; auto|done]. }
      assert (Hs : state a c w1) by done. split; [done|]. destruct He as [He| ->]; [by eapply refusal_fine|].
      eapply state_fine; [exact Hac|exact Hs|]. intros _. destruct a; [by specialize (Hb eq_refl)|done].
  - set (w2 := {| w1 with ww_guard := activity_monitor_failed (ww_guard w1) |}).
    assert (Hs : state a c w2).
    { destruct Hw as (Hi & (b & Hl & Hb) & Hc). split; [apply interrupt_inv; auto|]. split; [exists b|done]. cbn. unfold activity_monitor_failed, interrupt. by case_match. }
    destruct (interrupted_check (activity_monitor_failed (ww_guard w1)) lease (ww_time w1)) as (e & He & _); [by apply interrupt_nonzero|].
    rewrite He. cbn. split; [done|]. by eapply (refusal_fine a c w2).
Qed.

Lemma state_begin a c : a || c = true -> triple (state a c) (win_begin_dispatch os guard) (keeps (a && negb c) true c).
Proof. intros Hac. eapply triple_mono, state_begin_both; [done| |done]. intros [x|e] w; [done|by intros []]. Qed.

Section TruthRules.
Context {A : Type} (a c : bool) (Q : Result A DriverError -> WinWorld -> Prop).
Hypothesis (settled_state : a || c = true) (fine_err : forall e w, fine (a && negb c) e w -> Q (Err e) w).

Lemma t_ask {X} (f : nat -> X) k : (forall x, triple (state a c) (k x) Q) -> triple (state a c) (ibind (ask os f) k) Q.
Proof. intros Hk w Hw. apply Hk. by apply state_tick. Qed.

Lemma t_now k : (forall t, triple (state a c) (k t) Q) -> triple (state a c) (ibind now k) Q.
Proof. intros Hk w Hw. by apply Hk. Qed.

Lemma t_sleep wait k : triple (state a c) k Q -> triple (state a c) (win_sleep os wait ;& k) Q.
Proof. intros Hk w Hw. apply Hk. by apply state_tick. Qed.

Lemma t_err e : (de_mutation_status e = NotDispatched -> c = true) -> triple (state a c) (ierr e) Q.
Proof. intros He w Hw. apply fine_err. by eapply state_fine. Qed.

Lemma t_raise {X} (r : Result X DriverError) k :
  (forall e, r = Err e -> de_mutation_status e = NotDispatched -> c = true) -> (forall x, triple (state a c) (k x) Q) ->
  triple (state a c) (ibind (raise r) k) Q.
Proof. intros He Hk. destruct r as [x|e]; [apply Hk|]. exact (t_err e (He e eq_refl)). Qed.

Lemma t_check k : triple (state a c) k Q -> triple (state a c) (check_guard os guard ;& k) Q.
Proof.
  intros Hk w Hw. apply (state_tick _ _ 0) in Hw. unfold ibind, check_guard. destruct (check _ _ _) as [[]|e] eqn:He; [by apply Hk|].
  apply fine_err. by eapply refusal_fine.
Qed.

Lemma t_begin k : triple (state true c) k Q -> triple (state a c) (win_begin_dispatch os guard ;& k) Q.
Proof. intros Hk. eapply triple_bind; [by apply state_begin|intros []; exact Hk|exact fine_err]. Qed.

Lemma t_ret (x : A) : (forall w, state a c w -> Q (Ok x) w) -> triple (state a c) (iret x) Q.
Proof. intros HQ w. apply HQ. Qed.

Lemma t_act {X} c' (f : nat -> X) (what : X -> What) k :
  (c' = true -> c = true /\ forall x, counts (what x) = false) ->
  (forall x, triple (state a c') (k x) Q) -> triple (state a c) (ibind (act os f what) k) Q.
Proof.
  intros Hc Hk w Hw. apply Hk. apply (state_logged _ c); [intros H; by destruct (Hc H)|]. by apply state_tick.
Qed.

(** An operation that keeps or changes the state. *)
Lemma t_keeps {X} a' c' (m : Act X) k :
  triple (state a c) m (keeps (a && negb c) a' c') -> (forall x, triple (state a' c') (k x) Q) -> triple (state a c) (ibind m k) Q.
Proof. intros Hm Hk. eapply triple_bind; [exact Hm|exact Hk|exact fine_err]. Qed.
End TruthRules.

Ltac settle := first [assumption | reflexivity | apply orb_true_r].
Ltac tfine := intros ? ? ?; first [assumption | eapply fine_le; [|eassumption]; first [done | by intros [? ?]%andb_prop]].

Ltac tstep :=
  match goal with
  | |- triple _ (ibind (ask _ _) _) _ => apply t_ask; intros ?
  | |- triple _ (ibind now _) _ => apply t_now; intros ?
  | |- triple _ (ibind (win_sleep _ _) _) _ => apply t_sleep
  | |- triple _ (ibind (check_guard _ _) _) _ => apply t_check; [settle|tfine|]
  | |- triple _ (ibind (win_begin_dispatch _ _) _) _ => apply t_begin; [settle|tfine|]
  | |- triple _ (ibind (raise _) _) _ => apply t_raise; [settle|tfine|done|intros ?]
  | |- triple _ (ibind (act _ _ _) _) _ => apply (t_act _ _ _ false); [done|intros ?]
  | |- triple _ (ierr _) _ => apply t_err; [settle|tfine|done]
  | |- triple _ (iret _) _ => apply t_ret; first [by intros ? | intros ?; apply state_known; settle]
  | |- triple _ (if ?b then _ else _) _ => destruct b
  | |- triple _ (match ?p with (_, _) => _ end) _ => destruct p
  | |- triple _ (match ?o with Some _ => _ | None => _ end) _ => destruct o
  end.

Ltac trun := repeat tstep.

Lemma keeps_honest {A} before a c (m : Act A) P : a || c = true -> triple P m (keeps before a c) -> triple P m honest.
Proof. intros Hac Hm. eapply triple_mono, Hm; [done|]. intros [x|e] w; [by apply state_known|by apply fine_le]. Qed.

Lemma keeps_wait fuel deadline a c : a || c = true -> triple (state a c) (win_wait_loop os guard fuel deadline) (keeps (a && negb c) a c).
Proof. intros Hac. induction fuel as [|fuel IH]; cbn [win_wait_loop]; trun. exact IH. Qed.

Lemma keeps_wait_guarded duration a c : a || c = true -> triple (state a c) (wait_guarded os guard duration) (keeps (a && negb c) a c).
Proof. intros Hac w. by apply keeps_wait. Qed.

Lemma keeps_poll_until {A} fuel deadline done_ (yes : A) after a c :
  a || c = true -> triple (state a c) done_ (keeps (a && negb c) a c) -> triple (state a c) after (keeps (a && negb c) a c) ->
  triple (state a c) (poll_until os fuel deadline done_ yes after) (keeps (a && negb c) a c).
Proof.
  intros Hac Hd Ha. induction fuel as [|fuel IH]; cbn [poll_until]; trun; [exact Ha|exact Ha|exact Ha|].
  eapply t_keeps; [tfine|exact Hd|intros d]. trun. exact IH.
Qed.

Lemma keeps_poll_settled fuel deadline done_ e a c :
  a || c = true -> (de_mutation_status e = NotDispatched -> c = true) -> triple (state a c) done_ (keeps (a && negb c) a c) ->
  triple (state a c) (poll_settled os fuel deadline done_ e) (keeps (a && negb c) a c).
Proof.
  intros Hac He Hd. induction fuel as [|fuel IH]; cbn [poll_settled]; (eapply t_keeps; [tfine|exact Hd|intros d]); trun.
  all: first [exact IH | by apply t_err].
Qed.

Lemma keeps_weaken {A} before a c (r : Result A DriverError) w : keeps before a c r w -> keeps false a c r w.
Proof. destruct r; [done|by apply fine_le]. Qed.

Lemma keeps_activate hwnd a c c' :
  a || c = true -> (c' = true -> c = true /\ counts (Shown hwnd SW_RESTORE) = false /\ forall b, counts (Fronted hwnd b) = false) ->
  triple (state a c) (activate os guard hwnd) (keeps false true c').
Proof.
  intros Hac Hc. unfold activate. apply t_ask. intros iconic.
  apply (t_keeps a c (keeps false true c')) with (a' := a || iconic) (c' := if iconic then c' else c); [tfine| |].
  - destruct iconic; rewrite ?orb_true_r, ?orb_false_r; [|trun]. apply t_begin; [settle|tfine|].
    apply (triple_mono (state true c) _ _ (keeps (a && negb c) true c')); [done|done|]. intros w Hw. cbn.
    apply (state_logged _ c); [intros H; by destruct (Hc H) as (-> & -> & _)|]. by apply state_tick.
  - intros []. apply t_begin; [by destruct iconic; rewrite ?orb_true_r, ?orb_false_r|tfine|].
    apply (t_act _ _ _ c'); [intros H; destruct iconic; by destruct (Hc H) as (? & ? & ?)|]. intros granted. trun.
    eapply triple_mono, keeps_poll_until; [done|apply keeps_weaken|done|unfold foreground_window; trun..].
Qed.

Lemma keeps_outer hwnd a c : a || c = true -> triple (state a c) (outer_window_rect os hwnd) (keeps (a && negb c) a c).
Proof.
  intros Hac. unfold outer_window_rect. trun. intros w Hw. destruct x as [r|]; [exact Hw|]. by eapply state_fine.
Qed.

Lemma honest_set_window_bounds hwnd requested a : triple (state a true) (set_window_bounds os guard hwnd requested) honest.
Proof.
  unfold set_window_bounds, extended_window_rect. eapply t_keeps; [tfine|apply keeps_outer; settle|intros outer]. trun.
  apply (keeps_honest true true false); [done|]. apply keeps_poll_settled; [done|done|]. trun.
  eapply t_keeps; [tfine|by apply keeps_outer|intros outer']. trun.
Qed.

Lemma honest_set_window_minimized hwnd minimized a : triple (state a true) (set_window_minimized os guard hwnd minimized) honest.
Proof. unfold set_window_minimized. trun. apply (keeps_honest true true false); [done|]. apply keeps_poll_settled; [done|done|]. trun. Qed.

(** Messages that ask windows to close: none was taken, or the lease has dispatched. *)
Lemma keeps_post_close windows pid generation posted a :
  (posted <> 0%nat -> a = true) ->
  triple (state a (posted =? 0)%nat) (post_close os guard windows pid generation posted)
    (fun r w => match r with Ok n => state (negb (n =? 0)%nat) (n =? 0)%nat w | Err e => fine false e w end).
Proof.
  revert posted a. induction windows as [|raw windows IH]; intros posted a Hp; cbn [post_close].
  - apply t_ret. intros w (Hi & (b & Hl & Hb) & Hc). split; [done|]. split; [exists b; split; [done|]|done].
    intros Hn. apply Hb, Hp. by destruct posted.
  - assert (Hac : a || (posted =? 0)%nat = true) by (destruct posted; [apply orb_true_r|]; by rewrite Hp).
    unfold window_process_generation. apply t_ask. intros owner. case_match; [by apply IH|].
    apply t_begin; [done|tfine|]. intros w Hw. unfold ibind, act. cbn [fst snd].
    destruct (os_PostMessage os (ww_at w)).
    + apply (IH (S posted) true); [done|]. apply (state_logged _ (posted =? 0)%nat); [done|]. by apply state_tick.
    + apply (IH posted true); [done|]. apply (state_logged _ (posted =? 0)%nat); [|by apply state_tick].
      intros Hz. split; [done|]. destruct (counts (CloseAsked raw false)) eqn:Hx; [|done]. by apply counts_touches in Hx.
Qed.

Lemma keeps_await_exit fuel deadline a c : a || c = true -> triple (state a c) (await_exit os guard fuel deadline) (keeps (a && negb c) a c).
Proof.
  intros Hac. assert (Hwait : triple (state a c) (wait_for_process os) (keeps (a && negb c) a c)) by (intros w Hw; by apply state_tick).
  induction fuel as [|fuel IH]; cbn [await_exit]; trun; (eapply t_keeps; [tfine|exact Hwait|intros status]); trun; destruct status; trun. exact IH.
Qed.

Lemma honest_terminate pid generation windows a : triple (state a true) (terminate_application os guard pid generation windows) honest.
Proof.
  unfold terminate_application. destruct windows as [|raw windows]; [trun|]. trun.
  eapply triple_bind; [by apply (keeps_post_close _ _ _ 0)| |done]. intros [|posted]; cbn [Nat.eqb negb]; [trun|].
  trun. eapply t_keeps; [tfine|by apply keeps_await_exit|]. intros []; trun.
Qed.

Lemma input_result_err sent requested e : input_result sent requested = Err e -> de_mutation_status e = NotApplicable.
Proof. unfold input_result. repeat case_match; by intros [= <-]. Qed.

(** ** Once the lease has dispatched *)

(** Whatever the result, the lease has dispatched and no error denies it. *)
Definition armed {A} (r : Result A DriverError) (w : WinWorld) : Prop :=
  state true false w /\ forall e, r = Err e -> de_mutation_status e <> NotDispatched.

Lemma keeps_armed {A} (m : Act A) P : triple P m (keeps true true false) -> triple P m armed.
Proof.
  intros Hm w Hw. specialize (Hm w Hw). destruct (m w) as [w1 [x|e]]; cbn in *; [by split|]. destruct Hm as (_ & Hh & _).
  destruct (Hh eq_refl). split; [done|]. by intros ? [= <-].
Qed.

Lemma armed_ends {A} (r : Result A DriverError) w before : armed r w -> keeps before true false r w.
Proof.
  intros [Hs He]. destruct r as [x|e]; [done|]. apply (fine_le (true && negb false)); [done|].
  eapply state_fine; [done|exact Hs|]. intros H. by destruct (He e eq_refl).
Qed.

Lemma armed_keeps {A} before (m : Act A) P : triple P m armed -> triple P m (keeps before true false).
Proof. intros Hm. eapply triple_mono, Hm; [done|]. intros r w. apply armed_ends. Qed.

Lemma armed_raise {A} (r : Result A DriverError) : (forall e, r = Err e -> de_mutation_status e <> NotDispatched) -> triple (state true false) (raise r) armed.
Proof. intros Hr w Hw. by split. Qed.

Lemma armed_send_native inputs c : triple (state true c) (send_native os inputs) (keeps (true && negb c) true false).
Proof. intros w Hw. apply (state_logged _ c); [done|]. by apply state_tick. Qed.

Lemma armed_result sent requested : forall e, input_result sent requested = Err e -> de_mutation_status e <> NotDispatched.
Proof. unfold input_result. repeat case_match; by intros ? [= <-]. Qed.

Lemma armed_send_raw inputs : triple (state true false) (send_raw os inputs) armed.
Proof.
  apply keeps_armed. destruct inputs as [|i is_]; [apply t_ret; by intros ?|].
  change (send_raw os (i :: is_)) with (let& sent := send_native os (i :: is_) in raise (input_result sent (length (i :: is_))) : Act unit).
  eapply t_keeps; [tfine|apply armed_send_native|]. intros sent. apply armed_keeps, armed_raise, armed_result.
Qed.

Lemma armed_send inputs a c : a || c = true -> triple (state a c) (send os guard inputs) (keeps (a && negb c) true false).
Proof.
  intros Hac. apply t_begin; [done|done|]. apply armed_keeps. eapply triple_mono, armed_send_raw; [intros w; apply state_dirty|done].
Qed.

Lemma armed_wait duration : triple (state true false) (wait_guarded os guard duration) armed.
Proof. apply keeps_armed. by apply keeps_wait_guarded. Qed.

Lemma keeps_absolute point flags a c : a || c = true -> triple (state a c) (absolute_mouse os point flags) (keeps (a && negb c) a c).
Proof.
  intros Hac. unfold absolute_mouse, virtual_desktop. apply (t_keeps a c _) with (a' := a) (c' := c); [tfine| |].
  - apply t_ask. intros [[[x y] cx] cy]. trun.
  - intros [[[x y] cx] cy]. trun.
Qed.

(** Keeping a result: the rest may use that it denies nothing. *)
Lemma armed_keep {A B} (m : Act A) (k : Result A DriverError -> Act B) :
  triple (state true false) m armed -> (forall r, (forall e, r = Err e -> de_mutation_status e <> NotDispatched) -> triple (state true false) (k r) armed) ->
  triple (state true false) (ikeep m k) armed.
Proof. intros Hm Hk. eapply triple_keep; [exact Hm|]. intros r w [Hw Hr]. by apply Hk. Qed.

Lemma armed_and_then (a b : Result unit DriverError) :
  (forall e, a = Err e -> de_mutation_status e <> NotDispatched) -> (forall e, b = Err e -> de_mutation_status e <> NotDispatched) ->
  forall e, and_then a b = Err e -> de_mutation_status e <> NotDispatched.
Proof. intros Ha Hb e. destruct a; [apply Hb|]. intros [= <-]. by apply Ha. Qed.

Lemma honest_click point button count a : triple (state a true) (win_click os guard point button count) honest.
Proof.
  eapply t_keeps; [tfine|apply keeps_absolute; settle|intros i]. eapply t_keeps; [tfine|apply armed_send; settle|intros _].
  eapply t_keeps; [tfine|by apply keeps_wait_guarded|intros _]. apply (keeps_honest true true false); [done|].
  apply triple_for_each; [done|]. intros _. apply (triple_mono (state true false) _ _ (keeps true true false)); [done|by intros [[]|e]|].
  apply t_begin; [done|done|]. apply (t_keeps true false) with (a' := true) (c' := false); [done| |intros []; by apply keeps_wait_guarded].
  apply armed_keeps, armed_keep; [apply armed_send_raw|]. intros [[]|e] He; [|apply (armed_raise (Err e)), He].
  apply armed_keep; [apply armed_wait|]. intros waited Hw. apply armed_keep; [apply armed_send_raw|]. intros released Hr.
  apply armed_raise. by apply armed_and_then.
Qed.

Lemma armed_background target message parameter c : triple (state true c) (send_background os target message parameter) armed.
Proof.
  apply (triple_mono (state true c) _ _ armed); [done|done|]. unfold send_background.
  apply (t_act _ _ _ false); [done|]. intros handled w Hw. split; [by destruct handled|]. destruct handled; [done|]. by intros e [= <-].
Qed.

Lemma clean_recipient left_ owner screen recipient a :
  triple (state a true) (resolve_recipient os left_ owner screen recipient) (keeps (a && negb true) a true).
Proof.
  revert recipient. induction left_ as [|left_ IH]; intros recipient; cbn [resolve_recipient]; unfold window_process_generation; trun. apply IH.
Qed.

Lemma honest_click_background target point button count a : triple (state a true) (win_click_background os guard target point button count) honest.
Proof.
  unfold win_click_background, window_process_generation. trun.
  eapply t_keeps; [tfine|apply clean_recipient|intros [recipient client]]. trun. apply (keeps_honest true true false); [done|].
  apply (triple_bind _ _ _ armed); [apply armed_background|intros [] w [Hw _]; revert w Hw|intros e w; apply (armed_ends (Err e))].
  apply triple_for_each; [done|]. intros _. apply (triple_mono (state true false) _ _ (keeps true true false)); [done|by intros [[]|e]|].
  apply t_begin; [done|done|]. apply (t_keeps true false) with (a' := true) (c' := false); [done| |intros []].
  - apply armed_keeps, armed_keep; [apply armed_background|]. intros pressed Hp. apply armed_keep; [apply armed_background|]. intros released Hr.
    apply armed_raise. by apply armed_and_then.
  - intros w Hw. apply (state_tick _ _ 0) in Hw. unfold check_guard. cbn. destruct (check _ _ _) as [[]|e] eqn:He; [exact Hw|]. by apply (refusal_fine true false).
Qed.

Lemma armed_interpolate from to duration_ms : triple (state true false) (win_interpolate os guard from to duration_ms) armed.
Proof.
  apply keeps_armed, triple_for_each; [done|]. intros step. apply (triple_mono (state true false) _ _ (keeps true true false)); [done|by intros [[]|e]|].
  eapply t_keeps; [tfine|by apply keeps_absolute|intros i]. eapply t_keeps; [tfine|by apply armed_send|intros _].
  case_match; [by apply keeps_wait_guarded|trun].
Qed.

Lemma honest_interpolate from to duration_ms a : triple (state a true) (win_interpolate os guard from to duration_ms) honest.
Proof.
  apply (triple_mono known _ _ honest); [intros w; apply state_known; settle|done|]. apply triple_for_each; [done|]. intros step.
  apply (triple_mono known _ _ honest); [done|by intros [[]|e]|].
  intros w [Hw|Hw]; revert w Hw; (eapply t_keeps; [tfine|by apply keeps_absolute|intros i]); (eapply t_keeps; [tfine|by apply armed_send|intros _]).
  all: case_match; [eapply keeps_honest; [|by apply keeps_wait_guarded]; done|trun].
Qed.

Lemma honest_hold_during from button during a :
  triple (state true false) during armed -> triple (state a true) (hold_during os guard from button during) honest.
Proof.
  intros Hd. eapply t_keeps; [tfine|apply keeps_absolute; settle|intros i]. apply t_begin; [settle|tfine|].
  eapply t_keeps; [tfine|apply armed_send_native|]. intros sent. apply (keeps_honest true true false); [done|]. apply armed_keeps.
  apply armed_keep; [case_match; [exact Hd|intros w Hw; by split]|]. intros waited Hw.
  apply armed_keep; [case_match; [apply armed_send_raw|intros w Hw'; by split]|]. intros released Hr.
  apply armed_raise. apply armed_and_then; [apply armed_result|]. by apply armed_and_then.
Qed.

Lemma clean_wheel flag delta horizontal a c : c = true ->
  triple (state a c) (wheel_input os flag delta horizontal) (keeps (a && negb c) a c).
Proof.
  intros ->. unfold wheel_input, wheel_units. apply (t_keeps a true _) with (a' := a) (c' := true); [tfine| |intros units; trun]. trun.
Qed.

Lemma honest_scroll point delta_x delta_y a : triple (state a true) (win_scroll os guard point delta_x delta_y) honest.
Proof.
  assert (Hw : forall (b : bool) flag delta horizontal, triple (state a true)
    (if b then let& i := wheel_input os flag delta horizontal in iret [i] else iret []) (keeps (a && negb true) a true)).
  { intros b flag delta horizontal. destruct b; [|trun]. eapply t_keeps; [tfine|by apply clean_wheel|intros i; trun]. }
  eapply t_keeps; [tfine|apply keeps_absolute; settle|intros i]. eapply t_keeps; [tfine|apply Hw|intros vertical].
  eapply t_keeps; [tfine|apply Hw|intros horizontal]. eapply keeps_honest; [|apply armed_send; settle]. done.
Qed.

Lemma keeps_send_keyboard inputs a c : a || c = true -> triple (state a c) (send_keyboard os guard inputs) (keeps (a && negb c) true false).
Proof.
  intros Hac. apply t_begin; [done|done|]. eapply t_keeps; [|apply armed_send_native|intros sent].
  - intros e w He. eapply fine_le; [|exact He]. by intros [-> ->]%andb_prop.
  - apply armed_keeps, armed_keep; [case_match; [apply armed_send_raw|intros w Hw; by split]|]. intros r _. apply armed_raise, armed_result.
Qed.

(** The error of a packet is marked once a packet was sent. *)
Lemma honest_type_chunks target dispatched packets a c :
  (dispatched = false -> c = true) -> a || c = true -> triple (state a c) (type_chunks os guard target dispatched packets) honest.
Proof.
  revert dispatched a c. induction packets as [|chunk packets IH]; intros dispatched a c Hd Hac; cbn [type_chunks]; [trun|].
  unfold foreground_window. apply t_ask. intros current. case_match.
  { apply t_err; [done|tfine|]. destruct dispatched; [done|auto]. }
  eapply triple_keep; [by apply keeps_send_keyboard|]. intros [[]|e].
  - cbn [keeps]. eapply t_keeps; [tfine|by apply keeps_wait_guarded|intros _]. by apply IH.
  - intros w (Hk & Hh & Ht). cbn. split; [done|]. split; [done|]. unfold mark_text. destruct dispatched; [done|exact Ht].
Qed.

Lemma clean_read_keys keys chord a : triple (state a true) (win_read_keys os keys chord) (keeps (a && negb true) a true).
Proof.
  revert chord. induction keys as [|key keys IH]; intros chord; cbn [win_read_keys]; [trun|].
  eapply t_keeps; [tfine| |intros c'; apply IH]. unfold win_read_key. destruct chord as [modifiers primary]. trun.
Qed.

Lemma honest_press_chord keys a : triple (state a true) (win_press_chord os guard keys) honest.
Proof.
  eapply t_keeps; [tfine|apply clean_read_keys|intros [modifiers primary]]. cbn [fst snd]. destruct primary as [|k primary]; [trun|].
  eapply keeps_honest; [|apply keeps_send_keyboard; settle]. done.
Qed.

Lemma honest_perform hwnd action a : triple (state a true) (win_perform os guard hwnd action) honest.
Proof.
  unfold win_perform. apply t_check; [settle|tfine|]. apply (t_keeps a true _) with (a' := a) (c' := true); [tfine| |intros []].
  { apply triple_for_each; [done|]. intros p. apply (triple_mono (state a true) _ _ (keeps (a && negb true) a true)); [done|by intros [[]|e]|].
    unfold win_validate_pointer_owner. trun. }
  destruct action as [| | | |? ? ? []| | | |keys| |].
  - eapply (keeps_honest _ true false), keeps_activate; [done|settle|done].
  - apply honest_set_window_bounds.
  - apply honest_set_window_minimized.
  - apply honest_terminate.
  - apply honest_click_background.
  - apply honest_click.
  - apply honest_hold_during, armed_wait.
  - unfold win_move_pointer. trun. apply honest_interpolate.
  - apply honest_type_chunks; [done|settle].
  - unfold win_press_keys. repeat case_match; first [apply honest_press_chord|apply honest_type_chunks; [done|settle]].
  - apply honest_scroll.
  - apply honest_hold_during, armed_interpolate.
Qed.

Lemma honest_queued hwnd pid generation action a : triple (state a true) (win_perform_queued os guard hwnd pid generation action) honest.
Proof. unfold win_perform_queued, window_process_generation. trun; apply honest_perform. Qed.

(** ** With focus changes that do not count *)

Section Focus.
Context (shown_quiet : forall hwnd, counts (Shown hwnd SW_RESTORE) = false) (fronted_quiet : forall hwnd b, counts (Fronted hwnd b) = false).

(** Restoring the foreground never fails and leaves what counts alone. *)
Definition left_alone {A} (c : bool) (_ : Result A DriverError) (w : WinWorld) : Prop := exists a, a || c = true /\ state a c w.

Lemma alone_restore owner pid generation a c : a || c = true ->
  triple (state a c) (restore_foreground_owner os guard owner pid generation) (fun r w => left_alone c r w /\ exists s, r = Ok s).
Proof.
  intros Hac. assert (Hret : forall s a', a' || c = true -> triple (state a' c) (iret s)
    (fun (r : Result ForegroundRestorationStatus DriverError) w => left_alone c r w /\ exists s, r = Ok s)) by (intros s a' Ha' w Hw; split; [by exists a'|eauto]).
  unfold restore_foreground_owner, foreground_window, window_process_generation. do 2 (apply t_ask; intros ?). case_match; [by apply Hret|]. apply t_ask. intros exists_.
  apply (triple_bind _ _ _ (fun r w => state a c w /\ exists f, r = Ok f)); [destruct exists_; intros w Hw; (split; [first [by apply state_tick | exact Hw]|eexists; reflexivity])| |by intros e w [_ [? ?]]].
  intros found. apply (triple_mono (state a c) _ _ (fun r w => left_alone c r w /\ exists s, r = Ok s)); [by intros w []|done|]. case_match; [by apply Hret|].
  eapply triple_keep; [by apply state_begin_both|]. intros [[]|e]; [|eapply triple_mono, Hret; [by intros w []|done|done]].
  apply (t_act _ _ _ c); [done|]. intros granted. case_match; [by apply Hret|]. apply t_now. intros t.
  generalize POLL_FUEL. intros fuel. induction fuel as [|fuel IH]; cbn [poll_until]; (apply t_now; intros t'); (case_match; [by apply Hret|]); [by apply Hret|].
  apply (triple_bind _ _ _ (fun r w => state true c w /\ exists d, r = Ok d)); [|intros d|by intros e w [_ [? ?]]].
  - unfold foreground_window. intros w Hw. split; [by apply state_tick|]. eexists. done.
  - apply (triple_mono (state true c) _ _ (fun r w => left_alone c r w /\ exists s, r = Ok s)); [by intros w []|done|].
    destruct d; [by apply Hret|]. by apply t_sleep.
Qed.

(** The state after a result that is kept: when it denies, nothing counts. *)
Lemma honest_state {A} (r : Result A DriverError) w : honest r w ->
  exists a c, a || c = true /\ state a c w /\ forall e, r = Err e -> de_mutation_status e = NotDispatched -> c = true.
Proof.
  destruct r as [x|e]; cbn.
  - intros [Hs|Hs]; [exists true, false|exists false, true]; (split_and!; [done|done|]); discriminate.
  - intros ([Hs|Hs] & _ & Ht).
    + destruct (decide (de_mutation_status e = NotDispatched)) as [Hn|Hn].
      * exists true, true. split_and!; [done| |done]. destruct Hs as (? & ? & _). split_and!; auto.
      * exists true, false. split_and!; [done|done|]. by intros ? [= <-].
    + exists false, true. by split_and!.
Qed.

Lemma honest_perform_foreground hwnd pid generation action restore_foreground previous a :
  triple (state a true) (win_perform_foreground os guard hwnd pid generation action restore_foreground previous) honest.
Proof.
  unfold win_perform_foreground, window_process_generation. apply t_check; [settle|tfine|]. apply t_ask. intros found. case_match; [trun|].
  apply (triple_bind _ _ _ (fun r w => match r with Ok _ => exists a', state a' true w | Err e => fine false e w end)); [|intros []|done].
  - destruct (is_keyboard_action action); [|intros w Hw; by exists a]. unfold foreground_window. apply t_ask. intros current. case_match; [|intros w Hw; by exists a].
    eapply triple_mono, (keeps_activate _ a true true); [done| |settle|done]. intros [[]|e] w; [|done]. intros Hw. by exists true.
  - intros w [a' Hw]. revert w Hw. eapply triple_keep; [apply honest_perform|]. intros result w Hw. destruct (honest_state _ _ Hw) as (a1 & c1 & Hac & Hs & Hden).
    revert w Hw Hs. enough (Ht : triple (state a1 c1) (check_guard os guard ;& let& restoration :=
      (if negb restore_foreground then iret NotRequested else match previous with None => iret RestorationTargetUnavailable
       | Some owner => if fo_hwnd owner =? hwnd then iret NotNeeded else restore_foreground_owner os guard owner pid generation end) in
      raise (rmap (fun _ => restoration) result)) honest) by (intros w _ Hs; by apply Ht).
    apply t_check; [done|tfine|].
    apply (triple_bind _ _ _ (fun r w => left_alone c1 r w /\ exists s, r = Ok s)).
    + assert (Hret : forall s, triple (state a1 c1) (iret s) (fun (r : Result ForegroundRestorationStatus DriverError) w => left_alone c1 r w /\ exists s, r = Ok s))
        by (intros s w Hs; split; [by exists a1|eauto]).
      repeat case_match; try apply Hret. by apply alone_restore.
    + intros restoration w [(a2 & Hac2 & Hs2) _]. destruct result as [[]|e]; cbn; [by eapply state_known|].
      apply (fine_le (a2 && negb c1)); [done|]. eapply state_fine; [done|exact Hs2|]. by apply Hden.
    + by intros e w [_ [? ?]].
Qed.
End Focus.

End Truth.

(** ** Waiting ends *)

Section Waiting.
Context (os : Native) (guard : option (nat * option Z)).

Lemma tick_time wait w : ww_time w + Z.max 0 wait <= ww_time (tick os wait w).
Proof. cbn. lia. Qed.

Lemma check_guard_time w : ww_time w <= ww_time (check_guard os guard w).1.
Proof. cbn. lia. Qed.

Lemma wait_loop_rounds fuel deadline w extra :
  deadline - ww_time w <= Z.of_nat fuel * WIN_FRAME_INTERVAL ->
  win_wait_loop os guard (fuel + extra) deadline w = win_wait_loop os guard fuel deadline w.
Proof.
  revert w. induction fuel as [|fuel IH]; intros w Hw.
  - pose proof (check_guard_time w). destruct extra; [done|]. cbn [Nat.add win_wait_loop]. unfold ibind, now. destruct (check_guard os guard w) as [w1 [[]|e]]; [|done].
    cbn [fst] in *. destruct (Z.eqb_spec (Z.max 0 (deadline - ww_time w1)) 0); [done|lia].
  - cbn [Nat.add win_wait_loop]. pose proof (check_guard_time w). unfold ibind, now, win_sleep. destruct (check_guard os guard w) as [w1 [[]|e]]; [|done].
    cbn [fst] in *. destruct (Z.eqb_spec (Z.max 0 (deadline - ww_time w1)) 0) as [|Hr]; [done|]. apply IH. cbn [ww_time tick].
    unfold WIN_FRAME_INTERVAL, MILLISECOND in *. lia.
Qed.

Lemma poll_until_rounds {A} fuel deadline done_ (yes : A) after w extra :
  (forall v, ww_time v <= ww_time (done_ v).1) -> deadline - ww_time w <= Z.of_nat fuel * FOREGROUND_RESTORE_INTERVAL ->
  poll_until os (fuel + extra) deadline done_ yes after w = poll_until os fuel deadline done_ yes after w.
Proof.
  intros Hd. revert w. induction fuel as [|fuel IH]; intros w Hw.
  - destruct extra; [done|]. cbn [Nat.add poll_until]. unfold ibind, now. destruct (Z.leb_spec deadline (ww_time w)); [done|lia].
  - cbn [Nat.add poll_until]. unfold ibind, now, win_sleep. destruct (deadline <=? ww_time w); [done|].
    pose proof (Hd w). destruct (done_ w) as [w1 [[]|e]]; [done| |done]. cbn [fst] in *. apply IH. cbn [ww_time tick].
    unfold FOREGROUND_RESTORE_INTERVAL, MILLISECOND in *. lia.
Qed.

Lemma poll_settled_rounds fuel deadline done_ e w extra :
  (forall v, ww_time v <= ww_time (done_ v).1) -> deadline - ww_time w <= Z.of_nat fuel * FOREGROUND_RESTORE_INTERVAL ->
  poll_settled os (fuel + extra) deadline done_ e w = poll_settled os fuel deadline done_ e w.
Proof.
  intros Hd. revert w. induction fuel as [|fuel IH]; intros w Hw; pose proof (Hd w).
  - destruct extra; [done|]. cbn [Nat.add poll_settled]. unfold ibind, now. destruct (done_ w) as [w1 [[]|?]]; [done| |done]. cbn [fst] in *.
    destruct (Z.leb_spec deadline (ww_time w1)); [done|lia].
  - cbn [Nat.add poll_settled]. unfold ibind, now, win_sleep. destruct (done_ w) as [w1 [[]|?]]; [done| |done]. cbn [fst] in *.
    destruct (deadline <=? ww_time w1); [done|]. apply IH. cbn [ww_time tick]. unfold FOREGROUND_RESTORE_INTERVAL, MILLISECOND in *. lia.
Qed.

Lemma await_exit_rounds fuel deadline w extra :
  deadline - ww_time w <= Z.of_nat fuel * (16 * MILLISECOND) ->
  await_exit os guard (fuel + extra) deadline w = await_exit os guard fuel deadline w.
Proof.
  revert w. induction fuel as [|fuel IH]; intros w Hw; pose proof (check_guard_time w).
  - destruct extra; [done|]. cbn [Nat.add await_exit]. unfold ibind, now, wait_for_process. destruct (check_guard os guard w) as [w1 [[]|?]]; [|done].
    cbn [fst] in *. destruct (os_WaitForSingleObject _ _); [done| |done|done].
    match goal with |- context [deadline <=? ww_time ?v] => assert (deadline <= ww_time v) as Hle by (cbn [ww_time tick]; lia) end.
    apply Z.leb_le in Hle. by rewrite Hle.
  - cbn [Nat.add await_exit]. unfold ibind, now, wait_for_process. destruct (check_guard os guard w) as [w1 [[]|?]]; [|done].
    cbn [fst] in *. destruct (os_WaitForSingleObject _ _); [done| |done|done]. case_match; [done|]. apply IH. cbn [ww_time tick]. unfold MILLISECOND in *. lia.
Qed.
End Waiting.

(** * The claims *)

Section Claims.
Context (os : Native).

(** C15: whatever commands the Windows actor receives, every one is answered,
    and in the log of what it asked of the system every dispatch was admitted
    by a guard that was open, unexpired and uninterrupted, everything that does
    not only release directly follows such an admission, and no key or button
    is left held unless the system itself refused input that only releases. *)
Theorem win_input_safe commands at_ time cells :
  let '(w, replies) := win_run os commands {| ww_log := []; ww_at := at_; ww_time := time; ww_guard := cells |} in
  length replies = length commands /\
  (forall lease g t, Cleared (Some lease) g t ∈ ww_log w -> check g lease t = Ok tt) /\
  tk_unguarded (track (ww_log w)) = false /\ (tk_refused (track (ww_log w)) = false -> tk_held (track (ww_log w)) = ∅).
Proof.
  assert (Hrun : forall w0, between false ∅ w0 -> between false ∅ (win_run os commands w0).1 /\ length (win_run os commands w0).2 = length commands).
  { induction commands as [|c commands IH]; intros w0 Hw; [done|]. cbn [win_run].
    assert (Hc : between false ∅ (win_command os c w0).1).
    { destruct c; cbn [win_command].
      - pose proof (rests_queued os guard hwnd pid process_generation action w0 Hw) as H. by destruct (win_perform_queued _ _ _ _ _ _ w0).
      - pose proof (rests_perform_foreground os guard hwnd pid process_generation action restore_foreground previous w0 Hw) as H.
        by destruct (win_perform_foreground _ _ _ _ _ _ _ _ w0).
      - pose proof (rests_foreground_owner os w0 Hw) as H. by destruct (win_foreground_owner os w0). }
    destruct (win_command os c w0) as [w1 r]. specialize (IH w1 Hc). destruct (win_run os commands w1) as [w2 rs]. cbn in *. split; [apply IH|f_equal; apply IH]. }
  destruct (Hrun {| ww_log := []; ww_at := at_; ww_time := time; ww_guard := cells |}) as [(Hg & Hu & _ & Hh) Hl].
  { split_and!; [constructor|done..]. }
  destruct (win_run os commands _) as [w rs]. cbn in *. split_and!; [done| |done|done].
  intros lease g t Hin. eapply Forall_forall in Hg; [|exact Hin]. cbn in Hg. by destruct (check g lease t) as [[]|].
Qed.

(** An entry that only changes which window is in front. *)
Definition is_focus (x : What) : bool := match x with Shown _ SW_RESTORE | Fronted _ _ => true | _ => false end.

(** An error that says nothing was dispatched is true.  When the actor
    answers a guarded command with it, no input was accepted, no message sent,
    no window closed, moved or minimized; a command in the foreground may only
    have changed which window is in front.  The lease belongs to this command,
    and is not dropped while it runs. *)
Theorem win_not_dispatched_truthful lease observed_at hwnd pid generation action restore_foreground previous at_ time cells w e :
  guard_inv cells -> is_Some (gs_leases cells !! lease) -> (forall n, EvDrop lease ∉ os_events os n) ->
  de_mutation_status e = NotDispatched ->
  let w0 := {| ww_log := []; ww_at := at_; ww_time := time; ww_guard := cells |} in
  (win_perform_queued os (Some (lease, observed_at)) hwnd pid generation action w0 = (w, Err e) ->
   forall x, x ∈ ww_log w -> touches x = false) /\
  (win_perform_foreground os (Some (lease, observed_at)) hwnd pid generation action restore_foreground previous w0 = (w, Err e) ->
   forall x, x ∈ ww_log w -> touches x = true -> is_focus x = true).
Proof.
  intros Hi [b Hb] Hk He w0.
  assert (Hstart : forall counts, state lease counts false true w0) by (intros counts; split; [done|]; split; [by exists b|done]).
  assert (Hnone : forall counts, existsb counts (ww_log w) = false -> forall x, x ∈ ww_log w -> counts x = false).
  { intros counts Hf x Hin. destruct (counts x) eqn:Hx; [|done]. rewrite <- Hf. symmetry. apply existsb_exists. exists x. split; [by apply list_elem_of_In|done]. }
  split; intros Hrun.
  - pose proof (honest_queued os lease observed_at Hk touches (fun x H => H) hwnd pid generation action false w0 (Hstart touches)) as Hh.
    rewrite Hrun in Hh. destruct Hh as (_ & _ & Ht). apply (Hnone touches). by apply Ht.
  - set (counts := fun x => touches x && negb (is_focus x)).
    pose proof (honest_perform_foreground os lease observed_at Hk counts (fun x H => proj1 (andb_prop _ _ H)) (fun _ => eq_refl) (fun _ _ => eq_refl)
      hwnd pid generation action restore_foreground previous false w0 (Hstart counts)) as Hh.
    rewrite Hrun in Hh. destruct Hh as (_ & _ & Ht). intros x Hin Hx. pose proof (Hnone counts (Ht He) x Hin) as Hc.
    unfold counts in Hc. rewrite Hx in Hc. by apply negb_false_iff in Hc.
Qed.

(** The input that was sent. *)
Definition sends (log : list What) : list (list NativeInput * nat) := omap (fun x => match x with Sent inputs k => Some (inputs, k) | _ => None end) log.

Lemma sends_app xs ys : sends (xs ++ ys) = sends xs ++ sends ys.
Proof. apply omap_app. Qed.

Lemma begin_sends guard w : sends (ww_log (win_begin_dispatch os guard w).1) = sends (ww_log w).
Proof.
  unfold win_begin_dispatch. destruct (os_input_desktop_available _ _), guard as [[lease ob]|]; try done.
  - destruct (begin_dispatch _ _ _ _) as [g [[]|e]]; [|done]. unfold logged. cbn [fst ww_log tick]. by rewrite sends_app, app_nil_r.
  - unfold logged. cbn [fst ww_log tick]. by rewrite sends_app, app_nil_r.
Qed.

Lemma wait_log guard fuel deadline w : ww_log (win_wait_loop os guard fuel deadline w).1 = ww_log w.
Proof.
  revert w. induction fuel as [|fuel IH]; intros w; cbn [win_wait_loop]; unfold ibind, now, win_sleep, check_guard; cbn [fst snd];
    (destruct (match guard with Some _ => _ | None => _ end); [|done]); case_match; try done. by rewrite IH.
Qed.

Definition whole (units : list Z) : list NativeInput * nat := (text_inputs units, length (text_inputs units)).

(** What a failed packet leaves: nothing, or a first part and its releases. *)
Definition broken_off (units : list Z) (tail : list (list NativeInput * nat)) : Prop :=
  tail = [] \/ exists k, (k < length (text_inputs units))%nat /\
    (tail = [(text_inputs units, k)] \/ exists k', tail = [(text_inputs units, k); (keyboard_releases (take k (text_inputs units)), k')]).

Lemma packet_sends guard units w :
  let '(w', r) := send_keyboard os guard (text_inputs units) w in
  match r with
  | Ok _ => sends (ww_log w') = sends (ww_log w) ++ [whole units]
  | Err _ => exists tail, sends (ww_log w') = sends (ww_log w) ++ tail /\ broken_off units tail
  end.
Proof.
  unfold send_keyboard, ibind at 1. pose proof (begin_sends guard w) as Hb. destruct (win_begin_dispatch os guard w) as [w1 [[]|e]]; cbn [fst] in Hb.
  2:{ exists []. rewrite Hb, app_nil_r. split; [done|by left]. }
  unfold ibind, send_native, act. set (inputs := text_inputs units). set (k := Nat.min _ _).
  assert (Hk : (k <= length inputs)%nat) by lia. set (w2 := logged (Sent inputs k) (tick os 0 w1)).
  assert (Hw2 : sends (ww_log w2) = sends (ww_log w) ++ [(inputs, k)]) by (unfold w2, logged; cbn [ww_log tick]; by rewrite sends_app, Hb).
  unfold ikeep, raise, input_result. destruct (Nat.ltb_spec k (length inputs)) as [Hlt|Hge].
  - rewrite (proj2 (Nat.eqb_neq k (length inputs))) by lia.
    assert (Hr : exists tail, sends (ww_log (send_raw os (keyboard_releases (take k inputs)) w2).1) = sends (ww_log w) ++ tail /\ broken_off units tail).
    { unfold send_raw. destruct (keyboard_releases (take k inputs)) as [|i is_] eqn:Er.
      - exists [(inputs, k)]. cbn. split; [done|]. right. exists k. split; [done|by left].
      - unfold ibind, send_native, act, raise, logged. cbn [fst snd ww_log tick]. rewrite sends_app, Hw2, <- app_assoc. eexists. split; [reflexivity|].
        right. exists k. split; [done|]. right. eexists. fold inputs. rewrite Er. reflexivity. }
    destruct (send_raw os _ w2) as [w3 r3]. cbn [fst] in Hr. by destruct (k =? 0)%nat.
  - assert (k = length inputs) as Heq by lia. unfold iret. rewrite Heq, Nat.eqb_refl, Hw2, Heq. done.
Qed.

Lemma type_chunks_sends guard target packets : forall dispatched w,
  let '(w', r) := type_chunks os guard target dispatched packets w in
  exists n tail, sends (ww_log w') = sends (ww_log w) ++ (whole <$> take n packets) ++ tail /\
    (r = Ok tt -> n = length packets /\ tail = []) /\ (tail = [] \/ exists units, packets !! n = Some units /\ broken_off units tail).
Proof.
  induction packets as [|units packets IH]; intros dispatched w; cbn [type_chunks].
  { exists 0%nat, []. cbn. rewrite app_nil_r. split_and!; [done|done|by left]. }
  assert (Hnone : forall w' e, sends (ww_log w') = sends (ww_log w) -> exists n tail, sends (ww_log w') = sends (ww_log w) ++ (whole <$> take n (units :: packets)) ++ tail /\
    (@Err unit DriverError e = Ok tt -> n = length (units :: packets) /\ tail = []) /\ (tail = [] \/ exists us, (units :: packets) !! n = Some us /\ broken_off us tail)).
  { intros w' e Hw. exists 0%nat, []. cbn. rewrite app_nil_r. split_and!; [done|done|by left]. }
  unfold ibind at 1, foreground_window, ask. destruct (negb (os_GetForegroundWindow os (ww_at w) =? target)); [by apply Hnone|]. unfold ikeep at 1.
  pose proof (packet_sends guard units (tick os 0 w)) as Hp. destruct (send_keyboard os guard (text_inputs units) (tick os 0 w)) as [w1 [[]|e]].
  2:{ destruct Hp as (tail & Hs & Hb). exists 0%nat, tail. cbn. split_and!; [exact Hs|done|]. right. by exists units. }
  cbn [ww_log tick] in Hp. unfold ibind. pose proof (wait_log guard (Z.to_nat (5 * MILLISECOND / WIN_FRAME_INTERVAL + 1)) (ww_time w1 + 5 * MILLISECOND) w1) as Hw.
  fold (wait_guarded os guard (5 * MILLISECOND) w1) in Hw. destruct (wait_guarded os guard (5 * MILLISECOND) w1) as [w2 [[]|e]]; cbn [fst] in Hw.
  2:{ exists 1%nat, []. cbn [take fmap list_fmap]. rewrite Hw, Hp, app_nil_r. split_and!; [done|done|by left]. }
  specialize (IH true w2). destruct (type_chunks os guard target true packets w2) as [w' r]. destruct IH as (n & tail & Hs & Hr & Ht).
  exists (S n), tail. rewrite Hs, Hw, Hp, <- app_assoc. split_and!; [done| |done]. intros H. destruct (Hr H) as [-> ->]. done.
Qed.

(** Typing text on Windows sends packets of at most 20 UTF-16 units, each
    the encoding of whole characters, in the order of the text and each as the
    down and up of its units: all of them, taken whole, on success; after a
    failure an initial part of them, and then at most one packet of which the
    system took only a first part, with nothing sent after it but the releases
    of what that part left down. *)
Theorem win_typed_text_exact guard target text w w' r :
  Forall scalar (code_point <$> Text.chars text) -> win_type_text os guard target text w = (w', r) ->
  exists groups n tail,
    concat groups = code_point <$> Text.chars text /\
    Forall (fun g => (1 <= length (utf16 g) <= PACKET_UNITS)%nat) groups /\
    sends (ww_log w') = sends (ww_log w) ++ (whole <$> take n (utf16 <$> groups)) ++ tail /\
    (r = Ok tt -> n = length groups /\ tail = []) /\
    (tail = [] \/ exists g, groups !! n = Some g /\ broken_off (utf16 g) tail).
Proof.
  intros Hcs Ht. destruct (chunks_exact (length (encode_utf16 text)) _ Hcs) as (groups & Hg & Hc & Hall); [done|].
  pose proof (type_chunks_sends guard target (chunks (encode_utf16 text)) false w) as Hp. unfold win_type_text in Ht. rewrite Ht in Hp.
  destruct Hp as (n & tail & Hs & Hr & Hb). unfold chunks, encode_utf16 in Hs, Hr, Hb. unfold encode_utf16, utf16 in Hc. rewrite Hc in Hs, Hr, Hb.
  exists groups, n, tail. rewrite length_fmap in Hr. split_and!; [done|done|exact Hs|exact Hr|].
  destruct Hb as [?|(units & Hu & Hb)]; [by left|right]. rewrite list_lookup_fmap in Hu. destruct (groups !! n) as [g|]; [|done].
  injection Hu as <-. by exists g.
Qed.

(** Every wait of the Windows actor ends within the rounds the model
    allows it: more rounds change nothing, whatever the system answers and
    however late it is. *)
Theorem win_waits_end guard duration w extra :
  0 <= duration ->
  win_wait_loop os guard (Z.to_nat (duration / WIN_FRAME_INTERVAL + 1) + extra) (ww_time w + duration) w = wait_guarded os guard duration w /\
  (forall A (done_ : Act bool) (yes : A) after, (forall v, ww_time v <= ww_time (done_ v).1) ->
    poll_until os (POLL_FUEL + extra) (ww_time w + FOREGROUND_RESTORE_TIMEOUT) done_ yes after w
    = poll_until os POLL_FUEL (ww_time w + FOREGROUND_RESTORE_TIMEOUT) done_ yes after w) /\
  (forall done_ e, (forall v, ww_time v <= ww_time (done_ v).1) ->
    poll_settled os (POLL_FUEL + extra) (ww_time w + FOREGROUND_RESTORE_TIMEOUT) done_ e w
    = poll_settled os POLL_FUEL (ww_time w + FOREGROUND_RESTORE_TIMEOUT) done_ e w) /\
  await_exit os guard (EXIT_FUEL + extra) (ww_time w + TERMINATION_CONFIRM_TIMEOUT_MS * MILLISECOND) w
  = await_exit os guard EXIT_FUEL (ww_time w + TERMINATION_CONFIRM_TIMEOUT_MS * MILLISECOND) w.
Proof.
  intros Hd. split_and!.
  - apply wait_loop_rounds. pose proof (Z.div_pos duration WIN_FRAME_INTERVAL Hd eq_refl). pose proof (Z.mul_succ_div_gt duration WIN_FRAME_INTERVAL eq_refl).
    rewrite Z2Nat.id by lia. lia.
  - intros A done_ yes after Hm. apply poll_until_rounds; [done|]. unfold POLL_FUEL, FOREGROUND_RESTORE_TIMEOUT, FOREGROUND_RESTORE_INTERVAL. lia.
  - intros done_ e Hm. apply poll_settled_rounds; [done|]. unfold POLL_FUEL, FOREGROUND_RESTORE_TIMEOUT, FOREGROUND_RESTORE_INTERVAL. lia.
  - apply await_exit_rounds. unfold EXIT_FUEL, TERMINATION_CONFIRM_TIMEOUT_MS. lia.
Qed.

End Claims.

(** * A desktop *)

Module Pane.
(** A system that takes everything; the window 5 belongs to process 7. *)
Definition willing : Native := {|
  os_events := fun _ => []; os_late := fun _ => 1; os_input_desktop_available := fun _ => true; os_SendInput := fun _ => 1000%nat;
  os_window_process := fun _ h => if h =? 5 then 7 else 8; os_process_generation := fun _ pid => Some (pid + 100);
  os_GetForegroundWindow := fun _ => 5; os_IsIconic := fun _ _ => false; os_IsWindow := fun _ _ => true;
  os_SetForegroundWindow := fun _ => true; os_SetWindowPos := fun _ => true; os_PostMessage := fun _ => true; os_SendMessageTimeout := fun _ => true;
  os_OpenProcess := fun _ _ => true; os_WaitForSingleObject := fun _ => WAIT_OBJECT_0;
  os_GetWindowRect := fun _ _ => None; os_extended_frame := fun _ _ => None; os_GetSystemMetrics := fun _ => (0, 0, 1920, 1080);
  os_wheel := fun _ _ => Some 3; os_GetCursorPos := fun _ => Some (0, 0); os_WindowFromPoint := fun _ _ => 6;
  os_ScreenToClient := fun _ _ p => Some p; os_GetClientRect := fun _ _ => Some (100, 100); os_ChildWindowFromPoint := fun _ _ _ => 0;
  os_MapVirtualKey := fun vk => vk; os_VkKeyScan := fun _ byte => byte; os_vk := fun k => match k with VK_CONTROL => 17 | VK_SHIFT => 16 | _ => 13 end |}.

(** One that takes at most three events at a time. *)
Definition reluctant : Native := {| willing with os_SendInput := fun n => if (n <? 4)%nat then 3%nat else 1000%nat |}.

Definition cells : GuardState := (guard_new (guard_init false 1000000000000)).1.
Definition start : WinWorld := {| ww_log := []; ww_at := 0; ww_time := 0; ww_guard := cells |}.

(** The window under the point belongs to another process: nothing is done. *)
Lemma win_not_dispatched_truthful_witness :
  let '(w, r) := win_perform_queued willing (Some (0%nat, None)) 5 7 107
                   (WClick {| sp_x := f64_of_Z 3; sp_y := f64_of_Z 4 |} Left 1 false) start in
  (exists e, r = Err e /\ de_kind e = DTargetUnavailable) /\ (forall x, x ∈ ww_log w -> touches x = false).
Proof.
  set (e := mutation_not_dispatched (de_with_retry
    (driver_error DTargetUnavailable "pointer point is not owned by the authorized application") "observe_window")).
  destruct (win_perform_queued willing (Some (0%nat, None)) 5 7 107 (WClick {| sp_x := f64_of_Z 3; sp_y := f64_of_Z 4 |} Left 1 false) start) as [w r] eqn:E.
  assert (Hr : r = Err e) by (vm_compute in E; injection E as _ <-; reflexivity).
  rewrite Hr in E. split; [by exists e|].
  apply (win_not_dispatched_truthful willing 0 None 5 7 107 (WClick {| sp_x := f64_of_Z 3; sp_y := f64_of_Z 4 |} Left 1 false) false None 0 0 cells w e
    (apply_event_inv (guard_init false 1000000000000) EvNew cells (guard_init_inv _ _) eq_refl) ltac:(eexists; reflexivity) (fun n => not_elem_of_nil _) eq_refl).
  exact E.
Defined.

(** The system takes three of the four events of the text: the second unit is
    released again. *)
Example reluctant_text :
  sends (ww_log (win_type_text reluctant (Some (0%nat, None)) 5 "ab" start).1) =
  [(text_inputs [97; 98], 3%nat); ([unit_input 98 true], 1%nat)].
Proof. vm_compute. reflexivity. Qed.

Lemma win_typed_text_exact_witness :
  exists groups n tail,
    concat groups = code_point <$> Text.chars "ab" /\
    Forall (fun g => (1 <= length (utf16 g) <= PACKET_UNITS)%nat) groups /\
    sends (ww_log (win_type_text reluctant (Some (0%nat, None)) 5 "ab" start).1) = [] ++ (whole <$> take n (utf16 <$> groups)) ++ tail /\
    ((win_type_text reluctant (Some (0%nat, None)) 5 "ab" start).2 = Ok tt -> n = length groups /\ tail = []) /\
    (tail = [] \/ exists g, groups !! n = Some g /\ broken_off (utf16 g) tail).
Proof.
  apply (win_typed_text_exact reluctant (Some (0%nat, None)) 5 "ab" start); [|apply surjective_pairing].
  assert (Hc : code_point <$> Text.chars "ab" = [97; 98]) by (vm_compute; reflexivity). rewrite Hc.
  repeat (constructor; [left; lia|]). constructor.
Defined.

Lemma win_waits_end_witness :
  win_wait_loop willing (Some (0%nat, None)) (Z.to_nat (1000 / WIN_FRAME_INTERVAL + 1) + 5) (ww_time start + 1000) start
  = wait_guarded willing (Some (0%nat, None)) 1000 start.
Proof. apply (win_waits_end willing (Some (0%nat, None)) 1000 start 5). lia. Defined.
End Pane.
