(* ===== verification/Activity.v ===== *)
(** The user-activity monitors of the platform drivers:
    [src/crates/platform/src/macos/activity.rs] and [windows/activity.rs].

    Each monitor is one native thread: it admits the guards of protected
    sessions, tracks which keys and buttons are down, and reports input that is
    not the program's own to every admitted guard.  The guard cells are those of
    [Driver], shared with other tasks, which act on them before every operation
    the thread makes on a guard ([tick]).  What the system answers is a function
    of the position in the run.  Instants and durations are nanoseconds. *)

From stdpp Require Import functions.
From S2P Require Import Prelude Floats Geometry Protocol Errors Driver InputText.
#[local] Open Scope Z_scope.

(** * Guards of several sessions *)

(** A [DriverActionGuard]: its session and its lease. *)
Definition GuardRef : Type := nat * nat.

(** What other tasks do to the cells before an operation, and how much time it
    takes to get there. *)
Record Others := { ot_events : nat -> list (nat * guard_event); ot_late : nat -> Z }.

Record Room := {
  rm_cells : nat -> GuardState;
  rm_time : Z;
  rm_at : nat;
  rm_replies : list (GuardRef * Result unit DriverError);
}.

Definition act_on (cells : nat -> GuardState) (e : nat * guard_event) : nat -> GuardState :=
  <[e.1 := default (cells e.1) (apply_event (cells e.1) e.2)]> cells.

Definition reply (g : GuardRef) (result : Result unit DriverError) (r : Room) : Room :=
  {| r with rm_replies := rm_replies r ++ [(g, result)] |}.

(** ** Tracked input *)

(** Four words of 64 bits, one bit a code. *)
Definition no_keys : list Z := [0; 0; 0; 0].

Definition set_key (keys : list Z) (code : Z) (down : bool) : list Z :=
  let mask := Z.shiftl 1 (code mod 64) in
  alter (fun word => if down then Z.lor word mask else Z.ldiff word mask) (Z.to_nat (code / 64)) keys.

Definition any_key (keys : list Z) : bool := existsb (fun word => negb (word =? 0)) keys.

(** Whether a code is down: what the words stand for. *)
Definition key_down (keys : list Z) (code : Z) : bool :=
  (0 <=? code) && (code <? 256) && match keys !! Z.to_nat (code / 64) with Some word => Z.testbit word (code mod 64) | None => false end.

Section Guards.
Context (others : Others).

Definition tick (r : Room) : Room :=
  {| r with rm_cells := fold_left act_on (ot_events others (rm_at r)) (rm_cells r);
            rm_time := rm_time r + Z.max 0 (ot_late others (rm_at r));
            rm_at := S (rm_at r) |}.

Definition guard_check (g : GuardRef) (r : Room) : Room * Result unit DriverError :=
  let r := tick r in (r, check (rm_cells r g.1) g.2 (rm_time r)).

Definition on_guard (e : Z -> guard_event) (g : GuardRef) (r : Room) : Room :=
  let r := tick r in {| r with rm_cells := act_on (rm_cells r) (g.1, e (rm_time r)) |}.

Definition guard_failed : GuardRef -> Room -> Room := on_guard (fun _ => EvMonitorFailed).
Definition guard_input (held : bool) : GuardRef -> Room -> Room := on_guard (fun now => EvUserInput now held).
Definition guard_released : GuardRef -> Room -> Room := on_guard (fun _ => EvReleased).

(** [for guard in &guards]. *)
Definition each_guard (f : GuardRef -> Room -> Room) (gs : list GuardRef) (r : Room) : Room := fold_left (fun r g => f g r) gs r.

(** [guards.retain(|guard| guard.check().is_ok())]. *)
Fixpoint retain (gs : list GuardRef) (r : Room) : Room * list GuardRef :=
  match gs with
  | [] => (r, [])
  | g :: gs =>
      let '(r1, checked) := guard_check g r in
      let '(r2, kept) := retain gs r1 in
      (r2, match checked with Ok _ => g :: kept | Err _ => kept end)
  end.

(** [admit], which both monitors have: [full] is the error of a monitor that
    has no room. *)
Definition CAPACITY : Z := 256.

Definition admit_guard (full : DriverError) (held : bool) (g : GuardRef) (gs : list GuardRef) (r : Room) : Room * list GuardRef :=
  let '(r1, gs) := retain gs r in
  let '(r2, checked) := guard_check g r1 in
  match checked with
  | Err e => (reply g (Err e) r2, gs)
  | Ok _ =>
      if CAPACITY <=? Z.of_nat (length gs) then (reply g (Err full) r2, gs) else
      let r3 := if held then guard_input true g r2 else r2 in
      (reply g (Ok tt) r3, gs ++ [g])
  end.

(** [ActivityActor::register]: [sent] is whether the queue took the
    registration, [answer] the reply that came within the deadline. *)
Definition register_guard (unavailable : DriverError) (sent : bool) (answer : option (Result unit DriverError)) (g : GuardRef) (r : Room)
    : Room * Result unit DriverError :=
  if negb sent then (r, Err unavailable) else
  match answer with
  | Some result => (r, result)
  | None => (guard_failed g r, Err unavailable)
  end.

End Guards.

(** * macOS *)

Inductive EventFlag := FlagAlphaShift | FlagShift | FlagControl | FlagAlternate | FlagCommand | FlagSecondaryFn | FlagOther.

Inductive EventKind :=
| MouseMoved | LeftMouseDown | LeftMouseUp | RightMouseDown | RightMouseUp | OtherMouseDown | OtherMouseUp
| LeftMouseDragged | RightMouseDragged | OtherMouseDragged | ScrollWheel | KeyDown | KeyUp | FlagsChanged
| TapDisabledByTimeout | TapDisabledByUserInput.

(** The fields of an event the tap reads. *)
Record TapEvent := {
  te_kind : EventKind;
  te_source_pid : Z;
  te_user_data : Z;
  te_keycode : Z;
  te_button : Z;
  te_flags : list EventFlag;
}.

Definition EVENT_MARKER : Z := 0x4e58435541494e50.

Definition is_own_event (own_pid pid marker : Z) : bool := (pid =? own_pid) && (marker =? EVENT_MARKER).

Record PressedInputs := { pi_keys : list Z; pi_buttons : Z; pi_modifiers : bool }.
Definition pressed_none : PressedInputs := {| pi_keys := no_keys; pi_buttons := 0; pi_modifiers := false |}.

Definition holds_modifier (flags : list EventFlag) : bool :=
  existsb (fun f => match f with FlagShift | FlagControl | FlagAlternate | FlagCommand | FlagSecondaryFn => true | _ => false end) flags.

(** [PressedInputs::update]. *)
Definition pressed_update (p : PressedInputs) (kind : EventKind) (code : Z) (flags : list EventFlag) : PressedInputs :=
  let p := {| p with pi_modifiers := holds_modifier flags |} in
  let key down := if (0 <=? code) && (code <? 256) then {| p with pi_keys := set_key (pi_keys p) code down |} else p in
  match kind with
  | KeyDown => key true
  | KeyUp => key false
  | LeftMouseDown | RightMouseDown | OtherMouseDown =>
      if (0 <=? code) && (code <? 32) then {| p with pi_buttons := Z.lor (pi_buttons p) (Z.shiftl 1 code) |} else p
  | LeftMouseUp | RightMouseUp | OtherMouseUp =>
      if (0 <=? code) && (code <? 32) then {| p with pi_buttons := Z.ldiff (pi_buttons p) (Z.shiftl 1 code) |} else p
  | _ => p
  end.

Definition pressed_held (p : PressedInputs) : bool := pi_modifiers p || negb (pi_buttons p =? 0) || any_key (pi_keys p).

(** [PressedInputs::reconcile_releases]: the bits of a word that the hardware
    does not confirm are cleared. *)
Definition confirm_bits (down : Z -> bool) (bits : list Z) (word : Z) : Z :=
  fold_left (fun word bit => if negb (Z.land word (Z.shiftl 1 bit) =? 0) && negb (down bit) then Z.ldiff word (Z.shiftl 1 bit) else word) bits word.

Definition reconcile_releases (down_key down_button : Z -> bool) (flags : list EventFlag) (p : PressedInputs) : PressedInputs :=
  {| pi_modifiers := holds_modifier flags && pi_modifiers p;
     pi_keys := imap (fun i keys => confirm_bits (fun bit => down_key (Z.of_nat i * 64 + bit)) (seqZ 0 64) keys) (pi_keys p);
     pi_buttons := confirm_bits down_button (seqZ 0 32) (pi_buttons p) |}.

Definition mac_unavailable : DriverError :=
  driver_error DPlatform "user activity monitoring is unavailable; automatic input is disabled".

(** What the thread receives; [NoneYet] is a channel without a message. *)
Inductive Received := Got (g : GuardRef) | NoneYet | Disconnected.

(** What the system answers, by position. *)
Record MacSystem := {
  ms_others : Others;
  ms_received : nat -> Received;
  ms_listen_access : nat -> bool;
  ms_tap : nat -> bool;
  ms_source : nat -> bool;
  ms_tap_enabled : nat -> bool;
  ms_key_state : nat -> Z -> bool;
  ms_button_state : nat -> Z -> bool;
  ms_flags_state : nat -> list EventFlag;
  ms_delivered : nat -> list TapEvent;
  ms_process_id : Z;
}.

(** The thread between two rounds: waiting for a registration, with a tap, or
    at its end. [Guards] are the guards and the pressed input. *)
Record Guards := { gu_guards : list GuardRef; gu_pressed : PressedInputs; gu_healthy : bool }.
Inductive MacPhase := MacWaiting | MacWatching (gu : Guards) | MacEnded.

Section Mac.
Context (os : MacSystem).
Abbreviation T := (tick (ms_others os)).

Definition mac_full : DriverError := driver_error DBusy "user activity session budget is exhausted".

Definition mac_admit (g : GuardRef) (gu : Guards) (r : Room) : Room * Guards :=
  let '(r, gs) := admit_guard (ms_others os) mac_full (pressed_held (gu_pressed gu)) g (gu_guards gu) r in
  (r, {| gu with gu_guards := gs |}).

(** The code of an event: its key, its button, or nothing. *)
Definition event_code (event : TapEvent) : Z :=
  match te_kind event with
  | KeyDown | KeyUp => te_keycode event
  | RightMouseDown | RightMouseUp => 1
  | OtherMouseDown | OtherMouseUp => te_button event
  | _ => 0
  end.

(** The callback of the tap. *)
Definition tap_callback (event : TapEvent) (gu : Guards) (r : Room) : Room * Guards :=
  let lost := match te_kind event with TapDisabledByTimeout | TapDisabledByUserInput => true | _ => false end in
  if negb lost && is_own_event (ms_process_id os) (te_source_pid event) (te_user_data event) then (r, gu) else
  if lost then (each_guard (guard_failed (ms_others os)) (gu_guards gu) r, {| gu with gu_healthy := false |})
  else
    let pressed := pressed_update (gu_pressed gu) (te_kind event) (event_code event) (te_flags event) in
    (each_guard (guard_input (ms_others os) (pressed_held pressed)) (gu_guards gu) r, {| gu with gu_pressed := pressed |}).

Fixpoint deliver (events : list TapEvent) (gu : Guards) (r : Room) : Room * Guards :=
  match events with
  | [] => (r, gu)
  | event :: events => let '(r, gu) := tap_callback event gu r in deliver events gu r
  end.

Definition reconcile_hardware_releases (gu : Guards) (r : Room) : Room * Guards :=
  if negb (pressed_held (gu_pressed gu)) then (r, gu) else
  let pressed := reconcile_releases (ms_key_state os (rm_at r)) (ms_button_state os (rm_at r)) (ms_flags_state os (rm_at r)) (gu_pressed gu) in
  (if negb (pressed_held pressed) then each_guard (guard_released (ms_others os)) (gu_guards gu) r else r, {| gu with gu_pressed := pressed |}).

(** The registrations of a round, at most [n]; the flag is a lost sender. *)
Fixpoint intake (n : nat) (gu : Guards) (r : Room) : Room * Guards * bool :=
  match n with
  | O => (r, gu, false)
  | S n =>
      match ms_received os (rm_at r) with
      | NoneYet => (T r, gu, false)
      | Disconnected => (T r, gu, true)
      | Got g =>
          let '(r, gu) := if gu_healthy gu then mac_admit g gu (T r) else (reply g (Err mac_unavailable) (T r), gu) in
          intake n gu r
      end
  end.

(** [Drop for Guards]. *)
Definition drop_guards (gu : Guards) (r : Room) : Room := each_guard (guard_failed (ms_others os)) (gu_guards gu) r.

(** One round of [monitor]; when it returns, the guards are dropped. *)
Definition monitor_round (gu : Guards) (r : Room) : Room * MacPhase :=
  let '(r, gu) :=
    if ms_tap_enabled os (rm_at r) then (T r, gu)
    else (each_guard (guard_failed (ms_others os)) (gu_guards gu) (T r), {| gu with gu_healthy := false |}) in
  let '(r, gu, disconnected) := intake 32 gu r in
  if disconnected : bool then (drop_guards gu r, MacEnded) else
  let '(r, gs) := retain (ms_others os) (gu_guards gu) r in
  let gu := {| gu with gu_guards := gs |} in
  if match gs with [] => true | _ => false end || negb (gu_healthy gu) then (drop_guards gu r, MacWaiting) else
  let '(r, gu) := reconcile_hardware_releases gu r in
  let '(r, gu) := deliver (ms_delivered os (rm_at r)) gu (T r) in
  (r, MacWatching gu).

Definition listen_refused : DriverError :=
  de_with_retry (driver_error DPermissionRequired "macOS Input Monitoring permission is required for user takeover protection")
    "grant_input_monitoring_permission".

(** The body of [run] up to the monitor. *)
Definition mac_begin (first : GuardRef) (r : Room) : Room * MacPhase :=
  let '(r, checked) := guard_check (ms_others os) first r in
  match checked with
  | Err e => (reply first (Err e) r, MacWaiting)
  | Ok _ =>
      if negb (ms_listen_access os (rm_at r)) then (reply first (Err listen_refused) r, MacWaiting) else
      if negb (ms_tap os (rm_at r)) || negb (ms_source os (rm_at r)) then (reply first (Err mac_unavailable) r, MacWaiting) else
      let '(r, gu) := mac_admit first {| gu_guards := []; gu_pressed := pressed_none; gu_healthy := true |} r in
      (r, MacWatching gu)
  end.

Definition mac_step (s : Room * MacPhase) : Room * MacPhase :=
  let '(r, phase) := s in
  match phase with
  | MacEnded => (r, MacEnded)
  | MacWatching gu => monitor_round gu r
  | MacWaiting =>
      match ms_received os (rm_at r) with
      | Got first => mac_begin first (T r)
      | NoneYet => (T r, MacWaiting)
      | Disconnected => (T r, MacEnded)
      end
  end.

Definition mac_activity_run (rounds : nat) (r : Room) : Room * MacPhase := Nat.iter rounds mac_step (r, MacWaiting).

End Mac.

(** * Windows *)

(** [event_marker]: [id.rotate_left(16)] of a 32-bit process id. *)
Definition rotate_left_16 (id : Z) : Z := Z.lor (Z.shiftl id 16 mod 2 ^ 32) (Z.shiftr id 16).
Definition event_marker (process_id : Z) : Z := Z.lxor 0x4e584355 (rotate_left_16 process_id).

(** [PressedInputs::update]: the left and right modifiers are one key. *)
Definition generic_key (key : Z) : Z :=
  if (key =? 0xa0) || (key =? 0xa1) then 0x10
  else if (key =? 0xa2) || (key =? 0xa3) then 0x11
  else if (key =? 0xa4) || (key =? 0xa5) then 0x12
  else key.

Definition win_update (keys : list Z) (key : Z) (down : bool) : list Z :=
  let key := generic_key key in if key <? 256 then set_key keys key down else keys.

Record ActivityState := {
  as_guards : list GuardRef;
  as_physical : list Z;
  as_injected : list Z;
  as_heartbeat : option Z;
}.

Definition activity_default : ActivityState := {| as_guards := []; as_physical := no_keys; as_injected := no_keys; as_heartbeat := None |}.
Definition activity_held (st : ActivityState) : bool := any_key (as_physical st) || any_key (as_injected st).

Definition WATCHDOG_DEADLINE : Z := 500 * MILLISECOND.

Definition win_unavailable : DriverError :=
  de_with_retry (driver_error DPermissionRequired "Windows user activity monitoring requires an available interactive input desktop")
    "unlock_desktop_and_request_new_session".

(** [input_desktop_available]: the name of the input desktop, if it can be
    opened and asked, is [Default]. *)
Definition input_desktop_available (name : option (list Z)) : bool :=
  match name with
  | Some units => bool_decide (take 8 units = [68; 101; 102; 97; 117; 108; 116; 0])
  | None => false
  end.

(** [RAWINPUTDEVICE]. *)
Record RawDevice := { rd_page : Z; rd_usage : Z; rd_own_window : bool; rd_inputsink : bool }.

(** [Monitor::registered]. *)
Definition registered (devices : option (list RawDevice)) : bool :=
  match devices with
  | None => false
  | Some devices =>
      forallb (fun usage =>
        existsb (fun device => (rd_page device =? 1) && (rd_usage device =? usage) && rd_own_window device && rd_inputsink device) devices)
        [2; 6]
  end.

Inductive MouseWord := LButton (down : bool) | RButton (down : bool) | MButton (down : bool) | XButton (down : bool) | MouseOther.

(** What the message pump dispatches: raw input and the two hooks. *)
Inductive PumpMessage :=
| RawUnreadable
| RawKeyboard (no_device : bool) (extra vkey flags : Z)
| RawMouse (no_device : bool) (extra button_flags : Z)
| RawOther
| KeyboardHook (injected : bool) (extra vk_code : Z) (up : bool)
| MouseHook (injected : bool) (extra : Z) (word : MouseWord) (mouse_data : Z)
| MessageOther.

Definition own_raw_input (process_id : Z) (no_device : bool) (marker : Z) : bool := no_device && (marker =? event_marker process_id).

(** The buttons of a raw mouse event: bit [2i] is down, bit [2i + 1] up. *)
Definition raw_buttons (flags : Z) (keys : list Z) : list Z :=
  fold_left (fun keys '(index, key) =>
    let keys := if negb (Z.land flags (Z.shiftl 1 (index * 2)) =? 0) then win_update keys key true else keys in
    if negb (Z.land flags (Z.shiftl 2 (index * 2)) =? 0) then win_update keys key false else keys)
    [(0, 1); (1, 2); (2, 4); (3, 5); (4, 6)] keys.

Definition hook_button (word : MouseWord) (mouse_data : Z) : option (Z * bool) :=
  match word with
  | LButton down => Some (1, down)
  | RButton down => Some (2, down)
  | MButton down => Some (4, down)
  | XButton down => Some (if Z.shiftr mouse_data 16 =? 1 then 5 else 6, down)
  | MouseOther => None
  end.

Record WinSystem := {
  ws_others : Others;
  ws_received : nat -> Received;
  ws_monitor : nat -> bool;
  ws_watchdog : nat -> bool;
  ws_wakes : nat -> bool;
  ws_key_down : nat -> Z -> bool;
  ws_desktop : nat -> option (list Z);
  ws_devices : nat -> option (list RawDevice);
  ws_messages : nat -> list PumpMessage;
  ws_process_id : Z;
}.

Inductive WinPhase := WinWaiting | WinPumping (st : ActivityState) | WinEnded.

Section Win.
Context (os : WinSystem).
Abbreviation T := (tick (ws_others os)).

(** [State::record] and [State::fail]. *)
Definition activity_record (st : ActivityState) (r : Room) : Room :=
  each_guard (guard_input (ws_others os) (activity_held st)) (as_guards st) r.
Definition activity_fail (st : ActivityState) (r : Room) : Room := each_guard (guard_failed (ws_others os)) (as_guards st) r.

(** A turn of the watchdog thread, which may come between two uses of the
    state. *)
Definition watchdog_turn (st : ActivityState) (r : Room) : Room :=
  let r := T r in
  match as_heartbeat st with
  | Some heartbeat => if ws_wakes os (rm_at r) && (WATCHDOG_DEADLINE <=? sat_sub (rm_time r) heartbeat) then activity_fail st r else r
  | None => r
  end.

(** [window_proc], [keyboard_proc] and [mouse_proc]. *)
Definition pump_message (m : PumpMessage) (st : ActivityState) (r : Room) : Room * ActivityState :=
  let recorded st := (activity_record st r, st) in
  match m with
  | RawUnreadable => (activity_fail st r, st)
  | RawKeyboard no_device extra vkey flags =>
      if own_raw_input (ws_process_id os) no_device extra then (r, st)
      else recorded {| st with as_physical := win_update (as_physical st) vkey (Z.land flags 1 =? 0) |}
  | RawMouse no_device extra button_flags =>
      if own_raw_input (ws_process_id os) no_device extra then (r, st)
      else recorded {| st with as_physical := raw_buttons button_flags (as_physical st) |}
  | RawOther => recorded st
  | KeyboardHook injected extra vk_code up =>
      if negb injected || negb (extra =? event_marker (ws_process_id os)) then
        recorded (if injected then {| st with as_injected := win_update (as_injected st) vk_code (negb up) |}
                  else {| st with as_physical := win_update (as_physical st) vk_code (negb up) |})
      else (r, st)
  | MouseHook injected extra word mouse_data =>
      if negb injected || negb (extra =? event_marker (ws_process_id os)) then
        recorded (match hook_button word mouse_data with
                  | Some (key, down) =>
                      if injected then {| st with as_injected := win_update (as_injected st) key down |}
                      else {| st with as_physical := win_update (as_physical st) key down |}
                  | None => st
                  end)
      else (r, st)
  | MessageOther => (r, st)
  end.

Fixpoint pump_messages (ms : list PumpMessage) (st : ActivityState) (r : Room) : Room * ActivityState :=
  match ms with
  | [] => (r, st)
  | m :: ms => let '(r, st) := pump_message m st (watchdog_turn st r) in pump_messages ms st r
  end.

Definition win_admit (g : GuardRef) (st : ActivityState) (r : Room) : Room * ActivityState :=
  let '(r, gs) := admit_guard (ws_others os) win_unavailable (activity_held st) g (as_guards st) r in
  (r, {| st with as_guards := gs |}).

(** The end of a monitor in [run]. *)
Definition end_pump (st : ActivityState) (r : Room) : Room := activity_fail st (watchdog_turn st r).

(** One round of [Monitor::pump], and what [run] does when it returns. *)
Definition pump_round (st : ActivityState) (r : Room) : Room * WinPhase :=
  let '(r, st) := pump_messages (take 256 (ws_messages os (rm_at r))) st (T r) in
  if negb (input_desktop_available (ws_desktop os (rm_at r))) || negb (registered (ws_devices os (rm_at r))) then
    (end_pump st (activity_fail st (watchdog_turn st r)), WinWaiting) else
  let r := watchdog_turn st r in
  let heartbeat := rm_time r in
  let '(r, gs) := retain (ws_others os) (as_guards st) r in
  let st := {| st with as_guards := gs; as_heartbeat := Some heartbeat |} in
  match gs with
  | [] => (end_pump st r, WinWaiting)
  | _ =>
      match ws_received os (rm_at r) with
      | Got g => let '(r, st) := win_admit g st (watchdog_turn st r) in (r, WinPumping st)
      | NoneYet => (watchdog_turn st r, WinPumping st)
      | Disconnected => (end_pump st r, WinWaiting)
      end
  end.

(** The keys that are down when the monitor starts. *)
Definition initial_keys (down : Z -> bool) : list Z :=
  fold_left (fun keys key => if down key then win_update keys key true else keys) (seqZ 1 255) no_keys.

(** The body of [run] up to the pump. *)
Definition win_begin (first : GuardRef) (r : Room) : Room * WinPhase :=
  let '(r, checked) := guard_check (ws_others os) first r in
  match checked with
  | Err e => (reply first (Err e) r, WinWaiting)
  | Ok _ =>
      if negb (ws_monitor os (rm_at r)) then (reply first (Err win_unavailable) r, WinWaiting) else
      if negb (ws_watchdog os (rm_at r)) then (reply first (Err win_unavailable) r, WinWaiting) else
      let st := {| activity_default with as_heartbeat := Some (rm_time r); as_physical := initial_keys (ws_key_down os (rm_at r)) |} in
      let '(r, st) := win_admit first st r in
      (r, WinPumping st)
  end.

Definition win_step (s : Room * WinPhase) : Room * WinPhase :=
  let '(r, phase) := s in
  match phase with
  | WinEnded => (r, WinEnded)
  | WinPumping st => pump_round st r
  | WinWaiting =>
      match ws_received os (rm_at r) with
      | Got first => win_begin first (T r)
      | NoneYet => (T r, WinWaiting)
      | Disconnected => (T r, WinEnded)
      end
  end.

Definition win_activity_run (rounds : nat) (r : Room) : Room * WinPhase := Nat.iter rounds win_step (r, WinWaiting).

End Win.
