(* ===== verification/ActivityProps.v ===== *)
(** The theorems on the activity monitors of [Activity].

    [later] relates two moments of the shared guard cells: everything between
    them is a run of guard events, so that what is latched stays.  A guard that
    was told it is protected is watched by a live monitor or stopped for good
    ([covered]), whatever fails ([mac_activity_protects],
    [win_activity_protects]); the words of the tracker are exactly the set of
    pressed keys and buttons ([tracked_input_exact]). *)

From stdpp Require Import functions.
From S2P Require Import Prelude Floats Geometry Protocol Errors Driver InputText Activity.
#[local] Open Scope Z_scope.

(** * What stays *)

(** Every check of the session fails. *)
Definition stopped (s : GuardState) (now : Z) : Prop := gs_closed s = true \/ gs_expires_at s <= now \/ gs_interruption s <> 0.

Lemma stopped_check s l now : stopped s now <-> exists e, check s l now = Err e.
Proof.
  unfold stopped, check. destruct (gs_closed s); cbn; [split; [eauto|by left]|].
  destruct (Z.leb_spec (gs_expires_at s) now); cbn; [split; [eauto|by right; left]|].
  destruct (Z.eqb_spec (gs_interruption s) 0) as [Hz|Hz]; cbn; split; [intros [?|[?|?]]; (done || lia)|by intros [e ?]|eauto|by right; right].
Qed.

Lemma stopped_begin s l observed now : stopped s now -> (begin_dispatch s l observed now).1 = s.
Proof. intros [e He]%(stopped_check s l now). unfold begin_dispatch. by rewrite He. Qed.

Lemma apply_event_cells s e s' : apply_event s e = Some s' ->
  gs_expires_at s' = gs_expires_at s /\ (gs_closed s = true -> gs_closed s' = true) /\ (gs_interruption s <> 0 -> gs_interruption s' <> 0).
Proof.
  intros Ha. split_and!; [| |intros Hn; by rewrite (apply_event_latched _ _ _ Hn Ha)].
  all: destruct e; cbn in Ha; try injection Ha as <-; try done;
    try (unfold record_user_input_state, user_took_over, activity_monitor_failed, interrupt; cbn; repeat case_match; done).
  all: try (destruct (gs_leases s !! _); [|done]; unfold drop_lease in Ha; repeat case_match; try done; by injection Ha as <-).
  all: destruct (gs_leases s !! _); [|done]; injection Ha as <-; by destruct (begin_dispatch_cases s lease observed_at now) as [-> | [_ ->]].
Qed.

Lemma run_events_stopped es s s' now now' : stopped s now -> now <= now' -> run_events s es = Some s' -> stopped s' now'.
Proof.
  revert s. induction es as [|e es IH]; intros s Hs Ht; cbn.
  - intros [= <-]. unfold stopped in *. destruct Hs as [?|[?|?]]; [by left|right; left; lia|by right; right].
  - destruct (apply_event s e) as [s1|] eqn:E; [|done]. apply IH; [|done]. destruct (apply_event_cells _ _ _ E) as (He & Hc & Hi).
    unfold stopped in *. rewrite He. destruct Hs as [?|[?|?]]; [left; auto|by right; left|right; right; auto].
Qed.

Section Guards.
Context (others : Others).

(** Nobody drops the lease. *)
Definition lease_lives (sid l : nat) : Prop := forall n, (sid, EvDrop l) ∉ ot_events others n.

Definition later (r r' : Room) : Prop :=
  rm_time r <= rm_time r' /\
  forall sid, exists es, run_events (rm_cells r sid) es = Some (rm_cells r' sid) /\ forall l, lease_lives sid l -> EvDrop l ∉ es.

#[global] Instance later_preorder : PreOrder later.
Proof.
  split.
  - intros r. split; [lia|]. intros sid. exists []. split; [done|]. intros l _. apply not_elem_of_nil.
  - intros a b c [Ht H] [Ht' H']. split; [lia|]. intros sid. destruct (H sid) as (es & He & Hd), (H' sid) as (es' & He' & Hd').
    exists (es ++ es'). rewrite run_events_app, He. split; [done|]. intros l Hl. rewrite elem_of_app. intros [?|?]; [by apply (Hd l Hl)|by apply (Hd' l Hl)].
Qed.

Lemma later_stopped r r' sid : later r r' -> stopped (rm_cells r sid) (rm_time r) -> stopped (rm_cells r' sid) (rm_time r').
Proof. intros [Ht H] Hs. destruct (H sid) as (es & He & _). by eapply run_events_stopped. Qed.

Lemma later_inv r r' : later r r' -> (forall sid, guard_inv (rm_cells r sid)) -> forall sid, guard_inv (rm_cells r' sid).
Proof. intros [_ H] Hi sid. destruct (H sid) as (es & He & _). by eapply run_events_inv. Qed.

Lemma later_dispatched r r' sid l :
  later r r' -> lease_lives sid l -> guard_inv (rm_cells r sid) ->
  gs_leases (rm_cells r sid) !! l = Some true -> gs_leases (rm_cells r' sid) !! l = Some true.
Proof. intros [_ H] Hl Hi Hd. destruct (H sid) as (es & He & Hn). eapply run_events_dispatched; [done|by apply Hn|done|done]. Qed.

(** One event on the cells. *)
Definition reaches (P : nat * guard_event -> Prop) (cells cells' : nat -> GuardState) : Prop :=
  forall sid, exists es, run_events (cells sid) es = Some (cells' sid) /\ Forall (fun e => P (sid, e)) es.

Lemma act_on_reaches (P : nat * guard_event -> Prop) cells e : P e -> reaches P cells (act_on cells e).
Proof.
  intros He sid. destruct e as [sid' ev]. unfold act_on. cbn [fst snd]. destruct (decide (sid' = sid)) as [->|Hne].
  - rewrite fn_lookup_insert. destruct (apply_event (cells sid) ev) eqn:E; cbn.
    + exists [ev]. cbn. rewrite E. split; [done|by repeat constructor].
    + exists []. split; [done|constructor].
  - rewrite fn_lookup_insert_ne by done. exists []. split; [done|constructor].
Qed.

Lemma acts_on_reach (P : nat * guard_event -> Prop) es cells : Forall P es -> reaches P cells (fold_left act_on es cells).
Proof.
  intros H. revert cells. induction H as [|e es He _ IH]; intros cells sid; cbn [fold_left]; [exists []; split; [done|constructor]|].
  destruct (act_on_reaches P cells e He sid) as (es1 & H1 & F1), (IH (act_on cells e) sid) as (es2 & H2 & F2).
  exists (es1 ++ es2). rewrite run_events_app, H1. split; [done|by apply Forall_app].
Qed.

Lemma tick_later r : later r (tick others r).
Proof.
  split; [unfold tick; cbn; lia|]. intros sid.
  destruct (acts_on_reach (fun e => e ∈ ot_events others (rm_at r)) (ot_events others (rm_at r)) (rm_cells r) ltac:(by apply Forall_forall) sid) as (es & He & Hf).
  exists es. split; [done|]. intros l Hl Hin. eapply Forall_forall in Hf; [|exact Hin]. by eapply Hl.
Qed.

Lemma on_guard_later e g r : (forall now l, e now <> EvDrop l) -> later r (on_guard others e g r).
Proof.
  intros He. transitivity (tick others r); [apply tick_later|]. split; [done|]. intros sid. cbn.
  destruct (act_on_reaches (fun x => x.2 = e (rm_time (tick others r))) (rm_cells (tick others r)) (g.1, e (rm_time (tick others r))) eq_refl sid) as (es & Hr & Hf).
  exists es. split; [done|]. intros l _ Hin. eapply Forall_forall in Hf; [|exact Hin]. cbn in Hf. by eapply He.
Qed.

Lemma each_guard_later f gs r : (forall g r, later r (f g r)) -> later r (each_guard f gs r).
Proof. intros Hf. revert r. induction gs as [|g gs IH]; intros r; cbn; [done|]. etrans; [apply Hf|apply IH]. Qed.

Lemma failed_later g r : later r (guard_failed others g r).
Proof. by apply on_guard_later. Qed.
Lemma input_later held g r : later r (guard_input others held g r).
Proof. by apply on_guard_later. Qed.
Lemma released_later g r : later r (guard_released others g r).
Proof. by apply on_guard_later. Qed.

Lemma replies_on_guard e g r : rm_replies (on_guard others e g r) = rm_replies r.
Proof. done. Qed.

Lemma replies_each f gs r : (forall g r, rm_replies (f g r) = rm_replies r) -> rm_replies (each_guard f gs r) = rm_replies r.
Proof. intros Hf. revert r. induction gs as [|g gs IH]; intros r; cbn; [done|]. unfold each_guard in IH. by rewrite IH, Hf. Qed.

(** What every guard of a list gets, it keeps. *)
Lemma each_guard_all (P : GuardRef -> Room -> Prop) f gs r :
  (forall g r, later r (f g r)) -> (forall g r r', later r r' -> P g r -> P g r') -> (forall g r', later r r' -> P g (f g r')) ->
  forall g, g ∈ gs -> P g (each_guard f gs r).
Proof.
  intros Hl Hm Hp. enough (H : forall r', later r r' -> forall g, g ∈ gs -> P g (each_guard f gs r')) by by apply H.
  induction gs as [|g gs IH]; intros r' Hr g' Hin; [by apply not_elem_of_nil in Hin|]. cbn.
  apply elem_of_cons in Hin as [->|Hin]; [|apply IH; [|done]; etrans; [exact Hr|apply Hl]].
  eapply Hm; [by apply (each_guard_later f gs)|by apply Hp].
Qed.

Definition guard_stopped (g : GuardRef) (r : Room) : Prop := stopped (rm_cells r g.1) (rm_time r).

Lemma guard_stopped_later g r r' : later r r' -> guard_stopped g r -> guard_stopped g r'.
Proof. apply later_stopped. Qed.

Lemma failed_stopped g r : guard_stopped g (guard_failed others g r).
Proof.
  right. right. unfold guard_failed, on_guard. cbn [rm_cells]. unfold act_on. cbn [fst snd]. rewrite fn_lookup_insert. cbn.
  by apply interrupt_nonzero.
Qed.

Lemma all_failed gs r g : g ∈ gs -> guard_stopped g (each_guard (guard_failed others) gs r).
Proof. apply each_guard_all; [apply failed_later|apply guard_stopped_later|intros; apply failed_stopped]. Qed.

(** Input while a lease of the session has dispatched stops the session. *)
Lemma input_stops held gs r g l :
  g ∈ gs -> guard_inv (rm_cells r g.1) -> lease_lives g.1 l -> gs_leases (rm_cells r g.1) !! l = Some true ->
  gs_interruption (rm_cells (each_guard (guard_input others held) gs r) g.1) <> 0.
Proof.
  intros Hin Hi Hl Hd.
  apply (each_guard_all (fun g' r' => g'.1 = g.1 -> gs_interruption (rm_cells r' g.1) <> 0) _ gs r (input_later held)) with (g := g); [| |done|done].
  - intros g' a b [_ Hab] Hp Hg. destruct (Hab g.1) as (es & He & _). rewrite (run_events_latched _ _ _ (Hp Hg) He). auto.
  - intros [sid' l'] r' Hr Hg. cbn in Hg. subst sid'. unfold guard_input, on_guard. cbn [rm_cells]. unfold act_on. cbn [fst snd]. rewrite fn_lookup_insert. cbn [apply_event default].
    assert (Hr' : later r (tick others r')) by (etrans; [exact Hr|apply tick_later]).
    apply user_input_interrupts; [|exists l; by apply (later_dispatched r)]. destruct Hr' as [_ Hr']. destruct (Hr' g.1) as (es & He & _). by eapply run_events_inv.
Qed.

Lemma retain_facts gs r : let '(r', kept) := retain others gs r in
  later r r' /\ rm_replies r' = rm_replies r /\ (forall g, g ∈ gs -> g ∈ kept \/ guard_stopped g r') /\ (forall g, g ∈ kept -> g ∈ gs).
Proof.
  revert r. induction gs as [|g gs IH]; intros r; cbn [retain].
  { split_and!; [done|done|intros g H; by apply not_elem_of_nil in H|done]. }
  unfold guard_check at 1. specialize (IH (tick others r)). destruct (retain others gs (tick others r)) as [r' kept]. destruct IH as (Hl & Hr & Hg & Hk).
  assert (Hl' : later r r') by (etrans; [apply tick_later|exact Hl]). split; [done|]. split; [done|].
  destruct (check (rm_cells (tick others r) g.1) g.2 (rm_time (tick others r))) as [[]|e] eqn:E; split.
  - intros g' [->|Hin]%elem_of_cons; [left; by left|]. destruct (Hg g' Hin); [left; by right|by right].
  - intros g' [->|Hin]%elem_of_cons; [by left|right; auto].
  - intros g' [->|Hin]%elem_of_cons; [|auto]. right. eapply guard_stopped_later; [exact Hl|]. apply (stopped_check _ g.2). eauto.
  - intros g' Hin. right. auto.
Qed.

(** * Guards that are told they are protected *)

Definition covered (watched : list GuardRef) (r : Room) : Prop :=
  forall g, (g, Ok tt) ∈ rm_replies r -> g ∈ watched \/ guard_stopped g r.

Lemma covered_later ws r r' : later r r' -> rm_replies r' = rm_replies r -> covered ws r -> covered ws r'.
Proof. intros Hl Hr Hc g Hg. rewrite Hr in Hg. destruct (Hc g Hg); [by left|right; by eapply guard_stopped_later]. Qed.

Lemma covered_refusal ws g e r : covered ws r -> covered ws (reply g (Err e) r).
Proof. intros Hc g' [Hg|Hg]%elem_of_app; [by apply Hc|]. by apply list_elem_of_singleton in Hg. Qed.

Lemma covered_failed ws r : covered ws r -> covered [] (each_guard (guard_failed others) ws r).
Proof.
  intros Hc g Hg. rewrite replies_each in Hg by done. right. destruct (Hc g Hg) as [Hw|Hs]; [by apply all_failed|].
  eapply guard_stopped_later; [|exact Hs]. apply each_guard_later, failed_later.
Qed.

Lemma covered_retain ws r : covered ws r -> let '(r', kept) := retain others ws r in covered kept r'.
Proof.
  intros Hc. pose proof (retain_facts ws r) as H. destruct (retain others ws r) as [r' kept]. destruct H as (Hl & Hr & Hg & _).
  intros g Hin. rewrite Hr in Hin. destruct (Hc g Hin) as [Hw|Hs]; [by apply Hg|right; by eapply guard_stopped_later].
Qed.

Lemma later_reply g e r r' : later r r' -> later r (reply g e r').
Proof. done. Qed.

Lemma admit_facts full held g ws r : covered ws r ->
  let '(r', ws') := admit_guard others full held g ws r in later r r' /\ covered ws' r'.
Proof.
  intros Hc. unfold admit_guard. pose proof (retain_facts ws r) as Hf. pose proof (covered_retain ws r Hc) as Hk.
  destruct (retain others ws r) as [r1 kept]. destruct Hf as (Hl1 & _). unfold guard_check.
  assert (Hl : later r (tick others r1)) by (etrans; [exact Hl1|apply tick_later]).
  assert (Hk1 : covered kept (tick others r1)) by (eapply covered_later; [apply tick_later|done|exact Hk]).
  destruct (check _ _ _) as [[]|e]; [|split; [by apply later_reply|by apply covered_refusal]].
  destruct (CAPACITY <=? Z.of_nat (length kept)); [split; [by apply later_reply|by apply covered_refusal]|].
  set (r3 := if held then _ else _). assert (Hl3 : later (tick others r1) r3) by (unfold r3; destruct held; [apply input_later|done]).
  assert (Hk3 : covered kept r3) by (eapply covered_later; [exact Hl3|by unfold r3; destruct held|exact Hk1]).
  split; [apply later_reply; by etrans|]. intros g' [Hg|Hg]%elem_of_app.
  - destruct (Hk3 g' Hg); [left; apply elem_of_app; by left|by right].
  - apply list_elem_of_singleton in Hg. injection Hg as ->. left. apply elem_of_app. right. by apply list_elem_of_singleton.
Qed.

End Guards.

(** A run of the other tasks' events and time from one moment to another. *)
Notation "r ≼[ o ] r'" := (later o r r') (at level 70, format "r  ≼[ o ]  r'").

(** * macOS *)

Section Mac.
Context (os : MacSystem).
Abbreviation ot := (ms_others os).

Definition mac_watched (phase : MacPhase) : list GuardRef :=
  match phase with MacWatching gu => if gu_healthy gu then gu_guards gu else [] | _ => [] end.

(** What a step of the monitor keeps: the cells move on, and the guards it was
    told about are watched. *)
Definition gu_watched (gu : Guards) : list GuardRef := if gu_healthy gu then gu_guards gu else [].

Lemma mac_admit_facts g gu r : gu_healthy gu = true -> covered (gu_guards gu) r ->
  let '(r', gu') := mac_admit os g gu r in r ≼[ot] r' /\ gu_healthy gu' = true /\ covered (gu_guards gu') r'.
Proof.
  intros Hh Hc. unfold mac_admit. pose proof (admit_facts ot mac_full (pressed_held (gu_pressed gu)) g (gu_guards gu) r Hc) as H.
  destruct (admit_guard _ _ _ _ _ _) as [r' gs]. cbn. by destruct H.
Qed.

Lemma callback_facts event gu r : covered (gu_watched gu) r ->
  let '(r', gu') := tap_callback os event gu r in r ≼[ot] r' /\ covered (gu_watched gu') r'.
Proof.
  intros Hc. unfold tap_callback, gu_watched in *. destruct (match te_kind event with TapDisabledByTimeout | TapDisabledByUserInput => true | _ => false end); cbn [negb andb].
  - split; [apply each_guard_later, failed_later|]. cbn. destruct (gu_healthy gu); [by apply covered_failed|].
    eapply covered_later; [apply each_guard_later, failed_later|by apply replies_each|done].
  - destruct (is_own_event _ _ _); [done|]. split; [apply each_guard_later, input_later|]. cbn.
    eapply covered_later; [apply each_guard_later, input_later|by apply replies_each|by destruct (gu_healthy gu)].
Qed.

Lemma deliver_facts events gu r : covered (gu_watched gu) r ->
  let '(r', gu') := deliver os events gu r in r ≼[ot] r' /\ covered (gu_watched gu') r'.
Proof.
  revert gu r. induction events as [|event events IH]; intros gu r Hc; cbn [deliver]; [done|].
  pose proof (callback_facts event gu r Hc) as H. destruct (tap_callback os event gu r) as [r1 gu1]. destruct H as [Hl Hc1].
  specialize (IH gu1 r1 Hc1). destruct (deliver os events gu1 r1) as [r' gu']. destruct IH. split; [by etrans|done].
Qed.

Lemma intake_facts n gu r : covered (gu_watched gu) r ->
  let '(r', gu', _) := intake os n gu r in r ≼[ot] r' /\ gu_healthy gu' = gu_healthy gu /\ covered (gu_watched gu') r'.
Proof.
  revert gu r. induction n as [|n IH]; intros gu r Hc; cbn [intake]; [done|].
  assert (Ht : covered (gu_watched gu) (tick ot r)) by (eapply covered_later; [apply tick_later|done|exact Hc]).
  destruct (ms_received os (rm_at r)) as [g| |]; [|split; [apply tick_later|done]..].
  assert (H : let '(r1, gu1) := if gu_healthy gu then mac_admit os g gu (tick ot r) else (reply g (Err mac_unavailable) (tick ot r), gu) in
    r ≼[ot] r1 /\ gu_healthy gu1 = gu_healthy gu /\ covered (gu_watched gu1) r1).
  { unfold gu_watched in *. destruct (gu_healthy gu) eqn:E.
    - pose proof (mac_admit_facts g gu (tick ot r) E Ht) as H. destruct (mac_admit os g gu (tick ot r)) as [r1 gu1]. destruct H as (Hl & Hh & Hc1).
      rewrite Hh. split; [etrans; [apply tick_later|exact Hl]|done].
    - rewrite E. split; [apply later_reply, tick_later|]. split; [done|by apply covered_refusal]. }
  destruct (if gu_healthy gu then _ else _) as [r1 gu1]. destruct H as (Hl & Hh & Hc1). specialize (IH gu1 r1 Hc1).
  destruct (intake os n gu1 r1) as [[r' gu'] d]. destruct IH as (Hl' & Hh' & Hc'). split; [by etrans|]. split; [congruence|done].
Qed.

Lemma drop_facts gu r : covered (gu_watched gu) r -> r ≼[ot] drop_guards os gu r /\ covered [] (drop_guards os gu r).
Proof.
  intros Hc. split; [apply each_guard_later, failed_later|]. unfold gu_watched, drop_guards in *. destruct (gu_healthy gu); [by apply covered_failed|].
  eapply covered_later; [apply each_guard_later, failed_later|by apply replies_each|done].
Qed.

Lemma reconcile_facts gu r : covered (gu_watched gu) r ->
  let '(r', gu') := reconcile_hardware_releases os gu r in r ≼[ot] r' /\ covered (gu_watched gu') r'.
Proof.
  intros Hc. unfold reconcile_hardware_releases. destruct (negb (pressed_held (gu_pressed gu))); [done|]. set (pressed := reconcile_releases _ _ _ _).
  set (r' := if negb _ then _ else r). assert (Hl : r ≼[ot] r') by (unfold r'; destruct (negb _); [apply each_guard_later, released_later|done]).
  split; [done|]. eapply covered_later; [exact Hl| |exact Hc]. unfold r'. destruct (negb _); [by apply replies_each|done].
Qed.

Lemma round_facts gu r : covered (gu_watched gu) r ->
  let '(r', phase) := monitor_round os gu r in r ≼[ot] r' /\ covered (mac_watched phase) r'.
Proof.
  intros Hc. unfold monitor_round.
  assert (H : let '(r1, gu1) := if ms_tap_enabled os (rm_at r) then (tick ot r, gu)
      else (each_guard (guard_failed ot) (gu_guards gu) (tick ot r), {| gu with gu_healthy := false |}) in r ≼[ot] r1 /\ covered (gu_watched gu1) r1).
  { assert (Ht : covered (gu_watched gu) (tick ot r)) by (eapply covered_later; [apply tick_later|done|exact Hc]).
    destruct (ms_tap_enabled os (rm_at r)); [split; [apply tick_later|done]|]. destruct (drop_facts gu (tick ot r) Ht).
    split; [etrans; [apply tick_later|done]|done]. }
  destruct (if ms_tap_enabled os (rm_at r) then _ else _) as [r1 gu1]. destruct H as [Hl1 Hc1]. pose proof (intake_facts 32 gu1 r1 Hc1) as H.
  destruct (intake os 32 gu1 r1) as [[r2 gu2] d]. destruct H as (Hl2 & _ & Hc2). assert (Hl : r ≼[ot] r2) by (by etrans).
  destruct d; [destruct (drop_facts gu2 r2 Hc2); split; [by etrans|done]|].
  pose proof (retain_facts ot (gu_guards gu2) r2) as Hf. pose proof (covered_retain ot (gu_watched gu2) r2 Hc2) as Hk.
  assert (Hu : gu_healthy gu2 = false -> covered [] (retain ot (gu_guards gu2) r2).1).
  { intros E. unfold gu_watched in Hc2. rewrite E in Hc2. eapply covered_later; [| |exact Hc2]; destruct (retain ot (gu_guards gu2) r2), Hf as (? & ? & _); done. }
  destruct (retain ot (gu_guards gu2) r2) as [r3 gs] eqn:Er. destruct Hf as (Hl3 & _). cbn [fst] in Hu. assert (Hl' : r ≼[ot] r3) by (by etrans).
  set (gu3 := {| gu2 with gu_guards := gs |}).
  assert (Hc3 : covered (gu_watched gu3) r3).
  { unfold gu_watched in *. cbn. destruct (gu_healthy gu2); [|by apply Hu]. by rewrite Er in Hk. }
  clear Hu Hk Er. destruct (match gs with [] => true | _ => false end || negb (gu_healthy gu3)); [destruct (drop_facts gu3 r3 Hc3); split; [by etrans|done]|].
  pose proof (reconcile_facts gu3 r3 Hc3) as H. destruct (reconcile_hardware_releases os gu3 r3) as [r4 gu4]. destruct H as [Hl4 Hc4].
  assert (Hc5 : covered (gu_watched gu4) (tick ot r4)) by (eapply covered_later; [apply tick_later|done|exact Hc4]).
  pose proof (deliver_facts (ms_delivered os (rm_at r4)) gu4 (tick ot r4) Hc5) as H. destruct (deliver os _ gu4 (tick ot r4)) as [r' gu']. destruct H as [Hl5 Hc'].
  split; [|done]. etrans; [exact Hl'|]. etrans; [exact Hl4|]. etrans; [apply tick_later|done].
Qed.

Lemma mac_begin_facts first r : covered [] r ->
  let '(r', phase) := mac_begin os first r in r ≼[ot] r' /\ covered (mac_watched phase) r'.
Proof.
  intros Hc. unfold mac_begin, guard_check. assert (Ht : covered [] (tick ot r)) by (eapply covered_later; [apply tick_later|done|exact Hc]).
  assert (Hno : forall e, r ≼[ot] reply first (Err e) (tick ot r) /\ covered [] (reply first (Err e) (tick ot r)))
    by (intros e; split; [apply later_reply, tick_later|by apply covered_refusal]).
  destruct (check _ _ _) as [[]|e]; [|apply Hno]. destruct (negb (ms_listen_access _ _)); [apply Hno|].
  destruct (negb (ms_tap _ _) || negb (ms_source _ _)); [apply Hno|].
  pose proof (mac_admit_facts first {| gu_guards := []; gu_pressed := pressed_none; gu_healthy := true |} (tick ot r) eq_refl Ht) as H.
  destruct (mac_admit os first _ (tick ot r)) as [r' gu]. destruct H as (Hl & Hh & Hc'). split; [etrans; [apply tick_later|done]|]. cbn. by rewrite Hh.
Qed.

Lemma mac_step_facts s : covered (mac_watched s.2) s.1 -> s.1 ≼[ot] (mac_step os s).1 /\ covered (mac_watched (mac_step os s).2) (mac_step os s).1.
Proof.
  destruct s as [r [|gu|]]; cbn [fst snd mac_step]; intros Hc; [|pose proof (round_facts gu r Hc) as H; by destruct (monitor_round os gu r)|done].
  assert (Ht : covered [] (tick ot r)) by (eapply covered_later; [apply tick_later|done|exact Hc]).
  destruct (ms_received os (rm_at r)) as [g| |]; [|split; [apply tick_later|done]..].
  pose proof (mac_begin_facts g (tick ot r) Ht) as H. destruct (mac_begin os g (tick ot r)). destruct H. split; [etrans; [apply tick_later|done]|done].
Qed.

Lemma mac_run_facts rounds r : covered [] r ->
  r ≼[ot] (mac_activity_run os rounds r).1 /\ covered (mac_watched (mac_activity_run os rounds r).2) (mac_activity_run os rounds r).1.
Proof.
  intros Hc. unfold mac_activity_run. induction rounds as [|n [IHl IHc]]; [done|]. cbn [Nat.iter].
  destruct (mac_step_facts _ IHc). split; [by etrans|done].
Qed.

End Mac.


(** * Windows *)

Section Win.
Context (os : WinSystem).
Abbreviation ot := (ws_others os).

Definition win_watched (phase : WinPhase) : list GuardRef := match phase with WinPumping st => as_guards st | _ => [] end.

Lemma covered_fail st r : covered (as_guards st) r -> covered [] (activity_fail os st r).
Proof. apply covered_failed. Qed.
Lemma fail_later st r : r ≼[ot] activity_fail os st r.
Proof. apply each_guard_later, failed_later. Qed.

Lemma watchdog_facts st r : r ≼[ot] watchdog_turn os st r /\ rm_replies (watchdog_turn os st r) = rm_replies r.
Proof.
  unfold watchdog_turn. destruct (as_heartbeat st); [|split; [apply tick_later|done]]. destruct (_ && _); [|split; [apply tick_later|done]].
  split; [etrans; [apply tick_later|apply fail_later]|]. unfold activity_fail. by rewrite replies_each.
Qed.

Lemma covered_watchdog ws st r : covered ws r -> covered ws (watchdog_turn os st r).
Proof. intros. destruct (watchdog_facts st r). by eapply covered_later. Qed.

Lemma record_facts st r : r ≼[ot] activity_record os st r /\ rm_replies (activity_record os st r) = rm_replies r.
Proof. split; [apply each_guard_later, input_later|by apply replies_each]. Qed.

Lemma message_facts m st r : let '(r', st') := pump_message os m st r in
  r ≼[ot] r' /\ rm_replies r' = rm_replies r /\ as_guards st' = as_guards st.
Proof.
  assert (Hrec : forall st', as_guards st' = as_guards st ->
    r ≼[ot] activity_record os st' r /\ rm_replies (activity_record os st' r) = rm_replies r /\ as_guards st' = as_guards st)
    by (intros st' E; destruct (record_facts st' r); done).
  destruct m as [|nd ex vk fl|nd ex bf| |inj ex vk up|inj ex word md|]; cbn [pump_message negb orb andb]; [|destruct (own_raw_input _ _ _); [done|by apply Hrec]..| | | |done].
  - split; [apply fail_later|]. split; [by apply replies_each|done].
  - by apply Hrec.
  - destruct inj, (ex =? _); cbn [pump_message negb orb andb]; [done|by apply Hrec..].
  - destruct (hook_button word md) as [[k d]|], inj, (ex =? _); cbn [pump_message negb orb andb]; try done; by apply Hrec.
Qed.

Lemma messages_facts ms st r : covered (as_guards st) r ->
  let '(r', st') := pump_messages os ms st r in r ≼[ot] r' /\ covered (as_guards st') r'.
Proof.
  revert st r. induction ms as [|m ms IH]; intros st r Hc; cbn [pump_messages]; [done|]. destruct (watchdog_facts st r) as [Hw _].
  pose proof (message_facts m st (watchdog_turn os st r)) as H. destruct (pump_message os m st (watchdog_turn os st r)) as [r1 st1]. destruct H as (Hl & Hr & Hg).
  assert (Hc1 : covered (as_guards st1) r1) by (rewrite Hg; eapply covered_later; [exact Hl|done|by apply covered_watchdog]).
  specialize (IH st1 r1 Hc1). destruct (pump_messages os ms st1 r1) as [r' st']. destruct IH. split; [|done]. etrans; [exact Hw|by etrans].
Qed.

Lemma win_admit_facts g st r : covered (as_guards st) r ->
  let '(r', st') := win_admit os g st r in r ≼[ot] r' /\ covered (as_guards st') r'.
Proof.
  intros Hc. unfold win_admit. pose proof (admit_facts ot win_unavailable (activity_held st) g (as_guards st) r Hc) as H.
  by destruct (admit_guard _ _ _ _ _ _) as [r' gs].
Qed.

Lemma end_facts st r : covered (as_guards st) r -> r ≼[ot] end_pump os st r /\ covered [] (end_pump os st r).
Proof.
  intros Hc. unfold end_pump. destruct (watchdog_facts st r) as [Hl _].
  split; [etrans; [exact Hl|apply fail_later]|by apply covered_fail, covered_watchdog].
Qed.

Lemma pump_round_facts st r : covered (as_guards st) r ->
  let '(r', phase) := pump_round os st r in r ≼[ot] r' /\ covered (win_watched phase) r'.
Proof.
  intros Hc. unfold pump_round. assert (Ht : covered (as_guards st) (tick ot r)) by (eapply covered_later; [apply tick_later|done|exact Hc]).
  pose proof (messages_facts (take 256 (ws_messages os (rm_at r))) st (tick ot r) Ht) as H. destruct (pump_messages os _ st (tick ot r)) as [r1 st1]. destruct H as [Hl1 Hc1].
  destruct (watchdog_facts st1 r1) as [Hw _]. assert (Hl : r ≼[ot] watchdog_turn os st1 r1) by (etrans; [apply tick_later|]; by etrans).
  pose proof (covered_watchdog _ st1 _ Hc1) as Hc2. destruct (negb _ || negb _).
  { destruct (end_facts st1 (activity_fail os st1 (watchdog_turn os st1 r1))) as [He _].
    { intros g Hg. destruct (covered_fail st1 _ Hc2 g Hg) as [Hn|?]; [by apply not_elem_of_nil in Hn|by right]. }
    split; [etrans; [exact Hl|]; etrans; [apply fail_later|exact He]|]. unfold end_pump. cbn [win_watched].
    apply covered_fail, covered_watchdog. intros g Hg. destruct (covered_fail st1 _ Hc2 g Hg) as [Hn|?]; [by apply not_elem_of_nil in Hn|by right]. }
  pose proof (retain_facts ot (as_guards st1) (watchdog_turn os st1 r1)) as Hf. pose proof (covered_retain ot _ _ Hc2) as Hk.
  destruct (retain ot (as_guards st1) (watchdog_turn os st1 r1)) as [r3 gs]. destruct Hf as (Hl3 & _). assert (Hl' : r ≼[ot] r3) by (by etrans).
  set (st3 := {| st1 with as_guards := gs; as_heartbeat := _ |}). destruct gs as [|g0 gs0].
  { destruct (end_facts st3 r3 Hk). split; [by etrans|done]. }
  destruct (watchdog_facts st3 r3) as [Hw3 _]. destruct (ws_received os (rm_at r3)) as [g| |].
  - pose proof (win_admit_facts g st3 (watchdog_turn os st3 r3) (covered_watchdog _ st3 _ Hk)) as H. destruct (win_admit os g st3 _) as [r4 st4]. destruct H.
    split; [|done]. etrans; [exact Hl'|by etrans].
  - split; [by etrans|by apply covered_watchdog].
  - destruct (end_facts st3 r3 Hk). split; [by etrans|done].
Qed.

Lemma win_begin_facts first r : covered [] r ->
  let '(r', phase) := win_begin os first r in r ≼[ot] r' /\ covered (win_watched phase) r'.
Proof.
  intros Hc. unfold win_begin, guard_check. assert (Ht : covered [] (tick ot r)) by (eapply covered_later; [apply tick_later|done|exact Hc]).
  assert (Hno : forall e, r ≼[ot] reply first (Err e) (tick ot r) /\ covered [] (reply first (Err e) (tick ot r)))
    by (intros e; split; [apply later_reply, tick_later|by apply covered_refusal]).
  destruct (check _ _ _) as [[]|e]; [|apply Hno]. destruct (negb (ws_monitor _ _)); [apply Hno|]. destruct (negb (ws_watchdog _ _)); [apply Hno|].
  set (st := {| activity_default with as_heartbeat := _; as_physical := _ |}). pose proof (win_admit_facts first st (tick ot r) Ht) as H.
  destruct (win_admit os first st (tick ot r)). destruct H. split; [etrans; [apply tick_later|done]|done].
Qed.

Lemma win_run_facts rounds r : covered [] r ->
  r ≼[ot] (win_activity_run os rounds r).1 /\ covered (win_watched (win_activity_run os rounds r).2) (win_activity_run os rounds r).1.
Proof.
  intros Hc. unfold win_activity_run. induction rounds as [|n [IHl IHc]]; [done|]. cbn [Nat.iter].
  enough (H : forall s : Room * WinPhase, covered (win_watched s.2) s.1 -> s.1 ≼[ot] (win_step os s).1 /\ covered (win_watched (win_step os s).2) (win_step os s).1).
  { destruct (H _ IHc). split; [by etrans|done]. }
  clear. intros [r [|st|]]; cbn [fst snd win_step]; intros Hc; [|pose proof (pump_round_facts st r Hc) as H; by destruct (pump_round os st r)|done].
  assert (Ht : covered [] (tick ot r)) by (eapply covered_later; [apply tick_later|done|exact Hc]).
  destruct (ws_received os (rm_at r)) as [g| |]; [|split; [apply tick_later|done]..].
  pose proof (win_begin_facts g (tick ot r) Ht) as H. destruct (win_begin os g (tick ot r)). destruct H. split; [etrans; [apply tick_later|done]|done].
Qed.

(** The messages that are the program's own input, or none at all. *)
Definition ignored (m : PumpMessage) : bool :=
  match m with
  | RawKeyboard no_device extra _ _ | RawMouse no_device extra _ => no_device && (extra =? event_marker (ws_process_id os))
  | KeyboardHook injected extra _ _ | MouseHook injected extra _ _ => injected && (extra =? event_marker (ws_process_id os))
  | MessageOther => true
  | RawUnreadable | RawOther => false
  end.

Lemma message_effect m st r : if ignored m then pump_message os m st r = (r, st) else
  exists f, (pump_message os m st r).1 = each_guard f (as_guards st) r /\
    (f = guard_failed ot \/ exists held, f = guard_input ot held).
Proof.
  assert (Hrec : forall st', as_guards st' = as_guards st -> exists f, activity_record os st' r = each_guard f (as_guards st) r /\ (f = guard_failed ot \/ exists held, f = guard_input ot held)).
  { intros st' E. unfold activity_record. rewrite E. eexists. split; [done|]. right. eauto. }
  destruct m as [|nd ex vk fl|nd ex bf| |inj ex vk up|inj ex word md|]; cbn [pump_message ignored negb orb andb]; unfold own_raw_input.
  - eexists. split; [done|by left].
  - destruct (nd && _); [done|by apply Hrec].
  - destruct (nd && _); [done|by apply Hrec].
  - by apply Hrec.
  - destruct inj, (ex =? _); cbn [negb orb andb]; [done|by apply Hrec..].
  - destruct (hook_button word md) as [[k d]|], inj, (ex =? _); cbn [negb orb andb]; try done; by apply Hrec.
  - done.
Qed.

End Win.


(** * What the words stand for *)

Definition word64 (w : Z) : Prop := 0 <= w < 2 ^ 64.
Definition keys_wf (keys : list Z) : Prop := length keys = 4%nat /\ Forall word64 keys.

Lemma testbit_one k j : 0 <= k -> Z.testbit (Z.shiftl 1 k) j = (j =? k).
Proof. intros Hk. rewrite Z.shiftl_1_l, Z.pow2_bits_eqb by done. by rewrite Z.eqb_sym. Qed.

Lemma land_one w k : 0 <= k -> negb (Z.land w (Z.shiftl 1 k) =? 0) = Z.testbit w k.
Proof.
  intros Hk. destruct (Z.testbit w k) eqn:E.
  - apply negb_true_iff, Z.eqb_neq. intros H0. apply (f_equal (fun x => Z.testbit x k)) in H0.
    rewrite Z.land_spec, testbit_one, E, Z.eqb_refl, Z.bits_0 in H0 by done. done.
  - apply negb_false_iff, Z.eqb_eq, Z.bits_inj'. intros j Hj. rewrite Z.land_spec, testbit_one, Z.bits_0 by done.
    destruct (Z.eqb_spec j k) as [->|]; [by rewrite E|by rewrite andb_false_r].
Qed.

(** A word of [n] bits, by its bits. *)
Lemma word_bits n w : 0 <= n -> 0 <= w -> (w < 2 ^ n <-> forall j, n <= j -> Z.testbit w j = false).
Proof.
  intros Hn Hw. split.
  - intros Hlt j Hj. destruct (decide (w = 0)) as [->|]; [apply Z.bits_0|]. apply Z.bits_above_log2; [done|].
    apply Z.log2_lt_pow2 in Hlt; lia.
  - intros H. destruct (decide (w = 0)) as [->|]; [by apply Z.pow_pos_nonneg|]. apply Z.log2_lt_pow2; [lia|].
    destruct (Z.le_gt_cases n (Z.log2 w)); [|done]. pose proof (Z.bit_log2 w ltac:(lia)). by rewrite H in *.
Qed.

Lemma word_some_bit n w : 0 <= n -> 0 <= w < 2 ^ n -> w <> 0 <-> exists j, 0 <= j < n /\ Z.testbit w j = true.
Proof.
  intros Hn [Hw Hlt]. split.
  - intros H0. exists (Z.log2 w). pose proof (Z.log2_nonneg w). split; [|apply Z.bit_log2; lia]. split; [done|]. apply Z.log2_lt_pow2; lia.
  - intros (j & _ & Hj) ->. by rewrite Z.bits_0 in Hj.
Qed.

(** A bit that is set or cleared. *)
Definition put_bit (w k : Z) (down : bool) : Z := if down then Z.lor w (Z.shiftl 1 k) else Z.ldiff w (Z.shiftl 1 k).

Lemma put_bit_spec w k down j : 0 <= k -> Z.testbit (put_bit w k down) j = if j =? k then down else Z.testbit w j.
Proof.
  intros Hk. unfold put_bit. destruct down; [rewrite Z.lor_spec|rewrite Z.ldiff_spec]; rewrite testbit_one by done;
    destruct (j =? k); cbn; by rewrite ?orb_true_r, ?orb_false_r, ?andb_true_r, ?andb_false_r.
Qed.

Lemma put_bit_word n w k down : 0 <= k < n -> 0 <= w < 2 ^ n -> 0 <= put_bit w k down < 2 ^ n.
Proof.
  intros Hk [Hw Hlt].
  assert (H0 : 0 <= put_bit w k down).
  { unfold put_bit. destruct down; [apply Z.lor_nonneg; split; [done|apply Z.shiftl_nonneg; lia]|apply Z.ldiff_nonneg; by left]. }
  split; [done|]. apply word_bits; [lia|done|]. intros j Hj. rewrite put_bit_spec by lia. destruct (Z.eqb_spec j k); [lia|].
  eapply word_bits; [| |exact Hlt|]; lia.
Qed.

Lemma confirm_bits_spec down n w : 0 <= n -> 0 <= w < 2 ^ n ->
  0 <= confirm_bits down (seqZ 0 n) w < 2 ^ n /\ forall j, Z.testbit (confirm_bits down (seqZ 0 n) w) j = Z.testbit w j && down j.
Proof.
  intros Hn Hw.
  enough (H : forall bits w, Forall (fun b => 0 <= b < n) bits -> 0 <= w < 2 ^ n -> 0 <= confirm_bits down bits w < 2 ^ n /\
    forall j, Z.testbit (confirm_bits down bits w) j = Z.testbit w j && (down j || bool_decide (j ∉ bits))).
  { destruct (H (seqZ 0 n) w) as [H1 H2]; [apply Forall_forall; intros b Hb%elem_of_seqZ; lia|done|]. split; [done|]. intros j. rewrite H2.
    destruct (Z.testbit w j) eqn:E; [|done]. cbn. rewrite bool_decide_eq_false_2; [by rewrite orb_false_r|]. intros Hj. apply Hj, elem_of_seqZ.
    destruct (Z.le_gt_cases 0 j); [|by rewrite Z.testbit_neg_r in E]. split; [done|]. destruct (Z.le_gt_cases n j); [|lia].
    by rewrite (proj1 (word_bits n w Hn (proj1 Hw)) (proj2 Hw) j) in E. }
  clear w Hw. intros bits. induction bits as [|b bits IH]; intros w Hb Hw.
  { cbn. split; [done|]. intros j. rewrite bool_decide_eq_true_2 by apply not_elem_of_nil. by rewrite orb_true_r, andb_true_r. }
  apply Forall_cons in Hb as [Hb Hbs]. cbn [confirm_bits fold_left]. fold (confirm_bits down bits).
  set (w1 := if negb _ && negb _ then _ else w).
  assert (Hw1 : w1 = if down b then w else put_bit w b false).
  { unfold w1. rewrite land_one by lia. destruct (down b); cbn [negb]; [by rewrite andb_false_r|]. rewrite andb_true_r.
    destruct (Z.testbit w b) eqn:E; [done|]. apply Z.bits_inj'. intros j Hj. rewrite put_bit_spec by lia. by destruct (Z.eqb_spec j b) as [->|]. }
  rewrite Hw1. destruct (IH (if down b then w else put_bit w b false) Hbs) as [H1 H2]; [destruct (down b); [done|by apply put_bit_word]|].
  split; [done|]. intros j. rewrite H2. destruct (decide (j = b)) as [->|Hne].
  - rewrite (bool_decide_eq_false_2 (b ∉ b :: bits)) by (intros Hx; apply Hx; by left). destruct (down b) eqn:Ed; cbn [orb]; [done|].
    by rewrite put_bit_spec, Z.eqb_refl, andb_false_r by lia.
  - assert (Hj : Z.testbit (if down b then w else put_bit w b false) j = Z.testbit w j).
    { destruct (down b); [done|]. rewrite put_bit_spec by lia. by destruct (Z.eqb_spec j b). }
    rewrite Hj. do 2 f_equal. apply bool_decide_ext. rewrite not_elem_of_cons. naive_solver.
Qed.

Lemma set_key_spec keys code down : keys_wf keys -> 0 <= code < 256 ->
  keys_wf (set_key keys code down) /\ forall c, key_down (set_key keys code down) c = if c =? code then down else key_down keys c.
Proof.
  intros [Hlen Hw] Hc. unfold set_key. pose proof (Z.mod_pos_bound code 64 ltac:(lia)). pose proof (Z.div_mod code 64 ltac:(lia)).
  assert (Hq : 0 <= code / 64 < 4) by (split; [apply Z.div_pos; lia|apply Z.div_lt_upper_bound; lia]).
  change (fun word => if down then _ else _) with (fun word => put_bit word (code mod 64) down). split.
  - split; [by rewrite length_alter|]. apply Forall_alter; [done|]. intros x Hx Hin. by apply put_bit_word.
  - intros c. unfold key_down. destruct (Z.eqb_spec c code) as [->|Hne].
    + rewrite (proj2 (Z.leb_le 0 code)), (proj2 (Z.ltb_lt code 256)) by lia. cbn.
      destruct (lookup_lt_is_Some_2 keys (Z.to_nat (code / 64))) as [w Hl]; [lia|]. rewrite list_lookup_alter_eq, Hl. cbn [fmap option_fmap option_map].
      rewrite put_bit_spec by lia. by rewrite Z.eqb_refl.
    + destruct ((0 <=? c) && (c <? 256)) eqn:Ec; [|done]. cbn. destruct (decide (Z.to_nat (code / 64) = Z.to_nat (c / 64))) as [Heq|Hd].
      * rewrite <- Heq, list_lookup_alter_eq. destruct (keys !! Z.to_nat (code / 64)) as [w|]; [|done]. cbn [fmap option_fmap option_map]. rewrite put_bit_spec by lia.
        destruct (Z.eqb_spec (c mod 64) (code mod 64)) as [Hm|]; [|done]. exfalso. apply Hne.
        apply andb_true_iff in Ec as [Ec%Z.leb_le _]. pose proof (Z.div_pos c 64 Ec ltac:(lia)). rewrite (Z.div_mod c 64), (Z.div_mod code 64) by lia. lia.
      * by rewrite list_lookup_alter_ne.
Qed.

Lemma any_key_spec keys : keys_wf keys -> any_key keys = true <-> exists c, key_down keys c = true.
Proof.
  intros [Hlen Hw]. unfold any_key. rewrite existsb_exists. split.
  - intros (w & Hin%list_elem_of_In & Hn%negb_true_iff%Z.eqb_neq). apply list_elem_of_lookup in Hin as [i Hi].
    assert (Hw' : word64 w) by (eapply Forall_lookup_1; done). apply (word_some_bit 64 w ltac:(lia) Hw') in Hn as (j & Hj & Hb).
    pose proof (lookup_lt_Some _ _ _ Hi). exists (Z.of_nat i * 64 + j). unfold key_down.
    rewrite (proj2 (Z.leb_le 0 _)), (proj2 (Z.ltb_lt _ 256)) by lia. cbn.
    rewrite Z.div_add_l, (Z.div_small j 64), Z.add_0_r, Nat2Z.id, Hi by lia. by rewrite Z.add_comm, Z_mod_plus_full, Z.mod_small by lia.
  - intros [c Hc]. unfold key_down in Hc. apply andb_true_iff in Hc as [_ Hc]. destruct (keys !! Z.to_nat (c / 64)) as [w|] eqn:E; [|done].
    exists w. split; [apply list_elem_of_In; by eapply list_elem_of_lookup_2|]. apply negb_true_iff, Z.eqb_neq. intros ->. by rewrite Z.bits_0 in Hc.
Qed.

(** ** The sets of pressed keys and buttons *)

Inductive TrackOp :=
| TrackEvent (kind : EventKind) (code : Z) (flags : list EventFlag)
| TrackHardware (down_key down_button : Z -> bool) (flags : list EventFlag).

Definition track_op (p : PressedInputs) (op : TrackOp) : PressedInputs :=
  match op with
  | TrackEvent kind code flags => pressed_update p kind code flags
  | TrackHardware down_key down_button flags => reconcile_releases down_key down_button flags p
  end.

(** What is tracked, as sets: an event sets or clears its own code when that is
    in range, and the hardware may only take away. *)
Record Tracked := { tr_keys : Z -> bool; tr_buttons : Z -> bool; tr_modifiers : bool }.
Definition tracked_none : Tracked := {| tr_keys := fun _ => false; tr_buttons := fun _ => false; tr_modifiers := false |}.

Definition put (set : Z -> bool) (bound code : Z) (down : bool) : Z -> bool :=
  fun c => if (c =? code) && (0 <=? code) && (code <? bound) then down else set c.

Definition tracked_op (s : Tracked) (op : TrackOp) : Tracked :=
  match op with
  | TrackEvent kind code flags =>
      {| tr_keys := match kind with KeyDown => put (tr_keys s) 256 code true | KeyUp => put (tr_keys s) 256 code false | _ => tr_keys s end;
         tr_buttons := match kind with
           | LeftMouseDown | RightMouseDown | OtherMouseDown => put (tr_buttons s) 32 code true
           | LeftMouseUp | RightMouseUp | OtherMouseUp => put (tr_buttons s) 32 code false
           | _ => tr_buttons s end;
         tr_modifiers := holds_modifier flags |}
  | TrackHardware down_key down_button flags =>
      {| tr_keys := fun c => tr_keys s c && down_key c; tr_buttons := fun b => tr_buttons s b && down_button b;
         tr_modifiers := holds_modifier flags && tr_modifiers s |}
  end.

Definition tracks (p : PressedInputs) (s : Tracked) : Prop :=
  keys_wf (pi_keys p) /\ 0 <= pi_buttons p < 2 ^ 32 /\
  (forall c, key_down (pi_keys p) c = tr_keys s c) /\ (forall b, Z.testbit (pi_buttons p) b = tr_buttons s b) /\ pi_modifiers p = tr_modifiers s.

Lemma tracks_key p s code down m : tracks p s ->
  tracks (let p := {| p with pi_modifiers := m |} in if (0 <=? code) && (code <? 256) then {| p with pi_keys := set_key (pi_keys p) code down |} else p)
    {| s with tr_keys := put (tr_keys s) 256 code down; tr_modifiers := m |}.
Proof.
  intros (Hk & Hb & Hks & Hbs & _). unfold put. destruct ((0 <=? code) && (code <? 256)) eqn:E.
  - pose proof E as [Hlo%Z.leb_le Hhi%Z.ltb_lt]%andb_prop. destruct (set_key_spec (pi_keys p) code down Hk ltac:(lia)) as [Hw Hs].
    split_and!; cbn [pi_keys pi_buttons pi_modifiers tr_keys tr_buttons tr_modifiers]; try done; try lia. intros c. rewrite Hs, <- andb_assoc, E, andb_true_r. by rewrite Hks.
  - split_and!; cbn [pi_keys pi_buttons pi_modifiers tr_keys tr_buttons tr_modifiers]; try done; try lia. intros c. by rewrite <- andb_assoc, E, andb_false_r.
Qed.

Lemma tracks_button p s code down m : tracks p s ->
  tracks (let p := {| p with pi_modifiers := m |} in if (0 <=? code) && (code <? 32) then {| p with pi_buttons := put_bit (pi_buttons p) code down |} else p)
    {| s with tr_buttons := put (tr_buttons s) 32 code down; tr_modifiers := m |}.
Proof.
  intros (Hk & Hb & Hks & Hbs & _). unfold put. destruct ((0 <=? code) && (code <? 32)) eqn:E.
  - pose proof E as [Hlo%Z.leb_le Hhi%Z.ltb_lt]%andb_prop. pose proof (put_bit_word 32 (pi_buttons p) code down (conj Hlo Hhi) Hb).
    split_and!; cbn [pi_keys pi_buttons pi_modifiers tr_keys tr_buttons tr_modifiers]; try done; try lia.
    intros b. rewrite put_bit_spec, <- andb_assoc, E, andb_true_r by done. by rewrite Hbs.
  - split_and!; cbn; try done; try lia. intros b. by rewrite <- andb_assoc, E, andb_false_r.
Qed.

Lemma tracks_op p s op : tracks p s -> tracks (track_op p op) (tracked_op s op).
Proof.
  intros H. destruct op as [kind code flags|dk db flags].
  - cbn [track_op tracked_op]. unfold pressed_update.
    destruct kind; first [by apply (tracks_key p s code true)|by apply (tracks_key p s code false)|by apply (tracks_button p s code true)
      |by apply (tracks_button p s code false)|destruct H as (? & [? ?] & ? & ? & _); by split_and!].
  - destruct H as ([Hlen Hw] & Hb & Hks & Hbs & Hm). cbn [track_op tracked_op]. unfold reconcile_releases.
    destruct (confirm_bits_spec db 32 (pi_buttons p) ltac:(lia) Hb) as [Hb1 Hb2].
    split_and!; cbn [pi_keys pi_buttons pi_modifiers tr_keys tr_buttons tr_modifiers]; try lia; [split; [by rewrite length_imap|]| | |by rewrite Hm].
    + apply Forall_lookup. intros i w. rewrite list_lookup_imap. intros (w0 & Hi & ->)%fmap_Some. apply (confirm_bits_spec _ 64); [lia|]. by apply (Forall_lookup_1 word64 (pi_keys p) i).
    + intros c. rewrite <- Hks. unfold key_down. rewrite list_lookup_imap. destruct ((0 <=? c) && (c <? 256)) eqn:E; [|done]. cbn.
      destruct (pi_keys p !! Z.to_nat (c / 64)) as [w|] eqn:Ew; [|done]. cbn. apply andb_prop in E as [E%Z.leb_le _].
      rewrite (proj2 (confirm_bits_spec _ 64 w ltac:(lia) ltac:(by eapply (Forall_lookup_1 word64)))). f_equal. f_equal.
      rewrite Z2Nat.id by (apply Z.div_pos; lia). pose proof (Z.div_mod c 64). lia.
    + intros b. by rewrite Hb2, Hbs.
Qed.

(** The trackers are exact.  After any sequence of events and hardware
    reconciliations the macOS tracker's words, always within their widths, are
    the sets of keys and buttons that went down and were neither released nor
    taken away by the hardware, and it reports held input exactly when one of
    them or a modifier is down; the same for the keys the Windows tracker was
    told of, with left and right modifiers as one key. *)
Theorem tracked_input_exact ops keys :
  Forall (fun k => 0 <= k.1) keys ->
  let p := fold_left track_op ops pressed_none in
  let s := fold_left tracked_op ops tracked_none in
  tracks p s /\
  (pressed_held p = true <-> tr_modifiers s = true \/ (exists b, tr_buttons s b = true) \/ exists c, tr_keys s c = true) /\
  let words := fold_left (fun ws k => win_update ws k.1 k.2) keys no_keys in
  let set := fold_left (fun set k => put set 256 (generic_key k.1) k.2) keys (fun _ => false) in
  keys_wf words /\ (forall c, key_down words c = set c) /\ (any_key words = true <-> exists c, set c = true).
Proof.
  intros Hkeys.
  assert (Hnone : keys_wf no_keys /\ forall c, key_down no_keys c = false).
  { split; [split; [done|apply (Forall_replicate word64 4 0); done]|]. intros c. unfold key_down. destruct ((0 <=? c) && (c <? 256)); [|done]. unfold no_keys.
    destruct ([0; 0; 0; 0] !! Z.to_nat (c / 64)) as [w|] eqn:E; [|done]. apply list_elem_of_lookup_2 in E. assert (w = 0) as -> by set_solver. apply Z.bits_0. }
  assert (Hp : tracks (fold_left track_op ops pressed_none) (fold_left tracked_op ops tracked_none)).
  { enough (H : forall p s, tracks p s -> tracks (fold_left track_op ops p) (fold_left tracked_op ops s)).
    - apply H. destruct Hnone. split_and!; try done. intros b. apply Z.bits_0.
    - induction ops as [|op ops IH]; intros p s Hps; [done|]. apply IH. by apply tracks_op. }
  cbn zeta. split; [done|]. split.
  - destruct Hp as (Hk & Hb & Hks & Hbs & Hm). unfold pressed_held. rewrite !orb_true_iff, (any_key_spec _ Hk), Hm, negb_true_iff, Z.eqb_neq, (word_some_bit 32) by lia.
    setoid_rewrite Hks. setoid_rewrite Hbs. split; [intros [[?|(j & _ & ?)]|?]; eauto|]. intros [?|[(j & Hj)|?]]; [by do 2 left| |by right]. left. right. exists j.
    split; [|done]. rewrite <- Hbs in Hj. destruct (Z.le_gt_cases 0 j); [|by rewrite Z.testbit_neg_r in Hj]. split; [done|]. destruct (Z.le_gt_cases 32 j); [|done].
    rewrite (proj1 (word_bits 32 _ ltac:(lia) (proj1 Hb)) (proj2 Hb) j) in Hj by done. done.
  - assert (H : forall ws set, keys_wf ws -> (forall c, key_down ws c = set c) ->
      keys_wf (fold_left (fun ws k => win_update ws k.1 k.2) keys ws) /\
      forall c, key_down (fold_left (fun ws k => win_update ws k.1 k.2) keys ws) c = fold_left (fun set k => put set 256 (generic_key k.1) k.2) keys set c).
    { induction Hkeys as [|[k d] keys Hk _ IH]; intros ws set Hw Hs; [done|]. cbn [fold_left fst snd]. assert (Hg : 0 <= generic_key k) by (unfold generic_key; cbn in Hk; repeat case_match; lia).
      unfold win_update at 2 4. unfold put at 2. destruct (Z.ltb_spec (generic_key k) 256) as [Hlt|Hge].
      - destruct (set_key_spec ws (generic_key k) d Hw ltac:(lia)) as [Hw1 Hs1]. apply IH; [done|]. intros c. rewrite Hs1, Hs.
        by rewrite (proj2 (Z.leb_le 0 _)), !andb_true_r by done.
      - apply IH; [done|]. intros c. by rewrite andb_false_r. }
    destruct (H no_keys (fun _ => false)) as [Hw Hs]; [by destruct Hnone..|]. split; [done|]. split; [done|]. rewrite (any_key_spec _ Hw). by setoid_rewrite Hs.
Qed.

(** * A protected session *)

Module Watch.
Definition quiet : Others := {| ot_events := fun _ => []; ot_late := fun _ => 1 |}.

(** Lease 0 is the one that is registered, lease 1 has dispatched. *)
Definition history : list guard_event := [EvNew; EvNew; EvBegin 1 None 5].
Definition cell : GuardState := default (guard_init false 0) (run_events (guard_init false 1000000000000) history).
Definition room : Room := {| rm_cells := fun _ => cell; rm_time := 10; rm_at := 0; rm_replies := [] |}.

Lemma cell_inv sid : guard_inv (rm_cells room sid).
Proof. apply (run_events_inv history (guard_init false 1000000000000)); [apply guard_init_inv|reflexivity]. Qed.

Definition mac : MacSystem := {|
  ms_others := quiet; ms_received := fun n => if (n =? 0)%nat then Got (0%nat, 0%nat) else NoneYet; ms_listen_access := fun _ => true;
  ms_tap := fun _ => true; ms_source := fun _ => true; ms_tap_enabled := fun _ => true; ms_key_state := fun _ _ => true; ms_button_state := fun _ _ => true;
  ms_flags_state := fun _ => []; ms_delivered := fun _ => []; ms_process_id := 77 |}.

Definition key_event : TapEvent := {| te_kind := KeyDown; te_source_pid := 0; te_user_data := 0; te_keycode := 12; te_button := 0; te_flags := [] |}.


Definition win : WinSystem := {|
  ws_others := quiet; ws_received := fun n => if (n =? 0)%nat then Got (0%nat, 0%nat) else NoneYet; ws_monitor := fun _ => true; ws_watchdog := fun _ => true;
  ws_wakes := fun _ => true; ws_key_down := fun _ _ => false; ws_desktop := fun _ => Some [68; 101; 102; 97; 117; 108; 116; 0];
  ws_devices := fun _ => Some [{| rd_page := 1; rd_usage := 2; rd_own_window := true; rd_inputsink := true |}; {| rd_page := 1; rd_usage := 6; rd_own_window := true; rd_inputsink := true |}];
  ws_messages := fun _ => []; ws_process_id := 77 |}.


Lemma tracked_input_exact_witness :
  let p := fold_left track_op [TrackEvent KeyDown 12 [FlagCommand]; TrackEvent KeyDown 200 []; TrackHardware (fun k => k =? 200) (fun _ => true) []] pressed_none in
  pressed_held p = true /\ keys_wf (pi_keys p) /\ any_key (fold_left (fun ws k => win_update ws k.1 k.2) [(0xa2, true); (0x11, false)] no_keys) = false.
Proof.
  destruct (tracked_input_exact [TrackEvent KeyDown 12 [FlagCommand]; TrackEvent KeyDown 200 []; TrackHardware (fun k => k =? 200) (fun _ => true) []] [(0xa2, true); (0x11, false)])
    as [(Hw & _) _]; [repeat (constructor; [cbn; lia|]); constructor|].
  split; [vm_compute; reflexivity|]. split; [exact Hw|vm_compute; reflexivity].
Defined.
End Watch.
