(* ===== verification/Clipboard.v ===== *)
(** The serialized clipboard actors of the platform drivers:
    [src/crates/platform/src/macos/clipboard.rs] and [windows/clipboard.rs].

    On macOS other programs may change the pasteboard before every operation;
    on Windows only while the clipboard is not open.  What native calls answer
    is a function of the position in the run.  Text crosses the Windows
    clipboard as UTF-16 in global memory: [from_utf16] is the decoding, and the
    block may be longer than what was copied to it. *)

From Stdlib Require Import Ascii String.
From stdpp Require Import pretty.
From S2P Require Import Prelude Floats Geometry Text Protocol Errors Driver InputText.
#[local] Open Scope Z_scope.

(** * UTF-8 and UTF-16 *)

Definition byte_char (b : Z) : ascii := ascii_of_N (Z.to_N b).

(** The UTF-8 encoding of a character. *)
Definition utf8_of (c : Z) : string :=
  if c <? 128 then String (byte_char c) ""
  else if c <? 2048 then String (byte_char (192 + c / 64)) (String (byte_char (128 + c mod 64)) "")
  else if c <? 65536 then
    String (byte_char (224 + c / 4096)) (String (byte_char (128 + c / 64 mod 64)) (String (byte_char (128 + c mod 64)) ""))
  else
    String (byte_char (240 + c / 262144)) (String (byte_char (128 + c / 4096 mod 64))
      (String (byte_char (128 + c / 64 mod 64)) (String (byte_char (128 + c mod 64)) ""))).

Definition utf8 (cs : list Z) : string := foldr (fun c s => utf8_of c +:+ s) "" cs.

Definition is_low_surrogate (u : Z) : bool := (56320 <=? u) && (u <=? 57343).

Fixpoint decode_utf16 (units : list Z) : option (list Z) :=
  match units with
  | [] => Some []
  | u :: rest =>
      if is_high_surrogate u then
        match rest with
        | l :: rest => if is_low_surrogate l then cons (65536 + (u - 55296) * 1024 + (l - 56320)) <$> decode_utf16 rest else None
        | [] => None
        end
      else if is_low_surrogate u then None
      else cons u <$> decode_utf16 rest
  end.

(** [String::from_utf16]. *)
Definition from_utf16 (units : list Z) : option string := utf8 <$> decode_utf16 units.

(** * Commands *)

Definition CLIPBOARD_CAPACITY : nat := 8.

Inductive ClipboardCommand :=
| ClipRead (max_text_bytes : Z)
| ClipWrite (expected_change_marker : string) (text : SensitiveText) (max_text_bytes : Z).

Definition clipboard_failure (message : string) : DriverError := driver_error DPlatform message.

(** [ClipboardActor::try_send], on the queue of the actor; [None] is an actor
    whose thread is gone. *)
Definition clip_send (busy stopped : DriverError) (queue : option (list ClipboardCommand)) (command : ClipboardCommand)
    : Result (list ClipboardCommand) DriverError :=
  let refused e := Err (match command with ClipWrite _ _ _ => mutation_not_dispatched e | ClipRead _ => e end) in
  match queue with
  | None => refused stopped
  | Some pending => if (length pending <? CLIPBOARD_CAPACITY)%nat then Ok (pending ++ [command]) else refused (de_with_retry busy "retry_with_backoff")
  end.

Definition has_nul (text : string) : bool := has_char "000"%char text.

Inductive ClipboardReply :=
| ReplyRead (r : Result DriverClipboardSnapshot DriverError)
| ReplyWrite (r : Result DriverClipboardWriteOutput DriverError).

Definition native_readback (change_marker : string) : DriverClipboardWriteOutput :=
  {| dcw_change_marker := change_marker; dcw_effect_status := Confirmed; dcw_evidence_kind := NativeReadback |}.

(** * macOS *)

(** What was asked of the pasteboard, with its answers. *)
Inductive PasteLog := AskedCount (count : Z) | AskedText (text : option string) | Cleared | TextSet (text : string) (accepted : bool).

Record Pasteboard := { pb_count : Z; pb_text : option string; pb_at : nat; pb_log : list PasteLog }.

(** [ps_others] is what others left on the pasteboard before an operation,
    if they changed it; [ps_next] the count after a replacement. *)
Record PasteSystem := { ps_others : nat -> option (Z * option string); ps_next : nat -> Z; ps_accepts : nat -> bool }.

Definition mac_marker (change_count : Z) : string := "macos:" +:+ pretty change_count.

Section Mac.
Context (os : PasteSystem).
Abbreviation Paste A := (@Act Pasteboard A).

Definition paste_turn (w : Pasteboard) : Pasteboard :=
  match ps_others os (pb_at w) with
  | Some (count, text) => {| w with pb_count := count; pb_text := text; pb_at := S (pb_at w) |}
  | None => {| w with pb_at := S (pb_at w) |}
  end.

Definition noted (entry : PasteLog) (w : Pasteboard) : Pasteboard := {| w with pb_log := pb_log w ++ [entry] |}.

Definition change_count : Paste Z := fun w => let w := paste_turn w in (noted (AskedCount (pb_count w)) w, Ok (pb_count w)).
Definition string_for_type : Paste (option string) := fun w => let w := paste_turn w in (noted (AskedText (pb_text w)) w, Ok (pb_text w)).
Definition clear_contents : Paste unit := fun w =>
  let w := paste_turn w in (noted Cleared {| w with pb_count := ps_next os (pb_at w); pb_text := None |}, Ok tt).
Definition set_string (text : string) : Paste bool := fun w =>
  let w := paste_turn w in
  if ps_accepts os (pb_at w) then (noted (TextSet text true) {| w with pb_text := Some text |}, Ok true) else (noted (TextSet text false) w, Ok false).

Definition mac_clip_read (max_text_bytes : Z) : Paste DriverClipboardSnapshot :=
  let& count := change_count in
  let& text := string_for_type in
  if match text with Some value => max_text_bytes <? slen value | None => false end then
    ierr (driver_error DPlatform "macOS clipboard text exceeds the configured byte bound")
  else iret {| dcs_change_marker := mac_marker count; dcs_text := text |}.

Definition mac_clip_write (expected_change_marker text : string) (max_text_bytes : Z) : Paste DriverClipboardWriteOutput :=
  if (max_text_bytes <? slen text) || has_nul text then
    ierr (mutation_not_dispatched (driver_error DPlatform "macOS clipboard text violates the configured bound")) else
  let& count := change_count in
  if negb (str_eqb (mac_marker count) expected_change_marker) then
    ierr (mutation_not_dispatched (de_with_retry (driver_error DStaleClipboard "macOS clipboard changed after it was read") "read_clipboard_again")) else
  clear_contents ;&
  let& accepted := set_string text in
  if negb accepted then ierr (mutation_indeterminate (clipboard_failure "macOS clipboard rejected text after replacement began")) else
  let& read := string_for_type in
  if negb (match read with Some value => str_eqb value text | None => false end) then
    ierr (mutation_indeterminate (clipboard_failure "macOS clipboard read-back did not confirm the replacement")) else
  let& count := change_count in
  iret (native_readback (mac_marker count)).

(** [ClipboardState::run] on one command. *)
Definition mac_clip_command (c : ClipboardCommand) (w : Pasteboard) : Pasteboard * ClipboardReply :=
  match c with
  | ClipRead max => let '(w, r) := mac_clip_read max w in (w, ReplyRead r)
  | ClipWrite expected text max => let '(w, r) := mac_clip_write expected text max w in (w, ReplyWrite r)
  end.

End Mac.

(** * Windows *)

(** A block of global memory: whole UTF-16 units, and perhaps a last byte. *)
Record Memory := { me_units : list Z; me_odd : bool }.
Definition GlobalSize (m : Memory) : Z := 2 * Z.of_nat (length (me_units m)) + (if me_odd m then 1 else 0).

Inductive ClipLog := ClipEmptied | ClipPlaced (handle : nat).

Record WinClip := {
  cb_sequence : Z;
  cb_text : option Memory;
  cb_open : bool;
  cb_at : nat;
  cb_handle : nat;
  cb_blocks : gmap nat Memory;
  cb_log : list ClipLog;
}.

(** What the system answers: [cl_others] is the clipboard others left when it
    could be opened; [cl_alloc] what an allocation has beyond the units asked
    for. *)
Record ClipSystem := {
  cl_opens : nat -> bool;
  cl_others : nat -> option (Z * option Memory);
  cl_data : nat -> bool;
  cl_locks : nat -> bool;
  cl_alloc : nat -> option Memory;
  cl_empties : nat -> bool;
  cl_places : nat -> bool;
  cl_next : nat -> Z;
}.

Definition win_marker (sequence : Z) : string := "windows:" +:+ pretty sequence.

Section Win.
Context (os : ClipSystem).
Abbreviation Clip A := (@Act WinClip A).

Definition clip_tick (w : WinClip) : WinClip := {| w with cb_at := S (cb_at w) |}.
Definition clip_ask {A} (f : nat -> A) : Clip A := fun w => (clip_tick w, Ok (f (cb_at w))).
Definition clip_raise {A} (r : Result A DriverError) : Clip A := fun w => (w, r).

(** [OpenClipboardGuard::new]; others act until it is open. *)
Definition open_clipboard : Clip unit := fun w =>
  let w1 := match cl_others os (cb_at w) with Some (sequence, text) => {| w with cb_sequence := sequence; cb_text := text |} | None => w end in
  if cl_opens os (cb_at w) then (clip_tick {| w1 with cb_open := true |}, Ok tt)
  else (clip_tick w1, Err (de_with_retry (driver_error DBusy "Windows clipboard is in use") "retry_with_backoff")).

Definition close_clipboard : Clip unit := fun w => ({| w with cb_open := false |}, Ok tt).

(** The guard closes the clipboard however its scope ends. *)
Definition while_open {A} (body : Clip A) : Clip A := ikeep body (fun r => close_clipboard ;& clip_raise r).

Definition current_marker : Clip string := fun w => (w, Ok (win_marker (cb_sequence w))).

(** [read_open_clipboard]. *)
Definition read_units (max_text_bytes : Z) (m : Memory) : Result (option string) DriverError :=
  let available_units := GlobalSize m / 2 in
  let inspected_units := Z.min available_units (Z.min (max_text_bytes + 1) USIZE_MAX) in
  let units := take (Z.to_nat inspected_units) (me_units m) in
  match list_find (fun u => u = 0) units with
  | None => Err (clipboard_failure "Windows clipboard text exceeds the configured byte bound or lacks a terminator")
  | Some (terminator, _) =>
      match from_utf16 (take terminator units) with
      | None => Err (clipboard_failure "Windows clipboard text is not valid UTF-16")
      | Some text =>
          if max_text_bytes <? slen text then Err (clipboard_failure "Windows clipboard text exceeds the configured byte bound")
          else Ok (Some text)
      end
  end.

Definition read_open_clipboard (max_text_bytes : Z) : Clip (option string) := fun w =>
  match cb_text w with
  | None => (clip_tick w, Ok None)
  | Some m =>
      (let& data := clip_ask (cl_data os) in
       if negb data then ierr (clipboard_failure "Windows clipboard text handle is unavailable") else
       if GlobalSize m <? 2 then ierr (clipboard_failure "Windows clipboard text allocation is malformed") else
       let& locked := clip_ask (cl_locks os) in
       if negb locked then ierr (clipboard_failure "Windows clipboard text could not be locked") else
       clip_raise (read_units max_text_bytes m)) w
  end.

Definition win_clip_read (max_text_bytes : Z) : Clip DriverClipboardSnapshot :=
  open_clipboard ;&
  while_open (
    let& text := read_open_clipboard max_text_bytes in
    let& change_marker := current_marker in
    iret {| dcs_change_marker := change_marker; dcs_text := text |}).

(** [GlobalMemory::allocate], [copy_utf16] and [Drop]. *)
Definition allocate (byte_length : Z) : Clip nat := fun w =>
  match cl_alloc os (cb_at w) with
  | None => (clip_tick w, Err (mutation_not_dispatched (clipboard_failure "Windows clipboard allocation failed")))
  | Some beyond =>
      let block := {| beyond with me_units := replicate (Z.to_nat (byte_length / 2)) 0 ++ me_units beyond |} in
      (clip_tick {| w with cb_handle := S (cb_handle w); cb_blocks := <[cb_handle w := block]> (cb_blocks w) |}, Ok (cb_handle w))
  end.

Definition copy_utf16 (handle : nat) (utf16 : list Z) : Clip unit :=
  let& locked := clip_ask (cl_locks os) in
  if negb locked then ierr (mutation_not_dispatched (clipboard_failure "Windows clipboard allocation could not be locked")) else
  fun w => ({| w with cb_blocks := alter (fun m => {| m with me_units := utf16 ++ drop (length utf16) (me_units m) |}) handle (cb_blocks w) |}, Ok tt).

Definition free (handle : nat) : Clip unit := fun w => ({| w with cb_blocks := delete handle (cb_blocks w) |}, Ok tt).

Definition empty_clipboard : Clip unit :=
  let& emptied := clip_ask (cl_empties os) in
  if negb emptied then ierr (mutation_indeterminate (clipboard_failure "Windows clipboard could not begin replacement")) else
  fun w => ({| w with cb_text := None; cb_sequence := cl_next os (cb_at w); cb_log := cb_log w ++ [ClipEmptied] |}, Ok tt).

(** [SetClipboardData]: the block belongs to the clipboard from then on. *)
Definition set_clipboard_data (handle : nat) : Clip unit :=
  let& placed := clip_ask (cl_places os) in
  if negb placed then ierr (mutation_indeterminate (clipboard_failure "Windows clipboard rejected text after replacement began")) else
  fun w => ({| w with cb_text := cb_blocks w !! handle; cb_blocks := delete handle (cb_blocks w); cb_sequence := cl_next os (cb_at w);
                      cb_log := cb_log w ++ [ClipPlaced handle] |}, Ok tt).

Definition indeterminate_on_error {A} (m : Clip A) : Clip A :=
  ikeep m (fun r => match r with Ok a => iret a | Err e => ierr (mutation_indeterminate e) end).

(** [memory] is freed when its scope ends before the clipboard owns it. *)
Definition place_text (utf16 : list Z) (byte_length : Z) : Clip unit :=
  let& handle := allocate byte_length in
  ikeep (copy_utf16 handle utf16 ;& empty_clipboard ;& set_clipboard_data handle) (fun r =>
    match r with Ok _ => iret tt | Err e => free handle ;& ierr e end).

(** [ClipboardState::write] once the clipboard is open. *)
Definition write_open (expected_change_marker text : string) (max_text_bytes : Z) : Clip DriverClipboardWriteOutput :=
  let& marker := current_marker in
  if negb (str_eqb marker expected_change_marker) then
    ierr (mutation_not_dispatched (de_with_retry (driver_error DStaleClipboard "Windows clipboard changed after it was read") "read_clipboard_again")) else
  let utf16 := encode_utf16 text ++ [0] in
  let byte_length := 2 * Z.of_nat (length utf16) in
  if USIZE_MAX <? byte_length then
    ierr (mutation_not_dispatched (clipboard_failure "Windows clipboard allocation size overflowed")) else
  place_text utf16 byte_length ;&
  let& read := indeterminate_on_error (read_open_clipboard max_text_bytes) in
  if negb (match read with Some value => str_eqb value text | None => false end) then
    ierr (mutation_indeterminate (clipboard_failure "Windows clipboard read-back did not confirm the replacement")) else
  let& marker := current_marker in
  iret (native_readback marker).

Definition win_clip_write (expected_change_marker text : string) (max_text_bytes : Z) : Clip DriverClipboardWriteOutput :=
  if (max_text_bytes <? slen text) || has_nul text then
    ierr (mutation_not_dispatched (clipboard_failure "Windows clipboard text violates the configured bound")) else
  ikeep open_clipboard (fun opened =>
    match opened with Err e => ierr (mutation_not_dispatched e) | Ok _ =>
    while_open (write_open expected_change_marker text max_text_bytes)
    end).

(** [ClipboardState::run] on one command. *)
Definition win_clip_command (c : ClipboardCommand) (w : WinClip) : WinClip * ClipboardReply :=
  match c with
  | ClipRead max => let '(w, r) := win_clip_read max w in (w, ReplyRead r)
  | ClipWrite expected text max => let '(w, r) := win_clip_write expected text max w in (w, ReplyWrite r)
  end.

End Win.

(** * Text survives the encodings *)

(** A Rust string: the encoding of scalar values. *)
Definition well_formed (s : string) : Prop := exists cs, Forall scalar cs /\ s = utf8 cs.

Lemma byte_char_of b : 0 <= b < 256 -> byte_of (byte_char b) = b.
Proof. intros Hb. unfold byte_of, byte_char. rewrite N_ascii_embedding by lia. lia. Qed.

Lemma string_app_cons a x s : String a x +:+ s = String a (x +:+ s).
Proof. reflexivity. Qed.

Lemma string_app_empty s : "" +:+ s = s.
Proof. reflexivity. Qed.

(** The bytes of a character: one lead byte and continuations. *)
Lemma utf8_of_group c s cs : scalar c -> char_groups s = ("", cs) -> char_groups (utf8_of c +:+ s) = ("", utf8_of c :: cs).
Proof.
  intros Hc Hs. unfold utf8_of, scalar in *.
  assert (Hcont : forall b, 0 <= b < 64 -> is_continuation (byte_char (128 + b)) = true).
  { intros b Hb. unfold is_continuation. rewrite byte_char_of by lia. apply andb_true_intro. split; [apply Z.leb_le|apply Z.ltb_lt]; lia. }
  assert (Hlead : forall b, 0 <= b < 128 \/ 192 <= b < 256 -> is_continuation (byte_char b) = false).
  { intros b Hb. unfold is_continuation. rewrite byte_char_of by lia. apply andb_false_iff. destruct Hb; [left; apply Z.leb_gt|right; apply Z.ltb_ge]; lia. }
  pose proof (Z.mod_pos_bound c 64 ltac:(lia)). pose proof (Z.mod_pos_bound (c / 64) 64 ltac:(lia)). pose proof (Z.mod_pos_bound (c / 4096) 64 ltac:(lia)).
  assert (0 <= c < 1114112) by lia. pose proof (Z.div_pos c 64). pose proof (Z.div_pos c 4096). pose proof (Z.div_pos c 262144).
  destruct (Z.ltb_spec c 128); [|destruct (Z.ltb_spec c 2048); [|destruct (Z.ltb_spec c 65536)]]; rewrite ?string_app_cons, string_app_empty; cbn -[is_continuation byte_char]; rewrite Hs.
  - by rewrite Hlead by lia.
  - pose proof (Z.div_lt_upper_bound c 64 32). by rewrite Hcont, Hlead by lia.
  - pose proof (Z.div_lt_upper_bound c 4096 16). by rewrite !Hcont, Hlead by lia.
  - pose proof (Z.div_lt_upper_bound c 262144 5). by rewrite !Hcont, Hlead by lia.
Qed.

Lemma land_mod x n : 0 <= n -> Z.land x (2 ^ n - 1) = x mod 2 ^ n.
Proof. intros. by rewrite <- Z.land_ones, Z.ones_equiv by done. Qed.

Lemma utf8_of_code_point c : scalar c -> code_point (utf8_of c) = c.
Proof.
  intros Hc. unfold utf8_of, scalar in *. assert (0 <= c < 1114112) by lia.
  pose proof (Z.mod_pos_bound c 64 ltac:(lia)). pose proof (Z.mod_pos_bound (c / 64) 64 ltac:(lia)). pose proof (Z.mod_pos_bound (c / 4096) 64 ltac:(lia)).
  pose proof (Z.div_pos c 64). pose proof (Z.div_pos c 4096). pose proof (Z.div_pos c 262144).
  pose proof (Z.div_mod c 64 ltac:(lia)). pose proof (Z.div_mod (c / 64) 64 ltac:(lia)). pose proof (Z.div_mod (c / 4096) 64 ltac:(lia)).
  assert (c / 64 / 64 = c / 4096) as E1 by (rewrite Z.div_div by lia; done). assert (c / 4096 / 64 = c / 262144) as E2 by (rewrite Z.div_div by lia; done).
  assert (Hlow : forall b, 0 <= b < 64 -> Z.land (128 + b) 63 = b).
  { intros b Hb. rewrite (land_mod _ 6) by lia. change (2 ^ 6) with 64. replace (128 + b) with (b + 2 * 64) by lia. by rewrite Z_mod_plus_full, Z.mod_small by lia. }
  destruct (Z.ltb_spec c 128); [|destruct (Z.ltb_spec c 2048); [|destruct (Z.ltb_spec c 65536)]]; unfold code_point.
  - by rewrite byte_char_of by lia.
  - pose proof (Z.div_lt_upper_bound c 64 32). rewrite !byte_char_of, Hlow, (land_mod _ 5) by lia. change (2 ^ 5) with 32.
    replace (192 + c / 64) with (c / 64 + 6 * 32) by lia. rewrite Z_mod_plus_full, Z.mod_small by lia. lia.
  - pose proof (Z.div_lt_upper_bound c 4096 16). rewrite !byte_char_of, !Hlow, (land_mod _ 4) by lia. change (2 ^ 4) with 16.
    replace (224 + c / 4096) with (c / 4096 + 14 * 16) by lia. rewrite Z_mod_plus_full, Z.mod_small by lia. lia.
  - pose proof (Z.div_lt_upper_bound c 262144 5). rewrite !byte_char_of, !Hlow, (land_mod _ 3) by lia. change (2 ^ 3) with 8.
    replace (240 + c / 262144) with (c / 262144 + 30 * 8) by lia. rewrite Z_mod_plus_full, Z.mod_small by lia. lia.
Qed.

Lemma utf8_chars cs : Forall scalar cs -> code_point <$> Text.chars (utf8 cs) = cs.
Proof.
  intros H. assert (Hg : char_groups (utf8 cs) = ("", utf8_of <$> cs)).
  { induction H as [|c cs Hc _ IH]; [done|]. exact (utf8_of_group c (utf8 cs) (utf8_of <$> cs) Hc IH). }
  unfold Text.chars. rewrite Hg. rewrite <- list_fmap_compose. rewrite <- (list_fmap_id cs) at 2. apply list_fmap_ext.
  intros i c Hi. apply utf8_of_code_point. by eapply Forall_lookup_1.
Qed.

Lemma decode_encode cs : Forall scalar cs -> decode_utf16 (utf16 cs) = Some cs.
Proof.
  induction 1 as [|c cs Hc _ IH]; [done|]. unfold utf16 in *. cbn [fmap list_fmap concat]. unfold utf16_of at 1. unfold scalar in Hc.
  destruct (Z.ltb_spec c 65536); cbn [app decode_utf16]; unfold is_high_surrogate, is_low_surrogate.
  - rewrite (proj2 (andb_false_iff _ _)), (proj2 (andb_false_iff _ _)) by (destruct Hc; [left; apply Z.leb_gt|right; apply Z.leb_gt]; lia).
    fold (utf16_of <$> cs). by rewrite IH.
  - pose proof (Z.div_pos (c - 65536) 1024). pose proof (Z.mod_pos_bound (c - 65536) 1024 ltac:(lia)). pose proof (Z.div_mod (c - 65536) 1024 ltac:(lia)).
    assert ((c - 65536) / 1024 < 1024) by (apply Z.div_lt_upper_bound; lia).
    rewrite (proj2 (andb_true_iff _ _)), (proj2 (andb_true_iff _ _)) by (split; apply Z.leb_le; lia). fold (utf16_of <$> cs). rewrite IH. cbn. do 2 f_equal. lia.
Qed.

(** Text comes back from UTF-16. *)
Lemma text_roundtrip s : well_formed s -> from_utf16 (encode_utf16 s) = Some s.
Proof. intros (cs & Hcs & ->). unfold encode_utf16, from_utf16. rewrite utf8_chars by done. fold (utf16 cs). by rewrite decode_encode. Qed.

(** The units are no more than the bytes. *)
Lemma utf16_shorter s : well_formed s -> Z.of_nat (length (encode_utf16 s)) <= slen s.
Proof.
  intros (cs & Hcs & ->). unfold encode_utf16. rewrite utf8_chars by done. induction Hcs as [|c cs Hc _ IH]; [done|]. cbn [fmap list_fmap concat utf8 foldr].
  fold (utf8 cs). fold (utf16_of <$> cs). rewrite length_app, slen_app. enough (Z.of_nat (length (utf16_of c)) <= slen (utf8_of c)) by lia.
  unfold utf16_of, utf8_of. destruct (Z.ltb_spec c 65536), (Z.ltb_spec c 128), (Z.ltb_spec c 2048); unfold slen; cbn -[byte_char]; lia.
Qed.

Lemma char_of_zero c : byte_of c = 0 -> c = "000"%char.
Proof. intros H. apply byte_of_inj. by rewrite H. Qed.

(** Only the character NUL gives the unit 0. *)
Lemma no_zero_unit s : well_formed s -> has_nul s = false -> 0 ∉ encode_utf16 s.
Proof.
  intros (cs & Hcs & ->). unfold encode_utf16. rewrite utf8_chars by done. induction Hcs as [|c cs Hc _ IH]; [intros _; apply not_elem_of_nil|].
  cbn [fmap list_fmap concat utf8 foldr]. fold (utf8 cs). unfold has_nul, has_char in *. intros Hn [Hz|Hz]%elem_of_app.
  - assert (c = 0) as ->; [|by cbn in Hn]. unfold utf16_of, scalar in *. destruct (Z.ltb_spec c 65536) as [|Hge].
    + apply list_elem_of_singleton in Hz. lia.
    + pose proof (Z.div_pos (c - 65536) 1024). pose proof (Z.mod_pos_bound (c - 65536) 1024 ltac:(lia)). exfalso. repeat (apply elem_of_cons in Hz as [Hz|Hz]; [lia|]). by apply not_elem_of_nil in Hz.
  - apply IH; [|done]. enough (H : forall a b, bytes_any (Z.eqb (byte_of "000")) (a +:+ b) = false -> bytes_any (Z.eqb (byte_of "000")) b = false) by (by eapply H).
    intros a b. induction a as [|x a IHa]; [done|]. rewrite string_app_cons. cbn -[byte_of]. intros [_ ?]%orb_false_iff. auto.
Qed.

(** * Properties *)

(** A clipboard write on macOS.  Whatever other programs do to the
    pasteboard in between: a write that succeeds asked for the change count,
    found the expected one, cleared the pasteboard, set the text, read exactly
    that text back and answered with the count it then found; one that failed
    as not dispatched never changed the pasteboard; any other failure is
    indeterminate and came after a replacement of the expected contents had
    begun.  When nobody else acts and the system accepts the text, an admitted
    write succeeds and the next read gives the text and the marker. *)
Theorem mac_clipboard_write_exact os expected text max w :
  let '(w', r) := mac_clip_write os expected text max w in
  exists es, pb_log w' = pb_log w ++ es /\
  match r with
  | Ok out => exists c c', mac_marker c = expected /\ out = native_readback (mac_marker c') /\
      es = [AskedCount c; Cleared; TextSet text true; AskedText (Some text); AskedCount c']
  | Err e =>
      de_mutation_status e = NotDispatched /\ (es = [] \/ exists c, es = [AskedCount c]) \/
      de_mutation_status e = Indeterminate /\ exists c, mac_marker c = expected /\
        (es = [AskedCount c; Cleared; TextSet text false] \/ exists t, t <> Some text /\ es = [AskedCount c; Cleared; TextSet text true; AskedText t])
  end /\
  ((forall n, ps_others os n = None) -> (forall n, ps_accepts os n = true) -> slen text <= max -> has_nul text = false -> mac_marker (pb_count w) = expected ->
   exists out, r = Ok out /\ (mac_clip_read os max w').2 = Ok {| dcs_change_marker := dcw_change_marker out; dcs_text := Some text |}).
Proof.
  assert (Hlog : forall v, pb_log (paste_turn os v) = pb_log v) by (intros v; unfold paste_turn; by destruct (ps_others os (pb_at v)) as [[]|]).
  destruct (mac_clip_write os expected text max w) as [w' r] eqn:E. unfold mac_clip_write in E. destruct (_ || has_nul text) eqn:Eb.
  { injection E as <- <-. exists []. rewrite app_nil_r. split; [done|]. split; [left; split; [done|by left]|]. intros _ _ Hs Hn _. rewrite Hn, orb_false_r in Eb. apply Z.ltb_lt in Eb. lia. }
  unfold ibind at 1, change_count at 1 in E. destruct (str_eqb _ expected) eqn:Em; cbn [negb] in E.
  2:{ injection E as <- <-. eexists. split; [unfold noted; cbn [pb_log]; rewrite Hlog; reflexivity|]. split; [left; split; [done|right; by eexists]|]. intros Ho _ _ _ Hm.
      unfold paste_turn in Em. rewrite Ho in Em. cbn in Em. by rewrite Hm, (proj2 (str_eqb_eq _ _) eq_refl) in Em. }
  apply str_eqb_eq in Em. set (w1 := paste_turn os w) in *. unfold clear_contents, set_string, string_for_type, change_count, iret, ierr, ibind in E.
  set (w2 := paste_turn os (noted (AskedCount (pb_count w1)) w1)) in *. set (w3 := paste_turn os (noted Cleared _)) in *.
  destruct (ps_accepts os (pb_at w3)) eqn:Ea; cbn [negb] in E.
  2:{ injection E as <- <-. eexists. split; [unfold noted, w3; cbn; rewrite Hlog; cbn; unfold w2; rewrite Hlog; cbn; unfold w1; rewrite Hlog, <- !app_assoc; reflexivity|].
      split; [right; split; [done|]; exists (pb_count w1); split; [done|by left]|]. intros _ Ha. by rewrite Ha in Ea. }
  set (w4 := paste_turn os (noted (TextSet text true) _)) in *.
  assert (Hw4 : pb_log w4 = pb_log w ++ [AskedCount (pb_count w1); Cleared; TextSet text true]).
  { unfold w4. rewrite Hlog. unfold noted at 1, w3. cbn [pb_log]. rewrite Hlog. unfold noted at 1. cbn [pb_log]. unfold w2. rewrite Hlog. unfold noted. cbn [pb_log]. unfold w1. by rewrite Hlog, <- !app_assoc. }
  destruct (match pb_text w4 with Some value => str_eqb value text | None => false end) eqn:Et; cbn [negb] in E.
  - destruct (pb_text w4) as [t|] eqn:Ep; [|done]. apply str_eqb_eq in Et. subst t. injection E as <- <-.
    set (w5 := paste_turn os (noted (AskedText (Some text)) w4)). eexists. split; [unfold noted at 1; cbn; unfold w5; rewrite Hlog; cbn; rewrite Hw4, <- !app_assoc; reflexivity|].
    split; [by eexists _, _|]. intros Ho _ Hs _ _. eexists. split; [done|].
    assert (Hq : forall v, paste_turn os v = {| v with pb_at := S (pb_at v) |}) by (intros v; unfold paste_turn; by rewrite Ho).
    unfold mac_clip_read, ibind, change_count, string_for_type. rewrite !Hq. cbn [pb_count pb_text noted dcw_change_marker native_readback].
    assert (Ht : pb_text w5 = Some text) by (unfold w5; rewrite Hq; exact Ep). rewrite Ht. rewrite (proj2 (Z.ltb_ge max (slen text)) Hs). done.
  - injection E as <- <-. eexists. split; [unfold noted at 1; cbn; rewrite Hw4, <- app_assoc; reflexivity|]. split.
    + right. split; [done|]. exists (pb_count w1). split; [done|]. right. exists (pb_text w4). split; [|done]. intros Hx. rewrite Hx in Et. by rewrite (proj2 (str_eqb_eq _ _) eq_refl) in Et.
    + intros Ho _ _ _ _. exfalso. assert (Hx : pb_text w4 = Some text) by (unfold w4, paste_turn; rewrite Ho; done). rewrite Hx in Et. by rewrite (proj2 (str_eqb_eq _ _) eq_refl) in Et.
Qed.

(** ** Windows *)

Lemma read_units_text max m text rest :
  well_formed text -> has_nul text = false -> slen text <= max -> Z.of_nat (length (encode_utf16 text)) < USIZE_MAX ->
  me_units m = encode_utf16 text ++ 0 :: rest -> read_units max m = Ok (Some text).
Proof.
  intros Hw Hn Hs Hl Hm. unfold read_units. pose proof (utf16_shorter text Hw) as Hle. set (us := encode_utf16 text) in *.
  assert (Hsz : GlobalSize m / 2 = Z.of_nat (length (me_units m))).
  { unfold GlobalSize. rewrite Z.mul_comm. destruct (me_odd m); [by rewrite Z.div_add_l, Z.add_0_r by lia|by rewrite Z.add_0_r, Z.div_mul by lia]. }
  rewrite Hsz, Hm. set (k := Z.to_nat _). assert (Hk : (length us < k <= length (us ++ 0%Z :: rest))%nat) by (unfold k; rewrite length_app; cbn [length]; lia).
  assert (Htake : take k (us ++ 0 :: rest) = us ++ 0 :: take (k - S (length us)) rest).
  { rewrite take_app, (take_ge us) by lia. f_equal. by replace (k - length us)%nat with (S (k - S (length us))) by lia. }
  rewrite Htake. assert (Hf : list_find (fun u => u = 0) (us ++ 0 :: take (k - S (length us)) rest) = Some (length us, 0)).
  { apply list_find_Some. split_and!; [by rewrite lookup_app_r, Nat.sub_diag by lia|done|]. intros j y Hj Hlt ->.
    rewrite lookup_app_l in Hj by done. apply (no_zero_unit text Hw Hn). by eapply list_elem_of_lookup_2. }
  rewrite Hf, take_app_length. unfold us. rewrite text_roundtrip by done. by rewrite (proj2 (Z.ltb_ge max (slen text)) Hs).
Qed.

Section Write.
Context (os : ClipSystem).

(** What a step leaves alone. *)
Definition kept (w w' : WinClip) : Prop := cb_blocks w' = cb_blocks w /\ cb_open w' = cb_open w /\ cb_log w' = cb_log w /\ cb_text w' = cb_text w /\ cb_sequence w' = cb_sequence w.

(** Every call succeeds. *)
Definition obliging : Prop := (forall n, cl_opens os n = true) /\ (forall n, cl_data os n = true) /\ (forall n, cl_locks os n = true) /\
  (forall n, is_Some (cl_alloc os n)) /\ (forall n, cl_empties os n = true) /\ forall n, cl_places os n = true.

Lemma place_text_spec units w : cb_blocks w !! cb_handle w = None ->
  let '(w', r) := place_text os units (2 * Z.of_nat (length units)) w in
  cb_blocks w' = cb_blocks w /\ cb_open w' = cb_open w /\
  match r with
  | Ok _ => exists m rest, cb_text w' = Some m /\ me_units m = units ++ rest /\ cb_log w' = cb_log w ++ [ClipEmptied; ClipPlaced (cb_handle w)]
  | Err e => ~ obliging /\ (de_mutation_status e = NotDispatched /\ cb_log w' = cb_log w \/ de_mutation_status e = Indeterminate)
  end.
Proof.
  intros Hfree. unfold place_text, ibind at 1, allocate. destruct (cl_alloc os (cb_at w)) as [beyond|] eqn:Ea.
  2:{ split; [done|]. split; [done|]. split; [|by left]. intros (_ & _ & _ & H & _). destruct (H (cb_at w)) as [? Hx]. by rewrite Ea in Hx. }
  unfold ikeep, copy_utf16, empty_clipboard, set_clipboard_data, free, clip_ask, ierr, iret, ibind. cbn [cb_at clip_tick]. destruct (cl_locks os _) eqn:El; cbn [negb].
  2:{ cbn. split; [by rewrite delete_insert_id|]. split; [done|]. split; [|by left]. intros (_ & _ & H & _). by rewrite H in El. }
  cbn [cb_at clip_tick]. destruct (cl_empties os _) eqn:Ee; cbn [negb].
  2:{ cbn. split; [by rewrite delete_alter_eq, delete_insert_id|]. split; [done|]. split; [|by right]. intros (_ & _ & _ & _ & H & _). by rewrite H in Ee. }
  cbn [cb_at clip_tick]. destruct (cl_places os _) eqn:Ep; cbn [negb].
  2:{ cbn. split; [by rewrite delete_alter_eq, delete_insert_id|]. split; [done|]. split; [|by right]. intros (_ & _ & _ & _ & _ & H). by rewrite H in Ep. }
  cbn. split_and!; [by rewrite delete_alter_eq, delete_insert_id|done|]. rewrite lookup_alter_eq, lookup_insert_eq. cbn. eexists _, _.
  split; [reflexivity|]. cbn. split; [reflexivity|by rewrite <- app_assoc].
Qed.

Lemma read_open_spec max w : let '(w', r) := read_open_clipboard os max w in
  kept w w' /\ cb_handle w' = cb_handle w /\
  match cb_text w with
  | None => r = Ok None
  | Some m => r = read_units max m \/ (exists e, r = Err e) /\ ~ (obliging /\ 2 <= GlobalSize m)
  end.
Proof.
  unfold read_open_clipboard. destruct (cb_text w) as [m|] eqn:Et; [|by unfold kept; cbn; rewrite Et].
  unfold ibind at 1, clip_ask. destruct (cl_data os (cb_at w)) eqn:Ed; cbn [negb]; [|unfold ierr; split; [done|]; split; [done|]; right; split; [eauto|]; intros [(_ & H & _) _]; by rewrite H in Ed].
  destruct (Z.ltb_spec (GlobalSize m) 2); [unfold ierr; split; [done|]; split; [done|]; right; split; [eauto|]; intros [_ ?]; lia|].
  unfold ibind at 1, clip_ask. destruct (cl_locks os _) eqn:El; cbn [negb]; [|unfold ierr; split; [done|]; split; [done|]; right; split; [eauto|]; intros [(_ & _ & Hk & _) _]; by rewrite Hk in El].
  unfold clip_raise. split; [done|]. split; [done|by left].
Qed.

End Write.

(** The part of a write that runs with the clipboard open. *)
Lemma write_open_spec os expected text max w :
  well_formed text -> has_nul text = false -> slen text <= max -> cb_blocks w !! cb_handle w = None ->
  let '(w', r) := write_open os expected text max w in
  cb_blocks w' = cb_blocks w /\ cb_open w' = cb_open w /\
  match r with
  | Ok out => win_marker (cb_sequence w) = expected /\ out = native_readback (win_marker (cb_sequence w')) /\
      cb_log w' = cb_log w ++ [ClipEmptied; ClipPlaced (cb_handle w)] /\ exists m, cb_text w' = Some m /\ read_units max m = Ok (Some text)
  | Err e =>
      (de_mutation_status e = NotDispatched /\ cb_log w' = cb_log w \/ de_mutation_status e = Indeterminate) /\
      ~ (obliging os /\ win_marker (cb_sequence w) = expected /\ 2 * (slen text + 1) <= USIZE_MAX)
  end.
Proof.
  intros Hwf Hn Hs Hfree. unfold write_open, ibind at 1, current_marker. pose proof (utf16_shorter text Hwf) as Hle.
  destruct (str_eqb _ expected) eqn:Em; cbn [negb].
  2:{ split_and!; try done; [by left|]. intros (_ & Hx & _). rewrite Hx in Em. by rewrite (proj2 (str_eqb_eq _ _) eq_refl) in Em. }
  apply str_eqb_eq in Em. cbn zeta. set (units := encode_utf16 text ++ [0]).
  assert (Hu : length units = S (length (encode_utf16 text))) by (unfold units; rewrite length_app; cbn; lia).
  destruct (Z.ltb_spec USIZE_MAX (2 * Z.of_nat (length units))) as [Ho|Ho]; [split_and!; try done; [by left|lia]|].
  pose proof (place_text_spec os units w Hfree) as Hp. unfold ibind at 1. destruct (place_text os units _ w) as [w1 [[]|e]].
  2:{ destruct Hp as (Hb & Hopen & Hno & He). split_and!; [done|done|done|tauto]. }
  destruct Hp as (Hb & Hopen & m & rest & Ht & Hm & Hlog).
  assert (Hread : read_units max m = Ok (Some text)) by (eapply read_units_text; [done..|lia|rewrite Hm; unfold units; by rewrite <- app_assoc]).
  pose proof (read_open_spec os max w1) as Hr. unfold indeterminate_on_error, ibind, ikeep, ierr, iret, current_marker.
  destruct (read_open_clipboard os max w1) as [w2 r2]. rewrite Ht in Hr. destruct Hr as ((Hb2 & Hopen2 & Hlog2 & Ht2 & Hseq2) & _ & [-> | [[e ->] Hno]]).
  - rewrite Hread, (proj2 (str_eqb_eq text text) eq_refl). cbn [negb]. split_and!; try congruence. exists m. split; congruence.
  - split_and!; try congruence; [by right|]. intros (Hobl & _ & _). apply Hno. split; [done|]. unfold GlobalSize. rewrite Hm, length_app, Hu. destruct (me_odd m); lia.
Qed.

(** C27: A clipboard write on Windows.  Whatever the system refuses, the
    clipboard is closed again and no memory is left allocated; a write that
    succeeds found the expected marker, and left the clipboard with a block
    that reads as exactly the text and the marker it reports; one that failed
    as not dispatched neither emptied nor filled the clipboard, and every other
    failure is indeterminate.  When the system refuses nothing, a write of a
    bounded text without NUL to the expected clipboard succeeds, and an
    immediate read gives the text and the marker back. *)
Theorem win_clipboard_write_exact os expected text max w :
  well_formed text -> cb_open w = false -> cb_blocks w !! cb_handle w = None ->
  let '(w', r) := win_clip_write os expected text max w in
  let opened := default (cb_sequence w) (fst <$> cl_others os (cb_at w)) in
  cb_open w' = false /\ cb_blocks w' = cb_blocks w /\
  match r with
  | Ok out => win_marker opened = expected /\ out = native_readback (win_marker (cb_sequence w')) /\
      cb_log w' = cb_log w ++ [ClipEmptied; ClipPlaced (cb_handle w)] /\ exists m, cb_text w' = Some m /\ read_units max m = Ok (Some text)
  | Err e => de_mutation_status e = NotDispatched /\ cb_log w' = cb_log w \/ de_mutation_status e = Indeterminate
  end /\
  (obliging os -> slen text <= max -> has_nul text = false -> win_marker opened = expected -> 2 * (slen text + 1) <= USIZE_MAX ->
   exists out, r = Ok out /\ (cl_others os (cb_at w') = None ->
     (win_clip_read os max w').2 = Ok {| dcs_change_marker := dcw_change_marker out; dcs_text := Some text |})).
Proof.
  intros Hwf Hclosed Hfree. unfold win_clip_write. destruct (_ || has_nul text) eqn:Eb.
  { unfold ierr. split_and!; try done; [by left|]. intros _ Hs Hn. rewrite Hn, orb_false_r in Eb. apply Z.ltb_lt in Eb. lia. }
  apply orb_false_iff in Eb as [Hs%Z.ltb_ge Hn]. unfold ikeep at 1, open_clipboard.
  set (w1 := match cl_others os (cb_at w) with Some (s, t) => _ | None => w end).
  assert (Hw1 : cb_blocks w1 = cb_blocks w /\ cb_handle w1 = cb_handle w /\ cb_open w1 = false /\ cb_log w1 = cb_log w /\
    cb_sequence w1 = default (cb_sequence w) (fst <$> cl_others os (cb_at w))) by (unfold w1; destruct (cl_others os (cb_at w)) as [[]|]; done).
  destruct Hw1 as (Hb1 & Hh1 & Ho1 & Hl1 & <-). destruct (cl_opens os (cb_at w)) eqn:Eo.
  2:{ unfold ierr. cbn. split_and!; try done; [by left|]. intros (H & _). by rewrite H in Eo. }
  unfold while_open, ikeep. set (w2 := clip_tick {| w1 with cb_open := true |}).
  pose proof (write_open_spec os expected text max w2 Hwf Hn Hs ltac:(cbn; by rewrite Hb1, Hh1)) as H. destruct (write_open os expected text max w2) as [w3 r]. destruct H as (Hb & Hop & H).
  unfold ibind, close_clipboard, clip_raise. cbn [cb_open cb_blocks cb_log cb_text cb_sequence]. split; [done|]. split; [by rewrite Hb|].
  destruct r as [out|e].
  - destruct H as (Hm & Hout & Hlog & m & Ht & Hr). cbn in Hlog. rewrite Hl1, Hh1 in Hlog. split; [by eauto 10|]. intros Hobl _ _ _ _. exists out. split; [done|].
    intros Hq. unfold win_clip_read, open_clipboard, while_open, ikeep, ibind, close_clipboard, clip_raise, current_marker. cbn [cb_at] in Hq |- *. rewrite Hq, (proj1 Hobl).
    pose proof (read_open_spec os max (clip_tick {| w3 with cb_open := true |})) as Hro. cbn [cb_text clip_tick] in Hro.
    cbn [cb_text cb_open cb_at cb_sequence cb_handle cb_blocks cb_log].
    destruct (read_open_clipboard os max _) as [w4 r4]. rewrite Ht in Hro. destruct Hro as ((_ & _ & _ & _ & Hseq) & _ & [-> | [_ Hno]]).
    + rewrite Hr. cbn [snd]. rewrite Hseq, Hout. done.
    + exfalso. apply Hno. split; [done|]. revert Hr. unfold read_units. destruct (Z.le_gt_cases 2 (GlobalSize m)) as [?|Hlt]; [done|].
      assert (me_units m = []) as Hnil by (unfold GlobalSize in Hlt; destruct (me_units m); [done|cbn [length] in Hlt; destruct (me_odd m); lia]). by rewrite Hnil, take_nil.
  - destruct H as [He Hno]. cbn in He. rewrite Hl1 in He. split; [done|]. intros Hobl _ _ Hm Hsz. exfalso. by apply Hno.
Qed.

(** * Two clipboards *)

Module Board.
Definition paste : PasteSystem := {| ps_others := fun _ => None; ps_next := fun n => Z.of_nat n + 100; ps_accepts := fun _ => true |}.
Definition board : Pasteboard := {| pb_count := 7; pb_text := Some "old"%string; pb_at := 0; pb_log := [] |}.

Example pasted : (mac_clip_write paste "macos:7" "new" 10 board).2 = Ok (native_readback "macos:102").
Proof. vm_compute. reflexivity. Qed.

Definition clip : ClipSystem := {|
  cl_opens := fun _ => true; cl_others := fun _ => None; cl_data := fun _ => true; cl_locks := fun _ => true;
  cl_alloc := fun _ => Some {| me_units := [9; 9]; me_odd := true |}; cl_empties := fun _ => true; cl_places := fun _ => true; cl_next := fun n => Z.of_nat n + 100 |}.
Definition wclip : WinClip := {| cb_sequence := 7; cb_text := None; cb_open := false; cb_at := 0; cb_handle := 0; cb_blocks := ∅; cb_log := [] |}.

(** A Greek letter and a character beyond the first plane. *)
Definition greeting : string := utf8 [955; 128512].

Lemma win_clipboard_write_exact_witness :
  let '(w', r) := win_clip_write clip "windows:7" greeting 10 wclip in
  cb_open w' = false /\ exists out, r = Ok out /\ (win_clip_read clip 10 w').2 = Ok {| dcs_change_marker := dcw_change_marker out; dcs_text := Some greeting |}.
Proof.
  pose proof (win_clipboard_write_exact clip "windows:7" greeting 10 wclip) as H.
  destruct (win_clip_write clip "windows:7" greeting 10 wclip) as [w' r]. destruct H as (Hc & _ & _ & H).
  - exists [955; 128512]. split; [|reflexivity]. repeat (constructor; [unfold scalar; lia|]). constructor.
  - reflexivity.
  - reflexivity.
  - split; [exact Hc|]. destruct H as (out & Hr & Hread).
    + split_and!; done.
    + vm_compute. discriminate.
    + reflexivity.
    + reflexivity.
    + vm_compute. discriminate.
    + exists out. split; [exact Hr|]. apply Hread. reflexivity.
Defined.
End Board.
