(* ===== verification/WinSemantic.v ===== *)
(** UI Automation on Windows: [src/crates/platform/src/windows/semantic.rs].

    The cached subtree of a window is a finite tree [UiaNode]; a snapshot walks
    it breadth first within its budget and keeps the elements it emitted, so
    that an action finds them again and compares their signature with the
    refreshed one.  Actions share the world, the guard and the log of
    [WinInput].  The provider's answers are a function of the position in the
    run; SHA-256 and the printing of floats are parameters. *)

From stdpp Require Import pretty.
From Stdlib Require Import Ascii String SpecFloat.
From S2P Require Import Prelude Floats Geometry Text Protocol Errors Driver PrivateState Fingerprint InputText WinInput.
#[local] Open Scope Z_scope.

Definition SEMANTIC_CAPACITY : nat := 32.
Definition SNAPSHOT_CACHE_LIMIT : nat := 32.
Definition MAX_FIELD_BYTES : nat := 512.

(** * What is cached of an element *)

Inductive ControlType :=
| CtButton | CtCheckBox | CtComboBox | CtEdit | CtHyperlink | CtList | CtListItem | CtMenu | CtMenuBar | CtMenuItem | CtRadioButton
| CtSlider | CtTab | CtTabItem | CtTree | CtTreeItem | CtWindow | CtText | CtDocument | CtImage | CtGroup | CtPane | CtDataGrid
| CtDataItem | CtTable | CtHeader | CtHeaderItem | CtScrollBar | CtProgressBar | CtSpinner | CtSplitButton | CtStatusBar | CtToolBar
| CtToolTip | CtTitleBar | CtThumb | CtSeparator | CtSemanticZoom | CtCustom | CtOther.

Inductive ToggleState := ToggleOn | ToggleOff | ToggleIndeterminate.
Inductive ExpandState := ExpandExpanded | ExpandPartially | ExpandCollapsed | ExpandLeaf.

(** The readings of a range pattern; [None] is one that failed. *)
Record RangePattern := {
  rp_value : option f64;
  rp_minimum : option f64;
  rp_maximum : option f64;
  rp_small_change : option f64;
  rp_large_change : option f64;
  rp_read_only : option bool;
}.

Record UiaCache := {
  uc_control_type : option ControlType;
  uc_name : option string;
  uc_rectangle : option RECT;
  uc_is_password : option bool;
  uc_value : option string;
  uc_range : option RangePattern;
  uc_selected : option bool;
  uc_toggle : option ToggleState;
  uc_expand : option ExpandState;
  uc_enabled : option bool;
  uc_focused : option bool;
  uc_focusable : option bool;
  uc_offscreen : option bool;
}.

(** A cached element and the children its cache gives. *)
Inductive UiaNode := UNode (element : Z) (cache : UiaCache) (children : list UiaNode).
Definition un_element (n : UiaNode) : Z := let 'UNode e _ _ := n in e.
Definition un_cache (n : UiaNode) : UiaCache := let 'UNode _ c _ := n in c.
Definition cached_children (n : UiaNode) : list UiaNode := let 'UNode _ _ cs := n in cs.

Fixpoint node_size (n : UiaNode) : nat := S (foldr (fun c k => (node_size c + k)%nat) 0%nat (cached_children n)).

Definition normalize_control_type (c : ControlType) : string :=
  match c with
  | CtButton => "button" | CtCheckBox => "checkbox" | CtComboBox => "combobox" | CtEdit => "edit" | CtHyperlink => "link" | CtList => "list"
  | CtListItem => "listitem" | CtMenu => "menu" | CtMenuBar => "menubar" | CtMenuItem => "menuitem" | CtRadioButton => "radio"
  | CtSlider => "slider" | CtTab => "tablist" | CtTabItem => "tab" | CtTree => "tree" | CtTreeItem => "treeitem" | CtWindow => "window"
  | CtText => "text" | CtDocument => "document" | CtImage => "image" | CtGroup => "group" | CtPane => "pane" | CtDataGrid => "datagrid"
  | CtDataItem => "dataitem" | CtTable => "table" | CtHeader => "header" | CtHeaderItem => "headeritem" | CtScrollBar => "scrollbar"
  | CtProgressBar => "progressbar" | CtSpinner => "spinner" | CtSplitButton => "splitbutton" | CtStatusBar => "statusbar"
  | CtToolBar => "toolbar" | CtToolTip => "tooltip" | CtTitleBar => "titlebar" | CtThumb => "thumb" | CtSeparator => "separator"
  | CtSemanticZoom => "semanticzoom" | CtCustom => "custom" | CtOther => "unknown"
  end%string.

(** [str::is_char_boundary], and the boundary a long field is cut at. *)
Definition is_char_boundary (s : string) (i : nat) : bool :=
  (i =? String.length s)%nat || match String.get i s with Some c => negb (is_continuation c) | None => false end.

Fixpoint boundary_below (s : string) (i : nat) : nat :=
  match i with O => O | S j => if is_char_boundary s i then i else boundary_below s j end.

Definition bounded_string (s : string) : string :=
  if (String.length s <=? MAX_FIELD_BYTES)%nat then s else String.substring 0 (boundary_below s MAX_FIELD_BYTES) s.

Definition finite_positive (value : option f64) : option f64 :=
  match value with Some v => if is_finite v && f64_gt v (f64_of_Z 0) then Some v else None | None => None end.

Definition cached_range_value (p : RangePattern) : option AccessibilityRangeValue :=
  match rp_value p, rp_minimum p, rp_maximum p with
  | Some value, Some minimum, Some maximum =>
      if negb (is_finite value) || negb (is_finite minimum) || negb (is_finite maximum)
         || f64_gt minimum maximum || f64_lt value minimum || f64_gt value maximum then None
      else Some {| rv_value := value; rv_minimum := minimum; rv_maximum := maximum;
                   rv_small_change := finite_positive (rp_small_change p); rv_large_change := finite_positive (rp_large_change p);
                   rv_read_only := default true (rp_read_only p) |}
  | _, _, _ => None
  end.

Definition semantic_rect (r : RECT) : option ScreenRect :=
  let width := sat_i32 (rc_right r - rc_left r) in
  let height := sat_i32 (rc_bottom r - rc_top r) in
  if (0 <=? width) && (0 <=? height) then
    Some {| sr_x := f64_of_Z (rc_left r); sr_y := f64_of_Z (rc_top r); sr_width := f64_of_Z width; sr_height := f64_of_Z height |}
  else None.

(** [NodeState]: four bits. *)
Definition NODE_ENABLED : Z := 1.
Definition NODE_FOCUSED : Z := 2.
Definition NODE_FOCUSABLE : Z := 4.
Definition NODE_OFFSCREEN : Z := 8.

Definition node_state (enabled focused focusable offscreen : bool) : Z :=
  let bit (b : bool) flag := if b then flag else 0 in
  Z.lor (Z.lor (Z.lor (bit enabled NODE_ENABLED) (bit focused NODE_FOCUSED)) (bit focusable NODE_FOCUSABLE)) (bit offscreen NODE_OFFSCREEN).

Definition state_has (state flag : Z) : bool := negb (Z.land state flag =? 0).

Record NodeValues := {
  nv_role : string;
  nv_name : string;
  nv_value : option string;
  nv_range_value : option AccessibilityRangeValue;
  nv_state : Z;
  nv_selected : option bool;
  nv_checked : option bool;
  nv_expanded : option bool;
  nv_bounds : option ScreenRect;
}.

Definition provider_failure (message : string) : DriverError := de_with_retry (driver_error DPlatform message) "retry_uia_snapshot".

Definition normalized_actions (role : string) (range_value : option AccessibilityRangeValue) : list string :=
  if match range_value with Some range => negb (rv_read_only range) | None => false end then ["focus"; "set_range_value"]%string
  else if existsb (str_eqb role) ["button"; "link"; "menuitem"; "splitbutton"]%string then ["invoke"]%string
  else if str_eqb role "checkbox" then ["toggle"]%string
  else if existsb (str_eqb role) ["radio"; "listitem"; "tab"; "dataitem"]%string then ["select"]%string
  else if existsb (str_eqb role) ["edit"; "combobox"; "slider"; "spinner"]%string then ["focus"; "set_value"]%string
  else if str_eqb role "treeitem" then ["select"; "set_expanded"]%string
  else [].

(** * Errors of the provider *)

Inductive ProviderError := ProviderTimeout | ProviderOther.

Definition target_unresponsive (message : string) : DriverError :=
  de_with_retry (driver_error DTargetUnresponsive message) "retry_after_target_recovers".
Definition stale_element : DriverError :=
  de_with_retry (driver_error DStaleObservation "UI Automation element changed after observation") "observe_window".

Definition provider_error (e : ProviderError) (message : string) : DriverError :=
  match e with ProviderTimeout => target_unresponsive message | ProviderOther => provider_failure message end.
Definition preflight_error (e : ProviderError) (message : string) : DriverError :=
  mutation_not_dispatched (match e with ProviderTimeout => target_unresponsive message | ProviderOther => stale_element end).
Definition action_error (e : ProviderError) : DriverError :=
  mutation_indeterminate (match e with ProviderTimeout => target_unresponsive "UI Automation action timed out" | ProviderOther => stale_element end).

(** * The state of the actor *)

Record StoredElement := { so_element : Z; so_signature : list Z }.
Record SemanticState := { ss_next_snapshot : Z; ss_snapshots : list (gmap string StoredElement) }.
Record SemanticSnapshot := { sn_elements : list DriverElement; sn_complete : bool; sn_truncation : option ObservationTruncation }.

(** What the driver's actors share: the world of native input, the snapshots,
    and how often captured frames were invalidated. *)
Record DrvWorld := { dv_win : WinWorld; dv_sem : SemanticState; dv_invalidated : nat }.

Definition on_win {A} (m : Act (W := WinWorld) A) : Act (W := DrvWorld) A := fun d =>
  let '(w, r) := m (dv_win d) in ({| d with dv_win := w |}, r).

Record SnapshotBudget := { bu_max_nodes : Z; bu_max_depth : Z; bu_max_bytes : Z; bu_time : Z }.

Definition snapshot_budget (mode : AccessibilityMode) : SnapshotBudget :=
  match mode with
  | AxDisabled => {| bu_max_nodes := 0; bu_max_depth := 0; bu_max_bytes := 0; bu_time := 0 |}
  | AxInteractive => {| bu_max_nodes := 1000; bu_max_depth := 20; bu_max_bytes := 256 * 1024; bu_time := 220 * MILLISECOND |}
  | AxFull => {| bu_max_nodes := 3000; bu_max_depth := 40; bu_max_bytes := 1024 * 1024; bu_time := 250 * MILLISECOND |}
  end.

Record SemSystem := {
  se_root : nat -> Z -> AccessibilityMode -> Result UiaNode ProviderError;
  se_refresh : nat -> Z -> Result UiaCache ProviderError;
  se_pattern : nat -> Z -> SemanticAction -> bool;
  se_call : nat -> option ProviderError;
}.

(** [{:x}] of an [isize]. *)
Definition hex_digit (d : Z) : ascii := ascii_of_N (Z.to_N (if d <? 10 then 48 + d else 87 + d)).
Fixpoint hex_from (fuel : nat) (n : Z) (rest : string) : string :=
  match fuel with
  | O => rest
  | S fuel => let s := String (hex_digit (n mod 16)) rest in if n / 16 =? 0 then s else hex_from fuel (n / 16) s
  end.
Definition lower_hex (n : Z) : string := hex_from 16 (n mod 2 ^ 64) "".

(** [format!("uia:{raw_hwnd:x}:{}", next_snapshot)]. *)
Definition snapshot_key_of (raw_hwnd next : Z) : string := "uia:" +:+ lower_hex raw_hwnd +:+ ":" +:+ pretty (Z.to_N next).

Record Walk := {
  wk_elements : list DriverElement;
  wk_stored : gmap string StoredElement;
  wk_visited : Z;
  wk_bytes : Z;
  wk_truncation : option TruncationReason;
}.

(** An entry of the queue: the element, its nearest emitted ancestor, its
    depth. *)
Definition Queued : Type := UiaNode * option string * Z.

Section Semantic.
Context (sha256 : list Z -> list Z) (f64_to_string : f64 -> string) (uia : SemSystem) (os : Native).

Definition cached_values (c : UiaCache) : Result NodeValues DriverError :=
  match uc_control_type c with
  | None => Err (provider_failure "cached UIA control type is unavailable")
  | Some control_type =>
      let value := if default false (uc_is_password c) then None else bounded_string <$> uc_value c in
      let range_value := mbind cached_range_value (uc_range c) in
      Ok {| nv_role := normalize_control_type control_type;
            nv_name := bounded_string (default ""%string (uc_name c));
            nv_value := match value with Some v => Some v | None => (fun range => f64_to_string (rv_value range)) <$> range_value end;
            nv_range_value := range_value;
            nv_state := node_state (default true (uc_enabled c)) (default false (uc_focused c)) (default false (uc_focusable c)) (default false (uc_offscreen c));
            nv_selected := uc_selected c;
            nv_checked := match uc_toggle c with Some ToggleOn => Some true | Some ToggleOff => Some false | _ => None end;
            nv_expanded := match uc_expand c with
              | Some ExpandExpanded | Some ExpandPartially => Some true | Some ExpandCollapsed => Some false | _ => None end;
            nv_bounds := semantic_rect (default {| rc_left := 0; rc_top := 0; rc_right := 0; rc_bottom := 0 |} (uc_rectangle c)) |}
  end.

Definition bits8 (x : f64) : list Z := be_bytes 8 (to_bits x).

Definition element_signature (v : NodeValues) : list Z :=
  sha256 (str_bytes (nv_role v) ++ [0] ++ str_bytes (nv_name v)
    ++ match nv_value v with Some value => 0 :: str_bytes value | None => [] end
    ++ match nv_range_value v with
       | Some range => bits8 (rv_value range) ++ bits8 (rv_minimum range) ++ bits8 (rv_maximum range) ++ [if rv_read_only range then 1 else 0]
       | None => [] end
    ++ [Z.ldiff (nv_state v) NODE_FOCUSED]
    ++ match nv_bounds v with
       | Some b => bits8 (sr_x b) ++ bits8 (sr_y b) ++ bits8 (sr_width b) ++ bits8 (sr_height b)
       | None => [] end).

(** ** The snapshot *)

Definition element_of (key : string) (parent : option string) (v : NodeValues) : DriverElement :=
  {| el_key := key; el_parent_key := parent; el_role := nv_role v; el_name := nv_name v; el_value := nv_value v;
     el_range_value := nv_range_value v; el_screen_bounds := nv_bounds v; el_enabled := state_has (nv_state v) NODE_ENABLED;
     el_focused := state_has (nv_state v) NODE_FOCUSED; el_selected := nv_selected v; el_checked := nv_checked v;
     el_expanded := nv_expanded v; el_actions := normalized_actions (nv_role v) (nv_range_value v) |}.

Definition emits (mode : AccessibilityMode) (depth : Z) (v : NodeValues) : bool :=
  bool_decide (mode = AxFull) || negb (bool_decide (normalized_actions (nv_role v) (nv_range_value v) = []))
  || state_has (nv_state v) NODE_FOCUSABLE || negb (str_eqb (nv_name v) "") || (depth <=? 1).

Definition descends (mode : AccessibilityMode) (v : NodeValues) : bool :=
  negb (state_has (nv_state v) NODE_OFFSCREEN) || bool_decide (mode = AxFull).

Definition element_bytes (v : NodeValues) : Z := slen (nv_role v) + slen (nv_name v) + match nv_value v with Some value => slen value | None => 0 end.

Definition element_key (snapshot_key : string) (index : nat) : string := snapshot_key +:+ ":" +:+ pretty (N.of_nat index).

(** One turn of the loop after the deadline: [None] ends it. *)
Definition visit (mode : AccessibilityMode) (snapshot_key : string) (q : Queued) (k : Walk) : Walk * option (list Queued) :=
  let '(node, nearest_parent, depth) := q in
  let budget := snapshot_budget mode in
  if bu_max_nodes budget <=? wk_visited k then ({| k with wk_truncation := Some NodeLimit |}, None)
  else if bu_max_depth budget <? depth then ({| k with wk_truncation := Some (default DepthLimit (wk_truncation k)) |}, Some [])
  else
    let k := {| k with wk_visited := wk_visited k + 1 |} in
    match cached_values (un_cache node) with
    | Err _ => ({| k with wk_truncation := Some ProviderFailure |}, None)
    | Ok values =>
        let children parent := if descends mode values then (fun c => (c, parent, depth + 1)) <$> cached_children node else [] in
        if emits mode depth values then
          let key := element_key snapshot_key (length (wk_elements k)) in
          let bytes := Z.min USIZE_MAX (wk_bytes k + element_bytes values) in
          if bu_max_bytes budget <? bytes then ({| k with wk_bytes := bytes; wk_truncation := Some ByteLimit |}, None)
          else ({| k with wk_bytes := bytes; wk_elements := wk_elements k ++ [element_of key nearest_parent values];
                          wk_stored := <[key := {| so_element := un_element node; so_signature := element_signature values |}]> (wk_stored k) |},
                Some (children (Some key)))
        else (k, Some (children nearest_parent))
    end.

(** [Instant::now], with what happens until then. *)
Definition current_time : Act (W := WinWorld) Z := fun w => let w := WinInput.tick os 0 w in (w, Ok (ww_time w)).

Fixpoint walk (fuel : nat) (mode : AccessibilityMode) (snapshot_key : string) (deadline : Z) (queue : list Queued) (k : Walk) : Act (W := WinWorld) Walk :=
  match queue, fuel with
  | [], _ => iret k
  | _, O => iret k
  | q :: queue, S fuel =>
      let& t := current_time in
      if deadline <=? t then iret {| k with wk_truncation := Some Deadline |} else
      match visit mode snapshot_key q k with
      | (k, None) => iret k
      | (k, Some children) => walk fuel mode snapshot_key deadline (queue ++ children) k
      end
  end.

Definition walk_none : Walk := {| wk_elements := []; wk_stored := ∅; wk_visited := 0; wk_bytes := 0; wk_truncation := None |}.

Definition snapshot_of (k : Walk) : SemanticSnapshot :=
  let truncation := (fun reason => {| ot_reason := reason; ot_emitted_elements := Z.min U32_ALL (Z.of_nat (length (wk_elements k))) |}) <$> wk_truncation k in
  {| sn_elements := wk_elements k; sn_complete := match truncation with None => true | Some _ => false end; sn_truncation := truncation |}.

(** The latest 32 snapshots. *)
Definition push_snapshot (stored : gmap string StoredElement) (snapshots : list (gmap string StoredElement)) : list (gmap string StoredElement) :=
  let all := snapshots ++ [stored] in drop (length all - SNAPSHOT_CACHE_LIMIT) all.

Definition snapshot (raw_hwnd : Z) (mode : AccessibilityMode) : Act (W := DrvWorld) SemanticSnapshot :=
  let& root := on_win (ask os (fun n => se_root uia n raw_hwnd mode)) in
  match root with
  | Err e => ierr (provider_error e "UI Automation cache build failed")
  | Ok root => fun d =>
      let next := (ss_next_snapshot (dv_sem d) + 1) mod 2 ^ 64 in
      let snapshot_key := snapshot_key_of raw_hwnd next in
      (let& started := on_win current_time in
       let& k := on_win (walk (node_size root) mode snapshot_key (started + bu_time (snapshot_budget mode)) [(root, None, 0)] walk_none) in
       fun d => ({| d with dv_sem := {| ss_next_snapshot := next; ss_snapshots := push_snapshot (wk_stored k) (ss_snapshots (dv_sem d)) |} |},
                 Ok (snapshot_of k))) d
  end.

(** ** Actions *)

Section Guarded.
Context (guard : option (nat * option Z)).

Definition find_element (key : string) (snapshots : list (gmap string StoredElement)) : option StoredElement :=
  fold_left (fun found s => match s !! key with Some e => Some e | None => found end) snapshots None.

Definition sem_perform (element_key : string) (action : SemanticAction) : Act (W := DrvWorld) unit :=
  on_win (check_guard os guard) ;&
  fun d =>
  match find_element element_key (ss_snapshots (dv_sem d)) with
  | None => (d, Err (mutation_not_dispatched stale_element))
  | Some stored =>
      on_win (
        let& refreshed := ask os (fun n => se_refresh uia n (so_element stored)) in
        match refreshed with
        | Err e => ierr (preflight_error e "UI Automation element refresh failed")
        | Ok current =>
            let& values := raise (rmap_err mutation_not_dispatched (cached_values current)) in
            if negb (bool_decide (element_signature values = so_signature stored)) then ierr (mutation_not_dispatched stale_element) else
            let& supported := (match action with SemFocus => iret true | _ => ask os (fun n => se_pattern uia n (so_element stored) action) end) in
            if negb supported then ierr (mutation_not_dispatched stale_element) else
            win_begin_dispatch os guard ;&
            let& result := act os (se_call uia) (fun r => Patterned (so_element stored) action (match r with None => true | Some _ => false end)) in
            check_guard os guard ;&
            match result with None => iret tt | Some e => ierr (action_error e) end
        end) d
  end.

Definition inside (point : ScreenPoint) (b : ScreenRect) : bool :=
  f64_ge (sp_x point) (sr_x b) && f64_ge (sp_y point) (sr_y b)
  && f64_lt (sp_x point) (f64_add (sr_x b) (sr_width b)) && f64_lt (sp_y point) (f64_add (sr_y b) (sr_height b)).

(** [f64::total_cmp], by what it compares. *)
Definition total_key (x : f64) : Z := let b := to_bits x in if b <? 2 ^ 63 then b else 2 ^ 63 - 1 - b.
Definition element_area (e : DriverElement) : Z :=
  match el_screen_bounds e with
  | Some b => total_key (f64_mul (sr_width b) (sr_height b))
  | None => total_key (S754_finite false 9007199254740991 971)
  end.

(** The smallest enabled control at the point that can be invoked. *)
Definition smallest_at (point : ScreenPoint) (elements : list DriverElement) : option DriverElement :=
  fold_left (fun best e => match best with None => Some e | Some b => if element_area e <? element_area b then Some e else Some b end)
    (List.filter (fun e => el_enabled e && existsb (str_eqb "invoke") (el_actions e)
       && match el_screen_bounds e with Some b => inside point b | None => false end) elements) None.

Definition invoke_at_point (hwnd : Z) (point : ScreenPoint) : Act (W := DrvWorld) bool :=
  on_win (check_guard os guard) ;&
  let& snapshot := snapshot hwnd AxInteractive in
  match smallest_at point (sn_elements snapshot) with
  | None => iret false
  | Some target => sem_perform (el_key target) SemInvoke ;& iret true
  end.

End Guarded.
End Semantic.

(** The queue of the actor; the two mutations are refused as not dispatched. *)
Inductive SemanticCommand :=
| SemCmdSnapshot (hwnd : Z) (mode : AccessibilityMode)
| SemCmdInvoke (hwnd : Z) (point : ScreenPoint) (guard : option (nat * option Z))
| SemCmdPerform (element_key : string) (action : SemanticAction) (guard : option (nat * option Z)).

Definition semantic_stopped : DriverError := driver_error DPlatform "Windows semantic actor stopped".

Definition sem_submit (queue : option (list SemanticCommand)) (command : SemanticCommand) : Result (list SemanticCommand) DriverError :=
  let refused e := Err (match command with SemCmdSnapshot _ _ => e | _ => mutation_not_dispatched e end) in
  match queue with
  | None => refused semantic_stopped
  | Some pending =>
      if (length pending <? SEMANTIC_CAPACITY)%nat then Ok (pending ++ [command])
      else refused (de_with_retry (driver_error DBusy "Windows semantic actor is busy") "retry_with_backoff")
  end.
