(* ===== verification/WinSemanticProps.v ===== *)
(** What a UI Automation snapshot shows ([src/crates/platform/src/windows/semantic.rs]).

    The reference is the tree in level order, each node with its path; the
    theorem says that a snapshot is exactly a first part of it, how far it got,
    and why it stopped. *)

From stdpp Require Import pretty.
From Stdlib Require Import Ascii String SpecFloat.
From S2P Require Import Prelude Floats Geometry Text Protocol Errors Driver PrivateState Fingerprint InputText WinInput WinInputProps WinSemantic.
#[local] Open Scope Z_scope.

(** * The reference *)

(** A node with its path, nearest position first. *)
Definition Place : Type := list nat * UiaNode.

(** The index of the nearest ancestor among these paths. *)
Fixpoint nearest (paths : list (list nat)) (path : list nat) : option nat :=
  match path with
  | [] => None
  | _ :: up => match list_find (fun p => p = up) paths with Some (i, _) => Some i | None => nearest paths up end
  end.

Section Reference.
Context (sha256 : list Z -> list Z) (f64_to_string : f64 -> string) (mode : AccessibilityMode).

#[local] Abbreviation cached := (cached_values f64_to_string).

Definition kids (p : Place) : list Place :=
  match cached (un_cache p.2) with
  | Ok v => if descends mode v then imap (fun i c => (i :: p.1, c)) (cached_children p.2) else []
  | Err _ => []
  end.

(** This row of nodes and the rows below, [rows] in all. *)
Fixpoint level_order (rows : nat) (row : list Place) : list Place :=
  match rows with O => [] | S rows => row ++ level_order rows (concat (kids <$> row)) end.

Definition max_depth : nat := Z.to_nat (bu_max_depth (snapshot_budget mode)).

(** The nodes within the depth a snapshot may have. *)
Definition within (root : UiaNode) : list Place := level_order (S max_depth) [([], root)].

(** Of these nodes those that are shown, with their values. *)
Definition shown (ps : list Place) : list (Place * NodeValues) :=
  omap (fun p => match cached (un_cache p.2) with
                 | Ok v => if emits mode (Z.of_nat (length p.1)) v then Some (p, v) else None
                 | Err _ => None end) ps.

Definition paths_of (s : list (Place * NodeValues)) : list (list nat) := (fun pv => pv.1.1) <$> s.

(** How an observation presents them: numbered keys, each with the key of its
    nearest ancestor that is shown. *)
Definition describe (key : string) (ps : list Place) : list DriverElement :=
  imap (fun i pv => element_of (element_key key i) (element_key key <$> nearest (paths_of (shown ps)) pv.1.1) pv.2) (shown ps).

Definition remembered (key : string) (ps : list Place) : gmap string StoredElement :=
  list_to_map (imap (fun i pv => (element_key key i, {| so_element := un_element pv.1.2; so_signature := element_signature sha256 pv.2 |})) (shown ps)).

Definition shown_bytes (ps : list Place) : Z := foldr Z.add 0 ((fun pv => element_bytes pv.2) <$> shown ps).

(** * Level order as a queue *)

(** What is still to come with [b] left of a row, [c] begun of the next and
    [rows] rows below. *)
Definition rest (rows : nat) (b c : list Place) : list Place := b ++ level_order rows (c ++ concat (kids <$> b)).

Lemma rest_next rows x b c : rest rows (x :: b) c = x :: rest rows b (c ++ kids x).
Proof. unfold rest. cbn. by rewrite app_assoc. Qed.

Lemma rest_row rows c : rest (S rows) [] c = rest rows c [].
Proof. unfold rest. cbn. by rewrite app_nil_r. Qed.

Lemma rest_end rows : rest rows [] [] = [].
Proof. unfold rest. induction rows as [|n IH]; [done|]. cbn in *. by rewrite IH. Qed.

Lemma within_rest root : within root = rest max_depth [([], root)] [].
Proof. unfold within, rest. cbn. by rewrite app_nil_r. Qed.

(** ** Paths *)

Fixpoint ancestors (path : list nat) : list (list nat) := match path with [] => [] | _ :: up => up :: ancestors up end.

Lemma nearest_new paths x path : x ∉ ancestors path -> nearest (paths ++ [x]) path = nearest paths path.
Proof.
  induction path as [|i up IH]; [done|]. cbn [nearest ancestors]. intros [Hx Hu]%not_elem_of_cons. rewrite IH by done.
  destruct (list_find (fun p => p = up) paths) as [[j y]|] eqn:E; [by rewrite (list_find_app_l _ _ _ _ _ E)|].
  rewrite list_find_app_r by done. cbn. by rewrite decide_False.
Qed.

Lemma nearest_child paths i up : up ∉ paths -> nearest paths (i :: up) = nearest paths up /\ nearest (paths ++ [up]) (i :: up) = Some (length paths).
Proof.
  intros Hu. assert (E : list_find (fun p => p = up) paths = None).
  { apply list_find_None, Forall_forall. intros p Hp ->. done. }
  cbn [nearest]. rewrite E. split; [done|]. rewrite list_find_app_r by done. cbn. by rewrite decide_True.
Qed.

(** What was seen and what waits: the parent of each was seen, and no path
    comes twice. *)
Record Sound (seen pend : list Place) : Prop := {
  closed : forall i up, i :: up ∈ (seen ++ pend).*1 -> up ∈ seen.*1;
  unrepeated : NoDup (seen ++ pend).*1;
}.

Lemma ancestors_seen seen pend path : Sound seen pend -> path ∈ (seen ++ pend).*1 -> forall s, s ∈ ancestors path -> s ∈ seen.*1.
Proof.
  intros Hs. induction path as [|i up IH]; cbn [ancestors]; [by intros _ s ?%elem_of_nil|].
  intros Hin s [->|Hup]%elem_of_cons; [by eapply closed|]. apply IH; [|done]. rewrite fmap_app. apply elem_of_app. left. by eapply closed.
Qed.

Lemma next_unseen seen x pend : Sound seen (x :: pend) -> x.1 ∉ seen.*1.
Proof. intros [_ Hn] Hin. rewrite fmap_app in Hn. apply NoDup_app in Hn as (_ & Hn & _). apply (Hn _ Hin). cbn. by left. Qed.

Lemma next_not_ancestor seen x pend path : Sound seen (x :: pend) -> path ∈ (seen ++ x :: pend).*1 -> x.1 ∉ ancestors path.
Proof. intros Hs Hin Ha. by eapply next_unseen, ancestors_seen. Qed.

Lemma kids_paths x path : path ∈ (kids x).*1 -> exists i, path = i :: x.1.
Proof.
  unfold kids. destruct (cached _); [|by intros ?%elem_of_nil]. destruct (descends _ _); [|by intros ?%elem_of_nil].
  intros ((p & c) & -> & Hp)%list_elem_of_fmap. apply list_elem_of_lookup in Hp as [i Hi]. rewrite list_lookup_imap in Hi.
  destruct (_ !! i); [|done]. injection Hi as <- <-. by exists i.
Qed.

Lemma kids_unrepeated x : NoDup (kids x).*1.
Proof.
  unfold kids. destruct (cached _); [|constructor]. destruct (descends _ _); [|constructor].
  apply NoDup_alt. intros i j p. rewrite !list_lookup_fmap, !list_lookup_imap.
  destruct (_ !! i); [|done]. destruct (_ !! j); [|done]. cbn. congruence.
Qed.

Lemma sound_next (seen : list Place) (x : Place) pend : Sound seen (x :: pend) -> Sound (seen ++ [x]) (pend ++ kids x).
Proof.
  intros Hs. pose proof (next_unseen _ _ _ Hs) as Hx. destruct Hs as [Hc Hn]. rewrite !fmap_app in Hc, Hn. cbn in Hc, Hn.
  assert (Hnew : forall p, p ∈ (kids x).*1 -> p ∉ seen.*1 ++ x.1 :: pend.*1).
  { intros p Hp Hin. apply kids_paths in Hp as [i ->]. by apply Hx, (Hc i). }
  split; rewrite !fmap_app; cbn.
  - intros i up Hin. rewrite <- app_assoc in Hin. cbn in Hin. rewrite app_comm_cons, app_assoc in Hin. apply elem_of_app in Hin as [Hin|Hin].
    + apply elem_of_app. left. by apply (Hc i).
    + apply kids_paths in Hin as [j [= _ ->]]. apply elem_of_app. right. by apply list_elem_of_singleton.
  - rewrite <- app_assoc. cbn. rewrite app_comm_cons, app_assoc. apply NoDup_app. split_and!; [done| |apply kids_unrepeated].
    intros p Hp Hk. by apply (Hnew p).
Qed.

(** * One turn of the loop *)

Section Key.
Context (key : string).

(** How a node waits in the queue. *)
Definition queued (seen : list Place) (p : Place) : Queued :=
  (p.2, element_key key <$> nearest (paths_of (shown seen)) p.1, Z.of_nat (length p.1)).

#[local] Abbreviation budget := (snapshot_budget mode).

Definition readable (p : Place) : Prop := exists v, cached (un_cache p.2) = Ok v.

(** What the walk has collected is what was seen. *)
Record Holds (seen : list Place) (k : Walk) : Prop := {
  holds_readable : Forall readable seen;
  holds_elements : wk_elements k = describe key seen;
  holds_stored : wk_stored k = remembered key seen;
  holds_nodes : Z.of_nat (length seen) <= bu_max_nodes budget;
  holds_bytes : shown_bytes seen <= bu_max_bytes budget;
}.

Record Counts (seen : list Place) (k : Walk) : Prop := {
  counts_visited : wk_visited k = Z.of_nat (length seen);
  counts_bytes : wk_bytes k = shown_bytes seen;
}.

Lemma shown_next (seen : list Place) (x : Place) v : cached (un_cache x.2) = Ok v ->
  shown (seen ++ [x]) = shown seen ++ (if emits mode (Z.of_nat (length x.1)) v then [(x, v)] else []).
Proof. intros Hv. unfold shown. rewrite omap_app. cbn. rewrite Hv. by destruct (emits _ _ _). Qed.

Lemma paths_seen seen p : p ∈ paths_of (shown seen) -> p ∈ seen.*1.
Proof.
  intros ([q v] & -> & Hq)%list_elem_of_fmap. apply list_elem_of_omap in Hq as (y & Hy & Hf). apply list_elem_of_fmap.
  destruct (cached (un_cache y.2)); [|done]. destruct (emits _ _ _); [|done]. injection Hf as <- <-. by exists y.
Qed.

(** Nothing seen or waiting changes its nearest ancestor. *)
Lemma nearest_stays (seen : list Place) (x : Place) pend p : Sound seen (x :: pend) -> p ∈ (seen ++ x :: pend).*1 ->
  nearest (paths_of (shown (seen ++ [x]))) p = nearest (paths_of (shown seen)) p.
Proof.
  intros Hs Hp. destruct (cached (un_cache x.2)) as [v|e] eqn:Hv.
  - rewrite (shown_next _ _ _ Hv). destruct (emits _ _ _); [|by rewrite app_nil_r].
    unfold paths_of. rewrite fmap_app. by eapply nearest_new, next_not_ancestor.
  - unfold shown. rewrite omap_app. cbn. by rewrite Hv, app_nil_r.
Qed.

Lemma queued_stays (seen : list Place) (x : Place) pend : Sound seen (x :: pend) -> queued (seen ++ [x]) <$> pend = queued seen <$> pend.
Proof.
  intros Hs. apply list_fmap_ext. intros i p Hp. unfold queued. erewrite nearest_stays; [done|exact Hs|].
  rewrite fmap_app. apply elem_of_app. right. right. apply list_elem_of_fmap_2. by eapply list_elem_of_lookup_2.
Qed.

(** The children wait with the key of the node, or with its own parent. *)
Lemma queued_kids (seen : list Place) (x : Place) pend v : Sound seen (x :: pend) -> cached (un_cache x.2) = Ok v ->
  queued (seen ++ [x]) <$> kids x =
  if descends mode v then
    (fun c => (c, if emits mode (Z.of_nat (length x.1)) v then Some (element_key key (length (shown seen))) else element_key key <$> nearest (paths_of (shown seen)) x.1,
               Z.of_nat (length x.1) + 1)) <$> cached_children x.2
  else [].
Proof.
  intros Hs Hv. unfold kids. rewrite Hv. destruct (descends mode v); [|done].
  pose proof (next_unseen _ _ _ Hs) as Hx. assert (Hp : x.1 ∉ paths_of (shown seen)) by (intros ?%paths_seen; done).
  apply list_eq. intros i. rewrite !list_lookup_fmap, list_lookup_imap. destruct (_ !! i) as [c|]; [|done]. cbn [fmap option_fmap option_map queued fst snd].
  unfold queued. cbn [fst snd length]. do 2 f_equal; [f_equal|lia]. rewrite (shown_next _ _ _ Hv). destruct (nearest_child _ i x.1 Hp) as [H1 H2].
  destruct (emits _ _ _).
  - unfold paths_of in *. rewrite fmap_app. cbn [fmap list_fmap fst]. rewrite H2. cbn. by rewrite length_fmap.
  - rewrite app_nil_r, H1. done.
Qed.

Lemma describe_next (seen : list Place) (x : Place) pend v : Sound seen (x :: pend) -> cached (un_cache x.2) = Ok v ->
  describe key (seen ++ [x]) = describe key seen ++
    (if emits mode (Z.of_nat (length x.1)) v then
       [element_of (element_key key (length (shown seen))) (element_key key <$> nearest (paths_of (shown seen)) x.1) v] else []).
Proof.
  intros Hs Hv. assert (Hold : forall y, y ∈ shown seen ->
    nearest (paths_of (shown (seen ++ [x]))) y.1.1 = nearest (paths_of (shown seen)) y.1.1).
  { intros y Hy. eapply nearest_stays; [exact Hs|]. rewrite fmap_app. apply elem_of_app. left. apply paths_seen.
    by apply (list_elem_of_fmap_2 (fun pv => pv.1.1)). }
  set (f := fun i (pv : Place * NodeValues) => element_of (element_key key i) (element_key key <$> nearest (paths_of (shown (seen ++ [x]))) pv.1.1) pv.2).
  assert (Himap : imap f (shown seen) = describe key seen).
  { apply imap_ext. intros i y Hy. unfold f. by rewrite Hold by (by eapply list_elem_of_lookup_2). }
  change (describe key (seen ++ [x])) with (imap f (shown (seen ++ [x]))). rewrite (shown_next _ _ _ Hv), imap_app, Himap. f_equal.
  destruct (emits _ _ _); [|done]. cbn. unfold f. rewrite Nat.add_0_r. cbn [fst snd]. do 3 f_equal. eapply nearest_stays; [exact Hs|].
  rewrite fmap_app. apply elem_of_app. right. by left.
Qed.

Lemma element_key_inj i j : element_key key i = element_key key j -> i = j.
Proof. unfold element_key. intros H. apply (inj (String.append key)), (inj (String.append ":")), (inj pretty) in H. lia. Qed.

Lemma remembered_next (seen : list Place) (x : Place) v : cached (un_cache x.2) = Ok v ->
  remembered key (seen ++ [x]) =
  if emits mode (Z.of_nat (length x.1)) v then
    <[element_key key (length (shown seen)) := {| so_element := un_element x.2; so_signature := element_signature sha256 v |}]> (remembered key seen)
  else remembered key seen.
Proof.
  intros Hv. unfold remembered. rewrite (shown_next _ _ _ Hv). destruct (emits _ _ _); [|by rewrite app_nil_r].
  rewrite imap_app. cbn. rewrite Nat.add_0_r, list_to_map_snoc; [done|].
  intros ([k y] & Hkey & Hin)%list_elem_of_fmap. apply list_elem_of_lookup in Hin as [j Hj]. rewrite list_lookup_imap in Hj.
  apply fmap_Some in Hj as (z & E & [= -> _]). apply element_key_inj in Hkey. apply lookup_lt_Some in E. lia.
Qed.

Lemma remembered_lookup (seen : list Place) i (p : Place) v : shown seen !! i = Some (p, v) ->
  remembered key seen !! element_key key i = Some {| so_element := un_element p.2; so_signature := element_signature sha256 v |}.
Proof.
  intros Hi. apply elem_of_list_to_map_1'.
  - intros y Hy. apply list_elem_of_lookup in Hy as [j Hj]. rewrite list_lookup_imap in Hj. apply fmap_Some in Hj as (z & Hz & [= Hk ->]).
    apply element_key_inj in Hk. subst j. pose proof (eq_trans (eq_sym Hi) Hz) as [= <-]. done.
  - apply list_elem_of_lookup. exists i. rewrite list_lookup_imap. by apply fmap_Some_2 with (1 := Hi).
Qed.

Lemma shown_bytes_next (seen : list Place) (x : Place) v : cached (un_cache x.2) = Ok v ->
  shown_bytes (seen ++ [x]) = shown_bytes seen + (if emits mode (Z.of_nat (length x.1)) v then element_bytes v else 0).
Proof.
  intros Hv. unfold shown_bytes. rewrite (shown_next _ _ _ Hv), fmap_app. destruct (emits _ _ _); cbn; [|rewrite app_nil_r; lia].
  induction (_ <$> shown seen) as [|b l IH]; cbn; lia.
Qed.

(** Why a walk that saw the first [n] nodes of [all 0] stopped; [all extra] has
    that many rows more. *)
Definition verdict (deadline : Z) (all : nat -> list Place) (n : nat) (k : Walk) (w : WinWorld) : Prop :=
  match wk_truncation k with
  | None => forall extra, all extra = take n (all 0%nat)
  | Some DepthLimit => take n (all 0%nat) = all 0%nat /\ all 1%nat <> all 0%nat
  | Some NodeLimit => Z.of_nat (length (take n (all 0%nat))) = bu_max_nodes budget
  | Some ByteLimit => exists x, all 0%nat !! n = Some x /\ bu_max_bytes budget < shown_bytes (take n (all 0%nat) ++ [x])
  | Some ProviderFailure => exists x e, all 0%nat !! n = Some x /\ cached (un_cache x.2) = Err e
  | Some Deadline => deadline <= ww_time w
  end.

Lemma budget_depth : bu_max_depth budget = Z.of_nat max_depth.
Proof. unfold max_depth. by destruct mode. Qed.

Lemma budget_bytes : bu_max_bytes budget < USIZE_MAX.
Proof. by destruct mode. Qed.

(** A node within the depth either ends the walk or is seen. *)
Lemma visit_within (seen : list Place) (x : Place) pend k : Sound seen (x :: pend) -> Holds seen k -> Counts seen k -> wk_truncation k = None -> (length x.1 <= max_depth)%nat ->
  let '(k', next) := visit sha256 f64_to_string mode key (queued seen x) k in
  match next with
  | None => Holds seen k' /\
      match wk_truncation k' with
      | Some NodeLimit => Z.of_nat (length seen) = bu_max_nodes budget
      | Some ByteLimit => bu_max_bytes budget < shown_bytes (seen ++ [x])
      | Some ProviderFailure => exists e, cached (un_cache x.2) = Err e
      | _ => False
      end
  | Some qs => Holds (seen ++ [x]) k' /\ Counts (seen ++ [x]) k' /\ wk_truncation k' = None /\ qs = queued (seen ++ [x]) <$> kids x
  end.
Proof.
  intros Hs Hh [Hvis Hby] Ht Hd. unfold visit, queued at 1. rewrite budget_depth. pose proof Hh as [Hr He Hst Hn Hb]. pose proof budget_bytes as HU.
  destruct (_ <=? _) eqn:Enodes; [split; [by split|cbn; lia]|]. apply Z.leb_gt in Enodes. rewrite (proj2 (Z.ltb_ge _ _)) by lia. cbn [un_cache].
  destruct (cached (un_cache x.2)) as [v|e] eqn:Hv; [|split; [by split|by exists e]].
  pose proof (queued_kids _ _ _ _ Hs Hv) as Hk. pose proof (describe_next _ _ _ _ Hs Hv) as Hde. pose proof (remembered_next seen x v Hv) as Hre.
  pose proof (shown_bytes_next seen x v Hv) as Hsb. cbn [wk_elements wk_bytes wk_stored wk_visited].
  assert (Hlen : length (wk_elements k) = length (shown seen)) by (rewrite He; apply length_imap).
  assert (Hrd : Forall readable (seen ++ [x])) by (apply Forall_app; split; [done|]; constructor; [by exists v|constructor]).
  assert (Hnodes : Z.of_nat (length (seen ++ [x])) = wk_visited k + 1) by (rewrite length_app; cbn; lia).
  destruct (emits mode (Z.of_nat (length x.1)) v) eqn:Em.
  - rewrite Hlen. destruct (_ <? _) eqn:Ebytes.
    + apply Z.ltb_lt in Ebytes. split; [by split|]. cbn. lia.
    + apply Z.ltb_ge in Ebytes. rewrite Hby, <- Hsb in Ebytes |- *. assert (Hfits : shown_bytes (seen ++ [x]) <= bu_max_bytes budget) by lia.
      rewrite Z.min_r by lia. split_and!.
      * split; cbn; [done|by rewrite Hde, He|by rewrite Hre, Hst|lia|lia].
      * split; cbn; lia.
      * done.
      * rewrite Hk. done.
  - split_and!.
    + split; cbn; [done|by rewrite Hde, app_nil_r|by rewrite Hre|lia|lia].
    + split; cbn; lia.
    + done.
    + by rewrite Hk.
Qed.

(** * The loop *)

Section Loop.
Context (os : Native) (deadline : Z).

#[local] Abbreviation walked fuel queue k := (walk sha256 f64_to_string os fuel mode key deadline queue k).

Definition weight (ps : list Place) : nat := foldr (fun c k => (node_size c + k)%nat) 0%nat ps.*2.

Lemma weight_app xs ys : weight (xs ++ ys) = (weight xs + weight ys)%nat.
Proof. unfold weight. rewrite fmap_app. induction xs.*2 as [|n l IH]; [done|]. cbn in *. lia. Qed.

Lemma weight_kids x : (weight (kids x) < node_size x.2)%nat.
Proof.
  destruct x as [path [e c cs]]. unfold kids, weight. cbn [fst snd un_cache cached_children node_size]. destruct (cached c) as [v|]; [|cbn; lia].
  destruct (descends _ _); [|cbn; lia]. assert ((imap (fun i c => (i :: path, c)) cs).*2 = cs) as ->; [|lia].
  apply list_eq. intros i. rewrite list_lookup_fmap, list_lookup_imap. by destruct (cs !! i).
Qed.

Lemma weight_pos x ps : (0 < weight (x :: ps))%nat.
Proof. unfold weight. destruct x as [? []]. cbn. lia. Qed.

(** The nodes below the depth only show that there are some. *)
Lemma walk_below fuel : forall seen c k w,
  (weight c <= fuel)%nat -> Forall (fun p => (max_depth < length p.1)%nat) c ->
  Holds seen k -> Counts seen k -> wk_truncation k = Some DepthLimit \/ (wk_truncation k = None /\ c <> []) ->
  exists w' k', walked fuel (queued seen <$> c) k w = (w', Ok k') /\ ww_log w' = ww_log w /\ Holds seen k' /\
    match wk_truncation k' with
    | Some DepthLimit => True
    | Some NodeLimit => Z.of_nat (length seen) = bu_max_nodes budget
    | Some Deadline => deadline <= ww_time w'
    | _ => False
    end.
Proof.
  induction fuel as [|fuel IH]; intros seen [|x c] k w Hw Hc Hh Hn Ht; cbn [walk fmap list_fmap].
  - destruct Ht as [Ht|[_ ?]]; [|done]. exists w, k. split_and!; [done..|]. by rewrite Ht.
  - pose proof (weight_pos x c). lia.
  - destruct Ht as [Ht|[_ ?]]; [|done]. exists w, k. split_and!; [done..|]. by rewrite Ht.
  - apply Forall_cons in Hc as [Hx Hc]. unfold ibind, current_time. destruct (deadline <=? _) eqn:Ed.
    { eexists _, _. split; [done|]. split_and!; [done| |by apply Z.leb_le]. by destruct Hh. }
    unfold visit, queued at 1. destruct (_ <=? wk_visited k) eqn:En.
    { eexists _, _. split; [done|]. split_and!; [done| |]; destruct Hh, Hn; [done|]. cbn. lia. }
    rewrite budget_depth, (proj2 (Z.ltb_lt _ _)) by lia. rewrite app_nil_r.
    edestruct (IH seen c) as (w' & k' & E & Hl & Hh' & Hv); last first.
    + exists w', k'. split; [exact E|]. split_and!; [by rewrite Hl|done|done].
    + left. destruct Ht as [-> |[-> _]]; done.
    + by destruct Hn.
    + by destruct Hh.
    + done.
    + unfold weight in *. cbn in Hw. destruct x as [? []]. cbn in Hw. lia.
Qed.

(** The walk from here sees a first part of [all 0] and says why it stopped. *)
Definition ends (fuel : nat) (all : nat -> list Place) (seen pend : list Place) (k : Walk) (w : WinWorld) : Prop :=
  exists w' k' n, walked fuel (queued seen <$> pend) k w = (w', Ok k') /\ ww_log w' = ww_log w /\
    Holds (take n (all 0%nat)) k' /\ verdict deadline all n k' w'.

(** Where the walk stands: [b] is left of the row at [depth], [c] begun of the
    next. *)
Record Stands (rows depth : nat) (all : nat -> list Place) (seen b c : list Place) : Prop := {
  st_depth : (depth + rows = max_depth)%nat;
  st_row : Forall (fun p => length p.1 = depth) b;
  st_next : Forall (fun p => length p.1 = S depth) c;
  st_all : forall extra, all extra = seen ++ rest (rows + extra) b c;
  st_sound : Sound seen (b ++ c);
}.

Lemma stands_seen rows depth all seen b c : Stands rows depth all seen b c -> take (length seen) (all 0%nat) = seen.
Proof. intros [_ _ _ Hall _]. by rewrite Hall, take_app_length. Qed.

Lemma stands_next rows depth all seen x b c : Stands rows depth all seen (x :: b) c -> Stands rows depth all (seen ++ [x]) b (c ++ kids x).
Proof.
  intros [Hd [Hx Hb]%Forall_cons Hc Hall Hs]. split; [done|done| | |rewrite app_assoc; by apply sound_next].
  - apply Forall_app. split; [done|]. apply Forall_forall. intros p Hp. apply (list_elem_of_fmap_2 fst), kids_paths in Hp as [i Hp].
    rewrite Hp. cbn. by rewrite Hx.
  - intros extra. by rewrite Hall, rest_next, <- app_assoc.
Qed.

Lemma ends_empty fuel rows depth all seen k w : Stands rows depth all seen [] [] -> Holds seen k -> wk_truncation k = None -> ends fuel all seen [] k w.
Proof.
  intros Hst Hh Ht. pose proof (stands_seen _ _ _ _ _ _ Hst) as Hseen. exists w, k, (length seen).
  split_and!; [by destruct fuel|done|by rewrite Hseen|]. unfold verdict. rewrite Ht, Hseen. intros extra. by rewrite (st_all _ _ _ _ _ _ Hst), rest_end, app_nil_r.
Qed.

Lemma ends_below fuel depth all seen x c k w : Stands 0 depth all seen [] (x :: c) -> (weight (x :: c) <= fuel)%nat ->
  Holds seen k -> Counts seen k -> wk_truncation k = None -> ends fuel all seen (x :: c) k w.
Proof.
  intros Hst Hw Hh Hn Ht. pose proof (stands_seen _ _ _ _ _ _ Hst) as Hseen. destruct Hst as [Hd _ Hc Hall _].
  destruct (walk_below fuel seen (x :: c) k w) as (w' & k' & E & Hl & Hh' & Hv); [done| |done|done|by right|].
  { eapply Forall_impl; [exact Hc|]. cbn. lia. }
  exists w', k', (length seen). rewrite Hseen. split_and!; [done..|]. unfold verdict. rewrite Hseen.
  destruct (wk_truncation k') as [[]|]; try done. rewrite !Hall. unfold rest. cbn. rewrite app_nil_r. split; [done|].
  intros H%(f_equal length). rewrite length_app in H. cbn in H. lia.
Qed.

(** One node of the row, given the walk over what then waits. *)
Lemma ends_next fuel rows depth all seen x b c k w : Stands rows depth all seen (x :: b) c -> Holds seen k -> Counts seen k -> wk_truncation k = None ->
  (forall k w, Holds (seen ++ [x]) k -> Counts (seen ++ [x]) k -> wk_truncation k = None -> ends fuel all (seen ++ [x]) (b ++ c ++ kids x) k w) ->
  ends (S fuel) all seen ((x :: b) ++ c) k w.
Proof.
  intros Hst Hh Hn Ht IH. pose proof (stands_seen _ _ _ _ _ _ Hst) as Hseen. destruct Hst as [Hd [Hx Hb]%Forall_cons Hc Hall Hs].
  assert (Hnext : all 0%nat !! length seen = Some x) by (by rewrite Hall, rest_next, lookup_app_r, Nat.sub_diag).
  unfold ends. cbn [app fmap list_fmap walk]. unfold ibind, current_time. destruct (deadline <=? _) eqn:Ed.
  { eexists _, _, (length seen). split; [done|]. rewrite Hseen. split_and!; [done|by destruct Hh|]. unfold verdict. by apply Z.leb_le. }
  pose proof (visit_within seen x (b ++ c) k Hs Hh Hn Ht ltac:(lia)) as Hvis. destruct (visit _ _ _ _ _ _) as [k1 [qs|]].
  - destruct Hvis as (Hh1 & Hn1 & Ht1 & ->). destruct (IH k1 (WinInput.tick os 0 w) Hh1 Hn1 Ht1) as (w' & k' & n & E & Hl & Hr & Hv).
    exists w', k', n. rewrite <- E. split_and!; [|by rewrite Hl|done|done]. f_equal.
    rewrite app_assoc, (fmap_app _ (b ++ c)). f_equal. symmetry. by apply queued_stays.
  - destruct Hvis as [Hh1 Hwhy]. eexists _, _, (length seen). split; [done|]. rewrite Hseen. split_and!; [done|done|].
    unfold verdict. rewrite Hseen. destruct (wk_truncation k1) as [[]|]; try done; [by exists x|]. destruct Hwhy as [e He]. by exists x, e.
Qed.

Lemma walk_rows fuel : forall rows depth b c all seen k w, Stands rows depth all seen b c -> (weight (b ++ c) <= fuel)%nat ->
  Holds seen k -> Counts seen k -> wk_truncation k = None -> ends fuel all seen (b ++ c) k w.
Proof.
  induction fuel as [|fuel IH]; intros rows depth b c all seen k w Hst Hw Hh Hn Ht.
  { destruct (b ++ c) as [|x l] eqn:E; [|pose proof (weight_pos x l); lia]. apply app_nil in E as [-> ->]. by eapply ends_empty. }
  assert (Hstep : forall rows depth x b c, Stands rows depth all seen (x :: b) c -> (weight ((x :: b) ++ c) <= S fuel)%nat ->
    ends (S fuel) all seen ((x :: b) ++ c) k w).
  { clear rows depth b c Hst Hw. intros rows depth x b c Hst Hw. eapply ends_next; [done..|]. intros k1 w1 Hh1 Hn1 Ht1.
    eapply IH; [by apply stands_next| |done..]. rewrite app_assoc, weight_app. pose proof (weight_kids x) as Hk. unfold weight in *. cbn in Hw. lia. }
  destruct b as [|x b]; [|by eapply Hstep]. destruct c as [|x c]; [by eapply ends_empty|]. destruct rows as [|rows]; [by eapply ends_below|].
  cbn [app] in *. rewrite <- (app_nil_r (x :: c)) in Hw |- *. apply (Hstep rows (S depth)); [|done].
  destruct Hst as [Hd Hb Hc Hall Hs]. split; [lia|done|constructor| |by rewrite app_nil_r]. intros extra. by rewrite Hall, Nat.add_succ_l, rest_row.
Qed.

End Loop.

End Key.

End Reference.

(** * Snapshots and actions on what they show *)

Section Claims.
Context (sha256 : list Z -> list Z) (f64_to_string : f64 -> string) (uia : SemSystem) (os : Native).

Lemma push_snapshot_last stored snapshots : last (push_snapshot stored snapshots) = Some stored /\ (length (push_snapshot stored snapshots) <= SNAPSHOT_CACHE_LIMIT)%nat.
Proof.
  unfold push_snapshot. rewrite length_drop. split; [|unfold SNAPSHOT_CACHE_LIMIT; lia].
  rewrite drop_app_le by (rewrite length_app; cbn; unfold SNAPSHOT_CACHE_LIMIT; lia). apply last_snoc.
Qed.

Lemma start_holds key mode : Holds sha256 f64_to_string mode key [] walk_none /\ Counts f64_to_string mode [] walk_none.
Proof. split; split; [constructor|done|done|destruct mode; cbn; lia|destruct mode; cbn; lia|done|done]. Qed.

Lemma start_stands mode root :
  Stands f64_to_string mode (max_depth mode) 0 (fun extra => level_order f64_to_string mode (S (max_depth mode + extra)) [([], root)]) [] [([], root)] [].
Proof.
  split; [done|by constructor|constructor| |].
  - intros extra. unfold rest. cbn. by rewrite app_nil_r.
  - split; cbn; [by intros i up ?%list_elem_of_singleton|]. apply NoDup_singleton.
Qed.

(** The walk of a snapshot, and what is kept of it. *)
Lemma snapshot_walked raw_hwnd mode d root : se_root uia (ww_at (dv_win d)) raw_hwnd mode = Ok root ->
  let next := (ss_next_snapshot (dv_sem d) + 1) mod 2 ^ 64 in
  exists w' k n deadline, ww_time (dv_win d) + bu_time (snapshot_budget mode) <= deadline /\ ww_log w' = ww_log (dv_win d) /\
    snapshot sha256 f64_to_string uia os raw_hwnd mode d =
      ({| dv_win := w'; dv_sem := {| ss_next_snapshot := next; ss_snapshots := push_snapshot (wk_stored k) (ss_snapshots (dv_sem d)) |};
          dv_invalidated := dv_invalidated d |}, Ok (snapshot_of k)) /\
    Holds sha256 f64_to_string mode (snapshot_key_of raw_hwnd next) (take n (within f64_to_string mode root)) k /\
    verdict f64_to_string mode deadline (fun extra => level_order f64_to_string mode (S (max_depth mode + extra)) [([], root)]) n k w'.
Proof.
  intros Hroot next. unfold snapshot, ibind, on_win, ask. cbn [dv_win dv_sem]. rewrite Hroot.
  set (w1 := tick os 0 (dv_win d)). cbn [dv_win dv_sem current_time]. fold next. set (key := snapshot_key_of _ _). set (w2 := tick os 0 w1). set (deadline := ww_time w2 + _).
  destruct (start_holds key mode) as [Hh Hn].
  destruct (walk_rows sha256 f64_to_string mode key os deadline (node_size root) _ _ _ _ _ _ walk_none w2 (start_stands mode root)) as (w' & k & n & E & Hl & Hr & Hv); [|done..|].
  { unfold weight. cbn. lia. }
  change (queued f64_to_string mode key [] <$> [([], root)] ++ []) with [(root, @None string, 0)] in E. rewrite E. cbn [dv_win dv_sem ss_snapshots dv_invalidated].
  exists w', k, n, deadline. split_and!; [unfold deadline, w2, w1, tick; cbn; lia|by rewrite Hl|done| |exact Hv].
  cbv beta in Hr. rewrite Nat.add_0_r in Hr. exact Hr.
Qed.


(** ** Actions *)

Lemma begin_log guard w : let '(w', r) := win_begin_dispatch os guard w in
  match r with Ok _ => exists l g t, ww_log w' = ww_log w ++ [Cleared l g t] | Err _ => ww_log w' = ww_log w end.
Proof.
  unfold win_begin_dispatch. destruct (os_input_desktop_available _ _), guard as [[lease observed]|]; cbn; [|by eauto| |done].
  - destruct (begin_dispatch _ _ _ _) as [g [[]|e]]; cbn; [by eauto|done].
  - by destruct (check _ _ _).
Qed.

Lemma find_newest key snapshots s e : last snapshots = Some s -> s !! key = Some e -> find_element key snapshots = Some e.
Proof.
  intros Hl He. destruct (snapshots) as [|x l] using rev_ind; [done|]. rewrite last_snoc in Hl. injection Hl as ->.
  unfold find_element. rewrite fold_left_app. cbn. by rewrite He.
Qed.

(** What an action on a stored element adds to the log. *)
Definition acted (stored : StoredElement) (action : SemanticAction) (r : Result unit DriverError) (new : list What) : Prop :=
  (new = [] /\ r <> Ok tt) \/
  exists l g t answer m current v, new = [Cleared l g t; Patterned (so_element stored) action answer] /\ (r = Ok tt -> answer = true) /\
    se_refresh uia m (so_element stored) = Ok current /\ cached_values f64_to_string current = Ok v /\ element_signature sha256 v = so_signature stored.

Lemma perform_acted guard key action stored d : find_element key (ss_snapshots (dv_sem d)) = Some stored ->
  let '(d', r) := sem_perform sha256 f64_to_string uia os guard key action d in
  exists new, ww_log (dv_win d') = ww_log (dv_win d) ++ new /\ acted stored action r new.
Proof.
  intros Hf. assert (Hnone : forall (d' : DrvWorld) e, ww_log (dv_win d') = ww_log (dv_win d) ->
    exists new, ww_log (dv_win d') = ww_log (dv_win d) ++ new /\ acted stored action (Err e) new).
  { intros d' e Hl. exists []. split; [by rewrite app_nil_r|]. by left. }
  unfold sem_perform, ibind, on_win, check_guard. set (w1 := tick os 0 (dv_win d)). cbn [dv_win dv_sem].
  destruct (match guard with Some _ => _ | None => _ end) as [[]|e]; [|by apply Hnone]. rewrite Hf. cbn [dv_win]. unfold ask at 1. set (w2 := tick os 0 w1).
  destruct (se_refresh uia _ _) as [current|e] eqn:Er; [|by apply Hnone]. unfold raise.
  destruct (cached_values f64_to_string current) as [v|e] eqn:Ev; cbn [rmap_err]; [|by apply Hnone].
  destruct (bool_decide _) eqn:Es; cbn [negb]; [|by apply Hnone]. apply bool_decide_eq_true in Es.
  assert (Hsup : exists w3 b, (match action with SemFocus => iret true | _ => ask os (fun n => se_pattern uia n (so_element stored) action) end) w2 = (w3, Ok b) /\ ww_log w3 = ww_log w2)
    by (destruct action; eexists _, _; (split; [reflexivity|done])).
  destruct Hsup as (w3 & b & -> & Hl3). destruct b; cbn [negb]; [|by apply Hnone]. pose proof (begin_log guard w3) as Hb.
  destruct (win_begin_dispatch os guard w3) as [w4 [[]|e]]; [|apply Hnone; cbn; by rewrite Hb, Hl3].
  destruct Hb as (l & g & t & Hb). unfold act. set (answer := se_call uia _). set (w5 := logged _ _).
  assert (Hl5 : ww_log (tick os 0 w5) = ww_log (dv_win d) ++ [Cleared l g t; Patterned (so_element stored) action (match answer with None => true | Some _ => false end)]).
  { unfold w5. cbn. rewrite Hb, Hl3. by rewrite <- app_assoc. }
  destruct (match guard with Some _ => _ | None => _ end) as [[]|e]; [destruct answer as [e|]|];
    (eexists; split; [exact Hl5|]; right; eexists _, _, _, _, _, current, v; split; [done|]; by split_and!).
Qed.


End Claims.

(** * A window with a button *)

Module Tree.

Definition cache (control : ControlType) (name : string) (side : Z) : UiaCache := {|
  uc_control_type := Some control; uc_name := Some name; uc_rectangle := Some {| rc_left := 0; rc_top := 0; rc_right := side; rc_bottom := side |};
  uc_is_password := Some false; uc_value := None; uc_range := None; uc_selected := None; uc_toggle := None; uc_expand := None;
  uc_enabled := Some true; uc_focused := Some false; uc_focusable := Some false; uc_offscreen := Some false |}.

Definition save : UiaCache := cache CtButton "Save" 20.
Definition window : UiaNode := UNode 1 (cache CtWindow "Notes" 200) [UNode 2 (cache CtPane "" 100) [UNode 3 save []]].

Definition provider : SemSystem := {|
  se_root := fun _ _ _ => Ok window; se_refresh := fun _ _ => Ok save; se_pattern := fun _ _ _ => true; se_call := fun _ => None |}.

Definition before : DrvWorld := {| dv_win := Pane.start; dv_sem := {| ss_next_snapshot := 0; ss_snapshots := [] |}; dv_invalidated := 0 |}.
Definition taken := snapshot (fun bytes => bytes) (fun _ => "0"%string) provider Pane.willing 7 AxInteractive before.

(** The pane has no name but is at depth one, so all three are shown. *)
Example taken_elements : exists sn, taken.2 = Ok sn /\ sn_complete sn = true /\
  (fun e => (el_key e, el_parent_key e)) <$> sn_elements sn =
    [("uia:7:1:0", None); ("uia:7:1:1", Some "uia:7:1:0"); ("uia:7:1:2", Some "uia:7:1:1")]%string.
Proof. eexists. split; [vm_compute; reflexivity|]. by split. Qed.

Definition button : DriverElement :=
  {| el_key := "uia:7:1:2"; el_parent_key := Some "uia:7:1:1"%string; el_role := "button"; el_name := "Save"; el_value := None; el_range_value := None;
     el_screen_bounds := semantic_rect {| rc_left := 0; rc_top := 0; rc_right := 20; rc_bottom := 20 |}; el_enabled := true; el_focused := false;
     el_selected := None; el_checked := None; el_expanded := None; el_actions := ["invoke"%string] |}.


End Tree.
