(* ===== verification/MacSemantic.v ===== *)
(** The accessibility actor of macOS: [src/crates/platform/src/macos/semantic.rs].

    Elements are handles; what the accessibility API answers is a function of
    the position in the run, and time and the guard's cells move between calls.
    The log holds the batch reads of a snapshot and everything that changes the
    target.  What both semantic actors do alike (the stored snapshots, the walk's
    account, field bounds) is shared with [WinSemantic].  SHA-256, the printing
    of floats and the name of the secure-field subrole are parameters. *)

From stdpp Require Import pretty.
From Stdlib Require Import Ascii String SpecFloat.
From S2P Require Import Prelude Floats Geometry Text Protocol Errors Driver PrivateState Fingerprint InputText WinInput WinSemantic.
#[local] Open Scope Z_scope.

Definition WINDOW_CONFIRM_TIMEOUT : Z := 200 * MILLISECOND.
Definition WINDOW_CONFIRM_INTERVAL : Z := 10 * MILLISECOND.
Definition STATE_WINDOWS : nat := 64.

(** * Values *)

Inductive AxAttribute :=
| AxRole | AxSubrole | AxTitle | AxDescription | AxValue | AxEnabled | AxFocused | AxPosition | AxSize | AxChildren | AxSelected
| AxExpanded | AxMinValue | AxMaxValue | AxValueIncrement | AxWindow | AxWindows | AxParent | AxMinimized | AxFrontmost | AxMain.

Inductive AxAction := AxPress | AxPick | AxRaise | AxOtherAction.

#[export] Instance AxAction_eq_dec : EqDecision AxAction.
Proof. solve_decision. Defined.

(** A Core Foundation value by its type; the entries of an array that are not
    elements are [None]. *)
Inductive CFType :=
| CfString (s : string)
| CfBoolean (b : bool)
| CfNumber (as_i64 : option Z) (as_f64 : option f64)
| CfElement (element : Z)
| CfArray (items : list (option Z))
| CfPoint (x y : f64)
| CfSize (width height : f64)
| CfOther.

Definition cf_string (v : CFType) : option string := match v with CfString s => Some s | _ => None end.
Definition cf_boolean (v : CFType) : option bool := match v with CfBoolean b => Some b | _ => None end.
Definition cf_booleanish (v : CFType) : option bool :=
  match v with CfBoolean b => Some b | CfNumber (Some n) _ => Some (negb (n =? 0)) | _ => None end.
Definition cf_number (v : CFType) : option f64 := match v with CfNumber _ d => d | _ => None end.
Definition children_from_value (v : CFType) : list Z := match v with CfArray items => omap id items | _ => [] end.
Definition ax_point (v : CFType) : option (f64 * f64) := match v with CfPoint x y => Some (x, y) | _ => None end.
Definition ax_size (v : CFType) : option (f64 * f64) := match v with CfSize w h => Some (w, h) | _ => None end.

Definition bounds_from_values (position size : option CFType) : option ScreenRect :=
  match mbind ax_point position, mbind ax_size size with
  | Some (x, y), Some (width, height) =>
      if negb (is_finite x) || negb (is_finite y) || negb (is_finite width) || negb (is_finite height)
         || f64_lt width (f64_of_Z 0) || f64_lt height (f64_of_Z 0) then None
      else Some {| sr_x := x; sr_y := y; sr_width := width; sr_height := height |}
  | _, _ => None
  end.

(** * Errors *)

Inductive AxError := AxCannotComplete | AxInvalidUIElement | AxFailure.

Definition ax_provider_failure (message : string) : DriverError := de_with_retry (driver_error DPlatform message) "retry_accessibility_snapshot".
Definition ax_stale_element : DriverError :=
  de_with_retry (driver_error DStaleObservation "accessibility element changed after observation") "observe_window".
Definition ax_provider_error (e : AxError) (message : string) : DriverError :=
  match e with
  | AxCannotComplete => target_unresponsive message
  | AxInvalidUIElement => de_with_retry (driver_error DTargetUnavailable message) "list_windows"
  | AxFailure => ax_provider_failure message
  end.
Definition map_action_error (e : option AxError) : Result unit DriverError :=
  match e with
  | None => Ok tt
  | Some AxCannotComplete => Err (mutation_indeterminate (target_unresponsive "accessibility action timed out"))
  | Some _ => Err (de_with_retry (driver_error DStaleObservation "accessibility element no longer accepts the observed action") "observe_window")
  end.
Definition ax_permission_required : DriverError :=
  mutation_not_dispatched (driver_error DPermissionRequired "macOS accessibility permission is required").
Definition matching_window_unavailable : DriverError :=
  de_with_retry (driver_error DTargetUnavailable "matching accessibility window is unavailable") "focus_window".
Definition window_ambiguous : DriverError :=
  de_with_retry (driver_error DTargetUnavailable "matching accessibility window identity is ambiguous") "observe_window".
Definition window_transformed : DriverError :=
  de_with_retry (driver_error DTargetUnavailable "window geometry is transformed or changing") "focus_window".
Definition activation_refused (what : string) (e : DriverError) : DriverError :=
  mutation_not_dispatched (driver_error DForegroundRequired ("macOS refused target " +:+ what +:+ " activation: " +:+ de_message e)%string).

(** * Windows *)

Definition close_to (tolerance : Z) (a b : f64) : bool := f64_le (f64_abs (f64_sub a b)) (f64_of_Z tolerance).

Definition window_identity_matches (actual_number : option Z) (expected_number : Z) (bounds : option ScreenRect) (title : option string)
    (expected_bounds : ScreenRect) (expected_title : string) : bool :=
  match bounds with
  | None => false
  | Some bounds =>
      let geometry_matches :=
        close_to 1 (sr_x bounds) (sr_x expected_bounds) && close_to 1 (sr_y bounds) (sr_y expected_bounds)
        && close_to 1 (sr_width bounds) (sr_width expected_bounds) && close_to 1 (sr_height bounds) (sr_height expected_bounds) in
      let title_matches := str_eqb expected_title "" || match title with Some title => str_eqb title expected_title | None => true end in
      geometry_matches && match actual_number with Some number => number =? expected_number | None => title_matches end
  end.

(** A target window as the driver describes it. *)
Record AxTarget := { at_pid : Z; at_window_number : Z; at_bounds : ScreenRect; at_title : string }.

(** * The world *)

Inductive AxWhat :=
| AxRead (element : Z) (children : list Z)
| AxAdmitted (lease : option nat) (cells : GuardState) (now : Z)
| AxWrote (element : Z) (attribute : AxAttribute) (value : CFType) (answer : option AxError)
| AxPerformed (element : Z) (action : AxAction) (answer : option AxError).

Record MacWorld := {
  mc_log : list AxWhat;
  mc_at : nat;
  mc_time : Z;
  mc_guard : GuardState;
  mc_next_snapshot : Z;
  mc_snapshots : list (gmap string StoredElement);
  mc_state_windows : gmap string Z;
}.

Record AxSystem := {
  ax_late : nat -> Z;
  ax_events : nat -> list guard_event;
  ax_trusted : nat -> bool;
  ax_application : Z -> Z;
  ax_timeout_set : nat -> Z -> bool;
  ax_at_position : nat -> Z -> f64 -> f64 -> Result Z AxError;
  ax_attribute : nat -> Z -> AxAttribute -> Result CFType AxError;
  ax_multiple : nat -> Z -> list AxAttribute -> Result (list CFType) AxError;
  ax_window_number : nat -> Z -> option Z;
  ax_settable : nat -> Z -> AxAttribute -> bool;
  ax_action_names : nat -> Z -> Result (list AxAction) AxError;
  ax_encodes : nat -> bool;
  ax_answer : nat -> option AxError;
}.

(** * Elements *)

Record AxNode := {
  an_role : string;
  an_name : string;
  an_value : option string;
  an_range_value : option AccessibilityRangeValue;
  an_enabled : bool;
  an_focused : bool;
  an_selected : option bool;
  an_checked : option bool;
  an_expanded : option bool;
  an_bounds : option ScreenRect;
  an_children : list Z;
}.

Definition normalize_role (role : string) : string := to_ascii_lowercase (default role (strip_prefix "AX" role)).

Definition ax_normalized_actions (role : string) (range_value : option AccessibilityRangeValue) : list string :=
  if match range_value with Some range => negb (rv_read_only range) | None => false end then ["focus"; "set_range_value"]%string
  else if existsb (str_eqb role) ["AXButton"; "AXMenuItem"; "AXLink"]%string then ["invoke"]%string
  else if existsb (str_eqb role) ["AXCheckBox"; "AXSwitch"]%string then ["toggle"]%string
  else if existsb (str_eqb role) ["AXRadioButton"; "AXRow"; "AXCell"; "AXTab"]%string then ["select"]%string
  else if existsb (str_eqb role) ["AXTextField"; "AXTextArea"; "AXComboBox"; "AXSlider"]%string then ["focus"; "set_value"]%string
  else if str_eqb role "AXDisclosureTriangle" then ["set_expanded"]%string
  else [].

Definition ax_snapshot_budget (mode : AccessibilityMode) : SnapshotBudget :=
  match mode with
  | AxDisabled => {| bu_max_nodes := 0; bu_max_depth := 0; bu_max_bytes := 0; bu_time := 0 |}
  | AxInteractive => {| bu_max_nodes := 800; bu_max_depth := 16; bu_max_bytes := 256 * 1024; bu_time := 220 * MILLISECOND |}
  | AxFull => {| bu_max_nodes := 2500; bu_max_depth := 32; bu_max_bytes := 1024 * 1024; bu_time := 250 * MILLISECOND |}
  end.

Definition ax_element_of (key : string) (parent : option string) (v : AxNode) : DriverElement :=
  {| el_key := key; el_parent_key := parent; el_role := normalize_role (an_role v); el_name := an_name v; el_value := an_value v;
     el_range_value := an_range_value v; el_screen_bounds := an_bounds v; el_enabled := an_enabled v; el_focused := an_focused v;
     el_selected := an_selected v; el_checked := an_checked v; el_expanded := an_expanded v;
     el_actions := ax_normalized_actions (an_role v) (an_range_value v) |}.

Definition ax_emits (mode : AccessibilityMode) (depth : Z) (v : AxNode) : bool :=
  bool_decide (mode = AxFull) || negb (bool_decide (ax_normalized_actions (an_role v) (an_range_value v) = []))
  || negb (str_eqb (an_name v) "") || (depth <=? 1).

Definition ax_element_bytes (v : AxNode) : Z := slen (an_role v) + slen (an_name v) + match an_value v with Some value => slen value | None => 0 end.

(** A row without a name takes the name of a named child, the last one. *)
Definition child_names (elements : list DriverElement) : gmap string string :=
  fold_left (fun names e => match el_parent_key e with
    | Some parent => if str_eqb (el_name e) "" then names else <[parent := el_name e]> names
    | None => names
    end) elements ∅.

Definition propagate_table_row_names (elements : list DriverElement) : list DriverElement :=
  let names := child_names elements in
  (fun e => if str_eqb (el_role e) "row" && str_eqb (el_name e) "" then
              match names !! el_key e with Some name => {| e with el_name := name |} | None => e end
            else e) <$> elements.

(** An entry of the queue: the element, its nearest emitted ancestor, its
    depth. *)
Definition AxQueued : Type := Z * option string * Z.

Section Semantic.
Context (sha256 : list Z -> list Z) (f64_to_string : f64 -> string) (secure_subrole : string) (os : AxSystem).

#[local] Abbreviation Mac := (Act (W := MacWorld)).

Definition ax_tick (wait : Z) (w : MacWorld) : MacWorld :=
  {| w with mc_at := S (mc_at w); mc_time := mc_time w + Z.max 0 wait + Z.max 0 (ax_late os (mc_at w));
            mc_guard := default (mc_guard w) (run_events (mc_guard w) (ax_events os (mc_at w))) |}.

Definition ax_ask {A} (f : nat -> A) : Mac A := fun w => (ax_tick 0 w, Ok (f (mc_at w))).
Definition ax_raise {A} (r : Result A DriverError) : Mac A := fun w => (w, r).
Definition ax_note (what : AxWhat) : Mac unit := fun w => ({| w with mc_log := mc_log w ++ [what] |}, Ok tt).
Definition ax_now : Mac Z := fun w => let w := ax_tick 0 w in (w, Ok (mc_time w)).
Definition ax_sleep (wait : Z) : Mac unit := fun w => (ax_tick wait w, Ok tt).

(** [.ok()]. *)
Definition attempt {A} (m : Mac A) : Mac (option A) := ikeep m (fun r => iret (match r with Ok a => Some a | Err _ => None end)).

(** A call of the API with its error. *)
Definition ax_call {A} (f : nat -> Result A AxError) (message : string) : Mac A :=
  let& r := ax_ask f in ax_raise (match r with Ok a => Ok a | Err e => Err (ax_provider_error e message) end).

Definition ensure_accessibility_permission : Mac unit :=
  let& trusted := ax_ask (ax_trusted os) in if trusted : bool then iret tt else ierr ax_permission_required.

Definition set_messaging_timeout (element : Z) : Mac unit :=
  let& set := ax_ask (fun n => ax_timeout_set os n element) in
  if set : bool then iret tt else ierr (ax_provider_failure "failed to set AX messaging timeout").

Definition element_at_position (application : Z) (x y : f64) : Mac Z :=
  ax_call (fun n => ax_at_position os n application x y) "accessibility hit testing failed".

Definition copy_attribute (element : Z) (attribute : AxAttribute) : Mac CFType :=
  ax_call (fun n => ax_attribute os n element attribute) "accessibility element relation read failed".

Definition copy_element (element : Z) (attribute : AxAttribute) : Mac Z :=
  let& value := copy_attribute element attribute in
  match value with CfElement e => iret e | _ => ierr (ax_provider_failure "accessibility element relation has an invalid type") end.

Definition copy_children (element : Z) (attribute : AxAttribute) : Mac (list Z) :=
  let& value := ax_call (fun n => ax_attribute os n element attribute) "accessibility provider child read failed" in
  iret (children_from_value value).

Definition copy_multiple (element : Z) (attributes : list AxAttribute) : Mac (list CFType) :=
  ax_call (fun n => ax_multiple os n element attributes) "accessibility provider batch read failed".

(** The symbol may be missing, and a number of zero is none. *)
Definition read_window_number (element : Z) : Mac (option Z) :=
  let& number := ax_ask (fun n => ax_window_number os n element) in
  iret (match number with Some number => if number =? 0 then None else Some number | None => None end).

Definition read_window_identity (element : Z) : Mac (option string * option ScreenRect) :=
  let& values := copy_multiple element [AxTitle; AxPosition; AxSize] in
  iret (mbind cf_string (values !! 0%nat), bounds_from_values (values !! 1%nat) (values !! 2%nat)).

(** Whether a window is the target now. *)
Definition is_target (t : AxTarget) (window : Z) (identity : option string * option ScreenRect) : Mac bool :=
  let& number := read_window_number window in
  iret (window_identity_matches number (at_window_number t) identity.2 identity.1 (at_bounds t) (at_title t)).

(** The window under the middle of the target, if it is the target. *)
Definition window_under (t : AxTarget) (application : Z) : Mac (option Z) :=
  let b := at_bounds t in
  let half := S754_finite false 4503599627370496 (-53) in
  let& element := attempt (element_at_position application (f64_add (sr_x b) (f64_mul (sr_width b) half)) (f64_add (sr_y b) (f64_mul (sr_height b) half))) in
  match element with
  | None => iret None
  | Some element =>
      let& window := attempt (copy_element element AxWindow) in
      match window with
      | None => iret None
      | Some window =>
          let& identity := attempt (read_window_identity window) in
          match identity with
          | None => iret None
          | Some identity => let& same := is_target t window identity in iret (if same : bool then Some window else None)
          end
      end
  end.

(** The first [limit] windows that are the target. *)
Fixpoint matching_windows (t : AxTarget) (limit : nat) (windows : list Z) : Mac (list Z) :=
  match limit, windows with
  | S left_, window :: windows =>
      let& identity := attempt (read_window_identity window) in
      match identity with
      | None => matching_windows t limit windows
      | Some identity =>
          let& same := is_target t window identity in
          if same : bool then let& rest := matching_windows t left_ windows in iret (window :: rest) else matching_windows t limit windows
      end
  | _, _ => iret []
  end.

Definition find_window (t : AxTarget) : Mac Z :=
  let application := ax_application os (at_pid t) in
  set_messaging_timeout application ;&
  let& under := window_under t application in
  match under with
  | Some window => iret window
  | None =>
      let& windows := copy_children application AxWindows in
      let& matching := matching_windows t 2 windows in
      match matching with
      | [] => ierr matching_window_unavailable
      | [window] => iret window
      | _ => ierr window_ambiguous
      end
  end.

(** ** Reading an element *)

Definition attribute_is_settable (element : Z) (attribute : AxAttribute) : Mac bool := ax_ask (fun n => ax_settable os n element attribute).

Definition range_value (element : Z) (value minimum maximum increment : option CFType) : Mac (option AccessibilityRangeValue) :=
  match mbind cf_number value, mbind cf_number minimum, mbind cf_number maximum with
  | Some value, Some minimum, Some maximum =>
      if negb (is_finite value) || negb (is_finite minimum) || negb (is_finite maximum)
         || f64_gt minimum maximum || f64_lt value minimum || f64_gt value maximum then iret None else
      let& settable := attribute_is_settable element AxValue in
      iret (Some {| rv_value := value; rv_minimum := minimum; rv_maximum := maximum;
                    rv_small_change := finite_positive (mbind cf_number increment); rv_large_change := None; rv_read_only := negb settable |})
  | _, _, _ => iret None
  end.

(** What both readings make of the name and the value. *)
Definition field_name (title description : string) : string := bounded_string (if str_eqb title "" then description else title).
Definition field_value (subrole : string) (value : option CFType) (range : option AccessibilityRangeValue) : option string :=
  let text := if str_eqb subrole secure_subrole then None else bounded_string <$> mbind cf_string value in
  match text with Some v => Some v | None => (fun range => f64_to_string (rv_value range)) <$> range end.

Definition NODE_ATTRIBUTES : list AxAttribute :=
  [AxRole; AxSubrole; AxTitle; AxDescription; AxValue; AxEnabled; AxFocused; AxPosition; AxSize; AxChildren; AxSelected; AxExpanded; AxMinValue;
   AxMaxValue; AxValueIncrement].

Definition read_node (element : Z) : Mac AxNode :=
  let& values := copy_multiple element NODE_ATTRIBUTES in
  let text i := default ""%string (mbind cf_string (values !! i)) in
  let role := text 0%nat in
  let& range := range_value element (values !! 4%nat) (values !! 12%nat) (values !! 13%nat) (values !! 14%nat) in
  iret {| an_role := role; an_name := field_name (text 2%nat) (text 3%nat); an_value := field_value (text 1%nat) (values !! 4%nat) range;
          an_range_value := range; an_enabled := default true (mbind cf_boolean (values !! 5%nat));
          an_focused := default false (mbind cf_boolean (values !! 6%nat)); an_selected := mbind cf_boolean (values !! 10%nat);
          an_checked := if existsb (str_eqb role) ["AXCheckBox"; "AXSwitch"; "AXRadioButton"]%string then mbind cf_booleanish (values !! 4%nat) else None;
          an_expanded := mbind cf_boolean (values !! 11%nat); an_bounds := bounds_from_values (values !! 7%nat) (values !! 8%nat);
          an_children := match values !! 9%nat with Some v => children_from_value v | None => [] end |}.

Definition IDENTITY_ATTRIBUTES : list AxAttribute :=
  [AxRole; AxSubrole; AxTitle; AxDescription; AxValue; AxEnabled; AxPosition; AxSize; AxMinValue; AxMaxValue; AxValueIncrement].

Definition read_action_identity (element : Z) : Mac AxNode :=
  let& values := copy_multiple element IDENTITY_ATTRIBUTES in
  let text i := default ""%string (mbind cf_string (values !! i)) in
  let& range := range_value element (values !! 4%nat) (values !! 8%nat) (values !! 9%nat) (values !! 10%nat) in
  iret {| an_role := text 0%nat; an_name := field_name (text 2%nat) (text 3%nat); an_value := field_value (text 1%nat) (values !! 4%nat) range;
          an_range_value := range; an_enabled := default true (mbind cf_boolean (values !! 5%nat)); an_focused := false; an_selected := None;
          an_checked := None; an_expanded := None; an_bounds := bounds_from_values (values !! 6%nat) (values !! 7%nat); an_children := [] |}.

Definition ax_element_signature (v : AxNode) : list Z :=
  sha256 (str_bytes (an_role v) ++ [0] ++ str_bytes (an_name v)
    ++ match an_value v with Some value => 0 :: str_bytes value | None => [] end
    ++ match an_range_value v with
       | Some range => bits8 (rv_value range) ++ bits8 (rv_minimum range) ++ bits8 (rv_maximum range) ++ [if rv_read_only range then 1 else 0]
       | None => [] end
    ++ [if an_enabled v then 1 else 0]
    ++ match an_bounds v with
       | Some b => bits8 (sr_x b) ++ bits8 (sr_y b) ++ bits8 (sr_width b) ++ bits8 (sr_height b)
       | None => [] end).

(** ** The snapshot *)

(** What the loop makes of an element it could read: [None] ends it. *)
Definition ax_visit (mode : AccessibilityMode) (snapshot_key : string) (q : AxQueued) (v : AxNode) (k : Walk) : Walk * option (list AxQueued) :=
  let '(element, nearest_parent, depth) := q in
  let children parent := (fun c => (c, parent, depth + 1)) <$> an_children v in
  if ax_emits mode depth v then
    let key := element_key snapshot_key (length (wk_elements k)) in
    let bytes := Z.min USIZE_MAX (wk_bytes k + ax_element_bytes v) in
    if bu_max_bytes (ax_snapshot_budget mode) <? bytes then ({| k with wk_bytes := bytes; wk_truncation := Some ByteLimit |}, None)
    else ({| k with wk_bytes := bytes; wk_elements := wk_elements k ++ [ax_element_of key nearest_parent v];
                    wk_stored := <[key := {| so_element := element; so_signature := ax_element_signature v |}]> (wk_stored k) |},
          Some (children (Some key)))
  else (k, Some (children nearest_parent)).

(** The loop: [left_] nodes may still be visited.  An element that times out
    ends the snapshot, any other retryable error ends the walk. *)
Fixpoint ax_walk (left_ : nat) (mode : AccessibilityMode) (snapshot_key : string) (deadline : Z) : list AxQueued -> Walk -> Mac Walk :=
  fix turn (queue : list AxQueued) (k : Walk) {struct queue} : Mac Walk :=
    match queue with
    | [] => iret k
    | q :: queue =>
        let& t := ax_now in
        if deadline <=? t then iret {| k with wk_truncation := Some Deadline |} else
        match left_ with
        | O => iret {| k with wk_truncation := Some NodeLimit |}
        | S left_ =>
            if bu_max_depth (ax_snapshot_budget mode) <? q.2 then turn queue {| k with wk_truncation := Some (default DepthLimit (wk_truncation k)) |}
            else
              let k := {| k with wk_visited := wk_visited k + 1 |} in
              ikeep (read_node q.1.1) (fun r =>
                match r with
                | Ok v =>
                    ax_note (AxRead q.1.1 (an_children v)) ;&
                    match ax_visit mode snapshot_key q v k with
                    | (k, None) => iret k
                    | (k, Some children) => ax_walk left_ mode snapshot_key deadline (queue ++ children) k
                    end
                | Err e =>
                    if bool_decide (de_kind e = DTargetUnresponsive) then ierr e
                    else if de_retryable e then iret {| k with wk_truncation := Some ProviderFailure |}
                    else ax_walk left_ mode snapshot_key deadline queue k
                end)
        end
    end.

Definition ax_snapshot_key (pid next : Z) : string := "ax:" +:+ pretty pid +:+ ":" +:+ pretty (Z.to_N next).

Definition ax_snapshot (t : AxTarget) (mode : AccessibilityMode) : Mac SemanticSnapshot :=
  ensure_accessibility_permission ;&
  let& root := find_window t in
  (fun w => ({| w with mc_next_snapshot := (mc_next_snapshot w + 1) mod 2 ^ 64 |}, Ok tt)) ;&
  fun w => (
    let snapshot_key := ax_snapshot_key (at_pid t) (mc_next_snapshot w) in
    let budget := ax_snapshot_budget mode in
    let& started := ax_now in
    let& k := ax_walk (Z.to_nat (bu_max_nodes budget)) mode snapshot_key (started + bu_time budget) [(root, None, 0)] walk_none in
    let k := {| k with wk_elements := propagate_table_row_names (wk_elements k) |} in
    fun w => ({| w with mc_snapshots := push_snapshot (wk_stored k) (mc_snapshots w) |}, Ok (snapshot_of k))) w.

(** ** Acting *)

Section Guarded.
Context (guard : option (nat * option Z)).

Definition begin_native_dispatch : Mac unit := fun w =>
  let w1 := ax_tick 0 w in
  match guard with
  | None => ({| w1 with mc_log := mc_log w1 ++ [AxAdmitted None (mc_guard w1) (mc_time w1)] |}, Ok tt)
  | Some (lease, observed_at) =>
      let '(g, r) := begin_dispatch (mc_guard w1) lease observed_at (mc_time w1) in
      let w2 := {| w1 with mc_guard := g |} in
      match r with
      | Ok _ => ({| w2 with mc_log := mc_log w2 ++ [AxAdmitted (Some lease) (mc_guard w1) (mc_time w1)] |}, Ok tt)
      | Err e => (w2, Err e)
      end
  end.

Definition set_attribute (element : Z) (attribute : AxAttribute) (value : CFType) : Mac unit :=
  begin_native_dispatch ;&
  let& answer := ax_ask (ax_answer os) in
  ax_note (AxWrote element attribute value answer) ;& ax_raise (map_action_error answer).

Definition perform_native_action (element : Z) (action : AxAction) : Mac unit :=
  begin_native_dispatch ;&
  let& answer := ax_ask (ax_answer os) in
  ax_note (AxPerformed element action answer) ;& ax_raise (map_action_error answer).

Definition set_boolean (element : Z) (attribute : AxAttribute) (value : bool) : Mac unit := set_attribute element attribute (CfBoolean value).

Definition supports_native_action (element : Z) (expected : AxAction) : Mac bool :=
  let& names := ax_call (fun n => ax_action_names os n element) "accessibility action discovery failed" in
  iret (existsb (fun a => bool_decide (a = expected)) names).

(** [set_ax_value]: the value may not be encodable. *)
Definition set_ax_value (element : Z) (attribute : AxAttribute) (value : CFType) : Mac unit :=
  let& encoded := ax_ask (ax_encodes os) in
  if negb encoded then ierr (mutation_not_dispatched (driver_error DPlatform "macOS failed to encode the requested window geometry"))
  else set_attribute element attribute value.

(** [or_else]. *)
Definition or_else {A} (m n : Mac A) : Mac A := ikeep m (fun r => match r with Ok a => iret a | Err _ => n end).

Definition ax_perform (key : string) (action : SemanticAction) : Mac unit :=
  ensure_accessibility_permission ;&
  fun w =>
  match find_element key (mc_snapshots w) with
  | None => (w, Err (mutation_not_dispatched ax_stale_element))
  | Some stored =>
      (let element := so_element stored in
       let& current := ikeep (read_action_identity element) (fun r =>
         match r with
         | Ok v => iret v
         | Err e => ierr (if bool_decide (de_kind e = DTargetUnresponsive) then mutation_not_dispatched e else mutation_not_dispatched ax_stale_element)
         end) in
       if negb (bool_decide (ax_element_signature current = so_signature stored)) then ierr (mutation_not_dispatched ax_stale_element) else
       match action with
       | SemFocus => set_boolean element AxFocused true
       | SemInvoke | SemToggle => perform_native_action element AxPress
       | SemSetValue value => set_attribute element AxValue (CfString value)
       | SemSetRangeValue value => set_attribute element AxValue (CfNumber None (Some value))
       | SemSelect => or_else (or_else (set_boolean element AxSelected true) (perform_native_action element AxPick)) (perform_native_action element AxPress)
       | SemSetExpanded expanded => set_boolean element AxExpanded expanded
       end) w
  end.

(** The walk from the element at a point to one that can be pressed, which
    never leaves the window. *)
Fixpoint press_ancestor (n : nat) (t : AxTarget) (element : Z) : Mac bool :=
  match n with
  | O => iret false
  | S n =>
      let& supported := supports_native_action element AxPress in
      if supported : bool then perform_native_action element AxPress ;& iret true else
      let& parent := attempt (copy_element element AxParent) in
      match parent with
      | None => iret false
      | Some parent =>
          let& identity := attempt (read_window_identity parent) in
          if match mbind snd identity with Some bounds => window_bounds_match bounds (at_bounds t) | None => false end then iret false
          else press_ancestor n t parent
      end
  end.

Definition ax_invoke_at_point (t : AxTarget) (point : ScreenPoint) : Mac bool :=
  ensure_accessibility_permission ;&
  find_window t ;&
  let application := ax_application os (at_pid t) in
  set_messaging_timeout application ;&
  let& element := element_at_position application (sp_x point) (sp_y point) in
  let& window := copy_element element AxWindow in
  let& identity := read_window_identity window in
  let& same := is_target t window identity in
  if negb same then ierr (mutation_not_dispatched ax_stale_element) else press_ancestor 8 t element.

Definition not_dispatched_on_error {A} (m : Mac A) : Mac A := ikeep m (fun r => ax_raise (rmap_err mutation_not_dispatched r)).

(** An attribute that reads as true. *)
Definition reads_true (element : Z) (attribute : AxAttribute) : Mac bool :=
  let& value := attempt (copy_attribute element attribute) in iret (bool_decide (mbind cf_booleanish value = Some true)).

Definition raise_window (t : AxTarget) : Mac unit :=
  not_dispatched_on_error ensure_accessibility_permission ;&
  let application := ax_application os (at_pid t) in
  not_dispatched_on_error (set_messaging_timeout application) ;&
  let& window := not_dispatched_on_error (find_window t) in
  let& frontmost := reads_true application AxFrontmost in
  let& main := (if frontmost : bool then reads_true window AxMain else iret false) in
  if main : bool then iret tt else
  ikeep (set_boolean application AxFrontmost true) (fun r =>
    ax_raise (rmap_err (activation_refused "application") r)) ;&
  ikeep (set_boolean window AxMain true) (fun r =>
    ax_raise (rmap_err (activation_refused "window") r)) ;&
  perform_native_action window AxRaise.

(** The waits for a change of a window: [probe] until it succeeds or the time
    is up. *)
Fixpoint confirm_change (fuel : nat) (probe : Mac bool) (failure : DriverError) (deadline : Z) : Mac unit :=
  let& seen := probe in
  if seen : bool then iret tt else
  let& t := ax_now in
  if deadline <=? t then ierr failure else
  match fuel with
  | O => ierr failure
  | S fuel => ax_sleep WINDOW_CONFIRM_INTERVAL ;& confirm_change fuel probe failure deadline
  end.

(** Two hundred milliseconds in rounds of at least ten. *)
Definition CONFIRM_FUEL : nat := 20.

Definition confirm_window_bounds (window : Z) (requested : ScreenRect) : Mac unit :=
  let& started := ax_now in
  confirm_change CONFIRM_FUEL
    (let& identity := attempt (read_window_identity window) in
     iret (match mbind snd identity with Some actual => window_bounds_match actual requested | None => false end))
    (mutation_indeterminate (driver_error DPlatform "macOS adjusted or rejected the requested window bounds")) (started + WINDOW_CONFIRM_TIMEOUT).

Definition confirm_window_minimized (window : Z) (minimized : bool) : Mac unit :=
  let& started := ax_now in
  confirm_change CONFIRM_FUEL
    (let& value := attempt (copy_attribute window AxMinimized) in iret (bool_decide (mbind cf_boolean value = Some minimized)))
    (mutation_indeterminate (driver_error DPlatform "macOS did not apply the requested minimized state")) (started + WINDOW_CONFIRM_TIMEOUT).

Definition ax_set_window_bounds (t : AxTarget) (requested : ScreenRect) : Mac unit :=
  not_dispatched_on_error ensure_accessibility_permission ;&
  let& window := not_dispatched_on_error (find_window t) in
  set_ax_value window AxPosition (CfPoint (sr_x requested) (sr_y requested)) ;&
  set_ax_value window AxSize (CfSize (sr_width requested) (sr_height requested)) ;&
  confirm_window_bounds window requested.

Definition ax_set_window_minimized (t : AxTarget) (minimized : bool) : Mac unit :=
  not_dispatched_on_error ensure_accessibility_permission ;&
  let& window := not_dispatched_on_error (find_window t) in
  set_boolean window AxMinimized minimized ;& confirm_window_minimized window minimized.

End Guarded.

(** ** The minimized state *)

Definition read_minimized (t : AxTarget) (window : Z) : Mac bool :=
  let& value := copy_attribute window AxMinimized in
  match cf_booleanish value with
  | None => ierr (ax_provider_failure "AXMinimized is not a boolean")
  | Some true => iret true
  | Some false =>
      let& identity := read_window_identity window in
      let& same := is_target t window identity in
      if negb same then ierr window_transformed else iret false
  end.

Definition remember_window (key : string) (window : Z) : Mac unit := fun w =>
  ({| w with mc_state_windows := <[key := window]> (mc_state_windows w) |}, Ok tt).
Definition forget_window (key : string) : Mac unit := fun w => ({| w with mc_state_windows := delete key (mc_state_windows w) |}, Ok tt).

Definition window_minimized (key : string) (t : AxTarget) : Mac bool :=
  let& window := (fun w =>
    match mc_state_windows w !! key with
    | Some window => (w, Ok window)
    | None =>
        let w := if (STATE_WINDOWS <=? size (mc_state_windows w))%nat then {| w with mc_state_windows := ∅ |} else w in
        (let& window := find_window t in remember_window key window ;& iret window) w
    end) in
  ikeep (read_minimized t window) (fun r =>
    (match r with Ok _ => iret tt | Err _ => forget_window key end) ;& ax_raise r).

(** ** The actor *)

Inductive AxCommand :=
| AxCmdMinimized (key : string) (t : AxTarget)
| AxCmdSnapshot (t : AxTarget) (mode : AccessibilityMode)
| AxCmdPerform (element_key : string) (action : SemanticAction)
| AxCmdInvoke (t : AxTarget) (point : ScreenPoint)
| AxCmdRaise (t : AxTarget)
| AxCmdBounds (t : AxTarget) (requested : ScreenRect)
| AxCmdSetMinimized (t : AxTarget) (minimized : bool).

Inductive AxReply :=
| AxBool (r : Result bool DriverError)
| AxSnapshotted (r : Result SemanticSnapshot DriverError)
| AxDone (r : Result unit DriverError).

(** A command and the guard it carries. *)
Definition handle_command (c : AxCommand * option (nat * option Z)) (w : MacWorld) : MacWorld * AxReply :=
  let '(command, guard) := c in
  match command with
  | AxCmdMinimized key t => let '(w, r) := window_minimized key t w in (w, AxBool r)
  | AxCmdSnapshot t mode => let '(w, r) := ax_snapshot t mode w in (w, AxSnapshotted r)
  | AxCmdPerform key action => let '(w, r) := ax_perform guard key action w in (w, AxDone r)
  | AxCmdInvoke t point => let '(w, r) := ax_invoke_at_point guard t point w in (w, AxBool r)
  | AxCmdRaise t => let '(w, r) := raise_window guard t w in (w, AxDone r)
  | AxCmdBounds t requested => let '(w, r) := ax_set_window_bounds guard t requested w in (w, AxDone r)
  | AxCmdSetMinimized t minimized => let '(w, r) := ax_set_window_minimized guard t minimized w in (w, AxDone r)
  end.

Fixpoint ax_run (cs : list (AxCommand * option (nat * option Z))) (w : MacWorld) : MacWorld * list AxReply :=
  match cs with
  | [] => (w, [])
  | c :: cs => let '(w, r) := handle_command c w in let '(w, rs) := ax_run cs w in (w, r :: rs)
  end.

End Semantic.

(** The queue; the mutations but raising a window are refused as not
    dispatched. *)
Definition ax_stopped : DriverError := driver_error DPlatform "macOS semantic actor stopped".

Definition ax_submit (queue : option (list AxCommand)) (command : AxCommand) : Result (list AxCommand) DriverError :=
  let refused e := Err (match command with
    | AxCmdMinimized _ _ | AxCmdSnapshot _ _ | AxCmdRaise _ => e
    | _ => mutation_not_dispatched e
    end) in
  match queue with
  | None => refused ax_stopped
  | Some pending =>
      if (length pending <? SEMANTIC_CAPACITY)%nat then Ok (pending ++ [command])
      else refused (de_with_retry (driver_error DBusy "macOS semantic actor is busy") "retry_with_backoff")
  end.
