(* ===== verification/MacSemanticProps.v ===== *)
(** What the accessibility actor of macOS promises
    ([src/crates/platform/src/macos/semantic.rs]): what a snapshot shows, what an
    action reaches, and that both ways to read an element agree. *)

From stdpp Require Import pretty.
From Stdlib Require Import Ascii String SpecFloat.
From S2P Require Import Prelude Floats Geometry Text Protocol Errors Driver PrivateState Fingerprint InputText WinInput WinInputProps WinSemantic WinSemanticProps MacSemantic.
#[local] Open Scope Z_scope.

(** * Computations that only read *)

(** Nothing but time, the position and the guard's cells changes. *)
Record unchanged (w w' : MacWorld) : Prop := {
  un_log : mc_log w' = mc_log w;
  un_snapshots : mc_snapshots w' = mc_snapshots w;
  un_next : mc_next_snapshot w' = mc_next_snapshot w;
  un_windows : mc_state_windows w' = mc_state_windows w;
  un_time : mc_time w <= mc_time w';
}.

#[export] Instance unchanged_preorder : PreOrder unchanged.
Proof. split; [by intros w|]. intros w1 w2 w3 [] []. split; try congruence. lia. Qed.

Definition reads_only {A} (m : Act (W := MacWorld) A) : Prop := forall w, unchanged w (m w).1.

Create HintDb reads_only.

Section Reads.
Context (os : AxSystem).

Lemma tick_unchanged wait w : unchanged w (ax_tick os wait w).
Proof. split; [done..|cbn; lia]. Qed.

Lemma ro_bind {A B} (m : Act A) (k : A -> Act B) : reads_only m -> (forall a, reads_only (k a)) -> reads_only (ibind m k).
Proof. intros Hm Hk w. unfold ibind. specialize (Hm w). destruct (m w) as [w1 [a|e]]; [|done]. etrans; [exact Hm|apply Hk]. Qed.
Lemma ro_keep {A B} (m : Act A) (k : Result A DriverError -> Act B) : reads_only m -> (forall r, reads_only (k r)) -> reads_only (ikeep m k).
Proof. intros Hm Hk w. unfold ikeep. specialize (Hm w). destruct (m w) as [w1 r]. etrans; [exact Hm|apply Hk]. Qed.
Lemma ro_ret {A} (a : A) : reads_only (iret a).
Proof. by intros w. Qed.
Lemma ro_err {A} e : reads_only (ierr (A := A) e).
Proof. by intros w. Qed.
Lemma ro_ask {A} (f : nat -> A) : reads_only (ax_ask os f).
Proof. intros w. apply tick_unchanged. Qed.
Lemma ro_raise {A} (r : Result A DriverError) : reads_only (ax_raise r).
Proof. by intros w. Qed.
Lemma ro_now : reads_only (ax_now os).
Proof. intros w. apply tick_unchanged. Qed.
Lemma ro_sleep wait : reads_only (ax_sleep os wait).
Proof. intros w. apply tick_unchanged. Qed.
End Reads.
#[export] Hint Resolve ro_ret ro_err ro_ask ro_raise ro_now ro_sleep : reads_only.

(** The structure of a computation down to its calls. *)
Ltac ro_run :=
  lazymatch goal with
  | |- reads_only (ibind _ _) => apply ro_bind; [ro_run|intros ?; ro_run]
  | |- reads_only (ikeep _ _) => apply ro_keep; [ro_run|intros ?; ro_run]
  | |- reads_only (match _ with _ => _ end) => case_match; ro_run
  | |- reads_only _ => eauto with reads_only
  end.

Section Reading.
Context (f64_to_string : f64 -> string) (secure_subrole : string) (os : AxSystem).

Lemma ro_attempt {A} (m : Act A) : reads_only m -> reads_only (attempt m).
Proof. intros Hm. unfold attempt. ro_run. Qed.
Lemma ro_call {A} (f : nat -> Result A AxError) message : reads_only (ax_call os f message).
Proof. unfold ax_call. ro_run. Qed.
#[local] Hint Resolve ro_attempt ro_call : reads_only.

Lemma ro_permission : reads_only (ensure_accessibility_permission os).
Proof. unfold ensure_accessibility_permission. ro_run. Qed.
Lemma ro_timeout element : reads_only (set_messaging_timeout os element).
Proof. unfold set_messaging_timeout. ro_run. Qed.
Lemma ro_copy_attribute element attribute : reads_only (copy_attribute os element attribute).
Proof. unfold copy_attribute. ro_run. Qed.
#[local] Hint Resolve ro_permission ro_timeout ro_copy_attribute : reads_only.
Lemma ro_copy_element element attribute : reads_only (copy_element os element attribute).
Proof. unfold copy_element. ro_run. Qed.
Lemma ro_identity element : reads_only (read_window_identity os element).
Proof. unfold read_window_identity, copy_multiple. ro_run. Qed.
Lemma ro_is_target t window identity : reads_only (is_target os t window identity).
Proof. unfold is_target, read_window_number. ro_run. Qed.
#[local] Hint Resolve ro_copy_element ro_identity ro_is_target : reads_only.

Lemma ro_matching t limit windows : reads_only (matching_windows os t limit windows).
Proof. revert limit. induction windows as [|window windows IH]; intros [|limit]; cbn [matching_windows]; ro_run. Qed.
#[local] Hint Resolve ro_matching : reads_only.

Lemma ro_find_window t : reads_only (find_window os t).
Proof. unfold find_window, window_under, element_at_position, copy_children. ro_run. Qed.

Lemma ro_range element value minimum maximum increment : reads_only (range_value os element value minimum maximum increment).
Proof. unfold range_value, attribute_is_settable. ro_run. Qed.
#[local] Hint Resolve ro_range : reads_only.

Lemma ro_read_node element : reads_only (read_node f64_to_string secure_subrole os element).
Proof. unfold read_node, copy_multiple. ro_run. Qed.
Lemma ro_read_identity element : reads_only (read_action_identity f64_to_string secure_subrole os element).
Proof. unfold read_action_identity, copy_multiple. ro_run. Qed.

(** An element that cannot be read times out or may be asked again. *)
Lemma read_node_error element w e : (read_node f64_to_string secure_subrole os element w).2 = Err e -> de_retryable e = true.
Proof.
  assert (Hr : forall value minimum maximum increment w', exists x, (range_value os element value minimum maximum increment w').2 = Ok x).
  { intros value minimum maximum increment w'. unfold range_value. repeat case_match; by eexists. }
  assert (Hc : forall x, (copy_multiple os element NODE_ATTRIBUTES w).2 = Err x -> de_retryable x = true).
  { unfold copy_multiple, ax_call, ibind, ax_ask, ax_raise. intros x. destruct (ax_multiple os _ _ _) as [values|[]]; by intros [= <-]. }
  unfold read_node, ibind. destruct (copy_multiple os element NODE_ATTRIBUTES w) as [w1 [values|x]]; [|intros [= <-]; by apply Hc].
  destruct (Hr (values !! 4%nat) (values !! 12%nat) (values !! 13%nat) (values !! 14%nat) w1) as [x Hx]. destruct (range_value _ _ _ _ _ _ w1) as [w2 r].
  cbn in Hx. by rewrite Hx.
Qed.

End Reading.

(** * The snapshot *)

(** An element that was shown: its handle, the key of its nearest shown
    ancestor, and what was read of it. *)
Definition AxShown : Type := Z * option string * AxNode.

Section Snapshot.
Context (sha256 : list Z -> list Z) (f64_to_string : f64 -> string) (secure_subrole : string) (os : AxSystem) (mode : AccessibilityMode) (key : string).

#[local] Abbreviation read := (read_node f64_to_string secure_subrole os).
#[local] Abbreviation walk_on := (ax_walk sha256 f64_to_string secure_subrole os).

Definition ax_described (shown : list AxShown) : list DriverElement := imap (fun i x => ax_element_of (element_key key i) x.1.2 x.2) shown.

Definition ax_remembered (shown : list AxShown) : gmap string StoredElement :=
  list_to_map (imap (fun i x => (element_key key i, {| so_element := x.1.1; so_signature := ax_element_signature sha256 x.2 |})) shown).

Definition ax_shown_bytes (shown : list AxShown) : Z := foldr Z.add 0 ((fun x => ax_element_bytes x.2) <$> shown).

(** An ancestor that was shown before. *)
Definition known_parent (n : nat) (parent : option string) : Prop := match parent with None => True | Some p => exists j, (j < n)%nat /\ p = element_key key j end.

(** Each element was read when it was shown, and its parent was shown
    before. *)
Record shown_ok (reads : list (Z * list Z)) (shown : list AxShown) : Prop := {
  so_parents : forall i x, shown !! i = Some x -> known_parent i x.1.2;
  so_read : forall x, x ∈ shown -> x.1.1 ∈ reads.*1 /\ exists w1 w2, read x.1.1 w1 = (w2, Ok x.2);
}.

Record Walked (root : Z) (reads : list (Z * list Z)) (queue : list AxQueued) (shown : list AxShown) (k : Walk) : Prop := {
  wd_elements : wk_elements k = ax_described shown;
  wd_stored : wk_stored k = ax_remembered shown;
  wd_bytes : wk_bytes k = ax_shown_bytes shown;
  wd_bound : ax_shown_bytes shown <= bu_max_bytes (ax_snapshot_budget mode);
  wd_shown : shown_ok reads shown;
  wd_queue : Forall (fun q : AxQueued => known_parent (length shown) q.1.2) queue;
  wd_order : wk_truncation k = None -> reads.*1 ++ queue.*1.*1 = root :: concat reads.*2;
}.

Lemma known_parent_mono m n parent : (m <= n)%nat -> known_parent m parent -> known_parent n parent.
Proof. intros Hn. destruct parent as [p|]; [|done]. intros (j & Hj & ->). exists j. split; [lia|done]. Qed.

Lemma ax_remembered_snoc shown x : ax_remembered (shown ++ [x]) =
  <[element_key key (length shown) := {| so_element := x.1.1; so_signature := ax_element_signature sha256 x.2 |}]> (ax_remembered shown).
Proof.
  unfold ax_remembered. rewrite imap_app. cbn. rewrite Nat.add_0_r, list_to_map_snoc; [done|].
  intros ([k y] & Hkey & Hin)%list_elem_of_fmap. apply list_elem_of_lookup in Hin as [j Hj]. rewrite list_lookup_imap in Hj.
  apply fmap_Some in Hj as (z & E & [= -> _]). apply element_key_inj in Hkey. apply lookup_lt_Some in E. lia.
Qed.

Lemma ax_remembered_lookup shown i x : shown !! i = Some x ->
  ax_remembered shown !! element_key key i = Some {| so_element := x.1.1; so_signature := ax_element_signature sha256 x.2 |}.
Proof.
  intros Hi. apply elem_of_list_to_map_1'.
  - intros y Hy. apply list_elem_of_lookup in Hy as [j Hj]. rewrite list_lookup_imap in Hj. apply fmap_Some in Hj as (z & Hz & [= Hk ->]).
    apply element_key_inj in Hk. subst j. pose proof (eq_trans (eq_sym Hi) Hz) as [= <-]. done.
  - apply list_elem_of_lookup. exists i. rewrite list_lookup_imap. by apply fmap_Some_2 with (1 := Hi).
Qed.

Lemma ax_shown_bytes_snoc shown x : ax_shown_bytes (shown ++ [x]) = ax_shown_bytes shown + ax_element_bytes x.2.
Proof. unfold ax_shown_bytes. rewrite fmap_app. cbn. induction shown as [|y shown IH]; cbn; lia. Qed.

(** A node that was read and is shown or passed over. *)
Lemma shown_ok_read reads shown x : shown_ok reads shown -> shown_ok (reads ++ [x]) shown.
Proof. intros [Hp Hr]. split; [done|]. intros y Hy. destruct (Hr y Hy). split; [|done]. rewrite fmap_app. set_solver. Qed.

Lemma shown_ok_snoc reads shown e cs parent v : shown_ok reads shown -> known_parent (length shown) parent ->
  (exists w1 w2, read e w1 = (w2, Ok v)) -> shown_ok (reads ++ [(e, cs)]) (shown ++ [(e, parent, v)]).
Proof.
  intros Hs Hp Hv. pose proof (shown_ok_read _ _ (e, cs) Hs) as [Hps Hrs]. split.
  - intros i x [Hi|[Hge Hi]]%lookup_app_Some; [by apply Hps|]. apply list_lookup_singleton_Some in Hi as [Hz <-]. assert (i = length shown) as -> by (apply Nat.le_antisymm; [by apply Nat.sub_0_le|exact Hge]). exact Hp.
  - intros x [Hx| ->%list_elem_of_singleton]%elem_of_app; [by apply Hrs|]. split; [|done]. rewrite fmap_app. cbn. set_solver.
Qed.

(** Its children join the queue. *)
Lemma order_next root reads q queue k cs parent depth : wk_truncation k = None ->
  (wk_truncation k = None -> reads.*1 ++ (q :: queue).*1.*1 = root :: concat reads.*2) ->
  (reads ++ [(q.1.1, cs)]).*1 ++ (queue ++ ((fun c => (c, parent, depth)) <$> cs) : list AxQueued).*1.*1 = root :: concat (reads ++ [(q.1.1, cs)]).*2.
Proof.
  intros Ht Ho. specialize (Ho Ht). assert (Hc : ((fun c => (c, parent, depth)) <$> cs : list AxQueued).*1.*1 = cs).
  { clear. induction cs as [|c cs IH]; [done|]. cbn. by f_equal. }
  rewrite !fmap_app, concat_app, Hc. cbn [fmap list_fmap concat fst snd] in *. rewrite app_nil_r, app_comm_cons, <- Ho. by rewrite <- !app_assoc.
Qed.

(** The reason of an end, and what it means. *)
Definition ax_verdict (root : Z) (reads : list (Z * list Z)) (shown : list AxShown) (deadline now : Z) (truncation : option TruncationReason) : Prop :=
  match truncation with
  | None => reads.*1 = root :: concat reads.*2
  | Some NodeLimit => Z.of_nat (length reads) = bu_max_nodes (ax_snapshot_budget mode)
  | Some Deadline => deadline <= now
  | Some ByteLimit => exists v, bu_max_bytes (ax_snapshot_budget mode) < ax_shown_bytes shown + ax_element_bytes v
  | Some _ => True
  end.

Definition ax_ended (root : Z) (reads : list (Z * list Z)) (deadline now : Z) (k : Walk) : Prop := exists shown,
  wk_elements k = ax_described shown /\ wk_stored k = ax_remembered shown /\ ax_shown_bytes shown <= bu_max_bytes (ax_snapshot_budget mode) /\
  shown_ok reads shown /\ ax_verdict root reads shown deadline now (wk_truncation k).

(** One element that was read. *)
Lemma visit_next root reads q queue shown k v :
  Walked root reads (q :: queue) shown k -> (exists w1 w2, read q.1.1 w1 = (w2, Ok v)) ->
  let '(k', r) := ax_visit sha256 mode key q v k in
  match r with
  | None => wk_elements k' = ax_described shown /\ wk_stored k' = ax_remembered shown /\ wk_truncation k' = Some ByteLimit /\
      bu_max_bytes (ax_snapshot_budget mode) < ax_shown_bytes shown + ax_element_bytes v
  | Some children => wk_truncation k' = wk_truncation k /\ exists shown', Walked root (reads ++ [(q.1.1, an_children v)]) (queue ++ children) shown' k'
  end.
Proof.
  intros [He Hst Hb Hbd Hs [Hp Hq]%Forall_cons Ho] Hv. destruct q as [[e parent] depth]. cbn [fst snd] in *. unfold ax_visit.
  assert (Hchildren : forall n p', (length shown <= n)%nat -> known_parent n p' ->
    Forall (fun q : AxQueued => known_parent n q.1.2) (queue ++ ((fun c => (c, p', depth + 1)) <$> an_children v))).
  { intros n p' Hn Hp'. apply Forall_app. split; [eapply Forall_impl; [exact Hq|]; intros q; by apply known_parent_mono|].
    apply Forall_fmap, Forall_true. by intros c. }
  assert (Horder : forall p', wk_truncation k = None -> (reads ++ [(e, an_children v)]).*1 ++ (queue ++ ((fun c => (c, p', depth + 1)) <$> an_children v) : list AxQueued).*1.*1 =
    root :: concat (reads ++ [(e, an_children v)]).*2) by (intros p' Ht; exact (order_next root reads (e, parent, depth) queue k (an_children v) p' (depth + 1) Ht Ho)).
  destruct (ax_emits mode depth v).
  - destruct (Z.ltb_spec (bu_max_bytes (ax_snapshot_budget mode)) (Z.min USIZE_MAX (wk_bytes k + ax_element_bytes v))) as [Hover|Hin].
    + cbn. split_and!; [done..|]. rewrite <- Hb. lia.
    + assert (Hfit : Z.min USIZE_MAX (wk_bytes k + ax_element_bytes v) = ax_shown_bytes (shown ++ [(e, parent, v)]) /\ ax_shown_bytes (shown ++ [(e, parent, v)]) <= bu_max_bytes (ax_snapshot_budget mode)).
      { rewrite ax_shown_bytes_snoc, <- Hb. cbn [snd]. assert (bu_max_bytes (ax_snapshot_budget mode) < USIZE_MAX) by (destruct mode; cbn; unfold USIZE_MAX, U64_MAX; lia). lia. }
      destruct Hfit as [Hfit Hle]. split; [done|]. exists (shown ++ [(e, parent, v)]). split; cbn [wk_elements wk_stored wk_bytes wk_truncation]; [| |done|done| | |by apply Horder].
      * rewrite He. unfold ax_described. rewrite imap_app. cbn. by rewrite length_imap, Nat.add_0_r.
      * rewrite ax_remembered_snoc, Hst, He. unfold ax_described. by rewrite length_imap.
      * by apply shown_ok_snoc.
      * rewrite length_app. apply Hchildren; [lia|]. rewrite He. unfold ax_described. rewrite length_imap. exists (length shown). split; [cbn; lia|done].
  - split; [done|]. exists shown. split; [done|done|done|done|by apply shown_ok_read|by apply Hchildren|by apply Horder].
Qed.

Lemma ax_walk_cons left_ deadline q queue k : walk_on left_ mode key deadline (q :: queue) k =
  (let& t := ax_now os in
   if deadline <=? t then iret {| k with wk_truncation := Some Deadline |} else
   match left_ with
   | O => iret {| k with wk_truncation := Some NodeLimit |}
   | S left_ =>
       if bu_max_depth (ax_snapshot_budget mode) <? q.2 then walk_on (S left_) mode key deadline queue {| k with wk_truncation := Some (default DepthLimit (wk_truncation k)) |}
       else
         let k := {| k with wk_visited := wk_visited k + 1 |} in
         ikeep (read q.1.1) (fun r =>
           match r with
           | Ok v =>
               ax_note (AxRead q.1.1 (an_children v)) ;&
               match ax_visit sha256 mode key q v k with
               | (k, None) => iret k
               | (k, Some children) => walk_on left_ mode key deadline (queue ++ children) k
               end
           | Err e =>
               if bool_decide (de_kind e = DTargetUnresponsive) then ierr e
               else if de_retryable e then iret {| k with wk_truncation := Some ProviderFailure |}
               else walk_on left_ mode key deadline queue k
           end)
   end).
Proof. by destruct left_. Qed.

#[local] Abbreviation noted reads := ((fun x : Z * list Z => AxRead x.1 x.2) <$> reads).

Lemma walk_exact root deadline left_ : forall queue reads shown k w,
  Z.of_nat (length reads + left_) = bu_max_nodes (ax_snapshot_budget mode) -> Walked root reads queue shown k -> wk_truncation k = None \/ wk_truncation k = Some DepthLimit ->
  let '(w', r) := walk_on left_ mode key deadline queue k w in
  exists new, mc_log w' = mc_log w ++ noted new /\ mc_snapshots w' = mc_snapshots w /\ mc_next_snapshot w' = mc_next_snapshot w /\
    Z.of_nat (length (reads ++ new)) <= bu_max_nodes (ax_snapshot_budget mode) /\
    match r with Err e => de_kind e = DTargetUnresponsive | Ok k' => ax_ended root (reads ++ new) deadline (mc_time w') k' end.
Proof.
  induction left_ as [|left_ IH]; intros queue; induction queue as [|q queue IHq]; intros reads shown k w Hn Hk Ht.
  all: assert (Hstop : forall k' w', unchanged w w' -> wk_elements k' = wk_elements k -> wk_stored k' = wk_stored k ->
      ax_verdict root reads shown deadline (mc_time w') (wk_truncation k') ->
      exists new, mc_log w' = mc_log w ++ noted new /\ mc_snapshots w' = mc_snapshots w /\ mc_next_snapshot w' = mc_next_snapshot w /\
        Z.of_nat (length (reads ++ new)) <= bu_max_nodes (ax_snapshot_budget mode) /\ ax_ended root (reads ++ new) deadline (mc_time w') k')
    by (intros k' w' [Hl Hs Hx _ _] He' Hs' Hv; exists []; cbn [fmap list_fmap]; rewrite !app_nil_r; split_and!; [exact Hl|exact Hs|exact Hx|clear -Hn; lia|]; exists shown; rewrite He', Hs'; destruct Hk; by split_and!).
  1, 3: (apply Hstop; [done..|]; destruct Ht as [E| ->]; [|done]; rewrite E; pose proof (wd_order _ _ _ _ _ Hk E) as Ho; by rewrite app_nil_r in Ho).
  all: rewrite ax_walk_cons; unfold ibind at 1, ax_now; set (w1 := ax_tick os 0 w); pose proof (tick_unchanged os 0 w : unchanged w w1) as Hu1.
  all: destruct (Z.leb_spec deadline (mc_time w1)) as [Hlate|_]; [by apply Hstop|].
  - apply Hstop; [done..|]. cbn. lia.
  - destruct (_ <? q.2).
    { specialize (IHq reads shown {| k with wk_truncation := Some (default DepthLimit (wk_truncation k)) |} w1 Hn).
      assert (Hk' : Walked root reads queue shown {| k with wk_truncation := Some (default DepthLimit (wk_truncation k)) |}).
      { destruct Hk as [? ? ? ? ? Hq _]. split; [done..| |done]. by apply Forall_cons in Hq as [_ Hq]. }
      specialize (IHq Hk' ltac:(right; by destruct Ht as [-> | ->])). destruct (walk_on (S left_) _ _ _ _ _ w1) as [w' r]. destruct Hu1. destruct IHq as (new & Hl & Hs & Hx & Hr).
      exists new. split_and!; [congruence..|apply Hr|apply Hr]. }
    unfold ikeep. pose proof (ro_read_node f64_to_string secure_subrole os q.1.1 w1) as Hu2. destruct (read q.1.1 w1) as [w2 [v|e]] eqn:Er; cbn [fst] in Hu2.
    + unfold ibind at 1, ax_note. set (w3 := {| w2 with mc_log := _ |}).
      assert (Hk1 : Walked root reads (q :: queue) shown {| k with wk_visited := wk_visited k + 1 |}) by (by destruct Hk).
      pose proof (visit_next root reads q queue shown _ v Hk1 (ex_intro _ w1 (ex_intro _ w2 Er))) as Hv. destruct (ax_visit _ _ _ _ _ _) as [k2 [children|]].
      * destruct Hv as [Ht2 [shown2 Hk2]]. cbn in Ht2. specialize (IH (queue ++ children) (reads ++ [(q.1.1, an_children v)]) shown2 k2 w3 ltac:(rewrite length_app; cbn; lia) Hk2 ltac:(by rewrite Ht2)).
        destruct (walk_on left_ _ _ _ _ _ w3) as [w' r]. destruct IH as (new & Hl & Hs & Hx & Hlen & Hr). exists ((q.1.1, an_children v) :: new). destruct Hu1, Hu2.
        rewrite cons_middle, app_assoc. split_and!; [|unfold w3 in *; cbn in *; congruence..|done|done]. rewrite Hl. unfold w3. cbn. rewrite un_log1, un_log0. by rewrite <- app_assoc.
      * destruct Hv as (He' & Hs' & Ht' & Hover). exists [(q.1.1, an_children v)]. destruct Hu1, Hu2. cbn. unfold w3. cbn. split_and!; [congruence|congruence|congruence|rewrite length_app; cbn; lia|].
        exists shown. rewrite He', Hs', Ht'. destruct Hk. split_and!; [done..|by apply shown_ok_read|]. by exists v.
    + pose proof (read_node_error f64_to_string secure_subrole os q.1.1 w1 e ltac:(by rewrite Er)) as Hretry. assert (Hu : unchanged w w2) by by etrans.
      destruct (bool_decide _) eqn:Eu; [apply bool_decide_eq_true in Eu|rewrite Hretry; by apply Hstop].
      exists []. destruct Hu. rewrite !app_nil_r. split_and!; [done..|lia|done].
Qed.

End Snapshot.

(** * Row names *)

(** The last child with a name. *)
Definition last_named (elements : list DriverElement) (key : string) : option string :=
  last (el_name <$> base.filter (fun e => el_parent_key e = Some key /\ el_name e <> ""%string) elements).

Lemma child_names_last elements key : child_names elements !! key = last_named elements key.
Proof.
  unfold child_names, last_named, str_eqb. induction elements as [|e elements IH] using rev_ind; [done|].
  rewrite fold_left_app, filter_app, fmap_app. cbn [fold_left]. rewrite filter_cons, filter_nil.
  destruct (String.eqb_spec (el_name e) "") as [Hn|Hn], (el_parent_key e) as [p|] eqn:Hp.
  all: try (rewrite decide_False by naive_solver; by rewrite app_nil_r).
  destruct (decide (p = key)) as [-> |Hne].
  - rewrite lookup_insert_eq, decide_True by done. cbn. by rewrite last_snoc.
  - rewrite lookup_insert_ne by done. rewrite decide_False by naive_solver. by rewrite app_nil_r.
Qed.

(** What the propagation leaves alone. *)
Definition unnamed (e : DriverElement) : DriverElement := {| e with el_name := ""%string |}.

Lemma row_names elements i e : propagate_table_row_names elements !! i = Some e ->
  exists e0, elements !! i = Some e0 /\ unnamed e = unnamed e0 /\
    el_name e = (if str_eqb (el_role e0) "row" && str_eqb (el_name e0) "" then default ""%string (last_named elements (el_key e0)) else el_name e0).
Proof.
  unfold propagate_table_row_names, str_eqb. rewrite list_lookup_fmap. intros (e0 & Hi & ->)%fmap_Some. exists e0. split; [done|]. rewrite child_names_last.
  destruct (String.eqb (el_role e0) "row"); [|done]. destruct (String.eqb_spec (el_name e0) "") as [Hn|]; [|done]. by destruct (last_named _ _).
Qed.

Section Claims.
Context (sha256 : list Z -> list Z) (f64_to_string : f64 -> string) (secure_subrole : string) (os : AxSystem).

#[local] Abbreviation noted reads := ((fun x : Z * list Z => AxRead x.1 x.2) <$> reads).
#[local] Abbreviation take_snapshot := (ax_snapshot sha256 f64_to_string secure_subrole os).

(** A snapshot that was taken. *)
Record AxTaken (t : AxTarget) (mode : AccessibilityMode) (w w' : MacWorld) (reads : list (Z * list Z)) (root : Z) (shown : list AxShown) (sn : SemanticSnapshot) : Prop := {
  tk_root : exists w1 w2, find_window os t w1 = (w2, Ok root);
  tk_elements : sn_elements sn = propagate_table_row_names (ax_described (ax_snapshot_key (at_pid t) ((mc_next_snapshot w + 1) mod 2 ^ 64)) shown);
  tk_stored : last (mc_snapshots w') = Some (ax_remembered sha256 (ax_snapshot_key (at_pid t) ((mc_next_snapshot w + 1) mod 2 ^ 64)) shown);
  tk_kept : (length (mc_snapshots w') <= SNAPSHOT_CACHE_LIMIT)%nat;
  tk_bytes : ax_shown_bytes shown <= bu_max_bytes (ax_snapshot_budget mode);
  tk_shown : shown_ok f64_to_string secure_subrole os (ax_snapshot_key (at_pid t) ((mc_next_snapshot w + 1) mod 2 ^ 64)) reads shown;
  tk_complete : sn_complete sn = true <-> sn_truncation sn = None;
  tk_verdict : ax_verdict mode root reads shown (mc_time w + bu_time (ax_snapshot_budget mode)) (mc_time w') (ot_reason <$> sn_truncation sn);
}.

Lemma start_walked key mode root : Walked sha256 f64_to_string secure_subrole os mode key root [] [(root, None, 0)] [] walk_none.
Proof. split; [done|done|done|by destruct mode|split; [done|set_solver]|by repeat constructor|done]. Qed.

Lemma budget_nodes mode : Z.of_nat (Z.to_nat (bu_max_nodes (ax_snapshot_budget mode))) = bu_max_nodes (ax_snapshot_budget mode).
Proof. by destruct mode. Qed.

Lemma verdict_sooner mode root reads shown d d' now truncation : d' <= d -> ax_verdict mode root reads shown d now truncation -> ax_verdict mode root reads shown d' now truncation.
Proof. intros Hd. destruct truncation as [[]|]; cbn; (done || lia). Qed.

Lemma ax_snapshot_taken t mode w :
  let '(w', r) := take_snapshot t mode w in
  exists reads, mc_log w' = mc_log w ++ noted reads /\ Z.of_nat (length reads) <= bu_max_nodes (ax_snapshot_budget mode) /\
  match r with Err e => mc_snapshots w' = mc_snapshots w | Ok sn => exists root shown, AxTaken t mode w w' reads root shown sn end.
Proof.
  unfold ax_snapshot, ibind at 1. pose proof (ro_permission os w) as Hu1. destruct (ensure_accessibility_permission os w) as [w1 [[]|e]]; cbn [fst] in Hu1;
    [|exists []; cbn [fmap list_fmap]; rewrite app_nil_r; destruct Hu1; split_and!; [done|by destruct mode|done]].
  unfold ibind at 1. pose proof (ro_find_window os t w1) as Hu2. destruct (find_window os t w1) as [w2 [root|e]] eqn:Ef; cbn [fst] in Hu2;
    (assert (Hu : unchanged w w2) by by etrans); [|exists []; cbn [fmap list_fmap]; rewrite app_nil_r; destruct Hu; split_and!; [done|by destruct mode|done]].
  unfold ibind at 1. set (w3 := {| w2 with mc_next_snapshot := _ |}). unfold ibind at 1, ax_now. set (w4 := ax_tick os 0 w3). cbv zeta.
  pose proof (tick_unchanged os 0 w3 : unchanged w3 w4) as Hu4. set (deadline := mc_time w4 + _). set (key := ax_snapshot_key _ _).
  pose proof (walk_exact sha256 f64_to_string secure_subrole os mode key root deadline (Z.to_nat (bu_max_nodes (ax_snapshot_budget mode))) [(root, None, 0)] [] [] walk_none w4
    (budget_nodes mode) (start_walked key mode root) (or_introl eq_refl)) as Hw.
  unfold ibind at 1. destruct (ax_walk _ _ _ _ _ _ _ _ _ _ w4) as [w5 [k|e]]; destruct Hw as (reads & Hl & Hs & _ & Hn & Hk); cbn [app] in Hn; exists reads;
    destruct Hu as [Hul Hus Hux _ Hut], Hu4 as [Hl4 Hs4 _ _ Ht4]; (split_and!; [cbn [mc_log]; rewrite Hl; exact (f_equal (.++ noted reads) (eq_trans Hl4 Hul))|done|]); [|exact (eq_trans Hs (eq_trans Hs4 Hus))].
  cbn [w3 mc_time] in Ht4.
  destruct Hk as (shown & He & Hst & Hb & Hok & Hv). exists root, shown. assert (Ek : key = ax_snapshot_key (at_pid t) ((mc_next_snapshot w + 1) mod 2 ^ 64)) by (unfold key, w3; cbn; by rewrite Hux).
  rewrite Ek in He, Hst, Hok. destruct (push_snapshot_last (wk_stored k) (mc_snapshots w5)) as [Hlast Hlen].
  split; cbn [mc_snapshots mc_time sn_elements snapshot_of wk_elements wk_stored wk_truncation]; [by exists w1, w2|by rewrite He|by rewrite <- Hst|done|done|done|by destruct (wk_truncation k)|].
  apply (verdict_sooner mode root reads shown deadline); [unfold deadline; lia|]. by destruct (wk_truncation k).
Qed.


(** ** Actions *)

(** The calls that carry an action out, in the order they are tried. *)
Definition ax_effects (element : Z) (action : SemanticAction) (answer : option AxError) : list AxWhat :=
  match action with
  | SemFocus => [AxWrote element AxFocused (CfBoolean true) answer]
  | SemInvoke | SemToggle => [AxPerformed element AxPress answer]
  | SemSetValue value => [AxWrote element AxValue (CfString value) answer]
  | SemSetRangeValue value => [AxWrote element AxValue (CfNumber None (Some value)) answer]
  | SemSelect => [AxWrote element AxSelected (CfBoolean true) answer; AxPerformed element AxPick answer; AxPerformed element AxPress answer]
  | SemSetExpanded expanded => [AxWrote element AxExpanded (CfBoolean expanded) answer]
  end.

(** A call with its admission: the lease it held, the guard's cells and the
    time. *)
Record AxTry := { ty_lease : option nat; ty_cells : GuardState; ty_now : Z; ty_what : AxWhat; ty_answer : option AxError }.

Definition ax_tried (tries : list AxTry) : list AxWhat := concat ((fun y => [AxAdmitted (ty_lease y) (ty_cells y) (ty_now y); ty_what y]) <$> tries).

(** Whether the guard lets a call through. *)
Definition admitted (guard : option (nat * option Z)) (y : AxTry) : Prop :=
  match guard with
  | None => ty_lease y = None
  | Some (lease, observed) => ty_lease y = Some lease /\ (begin_dispatch (ty_cells y) lease observed (ty_now y)).2 = Ok tt
  end.

(** A computation that makes calls out of [allowed], each admitted on its own,
    and succeeds only if the last one was accepted. *)
Definition dispatches (guard : option (nat * option Z)) (allowed : option AxError -> list AxWhat) (limit : nat) (m : Act (W := MacWorld) unit) : Prop := forall w,
  let '(w', r) := m w in
  exists tries, mc_log w' = mc_log w ++ ax_tried tries /\ mc_snapshots w' = mc_snapshots w /\ (length tries <= limit)%nat /\
    Forall (fun y => admitted guard y /\ ty_what y ∈ allowed (ty_answer y)) tries /\ (r = Ok tt -> exists y, last tries = Some y /\ ty_answer y = None).

Section Dispatch.
Context (guard : option (nat * option Z)).

Lemma begin_admitted w : let '(w', r) := begin_native_dispatch os guard w in
  mc_snapshots w' = mc_snapshots w /\
  match r with
  | Err _ => mc_log w' = mc_log w
  | Ok _ => exists l g t, mc_log w' = mc_log w ++ [AxAdmitted l g t] /\ forall what answer, admitted guard {| ty_lease := l; ty_cells := g; ty_now := t; ty_what := what; ty_answer := answer |}
  end.
Proof.
  unfold begin_native_dispatch, admitted. destruct guard as [[lease observed]|]; cbn; [|split; [done|]; by do 3 eexists].
  destruct (begin_dispatch _ lease observed _) as [g [[]|e]] eqn:E; cbn; (split; [done|]); [|done].
  do 3 eexists. split; [done|]. intros _ _. by rewrite E.
Qed.

(** One native call after its admission. *)
Lemma dispatch_one what allowed : (forall answer, what answer ∈ allowed answer) ->
  dispatches guard allowed 1 (begin_native_dispatch os guard ;& (let& answer := ax_ask os (ax_answer os) in ax_note (what answer) ;& ax_raise (map_action_error answer))).
Proof.
  intros Hin w. unfold ibind at 1. pose proof (begin_admitted w) as H. destruct (begin_native_dispatch os guard w) as [w1 [[]|e]]; destruct H as [Hs H].
  - destruct H as (l & g & t & Hl & Ha). cbn. exists [{| ty_lease := l; ty_cells := g; ty_now := t; ty_what := what (ax_answer os (mc_at w1)); ty_answer := ax_answer os (mc_at w1) |}].
    split_and!; [cbn [mc_log ax_tick ax_tried fmap list_fmap concat ty_lease ty_cells ty_now ty_what app]; rewrite Hl, <- app_assoc; done|done|done|constructor; [split; [apply Ha|apply Hin]|constructor]|]. destruct (ax_answer os (mc_at w1)) as [[]|]; intros [=]. by eexists.
  - exists []. cbn [ax_tried fmap list_fmap concat]. rewrite app_nil_r. split_and!; [done|done|cbn; lia|constructor|done].
Qed.

Lemma dispatch_or_else allowed m n j k : dispatches guard allowed j m -> dispatches guard allowed k n -> dispatches guard allowed (j + k) (or_else m n).
Proof.
  intros Hm Hn w. specialize (Hm w). unfold or_else, ikeep. destruct (m w) as [w1 [[]|e]]; destruct Hm as (ts & Hl & Hs & Hlen & Hf & Hr).
  - cbn. exists ts. split_and!; [done|done|lia|done|done].
  - specialize (Hn w1). destruct (n w1) as [w2 r]. destruct Hn as (us & Hl2 & Hs2 & Hlen2 & Hf2 & Hr2). exists (ts ++ us). split_and!.
    + unfold ax_tried. rewrite fmap_app, concat_app, app_assoc, Hl2, Hl. done.
    + congruence.
    + rewrite length_app. lia.
    + by apply Forall_app.
    + intros Hok. destruct (Hr2 Hok) as (y & Hy & Hz). exists y. split; [|done]. rewrite last_app, Hy. done.
Qed.

#[local] Abbreviation perform := (ax_perform sha256 f64_to_string secure_subrole os guard).
#[local] Abbreviation identify := (read_action_identity f64_to_string secure_subrole os).

Definition ax_limit (action : SemanticAction) : nat := match action with SemSelect => 3 | _ => 1 end.

(** The calls behind an action. *)
Definition ax_effect (element : Z) (action : SemanticAction) : Act (W := MacWorld) unit :=
  match action with
  | SemFocus => set_boolean os guard element AxFocused true
  | SemInvoke | SemToggle => perform_native_action os guard element AxPress
  | SemSetValue value => set_attribute os guard element AxValue (CfString value)
  | SemSetRangeValue value => set_attribute os guard element AxValue (CfNumber None (Some value))
  | SemSelect => or_else (or_else (set_boolean os guard element AxSelected true) (perform_native_action os guard element AxPick)) (perform_native_action os guard element AxPress)
  | SemSetExpanded expanded => set_boolean os guard element AxExpanded expanded
  end.

Lemma effect_dispatches element action : dispatches guard (ax_effects element action) (ax_limit action) (ax_effect element action).
Proof.
  destruct action; try (apply (dispatch_one (fun answer => _)); intros answer; left).
  apply (dispatch_or_else _ _ _ 2 1); [apply (dispatch_or_else _ _ _ 1 1)|]; apply (dispatch_one (fun answer => _)); intros answer; set_solver.
Qed.

(** An action on a stored element: nothing is done, or the element was read
    again, had the stored signature, and the action's calls were made. *)
Lemma ax_perform_stored key action stored w : find_element key (mc_snapshots w) = Some stored ->
  exists w1, unchanged w w1 /\
  ((exists e, perform key action w = (w1, Err e)) \/
   (exists w0 current, identify (so_element stored) w0 = (w1, Ok current) /\ ax_element_signature sha256 current = so_signature stored /\
     perform key action w = ax_effect (so_element stored) action w1)).
Proof.
  intros Hf. remember (perform key action w) as p eqn:E. unfold ax_perform in E. unfold ibind at 1 in E.
  pose proof (ro_permission os w) as Hu. destruct (ensure_accessibility_permission os w) as [w1 [[]|e]]; cbn [fst] in Hu; [|by eauto].
  rewrite (un_snapshots _ _ Hu), Hf in E. unfold ibind at 1, ikeep at 1 in E. pose proof (ro_read_identity f64_to_string secure_subrole os (so_element stored) w1) as Hu2.
  destruct (identify (so_element stored) w1) as [w2 [current|e]] eqn:Ei; cbn [fst] in Hu2; exists w2; (split; [by etrans|]); cbn [iret ierr] in E; [|left; by eexists].
  destruct (bool_decide _) eqn:Eb in E; cbn [negb] in E; [|left; by eexists]. apply bool_decide_eq_true in Eb. right. exists w1, current. split_and!; [done|done|].
  by destruct action.
Qed.

Lemma ax_acted key action stored w : find_element key (mc_snapshots w) = Some stored ->
  let '(w', r) := perform key action w in
  exists tries, mc_log w' = mc_log w ++ ax_tried tries /\ mc_snapshots w' = mc_snapshots w /\ (length tries <= ax_limit action)%nat /\
    Forall (fun y => admitted guard y /\ ty_what y ∈ ax_effects (so_element stored) action (ty_answer y)) tries /\
    (r = Ok tt -> exists y, last tries = Some y /\ ty_answer y = None) /\
    (tries <> [] -> exists w0 w1 current, identify (so_element stored) w0 = (w1, Ok current) /\ ax_element_signature sha256 current = so_signature stored).
Proof.
  intros Hf. destruct (ax_perform_stored key action stored w Hf) as (w1 & [Hl Hs _ _ _] & [[e ->]|(w0 & current & Hi & Hsig & ->)]).
  - exists []. cbn [ax_tried fmap list_fmap concat]. rewrite app_nil_r. split_and!; [done|done|cbn; lia|constructor|done|done].
  - pose proof (effect_dispatches (so_element stored) action w1) as H. destruct (ax_effect _ _ w1) as [w2 r]. destruct H as (ts & Hl2 & Hs2 & Hn & Hf2 & Hr).
    exists ts. split_and!; [congruence|congruence|done|done|done|]. intros _. by exists w0, w1, current.
Qed.

(** An element of the latest snapshot is stored under its key. *)
Lemma ax_snapshot_shown t mode w w1 sn i el w2 :
  take_snapshot t mode w = (w1, Ok sn) -> sn_elements sn !! i = Some el -> mc_snapshots w2 = mc_snapshots w1 ->
  exists handle v, (exists u u', read_node f64_to_string secure_subrole os handle u = (u', Ok v)) /\
    unnamed el = unnamed (ax_element_of (el_key el) (el_parent_key el) v) /\
    find_element (el_key el) (mc_snapshots w2) = Some {| so_element := handle; so_signature := ax_element_signature sha256 v |}.
Proof.
  intros Hsnap Hel Hkept. pose proof (ax_snapshot_taken t mode w) as H. rewrite Hsnap in H. destruct H as (reads & _ & _ & root & shown & []).
  rewrite tk_elements0 in Hel. apply row_names in Hel as (e0 & He0 & Hun & _). unfold ax_described in He0. rewrite list_lookup_imap in He0.
  apply fmap_Some in He0 as (x & Hi & ->). destruct (so_read _ _ _ _ _ _ tk_shown0 x (list_elem_of_lookup_2 _ _ _ Hi)) as [_ Hread]. exists x.1.1, x.2.
  assert (Hk : el_key el = element_key (ax_snapshot_key (at_pid t) ((mc_next_snapshot w + 1) mod 2 ^ 64)) i) by exact (f_equal el_key Hun).
  assert (Hp : el_parent_key el = x.1.2) by exact (f_equal el_parent_key Hun).
  split_and!; [done|by rewrite Hk, Hp|]. rewrite Hkept. eapply find_newest; [done|]. rewrite Hk. by apply ax_remembered_lookup.
Qed.

(** C22: an action that names an element of the latest snapshot on macOS reaches
    only the element that was shown under that key: its calls are those of the
    action on that handle, at most one but for a selection, each admitted by
    the guard just before it, and none is made unless the element was read again
    and has the signature it was shown with; success means the last call was
    accepted. *)
Theorem ax_element_acted_on t mode action w w1 sn i el w2 :
  take_snapshot t mode w = (w1, Ok sn) ->
  sn_elements sn !! i = Some el ->
  mc_snapshots w2 = mc_snapshots w1 ->
  exists handle v, (exists u u', read_node f64_to_string secure_subrole os handle u = (u', Ok v)) /\
    unnamed el = unnamed (ax_element_of (el_key el) (el_parent_key el) v) /\
    let '(w3, r) := perform (el_key el) action w2 in
    exists tries, mc_log w3 = mc_log w2 ++ ax_tried tries /\ mc_snapshots w3 = mc_snapshots w2 /\ (length tries <= ax_limit action)%nat /\
      Forall (fun y => admitted guard y /\ ty_what y ∈ ax_effects handle action (ty_answer y)) tries /\
      (r = Ok tt -> exists y, last tries = Some y /\ ty_answer y = None) /\
      (tries <> [] -> exists u u' current, identify handle u = (u', Ok current) /\ ax_element_signature sha256 current = ax_element_signature sha256 v).
Proof.
  intros Hsnap Hel Hkept. destruct (ax_snapshot_shown _ _ _ _ _ _ _ _ Hsnap Hel Hkept) as (handle & v & Hread & Hun & Hf). exists handle, v.
  split_and!; [done|done|]. exact (ax_acted _ _ _ _ Hf).
Qed.

End Dispatch.

(** ** An element that does not change *)

(** The provider answers every read of an element from the same values. *)
Record steady (element : Z) (value : AxAttribute -> CFType) (settable : bool) : Prop := {
  sy_values : forall n attributes, ax_multiple os n element attributes = Ok (value <$> attributes);
  sy_settable : forall n, ax_settable os n element AxValue = settable;
}.

(** What a range is read as. *)
Definition steady_range (value : AxAttribute -> CFType) (settable : bool) : option AccessibilityRangeValue :=
  match cf_number (value AxValue), cf_number (value AxMinValue), cf_number (value AxMaxValue) with
  | Some v, Some minimum, Some maximum =>
      if negb (is_finite v) || negb (is_finite minimum) || negb (is_finite maximum) || f64_gt minimum maximum || f64_lt v minimum || f64_gt v maximum then None
      else Some {| rv_value := v; rv_minimum := minimum; rv_maximum := maximum; rv_small_change := finite_positive (cf_number (value AxValueIncrement));
                   rv_large_change := None; rv_read_only := negb settable |}
  | _, _, _ => None
  end.

Lemma steady_range_read element value settable w : steady element value settable ->
  (range_value os element (Some (value AxValue)) (Some (value AxMinValue)) (Some (value AxMaxValue)) (Some (value AxValueIncrement)) w).2 = Ok (steady_range value settable).
Proof.
  intros [_ Hs]. unfold range_value, steady_range. cbn [mbind option_bind]. destruct (cf_number (value AxValue)), (cf_number (value AxMinValue)), (cf_number (value AxMaxValue)); try done.
  destruct (_ || _); [done|]. cbn. by rewrite Hs.
Qed.

(** The snapshot's reading and the reading before an action see the same
    identity. *)
Lemma signature_stable element value settable w1 w2 : steady element value settable ->
  exists v current, (read_node f64_to_string secure_subrole os element w1).2 = Ok v /\ (read_action_identity f64_to_string secure_subrole os element w2).2 = Ok current /\
    ax_element_signature sha256 current = ax_element_signature sha256 v.
Proof.
  intros Hs. pose proof (steady_range_read element value settable) as Hr. unfold read_node, read_action_identity, copy_multiple, ax_call, ibind, ax_ask, ax_raise.
  rewrite !(sy_values _ _ _ Hs). cbn [fmap list_fmap NODE_ATTRIBUTES IDENTITY_ATTRIBUTES lookup list_lookup].
  assert (Hn := Hr (ax_tick os 0 w1) Hs). assert (Hi := Hr (ax_tick os 0 w2) Hs).
  destruct (range_value os element _ _ _ _ (ax_tick os 0 w1)) as [u1 r1], (range_value os element _ _ _ _ (ax_tick os 0 w2)) as [u2 r2]. cbn in Hn, Hi. subst r1 r2.
  by do 2 eexists.
Qed.


(** ** The window *)

(** The window was identified as the target. *)
Definition saw_target (t : AxTarget) (window : Z) : Prop :=
  exists identity number, (exists w0 w1, read_window_identity os window w0 = (w1, Ok identity)) /\ (exists w0 w1, read_window_number os window w0 = (w1, Ok number)) /\
    window_identity_matches number (at_window_number t) identity.2 identity.1 (at_bounds t) (at_title t) = true.

Lemma is_target_saw t window identity w w' : (exists u u', read_window_identity os window u = (u', Ok identity)) ->
  is_target os t window identity w = (w', Ok true) -> saw_target t window.
Proof.
  intros Hi. unfold is_target, ibind. destruct (read_window_number os window w) as [w1 [number|e]] eqn:En; [|done]. intros [= _ Hm].
  exists identity, number. split_and!; [done|by exists w, w1|done].
Qed.

Lemma attempt_some {A} (m : Act (W := MacWorld) A) w w' a : attempt m w = (w', Ok (Some a)) -> m w = (w', Ok a).
Proof. unfold attempt, ikeep, iret. destruct (m w) as [w1 [b|e]]; intros [= -> ?]; congruence. Qed.

Lemma ok_bind {A B} (m : Act (W := MacWorld) A) (k : A -> Act B) w w' b : ibind m k w = (w', Ok b) -> exists w1 a, m w = (w1, Ok a) /\ k a w1 = (w', Ok b).
Proof. unfold ibind. destruct (m w) as [w1 [a|e]]; [|done]. by exists w1, a. Qed.

Lemma window_under_saw t application w w' window : window_under os t application w = (w', Ok (Some window)) -> saw_target t window.
Proof.
  unfold window_under. intros (w1 & [element|] & _ & H)%ok_bind; [|done]. apply ok_bind in H as (w2 & [found|] & _ & H); [|done].
  apply ok_bind in H as (w3 & [identity|] & Hi & H); [|done]. apply attempt_some in Hi. apply ok_bind in H as (w4 & [] & Ht & H); [|done]. injection H as _ ->.
  eapply is_target_saw; [by eauto|exact Ht].
Qed.

Lemma matching_saw t windows : forall limit w w' found, matching_windows os t limit windows w = (w', Ok found) -> Forall (saw_target t) found.
Proof.
  induction windows as [|window windows IH]; intros [|limit] w w' found; cbn [matching_windows]; try (intros [= _ <-]; constructor).
  intros (w1 & [identity|] & Hi & H)%ok_bind; [|by eapply IH]. apply attempt_some in Hi. apply ok_bind in H as (w2 & [] & Ht & H); [|by eapply IH].
  apply ok_bind in H as (w3 & rest & Hr & H). injection H as _ <-. constructor; [|by eapply IH]. eapply is_target_saw; [by eauto|exact Ht].
Qed.

Lemma find_window_saw t w w' window : find_window os t w = (w', Ok window) -> saw_target t window.
Proof.
  unfold find_window. intros (w1 & ? & _ & H)%ok_bind. apply ok_bind in H as (w2 & [found|] & Hu & H).
  - injection H as _ ->. by eapply window_under_saw.
  - apply ok_bind in H as (w3 & windows & _ & H). apply ok_bind in H as (w4 & found & Hm & H). apply matching_saw in Hm.
    destruct found as [|y [|]]; [done| |done]. injection H as _ ->. by apply Forall_cons in Hm as [].
Qed.

(** A confirmed change was seen. *)
Lemma confirm_seen fuel probe failure deadline : forall w w', confirm_change os fuel probe failure deadline w = (w', Ok tt) -> exists w0 w1, probe w0 = (w1, Ok true).
Proof.
  induction fuel as [|fuel IH]; intros w w'; cbn [confirm_change]; intros (w1 & [] & Hp & H)%ok_bind; eauto; apply ok_bind in H as (w2 & now & _ & H);
    destruct (deadline <=? now); try done. apply ok_bind in H as (w3 & ? & _ & H). eauto.
Qed.

(** The calls between two states, each admitted. *)
Definition made (guard : option (nat * option Z)) (w w' : MacWorld) (tries : list AxTry) : Prop :=
  mc_log w' = mc_log w ++ ax_tried tries /\ mc_snapshots w' = mc_snapshots w /\ Forall (admitted guard) tries.

Lemma made_none guard w w' : unchanged w w' -> made guard w w' [].
Proof. intros [Hl Hs _ _ _]. unfold made, ax_tried. cbn. rewrite app_nil_r. by split_and!. Qed.

Lemma made_app guard w w1 w2 ts us : made guard w w1 ts -> made guard w1 w2 us -> made guard w w2 (ts ++ us).
Proof.
  intros (Hl & Hs & Hf) (Hl2 & Hs2 & Hf2). unfold made, ax_tried. rewrite fmap_app, concat_app, app_assoc. split_and!; [rewrite Hl2, Hl; done|congruence|by apply Forall_app].
Qed.

(** The write of one attribute. *)
Lemma set_attribute_made guard element attribute value w : let '(w', r) := set_attribute os guard element attribute value w in
  exists tries, made guard w w' tries /\
    ((tries = [] /\ r <> Ok tt) \/ exists answer, ty_what <$> tries = [AxWrote element attribute value answer] /\ r = map_action_error answer).
Proof.
  unfold set_attribute, ibind at 1. pose proof (begin_admitted guard w) as H. destruct (begin_native_dispatch os guard w) as [w1 [[]|e]]; destruct H as [Hs H].
  - destruct H as (l & g & t & Hl & Ha). cbn. exists [{| ty_lease := l; ty_cells := g; ty_now := t; ty_what := AxWrote element attribute value (ax_answer os (mc_at w1)); ty_answer := ax_answer os (mc_at w1) |}].
    split; [|right; by eexists]. split_and!; [|done|constructor; [apply Ha|constructor]].
    cbn [mc_log ax_tick ax_tried fmap list_fmap concat ty_lease ty_cells ty_now ty_what app]. rewrite Hl, <- app_assoc. done.
  - exists []. split; [|by left]. unfold made, ax_tried. cbn. rewrite app_nil_r. by split_and!.
Qed.

Lemma answer_accepted answer : map_action_error answer = Ok tt -> answer = None.
Proof. by destruct answer as [[]|]. Qed.

Lemma set_ax_value_made guard element attribute value w : let '(w', r) := set_ax_value os guard element attribute value w in
  exists tries, made guard w w' tries /\
    ((tries = [] /\ r <> Ok tt) \/ exists answer, ty_what <$> tries = [AxWrote element attribute value answer] /\ r = map_action_error answer).
Proof.
  unfold set_ax_value. unfold ibind at 1, ax_ask at 1. pose proof (tick_unchanged os 0 w) as Hu. destruct (ax_encodes os (mc_at w)); cbn [negb].
  - pose proof (set_attribute_made guard element attribute value (ax_tick os 0 w)) as H. destruct (set_attribute _ _ _ _ _ _) as [w' r]. destruct H as (ts & Hm & H).
    exists ts. split; [|done]. exact (made_app _ _ _ _ [] _ (made_none _ _ _ Hu) Hm).
  - exists []. split; [by apply made_none|by left].
Qed.

Lemma ro_not_dispatched {A} (m : Act A) : reads_only m -> reads_only (not_dispatched_on_error m).
Proof. intros Hm. unfold not_dispatched_on_error. ro_run. Qed.

Lemma not_dispatched_ok {A} (m : Act (W := MacWorld) A) w w' a : not_dispatched_on_error m w = (w', Ok a) -> m w = (w', Ok a).
Proof. unfold not_dispatched_on_error, ikeep, ax_raise. destruct (m w) as [w1 [b|e]]; intros [= -> ?]; congruence. Qed.

Lemma ro_confirm fuel probe failure deadline : reads_only probe -> reads_only (confirm_change os fuel probe failure deadline).
Proof. intros Hp. induction fuel as [|fuel IH]; cbn [confirm_change]; ro_run. Qed.

(** The start of both changes of a window. *)
Lemma window_found guard t w :
  let '(w', r) := (not_dispatched_on_error (ensure_accessibility_permission os) ;& not_dispatched_on_error (find_window os t)) w in
  made guard w w' [] /\ forall window, r = Ok window -> saw_target t window.
Proof.
  pose proof (ro_bind _ (fun _ : unit => not_dispatched_on_error (find_window os t)) (ro_not_dispatched _ (ro_permission os)) (fun _ => ro_not_dispatched _ (ro_find_window os t)) w) as Hu.
  destruct ((_ ;& _) w) as [w' r] eqn:E. split; [by apply made_none|]. intros window ->. apply ok_bind in E as (w1 & ? & _ & H).
  apply not_dispatched_ok in H. by eapply find_window_saw.
Qed.

Lemma found_first {A} t (k : Z -> Act (W := MacWorld) A) w :
  (not_dispatched_on_error (ensure_accessibility_permission os) ;& (let& window := not_dispatched_on_error (find_window os t) in k window)) w =
  (let& window := (not_dispatched_on_error (ensure_accessibility_permission os) ;& not_dispatched_on_error (find_window os t)) in k window) w.
Proof. unfold ibind at 1 3 4. by destruct (not_dispatched_on_error (ensure_accessibility_permission os) w) as [w1 [[]|e]]. Qed.

(** The bounds of a window were read. *)
Definition saw_bounds (window : Z) (actual : ScreenRect) : Prop := exists w0 w1 title, read_window_identity os window w0 = (w1, Ok (title, Some actual)).

Lemma confirm_bounds guard window requested w : let '(w', r) := confirm_window_bounds os window requested w in
  made guard w w' [] /\ (r = Ok tt -> exists actual, saw_bounds window actual /\ window_bounds_match actual requested = true).
Proof.
  assert (Hu : reads_only (confirm_window_bounds os window requested)).
  { unfold confirm_window_bounds. apply ro_bind; [apply ro_now|]. intros started. apply ro_confirm. apply ro_bind; [apply ro_attempt, ro_identity|]. intros ?. apply ro_ret. }
  specialize (Hu w). destruct (confirm_window_bounds os window requested w) as [w' r] eqn:E. split; [by apply made_none|]. intros ->.
  apply ok_bind in E as (w1 & started & _ & H). apply confirm_seen in H as (w2 & w3 & H). apply ok_bind in H as (w4 & [[title [actual|]]|] & Hi & H); try done.
  apply attempt_some in Hi. injection H as _ H. exists actual. split; [by exists w2, w4, title|done].
Qed.

(** A request to move or resize a window of macOS writes the position and
    then the size of a window that was just identified as the target by its
    number or title and bounds, and nothing else, each write admitted by the
    guard; success means both writes were accepted and the requested bounds
    were read back, within the tolerance. *)
Theorem ax_bounds_truthful guard t requested w :
  let '(w', r) := ax_set_window_bounds os guard t requested w in
  exists tries, made guard w w' tries /\
    (tries <> [] \/ r = Ok tt -> exists window position size, saw_target t window /\
      (ty_what <$> tries) `prefix_of` [AxWrote window AxPosition (CfPoint (sr_x requested) (sr_y requested)) position;
                                       AxWrote window AxSize (CfSize (sr_width requested) (sr_height requested)) size] /\
      (r = Ok tt -> length tries = 2%nat /\ position = None /\ size = None /\
        exists actual, saw_bounds window actual /\ window_bounds_match actual requested = true)).
Proof.
  unfold ax_set_window_bounds. rewrite found_first. unfold ibind at 1. pose proof (window_found guard t w) as H.
  destruct ((_ ;& _) w) as [w1 [window|e]]; destruct H as [Hm Hsaw]; [|exists []; split; [done|by intros [|]]]. specialize (Hsaw window eq_refl).
  unfold ibind at 1. pose proof (set_ax_value_made guard window AxPosition (CfPoint (sr_x requested) (sr_y requested)) w1) as H.
  destruct (set_ax_value os guard window AxPosition _ w1) as [w2 r1]. destruct H as (ts & Hm1 & H). pose proof (made_app _ _ _ _ _ _ Hm Hm1) as Hm2. cbn [app] in Hm2.
  assert (Hone : (ts = [] \/ exists a, ty_what <$> ts = [AxWrote window AxPosition (CfPoint (sr_x requested) (sr_y requested)) a]) /\
    forall x, r1 = Ok x -> ty_what <$> ts = [AxWrote window AxPosition (CfPoint (sr_x requested) (sr_y requested)) None]).
  { destruct H as [[-> Hr]|(a & Ha & ->)]; [split; [by left|]; intros [] ->; by destruct Hr|]. split; [by right; exists a|]. intros [] E. by rewrite (answer_accepted a E) in Ha. }
  clear H. destruct Hone as [Hts Hok]. destruct r1 as [[]|e].
  2: { exists ts. split; [done|]. intros [Hne|]; [|done]. destruct Hts as [-> |[a Ha]]; [done|]. exists window, a, None. split_and!; [done|rewrite Ha; by eexists|done]. }
  specialize (Hok tt eq_refl). unfold ibind at 1. pose proof (set_ax_value_made guard window AxSize (CfSize (sr_width requested) (sr_height requested)) w2) as H.
  destruct (set_ax_value os guard window AxSize _ w2) as [w3 r2]. destruct H as (us & Hm3 & H). pose proof (made_app _ _ _ _ _ _ Hm2 Hm3) as Hm4.
  destruct r2 as [[]|e].
  - destruct H as [[_ []]|(b & Hb & E)]; [done|]. symmetry in E. apply answer_accepted in E. subst b.
    pose proof (confirm_bounds guard window requested w3) as H. destruct (confirm_window_bounds os window requested w3) as [w4 r]. destruct H as [Hm5 Hc].
    exists (ts ++ us). split; [rewrite <- (app_nil_r (ts ++ us)); by eapply made_app|]. intros _. exists window, None, None. rewrite fmap_app, Hok, Hb.
    split_and!; [done|done|]. intros Hr. split_and!; [|done|done|by apply Hc]. rewrite <- (length_fmap ty_what), fmap_app, Hok, Hb. done.
  - exists (ts ++ us). split; [done|]. intros [_|]; [|done]. rewrite fmap_app, Hok. destruct H as [[-> _]|(b & Hb & _)].
    + exists window, None, None. split_and!; [done|by eexists|done].
    + exists window, None, b. rewrite Hb. split_and!; [done|done|done].
Qed.

(** The fuel of a confirmation is never what ends it. *)
Lemma ax_confirm_fuel extra probe failure deadline : reads_only probe -> forall fuel w, deadline - mc_time w <= Z.of_nat fuel * WINDOW_CONFIRM_INTERVAL ->
  confirm_change os (fuel + extra) probe failure deadline w = confirm_change os fuel probe failure deadline w.
Proof.
  intros Hp. induction fuel as [|fuel IH]; intros w Hw; cbn [Nat.add].
  - destruct extra as [|extra]; [done|]. cbn [confirm_change]. unfold ibind at 1 4. pose proof (un_time _ _ (Hp w)) as Ht.
    destruct (probe w) as [w1 [[]|e]]; [done| |done]. unfold ibind at 1 3, ax_now. pose proof (un_time _ _ (tick_unchanged os 0 w1)) as Ht1. cbn [fst] in Ht.
    by rewrite (proj2 (Z.leb_le deadline (mc_time (ax_tick os 0 w1)))) by lia.
  - cbn [confirm_change]. unfold ibind at 1 4. pose proof (un_time _ _ (Hp w)) as Ht. destruct (probe w) as [w1 [[]|e]]; [done| |done]. unfold ibind at 1 3, ax_now.
    pose proof (un_time _ _ (tick_unchanged os 0 w1)) as Ht1. cbn [fst] in Ht. destruct (deadline <=? _); [done|]. unfold ibind, ax_sleep. apply IH.
    cbn [ax_tick mc_time] in *. unfold WINDOW_CONFIRM_INTERVAL, MILLISECOND in *. lia.
Qed.

(** The wait for a change of a window ends by its own deadline: twenty
    rounds are enough for its two hundred milliseconds, and any more give the
    same result. *)
Theorem confirm_ends extra probe failure w : reads_only probe ->
  (let& started := ax_now os in confirm_change os (CONFIRM_FUEL + extra) probe failure (started + WINDOW_CONFIRM_TIMEOUT)) w =
  (let& started := ax_now os in confirm_change os CONFIRM_FUEL probe failure (started + WINDOW_CONFIRM_TIMEOUT)) w.
Proof. intros Hp. unfold ibind, ax_now. apply ax_confirm_fuel; [done|]. unfold CONFIRM_FUEL, WINDOW_CONFIRM_TIMEOUT, WINDOW_CONFIRM_INTERVAL, MILLISECOND. lia. Qed.

(** ** The minimized state *)

Lemma read_minimized_spec t window w : let '(w', r) := read_minimized os t window w in
  unchanged w w' /\ (r = Ok false -> saw_target t window).
Proof.
  assert (Hu : reads_only (read_minimized os t window)).
  { unfold read_minimized. apply ro_bind; [apply ro_copy_attribute|]. intros value. destruct (cf_booleanish value) as [[]|]; [apply ro_ret| |apply ro_err].
    apply ro_bind; [apply ro_identity|]. intros identity. apply ro_bind; [apply ro_is_target|]. intros []; [apply ro_ret|apply ro_err]. }
  specialize (Hu w). destruct (read_minimized os t window w) as [w' r] eqn:E. split; [done|]. intros ->. apply ok_bind in E as (w1 & value & _ & H).
  destruct (cf_booleanish value) as [[]|]; try done. apply ok_bind in H as (w2 & identity & Hi & H). apply ok_bind in H as (w3 & [] & Ht & H); try done.
  eapply is_target_saw; [by eauto|exact Ht].
Qed.

(** The question whether a window is minimized changes nothing of the
    target; the answer that it is not is given only for a window that was just
    identified as the target.  At most 64 windows are remembered; one that
    could not be read is forgotten. *)
Theorem window_minimized_truthful key t w : (size (mc_state_windows w) <= STATE_WINDOWS)%nat ->
  let '(w', r) := window_minimized os key t w in
  mc_log w' = mc_log w /\ mc_snapshots w' = mc_snapshots w /\ (size (mc_state_windows w') <= STATE_WINDOWS)%nat /\
  match r with
  | Ok minimized => exists window, mc_state_windows w' !! key = Some window /\ (minimized = false -> saw_target t window)
  | Err _ => mc_state_windows w' !! key = None
  end.
Proof.
  intros Hsize. unfold window_minimized. unfold ibind at 1.
  assert (Hfound : forall window w1, mc_log w1 = mc_log w -> mc_snapshots w1 = mc_snapshots w -> (size (mc_state_windows w1) <= STATE_WINDOWS)%nat ->
    mc_state_windows w1 !! key = Some window -> let '(w', r) := ikeep (read_minimized os t window) (fun r => (match r with Ok _ => iret tt | Err _ => forget_window key end) ;& ax_raise r) w1 in
    mc_log w' = mc_log w /\ mc_snapshots w' = mc_snapshots w /\ (size (mc_state_windows w') <= STATE_WINDOWS)%nat /\
    match r with Ok minimized => exists window, mc_state_windows w' !! key = Some window /\ (minimized = false -> saw_target t window) | Err _ => mc_state_windows w' !! key = None end).
  { intros window w1 Hl Hs Hn Hk. unfold ikeep. pose proof (read_minimized_spec t window w1) as H. destruct (read_minimized os t window w1) as [w2 [b|e]]; destruct H as [[Hl2 Hs2 _ Hw2 _] Hb]; cbn.
    - rewrite Hw2. split_and!; [congruence|congruence|done|]. exists window. split; [done|]. intros ->. by apply Hb.
    - rewrite Hw2. split_and!; [congruence|congruence| |apply lookup_delete_eq]. rewrite map_size_delete, Hk. lia. }
  destruct (mc_state_windows w !! key) as [window|] eqn:Hk; [by apply Hfound|].
  set (w0 := if (STATE_WINDOWS <=? _)%nat then _ else w).
  assert (H0 : mc_log w0 = mc_log w /\ mc_snapshots w0 = mc_snapshots w /\ (size (mc_state_windows w0) < STATE_WINDOWS)%nat /\ mc_state_windows w0 !! key = None).
  { unfold w0. destruct (Nat.leb_spec STATE_WINDOWS (size (mc_state_windows w))); [|done]. cbn. split_and!; [done|done|unfold STATE_WINDOWS; rewrite map_size_empty; lia|apply lookup_empty]. }
  destruct H0 as (Hl & Hs & Hn & Hk0). unfold ibind at 1. pose proof (ro_find_window os t w0) as [Hl1 Hs1 _ Hw1 _].
  destruct (find_window os t w0) as [w1 [window|e]]; cbn [fst] in *.
  - cbn. apply Hfound; cbn; [congruence|congruence| |apply lookup_insert_eq]. rewrite Hw1, map_size_insert_None by done. lia.
  - rewrite Hw1. split_and!; [congruence|congruence|lia|done].
Qed.

End Claims.

(** * A window with a list *)

Module Desk.

(** A window 2 of process 7 with a row 3, which has no name, and in it a cell 4
    with one. *)
Definition value (element : Z) (attribute : AxAttribute) : CFType :=
  match attribute with
  | AxRole => CfString (if element =? 2 then "AXWindow" else if element =? 3 then "AXRow" else "AXCell")
  | AxTitle => CfString (if element =? 2 then "Notes" else if element =? 3 then "" else "Draft")
  | AxPosition => CfPoint (f64_of_Z 0) (f64_of_Z 0)
  | AxSize => CfSize (f64_of_Z 200) (f64_of_Z 100)
  | AxChildren => CfArray (if element =? 2 then [Some 3; None] else if element =? 3 then [Some 4] else [])
  | AxWindow => CfElement 2
  | _ => CfOther
  end.

Definition desk : AxSystem := {|
  ax_late := fun _ => 1; ax_events := fun _ => []; ax_trusted := fun _ => true; ax_application := fun pid => pid + 1000; ax_timeout_set := fun _ _ => true;
  ax_at_position := fun _ _ _ _ => Ok 4; ax_attribute := fun _ element attribute => Ok (value element attribute);
  ax_multiple := fun _ element attributes => Ok (value element <$> attributes); ax_window_number := fun _ _ => Some 7; ax_settable := fun _ _ _ => false;
  ax_action_names := fun _ _ => Ok []; ax_encodes := fun _ => true; ax_answer := fun _ => None |}.

Definition target : AxTarget :=
  {| at_pid := 7; at_window_number := 7; at_bounds := {| sr_x := f64_of_Z 0; sr_y := f64_of_Z 0; sr_width := f64_of_Z 200; sr_height := f64_of_Z 100 |}; at_title := "Notes" |}.
Definition before : MacWorld :=
  {| mc_log := []; mc_at := 0; mc_time := 0; mc_guard := Pane.cells; mc_next_snapshot := 0; mc_snapshots := []; mc_state_windows := ∅ |}.
Definition taken := ax_snapshot (fun bytes => bytes) (fun _ => "0"%string) "AXSecureTextField" desk target AxInteractive before.

(** The row takes the name of its cell. *)
Example ax_taken_elements : exists sn, taken.2 = Ok sn /\ sn_complete sn = true /\
  (fun e => (el_key e, el_parent_key e, el_name e)) <$> sn_elements sn =
    [("ax:7:1:0", None, "Notes"); ("ax:7:1:1", Some "ax:7:1:0", "Draft"); ("ax:7:1:2", Some "ax:7:1:1", "Draft")]%string /\
  mc_log taken.1 = [AxRead 2 [3]; AxRead 3 [4]; AxRead 4 []].
Proof. eexists. split; [vm_compute; reflexivity|]. by split_and!. Qed.

Definition row : DriverElement :=
  {| el_key := "ax:7:1:1"; el_parent_key := Some "ax:7:1:0"%string; el_role := "row"; el_name := "Draft"; el_value := None; el_range_value := None;
     el_screen_bounds := Some (at_bounds target); el_enabled := true; el_focused := false; el_selected := None; el_checked := None; el_expanded := None;
     el_actions := ["select"%string] |}.

Lemma ax_element_acted_on_witness : exists sn,
  taken = (taken.1, Ok sn) /\ sn_elements sn !! 1%nat = Some row /\
  exists handle v, (exists u u', read_node (fun _ => "0"%string) "AXSecureTextField" desk handle u = (u', Ok v)) /\
    unnamed row = unnamed (ax_element_of (el_key row) (el_parent_key row) v) /\
    let '(w3, r) := ax_perform (fun bytes => bytes) (fun _ => "0"%string) "AXSecureTextField" desk (Some (0%nat, None)) (el_key row) SemSelect taken.1 in
    exists tries, mc_log w3 = mc_log taken.1 ++ ax_tried tries /\ mc_snapshots w3 = mc_snapshots taken.1 /\ (length tries <= ax_limit SemSelect)%nat /\
      Forall (fun y => admitted (Some (0%nat, None)) y /\ ty_what y ∈ ax_effects handle SemSelect (ty_answer y)) tries /\
      (r = Ok tt -> exists y, last tries = Some y /\ ty_answer y = None) /\
      (tries <> [] -> exists u u' current, read_action_identity (fun _ => "0"%string) "AXSecureTextField" desk handle u = (u', Ok current) /\
        ax_element_signature (fun bytes => bytes) current = ax_element_signature (fun bytes => bytes) v).
Proof.
  eexists. split; [vm_compute; reflexivity|]. split; [vm_compute; reflexivity|].
  eapply (ax_element_acted_on (fun bytes => bytes) (fun _ => "0"%string) "AXSecureTextField" desk (Some (0%nat, None)) target AxInteractive SemSelect before taken.1 _ 1 row taken.1);
    [vm_compute; reflexivity|vm_compute; reflexivity|reflexivity].
Defined.


Lemma confirm_ends_witness :
  (let& started := ax_now desk in confirm_change desk (CONFIRM_FUEL + 5) (iret false) window_transformed (started + WINDOW_CONFIRM_TIMEOUT)) before =
  (let& started := ax_now desk in confirm_change desk CONFIRM_FUEL (iret false) window_transformed (started + WINDOW_CONFIRM_TIMEOUT)) before.
Proof. apply (confirm_ends desk 5 (iret false) window_transformed before). intros w. reflexivity. Defined.

Lemma window_minimized_truthful_witness :
  let '(w', r) := window_minimized desk "w" target before in
  mc_log w' = mc_log before /\ mc_snapshots w' = mc_snapshots before /\ (size (mc_state_windows w') <= STATE_WINDOWS)%nat /\
  match r with
  | Ok minimized => exists window, mc_state_windows w' !! "w"%string = Some window /\ (minimized = false -> saw_target desk target window)
  | Err _ => mc_state_windows w' !! "w"%string = None
  end.
Proof. apply (window_minimized_truthful desk "w" target before). vm_compute. lia. Defined.

(** The position is written, then the size cannot be encoded: the error says
    that nothing was dispatched. *)
Example half_moved : exists e,
  (ax_set_window_bounds {| desk with ax_encodes := fun n => (n <? 7)%nat |} None target (at_bounds target) before).2 = Err e /\
  de_mutation_status e = NotDispatched /\
  mc_log (ax_set_window_bounds {| desk with ax_encodes := fun n => (n <? 7)%nat |} None target (at_bounds target) before).1 =
    [AxAdmitted None Pane.cells 8; AxWrote 2 AxPosition (CfPoint (f64_of_Z 0) (f64_of_Z 0)) None].
Proof. eexists. split; [vm_compute; reflexivity|]. split; vm_compute; reflexivity. Qed.

(** A system on which the calls from the [k]th answer on are refused or time
    out. *)
Definition answering (k : nat) (e : AxError) : AxSystem := {| desk with ax_answer := fun n => if (n <? k)%nat then None else Some e |}.
Definition changes (l : list AxWhat) : list AxWhat := List.filter (fun x => match x with AxWrote _ _ _ _ | AxPerformed _ _ _ => true | _ => false end) l.

(** The application was brought to the front, then its window refused to become
    the main one: the error says that nothing was dispatched. *)
Example half_raised : exists e,
  (raise_window (answering 11 AxFailure) None target before).2 = Err e /\ de_mutation_status e = NotDispatched /\
  changes (mc_log (raise_window (answering 11 AxFailure) None target before).1) =
    [AxWrote 1007 AxFrontmost (CfBoolean true) None; AxWrote 2 AxMain (CfBoolean true) (Some AxFailure)].
Proof. eexists. split; [vm_compute; reflexivity|]. split; vm_compute; reflexivity. Qed.

(** The selection timed out, so it may have happened; the row is then picked as
    well, and pressed. *)
Example selected_again :
  changes (mc_log (ax_perform (fun bytes => bytes) (fun _ => "0"%string) "AXSecureTextField" (answering 0 AxCannotComplete) None (el_key row) SemSelect taken.1).1) =
    [AxWrote 3 AxSelected (CfBoolean true) (Some AxCannotComplete); AxPerformed 3 AxPick (Some AxCannotComplete); AxPerformed 3 AxPress (Some AxCannotComplete)].
Proof. vm_compute. reflexivity. Qed.

End Desk.
