(* ===== verification/WinFrame.v ===== *)
(** What every operation of the Windows input and semantic actors preserves
    ([src/crates/platform/src/windows/input.rs]).

    [WinInvariant] says what a property of the actor's world needs for every
    operation to keep it: it survives the passing of time, an admission makes
    it hold with its flag raised, and with the flag raised it survives the
    entries that are [ok].  The operations are walked through once, for any
    such property. *)

From Stdlib Require Import Ascii String SpecFloat.
From S2P Require Import Prelude Floats Geometry Text Protocol Errors Driver InputText WinInput WinInputProps.
#[local] Open Scope Z_scope.

Class WinInvariant (os : Native) (guard : option (nat * option Z)) (I : bool -> WinWorld -> Prop) (ok : What -> bool) : Prop := {
  inv_weaken : forall w, I true w -> I false w;
  inv_tick : forall a wait w, I a w -> I a (tick os wait w);
  inv_begin : forall a w, I a w ->
    let '(w', r) := win_begin_dispatch os guard w in match r with Ok _ => I true w' | Err _ => I a w' end;
  inv_logged : forall x w, ok x = true -> I true w -> I true (logged x w);
}.

(** The entries that need the foreground, and the others. *)
Definition uses_foreground (x : What) : bool :=
  match x with Sent _ _ | Fronted _ _ | Shown _ SW_RESTORE => true | _ => false end.

Section Frame.
Context {os : Native} {guard : option (nat * option Z)} {I : bool -> WinWorld -> Prop} {ok : What -> bool} `{!WinInvariant os guard I ok}.

Definition pres {A} (m : Act (W := WinWorld) A) : Prop := forall a, triple (I a) m (fun _ w => I a w).

Lemma inv_le b a w : b = a \/ b = true -> I b w -> I a w.
Proof. intros [->| ->]; [done|]. destruct a; [done|apply inv_weaken]. Qed.

Section Rules.
Context {A : Type} (b a : bool) (Hle : b = a \/ b = true).
#[local] Abbreviation done_ := (fun (_ : Result A DriverError) w => I a w).

Lemma f_bind {X} (m : Act X) (k : X -> Act A) : triple (I b) m (fun _ w => I b w) -> (forall x, triple (I b) (k x) done_) -> triple (I b) (ibind m k) done_.
Proof. intros Hm Hk. eapply triple_bind; [apply Hm|done|]. intros e w. by apply inv_le. Qed.

Lemma f_keep {X} (m : Act X) (k : Result X DriverError -> Act A) : triple (I b) m (fun _ w => I b w) -> (forall r, triple (I b) (k r) done_) -> triple (I b) (ikeep m k) done_.
Proof. intros Hm Hk. eapply triple_keep; [apply Hm|done]. Qed.

Lemma f_begin k : triple (I true) k done_ -> triple (I b) (win_begin_dispatch os guard ;& k) done_.
Proof.
  intros Hk w Hw. unfold ibind. pose proof (inv_begin b w Hw) as Hb. destruct (win_begin_dispatch os guard w) as [w1 [x|e]]; [by apply Hk|by eapply inv_le].
Qed.

Lemma f_begin_keep k : (forall x, triple (I true) (k (Ok x)) done_) -> (forall e, triple (I b) (k (Err e)) done_) ->
  triple (I b) (ikeep (win_begin_dispatch os guard) k) done_.
Proof.
  intros Hk He w Hw. unfold ikeep. pose proof (inv_begin b w Hw) as Hb. destruct (win_begin_dispatch os guard w) as [w1 [x|e]]; [by apply Hk|by apply He].
Qed.

Lemma f_act {X} (f : nat -> X) (what : X -> What) (k : X -> Act A) :
  (forall x, ok (what x) = true) -> (forall x, triple (I true) (k x) done_) -> triple (I true) (ibind (act os f what) k) done_.
Proof. intros Hok Hk w Hw. unfold ibind, act. apply Hk, inv_logged; [done|]. by apply inv_tick. Qed.

Lemma f_value (r : Result A DriverError) : triple (I b) (raise r) done_.
Proof. intros w. by apply inv_le. Qed.

Lemma f_ret (x : A) : triple (I b) (iret x) done_.
Proof. intros w. by apply inv_le. Qed.

Lemma f_err e : triple (I b) (ierr e) done_.
Proof. intros w. by apply inv_le. Qed.

Lemma f_last (m : Act A) : pres m -> triple (I b) m done_.
Proof. intros Hm w Hw. eapply inv_le, Hm, Hw. done. Qed.

Lemma f_le (m : Act A) : triple (I b) m (fun _ w => I b w) -> triple (I b) m done_.
Proof. intros Hm w Hw. eapply inv_le, Hm, Hw. done. Qed.

Lemma f_act_last (f : nat -> A) (what : A -> What) : (forall x, ok (what x) = true) -> triple (I true) (act os f what) done_.
Proof. intros Hok w Hw. apply (inv_le true a); [by right|]. apply inv_logged; [done|]. by apply inv_tick. Qed.

End Rules.

Lemma pres_ask {X} (f : nat -> X) : pres (ask os f).
Proof. intros a w. apply inv_tick. Qed.

Lemma pres_sleep wait : pres (win_sleep os wait).
Proof. intros a w. apply inv_tick. Qed.

Lemma pres_check : pres (check_guard os guard).
Proof. intros a w. apply inv_tick. Qed.

Lemma pres_now : pres now.
Proof. by intros a w. Qed.

Lemma pres_begin : pres (win_begin_dispatch os guard).
Proof.
  intros a w Hw. pose proof (inv_begin a w Hw) as Hb. destruct (win_begin_dispatch os guard w) as [w1 [x|e]]; [|done]. cbn in *. destruct a; [done|by apply inv_weaken].
Qed.

Lemma pres_for_each {X} (xs : list X) body : (forall x, pres (body x)) -> pres (for_each xs body).
Proof.
  intros Hb a. induction xs as [|x xs IH]; [by intros w|]. cbn [for_each]. eapply f_bind; [by left|apply Hb|]. by intros [].
Qed.

End Frame.

Create HintDb frame.
#[export] Hint Resolve pres_ask pres_sleep pres_check pres_now pres_begin : frame.

(** Walk through an operation: admissions raise the flag, calls of operations
    already walked through are in the database [frame]. *)
Ltac fle := first [assumption | left; reflexivity | right; reflexivity].
Ltac fpres := first [solve [eauto with frame] | intros; unfold pres; intros ?; frun]
with frun :=
  lazymatch goal with
  | |- triple _ (ibind (win_begin_dispatch _ _) _) _ => apply f_begin; [fle|frun]
  | |- triple _ (ikeep (win_begin_dispatch _ _) _) _ => apply f_begin_keep; intros ?; frun
  | |- triple _ (ibind (act _ _ _) _) _ => apply f_act; [intros ?; solve [eauto with frame]|intros ?; frun]
  | |- triple _ (act _ _ _) _ => apply f_act_last; intros ?; solve [eauto with frame]
  | |- triple _ (ibind _ _) _ => eapply f_bind; [fle|frun|intros ?; frun]
  | |- triple _ (ikeep _ _) _ => eapply f_keep; [frun|intros ?; frun]
  | |- triple _ (raise _) _ => apply f_value; fle
  | |- triple _ (iret _) _ => apply f_ret; fle
  | |- triple _ (ierr _) _ => apply f_err; fle
  | |- triple _ (match _ with _ => _ end) _ => case_match; frun
  | |- triple _ _ _ => first [solve [eapply f_last; [fle|eauto with frame]] | solve [apply f_le; [fle|eauto with frame]] | idtac]
  end.

Section Operations.
Context {os : Native} {guard : option (nat * option Z)} {I : bool -> WinWorld -> Prop} {ok : What -> bool} `{!WinInvariant os guard I ok}.

Lemma pres_wait_loop fuel deadline : pres (I := I) (win_wait_loop os guard fuel deadline).
Proof. induction fuel as [|fuel IH]; cbn [win_wait_loop]; fpres. Qed.

Lemma pres_wait_guarded duration : pres (I := I) (wait_guarded os guard duration).
Proof. intros a w Hw. by apply pres_wait_loop. Qed.

Lemma pres_poll_until {A} fuel deadline done_ (yes : A) after : pres (I := I) done_ -> pres (I := I) after -> pres (I := I) (poll_until os fuel deadline done_ yes after).
Proof. intros Hd Ha. induction fuel as [|fuel IH]; cbn [poll_until]; fpres. Qed.

Lemma pres_poll_settled fuel deadline done_ e : pres (I := I) done_ -> pres (I := I) (poll_settled os fuel deadline done_ e).
Proof. intros Hd. induction fuel as [|fuel IH]; cbn [poll_settled]; fpres. Qed.

#[local] Hint Resolve pres_wait_guarded : frame.
#[local] Hint Extern 3 (pres _) => first [apply pres_for_each | apply pres_poll_until | apply pres_poll_settled]; fpres : frame.

(** ** Without the foreground *)

Lemma pres_outer hwnd : pres (I := I) (outer_window_rect os hwnd).
Proof. unfold outer_window_rect. fpres. Qed.
#[local] Hint Resolve pres_outer : frame.

Section Quiet.
Context (ok_quiet : forall x, uses_foreground x = false -> ok x = true).
#[local] Hint Extern 2 (ok _ = true) => apply ok_quiet : frame.

Lemma pres_set_window_bounds hwnd requested : pres (I := I) (set_window_bounds os guard hwnd requested).
Proof. unfold set_window_bounds, extended_window_rect. fpres. Qed.

Lemma pres_set_window_minimized hwnd minimized : pres (I := I) (set_window_minimized os guard hwnd minimized).
Proof. unfold set_window_minimized. destruct minimized; fpres. Qed.

Lemma pres_post_close windows pid generation posted : pres (I := I) (post_close os guard windows pid generation posted).
Proof. revert posted. induction windows as [|raw windows IH]; intros posted; cbn [post_close]; unfold window_process_generation; fpres. Qed.

Lemma pres_wait_for_process : pres (I := I) (wait_for_process os).
Proof. intros a w. apply inv_tick. Qed.

Lemma pres_await_exit fuel deadline : pres (I := I) (await_exit os guard fuel deadline).
Proof. pose proof pres_wait_for_process. induction fuel as [|fuel IH]; cbn [await_exit]; fpres. Qed.

Lemma pres_terminate pid generation windows : pres (I := I) (terminate_application os guard pid generation windows).
Proof. pose proof pres_post_close. pose proof pres_await_exit. unfold terminate_application. fpres. Qed.

Lemma pres_recipient left_ owner screen recipient : pres (I := I) (resolve_recipient os left_ owner screen recipient).
Proof.
  revert recipient. induction left_ as [|left_ IH]; intros recipient; cbn [resolve_recipient]; unfold window_process_generation; fpres.
Qed.

Lemma pres_click_background target point button count : pres (I := I) (win_click_background os guard target point button count).
Proof.
  pose proof pres_recipient. unfold win_click_background, window_process_generation, send_background. fpres.
Qed.

End Quiet.

(** ** In the foreground *)

Lemma pres_owner target point : pres (I := I) (win_validate_pointer_owner os target point).
Proof. unfold win_validate_pointer_owner. fpres. Qed.
#[local] Hint Resolve pres_owner : frame.

Lemma pres_absolute point flags : pres (I := I) (absolute_mouse os point flags).
Proof. unfold absolute_mouse, virtual_desktop. fpres. Qed.
#[local] Hint Resolve pres_absolute : frame.

Lemma pres_read_keys keys chord : pres (I := I) (win_read_keys os keys chord).
Proof. revert chord. induction keys as [|key keys IH]; intros chord; cbn [win_read_keys]; unfold win_read_key; fpres. Qed.
#[local] Hint Resolve pres_read_keys : frame.

Section Every.
Context (ok_every : forall x, ok x = true).

Lemma frame_send_raw inputs : triple (I true) (send_raw os inputs) (fun _ w => I true w).
Proof. unfold send_raw, send_native. frun. Qed.
#[local] Hint Resolve frame_send_raw : frame.

Lemma pres_send inputs : pres (I := I) (send os guard inputs).
Proof. unfold send. fpres. Qed.

Lemma pres_send_keyboard inputs : pres (I := I) (send_keyboard os guard inputs).
Proof. unfold send_keyboard, send_native. fpres. Qed.
#[local] Hint Resolve pres_send pres_send_keyboard : frame.

Lemma pres_activate hwnd : pres (I := I) (activate os guard hwnd).
Proof. unfold activate, foreground_window. fpres. Qed.

Lemma pres_click point button count : pres (I := I) (win_click os guard point button count).
Proof. unfold win_click. fpres. Qed.

Lemma pres_interpolate from to duration_ms : pres (I := I) (win_interpolate os guard from to duration_ms).
Proof. unfold win_interpolate. fpres. Qed.
#[local] Hint Resolve pres_interpolate : frame.

Lemma pres_hold_during from button during : pres (I := I) during -> pres (I := I) (hold_during os guard from button during).
Proof. intros Hd. unfold hold_during, send_native. fpres. Qed.

Lemma pres_scroll point delta_x delta_y : pres (I := I) (win_scroll os guard point delta_x delta_y).
Proof. unfold win_scroll, wheel_input, wheel_units. fpres. Qed.

Lemma pres_type_chunks target dispatched packets : pres (I := I) (type_chunks os guard target dispatched packets).
Proof. revert dispatched. induction packets as [|chunk packets IH]; intros dispatched; cbn [type_chunks]; unfold foreground_window; fpres. Qed.

Lemma pres_press_chord keys : pres (I := I) (win_press_chord os guard keys).
Proof. unfold win_press_chord. fpres. Qed.

Lemma pres_restore owner pid generation : pres (I := I) (restore_foreground_owner os guard owner pid generation).
Proof. unfold restore_foreground_owner, foreground_window, window_process_generation. fpres. Qed.

Lemma ok_all x : uses_foreground x = false -> ok x = true.
Proof. by intros _. Qed.

Lemma pres_perform hwnd action : pres (I := I) (win_perform os guard hwnd action).
Proof.
  pose proof (pres_set_window_bounds ok_all). pose proof (pres_set_window_minimized ok_all). pose proof (pres_terminate ok_all).
  pose proof (pres_click_background ok_all). pose proof pres_activate. pose proof pres_click. pose proof pres_hold_during. pose proof pres_scroll.
  pose proof pres_type_chunks. pose proof pres_press_chord.
  unfold win_perform, win_press, win_drag, win_move_pointer, win_type_text, win_press_keys. fpres.
Qed.

Lemma pres_queued hwnd pid generation action : pres (I := I) (win_perform_queued os guard hwnd pid generation action).
Proof. pose proof pres_perform. unfold win_perform_queued, window_process_generation. fpres. Qed.

Lemma pres_perform_foreground hwnd pid generation action restore_foreground previous :
  pres (I := I) (win_perform_foreground os guard hwnd pid generation action restore_foreground previous).
Proof.
  pose proof pres_perform. pose proof pres_activate. pose proof pres_restore. unfold win_perform_foreground, window_process_generation, foreground_window. fpres.
Qed.

End Every.

Lemma pres_foreground_owner : pres (I := I) (win_foreground_owner os).
Proof. unfold win_foreground_owner, foreground_window, window_process_generation. fpres. Qed.

(** The actions the actor performs without the foreground. *)
Definition stays_behind (a : WinAction) : bool :=
  match a with WSetWindowBounds _ | WSetWindowMinimized _ | WTerminateApplication _ _ _ | WClick _ _ _ true => true | _ => false end.

Lemma pres_queued_behind (ok_quiet : forall x, uses_foreground x = false -> ok x = true) hwnd pid generation action :
  stays_behind action = true -> pres (I := I) (win_perform_queued os guard hwnd pid generation action).
Proof.
  intros Hb. pose proof (pres_set_window_bounds ok_quiet). pose proof (pres_set_window_minimized ok_quiet). pose proof (pres_terminate ok_quiet).
  pose proof (pres_click_background ok_quiet). unfold win_perform_queued, win_perform, window_process_generation.
  destruct action; try discriminate Hb; [fpres..|]. destruct background; [fpres|discriminate Hb].
Qed.

End Operations.
