(* ===== verification/WinDiscovery.v ===== *)
(** Discovery of top-level windows and displays on Windows:
    [src/crates/platform/src/windows/discovery.rs].

    What the system says of a window is a row of readings, by position in the
    run; describing a row is a function.  Lower-casing by the tables of Unicode
    and the path rules of [Path::file_stem] are parameters. *)

From stdpp Require Import pretty.
From Stdlib Require Import Ascii String SpecFloat.
From S2P Require Import Prelude Floats Geometry Text Protocol Errors Driver PrivateState InputText WinInput WinSemantic Clipboard.
#[local] Open Scope Z_scope.

Definition DISCOVERY_CAPACITY : nat := 32.

Record NativeWindow := {
  nw_key : string;
  nw_hwnd : Z;
  nw_pid : Z;
  nw_process_generation : Z;
  nw_application_key : string;
  nw_application_id : string;
  nw_application_name : string;
  nw_title : string;
  nw_screen_bounds : ScreenRect;
  nw_foreground : bool;
  nw_minimized : bool;
  nw_visible : bool;
}.

Record NativeDisplay := {
  nd_device_name : string;
  nd_raw_monitor : Z;
  nd_key : string;
  nd_screen_bounds : ScreenRect;
  nd_primary : bool;
}.

Definition native_failure (message : string) : DriverError := de_with_retry (driver_error DPlatform message) "list_windows".

(** [String::from_utf16_lossy]. *)
Fixpoint decode_utf16_lossy (units : list Z) : list Z :=
  match units with
  | [] => []
  | u :: rest =>
      if is_high_surrogate u then
        match rest with
        | low :: rest' => if is_low_surrogate low then (65536 + (u - 55296) * 1024 + (low - 56320)) :: decode_utf16_lossy rest' else 65533 :: decode_utf16_lossy rest
        | [] => [65533]
        end
      else (if is_low_surrogate u then 65533 else u) :: decode_utf16_lossy rest
  end.
Definition from_utf16_lossy (units : list Z) : string := utf8 (decode_utf16_lossy units).

(** [{:016x}]. *)
Fixpoint hex_fixed (width : nat) (n : Z) : string :=
  match width with O => "" | S width => hex_fixed width (n / 16) +:+ String (hex_digit (n mod 16)) "" end.

(** The address of a handle, which is an [isize]. *)
Definition address (raw : Z) : Z := raw mod 2 ^ 64.

Definition application_key_of (pid generation : Z) : string := "pid:" +:+ pretty (Z.to_N pid) +:+ ":start:" +:+ hex_fixed 16 generation.
Definition window_key_of (hwnd : Z) (application_key : string) : string := "hwnd:" +:+ hex_fixed 16 (address hwnd) +:+ ":" +:+ application_key.
Definition display_key_of (monitor : Z) : string := "hmonitor:" +:+ hex_fixed 16 (address monitor).

(** A [FILETIME] of two words. *)
Definition file_time (high low : Z) : Z := Z.lor (Z.shiftl high 32) low.

Definition WS_EX_TOOLWINDOW : Z := 128.
Definition MONITORINFOF_PRIMARY : Z := 1.

(** What the calls on one window answer; [None] is a call that failed. *)
Record WindowRow := {
  wr_visible : bool;
  wr_root : Z;
  wr_exstyle : Z;
  wr_cloaked : option Z;
  wr_text_length : Z;
  wr_text : list Z;
  wr_frame : option RECT;
  wr_rect : option RECT;
  wr_pid : Z;
  wr_opens : bool;
  wr_image : option (list Z);
  wr_creation : option (Z * Z);
  wr_iconic : bool;
}.

Record MonitorRow := { mr_bounds : RECT; mr_flags : Z; mr_device : list Z }.

Record Discovery := {
  di_enum_windows : nat -> option (list Z);
  di_row : nat -> Z -> WindowRow;
  di_enum_monitors : nat -> list Z * bool;
  di_monitor : nat -> Z -> option MonitorRow;
}.

(** The buffer of the title has one unit more than its length. *)
Definition window_title (r : WindowRow) : string := from_utf16_lossy (take (Z.to_nat (Z.max 0 (wr_text_length r)) + 1) (wr_text r)).

Definition window_bounds (r : WindowRow) : Result ScreenRect DriverError :=
  match wr_frame r, wr_rect r with
  | Some rectangle, _ | None, Some rectangle => Ok (rect_to_screen_rect rectangle)
  | None, None => Err (native_failure "cannot read window bounds")
  end.

(** [path.replace('/', "\\")]. *)
Fixpoint backslashes (s : string) : string :=
  match s with
  | EmptyString => EmptyString
  | String c rest => String (if (c =? "/")%char then "\"%char else c) (backslashes rest)
  end.

Section Describe.
Context (to_lowercase : string -> string) (file_stem : string -> option string).

Definition normalize_executable_identity (path : string) : string :=
  let path := backslashes path in
  match strip_prefix "\\?\UNC\" path with
  | Some unc => to_lowercase ("\\" +:+ unc)
  | None => to_lowercase (default path (strip_prefix "\\?\" path))
  end.

Definition process_identity (r : WindowRow) (pid : Z) : Result (string * string * Z) DriverError :=
  match wr_image r with
  | None => Err (native_failure "cannot read process image path")
  | Some units =>
      match wr_creation r with
      | None => Err (native_failure "cannot read process generation")
      | Some (high, low) =>
          let path := from_utf16_lossy units in
          let application_name := default ("Process " +:+ pretty (Z.to_N pid)) (file_stem path) in
          Ok (normalize_executable_identity path, application_name, file_time high low)
      end
  end.

Definition describe_window (hwnd foreground : Z) (r : WindowRow) : Result (option NativeWindow) DriverError :=
  if negb (wr_visible r) || negb (wr_root r =? hwnd) || negb (Z.land (as_u32 (wr_exstyle r)) WS_EX_TOOLWINDOW =? 0) then Ok None else
  if match wr_cloaked r with Some cloaked => negb (cloaked =? 0) | None => false end then Ok None else
  match window_bounds r with
  | Err e => Err e
  | Ok bounds =>
      if f64_le (sr_width bounds) (f64_of_Z 1) || f64_le (sr_height bounds) (f64_of_Z 1) then Ok None else
      let pid := wr_pid r in
      if pid =? 0 then Ok None else
      if negb (wr_opens r) then Err (native_failure "cannot inspect window process") else
      match process_identity r pid with
      | Err e => Err e
      | Ok (application_id, application_name, generation) =>
          let application_key := application_key_of pid generation in
          Ok (Some {| nw_key := window_key_of hwnd application_key; nw_hwnd := hwnd; nw_pid := pid; nw_process_generation := generation;
                      nw_application_key := application_key; nw_application_id := application_id; nw_application_name := application_name;
                      nw_title := window_title r; nw_screen_bounds := bounds; nw_foreground := hwnd =? foreground;
                      nw_minimized := wr_iconic r; nw_visible := true |})
      end
  end.

Context (os : Native) (discovery : Discovery).
#[local] Abbreviation Win := (Act (W := WinWorld)).

(** The rows that cannot be described are left out. *)
Fixpoint describe_windows (handles : list Z) (foreground : Z) : Win (list NativeWindow) :=
  match handles with
  | [] => iret []
  | raw :: handles =>
      let& row := ask os (fun n => di_row discovery n raw) in
      let& rest := describe_windows handles foreground in
      iret (match describe_window raw foreground row with Ok (Some window) => window :: rest | _ => rest end)
  end.

Definition list_windows : Win (list NativeWindow) :=
  let& handles := ask os (di_enum_windows discovery) in
  match handles with
  | None => ierr (native_failure "EnumWindows failed")
  | Some handles => let& foreground := foreground_window os in describe_windows handles foreground
  end.

(** [EnumDisplayMonitors] fails when the callback refuses the 65th handle. *)
Definition describe_display (raw_monitor : Z) (info : option MonitorRow) : Result NativeDisplay DriverError :=
  match info with
  | None => Err (native_failure "GetMonitorInfoW failed")
  | Some info =>
      let name := match list_find (fun u => u = 0) (mr_device info) with Some (end_, _) => take end_ (mr_device info) | None => mr_device info end in
      Ok {| nd_device_name := from_utf16_lossy name; nd_raw_monitor := raw_monitor; nd_key := display_key_of raw_monitor;
            nd_screen_bounds := rect_to_screen_rect (mr_bounds info); nd_primary := negb (Z.land (mr_flags info) MONITORINFOF_PRIMARY =? 0) |}
  end.

Fixpoint describe_displays (handles : list Z) : Win (list NativeDisplay) :=
  match handles with
  | [] => iret []
  | raw :: handles =>
      let& info := ask os (fun n => di_monitor discovery n raw) in
      let& display := raise (describe_display raw info) in
      let& rest := describe_displays handles in
      iret (display :: rest)
  end.

Definition list_displays : Win (list NativeDisplay) :=
  let& enumerated := ask os (di_enum_monitors discovery) in
  let '(handles, completed) := enumerated in
  if negb completed || (64 <? length handles)%nat then ierr (native_failure "EnumDisplayMonitors failed")
  else describe_displays handles.

End Describe.

(** * The queue of the actor *)

Inductive DiscoveryCommand := ListWindows | ListDisplays.

Definition discovery_stopped : DriverError := driver_error DPlatform "Windows discovery actor stopped".

Definition discovery_submit (queue : option (list DiscoveryCommand)) (command : DiscoveryCommand) : Result (list DiscoveryCommand) DriverError :=
  match queue with
  | None => Err discovery_stopped
  | Some pending =>
      if (length pending <? DISCOVERY_CAPACITY)%nat then Ok (pending ++ [command])
      else Err (de_with_retry (driver_error DBusy "Windows discovery actor is busy") "retry_with_backoff")
  end.

(** * Keys tell windows apart *)

Lemma hex_digit_inj a b : 0 <= a < 16 -> 0 <= b < 16 -> hex_digit a = hex_digit b -> a = b.
Proof.
  intros Ha Hb H. unfold hex_digit in H. apply (f_equal N_of_ascii) in H.
  rewrite !N_ascii_embedding in H by (destruct (a <? 10), (b <? 10); lia).
  destruct (Z.ltb_spec a 10), (Z.ltb_spec b 10); lia.
Qed.

Lemma length_append a b : String.length (a +:+ b) = (String.length a + String.length b)%nat.
Proof. induction a as [|c a IH]; [done|]. rewrite string_app_cons. cbn. by rewrite IH. Qed.

Lemma append_inj a b x y : String.length x = String.length y -> a +:+ x = b +:+ y -> a = b /\ x = y.
Proof.
  intros Hlen H. assert (Hab : String.length a = String.length b).
  { apply (f_equal String.length) in H. rewrite !length_append in H. lia. }
  clear Hlen. revert b Hab H. induction a as [|c a IH]; intros [|d b] Hab H; try discriminate Hab; [done|].
  cbn in Hab. injection Hab as Hab. rewrite !string_app_cons in H. injection H as <- H. destruct (IH b Hab H) as [-> ->]. done.
Qed.

Lemma length_hex_fixed width n : String.length (hex_fixed width n) = width.
Proof. revert n. induction width as [|width IH]; intros n; [done|]. cbn [hex_fixed]. rewrite length_append, IH. cbn. lia. Qed.

Lemma hex_fixed_inj width a b : 0 <= a < 16 ^ Z.of_nat width -> 0 <= b < 16 ^ Z.of_nat width -> hex_fixed width a = hex_fixed width b -> a = b.
Proof.
  revert a b. induction width as [|width IH]; intros a b Ha Hb; [cbn in *; lia|]. cbn [hex_fixed].
  rewrite Nat2Z.inj_succ, Z.pow_succ_r in Ha, Hb by lia. intros [H [= Hd]]%append_inj; [|done].
  apply IH in H; [|split; [apply Z.div_pos; lia|apply Z.div_lt_upper_bound; lia]..].
  apply hex_digit_inj in Hd; [|apply Z.mod_pos_bound; lia..].
  rewrite (Z.div_mod a 16), (Z.div_mod b 16) by lia. lia.
Qed.

Lemma address_inj a b : - 2 ^ 63 <= a < 2 ^ 63 -> - 2 ^ 63 <= b < 2 ^ 63 -> address a = address b -> a = b.
Proof.
  intros Ha Hb H. unfold address in H. pose proof (Z.div_mod a (2 ^ 64) ltac:(lia)). pose proof (Z.div_mod b (2 ^ 64) ltac:(lia)).
  assert (-1 <= a / 2 ^ 64 <= 0) by (split; [apply Z.div_le_lower_bound; lia|apply Z.lt_succ_r, Z.div_lt_upper_bound; lia]).
  assert (-1 <= b / 2 ^ 64 <= 0) by (split; [apply Z.div_le_lower_bound; lia|apply Z.lt_succ_r, Z.div_lt_upper_bound; lia]). lia.
Qed.

Definition in_u32 (n : Z) : Prop := 0 <= n < 2 ^ 32.

Lemma file_time_range high low : in_u32 high -> in_u32 low -> 0 <= file_time high low < 2 ^ 64.
Proof.
  unfold in_u32, file_time. intros Hh Hl. rewrite Z.shiftl_mul_pow2 by lia.
  assert (Z.land (high * 2 ^ 32) low = 0) as E.
  { apply Z.bits_inj'. intros n Hn. rewrite Z.land_spec, Z.bits_0. destruct (Z.ltb_spec n 32) as [Hlt|Hge].
    - by rewrite Z.mul_pow2_bits_low.
    - rewrite (Z.bits_above_log2 low), andb_false_r; [done|lia|]. destruct (decide (low = 0)) as [->|]; [cbn; lia|]. enough (Z.log2 low < 32) by lia. apply Z.log2_lt_pow2; lia. }
  pose proof (Z.add_lor_land (high * 2 ^ 32) low). lia.
Qed.

(** The readings of a row have the types of the native calls. *)
Definition row_typed (r : WindowRow) : Prop := in_u32 (wr_pid r) /\ forall high low, wr_creation r = Some (high, low) -> in_u32 high /\ in_u32 low.
Definition is_isize (n : Z) : Prop := - 2 ^ 63 <= n < 2 ^ 63.

Section Identity.
Context (to_lowercase : string -> string) (file_stem : string -> option string).

Lemma described hwnd foreground r w : row_typed r -> describe_window to_lowercase file_stem hwnd foreground r = Ok (Some w) ->
  nw_hwnd w = hwnd /\ in_u32 (nw_pid w) /\ 0 <= nw_process_generation w < 2 ^ 64 /\
  nw_application_key w = application_key_of (nw_pid w) (nw_process_generation w) /\ nw_key w = window_key_of hwnd (nw_application_key w).
Proof.
  intros [Hp Hc] H. unfold describe_window, process_identity in H. repeat case_match; simplify_eq; destruct (Hc _ _ eq_refl);
    (cbn; split_and!; try done; by apply file_time_range).
Qed.

(** The key of a window tells it apart for good: two windows that were
    described, at whatever times, with the same key have the same handle, the
    same process and the same start of that process; with the same application
    key, the same process and start.  So an action on the window found again
    under the key of an observed one is never on a window that reuses its
    handle or its process id. *)
Theorem window_identity hwnd1 foreground1 r1 w1 hwnd2 foreground2 r2 w2 :
  is_isize hwnd1 -> is_isize hwnd2 -> row_typed r1 -> row_typed r2 ->
  describe_window to_lowercase file_stem hwnd1 foreground1 r1 = Ok (Some w1) ->
  describe_window to_lowercase file_stem hwnd2 foreground2 r2 = Ok (Some w2) ->
  (nw_key w1 = nw_key w2 -> nw_hwnd w1 = nw_hwnd w2 /\ nw_application_key w1 = nw_application_key w2) /\
  (nw_application_key w1 = nw_application_key w2 -> nw_pid w1 = nw_pid w2 /\ nw_process_generation w1 = nw_process_generation w2).
Proof.
  intros H1 H2 R1 R2 (<- & Hp1 & Hg1 & Ha1 & Hk1)%described (<- & Hp2 & Hg2 & Ha2 & Hk2)%described; [|done..].
  assert (Happ : nw_application_key w1 = nw_application_key w2 -> nw_pid w1 = nw_pid w2 /\ nw_process_generation w1 = nw_process_generation w2).
  { rewrite Ha1, Ha2. unfold application_key_of. intros H%(inj (String.append "pid:")). rewrite <- !string_app_assoc in H.
    apply append_inj in H as [H Hg]; [|by rewrite !length_hex_fixed]. apply append_inj in H as [H _]; [|done]. apply (inj pretty) in H. unfold in_u32 in *.
    split; [lia|]. by apply hex_fixed_inj in Hg. }
  split; [|done]. rewrite Hk1, Hk2. unfold window_key_of. intros H%(inj (String.append "hwnd:")).
  assert (H' : hex_fixed 16 (address (nw_hwnd w1)) = hex_fixed 16 (address (nw_hwnd w2)) /\ nw_application_key w1 = nw_application_key w2).
  { assert (Hpre : forall a b x y, String.length a = String.length b -> a +:+ x = b +:+ y -> a = b /\ x = y).
    { intros a b x y Hab Hxy. apply append_inj; [|done]. apply (f_equal String.length) in Hxy. rewrite !length_append in Hxy. lia. }
    apply Hpre in H as [? H]; [|by rewrite !length_hex_fixed]. split; [done|]. by apply (inj (String.append ":")) in H. }
  destruct H' as [Hh Hk]. split; [|done]. apply address_inj; [done..|]. apply hex_fixed_inj in Hh; [done|apply Z.mod_pos_bound; lia..].
Qed.

End Identity.

(** * A window *)

Module Row.
Definition notes : WindowRow := {|
  wr_visible := true; wr_root := 5; wr_exstyle := 0; wr_cloaked := Some 0; wr_text_length := 2; wr_text := [72; 105];
  wr_frame := Some {| rc_left := 0; rc_top := 0; rc_right := 200; rc_bottom := 100 |}; wr_rect := None; wr_pid := 7; wr_opens := true;
  wr_image := Some [67; 58; 92; 65; 46; 101; 120; 101]; wr_creation := Some (1, 2); wr_iconic := false |}.

Definition window : NativeWindow := {|
  nw_key := "hwnd:0000000000000005:pid:7:start:0000000100000002"; nw_hwnd := 5; nw_pid := 7; nw_process_generation := 4294967298;
  nw_application_key := "pid:7:start:0000000100000002"; nw_application_id := "C:\A.exe"; nw_application_name := "A"; nw_title := "Hi";
  nw_screen_bounds := rect_to_screen_rect {| rc_left := 0; rc_top := 0; rc_right := 200; rc_bottom := 100 |};
  nw_foreground := true; nw_minimized := false; nw_visible := true |}.

Lemma window_identity_witness :
  describe_window (fun s => s) (fun _ => Some "A"%string) 5 5 notes = Ok (Some window) /\
  ((nw_key window = nw_key window -> nw_hwnd window = nw_hwnd window /\ nw_application_key window = nw_application_key window) /\
   (nw_application_key window = nw_application_key window -> nw_pid window = nw_pid window /\ nw_process_generation window = nw_process_generation window)).
Proof.
  split; [vm_compute; reflexivity|].
  assert (Htyped : row_typed notes) by (split; [|intros high low [= <- <-]]; unfold in_u32; cbn; lia).
  apply (window_identity (fun s => s) (fun _ => Some "A"%string) 5 5 notes window 5 5 notes window);
    [unfold is_isize; lia|unfold is_isize; lia|exact Htyped|exact Htyped|vm_compute; reflexivity|vm_compute; reflexivity].
Defined.

Example identity_of_unc : normalize_executable_identity (fun s => s) "\\?\UNC\server/share\app.exe" = "\\server\share\app.exe"%string.
Proof. reflexivity. Qed.
End Row.
