(* ===== verification/WinLaunch.v ===== *)
(** Installed applications on Windows and their launch:
    [src/crates/platform/src/windows/launch.rs].

    The scan of the Start Menu, the description of a shortcut with the bounded
    cache of signatures, and the launch, which describes the shortcut again and
    compares.  What the shell, the file system and the verification of
    signatures answer is a function of the position in the run; paths are
    strings, and the path rules of the standard library and lower-casing by the
    tables of Unicode are parameters. *)

From stdpp Require Import pretty.
From Stdlib Require Import Ascii String SpecFloat.
From S2P Require Import Prelude Floats Geometry Text Protocol Errors Driver PrivateState InputText WinInput WinSemantic Clipboard WinDiscovery.
#[local] Open Scope Z_scope.

Definition LAUNCH_CAPACITY : nat := 16.
Definition MAX_SCAN_ENTRIES : nat := 16384.
Definition MAX_SCAN_DEPTH : nat := 4.
Definition MAX_DISCOVERED_APPLICATIONS : nat := 2049.
Definition MAX_PROVENANCE_CACHE : nat := 2048.

Definition Provenance : Type := option string * SignatureStatus.

Record ProvenanceCache := { pc_values : gmap string Provenance; pc_order : list string }.
Definition cache_new : ProvenanceCache := {| pc_values := ∅; pc_order := [] |}.

(** [CreateFileW] and [GetFileInformationByHandle]. *)
Record FileInformation := { fi_volume : Z; fi_index : Z * Z; fi_last_write : Z * Z; fi_size : Z * Z }.
Record FileMetadata := { fm_is_dir : bool; fm_is_file : bool; fm_reparse : bool }.

Record LaunchState := { la_at : nat; la_cache : ProvenanceCache; la_log : list (string * bool) }.

(** The two outcomes a known folder can have besides its path. *)
Inductive KnownFolder := FolderMissing | FolderInvalid | FolderPath (path : string).

(** [None] is a failure; a directory lists its entries in the order of their
    paths, and may fail on the way. *)
Record Shell := {
  sh_known_folder : nat -> bool -> KnownFolder;
  sh_canonicalize : nat -> string -> option string;
  sh_read_dir : nat -> string -> option (option (list string));
  sh_metadata : nat -> string -> option FileMetadata;
  sh_shortcut_target : nat -> string -> option string;
  sh_opens : nat -> string -> bool;
  sh_information : nat -> string -> option FileInformation;
  sh_inspect : nat -> string -> Provenance;
  sh_execute : nat -> bool;
}.

(** The path rules of the standard library. *)
Record PathRules := {
  extension : string -> option string;
  file_stem : string -> option string;
  path_starts_with : string -> string -> bool;
  to_lowercase : string -> string;
}.

Definition eq_ignore_case (a b : string) : bool := str_eqb (to_ascii_lowercase a) (to_ascii_lowercase b).

Definition launch_discovery_failure (message : string) : DriverError := de_with_retry (driver_error DPlatform message) "discover_launchable_applications".
Definition launch_stopped : DriverError := driver_error DPlatform "Windows launch actor stopped unexpectedly".

Section Launch.
Context (paths : PathRules) (shell : Shell).

#[local] Abbreviation La := (Act (W := LaunchState)).

Definition la_ask {A} (f : nat -> A) : La A := fun s => ({| s with la_at := S (la_at s) |}, Ok (f (la_at s))).
Definition la_raise {A} (r : Result A DriverError) : La A := fun s => (s, r).

(** ** The cache of signatures *)

(** The oldest keys leave until there is room. *)
Fixpoint make_room (values : gmap string Provenance) (order : list string) : gmap string Provenance * list string :=
  if (size values <? MAX_PROVENANCE_CACHE)%nat then (values, order) else
  match order with
  | [] => (values, [])
  | expired :: order => make_room (delete expired values) order
  end.

Definition inspect_cached (key executable_path : string) : La Provenance := fun s =>
  match pc_values (la_cache s) !! key with
  | Some value => (s, Ok value)
  | None =>
      let '(values, order) := make_room (pc_values (la_cache s)) (pc_order (la_cache s)) in
      let value := sh_inspect shell (la_at s) executable_path in
      ({| s with la_at := S (la_at s); la_cache := {| pc_values := <[key := value]> values; pc_order := order ++ [key] |} |}, Ok value)
  end.

(** ** Shortcuts *)

Definition words (w : Z * Z) : Z := file_time w.1 w.2.

Definition file_identity (path : string) : La string :=
  let& opened := la_ask (fun n => sh_opens shell n path) in
  if negb opened then ierr (launch_discovery_failure "Windows registration identity is unavailable") else
  let& query := la_ask (fun n => sh_information shell n path) in
  match query with
  | None => ierr (launch_discovery_failure "Windows registration identity query failed")
  | Some i => iret (hex_fixed 8 (fi_volume i) +:+ ":" +:+ hex_fixed 16 (words (fi_index i)) +:+ ":" +:+ hex_fixed 16 (words (fi_last_write i))
                    +:+ ":" +:+ hex_fixed 16 (words (fi_size i)))
  end.

Definition has_extension (path wanted : string) : bool :=
  match extension paths path with Some e => eq_ignore_case e wanted | None => false end.

(** A regular file that is not a reparse point. *)
Definition plain_file (path : string) : La bool :=
  let& metadata := la_ask (fun n => sh_metadata shell n path) in
  iret (match metadata with Some m => fm_is_file m && negb (fm_reparse m) | None => false end).

Definition shortcut_of (shortcut target shortcut_key target_key : string) (provenance : Provenance) : DriverLaunchableApplication :=
  let identity := normalize_executable_identity (to_lowercase paths) target in
  {| dla_key := "shortcut:" +:+ shortcut_key +:+ ":target:" +:+ target_key; dla_launch_target := shortcut; dla_identity := identity;
     dla_name := default "Installed application"%string (file_stem paths shortcut); dla_application_id := identity;
     dla_provenance := ProvWindows identity provenance.1 provenance.2 |}.

Definition describe_shortcut (path root : string) : La (option DriverLaunchableApplication) :=
  if negb (has_extension path "lnk") then iret None else
  let& canonical := la_ask (fun n => sh_canonicalize shell n path) in
  match canonical with
  | None => iret None
  | Some shortcut =>
      if negb (path_starts_with paths shortcut root) then iret None else
      let& plain := plain_file shortcut in
      if negb plain then iret None else
      let& resolved := la_ask (fun n => sh_shortcut_target shell n shortcut) in
      match resolved with
      | None => iret None
      | Some target =>
          let& canonical := la_ask (fun n => sh_canonicalize shell n target) in
          match canonical with
          | None => iret None
          | Some target =>
              let& plain := plain_file target in
              if negb plain then iret None else
              let identity := normalize_executable_identity (to_lowercase paths) target in
              if starts_with "\\" identity || negb (has_extension target "exe") then iret None else
              let& shortcut_key := file_identity shortcut in
              let& target_key := file_identity target in
              let& provenance := inspect_cached (identity +:+ ":" +:+ target_key) identity in
              iret (Some (shortcut_of shortcut target shortcut_key target_key provenance))
          end
      end
  end.

(** ** The Start Menu *)

Fixpoint start_menu_folders (folders : list bool) (roots : list string) : La (list string) :=
  match folders with
  | [] => iret roots
  | folder :: folders =>
      let& found := la_ask (fun n => sh_known_folder shell n folder) in
      match found with
      | FolderMissing => ierr (launch_discovery_failure "cannot resolve a Windows Start Menu directory")
      | FolderInvalid => ierr (launch_discovery_failure "Windows Start Menu path is not valid UTF-16")
      | FolderPath value =>
          let& canonical := la_ask (fun n => sh_canonicalize shell n value) in
          start_menu_folders folders
            (match canonical with Some root => if existsb (str_eqb root) roots then roots else roots ++ [root] | None => roots end)
      end
  end.

(** The programs of the user and the common ones. *)
Definition start_menu_roots : La (list string) :=
  let& roots := start_menu_folders [true; false] [] in
  match roots with
  | [] => ierr (launch_discovery_failure "no readable Windows Start Menu registration roots are available")
  | _ => iret roots
  end.

(** A directory of the queue: its path, its root and its depth. *)
Definition Directory : Type := string * string * nat.

(** The state of the scan, and how its loop over the entries ends. *)
Record Scan := { sc_scanned : nat; sc_applications : list DriverLaunchableApplication; sc_queue : list Directory }.
Inductive Scanned := ScanOn (s : Scan) | ScanFull (applications : list DriverLaunchableApplication).

Definition scan_limit : DriverError :=
  de_with_retry (driver_error DBusy "Windows Start Menu discovery exceeded its bounded scan limit") "narrow_installed_application_scope".

Fixpoint scan_entries (entries : list string) (root : string) (depth : nat) (s : Scan) : La Scanned :=
  match entries with
  | [] => iret (ScanOn s)
  | path :: entries =>
      let s := {| s with sc_scanned := S (sc_scanned s) |} in
      if (MAX_SCAN_ENTRIES <? sc_scanned s)%nat then ierr scan_limit else
      let& metadata := la_ask (fun n => sh_metadata shell n path) in
      match metadata with
      | None => scan_entries entries root depth s
      | Some m =>
          if fm_reparse m then scan_entries entries root depth s
          else if fm_is_dir m then
            scan_entries entries root depth (if (depth <? MAX_SCAN_DEPTH)%nat then {| s with sc_queue := sc_queue s ++ [(path, root, S depth)] |} else s)
          else if (MAX_DISCOVERED_APPLICATIONS <=? length (sc_applications s))%nat then iret (ScanFull (sc_applications s)) else
            let& found := describe_shortcut path root in
            scan_entries entries root depth (match found with Some a => {| s with sc_applications := sc_applications s ++ [a] |} | None => s end)
      end
  end.

(** [fuel] directories. *)
Fixpoint scan (fuel : nat) (s : Scan) : La (list DriverLaunchableApplication) :=
  match sc_queue s, fuel with
  | [], _ => iret (sc_applications s)
  | _, O => iret (sc_applications s)
  | (directory, root, depth) :: queue, S fuel =>
      let& listed := la_ask (fun n => sh_read_dir shell n directory) in
      match listed with
      | None => ierr (launch_discovery_failure "cannot enumerate a Windows Start Menu directory")
      | Some None => ierr (launch_discovery_failure "cannot read a Windows Start Menu entry")
      | Some (Some entries) =>
          let& scanned := scan_entries entries root depth {| s with sc_queue := queue |} in
          match scanned with ScanFull applications => iret applications | ScanOn s => scan fuel s end
      end
  end.

(** Every directory is a root or one of the entries that may be scanned. *)
Definition SCAN_FUEL : nat := 2 + MAX_SCAN_ENTRIES.

Definition list_launchable : La (list DriverLaunchableApplication) :=
  let& roots := start_menu_roots in
  scan SCAN_FUEL {| sc_scanned := 0; sc_applications := []; sc_queue := (fun root => (root, root, 0%nat)) <$> roots |}.

(** ** Launching *)

Definition undone {A} (m : La A) : La A := ikeep m (fun r => la_raise (rmap_err mutation_not_dispatched r)).

Definition not_launchable (message : string) : DriverError :=
  mutation_not_dispatched (de_with_retry (driver_error DTargetUnavailable message) "discover_launchable_applications").

Fixpoint find_shortcut (shortcut : string) (roots : list string) : La (option DriverLaunchableApplication) :=
  match roots with
  | [] => iret None
  | root :: roots =>
      let& found := undone (describe_shortcut shortcut root) in
      match found with Some a => iret (Some a) | None => find_shortcut shortcut roots end
  end.

(** [ShellExecuteExW]: the file and whether its window may take the
    foreground are logged when it succeeds. *)
Definition shell_execute (file : string) (foreground : bool) : La unit := fun s =>
  if sh_execute shell (la_at s) then ({| s with la_at := S (la_at s); la_log := la_log s ++ [(file, foreground)] |}, Ok tt)
  else ({| s with la_at := S (la_at s) |},
        Err (mutation_not_dispatched (de_with_retry (driver_error DPlatform "Windows Shell rejected the reviewed Start Menu registration")
               "discover_launchable_applications"))).

Definition shell_launch (expected : DriverLaunchableApplication) (allow_foreground_activation : bool) : La unit :=
  let& roots := undone start_menu_roots in
  let& current := find_shortcut (dla_launch_target expected) roots in
  match current with
  | None => ierr (not_launchable "Windows Start Menu registration is no longer launchable")
  | Some current =>
      if negb (matches_identity expected current) then ierr (not_launchable "Windows Start Menu registration changed before launch")
      else shell_execute (dla_launch_target expected) allow_foreground_activation
  end.

End Launch.

(** ** The actor *)

Inductive LaunchCommand := LaunchList | LaunchStart (application : DriverLaunchableApplication) (allow_foreground_activation : bool).

Inductive LaunchReply :=
| LaunchListed (r : Result (list DriverLaunchableApplication) DriverError)
| LaunchStarted (r : Result unit DriverError).

(** The two commands; [initialized]: the COM apartment of the thread. *)
Definition run_list (paths : PathRules) (shell : Shell) (initialized : bool) : Act (W := LaunchState) (list DriverLaunchableApplication) :=
  if initialized then list_launchable paths shell else ierr launch_stopped.
Definition run_start (paths : PathRules) (shell : Shell) (initialized : bool) (application : DriverLaunchableApplication) (allow : bool) : Act (W := LaunchState) unit :=
  if initialized then shell_launch paths shell application allow else ierr (mutation_not_dispatched launch_stopped).

Definition launch_command (paths : PathRules) (shell : Shell) (initialized : bool) (c : LaunchCommand) (s : LaunchState) : LaunchState * LaunchReply :=
  match c with
  | LaunchList => let '(s, r) := run_list paths shell initialized s in (s, LaunchListed r)
  | LaunchStart application allow => let '(s, r) := run_start paths shell initialized application allow s in (s, LaunchStarted r)
  end.

Definition launch_submit (queue : option (list LaunchCommand)) (command : LaunchCommand) : Result (list LaunchCommand) DriverError :=
  let refused e := Err (match command with LaunchStart _ _ => mutation_not_dispatched e | LaunchList => e end) in
  match queue with
  | None => refused launch_stopped
  | Some pending =>
      if (length pending <? LAUNCH_CAPACITY)%nat then Ok (pending ++ [command])
      else refused (de_with_retry (driver_error DBusy "Windows launch actor is busy") "retry_with_backoff")
  end.
