(* ===== verification/WinLaunchProps.v ===== *)
(** What the launch actor of Windows promises
    ([src/crates/platform/src/windows/launch.rs]): the scan is bounded and
    complete within its bounds, the cache of signatures stays coherent, and
    only a registration that is still the reviewed one is started. *)

From stdpp Require Import pretty.
From Stdlib Require Import Ascii String SpecFloat.
From S2P Require Import Prelude Floats Geometry Text Protocol Errors Driver PrivateState InputText WinInput WinInputProps WinSemantic Clipboard WinDiscovery WinLaunch.
#[local] Open Scope Z_scope.

(** ** The cache *)

(** The order lists each key of the cache once. *)
Record coherent (c : ProvenanceCache) : Prop := {
  co_size : (size (pc_values c) <= MAX_PROVENANCE_CACHE)%nat;
  co_unrepeated : NoDup (pc_order c);
  co_keys : forall k, k ∈ pc_order c <-> is_Some (pc_values c !! k);
}.

Lemma make_room_coherent values order : NoDup order -> (forall k, k ∈ order <-> is_Some (values !! k)) ->
  let '(values', order') := make_room values order in
  (size values' < MAX_PROVENANCE_CACHE)%nat /\ NoDup order' /\ (forall k, k ∈ order' <-> is_Some (values' !! k)) /\ values' ⊆ values.
Proof.
  revert values. induction order as [|k order IH]; intros values Hn Hk; cbn [make_room]; destruct (Nat.ltb_spec (size values) MAX_PROVENANCE_CACHE) as [Hlt|Hge]; try done.
  - assert (values = ∅) as ->; [|rewrite map_size_empty in Hge; unfold MAX_PROVENANCE_CACHE in Hge; lia].
    apply map_eq. intros k. rewrite lookup_empty. apply eq_None_not_Some. intros Hs%Hk. by apply not_elem_of_nil in Hs.
  - apply NoDup_cons in Hn as [Hnk Hn]. specialize (IH (delete k values) Hn). destruct (make_room (delete k values) order) as [values' order'].
    destruct IH as (Hsz & Hn' & Hk' & Hsub).
    { intros k'. rewrite lookup_delete_is_Some, <- Hk, elem_of_cons. split; [|naive_solver]. intros Hin. split; [by intros ->|by right]. }
    split_and!; [done..|]. etransitivity; [exact Hsub|]. apply delete_subseteq.
Qed.

Section Props.
Context (paths : PathRules) (shell : Shell).

(** What every step but the start of an application keeps. *)
Definition settled_at (log : list (string * bool)) (s : LaunchState) : Prop := la_log s = log /\ coherent (la_cache s).
Definition calm {A} (m : Act (W := LaunchState) A) : Prop := forall log, triple (settled_at log) m (fun _ s => settled_at log s).

Lemma calm_bind {A B} (m : Act A) (k : A -> Act B) : calm m -> (forall x, calm (k x)) -> calm (ibind m k).
Proof. intros Hm Hk log. eapply triple_bind; [apply Hm|intros x; apply Hk|done]. Qed.

Lemma calm_keep {A B} (m : Act A) (k : Result A DriverError -> Act B) : calm m -> (forall r, calm (k r)) -> calm (ikeep m k).
Proof. intros Hm Hk log. eapply triple_keep; [apply Hm|intros r; apply Hk]. Qed.

Lemma calm_ask {A} (f : nat -> A) : calm (la_ask f).
Proof. by intros log s. Qed.

Lemma calm_raise {A} (r : Result A DriverError) : calm (la_raise r).
Proof. by intros log s. Qed.

Lemma calm_inspect key path : calm (inspect_cached shell key path).
Proof.
  intros log s [Hl [Hs Hn Hk]]. unfold inspect_cached. destruct (pc_values (la_cache s) !! key) eqn:E; [done|].
  pose proof (make_room_coherent _ _ Hn Hk) as Hm. destruct (make_room _ _) as [values order]. destruct Hm as (Hs' & Hn' & Hk' & Hsub). split; [done|].
  assert (Hnew : values !! key = None). { destruct (values !! key) eqn:E'; [|done]. by rewrite (lookup_weaken _ _ _ _ E' Hsub) in E. }
  split; cbn.
  - rewrite map_size_insert_None by done. lia.
  - apply NoDup_app. split_and!; [done| |apply NoDup_singleton]. intros k Hin ->%list_elem_of_singleton. apply Hk' in Hin. by rewrite Hnew in Hin.
  - intros k. rewrite elem_of_app, list_elem_of_singleton, Hk', lookup_insert_is_Some'. naive_solver.
Qed.

End Props.

Create HintDb calm.
#[export] Hint Resolve calm_ask calm_raise calm_inspect : calm.
Ltac calm_run :=
  lazymatch goal with
  | |- calm (ibind _ _) => apply calm_bind; [calm_run|intros ?; calm_run]
  | |- calm (ikeep _ _) => apply calm_keep; [calm_run|intros ?; calm_run]
  | |- calm (iret ?x) => exact (calm_raise (Ok x))
  | |- calm (ierr ?e) => exact (calm_raise (Err e))
  | |- calm (match _ with _ => _ end) => case_match; calm_run
  | |- calm _ => eauto with calm
  end.

Section Launching.
Context (paths : PathRules) (shell : Shell).

Lemma calm_identity path : calm (file_identity shell path).
Proof. unfold file_identity. calm_run. Qed.
#[local] Hint Resolve calm_identity : calm.

Lemma calm_shortcut path root : calm (describe_shortcut paths shell path root).
Proof. unfold describe_shortcut, plain_file. calm_run. Qed.
#[local] Hint Resolve calm_shortcut : calm.

Lemma calm_folders folders roots : calm (start_menu_folders shell folders roots).
Proof. revert roots. induction folders as [|folder folders IH]; intros roots; cbn [start_menu_folders]; calm_run. Qed.

Lemma calm_roots : calm (start_menu_roots shell).
Proof. pose proof calm_folders. unfold start_menu_roots. calm_run. Qed.

Lemma calm_entries entries root depth s : calm (scan_entries paths shell entries root depth s).
Proof. revert s. induction entries as [|path entries IH]; intros s; cbn [scan_entries]; calm_run. Qed.

Lemma calm_scan fuel s : calm (scan paths shell fuel s).
Proof. pose proof calm_entries. revert s. induction fuel as [|fuel IH]; intros s; cbn [scan]; calm_run. Qed.

Lemma calm_find shortcut roots : calm (find_shortcut paths shell shortcut roots).
Proof. induction roots as [|root roots IH]; cbn [find_shortcut]; unfold undone; calm_run. Qed.

(** ** The bounds of the scan *)

(** What a scan from [s] to [s'] respects: each directory was an entry. *)
Definition scan_step (s s' : Scan) : Prop :=
  (length (sc_queue s') + sc_scanned s <= length (sc_queue s) + sc_scanned s')%nat /\ (sc_scanned s <= sc_scanned s')%nat /\
  (sc_scanned s <= MAX_SCAN_ENTRIES -> sc_scanned s' <= MAX_SCAN_ENTRIES)%nat /\
  (length (sc_applications s) <= MAX_DISCOVERED_APPLICATIONS -> length (sc_applications s') <= MAX_DISCOVERED_APPLICATIONS)%nat.

Lemma scan_step_trans s1 s2 s3 : scan_step s1 s2 -> scan_step s2 s3 -> scan_step s1 s3.
Proof. unfold scan_step. intros (? & ? & ? & ?) (? & ? & ? & ?). split_and!; [lia|lia|auto|auto]. Qed.

Definition entries_post (s : Scan) (r : Result Scanned DriverError) : Prop :=
  match r with
  | Ok (ScanOn s') => scan_step s s'
  | Ok (ScanFull apps) => (length (sc_applications s) <= MAX_DISCOVERED_APPLICATIONS -> length apps <= MAX_DISCOVERED_APPLICATIONS)%nat
  | Err _ => True
  end.

Lemma entries_post_trans s s' r : scan_step s s' -> entries_post s' r -> entries_post s r.
Proof.
  intros Hs. destruct r as [[s''|apps]|e]; cbn; [by apply scan_step_trans| |done]. destruct Hs as (_ & _ & _ & H). auto.
Qed.

Lemma scan_entries_bounded entries root depth s : triple (fun _ => True) (scan_entries paths shell entries root depth s) (fun r _ => entries_post s r).
Proof.
  revert s. induction entries as [|path entries IH]; intros s; cbn [scan_entries]; [intros w _; cbn; unfold scan_step; lia|].
  set (s1 := {| s with sc_scanned := S (sc_scanned s) |}). destruct (Nat.ltb_spec MAX_SCAN_ENTRIES (sc_scanned s1)) as [|Hle]; [by intros w _|].
  assert (H1 : forall s', sc_scanned s' = S (sc_scanned s) -> (length (sc_queue s') <= S (length (sc_queue s)))%nat ->
    (length (sc_applications s) <= MAX_DISCOVERED_APPLICATIONS -> length (sc_applications s') <= MAX_DISCOVERED_APPLICATIONS)%nat ->
    triple (fun _ => True) (scan_entries paths shell entries root depth s') (fun r _ => entries_post s r)).
  { intros s' Hsc Hq Ha. eapply triple_mono; [| |apply IH]; [done|]. intros r w. apply entries_post_trans. unfold scan_step. rewrite Hsc. unfold s1 in Hle. cbn [sc_scanned] in Hle. split_and!; [lia|lia|lia|done]. }
  apply (triple_bind _ _ _ (fun _ _ => True)); [done| |done]. intros [m|]; [|apply H1; [done|cbn [sc_queue s1]; lia|done]]. destruct (fm_reparse m); [apply H1; [done|cbn [sc_queue s1]; lia|done]|].
  destruct (fm_is_dir m); [destruct (depth <? MAX_SCAN_DEPTH)%nat; (apply H1; [done|cbn [sc_queue s1]; rewrite ?length_app; cbn [length]; lia|done])|].
  destruct (Nat.leb_spec MAX_DISCOVERED_APPLICATIONS (length (sc_applications s1))) as [|Hroom]; [intros w _ Hx; exact Hx|]. unfold s1 in Hroom. cbn [sc_applications] in Hroom.
  apply (triple_bind _ _ _ (fun _ _ => True)); [done| |done]. intros [a|]; (apply H1; [done|cbn [sc_queue s1]; lia|cbn [sc_applications s1]; rewrite ?length_app; cbn [length]; lia]).
Qed.

(** Fuel for the directories in the queue and every entry left to scan is
    enough. *)
Lemma scan_fuel fuel : forall s extra w, (length (sc_queue s) + MAX_SCAN_ENTRIES <= fuel + sc_scanned s)%nat -> (sc_scanned s <= MAX_SCAN_ENTRIES)%nat ->
  scan paths shell (fuel + extra) s w = scan paths shell fuel s w.
Proof.
  induction fuel as [|fuel IH]; intros s extra w Hf Hs.
  - assert (sc_queue s = []) as E by (apply nil_length_inv; lia). cbn. destruct extra; cbn; by rewrite E.
  - cbn [scan Nat.add]. destruct (sc_queue s) as [|[[directory root] depth] queue] eqn:E; [done|]. unfold ibind, la_ask.
    destruct (sh_read_dir shell _ directory) as [[entries|]|]; [|done..]. set (s0 := {| s with sc_queue := queue |}). set (w1 := {| w with la_at := _ |}).
    pose proof (scan_entries_bounded entries root depth s0 w1 I) as Hp. destruct (scan_entries paths shell entries root depth s0 w1) as [w2 [[s2|apps]|e]]; [|done..].
    cbn [entries_post snd] in Hp. destruct Hp as (Hq & Hm & Hb & _). unfold s0 in *. cbn [sc_queue sc_scanned sc_applications length] in *. apply IH; [lia|auto].
Qed.

Lemma scan_applications fuel s : (length (sc_applications s) <= MAX_DISCOVERED_APPLICATIONS)%nat ->
  triple (fun _ => True) (scan paths shell fuel s) (fun r _ => match r with Ok apps => (length apps <= MAX_DISCOVERED_APPLICATIONS)%nat | Err _ => True end).
Proof.
  revert s. induction fuel as [|fuel IH]; intros s Ha; cbn [scan]; destruct (sc_queue s) as [|[[directory root] depth] queue]; try (intros w _; exact Ha).
  apply (triple_bind _ _ _ (fun _ _ => True)); [done| |done]. intros [[entries|]|]; try (by intros w _).
  eapply triple_bind; [apply scan_entries_bounded| |done]. intros [s'|apps] w Hw; cbn in Hw; [|by apply Hw]. apply IH; [|done]. by apply Hw.
Qed.

Lemma roots_two : triple (fun _ => True) (start_menu_roots shell) (fun r _ => match r with Ok roots => (length roots <= 2)%nat | Err _ => True end).
Proof.
  assert (Hf : forall folders roots, triple (fun _ => True) (start_menu_folders shell folders roots)
    (fun r _ => match r with Ok found => (length found <= length folders + length roots)%nat | Err _ => True end)).
  { induction folders as [|folder folders IH]; intros roots; cbn [start_menu_folders]; [intros w _; cbn; lia|].
    apply (triple_bind _ _ _ (fun _ _ => True)); [done| |done]. intros [| |value]; [by intros w _..|].
    apply (triple_bind _ _ _ (fun _ _ => True)); [done| |done]. intros canonical. eapply triple_mono; [| |apply IH]; [done|]. intros [found|e] w; [|done]. cbn.
    destruct canonical as [root|]; [destruct (existsb _ roots); [lia|rewrite length_app; cbn; lia]|lia]. }
  unfold start_menu_roots. eapply triple_bind; [apply Hf| |done]. intros roots w Hw. cbn in Hw. destruct roots; [done|]. exact Hw.
Qed.

(** The scan of the Start Menu ends within its bounds: it never cuts off
    for want of the fuel the model gives it, it lists at most 2,049
    applications, starts nothing, and leaves the cache of signatures coherent,
    with at most 2,048 entries whose order of eviction names each once. *)
Theorem launch_scan_bounded s : coherent (la_cache s) ->
  let '(s', r) := list_launchable paths shell s in
  coherent (la_cache s') /\ la_log s' = la_log s /\
  (forall applications, r = Ok applications -> (length applications <= MAX_DISCOVERED_APPLICATIONS)%nat) /\
  forall extra, (let& roots := start_menu_roots shell in
    scan paths shell (SCAN_FUEL + extra) {| sc_scanned := 0; sc_applications := []; sc_queue := (fun root => (root, root, 0%nat)) <$> roots |}) s = (s', r).
Proof.
  intros Hc. unfold list_launchable, ibind. pose proof (calm_roots (la_log s) s (conj eq_refl Hc)) as [Hl1 Hc1]. pose proof (roots_two s I) as Htwo.
  destruct (start_menu_roots shell s) as [s1 [roots|e]]; [|done]. cbn in Hl1, Hc1, Htwo. set (start := {| sc_scanned := 0; sc_applications := []; sc_queue := _ |}).
  pose proof (calm_scan SCAN_FUEL start (la_log s) s1 (conj Hl1 Hc1)) as [Hl2 Hc2]. pose proof (scan_applications SCAN_FUEL start (Nat.le_0_l _) s1 I) as Ha.
  assert (Hf : forall extra, scan paths shell (SCAN_FUEL + extra) start s1 = scan paths shell SCAN_FUEL start s1).
  { intros extra. apply scan_fuel; unfold start, SCAN_FUEL; cbn [sc_queue sc_scanned]; rewrite ?length_fmap; lia. }
  destruct (scan paths shell SCAN_FUEL start s1) as [s2 r]. cbn [fst snd] in *. split; [exact Hc2|]. split; [exact Hl2|]. split; [|exact Hf].
  intros applications ->. exact Ha.
Qed.

(** ** The launch *)

Lemma find_shortcut_sound shortcut roots : forall s,
  let '(s', r) := find_shortcut paths shell shortcut roots s in
  match r with
  | Ok None => True
  | Ok (Some a) => exists root s1 s2, root ∈ roots /\ describe_shortcut paths shell shortcut root s1 = (s2, Ok (Some a))
  | Err e => de_mutation_status e = NotDispatched
  end.
Proof.
  induction roots as [|root roots IH]; intros s; [done|]. cbn [find_shortcut]. unfold ibind, undone, ikeep, la_raise.
  destruct (describe_shortcut paths shell shortcut root s) as [s1 [[a|]|e]] eqn:E; cbn [rmap_err].
  - exists root, s, s1. split; [by left|done].
  - specialize (IH s1). destruct (find_shortcut paths shell shortcut roots s1) as [s2 [[a|]|e]]; [|done..]. destruct IH as (r & x & y & Hin & Hd). exists r, x, y. split; [by right|done].
  - done.
Qed.

(** Only a reviewed registration is started: a launch starts at most one
    file, the expected one, with the activation it was allowed, after the
    shortcut, described again under one of the Start Menu's roots, had the
    identity that was reviewed. *)
Lemma shell_launch_exact expected allow s : coherent (la_cache s) ->
  let '(s', r) := shell_launch paths shell expected allow s in
  match r with
  | Ok _ => la_log s' = la_log s ++ [(dla_launch_target expected, allow)] /\
      exists root current s1 s2, describe_shortcut paths shell (dla_launch_target expected) root s1 = (s2, Ok (Some current)) /\
        matches_identity expected current = true
  | Err e => la_log s' = la_log s /\ de_mutation_status e = NotDispatched
  end.
Proof.
  intros Hc. unfold shell_launch, ibind, undone at 1, ikeep, la_raise. pose proof (calm_roots (la_log s) s (conj eq_refl Hc)) as [Hl1 Hc1].
  destruct (start_menu_roots shell s) as [s1 [roots|e]]; cbn [rmap_err]; [|by split]. cbn in Hl1, Hc1.
  pose proof (calm_find (dla_launch_target expected) roots (la_log s) s1 (conj Hl1 Hc1)) as [Hl2 _].
  pose proof (find_shortcut_sound (dla_launch_target expected) roots s1) as Hf. destruct (find_shortcut _ _ _ _ s1) as [s2 [[current|]|e]]; cbn in Hl2; [|by split..].
  destruct Hf as (root & x & y & _ & Hd). destruct (matches_identity expected current) eqn:Em; cbn [negb]; [|by split].
  unfold shell_execute. destruct (sh_execute shell (la_at s2)); cbn; [|by split]. split; [by rewrite Hl2|]. by exists root, current, x, y.
Qed.

End Launching.

(** * A Start Menu with one shortcut *)

Module Menu.
Definition rules : PathRules := {|
  extension := fun path => if str_eqb path "C:\Menu\Notes.lnk" then Some "LNK"%string else if str_eqb path "C:\Notes.exe" then Some "exe"%string else None;
  file_stem := fun _ => Some "Notes"%string; path_starts_with := fun path root => starts_with root path; to_lowercase := to_ascii_lowercase |}.

Definition shell : Shell := {|
  sh_known_folder := fun _ own => if own then FolderPath "C:\Menu" else FolderPath "C:\Gone";
  sh_canonicalize := fun _ path => if str_eqb path "C:\Gone" then None else Some path;
  sh_read_dir := fun _ path => Some (Some (if str_eqb path "C:\Menu" then ["C:\Menu\Notes.lnk"; "C:\Menu\Sub"]%string else []));
  sh_metadata := fun _ path => Some {| fm_is_dir := str_eqb path "C:\Menu\Sub"; fm_is_file := negb (str_eqb path "C:\Menu\Sub"); fm_reparse := false |};
  sh_shortcut_target := fun _ _ => Some "C:\Notes.exe"%string; sh_opens := fun _ _ => true;
  sh_information := fun _ _ => Some {| fi_volume := 1; fi_index := (0, 2); fi_last_write := (0, 3); fi_size := (0, 4) |};
  sh_inspect := fun _ _ => (Some "Publisher"%string, SigVerified); sh_execute := fun _ => true |}.

Definition fresh : LaunchState := {| la_at := 0; la_cache := cache_new; la_log := [] |}.

Definition notes : DriverLaunchableApplication :=
  let file := "00000001:0000000000000002:0000000000000003:0000000000000004"%string in
  {| dla_key := "shortcut:" +:+ file +:+ ":target:" +:+ file; dla_launch_target := "C:\Menu\Notes.lnk"; dla_identity := "c:\notes.exe"; dla_name := "Notes";
     dla_application_id := "c:\notes.exe"; dla_provenance := ProvWindows "c:\notes.exe" (Some "Publisher"%string) SigVerified |}.

Lemma fresh_coherent : coherent (la_cache fresh).
Proof.
  split; [vm_compute; lia|constructor|]. intros k. split; [by intros ?%elem_of_nil|]. cbn. rewrite lookup_empty. by intros [].
Qed.

Lemma launch_scan_bounded_witness :
  (list_launchable rules shell fresh).2 = Ok [notes] /\
  let '(s', r) := list_launchable rules shell fresh in
  coherent (la_cache s') /\ la_log s' = la_log fresh /\
  (forall applications, r = Ok applications -> (length applications <= MAX_DISCOVERED_APPLICATIONS)%nat) /\
  forall extra, (let& roots := start_menu_roots shell in
    scan rules shell (SCAN_FUEL + extra) {| sc_scanned := 0; sc_applications := []; sc_queue := (fun root => (root, root, 0%nat)) <$> roots |}) fresh = (s', r).
Proof. split; [vm_compute; reflexivity|]. exact (launch_scan_bounded rules shell fresh fresh_coherent). Defined.
End Menu.
