(* ===== verification/WinDriver.v ===== *)
(** The Windows driver: [src/crates/platform/src/windows/mod.rs].

    The driver asks its actors and composes their answers.  A command to an
    actor goes [through] its queue, which may be full, gone, or abandoned before
    the command runs; then the actor's definition runs on the shared world.
    Capture ([windows/capture.rs]) and the verification of signatures
    ([windows/provenance.rs]) answer by position in the run. *)

From stdpp Require Import pretty.
From Stdlib Require Import Ascii String SpecFloat.
From S2P Require Import Prelude Floats Geometry Text Protocol Errors Driver PrivateState Fingerprint InputText WinInput WinSemantic Clipboard WinDiscovery WinLaunch.
#[local] Open Scope Z_scope.

Definition LAUNCH_CONFIRM_TIMEOUT : Z := 10 * second.
Definition LAUNCH_CONFIRM_INTERVAL : Z := 50 * MILLISECOND.

(** What the actors' queues, capture and signatures answer.  A queue is its
    pending commands, [None] when its thread is gone, and whether a command it
    takes is run. *)
Record DrvSystem := {
  sy_discovery : Discovery;
  sy_discovery_queue : nat -> option (list DiscoveryCommand) * bool;
  sy_input_queue : nat -> option (list WinCommand) * bool;
  sy_semantic_queue : nat -> option (list SemanticCommand) * bool;
  sy_launch_queue : nat -> option (list LaunchCommand) * bool;
  sy_clipboard_queue : nat -> option (list ClipboardCommand) * bool;
  sy_com_ready : bool;
  sy_capture : nat -> string -> Z -> ScreenRect -> Result (RgbaImage * ScreenRect) DriverError;
  sy_capture_display : nat -> string -> ScreenRect -> Result (RgbaImage * ScreenRect) DriverError;
  sy_provenance_permit : nat -> bool;
  sy_provenance_joins : nat -> bool;
  sy_provenance : nat -> string -> option string * SignatureStatus;
}.

(** * Windows *)

Definition driver_application (w : NativeWindow) : DriverApplication :=
  {| dap_key := nw_application_key w; dap_process_generation := nw_application_key w; dap_identity := nw_application_id w;
     dap_name := nw_application_name w; dap_application_id := nw_application_id w; dap_foreground := nw_foreground w;
     dap_provenance := ProvWindows (nw_application_id w) None SigUnknown |}.

Definition discovered_application (w : NativeWindow) (provenance : option string * SignatureStatus) : DriverApplication :=
  {| (driver_application w) with dap_provenance := ProvWindows (nw_application_id w) provenance.1 provenance.2 |}.

Definition driver_window (w : NativeWindow) : DriverWindow :=
  {| dw_key := nw_key w; dw_application := driver_application w; dw_title := nw_title w; dw_screen_bounds := nw_screen_bounds w;
     dw_state := if nw_minimized w then WMinimized else if nw_visible w then WNormal else WOffscreen;
     dw_visible := nw_visible w; dw_foreground := nw_foreground w |}.

Definition target_gone : DriverError := de_with_retry (driver_error DTargetUnavailable "target window generation is unavailable") "list_windows".

Definition current_window (windows : list NativeWindow) (key : string) : Result NativeWindow DriverError :=
  ok_or (List.find (fun w => str_eqb (nw_key w) key) windows) target_gone.

(** * Actions *)

Definition resolve_input_action (a : DriverAction) : Result WinAction DriverError :=
  match a with
  | DAClickPoint point button count delivery =>
      Ok (WClick point button count (match delivery with Prefer_Background => true | Prefer_Foreground => false end))
  | DAPressPoint point button duration_ms => Ok (WPress point button duration_ms)
  | DAMovePointer point duration_ms => Ok (WMove point duration_ms)
  | DATypeText text => Ok (WTypeText text)
  | DAPressKeys keys => Ok (WPressKeys keys)
  | DAScroll point delta_x delta_y => Ok (WScroll point delta_x delta_y)
  | DADrag from to duration_ms => Ok (WDrag from to duration_ms)
  | _ => Err (mutation_not_dispatched (driver_error DUnsupported "action is not a foreground input operation"))
  end.

Definition semantic_action (a : DriverAction) : Result (string * SemanticAction) DriverError :=
  match a with
  | DAFocusElement key => Ok (key, SemFocus)
  | DAInvokeElement key => Ok (key, SemInvoke)
  | DASetValue key value => Ok (key, SemSetValue value)
  | DASetRangeValue key value => Ok (key, SemSetRangeValue value)
  | DAToggleElement key => Ok (key, SemToggle)
  | DASelectElement key => Ok (key, SemSelect)
  | DASetExpanded key expanded => Ok (key, SemSetExpanded expanded)
  | _ => Err (mutation_not_dispatched (driver_error DUnsupported "action is not a semantic operation"))
  end.

(** The actions that need the foreground. *)
Definition needs_foreground (a : DriverAction) : bool :=
  match a with
  | DAFocusWindow | DAClickPoint _ _ _ Prefer_Foreground | DAPressPoint _ _ _ | DAMovePointer _ _ | DATypeText _ | DAPressKeys _
  | DAScroll _ _ _ | DADrag _ _ _ => true
  | _ => false
  end.

Definition foreground_required : DriverError := mutation_not_dispatched (driver_error DForegroundRequired "action requires foreground input").

Section Driver.
Context (sha256 : list Z -> list Z) (hex_encode : list Z -> string) (hex_decode : string -> option (list Z)) (f64_to_string : f64 -> string).
Context (paths : PathRules) (uia : SemSystem) (os : Native) (sys : DrvSystem).

#[local] Abbreviation Drv := (Act (W := DrvWorld)).

Definition drv_ask {A} (f : nat -> A) : Drv A := on_win (ask os f).
Definition drv_raise {A} (r : Result A DriverError) : Drv A := fun d => (d, r).
Definition drv_sleep (wait : Z) : Drv unit := on_win (win_sleep os wait).

(** A command to an actor: [submit] is what its queue says. *)
Definition through {C A} (queue : nat -> option (list C) * bool) (submit : option (list C) -> C -> Result (list C) DriverError)
    (stopped : DriverError) (command : C) (run : Drv A) : Drv A :=
  let& q := drv_ask queue in
  match submit q.1 command with
  | Err e => ierr e
  | Ok _ => if q.2 : bool then run else ierr stopped
  end.

Definition windows : Drv (list NativeWindow) :=
  through (sy_discovery_queue sys) discovery_submit discovery_stopped ListWindows
    (on_win (list_windows (to_lowercase paths) (file_stem paths) os (sy_discovery sys))).

Definition displays : Drv (list NativeDisplay) :=
  through (sy_discovery_queue sys) discovery_submit discovery_stopped ListDisplays (on_win (list_displays os (sy_discovery sys))).

Definition capture (key : string) (hwnd : Z) (bounds : ScreenRect) : Drv (RgbaImage * ScreenRect) :=
  let& r := drv_ask (fun n => sy_capture sys n key hwnd bounds) in drv_raise r.

(** The snapshot by the semantic actor. *)
Definition semantic_snapshot (hwnd : Z) (mode : AccessibilityMode) : Drv SemanticSnapshot :=
  through (sy_semantic_queue sys) sem_submit semantic_stopped (SemCmdSnapshot hwnd mode) (snapshot sha256 f64_to_string uia os hwnd mode).

Definition invalidate_after_mutation : Drv unit := fun d => ({| d with dv_invalidated := S (dv_invalidated d) |}, Ok tt).

(** ** Reading *)

Definition find_window (window : DriverWindow) : Drv NativeWindow :=
  let& all := windows in drv_raise (current_window all (dw_key window)).

(** [settle_window]: the attempts that are left, and the signature of the last
    one. *)
Fixpoint settle_attempts (left_ : nat) (first : bool) (window : DriverWindow) (previous : option string) : Drv unit :=
  match left_ with
  | O => iret tt
  | S left_ =>
      (if first then iret tt else drv_sleep (50 * MILLISECOND)) ;&
      let& current := find_window window in
      let& captured := capture (nw_key current) (nw_hwnd current) (nw_screen_bounds current) in
      let signature := fingerprint sha256 hex_encode (nw_key current) captured.2 (Some captured.1) in
      if match previous with Some value => fingerprints_match hex_decode value signature | None => false end then iret tt
      else settle_attempts left_ false window (Some signature)
  end.

Definition settle_window (window : DriverWindow) (application_scene : bool) : Drv unit :=
  if application_scene then ierr (driver_error DUnsupported "Windows application scene capture is unsupported")
  else settle_attempts 3 true window None.

Definition list_driver_windows (application_keys : list string) : Drv (list DriverWindow) :=
  let& all := windows in
  iret (driver_window <$> List.filter (fun w => existsb (str_eqb (nw_application_key w)) application_keys) all).

Definition list_driver_displays : Drv (list DriverDisplay) :=
  let& all := displays in
  iret ((fun d => {| dd_key := nd_key d; dd_screen_bounds := nd_screen_bounds d; dd_primary := nd_primary d |}) <$> all).

Definition observe_display (display : DriverDisplay) : Drv (RgbaImage * ScreenRect) :=
  let& r := drv_ask (fun n => sy_capture_display sys n (dd_key display) (dd_screen_bounds display)) in drv_raise r.

(** The first window of each application, in the order of a hash map. *)
Fixpoint first_windows (all : list NativeWindow) (known : gmap string DriverApplication) : Drv (gmap string DriverApplication) :=
  match all with
  | [] => iret known
  | w :: all =>
      match known !! nw_application_key w with
      | Some _ => first_windows all known
      | None =>
          let& provenance := drv_ask (fun n => sy_provenance sys n (nw_application_id w)) in
          first_windows all (<[nw_application_key w := discovered_application w provenance]> known)
      end
  end.

Definition list_applications `{!HashOrder} : Drv (list DriverApplication) :=
  let& all := windows in
  let& permit := drv_ask (sy_provenance_permit sys) in
  if negb permit then
    ierr (de_with_retry (driver_error DBusy "Windows provenance worker capacity is exhausted") "retry_with_backoff") else
  let& applications := first_windows all ∅ in
  let& joined := drv_ask (sy_provenance_joins sys) in
  if negb joined then ierr (driver_error DPlatform "Windows provenance worker stopped unexpectedly")
  else iret (snd <$> hash_iter applications).

Definition same_bounds (a b : ScreenRect) : bool :=
  f64_eq (sr_x a) (sr_x b) && f64_eq (sr_y a) (sr_y b) && f64_eq (sr_width a) (sr_width b) && f64_eq (sr_height a) (sr_height b).

Definition stale_geometry (message : string) : DriverError := de_with_retry (driver_error DStaleObservation message) "observe_window".

(** [tokio::join!] waits for both; the capture's error is looked at first. *)
Definition observe_window (window : DriverWindow) (include_screenshot : bool) (accessibility : AccessibilityMode) : Drv DriverObservation :=
  let& before := find_window window in
  if include_screenshot && nw_minimized before then
    ierr (de_with_retry (driver_error DTargetUnavailable "minimized Windows target cannot provide a current exact-window frame")
            "restore_window_then_observe") else
  ikeep (if include_screenshot then
           let& c := capture (nw_key before) (nw_hwnd before) (nw_screen_bounds before) in iret (Some c)
         else iret None) (fun captured =>
  ikeep (match accessibility with
         | AxDisabled => iret None
         | _ => let& s := semantic_snapshot (nw_hwnd before) accessibility in iret (Some s)
         end) (fun semantics =>
    let& captured := drv_raise captured in
    let& semantics := drv_raise semantics in
    let& after := find_window window in
    if negb (same_bounds (nw_screen_bounds before) (nw_screen_bounds after)) then
      ierr (stale_geometry "target geometry changed during observation") else
    let fp := fingerprint sha256 hex_encode (nw_key after) (nw_screen_bounds after) (fst <$> captured) in
    let observed screenshot bounds :=
      {| dob_window_key := dw_key window; dob_window_screen_bounds := nw_screen_bounds after; dob_screenshot := screenshot;
         dob_screenshot_screen_bounds := bounds;
         dob_elements := match semantics with Some s => sn_elements s | None => [] end;
         dob_elements_complete := match semantics with Some s => sn_complete s | None => true end;
         dob_elements_truncation := match semantics with Some s => sn_truncation s | None => None end;
         dob_fingerprint := fp |} in
    match captured with
    | Some (image, bounds) =>
        if same_bounds bounds (nw_screen_bounds after) then iret (observed (Some image) (Some bounds))
        else ierr (stale_geometry "captured surface does not match the target geometry")
    | None => iret (observed None None)
    end)).

Definition observation_is_current (window : DriverWindow) (fingerprint_value : string) : Drv bool :=
  let& current := find_window window in
  if contains_str ":visual:" fingerprint_value then
    let& captured := capture (nw_key current) (nw_hwnd current) (nw_screen_bounds current) in
    if negb (same_bounds captured.2 (nw_screen_bounds current)) then iret false
    else iret (fingerprints_match hex_decode fingerprint_value
                 (fingerprint sha256 hex_encode (nw_key current) (nw_screen_bounds current) (Some captured.1)))
  else iret (str_eqb (fingerprint sha256 hex_encode (nw_key current) (nw_screen_bounds current) None) fingerprint_value).

Definition matches_name (role name : option string) (e : DriverElement) : bool :=
  match role with Some r => str_eqb r (el_role e) | None => true end && match name with Some n => str_eqb n (el_name e) | None => true end.

Definition matches_state (state : ElementState) (value : bool) (e : DriverElement) : bool :=
  match state with
  | Enabled => Bool.eqb (el_enabled e) value
  | Focused => Bool.eqb (el_focused e) value
  | Selected => bool_decide (el_selected e = Some value)
  | Checked => bool_decide (el_checked e = Some value)
  | Expanded => bool_decide (el_expanded e = Some value)
  end.

Definition verify_state (window : DriverWindow) (predicate : StatePredicate) : Drv DriverVerification :=
  let& current := find_window window in
  match predicate with
  | WindowTitleContains text => iret {| dv_matched := contains_str text (nw_title current); dv_evidence := "fresh window title comparison" |}
  | BoundsContained inner outer => iret {| dv_matched := contains_rect outer inner; dv_evidence := "screen-bounds comparison" |}
  | ElementExists role name =>
      let& s := semantic_snapshot (nw_hwnd current) AxInteractive in
      iret {| dv_matched := existsb (matches_name role name) (sn_elements s); dv_evidence := "fresh cached UI Automation snapshot" |}
  | ElementStateIs role name state value =>
      let& s := semantic_snapshot (nw_hwnd current) AxInteractive in
      iret {| dv_matched := existsb (fun e => matches_name role name e && matches_state state value e) (sn_elements s);
              dv_evidence := "fresh cached UI Automation state comparison" |}
  end.

(** ** Acting *)

Section Acting.
(** The guard the scoped actors carry. *)
Context (guard : option (nat * option Z)).

Definition input_perform (w : NativeWindow) (action : WinAction) : Drv unit :=
  through (sy_input_queue sys) win_submit win_actor_stopped (CmdPerform (nw_hwnd w) (nw_pid w) (nw_process_generation w) action guard)
    (on_win (win_perform_queued os guard (nw_hwnd w) (nw_pid w) (nw_process_generation w) action)).

Definition input_perform_foreground (w : NativeWindow) (action : WinAction) (restore_foreground : bool) (previous : option ForegroundOwner)
    : Drv ForegroundRestorationStatus :=
  through (sy_input_queue sys) win_submit win_actor_stopped
    (CmdForeground (nw_hwnd w) (nw_pid w) (nw_process_generation w) action restore_foreground previous guard)
    (on_win (win_perform_foreground os guard (nw_hwnd w) (nw_pid w) (nw_process_generation w) action restore_foreground previous)).

Definition input_foreground_owner : Drv (option ForegroundOwner) :=
  through (sy_input_queue sys) win_submit win_actor_stopped CmdForegroundOwner (on_win (win_foreground_owner os)).

Definition semantic_invoke_at_point (hwnd : Z) (point : ScreenPoint) : Drv bool :=
  through (sy_semantic_queue sys) sem_submit semantic_stopped (SemCmdInvoke hwnd point guard)
    (invoke_at_point sha256 f64_to_string uia os guard hwnd point).

Definition semantic_perform (key : string) (action : SemanticAction) : Drv unit :=
  through (sy_semantic_queue sys) sem_submit semantic_stopped (SemCmdPerform key action guard)
    (sem_perform sha256 f64_to_string uia os guard key action).

Definition dispatch_semantic_action (a : DriverAction) : Drv unit :=
  let& resolved := drv_raise (semantic_action a) in semantic_perform resolved.1 resolved.2.

Definition dispatch_input_action (w : NativeWindow) (a : DriverAction) : Drv unit :=
  let& action := drv_raise (resolve_input_action a) in input_perform w action.

Definition dispatch_action (current : NativeWindow) (a : DriverAction) (restore_foreground : bool) : Drv DriverActionOutput :=
  match a with
  | DAFocusWindow => input_perform current WActivate ;& iret (confirmed Foreground)
  | DASetWindowBounds bounds => input_perform current (WSetWindowBounds bounds) ;& iret (confirmed System)
  | DASetWindowMinimized minimized => input_perform current (WSetWindowMinimized minimized) ;& iret (confirmed System)
  | DATerminateApplication =>
      let& all := windows in
      let handles := nw_hwnd <$> List.filter (fun w => str_eqb (nw_application_key w) (nw_application_key current)) all in
      input_perform current (WTerminateApplication (nw_pid current) (nw_process_generation current) handles) ;& iret (confirmed System)
  | DAClickPoint point button count Prefer_Background =>
      let& semantic := (match button with
                        | Left => if count =? 1 then semantic_invoke_at_point (nw_hwnd current) point else iret false
                        | _ => iret false
                        end) in
      (if negb semantic then dispatch_input_action current a else iret tt) ;&
      iret (unverified (if semantic : bool then Semantic else Background))
  | DAFocusElement _ | DAInvokeElement _ | DASetValue _ _ | DASetRangeValue _ _ | DAToggleElement _ | DASelectElement _ | DASetExpanded _ _ =>
      dispatch_semantic_action a ;& iret (unverified Semantic)
  | _ =>
      let& previous := (if restore_foreground then input_foreground_owner else iret None) in
      let& action := drv_raise (resolve_input_action a) in
      let& restoration := input_perform_foreground current action restore_foreground previous in
      iret (with_foreground_restoration (unverified Foreground) restoration)
  end.

Definition perform_action (window : DriverWindow) (a : DriverAction) (allow_foreground restore_foreground : bool) : Drv DriverActionOutput :=
  if needs_foreground a && negb allow_foreground then ierr foreground_required else
  let& all := windows in
  let& current := drv_raise (rmap_err mutation_not_dispatched (current_window all (dw_key window))) in
  ikeep (dispatch_action current a restore_foreground) (fun result =>
    (match result with Ok _ => invalidate_after_mutation | Err _ => iret tt end) ;&
    drv_raise result).

End Acting.

(** The flag of the lease, when it is read. *)
Definition read_dispatched (lease : nat) : Drv bool := fun d =>
  let w := WinInput.tick os 0 (dv_win d) in ({| d with dv_win := w |}, Ok (was_dispatched (ww_guard w) lease)).

Definition perform_action_scoped (window : DriverWindow) (a : DriverAction) (allow_foreground restore_foreground : bool) (lease : nat) (observed_at : option Z)
    : Drv DriverActionOutput :=
  let guard := Some (lease, observed_at) in
  on_win (check_guard os guard) ;&
  ikeep (perform_action guard window a allow_foreground restore_foreground) (fun result =>
    let& dispatched := read_dispatched lease in
    (if dispatched : bool then invalidate_after_mutation else iret tt) ;&
    ikeep (let& output := drv_raise result in on_win (check_guard os guard) ;& iret output) (fun result =>
      match result with
      | Ok output => iret output
      | Err e =>
          let& dispatched := read_dispatched lease in
          ierr (if dispatched : bool then mutation_indeterminate e else mutation_not_dispatched e)
      end)).

End Driver.

(** * Launching and the clipboard *)

(** The world of all the actors. *)
Record WinDriverWorld := { wx_drv : DrvWorld; wx_launch : LaunchState; wx_clip : WinClip }.

Definition on_drv {A} (m : Act (W := DrvWorld) A) : Act (W := WinDriverWorld) A := fun x =>
  let '(d, r) := m (wx_drv x) in ({| x with wx_drv := d |}, r).

Section Whole.
Context (paths : PathRules) (os : Native) (sys : DrvSystem) (shell : Shell) (clip : ClipSystem).

#[local] Abbreviation Whole := (Act (W := WinDriverWorld)).

(** A command to one of the other two actors. *)
Definition through_other {C A} (queue : nat -> option (list C) * bool) (submit : option (list C) -> C -> Result (list C) DriverError)
    (stopped : DriverError) (command : C) (run : Whole A) : Whole A :=
  let& q := on_drv (drv_ask os queue) in
  match submit q.1 command with
  | Err e => ierr e
  | Ok _ => if q.2 : bool then run else ierr stopped
  end.

Definition on_launch {A} (m : Act (W := LaunchState) A) : Whole A := fun x => let '(l, r) := m (wx_launch x) in ({| x with wx_launch := l |}, r).
Definition on_clip {A} (m : Act (W := WinClip) A) : Whole A := fun x => let '(c, r) := m (wx_clip x) in ({| x with wx_clip := c |}, r).

Definition launch_list : Whole (list DriverLaunchableApplication) :=
  through_other (sy_launch_queue sys) launch_submit launch_stopped LaunchList (on_launch (run_list paths shell (sy_com_ready sys))).

Definition launch_start (application : DriverLaunchableApplication) (allow : bool) : Whole unit :=
  through_other (sy_launch_queue sys) launch_submit launch_stopped (LaunchStart application allow)
    (on_launch (run_start paths shell (sy_com_ready sys) application allow)).

Definition launch_exceeded : DriverError :=
  mutation_indeterminate (de_with_retry (driver_error DPlatform "Windows launch exceeded foreground activation authority") "discover_applications").
Definition launch_unconfirmed : DriverError :=
  mutation_indeterminate (de_with_retry
    (driver_error DTargetUnresponsive "Windows launched the application but no exact usable top-level window appeared") "discover_applications").

Definition launched_output (application : DriverLaunchableApplication) (allow : bool) (w : NativeWindow) : DriverLaunchOutput :=
  {| dlo_application := {| (driver_application w) with dap_name := dla_name application; dap_provenance := dla_provenance application |};
     dlo_delivery_mode := if allow then Foreground else System |}.

(** The wait for a window of the application. *)
Fixpoint confirm_launch (fuel : nat) (deadline : Z) (application : DriverLaunchableApplication) (allow : bool) : Act (W := DrvWorld) DriverLaunchOutput :=
  ikeep (windows paths os sys) (fun listed =>
    let& all := drv_raise (rmap_err mutation_indeterminate listed) in
    match List.find (fun w => str_eqb (nw_application_id w) (dla_identity application)) all with
    | Some w => if negb allow && nw_foreground w then ierr launch_exceeded else iret (launched_output application allow w)
    | None =>
        let& t := on_win (current_time os) in
        if deadline <=? t then ierr launch_unconfirmed else
        match fuel with
        | O => ierr launch_unconfirmed
        | S fuel => drv_sleep os LAUNCH_CONFIRM_INTERVAL ;& confirm_launch fuel deadline application allow
        end
    end).

(** Ten seconds in rounds of at least fifty milliseconds. *)
Definition LAUNCH_FUEL : nat := 200.

Definition launch_application (application : DriverLaunchableApplication) (allow : bool) : Whole DriverLaunchOutput :=
  launch_start application allow ;&
  on_drv (let& started := on_win (current_time os) in confirm_launch LAUNCH_FUEL (started + LAUNCH_CONFIRM_TIMEOUT) application allow).

(** The clipboard actor. *)
Definition clip_busy : DriverError := driver_error DBusy "Windows clipboard actor is busy".
Definition clip_stopped : DriverError := clipboard_failure "Windows clipboard actor stopped unexpectedly".

Definition read_clipboard (max_text_bytes : Z) : Whole DriverClipboardSnapshot :=
  through_other (sy_clipboard_queue sys) (clip_send clip_busy clip_stopped) clip_stopped (ClipRead max_text_bytes)
    (on_clip (win_clip_read clip max_text_bytes)).

Definition write_clipboard (expected_change_marker text : string) (max_text_bytes : Z) : Whole DriverClipboardWriteOutput :=
  through_other (sy_clipboard_queue sys) (clip_send clip_busy clip_stopped) clip_stopped (ClipWrite expected_change_marker text max_text_bytes)
    (on_clip (win_clip_write clip expected_change_marker text max_text_bytes)).

End Whole.

(** * What the driver says of itself *)

(** [capabilities]; [version] is [CARGO_PKG_VERSION]. *)
Definition windows_capabilities (version : string) : DriverCapabilities :=
  {| observe_after_supported := true; action_limits := DEFAULT_LIMITS; cap_protocol_version := PROTOCOL_VERSION; runtime_version := version;
     platform := Windows; primary_modifier := "control"; capture_modes := [CaptureWindow; CaptureDisplay]; accessibility_tree := true;
     input_routes := [RouteSemantic; RouteSystem; RouteBackground; RouteForeground]; application_lifecycle := [Launch];
     clipboard_operations := [ReadText; WriteText];
     driver_actions := [KFocusWindow; KSetWindowBounds; KSetWindowMinimized; KTerminateApplication; KFocusElement; KInvokeElement; KClickPoint; KPressPoint;
                        KSetValue; KSetRangeValue; KToggleElement; KSelectElement; KSetExpanded; KMovePointer; KTypeText; KPressKeys; KScroll; KDrag] |}.

Definition windows_permission_status : PermissionStatus :=
  {| screen_capture := PermissionNotApplicable; accessibility := PermissionNotApplicable; input_control := PermissionNotApplicable |}.
