(* ===== verification/WinDriverProps.v ===== *)
(** What the Windows driver promises ([src/crates/platform/src/windows/mod.rs]):
    its errors tell the truth about dispatch, and without the authority for it
    nothing reaches the foreground. *)

From stdpp Require Import pretty.
From Stdlib Require Import Ascii String SpecFloat.
From S2P Require Import Prelude Floats Geometry Text Protocol Errors Driver PrivateState Fingerprint InputText WinInput WinInputProps WinSemantic WinFrame Clipboard WinDiscovery WinLaunch WinDriver.
#[local] Open Scope Z_scope.

(** * The frame of the driver's operations *)

Section Frame.
Context {os : Native} {guard : option (nat * option Z)} {I : bool -> WinWorld -> Prop} {ok : What -> bool} `{!WinInvariant os guard I ok}.

(** The invariant of the actors' world, and a count of invalidations that does
    not fall. *)
Definition frame (a : bool) (n : nat) (d : DrvWorld) : Prop := I a (dv_win d) /\ (n <= dv_invalidated d)%nat.
Definition dpres {A} (m : Act (W := DrvWorld) A) : Prop := forall a n, triple (frame a n) m (fun _ d => frame a n d).

Lemma dpres_win {A} (m : Act (W := WinWorld) A) : pres (I := I) m -> dpres (on_win m).
Proof. intros Hm a n d [Hd Hn]. unfold on_win. pose proof (Hm a (dv_win d) Hd) as H. by destruct (m (dv_win d)). Qed.

Lemma dpres_bind {A B} (m : Act A) (k : A -> Act B) : dpres m -> (forall x, dpres (k x)) -> dpres (ibind m k).
Proof. intros Hm Hk a n. eapply triple_bind; [apply Hm|intros x; apply Hk|done]. Qed.

Lemma dpres_keep {A B} (m : Act A) (k : Result A DriverError -> Act B) : dpres m -> (forall r, dpres (k r)) -> dpres (ikeep m k).
Proof. intros Hm Hk a n. eapply triple_keep; [apply Hm|intros r; apply Hk]. Qed.

Lemma dpres_raise {A} (r : Result A DriverError) : dpres (drv_raise r).
Proof. by intros a n d. Qed.

Lemma dpres_ok {A B} (x : A) (k : A -> Act (W := DrvWorld) B) : dpres (k x) -> dpres (ibind (drv_raise (Ok x)) k).
Proof. intros Hk a n d. exact (Hk a n d). Qed.

Lemma dpres_here {A} (f : DrvWorld -> Act (W := DrvWorld) A) : (forall d, dpres (f d)) -> dpres (fun d => f d d).
Proof. intros Hf a n d Hd. by apply Hf. Qed.

Lemma dpres_invalidate : dpres invalidate_after_mutation.
Proof. intros a n d [Hd Hn]. split; [done|cbn; lia]. Qed.

Lemma dpres_read lease : dpres (read_dispatched os lease).
Proof. intros a n d [Hd Hn]. split; [by apply inv_tick|done]. Qed.

End Frame.

Create HintDb dframe.
#[export] Hint Resolve dpres_raise dpres_invalidate dpres_read : dframe.
Ltac drun :=
  lazymatch goal with
  | |- dpres (ibind _ _) => apply dpres_bind; [drun|intros ?; drun]
  | |- dpres (ikeep _ _) => apply dpres_keep; [drun|intros ?; drun]
  | |- dpres (iret ?x) => exact (dpres_raise (Ok x))
  | |- dpres (ierr ?e) => exact (dpres_raise (Err e))
  | |- dpres (on_win _) => first [solve [eauto with dframe] | apply dpres_win; fpres]
  | |- dpres (match _ with _ => _ end) => case_match; drun
  | |- dpres _ => eauto with dframe
  end.

Section Operations.
Context (sha256 : list Z -> list Z) (hex_encode : list Z -> string) (hex_decode : string -> option (list Z)) (f64_to_string : f64 -> string).
Context (paths : PathRules) (uia : SemSystem) (os : Native) (sys : DrvSystem).
Context (guard : option (nat * option Z)) (I : bool -> WinWorld -> Prop) (ok : What -> bool) `{!WinInvariant os guard I ok}.

Lemma dpres_ask {A} (f : nat -> A) : dpres (I := I) (drv_ask os f).
Proof. unfold drv_ask. drun. Qed.
#[local] Hint Resolve dpres_ask : dframe.

Lemma dpres_through {C A} (queue : nat -> option (list C) * bool) submit stopped command (run : Act A) :
  dpres (I := I) run -> dpres (I := I) (through os queue submit stopped command run).
Proof. intros Hr. unfold through. drun. Qed.

Lemma pres_windows : pres (I := I) (list_windows (to_lowercase paths) (file_stem paths) os (sy_discovery sys)).
Proof.
  assert (Hd : forall handles foreground, pres (I := I) (describe_windows (to_lowercase paths) (file_stem paths) os (sy_discovery sys) handles foreground)).
  { induction handles as [|raw handles IH]; intros foreground; cbn [describe_windows]; fpres. }
  unfold list_windows, foreground_window. fpres.
Qed.

Lemma dpres_windows : dpres (I := I) (windows paths os sys).
Proof. apply dpres_through, dpres_win, pres_windows. Qed.
#[local] Hint Resolve dpres_windows : dframe.

Lemma pres_current_time : pres (I := I) (current_time os).
Proof. intros a w Hw. cbn. by apply inv_tick. Qed.

Lemma pres_walk fuel mode key deadline queue k : pres (I := I) (walk sha256 f64_to_string os fuel mode key deadline queue k).
Proof. pose proof pres_current_time. revert queue k. induction fuel as [|fuel IH]; intros queue k; cbn [walk]; fpres. Qed.

Lemma dpres_snapshot hwnd mode : dpres (I := I) (snapshot sha256 f64_to_string uia os hwnd mode).
Proof.
  unfold snapshot. apply dpres_bind; [drun|]. intros [root|e]; [|drun].
  match goal with |- dpres ?m => apply (dpres_here (fun d => _)) end. intros d.
  apply dpres_bind; [apply dpres_win, pres_current_time|]. intros started. apply dpres_bind; [apply dpres_win, pres_walk|]. by intros k a n d'.
Qed.
#[local] Hint Resolve dpres_snapshot : dframe.

Section Quiet.
Context (ok_quiet : forall x, uses_foreground x = false -> ok x = true).
#[local] Hint Extern 2 (ok _ = true) => apply ok_quiet : frame.

Lemma dpres_sem_perform key action : dpres (I := I) (sem_perform sha256 f64_to_string uia os guard key action).
Proof.
  unfold sem_perform. apply dpres_bind; [drun|]. intros [].
  intros a n d Hd. destruct (find_element key _) as [stored|]; [|exact Hd]. refine (dpres_win _ _ a n d Hd). fpres.
Qed.
#[local] Hint Resolve dpres_sem_perform : dframe.

Lemma dpres_invoke hwnd point : dpres (I := I) (invoke_at_point sha256 f64_to_string uia os guard hwnd point).
Proof. unfold invoke_at_point. drun. Qed.

Lemma dpres_behind w action : stays_behind action = true -> dpres (I := I) (input_perform os sys guard w action).
Proof. intros Hb. apply dpres_through, dpres_win. by apply (pres_queued_behind ok_quiet). Qed.

Lemma dpres_semantic a : dpres (I := I) (dispatch_semantic_action sha256 f64_to_string uia os sys guard a).
Proof. unfold dispatch_semantic_action, semantic_perform. drun. apply dpres_through. drun. Qed.

(** An action that needs no foreground. *)
Lemma dpres_dispatch_behind current a restore : needs_foreground a = false ->
  dpres (I := I) (dispatch_action sha256 f64_to_string paths uia os sys guard current a restore).
Proof.
  intros Hf. pose proof dpres_behind as Hb. destruct a as [|bounds|minimized| |key|key|point button count []|point button duration|key value|key value|key|key|key expanded|point duration|text|keys|point dx dy|from to duration];
    try discriminate Hf; cbn [dispatch_action].
  1, 2, 3: drun; by apply dpres_behind.
  3: { assert (Hi : dpres (I := I) (dispatch_input_action os sys guard current (DAClickPoint point button count Prefer_Background)))
         by by apply dpres_ok, dpres_behind.
       unfold semantic_invoke_at_point. pose proof dpres_invoke. drun. by apply dpres_through. }
  all: drun; apply dpres_semantic.
Qed.

End Quiet.

Section Every.
Context (ok_every : forall x, ok x = true).

Lemma dpres_input w action : dpres (I := I) (input_perform os sys guard w action).
Proof. apply dpres_through, dpres_win, pres_queued, ok_every. Qed.

Lemma dpres_dispatch current a restore : dpres (I := I) (dispatch_action sha256 f64_to_string paths uia os sys guard current a restore).
Proof.
  destruct (needs_foreground a) eqn:Hf; [|by apply (dpres_dispatch_behind (fun x _ => ok_every x))].
  assert (Hown : dpres (I := I) (input_foreground_owner os sys)) by apply dpres_through, dpres_win, pres_foreground_owner.
  assert (Hfore : forall action previous, dpres (I := I) (input_perform_foreground os sys guard current action restore previous)).
  { intros. apply dpres_through, dpres_win, pres_perform_foreground, ok_every. }
  destruct a as [|bounds|minimized| |key|key|point button count []|point button duration|key value|key value|key|key|key expanded|point duration|text|keys|point dx dy|from to duration];
    try discriminate Hf; cbn [dispatch_action]; drun; apply dpres_input.
Qed.

End Every.

(** [perform_action] and the scoped one, given the dispatch. *)
Lemma dpres_perform window a allow restore :
  (needs_foreground a && negb allow = false -> forall current, dpres (I := I) (dispatch_action sha256 f64_to_string paths uia os sys guard current a restore)) ->
  dpres (I := I) (perform_action sha256 f64_to_string paths uia os sys guard window a allow restore).
Proof. intros Hd. unfold perform_action. destruct (needs_foreground a && negb allow); [drun|]. specialize (Hd eq_refl). drun. Qed.

End Operations.

(** * Two invariants *)

(** Nothing was sent to the foreground. *)
Definition kept_behind (_ : bool) (w : WinWorld) : Prop := Forall (fun x => uses_foreground x = false) (ww_log w).

#[export] Instance kept_behind_invariant os guard : WinInvariant os guard kept_behind (fun x => negb (uses_foreground x)).
Proof.
  split; [done|done| |].
  - intros a w Hw. unfold win_begin_dispatch. destruct (os_input_desktop_available _ _), guard as [[lease observed]|]; cbn; [| |by destruct (check _ _ _)|done].
    + destruct (begin_dispatch _ _ _ _) as [g [[]|e]]; cbn; [|done]. apply Forall_app. split; [done|]. by constructor.
    + apply Forall_app. split; [done|]. by constructor.
  - intros x w Hx Hw. apply Forall_app. split; [done|]. constructor; [by apply negb_true_iff|constructor].
Qed.

Section Lease.
Context (os : Native) (lease : nat) (observed_at : option Z).

(** The lease belongs to this command: no other task begins a dispatch with it
    or drops it. *)
Definition owned : Prop := forall n e, e ∈ os_events os n -> match e with EvDrop l | EvBegin l _ _ => l <> lease | _ => True end.
Context (lease_owned : owned).

Lemma owned_kept n : EvDrop lease ∉ os_events os n.
Proof. intros H. by apply lease_owned in H. Qed.

(** The lease has dispatched, or nothing had an effect. *)
Definition accounted (a : bool) (w : WinWorld) : Prop := state lease touches a true w \/ state lease touches true false w.

#[export] Instance accounted_invariant : WinInvariant os (Some (lease, observed_at)) accounted (fun _ => true).
Proof.
  split.
  - intros w [(Hi & (b & Hl & Hb) & Hc)|Hw]; [left|by right]. split_and!; [done| |done]. by exists b.
  - intros a wait w [Hw|Hw]; [left|right]; (eapply state_tick; [apply owned_kept|done]).
  - intros a w [Hw|Hw].
    + pose proof (state_begin_both os lease observed_at owned_kept touches (fun x H => H) a true (orb_true_r a) w Hw) as H.
      destruct (win_begin_dispatch _ _ w) as [w' [[]|e]]; [by left|left; exact (proj1 H)].
    + pose proof (state_begin_both os lease observed_at owned_kept touches (fun x H => H) true false eq_refl w Hw) as H.
      destruct (win_begin_dispatch _ _ w) as [w' [[]|e]]; [by right|right; exact (proj1 H)].
  - intros x w _ Hw. right. destruct Hw as [Hw|Hw]; by eapply (state_logged _ _ _ _ false).
Qed.

Lemma accounted_start w b : guard_inv (ww_guard w) -> gs_leases (ww_guard w) !! lease = Some b -> ww_log w = [] -> accounted false w.
Proof. intros Hi Hl Hlog. left. split; [done|]. split; [by exists b|]. unfold touched. by rewrite Hlog. Qed.

Lemma accounted_lease a w : accounted a w -> guard_inv (ww_guard w) /\ is_Some (gs_leases (ww_guard w) !! lease).
Proof. intros [(Hi & (b & Hl & _) & _)|(Hi & (b & Hl & _) & _)]; by eauto. Qed.

(** While no other task uses the lease, only its own dispatch changes it. *)
Lemma tick_flag w wait a : accounted a w -> was_dispatched (ww_guard (tick os wait w)) lease = was_dispatched (ww_guard w) lease.
Proof.
  intros Ha. destruct (accounted_lease _ _ Ha) as [Hi Hl]. unfold was_dispatched, tick. cbn [ww_guard].
  pose proof (lease_owned (ww_at w)) as Ho. destruct (run_events (ww_guard w) _) as [g|] eqn:E; cbn [default]; [|done].
  f_equal. revert Hi Hl Ho E. generalize (ww_guard w) (os_events os (ww_at w)). clear. intros s es. revert s.
  induction es as [|e es IH]; intros s Hi Hl Ho; cbn [run_events]; [by intros [= <-]|].
  destruct (apply_event s e) as [s1|] eqn:E; [|done]. intros Hr.
  assert (Hs1 : gs_leases s1 !! lease = gs_leases s !! lease).
  { pose proof (Ho e ltac:(by left)) as He. clear Hr IH. destruct Hl as [b Hb]. destruct e; cbn in E; try injection E as <-; try done.
    - cbn. rewrite lookup_insert_ne; [done|]. intros <-. pose proof (gi_fresh s Hi (gs_next_lease s) ltac:(eauto)). lia.
    - unfold record_user_input_state. cbn. case_match; [done|]. unfold user_took_over, interrupt. by case_match.
    - unfold user_took_over, interrupt. by case_match.
    - unfold activity_monitor_failed, interrupt. by case_match.
    - destruct (gs_leases s !! lease0) eqn:El; [|done]. injection E as <-.
      destruct (begin_dispatch_cases s lease0 observed_at now) as [-> | [_ ->]]; [done|]. cbn. by rewrite lookup_insert_ne.
    - destruct (gs_leases s !! lease0) eqn:El; [|done].
      unfold drop_lease in E. destruct (was_dispatched s lease0); [case_match; [done|]|]; injection E as <-; cbn; by rewrite lookup_delete_ne. }
  rewrite <- Hs1. apply IH; [by eapply apply_event_inv|by rewrite Hs1|intros e' He'; apply Ho; by right|done].
Qed.

Definition flag (d : DrvWorld) : bool := was_dispatched (ww_guard (dv_win d)) lease.
Definition later (d : DrvWorld) : DrvWorld := {| d with dv_win := tick os 0 (dv_win d) |}.

Lemma later_frame n d : frame (I := accounted) false n d -> frame (I := accounted) false n (later d) /\ flag (later d) = flag d.
Proof. intros [Ha Hn]. split; [split; [by apply inv_tick|done]|]. by apply (tick_flag _ _ false). Qed.

(** What is true at the end of a command that reports its flag. *)
Lemma accounted_end n d : frame (I := accounted) false n d -> flag d = false -> forall x, x ∈ ww_log (dv_win d) -> touches x = false.
Proof.
  intros [[(_ & _ & Hc)|(_ & (b & Hl & Hb) & _)] _] Hf x Hx.
  - specialize (Hc eq_refl). unfold touched in Hc. destruct (touches x) eqn:E; [|done]. rewrite <- Hc. symmetry. apply existsb_exists. exists x. by rewrite <- list_elem_of_In.
  - unfold flag in Hf. by rewrite (was_dispatched_lookup _ _ _ Hl), (Hb eq_refl) in Hf.
Qed.

End Lease.

(** * The promises *)

Section Claims.
Context (sha256 : list Z -> list Z) (f64_to_string : f64 -> string).
Context (paths : PathRules) (uia : SemSystem) (os : Native) (sys : DrvSystem).

(** What an action claims of its effect is what its evidence supports. *)
Lemma dispatch_coherent guard current a restore :
  triple (fun _ => True) (dispatch_action sha256 f64_to_string paths uia os sys guard current a restore)
    (fun r _ => forall output, r = Ok output -> evidence_is_coherent output = true).
Proof.
  assert (Hret : forall o, evidence_is_coherent o = true -> triple (fun _ : DrvWorld => True) (iret o) (fun r _ => forall output, r = Ok output -> evidence_is_coherent output = true))
    by (intros o Ho d _ output [= <-]; done).
  assert (Hbind : forall X (m : Act X) k, (forall x, triple (fun _ : DrvWorld => True) (k x) (fun r _ => forall output, r = Ok output -> evidence_is_coherent output = true)) ->
    triple (fun _ : DrvWorld => True) (ibind m k) (fun r _ => forall output, r = Ok output -> evidence_is_coherent output = true)).
  { intros X m k Hk. by apply (triple_bind _ _ _ (fun _ _ => True)). }
  destruct a as [|bounds|minimized| |key|key|point button count []|point button duration|key value|key value|key|key|key expanded|point duration|text|keys|point dx dy|from to duration];
    cbn [dispatch_action]; repeat (apply Hbind; intros ?); by apply Hret.
Qed.

(** [perform_action] keeps the frame, and success is coherent and counted. *)
Lemma perform_counts lease observed_at (Ho : owned os lease) window a allow restore n :
  triple (frame (I := accounted lease) false n) (perform_action sha256 f64_to_string paths uia os sys (Some (lease, observed_at)) window a allow restore)
    (fun r d => frame (I := accounted lease) false n d /\
       match r with Ok output => evidence_is_coherent output = true /\ (n < dv_invalidated d)%nat | Err _ => True end).
Proof.
  pose proof (accounted_invariant os lease observed_at Ho) as Hinv. unfold perform_action. destruct (needs_foreground a && negb allow); [by intros d Hd|].
  eapply triple_bind; [by apply (dpres_windows paths os sys (Some (lease, observed_at)) _ (fun _ => true))| |by intros e d Hd; split].
  intros all. cbn beta. eapply triple_bind; [apply dpres_raise| |by intros e d Hd; split]. intros current. cbn beta.
  apply (triple_keep _ _ _ (fun r d => frame (I := accounted lease) false n d /\ forall output, r = Ok output -> evidence_is_coherent output = true)).
  - intros d Hd. split; [by apply (dpres_dispatch _ _ paths uia os sys (Some (lease, observed_at)) _ (fun _ => true) (fun _ => eq_refl))|by apply dispatch_coherent].
  - intros [output|e] d [[Ha Hn] Hc]; cbn; [|by split]. split; [split; [done|cbn; lia]|]. split; [by apply Hc|lia].
Qed.

(** The state of a command whose flag is [b] and that invalidated more than
    [n] times if [hit]. *)
Definition stands (lease : nat) (n : nat) (b hit : bool) (d : DrvWorld) : Prop :=
  frame (I := accounted lease) false n d /\ flag lease d = b /\ (hit = true -> (n < dv_invalidated d)%nat).

Definition answered (lease : nat) (n : nat) (b : bool) (r : Result DriverActionOutput DriverError) (d : DrvWorld) : Prop :=
  stands lease n b b d /\
  match r with
  | Ok output => evidence_is_coherent output = true /\ (n < dv_invalidated d)%nat
  | Err e => de_mutation_status e = if b then Indeterminate else NotDispatched
  end.

Lemma stands_later lease n b hit d : owned os lease -> stands lease n b hit d -> stands lease n b hit (later os d).
Proof. intros Ho (Hf & Hb & Hh). destruct (later_frame os lease None Ho n d Hf) as [Hf' Hb']. split_and!; [done|by rewrite Hb'|done]. Qed.

(** The refusal of the guard has the status of the flag. *)
Lemma check_stands lease observed_at n b hit : owned os lease ->
  triple (stands lease n b hit) (on_win (check_guard os (Some (lease, observed_at))))
    (fun r d => stands lease n b hit d /\ forall e, r = Err e -> de_mutation_status e = if b then Indeterminate else NotDispatched).
Proof.
  intros Ho d Hd. apply stands_later in Hd; [|done]. unfold on_win, check_guard. cbn zeta. fold (later os d). split; [done|]. cbn [snd].
  intros e He. rewrite (refusal_status lease _ _ _ He). destruct Hd as (_ & <- & _). done.
Qed.

Lemma read_stands lease n b hit : owned os lease ->
  triple (stands lease n b hit) (read_dispatched os lease) (fun r d => stands lease n b hit d /\ r = Ok b).
Proof.
  intros Ho d Hd. apply stands_later in Hd; [|done]. unfold read_dispatched. cbn zeta. fold (later os d). split; [done|].
  destruct Hd as (_ & <- & _). done.
Qed.

(** The end of the scoped call, from the answer of the inner one. *)
Lemma scoped_end lease observed_at n b result : owned os lease ->
  triple (fun d => stands lease n b false d /\ match result with Ok output => evidence_is_coherent output = true /\ (n < dv_invalidated d)%nat | Err _ => True end)
    (let& dispatched := read_dispatched os lease in
     (if dispatched : bool then invalidate_after_mutation else iret tt) ;&
     ikeep (let& output := drv_raise result in on_win (check_guard os (Some (lease, observed_at))) ;& iret output) (fun result =>
       match result with
       | Ok output => iret output
       | Err e => let& dispatched := read_dispatched os lease in ierr (if dispatched : bool then mutation_indeterminate e else mutation_not_dispatched e)
       end))
    (answered lease n b).
Proof.
  intros Ho. set (won := fun d => match result with Ok output => evidence_is_coherent output = true /\ (n < dv_invalidated d)%nat | Err _ => True end).
  apply (triple_bind _ _ _ (fun r d => (stands lease n b false d /\ won d) /\ r = Ok b)).
  { intros d [Hd Hw]. destruct (read_stands lease n b false Ho d Hd). done. }
  2: { intros e d [_ ?]. done. }
  intros dispatched. apply (triple_bind _ _ _ (fun r d => (stands lease n b b d /\ won d) /\ r = Ok tt)).
  { intros d [[(Hf & Hb & _) Hw] [= ->]]. destruct b; cbn; [|by split_and!]. destruct Hf as [Ha Hn]. split; [|done].
    split; [split; [split; [done|cbn; lia]|split; [done|cbn; lia]]|]. unfold won in *. destruct result; [|done]. cbn. destruct Hw. split; [done|lia]. }
  2: { intros e d [_ ?]. done. }
  intros []. eapply triple_keep.
  - apply (triple_mono (fun d => stands lease n b b d /\ won d) _ _
      (fun r d => stands lease n b b d /\ match r with Ok output => evidence_is_coherent output = true /\ (n < dv_invalidated d)%nat | Err _ => True end)); [by intros d []|intros r d H; exact H|].
    unfold won. destruct result as [output|e]; [|by intros d [Hd _]]. intros d [Hd [Hc Hn]]. unfold ibind, drv_raise.
    pose proof (check_stands lease observed_at n b b Ho d Hd) as [Hd' _]. unfold on_win, check_guard in *. cbn zeta in *. fold (later os d) in *. cbn [fst] in Hd'.
    destruct (check _ _ _); cbn; by split.
  - intros [output|e]; [by intros d Hd|]. intros d [Hd _]. revert d Hd. eapply triple_bind; [by apply read_stands| |by intros ? d [_ ?]].
    intros dispatched' d [Hd [= ->]]. split; [done|]. by destruct b.
Qed.


(** C17: The driver's answer to an action tells the truth.  When it is an error,
    it says that nothing was dispatched exactly when the lease was not used, and
    then no input was accepted, no message sent, no pattern called and no window
    closed, shown, moved or fronted; otherwise it says that the effect is not
    known.  Success comes with evidence that supports what it claims.  After a
    dispatch, and after success, captured frames were invalidated. *)
Theorem win_driver_truthful window a allow restore lease observed_at d :
  owned os lease -> guard_inv (ww_guard (dv_win d)) -> gs_leases (ww_guard (dv_win d)) !! lease = Some false -> ww_log (dv_win d) = [] ->
  let '(d', r) := perform_action_scoped sha256 f64_to_string paths uia os sys window a allow restore lease observed_at d in
  let dispatched := was_dispatched (ww_guard (dv_win d')) lease in
  (dispatched = false -> forall x, x ∈ ww_log (dv_win d') -> touches x = false) /\
  (dispatched = true -> (dv_invalidated d < dv_invalidated d')%nat) /\
  match r with
  | Ok output => evidence_is_coherent output = true /\ (dv_invalidated d < dv_invalidated d')%nat
  | Err e => de_mutation_status e = if dispatched then Indeterminate else NotDispatched
  end.
Proof.
  intros Ho Hi Hl Hlog. set (n := dv_invalidated d).
  assert (H0 : stands lease n false false d).
  { split; [split; [by eapply accounted_start|done]|]. split; [by apply was_dispatched_lookup|done]. }
  enough (Hend : triple (stands lease n false false) (perform_action_scoped sha256 f64_to_string paths uia os sys window a allow restore lease observed_at)
    (fun r d' => exists b, answered lease n b r d')).
  { specialize (Hend d H0). destruct (perform_action_scoped _ _ _ _ _ _ _ _ _ _ _ _ d) as [d' r]. destruct Hend as (b & (Hf & Hb & Hh) & Hr). cbn [fst snd] in *.
    fold (flag lease d'). rewrite Hb. split; [intros ->; by eapply accounted_end|]. by split. }
  unfold perform_action_scoped. eapply triple_bind; [by apply check_stands| |].
  2: { intros e d1 [Hd1 He]. exists false. split; [done|]. by apply (He e). }
  intros []. cbn beta. eapply triple_keep.
  { eapply triple_mono; [|intros r d1 H; exact H|apply (perform_counts lease observed_at Ho window a allow restore n)]. by intros d1 [(Hd1 & _) _]. }
  intros result d1 [Hd1 Hout].
  exists (flag lease d1).
  apply scoped_end; [done|]. split; [by split_and!|done].
Qed.



End Claims.

(** * A desktop with one window *)

Module Desk.
Definition os : Native := {| Pane.willing with os_process_generation := fun _ _ => Some 4294967298 |}.

Definition rules : PathRules := {| extension := fun _ => None; file_stem := fun _ => Some "A"%string; path_starts_with := fun _ _ => true; to_lowercase := fun s => s |}.

Definition sys : DrvSystem := {|
  sy_discovery := {| di_enum_windows := fun _ => Some [5]; di_row := fun _ _ => Row.notes; di_enum_monitors := fun _ => ([], true); di_monitor := fun _ _ => None |};
  sy_discovery_queue := fun _ => (Some [], true); sy_input_queue := fun _ => (Some [], true); sy_semantic_queue := fun _ => (Some [], true);
  sy_launch_queue := fun _ => (Some [], true); sy_clipboard_queue := fun _ => (Some [], true); sy_com_ready := true;
  sy_capture := fun _ _ _ _ => Err (driver_error DPlatform "no frame"); sy_capture_display := fun _ _ _ => Err (driver_error DPlatform "no frame");
  sy_provenance_permit := fun _ => true; sy_provenance_joins := fun _ => true; sy_provenance := fun _ _ => (None, SigUnknown) |}.

Definition uia : SemSystem := {|
  se_root := fun _ _ _ => Err ProviderTimeout; se_refresh := fun _ _ => Err ProviderTimeout; se_pattern := fun _ _ _ => false; se_call := fun _ => None |}.

Definition before : DrvWorld := {| dv_win := Pane.start; dv_sem := {| ss_next_snapshot := 0; ss_snapshots := [] |}; dv_invalidated := 0 |}.
Definition target : DriverWindow := driver_window Row.window.

#[local] Abbreviation scoped := (perform_action_scoped (fun bytes => bytes) (fun _ => "0"%string) rules uia os sys).

Lemma win_driver_truthful_witness :
  (scoped target (DATypeText "hi") true false 0 None before).2 = Ok (unverified Foreground) /\
  let '(d', r) := scoped target (DATypeText "hi") true false 0 None before in
  let dispatched := was_dispatched (ww_guard (dv_win d')) 0 in
  (dispatched = false -> forall x, x ∈ ww_log (dv_win d') -> touches x = false) /\
  (dispatched = true -> (dv_invalidated before < dv_invalidated d')%nat) /\
  match r with
  | Ok output => evidence_is_coherent output = true /\ (dv_invalidated before < dv_invalidated d')%nat
  | Err e => de_mutation_status e = if dispatched then Indeterminate else NotDispatched
  end.
Proof.
  split; [vm_compute; reflexivity|].
  apply (win_driver_truthful (fun bytes => bytes) (fun _ => "0"%string) rules uia os sys target (DATypeText "hi") true false 0 None before);
    [by intros n e ?%elem_of_nil| |reflexivity|reflexivity].
  apply (apply_event_inv (guard_init false 1000000000000) EvNew); [apply guard_init_inv|reflexivity].
Defined.

End Desk.
