(* ===== verification/WinStart.v ===== *)
(** Starting an application on Windows, from the driver's command to the window
    that confirms it ([launch_application] of
    [src/crates/platform/src/windows/mod.rs] over the launch actor). *)

From stdpp Require Import pretty.
From Stdlib Require Import Ascii String SpecFloat.
From S2P Require Import Prelude Floats Geometry Text Protocol Errors Driver PrivateState Fingerprint InputText WinInput WinInputProps WinSemantic WinFrame Clipboard WinDiscovery WinLaunch WinLaunchProps WinDriver WinDriverProps.
#[local] Open Scope Z_scope.

(** Time does not go back. *)
Definition not_before (t : Z) (_ : bool) (w : WinWorld) : Prop := t <= ww_time w.

#[export] Instance not_before_invariant os guard t : WinInvariant os guard (not_before t) (fun _ => true).
Proof.
  assert (Htick : forall wait w, t <= ww_time w -> t <= ww_time (WinInput.tick os wait w)) by (intros wait w; cbn; lia).
  split; [done|by intros ? ? ?; apply Htick| |done].
  intros a w Hw. apply (Htick 0) in Hw. unfold win_begin_dispatch. set (w1 := WinInput.tick os 0 w) in *.
  destruct (os_input_desktop_available os _), guard as [[lease ob]|]; [destruct (begin_dispatch _ _ _ _) as [g [[]|e]]| |destruct (check _ _ _)|]; done.
Qed.

Section Starting.
Context (paths : PathRules) (os : Native) (sys : DrvSystem) (shell : Shell).
Context (application : DriverLaunchableApplication) (allow : bool).

#[local] Abbreviation confirm := (confirm_launch paths os sys).

Lemma windows_later d : ww_time (dv_win d) <= ww_time (dv_win (windows paths os sys d).1).
Proof.
  pose proof (dpres_windows paths os sys None (not_before (ww_time (dv_win d))) (fun _ => true) false 0%nat d) as H.
  unfold frame, not_before in H. destruct (windows paths os sys d) as [d' r]. apply H. split; [done|lia].
Qed.

(** Fuel for a round of fifty milliseconds each up to the deadline is
    enough. *)
Lemma confirm_fuel fuel : forall deadline extra d, deadline - ww_time (dv_win d) <= Z.of_nat fuel * LAUNCH_CONFIRM_INTERVAL ->
  confirm (fuel + extra) deadline application allow d = confirm fuel deadline application allow d.
Proof.
  induction fuel as [|fuel IH]; intros deadline extra d Hd; pose proof (windows_later d) as Hw.
  - destruct extra as [|extra]; [done|]. cbn [confirm_launch Nat.add]. unfold ikeep, ibind, drv_raise, on_win, current_time.
    destruct (windows paths os sys d) as [d1 [all|e]]; [|done]. cbn [rmap_err fst] in *. case_match; [done|].
    destruct (Z.leb_spec deadline (ww_time (WinInput.tick os 0 (dv_win d1)))) as [|Hlate]; [done|]. cbn in Hlate, Hd. lia.
  - cbn [confirm_launch Nat.add]. unfold ikeep, ibind, drv_raise, on_win, current_time, drv_sleep, win_sleep.
    destruct (windows paths os sys d) as [d1 [all|e]]; [|done]. cbn [rmap_err fst] in *. case_match; [done|].
    case_match; [done|]. apply IH. cbn. unfold LAUNCH_CONFIRM_INTERVAL, MILLISECOND in *. lia.
Qed.

(** What the wait answers. *)
Lemma confirm_answer fuel deadline d :
  match (confirm fuel deadline application allow d).2 with
  | Ok out => dap_identity (dlo_application out) = dla_identity application /\ (allow = false -> dap_foreground (dlo_application out) = false)
  | Err e => de_mutation_status e = Indeterminate
  end.
Proof.
  revert d. induction fuel as [|fuel IH]; intros d; cbn [confirm_launch]; unfold ikeep, ibind, drv_raise, on_win, current_time, drv_sleep, win_sleep.
  all: destruct (windows paths os sys d) as [d1 [all|e]]; [|done]; cbn [rmap_err].
  all: destruct (List.find _ all) as [w|] eqn:Ew.
  1,3: apply List.find_some in Ew as [_ Hid%str_eqb_eq]; destruct allow, (nw_foreground w) eqn:Ef; cbn; by rewrite ?Ef.
  all: cbn [dv_win fst snd]; destruct (_ <=? _); [done|]. { done. } apply IH.
Qed.

(** The launch with a given fuel for its wait. *)
Definition launch_with (fuel : nat) : Act (W := WinDriverWorld) DriverLaunchOutput :=
  launch_start paths os sys shell application allow ;&
  on_drv (let& started := on_win (current_time os) in confirm fuel (started + LAUNCH_CONFIRM_TIMEOUT) application allow).

(** The start of the file, through the queue of the actor. *)
Lemma start_answer x : coherent (la_cache (wx_launch x)) ->
  let '(x', r) := launch_start paths os sys shell application allow x in
  match r with
  | Ok _ => la_log (wx_launch x') = la_log (wx_launch x) ++ [(dla_launch_target application, allow)] /\
      exists root current s1 s2, describe_shortcut paths shell (dla_launch_target application) root s1 = (s2, Ok (Some current)) /\
        matches_identity application current = true
  | Err e => la_log (wx_launch x') = la_log (wx_launch x) /\ (de_mutation_status e = NotDispatched \/ e = launch_stopped)
  end.
Proof.
  intros Hc. unfold launch_start, through_other, ibind, on_drv, drv_ask, on_win, ask.
  set (q := sy_launch_queue sys _). unfold launch_submit. destruct q as [[pending|] runs]; cbn [fst snd]; [|by split; [|left]].
  destruct (_ <? _)%nat; [|by split; [|left]]. destruct runs; [|by split; [|right]].
  unfold on_launch, run_start. cbn [wx_launch]. destruct (sy_com_ready sys); [|by split; [|left]].
  pose proof (shell_launch_exact paths shell application allow (wx_launch x) Hc) as H. destruct (shell_launch _ _ _ _ _) as [s' [[]|e]]; [done|].
  destruct H. by split; [|left].
Qed.


End Starting.

(** * Starting the shortcut of a menu *)
Module Start.
(** Its window shows the executable of the shortcut. *)
Definition desk : DrvSystem :=
  {| Desk.sys with sy_discovery := {| (sy_discovery Desk.sys) with di_row := fun _ _ =>
       {| Row.notes with wr_image := Some [67; 58; 92; 78; 111; 116; 101; 115; 46; 101; 120; 101] |} |} |}.

Definition before : WinDriverWorld :=
  {| wx_drv := Desk.before; wx_launch := Menu.fresh;
     wx_clip := {| cb_sequence := 7; cb_text := None; cb_open := false; cb_at := 0; cb_handle := 0; cb_blocks := ∅; cb_log := [] |} |}.

End Start.
