(* ===== verification/WinDesktop.v ===== *)
(** The Windows driver as the driver of the runtime.

    [WindowsDriver] implements the interface [DesktopDriver] the runtime is
    proved against with the definitions of the Windows driver.  A call enters
    the actors' world with the time and, for an action, the guard cells of its
    session; it leaves the cells and the time it reached, and the other tasks
    then run until the command resumes.  The theorem discharges the laws the
    runtime relies on. *)

From stdpp Require Import pretty.
From Stdlib Require Import Ascii String SpecFloat.
From S2P Require Import Prelude Floats Geometry Text Protocol Errors Driver PrivateState Fingerprint InputText Activity WinInput WinInputProps WinSemantic WinFrame Clipboard WinDiscovery WinLaunch WinDriver WinDriverProps Session Runtime RuntimeInv RuntimeSpecs.
#[local] Open Scope Z_scope.

(** The state the actors keep between calls. *)
Record WinEnv := {
  we_log : list What;
  we_at : nat;
  we_sem : SemanticState;
  we_invalidated : nat;
  we_launch : LaunchState;
  we_clip : WinClip;
}.

(** What becomes of a registration with the activity monitor: its queue does
    not take it, no reply comes in time, or it replies; [held] is whether it
    saw input held down when it admitted the guard ([admit_guard] of
    [Activity]). *)
Inductive Registered := NotTaken | NoReply | Replied (r : Result unit DriverError) (held : bool).

(** The parameters of the driver. *)
Record WinDesk := {
  dk_sha256 : list Z -> list Z;
  dk_hex_encode : list Z -> string;
  dk_hex_decode : string -> option (list Z);
  dk_f64_to_string : f64 -> string;
  dk_version : string;
  dk_paths : PathRules;
  dk_uia : SemSystem;
  dk_os : Native;
  dk_sys : DrvSystem;
  dk_shell : Shell;
  dk_clip : ClipSystem;
  dk_register : nat -> Registered;
}.

#[local] Abbreviation WorldW := (World WinEnv).

Definition enter (cells : GuardState) (w : WorldW) : WinDriverWorld :=
  {| wx_drv := {| dv_win := {| ww_log := we_log (w_env w); ww_at := we_at (w_env w); ww_time := w_now w; ww_guard := cells |};
                  dv_sem := we_sem (w_env w); dv_invalidated := we_invalidated (w_env w) |};
     wx_launch := we_launch (w_env w); wx_clip := we_clip (w_env w) |}.

Definition leave (x : WinDriverWorld) (w : WorldW) : WorldW :=
  let d := wx_drv x in
  {| w with w_env := {| we_log := ww_log (dv_win d); we_at := ww_at (dv_win d); we_sem := dv_sem d; we_invalidated := dv_invalidated d;
                        we_launch := wx_launch x; we_clip := wx_clip x |};
            w_now := ww_time (dv_win d) |}.

(** ** The cells a driver may leave *)

(** What a call may do to the cells of a session. *)
Record cells_step (g g' : GuardState) : Prop := {
  cs_inv : guard_inv g';
  cs_expires : gs_expires_at g' = gs_expires_at g;
  cs_closed : gs_closed g = true -> gs_closed g' = true;
  cs_latched : gs_interruption g <> 0 -> gs_interruption g' = gs_interruption g;
  cs_drawn : (gs_next_lease g <= gs_next_lease g')%nat;
}.

Lemma cells_step_refl g : guard_inv g -> cells_step g g.
Proof. by intros. Qed.

Lemma cells_step_trans g1 g2 g3 : cells_step g1 g2 -> cells_step g2 g3 -> cells_step g1 g3.
Proof. intros [_ E1 C1 L1 D1] [I2 E2 C2 L2 D2]. split; [done|congruence|auto| |lia]. intros H. rewrite <- L1 by done. apply L2. by rewrite L1. Qed.

Lemma cells_step_interrupt v g : v = 1 \/ v = 2 -> guard_inv g -> cells_step g (interrupt v g).
Proof.
  intros Hv Hi. split; [by apply interrupt_inv|..]; unfold interrupt; [by case_match..| |by case_match].
  intros Hn. by destruct (Z.eqb_spec (gs_interruption g) 0).
Qed.

(** A lease that was drawn, live or not. *)
Lemma cells_step_begin g l ob now : guard_inv g -> (l < gs_next_lease g)%nat -> cells_step g (begin_dispatch g l ob now).1.
Proof.
  intros Hi Hl. destruct (begin_dispatch_cases g l ob now) as [-> | [Hd ->]]; [by apply cells_step_refl|]. split; cbn; [|done..].
  destruct Hi as [Ha Hf Hc]. constructor; cbn; [| |done].
  - unfold dispatched_count in *. destruct (gs_leases g !! l) as [b|] eqn:E.
    + rewrite (was_dispatched_lookup _ _ _ E) in Hd. subst b. rewrite (mcount_insert_over _ _ _ _ _ E). cbn [b2z]. lia.
    + rewrite mcount_insert_new by done. cbn [b2z]. lia.
  - intros x [->|Hx]%lookup_insert_is_Some'; [done|by apply Hf].
Qed.

Lemma cells_step_event g e g' : guard_inv g -> apply_event g e = Some g' -> cells_step g g'.
Proof.
  intros Hi E. split; [by eapply apply_event_inv| | |intros Hn; by eapply apply_event_latched|].
  all: destruct e; cbn in E; try (injection E as <-); cbn; try done; try lia;
    try (unfold record_user_input_state, user_took_over, activity_monitor_failed, interrupt; cbn; repeat case_match; done || lia).
  all: try (destruct (gs_leases g !! lease); [|done]; injection E as <-; by destruct (begin_dispatch_cases g lease observed_at now) as [-> | [_ ->]]).
  all: destruct (gs_leases g !! lease); [|done]; unfold drop_lease in E; destruct (was_dispatched g lease); [case_match; [done|]|]; by injection E as <-.
Qed.

Lemma cells_step_events es g g' : guard_inv g -> run_events g es = Some g' -> cells_step g g'.
Proof.
  revert g. induction es as [|e es IH]; intros g Hi; cbn [run_events]; [intros [= <-]; by apply cells_step_refl|].
  destruct (apply_event g e) as [g1|] eqn:E; [|done]. intros Hr. pose proof (cells_step_event _ _ _ Hi E) as H1.
  eapply cells_step_trans; [exact H1|]. apply IH; [apply H1|done].
Qed.

(** From these cells at this time. *)
Definition clocked (g0 : GuardState) (t0 : Z) (guard : option (nat * option Z)) (_ : bool) (w : WinWorld) : Prop :=
  cells_step g0 (ww_guard w) /\ t0 <= ww_time w /\ match guard with Some (lease, _) => (lease < gs_next_lease (ww_guard w))%nat | None => True end.

#[export] Instance clocked_invariant os g0 t0 guard : WinInvariant os guard (clocked g0 t0 guard) (fun _ => true).
Proof.
  assert (Htick : forall wait w, clocked g0 t0 guard false w -> clocked g0 t0 guard false (WinInput.tick os wait w)).
  { intros wait w (Hc & Ht & Hg). pose proof (cs_inv _ _ Hc) as Hi. unfold clocked, WinInput.tick. cbn [ww_guard ww_time].
    destruct (run_events (ww_guard w) _) as [g|] eqn:E; cbn [default]; [|split_and!; [done|lia|done]]. pose proof (cells_step_events _ _ _ Hi E) as Hs.
    split_and!; [by eapply cells_step_trans|lia|]. destruct guard as [[lease ob]|]; [|done]. cbn in Hg |- *. pose proof (cs_drawn _ _ Hs). lia. }
  split; [done|by intros ? ? ?; apply Htick| |done].
  intros a w Hw. apply (Htick 0) in Hw as (Hc & Ht & Hg). unfold win_begin_dispatch. set (w1 := WinInput.tick os 0 w) in *. pose proof (cs_inv _ _ Hc) as Hi.
  destruct (os_input_desktop_available os _), guard as [[lease ob]|].
  - pose proof (cells_step_begin (ww_guard w1) lease ob (ww_time w1) Hi Hg) as Hb. destruct (begin_dispatch _ _ _ _) as [g r]. cbn [fst] in Hb.
    pose proof (cs_drawn _ _ Hb). assert (Hend : clocked g0 t0 (Some (lease, ob)) true {| w1 with ww_guard := g |}) by (split_and!; [by eapply cells_step_trans|done|cbn in *; lia]).
    by destruct r as [[]|e].
  - done.
  - pose proof (cells_step_interrupt 2 _ (or_intror eq_refl) Hi) as Hb. pose proof (cs_drawn _ _ Hb). unfold activity_monitor_failed.
    assert (Hend : clocked g0 t0 (Some (lease, ob)) a {| w1 with ww_guard := interrupt 2 (ww_guard w1) |}) by (split_and!; [by eapply cells_step_trans|done|cbn in *; lia]).
    by destruct (check _ _ _).
  - done.
Qed.

(** The cells of a call that carries no guard: nobody reads them. *)
Definition no_cells : GuardState := guard_init true 0.

Section Desktop.
Context `{!Executor WinEnv, !HashOrder} (k : WinDesk).

Definition run_unguarded {A} (m : Act (W := WinDriverWorld) A) (w : WorldW) : WorldW * Result A DriverError :=
  let '(x, r) := m (enter no_cells w) in (yield (leave x w), r).

(** A guard is of a session in the heap and of a lease that was drawn from its
    cells; no other can be constructed, and [dangling] stands for that. *)
Definition dangling : DriverError := mutation_not_dispatched (driver_error DSessionUnavailable "no such guard").

Definition run_guarded {A} (id : SessionId) (lease : nat) (m : Act (W := WinDriverWorld) A) (w : WorldW) : WorldW * Result A DriverError :=
  match w_heap w !! id with
  | None => (w, Err dangling)
  | Some s =>
      if (gs_next_lease (se_guard s) <=? lease)%nat then (w, Err dangling) else
      let '(x, r) := m (enter (se_guard s) w) in
      (yield (put_session {| s with se_guard := ww_guard (dv_win (wx_drv x)) |} (leave x w)), r)
  end.

(** [session_started_guarded]: only a session that may use the foreground is
    registered; a reply that does not come interrupts it. *)
Definition session_started (id : SessionId) (allow_foreground : bool) (w : WorldW) : WorldW * Result unit DriverError :=
  if negb allow_foreground then (w, Ok tt) else
  let env := w_env w in
  let w1 := {| w with w_env := {| env with we_at := S (we_at env) |} |} in
  let on_cells f := match w_heap w !! id with Some s => put_session {| s with se_guard := f (se_guard s) |} w1 | None => w1 end in
  match dk_register k (we_at env) with
  | NotTaken => (w1, Err win_unavailable)
  | NoReply => (on_cells activity_monitor_failed, Err win_unavailable)
  | Replied (Ok _) true => (on_cells (fun cells => record_user_input_state cells (w_now w) true), Ok tt)
  | Replied r _ => (w1, r)
  end.

Definition scene_unavailable : DriverError := driver_error DUnsupported "application scene capture is unavailable".

Definition WindowsDriver : DesktopDriver WinEnv := {|
  drv_capabilities := fun w => (w, Ok (windows_capabilities (dk_version k)));
  drv_permission_status := fun w => (w, Ok windows_permission_status);
  drv_list_applications := run_unguarded (on_drv (WinDriver.list_applications (dk_paths k) (dk_os k) (dk_sys k)));
  drv_list_launchable_applications := run_unguarded (WinDriver.launch_list (dk_paths k) (dk_os k) (dk_sys k) (dk_shell k));
  drv_launch_application := fun application allow =>
    run_unguarded (WinDriver.launch_application (dk_paths k) (dk_os k) (dk_sys k) (dk_shell k) application allow);
  drv_session_started_guarded := fun id _ allow_foreground => session_started id allow_foreground;
  drv_session_closed := fun _ w => w;
  drv_list_windows := fun keys => run_unguarded (on_drv (WinDriver.list_driver_windows (dk_paths k) (dk_os k) (dk_sys k) keys));
  drv_list_displays := run_unguarded (on_drv (WinDriver.list_driver_displays (dk_os k) (dk_sys k)));
  drv_observe_display := fun display => run_unguarded (on_drv (WinDriver.observe_display (dk_os k) (dk_sys k) display));
  drv_observe_window_scoped := fun _ window include_screenshot accessibility =>
    run_unguarded (on_drv (WinDriver.observe_window (dk_sha256 k) (dk_hex_encode k) (dk_f64_to_string k) (dk_paths k) (dk_uia k) (dk_os k) (dk_sys k)
      window include_screenshot accessibility));
  drv_observe_application_scene_scoped := fun _ _ _ _ w => (w, Err scene_unavailable);
  drv_settle_window := fun window application_scene =>
    run_unguarded (on_drv (WinDriver.settle_window (dk_sha256 k) (dk_hex_encode k) (dk_hex_decode k) (dk_paths k) (dk_os k) (dk_sys k) window application_scene));
  drv_read_clipboard := fun bound => run_unguarded (WinDriver.read_clipboard (dk_os k) (dk_sys k) (dk_clip k) bound);
  drv_write_clipboard := fun marker text bound => run_unguarded (WinDriver.write_clipboard (dk_os k) (dk_sys k) (dk_clip k) marker text bound);
  drv_observation_is_current := fun window value =>
    run_unguarded (on_drv (WinDriver.observation_is_current (dk_sha256 k) (dk_hex_encode k) (dk_hex_decode k) (dk_paths k) (dk_os k) (dk_sys k) window value));
  drv_perform_action_scoped := fun window a allow_foreground restore_foreground id lease observed_at =>
    run_guarded id lease (on_drv (WinDriver.perform_action_scoped (dk_sha256 k) (dk_f64_to_string k) (dk_paths k) (dk_uia k) (dk_os k) (dk_sys k)
      window a allow_foreground restore_foreground lease observed_at));
  drv_verify_state := fun window predicate =>
    run_unguarded (on_drv (WinDriver.verify_state (dk_sha256 k) (dk_f64_to_string k) (dk_paths k) (dk_uia k) (dk_os k) (dk_sys k) window predicate));
|}.

End Desktop.

(** * Every method keeps the frame *)

Section Methods.
Context (sha256 : list Z -> list Z) (hex_encode : list Z -> string) (hex_decode : string -> option (list Z)) (f64_to_string : f64 -> string).
Context (paths : PathRules) (uia : SemSystem) (os : Native) (sys : DrvSystem) (shell : Shell) (clip : ClipSystem).
Context (guard : option (nat * option Z)) (I : bool -> WinWorld -> Prop) (ok : What -> bool) `{!WinInvariant os guard I ok}.

#[local] Abbreviation kept := (dpres (I := I)).

Lemma kept_ask {A} (f : nat -> A) : kept (drv_ask os f).
Proof. exact (dpres_ask os guard I ok f). Qed.
Lemma kept_windows : kept (windows paths os sys).
Proof. exact (dpres_windows paths os sys guard I ok). Qed.
Lemma kept_sleep wait : kept (drv_sleep os wait).
Proof. unfold drv_sleep. drun. Qed.
Lemma kept_now : kept (on_win (current_time os)).
Proof. apply dpres_win, (pres_current_time os guard I ok). Qed.
#[local] Hint Resolve kept_ask kept_windows kept_sleep kept_now : dframe.

Lemma kept_find window : kept (find_window paths os sys window).
Proof. unfold find_window. drun. Qed.
Lemma kept_capture key hwnd bounds : kept (capture os sys key hwnd bounds).
Proof. unfold capture. drun. Qed.
Lemma kept_snapshot hwnd mode : kept (semantic_snapshot sha256 f64_to_string uia os sys hwnd mode).
Proof. apply (dpres_through os guard I ok), (dpres_snapshot sha256 f64_to_string uia os guard I ok). Qed.
#[local] Hint Resolve kept_find kept_capture kept_snapshot : dframe.

Lemma kept_settle window scene : kept (settle_window sha256 hex_encode hex_decode paths os sys window scene).
Proof.
  assert (Ha : forall left_ first previous, kept (settle_attempts sha256 hex_encode hex_decode paths os sys left_ first window previous)).
  { induction left_ as [|left_ IH]; intros first previous; cbn [settle_attempts]; drun. }
  unfold settle_window. drun.
Qed.

Lemma kept_list_windows keys : kept (list_driver_windows paths os sys keys).
Proof. unfold list_driver_windows. drun. Qed.

Lemma kept_displays : kept (list_driver_displays os sys).
Proof.
  assert (Hd : forall handles, pres (I := I) (describe_displays os (sy_discovery sys) handles)).
  { induction handles as [|raw handles IH]; cbn [describe_displays]; fpres. }
  assert (Hl : kept (displays os sys)) by (apply (dpres_through os guard I ok), dpres_win; unfold WinDiscovery.list_displays; fpres).
  unfold list_driver_displays. drun.
Qed.

Lemma kept_observe_display display : kept (WinDriver.observe_display os sys display).
Proof. unfold WinDriver.observe_display. drun. Qed.

Lemma kept_applications `{!HashOrder} : kept (WinDriver.list_applications paths os sys).
Proof.
  assert (Hf : forall all known, kept (first_windows os sys all known)).
  { induction all as [|w all IH]; intros known; cbn [first_windows]; drun. }
  unfold WinDriver.list_applications. drun.
Qed.

Lemma kept_observe window shot mode : kept (WinDriver.observe_window sha256 hex_encode f64_to_string paths uia os sys window shot mode).
Proof. unfold WinDriver.observe_window. drun. Qed.

Lemma kept_current window value : kept (WinDriver.observation_is_current sha256 hex_encode hex_decode paths os sys window value).
Proof. unfold WinDriver.observation_is_current. drun. Qed.

Lemma kept_verify window predicate : kept (WinDriver.verify_state sha256 f64_to_string paths uia os sys window predicate).
Proof. unfold WinDriver.verify_state. drun. Qed.

(** ** With the other actors *)

Definition whole {A} (m : Act (W := WinDriverWorld) A) : Prop := forall a n, triple (fun x => frame (I := I) a n (wx_drv x)) m (fun _ x => frame (I := I) a n (wx_drv x)).

Lemma whole_drv {A} (m : Act A) : kept m -> whole (on_drv m).
Proof. intros Hm a n x Hx. unfold on_drv. pose proof (Hm a n (wx_drv x) Hx) as H. by destruct (m (wx_drv x)). Qed.

Lemma whole_through {C A} (queue : nat -> option (list C) * bool) submit stopped command (run : Act A) : whole run -> whole (through_other os queue submit stopped command run).
Proof.
  intros Hr a n. unfold through_other. eapply triple_bind; [apply whole_drv, kept_ask| |done]. intros q. destruct (submit _ _); [|by intros x]. destruct q.2; [apply Hr|by intros x].
Qed.

Lemma whole_launch {A} (m : Act (W := LaunchState) A) : whole (on_launch m).
Proof. intros a n x Hx. unfold on_launch. by destruct (m (wx_launch x)). Qed.

Lemma whole_clip {A} (m : Act (W := WinClip) A) : whole (on_clip m).
Proof. intros a n x Hx. unfold on_clip. by destruct (m (wx_clip x)). Qed.

Lemma whole_launch_application application allow : whole (WinDriver.launch_application paths os sys shell application allow).
Proof.
  assert (Hc : forall fuel deadline, kept (confirm_launch paths os sys fuel deadline application allow)).
  { induction fuel as [|fuel IH]; intros deadline; cbn [confirm_launch]; drun. }
  unfold WinDriver.launch_application. intros a n. eapply triple_bind; [apply whole_through, whole_launch| |done]. intros []. apply whole_drv. drun.
Qed.

End Methods.

(** The scoped action, whose guard is the invariant's. *)
Lemma kept_scoped sha256 f64_to_string paths uia os sys lease observed_at I ok `{!WinInvariant os (Some (lease, observed_at)) I ok} window a allow restore :
  (forall x, ok x = true) -> dpres (I := I) (WinDriver.perform_action_scoped sha256 f64_to_string paths uia os sys window a allow restore lease observed_at).
Proof.
  intros Hok.
  assert (Hperf : dpres (I := I) (WinDriver.perform_action sha256 f64_to_string paths uia os sys (Some (lease, observed_at)) window a allow restore)).
  { apply (dpres_perform _ _ _ _ _ _ (Some (lease, observed_at)) _ ok). intros _ current. by apply (dpres_dispatch _ _ _ _ _ _ (Some (lease, observed_at)) _ ok). }
  pose proof (@dpres_read os _ I ok _) as Hread. pose proof (@pres_check os _ I ok _) as Hcheck.
  unfold WinDriver.perform_action_scoped. drun; by apply dpres_win.
Qed.

(** * The laws *)

Section Laws.
Context `{!Executor WinEnv, !HashOrder, !UuidSource} (rt : Runtime) (k : WinDesk).
Context (lawful_executor : LawfulExecutor (E := WinEnv) rt).
#[local] Existing Instance WindowsDriver.

(** Leaving the actors' world is a step of the runtime's. *)
Lemma leave_step x w : Inv rt w -> w_now w <= ww_time (dv_win (wx_drv x)) -> Inv rt (leave x w) /\ Step w (leave x w).
Proof. intros Hi Ht. pose proof Hi as []. by apply (same_core rt w). Qed.

Lemma preserves_yield f : (forall w, Inv rt w -> Inv rt (f w) /\ Step w (f w)) -> preserves rt (fun w => yield (f w)).
Proof.
  intros Hf w Hi. destruct (Hf w Hi) as [Hi1 Hs1]. destruct (law_yield _ lawful_executor (f w) Hi1) as [Hi2 Hs2]. split; [done|]. by etransitivity.
Qed.

Lemma unguarded_ok {A} (m : Act (W := WinDriverWorld) A) :
  (forall g0 t0, whole (clocked g0 t0 None) m) -> method_ok rt (run_unguarded m).
Proof.
  intros Hm. unfold method_ok, run_unguarded.
  assert (Hp : preserves rt (fun w => yield (leave (m (enter no_cells w)).1 w))).
  { apply preserves_yield. intros w Hi. apply leave_step; [done|].
    assert (Hpre : frame (I := clocked no_cells (w_now w) None) false 0 (wx_drv (enter no_cells w))).
    { split; [|apply Nat.le_0_l]. split; [apply cells_step_refl, guard_init_inv|]. split; [cbn; lia|exact Logic.I]. }
    by destruct (Hm no_cells (w_now w) false 0%nat (enter no_cells w) Hpre) as [(_ & Ht & _) _]. }
  intros w Hi. assert (E : (run_unguarded m w).1 = yield (leave (m (enter no_cells w)).1 w)) by (unfold run_unguarded; by destruct (m (enter no_cells w))).
  unfold run_unguarded in E. rewrite E. by apply Hp.
Qed.

Lemma put_cells_step (w : WorldW) id s g : Inv rt w -> w_heap w !! id = Some s -> cells_step (se_guard s) g ->
  Inv rt (put_session {| s with se_guard := g |} w) /\ Step w (put_session {| s with se_guard := g |} w).
Proof. intros Hi Hs [Hg He Hc Hl _]. by apply (set_guard_step rt w id). Qed.

Lemma guarded_ok {A} id lease observed_at (m : Act (W := WinDriverWorld) A) :
  (forall g0 t0, whole (clocked g0 t0 (Some (lease, observed_at))) m) -> method_ok rt (run_guarded id lease m).
Proof.
  intros Hm w Hi. unfold run_guarded. destruct (w_heap w !! id) as [s|] eqn:Hs; [|by split]. destruct (Nat.leb_spec (gs_next_lease (se_guard s)) lease) as [|Hlt]; [by split|].
  pose proof (so_guard _ _ _ _ (i_heap _ _ Hi _ _ Hs)) as Hg.
  assert (Hpre : frame (I := clocked (se_guard s) (w_now w) (Some (lease, observed_at))) false 0 (wx_drv (enter (se_guard s) w))).
  { split; [|apply Nat.le_0_l]. split; [by apply cells_step_refl|]. split; [cbn; lia|exact Hlt]. }
  destruct (Hm (se_guard s) (w_now w) false 0%nat (enter (se_guard s) w) Hpre) as [(Hc & Ht & _) _].
  destruct (m (enter (se_guard s) w)) as [x r]. cbn [fst] in *.
  destruct (leave_step x w Hi Ht) as [Hi1 Hs1]. destruct (put_cells_step (leave x w) id s (ww_guard (dv_win (wx_drv x))) Hi1 Hs Hc) as [Hi2 Hs2].
  destruct (law_yield _ lawful_executor _ Hi2) as [Hi3 Hs3]. split; [done|]. etransitivity; [exact Hs1|]. by etransitivity.
Qed.

(** A registration moves only the environment, and the cells of its session. *)
Lemma started_ok id allow (w : WorldW) : Inv rt w ->
  let w' := (session_started k id allow w).1 in
  Inv rt w' /\ Step w w' /\ w_sessions w' = w_sessions w /\
  forall s, w_heap w !! id = Some s -> exists s', w_heap w' !! id = Some s' /\ se_closed s' = se_closed s.
Proof.
  intros Hi. unfold session_started. destruct (negb allow); [cbn; split_and!; by eauto|].
  set (w1 := {| w with w_env := _ |}).
  assert (H1 : Inv rt w1 /\ Step w w1) by (pose proof Hi as []; by apply (same_core rt w)). destruct H1 as [Hi1 Hs1].
  assert (Hsame : Inv rt w1 /\ Step w w1 /\ w_sessions w1 = w_sessions w /\
    forall s, w_heap w !! id = Some s -> exists s', w_heap w1 !! id = Some s' /\ se_closed s' = se_closed s) by (split_and!; by eauto).
  assert (Hput : forall f, (forall g, guard_inv g -> cells_step g (f g)) -> (forall g, gs_closed (f g) = gs_closed g) ->
    let w2 := match w_heap w !! id with Some s => put_session {| s with se_guard := f (se_guard s) |} w1 | None => w1 end in
    Inv rt w2 /\ Step w w2 /\ w_sessions w2 = w_sessions w /\
    forall s, w_heap w !! id = Some s -> exists s', w_heap w2 !! id = Some s' /\ se_closed s' = se_closed s).
  { intros f Hf Hcl. cbn zeta. destruct (w_heap w !! id) as [s|] eqn:Hs; [|split_and!; [done..|by intros s]].
    pose proof (i_heap _ _ Hi _ _ Hs) as Hok. destruct (put_cells_step w1 id s (f (se_guard s)) Hi1 Hs (Hf _ (so_guard _ _ _ _ Hok))) as [Hi2 Hs2].
    split_and!; [done|by etransitivity|done|]. intros s' [= <-]. exists {| s with se_guard := f (se_guard s) |}. split; [|exact (Hcl (se_guard s))].
    cbn. rewrite <- (so_id _ _ _ _ Hok). by rewrite lookup_insert_eq. }
  destruct (dk_register k _) as [| |[r|e] [|]];
    [exact Hsame|apply (Hput activity_monitor_failed)|apply (Hput (fun cells => record_user_input_state cells (w_now w) true))|exact Hsame..].
  - intros g Hg. apply cells_step_interrupt; [by right|done].
  - intros g. unfold activity_monitor_failed, interrupt. by destruct (gs_interruption g =? 0).
  - intros g Hg. by apply (cells_step_event g (EvUserInput (w_now w) true)).
  - intros g. unfold record_user_input_state, user_took_over, interrupt. cbn. by repeat case_match.
Qed.

(** C16: The Windows driver is a driver the runtime may rely on.  Under an
    executor whose other tasks keep the runtime's invariant, every method of
    the Windows driver, run as the runtime calls it, keeps that invariant and
    makes only the runtime's steps: time does not go back, a session is never
    reopened, an interruption stays, and no session appears or disappears.  So
    every theorem about the runtime holds with this driver. *)
Theorem windows_driver_lawful : @LawfulDriver WinEnv (WindowsDriver k) _ rt.
Proof.
  split.
  - by intros w Hi.
  - by intros w Hi.
  - apply unguarded_ok. intros g0 t0. apply (whole_drv _), (kept_applications _ _ _ None _ (fun _ => true)).
  - apply unguarded_ok. intros g0 t0. apply (whole_through _ None _ (fun _ => true)), whole_launch.
  - intros application allow. apply unguarded_ok. intros g0 t0. apply (whole_launch_application _ _ _ _ None _ (fun _ => true)).
  - intros id lease allow w Hi. destruct (started_ok id allow w Hi) as (? & ? & _). by split.
  - intros id lease allow w. cbn [drv_session_started_guarded WindowsDriver]. unfold session_started. by repeat case_match.
  - intros id lease allow w s Hi Hs Hopen. destruct (started_ok id allow w Hi) as (_ & _ & _ & Hkeep). destruct (Hkeep s Hs) as (s' & Hs' & Hc).
    exists s'. by rewrite Hc.
  - by intros id w Hi.
  - done.
  - intros keys. apply unguarded_ok. intros g0 t0. apply (whole_drv _), (kept_list_windows _ _ _ None _ (fun _ => true)).
  - apply unguarded_ok. intros g0 t0. apply (whole_drv _), (kept_displays _ _ None _ (fun _ => true)).
  - intros d. apply unguarded_ok. intros g0 t0. apply (whole_drv _), (kept_observe_display _ _ None _ (fun _ => true)).
  - intros id x b m. apply unguarded_ok. intros g0 t0. apply (whole_drv _), (kept_observe _ _ _ _ _ _ _ None _ (fun _ => true)).
  - by intros id x b m w Hi.
  - intros x b. apply unguarded_ok. intros g0 t0. apply (whole_drv _), (kept_settle _ _ _ _ _ _ None _ (fun _ => true)).
  - intros n. apply unguarded_ok. intros g0 t0. apply (whole_through _ None _ (fun _ => true)), whole_clip.
  - intros m s n. apply unguarded_ok. intros g0 t0. apply (whole_through _ None _ (fun _ => true)), whole_clip.
  - intros x f. apply unguarded_ok. intros g0 t0. apply (whole_drv _), (kept_current _ _ _ _ _ _ None _ (fun _ => true)).
  - intros x a f r id l o. apply (guarded_ok id l o). intros g0 t0. apply (whole_drv _), (kept_scoped _ _ _ _ _ _ l o _ (fun _ => true)); done.
  - intros x p. apply unguarded_ok. intros g0 t0. apply (whole_drv _), (kept_verify _ _ _ _ _ _ None _ (fun _ => true)).
Qed.

End Laws.

(** ** A desktop *)
Module Bench.
#[local] Existing Instance unary_uuids.

(** Nothing else runs but time. *)
Definition alone : Executor WinEnv := {|
  yield := fun w => w;
  sleep := fun d w => {| w with w_now := w_now w + Z.max 0 d |};
  await_permit := fun w => w;
  select_deadline := fun d w => ({| w with w_now := Z.max (w_now w) d |}, true);
  await_signal := fun w => w;
  format_rfc3339 := fun _ => Some "time"%string;
|}.

Definition desk : WinDesk := {|
  dk_sha256 := fun bytes => bytes; dk_hex_encode := fun _ => "0"%string; dk_hex_decode := fun _ => None; dk_f64_to_string := fun _ => "0"%string;
  dk_version := "1.0"; dk_paths := WinDriverProps.Desk.rules; dk_uia := WinDriverProps.Desk.uia; dk_os := WinDriverProps.Desk.os;
  dk_sys := WinDriverProps.Desk.sys;
  dk_shell := {| sh_known_folder := fun _ _ => FolderMissing; sh_canonicalize := fun _ path => Some path; sh_read_dir := fun _ _ => None;
                 sh_metadata := fun _ _ => None; sh_shortcut_target := fun _ _ => None; sh_opens := fun _ _ => true; sh_information := fun _ _ => None;
                 sh_inspect := fun _ _ => (None, SigUnknown); sh_execute := fun _ => true |};
  dk_clip := {| cl_opens := fun _ => true; cl_others := fun _ => None; cl_data := fun _ => true; cl_locks := fun _ => true; cl_alloc := fun _ => None;
                cl_empties := fun _ => true; cl_places := fun _ => true; cl_next := fun n => Z.of_nat n |};
  dk_register := fun _ => Replied (Ok tt) false;
|}.

Definition runtime : Runtime := {| config := config_new "root"; epoch := "runtime_0" |}.

Lemma alone_lawful : @LawfulExecutor WinEnv alone unary_uuids runtime.
Proof.
  assert (Hlater : forall f : WorldW -> WorldW, (forall w, w_now w <= w_now (f w) /\ f w = {| w with w_now := w_now (f w) |}) -> preserves runtime f).
  { intros f Hf w Hi. destruct (Hf w) as [Hn He]. pose proof Hi as []. rewrite He. by apply (same_core runtime w). }
  split; try (intros; apply Hlater; intros w; split; [cbn; lia|by destruct w]). intros d w. cbn. lia.
Qed.

Lemma windows_driver_lawful_witness : @LawfulDriver WinEnv (@WindowsDriver alone map_to_list_order desk) unary_uuids runtime.
Proof. exact (@windows_driver_lawful alone map_to_list_order unary_uuids runtime desk alone_lawful). Defined.
End Bench.
